(* ===== verification/_CoqProject ===== *)
-Q . S2P
Prelude.v
GoModel.v
Clock.v
FakeClock.v
PoolTypes.v
Tracker.v
TrackerThms.v
TrackerSys.v
TrackerRun.v
Health.v
ConfigTypes.v
Base64.v
Spec.v
SchedTypes.v
Capacity.v
SchedSys.v
SchedInv.v
SchedThms.v
PathMatch.v
Resolve.v
Loops.v
HostTable.v
PoolDecl.v
PoolDeclThms.v
ClaimLoop.v
Lifecycle.v
SchedRun.v
Lease.v
PoolClient.v
FakePool.v
FakeOps.v
FakeLoop.v
FakeSys.v
FakeInv.v
FakeSteps.v
FakeThms.v
FakeBehav.v
FakeEvents.v
FakeServer.v
GoStrings.v
NetIP.v
ConfigImage.v
ConfigDefaults.v
ConfigValidate.v
ConfigThms.v
ConfigValid.v
ConfigLoad.v
ConfigReload.v
ConfigAccept.v
RunnerCfg.v
Registry.v
Shell.v
HostEnv.v
GoContext.v
Executor.v
ExecutorThms.v
ExecutorRun.v
Provider.v
GoFloat.v
ByteSize.v
ConfigShow.v
Transport.v
Watchdog.v
AgentHosts.v
FilePath.v
HostClient.v
FakeServe.v
FakeCmd.v
SSH.v
ClaimPool.v
ClaimEvents.v
ClaimLease.v
Declaration.v
FakeHost.v
FakeExec.v
FlrHealth.v
FlrStart.v
FlrRun.v
Battery.v
DevStack.v
