(* ===== verification/Prelude.v ===== *)
(** * flintlock-runner: a verification development

    flintlock-runner is a GitLab runner that runs every Job in a warm MicroVM
    leased from a Pool Manager.  This development models the parts of its Go
    code that decide things: which configuration is accepted and what it
    declares, how much work may be accepted, which MicroVM a Job gets, who
    owns a Lease or a connection at any moment, what is sent to the guest and
    what its answer means for the Job, and what the Runner believes of the
    Pool Manager and of the Hosts.

    ** The program's parts and the files that model them

    Shared
    - [Prelude] (this file): record update, automation, generic lemmas.
    - [GoModel]: what the sources use of Go itself: integers at their width
      (two's complement, [int32], [int64], [uint64]), times and durations in
      nanoseconds with the saturating [time.Sub], errors as trees with
      [errors.Is], channels used as broadcast signals (a close of a closed
      channel is the flag [chan_panic]), JSON payloads, string order.
    - [Base64], [GoStrings], [PathMatch], [NetIP], [GoFloat], [GoContext],
      [Shell]: encoding/base64, the parts of strings and strconv, path.Match,
      net.ParseIP and JoinHostPort, float64 as far as Duration.Seconds and
      math.Ceil need it, contexts with their deadlines and causes, and the
      quoting for a POSIX shell with the shell's reading of a line.
    - [Clock], [FakeClock]: internal/clock.  The backoff policies with the
      64-bit overflow of their doubling, behind the class [Backoff] with its
      laws; the deterministic clock.

    Configuration (internal/config)
    - [ConfigTypes], [ConfigImage], [ConfigDefaults], [ConfigValidate]: the
      schema, image references, defaults and validation, one definition per
      function; [ConfigThms], [ConfigValid] and [ConfigAccept] hold what is
      proved of them; [ConfigLoad] is the pipeline of load.go, [ConfigReload]
      the loader's options and the Reloader with its subscribers,
      [ConfigShow] show.go, the copy through YAML and its redaction by
      reflection; [ByteSize]: bytesize.go; [RunnerCfg]: runnercfg.go, the translation to
      gitlab-runner's configuration.

    Pool Manager side (internal/poolmgr)
    - [PoolTypes], [Tracker], [TrackerThms], [TrackerSys]: the capacity
      Tracker (tracker.go).  [Tracker] has one definition per method;
      [TrackerSys] interleaves events, questions to the Pool Manager and
      their answers, and the Scheduler's calls.
    - [Health]: health.go.  [Spec]: spec.go, hosts.go and convert.go, which
      derive a Pool's spec from a Profile and send it.  [PoolClient]:
      client.go, the gRPC client and its error mapping.  [Lease]: the
      Claimer, LeaseKeeper and Releaser.
    - [PoolDecl], [PoolDeclThms]: [Declare] of declare.go and the Scheduler's
      declare, declareAll, declareLoop and Reload.  The Pool Manager is behind
      the class [PoolAdmin]; [PoolAdminLaws] is what the comments of that
      interface promise, and [FakeServer] proves it of the fake.
    - [FakePool], [FakeOps], [FakeLoop], [FakeSys], [FakeServer]: the fake Pool
      Manager (internal/poolmgr/fake), its state, handlers, provisioning and
      deletion, their interleaving, and its server and client; [FakeInv],
      [FakeSteps], [FakeThms], [FakeBehav] and
      [FakeEvents] are its invariant and behaviour.
    - [Declaration]: the Declaration type of declare.go, whose map of Pools is
      shared by reloads, retries and the redeclaration of a claim; its
      critical sections are interleaved.
    - [ClaimPool], [ClaimEvents], [ClaimLease]: the Kubernetes claim backend
      (internal/poolmgr/claim).  [ClaimPool] is convert.go and pools.go, with
      the API server behind the class [KubePools] and its laws, the CRD's
      admission and defaults among them;
      [ClaimEvents] is events.go, the hub that turns Pool statuses into the
      events the Tracker reads; [ClaimLease] is backend.go and lease.go, who
      holds a claim and how each is let go of.
    - [Battery]: claimtest/battery.go, the fake battery behind that backend,
      with its claims, Pools, Hosts and MicroVMs, whichever calls fail and
      whether or not they took effect.
    - [TrackerRun]: the goroutines of the Tracker's Run as one machine over
      [TrackerSys].
    - [FakeServe]: the reader goroutine of an events stream, Serve of the
      fake, and the dialler and client with which it drives Hosts.

    Scheduler (internal/scheduler)
    - [SchedTypes], [Capacity]: the data (interfaces.go),
      Handles (handle.go) and accounting (capacity.go).
    - [SchedSys], [SchedInv], [SchedThms]: the Scheduler as
      concurrent threads.  A thread is a call of Reserve, Allocate, Release,
      Retain or CheckLease, a keep-alive loop, or an abort; one step is one
      critical section of allocate.go, release.go, heartbeat.go, health.go or
      agentprobe.go, and the theorems hold for every interleaving.
    - [Resolve]: profile.go and placement.go.  [Loops]: the pacing of
      heartbeat.go, the retry ladder of release.go and the probe of
      agentprobe.go.  [HostTable]: the Host health table, the probes and the
      log throttle.  [ClaimLoop]: the allocation loop of allocate.go as one
      machine per Job over the shared Tracker, health monitor and waiting
      counts.  [Lifecycle]: New, the run state, Reserve and Snapshot.
      [SchedRun]: Run with its loops, background and shutdown, over
      [SchedSys].

    Hosts (internal/flintlock, internal/hostservices)
    - [Registry]: registry.go, the connections to the Hosts, leased by Jobs
      and exchanged by reloads, as interleaved critical sections.
    - [HostEnv]: what the Host Agent publishes on its Node
      (hostservices.go, kubelabels.go) and how the executor reads it into the
      environment of a Job (hostenv.go, hostnode.go).
    - [HostClient]: client.go, dial.go and probe.go, the client of one Host
      with its exec stream and its pipe to the guest's sshd, how a Host is
      dialled, and the probes of the Inventory.
    - [FilePath], [FakeHost], [FakeExec]: path/filepath, and
      the fake Host (internal/flintlock/fake): its MicroVMs, boots, deletes
      and execs as interleaved steps, authentication over gRPC and in memory,
      the exec handler with the process as a parameter, and the in-memory
      stream with the points of Recv between which others act.

    Executor and transport (internal/executor, internal/transport)
    - [Executor]: executor.go in a state and error monad whose state also
      records the calls to the Scheduler, the Host clients and the guest;
      [ExecutorThms] and [ExecutorRun] hold what is proved of it.
      [Provider]: provider.go.
    - [Transport]: exec.go and factory.go; [Watchdog]: watchdog.go as a timed
      automaton; [AgentHosts]: agentexec.go; [SSH]: ssh.go, whose calls of dial
      and Close may overlap, and the class
      [GuestTransport], which is what the executor relies on, with its two
      instances.

    Binaries (cmd)
    - [FlrHealth], [FlrStart], [FlrRun]: cmd/flr.  The health and readiness
      endpoints and the search for the run loop's metrics port; the system
      identifier, the verification of the token and the stop signals; and
      the run from loading the configuration to the exit status, over the
      constructors of the components above.
    - [FakeCmd]: cmd/fake-poolmgr, with package flag; [DevStack]:
      cmd/flintlock-devstack, with the rendering of Job logs.

    ** What the theorems show

    - Capacity: [slots_never_exceeded], [profile_limit_kept],
      [Reserve_iff_capacity], [waiting_is_exact], [Snapshot_faithful].
    - Ownership of Leases: [every_lease_accounted_for],
      [dropped_only_when_gone], [first_cause_wins], [allocation_identity],
      [claim_failure_policy]; of MicroVMs in the fake:
      [fake_leases_exclusive], [fake_one_deletion], [claim_fresh],
      [claim_replay], [tick_expires], [release_deletes]; of connections:
      [registry_connections], [agent_connections], [ssh_connections]; of a
      Job's MicroVM, client and transport: [executor_protocol].
    - The Tracker: [replay_noop], [one_uid_takes_at_most_one],
      [no_lost_wakeup], [owed_poll_settles], [raced_answer_discarded],
      [discards_bounded].
    - Configuration: [Validate_exact] against [config_rules], which writes
      every section's rules out without the validator's functions,
      [ApplyDefaults_idempotent], [Reload_keeps], [Redacted_hides], and, across
      the configuration, the declaration and the fake,
      [valid_config_declared].
    - Pools and Hosts: [Build_correct], [spec_roundtrip], [Reload_converges],
      [fake_refines_PoolAdmin], [host_table_refines], [Healthy_contract],
      [ResolvePlacement_correct], [Apply_converges], [published_read_back].
    - The Job: [job_environment], [Prepare_reports], [waitReady_ends],
      [Run_outcome], [Run_stops], [failed_stage_never_rerun],
      [script_delivered], [exec_outcome], [watch_deadline],
      [commandLine_words], and across executor and transport
      [stage_verdict]: a Stage passes only if the guest said exit status 0.
    - The claim backend: [claim_Declare], [hub_followed],
      [claims_accounted], [claim_heartbeat_verdict], [ClaimVM_verdict]; the
      Declaration: [Sync_converges], [retryFailed_converges],
      [declared_exists].
    - Host clients: [ssh_pipe], [Dial_policy], [Probe_verdict],
      [ProbeAll_exact], [CheckPoolHosts_exact]; the fake Host:
      [fake_host_sound], [mem_as_grpc], [sandboxDir_contained],
      [mergeEnv_overrides], [mem_stream_faithful], and, across executor
      transport and fake Host, [fake_exec_stage]: what a Stage runs, reads,
      prints and answers.
    - Goroutines: [scheduler_run] and [Run_returns] (the Scheduler's Run, from
      its start to its return), [tracker_goroutines], [reloads_in_order],
      [reader_faithful], [fake_Serve_ends].
    - The fake battery: [battery_sound], [battery_counts],
      [reconcile_frees], [waiting_claim_binds], [bound_claim_kept], and
      across it and the claim backend [Heartbeat_of_battery].
    - The binaries: [run_lifecycle], [newRunner_accepts], [stop_signals],
      [systemID_typed], [verifyRunner_decides], [readyz_exact],
      [followRunLoop_exact]; [parseFlags_accepts], [command_closes];
      [trace_chunks], [devstack_exit].
    - Configuration files: [config_show_redacts], [ByteSize_roundtrip],
      [Build_accepts].
    - Absence of panics: [scheduler_never_panics], [tracker_never_panics],
      [provider_life].
    - Some theorems state behaviour that differs from what the code's comments
      intend: [Exponential_Next_uncapped] (an uncapped backoff that stops
      waiting), [not_found_resurrects] (an untracked Pool comes back),
      [CheckLease_stale_expiry] (a live Lease dropped),
      [claim_granted_on_doomed], [event_ids_restart],
      [fake_subscribe_differs], [poolKey_collides],
      [reload_publishes_invalid], [zero_threshold_refused],
      [huge_size_wraps], [Apply_refused_leaks], [claim_pools_collide],
      [stale_spec_declared], [untracked_resurrected], [SSHProxy_nil_pipe],
      [uid_escapes_root], [ParseByteSize_inexact], [wholeSeconds_wraps],
      [redact_misses_map_elements], [slow_subscriber_holds_reload],
      [late_reservation], [recreated_pool_miscounts], [raw_drops_carriage],
      [overlapping_dials_leak], [merged_second_stop],
      [negative_size_panics].

    ** Modelling choices, bounds and fuel

    - What comes from outside is an argument or a section variable: answers of
      the Pool Manager, the Hosts and the guest, clock readings, cancelled
      contexts, text/template, url.Parse, the YAML decoder, the environment,
      files, the generated gRPC stubs, golang.org/x/crypto/ssh, the
      Kubernetes API, gitlab-runner's error values and NormalizeExitCode.
      What is assumed of it is a named hypothesis or a class of laws, and each
      such theorem has a witness: [YamlLaws] (every value comes back, byte
      sizes through their own text), [KubePoolsLaws] (the API server admits
      what the CRD admits and completes it with the CRD's defaults),
      [NewClientConn_verifies] (a handshake succeeds only with the key the
      callback accepts), [PoolAdminLaws], [StatusConditionsLaws].
    - A call to the API server or a Host can be done, refused, or done and
      still answered with an error ([Battery.reply]).  What a failed call
      leaves behind is recorded in fields the code does not have: the
      connections leaked by a refused reload ([Registry.leaked]), the
      MicroVMs and claims of [Battery], the merged and dropped signals of
      [FlrStart.signals].
    - Concurrent code is a step function on shared state, one step per
      critical section (between a Lock and its Unlock, or one receive of a
      select); theorems quantify over all interleavings.  Objects that are
      shared by pointer are numbers in a store.
    - A context is its deadline and the moment and cause of its end, if any;
      the executor's clock and the wall are one.  In the watch automaton time
      advances only while nothing is due, so that a bound on it is a bound on
      the code's reaction up to scheduling.
    - The uint64 counter of ids and generations is kept at its width; the
      theorems about whole histories assume fewer than 2^64 steps, which is
      what makes its values distinct.  Counters of type int that only count
      events (waiting, attempts, failures of a Host) are unbounded integers.
      float64 values are integers scaled by a power of two, rounded to
      nearest even at 53 bits.
    - Loops over maps are loops over [map_to_list], or over any arrangement of
      the map where the order shows; where the source does not sort afterwards
      the theorems do not depend on the order.
    - [Set_loop] of the fake clock is given as many rounds as there are
      timers, [releaseLease_loop] one more than the retry limit,
      [waitReady_loop] and [pollLoop] the timeout over the interval; each is
      proved to finish within that.  Other loops are structural.
    - Log lines and metrics are left out, except where state decides whether
      they are written.  The text of an error is abbreviated; its causes,
      which [errors.Is] sees, are not.

    ** Not modelled

    Logging and metrics output, listeners, the bytes of gRPC, HTTP and SSH,
    the proxying of /metrics, generated code, and the urfave/cli wiring of
    cmd/flr: they pass bytes or call libraries and decide nothing.  The
    end-to-end test harness (internal/testing), the start of a test API server
    (claimtest/env.go), test certificates and hack/ are not part of the
    program. *)
From stdpp Require Export base decidable option list gmap strings numbers fin_maps sorting pretty.
From Stdlib Require Export ZArith Lia.

(** ** Functional record update

    Go mutates struct fields in place; the model rebuilds the record.
    [r <| f := v |>] is the record [r] with field [f] replaced by [v].  A
    record type opts in with an [Eta] instance, its eta expansion. *)
Class Eta (R : Type) := eta_record : R -> R.

Class FieldSetter {R T : Type} (proj : R -> T) := set_field : (T -> T) -> R -> R.

Ltac build_setter proj :=
  match type of proj with
  | ?R -> ?T =>
      let e := constr:(_ : Eta R) in
      let e := eval unfold eta_record in e in
      let e := match e with
               | (fun _ => _) => e
               | _ => eval red in e
               end in
      let p := (eval pattern proj in e) in
      match p with
      | ?abs proj => exact (fun (f : T -> T) (r : R) => abs (fun r' => f (proj r')) r)
      end
  end.

#[export] Hint Extern 0 (FieldSetter ?proj) => build_setter proj : typeclass_instances.

Declare Scope record_scope.
Delimit Scope record_scope with rec.
Open Scope record_scope.
Notation "r <| f := v |>" := (set_field (proj := f) (fun _ => v) r)
  (at level 1, f at level 200, v at level 200, left associativity,
   format "r  <| f  :=  v |>") : record_scope.

(** Turns record updates into record literals. *)
Ltac rec_simpl := unfold set_field in *; simpl in *.

Open Scope Z_scope.

(** ** Automation

    [runner] collects the rewrite and resolution lemmas the components
    share.  [case_all] splits every [if] and [match] on a boolean or a
    [decide] that the goal or a hypothesis exposes. *)
Create HintDb runner discriminated.

Ltac bool_to_prop :=
  repeat match goal with
  | H : (_ && _) = true |- _ => apply andb_true_iff in H; destruct H
  | H : (_ || _) = false |- _ => apply orb_false_iff in H; destruct H
  | H : negb _ = true |- _ => apply negb_true_iff in H
  | H : negb _ = false |- _ => apply negb_false_iff in H
  | H : (_ <=? _) = true |- _ => apply Z.leb_le in H
  | H : (_ <=? _) = false |- _ => apply Z.leb_gt in H
  | H : (_ <? _) = true |- _ => apply Z.ltb_lt in H
  | H : (_ <? _) = false |- _ => apply Z.ltb_ge in H
  | H : (_ =? _) = true |- _ => apply Z.eqb_eq in H
  | H : (_ =? _) = false |- _ => apply Z.eqb_neq in H
  | H : bool_decide _ = true |- _ => apply bool_decide_eq_true_1 in H
  | H : bool_decide _ = false |- _ => apply bool_decide_eq_false_1 in H
  end.

Ltac case_if :=
  match goal with
  | |- context [if ?b then _ else _] =>
      lazymatch b with
      | context [if _ then _ else _] => fail
      | context [match _ with _ => _ end] => fail
      | _ => destruct b eqn:?
      end
  end.

Ltac case_match_opt :=
  match goal with
  | |- context [match ?o with Some _ => _ | None => _ end] =>
      lazymatch o with
      | context [match _ with _ => _ end] => fail
      | _ => destruct o eqn:?
      end
  end.

Ltac case_all := repeat (first [case_if | case_match_opt]; simpl in *); bool_to_prop.

(** Closes a decided goal about concrete values. *)
Ltac by_compute := repeat split; vm_compute; first [reflexivity | discriminate | intros; discriminate].

(** ** Generic lemmas: sums over a list of integers *)
Fixpoint sumZ (l : list Z) : Z :=
  match l with [] => 0 | x :: l => x + sumZ l end.

Lemma sumZ_app l k : sumZ (l ++ k) = sumZ l + sumZ k.
Proof. induction l; simpl; lia. Qed.

Lemma sumZ_perm l k : l ≡ₚ k -> sumZ l = sumZ k.
Proof. induction 1; simpl; lia. Qed.

Lemma sumZ_nonneg l : Forall (fun x => 0 <= x) l -> 0 <= sumZ l.
Proof. induction 1; simpl; lia. Qed.

#[export] Instance sumZ_Proper : Proper ((≡ₚ) ==> (=)) sumZ.
Proof. intros l k H. by apply sumZ_perm. Qed.

(** [map_count P m] is how many entries of a finite map satisfy the boolean
    predicate [P]: a Go loop over a map with a counter. *)
Definition map_count {K A} `{Countable K} (P : A -> bool) (m : gmap K A) : Z :=
  sumZ ((fun x => if P x then 1 else 0) <$> (map_to_list m).*2).

Section map_count.
Context {K A : Type} `{Countable K} (P : A -> bool).
Implicit Types m : gmap K A.

Lemma map_count_empty : map_count P (∅ : gmap K A) = 0.
Proof. unfold map_count. by rewrite map_to_list_empty. Qed.

Lemma map_count_insert_None m k x :
  m !! k = None -> map_count P (<[k:=x]> m) = (if P x then 1 else 0) + map_count P m.
Proof.
  intros Hk. unfold map_count.
  rewrite (sumZ_perm _ ((λ x, if P x then 1 else 0) <$> ((k, x) :: map_to_list m).*2)); [done|].
  by apply fmap_Permutation, fmap_Permutation, map_to_list_insert.
Qed.

Lemma map_count_delete m k x :
  m !! k = Some x -> map_count P (delete k m) = map_count P m - (if P x then 1 else 0).
Proof.
  intros Hk. rewrite <-(insert_delete_id m k x Hk) at 2.
  rewrite map_count_insert_None by apply lookup_delete_eq. lia.
Qed.

Lemma map_count_delete_None m k :
  m !! k = None -> map_count P (delete k m) = map_count P m.
Proof. intros Hk. by rewrite delete_id. Qed.

Lemma map_count_insert_Some m k x y :
  m !! k = Some y ->
  map_count P (<[k:=x]> m) = map_count P m + (if P x then 1 else 0) - (if P y then 1 else 0).
Proof.
  intros Hk. rewrite <-(insert_delete_eq m k x).
  rewrite map_count_insert_None by apply lookup_delete_eq.
  rewrite (map_count_delete m k y Hk). lia.
Qed.

Lemma map_count_nonneg m : 0 <= map_count P m.
Proof. apply sumZ_nonneg, Forall_fmap, Forall_forall. intros x _. simpl. by destruct (P x). Qed.

Lemma map_count_pos m k x : m !! k = Some x -> P x = true -> 1 <= map_count P m.
Proof.
  intros Hk HP. pose proof (map_count_delete m k x Hk) as Hd. rewrite HP in Hd.
  pose proof (map_count_nonneg (delete k m)). lia.
Qed.
End map_count.

(** ** Generic lemmas: sorted lists *)
Lemma StronglySorted_impl_in {A} (R S : A -> A -> Prop) l :
  StronglySorted R l -> (forall x y, x ∈ l -> y ∈ l -> R x y -> S x y) -> StronglySorted S l.
Proof.
  induction 1 as [|x l HS IH HF]; intros HI; constructor.
  - apply IH. intros; apply HI; set_solver.
  - rewrite Forall_forall in *. intros y Hy. apply HI; set_solver.
Qed.
