(* ===== verification/GoModel.v ===== *)
(** * The parts of Go and its standard library the sources use

    Machine integers with their wrap-around, [time.Time] and
    [time.Duration], error values with [errors.Is], channels that are only
    ever closed, decoded JSON values and byte-wise string order.  Everything
    here is executable. *)
From S2P Require Import Prelude.

(** ** Machine integers *)
Definition wrap_signed (w z : Z) : Z := (z + 2 ^ (w - 1)) mod 2 ^ w - 2 ^ (w - 1).
Definition int32 (z : Z) : Z := wrap_signed 32 z.
Definition int64 (z : Z) : Z := wrap_signed 64 z.
Definition uint64 (z : Z) : Z := z mod 2 ^ 64.

Lemma wrap_signed_id w z : 0 < w -> - 2 ^ (w - 1) <= z < 2 ^ (w - 1) -> wrap_signed w z = z.
Proof.
  intros Hw Hz. unfold wrap_signed.
  replace (2 ^ w) with (2 * 2 ^ (w - 1)); [|rewrite <-Z.pow_succ_r by lia; f_equal; lia].
  rewrite Z.mod_small; lia.
Qed.

Lemma int32_id z : -2147483648 <= z <= 2147483647 -> int32 z = z.
Proof. intros. apply wrap_signed_id; simpl; lia. Qed.

Lemma int64_id z : -9223372036854775808 <= z <= 9223372036854775807 -> int64 z = z.
Proof. intros. apply wrap_signed_id; simpl; lia. Qed.

Lemma int32_range z : -2147483648 <= int32 z <= 2147483647.
Proof. unfold int32, wrap_signed. pose proof (Z.mod_pos_bound (z + 2 ^ (32 - 1)) (2 ^ 32)). lia. Qed.

Lemma uint64_id z : 0 <= z < 2 ^ 64 -> uint64 z = z.
Proof. intros. by apply Z.mod_small. Qed.

(** Doubling a positive 64-bit integer either is exact or turns negative. *)
Lemma int64_double z :
  0 < z <= 9223372036854775807 ->
  int64 (z * 2) = z * 2 /\ z * 2 <= 9223372036854775807
  \/ int64 (z * 2) < 0 /\ 9223372036854775807 < z * 2.
Proof.
  intros Hz. destruct (decide (z * 2 <= 9223372036854775807)) as [Hle|Hgt].
  - left. split; [apply int64_id; lia|done].
  - right. split; [|lia]. unfold int64, wrap_signed.
    rewrite (Z.mod_eq _ (2 ^ 64)) by done.
    assert ((z * 2 + 2 ^ (64 - 1)) / 2 ^ 64 = 1) as ->; [|simpl; lia].
    symmetry. apply (Z.div_unique _ _ _ (z * 2 + 2 ^ (64 - 1) - 2 ^ 64)); simpl; lia.
Qed.

(** ** Time

    A [time.Time] is an integer number of nanoseconds, with Go's zero
    [time.Time] at 0; a [time.Duration] is a 64-bit number of nanoseconds.
    [Time.Sub] saturates at the 64-bit bounds, as the package documents. *)
Abbreviation time := Z (only parsing).
Abbreviation duration := Z (only parsing).

Definition minDuration : Z := -9223372036854775808.
Definition maxDuration : Z := 9223372036854775807.
Definition time_Sub (t u : time) : duration := Z.max minDuration (Z.min maxDuration (t - u)).
Definition time_Add (t : time) (d : duration) : time := t + d.
Definition time_Before (t u : time) : bool := t <? u.
Definition time_After (t u : time) : bool := u <? t.
Definition time_IsZero (t : time) : bool := t =? 0.
Definition nanosecond : duration := 1.
Definition millisecond : duration := 1000000.
Definition second : duration := 1000000000.
Definition minute : duration := 60 * second.

Lemma time_Sub_le t u d : t - u <= d -> minDuration <= d -> time_Sub t u <= d.
Proof. unfold time_Sub. lia. Qed.

Lemma time_Sub_exact t u : minDuration <= t - u <= maxDuration -> time_Sub t u = t - u.
Proof. unfold time_Sub. lia. Qed.

(** ** Errors

    The sentinel errors of the packages, and the tree an error value is:
    [errors.New], a sentinel, or [fmt.Errorf] with one or more [%w]. *)
Inductive sentinel :=
  (* internal/poolmgr *)
  | ErrExhausted | ErrNotFound | ErrAlreadyExists | ErrUnavailable | ErrInvalid | ErrAborted
  | PoolErrLeaseLost
  (* internal/scheduler *)
  | ErrAllocationTimeout | ErrPlacementUnresolved | ErrHostNotInInventory | ErrProfileLimit
  | ErrNotRunning | ErrHostUnhealthy | ErrLeaseLost | ErrShutdown | ErrAlreadyRun
  (* internal/flintlock *)
  | HostErrNotFound | HostErrUnimplemented | HostErrUnknownHost | HostErrUnavailable | HostErrUnauthenticated
  (* internal/transport, internal/executor, internal/config *)
  | ErrStreamFailed | ErrNotReady | ErrServiceDisabled
  | ErrPrepared | ExecErrAborted | ErrRefused | ErrNoProfile
  | ConfigErrInvalid | ErrInvalidByteSize
  (* internal/poolmgr/fake, errors *)
  | FakeErrAlreadyRunning | FakeErrStopped | ErrUnsupported
  (* context *)
  | CtxCanceled | CtxDeadlineExceeded
  (* io *)
  | IoEOF.
#[export] Instance sentinel_eq_dec : EqDecision sentinel.
Proof. solve_decision. Defined.

Inductive error :=
  | ENew (msg : string)
  | ESentinel (s : sentinel)
  | EWrap (msg : string) (causes : list error).

Fixpoint errors_Is (e : error) (s : sentinel) : bool :=
  match e with
  | ENew _ => false
  | ESentinel s' => bool_decide (s' = s)
  | EWrap _ es => existsb (fun e => errors_Is e s) es
  end.

(** A Go function that returns [(T, error)]. *)
Inductive result (A : Type) :=
  | Ok (a : A)
  | Err (e : error).
Arguments Ok {A} a.
Arguments Err {A} e.

Definition is_ok {A} (r : result A) : bool := match r with Ok _ => true | Err _ => false end.

(** ** Channels used as broadcast signals

    The sources use unbuffered channels that nobody sends on: a receiver is
    released when the channel is closed.  A channel is its allocation
    number; closing one twice panics in Go, which the store remembers. *)
Record chans := { next_chan : Z; closed_chans : gset Z; chan_panic : bool }.
#[export] Instance eta_chans : Eta chans :=
  fun r => {| next_chan := next_chan r; closed_chans := closed_chans r; chan_panic := chan_panic r |}.

Definition chans0 : chans := {| next_chan := 0; closed_chans := ∅; chan_panic := false |}.

Definition make_chan (cs : chans) : chans * Z :=
  (cs <| next_chan := next_chan cs + 1 |>, next_chan cs).

Definition close_chan (c : Z) (cs : chans) : chans :=
  if bool_decide (c ∈ closed_chans cs)
  then cs <| chan_panic := true |>
  else cs <| closed_chans := {[c]} ∪ closed_chans cs |>.

(** [open_chan cs c]: allocated and not closed. *)
Definition open_chan (cs : chans) (c : Z) : Prop := c < next_chan cs /\ c ∉ closed_chans cs.

(** [chans_ok]: no close has panicked and only allocated channels are closed. *)
Definition chans_ok (cs : chans) : Prop :=
  chan_panic cs = false /\ forall c, c ∈ closed_chans cs -> c < next_chan cs.

Lemma chans_ok_make cs : chans_ok cs -> chans_ok (make_chan cs).1.
Proof. intros [H1 H2]. split; simpl; [done|]. intros c Hc%H2. lia. Qed.

Lemma chans_ok_close cs c : chans_ok cs -> open_chan cs c -> chans_ok (close_chan c cs).
Proof.
  intros [H1 H2] [Hlt Hnc]. unfold close_chan. rewrite bool_decide_false by done.
  split; simpl; [done|]. set_solver by lia.
Qed.

Lemma open_chan_make cs : chans_ok cs -> open_chan (make_chan cs).1 (make_chan cs).2.
Proof. intros [_ H2]. split; simpl; [lia|]. intros ?%H2. lia. Qed.

Lemma open_chan_make_ne cs c : open_chan cs c -> open_chan (make_chan cs).1 c.
Proof. intros [H1 H2]. split; simpl; [lia|done]. Qed.

Lemma open_chan_close_ne cs c c' : open_chan cs c -> c <> c' -> open_chan (close_chan c' cs) c.
Proof.
  intros [H1 H2] Hne. unfold close_chan. case_bool_decide; split; simpl; set_solver.
Qed.

Lemma close_chan_closed cs c : open_chan cs c -> c ∈ closed_chans (close_chan c cs).
Proof. intros [_ H]. unfold close_chan. rewrite bool_decide_false by done. simpl. set_solver. Qed.

Lemma close_chan_mono cs c : closed_chans cs ⊆ closed_chans (close_chan c cs).
Proof. unfold close_chan. case_bool_decide; simpl; set_solver. Qed.

Lemma close_chan_next cs c : next_chan (close_chan c cs) = next_chan cs.
Proof. unfold close_chan. by case_bool_decide. Qed.

#[export] Hint Resolve chans_ok_make chans_ok_close open_chan_make open_chan_make_ne
  open_chan_close_ne close_chan_closed : runner.

(** ** JSON

    The tree [encoding/json] decodes a document to, as far as the event
    payloads use it.  Numbers are the integers an [int32] field accepts;
    any other number is [JOther], which fails to decode into one. *)
Inductive json :=
  | JNull
  | JInt (z : Z)
  | JStr (s : string)
  | JOther
  | JObj (fields : list (string * json)).

(** The raw bytes of a payload: empty, not a JSON document, or the tree. *)
Inductive raw_json :=
  | RawEmpty
  | RawMalformed
  | RawDoc (j : json).

(** Keys match a struct field by name, ignoring case; the last one wins. *)
Definition to_lower (c : Ascii.ascii) : Ascii.ascii :=
  let n := Ascii.nat_of_ascii c in
  if (65 <=? n)%nat && (n <=? 90)%nat then Ascii.ascii_of_nat (n + 32) else c.
Fixpoint string_to_lower (s : string) : string :=
  match s with
  | EmptyString => EmptyString
  | String c s => String (to_lower c) (string_to_lower s)
  end.

Fixpoint json_int32_field (name : string) (fs : list (string * json)) (cur : Z) : option Z :=
  match fs with
  | [] => Some cur
  | (k, v) :: fs =>
      if String.eqb (string_to_lower k) (string_to_lower name) then
        match v with
        | JNull => json_int32_field name fs cur
        | JInt z => if (-2147483648 <=? z) && (z <=? 2147483647)
                    then json_int32_field name fs z else None
        | _ => None
        end
      else json_int32_field name fs cur
  end.

Fixpoint json_string_field (name : string) (fs : list (string * json)) (cur : string) : option string :=
  match fs with
  | [] => Some cur
  | (k, v) :: fs =>
      if String.eqb (string_to_lower k) (string_to_lower name) then
        match v with
        | JNull => json_string_field name fs cur
        | JStr s => json_string_field name fs s
        | _ => None
        end
      else json_string_field name fs cur
  end.

Lemma json_int32_field_range name fs cur z :
  -2147483648 <= cur <= 2147483647 ->
  json_int32_field name fs cur = Some z -> -2147483648 <= z <= 2147483647.
Proof.
  revert cur. induction fs as [|[k v] fs IH]; intros cur Hc; simpl; [by intros [= <-]|].
  destruct (String.eqb _ _); [|by apply IH].
  destruct v; try done; [by apply IH|].
  destruct (_ && _) eqn:E; [|done]. bool_to_prop. apply IH. lia.
Qed.

(** ** Strings

    [sort.Strings] and [sort.Slice] on a string key order by bytes. *)
Definition string_le (a b : string) : Prop := String.leb a b = true.
#[export] Instance string_le_dec : RelDecision string_le := fun a b => decide (String.leb a b = true).

#[export] Instance string_le_total : Total string_le.
Proof. intros a b. unfold string_le. destruct (String.leb_total a b); auto. Qed.

Definition sort_strings (l : list string) : list string := merge_sort string_le l.

Lemma sort_strings_perm l : sort_strings l ≡ₚ l.
Proof. apply merge_sort_Permutation. Qed.

Lemma sort_strings_sorted l : Sorted string_le (sort_strings l).
Proof. apply Sorted_merge_sort, _. Qed.

#[export] Instance string_le_antisymm : AntiSymm (=) string_le.
Proof. intros a b. apply String.leb_antisym. Qed.

(** The byte order is the order of the codes, so it is transitive. *)
Lemma string_compare_le a b :
  String.compare a b <> Gt <-> String.leb a b = true.
Proof. unfold String.leb. by destruct (String.compare a b). Qed.

Lemma string_compare_trans a b c :
  String.compare a b <> Gt -> String.compare b c <> Gt -> String.compare a c <> Gt.
Proof.
  revert b c. induction a as [|x a IH]; intros [|y b] [|z c]; simpl; try done.
  unfold Ascii.compare.
  destruct (N.compare_spec (Ascii.N_of_ascii x) (Ascii.N_of_ascii y)) as [E1|E1|E1],
    (N.compare_spec (Ascii.N_of_ascii y) (Ascii.N_of_ascii z)) as [E2|E2|E2],
    (N.compare_spec (Ascii.N_of_ascii x) (Ascii.N_of_ascii z)) as [E3|E3|E3];
    intros H1 H2; try done; try lia. by apply (IH b c).
Qed.

#[export] Instance string_le_transitive : Transitive string_le.
Proof.
  intros a b c. unfold string_le. rewrite <-!string_compare_le. apply string_compare_trans.
Qed.

(** Sorting forgets the order it was given. *)
#[export] Instance sort_strings_Proper : Proper ((≡ₚ) ==> (=)) sort_strings.
Proof.
  intros l k Hp. apply (StronglySorted_unique string_le).
  - apply Sorted_StronglySorted; [apply _|apply sort_strings_sorted].
  - apply Sorted_StronglySorted; [apply _|apply sort_strings_sorted].
  - by rewrite !sort_strings_perm.
Qed.
