(* ===== verification/Clock.v ===== *)
(** * internal/clock/clock.go: the retry policies

    [Exponential.Next] at the width of [time.Duration], with the overflow
    test the loop makes, behind the interface [Backoff] and its laws. *)
From S2P Require Import Prelude GoModel.

(** ** The Backoff interface *)
Class Backoff (B : Type) := Next : B -> Z -> duration.

(** What every client of a [Backoff] relies on: a wait is never negative. *)
Class BackoffLaws (B : Type) `{Backoff B} (ok : B -> Prop) :=
  Next_nonneg : forall b n, ok b -> 0 <= Next b n.

Record Exponential := { Base : duration; Max : duration }.

Record ZeroBackoff := Zero {}.

(** The loop of [Exponential.Next]: [inl] is an early return. *)
Fixpoint Next_loop (max : duration) (i : nat) (d : duration) : duration + duration :=
  match i with
  | O => inr d
  | S i =>
      let d := int64 (d * 2) in
      if (0 <? max) && (max <=? d) then inl max
      else if d <=? 0 then inl max
      else Next_loop max i d
  end.

Definition Exponential_Next (e : Exponential) (attempt : Z) : duration :=
  let attempt := if attempt <? 0 then 0 else attempt in
  match Next_loop (Max e) (Z.to_nat attempt) (Base e) with
  | inl r => r
  | inr d => if (0 <? Max e) && (Max e <? d) then Max e else d
  end.

#[export] Instance Backoff_Exponential : Backoff Exponential := Exponential_Next.
#[export] Instance Backoff_Zero : Backoff ZeroBackoff := fun _ _ => 0.

(** A policy of positive base, with a cap that is positive when there is one. *)
Definition Exponential_ok (e : Exponential) : Prop :=
  0 < Base e <= maxDuration /\ 0 <= Max e <= maxDuration.

(** What the loop computes with a positive cap: the doubled base, or the cap. *)
Lemma Next_loop_capped max i d :
  0 < d <= maxDuration -> 0 < max <= maxDuration -> d < max ->
  Next_loop max i d = if d * 2 ^ Z.of_nat i <? max then inr (d * 2 ^ Z.of_nat i)
                      else inl max.
Proof.
  revert d. induction i as [|i IH]; intros d Hd Hm Hlt; unfold maxDuration in *.
  { simpl. rewrite Z.mul_1_r. by destruct (Z.ltb_spec d max); [|lia]. }
  rewrite Nat2Z.inj_succ, Z.pow_succ_r by lia.
  pose proof (Z.pow_pos_nonneg 2 (Z.of_nat i)).
  simpl. destruct (Z.ltb_spec 0 max); [|lia].
  destruct (int64_double d) as [[-> Hle]|[Hneg Hbig]]; [lia| |]; simpl.
  - destruct (Z.leb_spec max (d * 2)).
    + by destruct (Z.ltb_spec (d * (2 * 2 ^ Z.of_nat i)) max); [nia|].
    + destruct (Z.leb_spec (d * 2) 0); [lia|]. rewrite IH by lia.
      by rewrite <-Z.mul_assoc.
  - destruct (Z.leb_spec max (int64 (d * 2))); [lia|].
    destruct (Z.leb_spec (int64 (d * 2)) 0); [|lia].
    by destruct (Z.ltb_spec (d * (2 * 2 ^ Z.of_nat i)) max); [nia|].
Qed.

(** What the loop computes with no cap: the doubled base while it fits in 64
    bits, and then the early return of the overflow test. *)
Lemma Next_loop_uncapped i d :
  0 < d <= maxDuration ->
  Next_loop 0 i d = if d * 2 ^ Z.of_nat i <=? maxDuration then inr (d * 2 ^ Z.of_nat i)
                    else inl 0.
Proof.
  revert d. induction i as [|i IH]; intros d Hd; unfold maxDuration in *.
  { simpl. rewrite Z.mul_1_r. by destruct (Z.leb_spec d 9223372036854775807); [|lia]. }
  rewrite Nat2Z.inj_succ, Z.pow_succ_r by lia.
  pose proof (Z.pow_pos_nonneg 2 (Z.of_nat i)).
  simpl. destruct (int64_double d) as [[-> Hle]|[Hneg Hbig]]; [lia| |].
  - destruct (Z.leb_spec (d * 2) 0); [lia|]. rewrite IH by lia. by rewrite <-Z.mul_assoc.
  - destruct (Z.leb_spec (int64 (d * 2)) 0); [|lia].
    by destruct (Z.leb_spec (d * (2 * 2 ^ Z.of_nat i)) 9223372036854775807); [nia|].
Qed.

(** The value of a capped policy, and of one with no cap. *)
Lemma Next_capped_value e n :
  0 < Base e <= maxDuration -> 0 < Max e <= maxDuration -> 0 <= n ->
  Exponential_Next e n = Z.min (Base e * 2 ^ n) (Max e).
Proof.
  intros Hb Hm Hn. unfold Exponential_Next.
  destruct (Z.ltb_spec n 0); [lia|].
  assert (1 <= 2 ^ n) by (pose proof (Z.pow_pos_nonneg 2 n); lia).
  destruct (decide (Base e < Max e)) as [Hlt|Hge].
  - rewrite Next_loop_capped by lia. rewrite Z2Nat.id by lia.
    destruct (Z.ltb_spec (Base e * 2 ^ n) (Max e)); [|lia].
    destruct (Z.ltb_spec 0 (Max e)); [|lia]. simpl.
    destruct (Z.ltb_spec (Max e) (Base e * 2 ^ n)); lia.
  - replace (Z.min _ _) with (Max e) by nia.
    destruct (Z.to_nat n) as [|i] eqn:Ei.
    { simpl. destruct (Z.ltb_spec 0 (Max e)); [|lia]. simpl.
      destruct (Z.ltb_spec (Max e) (Base e)); lia. }
    simpl. destruct (Z.ltb_spec 0 (Max e)); [|lia]. simpl.
    destruct (int64_double (Base e)) as [[-> ?]|[? ?]]; [unfold maxDuration in *; lia| |].
    + destruct (Z.leb_spec (Max e) (Base e * 2)); [done|lia].
    + destruct (Z.leb_spec (Max e) (int64 (Base e * 2))); [done|].
      by destruct (Z.leb_spec (int64 (Base e * 2)) 0); [|lia].
Qed.

Lemma Next_uncapped_value e n :
  0 < Base e <= maxDuration -> Max e = 0 -> 0 <= n ->
  Exponential_Next e n = if Base e * 2 ^ n <=? maxDuration then Base e * 2 ^ n else 0.
Proof.
  intros Hb Hm Hn. unfold Exponential_Next. rewrite Hm.
  destruct (Z.ltb_spec n 0); [lia|].
  rewrite Next_loop_uncapped by lia. rewrite Z2Nat.id by lia.
  by destruct (_ <=? _).
Qed.

Lemma Exponential_Next_neg e n : n < 0 -> Exponential_Next e n = Exponential_Next e 0.
Proof.
  intros Hn. unfold Exponential_Next. simpl. by destruct (Z.ltb_spec n 0); [|lia].
Qed.

#[export] Instance BackoffLaws_Exponential : BackoffLaws Exponential Exponential_ok.
Proof.
  intros e n [Hb Hm]. change (0 <= Exponential_Next e n).
  assert (forall m, 0 <= m -> 0 <= Exponential_Next e m) as Hpos.
  { intros m Hmm. pose proof (Z.pow_pos_nonneg 2 m).
    destruct (decide (Max e = 0)) as [H0|H0].
    - rewrite Next_uncapped_value by lia. destruct (_ <=? _); nia.
    - rewrite Next_capped_value by lia. nia. }
  destruct (decide (n < 0)); [rewrite Exponential_Next_neg by done|]; apply Hpos; lia.
Qed.

#[export] Instance BackoffLaws_Zero : BackoffLaws ZeroBackoff (fun _ => True).
Proof. intros b n _. by unfold Next, Backoff_Zero. Qed.

(** With a positive base and a positive cap the machine-width loop
    computes exactly [min (Base * 2^n) Max] for every attempt [n], however
    large: the overflow of the 64-bit doubling is never observable, the wait
    never shrinks from one attempt to the next and never exceeds the cap. *)
Theorem Exponential_Next_capped e n :
  0 < Base e <= maxDuration -> 0 < Max e <= maxDuration -> 0 <= n ->
  Exponential_Next e n = Z.min (Base e * 2 ^ n) (Max e)
  /\ Exponential_Next e n <= Exponential_Next e (n + 1)
  /\ 0 < Exponential_Next e n <= Max e.
Proof.
  intros Hb Hm Hn. pose proof (Z.pow_pos_nonneg 2 n).
  rewrite !Next_capped_value by lia. rewrite Z.pow_add_r by lia. split; [done|]. nia.
Qed.

Lemma Exponential_Next_capped_witness :
  Exponential_Next {| Base := 500 * millisecond; Max := 30 * second |} 100 = 30 * second.
Proof.
  apply (Exponential_Next_capped {| Base := 500 * millisecond; Max := 30 * second |} 100);
    by_compute.
Defined.

(** With no cap ([Max = 0]) the policy doubles while the value fits in a
    [time.Duration]; from the first attempt that does not fit, the overflow
    branch returns [Max], that is zero, so from attempt 63 on at the latest a
    caller of an uncapped policy no longer waits at all. *)
Theorem Exponential_Next_uncapped e n :
  0 < Base e <= maxDuration -> Max e = 0 -> 0 <= n ->
  (Base e * 2 ^ n <= maxDuration -> Exponential_Next e n = Base e * 2 ^ n)
  /\ (maxDuration < Base e * 2 ^ n -> Exponential_Next e n = 0)
  /\ (63 <= n -> Exponential_Next e n = 0).
Proof.
  intros Hb Hm Hn. rewrite Next_uncapped_value by lia.
  destruct (Z.leb_spec (Base e * 2 ^ n) maxDuration); (repeat split; try lia).
  intros H63. pose proof (Z.pow_le_mono_r 2 63 n). unfold maxDuration in *. nia.
Qed.

Lemma Exponential_Next_uncapped_witness :
  Exponential_Next {| Base := second; Max := 0 |} 34 = 0.
Proof.
  refine (proj1 (proj2 (Exponential_Next_uncapped {| Base := second; Max := 0 |} 34 _ _ _)) _);
    by_compute.
Defined.
