(* ===== verification/FakeClock.v ===== *)
(** * internal/clock/fake.go: the clock that moves when it is told to

    Timers are pointers: the model keeps them in a store by id, and
    [timers] is the pending list.  Every firing is also written to a log, so
    that the order [Set] fires in can be stated. *)
From S2P Require Import Prelude GoModel.

Record fakeTimer := { ch : option time; when : time; seq : Z; active : bool }.
#[export] Instance eta_fakeTimer : Eta fakeTimer :=
  fun r => {| ch := ch r; when := when r; seq := seq r; active := active r |}.

Record Fake := {
  now : time; timers : list Z; clk_seq : Z;
  store : gmap Z fakeTimer; next_id : Z
}.
#[export] Instance eta_Fake : Eta Fake :=
  fun r => {| now := now r; timers := timers r; clk_seq := clk_seq r;
              store := store r; next_id := next_id r |}.

Definition NewFake (start : time) : Fake :=
  {| now := start; timers := []; clk_seq := 0; store := ∅; next_id := 0 |}.

(** Deliver on the one-slot channel; a value already waiting stays. *)
Definition fire (n : time) (tm : fakeTimer) : fakeTimer :=
  match ch tm with
  | None => tm <| ch := Some n |>
  | Some _ => tm
  end.

Definition armLocked (id : Z) (d : duration) (f : Fake) : Fake :=
  match store f !! id with
  | None => f
  | Some tm =>
      let s := clk_seq f + 1 in
      let tm := tm <| seq := s |> <| when := time_Add (now f) d |> in
      let f := f <| clk_seq := s |> in
      if d <=? 0
      then f <| store := <[id := fire (now f) (tm <| active := false |>)]> (store f) |>
      else f <| store := <[id := tm <| active := true |>]> (store f) |>
             <| timers := timers f ++ [id] |>
  end.

Definition NewTimer (d : duration) (f : Fake) : Fake * Z :=
  let id := next_id f in
  let tm := {| ch := None; when := 0; seq := 0; active := false |} in
  (armLocked id d (f <| next_id := id + 1 |> <| store := <[id := tm]> (store f) |>), id).

(** Drop the first occurrence of [id] from the pending list. *)
Fixpoint remove_first (id : Z) (l : list Z) : list Z :=
  match l with
  | [] => []
  | o :: l => if o =? id then l else o :: remove_first id l
  end.

Definition removeLocked (id : Z) (f : Fake) : Fake * bool :=
  match store f !! id with
  | Some tm =>
      if active tm
      then (f <| store := <[id := tm <| active := false |>]> (store f) |>
              <| timers := remove_first id (timers f) |>, true)
      else (f, false)
  | None => (f, false)
  end.

Definition Stop (id : Z) (f : Fake) : Fake * bool := removeLocked id f.

Definition Reset (id : Z) (d : duration) (f : Fake) : Fake * bool :=
  let '(f, was) := removeLocked id f in
  let f := f <| store := alter (fun tm => tm <| ch := None |>) id (store f) |> in
  (armLocked id d f, was).

(** One comparison of the scan in [nextDueLocked]. *)
Definition better (t : time) (f : Fake) (best : option Z) (id : Z) : option Z :=
  match store f !! id with
  | None => best
  | Some tm =>
      if time_After (when tm) t then best else
      match best with
      | None => Some id
      | Some b =>
          match store f !! b with
          | None => Some id
          | Some bt =>
              if time_Before (when tm) (when bt) || ((when tm =? when bt) && (seq tm <? seq bt))
              then Some id else Some b
          end
      end
  end.

Definition nextDueLocked (t : time) (f : Fake) : option Z :=
  fold_left (better t f) (timers f) None.

(** Fire one due timer: [Now] moves to its deadline, it leaves the pending
    list, and its channel gets the new [Now]. *)
Definition fire_next (id : Z) (f : Fake) : Fake :=
  match store f !! id with
  | None => f
  | Some tm =>
      let f := if time_After (when tm) (now f) then f <| now := when tm |> else f in
      let '(f, _) := removeLocked id f in
      f <| store := alter (fire (now f)) id (store f) |>
  end.

Fixpoint Set_loop (fuel : nat) (t : time) (f : Fake) : Fake * list (Z * time) :=
  match fuel with
  | O => (f, [])
  | S fuel =>
      match nextDueLocked t f with
      | None => (if time_After t (now f) then f <| now := t |> else f, [])
      | Some id =>
          let f1 := fire_next id f in
          let '(f', log) := Set_loop fuel t f1 in
          (f', (id, now f1) :: log)
      end
  end.

(** One more round than there are pending timers: each firing removes one. *)
Definition Fake_Set (t : time) (f : Fake) : Fake * list (Z * time) :=
  Set_loop (S (length (timers f))) t f.

Definition Advance (d : duration) (f : Fake) : Fake * list (Z * time) :=
  Fake_Set (time_Add (now f) d) f.

Definition Timers (f : Fake) : Z := Z.of_nat (length (timers f)).

(** ** The clock's invariant *)
Definition pending (f : Fake) (id : Z) (tm : fakeTimer) : Prop :=
  id ∈ timers f /\ store f !! id = Some tm.

Record wf (f : Fake) : Prop := {
  wf_nodup : NoDup (timers f);
  wf_pending : forall id, id ∈ timers f ->
    exists tm, store f !! id = Some tm /\ active tm = true /\ now f <= when tm /\ seq tm <= clk_seq f;
  wf_active : forall id tm, store f !! id = Some tm -> active tm = true -> id ∈ timers f;
  wf_seq : forall id1 id2 t1 t2, pending f id1 t1 -> pending f id2 t2 -> seq t1 = seq t2 -> id1 = id2;
  wf_fresh : forall id, is_Some (store f !! id) -> id < next_id f
}.

(** Fires before: the earlier deadline, ties by creation order. *)
Definition fires_before (a b : fakeTimer) : Prop :=
  when a < when b \/ when a = when b /\ seq a < seq b.

Lemma remove_first_elem id x l : NoDup l -> x ∈ remove_first id l <-> x ∈ l /\ x <> id.
Proof.
  induction 1 as [|y l Hy Hnd IH]; simpl; [set_solver|].
  destruct (Z.eqb_spec y id); set_solver.
Qed.

Lemma remove_first_nodup id l : NoDup l -> NoDup (remove_first id l).
Proof.
  induction 1 as [|y l Hy Hnd IH]; simpl; [constructor|].
  destruct (Z.eqb_spec y id); [done|]. constructor; [|done].
  rewrite remove_first_elem by done. tauto.
Qed.

Lemma remove_first_length id l : id ∈ l -> length l = S (length (remove_first id l)).
Proof.
  induction l as [|y l IH]; [set_solver|]. simpl. destruct (Z.eqb_spec y id); [done|].
  intros ?. simpl. rewrite <-IH; set_solver.
Qed.

(** [best_of t f l b]: [b] is the timer of [l] that is due by [t] and fires
    first, if any is due. *)
Definition best_of (t : time) (f : Fake) (l : list Z) (b : option Z) : Prop :=
  match b with
  | None => forall id tm, id ∈ l -> store f !! id = Some tm -> t < when tm
  | Some x => x ∈ l /\ exists xt, store f !! x = Some xt /\ when xt <= t /\
      forall id tm, id ∈ l -> store f !! id = Some tm -> when tm <= t -> ~ fires_before tm xt
  end.

Lemma fires_before_irrefl a : ~ fires_before a a.
Proof. unfold fires_before. lia. Qed.

Lemma fires_before_trans_neg a b c : ~ fires_before a b -> ~ fires_before b c -> ~ fires_before a c.
Proof. unfold fires_before. lia. Qed.

Lemma fires_before_test a b :
  reflect (fires_before a b) (time_Before (when a) (when b) || ((when a =? when b) && (seq a <? seq b))).
Proof.
  apply iff_reflect. unfold fires_before, time_Before.
  rewrite orb_true_iff, andb_true_iff, Z.ltb_lt, Z.eqb_eq, Z.ltb_lt. done.
Qed.

Lemma best_of_step t f l b y yt :
  store f !! y = Some yt -> best_of t f l b -> best_of t f (l ++ [y]) (better t f b y).
Proof.
  intros Hy Hb. unfold better. rewrite Hy. unfold time_After.
  destruct (Z.ltb_spec t (when yt)) as [Hlt|Hle].
  - destruct b as [x|]; simpl in *.
    + destruct Hb as [Hx (xt & Hxt & Hdue & Hmin)]. split; [set_solver|]. exists xt. split_and!; try done.
      intros id tm [?| ->%list_elem_of_singleton]%elem_of_app Htm ?; [by eapply Hmin|]. simplify_eq. lia.
    + intros id tm [?| ->%list_elem_of_singleton]%elem_of_app Htm; [by eapply Hb|]. by simplify_eq.
  - destruct b as [x|]; simpl in *.
    + destruct Hb as [Hx (xt & Hxt & Hdue & Hmin)]. rewrite Hxt.
      destruct (fires_before_test yt xt) as [Hfb|Hnfb]; (split; [set_solver|]).
      * exists yt. split_and!; try done.
        intros id tm [?| ->%list_elem_of_singleton]%elem_of_app Htm ?.
        -- eapply fires_before_trans_neg; [by eapply Hmin|]. unfold fires_before in *. lia.
        -- simplify_eq. apply fires_before_irrefl.
      * exists xt. split_and!; try done.
        intros id tm [?| ->%list_elem_of_singleton]%elem_of_app Htm ?; [by eapply Hmin|]. by simplify_eq.
    + split; [set_solver|]. exists yt. split_and!; try done.
      intros id tm [Hin| ->%list_elem_of_singleton]%elem_of_app Htm Htle.
      * specialize (Hb _ _ Hin Htm). lia.
      * simplify_eq. apply fires_before_irrefl.
Qed.

Lemma nextDueLocked_spec t f : wf f -> best_of t f (timers f) (nextDueLocked t f).
Proof.
  intros Hwf. unfold nextDueLocked.
  assert (forall id, id ∈ timers f -> is_Some (store f !! id)) as Hst.
  { intros id (tm & ? & _)%(wf_pending f Hwf). by exists tm. }
  clear Hwf. revert Hst. generalize (timers f) as l. induction l as [|y l IH] using rev_ind; intros Hst.
  { simpl. set_solver. }
  rewrite fold_left_app. simpl. destruct (Hst y) as [yt Hy]; [set_solver|].
  eapply best_of_step; [done|]. apply IH. set_solver.
Qed.

(** Firing the timer the scan picked keeps the invariant, moves [Now] to the
    timer's deadline and takes exactly that timer off the pending list. *)
Lemma fire_next_spec t f x xt :
  wf f -> best_of t f (timers f) (Some x) -> store f !! x = Some xt ->
  let f1 := fire_next x f in
  wf f1 /\ now f1 = when xt /\ next_id f1 = next_id f /\ timers f1 = remove_first x (timers f) /\
  forall id, id <> x -> store f1 !! id = store f !! id.
Proof.
  intros Hwf [Hx (xt' & Hxt' & Hdue & Hmin)] Hxt f1. assert (xt' = xt) as -> by congruence.
  destruct (wf_pending f Hwf x Hx) as (xt'' & ? & Hact & Hnow & _).
  assert (xt'' = xt) as -> by congruence.
  assert (exists tx, active tx = false /\ store f1 = <[x := tx]> (store f) /\ now f1 = when xt
    /\ timers f1 = remove_first x (timers f) /\ next_id f1 = next_id f /\ clk_seq f1 = clk_seq f)
    as (tx & Htx & Hst & Hn & Hti & Hid & Hsq).
  { subst f1. unfold fire_next, removeLocked, time_After. rewrite Hxt.
    exists (fire (when xt) (xt <| active := false |>)).
    destruct (Z.ltb_spec (now f) (when xt)); simpl; rewrite Hxt, Hact; simpl;
      rewrite alter_insert_eq; [|replace (now f) with (when xt) by lia];
      (split; [unfold fire; by destruct (ch _)|done]). }
  assert (forall id, id <> x -> store f1 !! id = store f !! id) as Hother.
  { intros id ?. rewrite Hst. by rewrite lookup_insert_ne. }
  pose proof (wf_nodup f Hwf) as Hnd.
  assert (forall id tm, pending f1 id tm -> pending f id tm /\ id <> x) as Hpend.
  { intros id tm [Hin Hl]. rewrite Hti in Hin. apply remove_first_elem in Hin as [? ?]; [|done].
    rewrite Hother in Hl by done. by split. }
  split_and!; try done. split.
  - rewrite Hti. by apply remove_first_nodup.
  - intros id Hin. rewrite Hti in Hin. apply remove_first_elem in Hin as [Hin ?]; [|done].
    destruct (wf_pending f Hwf id Hin) as (tm & Htm & ? & ? & ?). exists tm. rewrite Hother by done.
    split_and!; try done; [|by rewrite Hsq]. rewrite Hn.
    destruct (decide (when tm < when xt)); [|lia].
    exfalso. apply (Hmin id tm); auto; [lia|]. by left.
  - intros id tm Hl Ha. destruct (decide (id = x)) as [->|].
    { rewrite Hst, lookup_insert_eq in Hl. simplify_eq. congruence. }
    rewrite Hother in Hl by done. rewrite Hti. apply remove_first_elem; [done|].
    split; [|done]. by eapply wf_active.
  - intros id1 id2 t1 t2 [H1 _]%Hpend [H2 _]%Hpend. by apply (wf_seq f Hwf).
  - intros id [tm Hl]. rewrite Hid. apply (wf_fresh f Hwf).
    destruct (decide (id = x)) as [->|]; [by eexists|]. rewrite Hother in Hl by done. by eexists.
Qed.

(** What a run of the firing loop leaves and fires. *)
Record Set_result (t : time) (f f' : Fake) (log : list (Z * time)) : Prop := {
  sr_wf : wf f';
  sr_now : now f' = Z.max (now f) t;
  sr_left : forall id, id ∈ timers f' <-> id ∈ timers f /\ exists tm, store f !! id = Some tm /\ t < when tm;
  sr_fired : forall id n, (id, n) ∈ log <->
    id ∈ timers f /\ exists tm, store f !! id = Some tm /\ when tm <= t /\ n = when tm;
  sr_order : StronglySorted (fun a b => forall ta tb, store f !! a.1 = Some ta ->
    store f !! b.1 = Some tb -> ~ fires_before tb ta) log
}.

Lemma Set_result_nil t f :
  wf f -> best_of t f (timers f) None ->
  Set_result t f (if time_After t (now f) then f <| now := t |> else f) [].
Proof.
  intros Hwf Hb. simpl in Hb. unfold time_After.
  assert (forall id, id ∈ timers f -> exists tm, store f !! id = Some tm /\ t < when tm) as Hlate.
  { intros id Hin. destruct (wf_pending f Hwf id Hin) as (tm & ? & _). exists tm. eauto. }
  destruct (Z.ltb_spec (now f) t); (split; simpl; [|lia|naive_solver| |constructor]); try done.
  - destruct Hwf as [H1 H2 H3 H4 H5]. split; simpl; try done. intros id Hin.
    destruct (H2 id Hin) as (tm & ? & ? & ? & ?), (Hlate id Hin) as (tm' & ? & ?).
    exists tm. simplify_eq. split_and!; try done. lia.
  - intros id n. split; [set_solver|]. intros [Hin (tm & ? & ? & _)].
    destruct (Hlate id Hin) as (tm' & ? & ?). simplify_eq. lia.
  - intros id n. split; [set_solver|]. intros [Hin (tm & ? & ? & _)].
    destruct (Hlate id Hin) as (tm' & ? & ?). simplify_eq. lia.
Qed.

Lemma Set_result_cons t f f' x xt log :
  wf f -> best_of t f (timers f) (Some x) -> store f !! x = Some xt ->
  Set_result t (fire_next x f) f' log -> Set_result t f f' ((x, when xt) :: log).
Proof.
  intros Hwf Hb Hxt [R1 R2 R3 R4 R5].
  destruct (fire_next_spec t f x xt Hwf Hb Hxt) as (_ & Hn & _ & Hti & Hoth).
  destruct Hb as [Hx (xt' & Hxt' & Hdue & Hmin)]. assert (xt' = xt) as -> by congruence.
  destruct (wf_pending f Hwf x Hx) as (xt'' & ? & _ & Hnow & _). assert (xt'' = xt) as -> by congruence.
  assert (forall id, id ∈ timers (fire_next x f) <-> id ∈ timers f /\ id <> x) as Hel.
  { intros id. rewrite Hti. by apply remove_first_elem, wf_nodup. }
  split; [done|rewrite R2, Hn; lia| | |].
  - intros id. rewrite R3, Hel. split.
    + intros [[? ?] (tm & Hl & ?)]. rewrite Hoth in Hl by done. eauto.
    + intros [? (tm & Hl & ?)]. assert (id <> x) by naive_solver lia.
      split; [done|]. exists tm. by rewrite Hoth.
  - intros id n. rewrite elem_of_cons, R4, Hel. split.
    + intros [[= -> ->]|[[? ?] (tm & Hl & ?)]]; [eauto|]. rewrite Hoth in Hl by done. eauto.
    + intros [? (tm & Hl & ? & ->)]. destruct (decide (id = x)) as [->|]; [left; congruence|].
      right. split; [done|]. exists tm. by rewrite Hoth.
  - assert (forall a, a ∈ log -> a.1 ∈ timers f /\ store f !! a.1 = store (fire_next x f) !! a.1
      /\ exists tm, store f !! a.1 = Some tm /\ when tm <= t) as Hlog.
    { intros [id n] ([Hin Hne]%Hel & tm & Hl & ? & _)%R4. rewrite Hoth in Hl by done.
      simpl. rewrite Hoth by done. eauto. }
    constructor.
    + eapply StronglySorted_impl_in; [exact R5|]. intros a b Ha Hb' HR ta tb. 
      destruct (Hlog a Ha) as (_ & -> & _), (Hlog b Hb') as (_ & -> & _). by apply HR.
    + apply Forall_forall. intros a (Hin & _ & tm & Hl & Hle)%Hlog ta tb; simpl; intros Hta Htb.
      simplify_eq. by eapply Hmin.
Qed.

Lemma Set_loop_spec fuel t f :
  wf f -> (length (timers f) < fuel)%nat ->
  Set_result t f (Set_loop fuel t f).1 (Set_loop fuel t f).2.
Proof.
  revert f. induction fuel as [|fuel IH]; intros f Hwf Hlen; [lia|].
  pose proof (nextDueLocked_spec t f Hwf) as Hb. simpl.
  destruct (nextDueLocked t f) as [x|]; [|by apply Set_result_nil].
  assert (exists xt, store f !! x = Some xt) as [xt Hxt] by (destruct Hb as [_ (xt & ? & _)]; eauto).
  destruct (fire_next_spec t f x xt Hwf Hb Hxt) as (Hwf1 & Hn & _ & Hti & _).
  specialize (IH (fire_next x f) Hwf1).
  destruct (Set_loop fuel t (fire_next x f)) as [f' log]; simpl in *. rewrite Hn.
  eapply Set_result_cons; try done. apply IH. rewrite Hti.
  rewrite (remove_first_length x (timers f)) in Hlen by apply Hb. lia.
Qed.

(** ** Every operation keeps the invariant *)
Lemma wf_NewFake start : wf (NewFake start).
Proof.
  split; simpl.
  - by apply NoDup_nil.
  - intros id Hid. by apply not_elem_of_nil in Hid.
  - intros id tm H. by rewrite lookup_empty in H.
  - intros id1 id2 t1 t2 [Hid _]. by apply not_elem_of_nil in Hid.
  - intros id [tm H]. by rewrite lookup_empty in H.
Qed.

(** Changing an inactive timer's record, or its channel, keeps the invariant. *)
Lemma wf_insert_inactive f id tm :
  wf f -> id ∉ timers f -> id < next_id f -> active tm = false ->
  wf (f <| store := <[id := tm]> (store f) |>).
Proof.
  intros [H1 H2 H3 H4 H5] Hnin Hlt Hact. split; simpl; try done.
  - intros x Hx. rewrite lookup_insert_ne by set_solver. by apply H2.
  - intros x tx Hl Ha. apply lookup_insert_Some in Hl as [[<- <-]|[? ?]]; [congruence|by eapply H3].
  - intros x y tx ty [Hx Hlx] [Hy Hly]. simpl in *.
    rewrite lookup_insert_ne in Hlx, Hly by set_solver. by apply (H4 x y).
  - intros x [tx Hl]. apply lookup_insert_Some in Hl as [[<- _]|[? ?]]; [done|by apply H5; eexists].
Qed.

Lemma wf_alter_ch f id c :
  wf f -> wf (f <| store := alter (fun tm => tm <| ch := c |>) id (store f) |>).
Proof.
  intros [H1 H2 H3 H4 H5].
  assert (forall x tm', alter (fun tm => tm <| ch := c |>) id (store f) !! x = Some tm' ->
    exists tm, store f !! x = Some tm /\ when tm = when tm' /\ seq tm = seq tm' /\ active tm = active tm') as Hal.
  { intros x tm' Hl. apply lookup_alter_Some in Hl as [(-> & tm & Hl & ->)|[? Hl]]; eauto. }
  split; simpl; try done.
  - intros x Hx. destruct (H2 x Hx) as (tm & Htm & ? & ? & ?).
    destruct (decide (id = x)) as [->|].
    + exists (tm <| ch := c |>). by rewrite lookup_alter_eq, Htm.
    + exists tm. by rewrite lookup_alter_ne.
  - intros x tx (tm & Hl & _ & _ & Heq)%Hal Ha. eapply H3; [done|congruence].
  - intros x y tx ty [Hx (tx' & Hlx & _ & Ex & _)%Hal] [Hy (ty' & Hly & _ & Ey & _)%Hal] Hs.
    apply (H4 x y tx' ty'); [done|done|congruence].
  - intros x [tx (tm & Hl & _)%Hal]. apply H5. by eexists.
Qed.

Lemma wf_armLocked f id d : wf f -> id ∉ timers f -> wf (armLocked id d f).
Proof.
  intros Hwf Hnin. unfold armLocked. destruct (store f !! id) as [tm|] eqn:Hl; [|done].
  assert (id < next_id f) as Hlt by (apply (wf_fresh f Hwf); by eexists).
  destruct (Z.leb_spec d 0) as [Hd|Hd].
  - assert (wf (f <| clk_seq := clk_seq f + 1 |>)) as Hwf'.
    { destruct Hwf as [H1 H2 H3 H4 H5]. split; simpl; try done.
      intros x (tx & ? & ? & ? & ?)%H2. exists tx. split_and!; try done. lia. }
    refine (wf_insert_inactive _ id _ Hwf' _ _ _); simpl; [done|done|]. unfold fire. by case_match.
  - destruct Hwf as [H1 H2 H3 H4 H5]. simpl. unfold time_Add.
    split; simpl.
    + apply NoDup_app. split_and!; [done|set_solver|apply NoDup_singleton].
    + intros x [Hx| ->%list_elem_of_singleton]%elem_of_app.
      * destruct (H2 x Hx) as (tx & ? & ? & ? & ?). exists tx.
        rewrite lookup_insert_ne by set_solver. split_and!; try done. lia.
      * eexists. split; [apply lookup_insert_eq|]. simpl. unfold time_Add. split; [done|lia].
    + intros x tx Hlx Ha. apply lookup_insert_Some in Hlx as [[<- _]|[? ?]]; [set_solver|].
      apply elem_of_app. left. by eapply H3.
    + intros x y tx ty [Hx Hlx] [Hy Hly]. simpl in *. intros Hsq.
      apply lookup_insert_Some in Hlx as [[<- <-]|[? Hlx]], Hly as [[<- <-]|[? Hly]]; try done; simpl in Hsq.
      * destruct (H2 y) as (? & ? & ? & ? & ?); [set_solver|]. simplify_eq. lia.
      * destruct (H2 x) as (? & ? & ? & ? & ?); [set_solver|]. simplify_eq. lia.
      * apply (H4 x y tx ty); unfold pending; set_solver.
    + intros x [tx Hlx]. apply lookup_insert_Some in Hlx as [[<- _]|[? ?]]; [done|]. apply H5. by eexists.
Qed.

Lemma removeLocked_spec f id : wf f -> wf (removeLocked id f).1 /\ id ∉ timers (removeLocked id f).1.
Proof.
  intros Hwf. unfold removeLocked. destruct (store f !! id) as [tm|] eqn:Hl; [destruct (active tm) eqn:Ha|]; simpl.
  - pose proof (wf_nodup f Hwf) as Hnd. split; [|rewrite remove_first_elem by done; tauto].
    assert (wf (f <| timers := remove_first id (timers f) |> <| store := <[id := tm <| active := false |>]> (store f) |>));
      [|done]. destruct Hwf as [H1 H2 H3 H4 H5]. split; simpl.
    + by apply remove_first_nodup.
    + intros x [Hx ?]%remove_first_elem; [|done]. rewrite lookup_insert_ne by done. by apply H2.
    + intros x tx Hlx Hax. apply lookup_insert_Some in Hlx as [[<- <-]|[? ?]]; [done|].
      apply remove_first_elem; [done|]. split; [by eapply H3|done].
    + intros x y tx ty [[Hx ?]%remove_first_elem Hlx] [[Hy ?]%remove_first_elem Hly]; [|done..]; simpl in *.
      rewrite lookup_insert_ne in Hlx, Hly by done. by apply (H4 x y).
    + intros x [tx Hlx]. apply lookup_insert_Some in Hlx as [[<- _]|[? ?]]; apply H5; by eexists.
  - split; [done|]. intros Hin. destruct (wf_pending f Hwf id Hin) as (? & ? & ? & _). simplify_eq. congruence.
  - split; [done|]. intros Hin. destruct (wf_pending f Hwf id Hin) as (? & ? & ? & _). simplify_eq.
Qed.

Lemma wf_NewTimer f d : wf f -> wf (NewTimer d f).1.
Proof.
  intros Hwf. simpl.
  assert (next_id f ∉ timers f) as Hnin.
  { intros (? & ? & _)%(wf_pending f Hwf). assert (next_id f < next_id f); [|lia].
    apply (wf_fresh f Hwf). by eexists. }
  apply wf_armLocked; [|done].
  assert (wf (f <| next_id := next_id f + 1 |>)) as Hwf'.
  { destruct Hwf as [H1 H2 H3 H4 H5]. split; simpl; try done. intros x ?%H5. lia. }
  assert (next_id f < next_id (f <| next_id := next_id f + 1 |>)) as Hlt by (simpl; lia).
  exact (wf_insert_inactive _ (next_id f) {| ch := None; when := 0; seq := 0; active := false |}
           Hwf' Hnin Hlt eq_refl).
Qed.

Lemma wf_Reset f id d : wf f -> wf (Reset id d f).1.
Proof.
  intros Hwf. unfold Reset. destruct (removeLocked_spec f id Hwf) as [H1 H2].
  destruct (removeLocked id f) as [f1 was]; simpl in *. apply wf_armLocked; [|done]. by apply wf_alter_ch.
Qed.

(** ** The clock as a state machine *)
Inductive clock_op :=
  | OpNewTimer (d : duration) | OpStop (id : Z) | OpReset (id : Z) (d : duration)
  | OpReceive (id : Z) | OpSet (t : time) | OpAdvance (d : duration).

Definition clock_step (f : Fake) (op : clock_op) : Fake :=
  match op with
  | OpNewTimer d => (NewTimer d f).1
  | OpStop id => (Stop id f).1
  | OpReset id d => (Reset id d f).1
  | OpReceive id => f <| store := alter (fun tm => tm <| ch := None |>) id (store f) |>
  | OpSet t => (Fake_Set t f).1
  | OpAdvance d => (Advance d f).1
  end.

Lemma wf_clock_step f op : wf f -> wf (clock_step f op).
Proof.
  intros Hwf. destruct op; cbn [clock_step].
  - by apply wf_NewTimer.
  - by apply removeLocked_spec.
  - by apply wf_Reset.
  - by apply wf_alter_ch.
  - eapply sr_wf, Set_loop_spec; [done|lia].
  - eapply sr_wf, Set_loop_spec; [done|lia].
Qed.

Lemma wf_clock_run ops f : wf f -> wf (fold_left clock_step ops f).
Proof. revert f. induction ops as [|op ops IH]; intros f Hwf; simpl; [done|]. by apply IH, wf_clock_step. Qed.

(** In every state a fake clock can reach, [Set t] fires exactly the
    pending timers due by [t], each seeing [Now] equal to its own deadline,
    in deadline order with ties in creation order; every later timer stays
    pending, [Now] ends at [t] and never moves back, and the loop needs no
    more rounds than there are pending timers. *)
Theorem Fake_Set_fires_due ops start t :
  let f := fold_left clock_step ops (NewFake start) in
  Set_result t f (Fake_Set t f).1 (Fake_Set t f).2.
Proof. intros f. apply Set_loop_spec; [apply wf_clock_run, wf_NewFake|lia]. Qed.
