(* ===== verification/PoolTypes.v ===== *)
(** * internal/poolmgr/interfaces.go: the data shared with the Pool Manager

    Pool references, statuses, claims and events.  The event types are the
    constants of battery's proto that the sources name; any other value of
    the enum is [EventType_OTHER]. *)
From S2P Require Import Prelude GoModel.

Record PoolRef := { ref_Name : string; ref_Namespace : string }.
#[export] Instance PoolRef_eq_dec : EqDecision PoolRef.
Proof. solve_decision. Defined.
#[export] Instance PoolRef_countable : Countable PoolRef.
Proof.
  apply (inj_countable' (fun r => (ref_Name r, ref_Namespace r))
    (fun p => {| ref_Name := p.1; ref_Namespace := p.2 |})). by intros [].
Defined.

Definition PoolRef_String (r : PoolRef) : string := ref_Namespace r +:+ "/" +:+ ref_Name r.

(** [sort.Slice] of references by their rendering. *)
Definition ref_le (a b : PoolRef) : Prop := string_le (PoolRef_String a) (PoolRef_String b).
#[export] Instance ref_le_dec : RelDecision ref_le := fun a b => string_le_dec _ _.

Record PoolStatus := { Available : Z; Leased : Z; Provisioning : Z; Quarantined : Z }.
#[export] Instance eta_PoolStatus : Eta PoolStatus :=
  fun r => {| Available := Available r; Leased := Leased r;
              Provisioning := Provisioning r; Quarantined := Quarantined r |}.

(** Every count is an [int32]. *)
Definition status_int32 (s : PoolStatus) : Prop :=
  -2147483648 <= Available s <= 2147483647 /\ -2147483648 <= Leased s <= 2147483647 /\
  -2147483648 <= Provisioning s <= 2147483647 /\ -2147483648 <= Quarantined s <= 2147483647.

Record PoolAvailability := { pa_Pool : PoolRef; pa_Status : PoolStatus; pa_Declared : bool; pa_Waiting : Z }.
#[export] Instance eta_PoolAvailability : Eta PoolAvailability :=
  fun r => {| pa_Pool := pa_Pool r; pa_Status := pa_Status r;
              pa_Declared := pa_Declared r; pa_Waiting := pa_Waiting r |}.

Record HostRef := { hr_Name : string; hr_Address : string }.

(** The network interfaces of a claim are carried, never inspected; the
    model keeps their names and addresses. *)
Record Claim := {
  LeaseID : string; VMUID : string;
  NetworkInterfaces : list (string * string); claim_Host : HostRef
}.

Inductive EventType :=
  | VM_PROVISIONED | VM_AVAILABLE | VM_CLAIMED | VM_RELEASED
  | VM_DELETED_ON_RELEASE | VM_DELETED_DUE_TO_EXPIRY | VM_DELETED_ON_POOL_DELETE
  | VM_EXPIRING_SOON | VM_HOOK_FAILED | POOL_REPLENISHING | POOL_SIZE_BELOW_TARGET
  | EventType_OTHER (n : Z).
#[export] Instance EventType_eq_dec : EqDecision EventType.
Proof. solve_decision. Defined.

Record Event := {
  ev_ID : Z; ev_Pool : PoolRef; ev_VMUID : string; ev_Type : EventType;
  ev_At : time; ev_Payload : raw_json
}.
