(* ===== verification/Tracker.v ===== *)
(** * internal/poolmgr/tracker.go: how many warm MicroVMs each Pool has

    The uid-keyed counts, the per-Pool state folded from events and polls,
    and the Tracker itself: every method is one function on the state the
    mutex guards.  The buffered [kick] channel is a boolean and the waiters
    are broadcast channels of the store [chans]. *)
From S2P Require Import Prelude GoModel PoolTypes.

(** ** uidCount *)
Record uidCount := { named : gset string; unnamed : Z; accounted : gset string }.
#[export] Instance eta_uidCount : Eta uidCount :=
  fun r => {| named := named r; unnamed := unnamed r; accounted := accounted r |}.

Definition newUIDCount : uidCount := {| named := ∅; unnamed := 0; accounted := ∅ |}.

Definition total (c : uidCount) : Z := int32 (int32 (Z.of_nat (size (named c))) + unnamed c).

Definition take (uid : string) (c : uidCount) : uidCount * bool :=
  if bool_decide (uid = "") || (unnamed c <=? 0) then (c, false)
  else if bool_decide (uid ∈ accounted c) then (c, false)
  else
    let c := c <| accounted := {[uid]} ∪ accounted c |> in
    let c := c <| unnamed := int32 (unnamed c - 1) |> in
    (if unnamed c =? 0 then c <| accounted := ∅ |> else c, true).

(** Returns the new count, whether the uid was added and whether an unnamed
    MicroVM was taken. *)
Definition add (uid : string) (c : uidCount) : uidCount * bool * bool :=
  if bool_decide (uid = "") then (c, false, false)
  else if bool_decide (uid ∈ named c) then (c, false, false)
  else let '(c, took) := take uid (c <| named := {[uid]} ∪ named c |>) in (c, true, took).

Definition remove (uid : string) (c : uidCount) : uidCount * bool :=
  if bool_decide (uid = "") then (c, false)
  else if bool_decide (uid ∈ named c) then (c <| named := named c ∖ {[uid]} |>, true)
  else (c, false).

Definition rebaseline_count (tot : Z) (c : uidCount) : uidCount :=
  let n := int32 (Z.of_nat (size (named c))) in
  let c := c <| unnamed := int32 (tot - n) |> in
  let c := if unnamed c <? 0 then c <| unnamed := 0 |> else c in
  let c := c <| accounted := ∅ |> in
  if unnamed c =? 0 then c else c <| accounted := named c |>.

Definition reset (c : uidCount) : uidCount := {| named := ∅; accounted := ∅; unnamed := 0 |}.

Definition leaves (uid : string) (c : uidCount) : uidCount :=
  let '(c, was) := remove uid c in
  if was then c else (take uid c).1.

(** ** trackedPool *)
Record trackedPool := {
  available : uidCount; leased : uidCount; provisioning : uidCount; quarantined : uidCount;
  size_ : Z; declared : bool; exhausted : bool; needsPoll : bool; unsettled : bool;
  generation : Z; waiters : Z; waiting : Z
}.
#[export] Instance eta_trackedPool : Eta trackedPool :=
  fun r => {| available := available r; leased := leased r; provisioning := provisioning r;
              quarantined := quarantined r; size_ := size_ r; declared := declared r;
              exhausted := exhausted r; needsPoll := needsPoll r; unsettled := unsettled r;
              generation := generation r; waiters := waiters r; waiting := waiting r |}.

Definition availableCount (p : trackedPool) : Z :=
  if negb (declared p) || exhausted p then 0 else total (available p).

Definition status (p : trackedPool) : PoolStatus :=
  {| Available := availableCount p; Leased := total (leased p);
     Provisioning := total (provisioning p); Quarantined := total (quarantined p) |}.

Definition rebaseline (st : PoolStatus) (p : trackedPool) : trackedPool :=
  {| available := rebaseline_count (Available st) (available p);
     leased := rebaseline_count (Leased st) (leased p);
     provisioning := rebaseline_count (Provisioning st) (provisioning p);
     quarantined := rebaseline_count (Quarantined st) (quarantined p);
     size_ := size_ p; declared := declared p; exhausted := exhausted p; needsPoll := needsPoll p;
     unsettled := unsettled p; generation := generation p; waiters := waiters p; waiting := waiting p |}.

(** The Pool Manager has answered: the Pool is not exhausted, owes no poll
    and its target is [sz].  Shared by a poll and by POOL_SIZE_BELOW_TARGET. *)
Definition resynchronise (sz : Z) (st : PoolStatus) (p : trackedPool) : trackedPool :=
  let p := rebaseline st p in
  {| available := available p; leased := leased p; provisioning := provisioning p;
     quarantined := quarantined p; size_ := sz; declared := declared p; exhausted := false;
     needsPoll := false; unsettled := false; generation := generation p;
     waiters := waiters p; waiting := waiting p |}.

(** ** Event payloads *)
Record belowTargetPayload := {
  bt_Target : Z; bt_Available : Z; bt_Leased : Z; bt_Provisioning : Z; bt_Quarantined : Z
}.

Definition belowTargetCounts (e : Event) : option belowTargetPayload :=
  match ev_Payload e with
  | RawEmpty | RawMalformed => None
  | RawDoc JNull =>
      Some {| bt_Target := 0; bt_Available := 0; bt_Leased := 0; bt_Provisioning := 0; bt_Quarantined := 0 |}
  | RawDoc (JObj fs) =>
      t ← json_int32_field "target" fs 0;
      a ← json_int32_field "available" fs 0;
      l ← json_int32_field "leased" fs 0;
      p ← json_int32_field "provisioning" fs 0;
      q ← json_int32_field "quarantined" fs 0;
      Some {| bt_Target := t; bt_Available := a; bt_Leased := l; bt_Provisioning := p; bt_Quarantined := q |}
  | RawDoc _ => None
  end.

Record hookFailureBody := { hf_Hook : string; hf_Error : string; hf_Policy : string }.

(** The rendering of the proto constant [HookFailurePolicy_QUARANTINE]. *)
Definition QUARANTINE : string := "QUARANTINE".

Definition hookFailure_quarantined (b : hookFailureBody) : bool := String.eqb (hf_Policy b) QUARANTINE.

Definition hookFailurePayload (e : Event) : hookFailureBody :=
  let zero := {| hf_Hook := ""; hf_Error := ""; hf_Policy := "" |} in
  match ev_Payload e with
  | RawDoc (JObj fs) =>
      match json_string_field "hook" fs "", json_string_field "error" fs "", json_string_field "policy" fs "" with
      | Some h, Some er, Some p => {| hf_Hook := h; hf_Error := er; hf_Policy := p |}
      | _, _, _ => zero
      end
  | _ => zero
  end.

Definition hookFailureQuarantined (e : Event) : bool := hookFailure_quarantined (hookFailurePayload e).

(** ** The counts an event leaves

    The arms of the [switch] in [apply] that touch a Pool's counts and
    flags; the second component says whether the waiters are woken. *)
Definition apply_type (e : Event) (p : trackedPool) : trackedPool * bool :=
  let uid := ev_VMUID e in
  match ev_Type e with
  | VM_PROVISIONED =>
      (p <| exhausted := false |> <| provisioning := (add uid (provisioning p)).1.1 |>, false)
  | VM_AVAILABLE =>
      let p := p <| exhausted := false |> <| provisioning := leaves uid (provisioning p) |> in
      let '(c, added, took) := add uid (available p) in
      let p := p <| available := c |> in
      (if took then p <| unsettled := true |> else p, added)
  | VM_CLAIMED =>
      (p <| available := leaves uid (available p) |> <| leased := (add uid (leased p)).1.1 |>, false)
  | VM_RELEASED | VM_DELETED_DUE_TO_EXPIRY =>
      (p <| exhausted := false |> <| available := (remove uid (available p)).1 |>
         <| leased := leaves uid (leased p) |>, false)
  | VM_DELETED_ON_RELEASE =>
      (p <| exhausted := false |> <| available := (remove uid (available p)).1 |>
         <| leased := (remove uid (leased p)).1 |>, false)
  | VM_HOOK_FAILED =>
      let p := p <| available := (remove uid (available p)).1 |>
                 <| provisioning := leaves uid (provisioning p) |> in
      (if hookFailureQuarantined e
       then p <| quarantined := (add uid (quarantined p)).1.1 |> else p, false)
  | POOL_SIZE_BELOW_TARGET =>
      match belowTargetCounts e with
      | Some c =>
          (resynchronise (bt_Target c)
             {| Available := bt_Available c; Leased := bt_Leased c;
                Provisioning := bt_Provisioning c; Quarantined := bt_Quarantined c |} p, false)
      | None => (p, false)
      end
  | _ => (p, false)
  end.

(** The whole effect of an event on the Pool it names: the generation, the
    switch, and the two conditions that leave the Pool owing a poll. *)
Definition apply_pool (e : Event) (p : trackedPool) : trackedPool * bool :=
  let p := p <| generation := uint64 (generation p + 1) |> in
  let before := availableCount p in
  let '(p, woken) := apply_type e p in
  let p := if (0 <? before) && (availableCount p =? 0) then p <| needsPoll := true |> else p in
  let p := if unsettled p && ((size_ p <=? 0) || (availableCount p <? size_ p))
           then p <| needsPoll := true |> else p in
  (p, woken).

(** ** PoolTracker *)
Record PoolTracker := {
  pools : gmap PoolRef trackedPool;
  tchans : chans;
  kick : bool;
  streamUp : bool
}.
#[export] Instance eta_PoolTracker : Eta PoolTracker :=
  fun r => {| pools := pools r; tchans := tchans r; kick := kick r; streamUp := streamUp r |}.

Definition NewTracker : PoolTracker :=
  {| pools := ∅; tchans := chans0; kick := false; streamUp := false |}.

Definition requestPoll (t : PoolTracker) : PoolTracker := t <| kick := true |>.

Definition newPool (w : Z) : trackedPool :=
  {| available := newUIDCount; leased := newUIDCount; provisioning := newUIDCount;
     quarantined := newUIDCount; size_ := 0; declared := false; exhausted := false;
     needsPoll := false; unsettled := false; generation := 0; waiters := w; waiting := 0 |}.

Definition poolLocked (ref : PoolRef) (t : PoolTracker) : PoolTracker * trackedPool :=
  match pools t !! ref with
  | Some p => (t, p)
  | None =>
      let '(cs, w) := make_chan (tchans t) in
      let p := newPool w in
      (t <| tchans := cs |> <| pools := <[ref := p]> (pools t) |>, p)
  end.

(** Write back the pool a method mutated through its pointer. *)
Definition put (ref : PoolRef) (p : trackedPool) (t : PoolTracker) : PoolTracker :=
  t <| pools := <[ref := p]> (pools t) |>.

Definition closeWaiters (p : trackedPool) (cs : chans) : trackedPool * chans :=
  let cs := close_chan (waiters p) cs in
  let '(cs, w) := make_chan cs in
  (p <| waiters := w |> <| waiting := 0 |>, cs).

Definition Track (ref : PoolRef) (d : bool) (t : PoolTracker) : PoolTracker :=
  let known := bool_decide (is_Some (pools t !! ref)) in
  let '(t, p) := poolLocked ref t in
  let t := put ref (p <| declared := d |>) t in
  if negb known || d then requestPoll t else t.

Definition setDeclared (ref : PoolRef) (d : bool) (t : PoolTracker) : PoolTracker :=
  let '(t, p) := poolLocked ref t in
  let p := p <| declared := d |> in
  let p := if negb d then p <| needsPoll := false |> <| unsettled := false |> else p in
  put ref p t.

Definition Untrack (ref : PoolRef) (t : PoolTracker) : PoolTracker :=
  match pools t !! ref with
  | Some p =>
      let t := t <| pools := delete ref (pools t) |> in
      t <| tchans := (closeWaiters p (tchans t)).2 |>
  | None => t
  end.

(** [unhealthy] is the answer of [cfg.Health] when the call is made. *)
Definition Tracker_Available (unhealthy : bool) (ref : PoolRef) (t : PoolTracker) : Z :=
  if unhealthy then 0 else
  match pools t !! ref with
  | None => 0
  | Some p => availableCount p
  end.

Definition MarkExhausted (ref : PoolRef) (t : PoolTracker) : PoolTracker :=
  let '(t, p) := poolLocked ref t in
  put ref (p <| exhausted := true |> <| available := reset (available p) |>) t.

Definition Wait (ref : PoolRef) (t : PoolTracker) : PoolTracker * Z :=
  let '(t, p) := poolLocked ref t in
  (put ref (p <| waiting := waiting p + 1 |>) t, waiters p).

Definition availability (unhealthy : bool) (ref : PoolRef) (p : trackedPool) : PoolAvailability :=
  {| pa_Pool := ref;
     pa_Status := if unhealthy then (status p) <| Available := 0 |> else status p;
     pa_Declared := declared p; pa_Waiting := waiting p |}.

Definition pa_le (a b : PoolAvailability) : Prop := ref_le (pa_Pool a) (pa_Pool b).
#[export] Instance pa_le_dec : RelDecision pa_le := fun a b => ref_le_dec _ _.

Definition Pools (unhealthy : bool) (t : PoolTracker) : list PoolAvailability :=
  merge_sort pa_le ((fun kp => availability unhealthy kp.1 kp.2) <$> map_to_list (pools t)).

Definition refs (t : PoolTracker) : list PoolRef :=
  merge_sort ref_le (map_to_list (pools t)).*1.

Definition Tracker_generation (ref : PoolRef) (t : PoolTracker) : Z :=
  match pools t !! ref with Some p => generation p | None => 0 end.

Definition pollOwed (t : PoolTracker) : bool :=
  existsb (fun kp => needsPoll kp.2) (map_to_list (pools t)).

Definition applyPoll (ref : PoolRef) (asked sz : Z) (st : PoolStatus) (t : PoolTracker) : PoolTracker :=
  match pools t !! ref with
  | None => t
  | Some p =>
      if negb (generation p =? asked)
      then requestPoll (put ref (p <| needsPoll := true |>) t)
      else
        let p := resynchronise sz st p in
        if 0 <? availableCount p
        then let '(p, cs) := closeWaiters p (tchans t) in put ref p (t <| tchans := cs |>)
        else put ref p t
  end.

Definition apply (e : Event) (t : PoolTracker) : PoolTracker :=
  match pools t !! ev_Pool e with
  | None => t
  | Some p =>
      let '(p, woken) := apply_pool e p in
      let '(p, cs) := if woken then closeWaiters p (tchans t) else (p, tchans t) in
      let t := put (ev_Pool e) p (t <| tchans := cs |>) in
      if needsPoll p then requestPoll t else t
  end.

(** One [GetPool] answer folded by [pollAll]. *)
Definition poll_answer (ref : PoolRef) (asked : Z) (ans : result (Z * PoolStatus)) (t : PoolTracker) : PoolTracker :=
  match ans with
  | Ok (sz, st) => applyPoll ref asked sz st t
  | Err e => if errors_Is e ErrNotFound then setDeclared ref false t else t
  end.

(** The loop of [pollAll], with no event in between: [getPool] is the Pool
    Manager's answer to each question and [ctx_done] whether the context
    ended before it. *)
Fixpoint pollAll_loop (ctx_done : PoolRef -> bool) (getPool : PoolRef -> result (Z * PoolStatus))
    (l : list PoolRef) (t : PoolTracker) : PoolTracker :=
  match l with
  | [] => t
  | ref :: l =>
      if ctx_done ref then t
      else pollAll_loop ctx_done getPool l (poll_answer ref (Tracker_generation ref t) (getPool ref) t)
  end.

Definition pollAll (ctx_done : PoolRef -> bool) (getPool : PoolRef -> result (Z * PoolStatus))
    (t : PoolTracker) : PoolTracker :=
  pollAll_loop ctx_done getPool (refs t) t.

(** What [pollLoop] does when it wakes: on the timer it polls unless the
    stream is up and no Pool owes a poll; on a kick it always polls. *)
Inductive poll_wake := WakeKick | WakeTimer.
Definition poll_due (w : poll_wake) (t : PoolTracker) : bool :=
  match w with
  | WakeKick => true
  | WakeTimer => negb (streamUp t && negb (pollOwed t))
  end.

Definition setStreamUp (up : bool) (t : PoolTracker) : PoolTracker := t <| streamUp := up |>.

(** One wake-up of [pollLoop]. *)
Definition pollLoop_wake (ctx_done : PoolRef -> bool) (getPool : PoolRef -> result (Z * PoolStatus))
    (w : poll_wake) (t : PoolTracker) : PoolTracker :=
  let t := match w with WakeKick => t <| kick := false |> | WakeTimer => t end in
  if poll_due w t then pollAll ctx_done getPool t else t.
