(* ===== verification/TrackerThms.v ===== *)
(** * Properties of the Tracker

    The well-formedness of a uid-keyed count, the idempotence of a replay,
    what a poll settles, and the invariants of the Tracker as a state
    machine in which events, polls and the Scheduler's calls interleave. *)
From S2P Require Import Prelude GoModel PoolTypes Tracker.

(** ** The invariant of a count *)
Record count_wf (c : uidCount) : Prop := {
  cw_range : 0 <= unnamed c <= 2147483647;
  cw_named : "" ∉ named c;
  cw_zero : unnamed c = 0 -> accounted c = ∅;
  cw_acc : 0 < unnamed c -> named c ⊆ accounted c
}.

(** The operations an event makes on a count. *)
Inductive uidop := UAdd (uid : string) | ULeave (uid : string) | URemove (uid : string).

Definition do_op (c : uidCount) (o : uidop) : uidCount :=
  match o with
  | UAdd uid => (add uid c).1.1
  | ULeave uid => leaves uid c
  | URemove uid => (remove uid c).1
  end.

Definition op_uid (o : uidop) : string :=
  match o with UAdd uid | ULeave uid | URemove uid => uid end.

(** What an operation does to the named set, and that is all it does once
    its uid is settled. *)
Definition name_op (N : gset string) (o : uidop) : gset string :=
  match o with
  | UAdd uid => if bool_decide (uid = "") then N else {[uid]} ∪ N
  | ULeave uid | URemove uid => if bool_decide (uid = "") then N else N ∖ {[uid]}
  end.

(** No later event can take [uid] out of the unnamed part. *)
Definition settled (c : uidCount) (uid : string) : Prop :=
  unnamed c <= 0 \/ uid = "" \/ uid ∈ accounted c.

Definition taking (o : uidop) : Prop := match o with URemove _ => False | _ => True end.

Lemma take_spec uid c :
  count_wf c ->
  (settled c uid /\ take uid c = (c, false)) \/
  (~ settled c uid /\ take uid c =
     ({| named := named c; unnamed := unnamed c - 1;
         accounted := if unnamed c - 1 =? 0 then ∅ else {[uid]} ∪ accounted c |}, true)).
Proof.
  intros Hwf. pose proof (cw_range c Hwf). unfold take, settled.
  destruct (bool_decide (uid = "")) eqn:E1; bool_to_prop; simpl; [by left; auto|].
  destruct (Z.leb_spec (unnamed c) 0); simpl; [by left; auto|].
  destruct (bool_decide (uid ∈ accounted c)) eqn:E2; bool_to_prop; simpl; [by left; auto|].
  right. split; [naive_solver lia|]. rewrite int32_id by lia.
  by destruct (unnamed c - 1 =? 0).
Qed.

Lemma remove_spec uid c :
  count_wf c ->
  remove uid c = ({| named := name_op (named c) (URemove uid); unnamed := unnamed c; accounted := accounted c |},
                  bool_decide (uid ∈ named c)).
Proof.
  intros Hwf. unfold remove, name_op. destruct (bool_decide (uid = "")) eqn:E1; bool_to_prop.
  { subst. rewrite bool_decide_false by apply (cw_named c Hwf). by destruct c. }
  destruct (bool_decide (uid ∈ named c)) eqn:E2; bool_to_prop; [done|].
  f_equal. destruct c; simpl in *. f_equal. set_solver.
Qed.

Lemma leaves_spec uid c :
  count_wf c ->
  (uid ∈ named c /\ uid <> "" /\
   leaves uid c = {| named := named c ∖ {[uid]}; unnamed := unnamed c; accounted := accounted c |}) \/
  (uid ∉ named c /\ leaves uid c = (take uid c).1).
Proof.
  intros Hwf. unfold leaves, remove. case_bool_decide as E.
  - right. subst. split; [apply Hwf|done].
  - case_bool_decide; [left|right]; by auto.
Qed.

Lemma count_wf_new : count_wf newUIDCount.
Proof. split; simpl; set_solver by lia. Qed.

Lemma count_wf_reset c : count_wf (reset c).
Proof. apply count_wf_new. Qed.

Lemma count_wf_take uid c : count_wf c -> count_wf (take uid c).1.
Proof.
  intros Hwf. destruct (take_spec uid c Hwf) as [[_ ->]|[Hns ->]]; [done|]. unfold settled in Hns.
  destruct Hwf as [H1 H2 H3 H4]. split; simpl; [lia|done| |].
  - intros ->. done.
  - intros ?. destruct (Z.eqb_spec (unnamed c - 1) 0); [lia|]. set_solver by lia.
Qed.

Lemma count_wf_remove uid c : count_wf c -> count_wf (remove uid c).1.
Proof.
  intros Hwf. rewrite remove_spec by done. destruct Hwf as [H1 H2 H3 H4].
  unfold name_op. split; simpl; try done; case_bool_decide; set_solver.
Qed.

Lemma count_wf_leaves uid c : count_wf c -> count_wf (leaves uid c).
Proof.
  intros Hwf. unfold leaves. pose proof (count_wf_remove uid c Hwf) as Hr.
  destruct (remove uid c) as [c' []]; simpl in *; [done|by apply count_wf_take].
Qed.

(** [add] before its [take]: the uid is named but not yet accounted for. *)
Lemma add_spec uid c :
  count_wf c -> uid <> "" ->
  (uid ∈ named c /\ add uid c = (c, false, false)) \/
  (uid ∉ named c /\ settled c uid /\
   add uid c = ({| named := {[uid]} ∪ named c; unnamed := unnamed c; accounted := accounted c |}, true, false)) \/
  (uid ∉ named c /\ ~ settled c uid /\ add uid c =
     ({| named := {[uid]} ∪ named c; unnamed := unnamed c - 1;
         accounted := if unnamed c - 1 =? 0 then ∅ else {[uid]} ∪ accounted c |}, true, true)).
Proof.
  intros Hwf Hne. pose proof (cw_range c Hwf). unfold add. rewrite (bool_decide_false (uid = "")) by done.
  case_bool_decide as Hin; [by left|right].
  unfold take, settled. simpl. rewrite (bool_decide_false (uid = "")) by done. simpl.
  destruct (Z.leb_spec (unnamed c) 0); [left; by auto|].
  case_bool_decide as Hacc; [left; by auto|right].
  split; [done|]. split; [naive_solver lia|]. rewrite int32_id by lia. by destruct (unnamed c - 1 =? 0).
Qed.

Lemma count_wf_add uid c : count_wf c -> count_wf (add uid c).1.1.
Proof.
  intros Hwf. destruct (decide (uid = "")) as [->|Hne]; [done|].
  destruct (add_spec uid c Hwf Hne) as [[_ ->]|[(_ & Hs & ->)|(_ & Hns & ->)]]; [done| |];
    destruct Hwf as [H1 H2 H3 H4]; unfold settled in *; split; simpl; [lia|set_solver|done| |lia|set_solver| |].
  - intros Hp. destruct Hs as [?|[?|?]]; [lia|done|set_solver].
  - by intros ->.
  - intros ?. destruct (Z.eqb_spec (unnamed c - 1) 0); [lia|]. set_solver by lia.
Qed.

Lemma count_wf_rebaseline tot c : count_wf c -> count_wf (rebaseline_count tot c).
Proof.
  intros Hwf. unfold rebaseline_count. simpl.
  pose proof (int32_range (tot - int32 (Z.of_nat (size (named c))))) as Hr.
  set (u := int32 _) in *.
  destruct (Z.ltb_spec u 0); simpl; [|destruct (Z.eqb_spec u 0); simpl];
    (split; simpl; [lia|apply Hwf|set_solver by lia|set_solver by lia]).
Qed.

Lemma count_wf_do_op c o : count_wf c -> count_wf (do_op c o).
Proof. destruct o; simpl; auto using count_wf_add, count_wf_leaves, count_wf_remove. Qed.

#[export] Hint Resolve count_wf_new count_wf_reset count_wf_add count_wf_leaves count_wf_remove
  count_wf_rebaseline count_wf_do_op : runner.

(** ** Settledness *)
Lemma do_op_settles c o : count_wf c -> taking o -> settled (do_op c o) (op_uid o).
Proof.
  intros Hwf Ht. destruct o as [uid|uid|uid]; simpl in *; [| |done].
  - destruct (decide (uid = "")) as [->|Hne]; [by right; left|].
    destruct (add_spec uid c Hwf Hne) as [[Hin ->]|[(_ & Hs & ->)|(_ & Hns & ->)]]; simpl.
    + destruct (decide (unnamed c <= 0)); [by left|].
      right; right. apply (cw_acc c Hwf); [lia|done].
    + exact Hs.
    + unfold settled. simpl. destruct (Z.eqb_spec (unnamed c - 1) 0); [left; lia|set_solver].
  - destruct (leaves_spec uid c Hwf) as [(Hin & _ & ->)|[_ ->]].
    + destruct (decide (unnamed c <= 0)); [by left|].
      right; right. simpl. apply (cw_acc c Hwf); [lia|done].
    + destruct (take_spec uid c Hwf) as [[Hs ->]|[Hns ->]]; [done|].
      unfold settled. simpl. destruct (Z.eqb_spec (unnamed c - 1) 0); [left; lia|set_solver].
Qed.

Lemma do_op_settled_mono c o u : count_wf c -> settled c u -> settled (do_op c o) u.
Proof.
  intros Hwf Hs. pose proof (cw_range c Hwf) as Hr. destruct o as [uid|uid|uid]; simpl.
  - destruct (decide (uid = "")) as [->|Hne]; [done|].
    destruct (add_spec uid c Hwf Hne) as [[Hin ->]|[(_ & _ & ->)|(_ & Hns & ->)]]; simpl; try done.
    unfold settled in *. simpl. destruct (Z.eqb_spec (unnamed c - 1) 0); [left; lia|].
    destruct Hs as [?|[?|?]]; [left; lia|auto|right; right; set_solver].
  - destruct (leaves_spec uid c Hwf) as [(_ & _ & ->)|[_ ->]]; [done|].
    destruct (take_spec uid c Hwf) as [[_ ->]|[Hns ->]]; [done|].
    unfold settled in *. simpl in *. destruct (Z.eqb_spec (unnamed c - 1) 0); [left; lia|].
    destruct Hs as [?|[?|?]]; [left; lia|auto|right; right; set_solver].
  - rewrite remove_spec by done. exact Hs.
Qed.

Lemma do_op_named c o : count_wf c -> named (do_op c o) = name_op (named c) o.
Proof.
  intros Hwf. destruct o as [uid|uid|uid]; simpl.
  - case_bool_decide as Hne; [by subst|].
    destruct (add_spec uid c Hwf Hne) as [[Hin ->]|[(_ & _ & ->)|(_ & _ & ->)]]; simpl; [set_solver|done|done].
  - destruct (leaves_spec uid c Hwf) as [(_ & Hne & ->)|[Hin ->]]; simpl.
    + by rewrite bool_decide_false.
    + assert (named (take uid c).1 = named c) as ->
        by (by destruct (take_spec uid c Hwf) as [[_ ->]|[_ ->]]).
      case_bool_decide; set_solver.
  - by rewrite remove_spec.
Qed.

(** Once settled, an operation only moves the uid in or out of the named set. *)
Lemma do_op_settled c o :
  count_wf c -> (taking o -> settled c (op_uid o)) ->
  do_op c o = c <| named := name_op (named c) o |>.
Proof.
  intros Hwf Hs. destruct o as [uid|uid|uid]; simpl in *.
  - specialize (Hs I). case_bool_decide as Hne; [subst; by destruct c|].
    destruct (add_spec uid c Hwf Hne) as [[Hin ->]|[(_ & _ & ->)|(_ & Hns & ->)]]; simpl; try done.
    destruct c; rec_simpl. f_equal. set_solver.
  - specialize (Hs I). destruct (leaves_spec uid c Hwf) as [(_ & Hne & ->)|[Hin ->]].
    + by rewrite bool_decide_false.
    + destruct (take_spec uid c Hwf) as [[_ ->]|[Hns _]]; [|done].
      destruct c; rec_simpl. f_equal. case_bool_decide; set_solver.
  - rewrite remove_spec by done. by destruct c.
Qed.

(** ** Runs of operations *)
Definition run_ops (ops : list uidop) (c : uidCount) : uidCount := fold_left do_op ops c.

Lemma run_ops_app a b c : run_ops (a ++ b) c = run_ops b (run_ops a c).
Proof. apply fold_left_app. Qed.

Lemma count_wf_run ops c : count_wf c -> count_wf (run_ops ops c).
Proof. revert c. induction ops; simpl; auto with runner. Qed.

Lemma run_ops_named ops c : count_wf c -> named (run_ops ops c) = fold_left name_op ops (named c).
Proof.
  revert c. induction ops as [|o ops IH]; intros c Hwf; simpl; [done|].
  rewrite IH by auto with runner. by rewrite do_op_named.
Qed.

Lemma run_ops_settled_mono ops c u : count_wf c -> settled c u -> settled (run_ops ops c) u.
Proof.
  revert c. induction ops as [|o ops IH]; intros c Hwf Hs; simpl; [done|].
  apply IH; auto using do_op_settled_mono with runner.
Qed.

Lemma run_ops_settles ops c o :
  count_wf c -> o ∈ ops -> taking o -> settled (run_ops ops c) (op_uid o).
Proof.
  revert c. induction ops as [|o' ops IH]; intros c Hwf Hin Ht; [by apply not_elem_of_nil in Hin|].
  simpl. apply elem_of_cons in Hin as [<-|Hin]; [|by apply IH; auto with runner].
  apply run_ops_settled_mono; auto using do_op_settles with runner.
Qed.

Lemma run_ops_settled ops c :
  count_wf c -> (forall o, o ∈ ops -> taking o -> settled c (op_uid o)) ->
  run_ops ops c = c <| named := fold_left name_op ops (named c) |>.
Proof.
  revert c. induction ops as [|o ops IH]; intros c Hwf Hs; simpl; [by destruct c|].
  pose proof (do_op_settled c o Hwf) as Ho.
  rewrite IH; [|by auto with runner|].
  - rewrite Ho by (apply Hs; set_solver). by destruct c.
  - intros o' Hin Ht. apply do_op_settled_mono; [done|]. apply Hs; set_solver.
Qed.

(** The last operation on a uid decides whether it is named. *)
Lemma name_ops_touched ops N M u :
  (exists o, o ∈ ops /\ op_uid o = u /\ u <> "") ->
  (u ∈ fold_left name_op ops N <-> u ∈ fold_left name_op ops M).
Proof.
  revert N M. induction ops as [|o ops IH]; intros N M (o' & Hin & Hu & Hne); [by apply not_elem_of_nil in Hin|].
  simpl. destruct (decide (Exists (fun o => op_uid o = u) ops)) as [Hex|Hnex].
  { apply IH. apply Exists_exists in Hex as (o'' & ? & ?). eauto. }
  assert (o' = o) as -> by (apply elem_of_cons in Hin as [?|?]; [done|]; destruct Hnex; apply Exists_exists; eauto).
  assert (forall K, u ∈ fold_left name_op ops K <-> u ∈ K) as Hk.
  { clear IH Hin. induction ops as [|x ops IHo]; intros K; simpl; [done|].
    rewrite Exists_cons in Hnex. rewrite IHo by tauto.
    destruct x; simpl in *; case_bool_decide; set_solver. }
  rewrite !Hk. destruct o; simpl in *; subst; rewrite bool_decide_false by done; set_solver.
Qed.

Lemma name_ops_untouched ops N u :
  (forall o, o ∈ ops -> op_uid o = u -> u = "") -> (u ∈ fold_left name_op ops N <-> u ∈ N).
Proof.
  revert N. induction ops as [|o ops IH]; intros N Hu; simpl; [done|].
  rewrite IH by set_solver. specialize (Hu o ltac:(set_solver)).
  destruct o; simpl in *; case_bool_decide; set_solver.
Qed.

Lemma name_ops_idem ops N : fold_left name_op ops (fold_left name_op ops N) = fold_left name_op ops N.
Proof.
  apply set_eq. intros u.
  destruct (decide (Exists (fun o => op_uid o = u /\ u <> "") ops)) as [Hex|Hnex].
  - apply Exists_exists in Hex as (o & ? & ? & ?). apply name_ops_touched. eauto.
  - apply name_ops_untouched. intros o Hin Ho. destruct (decide (u = "")); [done|].
    destruct Hnex. apply Exists_exists. eauto.
Qed.

(** Replaying a run of operations on the count it produced is a no-op. *)
Lemma run_ops_replay ops c : count_wf c -> run_ops (ops ++ ops) c = run_ops ops c.
Proof.
  intros Hwf. rewrite run_ops_app. pose proof (count_wf_run ops c Hwf) as Hwf'.
  rewrite (run_ops_settled ops (run_ops ops c)) by (auto using run_ops_settles).
  rewrite run_ops_named by done. rewrite name_ops_idem.
  rewrite <-run_ops_named by done. by destruct (run_ops ops c).
Qed.

(** A run of operations on one uid takes at most one unnamed MicroVM. *)
Lemma do_op_unnamed c o :
  count_wf c -> unnamed c - 1 <= unnamed (do_op c o) <= unnamed c
    /\ (settled c (op_uid o) -> unnamed (do_op c o) = unnamed c).
Proof.
  intros Hwf. split.
  - destruct o as [uid|uid|uid]; simpl.
    + destruct (decide (uid = "")) as [->|Hne]; [simpl; lia|].
      destruct (add_spec uid c Hwf Hne) as [[_ ->]|[(_ & _ & ->)|(_ & _ & ->)]]; simpl; lia.
    + destruct (leaves_spec uid c Hwf) as [(_ & _ & ->)|[_ ->]]; simpl; [lia|].
      destruct (take_spec uid c Hwf) as [[_ ->]|[_ ->]]; simpl; lia.
    + rewrite remove_spec by done. simpl. lia.
  - intros Hs. by rewrite do_op_settled.
Qed.

Lemma run_ops_one_uid ops c uid :
  count_wf c -> (forall o, o ∈ ops -> op_uid o = uid) ->
  unnamed c - 1 <= unnamed (run_ops ops c) <= unnamed c.
Proof.
  revert c. induction ops as [|o ops IH]; intros c Hwf Hu; [simpl; lia|].
  pose proof (Hu o ltac:(set_solver)) as Ho.
  assert (forall o', o' ∈ ops -> op_uid o' = uid) as Hu' by set_solver.
  destruct (do_op_unnamed c o Hwf) as [Hb _].
  change (run_ops (o :: ops) c) with (run_ops ops (do_op c o)).
  destruct o as [u|u|u]; simpl in Ho; subst u.
  1,2: rewrite run_ops_settled; [done|by auto with runner|];
    intros o' Hin _; rewrite (Hu' o' Hin);
    first [by apply (do_op_settles c (UAdd uid) Hwf)|by apply (do_op_settles c (ULeave uid) Hwf)].
  assert (unnamed (do_op c (URemove uid)) = unnamed c) as Heq
    by (simpl; by rewrite remove_spec).
  rewrite <-Heq. apply IH; auto with runner.
Qed.

(** ** What an event does to the counts of a Pool *)
Definition ops_available (e : Event) : list uidop :=
  let uid := ev_VMUID e in
  match ev_Type e with
  | VM_AVAILABLE => [UAdd uid]
  | VM_CLAIMED => [ULeave uid]
  | VM_RELEASED | VM_DELETED_DUE_TO_EXPIRY | VM_DELETED_ON_RELEASE | VM_HOOK_FAILED => [URemove uid]
  | _ => []
  end.

Definition ops_leased (e : Event) : list uidop :=
  let uid := ev_VMUID e in
  match ev_Type e with
  | VM_CLAIMED => [UAdd uid]
  | VM_RELEASED | VM_DELETED_DUE_TO_EXPIRY => [ULeave uid]
  | VM_DELETED_ON_RELEASE => [URemove uid]
  | _ => []
  end.

Definition ops_provisioning (e : Event) : list uidop :=
  let uid := ev_VMUID e in
  match ev_Type e with
  | VM_PROVISIONED => [UAdd uid]
  | VM_AVAILABLE | VM_HOOK_FAILED => [ULeave uid]
  | _ => []
  end.

Definition ops_quarantined (e : Event) : list uidop :=
  match ev_Type e with
  | VM_HOOK_FAILED => if hookFailureQuarantined e then [UAdd (ev_VMUID e)] else []
  | _ => []
  end.

(** An event that carries the Pool Manager's own counts. *)
Definition resync (e : Event) : bool :=
  match ev_Type e with
  | POOL_SIZE_BELOW_TARGET => bool_decide (is_Some (belowTargetCounts e))
  | _ => false
  end.

(** An event that ends the zero a failed claim left (PL-053). *)
Definition clears_exhausted (e : Event) : bool :=
  match ev_Type e with
  | VM_PROVISIONED | VM_AVAILABLE | VM_RELEASED | VM_DELETED_DUE_TO_EXPIRY | VM_DELETED_ON_RELEASE => true
  | _ => false
  end.

Definition apply_events (es : list Event) (p : trackedPool) : trackedPool :=
  fold_left (fun p e => (apply_pool e p).1) es p.

(** The part of a Pool the two trailing conditions of [apply] do not touch. *)
Definition counts_of (p : trackedPool) : uidCount * uidCount * uidCount * uidCount * bool * bool :=
  (available p, leased p, provisioning p, quarantined p, declared p, exhausted p).

Lemma apply_pool_counts e p : counts_of (apply_pool e p).1 = counts_of (apply_type e p).1.
Proof.
  assert (forall g, counts_of (apply_type e (p <| generation := g |>)).1 = counts_of (apply_type e p).1) as Hg.
  { intros g. unfold apply_type. destruct (ev_Type e); simpl; try done.
    - by destruct (add _ _) as [[c a] []].
    - by destruct (hookFailureQuarantined e).
    - by destruct (belowTargetCounts e). }
  unfold apply_pool. specialize (Hg (uint64 (generation p + 1))). simpl.
  destruct (apply_type e (p <| generation := _ |>)) as [q w]; simpl in *. rewrite <-Hg.
  repeat (case_if; simpl); done.
Qed.

Lemma apply_type_counts e p :
  resync e = false ->
  counts_of (apply_type e p).1 =
    (run_ops (ops_available e) (available p), run_ops (ops_leased e) (leased p),
     run_ops (ops_provisioning e) (provisioning p), run_ops (ops_quarantined e) (quarantined p),
     declared p, exhausted p && negb (clears_exhausted e)).
Proof.
  unfold resync, apply_type, ops_available, ops_leased, ops_provisioning, ops_quarantined,
    clears_exhausted, counts_of, run_ops.
  destruct (ev_Type e); simpl; rewrite ?andb_false_r, ?andb_true_r; intros Hr; try done.
  - by destruct (add _ _) as [[c a] []].
  - by destruct (hookFailureQuarantined e).
  - destruct (belowTargetCounts e); [|done]. by rewrite bool_decide_true in Hr by eauto.
Qed.

Lemma apply_events_counts es p :
  Forall (fun e => resync e = false) es ->
  counts_of (apply_events es p) =
    (run_ops (es ≫= ops_available) (available p), run_ops (es ≫= ops_leased) (leased p),
     run_ops (es ≫= ops_provisioning) (provisioning p), run_ops (es ≫= ops_quarantined) (quarantined p),
     declared p, exhausted p && negb (existsb clears_exhausted es)).
Proof.
  intros Hes. revert p. induction Hes as [|e es He Hes IH]; intros p.
  { unfold counts_of. simpl. by rewrite andb_true_r. }
  simpl. rewrite IH. pose proof (apply_pool_counts e p) as Hc. rewrite apply_type_counts in Hc by done.
  unfold counts_of in Hc. simplify_eq. rewrite !run_ops_app. simplify_option_eq.
  repeat match goal with H : _ (apply_pool e p).1 = _ |- _ => rewrite H; clear H end.
  by rewrite negb_orb, andb_assoc.
Qed.

(** ** A Pool's invariant *)
Record pool_wf (p : trackedPool) : Prop := {
  pw_available : count_wf (available p); pw_leased : count_wf (leased p);
  pw_provisioning : count_wf (provisioning p); pw_quarantined : count_wf (quarantined p)
}.

Lemma status_counts p q : counts_of p = counts_of q -> status p = status q.
Proof.
  unfold counts_of. intros H. simplify_eq. unfold status, availableCount.
  repeat match goal with H : _ p = _ q |- _ => rewrite H; clear H end. done.
Qed.

Lemma pool_wf_new w : pool_wf (newPool w).
Proof. split; simpl; auto with runner. Qed.

Lemma pool_wf_rebaseline st p : pool_wf p -> pool_wf (rebaseline st p).
Proof. intros []. split; simpl; auto with runner. Qed.

Lemma pool_wf_counts p q : counts_of p = counts_of q -> pool_wf p -> pool_wf q.
Proof.
  unfold counts_of. intros H [H1 H2 H3 H4]. simplify_eq.
  split; by repeat match goal with H : _ p = _ q |- _ => rewrite <-H; clear H end.
Qed.

Lemma pool_wf_apply e p : pool_wf p -> pool_wf (apply_pool e p).1.
Proof.
  intros Hwf. eapply pool_wf_counts; [symmetry; apply apply_pool_counts|].
  destruct (resync e) eqn:Hr.
  - unfold resync in Hr. unfold apply_type. destruct (ev_Type e); try done.
    destruct (belowTargetCounts e); [|done]. destruct Hwf. split; simpl; auto with runner.
  - pose proof (apply_type_counts e p Hr) as Hc. unfold counts_of in Hc. simplify_eq.
    destruct Hwf. split; repeat match goal with H : _ (apply_type e p).1 = _ |- _ => rewrite H; clear H end;
      by apply count_wf_run.
Qed.

Lemma pool_wf_apply_events es p : pool_wf p -> pool_wf (apply_events es p).
Proof. revert p. induction es; simpl; auto using pool_wf_apply. Qed.

#[export] Hint Resolve pool_wf_new pool_wf_rebaseline pool_wf_apply pool_wf_apply_events : runner.

(** C20: a replay changes nothing.  After any history of events on a Pool,
    replaying the events of its recent past, as every new subscription does,
    leaves all four counts and the availability exactly as they were, when no
    poll came between the fold of those events and their replay and none of
    them is a POOL_SIZE_BELOW_TARGET that carries the Pool Manager's own
    counts. *)
Theorem replay_noop pre es p :
  pool_wf p -> Forall (fun e => resync e = false) es ->
  status (apply_events (pre ++ es ++ es) p) = status (apply_events (pre ++ es) p).
Proof.
  intros Hwf Hes. unfold apply_events. rewrite !fold_left_app. fold (apply_events pre p).
  pose proof (pool_wf_apply_events pre p Hwf) as [H1 H2 H3 H4].
  apply status_counts. rewrite <-fold_left_app. fold (apply_events (es ++ es) (apply_events pre p)).
  fold (apply_events es (apply_events pre p)).
  rewrite !apply_events_counts by (try apply Forall_app; done).
  rewrite !bind_app, !run_ops_replay, existsb_app by done.
  by destruct (existsb clears_exhausted es).
Qed.

Lemma replay_noop_witness :
  let ev ty := {| ev_ID := 0; ev_Pool := {| ref_Name := "p"; ref_Namespace := "n" |};
                  ev_VMUID := "u"; ev_Type := ty; ev_At := 0; ev_Payload := RawEmpty |} in
  let p := (newPool 0) <| declared := true |> in
  let es := [ev VM_PROVISIONED; ev VM_AVAILABLE] in
  status (apply_events ([] ++ es ++ es) p) = status (apply_events ([] ++ es) p)
  /\ Available (status (apply_events es p)) = 1.
Proof.
  intros ev p es. split; [|vm_compute; reflexivity].
  apply replay_noop; [|repeat constructor].
  apply (pool_wf_counts ((newPool 0) <| declared := true |>)); [done|]. split; simpl; auto with runner.
Defined.

(** The first event about a MicroVM, and only the first, takes it out of
    the MicroVMs a poll counted without naming them: however many events the
    Pool Manager sends for one uid, in whatever order, each of a Pool's
    unnamed counts drops by at most one and never below zero. *)
Theorem one_uid_takes_at_most_one es p uid :
  pool_wf p -> Forall (fun e => resync e = false /\ ev_VMUID e = uid) es ->
  let q := apply_events es p in
  Forall (fun cc : uidCount * uidCount =>
            unnamed cc.1 - 1 <= unnamed cc.2 <= unnamed cc.1 /\ 0 <= unnamed cc.2)
    [(available p, available q); (leased p, leased q);
     (provisioning p, provisioning q); (quarantined p, quarantined q)].
Proof.
  intros Hwf Hes q. pose proof (pool_wf_apply_events es p Hwf) as [Q1 Q2 Q3 Q4]. destruct Hwf as [H1 H2 H3 H4].
  assert (Forall (fun e => resync e = false) es) as Hr by (eapply Forall_impl; [exact Hes|naive_solver]).
  pose proof (apply_events_counts es p Hr) as Hc. unfold counts_of in Hc. simplify_eq.
  assert (forall f c c', (forall e, forall o, o ∈ f e -> op_uid o = ev_VMUID e) -> count_wf c -> count_wf c' ->
    c' = run_ops (es ≫= f) c -> unnamed c - 1 <= unnamed c' <= unnamed c /\ 0 <= unnamed c') as Hone.
  { intros f c c' Hf Hc Hc' ->. split; [|apply Hc']. apply run_ops_one_uid with uid; [done|].
    intros o (e & Ho & He)%list_elem_of_bind. rewrite (Hf e o Ho).
    rewrite Forall_forall in Hes. by apply Hes. }
  unfold q. repeat (apply Forall_cons_2; [simpl; eapply Hone; [|eassumption|eassumption|eassumption]|]);
    [| | | |by apply Forall_nil]; intros e o;
    unfold ops_available, ops_leased, ops_provisioning, ops_quarantined;
    destruct (ev_Type e); try destruct (hookFailureQuarantined e);
    first [by intros ?%not_elem_of_nil | by intros ->%list_elem_of_singleton].
Qed.

Lemma one_uid_takes_at_most_one_witness :
  let ev ty := {| ev_ID := 0; ev_Pool := {| ref_Name := "p"; ref_Namespace := "n" |};
                  ev_VMUID := "u"; ev_Type := ty; ev_At := 0; ev_Payload := RawEmpty |} in
  let p := rebaseline {| Available := 3; Leased := 0; Provisioning := 0; Quarantined := 0 |}
             ((newPool 0) <| declared := true |>) in
  let q := apply_events [ev VM_CLAIMED; ev VM_RELEASED; ev VM_DELETED_ON_RELEASE] p in
  unnamed (available p) - 1 <= unnamed (available q) /\ unnamed (available q) = 2.
Proof.
  intros ev p q. split; [|vm_compute; reflexivity].
  assert (pool_wf p) as Hwf by (apply pool_wf_rebaseline; split; simpl; auto with runner).
  pose proof (one_uid_takes_at_most_one
    [ev VM_CLAIMED; ev VM_RELEASED; ev VM_DELETED_ON_RELEASE] p "u" Hwf ltac:(repeat constructor)) as H.
  apply Forall_inv in H. cbv beta in H. cbn [fst snd] in H. destruct H as [[H _] _]. exact H.
Defined.

(** ** What a poll settles *)
Lemma rebaseline_parts tot c :
  named (rebaseline_count tot c) = named c /\
  unnamed (rebaseline_count tot c) = Z.max 0 (int32 (tot - int32 (Z.of_nat (size (named c))))).
Proof.
  unfold rebaseline_count. simpl. set (u := int32 _).
  destruct (Z.ltb_spec u 0); simpl; [|destruct (Z.eqb_spec u 0); simpl]; split; try done; lia.
Qed.

Lemma total_rebaseline tot c :
  Z.of_nat (size (named c)) <= 2147483647 -> 0 <= tot <= 2147483647 ->
  total (rebaseline_count tot c) = Z.max tot (Z.of_nat (size (named c))).
Proof.
  intros Hs Ht. unfold total. destruct (rebaseline_parts tot c) as [-> ->].
  rewrite (int32_id (Z.of_nat _)) by lia. rewrite (int32_id (tot - _)) by lia.
  rewrite int32_id; lia.
Qed.

Lemma pools_put ref p t : pools (put ref p t) !! ref = Some p.
Proof. apply lookup_insert_eq. Qed.

Lemma pools_put_ne ref r p t : r <> ref -> pools (put r p t) !! ref = pools t !! ref.
Proof. intros. by apply lookup_insert_ne. Qed.

Lemma poolLocked_spec ref t :
  pools (poolLocked ref t).1 !! ref = Some (poolLocked ref t).2 /\
  (forall r, r <> ref -> pools (poolLocked ref t).1 !! r = pools t !! r) /\
  (forall p, pools t !! ref = Some p -> poolLocked ref t = (t, p)).
Proof.
  unfold poolLocked. destruct (pools t !! ref) as [p|] eqn:E; simpl.
  - split_and!; [done|done|]. by intros ? [= ->].
  - split_and!; [apply lookup_insert_eq| |done]. intros r ?. by apply lookup_insert_ne.
Qed.

Lemma setDeclared_other ref r d t : r <> ref -> pools (setDeclared r d t) !! ref = pools t !! ref.
Proof.
  intros Hne. unfold setDeclared. destruct (poolLocked_spec r t) as (_ & Hoth & _).
  destruct (poolLocked r t) as [t1 p1]; simpl in *. rewrite lookup_insert_ne by done. by apply Hoth.
Qed.

Lemma applyPoll_other ref r a sz st t : r <> ref -> pools (applyPoll r a sz st t) !! ref = pools t !! ref.
Proof.
  intros Hne. unfold applyPoll. destruct (pools t !! r); [|done].
  destruct (negb _); [by apply pools_put_ne|]. cbv zeta.
  destruct (0 <? _); [|by apply pools_put_ne].
  destruct (closeWaiters _ _) as [q cs]. by rewrite pools_put_ne.
Qed.

Lemma poll_answer_other ref r a ans t : r <> ref -> pools (poll_answer r a ans t) !! ref = pools t !! ref.
Proof.
  intros Hne. destruct ans as [[sz st]|e]; simpl; [by apply applyPoll_other|].
  destruct (errors_Is e ErrNotFound); [by apply setDeclared_other|done].
Qed.

(** What an answer that no event raced leaves of a Pool. *)
Record polled (sz : Z) (st : PoolStatus) (p q : trackedPool) : Prop := {
  pd_available : available q = rebaseline_count (Available st) (available p);
  pd_leased : leased q = rebaseline_count (Leased st) (leased p);
  pd_size : size_ q = sz; pd_declared : declared q = declared p;
  pd_exhausted : exhausted q = false; pd_needsPoll : needsPoll q = false;
  pd_unsettled : unsettled q = false; pd_generation : generation q = generation p
}.

Lemma applyPoll_accepted ref sz st t p :
  pools t !! ref = Some p ->
  exists q, pools (applyPoll ref (generation p) sz st t) !! ref = Some q /\ polled sz st p q.
Proof.
  intros Hp. unfold applyPoll. rewrite Hp, Z.eqb_refl. cbn [negb]. cbv zeta.
  assert (polled sz st p (resynchronise sz st p)) as Hr by (by split).
  destruct (0 <? _); [|exists (resynchronise sz st p); split; [apply pools_put|done]].
  exists (closeWaiters (resynchronise sz st p) (tchans t)).1.
  destruct (closeWaiters _ _) as [q cs] eqn:Hc. split; [apply pools_put|].
  destruct Hr. unfold closeWaiters, make_chan in Hc. injection Hc as <- _. by split.
Qed.

Lemma pollAll_loop_other getPool l t ref :
  ref ∉ l -> pools (pollAll_loop (fun _ => false) getPool l t) !! ref = pools t !! ref.
Proof.
  revert t. induction l as [|r l IH]; intros t Hin; cbn [pollAll_loop]; [done|].
  rewrite IH by set_solver. apply poll_answer_other. set_solver.
Qed.

Lemma pollAll_loop_settles getPool l t ref p sz st :
  NoDup l -> ref ∈ l -> pools t !! ref = Some p -> getPool ref = Ok (sz, st) ->
  exists q, polled sz st p q /\ pools (pollAll_loop (fun _ => false) getPool l t) !! ref = Some q.
Proof.
  intros Hnd. revert t p. induction Hnd as [|r l Hr Hnd IH]; intros t p Hin Hp Hg.
  { by apply not_elem_of_nil in Hin. }
  cbn [pollAll_loop]. apply elem_of_cons in Hin as [<-|Hin].
  - destruct (applyPoll_accepted ref sz st t p Hp) as (q & Hq & Hpq). exists q. split; [done|].
    rewrite pollAll_loop_other by done. rewrite Hg. unfold Tracker_generation. rewrite Hp. exact Hq.
  - apply IH; [done| |done]. rewrite poll_answer_other by set_solver. done.
Qed.

Lemma refs_NoDup t : NoDup (refs t).
Proof.
  unfold refs. rewrite merge_sort_Permutation. apply NoDup_fst_map_to_list.
Qed.

Lemma refs_elem t ref p : pools t !! ref = Some p -> ref ∈ refs t.
Proof.
  intros Hp. unfold refs. rewrite merge_sort_Permutation. apply list_elem_of_fmap.
  exists (ref, p). split; [done|]. by apply elem_of_map_to_list.
Qed.

Lemma pollOwed_spec t ref p : pools t !! ref = Some p -> needsPoll p = true -> pollOwed t = true.
Proof.
  intros Hp Hn. unfold pollOwed. apply existsb_exists. exists (ref, p). split; [|done].
  apply list_elem_of_In. by apply elem_of_map_to_list.
Qed.

(** A debt is paid at the next tick.  Whenever a tracked Pool owes a
    poll, the poll loop polls on its next timer tick even while the Events
    stream is healthy, and if GetPool answers with counts [st] the Pool no
    longer owes, is no longer held at zero by a failed claim, and its
    available count is exactly the larger of the Pool Manager's figure and
    the number of uids events have named: a poll never leaves it short. *)
Theorem owed_poll_settles t ref p getPool sz st :
  pools t !! ref = Some p -> needsPoll p = true ->
  getPool ref = Ok (sz, st) ->
  0 <= Available st <= 2147483647 -> Z.of_nat (size (named (available p))) <= 2147483647 ->
  exists q, pools (pollLoop_wake (fun _ => false) getPool WakeTimer t) !! ref = Some q
    /\ needsPoll q = false /\ exhausted q = false /\ size_ q = sz /\ declared q = declared p
    /\ total (available q) = Z.max (Available st) (Z.of_nat (size (named (available p))))
    /\ (declared p = true -> Available st <= availableCount q).
Proof.
  intros Hp Hn Hg Hst Hs. unfold pollLoop_wake, poll_due.
  rewrite (pollOwed_spec t ref p Hp Hn), andb_false_r. simpl.
  destruct (pollAll_loop_settles getPool (refs t) t ref p sz st) as (q & Hpq & Hq);
    [apply refs_NoDup|by eapply refs_elem|done|done|].
  exists q. split; [exact Hq|]. destruct Hpq. split_and!; try done.
  - rewrite pd_available0. by apply total_rebaseline.
  - intros Hd. unfold availableCount. rewrite pd_declared0, Hd, pd_exhausted0, pd_available0. simpl.
    rewrite total_rebaseline by done. lia.
Qed.

Lemma owed_poll_settles_witness :
  let ref := {| ref_Name := "p"; ref_Namespace := "n" |} in
  let p := (newPool 0) <| declared := true |> <| needsPoll := true |> in
  let t := NewTracker <| pools := {[ref := p]} |> <| streamUp := true |> in
  let ans := (5, {| Available := 4; Leased := 1; Provisioning := 0; Quarantined := 0 |}) in
  exists q, pools (pollLoop_wake (fun _ => false) (fun _ => Ok ans) WakeTimer t) !! ref = Some q
    /\ 4 <= availableCount q.
Proof.
  intros ref p t ans.
  destruct (owed_poll_settles t ref p (fun _ => Ok ans) 5 ans.2) as (q & Hq & _ & _ & _ & _ & _ & Ha);
    [reflexivity|reflexivity|reflexivity|by_compute|by_compute|].
  exists q. split; [exact Hq|]. apply Ha. reflexivity.
Defined.
