(* ===== verification/TrackerSys.v ===== *)
(** * The Tracker as a state machine

    Events, polls and the calls of the Scheduler interleave at the
    granularity of the mutex: one action is one critical section.  A poll is
    two actions, the question that records the Pool's generation and the
    answer, and anything may happen in between.  [handed] remembers every
    channel [Wait] returned, [changes] and [discards] count the events and
    the answers thrown away. *)
From S2P Require Import Prelude GoModel PoolTypes Tracker TrackerThms.

Record sys := {
  trk : PoolTracker; asked : option (PoolRef * Z);
  handed : list (PoolRef * Z); changes : Z; discards : Z
}.

#[export] Instance eta_sys : Eta sys :=
  fun r => {| trk := trk r; asked := asked r; handed := handed r; changes := changes r; discards := discards r |}.

Inductive action :=
  | AEvent (e : Event) | ATrack (ref : PoolRef) (d : bool) | AUntrack (ref : PoolRef)
  | AExhaust (ref : PoolRef) | AWait (ref : PoolRef) | AStream (up : bool)
  | AAsk (ref : PoolRef) | AAnswer (ans : result (Z * PoolStatus)).

Definition sys0 : sys :=
  {| trk := NewTracker; asked := None; handed := []; changes := 0; discards := 0 |}.

(** Whether the answer to an outstanding question will be thrown away. *)
Definition stale (t : PoolTracker) (a : option (PoolRef * Z)) : bool :=
  match a with
  | Some (ref, g) => negb (Tracker_generation ref t =? g)
  | None => false
  end.

Definition discarded (t : PoolTracker) (ref : PoolRef) (g : Z) (ans : result (Z * PoolStatus)) : bool :=
  match pools t !! ref, ans with
  | Some p, Ok _ => negb (generation p =? g)
  | _, _ => false
  end.

Definition sys_step (s : sys) (a : action) : sys :=
  let t := trk s in
  match a with
  | AEvent e => {| trk := apply e t; asked := asked s; handed := handed s;
                   changes := changes s + 1; discards := discards s |}
  | ATrack ref d => {| trk := Track ref d t; asked := asked s; handed := handed s;
                       changes := changes s; discards := discards s |}
  | AUntrack ref => {| trk := Untrack ref t; asked := asked s; handed := handed s;
                       changes := changes s + 1; discards := discards s |}
  | AExhaust ref => {| trk := MarkExhausted ref t; asked := asked s; handed := handed s;
                       changes := changes s; discards := discards s |}
  | AWait ref => let '(t', w) := Wait ref t in
      {| trk := t'; asked := asked s; handed := (ref, w) :: handed s;
         changes := changes s; discards := discards s |}
  | AStream up => {| trk := setStreamUp up t; asked := asked s; handed := handed s;
                     changes := changes s; discards := discards s |}
  | AAsk ref =>
      match asked s with
      | Some _ => s
      | None => {| trk := t; asked := Some (ref, Tracker_generation ref t); handed := handed s;
                   changes := changes s; discards := discards s |}
      end
  | AAnswer ans =>
      match asked s with
      | None => s
      | Some (ref, g) =>
          {| trk := poll_answer ref g ans t; asked := None; handed := handed s; changes := changes s;
             discards := discards s + (if discarded t ref g ans then 1 else 0) |}
      end
  end.

Definition run (acts : list action) : sys := fold_left sys_step acts sys0.

(** ** The invariant of the waiters *)
Record winv (H : list (PoolRef * Z)) (ps : gmap PoolRef trackedPool) (cs : chans) : Prop := {
  wi_chans : chans_ok cs;
  wi_open : forall ref p, ps !! ref = Some p -> open_chan cs (waiters p) /\ pool_wf p;
  wi_inj : forall r1 r2 p1 p2, ps !! r1 = Some p1 -> ps !! r2 = Some p2 -> waiters p1 = waiters p2 -> r1 = r2;
  wi_handed : forall ref w, (ref, w) ∈ H ->
    w ∈ closed_chans cs \/ exists p, ps !! ref = Some p /\ waiters p = w
}.

Lemma winv_put H ps cs ref p q :
  winv H ps cs -> ps !! ref = Some p -> waiters q = waiters p -> pool_wf q ->
  winv H (<[ref := q]> ps) cs.
Proof.
  intros [H1 H2 H3 H4] Hp Hw Hq. split; [done| | |].
  - intros r x [[<- <-]|[_ Hx]]%lookup_insert_Some; [rewrite Hw; split; [|done]; by eapply H2|by eapply H2].
  - intros r1 r2 p1 p2 [[<- <-]|[? Hx1]]%lookup_insert_Some [[<- <-]|[? Hx2]]%lookup_insert_Some Heq;
      try done; [|symmetry|by eapply H3]; eapply H3; eauto; congruence.
  - intros r w [?|(x & Hx & <-)]%H4; [by left|right].
    destruct (decide (r = ref)) as [->|]; [|exists x; by rewrite lookup_insert_ne].
    exists q. rewrite lookup_insert_eq. split; [done|congruence].
Qed.

Lemma winv_new H ps cs ref q :
  winv H ps cs -> ps !! ref = None -> pool_wf q -> waiters q = (make_chan cs).2 ->
  winv H (<[ref := q]> ps) (make_chan cs).1.
Proof.
  intros [H1 H2 H3 H4] Hn Hq Hw.
  assert (forall r x, ps !! r = Some x -> waiters x <> waiters q) as Hne.
  { intros r x [[Hlt _] _]%H2. rewrite Hw. simpl. lia. }
  split; [by auto with runner| | |].
  - intros r x [[<- <-]|[_ Hx]]%lookup_insert_Some; [rewrite Hw; by auto with runner|].
    destruct (H2 _ _ Hx). by auto with runner.
  - intros r1 r2 p1 p2 [[<- <-]|[? Hx1]]%lookup_insert_Some [[<- <-]|[? Hx2]]%lookup_insert_Some Heq; try done.
    + by destruct (Hne _ _ Hx2).
    + by destruct (Hne _ _ Hx1).
    + by eapply H3.
  - intros r w [?|(x & Hx & <-)]%H4; [by left|right]. exists x.
    rewrite lookup_insert_ne by congruence. done.
Qed.

(** Closing a Pool's waiters: the old channel is closed, once. *)
Lemma winv_delete H ps cs ref p :
  winv H ps cs -> ps !! ref = Some p ->
  winv H (delete ref ps) (close_chan (waiters p) cs) /\ waiters p ∈ closed_chans (close_chan (waiters p) cs).
Proof.
  intros [H1 H2 H3 H4] Hp. destruct (H2 _ _ Hp) as [Ho _]. split; [|by auto with runner].
  split; [by auto with runner| | |].
  - intros r x [Hne Hx]%lookup_delete_Some. destruct (H2 _ _ Hx) as [Hox Hwx]. split; [|done].
    apply open_chan_close_ne; [done|]. intros Heq. by apply Hne, (H3 ref r p x).
  - intros r1 r2 p1 p2 [_ Hx1]%lookup_delete_Some [_ Hx2]%lookup_delete_Some. by eapply H3.
  - intros r w [?|(x & Hx & <-)]%H4; [left; by apply close_chan_mono|].
    destruct (decide (r = ref)) as [->|]; [left; simplify_eq; by auto with runner|].
    right. exists x. by rewrite lookup_delete_ne.
Qed.

Lemma winv_close H ps cs ref p q :
  winv H ps cs -> ps !! ref = Some p -> waiters q = waiters p -> pool_wf q ->
  let '(q', cs') := closeWaiters q cs in
  winv H (<[ref := q']> ps) cs' /\ waiters p ∈ closed_chans cs'.
Proof.
  intros Hw Hp Heq Hq. unfold closeWaiters. rewrite Heq.
  destruct (winv_delete H ps cs ref p Hw Hp) as [Hd Hc]. simpl. split; [|done].
  rewrite <-insert_delete_eq.
  apply (winv_new _ _ _ _ _ Hd); [apply lookup_delete_eq| |done].
  destruct Hq. by split.
Qed.

Lemma winv_poolLocked H ref t :
  winv H (pools t) (tchans t) ->
  winv H (pools (poolLocked ref t).1) (tchans (poolLocked ref t).1)
  /\ pools (poolLocked ref t).1 !! ref = Some (poolLocked ref t).2 /\ pool_wf (poolLocked ref t).2.
Proof.
  intros Hw. destruct (poolLocked_spec ref t) as [Hl _].
  assert (winv H (pools (poolLocked ref t).1) (tchans (poolLocked ref t).1)) as Hw'.
  { unfold poolLocked. destruct (pools t !! ref) eqn:E; [done|]. simpl.
    by apply (winv_new H (pools t) (tchans t) ref (newPool _) Hw E (pool_wf_new _)). }
  split_and!; [done|done|]. by eapply wi_open.
Qed.

(** A method that fetches the Pool, changes it but not its waiters and writes it back. *)
Lemma winv_update H ref t f :
  winv H (pools t) (tchans t) ->
  (forall p, pool_wf p -> pool_wf (f p) /\ waiters (f p) = waiters p) ->
  let t' := put ref (f (poolLocked ref t).2) (poolLocked ref t).1 in winv H (pools t') (tchans t').
Proof.
  intros Hw Hf. destruct (winv_poolLocked H ref t Hw) as (Hw' & Hl & Hp).
  destruct (Hf _ Hp). simpl. by apply (winv_put _ _ _ _ _ _ Hw' Hl).
Qed.

Lemma apply_type_frame e p :
  waiters (apply_type e p).1 = waiters p /\ generation (apply_type e p).1 = generation p.
Proof.
  unfold apply_type. destruct (ev_Type e); simpl; try done.
  - by destruct (add _ _) as [[c a] []].
  - by destruct (hookFailureQuarantined e).
  - by destruct (belowTargetCounts e).
Qed.

Lemma apply_pool_frame e p :
  waiters (apply_pool e p).1 = waiters p
  /\ generation (apply_pool e p).1 = uint64 (generation p + 1)
  /\ (apply_pool e p).2 = (apply_type e (p <| generation := uint64 (generation p + 1) |>)).2.
Proof.
  unfold apply_pool. set (p' := p <| generation := _ |>).
  destruct (apply_type_frame e p') as [Hw Hg].
  assert (waiters p' = waiters p /\ generation p' = uint64 (generation p + 1)) as [Hw' Hg'] by done.
  clearbody p'. cbv zeta. destruct (apply_type e p') as [q w]; simpl in *.
  destruct (_ && _); destruct (_ && _); simpl; split_and!; congruence.
Qed.

Lemma pool_wf_counts_parts p q :
  pool_wf p -> available q = available p -> leased q = leased p ->
  provisioning q = provisioning p -> quarantined q = quarantined p -> pool_wf q.
Proof. intros [] E1 E2 E3 E4. split; congruence. Qed.

Lemma winv_apply H e t : winv H (pools t) (tchans t) -> winv H (pools (apply e t)) (tchans (apply e t)).
Proof.
  intros Hw. unfold apply. destruct (pools t !! ev_Pool e) as [p|] eqn:Hp; [|done].
  destruct (apply_pool_frame e p) as (Hwt & _). destruct (wi_open _ _ _ Hw _ _ Hp) as [_ Hwf].
  pose proof (pool_wf_apply e p Hwf) as Hwf'.
  destruct (apply_pool e p) as [q woken]; cbn [fst snd] in *. destruct woken.
  - pose proof (winv_close H _ _ _ p q Hw Hp Hwt Hwf') as Hc.
    destruct (closeWaiters q (tchans t)) as [q' cs]. destruct Hc as [Hc _]. by destruct (needsPoll q').
  - pose proof (winv_put H _ _ _ p q Hw Hp Hwt Hwf'). by destruct (needsPoll q).
Qed.

Lemma pool_wf_resynchronise sz st p : pool_wf p -> pool_wf (resynchronise sz st p).
Proof. intros [H1 H2 H3 H4]. split; simpl; by auto with runner. Qed.

Lemma winv_applyPoll H ref a sz st t :
  winv H (pools t) (tchans t) -> winv H (pools (applyPoll ref a sz st t)) (tchans (applyPoll ref a sz st t)).
Proof.
  intros Hw. unfold applyPoll. destruct (pools t !! ref) as [p|] eqn:Hp; [|done].
  destruct (wi_open _ _ _ Hw _ _ Hp) as [_ Hwf].
  destruct (negb _).
  { apply (winv_put H _ _ _ p); [done|done|done|]. by apply (pool_wf_counts_parts p). }
  cbv zeta. pose proof (pool_wf_resynchronise sz st p Hwf) as Hr.
  destruct (0 <? _); [|by apply (winv_put H _ _ _ p)].
  pose proof (winv_close H _ _ _ p (resynchronise sz st p) Hw Hp eq_refl Hr) as Hc.
  destruct (closeWaiters _ (tchans t)) as [q' cs]. by destruct Hc.
Qed.

Lemma winv_setDeclared H ref d t :
  winv H (pools t) (tchans t) -> winv H (pools (setDeclared ref d t)) (tchans (setDeclared ref d t)).
Proof.
  intros Hw. set (f := fun p : trackedPool => let p := p <| declared := d |> in
    if negb d then p <| needsPoll := false |> <| unsettled := false |> else p).
  pose proof (winv_update H ref t f Hw) as Hu. unfold setDeclared.
  destruct (poolLocked ref t) as [t1 p1]. apply Hu. unfold f.
  intros p Hp. split; [by destruct d; apply (pool_wf_counts_parts p)|by destruct d].
Qed.

Lemma winv_Track H ref d t :
  winv H (pools t) (tchans t) -> winv H (pools (Track ref d t)) (tchans (Track ref d t)).
Proof.
  intros Hw. pose proof (winv_update H ref t (fun p => p <| declared := d |>) Hw) as Hu. unfold Track.
  destruct (poolLocked ref t) as [t1 p1].
  assert (forall p : trackedPool, pool_wf p ->
    pool_wf (p <| declared := d |>) /\ waiters (p <| declared := d |>) = waiters p) as Hf.
  { intros p Hp. split; [by apply (pool_wf_counts_parts p)|done]. }
  specialize (Hu Hf). by destruct (_ || _).
Qed.

Lemma winv_MarkExhausted H ref t :
  winv H (pools t) (tchans t) -> winv H (pools (MarkExhausted ref t)) (tchans (MarkExhausted ref t)).
Proof.
  intros Hw.
  pose proof (winv_update H ref t (fun p => p <| exhausted := true |> <| available := reset (available p) |>) Hw) as Hu.
  unfold MarkExhausted. destruct (poolLocked ref t) as [t1 p1]. apply Hu.
  intros p [H1 H2 H3 H4]. split; [split; simpl; auto with runner|done].
Qed.

Lemma winv_Untrack H ref t :
  winv H (pools t) (tchans t) -> winv H (pools (Untrack ref t)) (tchans (Untrack ref t)).
Proof.
  intros Hw. unfold Untrack. destruct (pools t !! ref) as [p|] eqn:Hp; [|done].
  destruct (winv_delete H _ _ ref p Hw Hp) as [Hd _]. cbv zeta. unfold closeWaiters. simpl.
  destruct Hd as [H1 H2 H3 H4]. split; [by apply chans_ok_make| |done|done].
  intros r x [Ho Hx]%H2. split; [by apply open_chan_make_ne|done].
Qed.

Lemma winv_Wait H ref t :
  winv H (pools t) (tchans t) ->
  winv ((ref, (Wait ref t).2) :: H) (pools (Wait ref t).1) (tchans (Wait ref t).1).
Proof.
  intros Hw. set (f := fun p : trackedPool => p <| waiting := waiting p + 1 |>).
  pose proof (winv_update H ref t f Hw) as Hu.
  assert (forall p, pool_wf p -> pool_wf (f p) /\ waiters (f p) = waiters p) as Hf.
  { intros p Hp. split; [by apply (pool_wf_counts_parts p)|done]. }
  specialize (Hu Hf). unfold Wait. destruct (poolLocked ref t) as [t1 p1]. cbn [fst snd].
  destruct Hu as [H1 H2 H3 H4]. split; [done|done|done|].
  intros r w [[= -> ->]|Hin]%elem_of_cons; [|by apply H4].
  right. exists (f p1). split; [apply pools_put|done].
Qed.

Lemma winv_step s a :
  winv (handed s) (pools (trk s)) (tchans (trk s)) ->
  winv (handed (sys_step s a)) (pools (trk (sys_step s a))) (tchans (trk (sys_step s a))).
Proof.
  intros Hw. destruct a; cbn [sys_step trk handed].
  - by apply winv_apply.
  - by apply winv_Track.
  - by apply winv_Untrack.
  - by apply winv_MarkExhausted.
  - pose proof (winv_Wait _ ref _ Hw). by destruct (Wait ref (trk s)).
  - done.
  - by destruct (asked s).
  - destruct (asked s) as [[ref g]|]; [|done]. destruct ans as [[sz st]|e]; cbn [trk handed poll_answer].
    + by apply winv_applyPoll.
    + destruct (errors_Is e ErrNotFound); [by apply winv_setDeclared|done].
Qed.

Lemma run_snoc acts a : run (acts ++ [a]) = sys_step (run acts) a.
Proof. unfold run. by rewrite fold_left_app. Qed.

Lemma winv_run acts : winv (handed (run acts)) (pools (trk (run acts))) (tchans (trk (run acts))).
Proof.
  induction acts as [|a acts IH] using rev_ind; [|rewrite run_snoc; by apply winv_step].
  split; [by split; simpl; set_solver| | |]; simpl; intros *; rewrite ?lookup_empty; set_solver.
Qed.

(** No close of a closed channel.  Whatever events arrive and whatever
    the Scheduler calls, in any interleaving, the Tracker never closes one
    of its waiter channels twice: the panic that would take the process
    down is unreachable. *)
Theorem tracker_never_panics acts : chan_panic (tchans (trk (run acts))) = false.
Proof. apply (wi_chans _ _ _ (winv_run acts)). Qed.

(** The actions after which whoever waits on [ref] has to look again: a
    MicroVM the counts did not know became available, a poll that no event
    raced found one, or the Pool is no longer tracked. *)
Definition news (s : sys) (a : action) (ref : PoolRef) : Prop :=
  match a with
  | AEvent e =>
      ev_Pool e = ref /\ ev_Type e = VM_AVAILABLE /\ ev_VMUID e <> "" /\
      exists p, pools (trk s) !! ref = Some p /\ ev_VMUID e ∉ named (available p)
  | AAnswer (Ok (_, st)) =>
      exists p, pools (trk s) !! ref = Some p /\ asked s = Some (ref, generation p) /\
        declared p = true /\ 0 < Available st <= 2147483647 /\
        Z.of_nat (size (named (available p))) <= 2147483647
  | AUntrack r => r = ref
  | _ => False
  end.

Lemma winv_waiting H t ref w :
  winv H (pools t) (tchans t) -> (ref, w) ∈ H ->
  forall cs p, pools t !! ref = Some p -> closed_chans (tchans t) ⊆ closed_chans cs ->
  waiters p ∈ closed_chans cs -> w ∈ closed_chans cs.
Proof.
  intros Hw Hin cs p Hp Hsub Hc. destruct (wi_handed _ _ _ Hw ref w Hin) as [?|(q & Hq & <-)]; [set_solver|].
  by simplify_eq.
Qed.

Lemma closeWaiters_closed p cs :
  open_chan cs (waiters p) ->
  waiters p ∈ closed_chans (closeWaiters p cs).2 /\ closed_chans cs ⊆ closed_chans (closeWaiters p cs).2.
Proof.
  intros Ho. split; [by apply (close_chan_closed cs)|apply (close_chan_mono cs)].
Qed.

Lemma apply_pool_wakes e p :
  ev_Type e = VM_AVAILABLE -> ev_VMUID e <> "" -> ev_VMUID e ∉ named (available p) -> pool_wf p ->
  (apply_pool e p).2 = true.
Proof.
  intros Hty Hne Hin Hwf. destruct (apply_pool_frame e p) as (_ & _ & ->).
  unfold apply_type. rewrite Hty. simpl.
  destruct (add_spec _ _ (pw_available p Hwf) Hne) as [[? _]|[(_ & _ & ->)|(_ & _ & ->)]]; done.
Qed.

(** C15: no lost wake-up.  A channel [Wait] ever handed out for a Pool, in
    any reachable state, is closed by the time a MicroVM of that Pool
    becomes available: by the VM_AVAILABLE event that names it, by the poll
    that finds it, or by the Pool being untracked. *)
Theorem no_lost_wakeup acts a ref w :
  (ref, w) ∈ handed (run acts) -> news (run acts) a ref ->
  w ∈ closed_chans (tchans (trk (sys_step (run acts) a))).
Proof.
  pose proof (winv_run acts) as Hw. set (s := run acts) in *. intros Hin Hn. clearbody s.
  destruct a as [e| |r| | | | |[[sz st]|]]; try done; cbn [news sys_step trk] in *.
  - destruct Hn as (Hr & Hty & Hne & p & Hp & Hnew).
    destruct (wi_open _ _ _ Hw _ _ Hp) as [Ho Hwf].
    destruct (apply_pool_frame e p) as (Hwt & _). pose proof (apply_pool_wakes e p Hty Hne Hnew Hwf) as Hwoken.
    unfold apply. rewrite Hr, Hp. destruct (apply_pool e p) as [q woken]. cbn [fst snd] in *. subst woken.
    destruct (closeWaiters_closed q (tchans (trk s))) as [Hc Hm]; [by rewrite Hwt|]. rewrite Hwt in Hc.
    destruct (closeWaiters q _) as [q' cs]. cbn [snd] in *.
    assert (w ∈ closed_chans cs) by eauto using winv_waiting. by destruct (needsPoll q').
  - subst r. unfold Untrack. destruct (pools (trk s) !! ref) as [p|] eqn:Hp.
    + destruct (wi_open _ _ _ Hw _ _ Hp) as [Ho _].
      destruct (closeWaiters_closed p (tchans (trk s)) Ho). cbv zeta. by eapply winv_waiting.
    + destruct (wi_handed _ _ _ Hw ref w Hin) as [?|(q & Hq & _)]; [done|congruence].
  - destruct Hn as (p & Hp & Hask & Hd & Hst & Hsz). rewrite Hask. cbn [trk poll_answer].
    destruct (wi_open _ _ _ Hw _ _ Hp) as [Ho _].
    unfold applyPoll. rewrite Hp, Z.eqb_refl. cbn [negb]. cbv zeta.
    assert (0 <? availableCount (resynchronise sz st p) = true) as ->.
    { apply Z.ltb_lt. unfold availableCount. cbn [resynchronise declared exhausted available rebaseline].
      rewrite Hd. cbn. rewrite total_rebaseline; lia. }
    destruct (closeWaiters_closed (resynchronise sz st p) (tchans (trk s)) Ho) as [Hc Hm].
    destruct (closeWaiters _ _) as [q cs]. by eapply winv_waiting.
Qed.

Lemma no_lost_wakeup_witness :
  let ref := {| ref_Name := "p"; ref_Namespace := "n" |} in
  let e := {| ev_ID := 1; ev_Pool := ref; ev_VMUID := "u"; ev_Type := VM_AVAILABLE; ev_At := 0; ev_Payload := RawEmpty |} in
  let acts := [ATrack ref true; AWait ref; AExhaust ref; AWait ref] in
  Forall (fun rw => rw.2 ∈ closed_chans (tchans (trk (sys_step (run acts) (AEvent e))))) (handed (run acts)).
Proof.
  intros ref e acts. apply Forall_forall. intros [r w] Hin.
  assert (r = ref) as ->.
  { change (handed (run acts)) with [(ref, 0); (ref, 0)] in Hin. set_solver. }
  apply (no_lost_wakeup acts (AEvent e) ref w Hin). repeat split; [done|].
  eexists. split; [reflexivity|]. vm_compute. intros H. inversion H.
Defined.

(** ** Polls and the events that race them *)
Definition is_event_on (ref : PoolRef) (a : action) : bool :=
  match a with AEvent e => bool_decide (ev_Pool e = ref) | _ => false end.

Definition count_events (ref : PoolRef) (l : list action) : Z :=
  Z.of_nat (length (filter (fun a => is_event_on ref a = true) l)).

(** What may happen between a question about [ref] and its answer. *)
Definition between (ref : PoolRef) (a : action) : bool :=
  match a with AUntrack r => negb (bool_decide (r = ref)) | AAnswer _ => false | _ => true end.

Lemma apply_lookup e t ref :
  pools (apply e t) !! ref =
  match pools t !! ref with
  | Some p => if bool_decide (ev_Pool e = ref)
              then Some (if (apply_pool e p).2 then (closeWaiters (apply_pool e p).1 (tchans t)).1
                         else (apply_pool e p).1)
              else Some p
  | None => None
  end.
Proof.
  unfold apply. destruct (decide (ev_Pool e = ref)) as [<-|Hne].
  - rewrite bool_decide_true by done. destruct (pools t !! ev_Pool e) as [p|] eqn:Hp; [|done].
    destruct (apply_pool e p) as [q []]; cbn [fst snd].
    + destruct (closeWaiters q _) as [q' cs]. destruct (needsPoll q'); apply pools_put.
    + destruct (needsPoll q); apply pools_put.
  - rewrite bool_decide_false by done. destruct (pools t !! ev_Pool e) as [p|] eqn:Hp; [|by destruct (_ !! ref)].
    destruct (apply_pool e p) as [q woken]. destruct (if woken then _ else _) as [q' cs].
    transitivity (pools t !! ref); [|by destruct (pools t !! ref)].
    pose proof (pools_put_ne ref (ev_Pool e) q' (t <| tchans := cs |>) Hne). by destruct (needsPoll q').
Qed.

Lemma put_generation r ref t p f :
  pools (poolLocked r t).1 !! ref = Some p ->
  (forall p, generation (f p) = generation p) ->
  exists p', pools (put r (f (poolLocked r t).2) (poolLocked r t).1) !! ref = Some p' /\ generation p' = generation p.
Proof.
  intros Hp Hg. destruct (decide (r = ref)) as [->|].
  - destruct (poolLocked_spec ref t) as [Hl _]. rewrite Hl in Hp. injection Hp as <-.
    eexists. by rewrite pools_put.
  - exists p. by rewrite pools_put_ne.
Qed.

Lemma poolLocked_keep r t ref p :
  pools t !! ref = Some p -> pools (poolLocked r t).1 !! ref = Some p.
Proof.
  intros Hp. destruct (poolLocked_spec r t) as (_ & Ho & Hs). destruct (decide (r = ref)) as [->|Hne].
  - by rewrite (Hs _ Hp).
  - by rewrite Ho.
Qed.

(** One action moves the generation by one exactly when it is an event on
    the Pool, and leaves an outstanding question alone. *)
Lemma step_generation s a ref p q :
  pools (trk s) !! ref = Some p -> asked s = Some q -> between ref a = true ->
  asked (sys_step s a) = Some q /\
  exists p', pools (trk (sys_step s a)) !! ref = Some p' /\
    generation p' = if is_event_on ref a then uint64 (generation p + 1) else generation p.
Proof.
  intros Hp Hq Hb. destruct a as [e|r d|r|r|r|u|r|ans]; cbn [sys_step trk asked is_event_on between] in *; try done.
  - split; [done|]. rewrite apply_lookup, Hp. case_bool_decide; [|eauto]. eexists; split; [reflexivity|].
    destruct (apply_pool_frame e p) as (_ & Hg & _). by destruct (apply_pool e p) as [x []].
  - split; [done|]. pose proof (put_generation r ref (trk s) p (fun p => p <| declared := d |>)
      (poolLocked_keep r _ _ _ Hp) ltac:(done)) as Hx. unfold Track.
    destruct (poolLocked r (trk s)) as [t1 p1]. destruct Hx as (x & Hx & Hgx). exists x.
    split; [|exact Hgx]. destruct (_ || _); exact Hx.
  - bool_to_prop. split; [done|]. exists p. split; [|done]. unfold Untrack.
    destruct (pools (trk s) !! r); [|done]. cbn. by rewrite lookup_delete_ne.
  - split; [done|]. pose proof (put_generation r ref (trk s) p
      (fun p => p <| exhausted := true |> <| available := reset (available p) |>)
      (poolLocked_keep r _ _ _ Hp) ltac:(done)) as Hx. unfold MarkExhausted.
    by destruct (poolLocked r (trk s)) as [t1 p1].
  - pose proof (put_generation r ref (trk s) p
      (fun p => p <| waiting := waiting p + 1 |>)
      (poolLocked_keep r _ _ _ Hp) ltac:(done)) as Hx. unfold Wait.
    by destruct (poolLocked r (trk s)) as [t1 p1].
  - eauto.
  - rewrite Hq. eauto.
Qed.

Lemma count_events_cons ref a l :
  count_events ref (a :: l) = (if is_event_on ref a then 1 else 0) + count_events ref l.
Proof.
  unfold count_events. rewrite filter_cons. case_decide as E; [rewrite E; simpl length; lia|].
  by destruct (is_event_on ref a).
Qed.

Lemma uint64_add a b : uint64 (uint64 a + b) = uint64 (a + b).
Proof. apply Zplus_mod_idemp_l. Qed.

Lemma steps_generation mid s ref p q :
  pools (trk s) !! ref = Some p -> asked s = Some q -> 0 <= generation p < 2 ^ 64 ->
  Forall (fun a => between ref a = true) mid ->
  asked (fold_left sys_step mid s) = Some q /\
  exists p', pools (trk (fold_left sys_step mid s)) !! ref = Some p' /\
    generation p' = uint64 (generation p + count_events ref mid).
Proof.
  revert s p. induction mid as [|a mid IH]; intros s p Hp Hq Hg Hb; cbn [fold_left].
  { split; [done|]. exists p. split; [done|]. unfold count_events. simpl.
    rewrite Z.add_0_r. by rewrite uint64_id. }
  pose proof (Forall_inv Hb) as Hba. pose proof (Forall_inv_tail Hb) as Hbt.
  destruct (step_generation s a ref p q Hp Hq Hba) as (Hq' & p' & Hp' & Hg').
  destruct (IH _ p' Hp' Hq') as (Hq'' & p'' & Hp'' & Hg''); [|done|].
  { rewrite Hg'. destruct (is_event_on ref a); [apply Z.mod_pos_bound; lia|done]. }
  split; [done|]. exists p''. split; [done|]. rewrite Hg'', Hg', count_events_cons.
  destruct (is_event_on ref a); [rewrite uint64_add|]; f_equal; lia.
Qed.

(** An answer an event raced is thrown away.  Between the question
    [pollAll] asks about a tracked Pool and its answer, let anything happen
    but the Pool being untracked, with at least one event about it (and
    fewer than 2^64): the answer changes none of its counts, and the Pool is
    left owing the poll that will replace it. *)
Theorem raced_answer_discarded s ref p mid sz st :
  pools (trk s) !! ref = Some p -> 0 <= generation p < 2 ^ 64 -> asked s = None ->
  Forall (fun a => between ref a = true) mid -> 0 < count_events ref mid < 2 ^ 64 ->
  let s1 := fold_left sys_step mid (sys_step s (AAsk ref)) in
  let s2 := sys_step s1 (AAnswer (Ok (sz, st))) in
  exists q, pools (trk s1) !! ref = Some q /\ pools (trk s2) !! ref = Some (q <| needsPoll := true |>)
    /\ kick (trk s2) = true /\ discards s2 = discards s1 + 1.
Proof.
  intros Hp Hg Ha Hb Hc s1 s2.
  assert (sys_step s (AAsk ref) = s <| asked := Some (ref, generation p) |>) as Hask.
  { simpl. rewrite Ha. unfold Tracker_generation. by rewrite Hp. }
  destruct (steps_generation mid (sys_step s (AAsk ref)) ref p (ref, generation p)) as (Hq & q & Hl & Hgq);
    [by rewrite Hask|by rewrite Hask|done|done|].
  fold s1 in Hq, Hl. exists q. split; [done|].
  assert (generation q =? generation p = false) as Hne.
  { apply Z.eqb_neq. rewrite Hgq. unfold uint64. intros He.
    pose proof (Z.mod_eq (generation p + count_events ref mid) (2 ^ 64) ltac:(lia)). nia. }
  unfold s2. cbn [sys_step]. rewrite Hq. unfold discarded. cbn [trk discards poll_answer]. unfold applyPoll.
  rewrite Hl, Hne. cbn [negb]. split_and!; [apply pools_put|done|done].
Qed.

Lemma raced_answer_discarded_witness :
  let ref := {| ref_Name := "p"; ref_Namespace := "n" |} in
  let e := {| ev_ID := 1; ev_Pool := ref; ev_VMUID := "u"; ev_Type := VM_CLAIMED; ev_At := 0; ev_Payload := RawEmpty |} in
  let s := run [ATrack ref true] in
  let s1 := fold_left sys_step [AEvent e] (sys_step s (AAsk ref)) in
  discards (sys_step s1 (AAnswer (Ok (3, {| Available := 3; Leased := 0; Provisioning := 0; Quarantined := 0 |}))))
    = discards s1 + 1.
Proof.
  intros ref e s s1.
  destruct (raced_answer_discarded s ref ((newPool 0) <| declared := true |>) [AEvent e] 3
    {| Available := 3; Leased := 0; Provisioning := 0; Quarantined := 0 |}) as (q & _ & _ & _ & H);
    [reflexivity|by_compute|reflexivity|repeat constructor|by_compute|exact H].
Defined.

Lemma gen_update r t f ref :
  (forall p, generation (f p) = generation p) ->
  Tracker_generation ref (put r (f (poolLocked r t).2) (poolLocked r t).1) = Tracker_generation ref t.
Proof.
  intros Hf. unfold Tracker_generation. destruct (decide (r = ref)) as [->|Hne].
  - rewrite pools_put, Hf. unfold poolLocked. by destruct (pools t !! ref).
  - rewrite pools_put_ne by done. destruct (poolLocked_spec r t) as (_ & Ho & _). by rewrite Ho.
Qed.

Lemma stale_gen t t' a : (forall ref, Tracker_generation ref t' = Tracker_generation ref t) -> stale t' a = stale t a.
Proof. intros H. destruct a as [[ref g]|]; simpl; [|done]. by rewrite H. Qed.

Lemma stale_step s a :
  (match a with AEvent _ | AUntrack _ | AAsk _ | AAnswer _ => False | _ => True end) ->
  asked (sys_step s a) = asked s /\ discards (sys_step s a) = discards s /\ changes (sys_step s a) = changes s
  /\ stale (trk (sys_step s a)) (asked s) = stale (trk s) (asked s).
Proof.
  intros Ha. destruct a as [e|r d|r|r|r|u|r|ans]; try done; cbn [sys_step trk asked discards changes];
    try (destruct (Wait r (trk s)) as [t' w] eqn:E; cbn [trk asked discards changes]);
    (split_and!; [done|done|done|]); apply stale_gen; intros ref.
  - pose proof (gen_update r (trk s) (fun p => p <| declared := d |>) ref ltac:(done)) as Hx. unfold Track.
    destruct (poolLocked r (trk s)) as [t1 p1]. destruct (_ || _); exact Hx.
  - pose proof (gen_update r (trk s) (fun p => p <| exhausted := true |> <| available := reset (available p) |>)
      ref ltac:(done)) as Hx. unfold MarkExhausted. by destruct (poolLocked r (trk s)).
  - pose proof (gen_update r (trk s) (fun p => p <| waiting := waiting p + 1 |>) ref ltac:(done)) as Hx.
    unfold Wait in E. destruct (poolLocked r (trk s)) as [t1 p1]. injection E as <- _. exact Hx.
Qed.

(** Polling is not starved.  In every history the poll answers thrown
    away are at most as many as the events and untrackings, so a Pool that
    falls quiet has its next answer accepted. *)
Theorem discards_bounded acts : 0 <= discards (run acts) <= changes (run acts).
Proof.
  enough (0 <= discards (run acts) /\
    discards (run acts) + (if stale (trk (run acts)) (asked (run acts)) then 1 else 0) <= changes (run acts))
    by (destruct (stale _ _); lia).
  induction acts as [|a acts IH] using rev_ind; [simpl; lia|]. rewrite run_snoc. set (s := run acts) in *. clearbody s.
  destruct a as [e|r d|r|r|r|u|r|ans];
    try (lazymatch goal with |- context [sys_step s ?a] =>
           destruct (stale_step s a I) as (-> & -> & -> & ->) end; exact IH).
  - cbn [sys_step discards changes trk asked]. revert IH. repeat destruct (stale _ _); lia.
  - cbn [sys_step discards changes trk asked]. revert IH. repeat destruct (stale _ _); lia.
  - revert IH. simpl. destruct (asked s) eqn:E; [by rewrite E|]. simpl. rewrite Z.eqb_refl. simpl. lia.
  - revert IH. simpl. destruct (asked s) as [[ref g]|] eqn:E; [|by rewrite E]. simpl. unfold discarded, Tracker_generation.
    destruct (pools (trk s) !! ref) as [p|]; [destruct ans|]; destruct (negb _); simpl; lia.
Qed.

(** A Pool that was untracked comes back.  When [Untrack] runs while a
    GetPool for that Pool is out and the answer is NotFound, [setDeclared]
    creates the Pool again, undeclared, so [Pools] reports it although
    nothing tracks it any more; the successful answer, which looks the Pool
    up instead, leaves it gone. *)
Theorem not_found_resurrects ref sz st :
  let s := run [ATrack ref true; AAsk ref; AUntrack ref] in
  pools (trk s) !! ref = None
  /\ (exists p, pools (trk (sys_step s (AAnswer (Err (ESentinel ErrNotFound))))) !! ref = Some p /\ declared p = false)
  /\ pools (trk (sys_step s (AAnswer (Ok (sz, st))))) !! ref = None.
Proof.
  intros s.
  assert (pools (trk s) = ∅ /\ asked s = Some (ref, 0)) as [Hp Ha].
  { assert (exists p, pools (Track ref true NewTracker) = {[ref := p]} /\ generation p = 0) as (p & Hp & Hg).
    { unfold Track, poolLocked. cbn [pools NewTracker]. rewrite lookup_empty. simpl. exists ((newPool 0) <| declared := true |>).
      split; [apply insert_insert_eq|reflexivity]. }
    unfold s, run. cbn [fold_left sys_step asked sys0 trk].
    unfold Tracker_generation, Untrack. rewrite Hp, lookup_singleton_eq, Hg. split; [|done].
    cbn [trk asked]. unfold set_field. cbn [pools]. apply delete_singleton_eq. }
  clearbody s. cbn [sys_step]. rewrite Ha. cbn [trk poll_answer errors_Is].
  split_and!; [by rewrite Hp| |].
  - rewrite bool_decide_true by done. unfold setDeclared, poolLocked. rewrite Hp, lookup_empty. simpl.
    eexists. by rewrite lookup_insert_eq.
  - unfold applyPoll. rewrite Hp, lookup_empty. cbn [trk]. by rewrite Hp.
Qed.
