(* ===== verification/TrackerRun.v ===== *)
(** * internal/poolmgr/tracker.go: the goroutines of Run

    Run starts the poll loop and runs the subscribe loop; the Scheduler and
    the Executor call the Tracker's methods at any time.  A step is what one
    of them does under the Tracker's locks, or a decision of a [select].
    Every step that touches the Tracker is an action of [TrackerSys], and
    [th_log] is the actions so far. *)
From S2P Require Import Prelude GoModel PoolTypes Tracker TrackerThms TrackerSys.

(** subscribeLoop: at the top of the loop, waiting for Subscribe, inside
    readStream with the subscription it holds, in the sleep before the next
    try, or returned. *)
Inductive sub_pc := SubTop | SubAsking | SubReading (stream : Z) | SubSleeping | SubReturned.
(** pollLoop: in the select, in the loop of pollAll with the Pools left, or
    waiting for GetPool's answer about one of them. *)
Inductive poll_pc := PollWaiting | PollNext (todo : list PoolRef) | PollAsked (ref : PoolRef) (todo : list PoolRef) | PollReturned.

(** [th_ctx] is whether the context has ended; subscriptions are numbered in
    the order they were granted, and [th_closed] are the closed ones. *)
Record threads := {
  th_sys : sys; th_sub : sub_pc; th_poll : poll_pc; th_ctx : bool; th_streams : Z; th_closed : list Z; th_log : list action }.
#[export] Instance eta_threads : Eta threads :=
  fun r => {| th_sys := th_sys r; th_sub := th_sub r; th_poll := th_poll r; th_ctx := th_ctx r; th_streams := th_streams r;
              th_closed := th_closed r; th_log := th_log r |}.

Definition act (a : action) (y : threads) : threads := y <| th_sys := sys_step (th_sys y) a |> <| th_log := th_log y ++ [a] |>.

(** The receive from the kick channel. *)
Definition taken (s : sys) : sys := s <| trk := (trk s) <| kick := false |> |>.

Inductive tinput :=
  | TCtxDone
  | TSubAsk                                 (* the check of ctx and the call of Events.Subscribe *)
  | TSubscribe (answer : option error)      (* Events.Subscribe returned; none: a stream *)
  | TRecv (answer : error + Event)          (* stream.Recv returned *)
  | TSubWake                                (* the sleep's timer fired *)
  | TSubDone                                (* the sleep saw the end of ctx *)
  | TPollWake (w : poll_wake)               (* a kick or the poll timer *)
  | TPollDone                               (* the select saw the end of ctx *)
  | TPollAsk                                (* the next Pool of pollAll *)
  | TPollAnswer (ans : result (Z * PoolStatus))
  | TCall (a : action).                     (* Track, Untrack, MarkExhausted, Wait *)

(** What callers other than the two goroutines do. *)
Definition is_call (a : action) : bool :=
  match a with ATrack _ _ | AUntrack _ | AExhaust _ | AWait _ => true | _ => false end.

Definition trackerStep (i : tinput) (y : threads) : option threads :=
  match i with
  | TCtxDone => Some (y <| th_ctx := true |>)
  | TSubAsk =>
      match th_sub y with
      | SubTop => Some (y <| th_sub := if th_ctx y then SubReturned else SubAsking |>)
      | _ => None
      end
  | TSubscribe answer =>
      match th_sub y with
      | SubAsking =>
          match answer with
          | Some _ => if th_ctx y then Some (y <| th_sub := SubReturned |>) else Some ((act (AStream false) y) <| th_sub := SubSleeping |>)
          | None => Some ((act (AStream true) y) <| th_sub := SubReading (th_streams y) |> <| th_streams := th_streams y + 1 |>)
          end
      | _ => None
      end
  | TRecv answer =>
      match th_sub y with
      | SubReading s =>
          match answer with
          | inr e => Some (act (AEvent e) y)
          | inl _ =>
              (* the deferred Close, then setStreamUp(false) and the check of ctx *)
              let y := y <| th_closed := th_closed y ++ [s] |> in
              let y := act (AStream false) y in
              Some (y <| th_sub := if th_ctx y then SubReturned else SubSleeping |>)
          end
      | _ => None
      end
  | TSubWake =>
      match th_sub y with
      | SubSleeping => Some (y <| th_sub := SubTop |>)
      | _ => None
      end
  | TSubDone =>
      match th_sub y with
      | SubSleeping => if th_ctx y then Some (y <| th_sub := SubReturned |>) else None
      | _ => None
      end
  | TPollWake w =>
      match th_poll y with
      | PollWaiting =>
          match w, kick (trk (th_sys y)) with
          | WakeKick, false => None
          | WakeKick, true => let y := y <| th_sys := taken (th_sys y) |> in Some (y <| th_poll := PollNext (refs (trk (th_sys y))) |>)
          | WakeTimer, _ => if poll_due w (trk (th_sys y)) then Some (y <| th_poll := PollNext (refs (trk (th_sys y))) |>) else Some y
          end
      | _ => None
      end
  | TPollDone =>
      match th_poll y with
      | PollWaiting => if th_ctx y then Some (y <| th_poll := PollReturned |>) else None
      | _ => None
      end
  | TPollAsk =>
      match th_poll y with
      | PollNext [] => Some (y <| th_poll := PollWaiting |>)
      | PollNext (ref :: todo) =>
          if th_ctx y then Some (y <| th_poll := PollWaiting |>)
          else Some ((act (AAsk ref) y) <| th_poll := PollAsked ref todo |>)
      | _ => None
      end
  | TPollAnswer ans =>
      match th_poll y with
      | PollAsked ref todo => Some ((act (AAnswer ans) y) <| th_poll := PollNext todo |>)
      | _ => None
      end
  | TCall a => if is_call a then Some (act a y) else None
  end.

Definition threads0 : threads :=
  {| th_sys := sys0; th_sub := SubTop; th_poll := PollWaiting; th_ctx := false; th_streams := 0; th_closed := []; th_log := [] |}.
Inductive treachable : threads -> Prop :=
  | TR0 : treachable threads0
  | TRStep i y y' : treachable y -> trackerStep i y = Some y' -> treachable y'.

(** The events the Tracker folded. *)
Definition folded (l : list action) : list Event := omap (fun a => match a with AEvent e => Some e | _ => None end) l.

(** No operation reads the kick channel. *)
Definition nokick (t : PoolTracker) : PoolTracker := t <| kick := false |>.

Lemma nokick_step (f : PoolTracker -> PoolTracker) t t' :
  (forall t, nokick (f t) = nokick (f (nokick t))) -> nokick t = nokick t' -> nokick (f t) = nokick (f t').
Proof. intros Hf H. rewrite (Hf t), (Hf t'), H. done. Qed.

Ltac nokick t ref := destruct t as [ps cs k up]; unfold nokick; rec_simpl; destruct (ps !! ref) as [q|]; rec_simpl; repeat (case_match; rec_simpl); try done.

Lemma nokick_apply e t : nokick (apply e t) = nokick (apply e (nokick t)).
Proof. unfold apply. nokick t (ev_Pool e). Qed.
Lemma nokick_Track ref d t : nokick (Track ref d t) = nokick (Track ref d (nokick t)).
Proof. unfold Track, poolLocked. nokick t ref. Qed.
Lemma nokick_Untrack ref t : nokick (Untrack ref t) = nokick (Untrack ref (nokick t)).
Proof. unfold Untrack. nokick t ref. Qed.
Lemma nokick_MarkExhausted ref t : nokick (MarkExhausted ref t) = nokick (MarkExhausted ref (nokick t)).
Proof. unfold MarkExhausted, poolLocked. nokick t ref. Qed.
Lemma nokick_Wait ref t : nokick (Wait ref t).1 = nokick (Wait ref (nokick t)).1 /\ (Wait ref t).2 = (Wait ref (nokick t)).2.
Proof. unfold Wait, poolLocked. split; nokick t ref. Qed.
Lemma nokick_answer ref g ans t : nokick (poll_answer ref g ans t) = nokick (poll_answer ref g ans (nokick t)).
Proof.
  unfold poll_answer. destruct ans as [[sz st]|e].
  - unfold applyPoll. nokick t ref.
  - destruct (errors_Is e ErrNotFound); [|done]. unfold setDeclared, poolLocked. nokick t ref.
Qed.

Lemma taken_step a s : taken (sys_step s a) = taken (sys_step (taken s) a).
Proof.
  destruct a as [e|ref d|ref|ref|ref|up|ref|ans]; unfold taken; simpl.
  - fold (nokick (apply e (trk s))). rewrite nokick_apply. done.
  - fold (nokick (Track ref d (trk s))). rewrite nokick_Track. done.
  - fold (nokick (Untrack ref (trk s))). rewrite nokick_Untrack. done.
  - fold (nokick (MarkExhausted ref (trk s))). rewrite nokick_MarkExhausted. done.
  - pose proof (nokick_Wait ref (trk s)) as [H1 H2]. change ((trk s) <| kick := false |>) with (nokick (trk s)).
    destruct (Wait ref (trk s)) as [t1 w1], (Wait ref (nokick (trk s))) as [t2 w2]. simpl in *. subst. unfold nokick in H1. rec_simpl. by rewrite H1.
  - done.
  - by destruct (asked s).
  - destruct (asked s) as [[ref g]|]; [|done]. simpl.
    change ((trk s) <| kick := false |>) with (nokick (trk s)).
    fold (nokick (poll_answer ref g ans (trk s))). rewrite nokick_answer. done.
Qed.

Lemma taken_run_step a s l : taken s = taken (run l) -> taken (sys_step s a) = taken (run (l ++ [a])).
Proof.
  intros H. unfold run. rewrite fold_left_app. simpl. rewrite taken_step, H. fold (run l). by rewrite <-taken_step.
Qed.

Record TInv (y : threads) : Prop := {
  ti_run : taken (th_sys y) = taken (run (th_log y));
  ti_up : streamUp (trk (th_sys y)) = match th_sub y with SubReading _ => true | _ => false end;
  ti_streams : seqZ 0 (th_streams y) = th_closed y ++ match th_sub y with SubReading s => [s] | _ => [] end;
  ti_count : 0 <= th_streams y;
  ti_asked : match th_poll y with PollAsked ref _ => exists g, asked (th_sys y) = Some (ref, g) | _ => asked (th_sys y) = None end;
  ti_returned : th_sub y = SubReturned \/ th_poll y = PollReturned -> th_ctx y = true
}.

Lemma streamUp_step a s : streamUp (trk (sys_step s a)) = match a with AStream up => up | _ => streamUp (trk s) end.
Proof.
  destruct s as [t ask h c d]. destruct a as [e|ref b|ref|ref|ref|up|ref|ans]; simpl.
  - unfold apply. destruct (pools t !! ev_Pool e); [|done]. by repeat (case_match; rec_simpl).
  - unfold Track, poolLocked. destruct (pools t !! ref); rec_simpl; by repeat case_match.
  - unfold Untrack. by destruct (pools t !! ref).
  - unfold MarkExhausted, poolLocked. by destruct (pools t !! ref).
  - unfold Wait, poolLocked. by destruct (pools t !! ref).
  - done.
  - by destruct ask.
  - destruct ask as [[ref g]|]; [|done]. simpl. unfold poll_answer. destruct ans as [[sz st]|e].
    + unfold applyPoll. destruct (pools t !! ref); [|done]. by repeat (case_match; rec_simpl).
    + unfold setDeclared, poolLocked. destruct (errors_Is e ErrNotFound); [|done]. by destruct (pools t !! ref).
Qed.

Lemma asked_step a s : asked (sys_step s a) = match a with
  | AAsk ref => match asked s with Some x => Some x | None => Some (ref, Tracker_generation ref (trk s)) end
  | AAnswer _ => None
  | _ => asked s end.
Proof. destruct a; simpl; repeat case_match; simplify_eq; done. Qed.

#[local] Arguments sys_step : simpl never.

Lemma TInv_act y a : TInv y -> is_call a = true -> TInv (act a y).
Proof.
  intros [H1 H2 H3 H4 H5 H6] Ha. split; simpl; [by apply taken_run_step| |done|done| |done].
  - rewrite streamUp_step. by destruct a.
  - rewrite asked_step. by destruct a.
Qed.

Ltac ret H6 H := solve [done | specialize (H6 (or_intror H)); congruence | specialize (H6 (or_introl H)); congruence].

Lemma TInv_step i y y' : TInv y -> trackerStep i y = Some y' -> TInv y'.
Proof.
  intros HI Hs. destruct i as [| |answer|answer| | |w| | |ans|a]; simpl in Hs.
  - injection Hs as <-. destruct HI as [H1 H2 H3 H4 H5 H6]. by split.
  - destruct HI as [H1 H2 H3 H4 H5 H6]. destruct (th_sub y) eqn:E; try done. injection Hs as <-.
    destruct (th_ctx y) eqn:EC; split; simpl; try done. intros [?|H]; [done|]. ret H6 H.
  - destruct HI as [H1 H2 H3 H4 H5 H6]. destruct (th_sub y) eqn:E; try done.
    destruct answer; [destruct (th_ctx y) eqn:EC; [injection Hs as <-; by split|]|]; injection Hs as <-;
      (split; simpl; [by apply taken_run_step|by rewrite ?streamUp_step| |lia|rewrite ?asked_step; by destruct (th_poll y)|]).
    + done.
    + intros [?|H]; [done|]. ret H6 H.
    + rewrite seqZ_app, H3 by lia. simpl. by rewrite app_nil_r.
    + intros [?|H]; [done|]. ret H6 H.
  - destruct HI as [H1 H2 H3 H4 H5 H6]. destruct (th_sub y) as [| |s| |] eqn:E; try done. destruct answer as [e|ev]; injection Hs as <-.
    + split; simpl; [by apply taken_run_step|by destruct (th_ctx y)| |done|by destruct (th_poll y)|].
      * rewrite H3. destruct (th_ctx y); by rewrite app_nil_r.
      * intros [H|H]; [by destruct (th_ctx y)|ret H6 H].
    + assert (HU := streamUp_step (AEvent ev) (th_sys y)). assert (HA := asked_step (AEvent ev) (th_sys y)). split; simpl; [by apply taken_run_step|rewrite E; etransitivity; [exact HU|done]|by rewrite E|done|by destruct (th_poll y)|by rewrite E].
  - destruct HI as [H1 H2 H3 H4 H5 H6]. destruct (th_sub y) eqn:E; try done. injection Hs as <-.
    split; simpl; try done. intros [H|H]; [done|ret H6 H].
  - destruct HI as [H1 H2 H3 H4 H5 H6]. destruct (th_sub y) eqn:E; try done. destruct (th_ctx y) eqn:EC; [|done]. injection Hs as <-. by split.
  - destruct HI as [H1 H2 H3 H4 H5 H6]. destruct (th_poll y) eqn:E; try done.
    destruct w; [destruct (kick _); [|done]; injection Hs as <-|destruct (poll_due _ _); injection Hs as <-; [|by split; rewrite ?E]];
      (split; simpl; try done; intros [H|H]; [ret H6 H|done]).
  - destruct HI as [H1 H2 H3 H4 H5 H6]. destruct (th_poll y) eqn:E; try done. destruct (th_ctx y) eqn:EC; [|done]. injection Hs as <-. by split.
  - destruct HI as [H1 H2 H3 H4 H5 H6]. destruct (th_poll y) as [|[|ref todo]| |] eqn:E; try done.
    + injection Hs as <-. split; simpl; try done. intros [H|H]; try ret H6 H; done.
    + destruct (th_ctx y) eqn:EC; injection Hs as <-.
      * by split.
      * split; simpl; [by apply taken_run_step|by rewrite ?streamUp_step|done|done| |intros [H|H]; [ret H6 H|done]].
        rewrite ?asked_step, H5. eauto.
  - destruct HI as [H1 H2 H3 H4 H5 H6]. destruct (th_poll y) as [| |ref todo|] eqn:E; try done. injection Hs as <-.
    split; simpl; [by apply taken_run_step|by rewrite ?streamUp_step|done|done| |intros [H|H]; try ret H6 H; done]. exact (asked_step (AAnswer ans) (th_sys y)).
  - destruct (is_call a) eqn:E; [|done]. injection Hs as <-. by apply TInv_act.
Qed.

Lemma TInv_reachable y : treachable y -> TInv y.
Proof. induction 1 as [|i y y' _ IH Hs]; [split; simpl; try done; naive_solver|by eapply TInv_step]. Qed.

(** C19: the goroutines of Run.  However they, the Pool Manager and the callers
    interleave: what the Tracker has become is what its abstract actions, one
    per critical section, make of it (but for the kick channel, which only
    decides when to poll), so everything proved of the actions holds of the
    goroutines; the stream counts as up exactly while a subscription is being
    read; every subscription but that one is closed, each once, in order; the
    goroutines return only when the context has ended; and while the stream
    is down every tick of the poll timer starts a poll of every tracked
    Pool. *)
Theorem tracker_goroutines y : treachable y ->
  taken (th_sys y) = taken (run (th_log y))
  /\ (streamUp (trk (th_sys y)) = true <-> exists s, th_sub y = SubReading s)
  /\ seqZ 0 (th_streams y) = th_closed y ++ match th_sub y with SubReading s => [s] | _ => [] end
  /\ (th_sub y = SubReturned \/ th_poll y = PollReturned -> th_ctx y = true)
  /\ (th_poll y = PollWaiting -> (forall s, th_sub y <> SubReading s) ->
      exists y', trackerStep (TPollWake WakeTimer) y = Some y' /\ th_poll y' = PollNext (refs (trk (th_sys y)))).
Proof.
  intros [H1 H2 H3 H4 H5 H6]%TInv_reachable. split_and!; [done| |done|done|].
  - rewrite H2. destruct (th_sub y); split; try done; [by intros [? ?]|by intros [? ?]|by eauto|by intros [? ?]|by intros [? ?]].
  - intros Hp Hs. simpl. rewrite Hp. unfold poll_due.
    assert (streamUp (trk (th_sys y)) = false) as ->. { rewrite H2. destruct (th_sub y); try done. by destruct (Hs stream). }
    simpl. eauto.
Qed.

Definition demo_tinputs (ref : PoolRef) : list tinput :=
  [TCall (ATrack ref true); TSubAsk; TSubscribe None; TPollWake WakeKick; TPollAsk; TPollAnswer (Ok (3, {| Available := 2; Leased := 0; Provisioning := 1; Quarantined := 0 |}));
   TRecv (inl (ENew "dropped")); TSubWake; TSubAsk; TSubscribe (Some (ENew "refused")); TPollAsk].
Fixpoint tsteps (l : list tinput) (y : threads) : option threads :=
  match l with [] => Some y | i :: l => match trackerStep i y with Some y => tsteps l y | None => None end end.
Lemma tsteps_reachable l y y' : treachable y -> tsteps l y = Some y' -> treachable y'.
Proof.
  revert y. induction l as [|i l IH]; intros y Hr; simpl; [by intros [= <-]|].
  destruct (trackerStep i y) as [y1|] eqn:E; [|done]. apply IH. by eapply TRStep.
Qed.
Definition demo_tref : PoolRef := {| ref_Name := "small"; ref_Namespace := "ci" |}.
Definition demo_threads : threads := default threads0 (tsteps (demo_tinputs demo_tref) threads0).

Lemma tracker_goroutines_witness : treachable demo_threads /\ seqZ 0 (th_streams demo_threads) = th_closed demo_threads
  /\ exists y', trackerStep (TPollWake WakeTimer) demo_threads = Some y' /\ th_poll y' = PollNext (refs (trk (th_sys demo_threads))).
Proof.
  assert (Hr : treachable demo_threads).
  { apply (tsteps_reachable (demo_tinputs demo_tref) threads0); [constructor|vm_compute; reflexivity]. }
  assert (Hs : th_sub demo_threads = SubSleeping) by (vm_compute; reflexivity).
  assert (Hp : th_poll demo_threads = PollWaiting) by (vm_compute; reflexivity).
  destruct (tracker_goroutines demo_threads Hr) as (_ & _ & H3 & _ & H5).
  split; [exact Hr|]. split; [rewrite Hs, app_nil_r in H3; exact H3|]. apply H5; [exact Hp|]. intros s. rewrite Hs. discriminate.
Defined.
