(* ===== verification/Health.v ===== *)
(** * internal/poolmgr/health.go: whether the Pool Manager is reachable

    The monitor's state is what its mutex guards plus the [contacted]
    channel, which is closed through a [sync.Once] and so is a boolean.  The
    answers of ListPools, the clock readings and the end of the context come
    from outside and are arguments. *)
From S2P Require Import Prelude GoModel Clock.

Definition defaultHealthInterval : duration := 10 * second.
Definition defaultHealthFailureThreshold : Z := 3.
Definition defaultHealthBackoff : duration := 30 * second.

(** [hc_Admin] is whether a PoolAdmin was given; an interface field that may
    be nil is an option. *)
Record HealthConfig := {
  hc_Admin : bool; hc_Backoff : option (Z -> duration);
  hc_Interval : duration; hc_FailureThreshold : Z; hc_UnhealthyFor : duration
}.

Record HealthMonitor := {
  hm_Backoff : Z -> duration; hm_Interval : duration; hm_FailureThreshold : Z; hm_UnhealthyFor : duration;
  contacted : bool; failures : Z; healthy : bool; unhealthyUntil : time
}.
#[export] Instance eta_HealthMonitor : Eta HealthMonitor :=
  fun r => {| hm_Backoff := hm_Backoff r; hm_Interval := hm_Interval r;
              hm_FailureThreshold := hm_FailureThreshold r; hm_UnhealthyFor := hm_UnhealthyFor r;
              contacted := contacted r; failures := failures r; healthy := healthy r;
              unhealthyUntil := unhealthyUntil r |}.

Definition NewHealth (cfg : HealthConfig) : result HealthMonitor :=
  if negb (hc_Admin cfg) then Err (ENew "poolmgr: health needs a PoolAdmin client") else
  Ok {| hm_Backoff := default (Next {| Base := second; Max := 30 * second |}) (hc_Backoff cfg);
        hm_Interval := if hc_Interval cfg <=? 0 then defaultHealthInterval else hc_Interval cfg;
        hm_FailureThreshold := if hc_FailureThreshold cfg <=? 0 then defaultHealthFailureThreshold
                               else hc_FailureThreshold cfg;
        hm_UnhealthyFor := if hc_UnhealthyFor cfg <=? 0 then defaultHealthBackoff else hc_UnhealthyFor cfg;
        contacted := false; failures := 0; healthy := false; unhealthyUntil := 0 |}.

Definition markFailure (h : HealthMonitor) : HealthMonitor :=
  let h := h <| failures := int64 (failures h + 1) |> in
  if hm_FailureThreshold h <=? failures h then h <| healthy := false |> else h.

Definition markHealthy (h : HealthMonitor) : HealthMonitor :=
  let h := {| hm_Backoff := hm_Backoff h; hm_Interval := hm_Interval h;
              hm_FailureThreshold := hm_FailureThreshold h; hm_UnhealthyFor := hm_UnhealthyFor h;
              contacted := contacted h; failures := 0; healthy := true; unhealthyUntil := 0 |} in
  h <| contacted := true |>.

Definition MarkUnavailable (now : time) (h : HealthMonitor) : HealthMonitor :=
  h <| unhealthyUntil := time_Add now (hm_UnhealthyFor h) |>.

Definition Healthy (now : time) (h : HealthMonitor) : bool :=
  if negb (healthy h) then false else negb (time_Before now (unhealthyUntil h)).

(** [probe]: the answer of ListPools and whether the context ended under it. *)
Definition probe (err : option error) (ctxErr : bool) (h : HealthMonitor) : HealthMonitor :=
  match err with
  | Some _ => if ctxErr then h else markFailure h
  | None => markHealthy h
  end.

(** [sleep] before its timer: a wait of zero or less does not start one. *)
Definition sleep (d : duration) (ctxErr : option error) (interrupted : option error) : option error :=
  if d <=? 0 then ctxErr else interrupted.

(** One turn of the loop of [firstContact]: what ListPools answers, the
    context's error after it, and the error its wait ended with. *)
Record contact_round := { cr_call : option error; cr_ctxErr : option error; cr_sleep : option error }.

(** How [firstContact] ends on the answers [rounds]: contacted, the context's
    error, or still retrying when the answers run out.  The second component
    is the waits it made. *)
Inductive contact_end := Contacted (h : HealthMonitor) | ContactErr (e : error) | Retrying.

Fixpoint firstContact (rounds : list contact_round) (attempt : Z) (h : HealthMonitor) : contact_end * list duration :=
  match rounds with
  | [] => (Retrying, [])
  | r :: rounds =>
      match cr_call r with
      | None => (Contacted (markHealthy h), [])
      | Some _ =>
          match cr_ctxErr r with
          | Some e => (ContactErr e, [])
          | None =>
              let delay := hm_Backoff h attempt in
              match sleep delay None (cr_sleep r) with
              | Some e => (ContactErr e, [delay])
              | None => let '(r, ds) := firstContact rounds (int64 (attempt + 1)) h in (r, delay :: ds)
              end
          end
      end
  end.

(** [Run]: the first contact, then one probe per tick until a tick finds the
    context done ([None]). *)
Fixpoint Run_loop (ticks : list (option (option error * bool))) (h : HealthMonitor) : HealthMonitor :=
  match ticks with
  | [] | None :: _ => h
  | Some (err, ctxErr) :: ticks => Run_loop ticks (probe err ctxErr h)
  end.

Definition Run (rounds : list contact_round) (ticks : list (option (option error * bool)))
    (h : HealthMonitor) : HealthMonitor :=
  match (firstContact rounds 0 h).1 with
  | Contacted h => Run_loop ticks h
  | _ => h
  end.

(** ** The contract

    What the monitor is told, in order: a probe that succeeds or fails, and a
    claim that could not reach the Pool Manager at a time. *)
Inductive report := RSuccess | RFailure | RUnavailable (at_ : time).

Definition told (h : HealthMonitor) (r : report) : HealthMonitor :=
  match r with
  | RSuccess => markHealthy h
  | RFailure => markFailure h
  | RUnavailable t => MarkUnavailable t h
  end.

Definition tells (h : HealthMonitor) (rs : list report) : HealthMonitor := fold_left told rs h.

Definition is_failure (r : report) : bool := match r with RFailure => true | _ => false end.
Definition failures_in (rs : list report) : Z := sumZ ((fun r => if is_failure r then 1 else 0) <$> rs).

Definition last_unavailable (rs : list report) : option time :=
  fold_left (fun o r => match r with RUnavailable t => Some t | _ => o end) rs None.

(** The abstract answer after a success followed by [rs], none of them a
    success: fewer failures than the threshold, and the period the last
    failed claim started is over. *)
Definition healthy_since (h : HealthMonitor) (rs : list report) (now : time) : bool :=
  (failures_in rs <? hm_FailureThreshold h) &&
  match last_unavailable rs with Some t => t + hm_UnhealthyFor h <=? now | None => true end.

Lemma failures_in_snoc rs r : failures_in (rs ++ [r]) = failures_in rs + (if is_failure r then 1 else 0).
Proof. unfold failures_in. rewrite fmap_app, sumZ_app. simpl. lia. Qed.

Lemma failures_in_bound rs : 0 <= failures_in rs <= Z.of_nat (length rs).
Proof.
  induction rs as [|r rs IH] using rev_ind; [done|]. rewrite failures_in_snoc, length_app. simpl.
  destruct (is_failure r); lia.
Qed.

Lemma last_unavailable_snoc rs r :
  last_unavailable (rs ++ [r]) = match r with RUnavailable t => Some t | _ => last_unavailable rs end.
Proof. unfold last_unavailable. by rewrite fold_left_app. Qed.

Lemma tells_snoc h rs r : tells h (rs ++ [r]) = told (tells h rs) r.
Proof. unfold tells. by rewrite fold_left_app. Qed.

Lemma told_config h r :
  hm_FailureThreshold (told h r) = hm_FailureThreshold h /\ hm_UnhealthyFor (told h r) = hm_UnhealthyFor h
  /\ hm_Backoff (told h r) = hm_Backoff h /\ hm_Interval (told h r) = hm_Interval h.
Proof. destruct r; [done| |done]. simpl. unfold markFailure. by destruct (_ <=? _). Qed.

Lemma tells_config h rs :
  hm_FailureThreshold (tells h rs) = hm_FailureThreshold h /\ hm_UnhealthyFor (tells h rs) = hm_UnhealthyFor h.
Proof.
  induction rs as [|r rs [IH1 IH2]] using rev_ind; [done|]. rewrite tells_snoc.
  destruct (told_config (tells h rs) r) as (-> & -> & _). done.
Qed.

(** The state a success followed by [rs] leaves. *)
Record since (h0 h : HealthMonitor) (rs : list report) : Prop := {
  sn_failures : failures h = failures_in rs;
  sn_healthy : healthy h = (failures_in rs <? hm_FailureThreshold h0);
  sn_until : unhealthyUntil h = match last_unavailable rs with Some t => t + hm_UnhealthyFor h0 | None => 0 end;
  sn_contacted : contacted h = true
}.

Lemma since_tells h0 rs :
  Z.of_nat (length rs) <= 9223372036854775807 -> 0 < hm_FailureThreshold h0 -> RSuccess ∉ rs ->
  since h0 (tells (markHealthy h0) rs) rs.
Proof.
  intros Hlen Ht. induction rs as [|r rs IH] using rev_ind; intros Hns.
  { split; simpl; try done. symmetry. by apply Z.ltb_lt. }
  rewrite length_app in Hlen. simpl in Hlen.
  destruct (tells_config (markHealthy h0) rs) as [Hct Hcu]. simpl in Hct, Hcu.
  destruct IH as [I1 I2 I3 I4]; [lia|set_solver|].
  rewrite tells_snoc. set (h := tells (markHealthy h0) rs) in *. clearbody h.
  pose proof (failures_in_bound rs).
  destruct r; simpl; [set_solver| |].
  - assert (int64 (failures h + 1) = failures_in rs + 1) as Hi by (rewrite I1; apply int64_id; lia).
    unfold markFailure. cbv zeta. split; rewrite ?failures_in_snoc, ?last_unavailable_snoc; simpl;
      unfold set_field; cbv beta; cbn [failures hm_FailureThreshold]; rewrite Hi, Hct;
      destruct (Z.leb_spec (hm_FailureThreshold h0) (failures_in rs + 1)); simpl; try done.
    + symmetry. by apply Z.ltb_ge.
    + rewrite I2. transitivity true; [|symmetry]; apply Z.ltb_lt; lia.
  - split; rewrite ?failures_in_snoc, ?last_unavailable_snoc; simpl; rewrite ?Z.add_0_r; try done.
    unfold time_Add. by rewrite Hcu.
Qed.

Lemma NewHealth_ok cfg h :
  NewHealth cfg = Ok h ->
  0 < hm_FailureThreshold h /\ 0 < hm_UnhealthyFor h /\ 0 < hm_Interval h
  /\ healthy h = false /\ contacted h = false /\ failures h = 0.
Proof.
  unfold NewHealth. destruct (hc_Admin cfg); [|done]. simpl. intros [= <-]. simpl.
  destruct (Z.leb_spec (hc_FailureThreshold cfg) 0), (Z.leb_spec (hc_UnhealthyFor cfg) 0),
    (Z.leb_spec (hc_Interval cfg) 0); unfold defaultHealthFailureThreshold, defaultHealthBackoff,
    defaultHealthInterval, second; lia.
Qed.

Lemma tells_no_success h rs :
  RSuccess ∉ rs -> healthy h = false ->
  healthy (tells h rs) = false /\ contacted (tells h rs) = contacted h.
Proof.
  intros Hns Hh. induction rs as [|r rs IH] using rev_ind; [done|].
  destruct IH as [I1 I2]; [set_solver|]. rewrite tells_snoc.
  destruct r; simpl; [set_solver| |done]. unfold markFailure. simpl. destruct (_ <=? _); done.
Qed.

(** The monitor keeps its contract.  Built from any configuration, it
    answers "unhealthy" and leaves Contacted open as long as no call has
    succeeded; after the last success it answers "healthy" exactly when fewer
    probes than the threshold have failed since and the backoff period of the
    last claim that failed is over, whatever happened before that success
    and in whatever order failures and claims came. *)
Theorem Healthy_contract cfg h rs now :
  NewHealth cfg = Ok h -> 0 <= now -> Z.of_nat (length rs) <= 9223372036854775807 -> RSuccess ∉ rs ->
  (Healthy now (tells h rs) = false /\ contacted (tells h rs) = false)
  /\ forall pre, Healthy now (tells h (pre ++ RSuccess :: rs)) = healthy_since h rs now
       /\ contacted (tells h (pre ++ RSuccess :: rs)) = true.
Proof.
  intros Hn Hnow Hlen Hns. destruct (NewHealth_ok cfg h Hn) as (Ht & _ & _ & Hh & Hc & _).
  split; [|intros pre].
  - destruct (tells_no_success h rs Hns Hh) as [E1 E2]. unfold Healthy. by rewrite E1, E2.
  - destruct (tells_config h pre) as [C1 C2].
    assert (tells h (pre ++ RSuccess :: rs) = tells (markHealthy (tells h pre)) rs) as ->
      by (unfold tells; by rewrite fold_left_app).
    destruct (since_tells (tells h pre) rs Hlen) as [_ E1 E2 E3]; [lia|done|]. split; [|done].
    unfold Healthy, healthy_since, time_Before. rewrite E1, E2, C1, C2.
    destruct (_ <? hm_FailureThreshold h); simpl; [|done].
    destruct (last_unavailable rs) as [t|]; simpl.
    + by rewrite Z.leb_antisym.
    + by destruct (Z.ltb_spec now 0); [lia|].
Qed.

Definition demo_config : HealthConfig :=
  {| hc_Admin := true; hc_Backoff := None; hc_Interval := 0; hc_FailureThreshold := 0; hc_UnhealthyFor := 0 |}.

Definition demo_monitor : HealthMonitor :=
  {| hm_Backoff := Next {| Base := second; Max := 30 * second |}; hm_Interval := 10 * second;
     hm_FailureThreshold := 3; hm_UnhealthyFor := 30 * second;
     contacted := false; failures := 0; healthy := false; unhealthyUntil := 0 |}.

Lemma Healthy_contract_witness :
  Healthy 100 (tells demo_monitor ([RFailure] ++ RSuccess :: [RFailure; RUnavailable 5; RFailure])) =
    healthy_since demo_monitor [RFailure; RUnavailable 5; RFailure] 100
  /\ healthy_since demo_monitor [RFailure; RUnavailable 5; RFailure] (5 + 30 * second) = true
  /\ healthy_since demo_monitor [RFailure; RFailure; RFailure] (5 + 30 * second) = false.
Proof.
  split; [|by_compute].
  destruct (Healthy_contract demo_config demo_monitor [RFailure; RUnavailable 5; RFailure] 100) as [_ H];
    [reflexivity|by_compute|by_compute|set_solver|].
  exact (proj1 (H [RFailure])).
Defined.

(** ** The first contact *)
Definition failed_round (e : error) : contact_round :=
  {| cr_call := Some e; cr_ctxErr := None; cr_sleep := None |}.

Definition seqZ_from (a : Z) (n : nat) : list Z := (fun i => a + Z.of_nat i) <$> seq 0 n.

Lemma firstContact_failing es rest a h :
  0 <= a -> a + Z.of_nat (length es) <= 9223372036854775807 ->
  firstContact ((failed_round <$> es) ++ rest) a h =
    let '(r, ds) := firstContact rest (a + Z.of_nat (length es)) h in
    (r, (hm_Backoff h <$> seqZ_from a (length es)) ++ ds).
Proof.
  revert a. induction es as [|e es IH]; intros a Ha Hb; simpl.
  { rewrite Z.add_0_r. by destruct (firstContact rest a h). }
  assert (sleep (hm_Backoff h a) None None = None) as -> by (unfold sleep; by destruct (_ <=? 0)).
  simpl in Hb. rewrite int64_id by lia. rewrite IH by lia.
  replace (a + 1 + Z.of_nat (length es)) with (a + Z.of_nat (S (length es))) by lia.
  destruct (firstContact rest _ h) as [r ds]. f_equal. unfold seqZ_from. simpl.
  f_equal; [f_equal; lia|]. f_equal. rewrite <-(fmap_S_seq 0), <-!list_fmap_compose.
  apply list_fmap_ext. intros i x _. simpl. f_equal. lia.
Qed.

(** The Runner keeps trying until the Pool Manager answers.  However
    many calls fail, as long as the context lives the monitor makes another
    one, waiting [Backoff.Next 0], [Next 1], ... in between (at most thirty
    seconds each by default), and the first that succeeds marks it contacted
    and healthy; until then nothing is contacted and nothing is given up. *)
Theorem firstContact_persists cfg h es r rest :
  NewHealth cfg = Ok h -> cr_call r = None -> Z.of_nat (length es) <= 9223372036854775807 ->
  firstContact (failed_round <$> es) 0 h = (Retrying, hm_Backoff h <$> seqZ_from 0 (length es))
  /\ firstContact ((failed_round <$> es) ++ r :: rest) 0 h =
       (Contacted (markHealthy h), hm_Backoff h <$> seqZ_from 0 (length es))
  /\ (hc_Backoff cfg = None -> Forall (fun d => 0 < d <= 30 * second) (hm_Backoff h <$> seqZ_from 0 (length es))).
Proof.
  intros Hn Hr Hlen. split_and!.
  - rewrite <-(app_nil_r (failed_round <$> es)), firstContact_failing by lia. simpl. by rewrite app_nil_r.
  - rewrite firstContact_failing by lia. simpl. by rewrite Hr, app_nil_r.
  - intros Hb. unfold NewHealth in Hn. destruct (hc_Admin cfg); [|done]. injection Hn as <-. simpl. rewrite Hb. simpl.
    apply Forall_fmap, Forall_fmap, Forall_forall. intros i _. simpl.
    change (0 < Exponential_Next {| Base := second; Max := 30 * second |} (Z.of_nat i) <= 30 * second).
    rewrite Next_capped_value by (unfold second, maxDuration; simpl; lia). simpl.
    pose proof (Z.pow_pos_nonneg 2 (Z.of_nat i)). unfold second. nia.
Qed.

Lemma firstContact_persists_witness :
  let ok := {| cr_call := None; cr_ctxErr := None; cr_sleep := None |} in
  firstContact ((failed_round <$> [ESentinel ErrUnavailable; ESentinel ErrUnavailable]) ++ [ok]) 0 demo_monitor =
    (Contacted (markHealthy demo_monitor), [second; 2 * second]).
Proof.
  intros ok.
  destruct (firstContact_persists demo_config demo_monitor [ESentinel ErrUnavailable; ESentinel ErrUnavailable] ok [])
    as (_ & H & _); [reflexivity|reflexivity|by_compute|exact H].
Defined.
