(* ===== verification/ConfigTypes.v ===== *)
(** * internal/config/types.go: the configuration

    The sections of the configuration file as the records of types.go.
    String enums and secrets stay strings, as in the source; an [int] or a
    [ByteSize] is a 64-bit integer, a duration is in nanoseconds and a pointer
    is an option.  The defaults of defaults.go the Scheduler falls back to are
    here too. *)
From S2P Require Import Prelude GoModel.

Definition ReplenishImmediateOnLease : string := "immediate_on_lease".
Definition ReplenishMinSizeThreshold : string := "min_size_threshold".
Definition ReplenishReplaceOnDelete : string := "replace_on_delete".
Definition HookFailureDeleteAndReplace : string := "delete_and_replace".
Definition HookFailureQuarantine : string := "quarantine".
Definition ArchAMD64 : string := "amd64".
Definition ArchARM64 : string := "arm64".
Definition TransportExec : string := "exec".
Definition TransportSSH : string := "ssh".
Definition PoolBackendBattery : string := "battery".
Definition PoolBackendClaim : string := "claim".
Definition LogJSON : string := "json".
Definition LogText : string := "text".

Record ClientTLS := {
  tls_CAFile : string; tls_CertFile : string; tls_KeyFile : string; tls_Insecure : bool }.
#[export] Instance eta_ClientTLS : Eta ClientTLS :=
  fun r => {|
    tls_CAFile := tls_CAFile r; tls_CertFile := tls_CertFile r; tls_KeyFile := tls_KeyFile r;
    tls_Insecure := tls_Insecure r |}.

Record Kernel := {
  k_Image : string; k_Filename : string; k_Cmdline : gmap string string }.
#[export] Instance eta_Kernel : Eta Kernel :=
  fun r => {|
    k_Image := k_Image r; k_Filename := k_Filename r; k_Cmdline := k_Cmdline r |}.

Record Initrd := {
  i_Image : string; i_Filename : string }.
#[export] Instance eta_Initrd : Eta Initrd :=
  fun r => {|
    i_Image := i_Image r; i_Filename := i_Filename r |}.

Record Volume := {
  v_ID : string; v_Image : string; v_MountPoint : string; v_ReadOnly : bool; v_SizeMB : Z }.
#[export] Instance eta_Volume : Eta Volume :=
  fun r => {|
    v_ID := v_ID r; v_Image := v_Image r; v_MountPoint := v_MountPoint r; v_ReadOnly := v_ReadOnly r;
    v_SizeMB := v_SizeMB r |}.

Record SSHTransport := {
  ssh_User : string; ssh_PrivateKeyFile : string; ssh_KnownHostKey : string }.
#[export] Instance eta_SSHTransport : Eta SSHTransport :=
  fun r => {|
    ssh_User := ssh_User r; ssh_PrivateKeyFile := ssh_PrivateKeyFile r; ssh_KnownHostKey := ssh_KnownHostKey r |}.

Record Transport := {
  tr_Kind : string; tr_SSH : SSHTransport }.
#[export] Instance eta_Transport : Eta Transport :=
  fun r => {|
    tr_Kind := tr_Kind r; tr_SSH := tr_SSH r |}.

Record PoolSettings := {
  ps_Size : Z; ps_Name : string; ps_Namespace : string; ps_Strategy : string; ps_MinSize : option Z;
  ps_CreateHooks : list string; ps_PreLeaseHooks : list string; ps_HookFailurePolicy : string;
  ps_HeartbeatInterval : duration; ps_HeartbeatExpiry : duration }.
#[export] Instance eta_PoolSettings : Eta PoolSettings :=
  fun r => {|
    ps_Size := ps_Size r; ps_Name := ps_Name r; ps_Namespace := ps_Namespace r; ps_Strategy := ps_Strategy r;
    ps_MinSize := ps_MinSize r; ps_CreateHooks := ps_CreateHooks r; ps_PreLeaseHooks := ps_PreLeaseHooks r;
    ps_HookFailurePolicy := ps_HookFailurePolicy r; ps_HeartbeatInterval := ps_HeartbeatInterval r;
    ps_HeartbeatExpiry := ps_HeartbeatExpiry r |}.

(** [config.Profile]. *)
Record ProfileConfig := {
  p_Name : string; p_Arch : string; p_VCPU : Z; p_MemoryMB : Z; p_Kernel : Kernel; p_Initrd : option Initrd;
  p_RootFS : string; p_AdditionalVolumes : list Volume; p_Provider : string; p_UserData : string;
  p_Shell : string; p_BuildsDir : string; p_CacheDir : string; p_HelperPath : string; p_Images : list string;
  p_ImageGlobs : list string; p_Default : bool; p_Transport : Transport; p_User : string;
  p_ReadyTimeout : duration; p_HostSelector : gmap string string; p_MaxConcurrency : Z; p_Pool : PoolSettings }.
#[export] Instance eta_ProfileConfig : Eta ProfileConfig :=
  fun r => {|
    p_Name := p_Name r; p_Arch := p_Arch r; p_VCPU := p_VCPU r; p_MemoryMB := p_MemoryMB r;
    p_Kernel := p_Kernel r; p_Initrd := p_Initrd r; p_RootFS := p_RootFS r;
    p_AdditionalVolumes := p_AdditionalVolumes r; p_Provider := p_Provider r; p_UserData := p_UserData r;
    p_Shell := p_Shell r; p_BuildsDir := p_BuildsDir r; p_CacheDir := p_CacheDir r;
    p_HelperPath := p_HelperPath r; p_Images := p_Images r; p_ImageGlobs := p_ImageGlobs r;
    p_Default := p_Default r; p_Transport := p_Transport r; p_User := p_User r;
    p_ReadyTimeout := p_ReadyTimeout r; p_HostSelector := p_HostSelector r;
    p_MaxConcurrency := p_MaxConcurrency r; p_Pool := p_Pool r |}.

Record HostServiceAddresses := {
  sa_Buildkit : string; sa_GoProxy : string; sa_RegistryMirror : string; sa_HTTPCache : gmap string string }.
#[export] Instance eta_HostServiceAddresses : Eta HostServiceAddresses :=
  fun r => {|
    sa_Buildkit := sa_Buildkit r; sa_GoProxy := sa_GoProxy r; sa_RegistryMirror := sa_RegistryMirror r;
    sa_HTTPCache := sa_HTTPCache r |}.

Record InstalledVersions := {
  iv_Flintlock : string; iv_Firecracker : string; iv_CloudHypervisor : string; iv_Containerd : string }.
#[export] Instance eta_InstalledVersions : Eta InstalledVersions :=
  fun r => {|
    iv_Flintlock := iv_Flintlock r; iv_Firecracker := iv_Firecracker r;
    iv_CloudHypervisor := iv_CloudHypervisor r; iv_Containerd := iv_Containerd r |}.

Record HostEntry := {
  he_Name : string; he_Endpoint : string; he_Arch : string; he_VCPU : Z; he_MemoryMB : Z;
  he_Labels : gmap string string; he_Token : string; he_TLS : ClientTLS; he_Services : HostServiceAddresses;
  he_Versions : InstalledVersions }.
#[export] Instance eta_HostEntry : Eta HostEntry :=
  fun r => {|
    he_Name := he_Name r; he_Endpoint := he_Endpoint r; he_Arch := he_Arch r; he_VCPU := he_VCPU r;
    he_MemoryMB := he_MemoryMB r; he_Labels := he_Labels r; he_Token := he_Token r; he_TLS := he_TLS r;
    he_Services := he_Services r; he_Versions := he_Versions r |}.

Record Inventory := {
  inv_File : string; inv_Hosts : list HostEntry }.
#[export] Instance eta_Inventory : Eta Inventory :=
  fun r => {|
    inv_File := inv_File r; inv_Hosts := inv_Hosts r |}.

(** [config.Scheduler]. *)
Record SchedulerConfig := {
  sc_Namespace : string; sc_AllocationTimeout : duration; sc_HostHealthInterval : duration;
  sc_HostUnhealthyThreshold : Z; sc_HostCallDeadline : duration; sc_KeepOnFailure : bool;
  sc_KeepDuration : duration; sc_AllowDefaultForUnknownImages : bool }.
#[export] Instance eta_SchedulerConfig : Eta SchedulerConfig :=
  fun r => {|
    sc_Namespace := sc_Namespace r; sc_AllocationTimeout := sc_AllocationTimeout r;
    sc_HostHealthInterval := sc_HostHealthInterval r; sc_HostUnhealthyThreshold := sc_HostUnhealthyThreshold r;
    sc_HostCallDeadline := sc_HostCallDeadline r; sc_KeepOnFailure := sc_KeepOnFailure r;
    sc_KeepDuration := sc_KeepDuration r; sc_AllowDefaultForUnknownImages := sc_AllowDefaultForUnknownImages r |}.

Record ServingCAConfigMap := {
  ca_Namespace : string; ca_Name : string; ca_Key : string }.
#[export] Instance eta_ServingCAConfigMap : Eta ServingCAConfigMap :=
  fun r => {|
    ca_Namespace := ca_Namespace r; ca_Name := ca_Name r; ca_Key := ca_Key r |}.

Record ClaimPools := {
  cl_Kubeconfig : string; cl_Context : string; cl_Namespace : string; cl_HolderServiceAccount : string;
  cl_ServingCA : ServingCAConfigMap }.
#[export] Instance eta_ClaimPools : Eta ClaimPools :=
  fun r => {|
    cl_Kubeconfig := cl_Kubeconfig r; cl_Context := cl_Context r; cl_Namespace := cl_Namespace r;
    cl_HolderServiceAccount := cl_HolderServiceAccount r; cl_ServingCA := cl_ServingCA r |}.

(** [config.PoolManager]. *)
Record PoolManagerConfig := {
  pm_Backend : string; pm_Claim : option ClaimPools; pm_Endpoint : string; pm_TLS : ClientTLS;
  pm_Deadline : duration; pm_HealthBackoff : duration; pm_HealthInterval : duration;
  pm_HealthFailureThreshold : Z; pm_EventsPollInterval : duration; pm_DeclareRetryInterval : duration;
  pm_ReleaseRetryLimit : Z }.
#[export] Instance eta_PoolManagerConfig : Eta PoolManagerConfig :=
  fun r => {|
    pm_Backend := pm_Backend r; pm_Claim := pm_Claim r; pm_Endpoint := pm_Endpoint r; pm_TLS := pm_TLS r;
    pm_Deadline := pm_Deadline r; pm_HealthBackoff := pm_HealthBackoff r;
    pm_HealthInterval := pm_HealthInterval r; pm_HealthFailureThreshold := pm_HealthFailureThreshold r;
    pm_EventsPollInterval := pm_EventsPollInterval r; pm_DeclareRetryInterval := pm_DeclareRetryInterval r;
    pm_ReleaseRetryLimit := pm_ReleaseRetryLimit r |}.

Record GitLab := {
  gl_URL : string; gl_Token : string; gl_Name : string; gl_Concurrent : Z; gl_CheckInterval : duration;
  gl_OutputLimitKB : Z; gl_ShutdownTimeout : duration; gl_TLS : ClientTLS; gl_AllowInsecure : bool }.
#[export] Instance eta_GitLab : Eta GitLab :=
  fun r => {|
    gl_URL := gl_URL r; gl_Token := gl_Token r; gl_Name := gl_Name r; gl_Concurrent := gl_Concurrent r;
    gl_CheckInterval := gl_CheckInterval r; gl_OutputLimitKB := gl_OutputLimitKB r;
    gl_ShutdownTimeout := gl_ShutdownTimeout r; gl_TLS := gl_TLS r; gl_AllowInsecure := gl_AllowInsecure r |}.

(** [config.Executor]. *)
Record ExecutorConfig := {
  ex_PrepareTimeout : duration; ex_GracefulKillTimeout : duration; ex_TransportDeadline : duration }.
#[export] Instance eta_ExecutorConfig : Eta ExecutorConfig :=
  fun r => {|
    ex_PrepareTimeout := ex_PrepareTimeout r; ex_GracefulKillTimeout := ex_GracefulKillTimeout r;
    ex_TransportDeadline := ex_TransportDeadline r |}.

Record Service := {
  svc_Enabled : option bool; svc_Port : Z }.
#[export] Instance eta_Service : Eta Service :=
  fun r => {|
    svc_Enabled := svc_Enabled r; svc_Port := svc_Port r |}.

Record Buildkit := {
  bk_Service : Service; bk_StorageLimit : Z; bk_GCPolicy : string }.
#[export] Instance eta_Buildkit : Eta Buildkit :=
  fun r => {|
    bk_Service := bk_Service r; bk_StorageLimit := bk_StorageLimit r; bk_GCPolicy := bk_GCPolicy r |}.

Record GoProxy := {
  gp_Service : Service; gp_Upstream : string; gp_PrivatePatterns : list string; gp_PrivateVCSHost : string;
  gp_CredentialParameter : string; gp_PrivateRevalidateInterval : duration; gp_StorageLimit : Z;
  gp_Prewarm : list string }.
#[export] Instance eta_GoProxy : Eta GoProxy :=
  fun r => {|
    gp_Service := gp_Service r; gp_Upstream := gp_Upstream r; gp_PrivatePatterns := gp_PrivatePatterns r;
    gp_PrivateVCSHost := gp_PrivateVCSHost r; gp_CredentialParameter := gp_CredentialParameter r;
    gp_PrivateRevalidateInterval := gp_PrivateRevalidateInterval r; gp_StorageLimit := gp_StorageLimit r;
    gp_Prewarm := gp_Prewarm r |}.

Record RegistryUpstream := {
  ru_URL : string; ru_CredentialParameter : string }.
#[export] Instance eta_RegistryUpstream : Eta RegistryUpstream :=
  fun r => {|
    ru_URL := ru_URL r; ru_CredentialParameter := ru_CredentialParameter r |}.

Record RegistryMirror := {
  rm_Service : Service; rm_Upstreams : list RegistryUpstream; rm_StorageLimit : Z; rm_Prewarm : list string }.
#[export] Instance eta_RegistryMirror : Eta RegistryMirror :=
  fun r => {|
    rm_Service := rm_Service r; rm_Upstreams := rm_Upstreams r; rm_StorageLimit := rm_StorageLimit r;
    rm_Prewarm := rm_Prewarm r |}.

Record HTTPCacheUpstream := {
  hu_Name : string; hu_URL : string; hu_SizeLimit : Z; hu_TTL : duration; hu_EnvVar : string }.
#[export] Instance eta_HTTPCacheUpstream : Eta HTTPCacheUpstream :=
  fun r => {|
    hu_Name := hu_Name r; hu_URL := hu_URL r; hu_SizeLimit := hu_SizeLimit r; hu_TTL := hu_TTL r;
    hu_EnvVar := hu_EnvVar r |}.

Record HTTPCache := {
  hc_Service : Service; hc_Upstreams : list HTTPCacheUpstream }.
#[export] Instance eta_HTTPCache : Eta HTTPCache :=
  fun r => {|
    hc_Service := hc_Service r; hc_Upstreams := hc_Upstreams r |}.

Record CacheVolume := {
  cv_Device : string; cv_Directory : string; cv_SizeCap : Z }.
#[export] Instance eta_CacheVolume : Eta CacheVolume :=
  fun r => {|
    cv_Device := cv_Device r; cv_Directory := cv_Directory r; cv_SizeCap := cv_SizeCap r |}.

Record HostServices := {
  hs_Buildkit : Buildkit; hs_GoProxy : GoProxy; hs_RegistryMirror : RegistryMirror; hs_HTTPCache : HTTPCache;
  hs_CacheVolume : CacheVolume }.
#[export] Instance eta_HostServices : Eta HostServices :=
  fun r => {|
    hs_Buildkit := hs_Buildkit r; hs_GoProxy := hs_GoProxy r; hs_RegistryMirror := hs_RegistryMirror r;
    hs_HTTPCache := hs_HTTPCache r; hs_CacheVolume := hs_CacheVolume r |}.

Record DistributedCache := {
  dc_Bucket : string; dc_Region : string; dc_Prefix : string; dc_Endpoint : string; dc_Insecure : bool }.
#[export] Instance eta_DistributedCache : Eta DistributedCache :=
  fun r => {|
    dc_Bucket := dc_Bucket r; dc_Region := dc_Region r; dc_Prefix := dc_Prefix r; dc_Endpoint := dc_Endpoint r;
    dc_Insecure := dc_Insecure r |}.

Record Observability := {
  ob_LogFormat : string; ob_LogLevel : string; ob_ListenAddress : string }.
#[export] Instance eta_Observability : Eta Observability :=
  fun r => {|
    ob_LogFormat := ob_LogFormat r; ob_LogLevel := ob_LogLevel r; ob_ListenAddress := ob_ListenAddress r |}.

Record Config := {
  c_GitLab : GitLab; c_Profiles : list ProfileConfig; c_Inventory : Inventory;
  c_PoolManager : PoolManagerConfig; c_Scheduler : SchedulerConfig; c_Executor : ExecutorConfig;
  c_HostServices : HostServices; c_DistributedCache : option DistributedCache; c_Observability : Observability;
  c_StateDir : string }.
#[export] Instance eta_Config : Eta Config :=
  fun r => {|
    c_GitLab := c_GitLab r; c_Profiles := c_Profiles r; c_Inventory := c_Inventory r;
    c_PoolManager := c_PoolManager r; c_Scheduler := c_Scheduler r; c_Executor := c_Executor r;
    c_HostServices := c_HostServices r; c_DistributedCache := c_DistributedCache r;
    c_Observability := c_Observability r; c_StateDir := c_StateDir r |}.

(** Zero values. *)
Definition zeroTLS : ClientTLS := {| tls_CAFile := ""; tls_CertFile := ""; tls_KeyFile := ""; tls_Insecure := false |}.
Definition zeroTransport : Transport := {| tr_Kind := ""; tr_SSH := {| ssh_User := ""; ssh_PrivateKeyFile := ""; ssh_KnownHostKey := "" |} |}.
Definition zeroServices : HostServiceAddresses := {| sa_Buildkit := ""; sa_GoProxy := ""; sa_RegistryMirror := ""; sa_HTTPCache := ∅ |}.
Definition zeroVersions : InstalledVersions := {| iv_Flintlock := ""; iv_Firecracker := ""; iv_CloudHypervisor := ""; iv_Containerd := "" |}.
Definition zeroPoolManager : PoolManagerConfig :=
  {| pm_Backend := ""; pm_Claim := None; pm_Endpoint := ""; pm_TLS := zeroTLS; pm_Deadline := 0; pm_HealthBackoff := 0;
     pm_HealthInterval := 0; pm_HealthFailureThreshold := 0; pm_EventsPollInterval := 0; pm_DeclareRetryInterval := 0;
     pm_ReleaseRetryLimit := 0 |}.

Definition IsClaim (pm : PoolManagerConfig) : bool := String.eqb (pm_Backend pm) PoolBackendClaim.
(** Unset means enabled. *)
Definition IsEnabled (s : Service) : bool := default true (svc_Enabled s).

Definition DefaultShutdownTimeout : duration := 30 * second.
Definition DefaultHeartbeatInterval : duration := 10 * second.
Definition DefaultHeartbeatExpiry : duration := 30 * second.
Definition DefaultPoolManagerDeadline : duration := 10 * second.
Definition DefaultPoolManagerDeclareRetry : duration := 30 * second.
Definition DefaultPoolManagerReleaseRetry : Z := 5.
Definition DefaultAllocationTimeout : duration := 5 * minute.
Definition DefaultHostHealthInterval : duration := 10 * second.
Definition DefaultHostUnhealthyThreshold : Z := 3.
Definition DefaultHostCallDeadline : duration := 10 * second.
Definition DefaultKeepDuration : duration := 60 * minute.

(** [if d := x; d > 0 { return d }; return dflt]: how the Scheduler reads
    every optional number. *)
Definition or_default (x dflt : Z) : Z := if 0 <? x then x else dflt.

Lemma or_default_pos x dflt : 0 < dflt -> 0 < or_default x dflt.
Proof. unfold or_default. destruct (Z.ltb_spec 0 x); lia. Qed.
