(* ===== verification/Base64.v ===== *)
(** * encoding/base64: StdEncoding, as flintlock's metadata expects it

    Groups of three bytes become four letters of the standard alphabet, with
    [=] padding; the decoder is the reference the encoder is proved against. *)
From S2P Require Import Prelude GoModel.
From Stdlib Require Import Ascii.

Definition byte_of (c : ascii) : Z := Z.of_N (N_of_ascii c).
Definition char_of (z : Z) : ascii := ascii_of_N (Z.to_N z).

Lemma byte_of_range c : 0 <= byte_of c <= 255.
Proof. unfold byte_of. pose proof (N_ascii_bounded c). lia. Qed.

Lemma char_of_byte c : char_of (byte_of c) = c.
Proof. unfold char_of, byte_of. rewrite N2Z.id. apply ascii_N_embedding. Qed.

Definition alphabet : list ascii := String.list_ascii_of_string
  "ABCDEFGHIJKLMNOPQRSTUVWXYZabcdefghijklmnopqrstuvwxyz0123456789+/".

Definition pad : ascii := "="%char.
Definition letter (z : Z) : ascii := nth (Z.to_nat z) alphabet pad.

Fixpoint index_of (c : ascii) (l : list ascii) (i : Z) : option Z :=
  match l with
  | [] => None
  | x :: l => if Ascii.eqb x c then Some i else index_of c l (i + 1)
  end.
Definition value (c : ascii) : option Z := index_of c alphabet 0.

Fixpoint EncodeToString (bs : list ascii) : list ascii :=
  match bs with
  | [] => []
  | [a] =>
      let v := byte_of a * 65536 in
      [letter (v / 262144); letter (v / 4096 mod 64); pad; pad]
  | [a; b] =>
      let v := byte_of a * 65536 + byte_of b * 256 in
      [letter (v / 262144); letter (v / 4096 mod 64); letter (v / 64 mod 64); pad]
  | a :: b :: c :: bs =>
      let v := byte_of a * 65536 + byte_of b * 256 + byte_of c in
      letter (v / 262144) :: letter (v / 4096 mod 64) :: letter (v / 64 mod 64) :: letter (v mod 64)
        :: EncodeToString bs
  end.

Fixpoint DecodeString (l : list ascii) : option (list ascii) :=
  match l with
  | [] => Some []
  | a :: b :: c :: d :: l =>
      x ← value a; y ← value b;
      if Ascii.eqb c pad then
        if Ascii.eqb d pad then
          match l with [] => Some [char_of ((x * 262144 + y * 4096) / 65536)] | _ => None end
        else None
      else
        z ← value c;
        if Ascii.eqb d pad then
          match l with
          | [] => let v := x * 262144 + y * 4096 + z * 64 in Some [char_of (v / 65536); char_of (v / 256 mod 256)]
          | _ => None
          end
        else
          w ← value d;
          let v := x * 262144 + y * 4096 + z * 64 + w in
          r ← DecodeString l;
          Some (char_of (v / 65536) :: char_of (v / 256 mod 256) :: char_of (v mod 256) :: r)
  | _ => None
  end.

(** Every six-bit value has a letter of its own, none of them the padding. *)
Lemma letters_ok :
  forallb (fun n => match value (letter (Z.of_nat n)) with Some z => z =? Z.of_nat n | None => false end
             && negb (Ascii.eqb (letter (Z.of_nat n)) pad)) (seq 0 64) = true.
Proof. vm_compute. reflexivity. Qed.

Lemma letter_value z : 0 <= z < 64 -> value (letter z) = Some z /\ Ascii.eqb (letter z) pad = false.
Proof.
  intros Hz. pose proof letters_ok as H. rewrite forallb_forall in H. specialize (H (Z.to_nat z) ltac:(apply in_seq; lia)).
  cbv beta in H. rewrite !Z2Nat.id in H by lia.
  destruct (value (letter z)) as [v|]; bool_to_prop; [|done]. subst. done.
Qed.

Lemma bytes_split a b c :
  0 <= a <= 255 -> 0 <= b <= 255 -> 0 <= c <= 255 ->
  let v := a * 65536 + b * 256 + c in
  (0 <= v / 262144 < 64 /\ 0 <= v / 4096 mod 64 < 64 /\ 0 <= v / 64 mod 64 < 64 /\ 0 <= v mod 64 < 64)
  /\ v / 262144 * 262144 + v / 4096 mod 64 * 4096 + v / 64 mod 64 * 64 + v mod 64 = v
  /\ v / 65536 = a /\ v / 256 mod 256 = b /\ v mod 256 = c.
Proof. intros. subst v. split_and!; Z.div_mod_to_equations; lia. Qed.

Fixpoint triples (P : list ascii -> Prop) (H0 : P []) (H1 : forall a, P [a]) (H2 : forall a b, P [a; b])
    (H3 : forall a b c l, P l -> P (a :: b :: c :: l)) (l : list ascii) : P l :=
  match l with
  | [] => H0
  | [a] => H1 a
  | [a; b] => H2 a b
  | a :: b :: c :: l => H3 a b c l (triples P H0 H1 H2 H3 l)
  end.

Lemma Decode_Encode l : DecodeString (EncodeToString l) = Some l.
Proof.
  induction l as [|a|a b|a b c l IH] using triples; [done| | |].
  - destruct (bytes_split (byte_of a) 0 0) as ((R1 & R2 & R3 & R4) & E & Ea & _); try apply byte_of_range; try lia.
    rewrite Z.mul_0_l, !Z.add_0_r in *. cbn [EncodeToString DecodeString]. cbv zeta.
    destruct (letter_value _ R1) as [-> _], (letter_value _ R2) as [-> _]. cbn.
    do 2 f_equal. rewrite <-(char_of_byte a) at 3. f_equal. pose proof (byte_of_range a).
    Z.div_mod_to_equations; lia.
  - destruct (bytes_split (byte_of a) (byte_of b) 0) as ((R1 & R2 & R3 & R4) & E & Ea & Eb & _);
      try apply byte_of_range; try lia.
    rewrite !Z.add_0_r in *. cbn [EncodeToString DecodeString]. cbv zeta.
    destruct (letter_value _ R1) as [-> _], (letter_value _ R2) as [-> _], (letter_value _ R3) as [-> ->].
    cbn [mbind option_bind]. cbn [Ascii.eqb Bool.eqb pad].
    assert (forall v, v = byte_of a * 65536 + byte_of b * 256 -> char_of (v / 65536) = a /\ char_of (v / 256 mod 256) = b) as Hv.
    { intros v ->. by rewrite Ea, Eb, !char_of_byte. }
    destruct (Hv ((byte_of a * 65536 + byte_of b * 256) / 262144 * 262144
      + (byte_of a * 65536 + byte_of b * 256) / 4096 mod 64 * 4096
      + (byte_of a * 65536 + byte_of b * 256) / 64 mod 64 * 64)) as [-> ->]; [|done].
    pose proof (byte_of_range a). pose proof (byte_of_range b). Z.div_mod_to_equations; lia.
  - destruct (bytes_split (byte_of a) (byte_of b) (byte_of c)) as ((R1 & R2 & R3 & R4) & E & Ea & Eb & Ec);
      try apply byte_of_range.
    cbn [EncodeToString DecodeString]. cbv zeta.
    destruct (letter_value _ R1) as [-> _], (letter_value _ R2) as [-> _],
      (letter_value _ R3) as [-> ->], (letter_value _ R4) as [-> ->].
    cbn [mbind option_bind]. rewrite E, IH, Ea, Eb, Ec, !char_of_byte. done.
Qed.
