(* ===== verification/Spec.v ===== *)
(** * internal/poolmgr/spec.go, hosts.go, convert.go: from Profile to Pool

    The PoolSpec derived from a Profile, the Hosts its Pool may be placed on,
    and the wire form of a PoolSpec.  [text/template] is a parameter, as is
    the protobuf Duration message; the flintlock and battery messages are the
    records of the fields the sources set and read. *)
From S2P Require Import Prelude GoModel PoolTypes ConfigTypes Base64.
From Stdlib Require Import Ascii.

Inductive ReplenishmentStrategyType :=
  | REPLENISHMENT_UNSPECIFIED | IMMEDIATE_ON_LEASE | MIN_SIZE_THRESHOLD | REPLACE_ON_DELETE.
Inductive HookFailurePolicy := HOOK_FAILURE_POLICY_UNSPECIFIED | DELETE_AND_REPLACE | HOOK_QUARANTINE.

Record ReplenishmentStrategy := { rs_Type : ReplenishmentStrategyType; rs_MinSize : option Z }.

Inductive InterfaceType := MACVTAP | TAP.
Record StaticAddress := { sta_Address : string; sta_Gateway : option string; sta_Nameservers : list string }.
Record NetworkOverrides := { no_BridgeName : option string }.
Record NetworkInterface := {
  ni_DeviceId : string; ni_Type : InterfaceType; ni_GuestMac : option string;
  ni_Address : option StaticAddress; ni_Overrides : option NetworkOverrides }.
Record KernelSpec := {
  ks_Image : string; ks_Cmdline : gmap string string; ks_Filename : option string; ks_AddNetworkConfig : bool }.
Record InitrdSpec := { is_Image : string; is_Filename : option string }.
Record VolumeSource := { vo_ContainerSource : option string; vo_VirtiofsSource : option string }.
Record VolumeSpec := {
  vs_Id : string; vs_IsReadOnly : bool; vs_Source : option VolumeSource;
  vs_MountPoint : option string; vs_PartitionId : option string; vs_SizeInMb : option Z }.
Record CPUConfig := { cc_FeaturesToEnable : list string; cc_KvmCapabilitiesToDisable : list string }.
Record MicroVMSpec := {
  ms_Id : string; ms_Namespace : string; ms_Labels : gmap string string; ms_Vcpu : Z; ms_MemoryInMb : Z;
  ms_Kernel : option KernelSpec; ms_Initrd : option InitrdSpec; ms_RootVolume : option VolumeSpec;
  ms_AdditionalVolumes : list VolumeSpec; ms_Interfaces : list NetworkInterface;
  ms_Metadata : option (gmap string string); ms_Provider : option string; ms_AllowGuestAgent : bool;
  ms_CpuConfig : option CPUConfig }.

Record PoolSpec := {
  sp_Ref : PoolRef; sp_Template : option MicroVMSpec; sp_Size : Z; sp_FlintlockHosts : list string;
  sp_Replenishment : ReplenishmentStrategy; sp_CreateCommands : list string; sp_PreLeaseCommands : list string;
  sp_HookFailurePolicy : HookFailurePolicy; sp_HeartbeatInterval : duration; sp_HeartbeatExpiryThreshold : duration }.

Record Pool := { pool_Spec : PoolSpec; pool_Status : PoolStatus }.

Record SpecInput := { si_RunnerName : string; si_Namespace : string; si_Hosts : list string }.

(** ** spec.go *)
Definition LabelRunner : string := "gitlab-runner.flintlock.dev/runner".
Definition LabelProfile : string := "gitlab-runner.flintlock.dev/profile".
Definition rootVolumeID : string := "root".
Definition GuestDeviceID : string := "net0".
Definition metaKeyUserData : string := "user-data".
Definition allowedMetadataKeys : list string := ["meta-data"; metaKeyUserData; "vendor-data"; "network-config"].

Definition poolRef (p : ProfileConfig) (namespace : string) : PoolRef :=
  {| ref_Name := if String.eqb (ps_Name (p_Pool p)) "" then p_Name p else ps_Name (p_Pool p);
     ref_Namespace := if String.eqb (ps_Namespace (p_Pool p)) "" then namespace else ps_Namespace (p_Pool p) |}.

Definition labels (p : ProfileConfig) (inp : SpecInput) : gmap string string :=
  <[LabelProfile := p_Name p]> (<[LabelRunner := si_RunnerName inp]> ∅).

Definition guestInterfaces : list NetworkInterface := [{| ni_DeviceId := GuestDeviceID; ni_Type := TAP; ni_GuestMac := None; ni_Address := None; ni_Overrides := None |}].

Definition containerVolume (id image mountPoint : string) (readOnly : bool) (sizeMB : Z) : VolumeSpec :=
  {| vs_Id := id; vs_IsReadOnly := readOnly; vs_Source := Some {| vo_ContainerSource := Some image; vo_VirtiofsSource := None |};
     vs_MountPoint := if String.eqb mountPoint "" then None else Some mountPoint; vs_PartitionId := None;
     vs_SizeInMb := if 0 <? sizeMB then Some (int32 sizeMB) else None |}.

Definition additionalVolumes (vols : list Volume) : list VolumeSpec :=
  (fun v => containerVolume (v_ID v) (v_Image v) (v_MountPoint v) (v_ReadOnly v) (v_SizeMB v)) <$> vols.

(** [strings.TrimSpace s == ""]: every rune is white space.  The white space
    of Unicode is spelled by its UTF-8 bytes. *)
Fixpoint all_space (l : list Z) : bool :=
  match l with
  | [] => true
  | 194 :: c :: l => ((c =? 133) || (c =? 160)) && all_space l
  | 225 :: 154 :: 128 :: l => all_space l
  | 226 :: 128 :: c :: l => (((128 <=? c) && (c <=? 138)) || (c =? 168) || (c =? 169) || (c =? 175)) && all_space l
  | 226 :: 129 :: 159 :: l => all_space l
  | 227 :: 128 :: 128 :: l => all_space l
  | c :: l => (((9 <=? c) && (c <=? 13)) || (c =? 32)) && all_space l
  end.
Definition TrimSpace_empty (s : string) : bool := all_space (byte_of <$> String.list_ascii_of_string s).

Definition metadataKeyAllowed (key : string) : bool := existsb (String.eqb key) allowedMetadataKeys.

Definition sortedKeys (m : gmap string string) : list string := sort_strings (map_to_list m).*1.

Definition base64_encode (s : string) : string :=
  String.string_of_list_ascii (EncodeToString (String.list_ascii_of_string s)).
Definition base64_decode (s : string) : option string :=
  String.string_of_list_ascii <$> DecodeString (String.list_ascii_of_string s).

Fixpoint encodeMetadata_loop (entries : gmap string string) (keys : list string) (out : gmap string string)
    : result (gmap string string) :=
  match keys with
  | [] => Ok out
  | key :: keys =>
      if negb (metadataKeyAllowed key)
      then Err (ENew ("poolmgr: metadata key " +:+ key +:+ " is not allowed"))
      else encodeMetadata_loop entries keys (<[key := base64_encode (default "" (entries !! key))]> out)
  end.
Definition encodeMetadata (entries : gmap string string) : result (gmap string string) :=
  encodeMetadata_loop entries (sortedKeys entries) ∅.

Definition replenishment (s : PoolSettings) : result ReplenishmentStrategy :=
  let t := if String.eqb (ps_Strategy s) "" || String.eqb (ps_Strategy s) ReplenishImmediateOnLease
           then Some IMMEDIATE_ON_LEASE
           else if String.eqb (ps_Strategy s) ReplenishMinSizeThreshold then Some MIN_SIZE_THRESHOLD
           else if String.eqb (ps_Strategy s) ReplenishReplaceOnDelete then Some REPLACE_ON_DELETE
           else None in
  match t with
  | None => Err (ENew ("unknown replenishment strategy " +:+ ps_Strategy s))
  | Some MIN_SIZE_THRESHOLD => Ok {| rs_Type := MIN_SIZE_THRESHOLD; rs_MinSize := int32 <$> ps_MinSize s |}
  | Some t => Ok {| rs_Type := t; rs_MinSize := None |}
  end.

Definition hookFailurePolicy (p : string) : result HookFailurePolicy :=
  if String.eqb p "" || String.eqb p HookFailureDeleteAndReplace then Ok DELETE_AND_REPLACE
  else if String.eqb p HookFailureQuarantine then Ok HOOK_QUARANTINE
  else Err (ENew ("unknown hook failure policy " +:+ p)).

(** ** The parts that render a template *)
Section Build.
(** [text/template]: parsing with [missingkey=error], and execution with the
    Profile's name, the only field of [userDataContext]. *)
Context {Template : Type} (Parse : string -> result Template) (Execute : Template -> string -> result string).

Definition buildMetadata (p : ProfileConfig) : result (option (gmap string string)) :=
  if TrimSpace_empty (p_UserData p) then Ok None else
  match Parse (p_UserData p) with
  | Err e => Err (EWrap ("profile " +:+ p_Name p +:+ ": parsing user_data") [e])
  | Ok tmpl =>
      match Execute tmpl (p_Name p) with
      | Err e => Err (EWrap ("profile " +:+ p_Name p +:+ ": rendering user_data") [e])
      | Ok buf =>
          match encodeMetadata {[metaKeyUserData := buf]} with
          | Ok m => Ok (Some m)
          | Err e => Err e
          end
      end
  end.

Definition buildTemplate (p : ProfileConfig) (inp : SpecInput) : result MicroVMSpec :=
  match buildMetadata p with
  | Err e => Err e
  | Ok metadata =>
      Ok {| ms_Id := ""; ms_Namespace := si_Namespace inp; ms_Labels := labels p inp;
            ms_Vcpu := int32 (p_VCPU p); ms_MemoryInMb := int32 (p_MemoryMB p);
            ms_Kernel := Some
              {| ks_Image := k_Image (p_Kernel p); ks_Cmdline := k_Cmdline (p_Kernel p);
                 ks_Filename := if String.eqb (k_Filename (p_Kernel p)) "" then None
                                else Some (k_Filename (p_Kernel p));
                 ks_AddNetworkConfig := true |};
            ms_Initrd := (fun i => {| is_Image := i_Image i;
                 is_Filename := if String.eqb (i_Filename i) "" then None else Some (i_Filename i) |}) <$> p_Initrd p;
            ms_RootVolume := Some $ containerVolume rootVolumeID (p_RootFS p) "" false 0;
            ms_AdditionalVolumes := additionalVolumes (p_AdditionalVolumes p);
            ms_Interfaces := guestInterfaces; ms_Metadata := metadata;
            ms_Provider := if String.eqb (p_Provider p) "" then None else Some (p_Provider p);
            ms_AllowGuestAgent := true; ms_CpuConfig := None |}
  end.

Definition Build (p : ProfileConfig) (inp : SpecInput) : result PoolSpec :=
  match buildTemplate p inp with
  | Err e => Err e
  | Ok template =>
      match replenishment (p_Pool p) with
      | Err e => Err (EWrap ("profile " +:+ p_Name p) [e])
      | Ok strategy =>
          match hookFailurePolicy (ps_HookFailurePolicy (p_Pool p)) with
          | Err e => Err (EWrap ("profile " +:+ p_Name p) [e])
          | Ok policy =>
              Ok {| sp_Ref := poolRef p (si_Namespace inp); sp_Template := Some template;
                    sp_Size := int32 (ps_Size (p_Pool p)); sp_FlintlockHosts := si_Hosts inp;
                    sp_Replenishment := strategy; sp_CreateCommands := ps_CreateHooks (p_Pool p);
                    sp_PreLeaseCommands := ps_PreLeaseHooks (p_Pool p); sp_HookFailurePolicy := policy;
                    sp_HeartbeatInterval := ps_HeartbeatInterval (p_Pool p);
                    sp_HeartbeatExpiryThreshold := ps_HeartbeatExpiry (p_Pool p) |}
          end
      end
  end.
End Build.

(** ** hosts.go *)
Definition matchesSelector (selector labels : gmap string string) : bool :=
  forallb (fun kw => bool_decide (labels !! kw.1 = Some kw.2)) (map_to_list selector).

Definition selected (p : ProfileConfig) (host : HostEntry) : bool :=
  negb (negb (String.eqb (p_Arch p) "") && negb (String.eqb (he_Arch host) (p_Arch p)))
  && matchesSelector (p_HostSelector p) (he_Labels host).

Definition Select (p : ProfileConfig) (inventory : list HostEntry) : list string :=
  sort_strings (he_Name <$> filter (fun h => selected p h = true) inventory).

(** ** convert.go *)
Section Convert.
(** The protobuf Duration message, [durationpb.New] and [AsDuration]. *)
Context {DurationPB : Type} (durationpb_New : duration -> DurationPB) (AsDuration : DurationPB -> duration).

Record wireStrategy := { ws_Type : ReplenishmentStrategyType; ws_MinSize : option Z }.
Record wirePoolSpec := {
  w_Name : string; w_Namespace : string; w_Size : Z; w_FlintlockHosts : list string;
  w_ReplenishmentStrategy : option wireStrategy; w_CreateCommands : list string; w_PreLeaseCommands : list string;
  w_HookFailurePolicy : HookFailurePolicy; w_MicrovmTemplate : option MicroVMSpec;
  w_HeartbeatInterval : option DurationPB; w_HeartbeatExpiryThreshold : option DurationPB }.
Record wireStatus := { w_Available : Z; w_Leased : Z; w_Provisioning : Z; w_Quarantined : Z }.

Definition specToProto (spec : PoolSpec) : wirePoolSpec :=
  {| w_Name := ref_Name (sp_Ref spec); w_Namespace := ref_Namespace (sp_Ref spec); w_Size := sp_Size spec;
     w_FlintlockHosts := sp_FlintlockHosts spec;
     w_ReplenishmentStrategy := Some {| ws_Type := rs_Type (sp_Replenishment spec);
                                        ws_MinSize := rs_MinSize (sp_Replenishment spec) |};
     w_CreateCommands := sp_CreateCommands spec; w_PreLeaseCommands := sp_PreLeaseCommands spec;
     w_HookFailurePolicy := sp_HookFailurePolicy spec; w_MicrovmTemplate := sp_Template spec;
     w_HeartbeatInterval := if 0 <? sp_HeartbeatInterval spec
                            then Some (durationpb_New (sp_HeartbeatInterval spec)) else None;
     w_HeartbeatExpiryThreshold := if 0 <? sp_HeartbeatExpiryThreshold spec
                            then Some (durationpb_New (sp_HeartbeatExpiryThreshold spec)) else None |}.

Definition zeroPoolSpec : PoolSpec :=
  {| sp_Ref := {| ref_Name := ""; ref_Namespace := "" |}; sp_Template := None; sp_Size := 0;
     sp_FlintlockHosts := []; sp_Replenishment := {| rs_Type := REPLENISHMENT_UNSPECIFIED; rs_MinSize := None |};
     sp_CreateCommands := []; sp_PreLeaseCommands := [];
     sp_HookFailurePolicy := HOOK_FAILURE_POLICY_UNSPECIFIED;
     sp_HeartbeatInterval := 0; sp_HeartbeatExpiryThreshold := 0 |}.

Definition specFromProto (s : option wirePoolSpec) : PoolSpec :=
  match s with
  | None => zeroPoolSpec
  | Some s =>
      {| sp_Ref := {| ref_Name := w_Name s; ref_Namespace := w_Namespace s |};
         sp_Template := w_MicrovmTemplate s; sp_Size := w_Size s; sp_FlintlockHosts := w_FlintlockHosts s;
         sp_Replenishment :=
           match w_ReplenishmentStrategy s with
           | Some rs => {| rs_Type := ws_Type rs; rs_MinSize := ws_MinSize rs |}
           | None => {| rs_Type := REPLENISHMENT_UNSPECIFIED; rs_MinSize := None |}
           end;
         sp_CreateCommands := w_CreateCommands s; sp_PreLeaseCommands := w_PreLeaseCommands s;
         sp_HookFailurePolicy := w_HookFailurePolicy s;
         sp_HeartbeatInterval := from_option AsDuration 0 (w_HeartbeatInterval s);
         sp_HeartbeatExpiryThreshold := from_option AsDuration 0 (w_HeartbeatExpiryThreshold s) |}
  end.

Definition poolFromProto (spec : option wirePoolSpec) (status : option wireStatus) : Pool :=
  {| pool_Spec := specFromProto spec;
     pool_Status :=
       match status with
       | Some st => {| Available := w_Available st; Leased := w_Leased st;
                       Provisioning := w_Provisioning st; Quarantined := w_Quarantined st |}
       | None => {| Available := 0; Leased := 0; Provisioning := 0; Quarantined := 0 |}
       end |}.

(** A PoolSpec survives the wire.  Whatever the Runner declares, the spec
    read back from the message is the one that was sent; a heartbeat setting
    of zero or less is sent as unset and reads back as zero.  The law of the
    Duration message is the documented one. *)
Theorem spec_roundtrip spec :
  (forall d, minDuration <= d <= maxDuration -> AsDuration (durationpb_New d) = d) ->
  sp_HeartbeatInterval spec <= maxDuration -> sp_HeartbeatExpiryThreshold spec <= maxDuration ->
  specFromProto (Some (specToProto spec)) =
    {| sp_Ref := sp_Ref spec; sp_Template := sp_Template spec; sp_Size := sp_Size spec;
       sp_FlintlockHosts := sp_FlintlockHosts spec; sp_Replenishment := sp_Replenishment spec;
       sp_CreateCommands := sp_CreateCommands spec; sp_PreLeaseCommands := sp_PreLeaseCommands spec;
       sp_HookFailurePolicy := sp_HookFailurePolicy spec;
       sp_HeartbeatInterval := Z.max 0 (sp_HeartbeatInterval spec);
       sp_HeartbeatExpiryThreshold := Z.max 0 (sp_HeartbeatExpiryThreshold spec) |}.
Proof.
  intros Hd H1 H2.
  assert (forall d, d <= maxDuration ->
    from_option AsDuration 0 (if 0 <? d then Some (durationpb_New d) else None) = Z.max 0 d) as Hr.
  { intros d Hle. destruct (Z.ltb_spec 0 d); simpl; [|lia]. rewrite Hd; unfold minDuration; lia. }
  destruct spec as [[n ns] t sz hs [ty ms] cc pc hf hi he]. simpl in *. by rewrite !Hr.
Qed.
End Convert.

(** The Duration message as seconds and nanoseconds. *)
Definition demo_New (d : duration) : Z * Z := (Z.quot d second, Z.rem d second).
Definition demo_AsDuration (m : Z * Z) : duration := m.1 * second + m.2.

Definition demo_settings : PoolSettings :=
  {| ps_Size := 4; ps_Name := ""; ps_Namespace := ""; ps_Strategy := ""; ps_MinSize := None;
     ps_CreateHooks := ["true"]; ps_PreLeaseHooks := []; ps_HookFailurePolicy := "quarantine";
     ps_HeartbeatInterval := 10 * second; ps_HeartbeatExpiry := 30 * second |}.

Definition demo_profile : ProfileConfig :=
  {| p_Name := "small"; p_Arch := "amd64"; p_VCPU := 2; p_MemoryMB := 2048;
     p_Kernel := {| k_Image := "k"; k_Filename := ""; k_Cmdline := ∅ |}; p_Initrd := None; p_RootFS := "r";
     p_AdditionalVolumes := []; p_Provider := ""; p_UserData := "hi"; p_Shell := ""; p_BuildsDir := ""; p_CacheDir := ""; p_HelperPath := "";
     p_Images := ["go"]; p_ImageGlobs := ["go:*"];
     p_Default := false; p_Transport := zeroTransport; p_User := ""; p_ReadyTimeout := 0;
     p_HostSelector := {["zone" := "a"]}; p_MaxConcurrency := 2; p_Pool := demo_settings |}.

Definition demo_input : SpecInput := {| si_RunnerName := "r1"; si_Namespace := "ns"; si_Hosts := ["h1"] |}.

Definition demo_spec : PoolSpec :=
  match Build (fun s => Ok s) (fun t n => Ok (t +:+ " " +:+ n)) demo_profile demo_input with
  | Ok s => s | Err _ => zeroPoolSpec end.

Lemma spec_roundtrip_witness :
  specFromProto demo_AsDuration (Some (specToProto demo_New demo_spec)) = demo_spec
  /\ sp_HeartbeatInterval demo_spec = 10 * second.
Proof.
  split; [|vm_compute; reflexivity].
  rewrite (spec_roundtrip demo_New demo_AsDuration demo_spec); [vm_compute; reflexivity| |by_compute|by_compute].
  intros d _. unfold demo_New, demo_AsDuration. simpl. pose proof (Z.quot_rem' d second). lia.
Defined.

(** ** What Build promises *)
Lemma base64_roundtrip s : base64_decode (base64_encode s) = Some s.
Proof.
  unfold base64_decode, base64_encode. rewrite String.list_ascii_of_string_of_list_ascii, Decode_Encode.
  simpl. by rewrite String.string_of_list_ascii_of_string.
Qed.

Lemma encodeMetadata_singleton k v :
  metadataKeyAllowed k = true -> encodeMetadata {[k := v]} = Ok {[k := base64_encode v]}.
Proof.
  intros Hk. unfold encodeMetadata, sortedKeys. rewrite map_to_list_singleton.
  change ([(k, v)].*1) with [k].
  rewrite (proj1 (Permutation_singleton_r _ _) (sort_strings_perm [k])). cbn [encodeMetadata_loop].
  rewrite Hk. cbn [negb]. by rewrite lookup_singleton_eq.
Qed.

(** What the requirements ask of the template of a Pool. *)
Record template_ok (p : ProfileConfig) (inp : SpecInput) (rendered : option string) (t : MicroVMSpec) : Prop := {
  to_id : ms_Id t = "";
  to_namespace : ms_Namespace t = si_Namespace inp;
  to_runner : ms_Labels t !! LabelRunner = Some (si_RunnerName inp);
  to_profile : ms_Labels t !! LabelProfile = Some (p_Name p);
  to_labels : forall k v, ms_Labels t !! k = Some v -> k = LabelRunner \/ k = LabelProfile;
  to_agent : ms_AllowGuestAgent t = true;
  to_network : exists k, ms_Kernel t = Some k /\ ks_AddNetworkConfig k = true;
  to_eth0 : Forall (fun i => ni_DeviceId i <> "eth0") (ms_Interfaces t) /\ ms_Interfaces t <> [];
  to_metadata : match rendered with
    | None => ms_Metadata t = None
    | Some r => exists m, ms_Metadata t = Some m /\ (m !! "user-data" ≫= base64_decode) = Some r
                  /\ forall k v, m !! k = Some v -> k ∈ allowedMetadataKeys
    end
}.

Section BuildThms.
Context {Template : Type} (Parse : string -> result Template) (Execute : Template -> string -> result string).

(** The user data a Profile renders to, if it renders. *)
Definition rendering (p : ProfileConfig) : result (option string) :=
  if TrimSpace_empty (p_UserData p) then Ok None else
  match Parse (p_UserData p) with
  | Err e => Err e
  | Ok t => match Execute t (p_Name p) with Err e => Err e | Ok s => Ok (Some s) end
  end.

Lemma buildMetadata_rendering p :
  match rendering p with
  | Ok None => buildMetadata Parse Execute p = Ok None
  | Ok (Some s) => buildMetadata Parse Execute p = Ok (Some {[metaKeyUserData := base64_encode s]})
  | Err _ => is_ok (buildMetadata Parse Execute p) = false
  end.
Proof.
  unfold rendering, buildMetadata. destruct (TrimSpace_empty _); [done|].
  destruct (Parse _) as [t|]; [|done]. destruct (Execute _ _) as [s|]; [|done].
  by rewrite encodeMetadata_singleton.
Qed.

Lemma buildTemplate_ok p inp t :
  buildTemplate Parse Execute p inp = Ok t ->
  exists r, rendering p = Ok r /\ template_ok p inp r t.
Proof.
  unfold buildTemplate. pose proof (buildMetadata_rendering p) as Hr.
  destruct (rendering p) as [r|e]; [|by destruct (buildMetadata _ _ p)].
  assert (exists m, buildMetadata Parse Execute p = Ok m /\
    m = (fun s => {[metaKeyUserData := base64_encode s]}) <$> r) as (m & -> & Hm)
    by (destruct r; eexists; by split).
  intros [= <-]. exists r. split; [done|].
  split; cbn [ms_Id ms_Namespace ms_Labels ms_AllowGuestAgent ms_Kernel ks_AddNetworkConfig ms_Interfaces ms_Metadata];
    try reflexivity.
  - unfold labels. intros k v [[<- _]|[_ [[<- _]|[_ H]]%lookup_insert_Some]]%lookup_insert_Some; [by right|by left|].
    by rewrite lookup_empty in H.
  - by eexists.
  - split; [|done]. by repeat constructor.
  - subst m. destruct r as [s|]; simpl; [|done]. eexists. split_and!; [done| |].
    + change "user-data" with metaKeyUserData. rewrite lookup_singleton_eq. apply base64_roundtrip.
    + intros k v [<- _]%lookup_singleton_Some. set_solver.
Qed.

(** The Pool of a Profile.  [Build] succeeds exactly when the user data
    renders and the replenishment strategy and the hook failure policy are
    known names or unset; the spec then names the Profile's Pool, keeps the
    Hosts, hooks and heartbeats it was given, and its template satisfies
    every template requirement: no id, the Runner's namespace, exactly the
    two labels, a guest agent, generated network configuration, an interface
    that is not [eth0], and metadata whose only values are base64 encodings
    of what was rendered under an allowed key. *)
Theorem Build_correct p inp :
  (is_ok (Build Parse Execute p inp) = true <->
     is_ok (rendering p) = true
     /\ ps_Strategy (p_Pool p) ∈ [""; ReplenishImmediateOnLease; ReplenishMinSizeThreshold; ReplenishReplaceOnDelete]
     /\ ps_HookFailurePolicy (p_Pool p) ∈ [""; HookFailureDeleteAndReplace; HookFailureQuarantine])
  /\ forall spec, Build Parse Execute p inp = Ok spec ->
     sp_Ref spec = poolRef p (si_Namespace inp) /\ sp_FlintlockHosts spec = si_Hosts inp
     /\ sp_CreateCommands spec = ps_CreateHooks (p_Pool p) /\ sp_PreLeaseCommands spec = ps_PreLeaseHooks (p_Pool p)
     /\ sp_HeartbeatInterval spec = ps_HeartbeatInterval (p_Pool p)
     /\ exists t r, sp_Template spec = Some t /\ rendering p = Ok r /\ template_ok p inp r t.
Proof.
  assert (is_ok (buildTemplate Parse Execute p inp) = is_ok (rendering p)) as Ht.
  { unfold buildTemplate. pose proof (buildMetadata_rendering p) as Hr.
    destruct (rendering p) as [[s|]|e]; [by rewrite Hr|by rewrite Hr|].
    by destruct (buildMetadata _ _ p). }
  assert (is_ok (replenishment (p_Pool p)) = true <->
    ps_Strategy (p_Pool p) ∈ [""; ReplenishImmediateOnLease; ReplenishMinSizeThreshold; ReplenishReplaceOnDelete]) as Hs.
  { clear Ht. unfold replenishment. rewrite !elem_of_cons. generalize (ps_Strategy (p_Pool p)) (ps_MinSize (p_Pool p)). intros x sz.
    destruct (String.eqb_spec x ""), (String.eqb_spec x ReplenishImmediateOnLease), (String.eqb_spec x ReplenishMinSizeThreshold),
      (String.eqb_spec x ReplenishReplaceOnDelete); simpl; (split; [auto|]); try done.
    by intros [?|[?|[?|[?|?%not_elem_of_nil]]]]. }
  assert (is_ok (hookFailurePolicy (ps_HookFailurePolicy (p_Pool p))) = true <->
    ps_HookFailurePolicy (p_Pool p) ∈ [""; HookFailureDeleteAndReplace; HookFailureQuarantine]) as Hp.
  { clear Ht Hs. unfold hookFailurePolicy. rewrite !elem_of_cons. generalize (ps_HookFailurePolicy (p_Pool p)). intros x.
    destruct (String.eqb_spec x ""), (String.eqb_spec x HookFailureDeleteAndReplace), (String.eqb_spec x HookFailureQuarantine);
      simpl; (split; [auto|]); try done.
    by intros [?|[?|[?|?%not_elem_of_nil]]]. }
  rewrite <-Hs, <-Hp, <-Ht. unfold Build.
  destruct (buildTemplate Parse Execute p inp) as [t|e] eqn:Et; [|split; [naive_solver|done]].
  destruct (replenishment _) as [st|e]; [|split; [naive_solver|done]].
  destruct (hookFailurePolicy _) as [po|e]; [|split; [naive_solver|done]].
  split; [done|]. intros spec [= <-]. simpl. destruct (buildTemplate_ok p inp t Et) as (r & ? & ?).
  split_and!; eauto.
Qed.
End BuildThms.

(** ** What Select promises *)
Lemma matchesSelector_spec sel labs :
  matchesSelector sel labs = true <-> forall k v, sel !! k = Some v -> labs !! k = Some v.
Proof.
  unfold matchesSelector. rewrite forallb_forall. split.
  - intros H k v Hk. specialize (H (k, v)). simpl in H. apply bool_decide_eq_true_1 in H; [done|].
    by apply list_elem_of_In, elem_of_map_to_list.
  - intros H [k v] Hin. apply bool_decide_eq_true_2, H. by apply elem_of_map_to_list, list_elem_of_In.
Qed.

Lemma selected_spec p h :
  selected p h = true <->
  (p_Arch p = "" \/ he_Arch h = p_Arch p) /\ forall k v, p_HostSelector p !! k = Some v -> he_Labels h !! k = Some v.
Proof.
  unfold selected. rewrite andb_true_iff, matchesSelector_spec.
  destruct (String.eqb_spec (p_Arch p) ""), (String.eqb_spec (he_Arch h) (p_Arch p)); simpl; naive_solver.
Qed.

(** The Hosts of a Pool.  [Select] returns, in byte order, exactly the
    names of the Inventory's Hosts of the Profile's architecture that carry
    every label its selector asks for, each as often as the Inventory has it,
    and the answer does not depend on the order of the Inventory. *)
Theorem Select_correct p inventory :
  Sorted string_le (Select p inventory)
  /\ Select p inventory ≡ₚ he_Name <$> filter (fun h => selected p h = true) inventory
  /\ (forall n, n ∈ Select p inventory <-> exists h, h ∈ inventory /\ he_Name h = n
        /\ (p_Arch p = "" \/ he_Arch h = p_Arch p)
        /\ forall k v, p_HostSelector p !! k = Some v -> he_Labels h !! k = Some v)
  /\ (forall inventory', inventory ≡ₚ inventory' -> Select p inventory' = Select p inventory).
Proof.
  unfold Select. split_and!.
  - apply sort_strings_sorted.
  - apply sort_strings_perm.
  - intros n. rewrite sort_strings_perm, list_elem_of_fmap. split.
    + intros (h & -> & [Hs%selected_spec Hin]%list_elem_of_filter). exists h. naive_solver.
    + intros (h & Hin & <- & Hs). exists h. split; [done|]. apply list_elem_of_filter. split; [|done].
      by apply selected_spec.
  - intros inv' Hp. by rewrite Hp.
Qed.
