(* ===== verification/SchedTypes.v ===== *)
(** * internal/scheduler/interfaces.go: the Scheduler's data

    Refusals, allocation errors, Reservations, Placements, Leases and
    Allocations, and the read-only [Snapshot]. *)
From S2P Require Import Prelude GoModel PoolTypes ConfigTypes.

Record Profile := { pr_cfg : ProfileConfig; pr_PoolRef : PoolRef }.
Definition pr_Name (p : Profile) : string := p_Name (pr_cfg p).

Inductive RefusalReason :=
  | RefusalNoFreeSlot | RefusalNoWarmMicroVM | RefusalPoolManagerNotContacted | RefusalShuttingDown.
#[export] Instance RefusalReason_eq_dec : EqDecision RefusalReason.
Proof. solve_decision. Defined.

Definition RefusalReason_String (r : RefusalReason) : string :=
  match r with
  | RefusalNoFreeSlot => "no_free_slot"
  | RefusalNoWarmMicroVM => "no_warm_microvm"
  | RefusalPoolManagerNotContacted => "pool_manager_not_contacted"
  | RefusalShuttingDown => "shutting_down"
  end.

(** [AllocationError] unwraps to its cause. *)
Record AllocationError := { ae_Profile : string; ae_Pool : PoolRef; ae_Host : string; ae_Err : error }.

(** The errors the Scheduler's methods return. *)
Inductive sched_error :=
  | SRefusal (r : RefusalReason)
  | SProfileError (image : string)
  | SAllocationError (e : AllocationError)
  | SError (e : error).

Definition sched_Is (e : sched_error) (s : sentinel) : bool :=
  match e with
  | SAllocationError e => errors_Is (ae_Err e) s
  | SError e => errors_Is e s
  | _ => false
  end.

Record JobInfo := { job_ID : Z; job_Image : string }.
Record Reservation := { res_ID : Z; res_GrantedAt : time }.

Inductive PlacementSource := PlacementFromClaim | PlacementFromLookup.
Record Placement := { pl_Host : string; pl_Source : PlacementSource; pl_ResolvedAt : time }.

Record Lease := { l_ID : string; l_Pool : PoolRef; l_ExpiresAt : time; l_LastHeartbeatAt : time }.
#[export] Instance eta_Lease : Eta Lease :=
  fun r => {| l_ID := l_ID r; l_Pool := l_Pool r; l_ExpiresAt := l_ExpiresAt r; l_LastHeartbeatAt := l_LastHeartbeatAt r |}.

Record Allocation := {
  a_JobID : Z; a_Profile : string; a_VMUID : string; a_Lease : Lease; a_Placement : Placement;
  a_Host : HostRef; a_NetworkInterfaces : list (string * string); a_ReservationID : Z; a_ClaimedAt : time }.
#[export] Instance eta_Allocation : Eta Allocation :=
  fun r => {| a_JobID := a_JobID r; a_Profile := a_Profile r; a_VMUID := a_VMUID r; a_Lease := a_Lease r;
              a_Placement := a_Placement r; a_Host := a_Host r; a_NetworkInterfaces := a_NetworkInterfaces r;
              a_ReservationID := a_ReservationID r; a_ClaimedAt := a_ClaimedAt r |}.

(** What flintlock's ServerInfo reports of a Host, as far as it is read. *)
Record HostInfo := {
  hi_Name : string; hi_VersionKnown : bool; hi_Version : string; hi_ExecEnabled : bool; hi_SSHProxyEnabled : bool }.

Record HostHealth := {
  hh_Name : string; hh_Healthy : bool; hh_ConsecutiveFailures : Z; hh_LastProbeAt : time;
  hh_Info : option HostInfo; hh_Leased : Z }.

Record Snapshot := {
  sn_PoolManagerContacted : bool; sn_PoolManagerHealthy : bool; sn_Slots : Z; sn_SlotsInUse : Z;
  sn_Pools : list PoolAvailability; sn_Hosts : list HostHealth }.

Definition Snapshot_Ready (s : Snapshot) : bool :=
  if negb (sn_PoolManagerContacted s) then false else existsb hh_Healthy (sn_Hosts s).

Record Settings := {
  set_RunnerName : string; set_Namespace : string; set_Slots : Z; set_ShutdownTimeout : duration;
  set_Scheduler : SchedulerConfig; set_PoolManager : PoolManagerConfig }.
