(* ===== verification/Capacity.v ===== *)
(** * internal/scheduler/capacity.go and handle.go: Slots, Profiles, Handles

    [accounting] is the part of [impl] the Slots and the concurrency units
    live in; every method is one function on it, as it runs under [mu].  A
    Handle is a pointer: the heap maps the id a Handle got from [nextID] to
    its fields, and the Allocation map is the set of the ids it holds. *)
From S2P Require Import Prelude GoModel PoolTypes ConfigTypes SchedTypes.

(** ** handle.go *)

(** The heartbeat context of a Handle: no cancel function yet, running, or
    cancelled. *)
Inductive hb_context := HbNone | HbLive | HbCancelled.

Record handle := {
  h_id : Z; h_vmUID : string; h_profile : string; h_placement : Placement; h_alloc : Allocation;
  h_err : option error; h_done : bool; h_leaseGone : bool; h_stopHeartbeat : hb_context }.
#[export] Instance eta_handle : Eta handle :=
  fun r => {| h_id := h_id r; h_vmUID := h_vmUID r; h_profile := h_profile r; h_placement := h_placement r;
              h_alloc := h_alloc r; h_err := h_err r; h_done := h_done r; h_leaseGone := h_leaseGone r;
              h_stopHeartbeat := h_stopHeartbeat r |}.

Definition newHandle (id : Z) (alloc : Allocation) : handle :=
  {| h_id := id; h_vmUID := a_VMUID alloc; h_profile := a_Profile alloc; h_placement := a_Placement alloc;
     h_alloc := alloc; h_err := None; h_done := false; h_leaseGone := false; h_stopHeartbeat := HbNone |}.

(** [once.Do]: only the first cause is kept, and Done closes with it. *)
Definition fail (err : error) (h : handle) : handle :=
  if h_done h then h else h <| h_err := Some err |> <| h_done := true |>.

Definition setLease (l : Lease) (h : handle) : handle := h <| h_alloc := (h_alloc h) <| a_Lease := l |> |>.
Definition lease (h : handle) : Lease := a_Lease (h_alloc h).
Definition markLeaseGone (h : handle) : handle := h <| h_leaseGone := true |>.
Definition leaseIsGone (h : handle) : bool := h_leaseGone h.
Definition placementHost (h : handle) : string := pl_Host (h_placement h).

Definition stopHeartbeat (h : handle) : handle :=
  match h_stopHeartbeat h with HbNone => h | _ => h <| h_stopHeartbeat := HbCancelled |> end.

(** ** The accounting *)
Record accounting := {
  reservations : gmap Z time; allocations : gset Z; placements : gmap string Placement;
  profileUse : gmap string Z; profileFree : Z; drain : option Z; nextID : Z; achans : chans }.
#[export] Instance eta_accounting : Eta accounting :=
  fun r => {| reservations := reservations r; allocations := allocations r; placements := placements r;
              profileUse := profileUse r; profileFree := profileFree r; drain := drain r;
              nextID := nextID r; achans := achans r |}.

Definition newAccounting : accounting :=
  {| reservations := ∅; allocations := ∅; placements := ∅; profileUse := ∅;
     profileFree := (make_chan chans0).2; drain := None; nextID := 0; achans := (make_chan chans0).1 |}.

Definition slotsInUseLocked (a : accounting) : Z :=
  Z.of_nat (size (reservations a)) + Z.of_nat (size (allocations a)).

(** [warmAvailable]: the counts the Tracker reports, while the Pool Manager
    is healthy. *)
Definition warmAvailable (healthy : bool) (pools : list PoolAvailability) : Z :=
  if negb healthy then 0 else
  sumZ ((fun pa => if negb (pa_Declared pa) then 0
                   else if 0 <? Available (pa_Status pa) then Available (pa_Status pa) else 0) <$> pools).

Definition availableCapacityLocked (slots warm : Z) (a : accounting) : Z * option RefusalReason :=
  let free := slots - slotsInUseLocked a in
  if free <=? 0 then (0, Some RefusalNoFreeSlot)
  else if warm <=? 0 then (0, Some RefusalNoWarmMicroVM)
  else if warm <? free then (warm, None) else (free, None).

Definition grant (slots warm : Z) (now : time) (a : accounting) : accounting * (Reservation + option RefusalReason) :=
  let '(n, reason) := availableCapacityLocked slots warm a in
  if n <=? 0 then (a, inr reason)
  else
    let id := uint64 (nextID a + 1) in
    (a <| nextID := id |> <| reservations := <[id := now]> (reservations a) |>,
     inl {| res_ID := id; res_GrantedAt := now |}).

Definition ReleaseReservation (r : option Reservation) (a : accounting) : accounting :=
  match r with
  | None => a
  | Some r => a <| reservations := delete (res_ID r) (reservations a) |>
  end.

Definition convert (r : Reservation) (h : handle) (a : accounting) : accounting * bool :=
  match reservations a !! res_ID r with
  | None => (a, false)
  | Some _ =>
      ({| reservations := delete (res_ID r) (reservations a);
          allocations := {[h_id h]} ∪ allocations a;
          placements := <[h_vmUID h := h_placement h]> (placements a);
          profileUse := profileUse a; profileFree := profileFree a; drain := drain a;
          nextID := nextID a; achans := achans a |}, true)
  end.

Definition use_of (name : string) (a : accounting) : Z := default 0 (profileUse a !! name).

Definition releaseProfileLocked (name : string) (a : accounting) : accounting :=
  let use := if 1 <? use_of name a then <[name := use_of name a - 1]> (profileUse a)
             else delete name (profileUse a) in
  let '(cs, free) := make_chan (close_chan (profileFree a) (achans a)) in
  {| reservations := reservations a; allocations := allocations a; placements := placements a;
     profileUse := use; profileFree := free; drain := drain a; nextID := nextID a; achans := cs |}.

(** The last step of [finish]: whoever waits for the drain is released. *)
Definition closeDrain (a : accounting) : accounting :=
  match drain a with
  | Some c =>
      if bool_decide (allocations a = ∅)
      then a <| achans := close_chan c (achans a) |> <| drain := None |>
      else a
  | None => a
  end.

Definition finish (h : handle) (a : accounting) : accounting * bool :=
  if bool_decide (h_id h ∈ allocations a) then
    let a := a <| allocations := allocations a ∖ {[h_id h]} |>
               <| placements := delete (h_vmUID h) (placements a) |> in
    (closeDrain (releaseProfileLocked (h_profile h) a), true)
  else (a, false).

Definition drained (a : accounting) : accounting * Z :=
  if bool_decide (allocations a = ∅) then
    let '(cs, c) := make_chan (achans a) in (a <| achans := close_chan c cs |>, c)
  else
    match drain a with
    | Some c => (a, c)
    | None => let '(cs, c) := make_chan (achans a) in (a <| achans := cs |> <| drain := Some c |>, c)
    end.

Definition enterProfile (p : Profile) (a : accounting) : accounting * bool * Z :=
  let m := p_MaxConcurrency (pr_cfg p) in
  if (0 <? m) && (m <=? use_of (pr_Name p) a) then (a, false, profileFree a)
  else (a <| profileUse := <[pr_Name p := use_of (pr_Name p) a + 1]> (profileUse a) |>, true, profileFree a).

Definition leaveProfile (p : Profile) (a : accounting) : accounting := releaseProfileLocked (pr_Name p) a.

(** [waitOnPool] on its own map: the count after the change. *)
Definition waitOnPool (ref : PoolRef) (delta : Z) (waiting : gmap PoolRef Z) : gmap PoolRef Z * Z :=
  let n := default 0 (waiting !! ref) + delta in
  if n <=? 0 then (delete ref waiting, 0) else (<[ref := n]> waiting, n).

(** [drained] reads a closed channel in the idle case by making and closing
    one; [shutdown] drops every unconverted Reservation. *)
Definition dropReservations (a : accounting) : accounting := a <| reservations := ∅ |>.

(** * Lemmas on the Slot, Profile and drain accounting *)

(** ** Slots *)
Lemma size_delete_le (m : gmap Z time) k : (size (delete k m) <= size m)%nat.
Proof. apply map_subseteq_size, delete_subseteq. Qed.

Lemma slots_grant slots warm now a :
  slotsInUseLocked a <= slots -> slotsInUseLocked (grant slots warm now a).1 <= slots.
Proof.
  intros Hs. unfold grant, availableCapacityLocked.
  destruct (Z.leb_spec (slots - slotsInUseLocked a) 0); [done|].
  destruct (Z.leb_spec warm 0); [done|].
  assert (forall a', reservations a' = <[uint64 (nextID a + 1) := now]> (reservations a) ->
    allocations a' = allocations a -> slotsInUseLocked a' <= slots) as Hok.
  { intros a' E1 E2. unfold slotsInUseLocked in *. rewrite E1, E2, map_size_insert.
    destruct (reservations a !! _); unfold id; lia. }
  destruct (warm <? _); simpl.
  - destruct (Z.leb_spec warm 0); [lia|]. by apply Hok.
  - destruct (Z.leb_spec (slots - slotsInUseLocked a) 0); [lia|]. by apply Hok.
Qed.

Lemma slots_release r a : slotsInUseLocked (ReleaseReservation r a) <= slotsInUseLocked a.
Proof.
  destruct r as [r|]; [|done]. unfold slotsInUseLocked. simpl.
  pose proof (size_delete_le (reservations a) (res_ID r)). lia.
Qed.

Lemma size_union_singleton (x : Z) (X : gset Z) :
  x ∉ X -> size ({[x]} ∪ X) = S (size X).
Proof. intros Hx. rewrite size_union by set_solver. by rewrite size_singleton. Qed.

(** A conversion neither frees nor takes a Slot. *)
Lemma slots_convert r h a :
  h_id h ∉ allocations a -> slotsInUseLocked (convert r h a).1 = slotsInUseLocked a.
Proof.
  intros Hh. unfold convert. destruct (reservations a !! res_ID r) as [t|] eqn:Er; [|done].
  unfold slotsInUseLocked. simpl. rewrite size_union_singleton by done.
  rewrite map_size_delete, Er. pose proof (map_size_ne_0_lookup_2 (reservations a) (res_ID r)) as Hne.
  specialize (Hne (mk_is_Some _ _ Er)). unfold id in *. lia.
Qed.

Lemma slots_releaseProfile n a : slotsInUseLocked (releaseProfileLocked n a) = slotsInUseLocked a.
Proof. done. Qed.

Lemma closeDrain_fields a :
  reservations (closeDrain a) = reservations a /\ allocations (closeDrain a) = allocations a
  /\ profileUse (closeDrain a) = profileUse a /\ nextID (closeDrain a) = nextID a
  /\ placements (closeDrain a) = placements a /\ profileFree (closeDrain a) = profileFree a.
Proof. unfold closeDrain. destruct (drain a); [|done]. by destruct (bool_decide _). Qed.

(** What [finish] does to everything but the channels. *)
Lemma finish_fields h a :
  let '(a', ok) := finish h a in
  ok = bool_decide (h_id h ∈ allocations a) /\ nextID a' = nextID a /\ reservations a' = reservations a
  /\ allocations a' = allocations a ∖ {[h_id h]}
  /\ (ok = false -> a' = a)
  /\ (ok = true -> profileUse a' = profileUse (releaseProfileLocked (h_profile h) a)
        /\ placements a' = delete (h_vmUID h) (placements a)).
Proof.
  unfold finish. case_bool_decide as Hin.
  - destruct (closeDrain_fields (releaseProfileLocked (h_profile h)
      (a <| allocations := allocations a ∖ {[h_id h]} |> <| placements := delete (h_vmUID h) (placements a) |>)))
      as (-> & -> & -> & -> & -> & _). by split_and!.
  - split_and!; try done. set_solver.
Qed.

Lemma size_difference_singleton (x : Z) (X : gset Z) : x ∈ X -> size X = S (size (X ∖ {[x]})).
Proof. intros Hx. rewrite <-(size_union_singleton x) by set_solver. f_equal. by apply union_difference_singleton_L. Qed.

Lemma slots_finish h a :
  slotsInUseLocked (finish h a).1 = slotsInUseLocked a - (if (finish h a).2 then 1 else 0).
Proof.
  pose proof (finish_fields h a) as Hf. destruct (finish h a) as [a' ok].
  destruct Hf as (Hok & _ & Hr & Ha & Hf & _). unfold slotsInUseLocked. simpl. rewrite Hr, Ha.
  destruct ok; symmetry in Hok; bool_to_prop.
  - rewrite (size_difference_singleton (h_id h) (allocations a)) by done. lia.
  - replace (allocations a ∖ {[h_id h]}) with (allocations a) by set_solver. lia.
Qed.

Lemma slots_drained a : slotsInUseLocked (drained a).1 = slotsInUseLocked a.
Proof. unfold drained. case_bool_decide; [done|]. by destruct (drain a). Qed.

Lemma drained_fields a :
  nextID (drained a).1 = nextID a /\ allocations (drained a).1 = allocations a
  /\ profileUse (drained a).1 = profileUse a /\ reservations (drained a).1 = reservations a.
Proof. unfold drained. case_bool_decide; [done|]. by destruct (drain a). Qed.

(** ** Concurrency units *)
Definition b2z (b : bool) : Z := if b then 1 else 0.

Lemma use_enter p a :
  let '(a', entered, _) := enterProfile p a in
  forall n, use_of n a' = use_of n a + b2z (entered && bool_decide (n = pr_Name p)).
Proof.
  unfold enterProfile. destruct (_ && _); simpl; intros n; [lia|].
  unfold use_of, b2z. simpl. case_bool_decide as Hn.
  - subst. rewrite lookup_insert_eq. simpl. done.
  - rewrite lookup_insert_ne by done. lia.
Qed.

Lemma use_releaseProfile name n a :
  1 <= use_of name a ->
  use_of n (releaseProfileLocked name a) = use_of n a - b2z (bool_decide (n = name)).
Proof.
  intros Hu. unfold releaseProfileLocked, use_of, b2z in *. simpl.
  case_bool_decide as Hn; [subst|].
  - destruct (Z.ltb_spec 1 (default 0 (profileUse a !! name))).
    + rewrite lookup_insert_eq. simpl. lia.
    + rewrite lookup_delete_eq. simpl. lia.
  - destruct (1 <? _); [rewrite lookup_insert_ne by done|rewrite lookup_delete_ne by done]; lia.
Qed.

(** The limit holds after every entry. *)
Lemma use_enter_limit p a a' free :
  enterProfile p a = (a', true, free) -> 0 < p_MaxConcurrency (pr_cfg p) ->
  use_of (pr_Name p) a' <= p_MaxConcurrency (pr_cfg p).
Proof.
  intros He Hm. pose proof (use_enter p a) as Hu. rewrite He in Hu. specialize (Hu (pr_Name p)).
  rewrite bool_decide_true in Hu by done. simpl in Hu. rewrite Hu.
  unfold enterProfile in He. destruct (_ && _) eqn:E; [done|].
  apply andb_false_iff in E as [E|E]; bool_to_prop; lia.
Qed.

(** ** Channels *)
Definition acct_ok (a : accounting) : Prop :=
  chans_ok (achans a) /\ open_chan (achans a) (profileFree a)
  /\ match drain a with Some c => open_chan (achans a) c /\ c <> profileFree a | None => True end.

Lemma acct_ok_new : acct_ok newAccounting.
Proof. split_and!; simpl; [split; simpl; set_solver| |done]. split; simpl; [lia|set_solver]. Qed.

Lemma acct_ok_frame a a' :
  acct_ok a -> achans a' = achans a -> profileFree a' = profileFree a -> drain a' = drain a -> acct_ok a'.
Proof. unfold acct_ok. by intros H -> -> ->. Qed.

Lemma make_chan_fresh cs c : open_chan cs c -> c <> (make_chan cs).2.
Proof. intros [Hlt _]. simpl. lia. Qed.

Lemma acct_ok_releaseProfile n a : acct_ok a -> acct_ok (releaseProfileLocked n a).
Proof.
  intros (H1 & H2 & H3). unfold releaseProfileLocked. simpl. split_and!; simpl.
  - by apply (chans_ok_make (close_chan _ _)), chans_ok_close.
  - apply (open_chan_make (close_chan (profileFree a) (achans a))). by apply chans_ok_close.
  - destruct (drain a) as [c|]; [|done]. destruct H3 as [Hc Hne].
    pose proof (open_chan_close_ne _ _ _ Hc Hne) as Hc'. split.
    + by apply (open_chan_make_ne (close_chan _ _)).
    + rewrite close_chan_next. destruct Hc. lia.
Qed.

Lemma acct_ok_closeDrain a : acct_ok a -> acct_ok (closeDrain a).
Proof.
  intros (H1 & H2 & H3). unfold closeDrain. destruct (drain a) as [c|] eqn:Ed; [|by unfold acct_ok; rewrite Ed].
  destruct H3 as [Hc Hne]. case_bool_decide; [|by unfold acct_ok; rewrite Ed].
  split_and!; simpl; [by apply chans_ok_close|by apply open_chan_close_ne|done].
Qed.

Lemma acct_ok_finish h a : acct_ok a -> acct_ok (finish h a).1.
Proof.
  intros Ha. unfold finish. case_bool_decide; [|done]. simpl.
  apply acct_ok_closeDrain, acct_ok_releaseProfile. by apply (acct_ok_frame a).
Qed.

Lemma acct_ok_drained a : acct_ok a -> acct_ok (drained a).1.
Proof.
  intros Ha. pose proof Ha as (H1 & H2 & H3). unfold drained. case_bool_decide.
  - pose proof (open_chan_make _ H1) as Ho. pose proof (make_chan_fresh _ _ H2) as Hf. simpl in *.
    split_and!; simpl.
    + by apply chans_ok_close; [apply (chans_ok_make (achans a))|].
    + apply open_chan_close_ne; [by apply (open_chan_make_ne (achans a))|done].
    + destruct (drain a) as [c|]; [|done]. destruct H3 as [Hc Hne]. split; [|done].
      apply open_chan_close_ne; [by apply (open_chan_make_ne (achans a))|]. by apply (make_chan_fresh (achans a)).
  - destruct (drain a) as [c|] eqn:Ed; [done|]. simpl. split_and!; simpl.
    + by apply (chans_ok_make (achans a)).
    + by apply (open_chan_make_ne (achans a)).
    + split; [by apply (open_chan_make (achans a))|]. intros He. by apply (make_chan_fresh (achans a) (profileFree a)).
Qed.

Lemma acct_ok_convert r h a : acct_ok a -> acct_ok (convert r h a).1.
Proof. intros Ha. unfold convert. destruct (_ !! _); [by apply (acct_ok_frame a)|done]. Qed.

Lemma acct_ok_grant slots warm now a : acct_ok a -> acct_ok (grant slots warm now a).1.
Proof.
  intros Ha. unfold grant. destruct (availableCapacityLocked slots warm a) as [n reason].
  destruct (n <=? 0); [done|]. by apply (acct_ok_frame a).
Qed.

Lemma acct_ok_enter p a : acct_ok a -> acct_ok (enterProfile p a).1.1.
Proof. intros Ha. unfold enterProfile. destruct (_ && _); [done|]. by apply (acct_ok_frame a). Qed.
