(* ===== verification/SchedSys.v ===== *)
(** * The Scheduler's concurrency: allocations, leases and their ends

    Every call on the Scheduler is a thread, cut at the points where it lets
    go of a lock or waits for something outside: one step of a thread is one
    critical section of allocate.go, release.go, heartbeat.go, health.go or
    agentprobe.go, and the threads interleave freely.  What comes from
    outside (the Pool Manager's answers, the clock, cancelled contexts) is the
    [outcome] of the step.  Three ghost lists record the ids of the Leases
    that were claimed, that were handed to [releaseLease], and that were
    dropped because they no longer exist. *)
From S2P Require Import Prelude GoModel PoolTypes ConfigTypes SchedTypes Capacity.

(** allocate.go: [leaseExpiry]. *)
Definition leaseExpiry (p : Profile) : duration :=
  or_default (ps_HeartbeatExpiry (p_Pool (pr_cfg p))) DefaultHeartbeatExpiry.

(** The Lease [allocated] builds from a claim. *)
Definition claimLease (p : Profile) (c : Claim) (claimedAt : time) : Lease :=
  {| l_ID := LeaseID c; l_Pool := pr_PoolRef p; l_ExpiresAt := time_Add claimedAt (leaseExpiry p);
     l_LastHeartbeatAt := 0 |}.

Definition mkAllocation (r : Reservation) (job : JobInfo) (p : Profile) (c : Claim) (claimedAt : time)
    (pl : Placement) : Allocation :=
  {| a_JobID := job_ID job; a_Profile := pr_Name p; a_VMUID := VMUID c; a_Lease := claimLease p c claimedAt;
     a_Placement := pl; a_Host := claim_Host c; a_NetworkInterfaces := NetworkInterfaces c;
     a_ReservationID := res_ID r; a_ClaimedAt := claimedAt |}.

Inductive thread :=
  (* Reserve, past its checks *)
  | TGrant (warm : Z)
  (* Allocate: waiting for a unit, claiming, claimed, resolved, converting, starting *)
  | TAwait (r : Reservation) (job : JobInfo) (p : Profile)
  | TClaim (r : Reservation) (job : JobInfo) (p : Profile)
  | TClaimed (r : Reservation) (job : JobInfo) (p : Profile) (c : Claim) (claimedAt : time)
  | TResolved (r : Reservation) (p : Profile) (alloc : Allocation)
  | TConvert (r : Reservation) (p : Profile) (hid : Z)
  | TStart (hid : Z) | TStarted (hid : Z)
  | TLeave (p : Profile)
  (* the ends of an Allocation *)
  | TRelease (hid : Z) | TStop (hid : Z) | TGone (hid : Z)
  | TAbort (hid : Z) (cause : error) | TEnd (hid : Z)
  | TRetain (hid : Z) | TRetainGone (hid : Z) | TRetained (hid : Z)
  | TReleasing (l : Lease)
  (* the keep-alive loop, CheckLease and leaseLost *)
  | TBeat (hid : Z)
  | TCheck (hid : Z) | TChecked (hid : Z) (l : Lease) | TCheckLost (hid : Z) (cause : error)
  | TLost (hid : Z) (cause : error) | TLostFail (hid : Z) (cause : error) | TLostFinish (hid : Z).

Inductive outcome :=
  | OGo | OFail | ONow (now : time)
  | OClaim (c : Claim) (now : time) | OPlaced (pl : Placement)
  | OBeat (expiresAt now : time) | ONotFound (answer : error) | OBeatFailed (now : time).

Record core := {
  acct : accounting; heap : gmap Z handle; bgClosed : bool; bgCancelled : bool; slots : Z;
  claimed : list string; released : list string; lost : list string }.
#[export] Instance eta_core : Eta core :=
  fun r => {| acct := acct r; heap := heap r; bgClosed := bgClosed r; bgCancelled := bgCancelled r;
              slots := slots r; claimed := claimed r; released := released r; lost := lost r |}.

(** A method of a Handle, through its pointer. *)
Definition on_handle (hid : Z) (f : handle -> handle) (c : core) : core := c <| heap := alter f hid (heap c) |>.

(** The context of the keep-alive loop is done. *)
Definition hb_done (h : handle) (c : core) : bool :=
  bgCancelled c || match h_stopHeartbeat h with HbLive => false | _ => true end.

Definition leaseLostErr (id why : string) : error := EWrap ("lease " +:+ id +:+ why) [ESentinel ErrLeaseLost].

(** [leaseGone] quotes the answer and wraps only [ErrLeaseLost]. *)
Definition leaseGone (leaseID : string) (answer : error) : error := leaseLostErr leaseID " is gone".
Definition leaseExpired (l : Lease) : error := leaseLostErr (l_ID l) " expired without a successful heartbeat".

(** [finish] for a thread that ends an Allocation and goes on with [won] when
    its call was the one that ended it. *)
Definition finish_then (h : handle) (c : core) (won : list thread) : core * list thread :=
  let '(a, ok) := finish h (acct c) in (c <| acct := a |>, if ok then won else []).

Definition with_handle (hid : Z) (c : core) (k : handle -> core * list thread) : core * list thread :=
  match heap c !! hid with Some h => k h | None => (c, []) end.

(** allocate.go, [allocated]: a new Handle under the lock, ... *)
Definition newHandleStep (r : Reservation) (p : Profile) (alloc : Allocation) (c : core) : core * list thread :=
  let id := uint64 (nextID (acct c) + 1) in
  (c <| acct := (acct c) <| nextID := id |> |> <| heap := <[id := newHandle id alloc]> (heap c) |>,
   [TConvert r p id]).

(** ... then [convert], or [abandon] and [leaveProfile]. *)
Definition convertStep (r : Reservation) (p : Profile) (hid : Z) (c : core) : core * list thread :=
  with_handle hid c (fun h =>
    let '(a, ok) := convert r h (acct c) in
    (c <| acct := a |>, if ok then [TStart hid] else [TReleasing (lease h); TLeave p])).

(** [startHeartbeat], past the store of the cancel function: [inBackground]
    refuses once the background is closed. *)
Definition startHeartbeat (hid : Z) (c : core) : core * list thread :=
  if bgClosed c then (on_handle hid stopHeartbeat c, []) else (c, [TBeat hid]).

(** release.go: [Release] up to [finish], ... *)
Definition releaseStep (hid : Z) (c : core) : core * list thread :=
  with_handle hid c (fun h =>
    let '(a, ok) := finish h (acct c) in
    if ok then (c <| acct := a |>, [TStop hid]) else (on_handle hid stopHeartbeat c, [])).

(** ... and, as in [endAllocation] and [retainThenRelease], from
    [leaseIsGone] on. *)
Definition goneStep (hid : Z) (c : core) : core * list thread :=
  with_handle hid c (fun h =>
    if leaseIsGone h then (c <| lost := l_ID (lease h) :: lost c |>, []) else (c, [TReleasing (lease h)])).

(** [Retain] with the option enabled: [finish], ... *)
Definition retainStep (hid : Z) (c : core) : core * list thread :=
  with_handle hid c (fun h =>
    let '(a, ok) := finish h (acct c) in
    if ok then (c <| acct := a |>, [TRetainGone hid]) else (on_handle hid stopHeartbeat c, [])).

(** ... [leaseIsGone] and [inBackground]. *)
Definition retainGoneStep (hid : Z) (c : core) : core * list thread :=
  with_handle hid c (fun h =>
    if leaseIsGone h then ((on_handle hid stopHeartbeat c) <| lost := l_ID (lease h) :: lost c |>, [])
    else if bgClosed c then (on_handle hid stopHeartbeat c, [TReleasing (lease h)])
    else (c, [TRetained hid])).

(** heartbeat.go: one round of [heartbeatLoop].  The inputs are the wait
    ending ([OGo]; the loop ends when the Handle is done), the check of the
    expiry ([ONow]) and the answer of the Heartbeat call. *)
Definition beatStep (hid : Z) (o : outcome) (c : core) : core * list thread :=
  with_handle hid c (fun h =>
    if hb_done h c then (c, []) else
    match o with
    | OGo => (c, if h_done h then [] else [TBeat hid])
    | ONow now => (c, [if time_Before now (l_ExpiresAt (lease h)) then TBeat hid
                       else TLost hid (leaseExpired (lease h))])
    | OBeat e now =>
        (on_handle hid (fun h => setLease ((lease h) <| l_ExpiresAt := e |> <| l_LastHeartbeatAt := now |>) h) c,
         [TBeat hid])
    | ONotFound answer => (c, [TLost hid (leaseGone (l_ID (lease h)) answer)])
    | _ => (c, [TBeat hid])
    end).

(** [CheckLease]: up to its Heartbeat call, ... *)
Definition checkStep (hid : Z) (c : core) : core * list thread :=
  with_handle hid c (fun h =>
    if h_done h then (c, [])
    else if bool_decide (hid ∈ allocations (acct c)) then (c, [TChecked hid (lease h)]) else (c, [])).

(** ... and from its answer on, with the Lease read before the call. *)
Definition checkedStep (hid : Z) (l : Lease) (o : outcome) (c : core) : core * list thread :=
  with_handle hid c (fun h =>
    if negb (bool_decide (hid ∈ allocations (acct c))) then (c, []) else
    match o with
    | OBeat e now =>
        (on_handle hid (setLease (l <| l_ExpiresAt := e |> <| l_LastHeartbeatAt := now |>)) c, [])
    | ONotFound answer => (c, [TCheckLost hid (leaseGone (l_ID l) answer)])
    | OBeatFailed now => (c, if time_Before now (l_ExpiresAt l) then [] else [TCheckLost hid (leaseExpired l)])
    | _ => (c, [])
    end).

(** [leaseLost], past [markLeaseGone] and [fail]: the Allocation is dropped
    and its Lease is not released. *)
Definition leaseLostStep (hid : Z) (c : core) : core * list thread :=
  with_handle hid c (fun h =>
    let '(a, ok) := finish h (acct c) in
    if ok then (c <| acct := a |> <| lost := l_ID (lease h) :: lost c |>, []) else (c <| acct := a |>, [])).

(** One critical section of a thread. *)
Definition tstep (t : thread) (o : outcome) (c : core) : core * list thread :=
  match t, o with
  | TGrant warm, ONow now => (c <| acct := (grant (slots c) warm now (acct c)).1 |>, [])
  | TAwait r job p, OGo =>
      let '(a, entered, _) := enterProfile p (acct c) in
      (c <| acct := a |>, [if entered then TClaim r job p else TAwait r job p])
  | TAwait r job p, OFail => (c, [])
  | TClaim r job p, OClaim cl now => (c <| claimed := LeaseID cl :: claimed c |>, [TClaimed r job p cl now])
  | TClaim r job p, OFail => (c, [TLeave p])
  | TClaimed r job p cl now, OPlaced pl => (c, [TResolved r p (mkAllocation r job p cl now pl)])
  | TClaimed r job p cl now, OFail => (c, [TReleasing (claimLease p cl now); TLeave p])
  | TResolved r p alloc, _ => newHandleStep r p alloc c
  | TConvert r p hid, _ => convertStep r p hid c
  | TStart hid, _ => (on_handle hid (fun h => h <| h_stopHeartbeat := HbLive |>) c, [TStarted hid])
  | TStarted hid, _ => startHeartbeat hid c
  | TLeave p, _ => (c <| acct := leaveProfile p (acct c) |>, [])
  | TRelease hid, _ => releaseStep hid c
  | TStop hid, _ => (on_handle hid stopHeartbeat c, [TGone hid])
  | TGone hid, _ => goneStep hid c
  | TAbort hid cause, _ => (on_handle hid (fail cause) c, [TEnd hid])
  | TEnd hid, _ => with_handle hid c (fun h => finish_then h c [TStop hid])
  | TRetain hid, _ => retainStep hid c
  | TRetainGone hid, _ => retainGoneStep hid c
  | TRetained hid, _ => (c, [TStop hid])
  | TReleasing l, _ => (c <| released := l_ID l :: released c |>, [])
  | TBeat hid, o => beatStep hid o c
  | TCheck hid, _ => checkStep hid c
  | TChecked hid l, o => checkedStep hid l o c
  | TCheckLost hid cause, _ => with_handle hid c (fun h => (c, if h_done h then [] else [TLost hid cause]))
  | TLost hid cause, _ => (on_handle hid markLeaseGone c, [TLostFail hid cause])
  | TLostFail hid cause, _ => (on_handle hid (fail cause) c, [TLostFinish hid])
  | TLostFinish hid, _ => leaseLostStep hid c
  | t, _ => (c, [t])
  end.

(** Unfolds the steps of a thread. *)
Ltac unfold_steps := unfold newHandleStep, convertStep, startHeartbeat, releaseStep, goneStep, retainStep, retainGoneStep,
  beatStep, checkStep, checkedStep, leaseLostStep, with_handle, finish_then.
Ltac unfold_steps_in H := unfold newHandleStep, convertStep, startHeartbeat, releaseStep, goneStep, retainStep, retainGoneStep,
  beatStep, checkStep, checkedStep, leaseLostStep, with_handle, finish_then in H.

(** ** The system *)
Record sys := { cor : core; thr : list thread }.

Inductive act :=
  | AReserve (warm : Z)
  | AReleaseReservation (r : Reservation)
  | AAllocate (r : Reservation) (job : JobInfo) (p : Profile)
  | ARelease (hid : Z) | ARetain (hid : Z) | ACheckLease (hid : Z)
  | AAbort (hid : Z) (cause : error)
  | AHostUnhealthy (host : string) | AAbortRunning
  | ADropReservations | ADrained | ACloseBackground | ACancelBackground
  | AStep (i : nat) (o : outcome).

(** [liveHandles] and the Handles of a Host. *)
Definition liveHandles (c : core) : list Z := elements (allocations (acct c)).
Definition on_host (host : string) (c : core) (hid : Z) : bool :=
  match heap c !! hid with Some h => String.eqb (placementHost h) host | None => false end.

Definition known (hid : Z) (s : sys) (t : thread) : sys :=
  match heap (cor s) !! hid with Some _ => {| cor := cor s; thr := t :: thr s |} | None => s end.

Definition sstep (s : sys) (a : act) : sys :=
  let c := cor s in
  match a with
  | AReserve warm => {| cor := c; thr := TGrant warm :: thr s |}
  | AReleaseReservation r => {| cor := c <| acct := ReleaseReservation (Some r) (acct c) |>; thr := thr s |}
  | AAllocate r job p => {| cor := c; thr := TAwait r job p :: thr s |}
  | ARelease hid => known hid s (TRelease hid)
  | ARetain hid => known hid s (TRetain hid)
  | ACheckLease hid => known hid s (TCheck hid)
  | AAbort hid cause => known hid s (TAbort hid cause)
  | AHostUnhealthy host =>
      {| cor := c; thr := ((fun hid => TAbort hid (EWrap ("host " +:+ host) [ESentinel ErrHostUnhealthy])) <$>
           filter (fun hid => on_host host c hid = true) (liveHandles c)) ++ thr s |}
  | AAbortRunning =>
      {| cor := c; thr := ((fun hid => TAbort hid (ESentinel ErrShutdown)) <$> liveHandles c) ++ thr s |}
  | ADropReservations => {| cor := c <| acct := dropReservations (acct c) |>; thr := thr s |}
  | ADrained => {| cor := c <| acct := (drained (acct c)).1 |>; thr := thr s |}
  | ACloseBackground => {| cor := c <| bgClosed := true |>; thr := thr s |}
  | ACancelBackground => {| cor := c <| bgCancelled := true |>; thr := thr s |}
  | AStep i o =>
      match thr s !! i with
      | Some t => let '(c', ts) := tstep t o c in {| cor := c'; thr := ts ++ delete i (thr s) |}
      | None => s
      end
  end.

Definition sys0 (n : Z) : sys :=
  {| cor := {| acct := newAccounting; heap := ∅; bgClosed := false; bgCancelled := false; slots := n;
               claimed := []; released := []; lost := [] |}; thr := [] |}.

Definition srun (n : Z) (acts : list act) : sys := fold_left sstep acts (sys0 n).

(** ** A scenario the witnesses run *)
Definition demo_cfg (name : string) (limit : Z) : ProfileConfig :=
  {| p_Name := name; p_Arch := "amd64"; p_VCPU := 2; p_MemoryMB := 2048;
     p_Kernel := {| k_Image := "k"; k_Filename := ""; k_Cmdline := ∅ |}; p_Initrd := None; p_RootFS := "r";
     p_AdditionalVolumes := []; p_Provider := ""; p_UserData := ""; p_Shell := ""; p_BuildsDir := ""; p_CacheDir := ""; p_HelperPath := "";
     p_Images := []; p_ImageGlobs := [];
     p_Default := true; p_Transport := zeroTransport; p_User := ""; p_ReadyTimeout := 0;
     p_HostSelector := ∅; p_MaxConcurrency := limit;
     p_Pool := {| ps_Size := 2; ps_Name := ""; ps_Namespace := ""; ps_Strategy := ""; ps_MinSize := None;
                  ps_CreateHooks := []; ps_PreLeaseHooks := []; ps_HookFailurePolicy := "";
                  ps_HeartbeatInterval := 0; ps_HeartbeatExpiry := 30 |} |}.
Definition demo_p : Profile := {| pr_cfg := demo_cfg "small" 1; pr_PoolRef := {| ref_Name := "small"; ref_Namespace := "n" |} |}.
Definition demo_r (i : Z) : Reservation := {| res_ID := i; res_GrantedAt := 0 |}.
Definition demo_claim (l : string) : Claim :=
  {| LeaseID := l; VMUID := l; NetworkInterfaces := []; claim_Host := {| hr_Name := "h"; hr_Address := "" |} |}.
Definition demo_job : JobInfo := {| job_ID := 7; job_Image := "" |}.
Definition demo_pl : Placement := {| pl_Host := "h"; pl_Source := PlacementFromClaim; pl_ResolvedAt := 1 |}.

(** Reserve, allocate (handle 2), start the keep-alive loop. *)
Definition demo_allocate : list act :=
  [AReserve 1; AStep 0 (ONow 0); AAllocate (demo_r 1) demo_job demo_p; AStep 0 OGo;
   AStep 0 (OClaim (demo_claim "L1") 100); AStep 0 (OPlaced demo_pl); AStep 0 OGo; AStep 0 OGo;
   AStep 0 OGo; AStep 0 OGo].
(** ... and release it. *)
Definition demo_release : list act := demo_allocate ++ [ARelease 2; AStep 0 OGo; AStep 0 OGo; AStep 0 OGo; AStep 0 OGo; AStep 0 OGo].

