(* ===== verification/SchedInv.v ===== *)
(** * The invariant of the Scheduler's threads

    Every Lease and every concurrency unit is counted: a thread or a live
    Allocation that owns one has weight one, everything else weight zero, and
    each critical section moves weight without making or losing any. *)
From S2P Require Import Prelude GoModel PoolTypes ConfigTypes SchedTypes Capacity SchedSys.

(** ** Owners *)
Definition lease_id (h : handle) : string := l_ID (lease h).

(** The Lease a thread has taken responsibility for. *)
Definition owner_lease (hp : gmap Z handle) (t : thread) : option string :=
  match t with
  | TClaimed _ _ _ c _ => Some (LeaseID c)
  | TResolved _ _ alloc => Some (l_ID (a_Lease alloc))
  | TConvert _ _ hid | TStop hid | TGone hid | TRetainGone hid | TRetained hid => lease_id <$> hp !! hid
  | TReleasing l => Some (l_ID l)
  | _ => None
  end.

(** The Profile whose concurrency unit a thread holds. *)
Definition owner_unit (t : thread) : option string :=
  match t with
  | TClaim _ _ p | TClaimed _ _ p _ _ | TResolved _ p _ | TConvert _ p _ | TLeave p => Some (pr_Name p)
  | _ => None
  end.

(** The Handle a thread is about to make an Allocation of. *)
Definition pending (t : thread) : option Z := match t with TConvert _ _ hid => Some hid | _ => None end.

Definition thread_handle (t : thread) : option Z :=
  match t with
  | TConvert _ _ hid | TStart hid | TStarted hid | TRelease hid | TStop hid | TGone hid | TAbort hid _ | TEnd hid
  | TRetain hid | TRetainGone hid | TRetained hid | TBeat hid | TCheck hid | TChecked hid _ | TCheckLost hid _
  | TLost hid _ | TLostFail hid _ | TLostFinish hid => Some hid
  | _ => None
  end.

(** What a thread knows of the Handle it refers to never changes. *)
Definition thread_ok (hp : gmap Z handle) (t : thread) : Prop :=
  (forall hid, thread_handle t = Some hid -> is_Some (hp !! hid))
  /\ match t with
     | TConvert _ p hid => h_profile <$> hp !! hid = Some (pr_Name p)
     | TResolved _ p alloc => a_Profile alloc = pr_Name p
     | TChecked hid l => lease_id <$> hp !! hid = Some (l_ID l)
     | _ => True
     end.

(** ** Counting *)
Definition wt {A} `{EqDecision A} (x : A) (o : option A) : Z := b2z (bool_decide (o = Some x)).

Lemma wt_some {A} `{EqDecision A} (x y : A) : wt x (Some y) = b2z (bool_decide (y = x)).
Proof. unfold wt. f_equal. by apply bool_decide_ext; split; [intros [= ->]|intros ->]. Qed.

Lemma wt_none {A} `{EqDecision A} (x : A) : wt x None = 0.
Proof. done. Qed.

Lemma wt_range {A} `{EqDecision A} (x : A) o : 0 <= wt x o <= 1.
Proof. unfold wt, b2z. case_bool_decide; lia. Qed.

Definition cnt (L : string) (l : list string) : Z := sumZ ((fun x => b2z (bool_decide (x = L))) <$> l).
Definition tsum (w : thread -> Z) (l : list thread) : Z := sumZ (w <$> l).
Definition asum (v : handle -> Z) (hp : gmap Z handle) (X : gset Z) : Z :=
  sumZ ((fun k => match hp !! k with Some h => v h | None => 0 end) <$> elements X).

Definition vl (L : string) (h : handle) : Z := b2z (bool_decide (lease_id h = L)).
Definition vu (n : string) (h : handle) : Z := b2z (bool_decide (h_profile h = n)).

Lemma cnt_cons L x l : cnt L (x :: l) = b2z (bool_decide (x = L)) + cnt L l.
Proof. done. Qed.

Lemma tsum_app w a b : tsum w (a ++ b) = tsum w a + tsum w b.
Proof. unfold tsum. by rewrite fmap_app, sumZ_app. Qed.

Lemma tsum_delete w l i t : l !! i = Some t -> tsum w (delete i l) = tsum w l - w t.
Proof.
  intros Hi. assert (tsum w l = w t + tsum w (delete i l)); [|lia].
  unfold tsum. rewrite (delete_Permutation l i t Hi) at 1. done.
Qed.

Lemma tsum_nonneg w l : (forall t, 0 <= w t) -> 0 <= tsum w l.
Proof. intros Hw. apply sumZ_nonneg, Forall_fmap, Forall_forall. intros t _. apply Hw. Qed.

Lemma asum_nonneg v hp X : (forall h, 0 <= v h) -> 0 <= asum v hp X.
Proof.
  intros Hv. apply sumZ_nonneg, Forall_fmap, Forall_forall. intros k _. simpl. by destruct (hp !! k).
Qed.

Lemma asum_add v hp X k h : k ∉ X -> hp !! k = Some h -> asum v hp ({[k]} ∪ X) = v h + asum v hp X.
Proof.
  intros Hk Hh. unfold asum. rewrite elements_union_singleton by done. simpl. by rewrite Hh.
Qed.

Lemma asum_del v hp X k h : k ∈ X -> hp !! k = Some h -> asum v hp (X ∖ {[k]}) = asum v hp X - v h.
Proof.
  intros Hk Hh. rewrite (union_difference_singleton_L k X Hk) at 2.
  rewrite (asum_add v hp (X ∖ {[k]}) k h) by set_solver. lia.
Qed.

(** ** Handles change, but not what they are about *)
Definition static (h : handle) : Z * string * string * string := (h_id h, lease_id h, h_profile h, h_vmUID h).
Definition static_le (hp hp' : gmap Z handle) : Prop :=
  forall k h, hp !! k = Some h -> exists h', hp' !! k = Some h' /\ static h' = static h.

Lemma static_le_refl hp : static_le hp hp.
Proof. intros k h Hk. eauto. Qed.

Lemma static_le_alter hp f k : (forall h, hp !! k = Some h -> static (f h) = static h) -> static_le hp (alter f k hp).
Proof.
  intros Hf j h Hj. destruct (decide (k = j)) as [->|].
  - exists (f h). rewrite lookup_alter_eq, Hj. split; [done|by apply Hf].
  - exists h. by rewrite lookup_alter_ne.
Qed.

Lemma static_le_insert hp k h : hp !! k = None -> static_le hp (<[k := h]> hp).
Proof. intros Hn j x Hj. exists x. split; [|done]. rewrite lookup_insert_ne by congruence. done. Qed.

Lemma static_le_lookup {A} (f : handle -> A) hp hp' k :
  static_le hp hp' -> (forall h h', static h' = static h -> f h' = f h) -> is_Some (hp !! k) ->
  f <$> hp' !! k = f <$> hp !! k.
Proof.
  intros Hs Hf [h Hh]. destruct (Hs k h Hh) as (h' & Hh' & Hst). rewrite Hh, Hh'. simpl. f_equal. by apply Hf.
Qed.

Lemma static_lease h h' : static h' = static h -> lease_id h' = lease_id h.
Proof. unfold static. congruence. Qed.
Lemma static_profile h h' : static h' = static h -> h_profile h' = h_profile h.
Proof. unfold static. congruence. Qed.

Lemma thread_ok_mono hp hp' t : static_le hp hp' -> thread_ok hp t -> thread_ok hp' t.
Proof.
  intros Hs [H1 H2]. split.
  - intros hid Hid. destruct (H1 hid Hid) as [h Hh]. destruct (Hs hid h Hh) as (h' & -> & _). eauto.
  - destruct t; try done; destruct (H1 _ eq_refl) as [h Hh].
    + rewrite (static_le_lookup _ hp); eauto using static_profile.
    + rewrite (static_le_lookup _ hp); eauto using static_lease.
Qed.

Lemma owner_lease_mono hp hp' t : static_le hp hp' -> thread_ok hp t -> owner_lease hp' t = owner_lease hp t.
Proof.
  intros Hs [H1 _].
  destruct t; simpl; try done; apply static_le_lookup; eauto using static_lease.
Qed.

Lemma tsum_owner_mono hp hp' L l :
  static_le hp hp' -> Forall (thread_ok hp) l ->
  tsum (fun t => wt L (owner_lease hp' t)) l = tsum (fun t => wt L (owner_lease hp t)) l.
Proof.
  intros Hs Hl. unfold tsum. f_equal. apply list_fmap_ext. intros i t Ht. simpl.
  rewrite (owner_lease_mono hp hp'); [done|done|]. by eapply Forall_lookup_1.
Qed.

Lemma asum_mono v hp hp' X :
  static_le hp hp' -> (forall h h', static h' = static h -> v h' = v h) ->
  (forall k, k ∈ X -> is_Some (hp !! k)) -> asum v hp' X = asum v hp X.
Proof.
  intros Hs Hv HX. unfold asum. f_equal. apply list_fmap_ext. intros i k Hk.
  assert (k ∈ X) as [h Hh]%HX by (apply elem_of_elements; by eapply list_elem_of_lookup_2).
  destruct (Hs k h Hh) as (h' & Hh' & Hst). rewrite Hh, Hh'. by apply Hv.
Qed.

Lemma vl_static L h h' : static h' = static h -> vl L h' = vl L h.
Proof. intros H. unfold vl. by rewrite (static_lease h h' H). Qed.
Lemma vu_static n h h' : static h' = static h -> vu n h' = vu n h.
Proof. intros H. unfold vu. by rewrite (static_profile h h' H). Qed.

(** ** The invariant *)
Abbreviation leases hp L l := (tsum (fun t => wt L (owner_lease hp t)) l) (only parsing).
Abbreviation units m l := (tsum (fun t => wt m (owner_unit t)) l) (only parsing).
Abbreviation pendings k l := (tsum (fun t => wt k (pending t)) l) (only parsing).
Abbreviation live c := (allocations (acct c)) (only parsing).

Record inv (n : Z) (s : sys) : Prop := {
  iv_next : 0 <= nextID (acct (cor s)) <= n;
  iv_heap : forall k h, heap (cor s) !! k = Some h -> h_id h = k /\ k <= nextID (acct (cor s));
  iv_alloc : forall k, k ∈ live (cor s) -> is_Some (heap (cor s) !! k);
  iv_thr : Forall (thread_ok (heap (cor s))) (thr s);
  iv_pend : forall k, pendings k (thr s) + b2z (bool_decide (k ∈ live (cor s))) <= 1;
  iv_lease : forall L, cnt L (claimed (cor s)) = leases (heap (cor s)) L (thr s)
    + asum (vl L) (heap (cor s)) (live (cor s)) + cnt L (released (cor s)) + cnt L (lost (cor s));
  iv_use : forall m, use_of m (acct (cor s)) = units m (thr s) + asum (vu m) (heap (cor s)) (live (cor s));
  iv_slots : slotsInUseLocked (acct (cor s)) <= slots (cor s);
  iv_acct : acct_ok (acct (cor s))
}.

(** A step that replaces the threads [olds] by [ts] and the core [c] by [c'],
    moving weight without making or losing any. *)
Record move (n : Z) (c : core) (olds : list thread) (c' : core) (ts : list thread) : Prop := {
  mv_next : 0 <= nextID (acct c') <= n;
  mv_heap : forall k h, heap c' !! k = Some h -> h_id h = k /\ k <= nextID (acct c');
  mv_alloc : forall k, k ∈ live c' -> is_Some (heap c' !! k);
  mv_static : static_le (heap c) (heap c');
  mv_thr : Forall (thread_ok (heap c')) ts;
  mv_pend : forall k,
    pendings k ts + b2z (bool_decide (k ∈ live c')) <= pendings k olds + b2z (bool_decide (k ∈ live c))
    \/ heap c !! k = None /\ pendings k ts + b2z (bool_decide (k ∈ live c')) <= 1;
  mv_lease : forall L,
    cnt L (claimed c') + leases (heap c) L olds + asum (vl L) (heap c) (live c) + cnt L (released c) + cnt L (lost c)
    = cnt L (claimed c) + leases (heap c') L ts + asum (vl L) (heap c') (live c') + cnt L (released c') + cnt L (lost c');
  mv_use : forall m, use_of m (acct c') + units m olds + asum (vu m) (heap c) (live c)
    = use_of m (acct c) + units m ts + asum (vu m) (heap c') (live c');
  mv_slots : slotsInUseLocked (acct c') <= slots c';
  mv_acct : acct_ok (acct c')
}.

Lemma tsum_perm w l k : l ≡ₚ k -> tsum w l = tsum w k.
Proof. intros H. unfold tsum. by rewrite H. Qed.

Lemma pendings_zero hp k l : Forall (thread_ok hp) l -> hp !! k = None -> pendings k l = 0.
Proof.
  intros Hl Hk. unfold tsum. induction Hl as [|t l [Ht _] Hl IH]; [done|].
  change (wt k (pending t) + sumZ ((fun t => wt k (pending t)) <$> l) = 0). rewrite IH.
  assert (pending t <> Some k) as Hne.
  { intros Hp. destruct t; try done. injection Hp as ->. destruct (Ht k eq_refl). congruence. }
  unfold wt. by rewrite bool_decide_false.
Qed.

Lemma inv_move n n' c l olds rest c' ts :
  inv n {| cor := c; thr := l |} -> l ≡ₚ olds ++ rest -> move n' c olds c' ts ->
  inv n' {| cor := c'; thr := ts ++ rest |}.
Proof.
  intros [I1 I2 I3 I4 I5 I6 I7 I8 I9] Hl [M1 M2 M3 M4 M5 M6 M7 M8 M9 M10]. simpl in *.
  assert (Forall (thread_ok (heap c)) rest) as Hrest.
  { rewrite Hl in I4. by apply Forall_app in I4 as [_ ?]. }
  split; simpl; try done.
  - apply Forall_app. split; [done|]. eapply Forall_impl; [exact Hrest|]. intros t. by apply thread_ok_mono.
  - intros k. rewrite tsum_app. specialize (I5 k). rewrite (tsum_perm _ _ _ Hl), tsum_app in I5.
    destruct (M6 k) as [?|[Hk ?]]; [lia|].
    rewrite (pendings_zero (heap c) k rest Hrest Hk). lia.
  - intros L. rewrite tsum_app, (tsum_owner_mono _ _ L rest M4 Hrest).
    specialize (I6 L). rewrite (tsum_perm _ _ _ Hl), tsum_app in I6. specialize (M7 L). lia.
  - intros m. rewrite tsum_app. specialize (I7 m). rewrite (tsum_perm _ _ _ Hl), tsum_app in I7.
    specialize (M8 m). lia.
Qed.

(** ** Steps that move no weight *)

(** Nothing the counts look at changes but the Handles' own state. *)
Record quiet (c c' : core) : Prop := {
  qt_next : nextID (acct c') = nextID (acct c);
  qt_dom : forall k, is_Some (heap c' !! k) -> is_Some (heap c !! k);
  qt_static : static_le (heap c) (heap c');
  qt_live : live c' = live c;
  qt_use : forall m, use_of m (acct c') = use_of m (acct c);
  qt_slots : slots c' = slots c /\ slotsInUseLocked (acct c') <= slotsInUseLocked (acct c);
  qt_ghost : claimed c' = claimed c /\ released c' = released c /\ lost c' = lost c;
  qt_acct : acct_ok (acct c) -> acct_ok (acct c')
}.

Lemma quiet_refl c : quiet c c.
Proof. split; auto using static_le_refl with lia. Qed.

Lemma static_ids hp hp' k h h' :
  static_le hp hp' -> hp !! k = Some h -> hp' !! k = Some h' -> h_id h' = h_id h.
Proof. intros Hs H1 H2. destruct (Hs k h H1) as (x & Hx & Hst). unfold static in *. congruence. Qed.

Lemma move_quiet n l c olds c' ts :
  inv n {| cor := c; thr := l |} -> quiet c c' -> Forall (thread_ok (heap c')) ts ->
  (forall k, pendings k ts <= pendings k olds) ->
  (forall L, leases (heap c') L ts = leases (heap c) L olds) ->
  (forall m, units m ts = units m olds) ->
  move (n + 1) c olds c' ts.
Proof.
  intros [I1 I2 I3 I4 I5 I6 I7 I8 I9] [Q1 Q2 Q3 Q4 Q5 [Q6 Q6'] (Q7 & Q8 & Q9) Q10] Hts Hp HL Hu. simpl in *.
  split; simpl; rewrite ?Q1, ?Q4, ?Q7, ?Q8, ?Q9; try done.
  - lia.
  - intros k h' Hh'. destruct (Q2 k (mk_is_Some _ _ Hh')) as [h Hh].
    rewrite (static_ids _ _ _ _ _ Q3 Hh Hh'). by eapply I2.
  - intros k [h Hh]%I3. destruct (Q3 k h Hh) as (h' & -> & _). eauto.
  - intros k. left. specialize (Hp k). lia.
  - intros L. rewrite (HL L). rewrite (asum_mono _ _ _ _ Q3 (vl_static L) I3). lia.
  - intros m. rewrite (Hu m), (Q5 m), (asum_mono _ _ _ _ Q3 (vu_static m) I3). lia.
  - rewrite Q6. lia.
  - by apply Q10.
Qed.

Lemma quiet_on_handle hid f c : (forall h, heap c !! hid = Some h -> static (f h) = static h) -> quiet c (on_handle hid f c).
Proof.
  intros Hf. split; simpl; auto with lia; [|by apply static_le_alter].
  intros k [h Hh]. destruct (decide (hid = k)) as [->|].
  - rewrite lookup_alter_eq in Hh. destruct (heap c !! k); [eauto|done].
  - rewrite lookup_alter_ne in Hh by done. eauto.
Qed.

Lemma static_stop h : static (stopHeartbeat h) = static h.
Proof. unfold stopHeartbeat. by destruct (h_stopHeartbeat h). Qed.
Lemma static_fail e h : static (fail e h) = static h.
Proof. unfold fail. by destruct (h_done h). Qed.
Lemma static_gone h : static (markLeaseGone h) = static h.
Proof. done. Qed.
Lemma static_setLease l h : l_ID l = lease_id h -> static (setLease l h) = static h.
Proof. intros H. unfold static, lease_id, lease, setLease. simpl. by rewrite H. Qed.
#[export] Hint Resolve static_stop static_fail static_gone : runner.

Lemma quiet_acct c a :
  nextID a = nextID (acct c) -> allocations a = live c -> (forall m, use_of m a = use_of m (acct c)) ->
  slotsInUseLocked a <= slotsInUseLocked (acct c) -> (acct_ok (acct c) -> acct_ok a) ->
  quiet c (c <| acct := a |>).
Proof. intros. split; simpl; auto using static_le_refl. Qed.

(** ** The steps that move weight *)
Ltac weigh := unfold tsum; cbn [fmap list_fmap sumZ owner_lease owner_unit pending app fst snd]; rewrite ?wt_none, ?wt_some; try lia.
Ltac mv_done := try done; try lia; try apply static_le_refl; try assumption;
  try solve [intros; left; weigh | intros; weigh | repeat constructor; simpl; by intros ? [=]].
Ltac mv := split; simpl; mv_done.

Section Moves.
Context (n : Z) (l : list thread) (c : core) (Hinv : inv n {| cor := c; thr := l |}).
Implicit Types (t : thread) (ts : list thread) (a : accounting).

Lemma inv_here : 0 <= nextID (acct c) <= n
  /\ (forall k h, heap c !! k = Some h -> h_id h = k /\ k <= nextID (acct c))
  /\ (forall k, k ∈ live c -> is_Some (heap c !! k))
  /\ slotsInUseLocked (acct c) <= slots c /\ acct_ok (acct c).
Proof. destruct Hinv. simpl in *. split; [done|]. split; [done|]. split; [done|]. split; done. Qed.

Lemma unit_held t m : t ∈ l -> owner_unit t = Some m -> 1 <= use_of m (acct c).
Proof.
  intros [i Hi]%list_elem_of_lookup Hm. destruct Hinv as [_ _ _ _ _ _ Hu _ _]. simpl in Hu. rewrite (Hu m).
  pose proof (tsum_delete (fun t => wt m (owner_unit t)) l i t Hi) as Hd. simpl in Hd. rewrite Hm, wt_some in Hd.
  rewrite bool_decide_true in Hd by done. simpl in Hd.
  pose proof (tsum_nonneg (fun t => wt m (owner_unit t)) (delete i l)) as Hn.
  pose proof (asum_nonneg (vu m) (heap c) (live c)) as Hv.
  assert (forall h, 0 <= vu m h) by (intros; unfold vu, b2z; case_bool_decide; lia).
  assert (forall t, 0 <= wt m (owner_unit t)) by (intros; apply wt_range).
  specialize (Hn ltac:(done)). specialize (Hv ltac:(done)). lia.
Qed.

Lemma live_held h : h_id h ∈ live c -> heap c !! h_id h = Some h -> 1 <= use_of (h_profile h) (acct c).
Proof.
  intros Hin Hh. destruct Hinv as [_ _ _ _ _ _ Hu _ _]. simpl in Hu. rewrite (Hu (h_profile h)).
  pose proof (asum_del (vu (h_profile h)) (heap c) (live c) (h_id h) h Hin Hh) as Hd.
  assert (vu (h_profile h) h = 1) as E by (unfold vu; by rewrite bool_decide_true).
  pose proof (tsum_nonneg (fun t => wt (h_profile h) (owner_unit t)) l) as Hn.
  pose proof (asum_nonneg (vu (h_profile h)) (heap c) (live c ∖ {[h_id h]})) as Hv.
  assert (forall x, 0 <= vu (h_profile h) x) by (intros; unfold vu, b2z; case_bool_decide; lia).
  assert (forall t, 0 <= wt (h_profile h) (owner_unit t)) by (intros; apply wt_range).
  specialize (Hn ltac:(done)). specialize (Hv ltac:(done)). lia.
Qed.

(** [finish] took the Allocation away: its Slot and unit are returned, and
    its Lease goes to [ts] or is recorded as lost. *)
Lemma move_finished t ts hid h a lost' :
  heap c !! hid = Some h -> finish h (acct c) = (a, true) ->
  owner_lease (heap c) t = None -> owner_unit t = None -> pending t = None ->
  Forall (thread_ok (heap c)) ts -> (forall m, units m ts = 0) -> (forall k, pendings k ts = 0) ->
  (forall L, leases (heap c) L ts + cnt L lost' = vl L h + cnt L (lost c)) ->
  move (n + 1) c [t] (c <| acct := a |> <| lost := lost' |>) ts.
Proof.
  intros Hh Hf Ol Ou Op Hts Hu Hp HL. destruct inv_here as (I1 & I2 & I3 & I4 & I5).
  destruct (I2 hid h Hh) as [Hid _]. subst hid.
  pose proof (finish_fields h (acct c)) as F. rewrite Hf in F. destruct F as (Fok & F1 & F2 & F3 & _ & F4).
  symmetry in Fok. bool_to_prop. destruct (F4 eq_refl) as [F5 _].
  pose proof (slots_finish h (acct c)) as Fs. pose proof (acct_ok_finish h (acct c) I5) as Fa. rewrite Hf in Fs, Fa.
  cbn [fst snd] in *.
  assert (forall m, use_of m a = use_of m (acct c) - vu m h) as Fu.
  { intros m. unfold use_of at 1. rewrite F5. fold (use_of m (releaseProfileLocked (h_profile h) (acct c))).
    rewrite use_releaseProfile by (by apply live_held). unfold vu. f_equal. f_equal. apply bool_decide_ext. naive_solver. }
  split; simpl; rewrite ?F1, ?F3.
  - lia.
  - done.
  - intros k Hk. apply I3. set_solver.
  - apply static_le_refl.
  - done.
  - intros k. left. rewrite Hp. weigh. rewrite Op, wt_none.
    assert (b2z (bool_decide (k ∈ live c ∖ {[h_id h]})) <= b2z (bool_decide (k ∈ live c))); [|lia].
    unfold b2z. repeat case_bool_decide; set_solver by lia.
  - intros L. rewrite (asum_del _ _ _ _ h Fok Hh). specialize (HL L). weigh. rewrite Ol, wt_none.
    unfold tsum in HL. lia.
  - intros m. rewrite (asum_del _ _ _ _ h Fok Hh), (Hu m), (Fu m). weigh. rewrite Ou, wt_none. lia.
  - lia.
  - done.
Qed.

(** A concurrency unit is returned without an Allocation. *)
Lemma move_leave p : TLeave p ∈ l -> move (n + 1) c [TLeave p] (c <| acct := leaveProfile p (acct c) |>) [].
Proof.
  intros Hin. destruct inv_here as (I1 & I2 & I3 & I4 & I5).
  pose proof (unit_held (TLeave p) (pr_Name p) Hin eq_refl) as Hu.
  mv.
  - intros m. change (leaveProfile p (acct c)) with (releaseProfileLocked (pr_Name p) (acct c)).
    rewrite use_releaseProfile by done. weigh.
    assert (bool_decide (pr_Name p = m) = bool_decide (m = pr_Name p)) as -> by (apply bool_decide_ext; naive_solver). lia.
  - by apply acct_ok_releaseProfile.
Qed.

(** A unit is taken, or the thread waits on. *)
Lemma move_enter r job p :
  let '(a, entered, _) := enterProfile p (acct c) in
  move (n + 1) c [TAwait r job p] (c <| acct := a |>) [if entered then TClaim r job p else TAwait r job p].
Proof.
  destruct inv_here as (I1 & I2 & I3 & I4 & I5).
  pose proof (use_enter p (acct c)) as Hu. pose proof (acct_ok_enter p (acct c) I5) as Ha.
  assert (nextID (enterProfile p (acct c)).1.1 = nextID (acct c)
    /\ allocations (enterProfile p (acct c)).1.1 = live c
    /\ slotsInUseLocked (enterProfile p (acct c)).1.1 = slotsInUseLocked (acct c)) as (E1 & E2 & E3).
  { unfold enterProfile. by destruct (_ && _). }
  destruct (enterProfile p (acct c)) as [[a entered] free]. cbn [fst] in *.
  split; simpl; rewrite ?E1, ?E2, ?E3; mv_done.
  - by destruct entered; repeat constructor.
  - intros k. left. destruct entered; weigh.
  - intros L. destruct entered; weigh.
  - intros m. rewrite (Hu m). destruct entered; weigh; cbn [andb b2z]; [|lia].
    assert (bool_decide (pr_Name p = m) = bool_decide (m = pr_Name p)) as -> by (apply bool_decide_ext; naive_solver). lia.
Qed.

Lemma move_grant warm now :
  n < 2 ^ 64 - 1 ->
  move (n + 1) c [TGrant warm] (c <| acct := (grant (slots c) warm now (acct c)).1 |>) [].
Proof.
  intros Hn. destruct inv_here as (I1 & I2 & I3 & I4 & I5).
  assert (allocations (grant (slots c) warm now (acct c)).1 = live c
    /\ profileUse (grant (slots c) warm now (acct c)).1 = profileUse (acct c)
    /\ nextID (acct c) <= nextID (grant (slots c) warm now (acct c)).1 <= nextID (acct c) + 1) as (E1 & E2 & E3).
  { unfold grant. destruct (availableCapacityLocked _ _ _) as [k reason].
    destruct (k <=? 0); simpl; [split_and!; [done|done|lia|lia]|]. rewrite uint64_id by lia. split_and!; [done|done|lia|lia]. }
  pose proof (acct_ok_grant (slots c) warm now (acct c) I5) as Ha.
  pose proof (slots_grant (slots c) warm now (acct c) I4) as Hs.
  set (a := (grant _ _ _ _).1) in *. clearbody a.
  split; simpl; rewrite ?E1; mv_done.
  - intros k h Hk. destruct (I2 k h Hk). split; [done|lia].
  - intros m. unfold use_of. rewrite E2. weigh.
Qed.

(** A new Handle gets an id no Handle has. *)
Lemma move_resolved r p alloc :
  n < 2 ^ 64 - 1 -> a_Profile alloc = pr_Name p ->
  let id := uint64 (nextID (acct c) + 1) in
  move (n + 1) c [TResolved r p alloc]
    (c <| acct := (acct c) <| nextID := id |> |> <| heap := <[id := newHandle id alloc]> (heap c) |>)
    [TConvert r p id].
Proof.
  intros Hn Hp id. destruct inv_here as (I1 & I2 & I3 & I4 & I5).
  assert (id = nextID (acct c) + 1) as Hid by (apply uint64_id; lia).
  assert (heap c !! id = None) as Hfresh.
  { destruct (heap c !! id) as [h|] eqn:E; [|done]. destruct (I2 id h E). lia. }
  assert (id ∉ live c) as Hnl by (intros [h Hh]%I3; congruence).
  split; simpl; try done.
  - lia.
  - intros k h [[<- <-]|[_ [-> Hk]%I2]]%lookup_insert_Some; simpl; [split; [done|lia]|split; [done|lia]].
  - intros k Hk%I3. destruct (decide (k = id)) as [->|]; [rewrite lookup_insert_eq; eauto|by rewrite lookup_insert_ne].
  - by apply static_le_insert.
  - repeat constructor; simpl.
    + intros hid [= <-]. rewrite lookup_insert_eq. eauto.
    + rewrite lookup_insert_eq. simpl. by rewrite Hp.
  - intros k. destruct (decide (k = id)) as [->|Hne].
    + right. split; [done|]. weigh. rewrite (bool_decide_false (id ∈ live c)) by done. unfold b2z. case_bool_decide; lia.
    + left. weigh. rewrite bool_decide_false by done. simpl. lia.
  - intros L. rewrite (asum_mono _ _ _ _ (static_le_insert _ _ _ Hfresh) (vl_static L) I3). weigh.
    rewrite lookup_insert_eq. simpl. rewrite wt_some. unfold lease_id, lease, newHandle. simpl. lia.
  - intros m. rewrite (asum_mono _ _ _ _ (static_le_insert _ _ _ Hfresh) (vu_static m) I3). weigh. unfold use_of; simpl; lia.
Qed.

(** The Reservation becomes the Allocation, or the MicroVM is handed back. *)
Lemma move_convert r p hid h :
  TConvert r p hid ∈ l -> heap c !! hid = Some h ->
  let '(a, ok) := convert r h (acct c) in
  move (n + 1) c [TConvert r p hid] (c <| acct := a |>) (if ok then [TStart hid] else [TReleasing (lease h); TLeave p]).
Proof.
  intros Hin Hh. destruct inv_here as (I1 & I2 & I3 & I4 & I5). destruct (I2 hid h Hh) as [Hid Hle].
  assert (hid ∉ live c) as Hnl.
  { destruct Hinv as [_ _ _ _ Hp _ _ _ _]. simpl in Hp. specialize (Hp hid).
    apply list_elem_of_lookup in Hin as [i Hi]. pose proof (tsum_delete (fun t => wt hid (pending t)) l i _ Hi) as Hd.
    cbn [pending] in Hd. rewrite wt_some, bool_decide_true in Hd by done.
    pose proof (tsum_nonneg (fun t => wt hid (pending t)) (delete i l) (fun t => proj1 (wt_range _ _))).
    intros Hl. rewrite bool_decide_true in Hp by done. simpl in *. lia. }
  assert (h_profile h = pr_Name p) as Hprof.
  { destruct Hinv as [_ _ _ Ht _ _ _ _ _]. simpl in Ht. rewrite Forall_forall in Ht.
    destruct (Ht _ Hin) as [_ Hx]. simpl in Hx. rewrite Hh in Hx. by injection Hx. }
  pose proof (slots_convert r h (acct c) ltac:(by rewrite Hid)) as Hs.
  pose proof (acct_ok_convert r h (acct c) I5) as Ha.
  unfold convert in *. destruct (reservations (acct c) !! res_ID r); cbn [fst] in *.
  - split; simpl; rewrite ?Hid; mv_done.
    + intros k [->%elem_of_singleton|Hk]%elem_of_union; [eauto|by apply I3].
    + repeat constructor; simpl. intros k [= <-]. eauto.
    + intros k. left. weigh. unfold b2z. repeat case_bool_decide; set_solver by lia.
    + intros L. rewrite (asum_add _ _ _ _ h Hnl Hh). weigh. rewrite Hh. simpl. rewrite wt_some. unfold vl. lia.
    + intros m. rewrite (asum_add _ _ _ _ h Hnl Hh). weigh. unfold vu, use_of. rewrite Hprof. simpl. lia.
    + rewrite Hid in Hs. lia.
  - mv.
    + intros k. left. weigh. pose proof (wt_range k (Some hid)). rewrite wt_some in *. lia.
    + intros L. weigh. rewrite Hh. simpl. rewrite wt_some. unfold lease_id. lia.
Qed.

Lemma move_claim r job p cl now :
  move (n + 1) c [TClaim r job p] (c <| claimed := LeaseID cl :: claimed c |>) [TClaimed r job p cl now].
Proof.
  destruct inv_here as (I1 & I2 & I3 & I4 & I5).
  mv.
  - intros L. rewrite cnt_cons. weigh.
Qed.

(** A Lease leaves the threads for one of the ghost lists. *)
Lemma move_ghost t c' lid :
  owner_lease (heap c) t = Some lid -> owner_unit t = None -> pending t = None ->
  quiet c (c' <| released := released c |> <| lost := lost c |>) ->
  (released c' = lid :: released c /\ lost c' = lost c) \/ (released c' = released c /\ lost c' = lid :: lost c) ->
  move (n + 1) c [t] c' [].
Proof.
  intros Ol Ou Op Hq Hg.
  destruct (move_quiet n l c [] _ [] Hinv Hq) as [M1 M2 M3 M4 M5 M6 M7 M8 M9 M10]; try done.
  split; try done.
  - intros k. destruct (M6 k) as [?|?]; [left|by right]. simpl in *.
    pose proof (wt_range k (pending t)). weigh.
  - intros L. specialize (M7 L). simpl in M7. weigh. rewrite Ol, wt_some. unfold tsum in M7. simpl in M7.
    destruct Hg as [[-> ->]|[-> ->]]; rewrite cnt_cons; lia.
  - intros m. specialize (M8 m). simpl in M8. weigh. rewrite Ou, wt_none. unfold tsum in M8. simpl in M8. lia.
Qed.
End Moves.
