(* ===== verification/SchedThms.v ===== *)
(** * What holds of the Scheduler in every reachable state

    The invariant of SchedInv is preserved by every critical section, and the
    theorems on Slots, concurrency limits, Leases and channels follow. *)
From S2P Require Import Prelude GoModel PoolTypes ConfigTypes SchedTypes Capacity SchedSys SchedInv.

Ltac by_quiet Hinv :=
  apply (move_quiet _ _ _ _ _ _ Hinv);
  [ auto using quiet_refl
  | try (repeat constructor; simpl; (done || by intros ? [=]))
  | try (intros; weigh) | try (intros; weigh) | try (intros; weigh) ].

Section Step.
Context (n : Z) (l : list thread) (c : core) (Hinv : inv n {| cor := c; thr := l |}).

Lemma known_handle t hid : t ∈ l -> thread_handle t = Some hid -> exists h, heap c !! hid = Some h.
Proof.
  intros Hin Ht. destruct Hinv as [_ _ _ Hok _ _ _ _ _]. simpl in Hok. rewrite Forall_forall in Hok.
  destruct (Hok t Hin) as [H _]. by destruct (H hid Ht); eauto.
Qed.

(** A thread that goes on with the same Handle is well formed. *)
Lemma ok_handle hid c' t :
  static_le (heap c) (heap c') -> is_Some (heap c !! hid) -> thread_handle t = Some hid ->
  (match t with TConvert _ _ _ | TResolved _ _ _ | TChecked _ _ => False | _ => True end) ->
  thread_ok (heap c') t.
Proof.
  intros Hs [h Hh] Ht Hk. destruct (Hs hid h Hh) as (h' & Hh' & _).
  split; [intros x Hx; rewrite Ht in Hx; injection Hx as <-; eauto|]. by destruct t.
Qed.

(** A thread that only changes the state of its Handle. *)
Lemma move_on_handle hid f t t' :
  t ∈ l -> thread_handle t = Some hid -> thread_handle t' = Some hid ->
  (match t' with TConvert _ _ _ | TResolved _ _ _ | TChecked _ _ => False | _ => True end) ->
  (forall h, heap c !! hid = Some h -> static (f h) = static h) ->
  pending t = None -> owner_unit t = None -> owner_unit t' = None -> pending t' = None ->
  (forall hp, owner_lease hp t = lease_id <$> hp !! hid /\ owner_lease hp t' = lease_id <$> hp !! hid)
    \/ (forall hp, owner_lease hp t = None /\ owner_lease hp t' = None) ->
  move (n + 1) c [t] (on_handle hid f c) [t'].
Proof.
  intros Hin Ht Ht' Hk Hf P1 U1 U2 P2 HL. destruct (known_handle t hid Hin Ht) as [h Hh].
  pose proof (quiet_on_handle hid f c Hf) as Hq. pose proof (qt_static _ _ Hq) as Hs.
  apply (move_quiet _ _ _ _ _ _ Hinv Hq).
  - repeat constructor; eapply (ok_handle hid); eauto.
  - intros k. weigh. by rewrite P1, P2.
  - intros L. unfold tsum. cbn [fmap list_fmap sumZ].
    destruct HL as [HL|HL]; destruct (HL (heap c)) as [-> _], (HL (heap (on_handle hid f c))) as [_ ->]; [|done].
    by rewrite (static_le_lookup lease_id (heap c)); eauto using static_lease.
  - intros m. weigh. by rewrite U1, U2.
Qed.

(** The same with the Handle's state unchanged, and with the thread ending. *)
Lemma move_keep t t' hid :
  t ∈ l -> thread_handle t = Some hid -> thread_handle t' = Some hid ->
  (match t' with TConvert _ _ _ | TResolved _ _ _ | TChecked _ _ => False | _ => True end) ->
  pending t = None -> owner_unit t = None -> owner_unit t' = None -> pending t' = None ->
  (forall hp, owner_lease hp t = lease_id <$> hp !! hid /\ owner_lease hp t' = lease_id <$> hp !! hid)
    \/ (forall hp, owner_lease hp t = None /\ owner_lease hp t' = None) ->
  move (n + 1) c [t] c [t'].
Proof.
  intros Hin Ht Ht' Hk P1 U1 U2 P2 HL. destruct (known_handle t hid Hin Ht) as [h Hh].
  apply (move_quiet _ _ _ _ _ _ Hinv (quiet_refl c)).
  - repeat constructor; eapply (ok_handle hid c); eauto using static_le_refl.
  - intros k. weigh. by rewrite P1, P2.
  - intros L. unfold tsum. cbn [fmap list_fmap sumZ].
    by destruct HL as [HL|HL]; destruct (HL (heap c)) as [-> ->].
  - intros m. weigh. by rewrite U1, U2.
Qed.

Lemma move_end t c' :
  quiet c c' -> pending t = None -> owner_unit t = None -> owner_lease (heap c) t = None ->
  move (n + 1) c [t] c' [].
Proof.
  intros Hq P U O. apply (move_quiet _ _ _ _ _ _ Hinv Hq); [done|intros k|intros L|intros m]; weigh.
  - by rewrite P.
  - by rewrite O.
  - by rewrite U.
Qed.
End Step.

(** ** Every critical section preserves the invariant *)
Section Tstep.
Context (n : Z) (l : list thread) (c : core) (Hinv : inv n {| cor := c; thr := l |}) (Hn : n < 2 ^ 64 - 1).

Ltac quiet_stop := apply quiet_on_handle; intros; auto with runner.

(** The threads that end an Allocation with [finish]. *)
Lemma tstep_finish t hid h won lost' :
  t ∈ l -> thread_handle t = Some hid -> heap c !! hid = Some h ->
  owner_lease (heap c) t = None -> owner_unit t = None -> pending t = None ->
  (won = [TStop hid] /\ lost' = lost c \/ won = [TRetainGone hid] /\ lost' = lost c
   \/ won = [] /\ lost' = l_ID (lease h) :: lost c) ->
  forall a, finish h (acct c) = (a, true) -> move (n + 1) c [t] (c <| acct := a |> <| lost := lost' |>) won.
Proof.
  intros Hin Ht Hh O U P Hw a Hf.
  apply (move_finished n l c Hinv t won hid h a lost' Hh Hf O U P).
  - destruct Hw as [[-> _]|[[-> _]|[-> _]]]; repeat constructor; simpl; intros x [= <-]; eauto.
  - intros m. by destruct Hw as [[-> _]|[[-> _]|[-> _]]].
  - intros k. by destruct Hw as [[-> _]|[[-> _]|[-> _]]].
  - intros L. destruct Hw as [[-> ->]|[[-> ->]|[-> ->]]]; weigh; unfold vl, lease_id.
    + rewrite Hh. simpl. rewrite wt_some. unfold lease_id. lia.
    + rewrite Hh. simpl. rewrite wt_some. unfold lease_id. lia.
    + rewrite cnt_cons. lia.
Qed.

Lemma finish_lost h a : finish h (acct c) = (a, false) -> a = acct c.
Proof.
  intros Hf. pose proof (finish_fields h (acct c)) as F. rewrite Hf in F.
  destruct F as (_ & _ & _ & _ & F & _). by apply F.
Qed.

Lemma core_same a : a = acct c -> c <| acct := a |> = c.
Proof. intros ->. by destruct c. Qed.

Lemma core_same_lost a : c <| acct := a |> = c <| acct := a |> <| lost := lost c |>.
Proof. done. Qed.

Lemma tstep_alloc t o :
  t ∈ l ->
  (match t with TGrant _ | TAwait _ _ _ | TClaim _ _ _ | TClaimed _ _ _ _ _ | TResolved _ _ _ | TConvert _ _ _
   | TLeave _ | TReleasing _ => True | _ => False end) ->
  move (n + 1) c [t] (tstep t o c).1 (tstep t o c).2.
Proof.
  intros Hin Hk. destruct t as [warm|r job p|r job p|r job p cl now|r p alloc|r p hid| | |p| | | | | | | | |le| | | | | | | ];
    try done.
  - destruct o; cbn [tstep fst snd]; try (by by_quiet Hinv). by apply move_grant with l.
  - destruct o; cbn [tstep fst snd]; try (by by_quiet Hinv). simpl. pose proof (move_enter n l c Hinv r job p) as He.
    by destruct (enterProfile p (acct c)) as [[a e] f].
  - destruct o; cbn [tstep fst snd]; try (by by_quiet Hinv). by apply move_claim with l.
  - destruct o; cbn [tstep fst snd]; try (by by_quiet Hinv). 
  - simpl. apply move_resolved with l; try done.
    destruct Hinv as [_ _ _ Hok _ _ _ _ _]. simpl in Hok. rewrite Forall_forall in Hok. by destruct (Hok _ Hin).
  - destruct (known_handle n l c Hinv _ hid Hin eq_refl) as [h Hh]. simpl. unfold_steps. rewrite Hh.
    pose proof (move_convert n l c Hinv r p hid h Hin Hh) as Hc. by destruct (convert r h (acct c)) as [a ok].
  - simpl. by apply move_leave with l.
  - simpl. apply (move_ghost n l c Hinv _ _ (l_ID le)); try done; [|by left].
    by destruct c; apply quiet_refl.
Qed.

(** The threads that end an Allocation. *)
Lemma tstep_ends t o :
  t ∈ l ->
  (match t with TRelease _ | TStop _ | TGone _ | TAbort _ _ | TEnd _ | TRetain _ | TRetainGone _ | TRetained _
   | TLostFinish _ => True | _ => False end) ->
  move (n + 1) c [t] (tstep t o c).1 (tstep t o c).2.
Proof.
  intros Hin Hk. assert (exists hid, thread_handle t = Some hid) as [hid Ht] by (destruct t; try done; by eexists).
  destruct (known_handle n l c Hinv t hid Hin Ht) as [h Hh].
  destruct t; try done; injection Ht as ->; cbn [tstep]; unfold_steps; rewrite ?Hh.
  - destruct (finish h (acct c)) as [a []] eqn:Hf.
    + rewrite core_same_lost. by eapply tstep_finish; eauto.
    + apply move_end with l; try done. quiet_stop.
  - apply move_on_handle with l; try done; auto with runner.
  - destruct (leaseIsGone h).
    + apply (move_ghost n l c Hinv _ _ (l_ID (lease h))); try done; [by simpl; rewrite Hh| |by right].
      by destruct c; apply quiet_refl.
    + apply (move_quiet _ _ _ _ _ _ Hinv (quiet_refl c)); [repeat constructor; by intros ? [=]| | |]; intros x; weigh.
      rewrite Hh. simpl. by rewrite wt_some.
  - apply move_on_handle with l; try done; auto with runner.
  - destruct (finish h (acct c)) as [a []] eqn:Hf.
    + rewrite core_same_lost. by eapply tstep_finish; eauto.
    + rewrite (core_same a) by (by eapply finish_lost). by apply move_end with l; try apply quiet_refl.
  - destruct (finish h (acct c)) as [a []] eqn:Hf.
    + rewrite core_same_lost. eapply tstep_finish; eauto.
    + apply move_end with l; try done. quiet_stop.
  - destruct (leaseIsGone h); [|destruct (bgClosed c)].
    + apply (move_ghost n l c Hinv _ _ (l_ID (lease h))); try done; [by simpl; rewrite Hh| |by right].
      apply (quiet_on_handle hid stopHeartbeat c). auto with runner.
    + assert (quiet c (on_handle hid stopHeartbeat c)) as Hq by quiet_stop.
      apply (move_quiet _ _ _ _ _ _ Hinv Hq); [repeat constructor; by intros ? [=]| | |]; intros x; weigh.
      rewrite Hh. simpl. by rewrite wt_some.
    + apply move_keep with l hid; try done. by left.
  - apply move_keep with l hid; try done. by left.
  - destruct (finish h (acct c)) as [a []] eqn:Hf.
    + by eapply tstep_finish; eauto 10.
    + rewrite (core_same a) by (by eapply finish_lost). by apply move_end with l; try apply quiet_refl.
Qed.

(** The keep-alive loop, CheckLease and leaseLost. *)
Lemma tstep_beats t o :
  t ∈ l ->
  (match t with TStart _ | TStarted _ | TBeat _ | TCheck _ | TChecked _ _ | TCheckLost _ _ | TLost _ _
   | TLostFail _ _ => True | _ => False end) ->
  move (n + 1) c [t] (tstep t o c).1 (tstep t o c).2.
Proof.
  intros Hin Hk. assert (exists hid, thread_handle t = Some hid) as [hid Ht] by (destruct t; try done; by eexists).
  destruct (known_handle n l c Hinv t hid Hin Ht) as [h Hh].
  destruct t; try done; injection Ht as ->; cbn [tstep]; unfold_steps; rewrite ?Hh.
  - apply move_on_handle with l; try done; auto with runner.
  - destruct (bgClosed c); [apply move_end with l; try done; quiet_stop|].
    apply move_keep with l hid; try done. by right.
  - destruct (hb_done h c); [by apply move_end with l; try apply quiet_refl|].
    destruct o; try (by apply move_keep with l hid; try done; right).
    + destruct (h_done h); [by apply move_end with l; try apply quiet_refl|].
      by apply move_keep with l hid; try done; right.
    + destruct (time_Before now _); by apply move_keep with l hid; try done; right.
    + by apply move_on_handle with l; try done; right.
  - destruct (h_done h); [by apply move_end with l; try apply quiet_refl|].
    case_bool_decide; [|by apply move_end with l; try apply quiet_refl].
    apply (move_quiet _ _ _ _ _ _ Hinv (quiet_refl c)); [|intros x; weigh|intros x; weigh|intros x; weigh].
    repeat constructor; simpl; [intros ? [= <-]; eauto|by rewrite Hh].
  - destruct (negb _); [by apply move_end with l; try apply quiet_refl|].
    destruct o; try (by apply move_end with l; try apply quiet_refl);
      try (by apply move_keep with l hid; try done; right).
    + apply move_end with l; try done. apply quiet_on_handle. intros x Hx. apply static_setLease. simpl.
      destruct Hinv as [_ _ _ Hok _ _ _ _ _]. simpl in Hok. rewrite Forall_forall in Hok.
      destruct (Hok _ Hin) as [_ Hl]. simpl in Hl. rewrite Hx in Hl. simpl in Hl. congruence.
    + destruct (time_Before now _); [by apply move_end with l; try apply quiet_refl|].
      by apply move_keep with l hid; try done; right.
  - destruct (h_done h); [by apply move_end with l; try apply quiet_refl|].
    by apply move_keep with l hid; try done; right.
  - apply move_on_handle with l; try done; [auto with runner..|by right].
  - apply move_on_handle with l; try done; [auto with runner..|by right].
Qed.

Lemma tstep_move t o : t ∈ l -> move (n + 1) c [t] (tstep t o c).1 (tstep t o c).2.
Proof.
  intros Hin. destruct t; first [by apply tstep_alloc | by apply tstep_ends | by apply tstep_beats].
Qed.
End Tstep.

(** ** Reachable states *)
Lemma delete_split {A} (l : list A) i x : l !! i = Some x -> l ≡ₚ [x] ++ delete i l.
Proof. intros H. by rewrite (delete_Permutation l i x H) at 1. Qed.

Lemma inv_known n s hid t :
  inv n s -> thread_handle t = Some hid -> owner_unit t = None -> pending t = None ->
  (forall hp, owner_lease hp t = None) -> (match t with TConvert _ _ _ | TResolved _ _ _ | TChecked _ _ => False | _ => True end) ->
  inv (n + 1) (known hid s t).
Proof.
  intros Hinv Ht U P O Hk. destruct s as [c l]. unfold known. simpl. destruct (heap c !! hid) as [h|] eqn:Hh.
  - apply (inv_move n (n + 1) c l [] l c [t] Hinv); [done|].
    apply (move_quiet _ _ _ _ _ _ Hinv (quiet_refl c)); [|intros k; weigh; by rewrite P|intros L; weigh; by rewrite O
      |intros m; weigh; by rewrite U].
    repeat constructor; eapply (ok_handle c hid c); eauto using static_le_refl.
  - destruct Hinv. split; simpl in *; try done. lia.
Qed.

Lemma inv_spawn n c l ts :
  inv n {| cor := c; thr := l |} ->
  Forall (fun t => thread_ok (heap c) t /\ owner_unit t = None /\ pending t = None /\ owner_lease (heap c) t = None) ts ->
  inv (n + 1) {| cor := c; thr := ts ++ l |}.
Proof.
  intros Hinv Hts. apply (inv_move n (n + 1) c l [] l c ts Hinv); [done|].
  assert (forall A (HA : EqDecision A) (x : A) (g : thread -> option A),
    Forall (fun t => g t = None) ts -> tsum (fun t => wt x (g t)) ts = 0) as Hz.
  { intros A HA x g Hg. unfold tsum. induction Hg as [|t ts' Ht Hg IH]; [done|].
    change (wt x (g t) + sumZ ((fun t => wt x (g t)) <$> ts') = 0). rewrite Ht, wt_none.
    apply Forall_inv_tail in Hts. specialize (IH Hts). lia. }
  apply (move_quiet _ _ _ _ _ _ Hinv (quiet_refl c)).
  - eapply Forall_impl; [exact Hts|]. by intros t [? _].
  - intros k. rewrite Hz; [done|]. eapply Forall_impl; [exact Hts|]. naive_solver.
  - intros L. rewrite Hz; [done|]. eapply Forall_impl; [exact Hts|]. naive_solver.
  - intros m. rewrite Hz; [done|]. eapply Forall_impl; [exact Hts|]. naive_solver.
Qed.

Lemma inv_quiet n c l c' : inv n {| cor := c; thr := l |} -> quiet c c' -> inv (n + 1) {| cor := c'; thr := l |}.
Proof. intros Hinv Hq. apply (inv_move n (n + 1) c l [] l c' [] Hinv); [done|]. by apply (move_quiet _ l). Qed.

Lemma abort_ok c hid cause : hid ∈ live c -> (forall k, k ∈ live c -> is_Some (heap c !! k)) ->
  thread_ok (heap c) (TAbort hid cause) /\ owner_unit (TAbort hid cause) = None
  /\ pending (TAbort hid cause) = None /\ owner_lease (heap c) (TAbort hid cause) = None.
Proof. intros Hin Ha. split_and!; try done. split; [|done]. intros x [= <-]. by apply Ha. Qed.

Lemma inv_sstep n s a : inv n s -> n < 2 ^ 64 - 1 -> inv (n + 1) (sstep s a).
Proof.
  intros Hinv Hn. destruct s as [c l]. destruct a; cbn [sstep cor thr].
  - apply (inv_spawn n c l [_] Hinv). repeat constructor; by intros ? [=].
  - apply (inv_quiet n c); [done|]. apply quiet_acct; try done. apply (slots_release (Some r)).
  - apply (inv_spawn n c l [_] Hinv). repeat constructor; by intros ? [=].
  - by apply inv_known.
  - by apply inv_known.
  - by apply inv_known.
  - by apply inv_known.
  - unfold liveHandles. apply (inv_spawn n c l _ Hinv). apply Forall_fmap, Forall_forall.
    intros hid [_ Hin]%list_elem_of_filter. apply elem_of_elements in Hin. simpl.
    apply abort_ok; [done|]. apply (iv_alloc _ _ Hinv).
  - unfold liveHandles. apply (inv_spawn n c l _ Hinv). apply Forall_fmap, Forall_forall.
    intros hid Hin. apply elem_of_elements in Hin. simpl. apply abort_ok; [done|]. apply (iv_alloc _ _ Hinv).
  - apply (inv_quiet n c); [done|]. apply quiet_acct; try done.
    unfold slotsInUseLocked. simpl. rewrite map_size_empty. lia.
  - apply (inv_quiet n c); [done|]. destruct (drained_fields (acct c)) as (E1 & E2 & E3 & _).
    apply quiet_acct; try done; [|by rewrite slots_drained|apply acct_ok_drained].
    intros m. unfold use_of. by rewrite E3.
  - apply (inv_quiet n c); [done|]. split; simpl; auto using static_le_refl. lia.
  - apply (inv_quiet n c); [done|]. split; simpl; auto using static_le_refl. lia.
  - destruct (l !! i) as [t|] eqn:Hi; [|destruct Hinv; split; simpl in *; try done; lia].
    pose proof (tstep_move n l c Hinv Hn t o ltac:(by eapply list_elem_of_lookup_2)) as Hm.
    destruct (tstep t o c) as [c' ts]. simpl in Hm.
    apply (inv_move n (n + 1) c l [t] (delete i l) c' ts Hinv); [by apply delete_split|done].
Qed.

Lemma inv_sys0 m : 0 <= m -> inv 0 (sys0 m).
Proof.
  intros Hm. split; simpl; try done; try lia.
Qed.

Lemma srun_snoc m acts a : srun m (acts ++ [a]) = sstep (srun m acts) a.
Proof. unfold srun. by rewrite fold_left_app. Qed.

Lemma inv_srun m acts :
  0 <= m -> Z.of_nat (length acts) < 2 ^ 64 -> inv (Z.of_nat (length acts)) (srun m acts).
Proof.
  intros Hm. induction acts as [|a acts IH] using rev_ind; intros Hl; [by apply inv_sys0|].
  rewrite length_app in *. simpl in *. rewrite srun_snoc.
  replace (Z.of_nat (length acts + 1)) with (Z.of_nat (length acts) + 1) by lia.
  apply inv_sstep; [apply IH; lia|lia].
Qed.

Lemma tstep_slots t o c : slots (tstep t o c).1 = slots c.
Proof.
  destruct t, o; cbn [tstep fst]; unfold_steps;
    repeat first [done | case_match; simpl in *].
Qed.

Lemma srun_slots m acts : slots (cor (srun m acts)) = m.
Proof.
  induction acts as [|a acts IH] using rev_ind; [done|]. rewrite srun_snoc. etransitivity; [|exact IH].
  generalize (srun m acts) as s. intros s. destruct a as [| | | | | | | | | | | | |i o]; try done;
    simpl; unfold known; try (by case_match).
  destruct (thr s !! i) as [t|]; [|done]. pose proof (tstep_slots t o (cor s)). by destruct (tstep t o (cor s)).
Qed.

(** ** The theorems *)

(** C1: the Slots are never exceeded.  Whatever the workers, the keep-alive
    loops, the Host probes and the shutdown do, in any interleaving of their
    critical sections, held Reservations and live Allocations together never
    take more than the configured number of Slots. *)
Theorem slots_never_exceeded m acts :
  0 <= m -> Z.of_nat (length acts) < 2 ^ 64 ->
  0 <= slotsInUseLocked (acct (cor (srun m acts))) <= m.
Proof.
  intros Hm Hl. pose proof (iv_slots _ _ (inv_srun m acts Hm Hl)) as Hs. rewrite srun_slots in Hs.
  unfold slotsInUseLocked in *. lia.
Qed.

Lemma slots_never_exceeded_witness : 0 <= slotsInUseLocked (acct (cor (srun 1 demo_allocate))) <= 1.
Proof. apply (slots_never_exceeded 1 demo_allocate); by_compute. Defined.

(** The leases of the live Allocations, and of the threads that own one. *)
Definition live_leases (c : core) : list string :=
  omap (fun k => lease_id <$> heap c !! k) (elements (live c)).
Definition held_leases (s : sys) : list string := omap (owner_lease (heap (cor s))) (thr s).

Lemma cnt_omap_threads L hp l : tsum (fun t => wt L (owner_lease hp t)) l = cnt L (omap (owner_lease hp) l).
Proof.
  unfold tsum, cnt. induction l as [|t l IH]; [done|].
  change (wt L (owner_lease hp t) + sumZ ((fun t => wt L (owner_lease hp t)) <$> l) =
    sumZ ((fun x => b2z (bool_decide (x = L))) <$>
      match owner_lease hp t with Some y => y :: omap (owner_lease hp) l | None => omap (owner_lease hp) l end)).
  rewrite IH. destruct (owner_lease hp t); [rewrite wt_some|rewrite wt_none]; cbn [fmap list_fmap sumZ]; lia.
Qed.

Lemma cnt_omap_live L hp X :
  asum (vl L) hp X = cnt L (omap (fun k => lease_id <$> hp !! k) (elements X)).
Proof.
  unfold asum, cnt. set (g := fun k => match hp !! k with Some h => vl L h | None => 0 end).
  set (f := fun k => lease_id <$> hp !! k). induction (elements X) as [|k l IH]; [done|].
  change (g k + sumZ (g <$> l) = sumZ ((fun x => b2z (bool_decide (x = L))) <$>
    match f k with Some y => y :: omap f l | None => omap f l end)).
  rewrite IH. unfold f at 2, g. destruct (hp !! k); [done|]. cbn [fmap option_fmap option_map]. lia.
Qed.

Lemma cnt_app L a b : cnt L (a ++ b) = cnt L a + cnt L b.
Proof. unfold cnt. by rewrite fmap_app, sumZ_app. Qed.

Lemma cnt_count L l : cnt L l = Z.of_nat (count_occ String.string_dec l L).
Proof.
  induction l as [|x l IH]; [done|]. rewrite cnt_cons, IH. cbn [count_occ].
  destruct (String.string_dec x L); [rewrite bool_decide_true by done|rewrite bool_decide_false by done]; simpl; lia.
Qed.

Lemma cnt_perm l k : (forall L, cnt L l = cnt L k) -> l ≡ₚ k.
Proof.
  intros H. apply (Permutation_count_occ String.string_dec). intros L. specialize (H L).
  rewrite !cnt_count in H. lia.
Qed.

Lemma leases_conserved m acts :
  0 <= m -> Z.of_nat (length acts) < 2 ^ 64 ->
  let s := srun m acts in
  claimed (cor s) ≡ₚ held_leases s ++ live_leases (cor s) ++ released (cor s) ++ lost (cor s).
Proof.
  intros Hm Hl s. apply cnt_perm. intros L. pose proof (iv_lease _ _ (inv_srun m acts Hm Hl) L) as H.
  fold s in H. rewrite H, cnt_omap_threads, cnt_omap_live. unfold held_leases, live_leases.
  rewrite !cnt_app. lia.
Qed.

(** C2: no Lease is leaked and none is released twice.  At every moment each
    Lease the Pool Manager granted is in exactly one place: with a call that
    still has to deal with it, in a live Allocation, handed to
    [releaseLease], or dropped because it no longer exists; so when the
    Scheduler is idle every Lease was released or is gone, and when Lease
    ids are not reused no Lease is released twice or while still allocated. *)
Theorem every_lease_accounted_for m acts :
  0 <= m -> Z.of_nat (length acts) < 2 ^ 64 ->
  let s := srun m acts in
  claimed (cor s) ≡ₚ held_leases s ++ live_leases (cor s) ++ released (cor s) ++ lost (cor s)
  /\ (thr s = [] -> live (cor s) = ∅ -> claimed (cor s) ≡ₚ released (cor s) ++ lost (cor s))
  /\ (NoDup (claimed (cor s)) ->
        NoDup (released (cor s)) /\ (forall L, L ∈ released (cor s) -> L ∉ live_leases (cor s) /\ L ∉ lost (cor s))).
Proof.
  intros Hm Hl s. pose proof (leases_conserved m acts Hm Hl) as Hp. fold s in Hp. split; [done|]. split.
  - intros Ht Ha. rewrite Hp. unfold held_leases, live_leases. by rewrite Ht, Ha.
  - intros Hnd. rewrite Hp in Hnd. apply NoDup_app in Hnd as (_ & _ & Hnd).
    apply NoDup_app in Hnd as (_ & Hlive & Hnd). apply NoDup_app in Hnd as (Hr & Hrl & _).
    split; [done|]. intros L HL. split; [|by apply Hrl]. intros Hin. apply (Hlive L Hin). set_solver.
Qed.

Lemma every_lease_accounted_for_witness :
  claimed (cor (srun 1 demo_release)) ≡ₚ released (cor (srun 1 demo_release)) ++ lost (cor (srun 1 demo_release))
  /\ claimed (cor (srun 1 demo_release)) = ["L1"].
Proof.
  split; [|vm_compute; reflexivity].
  destruct (every_lease_accounted_for 1 demo_release) as (_ & H & _); [by_compute|by_compute|].
  apply H; vm_compute; reflexivity.
Defined.

(** The Scheduler never closes a channel twice: not the one that wakes
    the callers waiting on a Profile's limit, not the drain of the shutdown. *)
Theorem scheduler_never_panics m acts :
  0 <= m -> Z.of_nat (length acts) < 2 ^ 64 ->
  chan_panic (achans (acct (cor (srun m acts)))) = false.
Proof. intros Hm Hl. by destruct (iv_acct _ _ (inv_srun m acts Hm Hl)) as [[? _] _]. Qed.

Lemma scheduler_never_panics_witness : chan_panic (achans (acct (cor (srun 1 demo_release)))) = false.
Proof. apply (scheduler_never_panics 1 demo_release); by_compute. Defined.

Example demo_runs :
  let s := srun 1 demo_release in
  claimed (cor s) = ["L1"] /\ released (cor s) = ["L1"] /\ thr s = [] /\ live (cor s) = ∅
  /\ live_leases (cor (srun 1 demo_allocate)) = ["L1"] /\ thr (srun 1 demo_allocate) = [TBeat 2].
Proof. vm_compute. split_and!; reflexivity. Qed.

(** * Profile limits, first causes and lost Leases *)

(** ** The limit of a Profile *)
Lemma use_releaseProfile_le x n a : use_of n (releaseProfileLocked x a) <= Z.max 0 (use_of n a).
Proof.
  unfold releaseProfileLocked, use_of. simpl. destruct (decide (n = x)) as [->|Hne].
  - destruct (Z.ltb_spec 1 (default 0 (profileUse a !! x))); [rewrite lookup_insert_eq|rewrite lookup_delete_eq]; simpl; lia.
  - destruct (1 <? _); [rewrite lookup_insert_ne by done|rewrite lookup_delete_ne by done]; lia.
Qed.

Lemma use_finish_le h n a : use_of n (finish h a).1 <= Z.max 0 (use_of n a).
Proof.
  pose proof (finish_fields h a) as F. destruct (finish h a) as [a' ok]. destruct F as (_ & _ & _ & _ & F1 & F2).
  destruct ok; simpl; [|rewrite F1 by done; lia].
  destruct (F2 eq_refl) as [E _]. unfold use_of at 1. rewrite E. apply (use_releaseProfile_le (h_profile h) n a).
Qed.

Lemma use_same n a b : profileUse b = profileUse a -> use_of n b <= Z.max 0 (use_of n a).
Proof. unfold use_of. intros ->. lia. Qed.

Definition is_await (t : thread) : option Profile := match t with TAwait _ _ p => Some p | _ => None end.

(** Only an allocation that enters its Profile takes a unit. *)
Lemma tstep_use_le n t o c : is_await t = None -> use_of n (acct (tstep t o c).1) <= Z.max 0 (use_of n (acct c)).
Proof.
  intros Ht.
  assert (forall h, use_of n (finish h (acct c)).1 <= Z.max 0 (use_of n (acct c))) as Hf by (intros; apply use_finish_le).
  assert (forall r h, use_of n (convert r h (acct c)).1 <= Z.max 0 (use_of n (acct c))) as Hc.
  { intros r h. apply use_same. unfold convert. by case_match. }
  assert (forall w now, use_of n (grant (slots c) w now (acct c)).1 <= Z.max 0 (use_of n (acct c))) as Hg.
  { intros w now. apply use_same. unfold grant. by repeat case_match. }
  destruct t; try done; cbn [tstep]; unfold_steps;
    try (destruct o; try (by apply use_same); cbn [fst acct]; apply Hg);
    try (by apply use_same); try (by apply use_releaseProfile_le);
    try (destruct (heap c !! hid) as [h|]; [|by apply use_same]);
    try (specialize (Hf h); destruct (finish h (acct c)) as [a []]; first [exact Hf | by apply use_same]);
    try (specialize (Hc r h); destruct (convert r h (acct c)) as [a []]; exact Hc);
    try (repeat case_match; by apply use_same).
Qed.

Lemma tstep_awaits t o c p : p ∈ omap is_await (tstep t o c).2 -> is_await t = Some p.
Proof.
  destruct t, o; cbn [tstep]; unfold_steps; repeat case_match; simplify_eq; simpl; set_solver.
Qed.

(** Every Allocate call for the Profile [name] comes with a maximum, of at most
    [M]: what a Reload may change it to. *)
Definition limited (name : string) (M : Z) (p : Profile) : Prop :=
  pr_Name p = name -> 0 < p_MaxConcurrency (pr_cfg p) <= M.
Definition act_limited (name : string) (M : Z) (a : act) : Prop :=
  match a with AAllocate _ _ p => limited name M p | _ => True end.

Lemma limit_step name M s a :
  0 < M -> act_limited name M a ->
  (forall p, p ∈ omap is_await (thr s) -> limited name M p) /\ use_of name (acct (cor s)) <= M ->
  (forall p, p ∈ omap is_await (thr (sstep s a)) -> limited name M p) /\ use_of name (acct (cor (sstep s a))) <= M.
Proof.
  intros HM Ha [Hw Hu].
  destruct a as [w|r|r job p|hid|hid|hid|hid e|host| | | | | |i o]; cbn [sstep thr cor acct]; unfold known;
    try (by case_match); try done.
  - simpl. split; [|done]. intros q. rewrite elem_of_cons. intros [->|?]; [done|by apply Hw].
  - simpl. split; [|done]. intros q. rewrite omap_app, elem_of_app. intros [Hin|?]; [|by apply Hw].
    apply list_elem_of_omap in Hin as (t & Hin & Ht). apply list_elem_of_fmap in Hin as (x & -> & _). done.
  - simpl. split; [|done]. intros q. rewrite omap_app, elem_of_app. intros [Hin|?]; [|by apply Hw].
    apply list_elem_of_omap in Hin as (t & Hin & Ht). apply list_elem_of_fmap in Hin as (x & -> & _). done.
  - split; [done|]. destruct (drained_fields (acct (cor s))) as (_ & _ & E & _). simpl. unfold use_of. by rewrite E.
  - destruct (thr s !! i) as [t|] eqn:Hi; [|done].
    assert (forall p, is_await t = Some p -> limited name M p) as Ht.
    { intros p Hp. apply Hw, list_elem_of_omap. exists t. split; [by eapply list_elem_of_lookup_2|done]. }
    pose proof (tstep_awaits t o (cor s)) as Hts. pose proof (tstep_use_le name t o (cor s)) as Hus.
    destruct (tstep t o (cor s)) as [c' ts] eqn:Es. cbn [fst snd thr cor] in *. split.
    + intros p. rewrite omap_app, elem_of_app. intros [Hin|Hin]; [by apply Ht, Hts|]. apply Hw.
      apply list_elem_of_omap in Hin as (t' & Hin & Hp). apply list_elem_of_omap. exists t'. split; [|done].
      rewrite (delete_Permutation _ _ _ Hi). set_solver.
    + destruct (is_await t) as [p|] eqn:Hp; [|specialize (Hus eq_refl); lia].
      destruct t as [|r job q| | | | | | | | | | | | | | | | | | | | | | |]; try done. injection Hp as ->.
      destruct o; cbn [tstep] in Es; simplify_eq; try done.
      pose proof (use_enter p (acct (cor s)) ) as He. destruct (enterProfile p (acct (cor s))) as [[a entered] f] eqn:Ee.
      simplify_eq. simpl. specialize (He name).
      destruct entered; simpl in He; [|lia]. case_bool_decide as Hnm; simpl in He; [|lia].
      pose proof (use_enter_limit p (acct (cor s)) a f Ee) as Hlim. specialize (Ht p eq_refl ltac:(done)).
      rewrite Hnm. specialize (Hlim ltac:(lia)). lia.
Qed.

(** C14: a Profile's maximum concurrency is never exceeded, and its units
    never leak.  While no allocation for a Profile comes with a maximum above
    [M], its live Allocations and the allocations in flight past the gate are
    together at most [M], and the Scheduler's counter is exactly their number,
    after any interleaving of allocations, failures, releases, aborts and lost
    Leases.  (A Reload that lowers the maximum evicts no Job: then [M] is the
    higher one.) *)
Theorem profile_limit_kept m acts name M :
  0 <= m -> Z.of_nat (length acts) < 2 ^ 64 -> 0 < M -> Forall (act_limited name M) acts ->
  let s := srun m acts in
  use_of name (acct (cor s)) =
    tsum (fun t => wt name (owner_unit t)) (thr s) + asum (vu name) (heap (cor s)) (live (cor s))
  /\ use_of name (acct (cor s)) <= M.
Proof.
  intros Hm Hl HM Hacts s. split; [apply (iv_use _ _ (inv_srun m acts Hm Hl))|].
  enough ((forall p, p ∈ omap is_await (thr s) -> limited name M p) /\ use_of name (acct (cor s)) <= M) by naive_solver.
  unfold s. clear s Hl. induction acts as [|a acts IH] using rev_ind.
  { split; [set_solver|]. unfold use_of. cbn [srun fold_left sys0 cor acct newAccounting profileUse]. rewrite lookup_empty. simpl. lia. }
  apply Forall_app in Hacts as [H1 H2]. rewrite srun_snoc. apply limit_step; [done|by apply Forall_inv in H2|by apply IH].
Qed.

Lemma profile_limit_kept_witness :
  use_of "small" (acct (cor (srun 2 (demo_allocate ++ [AAllocate (demo_r 9) demo_job demo_p; AStep 0 OGo])))) <= 1
  /\ use_of "small" (acct (cor (srun 2 (demo_allocate ++ [AAllocate (demo_r 9) demo_job demo_p; AStep 0 OGo])))) = 1.
Proof.
  split; [|vm_compute; reflexivity].
  refine (proj2 (profile_limit_kept 2 (demo_allocate ++ [AAllocate (demo_r 9) demo_job demo_p; AStep 0 OGo]) "small" 1 _ _ _ _));
    [by_compute|by_compute|by_compute|].
  repeat (apply Forall_cons_2; [first [exact I | intros _; vm_compute; split; [reflexivity|discriminate]]|]). apply Forall_nil_2.
Defined.

(** ** How a Handle changes *)
Record evolves (h h' : handle) : Prop := {
  ev_static : static h' = static h;
  ev_done : h_done h = true -> h_done h' = true /\ h_err h' = h_err h;
  ev_gone : h_leaseGone h = true -> h_leaseGone h' = true;
  ev_err : (h_done h = true <-> is_Some (h_err h)) -> (h_done h' = true <-> is_Some (h_err h'))
}.

Definition evolves_map (hp hp' : gmap Z handle) : Prop :=
  forall k h, hp !! k = Some h -> exists h', hp' !! k = Some h' /\ evolves h h'.

Lemma evolves_refl h : evolves h h.
Proof. by split. Qed.

Lemma evolves_map_refl hp : evolves_map hp hp.
Proof. intros k h Hk. eauto using evolves_refl. Qed.

Lemma evolves_alter hp hid f : (forall h, hp !! hid = Some h -> evolves h (f h)) -> evolves_map hp (alter f hid hp).
Proof.
  intros Hf k h Hk. destruct (decide (hid = k)) as [->|].
  - exists (f h). rewrite lookup_alter_eq, Hk. split; [done|by apply Hf].
  - exists h. rewrite lookup_alter_ne by done. split; [done|apply evolves_refl].
Qed.

Lemma evolves_fail e h : evolves h (fail e h).
Proof.
  unfold fail. destruct (h_done h) eqn:E; [apply evolves_refl|]. split; simpl; [done|congruence|done|].
  intros _. split; eauto.
Qed.
Lemma evolves_stop h : evolves h (stopHeartbeat h).
Proof. unfold stopHeartbeat. destruct (h_stopHeartbeat h); by split. Qed.
Lemma evolves_gone h : evolves h (markLeaseGone h).
Proof. by split. Qed.
Lemma evolves_setLease l h : l_ID l = lease_id h -> evolves h (setLease l h).
Proof. intros Hl. split; try done. by apply static_setLease. Qed.
Lemma evolves_start h : evolves h (h <| h_stopHeartbeat := HbLive |>).
Proof. by split. Qed.
#[export] Hint Resolve evolves_refl evolves_map_refl evolves_fail evolves_stop evolves_gone evolves_start : runner.

Lemma tstep_evolves n l c t o :
  inv n {| cor := c; thr := l |} -> n < 2 ^ 64 - 1 -> t ∈ l -> evolves_map (heap c) (heap (tstep t o c).1).
Proof.
  intros Hinv Hn Hin.
  assert (forall hid f, (forall h, heap c !! hid = Some h -> evolves h (f h)) ->
    evolves_map (heap c) (heap (on_handle hid f c))) as Ha by (intros; by apply evolves_alter).
  destruct t as [w|r job p|r job p|r job p cl now|r p alloc|r p hid|hid|hid|p|hid|hid|hid|hid e|hid|hid|hid|hid|le|hid|hid
    |hid le|hid e|hid e|hid e|hid];
    try (cbn [tstep]; unfold_steps; repeat case_match; simplify_eq; simpl;
         first [apply evolves_map_refl | apply Ha; auto with runner]; fail);
    try (destruct o; cbn [tstep]; repeat case_match; apply evolves_map_refl).
  - cbn [tstep fst]. simpl. destruct Hinv as [I1 I2 _ _ _ _ _ _ _]. simpl in *.
    intros k h Hk. exists h. split; [|apply evolves_refl]. rewrite lookup_insert_ne; [done|].
    destruct (I2 k h Hk) as [_ Hle]. rewrite uint64_id by lia. lia.
  - cbn [tstep]; unfold_steps. destruct (heap c !! hid) as [h|] eqn:Hh; [|apply evolves_map_refl].
    destruct (hb_done h c); [apply evolves_map_refl|]. destruct o; simpl; try apply evolves_map_refl.
    apply Ha. intros x Hx. by apply evolves_setLease.
  - cbn [tstep]; unfold_steps. destruct (heap c !! hid) as [h|] eqn:Hh; [|apply evolves_map_refl].
    destruct (negb _); [apply evolves_map_refl|]. destruct o; simpl; try apply evolves_map_refl.
    apply Ha. intros x Hx. apply evolves_setLease. simpl.
    destruct Hinv as [_ _ _ Hok _ _ _ _ _]. simpl in Hok. rewrite Forall_forall in Hok.
    destruct (Hok _ Hin) as [_ Hl]. simpl in Hl. rewrite Hx in Hl. simpl in Hl. congruence.
Qed.

Lemma evolves_sstep n s a :
  inv n s -> n < 2 ^ 64 - 1 -> evolves_map (heap (cor s)) (heap (cor (sstep s a))).
Proof.
  intros Hinv Hn. destruct s as [c l].
  destruct a as [w|r|r job p|hid|hid|hid|hid e|host| | | | | |i o]; cbn [sstep cor thr]; unfold known;
    try (case_match; apply evolves_map_refl); try apply evolves_map_refl.
  destruct (l !! i) as [t|] eqn:Hi; [|apply evolves_map_refl].
  pose proof (tstep_evolves n l c t o Hinv Hn ltac:(by eapply list_elem_of_lookup_2)) as He.
  by destruct (tstep t o c).
Qed.

(** A Handle is one that was there before, or has just been made. *)
Lemma tstep_heap_new t o c k h' :
  heap (tstep t o c).1 !! k = Some h' -> is_Some (heap c !! k) \/ exists alloc, h' = newHandle k alloc.
Proof.
  assert (forall hid f, alter f hid (heap c) !! k = Some h' -> is_Some (heap c !! k)) as Ha.
  { intros hid f H. destruct (decide (hid = k)) as [->|]; [|rewrite lookup_alter_ne in H by done; eauto].
    rewrite lookup_alter_eq in H. destruct (heap c !! k); [eauto|done]. }
  destruct t, o; cbn [tstep]; unfold_steps; repeat case_match; simplify_eq; simpl;
    intros Hk; first [left; exact (mk_is_Some _ _ Hk) | left; exact (Ha _ _ Hk)
      | apply lookup_insert_Some in Hk as [[<- <-]|[_ Hk]]; [right; by eexists|left; exact (mk_is_Some _ _ Hk)]].
Qed.

Lemma err_iff_done m acts :
  0 <= m -> Z.of_nat (length acts) < 2 ^ 64 ->
  forall k h, heap (cor (srun m acts)) !! k = Some h -> (h_done h = true <-> is_Some (h_err h)).
Proof.
  intros Hm. induction acts as [|a acts IH] using rev_ind; intros Hl k h' Hk; [by cbn in Hk; rewrite lookup_empty in Hk|].
  rewrite srun_snoc in Hk. rewrite length_app in Hl. simpl in Hl. specialize (IH ltac:(lia)).
  pose proof (inv_srun m acts Hm ltac:(lia)) as Hinv.
  assert (is_Some (heap (cor (srun m acts)) !! k) \/ exists alloc, h' = newHandle k alloc) as [[h Hh]|[alloc ->]].
  { revert Hk. generalize (srun m acts) as s. intros s.
    destruct a as [w|r|r job p|hid|hid|hid|hid e|host| | | | | |i o]; cbn [sstep cor thr]; unfold known;
      try (repeat case_match; by eauto).
    destruct (thr s !! i) as [t|] eqn:Hi; [|by eauto]. pose proof (tstep_heap_new t o (cor s) k h').
    by destruct (tstep t o (cor s)). }
  - destruct (evolves_sstep _ _ a Hinv ltac:(lia) k h Hh) as (h2 & H2 & [_ _ _ E]). simplify_eq. apply E. by apply (IH k).
  - simpl. split; [done|by intros [? ?]].
Qed.

(** The first cause wins.  Once a Handle's Done is closed its Err is set
    and no later failure, abort, expiry or shutdown replaces it; as long as
    Done is open Err is nil. *)
Theorem first_cause_wins m acts more k h :
  0 <= m -> Z.of_nat (length (acts ++ more)) < 2 ^ 64 -> heap (cor (srun m acts)) !! k = Some h ->
  exists h', heap (cor (srun m (acts ++ more))) !! k = Some h' /\ lease_id h' = lease_id h
    /\ (h_done h = true -> h_done h' = true /\ h_err h' = h_err h)
    /\ (h_done h' = true <-> is_Some (h_err h')).
Proof.
  intros Hm Hl Hk. enough (exists h', heap (cor (srun m (acts ++ more))) !! k = Some h' /\ lease_id h' = lease_id h
    /\ (h_done h = true -> h_done h' = true /\ h_err h' = h_err h)) as (h' & H' & ? & ?).
  { exists h'. split_and!; try done. by apply (err_iff_done m _ Hm Hl k). }
  revert h Hl Hk. induction more as [|a more IH] using rev_ind; intros h Hl Hk.
  { rewrite app_nil_r. eauto. }
  rewrite app_assoc, srun_snoc. rewrite app_assoc, length_app in Hl. simpl in Hl.
  destruct (IH h) as (h1 & H1 & L1 & D1); [lia|done|].
  pose proof (inv_srun m (acts ++ more) Hm ltac:(lia)) as Hinv.
  destruct (evolves_sstep _ _ a Hinv ltac:(lia) k h1 H1) as (h2 & H2 & [E1 E2 _ _]).
  exists h2. split_and!; [done|rewrite (static_lease _ _ E1); done|].
  intros Hd. destruct (D1 Hd) as [Hd1 He1]. destruct (E2 Hd1) as [-> ->]. done.
Qed.

Lemma first_cause_wins_witness :
  exists h', heap (cor (srun 1 (demo_allocate ++ [AAbort 2 (ESentinel ErrShutdown); AStep 0 OGo] ++
      [AStep 1 (ONotFound (ENew "gone")); AStep 0 OGo; AStep 0 OGo]))) !! 2 = Some h'
    /\ h_err h' = Some (ESentinel ErrShutdown).
Proof.
  destruct (heap (cor (srun 1 (demo_allocate ++ [AAbort 2 (ESentinel ErrShutdown); AStep 0 OGo]))) !! 2) as [h|] eqn:Hh;
    [|vm_compute in Hh; discriminate].
  destruct (first_cause_wins 1 (demo_allocate ++ [AAbort 2 (ESentinel ErrShutdown); AStep 0 OGo])
    [AStep 1 (ONotFound (ENew "gone")); AStep 0 OGo; AStep 0 OGo] 2 h) as (h' & H1 & _ & H2 & _);
    [by_compute|by_compute|exact Hh|].
  exists h'. split; [rewrite app_assoc; exact H1|]. vm_compute in Hh. injection Hh as <-.
  exact (proj2 (H2 eq_refl)).
Defined.

(** ** Only a Lease reported gone is dropped *)
Definition past_gone (t : thread) : option Z :=
  match t with TLostFail hid _ | TLostFinish hid => Some hid | _ => None end.
Definition gone_at (hp : gmap Z handle) (hid : Z) : Prop := exists h, hp !! hid = Some h /\ h_leaseGone h = true.

Lemma gone_at_mono hp hp' hid : evolves_map hp hp' -> gone_at hp hid -> gone_at hp' hid.
Proof. intros He (h & Hh & Hg). destruct (He hid h Hh) as (h' & H' & [_ _ E _]). exists h'. eauto. Qed.

Lemma tstep_lost t o c :
  lost (tstep t o c).1 = lost c
  \/ exists hid h, heap c !! hid = Some h /\ lost (tstep t o c).1 = lease_id h :: lost c
       /\ (h_leaseGone h = true \/ past_gone t = Some hid).
Proof.
  destruct t, o; cbn [tstep]; unfold_steps; unfold leaseIsGone; repeat case_match; simplify_eq; simpl;
    first [by left | by right; do 2 eexists; split; [eassumption|split; [reflexivity|first [by left | by right]]]].
Qed.

Lemma tstep_past_gone t o c :
  (forall hid, thread_handle t = Some hid -> is_Some (heap c !! hid)) ->
  forall t' hid, t' ∈ (tstep t o c).2 -> past_gone t' = Some hid ->
  past_gone t = Some hid \/ gone_at (heap (tstep t o c).1) hid.
Proof.
  intros Hh t' hid Hin Hp.
  assert ((exists e, t = TLost hid e /\ t' = TLostFail hid e) \/ past_gone t = Some hid) as [(e & -> & ->)|?]; [| |by left].
  { destruct t, o; cbn [tstep] in Hin; unfold_steps_in Hin; repeat case_match; simplify_eq;
      simpl in Hin; set_solver. }
  right. destruct (Hh hid eq_refl) as [h H]. exists (markLeaseGone h). simpl. by rewrite lookup_alter_eq, H.
Qed.

Lemma lost_gone m acts :
  0 <= m -> Z.of_nat (length acts) < 2 ^ 64 ->
  let s := srun m acts in
  (forall L, L ∈ lost (cor s) -> exists k h, heap (cor s) !! k = Some h /\ lease_id h = L /\ h_leaseGone h = true)
  /\ (forall t hid, t ∈ thr s -> past_gone t = Some hid -> gone_at (heap (cor s)) hid).
Proof.
  intros Hm. induction acts as [|a acts IH] using rev_ind; intros Hl; [by split; intros; simpl in *; set_solver|].
  rewrite srun_snoc. rewrite length_app in Hl. simpl in Hl. destruct (IH ltac:(lia)) as [IL IT].
  pose proof (inv_srun m acts Hm ltac:(lia)) as Hinv. pose proof (evolves_sstep _ _ a Hinv ltac:(lia)) as He.
  cbv zeta. clear IH. revert Hinv He IL IT. generalize (srun m acts) as s. intros [c l] Hinv He IL IT. cbn [cor thr] in *.
  assert (forall L, L ∈ lost c -> exists k h, heap (cor (sstep {| cor := c; thr := l |} a)) !! k = Some h
    /\ lease_id h = L /\ h_leaseGone h = true) as IL'.
  { intros L (k & h & Hk & <- & Hg)%IL. destruct (He k h Hk) as (h' & H' & [E1 _ E2 _]). exists k, h'.
    split_and!; [done|by apply static_lease|auto]. }
  assert (forall t hid, t ∈ l -> past_gone t = Some hid -> gone_at (heap (cor (sstep {| cor := c; thr := l |} a))) hid) as IT'.
  { intros t hid Hin Hp. eapply gone_at_mono; [exact He|by eapply IT]. }
  destruct a as [w|r|r job p|hid|hid|hid|hid e|host| | | | | |i o]; cbn [sstep cor thr] in *; unfold known in *; cbn [cor thr] in *;
    try (by split);
    try (destruct (heap c !! hid); cbn [cor thr] in *);
    try (by split; [exact IL'|]; intros t x; rewrite ?elem_of_cons, ?elem_of_app, ?list_elem_of_fmap; naive_solver).
  - destruct (l !! i) as [t|] eqn:Hi; [|by split].
    assert (t ∈ l) as Hin by (by eapply list_elem_of_lookup_2).
    pose proof (iv_thr _ _ Hinv) as Hok. simpl in Hok. rewrite Forall_forall in Hok. destruct (Hok t Hin) as [Hh _].
    pose proof (tstep_lost t o c) as HL. pose proof (tstep_past_gone t o c Hh) as HT.
    destruct (tstep t o c) as [c' ts]. cbn [fst snd cor thr] in *. split.
    + destruct HL as [->|(hid & h & Hk & -> & Hg)]; [done|]. intros L [->|HL]%elem_of_cons; [|by apply IL'].
      destruct (He hid h Hk) as (h' & H' & [E1 _ E2 _]). exists hid, h'. split_and!; [done|by apply static_lease|].
      destruct Hg as [Hg|Hg]; [by apply E2|]. destruct (IT t hid Hin Hg) as (x & Hx & Hgx). simplify_eq. by apply E2.
    + intros t' x [Ht'|Ht']%elem_of_app Hp.
      * destruct (HT t' x Ht' Hp) as [?|?]; [by eapply IT'|done].
      * eapply IT'; [|done]. rewrite (delete_Permutation _ _ _ Hi). set_solver.
Qed.

(** A Lease is dropped without a release call only when it was found
    gone: the Handle it belongs to was marked so by [leaseLost], after a
    heartbeat answered NOT_FOUND or an expiry passed, before the drop. *)
Theorem dropped_only_when_gone m acts L :
  0 <= m -> Z.of_nat (length acts) < 2 ^ 64 -> L ∈ lost (cor (srun m acts)) ->
  exists k h, heap (cor (srun m acts)) !! k = Some h /\ lease_id h = L /\ h_leaseGone h = true.
Proof. intros Hm Hl HL. by apply (lost_gone m acts Hm Hl). Qed.

(** The keep-alive loop is told the Lease is gone. *)
Definition demo_lost : list act :=
  demo_allocate ++ [AStep 0 (ONotFound (ESentinel ErrNotFound)); AStep 0 OGo; AStep 0 OGo; AStep 0 OGo].

Lemma dropped_only_when_gone_witness :
  exists k h, heap (cor (srun 1 demo_lost)) !! k = Some h /\ lease_id h = "L1" /\ h_leaseGone h = true.
Proof.
  apply (dropped_only_when_gone 1 demo_lost "L1"); [by_compute|by_compute|].
  assert (lost (cor (srun 1 demo_lost)) = ["L1"]) as -> by (vm_compute; reflexivity). set_solver.
Defined.

(** CheckLease can drop a Lease that is alive.  It compares the clock
    with the expiry it read before its own heartbeat; when the keep-alive
    loop renews the Lease meanwhile (until 500, here) and CheckLease's
    heartbeat then fails at 140, past the old expiry of 130, the Allocation
    is dropped as lost and its Lease is never released, although the expiry
    the Scheduler last received is still ahead. *)
Theorem CheckLease_stale_expiry :
  let renewed := demo_allocate ++ [ACheckLease 2; AStep 0 OGo; AStep 1 (OBeat 500 120)] in
  let after := renewed ++ [AStep 1 (OBeatFailed 140); AStep 0 OGo; AStep 0 OGo; AStep 0 OGo; AStep 0 OGo] in
  (l_ExpiresAt ∘ lease <$> heap (cor (srun 1 renewed)) !! 2) = Some 500
  /\ live_leases (cor (srun 1 renewed)) = ["L1"]
  /\ (l_ExpiresAt ∘ lease <$> heap (cor (srun 1 after)) !! 2) = Some 500
  /\ live_leases (cor (srun 1 after)) = [] /\ lost (cor (srun 1 after)) = ["L1"] /\ released (cor (srun 1 after)) = [].
Proof. vm_compute. split_and!; reflexivity. Qed.
