(* ===== verification/PathMatch.v ===== *)
(** * path.Match, as [ResolveProfile] uses it

    The matcher of Go's [path] package on bytes: a pattern is cut into chunks
    at its stars, a chunk is matched at the leftmost place the star before it
    reaches, and a star never crosses a slash.  [ResolveProfile] treats a
    malformed pattern like one that does not match, so the answer is a
    boolean. *)
From S2P Require Import Prelude GoModel Base64.

Inductive term := Any | Class (negated : bool) (ranges : list (Z * Z)) | Lit (b : Z).

(** [utf8.DecodeRune]: the code point and its width; an invalid byte is
    U+FFFD of width one. *)
Definition cont (b : Z) : bool := (128 <=? b) && (b <=? 191).
Definition decode_rune (s : list Z) : Z * nat :=
  match s with
  | [] => (65533, O)
  | b0 :: s =>
      if b0 <? 128 then (b0, 1%nat) else
      match s with
      | b1 :: s =>
          if (194 <=? b0) && (b0 <=? 223) && cont b1 then ((b0 - 192) * 64 + (b1 - 128), 2%nat) else
          match s with
          | b2 :: s =>
              if (224 <=? b0) && (b0 <=? 239) && cont b1 && cont b2
                 && negb ((b0 =? 224) && (b1 <? 160)) && negb ((b0 =? 237) && (159 <? b1))
              then ((b0 - 224) * 4096 + (b1 - 128) * 64 + (b2 - 128), 3%nat) else
              match s with
              | b3 :: _ =>
                  if (240 <=? b0) && (b0 <=? 244) && cont b1 && cont b2 && cont b3
                     && negb ((b0 =? 240) && (b1 <? 144)) && negb ((b0 =? 244) && (143 <? b1))
                  then ((b0 - 240) * 262144 + (b1 - 128) * 4096 + (b2 - 128) * 64 + (b3 - 128), 4%nat)
                  else (65533, 1%nat)
              | [] => (65533, 1%nat)
              end
          | [] => (65533, 1%nat)
          end
      | [] => (65533, 1%nat)
      end
  end.

(** [getEsc]: one possibly escaped rune of a class, with something after it. *)
Definition getEsc (s : list Z) : option (Z * list Z) :=
  let s := match s with 92 :: s => Some s | 45 :: _ | 93 :: _ | [] => None | s => Some s end in
  s ← s;
  let '(r, n) := decode_rune s in
  match s, drop n s with
  | [], _ => None
  | _, [] => None
  | _, rest => if (r =? 65533) && (n =? 1)%nat then None else Some (r, rest)
  end.

(** The ranges of a class up to its closing bracket. *)
Fixpoint class_ranges (fuel : nat) (s : list Z) (acc : list (Z * Z)) : option (list (Z * Z) * list Z) :=
  match fuel with
  | O => None
  | S fuel =>
      match s, acc with
      | 93 :: s, _ :: _ => Some (rev acc, s)
      | _, _ =>
          '(lo, s1) ← getEsc s;
          match s1 with
          | 45 :: s2 => '(hi, s3) ← getEsc s2; class_ranges fuel s3 ((lo, hi) :: acc)
          | _ => class_ranges fuel s1 ((lo, lo) :: acc)
          end
      end
  end.

(** A pattern as its chunks; the flag says whether a star precedes it. *)
Fixpoint parse (fuel : nat) (s : list Z) (star : bool) (chunk : list term) (acc : list (bool * list term))
    : option (list (bool * list term)) :=
  match fuel with
  | O => None
  | S fuel =>
      match s with
      | [] => Some (rev (if star || negb (bool_decide (chunk = [] :> list term)) then (star, rev chunk) :: acc else acc))
      | 42 :: s =>
          parse fuel s true [] (match chunk with [] => acc | _ => (star, rev chunk) :: acc end)
      | 63 :: s => parse fuel s star (Any :: chunk) acc
      | 91 :: s =>
          let '(neg, s) := match s with 94 :: s => (true, s) | _ => (false, s) end in
          '(rs, s) ← class_ranges (S (length s)) s [];
          parse fuel s star (Class neg rs :: chunk) acc
      | 92 :: b :: s => parse fuel s star (Lit b :: chunk) acc
      | 92 :: [] => None
      | b :: s => parse fuel s star (Lit b :: chunk) acc
      end
  end.

(** [matchChunk] on a well-formed chunk: what is left of the name. *)
Fixpoint matchChunk (chunk : list term) (s : list Z) : option (list Z) :=
  match chunk with
  | [] => Some s
  | t :: chunk =>
      match s with
      | [] => None
      | c :: s' =>
          let '(r, n) := decode_rune s in
          match t with
          | Lit b => if b =? c then matchChunk chunk s' else None
          | Any => if c =? 47 then None else matchChunk chunk (drop n s)
          | Class neg rs =>
              let hit := existsb (fun lh => (lh.1 <=? r) && (r <=? lh.2)) rs in
              if Bool.eqb hit neg then None else matchChunk chunk (drop n s)
          end
      end
  end.

(** The places a star may skip to, up to the first slash: [name[i+1:]]. *)
Fixpoint skips (s : list Z) : list (list Z) :=
  match s with
  | [] => []
  | c :: s => if c =? 47 then [] else s :: skips s
  end.

Definition accept (last : bool) (chunk : list term) (s : list Z) : option (list Z) :=
  t ← matchChunk chunk s;
  if last && negb (bool_decide (t = [])) then None else Some t.

Fixpoint first_accept (last : bool) (chunk : list term) (ss : list (list Z)) : option (list Z) :=
  match ss with
  | [] => None
  | s :: ss => match accept last chunk s with Some t => Some t | None => first_accept last chunk ss end
  end.

Fixpoint match_chunks (chunks : list (bool * list term)) (name : list Z) : bool :=
  match chunks with
  | [] => bool_decide (name = [])
  | (star, chunk) :: rest =>
      if star && bool_decide (chunk = []) then negb (existsb (Z.eqb 47) name) else
      let last := bool_decide (rest = []) in
      match first_accept last chunk (name :: if star then skips name else []) with
      | Some t => match_chunks rest t
      | None => false
      end
  end.

Definition bytes_of (s : string) : list Z := byte_of <$> String.list_ascii_of_string s.

(** [ok, err := path.Match(pattern, name); err == nil && ok]. *)
Definition path_Match (pattern name : string) : bool :=
  match parse (S (length (bytes_of pattern))) (bytes_of pattern) false [] [] with
  | Some chunks => match_chunks chunks (bytes_of name)
  | None => false
  end.

Example path_Match_examples :
  path_Match "golang:*" "golang:1.22" = true /\ path_Match "golang:*" "a/golang:1" = false
  /\ path_Match "*" "a/b" = false /\ path_Match "*/*" "a/b" = true /\ path_Match "go[a-l]?ng" "golang" = true
  /\ path_Match "[^b]a" "ba" = false /\ path_Match "a[" "a" = false /\ path_Match "\*" "*" = true
  /\ path_Match "*go*:1.?" "x-golang:1.2" = true /\ path_Match "" "" = true /\ path_Match "a*b" "aXbYb" = true
  /\ path_Match "a*b*" "a/b" = false.
Proof. vm_compute. split_and!; reflexivity. Qed.

(** A pattern with no special byte matches its own spelling and nothing else. *)
Definition plain (b : Z) : bool := negb (existsb (Z.eqb b) [42; 63; 91; 92]).

Lemma parse_plain s : forall fuel chunk,
  (length s < fuel)%nat -> Forall (fun b => plain b = true) s ->
  parse fuel s false chunk [] =
    Some (match chunk, s with [], [] => [] | _, _ => [(false, rev chunk ++ (Lit <$> s))] end).
Proof.
  induction s as [|b s IH]; intros fuel chunk Hf Hp; (destruct fuel as [|fuel]; [simpl in Hf; lia|]).
  { destruct chunk; simpl; [done|]. by rewrite app_nil_r. }
  pose proof (Forall_inv Hp) as Hb. apply Forall_inv_tail in Hp. simpl in Hf.
  assert (b <> 42 /\ b <> 63 /\ b <> 91 /\ b <> 92) as (N1 & N2 & N3 & N4).
  { unfold plain in Hb. simpl in Hb. destruct (Z.eqb_spec b 42), (Z.eqb_spec b 63), (Z.eqb_spec b 91), (Z.eqb_spec b 92); done. }
  assert (parse (S fuel) (b :: s) false chunk [] = parse fuel s false (Lit b :: chunk) []) as ->.
  { simpl. repeat case_match; done. }
  rewrite IH by (done || lia). f_equal. simpl. rewrite <-app_assoc. by destruct chunk.
Qed.

Lemma matchChunk_lits s t : matchChunk (Lit <$> s) t = if bool_decide (s `prefix_of` t) then Some (drop (length s) t) else None.
Proof.
  revert t. induction s as [|b s IH]; intros t; cbn [fmap list_fmap matchChunk length].
  { rewrite bool_decide_true by apply prefix_nil. done. }
  destruct t as [|c t]; [by rewrite bool_decide_false by apply prefix_nil_not|].
  destruct (decode_rune (c :: t)) as [r n]. destruct (Z.eqb_spec b c) as [->|Hne].
  - rewrite IH. simpl. assert (bool_decide (s `prefix_of` t) = bool_decide (c :: s `prefix_of` c :: t)) as ->; [|done].
    apply bool_decide_ext. split; [apply prefix_cons|apply prefix_cons_inv_2].
  - rewrite bool_decide_false; [done|]. by intros ?%prefix_cons_inv_1.
Qed.

Lemma bytes_of_inj a b : bytes_of a = bytes_of b -> a = b.
Proof.
  unfold bytes_of. intros H. rewrite <-(String.string_of_list_ascii_of_string a), <-(String.string_of_list_ascii_of_string b).
  f_equal. revert H. generalize (String.list_ascii_of_string a), (String.list_ascii_of_string b).
  intros l. induction l as [|x l IH]; intros [|y k]; simpl; try done. intros [= E1 E2].
  f_equal; [|by apply IH]. by rewrite <-(char_of_byte x), <-(char_of_byte y), E1.
Qed.

Lemma path_Match_plain pattern name :
  Forall (fun b => plain b = true) (bytes_of pattern) -> path_Match pattern name = bool_decide (pattern = name).
Proof.
  intros Hp. unfold path_Match. rewrite parse_plain by (done || lia).
  destruct (bytes_of pattern) as [|b s] eqn:E.
  - cbn [match_chunks]. apply bool_decide_ext. rewrite <-E. split; [intros H|by intros ->].
    apply bytes_of_inj. by rewrite H.
  - change (rev [] ++ (Lit <$> b :: s)) with (Lit <$> (b :: s)). rewrite <-E.
    cbn [match_chunks andb first_accept]. unfold accept. rewrite matchChunk_lits.
    destruct (bool_decide (bytes_of pattern `prefix_of` bytes_of name)) eqn:Hpre; bool_to_prop; cbn [mbind option_bind].
    + destruct Hpre as [t Ht]. rewrite Ht, drop_app_length.
      change (bool_decide (@eq (list (bool * list term)) [] [])) with true. cbn [andb].
      case_bool_decide as Ht0; cbn [negb].
      * subst t. rewrite app_nil_r in Ht. rewrite !bool_decide_true by (done || by apply bytes_of_inj). done.
      * rewrite bool_decide_false; [done|]. intros ->. apply Ht0. apply (app_inv_head (bytes_of name)). by rewrite <-Ht, app_nil_r.
    + rewrite bool_decide_false; [done|]. intros ->. by apply Hpre.
Qed.
