(* ===== verification/Resolve.v ===== *)
(** * internal/scheduler/profile.go and placement.go: which Profile, which Host

    [ResolveProfile] is a pure function of the Job and the Profiles.
    [ResolvePlacement] reads the Placement cache, the Host Registry and the
    answers of the Pool Manager and the Hosts, which are arguments. *)
From S2P Require Import Prelude GoModel PoolTypes ConfigTypes SchedTypes Spec PathMatch.

(** ** profile.go *)
Definition find_image (image : string) (profiles : list Profile) : option Profile :=
  snd <$> list_find (fun p => existsb (fun name => String.eqb name image) (p_Images (pr_cfg p)) = true) profiles.
Definition find_glob (image : string) (profiles : list Profile) : option Profile :=
  snd <$> list_find (fun p => existsb (fun pattern => path_Match pattern image) (p_ImageGlobs (pr_cfg p)) = true) profiles.
Definition defaultProfile (profiles : list Profile) : option Profile :=
  snd <$> list_find (fun p => p_Default (pr_cfg p) = true) profiles.

Definition ResolveProfile (allowDefault : bool) (profiles : list Profile) (job : JobInfo) : Profile + sched_error :=
  let fallback := match defaultProfile profiles with Some p => inl p | None => inr (SProfileError (job_Image job)) end in
  if String.eqb (job_Image job) "" then fallback
  else match find_image (job_Image job) profiles with
  | Some p => inl p
  | None =>
      match find_glob (job_Image job) profiles with
      | Some p => inl p
      | None => if allowDefault then fallback else inr (SProfileError (job_Image job))
      end
  end.

(** [p] is the first Profile of the list with the property. *)
Definition first_with (P : Profile -> Prop) (p : Profile) (profiles : list Profile) : Prop :=
  exists before after, profiles = before ++ p :: after /\ P p /\ Forall (fun q => ~ P q) before.
Definition has_image (image : string) (p : Profile) : Prop := image ∈ p_Images (pr_cfg p).
Definition has_glob (image : string) (p : Profile) : Prop :=
  exists g, g ∈ p_ImageGlobs (pr_cfg p) /\ path_Match g image = true.
Definition is_default (p : Profile) : Prop := p_Default (pr_cfg p) = true.

Lemma list_find_first (P : Profile -> Prop) `{!forall p, Decision (P p)} l :
  match snd <$> list_find P l with
  | Some p => first_with P p l
  | None => Forall (fun q => ~ P q) l
  end.
Proof.
  destruct (list_find P l) as [[i p]|] eqn:E; simpl.
  - apply list_find_Some in E as (Hi & HP & Hb). exists (take i l), (drop (S i) l).
    split; [by rewrite take_drop_middle|]. split; [done|]. apply Forall_lookup. intros j q Hj.
    apply lookup_take_Some in Hj as [Hj Hlt]. by apply (Hb j q).
  - by apply list_find_None in E.
Qed.

Lemma first_with_ext (P Q : Profile -> Prop) p l :
  (forall x, P x <-> Q x) -> first_with P p l -> first_with Q p l.
Proof.
  intros H (b & a & -> & Hp & Hb). exists b, a. split; [done|]. split; [by apply H|].
  eapply Forall_impl; [exact Hb|]. intros x Hx. by rewrite <-H.
Qed.

Lemma image_spec image p :
  existsb (fun name => String.eqb name image) (p_Images (pr_cfg p)) = true <-> has_image image p.
Proof.
  rewrite existsb_exists. unfold has_image. split.
  - intros (n & Hin & ->%String.eqb_eq). by apply list_elem_of_In.
  - intros Hin. exists image. split; [by apply list_elem_of_In|apply String.eqb_refl].
Qed.

Lemma glob_spec image p :
  existsb (fun pattern => path_Match pattern image) (p_ImageGlobs (pr_cfg p)) = true <-> has_glob image p.
Proof.
  rewrite existsb_exists. unfold has_glob. split; intros (g & Hin & Hg); exists g; (split; [by apply list_elem_of_In|done]).
Qed.

Lemma not_first (P Q : Profile -> Prop) l : (forall x, P x <-> Q x) -> Forall (fun q => ~ P q) l -> Forall (fun q => ~ Q q) l.
Proof. intros H Hl. eapply Forall_impl; [exact Hl|]. intros x Hx. by rewrite <-H. Qed.

(** Profile resolution.  A Job with an image gets the first Profile that
    lists the image; if none does, the first with a glob that matches it; if
    none does, and unknown images may fall back, or if the Job has no image,
    the first Profile marked default; and an error naming the image in every
    other case. *)
Theorem ResolveProfile_correct allowDefault profiles job :
  let image := job_Image job in
  match ResolveProfile allowDefault profiles job with
  | inl p =>
      (image <> "" /\ first_with (has_image image) p profiles)
      \/ (image <> "" /\ Forall (fun q => ~ has_image image q) profiles /\ first_with (has_glob image) p profiles)
      \/ ((image = "" \/ allowDefault = true /\ Forall (fun q => ~ has_image image q /\ ~ has_glob image q) profiles)
          /\ first_with is_default p profiles)
  | inr e =>
      e = SProfileError image
      /\ (image <> "" -> Forall (fun q => ~ has_image image q /\ ~ has_glob image q) profiles)
      /\ (image = "" \/ allowDefault = true -> Forall (fun q => ~ is_default q) profiles)
  end.
Proof.
  intros image. unfold ResolveProfile. fold image.
  pose proof (list_find_first (fun p => existsb (fun name => String.eqb name image) (p_Images (pr_cfg p)) = true) profiles) as H1.
  pose proof (list_find_first (fun p => existsb (fun g => path_Match g image) (p_ImageGlobs (pr_cfg p)) = true) profiles) as H2.
  pose proof (list_find_first (fun p => p_Default (pr_cfg p) = true) profiles) as H3.
  fold (find_image image profiles) in H1. fold (find_glob image profiles) in H2. fold (defaultProfile profiles) in H3.
  destruct (String.eqb_spec image "") as [He|He].
  { destruct (defaultProfile profiles) as [p|]; [right; right; auto|]. split_and!; [done|done|]. by intros _. }
  destruct (find_image image profiles) as [p|].
  { left. split; [done|]. by eapply first_with_ext; [apply image_spec|]. }
  apply (not_first _ (has_image image)) in H1; [|apply image_spec].
  destruct (find_glob image profiles) as [p|].
  { right; left. split_and!; [done|done|]. by eapply first_with_ext; [apply glob_spec|]. }
  apply (not_first _ (has_glob image)) in H2; [|apply glob_spec].
  assert (Forall (fun q => ~ has_image image q /\ ~ has_glob image q) profiles) as H12 by (by apply Forall_and).
  destruct allowDefault; [|split_and!; naive_solver].
  destruct (defaultProfile profiles) as [p|]; [right; right; auto|]. split_and!; naive_solver.
Qed.

(** ** placement.go *)

(** The Host Registry as the Scheduler reads it: the endpoint of a name, the
    client of a name (or why there is none) and the names. *)
Record Registry := {
  reg_Endpoint : string -> option string; reg_Get : string -> option error; reg_Names : list string }.

Definition allocError (p : Profile) (host : string) (err : error) : sched_error :=
  SAllocationError {| ae_Profile := pr_Name p; ae_Pool := pr_PoolRef p; ae_Host := host; ae_Err := err |}.

Definition cachedPlacement (uid : string) (placements : gmap string Placement) : option Placement :=
  if String.eqb uid "" then None else placements !! uid.

Definition placementFromClaimStatus (claim : Claim) (now : time) : Placement :=
  {| pl_Host := hr_Name (claim_Host claim); pl_Source := PlacementFromClaim; pl_ResolvedAt := now |}.

(** The second component is whether FailureAddressMismatch was counted. *)
Definition placementFromClaim (reg : Registry) (p : Profile) (claim : Claim) (now : time)
    : (Placement + sched_error) * bool :=
  let name := hr_Name (claim_Host claim) in
  match reg_Endpoint reg name with
  | None => (inr (allocError p name (EWrap name [ESentinel ErrHostNotInInventory])), false)
  | Some address =>
      (inl {| pl_Host := name; pl_Source := PlacementFromClaim; pl_ResolvedAt := now |},
       negb (String.eqb (hr_Address (claim_Host claim)) "") && negb (String.eqb (hr_Address (claim_Host claim)) address))
  end.

Definition poolHosts (reg : Registry) (getPool : result (option Pool)) : list string :=
  match getPool with
  | Ok (Some pool) => match sp_FlintlockHosts (pool_Spec pool) with [] => reg_Names reg | hosts => hosts end
  | _ => reg_Names reg
  end.

(** The loop of [placementFromLookup]: what each Host answers GetMicroVM
    with, and the context's error after asking it. *)
Fixpoint lookup_loop (reg : Registry) (getVM : string -> result bool) (ctxErr : string -> option error)
    (p : Profile) (now : time) (total : nat) (uid : string) (hosts : list string) : Placement + sched_error :=
  match hosts with
  | [] => inr (allocError p "" (EWrap ("no host of " +:+ pretty total +:+ " asked has microvm " +:+ uid)
                                 [ESentinel ErrPlacementUnresolved]))
  | name :: hosts =>
      match reg_Get reg name with
      | Some _ => lookup_loop reg getVM ctxErr p now total uid hosts
      | None =>
          match getVM name with
          | Ok true => inl {| pl_Host := name; pl_Source := PlacementFromLookup; pl_ResolvedAt := now |}
          | _ =>
              match ctxErr name with
              | Some e => inr (allocError p "" e)
              | None => lookup_loop reg getVM ctxErr p now total uid hosts
              end
          end
      end
  end.

Definition placementFromLookup (reg : Registry) (getPool : result (option Pool)) (getVM : string -> result bool)
    (ctxErr : string -> option error) (p : Profile) (claim : Claim) (now : time) : Placement + sched_error :=
  let hosts := poolHosts reg getPool in
  lookup_loop reg getVM ctxErr p now (length hosts) (VMUID claim) hosts.

Definition ResolvePlacement (isClaim : bool) (reg : Registry) (placements : gmap string Placement)
    (getPool : result (option Pool)) (getVM : string -> result bool) (ctxErr : string -> option error)
    (p : Profile) (claim : option Claim) (now : time) : Placement + sched_error :=
  match claim with
  | None => inr (allocError p "" (ESentinel ErrPlacementUnresolved))
  | Some claim =>
      match cachedPlacement (VMUID claim) placements with
      | Some cached => inl cached
      | None =>
          if negb (String.eqb (hr_Name (claim_Host claim)) "") then
            if isClaim then inl (placementFromClaimStatus claim now)
            else (placementFromClaim reg p claim now).1
          else placementFromLookup reg getPool getVM ctxErr p claim now
      end
  end.

(** The Host the fan-out settles on. *)
Definition owns (reg : Registry) (getVM : string -> result bool) (name : string) : Prop :=
  reg_Get reg name = None /\ getVM name = Ok true.

Lemma lookup_loop_ok reg getVM ctxErr p now n uid hosts pl :
  lookup_loop reg getVM ctxErr p now n uid hosts = inl pl ->
  exists before after, hosts = before ++ pl_Host pl :: after /\ owns reg getVM (pl_Host pl)
    /\ Forall (fun h => ~ owns reg getVM h) before /\ pl_Source pl = PlacementFromLookup.
Proof.
  induction hosts as [|h hosts IH]; simpl; [done|].
  destruct (reg_Get reg h) as [e|] eqn:Eg.
  { intros (b & a & -> & H1 & H2 & H3)%IH. exists (h :: b), a. split_and!; try done.
    constructor; [|done]. intros [H _]. congruence. }
  destruct (getVM h) as [[]|e] eqn:Ev.
  { intros [= <-]. by exists [], hosts. }
  all: destruct (ctxErr h); [done|]; intros (b & a & -> & H1 & H2 & H3)%IH; exists (h :: b), a; split_and!; try done;
    (constructor; [|done]); intros [_ H]; congruence.
Qed.

Lemma lookup_loop_err reg getVM ctxErr p now n uid hosts e :
  lookup_loop reg getVM ctxErr p now n uid hosts = inr e ->
  (sched_Is e ErrPlacementUnresolved = true /\ Forall (fun h => ~ owns reg getVM h) hosts)
  \/ exists h err, h ∈ hosts /\ ctxErr h = Some err /\ e = allocError p "" err.
Proof.
  induction hosts as [|h hosts IH]; simpl; [intros [= <-]; left; by split|].
  destruct (reg_Get reg h) as [ge|] eqn:Eg.
  { intros [[H1 H2]|(x & err & H1 & H2)]%IH; [left|right; exists x, err; set_solver]. split; [done|].
    constructor; [intros [H _]; congruence|done]. }
  destruct (getVM h) as [[]|ve] eqn:Ev; [done| |].
  all: destruct (ctxErr h) as [err|] eqn:Ec; [intros [= <-]; right; exists h, err; set_solver|].
  all: intros [[H1 H2]|(x & err & H1 & H2)]%IH; [left|right; exists x, err; set_solver]; split; [done|];
    (constructor; [intros [_ H]; congruence|done]).
Qed.

Lemma lookup_loop_named reg getVM ctxErr p now n uid hosts e :
  lookup_loop reg getVM ctxErr p now n uid hosts = inr e -> exists host err, e = allocError p host err.
Proof.
  induction hosts as [|h hosts IH]; simpl; [intros [= <-]; by eexists _, _|].
  destruct (reg_Get reg h); [done|]. destruct (getVM h) as [[]|]; [done| |];
    (destruct (ctxErr h); [intros [= <-]; by eexists _, _|done]).
Qed.

(** Every error of [ResolvePlacement] is an allocation error of the Profile. *)
Lemma ResolvePlacement_named isClaim reg placements getPool getVM ctxErr p claim now e :
  ResolvePlacement isClaim reg placements getPool getVM ctxErr p claim now = inr e -> exists host err, e = allocError p host err.
Proof.
  unfold ResolvePlacement, placementFromClaim, placementFromLookup. destruct claim as [claim|]; [|intros [= <-]; by eexists _, _].
  destruct (cachedPlacement _ _); [done|]. destruct (negb _); [|apply lookup_loop_named].
  destruct isClaim; [done|]. destruct (reg_Endpoint _ _); simpl; [done|]. intros [= <-]. by eexists _, _.
Qed.

(** Where a MicroVM is.  A Placement that was not cached names the Host
    the claim named, which outside the claim backend is one the Registry
    knows, or the first Host of the fan-out that has a client and has the
    MicroVM.  Without one the error is "not in the inventory" exactly for a
    claimed Host the Registry does not know, and otherwise "unresolved" only
    when no Host asked has the MicroVM, or the context's own error. *)
Theorem ResolvePlacement_correct isClaim reg placements getPool getVM ctxErr p claim now :
  cachedPlacement (VMUID claim) placements = None ->
  let name := hr_Name (claim_Host claim) in
  let hosts := poolHosts reg getPool in
  match ResolvePlacement isClaim reg placements getPool getVM ctxErr p (Some claim) now with
  | inl pl =>
      (name <> "" /\ pl_Host pl = name /\ pl_Source pl = PlacementFromClaim
         /\ (isClaim = true \/ is_Some (reg_Endpoint reg name)))
      \/ (name = "" /\ pl_Source pl = PlacementFromLookup /\ exists before after,
            hosts = before ++ pl_Host pl :: after /\ owns reg getVM (pl_Host pl)
            /\ Forall (fun h => ~ owns reg getVM h) before)
  | inr e =>
      (name <> "" /\ isClaim = false /\ reg_Endpoint reg name = None /\ sched_Is e ErrHostNotInInventory = true)
      \/ (name = "" /\ sched_Is e ErrPlacementUnresolved = true /\ Forall (fun h => ~ owns reg getVM h) hosts)
      \/ (name = "" /\ exists h err, h ∈ hosts /\ ctxErr h = Some err /\ e = allocError p "" err)
  end.
Proof.
  intros Hc name hosts. unfold ResolvePlacement. rewrite Hc. fold name.
  destruct (String.eqb_spec name "") as [He|He]; simpl.
  - unfold placementFromLookup. fold hosts. destruct (lookup_loop _ _ _ _ _ _ _ _) as [pl|e] eqn:E.
    + apply lookup_loop_ok in E as (b & a & H1 & H2 & H3 & H4). right. split_and!; try done. by exists b, a.
    + apply lookup_loop_err in E as [[H1 H2]|H]; [right; left; by split_and!|right; right; by split].
  - destruct isClaim; simpl; [left; by auto|]. unfold placementFromClaim. fold name.
    destruct (reg_Endpoint reg name) as [a|] eqn:Ea; simpl; [left; split_and!; eauto|left; by split_and!].
Qed.

Definition demo_reg : Registry :=
  {| reg_Endpoint := fun n => if String.eqb n "h1" || String.eqb n "h2" then Some (n +:+ ":9090") else None;
     reg_Get := fun n => if String.eqb n "h1" || String.eqb n "h2" then None else Some (ESentinel HostErrUnknownHost);
     reg_Names := ["h1"; "h2"] |}.

Lemma ResolvePlacement_correct_witness :
  let p := {| pr_cfg := demo_profile; pr_PoolRef := {| ref_Name := "small"; ref_Namespace := "ns" |} |} in
  let claim := {| LeaseID := "l"; VMUID := "u"; NetworkInterfaces := []; claim_Host := {| hr_Name := ""; hr_Address := "" |} |} in
  let getVM h := if String.eqb h "h2" then Ok true else Err (ESentinel HostErrNotFound) in
  match ResolvePlacement false demo_reg ∅ (Err (ESentinel ErrUnavailable)) getVM (fun _ => None) p (Some claim) 5 with
  | inl pl => owns demo_reg getVM (pl_Host pl)
  | inr _ => False
  end.
Proof.
  intros p claim getVM.
  pose proof (ResolvePlacement_correct false demo_reg (∅ : gmap string Placement) (Err (ESentinel ErrUnavailable)) getVM
    (fun _ => None) p claim 5 eq_refl) as H. vm_compute in H |- *.
  destruct H as [(H & _)|(_ & _ & b & a & _ & H & _)]; [by destruct H|exact H].
Defined.
