(* ===== verification/Loops.v ===== *)
(** * The background loops of internal/scheduler: heartbeat.go, release.go, agentprobe.go

    The pacing of the keep-alive loop, the retry ladder of [releaseLease] and
    the Exec Agent probe.  A loop is a function of the answers it gets, round
    by round. *)
From S2P Require Import Prelude GoModel PoolTypes ConfigTypes SchedTypes Clock.

(** ** heartbeat.go *)
Definition minHeartbeatDelay : duration := millisecond.

Section Backoffs.
Context {B : Type} `{Backoff B}.

Definition heartbeatDelay (lease : Lease) (now : time) (interval : duration) (backoff : B) (attempt : Z) : duration :=
  let d := Z.quot (time_Sub (l_ExpiresAt lease) now) 2 in
  let d := if (0 <? interval) && (interval <? d) then interval else d in
  let d := if 0 <? attempt then (if Next backoff (attempt - 1) <? d then Next backoff (attempt - 1) else d) else d in
  if d <? minHeartbeatDelay then minHeartbeatDelay else d.

(** The Lease is heartbeated in time.  The wait before a heartbeat is
    positive and is at most half of what is left on the Lease, the Pool's
    interval and, after a failure, the backoff, or one millisecond where one
    of these is shorter; so while at least two milliseconds are left the next
    heartbeat is sent before the expiry with at least half of the remaining
    time to spare, and one lost call is not enough to lose the Lease. *)
Theorem heartbeatDelay_in_time lease now interval backoff attempt :
  now < l_ExpiresAt lease -> l_ExpiresAt lease - now <= maxDuration ->
  let left := l_ExpiresAt lease - now in
  let d := heartbeatDelay lease now interval backoff attempt in
  0 < d <= Z.max millisecond (left / 2)
  /\ (0 < interval -> d <= Z.max millisecond interval)
  /\ (0 < attempt -> d <= Z.max millisecond (Next backoff (attempt - 1)))
  /\ (2 * millisecond <= left -> now + d < l_ExpiresAt lease /\ left / 2 <= l_ExpiresAt lease - (now + d)).
Proof.
  intros Hlt Hmax left d.
  assert (Z.quot (time_Sub (l_ExpiresAt lease) now) 2 = left / 2) as Hq.
  { rewrite time_Sub_exact by (unfold minDuration; lia). fold left. apply Z.quot_div_nonneg; lia. }
  assert (0 <= left / 2) by (apply Z.div_pos; lia).
  subst d. unfold heartbeatDelay. rewrite Hq. unfold minHeartbeatDelay, millisecond.
  set (x := left / 2) in *. set (b := Next backoff (attempt - 1)).
  assert (2 * x <= left) by (subst x; Z.div_mod_to_equations; lia).
  assert (left <= 2 * x + 1) by (subst x; Z.div_mod_to_equations; lia).
  clearbody x b.
  destruct (Z.ltb_spec 0 interval), (Z.ltb_spec interval x), (Z.ltb_spec 0 attempt); simpl;
    repeat match goal with |- context [?a <? ?b] => destruct (Z.ltb_spec a b) end; split_and!; lia.
Qed.

(** ** release.go: [releaseLease] *)
Inductive release_end := RReleased | RGaveUp | RAbandoned | ROutOfFuel.

(** [answer i] is what attempt [i] gets from ReleaseVM, [bgDone i] whether the
    Scheduler finished shutting down during the wait after it.  The result is
    how it ended, the number of calls and the waits. *)
Fixpoint releaseLease_loop (fuel : nat) (limit : Z) (backoff : B) (answer : Z -> option error) (bgDone : Z -> bool)
    (attempt : Z) : release_end * Z * list duration :=
  match fuel with
  | O => (ROutOfFuel, 0, [])
  | S fuel =>
      match answer attempt with
      | None => (RReleased, 1, [])
      | Some err =>
          if errors_Is err ErrNotFound then (RReleased, 1, [])
          else if limit <=? attempt then (RGaveUp, 1, [])
          else if bgDone attempt then (RAbandoned, 1, [Next backoff attempt])
          else
            let '(r, n, ws) := releaseLease_loop fuel limit backoff answer bgDone (attempt + 1) in
            (r, n + 1, Next backoff attempt :: ws)
      end
  end.

(** [releaseRetryLimit]: at least one retry. *)
Definition releaseRetryLimit (pm : PoolManagerConfig) : Z :=
  or_default (pm_ReleaseRetryLimit pm) DefaultPoolManagerReleaseRetry.

Definition releaseLease (pm : PoolManagerConfig) (backoff : B) (answer : Z -> option error) (bgDone : Z -> bool)
    : release_end * Z * list duration :=
  let limit := releaseRetryLimit pm in
  releaseLease_loop (S (Z.to_nat limit)) limit backoff answer bgDone 0.

Definition releases (answer : Z -> option error) (i : Z) : bool :=
  match answer i with None => true | Some e => errors_Is e ErrNotFound end.

Lemma releaseLease_loop_spec fuel limit backoff answer bgDone attempt :
  0 <= attempt <= limit -> limit - attempt < Z.of_nat fuel ->
  let '(r, n, ws) := releaseLease_loop fuel limit backoff answer bgDone attempt in
  1 <= n <= limit - attempt + 1
  /\ (forall i, attempt <= i < attempt + n - 1 -> releases answer i = false /\ bgDone i = false)
  /\ match r with
     | RReleased => releases answer (attempt + n - 1) = true
     | RGaveUp => n = limit - attempt + 1 /\ releases answer limit = false
     | RAbandoned => releases answer (attempt + n - 1) = false /\ bgDone (attempt + n - 1) = true
     | ROutOfFuel => False
     end.
Proof.
  revert attempt. induction fuel as [|fuel IH]; intros attempt Ha Hf; [lia|]. simpl.
  assert (releases answer attempt = match answer attempt with None => true | Some e => errors_Is e ErrNotFound end) as Hr by done.
  destruct (answer attempt) as [err|].
  2:{ split_and!; try lia. by replace (attempt + 1 - 1) with attempt by lia. }
  destruct (errors_Is err ErrNotFound).
  { split_and!; try lia. by replace (attempt + 1 - 1) with attempt by lia. }
  destruct (Z.leb_spec limit attempt).
  { assert (attempt = limit) by lia. subst. split_and!; try lia. done. }
  destruct (bgDone attempt) eqn:Hb.
  { split_and!; try lia; by replace (attempt + 1 - 1) with attempt by lia. }
  specialize (IH (attempt + 1) ltac:(lia) ltac:(lia)).
  destruct (releaseLease_loop fuel limit backoff answer bgDone (attempt + 1)) as [[r n] ws].
  destruct IH as (I1 & I2 & I3). split; [lia|]. split.
  - intros i Hi. destruct (decide (i = attempt)) as [->|]; [done|]. apply I2. lia.
  - replace (attempt + (n + 1) - 1) with (attempt + 1 + n - 1) by lia. destruct r; try done. split; [lia|tauto].
Qed.

(** The release ladder ends.  [releaseLease] makes at least one and at
    most the configured limit plus one ReleaseVM calls; it stops at the first
    call that succeeds or answers NOT_FOUND, gives up only after all of them
    failed, and otherwise stops early only because the Scheduler finished
    shutting down. *)
Theorem releaseLease_bounded pm backoff answer bgDone :
  let limit := releaseRetryLimit pm in
  let '(r, n, ws) := releaseLease pm backoff answer bgDone in
  1 <= n <= limit + 1 /\ 1 <= limit
  /\ (forall i, 0 <= i < n - 1 -> releases answer i = false /\ bgDone i = false)
  /\ match r with
     | RReleased => releases answer (n - 1) = true
     | RGaveUp => n = limit + 1 /\ releases answer limit = false
     | RAbandoned => releases answer (n - 1) = false /\ bgDone (n - 1) = true
     | ROutOfFuel => False
     end.
Proof.
  intros limit. assert (1 <= limit) as Hl.
  { unfold limit, releaseRetryLimit. pose proof (or_default_pos (pm_ReleaseRetryLimit pm) DefaultPoolManagerReleaseRetry).
    unfold DefaultPoolManagerReleaseRetry in *. lia. }
  unfold releaseLease. fold limit.
  pose proof (releaseLease_loop_spec (S (Z.to_nat limit)) limit backoff answer bgDone 0 ltac:(lia) ltac:(lia)) as Hs.
  destruct (releaseLease_loop _ _ _ _ _ _) as [[r n] ws]. destruct Hs as (S1 & S2 & S3).
  split_and!; try lia.
  - intros i Hi. apply S2. lia.
  - replace (0 + n - 1) with (n - 1) in S3 by lia. destruct r; try done. split; [lia|tauto].
Qed.
End Backoffs.

Lemma heartbeatDelay_in_time_witness :
  let l := {| l_ID := "l"; l_Pool := {| ref_Name := "p"; ref_Namespace := "n" |}; l_ExpiresAt := 30 * second; l_LastHeartbeatAt := 0 |} in
  let d := heartbeatDelay l 0 (20 * second) {| Base := second; Max := 0 |} 0 in
  d = 15 * second /\ 0 + d < 30 * second.
Proof.
  intros l d. split; [vm_compute; reflexivity|].
  destruct (heartbeatDelay_in_time l 0 (20 * second) {| Base := second; Max := 0 |} 0) as (_ & _ & _ & H);
    [by_compute|by_compute|]. exact (proj1 (H ltac:(by_compute))).
Defined.

(** ** agentprobe.go *)

(** One round: whether the Allocation ended before the probe, the probe's
    error, and whether the Allocation ended while it was in flight. *)
Record agent_round := { ar_before : bool; ar_err : option error; ar_after : bool }.
Inductive agent_end := AgentStopped | AgentAborted (failures : Z) (cause : error) | AgentProbing (failures : Z).

Fixpoint agentProbeLoop (threshold : Z) (rounds : list agent_round) (failures : Z) : agent_end :=
  match rounds with
  | [] => AgentProbing failures
  | r :: rounds =>
      if ar_before r then AgentStopped
      else if ar_after r then AgentStopped
      else match ar_err r with
      | None => agentProbeLoop threshold rounds 0
      | Some e =>
          if threshold <=? failures + 1 then AgentAborted (failures + 1) e
          else agentProbeLoop threshold rounds (failures + 1)
      end
  end.

Definition agent_alive (r : agent_round) : bool := negb (ar_before r) && negb (ar_after r).
Definition agent_failed (r : agent_round) : bool := agent_alive r && bool_decide (is_Some (ar_err r)).

(** How many rounds at the end failed in a row, given a count to start from. *)
Fixpoint streak (rounds : list agent_round) (start : Z) : Z :=
  match rounds with [] => start | r :: rounds => streak rounds (if bool_decide (is_Some (ar_err r)) then start + 1 else 0) end.

Fixpoint max_streak (rounds : list agent_round) (start : Z) : Z :=
  match rounds with
  | [] => 0
  | r :: rounds => let k := if bool_decide (is_Some (ar_err r)) then start + 1 else 0 in Z.max k (max_streak rounds k)
  end.

Lemma agentProbeLoop_alive threshold rounds k :
  Forall (fun r => agent_alive r = true) rounds -> max_streak rounds k < threshold ->
  agentProbeLoop threshold rounds k = AgentProbing (streak rounds k).
Proof.
  revert k. induction rounds as [|r rounds IH]; intros k Ha Hm; simpl in *; [done|].
  pose proof (Forall_inv Ha) as Hr. apply Forall_inv_tail in Ha. unfold agent_alive in Hr. bool_to_prop.
  destruct (ar_before r), (ar_after r); try done. destruct (ar_err r) as [e|]; simpl in *.
  - destruct (Z.leb_spec threshold (k + 1)); [lia|]. apply IH; [done|lia].
  - apply IH; [done|lia].
Qed.

Lemma agentProbeLoop_failing threshold fails k :
  0 <= k < threshold -> k + Z.of_nat (length fails) = threshold -> Forall (fun r => agent_failed r = true) fails ->
  exists e, agentProbeLoop threshold fails k = AgentAborted threshold e.
Proof.
  revert k. induction fails as [|r fails IH]; intros k Hk Hl Hf; simpl in *; [lia|].
  pose proof (Forall_inv Hf) as Hr. apply Forall_inv_tail in Hf. unfold agent_failed, agent_alive in Hr. bool_to_prop.
  destruct (ar_before r), (ar_after r); try done. destruct (ar_err r) as [e|]; [|by destruct H0].
  destruct (Z.leb_spec threshold (k + 1)); [exists e; f_equal; lia|]. apply IH; [lia|lia|done].
Qed.

Lemma agentProbeLoop_app threshold a b k j :
  agentProbeLoop threshold a k = AgentProbing j -> agentProbeLoop threshold (a ++ b) k = agentProbeLoop threshold b j.
Proof.
  revert k. induction a as [|r a IH]; intros k; simpl; [by intros [= ->]|].
  destruct (ar_before r), (ar_after r); try done. destruct (ar_err r); [|by apply IH].
  destruct (_ <=? _); [done|by apply IH].
Qed.

(** An agent that stops answering costs the Job after exactly the
    threshold.  While the Allocation lives, the loop goes on as long as no
    [threshold] consecutive probes failed, and from a passing probe on,
    [threshold] failures in a row abort the Job with that count; a passing
    probe in between starts the count again. *)
Theorem agentProbeLoop_threshold threshold rounds ok fails :
  0 < threshold -> Forall (fun r => agent_alive r = true) rounds -> max_streak rounds 0 < threshold ->
  agent_alive ok = true -> ar_err ok = None ->
  Forall (fun r => agent_failed r = true) fails -> Z.of_nat (length fails) = threshold ->
  agentProbeLoop threshold rounds 0 = AgentProbing (streak rounds 0)
  /\ exists e, agentProbeLoop threshold (rounds ++ ok :: fails) 0 = AgentAborted threshold e.
Proof.
  intros Ht Ha Hm Hok He Hf Hl. pose proof (agentProbeLoop_alive threshold rounds 0 Ha Hm) as Hp. split; [done|].
  rewrite (agentProbeLoop_app _ _ _ _ _ Hp). unfold agent_alive in Hok. bool_to_prop. simpl.
  destruct (ar_before ok), (ar_after ok); try done. rewrite He. by apply agentProbeLoop_failing.
Qed.

Lemma agentProbeLoop_threshold_witness :
  let pass := {| ar_before := false; ar_err := None; ar_after := false |} in
  let miss := {| ar_before := false; ar_err := Some (ENew "x"); ar_after := false |} in
  exists e, agentProbeLoop 3 ([miss; miss] ++ pass :: [miss; miss; miss]) 0 = AgentAborted 3 e.
Proof.
  intros pass miss.
  refine (proj2 (agentProbeLoop_threshold 3 [miss; miss] pass [miss; miss; miss] _ _ _ _ _ _ _));
    first [by_compute | repeat constructor].
Defined.
