(* ===== verification/HostTable.v ===== *)
(** * internal/scheduler/health.go: the Host health table

    The table [s.hosts], the throttle of the repeating log lines and the
    operations on both: [resetHostsLocked], [probeHost], [recordProbe],
    [infoAlreadyLogged], [throttled] and [unthrottle].  Probes of different
    Hosts run in parallel and a Reload replaces the table at any time, so the
    theorems are about an arbitrary sequence of critical sections. *)
From S2P Require Import Prelude GoModel PoolTypes ConfigTypes SchedTypes.

Record hostState := {
  hs_healthy : bool; hs_failures : Z; hs_lastProbeAt : time; hs_info : option HostInfo; hs_infoLogged : string }.
#[export] Instance eta_hostState : Eta hostState :=
  fun r => {| hs_healthy := hs_healthy r; hs_failures := hs_failures r; hs_lastProbeAt := hs_lastProbeAt r;
              hs_info := hs_info r; hs_infoLogged := hs_infoLogged r |}.

(** The fields [hosts] and [throttle] of the Scheduler. *)
Record hostTable := { hosts : gmap string hostState; throttle : gmap string time }.
#[export] Instance eta_hostTable : Eta hostTable :=
  fun r => {| hosts := hosts r; throttle := throttle r |}.

Definition throttleWindow : duration := minute.

Definition hostHealthInterval (c : SchedulerConfig) : duration :=
  or_default (sc_HostHealthInterval c) DefaultHostHealthInterval.
Definition hostCallDeadline (c : SchedulerConfig) : duration :=
  or_default (sc_HostCallDeadline c) DefaultHostCallDeadline.
Definition hostUnhealthyThreshold (c : SchedulerConfig) : Z :=
  or_default (sc_HostUnhealthyThreshold c) DefaultHostUnhealthyThreshold.

(** ** Operations *)
Definition newHostState : hostState :=
  {| hs_healthy := true; hs_failures := 0; hs_lastProbeAt := 0; hs_info := None; hs_infoLogged := "" |}.

(** One entry per Host of the Inventory, the old one where there is one. *)
Definition resetHostsLocked (inventory : list HostEntry) (t : hostTable) : hostTable :=
  t <| hosts := fold_left (fun next h =>
         <[he_Name h := default newHostState (hosts t !! he_Name h)]> next) inventory ∅ |>.

Definition inventoryHosts (t : hostTable) : list string := (map_to_list (hosts t)).*1.

(** What one probe of a Host met: the Registry's [Get], then [ServerInfo],
    then, when that is not implemented, [ListMicroVMs]. *)
Record probeAnswers := {
  pa_Get : option error; pa_ServerInfo : result (option HostInfo); pa_ListMicroVMs : option error }.

(** The [info] and the error [probeHost] calls [recordProbe] with. *)
Definition probeHost (name : string) (a : probeAnswers) : option HostInfo * option error :=
  match pa_Get a with
  | Some err => (None, Some (EWrap ("host " +:+ name) [err]))
  | None =>
      match pa_ServerInfo a with
      | Ok info => (info, None)
      | Err err =>
          if errors_Is err HostErrUnimplemented then
            match pa_ListMicroVMs a with
            | Some listErr =>
                (None, Some (EWrap ("host " +:+ name +:+ ": server info unimplemented and list failed") [listErr]))
            | None =>
                (Some {| hi_Name := name; hi_VersionKnown := false; hi_Version := "";
                         hi_ExecEnabled := false; hi_SSHProxyEnabled := false |}, None)
            end
          else (None, Some (EWrap ("host " +:+ name +:+ ": server info") [err]))
      end
  end.

(** Which line [recordProbe] logs, and what it calls, after it unlocks. *)
Inductive transition := BecameHealthy | BecameUnhealthy | ProbeFailed | ProbePassed.
#[export] Instance transition_eq_dec : EqDecision transition.
Proof. solve_decision. Defined.

Definition recordState (threshold : Z) (now : time) (info : option HostInfo) (probeErr : option error)
    (st : hostState) : hostState * transition :=
  let st := st <| hs_lastProbeAt := now |> in
  match probeErr with
  | None =>
      let st := st <| hs_failures := 0 |> in
      let st := match info with Some i => st <| hs_info := Some i |> | None => st end in
      if negb (hs_healthy st) then (st <| hs_healthy := true |>, BecameHealthy) else (st, ProbePassed)
  | Some _ =>
      let st := st <| hs_failures := hs_failures st + 1 |> in
      if hs_healthy st && (threshold <=? hs_failures st) then (st <| hs_healthy := false |>, BecameUnhealthy)
      else (st, ProbeFailed)
  end.

(** The critical section of [recordProbe]: [None] when the Host is no longer
    in the table and the result is dropped. *)
Definition recordLocked (threshold : Z) (now : time) (name : string) (info : option HostInfo)
    (probeErr : option error) (t : hostTable) : hostTable * option transition :=
  match hosts t !! name with
  | None => (t, None)
  | Some st =>
      let '(st, tr) := recordState threshold now info probeErr st in
      (t <| hosts := <[name := st]> (hosts t) |>, Some tr)
  end.

Definition throttled (key : string) (now : time) (t : hostTable) : hostTable * bool :=
  match throttle t !! key with
  | Some last =>
      if time_Sub now last <? throttleWindow then (t, true)
      else (t <| throttle := <[key := now]> (throttle t) |>, false)
  | None => (t <| throttle := <[key := now]> (throttle t) |>, false)
  end.

Definition unthrottle (key : string) (t : hostTable) : hostTable :=
  t <| throttle := delete key (throttle t) |>.

Definition format_t (b : bool) : string := if b then "true" else "false".
Definition seenInfo (i : HostInfo) : string :=
  format_t (hi_VersionKnown i) +:+ "/" +:+ hi_Version i +:+ "/" +:+ format_t (hi_ExecEnabled i)
    +:+ "/" +:+ format_t (hi_SSHProxyEnabled i).

Definition infoAlreadyLogged (name : string) (i : HostInfo) (t : hostTable) : hostTable * bool :=
  match hosts t !! name with
  | None => (t, false)
  | Some st =>
      if String.eqb (hs_infoLogged st) (seenInfo i) then (t, true)
      else (t <| hosts := <[name := st <| hs_infoLogged := seenInfo i |>]> (hosts t) |>, false)
  end.

(** What a probe does besides changing the table: the Jobs on the Host are
    aborted ([hostUnhealthy]), or a line is logged. *)
Inductive hostEffect := AbortJobs (name : string) | LogHealthy (name : string) | LogFailed (name : string) | LogInfo (name : string).

Definition probeKey (name : string) : string := "probefail:" +:+ name.

Definition recordProbe (threshold : Z) (now later : time) (name : string) (info : option HostInfo)
    (probeErr : option error) (t : hostTable) : hostTable * list hostEffect :=
  match recordLocked threshold now name info probeErr t with
  | (t, None) => (t, [])
  | (t, Some BecameHealthy) => (unthrottle (probeKey name) t, [LogHealthy name])
  | (t, Some BecameUnhealthy) => (t, [AbortJobs name])
  | (t, Some ProbeFailed) =>
      let '(t, quiet) := throttled (probeKey name) later t in (t, if quiet then [] else [LogFailed name])
  | (t, Some ProbePassed) =>
      match info with
      | Some i => let '(t, logged) := infoAlreadyLogged name i t in (t, if logged then [] else [LogInfo name])
      | None => (t, [])
      end
  end.

(** ** The critical sections, in any order *)
Inductive hostOp :=
  | ORecord (name : string) (a : probeAnswers) (now : time)
  | OThrottled (key : string) (now : time)
  | OUnthrottle (key : string)
  | OInfoLogged (name : string) (i : HostInfo)
  | OReset (inventory : list HostEntry).

Definition hostStep (threshold : Z) (t : hostTable) (op : hostOp) : hostTable :=
  match op with
  | ORecord name a now =>
      let '(info, err) := probeHost name a in (recordLocked threshold now name info err t).1
  | OThrottled key now => (throttled key now t).1
  | OUnthrottle key => unthrottle key t
  | OInfoLogged name i => (infoAlreadyLogged name i t).1
  | OReset inventory => resetHostsLocked inventory t
  end.

(** [New] seeds the table from the Inventory it is given. *)
Definition newHostTable (inventory : list HostEntry) : hostTable :=
  resetHostsLocked inventory {| hosts := ∅; throttle := ∅ |}.
Definition hostRun (threshold : Z) (inventory : list HostEntry) (ops : list hostOp) : hostTable :=
  fold_left (hostStep threshold) ops (newHostTable inventory).

(** The abstract Host: [None] outside the Inventory, [Some k] in it and with
    its last [k] probes failed.  A probe passes when the Host answers
    [ServerInfo], or answers that it has no [ServerInfo] but lists its
    MicroVMs. *)
Definition probePasses (a : probeAnswers) : bool :=
  match pa_Get a, pa_ServerInfo a, pa_ListMicroVMs a with
  | Some _, _, _ => false
  | None, Ok _, _ => true
  | None, Err e, None => errors_Is e HostErrUnimplemented
  | None, Err _, Some _ => false
  end.

Definition inInventory (name : string) (inventory : list HostEntry) : bool :=
  existsb (fun h => String.eqb (he_Name h) name) inventory.

Definition streakStep (name : string) (k : option Z) (op : hostOp) : option Z :=
  match op with
  | ORecord n a _ => if String.eqb n name then (fun k => if probePasses a then 0 else k + 1) <$> k else k
  | OReset inventory => if inInventory name inventory then Some (default 0 k) else None
  | _ => k
  end.
Definition streak (name : string) (inventory : list HostEntry) (ops : list hostOp) : option Z :=
  fold_left (streakStep name) ops (streakStep name None (OReset inventory)).

(** The table represents the abstract Host. *)
Definition represents (threshold : Z) (name : string) (t : hostTable) (k : option Z) : Prop :=
  match hosts t !! name, k with
  | None, None => True
  | Some st, Some k => hs_failures st = k /\ 0 <= k /\ hs_healthy st = (k <? threshold)
  | _, _ => False
  end.

Lemma probeHost_passes name a : (probeHost name a).2 = None <-> probePasses a = true.
Proof.
  unfold probeHost, probePasses.
  destruct (pa_Get a); [done|]. destruct (pa_ServerInfo a) as [|e]; [by destruct (pa_ListMicroVMs a)|].
  destruct (pa_ListMicroVMs a); simpl; destruct (errors_Is e HostErrUnimplemented); done.
Qed.

Lemma reset_lookup inventory t name :
  hosts (resetHostsLocked inventory t) !! name =
  if inInventory name inventory then Some (default newHostState (hosts t !! name)) else None.
Proof.
  unfold resetHostsLocked. rec_simpl.
  enough (forall m, fold_left (fun next h => <[he_Name h := default newHostState (hosts t !! he_Name h)]> next) inventory m !! name
    = if inInventory name inventory then Some (default newHostState (hosts t !! name)) else m !! name) as H
    by (rewrite H; case_if; [done|apply lookup_empty]).
  induction inventory as [|h inv IH]; intros m; simpl; [done|]. rewrite IH.
  destruct (String.eqb_spec (he_Name h) name) as [->|Hne]; simpl.
  - rewrite lookup_insert_eq. by case_if.
  - rewrite lookup_insert_ne by done. done.
Qed.

Lemma represents_reset thr name inventory t k :
  0 < thr -> represents thr name t k ->
  represents thr name (resetHostsLocked inventory t) (streakStep name k (OReset inventory)).
Proof.
  intros Hthr. unfold represents. rewrite reset_lookup. simpl.
  destruct (inInventory name inventory); [|done].
  destruct (hosts t !! name), k; simpl; try done. intros _. split_and!; [done|lia|]. symmetry. by apply Z.ltb_lt.
Qed.

Lemma represents_record thr name n a now t k :
  0 < thr -> represents thr name t k ->
  represents thr name (hostStep thr t (ORecord n a now)) (streakStep name k (ORecord n a now)).
Proof.
  intros Hthr. pose proof (probeHost_passes n a) as Hp. simpl.
  destruct (probeHost n a) as [info err]. unfold represents, recordLocked. simpl in Hp.
  destruct (String.eqb_spec n name) as [->|Hne]; simpl.
  - destruct (hosts t !! name) as [st|] eqn:E, k as [k|]; unfold recordState; rec_simpl; rewrite ?E; try done.
    intros (Hf & Hk & Hh). destruct err as [e|], (probePasses a); try (exfalso; naive_solver); rec_simpl.
    + rewrite Hh. destruct ((k <? thr) && _) eqn:?; rec_simpl; rewrite lookup_insert_eq; rec_simpl;
        (split_and!; [lia|lia|]); bool_to_prop; lia.
    + destruct info; rec_simpl; rewrite Hh; destruct (k <? thr) eqn:?; rec_simpl; rewrite lookup_insert_eq; rec_simpl;
        (split_and!; [done|lia|]); rewrite ?Hh; bool_to_prop; lia.
  - intros H. destruct (hosts t !! n) as [st|] eqn:E; rec_simpl; [|done].
    destruct (recordState thr now info err st). rec_simpl. by rewrite lookup_insert_ne.
Qed.

Lemma represents_step thr name op t k :
  0 < thr -> represents thr name t k -> represents thr name (hostStep thr t op) (streakStep name k op).
Proof.
  intros Hthr H. destruct op as [n a now|key now|key|n i|inventory].
  - by apply represents_record.
  - unfold represents in *. simpl. unfold throttled. repeat case_match; rec_simpl; simplify_eq; done.
  - done.
  - unfold represents in *. simpl. unfold infoAlreadyLogged. destruct (hosts t !! n) as [st|] eqn:E; [|done].
    destruct (String.eqb _ _); [done|]. rec_simpl. destruct (decide (n = name)) as [->|Hne].
    + rewrite lookup_insert_eq. rewrite E in H. by destruct k.
    + by rewrite lookup_insert_ne.
  - by apply represents_reset.
Qed.

Lemma represents_run thr inventory ops name :
  0 < thr -> represents thr name (hostRun thr inventory ops) (streak name inventory ops).
Proof.
  intros Hthr. unfold hostRun, streak, newHostTable.
  assert (represents thr name (resetHostsLocked inventory {| hosts := ∅; throttle := ∅ |}) (streakStep name None (OReset inventory)))
    as H0 by (apply represents_reset; [done|]; unfold represents; simpl; by rewrite lookup_empty).
  revert H0. generalize (streakStep name None (OReset inventory)).
  generalize (resetHostsLocked inventory {| hosts := ∅; throttle := ∅ |}).
  induction ops as [|op ops IH]; intros t k H; simpl; [done|]. by apply IH, represents_step.
Qed.

Lemma threshold_pos cfg : 0 < hostUnhealthyThreshold cfg.
Proof. by apply or_default_pos. Qed.

(** C39: the Host health table.  After any interleaving of probes, Reloads
    and log throttling, the table holds exactly the Hosts of the Inventory set
    last; each has as many failures as its last probes that failed in a row
    while it was in the Inventory, and is healthy exactly while these are
    fewer than the threshold.  A Host whose probe returns after a Reload
    removed it is not put back. *)
Theorem host_table_refines cfg inventory ops name :
  let thr := hostUnhealthyThreshold cfg in
  represents thr name (hostRun thr inventory ops) (streak name inventory ops).
Proof. intros thr. apply represents_run, threshold_pos. Qed.

(** The Jobs of a Host are aborted exactly once per outage: by the
    probe that fails as the threshold-th in a row, and by no other. *)
Theorem outage_aborts_once cfg inventory ops name a now later :
  let thr := hostUnhealthyThreshold cfg in
  let '(info, err) := probeHost name a in
  AbortJobs name ∈ (recordProbe thr now later name info err (hostRun thr inventory ops)).2
  <-> probePasses a = false /\ streak name inventory ops = Some (thr - 1).
Proof.
  intros thr. pose proof (threshold_pos cfg) as Hthr. fold thr in Hthr.
  pose proof (represents_run thr inventory ops name Hthr) as H. pose proof (probeHost_passes name a) as Hp.
  destruct (probeHost name a) as [info err]. simpl in Hp. set (t := hostRun thr inventory ops) in *. unfold represents in H.
  unfold recordProbe, recordLocked. destruct (hosts t !! name) as [st|], (streak name inventory ops) as [k|]; try done;
    [|simpl; set_solver].
  destruct H as (Hf & Hk & Hh). unfold recordState. destruct err as [e|].
  - assert (probePasses a = false) as Hpf by (destruct (probePasses a); naive_solver). rec_simpl. rewrite Hh, Hf.
    destruct ((k <? thr) && (thr <=? k + 1)) eqn:Hb.
    + bool_to_prop. split; [|set_solver]. intros _. split; [done|]. f_equal. lia.
    + destruct (throttled _ _ _) as [t' q]. split; [destruct q; simpl; set_solver|].
      intros [_ [= Hk']]. exfalso. apply andb_false_iff in Hb as [?%Z.ltb_ge|?%Z.leb_gt]; lia.
  - assert (probePasses a = true) as -> by naive_solver. split; [|intros [? ?]; done].
    destruct info; rec_simpl; destruct (hs_healthy st); rec_simpl; try set_solver.
    destruct (infoAlreadyLogged _ _ _) as [t' q]. destruct q; simpl; set_solver.
Qed.

(** ** Throttling *)

(** When the lines logged under [key] were logged. *)
Fixpoint lines (threshold : Z) (key : string) (t : hostTable) (ops : list hostOp) : list time :=
  match ops with
  | [] => []
  | op :: ops =>
      match op with
      | OThrottled k now => if String.eqb k key && negb (throttled k now t).2 then [now] else []
      | _ => []
      end ++ lines threshold key (hostStep threshold t op) ops
  end.

Definition spaced (earlier later : time) : Prop := throttleWindow <= time_Sub later earlier.

Lemma hostStep_throttle thr t op key :
  op <> OUnthrottle key ->
  throttle (hostStep thr t op) !! key =
  match op with
  | OThrottled k now => if String.eqb k key && negb (throttled k now t).2 then Some now else throttle t !! key
  | _ => throttle t !! key
  end.
Proof.
  intros Hop. destruct op as [n a now|k now|k|n i|inventory]; simpl; try done.
  - destruct (probeHost n a). unfold recordLocked. destruct (hosts t !! n); [|done]. by destruct (recordState _ _ _ _ _).
  - unfold throttled. destruct (String.eqb_spec k key) as [->|Hne]; simpl.
    + destruct (throttle t !! key) eqn:E; [case_if|]; rec_simpl; rewrite ?lookup_insert_eq; done.
    + destruct (throttle t !! k); [case_if|]; rec_simpl; rewrite ?lookup_insert_ne by done; done.
  - rewrite lookup_delete_ne; [done|]. by intros ->.
  - unfold infoAlreadyLogged. destruct (hosts t !! n); [|done]. by case_if.
Qed.

Lemma lines_spaced thr key ops t :
  Forall (fun op => op <> OUnthrottle key) ops ->
  Sorted spaced (lines thr key t ops)
  /\ match throttle t !! key with Some last => HdRel spaced last (lines thr key t ops) | None => True end.
Proof.
  intros Hops. revert t. induction Hops as [|op ops Hop Hops IH]; intros t.
  { simpl. split; [constructor|]. destruct (throttle t !! key); [constructor|done]. }
  simpl. specialize (IH (hostStep thr t op)) as [HS HH]. rewrite hostStep_throttle in HH by done.
  destruct op as [n a now|k now|k|n i|inventory]; simpl; try done.
  destruct (String.eqb k key && _) eqn:Hb; simpl; [|done].
  split; [by constructor|]. apply andb_true_iff in Hb as [->%String.eqb_eq Hq%negb_true_iff].
  unfold throttled in Hq. destruct (throttle t !! key) as [last|]; [|done].
  destruct (time_Sub now last <? throttleWindow) eqn:Hw; [done|]. constructor. by apply Z.ltb_ge in Hw.
Qed.

(** A throttled log line is written at most once per window: as long as
    its key is not forgotten, any two lines in a row under it are at least
    [throttleWindow] apart on the Scheduler's clock, however the calls that
    wrote them interleave with the rest. *)
Theorem throttled_lines_spaced thr key ops inventory :
  Forall (fun op => op <> OUnthrottle key) ops ->
  Sorted spaced (lines thr key (newHostTable inventory) ops).
Proof. intros H. by apply lines_spaced. Qed.

Lemma throttled_lines_spaced_witness :
  lines 3 "k" (newHostTable []) [OThrottled "k" 5; OThrottled "k" 6; OThrottled "k" (5 + minute)] = [5; 5 + minute]
  /\ Sorted spaced (lines 3 "k" (newHostTable []) [OThrottled "k" 5; OThrottled "k" 6; OThrottled "k" (5 + minute)]).
Proof.
  split; [vm_compute; reflexivity|]. apply (throttled_lines_spaced 3 "k"). repeat (constructor; [discriminate|]). constructor.
Defined.
