(* ===== verification/PoolDecl.v ===== *)
(** * internal/poolmgr/declare.go and the Pool declarations of the Scheduler

    [Declare] creates or updates one Pool at the Pool Manager; the Scheduler's
    [declare], [declareAll], [declareLoop] and [Reload] decide which Pools are
    declared and tell the Tracker.  The Pool Manager is behind the interface
    [PoolAdmin], with the contract its comments document as a class of laws. *)
From S2P Require Import Prelude GoModel PoolTypes ConfigTypes Spec SchedTypes Tracker HostTable Resolve.

(** ** The PoolAdmin interface *)

(** The two calls the Declarer makes, on a Pool Manager in state [W]. *)
Class PoolAdmin (W : Type) := {
  CreatePool : PoolSpec -> W -> W * result (option Pool);
  UpdatePool : PoolSpec -> W -> W * result (option Pool) }.

(** What the comments of [PoolAdmin] promise.  [stored] is the Pools it holds;
    [up] is that it is reachable and answers; [accepts] is what it takes for
    a valid spec, which it then stores as it is.  A call that fails may or may
    not have taken effect on the Pool it names, unless it reports that the
    Pool exists already, or is unknown. *)
Class PoolAdminLaws (W : Type) `{PoolAdmin W} (stored : W -> gmap PoolRef PoolSpec) (up : W -> Prop)
    (accepts : PoolSpec -> Prop) : Prop := {
  create_ok spec w p : accepts spec -> (CreatePool spec w).2 = Ok p -> stored (CreatePool spec w).1 = <[sp_Ref spec := spec]> (stored w);
  update_ok spec w p : accepts spec -> (UpdatePool spec w).2 = Ok p -> stored (UpdatePool spec w).1 = <[sp_Ref spec := spec]> (stored w);
  create_frame spec w ref : ref <> sp_Ref spec -> stored (CreatePool spec w).1 !! ref = stored w !! ref;
  update_frame spec w ref : ref <> sp_Ref spec -> stored (UpdatePool spec w).1 !! ref = stored w !! ref;
  create_keeps spec w : is_Some (stored w !! sp_Ref spec) -> is_Some (stored (CreatePool spec w).1 !! sp_Ref spec);
  update_keeps spec w : is_Some (stored w !! sp_Ref spec) -> is_Some (stored (UpdatePool spec w).1 !! sp_Ref spec);
  create_up spec w : up w -> up (CreatePool spec w).1;
  update_up spec w : up w -> up (UpdatePool spec w).1;
  create_absent spec w : accepts spec -> up w -> stored w !! sp_Ref spec = None -> exists p, (CreatePool spec w).2 = Ok p;
  create_present spec w : accepts spec -> up w -> is_Some (stored w !! sp_Ref spec) ->
    exists e, (CreatePool spec w).2 = Err e /\ errors_Is e ErrAlreadyExists = true /\ stored (CreatePool spec w).1 = stored w;
  update_present spec w : accepts spec -> up w -> is_Some (stored w !! sp_Ref spec) -> exists p, (UpdatePool spec w).2 = Ok p;
  update_absent spec w : accepts spec -> up w -> stored w !! sp_Ref spec = None ->
    exists e, (UpdatePool spec w).2 = Err e /\ errors_Is e ErrNotFound = true
              /\ stored (UpdatePool spec w).1 !! sp_Ref spec = None;
}.

Section Declarer.
Context {W : Type} `{PoolAdmin W}.

(** [Declare].  [env1] and [env2] are what others do to the Pool Manager
    between its calls. *)
Definition Declarer_Declare (env1 env2 : W -> W) (spec : PoolSpec) (w : W) : W * result (option Pool) :=
  match CreatePool spec w with
  | (w, Ok pool) => (w, Ok pool)
  | (w, Err err) =>
      if negb (errors_Is err ErrAlreadyExists)
      then (w, Err (EWrap ("creating pool " +:+ PoolRef_String (sp_Ref spec)) [err]))
      else match UpdatePool spec (env1 w) with
      | (w, Ok pool) => (w, Ok pool)
      | (w, Err err) =>
          if errors_Is err ErrNotFound then
            match CreatePool spec (env2 w) with
            | (w, Ok pool) => (w, Ok pool)
            | (w, Err err) => (w, Err (EWrap ("creating pool " +:+ PoolRef_String (sp_Ref spec)) [err]))
            end
          else (w, Err (EWrap ("updating pool " +:+ PoolRef_String (sp_Ref spec)) [err]))
      end
  end.

Context (stored : W -> gmap PoolRef PoolSpec) (up : W -> Prop) (accepts : PoolSpec -> Prop)
  `{!PoolAdminLaws W stored up accepts}.

Lemma Declarer_ok env1 env2 spec w p :
  accepts spec -> (Declarer_Declare env1 env2 spec w).2 = Ok p -> stored (Declarer_Declare env1 env2 spec w).1 !! sp_Ref spec = Some spec.
Proof.
  intros Ha. unfold Declarer_Declare. pose proof (fun p => create_ok spec w p Ha) as HC. destruct (CreatePool spec w) as [w1 [p1|e1]]; simpl in *.
  { intros _. rewrite (HC p1 eq_refl). apply lookup_insert_eq. }
  destruct (errors_Is e1 _); [|done]. simpl. pose proof (fun p => update_ok spec (env1 w1) p Ha) as HU.
  destruct (UpdatePool spec (env1 w1)) as [w2 [p2|e2]]; simpl in *.
  { intros _. rewrite (HU p2 eq_refl). apply lookup_insert_eq. }
  destruct (errors_Is e2 _); [|done]. pose proof (fun p => create_ok spec (env2 w2) p Ha) as HC2.
  destruct (CreatePool spec (env2 w2)) as [w3 [p3|e3]]; simpl in *; [|done].
  intros _. rewrite (HC2 p3 eq_refl). apply lookup_insert_eq.
Qed.

(** Declaring a Pool whose spec the Pool Manager accepts.  A declaration
    that reports success leaves it with exactly that spec for the Pool.  While the Pool Manager
    is up, and others do not delete the Pool and create it again within one
    declaration, it succeeds, whether the Pool existed before or was deleted
    between the two calls. *)
Theorem Declarer_installs env1 env2 spec w :
  accepts spec ->
  ((exists p, (Declarer_Declare env1 env2 spec w).2 = Ok p) -> stored (Declarer_Declare env1 env2 spec w).1 !! sp_Ref spec = Some spec)
  /\ (up w -> (forall w, up w -> up (env1 w)) ->
      (forall w, up w -> stored w !! sp_Ref spec = None -> up (env2 w) /\ stored (env2 w) !! sp_Ref spec = None) ->
      exists p, (Declarer_Declare env1 env2 spec w).2 = Ok p).
Proof.
  intros Ha. split; [intros [p Hp]; by eapply Declarer_ok|]. intros Hup H1 H2. unfold Declarer_Declare.
  destruct (stored w !! sp_Ref spec) as [old|] eqn:E.
  2:{ destruct (create_absent spec w Ha Hup E) as [p Hp]. destruct (CreatePool spec w) as [w1 r]. simpl in Hp. subst r. by exists p. }
  destruct (create_present spec w Ha Hup ltac:(done)) as (e & He & Hex & _). pose proof (create_up spec w Hup) as Hup1.
  destruct (CreatePool spec w) as [w1 r]. simpl in He, Hup1. subst r. rewrite Hex. simpl.
  destruct (stored (env1 w1) !! sp_Ref spec) as [old1|] eqn:E1.
  - destruct (update_present spec (env1 w1) Ha (H1 _ Hup1) ltac:(done)) as [p Hp].
    destruct (UpdatePool spec (env1 w1)) as [w2 r]. simpl in Hp. subst r. by exists p.
  - destruct (update_absent spec (env1 w1) Ha (H1 _ Hup1) E1) as (e2 & He2 & Hnf & Habs).
    pose proof (update_up spec (env1 w1) (H1 _ Hup1)) as Hup2.
    destruct (UpdatePool spec (env1 w1)) as [w2 r]. simpl in He2, Habs, Hup2. subst r. rewrite Hnf.
    destruct (H2 _ Hup2 Habs) as [Hup3 Habs3]. destruct (create_absent spec _ Ha Hup3 Habs3) as [p Hp].
    destruct (CreatePool spec (env2 w2)) as [w3 r]. simpl in Hp. subst r. by exists p.
Qed.

(** Nobody else touches the Pools. *)
Definition quiet (env : W -> W) : Prop := forall w, up w -> up (env w) /\ stored (env w) = stored w.

Lemma Declarer_quiet env1 env2 spec w :
  accepts spec -> up w -> quiet env1 -> quiet env2 ->
  exists p, (Declarer_Declare env1 env2 spec w).2 = Ok p
  /\ stored (Declarer_Declare env1 env2 spec w).1 = <[sp_Ref spec := spec]> (stored w) /\ up (Declarer_Declare env1 env2 spec w).1.
Proof.
  intros Ha Hup H1 H2. unfold Declarer_Declare.
  pose proof (fun p => create_ok spec w p Ha) as HC. pose proof (create_up spec w Hup) as Hup1.
  destruct (stored w !! sp_Ref spec) as [old|] eqn:E.
  2:{ destruct (create_absent spec w Ha Hup E) as [p Hp]. destruct (CreatePool spec w) as [w1 r]. simpl in *. subst r.
      exists p. split_and!; [done|by apply (HC p)|done]. }
  destruct (create_present spec w Ha Hup ltac:(done)) as (e & He & Hex & Hst).
  destruct (CreatePool spec w) as [w1 r]. simpl in *. subst r. rewrite Hex. simpl.
  destruct (H1 _ Hup1) as [Hup2 Hs2].
  assert (is_Some (stored (env1 w1) !! sp_Ref spec)) as Hpres by (rewrite Hs2, Hst, E; done).
  destruct (update_present spec _ Ha Hup2 Hpres) as [p Hp]. pose proof (fun p => update_ok spec (env1 w1) p Ha) as HU.
  pose proof (update_up spec _ Hup2) as Hup3.
  destruct (UpdatePool spec (env1 w1)) as [w2 r]. simpl in *. subst r. exists p.
  split_and!; [done| |done]. simpl. by rewrite (HU p eq_refl), Hs2, Hst.
Qed.
End Declarer.

(** A Pool Manager that is always up, for the witnesses. *)
Local Notation demo_pm := (gmap PoolRef PoolSpec).
Definition demo_answer (spec : PoolSpec) : result (option Pool) :=
  Ok (Some {| pool_Spec := spec; pool_Status := {| Available := 0; Leased := 0; Provisioning := 0; Quarantined := 0 |} |}).
#[export] Instance demo_admin : PoolAdmin demo_pm := {|
  CreatePool spec w := match w !! sp_Ref spec with
    | Some _ => (w, Err (ESentinel ErrAlreadyExists)) | None => (<[sp_Ref spec := spec]> w, demo_answer spec) end;
  UpdatePool spec w := match w !! sp_Ref spec with
    | Some _ => (<[sp_Ref spec := spec]> w, demo_answer spec) | None => (w, Err (ESentinel ErrNotFound)) end |}.
#[export] Instance demo_laws : PoolAdminLaws demo_pm (fun w => w) (fun _ => True) (fun _ => True).
Proof.
  split; intros; simpl in *; repeat case_match; simpl in *; simplify_eq;
    repeat match goal with H : is_Some None |- _ => destruct H as [? [=]] end;
    rewrite ?lookup_insert_eq, ?lookup_insert_ne by done; simplify_option_eq; try done; unfold demo_answer; eauto.
Qed.

Lemma Declarer_installs_witness :
  exists p, (Declarer_Declare (fun w => w) (fun w => w) demo_spec (∅ : demo_pm)).2 = Ok p.
Proof.
  apply (Declarer_installs (fun w : demo_pm => w) (fun _ => True) (fun _ => True) (fun w => w) (fun w => w) demo_spec ∅); [done|done|done|].
  intros w _ H. split; done.
Defined.

(** ** The Scheduler's side *)
Definition resolveProfiles (profiles : list ProfileConfig) (namespace : string) : list Profile :=
  (fun p =>
     let name := ps_Name (p_Pool p) in
     let ns := ps_Namespace (p_Pool p) in
     {| pr_cfg := p;
        pr_PoolRef := {| ref_Name := if String.eqb name "" then p_Name p else name;
                         ref_Namespace := if String.eqb ns "" then namespace else ns |} |}) <$> profiles.

Record TLSOptions := { o_CAFile : string; o_CertFile : string; o_KeyFile : string; o_Insecure : bool }.
Record Endpoint := { e_Name : string; e_Address : string; e_Token : string; e_TLS : TLSOptions }.

Definition endpoints (inventory : list HostEntry) : list Endpoint :=
  (fun h => {| e_Name := he_Name h; e_Address := he_Endpoint h; e_Token := he_Token h;
               e_TLS := {| o_CAFile := tls_CAFile (he_TLS h); o_CertFile := tls_CertFile (he_TLS h);
                           o_KeyFile := tls_KeyFile (he_TLS h); o_Insecure := tls_Insecure (he_TLS h) |} |}) <$> inventory.

Definition findProfileByPool (profiles : list Profile) (ref : PoolRef) : option Profile :=
  snd <$> list_find (fun p => pr_PoolRef p = ref) profiles.

Definition profileByName (profiles : list Profile) (name : string) : option Profile :=
  snd <$> list_find (fun p => pr_Name p = name) profiles.

Definition poolDeclared (ref : PoolRef) (pools : list PoolAvailability) : bool :=
  match list_find (fun pa => pa_Pool pa = ref) pools with Some (_, pa) => pa_Declared pa | None => false end.

(** The Hosts of the Pool that the Registry does not have: one warning each. *)
Definition compareHosts (reg : Registry) (pool : option Pool) : list string :=
  match pool with
  | None => []
  | Some pool => filter (fun name => reg_Endpoint reg name = None) (sp_FlintlockHosts (pool_Spec pool))
  end.

#[export] Instance eta_PoolSpec : Eta PoolSpec :=
  fun r => {| sp_Ref := sp_Ref r; sp_Template := sp_Template r; sp_Size := sp_Size r;
              sp_FlintlockHosts := sp_FlintlockHosts r; sp_Replenishment := sp_Replenishment r;
              sp_CreateCommands := sp_CreateCommands r; sp_PreLeaseCommands := sp_PreLeaseCommands r;
              sp_HookFailurePolicy := sp_HookFailurePolicy r; sp_HeartbeatInterval := sp_HeartbeatInterval r;
              sp_HeartbeatExpiryThreshold := sp_HeartbeatExpiryThreshold r |}.

(** What Reload and the declarations read and change. *)
Record declState (W : Type) := {
  d_profiles : list Profile; d_inventory : list HostEntry; d_hosts : hostTable; d_tracker : PoolTracker; d_pm : W }.
Arguments d_profiles {W}.
Arguments d_inventory {W}.
Arguments d_hosts {W}.
Arguments d_tracker {W}.
Arguments d_pm {W}.

Section Declarations.
Context {Template : Type} (Parse : string -> result Template) (Execute : Template -> string -> result string).
Context {W : Type} `{PoolAdmin W} (env1 env2 : W -> W).
Context (set : Settings).

(** The spec [declare] sends for a Profile. *)
Definition specOf (p : Profile) (inventory : list HostEntry) : result PoolSpec :=
  match Build Parse Execute (pr_cfg p) {| si_RunnerName := set_RunnerName set; si_Namespace := set_Namespace set;
          si_Hosts := Select (pr_cfg p) inventory |} with
  | Err e => Err e
  | Ok spec => Ok (spec <| sp_Ref := pr_PoolRef p |>)
  end.

(** [declare]; the Pool it got back is for [compareHosts]. *)
Definition declare (p : Profile) (inventory : list HostEntry) (tw : PoolTracker * W) : PoolTracker * W * option Pool :=
  let '(t, w) := tw in
  match specOf p inventory with
  | Err _ => (Track (pr_PoolRef p) false t, w, None)
  | Ok spec =>
      match Declarer_Declare env1 env2 spec w with
      | (w, Err _) => (Track (pr_PoolRef p) false t, w, None)
      | (w, Ok pool) => (Track (pr_PoolRef p) true t, w, pool)
      end
  end.

Definition declareAll (st : declState W) : declState W :=
  let '(t, w) := fold_left (fun tw p => (declare p (d_inventory st) tw).1) (d_profiles st) (d_tracker st, d_pm st) in
  {| d_profiles := d_profiles st; d_inventory := d_inventory st; d_hosts := d_hosts st; d_tracker := t; d_pm := w |}.

(** One round of [declareLoop]; [unhealthy] is the health the Tracker's
    [Pools] sees. *)
Definition declareRound (unhealthy : bool) (st : declState W) : declState W :=
  let '(t, w) := fold_left (fun tw p =>
      if poolDeclared (pr_PoolRef p) (Pools unhealthy tw.1) then tw else (declare p (d_inventory st) tw).1)
    (d_profiles st) (d_tracker st, d_pm st) in
  {| d_profiles := d_profiles st; d_inventory := d_inventory st; d_hosts := d_hosts st; d_tracker := t; d_pm := w |}.

(** The loop of [Reload] over the previous Profiles. *)
Definition untrackRemoved (next previous : list Profile) (t : PoolTracker) : PoolTracker :=
  fold_left (fun t p =>
      match findProfileByPool next (pr_PoolRef p) with Some _ => t | None => Untrack (pr_PoolRef p) t end) previous t.

(** [Reload]; [applyErr] is what the Host Registry's [Apply] answers. *)
Definition Reload (applyErr : option error) (profiles : list ProfileConfig) (inventory : list HostEntry)
    (st : declState W) : declState W * option error :=
  let next := resolveProfiles profiles (set_Namespace set) in
  let t := untrackRemoved next (d_profiles st) (d_tracker st) in
  let st := {| d_profiles := next; d_inventory := inventory; d_hosts := resetHostsLocked inventory (d_hosts st);
               d_tracker := t; d_pm := d_pm st |} in
  match applyErr with
  | Some err => (st, Some (EWrap "scheduler: reload host registry" [err]))
  | None => (declareAll st, None)
  end.
End Declarations.
