(* ===== verification/PoolDeclThms.v ===== *)
(** * What a Reload and the declaration retries achieve *)
From S2P Require Import Prelude GoModel PoolTypes ConfigTypes Spec SchedTypes Tracker HostTable Resolve PoolDecl.

(** ** The Tracker's pools under Track and Untrack *)
Lemma Track_lookup_ne ref ref' d t : ref <> ref' -> pools (Track ref d t) !! ref' = pools t !! ref'.
Proof.
  intros Hne. unfold Track, poolLocked, put. generalize (negb (bool_decide (is_Some (pools t !! ref))) || d).
  intros [|]; destruct (pools t !! ref); rec_simpl; by rewrite ?lookup_insert_ne.
Qed.

Lemma Track_lookup_eq ref d t : declared <$> pools (Track ref d t) !! ref = Some d.
Proof.
  unfold Track, poolLocked, put. generalize (negb (bool_decide (is_Some (pools t !! ref))) || d).
  intros [|]; destruct (pools t !! ref); rec_simpl; by rewrite lookup_insert_eq.
Qed.

Lemma Track_lookup_Some ref d t p :
  pools t !! ref = Some p -> pools (Track ref d t) !! ref = Some (p <| declared := d |>).
Proof.
  intros Hp. unfold Track, poolLocked, put. generalize (negb (bool_decide (is_Some (pools t !! ref))) || d).
  intros b. rewrite Hp. destruct b; rec_simpl; by rewrite lookup_insert_eq.
Qed.

Lemma Untrack_lookup ref ref' t :
  pools (Untrack ref t) !! ref' = if decide (ref = ref') then None else pools t !! ref'.
Proof.
  unfold Untrack. destruct (pools t !! ref) eqn:E; rec_simpl; destruct (decide (ref = ref')) as [->|Hne]; try done.
  - apply lookup_delete_eq.
  - by rewrite lookup_delete_ne.
Qed.

(** ** Resolving Profiles *)
Lemma resolveProfiles_refs profiles ns :
  pr_PoolRef <$> resolveProfiles profiles ns = (fun p => poolRef p ns) <$> profiles.
Proof. unfold resolveProfiles. rewrite <-list_fmap_compose. by apply list_fmap_ext. Qed.

Lemma findProfileByPool_None profiles ref :
  findProfileByPool profiles ref = None <-> ref ∉ pr_PoolRef <$> profiles.
Proof.
  unfold findProfileByPool. rewrite fmap_None, list_find_None, Forall_forall, list_elem_of_fmap.
  split; [intros H (p & -> & Hp); by apply (H p)|]. intros H p Hp <-. apply H. by exists p.
Qed.

Lemma if_iff_decide {A} (P Q : Prop) `{!Decision P, !Decision Q} (x y : A) :
  (P <-> Q) -> (if decide P then x else y) = (if decide Q then x else y).
Proof. intros H. destruct (decide P), (decide Q); tauto. Qed.

Lemma untrack_removed next prev t ref :
  pools (untrackRemoved next prev t) !! ref
  = if decide (ref ∈ pr_PoolRef <$> prev /\ ref ∉ pr_PoolRef <$> next) then None else pools t !! ref.
Proof.
  unfold untrackRemoved. revert t. induction prev as [|p prev IH]; intros t; [rewrite decide_False; [done|set_solver]|].
  rewrite fmap_cons. cbn [fold_left]. rewrite IH. destruct (findProfileByPool next (pr_PoolRef p)) eqn:E.
  - assert (pr_PoolRef p ∈ pr_PoolRef <$> next).
    { apply dec_stable. rewrite <-findProfileByPool_None. by rewrite E. }
    apply if_iff_decide. set_solver.
  - apply findProfileByPool_None in E. rewrite Untrack_lookup. destruct (decide (pr_PoolRef p = ref)) as [<-|Hne].
    + rewrite (decide_True (P := _ ∈ _ :: _ /\ _)) by set_solver. by destruct (decide _).
    + apply if_iff_decide. set_solver.
Qed.

Lemma elem_of_Pools unhealthy t pa :
  pa ∈ Pools unhealthy t <-> exists p, pools t !! pa_Pool pa = Some p /\ pa = availability unhealthy (pa_Pool pa) p.
Proof.
  unfold Pools. rewrite merge_sort_Permutation, list_elem_of_fmap. split.
  - intros ([k p] & -> & Hin). exists p. split; [by apply elem_of_map_to_list in Hin|done].
  - intros (p & Hp & ->). exists (pa_Pool pa, p). split; [done|by apply elem_of_map_to_list].
Qed.

Lemma poolDeclared_lookup unhealthy ref t :
  poolDeclared ref (Pools unhealthy t) = default false (declared <$> pools t !! ref).
Proof.
  unfold poolDeclared. destruct (list_find _ _) as [[i pa]|] eqn:E.
  - apply list_find_Some in E as (Hi & <- & _). apply list_elem_of_lookup_2, elem_of_Pools in Hi as (p & Hp & Heq).
    rewrite Hp. simpl. by rewrite Heq.
  - apply list_find_None in E. destruct (pools t !! ref) as [p|] eqn:Hp; [|done]. rewrite Forall_forall in E.
    exfalso. apply (E (availability unhealthy ref p)); [|done]. apply elem_of_Pools. by exists p.
Qed.

Section Thms.
Context {Template : Type} (Parse : string -> result Template) (Execute : Template -> string -> result string).
Context {W : Type} `{PoolAdmin W} (env1 env2 : W -> W) (set : Settings).
Context (stored : W -> gmap PoolRef PoolSpec) (up : W -> Prop) (accepts : PoolSpec -> Prop)
  `{!PoolAdminLaws W stored up accepts}.
Context (Hq1 : quiet stored up env1) (Hq2 : quiet stored up env2).
Implicit Types (p : Profile) (w : W) (t : PoolTracker).

Notation specOf := (specOf Parse Execute set).
Notation declare := (declare Parse Execute env1 env2 set).

(** What one declaration leaves behind. *)
Record declared_as (inventory : list HostEntry) p t w : Prop := {
  da_tracked : declared <$> pools t !! pr_PoolRef p = Some (is_ok (specOf p inventory));
  da_stored : forall spec, specOf p inventory = Ok spec -> stored w !! pr_PoolRef p = Some spec }.

Lemma specOf_Ref p inventory spec : specOf p inventory = Ok spec -> sp_Ref spec = pr_PoolRef p.
Proof. unfold PoolDecl.specOf. destruct (Build _ _ _ _); [|done]. intros [= <-]. done. Qed.

(** The Pool Manager accepts the spec of the Profile, when it has one. *)
Definition acceptable (inventory : list HostEntry) p : Prop := forall spec, specOf p inventory = Ok spec -> accepts spec.

Lemma declare_spec inventory p t w :
  acceptable inventory p -> up w ->
  exists t' w', (declare p inventory (t, w)).1 = (t', w') /\ up w' /\ declared_as inventory p t' w'
  /\ (forall ref, ref <> pr_PoolRef p -> pools t' !! ref = pools t !! ref /\ stored w' !! ref = stored w !! ref)
  /\ (is_ok (specOf p inventory) = false -> w' = w).
Proof.
  intros Ha Hup. unfold PoolDecl.declare. destruct (specOf p inventory) as [spec|e] eqn:E.
  - destruct (Declarer_quiet stored up accepts env1 env2 spec w (Ha spec E) Hup Hq1 Hq2) as (pool & Hok & Hst & Hup').
    destruct (Declarer_Declare env1 env2 spec w) as [w' r]. simpl in *. subst r. exists (Track (pr_PoolRef p) true t), w'.
    pose proof (specOf_Ref _ _ _ E) as HR. rewrite HR in Hst. split_and!; try done.
    + split; [rewrite E; apply Track_lookup_eq|]. intros spec' Hs. rewrite E in Hs. injection Hs as <-. rewrite Hst. apply lookup_insert_eq.
    + intros ref Hne. rewrite Track_lookup_ne by done. by rewrite Hst, lookup_insert_ne.
  - exists (Track (pr_PoolRef p) false t), w. split_and!; try done.
    + split; [rewrite E; apply Track_lookup_eq|]. intros spec'. by rewrite E.
    + intros ref Hne. by rewrite Track_lookup_ne.
Qed.

Lemma declare_all inventory ps t w :
  NoDup (pr_PoolRef <$> ps) -> Forall (acceptable inventory) ps -> up w ->
  exists t' w', fold_left (fun tw p => (declare p inventory tw).1) ps (t, w) = (t', w') /\ up w'
  /\ Forall (fun p => declared_as inventory p t' w') ps
  /\ (forall ref, ref ∉ pr_PoolRef <$> ps -> pools t' !! ref = pools t !! ref /\ stored w' !! ref = stored w !! ref)
  /\ (forall ref, is_Some (stored w !! ref) -> is_Some (stored w' !! ref)).
Proof.
  revert t w. induction ps as [|p ps IH]; intros t w HN HA Hup; cbn [fold_left].
  { by exists t, w. }
  apply NoDup_cons in HN as [Hp HN]. apply Forall_cons in HA as [Ha HA]. destruct (declare_spec inventory p t w Ha Hup) as (t1 & w1 & -> & Hup1 & Hd & Hf & Hsame).
  destruct (IH t1 w1 HN HA Hup1) as (t2 & w2 & -> & Hup2 & Hall & Hfr & Hk). exists t2, w2. split_and!; [done|done| | |].
  - constructor; [|done]. destruct (Hfr (pr_PoolRef p) Hp) as [Ht Hs], Hd as [Hd1 Hd2].
    split; [by rewrite Ht|]. intros spec Hspec. rewrite Hs. by apply Hd2.
  - intros ref Href. destruct (Hfr ref ltac:(set_solver)) as [-> ->]. apply Hf. set_solver.
  - intros ref Href. apply Hk. destruct (decide (ref = pr_PoolRef p)) as [->|Hne].
    + destruct (specOf p inventory) as [spec|] eqn:E; [by rewrite (da_stored _ _ _ _ Hd spec E)|].
      by rewrite (Hsame eq_refl).
    + by destruct (Hf ref Hne) as [_ ->].
Qed.

Lemma Reload_effect profiles inventory (st : declState W) :
  let next := resolveProfiles profiles (set_Namespace set) in
  let r := Reload Parse Execute env1 env2 set None profiles inventory st in
  up (d_pm st) -> NoDup (pr_PoolRef <$> next) -> Forall (acceptable inventory) next ->
  r.2 = None
  /\ Forall (fun p => declared_as inventory p (d_tracker r.1) (d_pm r.1)) next
  /\ (forall ref, ref ∉ pr_PoolRef <$> next ->
        stored (d_pm r.1) !! ref = stored (d_pm st) !! ref
        /\ pools (d_tracker r.1) !! ref =
             if decide (ref ∈ pr_PoolRef <$> d_profiles st) then None else pools (d_tracker st) !! ref)
  /\ (forall ref, is_Some (stored (d_pm st) !! ref) -> is_Some (stored (d_pm r.1) !! ref))
  /\ (forall name, is_Some (hosts (d_hosts r.1) !! name) <-> name ∈ he_Name <$> inventory).
Proof.
  intros next r Hup HN HA. set (t0 := untrackRemoved next (d_profiles st) (d_tracker st)).
  destruct (declare_all inventory next t0 (d_pm st) HN HA Hup) as (t' & w' & Hf & Hup' & Hall & Hfr & Hk).
  assert (r = ({| d_profiles := next; d_inventory := inventory; d_hosts := resetHostsLocked inventory (d_hosts st);
                  d_tracker := t'; d_pm := w' |}, None)) as Hr.
  { unfold r, Reload, declareAll. fold next. cbn [d_profiles d_inventory d_tracker d_pm d_hosts]. fold t0. by rewrite Hf. }
  clearbody r. subst r. cbn [fst snd d_tracker d_pm d_hosts]. split_and!; [done|done| |done|].
  - intros ref Href. destruct (Hfr ref Href) as [-> ->]. split; [done|]. unfold t0. rewrite untrack_removed.
    destruct (decide (_ /\ _)) as [[]|Hn], (decide (ref ∈ pr_PoolRef <$> d_profiles st)); try done. exfalso; auto.
  - intros name. rewrite reset_lookup. unfold inInventory. destruct (existsb _ inventory) eqn:E.
    + apply existsb_exists in E as (h & Hin & <-%String.eqb_eq). split; [|done]. intros _.
      apply list_elem_of_fmap. exists h. split; [done|by apply list_elem_of_In].
    + split; [by intros [? [=]]|]. intros (h & -> & Hin)%list_elem_of_fmap. exfalso.
      apply not_true_iff_false in E. apply E, existsb_exists. exists h.
      split; [by apply list_elem_of_In|apply String.eqb_refl].
Qed.

(** C21: what a Reload achieves while the Pool Manager is up and accepts the
    specs built, no other client changes its Pools, the Profiles have
    different Pools and the Host Registry accepted the Inventory: every
    Profile of the new configuration is tracked, and counts as declared exactly when a spec could be built for
    it, in which case the Pool Manager holds that spec; a Pool no Profile
    refers to any more is untracked but stays at the Pool Manager; every
    other Pool is left alone, and no Pool is ever removed from the Pool
    Manager.  The health table has the Hosts of the new Inventory. *)
Theorem Reload_converges profiles inventory (st : declState W) :
  let next := resolveProfiles profiles (set_Namespace set) in
  let r := Reload Parse Execute env1 env2 set None profiles inventory st in
  up (d_pm st) -> NoDup (pr_PoolRef <$> next) -> Forall (acceptable inventory) next ->
  r.2 = None
  /\ Forall (fun p => declared_as inventory p (d_tracker r.1) (d_pm r.1)) next
  /\ (forall ref, ref ∉ pr_PoolRef <$> next ->
        stored (d_pm r.1) !! ref = stored (d_pm st) !! ref
        /\ pools (d_tracker r.1) !! ref =
             if decide (ref ∈ pr_PoolRef <$> d_profiles st) then None else pools (d_tracker st) !! ref)
  /\ (forall ref, is_Some (stored (d_pm st) !! ref) -> is_Some (stored (d_pm r.1) !! ref))
  /\ (forall name, is_Some (hosts (d_hosts r.1) !! name) <-> name ∈ he_Name <$> inventory).
Proof. exact (Reload_effect profiles inventory st). Qed.

Lemma declare_round inventory unhealthy ps t w :
  Forall (acceptable inventory) ps -> up w ->
  exists t' w', fold_left (fun tw p =>
      if poolDeclared (pr_PoolRef p) (Pools unhealthy tw.1) then tw else (declare p inventory tw).1) ps (t, w) = (t', w')
  /\ (forall ref, declared <$> pools t !! ref = Some true -> declared <$> pools t' !! ref = Some true)
  /\ Forall (fun p => is_ok (specOf p inventory) = true -> declared <$> pools t' !! pr_PoolRef p = Some true) ps.
Proof.
  revert t w. induction ps as [|p ps IH]; intros t w HA Hup; cbn [fold_left]; [by exists t, w|].
  apply Forall_cons in HA as [Ha HA].
  cbn [fst]. rewrite poolDeclared_lookup. destruct (default false (declared <$> pools t !! pr_PoolRef p)) eqn:Hd.
  - destruct (IH t w HA Hup) as (t2 & w2 & -> & Hk & Hall). exists t2, w2. split_and!; [done|done|].
    constructor; [|done]. intros _. apply Hk. destruct (declared <$> _) as [[|]|]; done.
  - destruct (declare_spec inventory p t w Ha Hup) as (t1 & w1 & -> & Hup1 & [Hd1 _] & Hf & _).
    destruct (IH t1 w1 HA Hup1) as (t2 & w2 & -> & Hk & Hall). exists t2, w2. split_and!; [done| |].
    + intros ref Href. apply Hk. destruct (decide (ref = pr_PoolRef p)) as [->|Hne]; [by rewrite Href in Hd|].
      by destruct (Hf ref Hne) as [-> _].
    + constructor; [|done]. intros Hok. apply Hk. by rewrite Hd1, Hok.
Qed.

(** The declaration retries converge: one round of [declareLoop] while
    the Pool Manager is up leaves every Pool whose spec can be built declared,
    and takes no declared Pool back. *)
Theorem declareRound_converges unhealthy (st : declState W) :
  let st' := declareRound Parse Execute env1 env2 set unhealthy st in
  Forall (acceptable (d_inventory st)) (d_profiles st) -> up (d_pm st) ->
  Forall (fun p => is_ok (specOf p (d_inventory st)) = true -> declared <$> pools (d_tracker st') !! pr_PoolRef p = Some true)
    (d_profiles st)
  /\ (forall ref, declared <$> pools (d_tracker st) !! ref = Some true -> declared <$> pools (d_tracker st') !! ref = Some true).
Proof.
  intros st' HA Hup. unfold st', declareRound.
  destruct (declare_round (d_inventory st) unhealthy (d_profiles st) (d_tracker st) (d_pm st) HA Hup) as (t' & w' & -> & Hk & Hall).
  split; [exact Hall|exact Hk].
Qed.
End Thms.

(** ** Witnesses: a Pool Manager that is up, and a Profile *)
Definition demo_state : declState (gmap PoolRef PoolSpec) :=
  {| d_profiles := resolveProfiles [demo_profile] "ns"; d_inventory := []; d_hosts := newHostTable [];
     d_tracker := Track {| ref_Name := "small"; ref_Namespace := "ns" |} false NewTracker; d_pm := ∅ |}.
Definition demo_set : Settings :=
  {| set_RunnerName := "r1"; set_Namespace := "ns"; set_Slots := 1; set_ShutdownTimeout := 0;
     set_Scheduler := {| sc_Namespace := ""; sc_AllocationTimeout := 0; sc_HostHealthInterval := 0; sc_HostUnhealthyThreshold := 0;
        sc_HostCallDeadline := 0; sc_AllowDefaultForUnknownImages := false; sc_KeepOnFailure := false; sc_KeepDuration := 0 |};
     set_PoolManager := zeroPoolManager |}.
Definition demo_Parse (s : string) : result string := Ok s.
Definition demo_Execute (t n : string) : result string := Ok (t +:+ n).
Definition demo_env (w : gmap PoolRef PoolSpec) : gmap PoolRef PoolSpec := w.

Lemma Reload_converges_witness :
  (Reload demo_Parse demo_Execute demo_env demo_env demo_set None [demo_profile] [] demo_state).2 = None.
Proof.
  apply (Reload_converges demo_Parse demo_Execute demo_env demo_env demo_set (fun w => w) (fun _ => True) (fun _ => True)
           (fun w H => conj H eq_refl) (fun w H => conj H eq_refl) [demo_profile] [] demo_state); [done|apply NoDup_singleton|].
  apply Forall_forall. by intros p _ spec _.
Defined.

Lemma declareRound_converges_witness :
  let st' := declareRound demo_Parse demo_Execute demo_env demo_env demo_set false demo_state in
  declared <$> pools (d_tracker st') !! {| ref_Name := "small"; ref_Namespace := "ns" |} = Some true.
Proof.
  destruct (declareRound_converges demo_Parse demo_Execute demo_env demo_env demo_set (fun w => w) (fun _ => True) (fun _ => True)
           (fun w H => conj H eq_refl) (fun w H => conj H eq_refl) false demo_state) as [H _].
  { apply Forall_forall. by intros p _ spec _. }
  { done. }
  apply Forall_cons in H as [H _]. apply H. vm_compute. reflexivity.
Defined.
