(* ===== verification/ClaimLoop.v ===== *)
(** * internal/scheduler/allocate.go: waiting for a unit, claiming and retrying

    [Allocate], [awaitProfileLimit], [claim] and [waitToRetry] of one Job,
    as a machine that is at one of the points where the code waits for
    something: a Profile's unit, the Pool Manager's answer to ClaimVM, the
    backoff, or the end of [allocated].  The loops of different Jobs share
    the Tracker, the health monitor, the [waiting] counts and the throttle.
    What happens to Slots, units and Leases at the same points is SchedSys. *)
From S2P Require Import Prelude GoModel Clock PoolTypes ConfigTypes SchedTypes Capacity Tracker Health HostTable Spec Resolve PoolDecl PoolDeclThms.

Definition allocationTimeout (c : SchedulerConfig) : duration :=
  or_default (sc_AllocationTimeout c) DefaultAllocationTimeout.

(** The lifecycle of the Scheduler, as Reserve and Allocate read it. *)
Inductive runState := stateNew | stateRunning | stateStopping | stateStopped.
#[export] Instance runState_eq_dec : EqDecision runState.
Proof. solve_decision. Defined.

Record claimEnv := { ce_tracker : PoolTracker; ce_health : HealthMonitor; ce_waiting : gmap PoolRef Z; ce_table : hostTable }.
#[export] Instance eta_claimEnv : Eta claimEnv :=
  fun r => {| ce_tracker := ce_tracker r; ce_health := ce_health r; ce_waiting := ce_waiting r; ce_table := ce_table r |}.

(** Where the loop is. [CDone] carries what Allocate returned. *)
Inductive claimPC :=
  | CEnter | CLimit
  | CAttempt | CClaimVM (wake : Z) | CBackoff (wake : Z) (wait : duration)
  | CAllocated (c : Claim)
  | CDone (err : option sched_error).

Record claimLoop := {
  cl_reservation : Reservation; cl_job : JobInfo; cl_profile : Profile; cl_requestID : string;
  cl_attempt : Z; cl_waiting : bool; cl_pc : claimPC }.
#[export] Instance eta_claimLoop : Eta claimLoop :=
  fun r => {| cl_reservation := cl_reservation r; cl_job := cl_job r; cl_profile := cl_profile r;
              cl_requestID := cl_requestID r; cl_attempt := cl_attempt r; cl_waiting := cl_waiting r; cl_pc := cl_pc r |}.

(** What a [select] of the loop received. *)
Inductive wakeup := WFree | WBackoff | WWake | WDeadline | WCtx (err : error).

(** How [allocated] ended: an Allocation, a context that was cancelled, no
    Placement (whose error names the same Profile and Pool, by
    [ResolvePlacement_named]), or a Reservation that was released meanwhile. *)
Inductive allocatedEnd :=
  | EOk | ECtx (err : error) | EPlacement (host : string) (err : error) | EReleased (host : string).

Inductive claimInput :=
  | IEntered (b : bool)
  | ISelect (w : wakeup)
  | IGo
  | IClaimVM (r : result Claim) (ctxErr : option error) (now : time) (redeclared : bool)
  | IAllocated (e : allocatedEnd).

(** The checks at the top of [Allocate]: [inr] is the loop it enters. *)
Definition Allocate (state : runState) (r : option Reservation) (job : JobInfo) (p : option Profile) (requestID : string)
    : sched_error + claimLoop :=
  match r, p with
  | None, _ => inl (SError (ENew "scheduler: allocate: a reservation is required"))
  | Some _, None => inl (SProfileError (job_Image job))
  | Some r, Some p =>
      match state with
      | stateNew | stateStopped => inl (SError (ESentinel ErrNotRunning))
      | stateStopping => inl (allocError p "" (ESentinel ErrShutdown))
      | stateRunning =>
          inr {| cl_reservation := r; cl_job := job; cl_profile := p; cl_requestID := requestID;
                 cl_attempt := 0; cl_waiting := false; cl_pc := CEnter |}
      end
  end.

Definition exhaustedKey (ref : PoolRef) : string := "exhausted:" +:+ PoolRef_String ref.

Section Claim.
(** The Scheduler's backoff. *)
Context {B : Type} `{Backoff B} (backoff : B).
Implicit Types (l : claimLoop) (e : claimEnv).

(** [claim] returns: the deferred function takes the loop off its Pool. *)
Definition claimReturn (err : option sched_error) l e : claimLoop * claimEnv :=
  (l <| cl_pc := CDone err |>,
   if cl_waiting l then e <| ce_waiting := (waitOnPool (pr_PoolRef (cl_profile l)) (-1) (ce_waiting e)).1 |> else e).

(** The branch of an answer ErrExhausted: the Pool is empty, and the loop is
    counted once as waiting on it. *)
Definition claimExhausted (now : time) l e : claimLoop * claimEnv :=
  let ref := pr_PoolRef (cl_profile l) in
  let e := e <| ce_tracker := MarkExhausted ref (ce_tracker e) |> in
  if cl_waiting l then (l, e) else
  (l <| cl_waiting := true |>,
   e <| ce_waiting := (waitOnPool ref 1 (ce_waiting e)).1 |>
     <| ce_table := (throttled (exhaustedKey ref) now (ce_table e)).1 |>).

(** The answer of ClaimVM, up to the wait. *)
Definition claimAnswer (wake : Z) (r : result Claim) (ctxErr : option error) (now : time) (redeclared : bool) l e
    : claimLoop * claimEnv :=
  let p := cl_profile l in
  let retry := fun le : claimLoop * claimEnv =>
    (le.1 <| cl_pc := CBackoff wake (Next backoff (cl_attempt l)) |>, le.2) in
  match r with
  | Ok claim => (l <| cl_pc := CAllocated claim |>, e)
  | Err err =>
      if errors_Is err ErrExhausted then retry (claimExhausted now l e)
      else if errors_Is err ErrNotFound then
        retry (l, e <| ce_tracker := Track (pr_PoolRef p) redeclared (MarkExhausted (pr_PoolRef p) (ce_tracker e)) |>)
      else if errors_Is err ErrUnavailable then retry (l, e <| ce_health := MarkUnavailable now (ce_health e) |>)
      else if errors_Is err ErrAborted then retry (l, e)
      else match ctxErr with
      | Some c => claimReturn (Some (allocError p "" c)) l e
      | None => claimReturn (Some (allocError p "" err)) l e
      end
  end.

Definition allocatedError (p : Profile) (r : Reservation) (claim : Claim) (a : allocatedEnd) : option sched_error :=
  match a with
  | EOk => None
  | ECtx err => Some (allocError p (hr_Name (claim_Host claim)) err)
  | EPlacement host err => Some (allocError p host err)
  | EReleased host => Some (allocError p host (ENew ("reservation " +:+ pretty (res_ID r) +:+ " was released while the allocation was in flight")))
  end.

(** The [select] of [awaitProfileLimit]: [enterProfile] again, or give up. *)
Definition awaitProfileLimit (w : wakeup) l e : claimLoop * claimEnv :=
  let p := cl_profile l in
  match w with
  | WFree => (l <| cl_pc := CEnter |>, e)
  | WCtx err => (l <| cl_pc := CDone (Some (allocError p "" err)) |>, e)
  | WDeadline => (l <| cl_pc := CDone (Some (allocError p "" (ESentinel ErrProfileLimit))) |>, e)
  | _ => (l, e)
  end.

(** The [select] of [waitToRetry]: the next attempt, or the error [claim]
    returns.  The wake-up is received when its channel is closed. *)
Definition waitToRetry (wake : Z) (w : wakeup) l e : claimLoop * claimEnv :=
  let p := cl_profile l in
  let again := (l <| cl_pc := CAttempt |> <| cl_attempt := cl_attempt l + 1 |>, e) in
  match w with
  | WBackoff => again
  | WWake => if bool_decide (wake ∈ closed_chans (tchans (ce_tracker e))) then again else (l, e)
  | WDeadline => claimReturn (Some (allocError p "" (ESentinel ErrAllocationTimeout))) l e
  | WCtx err => claimReturn (Some (allocError p "" err)) l e
  | WFree => (l, e)
  end.

(** One step of one loop; an input the loop does not wait for leaves it. *)
Definition claimStep l (i : claimInput) e : claimLoop * claimEnv :=
  let p := cl_profile l in
  match cl_pc l, i with
  | CEnter, IEntered b => (l <| cl_pc := if b then CAttempt else CLimit |>, e)
  | CLimit, ISelect w => awaitProfileLimit w l e
  | CAttempt, IGo =>
      let '(t, wake) := Wait (pr_PoolRef p) (ce_tracker e) in
      (l <| cl_pc := CClaimVM wake |>, e <| ce_tracker := t |>)
  | CClaimVM wake, IClaimVM r ctxErr now redeclared => claimAnswer wake r ctxErr now redeclared l e
  | CBackoff wake _, ISelect w => waitToRetry wake w l e
  | CAllocated claim, IAllocated a => claimReturn (allocatedError p (cl_reservation l) claim a) l e
  | _, _ => (l, e)
  end.
End Claim.

(** ** All the loops of a Scheduler *)
Record claims := { cs_loops : list claimLoop; cs_env : claimEnv }.

(** A Job calls Allocate, a loop makes a step, or the rest of the program
    leaves the Tracker, the health monitor and the throttle in any state. *)
Inductive claimAct :=
  | AAllocates (state : runState) (r : option Reservation) (job : JobInfo) (p : option Profile) (requestID : string)
  | AInput (i : nat) (inp : claimInput)
  | AOthers (t : PoolTracker) (h : HealthMonitor) (tb : hostTable).

Section Claims.
Context {B : Type} `{Backoff B} (backoff : B).

Definition claimsStep (s : claims) (a : claimAct) : claims :=
  match a with
  | AAllocates state r job p requestID =>
      match Allocate state r job p requestID with
      | inl _ => s
      | inr l => {| cs_loops := cs_loops s ++ [l]; cs_env := cs_env s |}
      end
  | AInput i inp =>
      match cs_loops s !! i with
      | Some l => let '(l, e) := claimStep backoff l inp (cs_env s) in {| cs_loops := <[i := l]> (cs_loops s); cs_env := e |}
      | None => s
      end
  | AOthers t h tb =>
      {| cs_loops := cs_loops s;
         cs_env := {| ce_tracker := t; ce_health := h; ce_waiting := ce_waiting (cs_env s); ce_table := tb |} |}
  end.

Definition claimsRun (t : PoolTracker) (h : HealthMonitor) (tb : hostTable) (acts : list claimAct) : claims :=
  fold_left claimsStep acts
    {| cs_loops := []; cs_env := {| ce_tracker := t; ce_health := h; ce_waiting := ∅; ce_table := tb |} |}.

(** The loop waits on the Pool: it met an exhausted Pool and has not
    returned. *)
Definition waitsOn (ref : PoolRef) (l : claimLoop) : bool :=
  cl_waiting l && bool_decide (pr_PoolRef (cl_profile l) = ref)
  && match cl_pc l with CDone _ => false | _ => true end.
Definition one (b : bool) : Z := if b then 1 else 0.
Definition waiters_on (ref : PoolRef) (ls : list claimLoop) : Z := sumZ ((fun l => one (waitsOn ref l)) <$> ls).

(** A count map holds the positive counts and nothing else. *)
Definition counts (m : gmap PoolRef Z) (f : PoolRef -> Z) : Prop :=
  forall ref, m !! ref = (if 0 <? f ref then Some (f ref) else None).

Lemma waitOnPool_counts m f g ref d :
  counts m f -> (forall r, 0 <= f r) -> 0 <= f ref + d ->
  (forall r, g r = if decide (r = ref) then f r + d else f r) -> counts (waitOnPool ref d m).1 g.
Proof.
  intros Hm Hpos Hd Hg r. unfold waitOnPool.
  assert (default 0 (m !! ref) = f ref) as -> by (rewrite Hm; destruct (0 <? f ref) eqn:?; simpl; bool_to_prop; specialize (Hpos ref); lia).
  rewrite Hg. destruct (decide (r = ref)) as [->|Hne].
  - destruct (f ref + d <=? 0) eqn:?; simpl; bool_to_prop.
    + rewrite lookup_delete_eq. assert (0 <? f ref + d = false) as -> by (apply Z.ltb_ge; lia). done.
    + rewrite lookup_insert_eq. assert (0 <? f ref + d = true) as -> by (apply Z.ltb_lt; lia). done.
  - destruct (f ref + d <=? 0); simpl; rewrite ?lookup_delete_ne, ?lookup_insert_ne by done; apply Hm.
Qed.

Lemma sumZ_insert (f : claimLoop -> Z) ls i l l' :
  ls !! i = Some l -> sumZ (f <$> <[i := l']> ls) = sumZ (f <$> ls) + f l' - f l.
Proof.
  revert i. induction ls as [|x ls IH]; intros [|i] Hi; simplify_eq/=; [lia|]. rewrite (IH i Hi). lia.
Qed.

Lemma waiters_nonneg ref ls : 0 <= waiters_on ref ls.
Proof. apply sumZ_nonneg, Forall_fmap, Forall_forall. intros l _. simpl. by destruct (waitsOn ref l). Qed.

Lemma waiters_pos ref ls i l : ls !! i = Some l -> waitsOn ref l = true -> 1 <= waiters_on ref ls.
Proof.
  intros Hi Hw. pose proof (waiters_nonneg ref (<[i := l <| cl_waiting := false |>]> ls)) as Hn.
  unfold waiters_on in *. rewrite (sumZ_insert _ _ _ _ _ Hi), Hw in Hn. simpl in Hn. lia.
Qed.

(** Before the claim a loop waits on no Pool. *)
Definition loop_ok (l : claimLoop) : Prop :=
  match cl_pc l with CEnter | CLimit => cl_waiting l = false | _ => True end.

Record claims_inv (s : claims) : Prop := {
  ci_counts : counts (ce_waiting (cs_env s)) (fun ref => waiters_on ref (cs_loops s));
  ci_ok : Forall loop_ok (cs_loops s) }.

(** What a step does to the loop's own wait: nothing, or it starts or ends. *)
Definition step_waits (l l' : claimLoop) (e e' : claimEnv) : Prop :=
  let ref := pr_PoolRef (cl_profile l) in
  cl_profile l' = cl_profile l /\ loop_ok l'
  /\ ((ce_waiting e' = ce_waiting e /\ waitsOn ref l' = waitsOn ref l)
      \/ (ce_waiting e' = (waitOnPool ref 1 (ce_waiting e)).1 /\ waitsOn ref l = false /\ waitsOn ref l' = true)
      \/ (ce_waiting e' = (waitOnPool ref (-1) (ce_waiting e)).1 /\ waitsOn ref l = true /\ waitsOn ref l' = false)).

Lemma claimReturn_waits err l e :
  (forall x, cl_pc l <> CDone x) -> step_waits l (claimReturn err l e).1 e (claimReturn err l e).2.
Proof.
  intros Hpc. unfold claimReturn, step_waits, loop_ok, waitsOn. rec_simpl. split; [done|]. split; [done|].
  destruct (cl_waiting l); [right; right|left; done]. rewrite bool_decide_eq_true_2 by done. simpl.
  destruct (cl_pc l); naive_solver.
Qed.

Lemma claimAnswer_waits wake r ctxErr now b l e :
  cl_pc l = CClaimVM wake ->
  step_waits l (claimAnswer backoff wake r ctxErr now b l e).1 e (claimAnswer backoff wake r ctxErr now b l e).2.
Proof.
  intros Hpc. unfold claimAnswer.
  destruct r as [c|err]; [unfold step_waits, loop_ok, waitsOn; rec_simpl; rewrite Hpc; auto|].
  destruct (errors_Is err ErrExhausted).
  { unfold claimExhausted. destruct (cl_waiting l) eqn:Hw; unfold step_waits, loop_ok, waitsOn; rec_simpl; rewrite Hpc, Hw; [by auto|].
    split; [done|]. split; [done|]. right; left. by rewrite bool_decide_eq_true_2. }
  destruct (errors_Is err ErrNotFound); [unfold step_waits, loop_ok, waitsOn; rec_simpl; rewrite Hpc; auto|].
  destruct (errors_Is err ErrUnavailable); [unfold step_waits, loop_ok, waitsOn; rec_simpl; rewrite Hpc; auto|].
  destruct (errors_Is err ErrAborted); [unfold step_waits, loop_ok, waitsOn; rec_simpl; rewrite Hpc; auto|].
  destruct ctxErr; apply claimReturn_waits; congruence.
Qed.

Lemma claimStep_waits l i e :
  loop_ok l -> step_waits l (claimStep backoff l i e).1 e (claimStep backoff l i e).2.
Proof.
  intros Hok. assert (step_waits l l e e) as Hstay by (unfold step_waits; auto). unfold claimStep, awaitProfileLimit, waitToRetry, loop_ok in *.
  destruct (cl_pc l) as [| | |wake|wake d|claim|r] eqn:Hpc; destruct i as [b|w| |r' c now rd|a]; try exact Hstay.
  all: try (apply claimAnswer_waits; done).
  all: try (apply claimReturn_waits; congruence).
  all: try (destruct w; try exact Hstay; try (apply claimReturn_waits; congruence)).
  all: try (case_if; [|exact Hstay]).
  all: try destruct (Wait _ _) as [t wk].
  all: unfold step_waits, loop_ok, waitsOn; rec_simpl; rewrite ?Hpc, ?Hok; simpl; try destruct b; auto.
Qed.

Lemma waitsOn_other ref l l' :
  cl_profile l' = cl_profile l -> pr_PoolRef (cl_profile l) <> ref -> waitsOn ref l' = waitsOn ref l.
Proof.
  intros Hp Hne. unfold waitsOn. rewrite Hp, bool_decide_eq_false_2 by done. by rewrite !andb_false_r.
Qed.

Lemma step_counts s i l l' e' :
  claims_inv s -> cs_loops s !! i = Some l -> step_waits l l' (cs_env s) e' ->
  claims_inv {| cs_loops := <[i := l']> (cs_loops s); cs_env := e' |}.
Proof.
  intros [HC HO] Hi (Hp & Hok & Hw). set (ref := pr_PoolRef (cl_profile l)) in *.
  assert (forall r, waiters_on r (<[i := l']> (cs_loops s)) =
            if decide (r = ref) then waiters_on r (cs_loops s) + (one (waitsOn ref l') - one (waitsOn ref l))
            else waiters_on r (cs_loops s)) as Hg.
  { intros r. unfold waiters_on. rewrite (sumZ_insert _ _ _ _ _ Hi). destruct (decide (r = ref)) as [->|Hne]; [lia|].
    rewrite (waitsOn_other r l l') by (done || congruence). lia. }
  split; [|by apply Forall_insert]. simpl. destruct Hw as [[-> He]|[(-> & H1 & H2)|(-> & H1 & H2)]].
  - intros r. rewrite (HC r), Hg, He. destruct (decide (r = ref)); [|done].
    replace (waiters_on r (cs_loops s) + _) with (waiters_on r (cs_loops s)) by lia. done.
  - rewrite H1, H2 in Hg. eapply waitOnPool_counts; [exact HC| | |exact Hg]; simpl.
    + intros r. apply waiters_nonneg.
    + pose proof (waiters_nonneg ref (cs_loops s)). lia.
  - rewrite H1, H2 in Hg. eapply waitOnPool_counts; [exact HC| | |exact Hg]; simpl.
    + intros r. apply waiters_nonneg.
    + pose proof (waiters_pos ref (cs_loops s) i l Hi H1). lia.
Qed.

Lemma claimsStep_inv s a : claims_inv s -> claims_inv (claimsStep s a).
Proof.
  intros HI. destruct a as [state r job p rid|i inp|t h tb]; simpl.
  - destruct (Allocate state r job p rid) as [|l] eqn:E; [done|]. destruct HI as [HC HO].
    assert (cl_waiting l = false) as Hl by (unfold Allocate in E; repeat case_match; by simplify_eq).
    split; simpl.
    + intros ref. rewrite (HC ref). unfold waiters_on. rewrite fmap_app, sumZ_app. simpl.
      assert (waitsOn ref l = false) as -> by (unfold waitsOn; by rewrite Hl). simpl. by rewrite Z.add_0_r.
    + apply Forall_app. split; [done|]. constructor; [|done]. unfold loop_ok. by destruct (cl_pc l).
  - destruct (cs_loops s !! i) as [l|] eqn:Hi; [|done].
    pose proof (claimStep_waits l inp (cs_env s)) as Hs. destruct (claimStep backoff l inp (cs_env s)) as [l' e'].
    eapply step_counts; [done|done|]. apply Hs. destruct HI as [_ HO]. by eapply Forall_lookup_1.
  - by destruct HI.
Qed.

(** The waiting counts are exact.  Whatever the Jobs, the Pool Manager
    and the rest of the program do, the count of a Pool is the number of
    allocations that met it exhausted and have not returned, and a Pool with
    none is not in the map. *)
Theorem waiting_is_exact t h tb acts ref :
  let s := claimsRun t h tb acts in
  ce_waiting (cs_env s) !! ref =
  if 0 <? waiters_on ref (cs_loops s) then Some (waiters_on ref (cs_loops s)) else None.
Proof.
  assert (claims_inv (claimsRun t h tb acts)) as [HC _]; [|exact (HC ref)].
  unfold claimsRun. match goal with |- claims_inv (fold_left _ _ ?s0) => assert (claims_inv s0) as H0 end.
  { split; simpl; [|done]. intros r. by rewrite lookup_empty. }
  revert H0. generalize (Build_claims [] {| ce_tracker := t; ce_health := h; ce_waiting := ∅; ce_table := tb |}).
  induction acts as [|a acts IH]; intros s0 H0; simpl; [done|]. by apply IH, claimsStep_inv.
Qed.

(** A loop that returned an error returned an allocation error of its own
    Profile and Pool. *)
Definition named_error (l : claimLoop) : Prop :=
  match cl_pc l with
  | CDone (Some err) => exists host e, err = allocError (cl_profile l) host e
  | _ => True
  end.

Lemma claimReturn_named host err l e : named_error (claimReturn (Some (allocError (cl_profile l) host err)) l e).1.
Proof. by exists host, err. Qed.

Lemma claimAnswer_named wake r ctxErr now b l e : named_error (claimAnswer backoff wake r ctxErr now b l e).1.
Proof.
  unfold claimAnswer. destruct r as [c|err]; [done|]. destruct (errors_Is err ErrExhausted).
  { unfold claimExhausted. by destruct (cl_waiting l). }
  destruct (errors_Is err ErrNotFound); [done|]. destruct (errors_Is err ErrUnavailable); [done|].
  destruct (errors_Is err ErrAborted); [done|]. destruct ctxErr; apply claimReturn_named.
Qed.

Lemma claimStep_named l i e : named_error l -> named_error (claimStep backoff l i e).1.
Proof.
  intros Hn. unfold claimStep, awaitProfileLimit, waitToRetry. destruct (cl_pc l) as [| | |wake|wake d|claim|res] eqn:Hpc; destruct i as [b|w| |r' cx now rd|a]; try exact Hn.
  all: try apply claimAnswer_named.
  all: try (destruct w; rec_simpl; try done; try (by eexists _, _)).
  all: try (destruct b; done).
  all: try (case_if; done).
  all: try (by destruct (Wait _ _)).
  destruct a; simpl; try done; by eexists _, _.
Qed.

Lemma claimStep_fixed l i e :
  cl_requestID (claimStep backoff l i e).1 = cl_requestID l /\ cl_profile (claimStep backoff l i e).1 = cl_profile l
  /\ cl_reservation (claimStep backoff l i e).1 = cl_reservation l.
Proof.
  unfold claimStep, awaitProfileLimit, waitToRetry, claimAnswer, claimExhausted, claimReturn.
  destruct (cl_pc l) as [| | |wake|wake d|claim|res]; destruct i as [b|w| |r' cx now rd|a]; rec_simpl; repeat case_match; done.
Qed.

Lemma claimsStep_loop s a i l :
  cs_loops s !! i = Some l -> named_error l ->
  exists l', cs_loops (claimsStep s a) !! i = Some l' /\ named_error l' /\ cl_requestID l' = cl_requestID l
  /\ cl_profile l' = cl_profile l /\ cl_reservation l' = cl_reservation l.
Proof.
  intros Hi Hn. destruct a as [state r job p rid|j inp|t h tb]; simpl; [| |by exists l].
  - destruct (Allocate state r job p rid) as [|l0]; simpl; [by exists l|]. exists l. split; [|done].
    by apply lookup_app_l_Some.
  - destruct (cs_loops s !! j) as [lj|] eqn:Hj; [|by exists l].
    pose proof (claimStep_named lj inp (cs_env s)) as Hn'. pose proof (claimStep_fixed lj inp (cs_env s)) as Hf.
    destruct (claimStep backoff lj inp (cs_env s)) as [l' e']. simpl in *.
    destruct (decide (i = j)) as [->|Hne].
    + simplify_eq. exists l'. rewrite list_lookup_insert_eq by (by eapply lookup_lt_Some). naive_solver.
    + exists l. by rewrite list_lookup_insert_ne.
Qed.

Lemma claimsStep_named s a : Forall named_error (cs_loops s) -> Forall named_error (cs_loops (claimsStep s a)).
Proof.
  intros HF. destruct a as [state r job p rid|i inp|t h tb]; simpl; [| |done].
  - destruct (Allocate state r job p rid) as [|l] eqn:E; [done|]. simpl. apply Forall_app. split; [done|].
    constructor; [|done]. unfold Allocate in E. repeat case_match; by simplify_eq.
  - destruct (cs_loops s !! i) as [l|] eqn:Hi; [|done]. pose proof (claimStep_named l inp (cs_env s)) as Hn.
    destruct (claimStep backoff l inp (cs_env s)) as [l' e']. apply Forall_insert; [done|]. apply Hn. by eapply Forall_lookup_1.
Qed.

Lemma claimsRun_named t h tb acts : Forall named_error (cs_loops (claimsRun t h tb acts)).
Proof.
  unfold claimsRun. match goal with |- Forall _ (cs_loops (fold_left _ _ ?s0)) => assert (Forall named_error (cs_loops s0)) as H0 by constructor end.
  revert H0. generalize (Build_claims [] {| ce_tracker := t; ce_health := h; ce_waiting := ∅; ce_table := tb |}).
  induction acts as [|a acts IH]; intros s0 H0; simpl; [done|]. by apply IH, claimsStep_named.
Qed.

(** One allocation, one request.  Whatever happens after a Job has
    called Allocate, its loop goes on claiming from the same Pool with the
    request id it chose first, and for the same Reservation; and if it
    returns an error, that is an allocation error naming its Profile and
    Pool. *)
Theorem allocation_identity t h tb acts acts' i l :
  cs_loops (claimsRun t h tb acts) !! i = Some l ->
  exists l', cs_loops (claimsRun t h tb (acts ++ acts')) !! i = Some l'
    /\ cl_requestID l' = cl_requestID l /\ cl_profile l' = cl_profile l /\ cl_reservation l' = cl_reservation l
    /\ forall err, cl_pc l' = CDone (Some err) -> exists host e, err = allocError (cl_profile l) host e.
Proof.
  intros Hi. assert (named_error l) as Hn by (eapply Forall_lookup_1; [apply claimsRun_named|exact Hi]).
  revert Hi. unfold claimsRun. rewrite fold_left_app. generalize (fold_left claimsStep acts). intros f.
  generalize (f (Build_claims [] {| ce_tracker := t; ce_health := h; ce_waiting := ∅; ce_table := tb |})).
  intros s. revert s l Hn. induction acts' as [|a acts' IH]; intros s l Hn Hi; simpl.
  - exists l. split_and!; try done. intros err Hpc. unfold named_error in Hn. by rewrite Hpc in Hn.
  - destruct (claimsStep_loop s a i l Hi Hn) as (l1 & H1 & Hn1 & R1 & P1 & V1).
    destruct (IH _ l1 Hn1 H1) as (l2 & H2 & R2 & P2 & V2 & HE). exists l2. rewrite <-P1. split_and!; [done|congruence|done|congruence|exact HE].
Qed.

(** An empty Pool, as the capacity computation sees it. *)
Definition reads_empty (ref : PoolRef) (t : PoolTracker) : Prop := forall unhealthy, Tracker_Available unhealthy ref t = 0.

Lemma MarkExhausted_lookup ref t : exists p, pools (MarkExhausted ref t) !! ref = Some p /\ exhausted p = true.
Proof.
  unfold MarkExhausted, poolLocked, put. destruct (pools t !! ref); rec_simpl; rewrite lookup_insert_eq; by eexists.
Qed.

Lemma exhausted_empty ref t p : pools t !! ref = Some p -> exhausted p = true -> reads_empty ref t.
Proof.
  intros Hp He u. unfold Tracker_Available, availableCount. rewrite Hp, He, orb_true_r. by destruct u.
Qed.

Lemma MarkExhausted_empty ref t : reads_empty ref (MarkExhausted ref t).
Proof. destruct (MarkExhausted_lookup ref t) as (p & Hp & He). by eapply exhausted_empty. Qed.

Lemma Track_empty ref b t : reads_empty ref (Track ref b (MarkExhausted ref t)).
Proof.
  destruct (MarkExhausted_lookup ref t) as (p & Hp & He). eapply exhausted_empty; [by apply Track_lookup_Some|done].
Qed.

(** What a failed claim does, by its error.  An exhausted or unknown
    Pool reads as empty afterwards, whatever the Tracker knew; an unavailable
    Pool Manager is unhealthy for the whole backoff period; an aborted claim
    changes nothing; each of these is retried after the backoff of the
    attempt, and nothing but its own branch's state changes.  Any other error
    ends the allocation: with the context's error if it is over, and else
    with the error itself. *)
Theorem claim_failure_policy l e wake err ctxErr now b :
  cl_pc l = CClaimVM wake ->
  let ref := pr_PoolRef (cl_profile l) in
  let l' := (claimStep backoff l (IClaimVM (Err err) ctxErr now b) e).1 in
  let e' := (claimStep backoff l (IClaimVM (Err err) ctxErr now b) e).2 in
  let retried := cl_pc l' = CBackoff wake (Next backoff (cl_attempt l)) /\ cl_attempt l' = cl_attempt l in
  if errors_Is err ErrExhausted then
    retried /\ reads_empty ref (ce_tracker e') /\ ce_health e' = ce_health e /\ waitsOn ref l' = true
  else if errors_Is err ErrNotFound then
    retried /\ reads_empty ref (ce_tracker e') /\ ce_health e' = ce_health e /\ ce_waiting e' = ce_waiting e
    /\ declared <$> pools (ce_tracker e') !! ref = Some b
  else if errors_Is err ErrUnavailable then
    retried /\ ce_tracker e' = ce_tracker e /\ ce_waiting e' = ce_waiting e
    /\ forall later, later < now + hm_UnhealthyFor (ce_health e) -> Healthy later (ce_health e') = false
  else if errors_Is err ErrAborted then retried /\ e' = e
  else cl_pc l' = CDone (Some (allocError (cl_profile l) "" (default err ctxErr))) /\ ce_tracker e' = ce_tracker e
    /\ ce_health e' = ce_health e.
Proof.
  intros Hpc ref l' e'. unfold l', e', claimStep. rewrite Hpc. unfold claimAnswer.
  destruct (errors_Is err ErrExhausted).
  { unfold claimExhausted. fold ref. destruct (cl_waiting l) eqn:Hw; rec_simpl; split_and!; try done; try apply MarkExhausted_empty;
      unfold waitsOn; rec_simpl; rewrite ?Hw, bool_decide_eq_true_2; done. }
  destruct (errors_Is err ErrNotFound).
  { rec_simpl. split_and!; try done; [apply Track_empty|apply Track_lookup_eq]. }
  destruct (errors_Is err ErrUnavailable).
  { rec_simpl. split_and!; try done. intros later Hl. unfold Healthy, MarkUnavailable, time_Before, time_Add. rec_simpl.
    destruct (healthy (ce_health e)); simpl; [|done]. apply negb_false_iff, Z.ltb_lt. done. }
  destruct (errors_Is err ErrAborted); [by rec_simpl|].
  unfold claimReturn. destruct ctxErr; rec_simpl; split; try done; by destruct (cl_waiting l).
Qed.
End Claims.

(** ** Witnesses *)
Definition demo_loops : list claimAct := [AAllocates stateRunning (Some {| res_ID := 1; res_GrantedAt := 0 |}) {| job_ID := 7; job_Image := "" |}
    (Some {| pr_cfg := demo_profile; pr_PoolRef := {| ref_Name := "small"; ref_Namespace := "ns" |} |}) "req"; AInput 0 (IEntered true); AInput 0 IGo].
Definition demo_monitor0 : HealthMonitor :=
  {| hm_Backoff := fun _ => 1; hm_Interval := 10; hm_FailureThreshold := 3; hm_UnhealthyFor := 30;
     contacted := true; failures := 0; healthy := true; unhealthyUntil := 0 |}.
Definition demo_claims : claims := claimsRun Zero NewTracker demo_monitor0 (newHostTable []) demo_loops.
Definition demo_loop : claimLoop :=
  {| cl_reservation := {| res_ID := 1; res_GrantedAt := 0 |}; cl_job := {| job_ID := 7; job_Image := "" |};
     cl_profile := {| pr_cfg := demo_profile; pr_PoolRef := {| ref_Name := "small"; ref_Namespace := "ns" |} |};
     cl_requestID := "req"; cl_attempt := 0; cl_waiting := false; cl_pc := CClaimVM 0 |}.

Lemma allocation_identity_witness :
  exists l', cs_loops (claimsRun Zero NewTracker demo_monitor0 (newHostTable [])
      (demo_loops ++ [AInput 0 (IClaimVM (Err (ESentinel ErrExhausted)) None 5 false); AInput 0 (ISelect WDeadline)])) !! 0%nat = Some l'
    /\ cl_requestID l' = "req".
Proof.
  destruct (allocation_identity Zero NewTracker demo_monitor0 (newHostTable []) demo_loops
     [AInput 0 (IClaimVM (Err (ESentinel ErrExhausted)) None 5 false); AInput 0 (ISelect WDeadline)] 0 demo_loop) as (l' & H & Hr & _).
  - vm_compute. reflexivity.
  - exists l'. split; [exact H|exact Hr].
Defined.

Lemma claim_failure_policy_witness :
  Healthy 20 (ce_health (claimStep Zero demo_loop (IClaimVM (Err (ESentinel ErrUnavailable)) None 5 false) (cs_env demo_claims)).2) = false.
Proof.
  pose proof (claim_failure_policy Zero demo_loop (cs_env demo_claims) 0 (ESentinel ErrUnavailable) None 5 false eq_refl) as H.
  simpl in H. destruct H as (_ & _ & _ & H). apply H. vm_compute. reflexivity.
Defined.
