(* ===== verification/Lifecycle.v ===== *)
(** * internal/scheduler/scheduler.go: the Scheduler's life and its status

    [New] and its checks, the run state, [contacted], the whole of [Reserve]
    over the Tracker, the health monitor and the accounting, and the
    [Snapshot] the readiness endpoint reads. *)
From S2P Require Import Prelude GoModel PoolTypes ConfigTypes SchedTypes Capacity Tracker Health HostTable Spec Resolve PoolDecl PoolDeclThms ClaimLoop SchedSys.

(** ** New and the run state *)

(** Which required dependencies were given. *)
Record Deps := {
  dep_PoolManager : bool; dep_Specs : bool; dep_HostSelector : bool; dep_Declarer : bool;
  dep_Tracker : bool; dep_Health : bool; dep_Hosts : bool }.

Definition checkDeps (d : Deps) : option error :=
  let missing :=
    if negb (dep_PoolManager d) then "PoolManager" else if negb (dep_Specs d) then "Specs"
    else if negb (dep_HostSelector d) then "HostSelector" else if negb (dep_Declarer d) then "Declarer"
    else if negb (dep_Tracker d) then "Tracker" else if negb (dep_Health d) then "Health"
    else if negb (dep_Hosts d) then "Hosts" else "" in
  if negb (String.eqb missing "") then Some (ENew ("scheduler: deps: " +:+ missing +:+ " is required")) else None.

(** The fields of [impl] that are not in the components. [im_ready] is
    whether the [ready] channel is closed. *)
Record impl := {
  im_set : Settings; im_state : runState; im_ready : bool; im_profiles : list Profile;
  im_inventory : list HostEntry; im_table : hostTable; im_waiting : gmap PoolRef Z; im_core : core }.
#[export] Instance eta_impl : Eta impl :=
  fun r => {| im_set := im_set r; im_state := im_state r; im_ready := im_ready r; im_profiles := im_profiles r;
              im_inventory := im_inventory r; im_table := im_table r; im_waiting := im_waiting r; im_core := im_core r |}.

Definition New (d : Deps) (set : Settings) (profiles : list ProfileConfig) (inventory : list HostEntry) : result impl :=
  match checkDeps d with
  | Some err => Err err
  | None =>
      if set_Slots set <=? 0
      then Err (ENew ("scheduler: settings: slots is " +:+ pretty (set_Slots set) +:+ ", want at least 1"))
      else Ok {| im_set := set; im_state := stateNew; im_ready := false;
                 im_profiles := resolveProfiles profiles (set_Namespace set); im_inventory := inventory;
                 im_table := newHostTable inventory; im_waiting := ∅; im_core := cor (sys0 (set_Slots set)) |}
  end.

Definition start (s : impl) : impl * option error :=
  match im_state s with
  | stateNew => (s <| im_state := stateRunning |>, None)
  | _ => (s, Some (ESentinel ErrAlreadyRun))
  end.

Definition setState (st : runState) (s : impl) : impl := s <| im_state := st |>.

(** [contacted]; the argument is whether the health monitor's channel is
    closed. *)
Definition sched_contacted (healthContacted : bool) (s : impl) : impl * bool :=
  if im_ready s then (s, true)
  else if healthContacted then (s <| im_ready := true |>, true)
  else (s, false).

(** [refuse]: the reason that is counted, and the throttled log line. *)
Definition refuse (reason : option RefusalReason) (now : time) (s : impl) : impl * RefusalReason :=
  let reason := default RefusalNoWarmMicroVM reason in
  (s <| im_table := (throttled ("refusal:" +:+ RefusalReason_String reason) now (im_table s)).1 |>, reason).

(** What [Reserve] reads from outside: the caller's context, the health
    monitor, and the Pools the Tracker reports. *)
Record reserveInput := {
  ri_ctxErr : option error; ri_contacted : bool; ri_healthy : bool; ri_pools : list PoolAvailability; ri_now : time }.

Definition Reserve (i : reserveInput) (s : impl) : impl * (Reservation + sched_error) :=
  match ri_ctxErr i with
  | Some err => (s, inr (SError err))
  | None =>
      match im_state s with
      | stateStopping => let '(s, r) := refuse (Some RefusalShuttingDown) (ri_now i) s in (s, inr (SRefusal r))
      | stateNew | stateStopped => (s, inr (SError (ESentinel ErrNotRunning)))
      | stateRunning =>
          let '(s, ok) := sched_contacted (ri_contacted i) s in
          if negb ok then let '(s, r) := refuse (Some RefusalPoolManagerNotContacted) (ri_now i) s in (s, inr (SRefusal r))
          else
            let warm := warmAvailable (ri_healthy i) (ri_pools i) in
            match grant (set_Slots (im_set s)) warm (ri_now i) (acct (im_core s)) with
            | (a, inl r) => (s <| im_core := (im_core s) <| acct := a |> |>, inl r)
            | (_, inr reason) => let '(s, r) := refuse reason (ri_now i) s in (s, inr (SRefusal r))
            end
      end
  end.

(** A Pool has a warm MicroVM, as the Tracker counts them. *)
Definition warm_pool (unhealthy : bool) (t : PoolTracker) : Prop := exists ref, 0 < Tracker_Available unhealthy ref t.

Lemma sumZ_pos_iff l : Forall (fun x => 0 <= x) l -> (0 < sumZ l <-> Exists (fun x => 0 < x) l).
Proof.
  induction 1 as [|x l Hx Hl IH]; simpl; [split; [lia|intros H; inversion H]|].
  rewrite Exists_cons, <-IH. pose proof (sumZ_nonneg l Hl). lia.
Qed.

(** The capacity the Scheduler sums is positive exactly when the Pool Manager
    is healthy and some Pool has a warm MicroVM. *)
Lemma warmAvailable_pos healthy unhealthy t :
  0 < warmAvailable healthy (Pools unhealthy t) <-> healthy = true /\ warm_pool unhealthy t.
Proof.
  unfold warmAvailable. destruct healthy; simpl; [|split; [lia|naive_solver]].
  rewrite sumZ_pos_iff.
  2:{ apply Forall_fmap, Forall_forall. intros pa _. simpl. repeat case_if; bool_to_prop; lia. }
  rewrite Exists_fmap, Exists_exists. split.
  - intros (pa & Hin & Hpos). split; [done|]. apply elem_of_Pools in Hin as (p & Hp & Heq). exists (pa_Pool pa).
    rewrite Heq in Hpos. simpl in Hpos. unfold Tracker_Available. rewrite Hp.
    revert Hpos. destruct unhealthy; simpl; repeat case_if; bool_to_prop; lia.
  - intros [_ (ref & Hpos)]. unfold Tracker_Available in Hpos. destruct unhealthy; [lia|].
    destruct (pools t !! ref) as [p|] eqn:Hp; [|lia]. exists (availability false ref p). split.
    + apply elem_of_Pools. by exists p.
    + simpl. unfold availableCount in *. revert Hpos. destruct (declared p), (exhausted p); simpl; repeat case_if; bool_to_prop; lia.
Qed.

(** Why a Reservation is refused. *)
Definition refusal (i : reserveInput) (s : impl) (r : RefusalReason) : Prop :=
  match r with
  | RefusalShuttingDown => im_state s = stateStopping
  | RefusalPoolManagerNotContacted => im_state s = stateRunning /\ im_ready s = false /\ ri_contacted i = false
  | RefusalNoFreeSlot => im_state s = stateRunning /\ set_Slots (im_set s) <= slotsInUseLocked (acct (im_core s))
  | RefusalNoWarmMicroVM =>
      im_state s = stateRunning /\ slotsInUseLocked (acct (im_core s)) < set_Slots (im_set s)
      /\ warmAvailable (ri_healthy i) (ri_pools i) <= 0
  end.

Lemma grant_cases slots warm now a :
  match grant slots warm now a with
  | (a', inl r) => slotsInUseLocked a < slots /\ 0 < warm /\ res_ID r = uint64 (nextID a + 1)
                   /\ reservations a' = <[res_ID r := now]> (reservations a) /\ allocations a' = allocations a
  | (a', inr reason) => a' = a /\ ((reason = Some RefusalNoFreeSlot /\ slots <= slotsInUseLocked a)
                                   \/ (reason = Some RefusalNoWarmMicroVM /\ slotsInUseLocked a < slots /\ warm <= 0))
  end.
Proof.
  unfold grant, availableCapacityLocked. destruct (slots - slotsInUseLocked a <=? 0) eqn:?; simpl; bool_to_prop.
  { split; [done|]. left. split; [done|lia]. }
  destruct (warm <=? 0) eqn:?; simpl; bool_to_prop; [split; [done|]; right; split_and!; [done|lia|lia]|].
  destruct (warm <? slots - slotsInUseLocked a); simpl;
    match goal with |- context [?n <=? 0] => destruct (n <=? 0) eqn:?; bool_to_prop; [lia|] end; simpl; split_and!; done || lia.
Qed.

(** C38: when a Reservation is granted.  Exactly when the caller is still
    there, the Scheduler is running, the Pool Manager has answered at least
    once and is healthy, a Slot is free, and the Tracker counts a warm
    MicroVM in some Pool.  A grant takes the Slot and nothing else; a refusal
    takes nothing, and its reason says which condition failed. *)
Theorem Reserve_iff_capacity i s unhealthy t :
  ri_pools i = Pools unhealthy t ->
  let a := acct (im_core s) in
  ((exists r, (Reserve i s).2 = inl r) <->
     ri_ctxErr i = None /\ im_state s = stateRunning /\ (im_ready s = true \/ ri_contacted i = true)
     /\ slotsInUseLocked a < set_Slots (im_set s) /\ ri_healthy i = true /\ warm_pool unhealthy t)
  /\ match (Reserve i s).2 with
     | inl r => reservations (acct (im_core (Reserve i s).1)) = <[res_ID r := ri_now i]> (reservations a)
                /\ allocations (acct (im_core (Reserve i s).1)) = allocations a
     | inr err => im_core (Reserve i s).1 = im_core s /\ forall r, err = SRefusal r -> refusal i s r
     end.
Proof.
  intros Hp a. rewrite <-warmAvailable_pos, <-Hp. unfold Reserve. destruct (ri_ctxErr i) as [e|]; simpl; [naive_solver|].
  destruct (im_state s) eqn:Hs; simpl; try naive_solver. unfold sched_contacted.
  destruct (im_ready s) eqn:Hr; [|destruct (ri_contacted i) eqn:Hc]; simpl.
  3:{ split; [naive_solver|]. split; [done|]. intros r [= <-]. done. }
  all: pose proof (grant_cases (set_Slots (im_set s)) (warmAvailable (ri_healthy i) (ri_pools i)) (ri_now i) a) as HG;
    fold a; destruct (grant _ _ _ _) as [a' [r|reason]]; simpl.
  all: try (destruct HG as (H1 & H2 & _ & H3 & H4); split; [|done]; split; [auto 7|intros _; by eexists]).
  all: destruct HG as [-> [(-> & H1)|(-> & H1 & H2)]]; simpl; (split; [split; [by intros [? [=]]|lia]|]); split; try done;
    intros r [= <-]; done.
Qed.

Definition demo_impl : impl :=
  match New {| dep_PoolManager := true; dep_Specs := true; dep_HostSelector := true; dep_Declarer := true;
               dep_Tracker := true; dep_Health := true; dep_Hosts := true |} demo_set [demo_profile] [] with
  | Ok s => (start s).1
  | Err _ => {| im_set := demo_set; im_state := stateNew; im_ready := false; im_profiles := []; im_inventory := [];
                im_table := newHostTable []; im_waiting := ∅; im_core := cor (sys0 0) |}
  end.
(** A Pool with two warm MicroVMs. *)
Definition demo_ref : PoolRef := {| ref_Name := "small"; ref_Namespace := "ns" |}.
Definition demo_tracker : PoolTracker :=
  applyPoll demo_ref 0 2 {| Available := 2; Leased := 0; Provisioning := 0; Quarantined := 0 |} (Track demo_ref true NewTracker).
Definition demo_reserve : reserveInput :=
  {| ri_ctxErr := None; ri_contacted := true; ri_healthy := true; ri_pools := Pools false demo_tracker; ri_now := 7 |}.

Lemma Reserve_iff_capacity_witness : exists r, (Reserve demo_reserve demo_impl).2 = inl r.
Proof.
  refine (proj2 (proj1 (Reserve_iff_capacity demo_reserve demo_impl false demo_tracker eq_refl)) _).
  refine (conj eq_refl (conj _ (conj (or_intror eq_refl) (conj _ (conj eq_refl _))))).
  - vm_compute. reflexivity.
  - vm_compute. reflexivity.
  - exists demo_ref. vm_compute. reflexivity.
Defined.

(** ** Snapshot *)
Definition leasedOnLocked (host : string) (c : core) : Z :=
  Z.of_nat (length (filter (fun hid => on_host host c hid = true) (liveHandles c))).

Definition hh_le (a b : HostHealth) : Prop := string_le (hh_Name a) (hh_Name b).
#[export] Instance hh_le_dec : RelDecision hh_le := fun a b => string_le_dec _ _.

Definition hostHealth (c : core) (name : string) (st : hostState) : HostHealth :=
  {| hh_Name := name; hh_Healthy := hs_healthy st; hh_ConsecutiveFailures := hs_failures st;
     hh_LastProbeAt := hs_lastProbeAt st; hh_Info := hs_info st; hh_Leased := leasedOnLocked name c |}.

Definition takeSnapshot (pools : list PoolAvailability) (healthy healthContacted : bool) (s : impl) : impl * Snapshot :=
  let '(s, c) := sched_contacted healthContacted s in
  (s, {| sn_PoolManagerContacted := c; sn_PoolManagerHealthy := healthy; sn_Slots := set_Slots (im_set s);
         sn_SlotsInUse := slotsInUseLocked (acct (im_core s));
         sn_Pools := (fun pa => pa <| pa_Waiting := default 0 (im_waiting s !! pa_Pool pa) |>) <$> pools;
         sn_Hosts := merge_sort hh_le ((fun kv => hostHealth (im_core s) kv.1 kv.2) <$> map_to_list (hosts (im_table s))) |}).

#[export] Instance hh_le_total : Total hh_le.
Proof. intros a b. apply string_le_total. Qed.
#[export] Instance hh_le_trans : Transitive hh_le.
Proof. intros a b c. unfold hh_le. apply transitivity. Qed.

Lemma sumZ_fmap_add {A} (f g : A -> Z) l : sumZ ((fun x => f x + g x) <$> l) = sumZ (f <$> l) + sumZ (g <$> l).
Proof. induction l as [|x l IH]; [done|]. rewrite !fmap_cons. cbn [sumZ]. rewrite IH. lia. Qed.

Lemma sumZ_fmap_ext {A} (f g : A -> Z) l : (forall x, f x = g x) -> sumZ (f <$> l) = sumZ (g <$> l).
Proof. intros H. induction l as [|x l IH]; [done|]. rewrite !fmap_cons. simpl. by rewrite H, IH. Qed.

Lemma sumZ_zero {A} (l : list A) : sumZ ((fun _ => 0) <$> l) = 0.
Proof. induction l as [|x l IH]; [done|]. rewrite fmap_cons. cbn [sumZ]. rewrite IH. lia. Qed.

(** An Allocation is on at most one of the Hosts. *)
Lemma on_one_host x names : NoDup names -> sumZ ((fun n => one (String.eqb x n)) <$> names) <= 1.
Proof.
  induction 1 as [|n names Hni HN IH]; [done|]. rewrite fmap_cons. cbn [sumZ].
  destruct (String.eqb_spec x n) as [->|]; cbn [one]; [|exact IH].
  assert (sumZ ((fun m => one (String.eqb n m)) <$> names) = 0) as ->; [|lia]. clear IH HN.
  induction names as [|m names IH]; [done|]. rewrite fmap_cons. cbn [sumZ]. apply not_elem_of_cons in Hni as [Hm Hni].
  destruct (String.eqb_spec n m); [done|]. cbn [one]. by apply IH.
Qed.

Lemma leased_sum c names hids :
  NoDup names ->
  sumZ ((fun n => Z.of_nat (length (filter (fun hid => on_host n c hid = true) hids))) <$> names) <= Z.of_nat (length hids).
Proof.
  intros HN. induction hids as [|h hids IH]; [rewrite (sumZ_fmap_ext _ (fun _ => 0)), sumZ_zero by done; done|].
  rewrite (sumZ_fmap_ext _ (fun n => one (on_host n c h) + Z.of_nat (length (filter (fun hid => on_host n c hid = true) hids)))).
  2:{ intros n. rewrite filter_cons. destruct (on_host n c h); cbn [one].
      - rewrite decide_True by done. rewrite length_cons. lia.
      - by rewrite decide_False. }
  rewrite sumZ_fmap_add. enough (sumZ ((fun n => one (on_host n c h)) <$> names) <= 1) by (simpl length; lia).
  unfold on_host. destruct (heap c !! h) as [hd|]; [by apply on_one_host|].
  rewrite (sumZ_fmap_ext _ (fun _ => 0)), sumZ_zero by done. lia.
Qed.

(** The Snapshot.  It has each Host of the health table exactly once, in
    order of name and with the table's state; it reads as ready exactly when
    the Pool Manager has answered and some Host of the table is healthy; and
    the MicroVMs it reports leased, over all Hosts, are no more than the Slots
    in use. *)
Theorem Snapshot_faithful pas healthy hc s :
  let sn := (takeSnapshot pas healthy hc s).2 in
  Sorted hh_le (sn_Hosts sn)
  /\ NoDup (hh_Name <$> sn_Hosts sn)
  /\ (forall hh, hh ∈ sn_Hosts sn <-> exists st, hosts (im_table s) !! hh_Name hh = Some st /\ hh = hostHealth (im_core s) (hh_Name hh) st)
  /\ (Snapshot_Ready sn = true <->
        (im_ready s = true \/ hc = true) /\ exists name st, hosts (im_table s) !! name = Some st /\ hs_healthy st = true)
  /\ sumZ (hh_Leased <$> sn_Hosts sn) <= sn_SlotsInUse sn.
Proof.
  intros sn. set (s' := (sched_contacted hc s).1). set (m := map_to_list (hosts (im_table s))).
  set (raw := (fun kv => hostHealth (im_core s) kv.1 kv.2) <$> m).
  assert (im_table s' = im_table s /\ im_core s' = im_core s) as [Ht Hc]
    by (unfold s', sched_contacted; destruct (im_ready s), hc; done).
  assert (sn_Hosts sn = merge_sort hh_le raw /\ sn_SlotsInUse sn = slotsInUseLocked (acct (im_core s))
          /\ sn_PoolManagerContacted sn = (sched_contacted hc s).2) as (Hh & Hu & Hk).
  { unfold sn, takeSnapshot. fold s'. unfold s' in *. destruct (sched_contacted hc s) as [s1 c1]. simpl in *. by rewrite Ht, Hc. }
  clearbody sn. rewrite Hh, Hu.
  assert (hh_Name <$> raw = m.*1) as Hnames by (unfold raw; rewrite <-list_fmap_compose; by apply list_fmap_ext).
  assert (forall hh, hh ∈ raw <-> exists st, hosts (im_table s) !! hh_Name hh = Some st /\ hh = hostHealth (im_core s) (hh_Name hh) st) as Hin.
  { intros hh. unfold raw, m. rewrite list_elem_of_fmap. split.
    - intros ([k st] & -> & Hkv%elem_of_map_to_list). by exists st.
    - intros (st & Hst & ->). exists (hh_Name hh, st). split; [done|by apply elem_of_map_to_list]. }
  split_and!.
  - apply Sorted_merge_sort, _.
  - rewrite merge_sort_Permutation, Hnames. apply NoDup_fst_map_to_list.
  - intros hh. by rewrite merge_sort_Permutation.
  - unfold Snapshot_Ready. rewrite Hk, Hh. transitivity ((sched_contacted hc s).2 = true /\ exists hh, hh ∈ raw /\ hh_Healthy hh = true).
    + destruct ((sched_contacted hc s).2); simpl; [|naive_solver]. rewrite existsb_exists.
      setoid_rewrite <-list_elem_of_In. setoid_rewrite merge_sort_Permutation. naive_solver.
    + unfold sched_contacted. setoid_rewrite Hin. split.
      * intros [Hcc (hh & (st & Hst & Heq) & Hhh)]. split; [destruct (im_ready s), hc; naive_solver|].
        exists (hh_Name hh), st. split; [done|]. rewrite Heq in Hhh. done.
      * intros [Hcc (name & st & Hst & Hhh)]. split; [destruct (im_ready s), hc; naive_solver|].
        exists (hostHealth (im_core s) name st). split; [by exists st|done].
  - rewrite (sumZ_perm _ (hh_Leased <$> raw)) by (by rewrite merge_sort_Permutation).
    unfold raw. rewrite <-list_fmap_compose. unfold m, slotsInUseLocked.
    pose proof (leased_sum (im_core s) m.*1 (liveHandles (im_core s)) (NoDup_fst_map_to_list _)) as HL.
    rewrite <-list_fmap_compose in HL. unfold liveHandles in HL at 2. 
    change (size (allocations (acct (im_core s)))) with (length (elements (allocations (acct (im_core s))))).
    unfold m in HL. eapply Z.le_trans; [exact HL|]. lia.
Qed.
