(* ===== verification/SchedRun.v ===== *)
(** * internal/scheduler/scheduler.go: Run, from its start to its return

    [running] is the Scheduler while its callers, the goroutines of Run and
    the goroutines in the background run beside each other.  The threads of
    [SchedSys] carry who runs them, because Run waits for some of them: for
    the loops it started ([loops.Wait]), for the background goroutines
    ([wg.Wait]) and for what its own [abortRunning] does.  [rg_log] is the
    actions of [SchedSys] so far. *)
From S2P Require Import Prelude GoModel PoolTypes ConfigTypes SchedTypes Capacity SchedSys SchedInv SchedThms HostTable Spec Resolve PoolDecl PoolDeclThms ClaimLoop Lifecycle.

(** Who runs a thread: a caller of the Scheduler, a goroutine of
    [inBackground], Run itself, or the Host probe loop. *)
Inductive owner := OCaller | OBackground | ORun | OProbe.
#[export] Instance owner_eq_dec : EqDecision owner.
Proof. solve_decision. Defined.

(** What is started through [inBackground]: the keep-alive loop, the retained
    Lease and every release.  Once the background is closed it runs where it
    was called. *)
Definition in_background (t : thread) : bool := match t with TBeat _ | TRetained _ | TReleasing _ => true | _ => false end.
Definition child_owner (closed : bool) (parent : owner) (t : thread) : owner :=
  if in_background t && negb closed then OBackground else parent.

(** The five goroutines of [startLoop], in the order they are started. *)
Inductive loop := LTracker | LHealth | LContact | LProbe | LDeclare.
#[export] Instance loop_eq_dec : EqDecision loop.
Proof. solve_decision. Defined.
Definition startedLoops : list loop := [LTracker; LHealth; LContact; LProbe; LDeclare].

(** Who holds [applyMu]: Run's [applyCurrent], or a Reload that has set the
    Inventory and goes on to apply it, or to declare the Pools. *)
Inductive holder := HRun | HReloadSet | HReloadDeclare.
#[export] Instance holder_eq_dec : EqDecision holder.
Proof. solve_decision. Defined.

(** Where Run is: before it; waiting for [applyMu]; about to [Apply] the
    Inventory; declaring the Pools; waiting for the end of its context; then
    through [shutdown] (the state set, the Reservations dropped, waiting for
    the drain, aborting what is left, about to close the background); about to
    cancel the loops' context; waiting for the loops; waiting for the
    background; returned. *)
Inductive run_pc :=
  | PcNew | PcApplyWait | PcApply | PcDeclare | PcRunning
  | PcStopping | PcDropped | PcDraining (drain : Z) | PcAborting | PcClosing
  | PcCancel | PcLoops | PcWg | PcReturned.

Record running := {
  rg_impl : impl; rg_thr : list thread; rg_own : list owner; rg_pc : run_pc; rg_ctx : bool; rg_cancelled : bool;
  rg_loops : list loop; rg_agents : list Z; rg_lock : option holder; rg_handed : option (list Endpoint); rg_log : list act }.
#[export] Instance eta_running : Eta running :=
  fun r => {| rg_impl := rg_impl r; rg_thr := rg_thr r; rg_own := rg_own r; rg_pc := rg_pc r; rg_ctx := rg_ctx r;
              rg_cancelled := rg_cancelled r; rg_loops := rg_loops r; rg_agents := rg_agents r; rg_lock := rg_lock r;
              rg_handed := rg_handed r; rg_log := rg_log r |}.

Definition rg_core (y : running) : core := im_core (rg_impl y).
Definition system (y : running) : sys := {| cor := rg_core y; thr := rg_thr y |}.

(** The owners of the threads after an action of [o]. *)
Definition owners_after (o : owner) (a : act) (y : running) : list owner :=
  match a with
  | AStep i out =>
      match rg_thr y !! i, rg_own y !! i with
      | Some t, Some p => (child_owner (bgClosed (rg_core y)) p <$> (SchedSys.tstep t out (rg_core y)).2) ++ delete i (rg_own y)
      | _, _ => rg_own y
      end
  | _ => repeat o (length (thr (sstep (system y) a)) - length (rg_thr y)) ++ rg_own y
  end.

Definition perform (o : owner) (a : act) (y : running) : running :=
  y <| rg_impl := (rg_impl y) <| im_core := cor (sstep (system y) a) |> |> <| rg_thr := thr (sstep (system y) a) |>
    <| rg_own := owners_after o a y |> <| rg_log := rg_log y ++ [a] |>.

(** The loops' context: a child of Run's, which Run cancels. *)
Definition runCtx_done (y : running) : bool := rg_ctx y || rg_cancelled y.
(** A goroutine of [o] is still at work. *)
Definition busy (o : owner) (y : running) : bool := bool_decide (o ∈ rg_own y).

(** The rest of [Run] from where it waits, one critical section at a time. *)
Definition run_next (y : running) : option running :=
  match rg_pc y with
  | PcApplyWait => match rg_lock y with None => Some (y <| rg_lock := Some HRun |> <| rg_pc := PcApply |>) | Some _ => None end
  | PcApply => Some (y <| rg_handed := Some (endpoints (im_inventory (rg_impl y))) |> <| rg_pc := PcDeclare |>)
  | PcDeclare => Some (y <| rg_lock := None |> <| rg_loops := startedLoops |> <| rg_pc := PcRunning |>)
  | PcRunning => if rg_ctx y then Some (y <| rg_impl := setState stateStopping (rg_impl y) |> <| rg_pc := PcStopping |>) else None
  | PcStopping => Some ((perform ORun ADropReservations y) <| rg_pc := PcDropped |>)
  | PcDropped => Some ((perform ORun ADrained y) <| rg_pc := PcDraining (drained (acct (rg_core y))).2 |>)
  | PcDraining c => if bool_decide (c ∈ closed_chans (achans (acct (rg_core y)))) then Some (y <| rg_pc := PcClosing |>) else None
  | PcAborting => if busy ORun y then None else Some (y <| rg_pc := PcClosing |>)
  | PcClosing => Some ((perform ORun ACloseBackground y) <| rg_pc := PcCancel |>)
  | PcCancel => Some (y <| rg_cancelled := true |> <| rg_pc := PcLoops |>)
  | PcLoops => match rg_loops y with [] => Some ((perform ORun ACancelBackground y) <| rg_pc := PcWg |>) | _ => None end
  | PcWg =>
      if busy OBackground y || negb (bool_decide (rg_agents y = [])) then None
      else Some (y <| rg_impl := setState stateStopped (rg_impl y) |> <| rg_pc := PcReturned |>)
  | PcNew | PcReturned => None
  end.

(** Whether a loop may return: the Tracker and the health probe are
    dependencies and may at any time, the others with their context;
    the probe loop not from within [hostUnhealthy]. *)
Definition loop_may_end (l : loop) (y : running) : bool :=
  match l with
  | LTracker | LHealth => true
  | LContact | LDeclare => runCtx_done y
  | LProbe => runCtx_done y && negb (busy OProbe y)
  end.

(** An agentProbeLoop returns with the keep-alive loop's context, when the
    Handle is done, or when the Job no longer holds the claim. *)
Definition agent_may_end (hid : Z) (c : core) : bool :=
  match heap c !! hid with
  | Some h => hb_done h c || h_done h || negb (bool_decide (hid ∈ allocations (acct c)))
  | None => true
  end.

Inductive rinput :=
  | RStart                                  (* a call of Run *)
  | RNext                                   (* Run goes on *)
  | RTimer                                  (* the shutdown timer fired *)
  | RCtxDone                                (* the context of Run ended *)
  | RContacted                              (* awaitContact saw the Pool Manager's first answer *)
  | RLoopEnd (l : loop)
  | RReserve (contacted : bool) (warm : Z)  (* Reserve, up to grant *)
  | RCall (a : act)                         (* the other calls of the Executor *)
  | RHostUnhealthy (host : string)          (* the probe loop *)
  | RAgentStart (hid : Z) | RAgentEnd (i : nat) | RAgentAbort (i : nat) (cause : error)
  | RStep (i : nat) (o : outcome)           (* a thread *)
  | RReload (profiles : list ProfileConfig) (inventory : list HostEntry)
  | RReloadApply (err : option error) | RReloadDeclare.

(** The calls of the Executor: a Reservation is one Reserve returned, and an
    Allocate past its check of the state. *)
Definition call_ok (a : act) (y : running) : bool :=
  match a with
  | AAllocate r _ _ => bool_decide (im_state (rg_impl y) = stateRunning) && bool_decide (res_ID r <= nextID (acct (rg_core y)))
  | AReleaseReservation _ | ARelease _ | ARetain _ | ACheckLease _ => true
  | _ => false
  end.

Definition run_step (i : rinput) (y : running) : option running :=
  match i with
  | RStart =>
      match start (rg_impl y) with
      | (s, None) => Some (y <| rg_impl := s |> <| rg_pc := PcApplyWait |>)
      | (_, Some _) => Some y
      end
  | RNext => run_next y
  | RTimer =>
      match rg_pc y with PcDraining _ => Some ((perform ORun AAbortRunning y) <| rg_pc := PcAborting |>) | _ => None end
  | RCtxDone => Some (y <| rg_ctx := true |>)
  | RContacted =>
      if bool_decide (LContact ∈ rg_loops y)
      then Some (y <| rg_impl := (rg_impl y) <| im_ready := true |> |> <| rg_loops := filter (.≠ LContact) (rg_loops y) |>)
      else None
  | RLoopEnd l => if loop_may_end l y then Some (y <| rg_loops := filter (.≠ l) (rg_loops y) |>) else None
  | RReserve contacted warm =>
      if bool_decide (im_state (rg_impl y) = stateRunning) then
        let '(s, ok) := sched_contacted contacted (rg_impl y) in
        let y := y <| rg_impl := s |> in
        Some (if ok then perform OCaller (AReserve warm) y else y)
      else None
  | RCall a => if call_ok a y then Some (perform OCaller a y) else None
  | RHostUnhealthy host =>
      if bool_decide (LProbe ∈ rg_loops y) then Some (perform OProbe (AHostUnhealthy host) y) else None
  | RAgentStart hid => if bgClosed (rg_core y) then None else Some (y <| rg_agents := hid :: rg_agents y |>)
  | RAgentEnd i =>
      match rg_agents y !! i with
      | Some hid => if agent_may_end hid (rg_core y) then Some (y <| rg_agents := delete i (rg_agents y) |>) else None
      | None => None
      end
  | RAgentAbort i cause =>
      match rg_agents y !! i with
      | Some hid => Some (perform OBackground (AAbort hid cause) (y <| rg_agents := delete i (rg_agents y) |>))
      | None => None
      end
  | RStep i o => match rg_thr y !! i with Some _ => Some (perform OCaller (AStep i o) y) | None => None end
  | RReload profiles inventory =>
      match rg_lock y with
      | None =>
          let s := rg_impl y in
          Some (y <| rg_impl := s <| im_profiles := resolveProfiles profiles (set_Namespace (im_set s)) |>
                                  <| im_inventory := inventory |> <| im_table := resetHostsLocked inventory (im_table s) |> |>
                  <| rg_lock := Some HReloadSet |>)
      | Some _ => None
      end
  | RReloadApply err =>
      match rg_lock y with
      | Some HReloadSet =>
          Some (y <| rg_handed := Some (endpoints (im_inventory (rg_impl y))) |>
                  <| rg_lock := match err with Some _ => None | None => Some HReloadDeclare end |>)
      | _ => None
      end
  | RReloadDeclare => match rg_lock y with Some HReloadDeclare => Some (y <| rg_lock := None |>) | _ => None end
  end.

Definition running0 (s : impl) : running :=
  {| rg_impl := s; rg_thr := []; rg_own := []; rg_pc := PcNew; rg_ctx := false; rg_cancelled := false; rg_loops := [];
     rg_agents := []; rg_lock := None; rg_handed := None; rg_log := [] |}.

Inductive rreach (s : impl) : running -> Prop :=
  | RR0 : rreach s (running0 s)
  | RRStep i y y' : rreach s y -> run_step i y = Some y' -> rreach s y'.

Fixpoint rsteps (l : list rinput) (y : running) : option running :=
  match l with [] => Some y | i :: l => match run_step i y with Some y => rsteps l y | None => None end end.

(** ** What a critical section of a thread changes *)
Lemma tstep_bg t o c : bgClosed (SchedSys.tstep t o c).1 = bgClosed c /\ bgCancelled (SchedSys.tstep t o c).1 = bgCancelled c.
Proof. destruct t, o; cbn [SchedSys.tstep]; unfold_steps; repeat case_match; simplify_eq; done. Qed.

(** The Reservation an Allocate in flight is for. *)
Definition res_of (t : thread) : option Reservation :=
  match t with TAwait r _ _ | TClaim r _ _ | TClaimed r _ _ _ _ | TResolved r _ _ | TConvert r _ _ => Some r | _ => None end.

Lemma tstep_res t o c r : r ∈ omap res_of (SchedSys.tstep t o c).2 -> res_of t = Some r.
Proof. destruct t, o; cbn [SchedSys.tstep]; unfold_steps; repeat case_match; simplify_eq; simpl; set_solver. Qed.

(** Whoever waits on [ch] for the drain still does, or is let through with no
    Allocation live. *)
Definition draining (ch : Z) (a : accounting) : Prop :=
  drain a = Some ch \/ (ch ∈ closed_chans (achans a) /\ allocations a = ∅).

(** A change of the accounting that makes no Allocation. *)
Record shrinks (a a' : accounting) : Prop := {
  sh_live : allocations a' ⊆ allocations a;
  sh_next : nextID a <= nextID a';
  sh_res : forall k, is_Some (reservations a' !! k) -> is_Some (reservations a !! k) \/ nextID a < k;
  sh_drain : forall ch, acct_ok a -> draining ch a -> draining ch a'
}.

Lemma shrinks_frame a a' :
  allocations a' = allocations a -> nextID a' = nextID a -> (forall k, is_Some (reservations a' !! k) -> is_Some (reservations a !! k)) ->
  drain a' = drain a -> closed_chans (achans a) ⊆ closed_chans (achans a') -> shrinks a a'.
Proof.
  intros H1 H2 H3 H4 H5. split; [by rewrite H1|lia|auto|]. unfold draining. rewrite H4, H1. intros ch _ [?|[? ?]]; [auto|set_solver].
Qed.

Lemma shrinks_refl a : shrinks a a.
Proof. by apply shrinks_frame. Qed.

Lemma shrinks_leave n a : shrinks a (releaseProfileLocked n a).
Proof. apply shrinks_frame; try done. unfold releaseProfileLocked. simpl. apply close_chan_mono. Qed.

Lemma shrinks_finish h a : shrinks a (finish h a).1.
Proof.
  pose proof (finish_fields h a) as Hf. pose proof (acct_ok_finish h a) as Hok.
  destruct (finish h a) as [a' ok] eqn:E. destruct Hf as (Ho & H1 & H2 & H3 & H4 & _). simpl in *.
  split; [set_solver|lia|intros k; rewrite H2; auto|]. intros ch Ha Hd. destruct ok; [|by rewrite H4].
  destruct Hd as [Hd|[Hc Hl]]; [|rewrite Hl in Ho; symmetry in Ho; bool_to_prop; set_solver].
  unfold finish in E. case_bool_decide as Hin; [|done]. injection E as <-. unfold draining, closeDrain in *. simpl in *. rewrite Hd in *.
  destruct Ha as (K1 & K2 & K3). rewrite Hd in K3. destruct K3 as [K3 K4]. case_bool_decide; [right|by left]. simpl. split; [|done].
  apply close_chan_closed, (open_chan_make_ne (close_chan _ _)). by apply open_chan_close_ne.
Qed.

Lemma shrinks_grant m warm now a : 0 <= nextID a < 2 ^ 64 - 1 -> shrinks a (grant m warm now a).1.
Proof.
  intros Hn. unfold grant. destruct (availableCapacityLocked m warm a) as [k reason]. destruct (k <=? 0); [apply shrinks_refl|].
  assert (uint64 (nextID a + 1) = nextID a + 1) as -> by (apply Z.mod_small; lia).
  split; simpl; [done|lia| |done]. intros j [x Hj]. apply lookup_insert_Some in Hj as [[<- _]|[_ Hj]]; [right; lia|left; eauto].
Qed.

Lemma shrinks_bump a : 0 <= nextID a < 2 ^ 64 - 1 -> shrinks a (a <| nextID := uint64 (nextID a + 1) |>).
Proof.
  intros Hn. assert (uint64 (nextID a + 1) = nextID a + 1) as -> by (apply Z.mod_small; lia).
  split; simpl; [done|lia|auto|done].
Qed.

Lemma shrinks_enter p a : shrinks a (enterProfile p a).1.1.
Proof. unfold enterProfile. case_match; [apply shrinks_refl|by apply shrinks_frame]. Qed.

#[local] Hint Resolve shrinks_refl shrinks_leave shrinks_finish shrinks_grant shrinks_enter shrinks_bump : core.

Lemma tstep_shrinks t o c :
  0 <= nextID (acct c) < 2 ^ 64 - 1 -> match t with TConvert r _ _ => reservations (acct c) !! res_ID r = None | _ => True end ->
  shrinks (acct c) (acct (SchedSys.tstep t o c).1).
Proof.
  intros Hn Hr. assert (forall h, shrinks (acct c) (finish h (acct c)).1) as Hf by auto.
  destruct t; cbn [SchedSys.tstep]; unfold_steps; try apply shrinks_refl; try (by apply shrinks_leave);
    try (destruct o; try apply shrinks_refl; by apply shrinks_grant);
    try (destruct (heap c !! hid) as [h|]; [|apply shrinks_refl]);
    try (specialize (Hf h); destruct (finish h (acct c)) as [a []]; first [exact Hf|apply shrinks_refl]);
    try (repeat case_match; apply shrinks_refl).
  - destruct o; try apply shrinks_refl. pose proof (shrinks_enter p (acct c)) as He. by destruct (enterProfile p (acct c)) as [[? ?] ?].
  - by apply shrinks_bump.
  - unfold convert. rewrite Hr. apply shrinks_refl.
Qed.

Lemma tstep_next t o c : 0 <= nextID (acct c) < 2 ^ 64 - 1 -> nextID (acct c) <= nextID (acct (SchedSys.tstep t o c).1).
Proof.
  intros Hn. destruct t; try (by apply sh_next, tstep_shrinks).
  cbn [SchedSys.tstep]. unfold_steps. destruct (heap c !! hid) as [h|]; [|done]. unfold convert. by destruct (_ !! _).
Qed.

(** ** What an action of the system changes *)
Lemma sstep_bg s a :
  bgClosed (cor (sstep s a)) = match a with ACloseBackground => true | _ => bgClosed (cor s) end
  /\ bgCancelled (cor (sstep s a)) = match a with ACancelBackground => true | _ => bgCancelled (cor s) end.
Proof.
  destruct a as [w|r|r job p|hid|hid|hid|hid e|host| | | | | |i o]; cbn [sstep]; unfold known; try (by case_match); try done.
  destruct (thr s !! i) as [t|]; [|done]. pose proof (tstep_bg t o (cor s)). by destruct (SchedSys.tstep t o (cor s)).
Qed.

(** The threads an action other than a step starts. *)
Definition when_known (hid : Z) (s : sys) (t : thread) : list thread := match heap (cor s) !! hid with Some _ => [t] | None => [] end.
Definition started (s : sys) (a : act) : list thread :=
  match a with
  | AReserve warm => [TGrant warm]
  | AAllocate r job p => [TAwait r job p]
  | ARelease hid => when_known hid s (TRelease hid)
  | ARetain hid => when_known hid s (TRetain hid)
  | ACheckLease hid => when_known hid s (TCheck hid)
  | AAbort hid cause => when_known hid s (TAbort hid cause)
  | AHostUnhealthy host => (fun hid => TAbort hid (EWrap ("host " +:+ host) [ESentinel ErrHostUnhealthy])) <$>
           filter (fun hid => on_host host (cor s) hid = true) (liveHandles (cor s))
  | AAbortRunning => (fun hid => TAbort hid (ESentinel ErrShutdown)) <$> liveHandles (cor s)
  | _ => []
  end.
Definition is_step (a : act) : bool := match a with AStep _ _ => true | _ => false end.

Lemma sstep_started s a : is_step a = false -> thr (sstep s a) = started s a ++ thr s.
Proof.
  intros Ha. destruct a as [w|r|r job p|hid|hid|hid|hid e|host| | | | | |i o]; cbn [sstep started]; unfold known, when_known; try done; by case_match.
Qed.

Lemma started_res s a t r : t ∈ started s a -> res_of t = Some r -> exists job p, a = AAllocate r job p.
Proof.
  destruct a as [w|r'|r' job p|hid|hid|hid|hid e|host| | | | | |i o]; cbn [started]; unfold when_known; intros Hin Hr; try (by set_solver);
    try (case_match; [|by set_solver]; apply list_elem_of_singleton in Hin as ->; done).
Qed.

Lemma sstep_res s a t r : t ∈ thr (sstep s a) -> res_of t = Some r ->
  (exists t', t' ∈ thr s /\ res_of t' = Some r) \/ exists job p, a = AAllocate r job p.
Proof.
  intros Hin Hr. destruct (is_step a) eqn:Ea.
  - destruct a as [| | | | | | | | | | | | |i o]; try done. cbn [sstep] in Hin. destruct (thr s !! i) as [t0|] eqn:Hi; [|eauto].
    pose proof (tstep_res t0 o (cor s) r) as Ht. destruct (SchedSys.tstep t0 o (cor s)) as [c' ts]. cbn [thr snd] in *.
    apply elem_of_app in Hin as [Hin|Hin]; left.
    + exists t0. split; [by eapply list_elem_of_lookup_2|]. apply Ht, list_elem_of_omap. eauto.
    + exists t. split; [|done]. rewrite (delete_Permutation _ _ _ Hi). set_solver.
  - rewrite sstep_started in Hin by done. apply elem_of_app in Hin as [Hin|Hin]; [right; by eapply started_res|eauto].
Qed.

Lemma shrinks_drained a : shrinks a (drained a).1.
Proof.
  destruct (drained_fields a) as (H1 & H2 & _ & H4). split; [by rewrite H2|lia|intros k; rewrite H4; auto|].
  intros ch _. unfold draining. rewrite H2. unfold drained. case_bool_decide; simpl.
  - intros [?|[? ?]]; [auto|right; split; [|done]]. by apply (close_chan_mono (make_chan (achans a)).1).
  - destruct (drain a) eqn:E; simpl; rewrite ?E; [done|]. intros [?|[? ?]]; done.
Qed.

Lemma sstep_shrinks s a :
  0 <= nextID (acct (cor s)) < 2 ^ 64 - 1 ->
  (forall t r, t ∈ thr s -> res_of t = Some r -> reservations (acct (cor s)) !! res_ID r = None) ->
  shrinks (acct (cor s)) (acct (cor (sstep s a))).
Proof.
  intros Hn Hr. destruct a as [w|r|r job p|hid|hid|hid|hid e|host| | | | | |i o]; cbn [sstep]; unfold known; try (case_match; apply shrinks_refl);
    try apply shrinks_refl; try apply shrinks_drained.
  - apply shrinks_frame; try done. simpl. intros k. rewrite lookup_delete_is_Some. by intros [_ ?].
  - apply shrinks_frame; try done. simpl. intros k. rewrite lookup_empty. by intros [? ?].
  - destruct (thr s !! i) as [t|] eqn:Hi; [|apply shrinks_refl].
    pose proof (tstep_shrinks t o (cor s) Hn) as Hs. destruct (SchedSys.tstep t o (cor s)). apply Hs.
    destruct t; try done. eapply (Hr _ _ (list_elem_of_lookup_2 _ _ _ Hi)). done.
Qed.

Lemma sstep_next s a : 0 <= nextID (acct (cor s)) < 2 ^ 64 - 1 -> nextID (acct (cor s)) <= nextID (acct (cor (sstep s a))).
Proof.
  intros Hn. destruct a as [w|r|r job p|hid|hid|hid|hid e|host| | | | | |i o]; cbn [sstep]; unfold known; try (by case_match); try done.
  - apply shrinks_drained.
  - destruct (thr s !! i) as [t|]; [|done]. pose proof (tstep_next t o (cor s) Hn). by destruct (SchedSys.tstep t o (cor s)).
Qed.

(** ** The threads and who runs them *)
Definition pairs (y : running) : list (thread * owner) := zip (rg_thr y) (rg_own y).

Lemma zip_delete {A B} (l : list A) (k : list B) i : zip (delete i l) (delete i k) = delete i (zip l k).
Proof. revert l k. induction i as [|i IH]; intros [|x l] [|z k]; simpl; try done; [by destruct l|by rewrite ?IH, ?zip_with_nil_r..]. Qed.

Lemma zip_fmap_r {A B} (f : A -> B) (l : list A) : zip l (f <$> l) = (fun x => (x, f x)) <$> l.
Proof. induction l as [|x l IH]; csimpl; [done|by f_equal]. Qed.

Lemma zip_repeat {A B} (o : B) (l : list A) : zip l (repeat o (length l)) = (fun x => (x, o)) <$> l.
Proof. induction l as [|x l IH]; csimpl; [done|by f_equal]. Qed.

Lemma perform_other o a y : is_step a = false ->
  rg_thr (perform o a y) = started (system y) a ++ rg_thr y /\ rg_own (perform o a y) = repeat o (length (started (system y) a)) ++ rg_own y.
Proof.
  intros Ha. unfold perform. simpl. pose proof (sstep_started (system y) a Ha) as Hs. split; [done|].
  assert (owners_after o a y = repeat o (length (thr (sstep (system y) a)) - length (rg_thr y)) ++ rg_own y) as -> by (by destruct a).
  rewrite Hs, length_app. change (thr (system y)) with (rg_thr y). by rewrite Nat.add_sub.
Qed.

Lemma perform_owners o a y : length (rg_own y) = length (rg_thr y) -> length (rg_own (perform o a y)) = length (rg_thr (perform o a y)).
Proof.
  intros Hl. destruct (is_step a) eqn:Ea.
  - destruct a as [| | | | | | | | | | | | |i out]; try done. simpl. destruct (rg_thr y !! i) as [t|] eqn:Hi; [|done].
    destruct (lookup_lt_is_Some_2 (rg_own y) i) as [p Hp]; [rewrite Hl; by eapply lookup_lt_Some|]. rewrite Hp.
    fold (rg_core y). destruct (SchedSys.tstep t out (rg_core y)) as [c' ts]. cbn [thr snd]. rewrite !length_app, length_fmap.
    pose proof (lookup_lt_Some _ _ _ Hi). pose proof (lookup_lt_Some _ _ _ Hp). rewrite !length_delete by done. lia.
  - destruct (perform_other o a y Ea) as [-> ->]. rewrite !length_app, repeat_length. lia.
Qed.

Lemma pairs_other o a y : is_step a = false -> pairs (perform o a y) = ((fun t => (t, o)) <$> started (system y) a) ++ pairs y.
Proof.
  intros Ha. unfold pairs. destruct (perform_other o a y Ha) as [-> ->]. rewrite zip_with_app by (by rewrite repeat_length). by rewrite zip_repeat.
Qed.

Lemma pairs_step o i out y t p : pairs y !! i = Some (t, p) ->
  pairs (perform o (AStep i out) y)
  = ((fun t' => (t', child_owner (bgClosed (rg_core y)) p t')) <$> (SchedSys.tstep t out (rg_core y)).2) ++ delete i (pairs y).
Proof.
  unfold pairs. intros Hp. apply lookup_zip_with_Some in Hp as (t' & p' & [= <- <-] & Ht & Ho).
  simpl. rewrite Ht, Ho. fold (rg_core y). destruct (SchedSys.tstep t out (rg_core y)) as [c' ts]. cbn [thr snd].
  rewrite zip_with_app by (by rewrite length_fmap). by rewrite zip_fmap_r, zip_delete.
Qed.

Lemma pairs_owner y o : length (rg_own y) = length (rg_thr y) -> (o ∈ rg_own y <-> exists t, (t, o) ∈ pairs y).
Proof.
  intros Hl. unfold pairs. split.
  - intros [i Hi]%list_elem_of_lookup. destruct (lookup_lt_is_Some_2 (rg_thr y) i) as [t Ht]; [rewrite <-Hl; by eapply lookup_lt_Some|].
    exists t. apply (list_elem_of_lookup_2 _ i), lookup_zip_with_Some. eauto.
  - intros [t [i Hi]%list_elem_of_lookup]. apply lookup_zip_with_Some in Hi as (t' & p' & [= <- <-] & _ & Ho). by eapply list_elem_of_lookup_2.
Qed.

(** What a thread of [o] becomes, [o] runs or the background does. *)
Lemma owner_perform o a y q :
  length (rg_own y) = length (rg_thr y) -> q ∈ rg_own (perform o a y) ->
  q ∈ rg_own y \/ (is_step a = false /\ q = o) \/ (q = OBackground /\ bgClosed (rg_core y) = false).
Proof.
  intros Hl. rewrite pairs_owner by (by apply perform_owners). intros [t Hin]. destruct (is_step a) eqn:Ea.
  - destruct a as [| | | | | | | | | | | | |i out]; try done. destruct (pairs y !! i) as [[t0 p]|] eqn:Hp.
    + rewrite (pairs_step _ _ _ _ _ _ Hp) in Hin. apply elem_of_app in Hin as [Hin|Hin].
      * apply list_elem_of_fmap in Hin as (t' & [= <- ->] & _). unfold child_owner.
        destruct (in_background t), (bgClosed (rg_core y)); simpl; auto; left; apply pairs_owner; eauto using list_elem_of_lookup_2.
      * left. apply pairs_owner; [done|]. exists t. rewrite (delete_Permutation _ _ _ Hp). set_solver.
    + left. apply pairs_owner; [done|]. exists t. revert Hin. unfold pairs. simpl.
      destruct (rg_thr y !! i) as [t0|] eqn:Ht; [|done].
      destruct (lookup_lt_is_Some_2 (rg_own y) i) as [p Ho]; [rewrite Hl; by eapply lookup_lt_Some|].
      exfalso. apply (eq_None_not_Some (pairs y !! i)); [done|]. unfold pairs. exists (t0, p). apply lookup_zip_with_Some. eauto.
  - rewrite pairs_other in Hin by done. apply elem_of_app in Hin as [Hin|Hin].
    + apply list_elem_of_fmap in Hin as (? & [= <- ->] & _). auto.
    + left. apply pairs_owner; eauto.
Qed.

(** ** The invariant that does not look at where Run is *)
Record BInv (m : Z) (y : running) : Prop := {
  bv_run : system y = srun m (rg_log y);
  bv_own : length (rg_own y) = length (rg_thr y);
  bv_res : forall t r, t ∈ rg_thr y -> res_of t = Some r -> res_ID r <= nextID (acct (rg_core y))
}.

(** No Allocate in flight holds its Reservation any more. *)
Definition unreserved (y : running) : Prop :=
  forall t r, t ∈ rg_thr y -> res_of t = Some r -> reservations (acct (rg_core y)) !! res_ID r = None.

(** The log stays within the range of the 64-bit ids. *)
Definition in_range (y : running) : Prop := Z.of_nat (length (rg_log y)) < 2 ^ 64 - 1.

Lemma BInv_inv m y : 0 <= m -> BInv m y -> in_range y -> inv (Z.of_nat (length (rg_log y))) (system y).
Proof. intros Hm [H1 _ _] Hr. rewrite H1. apply inv_srun; [done|]. unfold in_range in Hr. lia. Qed.

Lemma BInv_next m y : 0 <= m -> BInv m y -> in_range y -> 0 <= nextID (acct (rg_core y)) < 2 ^ 64 - 1.
Proof. intros Hm Hb Hr. pose proof (iv_next _ _ (BInv_inv m y Hm Hb Hr)) as Hn. simpl in Hn. unfold in_range in Hr. lia. Qed.

Definition alloc_ok (a : act) (y : running) : Prop :=
  forall r job p, a = AAllocate r job p -> res_ID r <= nextID (acct (rg_core y)).

Lemma BInv_perform m o a y : 0 <= m -> BInv m y -> in_range y -> alloc_ok a y -> BInv m (perform o a y).
Proof.
  intros Hm Hb Hr Ha. pose proof (BInv_next m y Hm Hb Hr) as Hn. pose proof Hb as [H1 H2 H3]. split.
  - simpl. rewrite srun_snoc, <-H1. unfold system, rg_core. simpl. by destruct (sstep _ a).
  - by apply perform_owners.
  - intros t r Hin Ht. pose proof (sstep_next (system y) a Hn) as Hx. change (rg_core (perform o a y)) with (cor (sstep (system y) a)).
    change (cor (system y)) with (rg_core y) in Hx. destruct (sstep_res (system y) a t r Hin Ht) as [(t' & Hin' & Ht')|(job & p & ->)]; [specialize (H3 t' r Hin' Ht')|specialize (Ha _ _ _ eq_refl)]; lia.
Qed.

Lemma perform_shrinks m o a y : 0 <= m -> BInv m y -> in_range y -> unreserved y ->
  shrinks (acct (rg_core y)) (acct (rg_core (perform o a y))).
Proof. intros Hm Hb Hr Hu. apply (sstep_shrinks (system y)); [by apply (BInv_next m)|done]. Qed.

Lemma unreserved_perform m o a y : 0 <= m -> BInv m y -> in_range y -> unreserved y -> (forall r job p, a <> AAllocate r job p) ->
  unreserved (perform o a y).
Proof.
  intros Hm Hb Hr Hu Ha t r Hin Ht. pose proof (perform_shrinks m o a y Hm Hb Hr Hu) as Hs.
  destruct (sstep_res (system y) a t r Hin Ht) as [(t' & Hin' & Ht')|(job & p & ->)]; [|by destruct (Ha r job p)].
  destruct (reservations (acct (rg_core (perform o a y))) !! res_ID r) eqn:E; [|done].
  destruct (sh_res _ _ Hs (res_ID r) (mk_is_Some _ _ E)) as [[x Hx]|Hx]; [rewrite (Hu t' r) in Hx; done|].
  pose proof (bv_res _ _ Hb t' r Hin' Ht'). lia.
Qed.

(** The Allocations that are live are the ones Run is about to end. *)
Definition ends (k : Z) (t : thread) : Prop := t = TEnd k \/ exists e, t = TAbort k e.
Definition covered (y : running) : Prop := forall k, k ∈ allocations (acct (rg_core y)) -> exists t, (t, ORun) ∈ pairs y /\ ends k t.

Lemma ends_step k t out c : ends k t -> k ∈ allocations (acct (SchedSys.tstep t out c).1) ->
  (forall h, heap c !! k = Some h -> h_id h = k) -> is_Some (heap c !! k) -> exists t', t' ∈ (SchedSys.tstep t out c).2 /\ ends k t' /\ in_background t' = false.
Proof.
  intros [->|[e ->]] Hk Hh [h Hh']; simpl in *.
  - unfold with_handle, finish_then in Hk. rewrite Hh' in Hk. pose proof (finish_fields h (acct c)) as Hf.
    destruct (finish h (acct c)) as [a ok]. destruct Hf as (_ & _ & _ & Ha & _). simpl in Hk. rewrite Ha, (Hh h Hh') in Hk. set_solver.
  - exists (TEnd k). split_and!; [set_solver|by left|done].
Qed.

Lemma covered_perform m o a y : 0 <= m -> BInv m y -> in_range y -> unreserved y -> covered y -> covered (perform o a y).
Proof.
  intros Hm Hb Hr Hu Hc k Hk. pose proof (perform_shrinks m o a y Hm Hb Hr Hu) as Hs.
  pose proof (sh_live _ _ Hs k Hk) as Hk0. destruct (Hc k Hk0) as (t & Hin & He). destruct (is_step a) eqn:Ea.
  2:{ exists t. split; [|done]. rewrite pairs_other by done. set_solver. }
  destruct a as [| | | | | | | | | | | | |i out]; try done. destruct (pairs y !! i) as [[t0 p]|] eqn:Hp.
  2:{ exists t. split; [|done]. revert Hin. unfold pairs. simpl. destruct (rg_thr y !! i) as [t0|] eqn:Ht; [|done].
      destruct (lookup_lt_is_Some_2 (rg_own y) i) as [p Ho]; [rewrite (bv_own _ _ Hb); by eapply lookup_lt_Some|].
      exfalso. apply (eq_None_not_Some (pairs y !! i)); [done|]. exists (t0, p). apply lookup_zip_with_Some. eauto. }
  rewrite (pairs_step _ _ _ _ _ _ Hp). rewrite (delete_Permutation _ _ _ Hp) in Hin. apply elem_of_cons in Hin as [[= <- <-]|Hin]; [|exists t; set_solver].
  pose proof (BInv_inv m y Hm Hb Hr) as HI.
  assert (rg_thr y !! i = Some t) as Ht by (apply lookup_zip_with_Some in Hp as (? & ? & [= <- <-] & ? & _); done).
  assert (k ∈ allocations (acct (SchedSys.tstep t out (rg_core y)).1)) as Hk1.
  { revert Hk. unfold perform, rg_core. simpl. rewrite Ht. fold (rg_core y). by destruct (SchedSys.tstep t out (rg_core y)). }
  destruct (ends_step k t out (rg_core y) He Hk1) as (t' & Ht' & He' & Hb').
  - intros h Hh. by apply (iv_heap _ _ HI k h).
  - by apply (iv_alloc _ _ HI).
  - exists t'. split; [|done]. apply elem_of_app. left. apply list_elem_of_fmap. exists t'. split; [|done]. unfold child_owner. by rewrite Hb'.
Qed.

(** ** The invariant *)
Definition state_at (pc : run_pc) : runState :=
  match pc with
  | PcNew => stateNew
  | PcApplyWait | PcApply | PcDeclare | PcRunning => stateRunning
  | PcReturned => stateStopped
  | _ => stateStopping
  end.
(** How far Run is: not started, starting, applying (past [applyMu]), running,
    stopping, the Reservations dropped, the background closed, the loops'
    context cancelled, the background cancelled, returned. *)
Definition stage (pc : run_pc) : Z :=
  match pc with
  | PcNew => 0 | PcApplyWait => 1 | PcApply => 2 | PcDeclare => 3 | PcRunning => 4 | PcStopping => 5
  | PcDropped | PcDraining _ | PcAborting | PcClosing => 6 | PcCancel => 7 | PcLoops => 8 | PcWg => 9 | PcReturned => 10
  end.

Definition shut_at (y : running) : Prop :=
  match rg_pc y with
  | PcDraining ch => draining ch (acct (rg_core y))
  | PcAborting => covered y
  | PcClosing | PcCancel | PcLoops | PcWg | PcReturned => allocations (acct (rg_core y)) = ∅
  | _ => True
  end.

Record RInv (m : Z) (y : running) : Prop := {
  rv_base : BInv m y;
  rv_dropped : 6 <= stage (rg_pc y) -> unreserved y;
  rv_shut : shut_at y;
  rv_state : im_state (rg_impl y) = state_at (rg_pc y);
  rv_closed : bgClosed (rg_core y) = bool_decide (7 <= stage (rg_pc y));
  rv_bgCancelled : bgCancelled (rg_core y) = bool_decide (9 <= stage (rg_pc y));
  rv_run_own : rg_pc y <> PcAborting -> ORun ∉ rg_own y;
  rv_probe_own : LProbe ∉ rg_loops y -> OProbe ∉ rg_own y;
  rv_returned : rg_pc y = PcReturned -> OBackground ∉ rg_own y /\ rg_agents y = [];
  rv_loops : stage (rg_pc y) < 4 \/ 9 <= stage (rg_pc y) -> rg_loops y = [];
  rv_ctx : 5 <= stage (rg_pc y) -> rg_ctx y = true;
  rv_cancelled : rg_cancelled y = bool_decide (8 <= stage (rg_pc y));
  rv_lock : rg_lock y = Some HRun <-> 2 <= stage (rg_pc y) <= 3;
  rv_handed : rg_lock y <> Some HReloadSet -> forall es, rg_handed y = Some es -> es = endpoints (im_inventory (rg_impl y));
  rv_applied : 3 <= stage (rg_pc y) -> is_Some (rg_handed y)
}.

(** The actions that leave Run where it is. *)
Definition plain (a : act) : bool :=
  match a with AAbortRunning | ADropReservations | ADrained | ACloseBackground | ACancelBackground => false | _ => true end.
Definition owner_ok (o : owner) (a : act) (y : running) : Prop :=
  is_step a = false -> o = OCaller \/ (o = OProbe /\ LProbe ∈ rg_loops y) \/ (o = OBackground /\ rg_pc y <> PcReturned).

Lemma shut_perform m o a y : 0 <= m -> RInv m y -> in_range y -> shut_at (perform o a y).
Proof.
  intros Hm HI Hr. pose proof (rv_base _ _ HI) as Hb. pose proof (rv_shut _ _ HI) as Hs. pose proof (rv_dropped _ _ HI) as Hd. unfold shut_at in *.
  pose proof (BInv_inv m y Hm Hb Hr) as Hi. pose proof (iv_acct _ _ Hi) as Hok.
  change (rg_pc (perform o a y)) with (rg_pc y). destruct (rg_pc y) eqn:E; try done.
  all: assert (unreserved y) as Hu by (apply Hd; simpl; lia); pose proof (perform_shrinks m o a y Hm Hb Hr Hu) as Hsh.
  - by apply (sh_drain _ _ Hsh).
  - by apply (covered_perform m).
  - apply (sh_live _ _) in Hsh. set_solver.
  - apply (sh_live _ _) in Hsh. set_solver.
  - apply (sh_live _ _) in Hsh. set_solver.
  - apply (sh_live _ _) in Hsh. set_solver.
  - apply (sh_live _ _) in Hsh. set_solver.
Qed.

Lemma RInv_perform m o a y :
  0 <= m -> RInv m y -> in_range y -> plain a = true -> alloc_ok a y ->
  (forall r job p, a = AAllocate r job p -> stage (rg_pc y) < 6) -> owner_ok o a y -> RInv m (perform o a y).
Proof.
  intros Hm HI Hr Hp Ha Hal Ho. pose proof HI as [H1 H2 H3 H4 H5 H6 H7 H8 H9 H10 H11 H12 H13 H14 H15].
  pose proof (sstep_bg (system y) a) as [Hc Hcc].
  assert (forall q, q ∈ rg_own (perform o a y) -> q ∈ rg_own y \/ (is_step a = false /\ q = o) \/ (q = OBackground /\ bgClosed (rg_core y) = false)) as Hown
    by (intros q; apply owner_perform, H1).
  split; try done.
  - by apply BInv_perform.
  - intros Hst. apply (unreserved_perform m); try done; [by apply H2|]. intros r job p ->. specialize (Hal _ _ _ eq_refl). simpl in *. lia.
  - by apply (shut_perform m).
  - change (rg_core (perform o a y)) with (cor (sstep (system y) a)). rewrite Hc. by destruct a.
  - change (rg_core (perform o a y)) with (cor (sstep (system y) a)). rewrite Hcc. by destruct a.
  - intros Hpc [Hq|[[Hs <-]|[? _]]]%Hown; [by apply H7| |done]. destruct (Ho Hs) as [?|[[? _]|[? _]]]; done.
  - intros Hl [Hq|[[Hs <-]|[? _]]]%Hown; [by apply H8| |done]. destruct (Ho Hs) as [?|[[_ ?]|[? _]]]; done.
  - intros Hpc. destruct (H9 Hpc) as [K1 K2]. split; [|done]. simpl in Hpc. intros [Hq|[[Hs <-]|[_ Hq]]]%Hown; [done| |].
    + destruct (Ho Hs) as [?|[[? _]|[_ ?]]]; done.
    + rewrite H5, Hpc in Hq. done.
Qed.

Lemma BInv_frame m y y' :
  BInv m y -> system y' = system y -> rg_own y' = rg_own y -> rg_log y' = rg_log y -> BInv m y'.
Proof.
  intros [H1 H2 H3] Hs Ho Hl. assert (rg_thr y' = rg_thr y) as Ht by exact (f_equal thr Hs).
  assert (rg_core y' = rg_core y) as Hc by exact (f_equal cor Hs). split; [by rewrite Hs, Hl|by rewrite Ho, Ht|by rewrite Ht, Hc].
Qed.

Ltac at_stage H1 H7 :=
  simpl in *; rewrite ?Nat.sub_diag in *; simpl in *; try done;
  try (by apply (BInv_frame _ _ _ H1));
  try (intros; first [done | lia | congruence]); try (intros [?|?]; lia); try (split; [congruence|lia]);
  try (intros _; by apply H7); try (by intros _; auto with lia).

Lemma drained_draining a : draining (drained a).2 (drained a).1.
Proof.
  unfold drained, draining. case_bool_decide as He; simpl.
  - right. split; [|done]. unfold close_chan. case_bool_decide; simpl; set_solver.
  - destruct (drain a) eqn:E; auto.
Qed.

Lemma covered_abort y : covered (perform ORun AAbortRunning y).
Proof.
  intros k Hk. exists (TAbort k (ESentinel ErrShutdown)). split; [|right; eauto].
  rewrite pairs_other by done. apply elem_of_app. left. apply list_elem_of_fmap. eexists. split; [done|].
  apply list_elem_of_fmap. exists k. split; [done|]. unfold liveHandles. by apply elem_of_elements.
Qed.

Lemma draining_closed ch a : acct_ok a -> draining ch a -> ch ∈ closed_chans (achans a) -> allocations a = ∅.
Proof. intros (_ & _ & Hd) [H|[_ H]] Hc; [|done]. rewrite H in Hd. destruct Hd as [[_ Hd] _]. done. Qed.

Lemma covered_none y : length (rg_own y) = length (rg_thr y) -> covered y -> ORun ∉ rg_own y -> allocations (acct (rg_core y)) = ∅.
Proof. intros Hl Hc Ho. apply set_eq. intros k. split; [|set_solver]. intros (t & Hin & _)%Hc. destruct Ho. apply pairs_owner; eauto. Qed.

Lemma RInv_next m y y' : 0 <= m -> RInv m y -> in_range y -> run_next y = Some y' -> RInv m y'.
Proof.
  intros Hm HI Hr Hs. pose proof (BInv_inv m y Hm (rv_base _ _ HI) Hr) as Hi. pose proof (iv_acct _ _ Hi) as Hok.
  assert (forall a pc, (forall r job p, a <> AAllocate r job p) -> BInv m ((perform ORun a y) <| rg_pc := pc |>)) as HB.
  { intros a pc Ha. eapply BInv_frame; [apply (BInv_perform m ORun a y Hm (rv_base _ _ HI) Hr)|done..]. intros r job p Hx. by destruct (Ha r job p). }
  pose proof (fun o a Hu => unreserved_perform m o a y Hm (rv_base _ _ HI) Hr Hu) as HU.
  pose proof HI as [H1 H2 H3 H4 H5 H6 H7 H8 H9 H10 H11 H12 H13 H14 H15].
  unfold run_next in Hs. unfold shut_at in H3. destruct (rg_pc y) eqn:E; try done; simpl in *.
  - destruct (rg_lock y) eqn:EL; [done|]. injection Hs as <-. split; try done; at_stage H1 H7.
  - injection Hs as <-. split; try done; at_stage H1 H7. rewrite H13. lia.
  - injection Hs as <-. split; try done; at_stage H1 H7; [intros []; set_solver|]. intros _. apply H14. rewrite (proj2 H13); [done|lia].
  - destruct (rg_ctx y) eqn:EC; [|done]. injection Hs as <-. split; try done; at_stage H1 H7.
  - injection Hs as <-. split; try done; at_stage H1 H7. by apply HB.
  - injection Hs as <-. split; try done; at_stage H1 H7; [by apply HB| |apply drained_draining]. intros _. apply (HU ORun ADrained); [by apply H2|done].
  - case_bool_decide; [|done]. injection Hs as <-. split; try done; at_stage H1 H7. by eapply draining_closed.
  - unfold busy in Hs. case_bool_decide; [done|]. injection Hs as <-. split; try done; at_stage H1 H7. by apply (covered_none y (bv_own _ _ H1)).
  - injection Hs as <-. split; try done; at_stage H1 H7. by apply HB.
  - injection Hs as <-. split; try done; at_stage H1 H7.
  - destruct (rg_loops y) eqn:EL; [|done]. injection Hs as <-. split; try done; at_stage H1 H7; [by apply HB|]. rewrite EL. apply H8.
  - unfold busy in Hs. case_bool_decide; [done|]. case_bool_decide; [|done]. injection Hs as <-. split; try done; at_stage H1 H7.
Qed.

Lemma run_step_log i y y' : run_step i y = Some y' -> exists l, rg_log y' = rg_log y ++ l /\ (length l <= 1)%nat.
Proof.
  assert (exists l, rg_log y = rg_log y ++ l /\ (length l <= 1)%nat) as H0 by (exists []; rewrite app_nil_r; simpl; auto).
  assert (forall a : act, exists l, rg_log y ++ [a] = rg_log y ++ l /\ (length l <= 1)%nat) as H1 by eauto.
  destruct i; simpl; unfold run_next; intros H; repeat case_match; simplify_eq; simpl; auto.
Qed.

Lemma in_range_step i y y' : run_step i y = Some y' -> in_range y' -> in_range y.
Proof. intros (l & H & _)%run_step_log. unfold in_range. rewrite H, length_app. lia. Qed.

(** Only what the Scheduler holds beside its core changes. *)
Lemma RInv_frame m y y' :
  RInv m y -> system y' = system y -> rg_own y' = rg_own y -> rg_log y' = rg_log y -> rg_pc y' = rg_pc y ->
  im_state (rg_impl y') = im_state (rg_impl y) -> (rg_ctx y = true -> rg_ctx y' = true) -> rg_cancelled y' = rg_cancelled y ->
  (LProbe ∉ rg_loops y' -> OProbe ∉ rg_own y) -> (rg_loops y = [] -> rg_loops y' = []) -> (rg_agents y = [] -> rg_pc y = PcReturned -> rg_agents y' = []) ->
  (rg_lock y' = Some HRun <-> rg_lock y = Some HRun) ->
  (rg_lock y' <> Some HReloadSet -> forall es, rg_handed y' = Some es -> es = endpoints (im_inventory (rg_impl y'))) ->
  (is_Some (rg_handed y) -> is_Some (rg_handed y')) -> RInv m y'.
Proof.
  intros [H1 H2 H3 H4 H5 H6 H7 H8 H9 H10 H11 H12 H13 H14 H15] Hs Ho Hl Hp Hst Hc Hcc Hpr Hlp Ha Hlk Hh Hh'.
  assert (rg_thr y' = rg_thr y) as Ht by exact (f_equal thr Hs). assert (rg_core y' = rg_core y) as Hcr by exact (f_equal cor Hs).
  assert (covered y -> covered y') as Hcov by (unfold covered, pairs; by rewrite Ht, Ho, Hcr).
  split; rewrite ?Hp, ?Hst, ?Hcr, ?Ho, ?Hcc; try done; auto.
  - by apply (BInv_frame m y).
  - intros Hd. unfold unreserved. rewrite Ht, Hcr. by apply H2.
  - unfold shut_at in *. rewrite Hp, Hcr. by destruct (rg_pc y); auto.
  - intros Hr. destruct (H9 Hr). auto.
  - by rewrite Hlk.
Qed.

Lemma RInv_step m i y y' : 0 <= m -> RInv m y -> in_range y -> run_step i y = Some y' -> RInv m y'.
Proof.
  intros Hm HI Hr Hs. pose proof HI as [H1 H2 H3 H4 H5 H6 H7 H8 H9 H10 H11 H12 H13 H14 H15].
  destruct i as [| | | | |l|contacted warm|a|host|hid|j|j cause|j o|profiles inventory|err|]; cbn [run_step] in Hs.
  - unfold start in Hs. rewrite H4 in Hs. destruct (rg_pc y) eqn:E; simpl in Hs; simplify_eq; try done.
    split; try done; at_stage H1 H7.
  - by eapply RInv_next.
  - destruct (rg_pc y) as [| | | | | | |ch| | | | | |] eqn:E; try done. injection Hs as <-.
    assert (forall o a, (forall r job p, a <> AAllocate r job p) -> BInv m (perform o a y)) as HB.
    { intros o a Ha. apply (BInv_perform m); try done. intros r job p Hx. by destruct (Ha r job p). }
    split; try done; at_stage H1 H7.
    + eapply BInv_frame; [by apply (HB ORun AAbortRunning)|done..].
    + intros _. apply (unreserved_perform m ORun AAbortRunning); try done. by apply H2.
    + apply covered_abort.
    + intros Hp Ho. destruct (owner_perform ORun AAbortRunning y OProbe (bv_own _ _ H1)) as [?|[[_ ?]|[? _]]]; try done. by apply H8.
  - injection Hs as <-. by apply (RInv_frame m y).
  - destruct (bool_decide _) eqn:EB in Hs; [|done]. injection Hs as <-. apply (RInv_frame m y); try done; simpl.
    + intros Hp. apply H8. intros Hx. apply Hp, list_elem_of_filter. done.
    + by intros ->.
  - destruct (loop_may_end l y) eqn:EL; [|done]. injection Hs as <-. apply (RInv_frame m y); try done; simpl.
    + intros Hp. destruct (decide (l = LProbe)) as [->|Hne].
      * simpl in EL. unfold busy in EL. apply andb_true_iff in EL as [_ EL]. by destruct (bool_decide (OProbe ∈ rg_own y)) eqn:EB; bool_to_prop.
      * apply H8. intros Hx. apply Hp, list_elem_of_filter. done.
    + by intros ->.
  - destruct (bool_decide _) eqn:Hst in Hs; [|done]. destruct (sched_contacted contacted (rg_impl y)) as [s ok] eqn:ES. injection Hs as <-.
    assert (RInv m (y <| rg_impl := s |>)) as HI'.
    { unfold sched_contacted in ES. apply (RInv_frame m y); try done; destruct (im_ready (rg_impl y)), contacted; simplify_eq; done. }
    destruct ok; [|done]. apply RInv_perform; try done. intros _. by left.
  - destruct (call_ok a y) eqn:EC; [|done]. injection Hs as <-. apply RInv_perform; try done.
    + by destruct a.
    + intros r job p ->. simpl in EC. bool_to_prop. done.
    + intros r job p ->. simpl in EC. rewrite H4 in EC. destruct (rg_pc y); simpl in *; done || lia.
    + intros _. by left.
  - destruct (bool_decide _) eqn:EB in Hs; [|done]. bool_to_prop. injection Hs as <-. apply RInv_perform; try done. intros _. by right; left.
  - destruct (bgClosed (rg_core y)) eqn:EC; [done|]. injection Hs as <-. apply (RInv_frame m y); try done; simpl.
    intros _ Hp. rewrite Hp in H5. done.
  - destruct (rg_agents y !! j) as [hid|] eqn:EA; [|done]. destruct (agent_may_end hid (rg_core y)); [|done]. injection Hs as <-.
    apply (RInv_frame m y); try done; simpl. intros HA. by rewrite HA in EA.
  - destruct (rg_agents y !! j) as [hid|] eqn:EA; [|done]. injection Hs as <-.
    assert (rg_pc y <> PcReturned) as Hnr by (intros Hp; destruct (H9 Hp) as [_ HA]; by rewrite HA in EA).
    apply RInv_perform; try done; [by apply (RInv_frame m y)|]. intros _. by right; right.
  - destruct (rg_thr y !! j); [|done]. injection Hs as <-. by apply RInv_perform.
  - destruct (rg_lock y) eqn:EL; [done|]. injection Hs as <-. apply (RInv_frame m y); try done; simpl.
    by rewrite EL.
  - destruct (rg_lock y) as [[]|] eqn:EL; try done. injection Hs as <-. apply (RInv_frame m y); try done; simpl.
    + rewrite EL. by destruct err.
    + by intros _ es [= <-].
  - destruct (rg_lock y) as [[]|] eqn:EL; try done. injection Hs as <-. apply (RInv_frame m y); try done; simpl.
    + by rewrite EL.
    + intros _. by apply H14.
Qed.

Lemma RInv_new d set profiles inventory s : New d set profiles inventory = Ok s -> 0 <= set_Slots set /\ RInv (set_Slots set) (running0 s).
Proof.
  unfold New. destruct (checkDeps d); [done|]. destruct (set_Slots set <=? 0) eqn:E; [done|]. intros [= <-]. bool_to_prop.
  split; [lia|]. split; try done; simpl; try (intros; lia || set_solver).
  - split; try done; simpl; set_solver.
  - split; [done|lia].
Qed.

Lemma RInv_reach d set profiles inventory s y :
  New d set profiles inventory = Ok s -> rreach s y -> in_range y -> RInv (set_Slots set) y.
Proof.
  intros Hn Hr. destruct (RInv_new _ _ _ _ _ Hn) as [Hm H0]. induction Hr as [|i y y' _ IH Hs]; intros Hi; [done|].
  pose proof (in_range_step _ _ _ Hs Hi) as Hi'. exact (RInv_step _ i y y' Hm (IH Hi') Hi' Hs).
Qed.

(** ** What the goroutines Run waits for are doing *)

(** [endAllocation], from the failure of the Handle to the release. *)
Definition ending (t : thread) : bool :=
  match t with TAbort _ _ | TEnd _ | TStop _ | TGone _ | TReleasing _ => true | _ => false end.
(** ... and what else runs in the background: the keep-alive loop with its
    [leaseLost], and the retained Lease. *)
Definition background (t : thread) : bool :=
  ending t || match t with TBeat _ | TRetained _ | TLost _ _ | TLostFail _ _ | TLostFinish _ => true | _ => false end.
Definition kind_ok (o : owner) (t : thread) : bool :=
  match o with OCaller => true | OBackground => background t | ORun | OProbe => ending t end.

(** How many steps such a thread takes at most, once the background is
    cancelled. *)
Definition steps_left (t : thread) : nat :=
  match t with
  | TAbort _ _ => 5 | TEnd _ => 4 | TStop _ => 3 | TGone _ => 2 | TReleasing _ => 1
  | TRetained _ => 4 | TBeat _ => 4 | TLost _ _ => 3 | TLostFail _ _ => 2 | TLostFinish _ => 1
  | _ => 0
  end.
Definition all_left (l : list thread) : nat := sum_list_with steps_left l.

Lemma tstep_kind o t out c : kind_ok o t = true -> forallb (fun t' => kind_ok (child_owner (bgClosed c) o t') t') (SchedSys.tstep t out c).2 = true.
Proof.
  unfold child_owner. destruct o; [intros _|intros Hk..].
  - apply forallb_forall. intros t' _. by destruct (in_background t') eqn:E, (bgClosed c); destruct t'.
  - destruct t; try done; destruct out; cbn [SchedSys.tstep]; unfold_steps; repeat case_match; simplify_eq; simpl; repeat case_match; done.
  - destruct t; try done; destruct out; cbn [SchedSys.tstep]; unfold_steps; repeat case_match; simplify_eq; simpl; repeat case_match; done.
  - destruct t; try done; destruct out; cbn [SchedSys.tstep]; unfold_steps; repeat case_match; simplify_eq; simpl; repeat case_match; done.
Qed.

Lemma tstep_left t c : background t = true -> ending t = true \/ bgCancelled c = true -> (all_left (SchedSys.tstep t OGo c).2 < steps_left t)%nat.
Proof.
  intros Hb Hc. destruct t; try done; cbn [SchedSys.tstep]; unfold_steps; repeat case_match; simplify_eq; simpl; try lia.
  all: destruct Hc as [Hc|Hc]; [done|]. all: unfold hb_done in *; rewrite Hc in *; done.
Qed.

Definition KInv (y : running) : Prop := length (rg_own y) = length (rg_thr y) /\ forall t o, (t, o) ∈ pairs y -> kind_ok o t = true.

Lemma KInv_perform o a y : KInv y -> Forall (fun t => kind_ok o t = true) (started (system y) a) -> KInv (perform o a y).
Proof.
  intros [Hl Hk] Hs. split; [by apply perform_owners|]. intros t q Hin. destruct (is_step a) eqn:Ea.
  - destruct a as [| | | | | | | | | | | | |i out]; try done. destruct (pairs y !! i) as [[t0 p]|] eqn:Hp.
    + rewrite (pairs_step _ _ _ _ _ _ Hp) in Hin. apply elem_of_app in Hin as [Hin|Hin].
      * apply list_elem_of_fmap in Hin as (t' & [= <- ->] & Hin). pose proof (Hk _ _ (list_elem_of_lookup_2 _ _ _ Hp)) as Hkp.
        pose proof (tstep_kind p t0 out (rg_core y) Hkp) as HT. rewrite forallb_forall in HT. by apply HT, list_elem_of_In.
      * apply Hk. rewrite (delete_Permutation _ _ _ Hp). set_solver.
    + apply Hk. revert Hin. unfold pairs. simpl. destruct (rg_thr y !! i) as [t0|] eqn:Ht; [|done].
      destruct (lookup_lt_is_Some_2 (rg_own y) i) as [p Ho]; [rewrite Hl; by eapply lookup_lt_Some|].
      exfalso. apply (eq_None_not_Some (pairs y !! i)); [done|]. exists (t0, p). apply lookup_zip_with_Some. eauto.
  - rewrite pairs_other in Hin by done. apply elem_of_app in Hin as [Hin|Hin]; [|by apply Hk].
    apply list_elem_of_fmap in Hin as (? & [= <- ->] & Hin). rewrite Forall_forall in Hs. by apply Hs.
Qed.

Lemma started_aborts s a : match a with AHostUnhealthy _ | AAbortRunning | AAbort _ _ => True | _ => False end ->
  Forall (fun t => ending t = true) (started s a).
Proof.
  destruct a; try done; intros _; simpl; [unfold when_known; case_match; by repeat constructor|by apply Forall_fmap, Forall_true..].
Qed.

Lemma KInv_step i y y' : KInv y -> run_step i y = Some y' -> KInv y'.
Proof.
  intros HK Hs.
  assert (forall o a pc, o <> OBackground -> match a with AHostUnhealthy _ | AAbortRunning => True | _ => started (system y) a = [] end ->
    KInv ((perform o a y) <| rg_pc := pc |>)) as HP.
  { intros o a pc Ho Ha. apply (KInv_perform o a y HK). assert (Forall (fun t => ending t = true) (started (system y) a)) as HF.
    { destruct a; try (rewrite Ha; constructor); by apply started_aborts. }
    eapply Forall_impl; [exact HF|]. intros t Ht. by destruct o. }
  assert (forall a, KInv (perform OCaller a y)) as HC by (intros a; apply KInv_perform; [done|]; by apply Forall_true).
  destruct i as [| | | | |l|contacted warm|a|host|hid|j|j cause|j o|profiles inventory|err|]; cbn [run_step] in Hs.
  - destruct (start (rg_impl y)) as [s []]; by injection Hs as <-.
  - unfold run_next in Hs. destruct (rg_pc y); try done; repeat case_match; simplify_eq; try done; by apply HP.
  - destruct (rg_pc y); try done. injection Hs as <-. by apply HP.
  - by injection Hs as <-.
  - case_match; by simplify_eq.
  - case_match; by simplify_eq.
  - case_match; [|done]. destruct (sched_contacted contacted (rg_impl y)) as [s ok]. destruct ok; simplify_eq; [|done].
    apply KInv_perform; [done|]. by apply Forall_true.
  - case_match; simplify_eq. apply HC.
  - case_match; simplify_eq. apply KInv_perform; [done|]. by apply started_aborts.
  - case_match; by simplify_eq.
  - repeat case_match; by simplify_eq.
  - case_match; simplify_eq. apply KInv_perform; [done|]. eapply Forall_impl; [by apply started_aborts|]. intros t Ht. unfold kind_ok, background. by rewrite Ht.
  - case_match; simplify_eq. apply HC.
  - case_match; by simplify_eq.
  - repeat case_match; by simplify_eq.
  - repeat case_match; by simplify_eq.
Qed.

Lemma KInv_reach s y : rreach s y -> KInv y.
Proof. induction 1 as [|i y y' _ IH Hs]; [by split; [|intros t o Hin; cbn in Hin; set_solver]|by eapply KInv_step]. Qed.

(** ** Run returns *)

(** An upper bound on what is left to be done until Run returns. *)
Definition pc_left (pc : run_pc) : nat :=
  match pc with
  | PcNew => 20 | PcApplyWait => 19 | PcApply => 18 | PcDeclare => 17 | PcRunning => 10 | PcStopping => 9 | PcDropped => 8
  | PcDraining _ => 7 | PcAborting => 6 | PcClosing => 5 | PcCancel => 4 | PcLoops => 3 | PcWg => 2 | PcReturned => 1
  end.
Definition past_abort (pc : run_pc) : bool :=
  match pc with PcAborting | PcClosing | PcCancel | PcLoops | PcWg | PcReturned => true | _ => false end.
Definition aborts_left (y : running) : nat := if past_abort (rg_pc y) then 0 else 5 * size (allocations (acct (rg_core y))).
Definition lock_left (l : option holder) : nat := match l with Some HReloadSet => 2 | Some HReloadDeclare => 1 | _ => 0 end.
Definition left_to_do (y : running) : nat :=
  pc_left (rg_pc y) + aborts_left y + all_left (rg_thr y) + length (rg_loops y) + length (rg_agents y) + lock_left (rg_lock y).

Lemma all_left_app l k : all_left (l ++ k) = (all_left l + all_left k)%nat.
Proof. apply sum_list_with_app. Qed.

Lemma all_left_aborts e l : all_left ((fun hid => TAbort hid e) <$> l) = (5 * length l)%nat.
Proof. induction l as [|x l IH]; [done|]. rewrite fmap_cons. unfold all_left in *. cbn [sum_list_with steps_left length]. rewrite IH. lia. Qed.

Lemma all_left_delete l i t : l !! i = Some t -> (all_left (delete i l) + steps_left t = all_left l)%nat.
Proof.
  revert i. induction l as [|x l IH]; intros [|i] H; simpl in *; simplify_eq; unfold all_left in *; simpl; [lia|]. specialize (IH i H). lia.
Qed.

(** A goroutine that is still at work can take a step that brings it nearer
    to its end. *)
Lemma busy_step o y : KInv y -> o <> OCaller -> (o = OBackground -> bgCancelled (rg_core y) = true) -> past_abort (rg_pc y) = true -> busy o y = true ->
  exists i y', run_step i y = Some y' /\ (left_to_do y' < left_to_do y)%nat.
Proof.
  intros [Hl Hk] Ho Hb Ha Hy. unfold busy in Hy. bool_to_prop. apply pairs_owner in Hy as [t [i Hi]%list_elem_of_lookup]; [|done].
  pose proof (Hk _ _ (list_elem_of_lookup_2 _ _ _ Hi)) as Hkt.
  assert (rg_thr y !! i = Some t) as Ht by (apply lookup_zip_with_Some in Hi as (? & ? & [= <- <-] & ? & _); done).
  exists (RStep i OGo), (perform OCaller (AStep i OGo) y). split; [cbn [run_step]; by rewrite Ht|].
  assert (all_left (SchedSys.tstep t OGo (rg_core y)).2 < steps_left t)%nat as Hlt.
  { apply tstep_left; [unfold background; destruct o; simpl in Hkt; unfold background in Hkt; try done; by rewrite Hkt|]. destruct o; auto. }
  assert (rg_thr (perform OCaller (AStep i OGo) y) = (SchedSys.tstep t OGo (rg_core y)).2 ++ delete i (rg_thr y)) as Hth.
  { simpl. rewrite Ht. fold (rg_core y). by destruct (SchedSys.tstep t OGo (rg_core y)). }
  pose proof (all_left_delete _ _ _ Ht). unfold left_to_do, aborts_left. rewrite Hth, all_left_app.
  change (rg_pc (perform OCaller (AStep i OGo) y)) with (rg_pc y). rewrite Ha. simpl. lia.
Qed.

Ltac left_less E EL := unfold left_to_do, aborts_left, rg_core; simpl; rewrite ?E, ?EL; simpl; rewrite ?EL; unfold rg_core; simpl; try lia.

(** Once the context has ended, Run is never stuck: something it waits for can
    always take a step that brings the return nearer. *)
Lemma stopping_progress m y : RInv m y -> KInv y -> rg_ctx y = true -> 1 <= stage (rg_pc y) < 10 ->
  exists i y', run_step i y = Some y' /\ (left_to_do y' < left_to_do y)%nat.
Proof.
  intros HI HK Hc Hst. pose proof HI as [H1 H2 H3 H4 H5 H6 H7 H8 H9 H10 H11 H12 H13 H14 H15].
  assert (forall y', run_next y = Some y' -> (left_to_do y' < left_to_do y)%nat -> exists i y', run_step i y = Some y' /\ (left_to_do y' < left_to_do y)%nat) as HN.
  { intros y' Hy Hlt. exists RNext, y'. done. }
  destruct (rg_pc y) eqn:E; simpl in *; try lia.
  - destruct (rg_lock y) as [[]|] eqn:EL; [by destruct (proj1 H13 eq_refl); lia| | |].
    + eexists (RReloadApply None), _. cbn [run_step]. rewrite EL. split; [done|]. left_less E EL.
    + eexists RReloadDeclare, _. cbn [run_step]. rewrite EL. split; [done|]. left_less E EL.
    + eapply HN; [unfold run_next; rewrite E, EL; done|]. left_less E EL.
  - eapply HN; [unfold run_next; rewrite E; done|]. left_less E E.
  - eapply HN; [unfold run_next; rewrite E; done|]. left_less E E.
  - eapply HN; [unfold run_next; rewrite E, Hc; done|]. left_less E E.
  - eapply HN; [unfold run_next; rewrite E; done|]. left_less E E.
  - eapply HN; [unfold run_next; rewrite E; done|]. left_less E E.
    destruct (drained_fields (acct (rg_core y))) as (_ & HA & _). unfold rg_core in HA. rewrite HA. lia.
  - eexists RTimer, _. cbn [run_step]. rewrite E. split; [done|]. left_less E E.
    rewrite all_left_app, all_left_aborts. unfold liveHandles, rg_core. change (size ?X) with (length (elements X)). lia.
  - destruct (busy ORun y) eqn:EB; [apply (busy_step ORun); rewrite ?E; done|].
    eapply HN; [unfold run_next; rewrite E, EB; done|]. left_less E E.
  - eapply HN; [unfold run_next; rewrite E; done|]. left_less E E.
  - eapply HN; [unfold run_next; rewrite E; done|]. left_less E E.
  - destruct (rg_loops y) as [|l ls] eqn:EL; [eapply HN; [unfold run_next; rewrite E, EL; done|]; left_less E EL|].
    destruct (loop_may_end l y) eqn:EM.
    + eexists (RLoopEnd l), _. cbn [run_step]. rewrite EM. split; [done|]. left_less E EL.
      pose proof (length_filter (.≠ l) ls). rewrite filter_cons_False by naive_solver. simpl. lia.
    + apply (busy_step OProbe); rewrite ?E; try done. unfold loop_may_end, runCtx_done in EM. rewrite Hc in EM. destruct l; simpl in EM; try done. by apply negb_false_iff in EM.
  - destruct (busy OBackground y) eqn:EB; [apply (busy_step OBackground); rewrite ?E; done|].
    destruct (rg_agents y) as [|hid ags] eqn:EA.
    + eapply HN; [unfold run_next; rewrite E, EB, EA; done|]. left_less E EA.
    + eexists (RAgentEnd 0), _. cbn [run_step]. rewrite EA. cbn [lookup list_lookup].
      assert (agent_may_end hid (rg_core y) = true) as -> by (unfold agent_may_end, hb_done; rewrite H6; by destruct (heap _ !! _)).
      split; [done|]. left_less E EA.
Qed.

Lemma run_step_ctx i y y' : run_step i y = Some y' -> rg_ctx y = true -> rg_ctx y' = true.
Proof. destruct i; simpl; unfold run_next; intros H Hc; repeat case_match; simplify_eq; simpl; done. Qed.

Lemma run_step_started i y y' : run_step i y = Some y' -> rg_pc y <> PcNew -> rg_pc y' <> PcNew.
Proof. destruct i; simpl; unfold run_next; intros H Hc; repeat case_match; simplify_eq; simpl in *; done. Qed.

(** C3: the life of the Scheduler.  However the callers, the goroutines of
    Run, the background and Reload interleave: the Scheduler is the system of
    threads of [SchedSys], so everything proved of it holds; the background is
    closed only when no Allocation is live, and so a Job's Lease is kept alive
    through the shutdown until the Job has ended or been aborted; it is
    cancelled only after that and after every loop has returned; when Run has
    returned, no goroutine it or the Scheduler started is left; and outside
    the moment between a Reload's setting and applying it, the Host Registry
    was last given the current Inventory. *)
Theorem scheduler_run d set profiles inventory s y :
  New d set profiles inventory = Ok s -> rreach s y -> in_range y ->
  system y = srun (set_Slots set) (rg_log y)
  /\ (bgClosed (rg_core y) = true -> allocations (acct (rg_core y)) = ∅)
  /\ (bgCancelled (rg_core y) = true -> bgClosed (rg_core y) = true /\ rg_loops y = [])
  /\ (rg_pc y = PcReturned -> im_state (rg_impl y) = stateStopped /\ Forall (fun o => o = OCaller) (rg_own y)
        /\ rg_loops y = [] /\ rg_agents y = [])
  /\ (rg_lock y <> Some HReloadSet -> forall es, rg_handed y = Some es -> es = endpoints (im_inventory (rg_impl y))).
Proof.
  intros Hn Hr Hi. pose proof (RInv_reach _ _ _ _ _ _ Hn Hr Hi) as [H1 H2 H3 H4 H5 H6 H7 H8 H9 H10 H11 H12 H13 H14 H15].
  split_and!; [by apply H1| | | |done].
  - rewrite H5. intros Hc. bool_to_prop. unfold shut_at in H3. destruct (rg_pc y); simpl in *; done || lia.
  - rewrite H5, H6. intros Hc. bool_to_prop. split; [apply bool_decide_true; lia|apply H10; lia].
  - intros Hp. destruct (H9 Hp) as [K1 K2]. rewrite Hp in *. simpl in *. split_and!; [done| |by apply H10; right; lia|done].
    apply Forall_forall. intros [] Ho; [done|by destruct K1|by destruct (H7 ltac:(done))|]. destruct H8; [|done]. rewrite H10 by (right; lia). set_solver.
Qed.

(** C8: Run returns.  Wherever the Scheduler is when the context of a started
    Run ends, and whatever the Jobs and the Pool Manager do, the goroutines
    can go on until Run has returned, in at most [left_to_do] steps: the
    shutdown timer bounds the wait for the Jobs, and nothing Run waits for
    can be stuck. *)
Theorem Run_returns d set profiles inventory s y :
  New d set profiles inventory = Ok s -> rreach s y -> rg_ctx y = true -> rg_pc y <> PcNew ->
  Z.of_nat (length (rg_log y)) + Z.of_nat (left_to_do y) < 2 ^ 64 - 1 ->
  exists l y', rsteps l y = Some y' /\ rg_pc y' = PcReturned /\ (length l <= left_to_do y)%nat.
Proof.
  intros Hn. remember (left_to_do y) as n eqn:En. revert y En. induction n as [n IH] using lt_wf_ind. intros y -> Hr Hc Hp Hl.
  destruct (decide (stage (rg_pc y) < 10)) as [Hst|Hst].
  2:{ exists [], y. split_and!; [done| |simpl; lia]. destruct (rg_pc y); simpl in *; done || lia. }
  assert (in_range y) as Hi by (unfold in_range; lia). assert (1 <= stage (rg_pc y)) as Hst' by (destruct (rg_pc y); simpl; done || lia).
  destruct (stopping_progress (set_Slots set) y) as (i & y' & Hs & Hlt); [by eapply RInv_reach|by eapply KInv_reach|done|lia|].
  destruct (run_step_log _ _ _ Hs) as (k & Hk & Hk1).
  destruct (IH (left_to_do y') Hlt y' eq_refl) as (l & y2 & H2 & H3 & H4).
  - by eapply RRStep.
  - by eapply run_step_ctx.
  - by eapply run_step_started.
  - rewrite Hk, length_app. lia.
  - exists (i :: l), y2. split_and!; [simpl; by rewrite Hs|done|simpl; lia].
Qed.

Lemma rsteps_reach s l y y' : rreach s y -> rsteps l y = Some y' -> rreach s y'.
Proof.
  revert y. induction l as [|i l IH]; intros y Hr; simpl; [by intros [= <-]|]. destruct (run_step i y) as [y1|] eqn:E; [|done].
  apply IH. by eapply RRStep.
Qed.

(** Run starts, a Job takes a MicroVM, the context ends and the Job is
    aborted by the shutdown timer. *)
Definition demo_life : list rinput :=
  [RStart; RNext; RNext; RNext; RReserve true 1; RStep 0 (ONow 0); RCall (AAllocate (demo_r 1) demo_job demo_p); RStep 0 OGo;
   RStep 0 (OClaim (demo_claim "L1") 100); RStep 0 (OPlaced demo_pl); RStep 0 OGo; RStep 0 OGo; RStep 0 OGo; RStep 0 OGo;
   RAgentStart 2; RCtxDone; RNext; RNext; RNext; RTimer; RStep 0 OGo; RStep 0 OGo; RStep 0 OGo; RStep 0 OGo; RNext; RNext].
Definition demo_new : impl :=
  {| im_set := demo_set; im_state := stateNew; im_ready := false;
     im_profiles := resolveProfiles [demo_profile] (set_Namespace demo_set); im_inventory := [];
     im_table := newHostTable []; im_waiting := ∅; im_core := cor (sys0 (set_Slots demo_set)) |}.
Definition demo_deps : Deps :=
  {| dep_PoolManager := true; dep_Specs := true; dep_HostSelector := true; dep_Declarer := true;
     dep_Tracker := true; dep_Health := true; dep_Hosts := true |}.
Definition demo_stopping : running := default (running0 demo_new) (rsteps demo_life (running0 demo_new)).

Lemma demo_stopping_reach : rreach demo_new demo_stopping.
Proof. apply (rsteps_reach demo_new demo_life (running0 demo_new)); [constructor|vm_compute; reflexivity]. Qed.

Lemma scheduler_run_witness : rg_pc demo_stopping = PcCancel /\ allocations (acct (rg_core demo_stopping)) = ∅
  /\ system demo_stopping = srun (set_Slots demo_set) (rg_log demo_stopping).
Proof.
  assert (Hn : New demo_deps demo_set [demo_profile] [] = Ok demo_new) by (vm_compute; reflexivity).
  assert (Hi : in_range demo_stopping) by (vm_compute; reflexivity).
  destruct (scheduler_run demo_deps demo_set [demo_profile] [] demo_new demo_stopping Hn demo_stopping_reach Hi) as (H1 & H2 & _).
  split; [vm_compute; reflexivity|]. split; [apply H2; vm_compute; reflexivity|exact H1].
Defined.

Lemma Run_returns_witness : exists l y', rsteps l demo_stopping = Some y' /\ rg_pc y' = PcReturned /\ (length l <= left_to_do demo_stopping)%nat.
Proof.
  apply (Run_returns demo_deps demo_set [demo_profile] [] demo_new demo_stopping).
  - vm_compute. reflexivity.
  - exact demo_stopping_reach.
  - vm_compute. reflexivity.
  - vm_compute. discriminate.
  - vm_compute. reflexivity.
Defined.

(** A Reserve that read the state before the context ended is granted its
    Reservation after [shutdown] has dropped them all, and holds a Slot after
    Run has returned. *)
Definition demo_late : list rinput :=
  [RStart; RNext; RNext; RNext; RReserve true 1; RCtxDone; RNext; RNext; RStep 0 (ONow 0); RNext; RNext; RNext; RNext]
  ++ (RLoopEnd <$> startedLoops) ++ [RNext; RNext].
Theorem late_reservation : exists y, rreach demo_new y /\ rg_pc y = PcReturned /\ size (reservations (acct (rg_core y))) = 1%nat.
Proof.
  exists (default (running0 demo_new) (rsteps demo_late (running0 demo_new))). split.
  - apply (rsteps_reach demo_new demo_late (running0 demo_new)); [constructor|vm_compute; reflexivity].
  - split; vm_compute; reflexivity.
Qed.
