(* ===== verification/Lease.v ===== *)
(** * internal/poolmgr/lease.go and claim.go: one Lease, one claim

    [LeaseKeeper] keeps one Lease alive, [Releaser] hands one back, and
    [Claimer] makes one claim attempt and applies the policy its answer calls
    for.  They are the library form of what the Scheduler does in its own
    loops. *)
From S2P Require Import Prelude GoModel Clock PoolTypes SchedTypes Tracker Health.

(** ** LeaseKeeper *)
Definition defaultHeartbeatInterval : duration := 10 * second.
Definition defaultReleaseRetryLimit : Z := 5.

(** [kc_Lease] is whether a Lease service was given. *)
Record LeaseKeeperConfig := { kc_Lease : bool; kc_LeaseID : string; kc_Interval : duration; kc_ExpiresAt : time }.
Record LeaseKeeper := { lk_LeaseID : string; lk_Interval : duration; lk_expiresAt : time; lk_beats : Z }.
#[export] Instance eta_LeaseKeeper : Eta LeaseKeeper :=
  fun r => {| lk_LeaseID := lk_LeaseID r; lk_Interval := lk_Interval r; lk_expiresAt := lk_expiresAt r; lk_beats := lk_beats r |}.

Definition NewLeaseKeeper (cfg : LeaseKeeperConfig) : result LeaseKeeper :=
  if negb (kc_Lease cfg) then Err (ENew "poolmgr: lease keeper needs a Lease")
  else if String.eqb (kc_LeaseID cfg) "" then Err (ENew "poolmgr: lease keeper needs a lease id")
  else Ok {| lk_LeaseID := kc_LeaseID cfg;
             lk_Interval := if kc_Interval cfg <=? 0 then defaultHeartbeatInterval else kc_Interval cfg;
             lk_expiresAt := kc_ExpiresAt cfg; lk_beats := 0 |}.

(** [record] of a successful heartbeat. *)
Definition keeper_record (expires : time) (k : LeaseKeeper) : LeaseKeeper :=
  let k := if negb (time_IsZero expires) then k <| lk_expiresAt := expires |> else k in
  k <| lk_beats := lk_beats k + 1 |>.

Definition nextInterval (now : time) (k : LeaseKeeper) : duration :=
  let d := lk_Interval k in
  let d := if negb (time_IsZero (lk_expiresAt k)) then
             let half := Z.quot (time_Sub (lk_expiresAt k) now) 2 in if half <? d then half else d
           else d in
  if d <=? 0 then nanosecond else d.

(** One round of [Run]: the clock when the timer is set, whether the context
    ended before it fired, the answer of Heartbeat, whether the context is
    over after it, and the clock then. *)
Record keeper_round := { kr_set : time; kr_done : bool; kr_answer : result time; kr_over : bool; kr_now : time }.

Inductive keeper_end := KeeperStopped | KeeperLost (e : error) | KeeperRunning.

Definition keeper_lost (id : string) (err : error) : error := EWrap id [ESentinel PoolErrLeaseLost; err].

(** How the round ends the loop, if it does. *)
Definition round_end (r : keeper_round) (k : LeaseKeeper) : option keeper_end :=
  if kr_done r then Some KeeperStopped else
  match kr_answer r with
  | Ok _ => None
  | Err err =>
      if kr_over r then Some KeeperStopped
      else if errors_Is err ErrNotFound then Some (KeeperLost (keeper_lost (lk_LeaseID k) err))
      else if negb (time_IsZero (lk_expiresAt k)) && negb (time_Before (kr_now r) (lk_expiresAt k))
      then Some (KeeperLost (keeper_lost (lk_LeaseID k) err))
      else None
  end.

Definition round_next (r : keeper_round) (k : LeaseKeeper) : LeaseKeeper :=
  match kr_answer r with Ok expires => keeper_record expires k | Err _ => k end.

(** [Run] over the rounds so far, with the waits it made. *)
Fixpoint keeper_Run (rounds : list keeper_round) (k : LeaseKeeper) : keeper_end * LeaseKeeper * list duration :=
  match rounds with
  | [] => (KeeperRunning, k, [])
  | r :: rounds =>
      let wait := nextInterval (kr_set r) k in
      match round_end r k with
      | Some e => (e, k, [wait])
      | None => let '(e, k', ws) := keeper_Run rounds (round_next r k) in (e, k', wait :: ws)
      end
  end.

(** ** Releaser *)
Record ReleaserConfig := { rc_Lease : bool; rc_RetryLimit : Z }.
Definition NewReleaser (cfg : ReleaserConfig) : result Z :=
  if negb (rc_Lease cfg) then Err (ENew "poolmgr: releaser needs a Lease")
  else Ok (if rc_RetryLimit cfg <=? 0 then defaultReleaseRetryLimit else rc_RetryLimit cfg).

Section Releaser.
Context {B : Type} `{Backoff B} (backoff : B).

(** [Release] with the retry limit [limit]: [wait i] is the error of the wait
    before attempt [i], [answer i] the answer of ReleaseVM, [over i] whether
    the context is over after it.  The result, the number of calls, the waits. *)
Fixpoint Release_loop (fuel : nat) (limit : Z) (leaseID : string) (wait answer : Z -> option error) (over : Z -> bool)
    (attempt : Z) (last : list error) : option error * Z * list duration :=
  match fuel with
  | O => (None, 0, [])
  | S fuel =>
      if limit <? attempt
      then (Some (EWrap ("releasing lease " +:+ leaseID +:+ " after " +:+ pretty (limit + 1) +:+ " attempts") last), 0, [])
      else
        let ws := if 0 <? attempt then [Next backoff (attempt - 1)] else [] in
        match (if 0 <? attempt then wait attempt else None) with
        | Some werr => (Some werr, 0, ws)
        | None =>
            match answer attempt with
            | None => (None, 1, ws)
            | Some err =>
                if errors_Is err ErrNotFound then (None, 1, ws)
                else if over attempt then (Some (EWrap ("releasing lease " +:+ leaseID) [err]), 1, ws)
                else
                  let '(r, n, ws') := Release_loop fuel limit leaseID wait answer over (attempt + 1) [err] in
                  (r, n + 1, ws ++ ws')
            end
        end
  end.

Definition Releaser_Release (limit : Z) (leaseID : string) (wait answer : Z -> option error) (over : Z -> bool)
    : option error * Z * list duration :=
  Release_loop (S (S (Z.to_nat limit))) limit leaseID wait answer over 0 [].

(** The attempt gives the Lease back, or finds it gone. *)
Definition gives_back (answer : Z -> option error) (i : Z) : bool :=
  match answer i with None => true | Some e => errors_Is e ErrNotFound end.

Lemma Release_loop_spec fuel limit leaseID wait answer over attempt last :
  0 <= attempt <= limit + 1 -> limit + 1 - attempt < Z.of_nat fuel ->
  let '(r, n, ws) := Release_loop fuel limit leaseID wait answer over attempt last in
  0 <= n <= limit + 1 - attempt
  /\ (forall i, attempt <= i < attempt + n - 1 -> gives_back answer i = false)
  /\ (r = None <-> 0 < n /\ gives_back answer (attempt + n - 1) = true).
Proof.
  revert attempt last. induction fuel as [|fuel IH]; intros attempt last Ha Hf; [lia|]. simpl.
  destruct (limit <? attempt) eqn:Hl; bool_to_prop; [split_and!; [lia|lia|intros; lia|naive_solver lia]|].
  destruct (if 0 <? attempt then wait attempt else None); [split_and!; [lia|lia|intros; lia|naive_solver lia]|].
  assert (gives_back answer attempt = match answer attempt with None => true | Some e => errors_Is e ErrNotFound end) as Hg by done.
  assert (forall z, attempt + 1 - 1 = z -> z = attempt) as Hz by (intros; lia).
  destruct (answer attempt) as [err|]; [destruct (errors_Is err ErrNotFound) eqn:Hnf; [|destruct (over attempt)]|].
  1,2,4: split_and!; try lia; (split; [intros ?; split; [lia|]|]; rewrite ?(Hz _ eq_refl), ?Hg; naive_solver).
  specialize (IH (attempt + 1) [err] ltac:(lia) ltac:(lia)).
  destruct (Release_loop fuel limit leaseID wait answer over (attempt + 1) [err]) as [[r n] ws]. destruct IH as (I1 & I2 & I3).
  split_and!; [lia|lia| |].
  - intros i Hi. destruct (decide (i = attempt)) as [->|]; [done|]. apply I2. lia.
  - rewrite I3. replace (attempt + (n + 1) - 1) with (attempt + 1 + n - 1) by lia.
    split; [intros [? ?]; split; [lia|done]|]. intros [? Hgb]. split; [|done].
    destruct (decide (n = 0)) as [->|]; [|lia]. replace (attempt + 1 + 0 - 1) with attempt in Hgb by lia. congruence.
Qed.
End Releaser.

(** ** Claimer *)
Record claimerState := { cm_tracker : option PoolTracker; cm_health : option HealthMonitor }.
#[export] Instance eta_claimerState : Eta claimerState :=
  fun r => {| cm_tracker := cm_tracker r; cm_health := cm_health r |}.

(** [Claim]: the answer of ClaimVM at [now]; [redeclare] is what re-declaring
    the Pool does to the Tracker. *)
Definition Claimer_Claim (redeclare : PoolTracker -> PoolTracker) (ref : PoolRef) (now : time) (answer : result Claim)
    (s : claimerState) : claimerState * result Claim :=
  match answer with
  | Ok claim => (s, Ok claim)
  | Err err =>
      if errors_Is err ErrAborted then (s, Err err)
      else if errors_Is err ErrExhausted then (s <| cm_tracker := MarkExhausted ref <$> cm_tracker s |>, Err err)
      else if errors_Is err ErrNotFound then
        (s <| cm_tracker := (fun t => redeclare (MarkExhausted ref t)) <$> cm_tracker s |>,
         Err (EWrap ("pool " +:+ PoolRef_String ref +:+ " is not known to the pool manager") [ESentinel ErrExhausted; err]))
      else if errors_Is err ErrUnavailable then (s <| cm_health := MarkUnavailable now <$> cm_health s |>, Err err)
      else (s, Err err)
  end.

(** ** What the keeper promises *)

(** The expiry known after some rounds: the last one a heartbeat returned. *)
Definition known_expiry (start : time) (rounds : list keeper_round) : time :=
  fold_left (fun e r => match kr_answer r with Ok x => if negb (time_IsZero x) then x else e | Err _ => e end) rounds start.

Lemma nextInterval_range now k : 0 < lk_Interval k -> 0 < nextInterval now k <= lk_Interval k.
Proof.
  intros H. unfold nextInterval, nanosecond. repeat case_if; bool_to_prop; lia.
Qed.

Lemma round_next_fields r k :
  lk_Interval (round_next r k) = lk_Interval k /\ lk_LeaseID (round_next r k) = lk_LeaseID k
  /\ lk_expiresAt (round_next r k) = known_expiry (lk_expiresAt k) [r].
Proof.
  unfold round_next, keeper_record, known_expiry. simpl. destruct (kr_answer r) as [x|]; [|done].
  destruct (time_IsZero x); done.
Qed.

(** The rounds made so far were [pre], and [r] ended the loop with [e]. *)
Definition ended_by (rounds : list keeper_round) (start : time) (e : keeper_end) (n : nat) : Prop :=
  exists pre r post, rounds = pre ++ r :: post /\ n = S (length pre) /\
  match e with
  | KeeperStopped => kr_done r = true \/ kr_over r = true
  | KeeperLost _ => exists err, kr_answer r = Err err /\
      (errors_Is err ErrNotFound = true
       \/ known_expiry start pre <> 0 /\ known_expiry start pre <= kr_now r)
  | KeeperRunning => False
  end.

Lemma keeper_Run_spec rounds k :
  0 < lk_Interval k ->
  let '(e, k', ws) := keeper_Run rounds k in
  Forall (fun d => 0 < d <= lk_Interval k) ws
  /\ (forall err, e = KeeperLost err -> errors_Is err PoolErrLeaseLost = true)
  /\ (match e with
      | KeeperRunning => length ws = length rounds /\ lk_expiresAt k' = known_expiry (lk_expiresAt k) rounds
      | _ => ended_by rounds (lk_expiresAt k) e (length ws)
      end).
Proof.
  revert k. induction rounds as [|r rounds IH]; intros k Hk; simpl; [done|].
  pose proof (nextInterval_range (kr_set r) k Hk) as Hr. destruct (round_end r k) as [e|] eqn:E.
  - assert (match e with KeeperStopped => kr_done r = true \/ kr_over r = true
      | KeeperLost err0 => errors_Is err0 PoolErrLeaseLost = true /\ exists err, kr_answer r = Err err /\
          (errors_Is err ErrNotFound = true \/ lk_expiresAt k <> 0 /\ lk_expiresAt k <= kr_now r)
      | KeeperRunning => False end) as He.
    { unfold round_end in E. destruct (kr_done r); [simplify_eq; by left|]. destruct (kr_answer r) as [|err]; [done|].
      destruct (kr_over r); [simplify_eq; by right|]. destruct (errors_Is err ErrNotFound) eqn:Hn; [simplify_eq; split; [done|]; by eauto|].
      destruct (negb _ && negb _) eqn:Hb; [|done]. simplify_eq. bool_to_prop. unfold time_IsZero, time_Before in *. bool_to_prop.
      split; [done|]. exists err. split; [done|]. right. lia. }
    split; [by constructor|]. split; [intros err ->; by destruct He|].
    destruct e as [|err|]; [| |done]; exists [], r, rounds; (split_and!; [done|done|]); [done|]. by destruct He.
  - destruct (round_next_fields r k) as (F1 & F2 & F3). specialize (IH (round_next r k) ltac:(by rewrite F1)).
    destruct (keeper_Run rounds (round_next r k)) as [[e k'] ws]. rewrite F1, F3 in IH.
    destruct IH as (I1 & I2 & I3). split; [by constructor|]. split; [done|].
    assert (forall l, known_expiry (known_expiry (lk_expiresAt k) [r]) l = known_expiry (lk_expiresAt k) (r :: l)) as Hx by done.
    destruct e as [|err|].
    1,2: destruct I3 as (pre & r' & post & -> & Hl & He); exists (r :: pre), r', post; rewrite ?Hx in He; simpl length;
      (split_and!; [done|lia|done]).
    rewrite Hx in I3. destruct I3. simpl length. split; [lia|done].
Qed.

(** The keeper of a Lease.  Whatever the Pool Manager answers, every wait
    is positive and no longer than the configured interval; the loop goes on
    as long as the context lives and no heartbeat is conclusive, knowing the
    expiry the last heartbeat returned; and it reports the Lease lost only
    when a heartbeat answered NOT_FOUND, or failed after the last known expiry
    had passed. *)
Theorem LeaseKeeper_Run_correct cfg k rounds :
  NewLeaseKeeper cfg = Ok k ->
  let '(e, k', ws) := keeper_Run rounds k in
  Forall (fun d => 0 < d <= lk_Interval k) ws
  /\ (forall err, e = KeeperLost err -> errors_Is err PoolErrLeaseLost = true)
  /\ (match e with
      | KeeperRunning => length ws = length rounds /\ lk_expiresAt k' = known_expiry (kc_ExpiresAt cfg) rounds
      | _ => ended_by rounds (kc_ExpiresAt cfg) e (length ws)
      end).
Proof.
  unfold NewLeaseKeeper. destruct (kc_Lease cfg); [|done]. destruct (String.eqb _ _); [done|]. simpl. intros [= <-].
  apply keeper_Run_spec. simpl. case_if; bool_to_prop; [done|lia].
Qed.

Lemma LeaseKeeper_Run_correct_witness :
  let cfg := {| kc_Lease := true; kc_LeaseID := "L"; kc_Interval := 0; kc_ExpiresAt := 100 |} in
  let k := {| lk_LeaseID := "L"; lk_Interval := 10 * second; lk_expiresAt := 100; lk_beats := 0 |} in
  let rounds := [{| kr_set := 0; kr_done := false; kr_answer := Ok 200; kr_over := false; kr_now := 60 |};
                 {| kr_set := 60; kr_done := false; kr_answer := Err (ESentinel ErrUnavailable); kr_over := false; kr_now := 210 |}] in
  (keeper_Run rounds k).2 = [50; 70] /\ ended_by rounds 100 (keeper_Run rounds k).1.1 2.
Proof.
  intros cfg k rounds. split; [vm_compute; reflexivity|].
  pose proof (LeaseKeeper_Run_correct cfg k rounds eq_refl) as H.
  destruct (keeper_Run rounds k) as [[e k'] ws] eqn:E. vm_compute in E. injection E as <- <- <-.
  destruct H as (_ & _ & H). exact H.
Defined.
