(* ===== verification/PoolClient.v ===== *)
(** * internal/poolmgr/client.go: the gRPC client of the Pool Manager

    The status codes of gRPC and their translation into the sentinel errors
    of the package, the connection settings and credentials, and the event
    stream.  The generated stubs, the TLS library and the file system are
    parameters: a call's outcome is the value the stub returns. *)
From S2P Require Import Prelude GoModel PoolTypes ConfigTypes Spec.

(** ** gRPC statuses *)
Inductive Code :=
  | Canceled | Unknown | InvalidArgument | DeadlineExceeded | NotFound | AlreadyExists
  | PermissionDenied | ResourceExhausted | FailedPrecondition | Aborted | OutOfRange
  | Unimplemented | Internal | Unavailable | DataLoss | Unauthenticated.
#[export] Instance Code_eq_dec : EqDecision Code.
Proof. solve_decision. Defined.

Definition Code_String (c : Code) : string :=
  match c with
  | Canceled => "Canceled" | Unknown => "Unknown" | InvalidArgument => "InvalidArgument"
  | DeadlineExceeded => "DeadlineExceeded" | NotFound => "NotFound" | AlreadyExists => "AlreadyExists"
  | PermissionDenied => "PermissionDenied" | ResourceExhausted => "ResourceExhausted"
  | FailedPrecondition => "FailedPrecondition" | Aborted => "Aborted" | OutOfRange => "OutOfRange"
  | Unimplemented => "Unimplemented" | Internal => "Internal" | Unavailable => "Unavailable"
  | DataLoss => "DataLoss" | Unauthenticated => "Unauthenticated"
  end.

(** What a stub returns instead of a response: a status, or an error that is
    none ([status.FromError] answers false). *)
Inductive rpc_error :=
  | RStatus (c : Code) (msg : string)
  | ROther (e : error).

Inductive rres (A : Type) :=
  | ROk (a : A)
  | RErr (e : rpc_error).
Arguments ROk {A} a.
Arguments RErr {A} e.

(** [status.Convert(err).Message()]: the text of an error that is no status
    is not modelled. *)
Definition status_Message (e : rpc_error) : string :=
  match e with RStatus _ msg => msg | ROther _ => "" end.

(** [mapErr] for a call that failed; [ctxErr] is [ctx.Err()]. *)
Definition mapErr (ctxErr : option error) (err : rpc_error) : error :=
  match err with
  | ROther e => EWrap "poolmgr" [e]
  | RStatus c msg =>
      match c with
      | ResourceExhausted => EWrap msg [ESentinel ErrExhausted]
      | NotFound => EWrap msg [ESentinel ErrNotFound]
      | AlreadyExists => EWrap msg [ESentinel ErrAlreadyExists]
      | Unavailable => EWrap msg [ESentinel ErrUnavailable]
      | InvalidArgument => EWrap msg [ESentinel ErrInvalid]
      | Aborted => EWrap msg [ESentinel ErrAborted]
      | Canceled | DeadlineExceeded =>
          match ctxErr with
          | Some e => e
          | None => EWrap msg [ESentinel ErrUnavailable]
          end
      | _ => ENew ("poolmgr: " +:+ Code_String c +:+ ": " +:+ msg)
      end
  end.

(** ** The unary calls

    A stub takes the request and the state of the world [W] the call runs
    in, and answers.  [refToProto] loses nothing, so a request carries the
    [PoolRef] itself. *)
Record wireClaim := {
  wc_LeaseId : string; wc_VmUid : string; wc_NetworkInterfaces : list (string * string); wc_Host : option HostRef }.

Section Calls.
Context {DurationPB : Type} (durationpb_New : duration -> DurationPB) (AsDuration : DurationPB -> duration).
Abbreviation wireSpec := (@wirePoolSpec DurationPB) (only parsing).
(** [poolmgrv1.Pool]. *)
Record wirePool := { wp_Spec : option wireSpec; wp_Status : option wireStatus }.

Context {W : Type}.

Definition pool_answer (ctxErr : option error) (r : W * rres wirePool) : W * result (option Pool) :=
  match r with
  | (w, ROk resp) => (w, Ok (Some (poolFromProto AsDuration (wp_Spec resp) (wp_Status resp))))
  | (w, RErr err) => (w, Err (mapErr ctxErr err))
  end.

Definition client_CreatePool (admin : wireSpec -> W -> W * rres wirePool) (ctxErr : option error)
    (spec : PoolSpec) (w : W) : W * result (option Pool) :=
  pool_answer ctxErr (admin (specToProto durationpb_New spec) w).

Definition client_UpdatePool (admin : wireSpec -> W -> W * rres wirePool) (ctxErr : option error)
    (spec : PoolSpec) (w : W) : W * result (option Pool) :=
  pool_answer ctxErr (admin (specToProto durationpb_New spec) w).

Definition client_GetPool (admin : PoolRef -> W -> W * rres wirePool) (ctxErr : option error)
    (ref : PoolRef) (w : W) : W * result (option Pool) :=
  pool_answer ctxErr (admin ref w).

Definition client_DeletePool (admin : PoolRef -> W -> W * rres unit) (ctxErr : option error)
    (ref : PoolRef) (w : W) : W * option error :=
  match admin ref w with
  | (w, ROk _) => (w, None)
  | (w, RErr err) => (w, Some (mapErr ctxErr err))
  end.

(** The request leaves the namespace out when it is empty. *)
Definition client_ListPools (admin : option string -> W -> W * rres (list wirePool)) (ctxErr : option error)
    (namespace : string) (w : W) : W * result (list Pool) :=
  match admin (if String.eqb namespace "" then None else Some namespace) w with
  | (w, ROk resp) => (w, Ok ((fun p => poolFromProto AsDuration (wp_Spec p) (wp_Status p)) <$> resp))
  | (w, RErr err) => (w, Err (mapErr ctxErr err))
  end.

Definition client_ClaimVM (lease : PoolRef -> string -> W -> W * rres wireClaim) (ctxErr : option error)
    (pool : PoolRef) (requestID : string) (w : W) : W * result Claim :=
  match lease pool requestID w with
  | (w, ROk resp) =>
      (w, Ok {| LeaseID := wc_LeaseId resp; VMUID := wc_VmUid resp;
                NetworkInterfaces := wc_NetworkInterfaces resp;
                claim_Host := default {| hr_Name := ""; hr_Address := "" |} (wc_Host resp) |})
  | (w, RErr err) => (w, Err (mapErr ctxErr err))
  end.

(** [zeroTime] is [AsTime] of a response without an expiry, the Unix epoch. *)
Definition client_Heartbeat (lease : string -> W -> W * rres (option time)) (zeroTime : time)
    (ctxErr : option error) (leaseID : string) (w : W) : W * result time :=
  match lease leaseID w with
  | (w, ROk resp) => (w, Ok (default zeroTime resp))
  | (w, RErr err) => (w, Err (mapErr ctxErr err))
  end.

Definition client_ReleaseVM (lease : string -> W -> W * rres unit) (ctxErr : option error)
    (leaseID : string) (w : W) : W * option error :=
  match lease leaseID w with
  | (w, ROk _) => (w, None)
  | (w, RErr err) => (w, Some (mapErr ctxErr err))
  end.
End Calls.
Arguments wirePool : clear implicits.
Arguments wp_Spec {DurationPB}.
Arguments wp_Status {DurationPB}.

(** ** Connection settings *)
Definition defaultKeepaliveTime : duration := 6 * minute.
Definition defaultKeepaliveTimeout : duration := 10 * second.
Definition defaultReconnectBase : duration := second.
Definition defaultReconnectMax : duration := 30 * second.
Definition defaultCallDeadline : duration := 10 * second.
Definition minConnectTimeout : duration := 20 * second.

Record ClientConfig := {
  cc_Endpoint : string; cc_TLS : ClientTLS; cc_Deadline : duration; cc_KeepaliveTime : duration;
  cc_KeepaliveTimeout : duration; cc_ReconnectBase : duration; cc_ReconnectMax : duration }.
#[export] Instance eta_ClientConfig : Eta ClientConfig :=
  fun r => {| cc_Endpoint := cc_Endpoint r; cc_TLS := cc_TLS r; cc_Deadline := cc_Deadline r;
              cc_KeepaliveTime := cc_KeepaliveTime r; cc_KeepaliveTimeout := cc_KeepaliveTimeout r;
              cc_ReconnectBase := cc_ReconnectBase r; cc_ReconnectMax := cc_ReconnectMax r |}.

Definition orDefault (d def : duration) : duration := if d <=? 0 then def else d.

Definition ClientConfig_withDefaults (c : ClientConfig) : ClientConfig :=
  {| cc_Endpoint := cc_Endpoint c; cc_TLS := cc_TLS c;
     cc_Deadline := orDefault (cc_Deadline c) defaultCallDeadline;
     cc_KeepaliveTime := orDefault (cc_KeepaliveTime c) defaultKeepaliveTime;
     cc_KeepaliveTimeout := orDefault (cc_KeepaliveTimeout c) defaultKeepaliveTimeout;
     cc_ReconnectBase := orDefault (cc_ReconnectBase c) defaultReconnectBase;
     cc_ReconnectMax := orDefault (cc_ReconnectMax c) defaultReconnectMax |}.

(** [deadlineInterceptor]: the deadline a unary call runs under, from the
    one its caller set, at time [now]. *)
Definition deadlineInterceptor (d : duration) (now : time) (caller : option time) : option time :=
  if 0 <? d then
    match caller with
    | Some t => Some (Z.min t (time_Add now d))
    | None => Some (time_Add now d)
    end
  else caller.

(** The credentials a connection is dialled with. *)
Inductive credentials (Pool Pair : Type) :=
  | CredInsecure
  | CredTLS (roots : option Pool) (certificate : option Pair).
Arguments CredInsecure {Pool Pair}.
Arguments CredTLS {Pool Pair} roots certificate.

Section Credentials.
(** The file system and crypto/x509, crypto/tls. *)
Context {CertPool Pair : Type} (ReadFile : string -> result string)
  (AppendCertsFromPEM : string -> option CertPool) (LoadX509KeyPair : string -> string -> result Pair).

Definition rootCAs (t : ClientTLS) : result (option CertPool) :=
  if String.eqb (tls_CAFile t) "" then Ok None else
  match ReadFile (tls_CAFile t) with
  | Err e => Err (EWrap "poolmgr: reading ca_file" [e])
  | Ok pem =>
      match AppendCertsFromPEM pem with
      | None => Err (ENew ("poolmgr: ca_file " +:+ tls_CAFile t +:+ " holds no certificate"))
      | Some pool => Ok (Some pool)
      end
  end.

Definition transportCredentials (t : ClientTLS) : result (credentials CertPool Pair) :=
  if tls_Insecure t then Ok CredInsecure else
  match rootCAs t with
  | Err e => Err e
  | Ok roots =>
      let cert := negb (String.eqb (tls_CertFile t) "") in
      let key := negb (String.eqb (tls_KeyFile t) "") in
      if cert && key then
        match LoadX509KeyPair (tls_CertFile t) (tls_KeyFile t) with
        | Err e => Err (EWrap "poolmgr: loading client certificate" [e])
        | Ok kp => Ok (CredTLS roots (Some kp))
        end
      else if cert || key then Err (ENew "poolmgr: cert_file and key_file have to be set together")
      else Ok (CredTLS roots None)
  end.

(** What [NewClient] dials with. *)
Record dialOptions := {
  do_Endpoint : string; do_Creds : credentials CertPool Pair; do_KeepaliveTime : duration;
  do_KeepaliveTimeout : duration; do_BaseDelay : duration; do_MaxDelay : duration;
  do_MinConnectTimeout : duration; do_Deadline : duration }.

Definition NewClient (cfg : ClientConfig) : result dialOptions :=
  let cfg := ClientConfig_withDefaults cfg in
  if String.eqb (cc_Endpoint cfg) "" then Err (ENew "poolmgr: endpoint is required") else
  match transportCredentials (cc_TLS cfg) with
  | Err e => Err e
  | Ok creds =>
      Ok {| do_Endpoint := cc_Endpoint cfg; do_Creds := creds; do_KeepaliveTime := cc_KeepaliveTime cfg;
            do_KeepaliveTimeout := cc_KeepaliveTimeout cfg; do_BaseDelay := cc_ReconnectBase cfg;
            do_MaxDelay := cc_ReconnectMax cfg;
            do_MinConnectTimeout := Z.max (cc_ReconnectMax cfg) minConnectTimeout;
            do_Deadline := cc_Deadline cfg |}
  end.
End Credentials.

(** ** The event stream *)
Record wireEvent := {
  we_Id : Z; we_PoolName : string; we_PoolNamespace : string; we_VmUid : string; we_Type : EventType;
  we_CreatedAt : time; we_PayloadJson : raw_json }.

Definition eventFromProto (e : wireEvent) : Event :=
  {| ev_ID := we_Id e; ev_Pool := {| ref_Name := we_PoolName e; ref_Namespace := we_PoolNamespace e |};
     ev_VMUID := we_VmUid e; ev_Type := we_Type e; ev_At := we_CreatedAt e; ev_Payload := we_PayloadJson e |}.

(** [es_terminal] is the field; [es_results] the results the reader goroutine
    has offered and not handed over, oldest first: an unbuffered channel, so
    the reader holds at most one and reads the next once it is taken.
    [es_closed] is that [streamCtx] is done. *)
Record eventStream := { es_terminal : option error; es_results : list (rres wireEvent); es_closed : bool }.
#[export] Instance eta_eventStream : Eta eventStream :=
  fun r => {| es_terminal := es_terminal r; es_results := es_results r; es_closed := es_closed r |}.

(** The case the [select] of [Recv] takes. *)
Inductive recv_case := OnCtxDone (e : error) | OnStreamDone | OnResult.

(** [None]: the case is not ready. *)
Definition eventStream_Recv (c : recv_case) (s : eventStream) : option (eventStream * result Event) :=
  match es_terminal s with
  | Some e => Some (s, Err e)
  | None =>
      match c with
      | OnCtxDone e => Some (s, Err e)
      | OnStreamDone =>
          if es_closed s then
            let e := EWrap "events stream closed" [ESentinel ErrUnavailable] in
            Some (s <| es_terminal := Some e |>, Err e)
          else None
      | OnResult =>
          match es_results s with
          | [] => None
          | RErr err :: rest =>
              let e := EWrap ("events stream ended: " +:+ status_Message err) [ESentinel ErrUnavailable] in
              Some (s <| es_results := rest |> <| es_terminal := Some e |>, Err e)
          | ROk ev :: rest => Some (s <| es_results := rest |>, Ok (eventFromProto ev))
          end
      end
  end.

Definition eventStream_Close (s : eventStream) : eventStream := s <| es_closed := true |>.

(** ** The translation of errors *)

(** The sentinel a status stands for when the caller's context is live. *)
Definition code_sentinel (c : Code) : option sentinel :=
  match c with
  | ResourceExhausted => Some ErrExhausted
  | NotFound => Some ErrNotFound
  | AlreadyExists => Some ErrAlreadyExists
  | Unavailable | Canceled | DeadlineExceeded => Some ErrUnavailable
  | InvalidArgument => Some ErrInvalid
  | Aborted => Some ErrAborted
  | _ => None
  end.

Lemma mapErr_live c msg s : errors_Is (mapErr None (RStatus c msg)) s = bool_decide (code_sentinel c = Some s).
Proof.
  destruct c; simpl; rewrite ?orb_false_r; first [apply bool_decide_ext; split; congruence|done].
Qed.

(** What the Runner sees of a failed call.  With a live context the error
    satisfies exactly the sentinel its code stands for, a cancellation or
    deadline the caller did not ask for included, and no other; with a
    context that ended, such a status is the context's own error; an error
    that is no status keeps what it wraps. *)
Theorem mapErr_correct :
  (forall c msg s, errors_Is (mapErr None (RStatus c msg)) s = bool_decide (code_sentinel c = Some s))
  /\ (forall c msg e, mapErr (Some e) (RStatus c msg) =
        if bool_decide (c = Canceled \/ c = DeadlineExceeded) then e else mapErr None (RStatus c msg))
  /\ (forall ctxErr e s, errors_Is (mapErr ctxErr (ROther e)) s = errors_Is e s).
Proof.
  split_and!; [apply mapErr_live| |intros; simpl; apply orb_false_r].
  intros c msg e. case_bool_decide as Hc; destruct c; simpl; try done; naive_solver.
Qed.

(** ** Credentials *)
Lemma orDefault_pos d def : 0 < def -> 0 < orDefault d def.
Proof. unfold orDefault. destruct (Z.leb_spec d 0); lia. Qed.

Lemma ClientConfig_withDefaults_idem c :
  ClientConfig_withDefaults (ClientConfig_withDefaults c) = ClientConfig_withDefaults c.
Proof.
  assert (forall d def, 0 < def -> orDefault (orDefault d def) def = orDefault d def) as Hi.
  { intros d def Hdef. unfold orDefault. destruct (Z.leb_spec d 0) as [H|H].
    - by rewrite (proj2 (Z.leb_gt def 0)).
    - by rewrite (proj2 (Z.leb_gt d 0)). }
  unfold ClientConfig_withDefaults. simpl. by rewrite !Hi by (vm_compute; reflexivity).
Qed.

Section CredentialThms.
Context {CertPool Pair : Type} (ReadFile : string -> result string)
  (AppendCertsFromPEM : string -> option CertPool) (LoadX509KeyPair : string -> string -> result Pair).
Notation NewClient := (NewClient ReadFile AppendCertsFromPEM LoadX509KeyPair).

(** A connection is plaintext only when the endpoint is marked insecure,
    whatever the files hold; a TLS connection uses the configured authority
    whenever one is named and a client certificate exactly when both of its
    files are; every unary call has a positive deadline and a reconnect
    attempt gets at least twenty seconds. *)
Theorem NewClient_secure cfg o :
  NewClient cfg = Ok o ->
  (do_Creds o = CredInsecure <-> tls_Insecure (cc_TLS cfg) = true)
  /\ (forall roots cert, do_Creds o = CredTLS roots cert ->
        (is_Some roots <-> tls_CAFile (cc_TLS cfg) <> "")
        /\ (is_Some cert <-> tls_CertFile (cc_TLS cfg) <> "" /\ tls_KeyFile (cc_TLS cfg) <> "")
        /\ (tls_CertFile (cc_TLS cfg) = "" <-> tls_KeyFile (cc_TLS cfg) = ""))
  /\ 0 < do_Deadline o /\ 20 * second <= do_MinConnectTimeout o /\ do_Endpoint o = cc_Endpoint cfg.
Proof.
  unfold PoolClient.NewClient. destruct (String.eqb _ ""); [done|].
  assert (cc_TLS (ClientConfig_withDefaults cfg) = cc_TLS cfg) as -> by done.
  destruct (transportCredentials _ _ _ (cc_TLS cfg)) as [creds|] eqn:E; [|done]. intros [= <-].
  cbn [do_Creds do_Deadline do_MinConnectTimeout do_Endpoint].
  split; [|split].
  3:{ split_and!; [by apply orDefault_pos|unfold minConnectTimeout; lia|done]. }
  - unfold transportCredentials in E. destruct (tls_Insecure _); [by injection E as <-|].
    repeat case_match; simplify_eq; split; done.
  - intros roots cert ->. unfold transportCredentials, rootCAs in E.
    destruct (tls_Insecure _); [done|].
    destruct (String.eqb_spec (tls_CAFile (cc_TLS cfg)) ""), (String.eqb_spec (tls_CertFile (cc_TLS cfg)) ""),
      (String.eqb_spec (tls_KeyFile (cc_TLS cfg)) ""); simpl in E; repeat case_match; simplify_eq;
      split_and!; rewrite ?is_Some_alt; naive_solver.
Qed.
End CredentialThms.

Definition demo_ClientConfig : ClientConfig :=
  {| cc_Endpoint := "pm:50051"; cc_TLS := {| tls_CAFile := "ca"; tls_CertFile := ""; tls_KeyFile := ""; tls_Insecure := false |};
     cc_Deadline := 0; cc_KeepaliveTime := 0; cc_KeepaliveTimeout := 0; cc_ReconnectBase := 0; cc_ReconnectMax := second |}.

Lemma NewClient_secure_witness :
  exists o, NewClient (fun f => Ok f) (fun pem => Some pem) (fun c k => Ok (c, k)) demo_ClientConfig = Ok o
  /\ 0 < do_Deadline o.
Proof.
  destruct (NewClient (fun f => Ok f) (fun pem => Some pem) (fun c k => Ok (c, k)) demo_ClientConfig) as [o|] eqn:E;
    [|by vm_compute in E].
  exists o. split; [done|]. exact (proj1 (proj2 (proj2 (NewClient_secure _ _ _ demo_ClientConfig o E)))).
Defined.

(** ** The stream loses nothing *)

(** A run of [Recv] calls; a case that is not ready leaves the stream alone
    and returns nothing. *)
Fixpoint recv_run (cs : list recv_case) (s : eventStream) : eventStream * list (result Event) :=
  match cs with
  | [] => (s, [])
  | c :: cs =>
      match eventStream_Recv c s with
      | None => recv_run cs s
      | Some (s, r) => let '(s, rs) := recv_run cs s in (s, r :: rs)
      end
  end.

Definition recv_events (rs : list (result Event)) : list Event :=
  omap (fun r => match r with Ok e => Some e | Err _ => None end) rs.

(** The events a stream still has to hand over: those before its end. *)
Fixpoint undelivered (rs : list (rres wireEvent)) : list Event :=
  match rs with
  | ROk e :: rs => eventFromProto e :: undelivered rs
  | _ => []
  end.

Definition stream_pending (s : eventStream) : list Event :=
  match es_terminal s with Some _ => [] | None => undelivered (es_results s) end.

Lemma recv_terminal cs s e :
  es_terminal s = Some e -> (recv_run cs s).1 = s /\ Forall (fun r => r = Err e) (recv_run cs s).2.
Proof.
  intros He. induction cs as [|c cs IH]; simpl; [done|]. unfold eventStream_Recv. rewrite He.
  destruct (recv_run cs s) as [s' rs]. simpl in *. destruct IH as [-> IH]. by auto.
Qed.

(** The events stream.  However its [Recv] calls are interleaved with
    contexts that end, the events they return, in order, are the first ones
    the server sent: none is lost, repeated or reordered, and unless the
    stream has ended what is left is what is still to come.  Once a call
    reported the end of the stream, as [ErrUnavailable], every later call
    repeats that error. *)
Theorem eventStream_faithful cs s :
  es_terminal s = None ->
  let '(s', rs) := recv_run cs s in
  (exists rest, stream_pending s = recv_events rs ++ rest /\ (es_terminal s' = None -> rest = stream_pending s'))
  /\ (forall e, es_terminal s' = Some e ->
        errors_Is e ErrUnavailable = true /\ forall cs', Forall (fun r => r = Err e) (recv_run cs' s').2).
Proof.
  revert s. induction cs as [|c cs IH]; intros s Hs; simpl.
  { split; [by exists (stream_pending s)|]. by rewrite Hs. }
  unfold eventStream_Recv. rewrite Hs.
  assert (forall s1 e, es_terminal s1 = Some e -> errors_Is e ErrUnavailable = true ->
    let '(s', rs) := (let '(s', rs) := recv_run cs s1 in (s', Err e :: rs)) in
    (exists rest, stream_pending s = recv_events rs ++ rest /\ (es_terminal s' = None -> rest = stream_pending s'))
    /\ (forall e, es_terminal s' = Some e ->
          errors_Is e ErrUnavailable = true /\ forall cs', Forall (fun r => r = Err e) (recv_run cs' s').2)) as Hend.
  { intros s1 e Ht Hu. destruct (recv_terminal cs s1 e Ht) as [H1 H2]. destruct (recv_run cs s1) as [s' rs].
    simpl in H1, H2. subst s'. split.
    - exists (stream_pending s). split; [|by rewrite Ht].
      assert (recv_events rs = []) as Hn; [|change (recv_events (Err e :: rs)) with (recv_events rs); by rewrite Hn].
      clear -H2. induction H2 as [|r rs -> _ IH]; [done|]. exact IH.
    - intros e' He'. rewrite Ht in He'. injection He' as <-. split; [done|]. intros cs'. by apply recv_terminal. }
  destruct c as [e| |].
  - specialize (IH s Hs). destruct (recv_run cs s) as [s' rs]. exact IH.
  - destruct (es_closed s); [|exact (IH s Hs)]. by apply Hend.
  - destruct (es_results s) as [|[ev|err] l] eqn:Hr; [exact (IH s Hs)| |by apply Hend].
    specialize (IH {| es_terminal := None; es_results := l; es_closed := es_closed s |} eq_refl).
    unfold set_field. simpl. rewrite Hs. destruct (recv_run cs _) as [s' rs].
    destruct IH as [(rest & H1 & H2) H3]. split; [|done]. exists rest. split; [|done].
    unfold stream_pending in *. rewrite Hs, Hr. cbn [undelivered es_terminal es_results] in *. by rewrite H1.
Qed.

Definition demo_wire (n : Z) : wireEvent :=
  {| we_Id := n; we_PoolName := "p"; we_PoolNamespace := "ns"; we_VmUid := ""; we_Type := VM_AVAILABLE;
     we_CreatedAt := 0; we_PayloadJson := RawEmpty |}.

Lemma eventStream_faithful_witness :
  exists rest, undelivered [ROk (demo_wire 1); ROk (demo_wire 2); RErr (RStatus Unavailable "gone")] =
    recv_events (recv_run [OnResult; OnCtxDone (ESentinel CtxCanceled); OnResult]
      {| es_terminal := None; es_results := [ROk (demo_wire 1); ROk (demo_wire 2); RErr (RStatus Unavailable "gone")];
         es_closed := false |}).2 ++ rest.
Proof.
  pose proof (eventStream_faithful [OnResult; OnCtxDone (ESentinel CtxCanceled); OnResult]
      {| es_terminal := None; es_results := [ROk (demo_wire 1); ROk (demo_wire 2); RErr (RStatus Unavailable "gone")];
         es_closed := false |} eq_refl) as H.
  destruct (recv_run _ _) as [s' rs]. destruct H as [(rest & H & _) _]. exists rest. exact H.
Defined.
