(* ===== verification/FakePool.v ===== *)
(** * internal/poolmgr/fake: the fake Pool Manager, its state and operations

    state.go, ops.go, reconcile.go, hooks.go, events.go, hostsource.go and
    the control surface of fake.go.  The code holds one mutex and never makes
    a Host call under it, so each definition here is one critical section: a
    function of the state behind the mutex.  [FakeSys] composes them into the
    goroutines they belong to.

    The code shares [*vmState] and [*poolState] pointers between the maps and
    the goroutines, which keep them after the entry is gone from the map.  The
    model keeps the objects in two stores, [vmObjs] by MicroVM id and
    [poolObjs] by address, that only grow; [vms] is the key set of the map
    [p.vms], and [pools] and [vmByUID] hold addresses.  The iteration order
    of a Go map is an argument ([arrange]) wherever it can be observed.
    [nextVM], [nextEvent] and the round-robin cursor are unbounded integers:
    they start at zero and count 64-bit increments. *)
From S2P Require Import Prelude GoModel PoolTypes Spec PoolClient.

(** The order a map is ranged over: the keys [o] names, then the others. *)
Definition arrange {A} `{EqDecision A} (o keys : list A) : list A :=
  filter (fun k => k ∈ keys) (remove_dups o) ++ filter (fun k => k ∉ o) keys.

Lemma arrange_perm {A} `{EqDecision A} (o keys : list A) : NoDup keys -> arrange o keys ≡ₚ keys.
Proof.
  intros HN. apply NoDup_Permutation; [|done|].
  - unfold arrange. apply NoDup_app. split_and!; [apply NoDup_filter, NoDup_remove_dups| |by apply NoDup_filter].
    intros x Hx Hx'. apply list_elem_of_filter in Hx as [_ Hx], Hx' as [Hx' _]. by rewrite elem_of_remove_dups in Hx.
  - intros x. unfold arrange. rewrite elem_of_app, !list_elem_of_filter, elem_of_remove_dups.
    destruct (decide (x ∈ o)); tauto.
Qed.

(** ** Configuration and faults (internal/poolmgr/interfaces.go) *)
Inductive PlacementStrategy := PlacementLeastVMs | PlacementRoundRobin.
#[export] Instance PlacementStrategy_eq_dec : EqDecision PlacementStrategy.
Proof. solve_decision. Defined.

Record FakeConfig := {
  fc_Listen : string; fc_Placement : option PlacementStrategy; fc_ReconcileInterval : duration;
  fc_ReadyTimeout : duration; fc_EventReplay : Z; fc_OmitHostOnClaim : bool; fc_Namespace : string }.

Inductive HookKind := HookCreate | HookPreLease.
#[export] Instance HookKind_eq_dec : EqDecision HookKind.
Proof. solve_decision. Defined.
Definition HookKind_String (k : HookKind) : string :=
  match k with HookCreate => "create" | HookPreLease => "pre_lease" end.

Record HookFailure := { hf_Pool : PoolRef; hf_Hook : HookKind; hf_Remaining : Z }.
Record Faults := {
  fl_ClaimLatency : duration; fl_UnavailableFor : duration; fl_HookFailures : list HookFailure;
  fl_DropEventsStream : bool; fl_RefuseHeartbeats : bool; fl_LoseClaimResponses : Z }.
#[export] Instance eta_Faults : Eta Faults :=
  fun r => {| fl_ClaimLatency := fl_ClaimLatency r; fl_UnavailableFor := fl_UnavailableFor r;
              fl_HookFailures := fl_HookFailures r; fl_DropEventsStream := fl_DropEventsStream r;
              fl_RefuseHeartbeats := fl_RefuseHeartbeats r; fl_LoseClaimResponses := fl_LoseClaimResponses r |}.

Definition noFaults : Faults :=
  {| fl_ClaimLatency := 0; fl_UnavailableFor := 0; fl_HookFailures := []; fl_DropEventsStream := false;
     fl_RefuseHeartbeats := false; fl_LoseClaimResponses := 0 |}.

Record LeaseRecord := {
  lr_LeaseID : string; lr_VMUID : string; lr_Pool : PoolRef; lr_ClaimedAt : time;
  lr_LastHeartbeatAt : time; lr_ExpiresAt : time; lr_RequestID : string }.
#[export] Instance eta_LeaseRecord : Eta LeaseRecord :=
  fun r => {| lr_LeaseID := lr_LeaseID r; lr_VMUID := lr_VMUID r; lr_Pool := lr_Pool r;
              lr_ClaimedAt := lr_ClaimedAt r; lr_LastHeartbeatAt := lr_LastHeartbeatAt r;
              lr_ExpiresAt := lr_ExpiresAt r; lr_RequestID := lr_RequestID r |}.

(** ** State (state.go, fake.go) *)
Inductive VMPhase :=
  | PROVISIONING | CREATE_HOOK_RUNNING | AVAILABLE | PRE_LEASE_HOOK_RUNNING | LEASED
  | DELETING | FAILED | QUARANTINED.
#[export] Instance VMPhase_eq_dec : EqDecision VMPhase.
Proof. solve_decision. Defined.

Record poolState := {
  po_key : PoolRef; po_spec : PoolSpec; po_nextEvent : Z; po_rr : Z; po_fresh : bool; po_warned : gmap string Z }.
#[export] Instance eta_poolState : Eta poolState :=
  fun r => {| po_key := po_key r; po_spec := po_spec r; po_nextEvent := po_nextEvent r; po_rr := po_rr r;
              po_fresh := po_fresh r; po_warned := po_warned r |}.

Record vmState := {
  vm_id : Z; vm_uid : string; vm_pool : PoolRef; vm_host : string; vm_phase : VMPhase; vm_leaseID : string;
  vm_deleteEvent : option EventType; vm_deleteInFlight : bool; vm_released : bool;
  vm_createdAt : time; vm_updated : time }.
#[export] Instance eta_vmState : Eta vmState :=
  fun r => {| vm_id := vm_id r; vm_uid := vm_uid r; vm_pool := vm_pool r; vm_host := vm_host r;
              vm_phase := vm_phase r; vm_leaseID := vm_leaseID r; vm_deleteEvent := vm_deleteEvent r;
              vm_deleteInFlight := vm_deleteInFlight r; vm_released := vm_released r;
              vm_createdAt := vm_createdAt r; vm_updated := vm_updated r |}.

Record subscriber := { sub_filter : option PoolRef; sub_ch : list Event; sub_dropped : bool }.
#[export] Instance eta_subscriber : Eta subscriber :=
  fun r => {| sub_filter := sub_filter r; sub_ch := sub_ch r; sub_dropped := sub_dropped r |}.

Record eventBus := {
  eb_replay : Z; eb_recent : gmap PoolRef (list Event); eb_subs : gmap Z subscriber; eb_nextSub : Z }.
#[export] Instance eta_eventBus : Eta eventBus :=
  fun r => {| eb_replay := eb_replay r; eb_recent := eb_recent r; eb_subs := eb_subs r; eb_nextSub := eb_nextSub r |}.

(** hostsource.go: a client is its identity. *)
Record hostEntry := { ho_client : Z; ho_address : string }.
Abbreviation Hosts := (gmap string hostEntry) (only parsing).

(** [run] is [runCtx]: [None] before Run, then whether it is done.  [kick] is
    the one-element channel, [now] the clock and [hosts] the HostSource. *)
Record PM := {
  faults : Faults; unavailableUntil : time; poolObjs : gmap Z poolState; nextPool : Z; pools : gmap PoolRef Z;
  vmObjs : gmap Z vmState; vms : gset Z; vmByUID : gmap string Z; leases : gmap string LeaseRecord; nextVM : Z;
  run : option bool; started : bool; stopped : bool; serving : bool; events : eventBus; kick : bool;
  now : time; hosts : Hosts }.
#[export] Instance eta_PM : Eta PM :=
  fun r => {| faults := faults r; unavailableUntil := unavailableUntil r; poolObjs := poolObjs r;
              nextPool := nextPool r; pools := pools r; vmObjs := vmObjs r; vms := vms r; vmByUID := vmByUID r;
              leases := leases r; nextVM := nextVM r; run := run r; started := started r; stopped := stopped r;
              serving := serving r; events := events r; kick := kick r; now := now r; hosts := hosts r |}.

(** The MicroVMs a range over [p.vms] visits. *)
Definition live (s : PM) : gmap Z vmState := filter (fun kv => kv.1 ∈ vms s) (vmObjs s).

Definition lookupPool (key : PoolRef) (s : PM) : option (Z * poolState) :=
  match pools s !! key with
  | Some a => match poolObjs s !! a with Some ps => Some (a, ps) | None => None end
  | None => None
  end.

(** Writing through a pointer. *)
Definition upd_vm (v : Z) (f : vmState -> vmState) (s : PM) : PM := s <| vmObjs := alter f v (vmObjs s) |>.
Definition upd_pool (a : Z) (f : poolState -> poolState) (s : PM) : PM := s <| poolObjs := alter f a (poolObjs s) |>.

(** ** Events (events.go) *)
Definition subscriberBuffer : nat := 256.
Definition newEventBus (replay : Z) : eventBus :=
  {| eb_replay := replay; eb_recent := ∅; eb_subs := ∅; eb_nextSub := 0 |}.

Definition sub_matches (key : PoolRef) (s : subscriber) : bool :=
  match sub_filter s with None => true | Some k => bool_decide (k = key) end.

(** The non-blocking send of [publish] to one subscriber. *)
Definition deliver (key : PoolRef) (e : Event) (s : subscriber) : subscriber :=
  if negb (sub_matches key s) then s
  else if (length (sub_ch s) <? subscriberBuffer)%nat then s <| sub_ch := sub_ch s ++ [e] |>
  else s <| sub_dropped := true |>.

(** [log[len(log)-b.replay:]] when the log is longer than [replay]. *)
Definition trim_log (replay : Z) (log : list Event) : list Event :=
  if replay <? Z.of_nat (length log) then drop (Z.to_nat (Z.of_nat (length log) - replay)) log else log.

Definition publish (key : PoolRef) (e : Event) (b : eventBus) : eventBus :=
  b <| eb_recent := <[key := trim_log (eb_replay b) (default [] (eb_recent b !! key) ++ [e])]> (eb_recent b) |>
    <| eb_subs := deliver key e <$> eb_subs b |>.

Definition subscribe (filter : option PoolRef) (o : list PoolRef) (b : eventBus) : eventBus * (Z * list Event) :=
  let id := eb_nextSub b + 1 in
  (b <| eb_nextSub := id |>
     <| eb_subs := <[id := {| sub_filter := filter; sub_ch := []; sub_dropped := false |}]> (eb_subs b) |>,
   (id, match filter with
        | Some key => default [] (eb_recent b !! key)
        | None => concat ((fun k => default [] (eb_recent b !! k)) <$> arrange o (map_to_list (eb_recent b)).*1)
        end)).

Definition unsubscribe (id : Z) (b : eventBus) : eventBus := b <| eb_subs := delete id (eb_subs b) |>.
Definition dropAll (b : eventBus) : eventBus :=
  b <| eb_subs := (fun s => s <| sub_dropped := true |>) <$> eb_subs b |>.
Definition open_streams (b : eventBus) : Z := Z.of_nat (size (eb_subs b)).

(** The payload's keys in the order [json.Marshal] writes them. *)
Definition payload_json (payload : list (string * json)) : raw_json :=
  match payload with [] => RawEmpty | _ => RawDoc (JObj payload) end.

Definition emitLocked (key : PoolRef) (vmUID : string) (typ : EventType) (payload : list (string * json)) (s : PM) : PM :=
  match lookupPool key s with
  | None => s
  | Some (a, ps) =>
      let id := po_nextEvent ps + 1 in
      upd_pool a (fun ps => ps <| po_nextEvent := id |>) s
        <| events := publish key {| ev_ID := id; ev_Pool := key; ev_VMUID := vmUID; ev_Type := typ; ev_At := now s;
                                    ev_Payload := payload_json payload |} (events s) |>
  end.

(** ** Counting and placement (state.go) *)
Record counts := { c_available : Z; c_leased : Z; c_provisioning : Z; c_quarantined : Z }.
Definition counts_status (c : counts) : PoolStatus :=
  {| Available := c_available c; Leased := c_leased c; Provisioning := c_provisioning c; Quarantined := c_quarantined c |}.

Definition in_phase (key : PoolRef) (ps : list VMPhase) (vm : vmState) : bool :=
  bool_decide (vm_pool vm = key) && bool_decide (vm_phase vm ∈ ps).

(** Each [c.x++] is on an [int32]. *)
Definition countsLocked (key : PoolRef) (s : PM) : counts :=
  {| c_available := int32 (map_count (in_phase key [AVAILABLE]) (live s));
     c_leased := int32 (map_count (in_phase key [LEASED; PRE_LEASE_HOOK_RUNNING]) (live s));
     c_provisioning := int32 (map_count (in_phase key [PROVISIONING; CREATE_HOOK_RUNNING]) (live s));
     c_quarantined := int32 (map_count (in_phase key [QUARANTINED]) (live s)) |}.

Definition aliveLocked (v : Z) (s : PM) : bool :=
  match vmObjs s !! v with
  | Some vm => bool_decide (v ∈ vms s) && bool_decide (is_Some (pools s !! vm_pool vm))
  | None => false
  end.

Definition older (a b : vmState) : bool :=
  (vm_updated a <? vm_updated b) || ((vm_updated a =? vm_updated b) && (vm_id a <? vm_id b)).

(** One round of the loop of [oldestAvailableLocked]. *)
Definition pick_older (key : PoolRef) (best : option vmState) (vm : vmState) : option vmState :=
  if negb (in_phase key [AVAILABLE] vm) then best
  else match best with
  | None => Some vm
  | Some b => if older vm b then Some vm else best
  end.
Definition oldestAvailableLocked (key : PoolRef) (s : PM) : option vmState :=
  fold_left (pick_older key) (map_to_list (live s)).*2 None.

Definition setPhaseLocked (v : Z) (phase : VMPhase) (s : PM) : PM :=
  upd_vm v (fun vm => vm <| vm_phase := phase |> <| vm_updated := now s |>) s.

(** [perHost[h]] of [pickHostLocked]. *)
Definition perHost (key : PoolRef) (h : string) (s : PM) : Z :=
  map_count (fun vm => bool_decide (vm_pool vm = key) && negb (bool_decide (vm_phase vm ∈ [DELETING; FAILED]))
                       && bool_decide (vm_host vm = h)) (live s).

Definition candidates (ps : poolState) (s : PM) : list string :=
  filter (fun name => is_Some (hosts s !! name)) (sp_FlintlockHosts (po_spec ps)).

Definition least (load : string -> Z) (best : string) (l : list string) : string :=
  fold_left (fun best h => if load h <? load best then h else best) l best.

(** hostsource.go *)
Definition Hosts_Add (name : string) (client : Z) (address : string) (h : Hosts) : Hosts :=
  <[name := {| ho_client := client; ho_address := address |}]> h.
Definition Hosts_Remove (name : string) (h : Hosts) : Hosts := delete name h.
Definition Hosts_Host (name : string) (h : Hosts) : result Z :=
  match h !! name with Some e => Ok (ho_client e) | None => Err (EWrap name [ESentinel HostErrUnknownHost]) end.
Definition Hosts_Names (h : Hosts) : list string := sort_strings (map_to_list h).*1.
Definition Hosts_Address (name : string) (h : Hosts) : option string := ho_address <$> h !! name.

Definition hostClient (name : string) (s : PM) : result Z :=
  match Hosts_Host name (hosts s) with Ok c => Ok c | Err e => Err (EWrap ("host " +:+ name) [e]) end.
Definition hostAddress (name : string) (s : PM) : string := default "" (Hosts_Address name (hosts s)).
