(* ===== verification/FakeOps.v ===== *)
(** * internal/poolmgr/fake: the operations of the fake Pool Manager

    ops.go, reconcile.go, hooks.go and fake.go over the state of [FakePool],
    one definition per critical section.  A critical section that hands work
    to a goroutine returns the MicroVMs it handed over. *)
From S2P Require Import Prelude GoModel PoolTypes Spec PoolClient FakePool.

Definition errNotFound {A} (msg : string) : rres A := RErr (RStatus NotFound msg).
Definition errInvalid {A} (msg : string) : rres A := RErr (RStatus InvalidArgument msg).

(** ** validateSpec *)
Definition forceGuestAgent (t : MicroVMSpec) : MicroVMSpec :=
  {| ms_Id := ms_Id t; ms_Namespace := ms_Namespace t; ms_Labels := ms_Labels t; ms_Vcpu := ms_Vcpu t;
     ms_MemoryInMb := ms_MemoryInMb t; ms_Kernel := ms_Kernel t; ms_Initrd := ms_Initrd t;
     ms_RootVolume := ms_RootVolume t; ms_AdditionalVolumes := ms_AdditionalVolumes t;
     ms_Interfaces := ms_Interfaces t; ms_Metadata := ms_Metadata t; ms_Provider := ms_Provider t;
     ms_AllowGuestAgent := true; ms_CpuConfig := ms_CpuConfig t |}.

(** The switch over the replenishment strategy. *)
Definition strategyError (r : ReplenishmentStrategy) : option string :=
  match rs_Type r with
  | IMMEDIATE_ON_LEASE | REPLACE_ON_DELETE => None
  | MIN_SIZE_THRESHOLD =>
      match rs_MinSize r with
      | Some m => if m <=? 0 then Some "spec.replenishment_strategy: MIN_SIZE_THRESHOLD requires a positive min_size" else None
      | None => Some "spec.replenishment_strategy: MIN_SIZE_THRESHOLD requires a positive min_size"
      end
  | REPLENISHMENT_UNSPECIFIED => Some "spec.replenishment_strategy: unknown replenishment strategy"
  end.

Definition validateSpec (spec : PoolSpec) : rres PoolSpec :=
  if String.eqb (ref_Name (sp_Ref spec)) "" then errInvalid "spec.name is required" else
  if String.eqb (ref_Namespace (sp_Ref spec)) "" then errInvalid "spec.namespace is required" else
  match strategyError (sp_Replenishment spec) with
  | Some msg => errInvalid msg
  | None =>
      match sp_HookFailurePolicy spec with
      | HOOK_FAILURE_POLICY_UNSPECIFIED => errInvalid "spec.hook_failure_policy: invalid value"
      | DELETE_AND_REPLACE | HOOK_QUARANTINE =>
          match sp_Template spec with
          | None => errInvalid "spec.microvm_template is required"
          | Some t =>
              if sp_Size spec <? 0 then errInvalid "spec.size must not be negative" else
              if sp_HeartbeatExpiryThreshold spec <=? 0
              then errInvalid "spec.heartbeat_expiry_threshold must be positive"
              else ROk {| sp_Ref := sp_Ref spec; sp_Template := Some (forceGuestAgent t); sp_Size := sp_Size spec;
                          sp_FlintlockHosts := sp_FlintlockHosts spec; sp_Replenishment := sp_Replenishment spec;
                          sp_CreateCommands := sp_CreateCommands spec; sp_PreLeaseCommands := sp_PreLeaseCommands spec;
                          sp_HookFailurePolicy := sp_HookFailurePolicy spec;
                          sp_HeartbeatInterval := sp_HeartbeatInterval spec;
                          sp_HeartbeatExpiryThreshold := sp_HeartbeatExpiryThreshold spec |}
          end
      end
  end.

(** ** The replenishment strategy (reconcile.go) *)
Record strategy := { st_typ : ReplenishmentStrategyType; st_size : Z; st_minSize : Z }.
Definition strategyOf (spec : PoolSpec) : strategy :=
  {| st_typ := rs_Type (sp_Replenishment spec); st_size := sp_Size spec;
     st_minSize := default 0 (rs_MinSize (sp_Replenishment spec)) |}.
Definition onClaimed (s : strategy) : Z := match st_typ s with IMMEDIATE_ON_LEASE => 1 | _ => 0 end.
Definition onDeleted (s : strategy) : Z := match st_typ s with REPLACE_ON_DELETE => 1 | _ => 0 end.
Definition tickDeficit (s : strategy) (c : counts) : Z :=
  let clamp deficit := if deficit <? 0 then 0 else deficit in
  match st_typ s with
  | IMMEDIATE_ON_LEASE => clamp (int32 (st_size s - int32 (c_available c + c_provisioning c)))
  | MIN_SIZE_THRESHOLD =>
      if st_minSize s <=? c_available c then 0
      else clamp (int32 (st_size s - int32 (int32 (c_available c + c_leased c) + c_provisioning c)))
  | REPLACE_ON_DELETE => clamp (int32 (st_size s - int32 (int32 (c_available c + c_leased c) + c_provisioning c)))
  | REPLENISHMENT_UNSPECIFIED => 0
  end.

Definition warningWindow (spec : PoolSpec) : duration :=
  if 0 <? sp_HeartbeatInterval spec then sp_HeartbeatInterval spec else Z.quot (sp_HeartbeatExpiryThreshold spec) 2.

(** ** Leases *)
Definition dropLeaseLocked (leaseID : string) (s : PM) : PM :=
  match leases s !! leaseID with
  | None => s
  | Some rec =>
      let s := s <| leases := delete leaseID (leases s) |> in
      match lookupPool (lr_Pool rec) s with
      | Some (a, _) => upd_pool a (fun ps => ps <| po_warned := delete leaseID (po_warned ps) |>) s
      | None => s
      end
  end.

Record claimResult := { cr_leaseID : string; cr_vmUID : string; cr_host : option HostRef; cr_hostName : string }.
Definition maxRequestIDLength : nat := 255.

(** What the first critical section of [claimVM] decides: the answer, or the
    MicroVM to run the pre-lease commands of the Pool at address [ps] in. *)
Inductive claim_next :=
  | ClaimReply (r : rres claimResult)
  | ClaimHooks (vm ps : Z) (cmds : list string).

(** [UnixNano] of a time; the zero time is the first of January of year 1. *)
Definition unixEpoch : time := 62135596800 * second.
Definition UnixNano (t : time) : Z := int64 (t - unixEpoch).

Definition policy_String (p : HookFailurePolicy) : string :=
  match p with
  | HOOK_FAILURE_POLICY_UNSPECIFIED => "HOOK_FAILURE_POLICY_UNSPECIFIED"
  | DELETE_AND_REPLACE => "DELETE_AND_REPLACE" | HOOK_QUARANTINE => "QUARANTINE" end.

(** The orders of [sort.Slice]. *)
Definition vm_le (a b : vmState) : Prop := vm_id a <= vm_id b.
#[export] Instance vm_le_dec : RelDecision vm_le := fun a b => decide (vm_id a <= vm_id b).

Definition pool_le (a b : Pool) : Prop :=
  let ra := sp_Ref (pool_Spec a) in let rb := sp_Ref (pool_Spec b) in
  if decide (ref_Namespace ra = ref_Namespace rb) then string_le (ref_Name ra) (ref_Name rb)
  else string_le (ref_Namespace ra) (ref_Namespace rb).
#[export] Instance pool_le_dec : RelDecision pool_le.
Proof. intros a b. unfold pool_le. destruct (decide _); apply _. Defined.

Section Ops.
Context (cfg : FakeConfig) (FormatRFC3339Nano : time -> string).

Definition checkNamespace (ns : string) : option rpc_error :=
  if negb (String.eqb (fc_Namespace cfg) "") && negb (String.eqb ns (fc_Namespace cfg))
  then Some (RStatus InvalidArgument ("namespace " +:+ ns +:+ " is not served by this pool manager (only " +:+ fc_Namespace cfg +:+ ")"))
  else None.

Definition poolLocked (ref : PoolRef) (s : PM) : rres (Z * poolState) :=
  match checkNamespace (ref_Namespace ref) with
  | Some e => RErr e
  | None =>
      match lookupPool ref s with
      | None => errNotFound ("pool " +:+ PoolRef_String ref +:+ " not found")
      | Some aps => ROk aps
      end
  end.

Definition kickReconcile (s : PM) : PM := s <| kick := true |>.

(** ** PoolAdmin (ops.go) *)
Definition createPool (spec : PoolSpec) (s : PM) : PM * rres Pool :=
  match validateSpec spec with
  | RErr e => (s, RErr e)
  | ROk spec =>
      match checkNamespace (ref_Namespace (sp_Ref spec)) with
      | Some e => (s, RErr e)
      | None =>
          match pools s !! sp_Ref spec with
          | Some _ => (s, RErr (RStatus AlreadyExists ("pool " +:+ PoolRef_String (sp_Ref spec) +:+ " already exists")))
          | None =>
              let a := nextPool s in
              let ps := {| po_key := sp_Ref spec; po_spec := spec; po_nextEvent := 0; po_rr := 0; po_fresh := true; po_warned := ∅ |} in
              (kickReconcile (s <| nextPool := a + 1 |> <| poolObjs := <[a := ps]> (poolObjs s) |>
                                <| pools := <[sp_Ref spec := a]> (pools s) |>),
               ROk {| pool_Spec := spec; pool_Status := {| Available := 0; Leased := 0; Provisioning := 0; Quarantined := 0 |} |})
          end
      end
  end.

Definition updatePool (spec : PoolSpec) (s : PM) : PM * rres Pool :=
  match validateSpec spec with
  | RErr e => (s, RErr e)
  | ROk spec =>
      match poolLocked (sp_Ref spec) s with
      | RErr e => (s, RErr e)
      | ROk (a, ps) =>
          (kickReconcile (upd_pool a (fun ps => ps <| po_spec := spec |> <| po_fresh := true |>) s),
           ROk {| pool_Spec := spec; pool_Status := counts_status (countsLocked (po_key ps) s) |})
      end
  end.

Definition vms_of (key : PoolRef) (s : PM) : list vmState :=
  merge_sort vm_le (filter (fun vm => vm_pool vm = key) (map_to_list (live s)).*2).

(** The critical section of [deletePool]: the MicroVMs it then deletes from
    their Hosts, in order. *)
Definition deletePool_locked (ref : PoolRef) (s : PM) : PM * rres (list Z) :=
  match poolLocked ref s with
  | RErr e => (s, RErr e)
  | ROk (a, ps) =>
      if existsb (fun kv => bool_decide (lr_Pool kv.2 = po_key ps)) (map_to_list (leases s))
      then (s, RErr (RStatus FailedPrecondition ("pool " +:+ PoolRef_String (po_key ps) +:+ " has outstanding lease; release it first")))
      else
        let doomed := filter (fun vm => vm_uid vm <> "") (vms_of (po_key ps) s) in
        let s := fold_left (fun s vm => emitLocked (po_key ps) (vm_uid vm) VM_DELETED_ON_POOL_DELETE [("host", JStr (vm_host vm))] s) doomed s in
        (s <| pools := delete (po_key ps) (pools s) |>, ROk (vm_id <$> doomed))
  end.

Definition getPool (ref : PoolRef) (s : PM) : rres Pool :=
  match poolLocked ref s with
  | RErr e => RErr e
  | ROk (_, ps) => ROk {| pool_Spec := po_spec ps; pool_Status := counts_status (countsLocked (po_key ps) s) |}
  end.

Definition listPools (namespace : string) (s : PM) : list Pool :=
  merge_sort pool_le
    (omap (fun kv : PoolRef * Z =>
       if negb (String.eqb namespace "") && negb (String.eqb (ref_Namespace kv.1) namespace) then None
       else (fun ps => {| pool_Spec := po_spec ps; pool_Status := counts_status (countsLocked kv.1 s) |}) <$> poolObjs s !! kv.2)
     (map_to_list (pools s))).

(** ** Placement and provisioning *)
Definition pickHostLocked (a : Z) (ps : poolState) (s : PM) : PM * result string :=
  match candidates ps s with
  | [] => (s, Err (EWrap ("pool " +:+ PoolRef_String (po_key ps) +:+ " has no known host among flintlock_hosts") [ESentinel HostErrUnknownHost]))
  | c :: cs =>
      match fc_Placement cfg with
      | Some PlacementRoundRobin =>
          (upd_pool a (fun ps => ps <| po_rr := po_rr ps + 1 |>) s,
           Ok (nth (Z.to_nat (po_rr ps mod Z.of_nat (S (length cs)))) (c :: cs) c))
      | _ => (s, Ok (least (fun h => perHost (po_key ps) h s) c cs))
      end
  end.

(** The loop of [provisionNLocked]. *)
Fixpoint reserve (n : nat) (a : Z) (s : PM) : PM * list Z :=
  match n, poolObjs s !! a with
  | S n, Some ps =>
      match pickHostLocked a ps s with
      | (s, Err _) => (s, [])
      | (s, Ok host) =>
          let id := nextVM s + 1 in
          let vm := {| vm_id := id; vm_uid := ""; vm_pool := po_key ps; vm_host := host; vm_phase := PROVISIONING;
                       vm_leaseID := ""; vm_deleteEvent := None; vm_deleteInFlight := false; vm_released := false;
                       vm_createdAt := now s; vm_updated := now s |} in
          let s := s <| nextVM := id |> <| vmObjs := <[id := vm]> (vmObjs s) |> <| vms := {[id]} ∪ vms s |> in
          let '(s, l) := reserve n a s in (s, id :: l)
      end
  | _, _ => (s, [])
  end.

(** Whether the control loop runs. *)
Definition running (s : PM) : bool := negb (stopped s) && bool_decide (run s = Some false).

Definition provisionNLocked (a : Z) (n : Z) (reason : string) (s : PM) : PM * list Z :=
  if (n <=? 0) || negb (running s) then (s, []) else
  match reserve (Z.to_nat n) a s, poolObjs s !! a with
  | (s, []), _ => (s, [])
  | (s, l), Some ps =>
      (emitLocked (po_key ps) "" POOL_REPLENISHING [("count", JInt (Z.of_nat (length l))); ("reason", JStr reason)] s, l)
  | (s, l), None => (s, l)
  end.

(** ** Claiming (ops.go) *)
Definition claimResultLocked (vm : vmState) (leaseID : string) (s : PM) : claimResult :=
  {| cr_leaseID := leaseID; cr_vmUID := vm_uid vm;
     cr_host := if fc_OmitHostOnClaim cfg then None
                else Some {| hr_Name := vm_host vm; hr_Address := hostAddress (vm_host vm) s |};
     cr_hostName := vm_host vm |}.

Definition vm_at (uid : string) (s : PM) : option vmState := vmByUID s !! uid ≫= (fun v => vmObjs s !! v).

Definition replayLocked (o : list string) (ref : PoolRef) (requestID : string) (s : PM) : option (rres claimResult) :=
  if String.eqb requestID "" then None else
  match list_find (fun rec => lr_RequestID rec = requestID)
          (omap (fun id => leases s !! id) (arrange o (map_to_list (leases s)).*1)) with
  | None => None
  | Some (_, rec) =>
      if negb (bool_decide (lr_Pool rec = ref))
      then Some (RErr (RStatus InvalidArgument ("request_id was used to claim from pool " +:+ PoolRef_String (lr_Pool rec) +:+ ", not " +:+ PoolRef_String ref)))
      else
        let aborted := RErr (RStatus Aborted ("lease " +:+ lr_LeaseID rec +:+ " is being released, retry")) in
        match vm_at (lr_VMUID rec) s with
        | None => Some aborted
        | Some vm => if vm_released vm || bool_decide (vm_phase vm = DELETING) then Some aborted
                     else Some (ROk (claimResultLocked vm (lr_LeaseID rec) s))
        end
  end.

Definition claimVM_begin (o : list string) (ref : PoolRef) (requestID : string) (s : PM) : PM * claim_next :=
  match replayLocked o ref requestID s with
  | Some r => (s, ClaimReply r)
  | None =>
      match poolLocked ref s with
      | RErr e => (s, ClaimReply (RErr e))
      | ROk (a, ps) =>
          match oldestAvailableLocked (po_key ps) s with
          | None => (s, ClaimReply (RErr (RStatus ResourceExhausted ("no available vm in pool " +:+ PoolRef_String (po_key ps)))))
          | Some vm => (setPhaseLocked (vm_id vm) PRE_LEASE_HOOK_RUNNING s, ClaimHooks (vm_id vm) a (sp_PreLeaseCommands (po_spec ps)))
          end
      end
  end.

(** The second critical section; [leaseID] is what [newLeaseID] returns. *)
Definition claimVM_grant (leaseID : string) (v a : Z) (requestID : string) (s : PM) : PM * rres claimResult * list Z :=
  match vmObjs s !! v, poolObjs s !! a with
  | Some vm, Some ps =>
      if negb (aliveLocked v s)
      then (s, errNotFound ("pool " +:+ PoolRef_String (po_key ps) +:+ " was deleted during the claim"), [])
      else
        let rec := {| lr_LeaseID := leaseID; lr_VMUID := vm_uid vm; lr_Pool := po_key ps; lr_ClaimedAt := now s;
                      lr_LastHeartbeatAt := now s;
                      lr_ExpiresAt := time_Add (now s) (sp_HeartbeatExpiryThreshold (po_spec ps));
                      lr_RequestID := requestID |} in
        let s := s <| leases := <[leaseID := rec]> (leases s) |> in
        let s := upd_vm v (fun vm => vm <| vm_leaseID := leaseID |>) s in
        let s := setPhaseLocked v LEASED s in
        let s := emitLocked (po_key ps) (vm_uid vm) VM_CLAIMED [("host", JStr (vm_host vm)); ("lease_id", JStr leaseID)] s in
        let '(s, started) := provisionNLocked a (onClaimed (strategyOf (po_spec ps))) "claim" s in
        if 0 <? fl_LoseClaimResponses (faults s)
        then (s <| faults := (faults s) <| fl_LoseClaimResponses := fl_LoseClaimResponses (faults s) - 1 |> |>,
              RErr (RStatus Unavailable "fault injection: claim response lost"), started)
        else (s, ROk (claimResultLocked vm leaseID s), started)
  | _, _ => (s, errNotFound "pool was deleted during the claim", [])
  end.

Definition heartbeat (leaseID : string) (s : PM) : PM * rres time :=
  if fl_RefuseHeartbeats (faults s)
  then (s, errNotFound ("lease " +:+ leaseID +:+ " not found (fault injection: heartbeats refused)")) else
  match leases s !! leaseID with
  | None => (s, errNotFound ("lease " +:+ leaseID +:+ " not found"))
  | Some rec =>
      match lookupPool (lr_Pool rec) s with
      | None => (s, errNotFound ("pool " +:+ PoolRef_String (lr_Pool rec) +:+ " of lease " +:+ leaseID +:+ " not found"))
      | Some (_, ps) =>
          let expires := time_Add (now s) (sp_HeartbeatExpiryThreshold (po_spec ps)) in
          (s <| leases := <[leaseID := rec <| lr_LastHeartbeatAt := now s |> <| lr_ExpiresAt := expires |>]> (leases s) |>,
           ROk expires)
      end
  end.

(** The critical section of [releaseVM]: the answer, or the MicroVM to delete. *)
Definition releaseVM_begin (leaseID : string) (s : PM) : PM * (rres unit + Z) :=
  match leases s !! leaseID with
  | None => (s, inl (errNotFound ("lease " +:+ leaseID +:+ " not found")))
  | Some rec =>
      match vm_at (lr_VMUID rec) s with
      | None => (dropLeaseLocked leaseID s, inl (ROk tt))
      | Some vm =>
          let s := if vm_released vm then s
                   else emitLocked (lr_Pool rec) (vm_uid vm) VM_RELEASED [("lease_id", JStr leaseID)]
                          (upd_vm (vm_id vm) (fun vm => vm <| vm_released := true |>) s) in
          (s, inr (vm_id vm))
      end
  end.

Definition unavailable (s : PM) : option rpc_error :=
  if negb (time_IsZero (unavailableUntil s)) && time_Before (now s) (unavailableUntil s)
  then Some (RStatus Unavailable "fault injection: pool manager unavailable") else None.
End Ops.
