(* ===== verification/FakeLoop.v ===== *)
(** * internal/poolmgr/fake: the control loop, provisioning and deletion

    reconcile.go, hooks.go and the lifecycle of fake.go, one definition per
    critical section, and the polling and exec loops with fuel. *)
From S2P Require Import Prelude GoModel PoolTypes Spec PoolClient FakePool FakeOps.

Definition createPollInterval : duration := 250 * millisecond.
Definition defaultReconcileInterval : duration := second.
Definition defaultReadyTimeout : duration := 60 * second.
Definition defaultEventReplay : Z := 100.

(** ** New *)
Definition fake_withDefaults (c : FakeConfig) : FakeConfig :=
  {| fc_Listen := if String.eqb (fc_Listen c) "" then ":0" else fc_Listen c;
     fc_Placement := match fc_Placement c with None => Some PlacementLeastVMs | p => p end;
     fc_ReconcileInterval := if fc_ReconcileInterval c <=? 0 then defaultReconcileInterval else fc_ReconcileInterval c;
     fc_ReadyTimeout := if fc_ReadyTimeout c <=? 0 then defaultReadyTimeout else fc_ReadyTimeout c;
     fc_EventReplay := if fc_EventReplay c <=? 0 then defaultEventReplay else fc_EventReplay c;
     fc_OmitHostOnClaim := fc_OmitHostOnClaim c; fc_Namespace := fc_Namespace c |}.

(** [New] at time [t], with the Hosts [h]. *)
Definition New (c : FakeConfig) (t : time) (h : Hosts) : PM :=
  {| faults := noFaults; unavailableUntil := 0; poolObjs := ∅; nextPool := 0; pools := ∅; vmObjs := ∅; vms := ∅;
     vmByUID := ∅; leases := ∅; nextVM := 0; run := None; started := false; stopped := false; serving := false;
     events := newEventBus (fc_EventReplay (fake_withDefaults c)); kick := false; now := t; hosts := h |}.

Section Loop.
Context (cfg : FakeConfig) (FormatRFC3339Nano : time -> string).

(** ** Deletion (reconcile.go) *)
Inductive del_next :=
  | DelDone
  | DelInFlight
  | DelHost (host uid : string).

Definition deleteVM_begin (v : Z) (event : option EventType) (s : PM) : PM * del_next :=
  match vmObjs s !! v with
  | None => (s, DelDone)
  | Some vm =>
      if negb (bool_decide (v ∈ vms s)) then (s, DelDone) else
      let s := setPhaseLocked v DELETING s in
      let s := match event with Some _ => upd_vm v (fun vm => vm <| vm_deleteEvent := event |>) s | None => s end in
      if vm_deleteInFlight vm then (s, DelInFlight)
      else (upd_vm v (fun vm => vm <| vm_deleteInFlight := true |>) s, DelHost (vm_host vm) (vm_uid vm))
  end.

(** [deleteOnHost]; [answer] is what DeleteMicroVM returns. *)
Definition deleteOnHost (host uid : string) (answer : option error) (s : PM) : option error :=
  if String.eqb uid "" then None else
  match hostClient host s with
  | Err e => Some e
  | Ok _ =>
      match answer with
      | Some e => if errors_Is e HostErrNotFound then None else Some (EWrap ("delete microvm " +:+ uid +:+ " on " +:+ host) [e])
      | None => None
      end
  end.

Definition finishDeletionLocked (v : Z) (s : PM) : PM * list Z :=
  match vmObjs s !! v with
  | None => (s, [])
  | Some vm =>
      if negb (bool_decide (v ∈ vms s)) then (s, []) else
      let s := s <| vms := vms s ∖ {[v]} |> in
      let s := if String.eqb (vm_uid vm) "" then s else s <| vmByUID := delete (vm_uid vm) (vmByUID s) |> in
      let s := if String.eqb (vm_leaseID vm) "" then s else dropLeaseLocked (vm_leaseID vm) s in
      let payload := ("host", JStr (vm_host vm)) ::
                     (if String.eqb (vm_leaseID vm) "" then [] else [("lease_id", JStr (vm_leaseID vm))]) in
      match lookupPool (vm_pool vm) s with
      | None => (s, [])
      | Some (a, ps) =>
          let s := match vm_deleteEvent vm with Some e => emitLocked (vm_pool vm) (vm_uid vm) e payload s | None => s end in
          provisionNLocked cfg a (onDeleted (strategyOf (po_spec ps))) "vm deleted" s
      end
  end.

(** The critical section after the Host call; [err] is what it returned. *)
Definition deleteVM_end (v : Z) (err : option error) (s : PM) : PM * list Z :=
  let s := upd_vm v (fun vm => vm <| vm_deleteInFlight := false |>) s in
  match err with
  | Some _ => (s, [])
  | None => finishDeletionLocked v s
  end.

(** ** tick *)
Definition tick_lease (t : time) (st : PM * list Z) (id : string) : PM * list Z :=
  let '(s, expired) := st in
  match leases s !! id with
  | None => st
  | Some rec =>
      match lookupPool (lr_Pool rec) s with
      | None => st
      | Some (a, ps) =>
          if negb (time_After (lr_ExpiresAt rec) t) then
            let s := dropLeaseLocked id s in
            (s, match vm_at (lr_VMUID rec) s with
                | Some vm => if bool_decide (vm_phase vm = LEASED) then expired ++ [vm_id vm] else expired
                | None => expired
                end)
          else if (time_Sub (lr_ExpiresAt rec) t <=? warningWindow (po_spec ps))
                  && negb (default 0 (po_warned ps !! id) =? UnixNano (lr_ExpiresAt rec))
          then (emitLocked (po_key ps) (lr_VMUID rec) VM_EXPIRING_SOON
                  [("expires_at", JStr (FormatRFC3339Nano (lr_ExpiresAt rec))); ("lease_id", JStr id)]
                  (upd_pool a (fun ps => ps <| po_warned := <[id := UnixNano (lr_ExpiresAt rec)]> (po_warned ps) |>) s), expired)
          else st
      end
  end.

Definition pending_deletions (s : PM) : list Z :=
  vm_id <$> filter (fun vm => vm_phase vm = DELETING /\ vm_uid vm <> "" /\ vm_deleteInFlight vm = false)
              (map_to_list (live s)).*2.

Definition tick_pool (st : PM * list Z) (key : PoolRef) : PM * list Z :=
  let '(s, started) := st in
  match lookupPool key s with
  | None => st
  | Some (a, ps) =>
      let c := countsLocked (po_key ps) s in
      let deficit := tickDeficit (strategyOf (po_spec ps)) c in
      let s := if (0 <? deficit) && negb (po_fresh ps)
               then emitLocked (po_key ps) "" POOL_SIZE_BELOW_TARGET
                      [("available", JInt (c_available c)); ("leased", JInt (c_leased c));
                       ("provisioning", JInt (c_provisioning c)); ("quarantined", JInt (c_quarantined c));
                       ("target", JInt (sp_Size (po_spec ps)))] s
               else s in
      let s := upd_pool a (fun ps => ps <| po_fresh := false |>) s in
      let '(s, l) := provisionNLocked cfg a deficit "tick" s in
      (s, started ++ l)
  end.

(** The critical section of [tick]; [t] is the time read before it, the
    other arguments the orders its maps are ranged over. *)
Record tick_out := { to_expired : list Z; to_pending : list Z; to_started : list Z }.
Definition tick (t : time) (ol : list string) (op : list PoolRef) (s : PM) : PM * tick_out :=
  let '(s, expired) := fold_left (tick_lease t) (arrange ol (map_to_list (leases s)).*1) (s, []) in
  let pending := pending_deletions s in
  let '(s, started) := fold_left tick_pool (arrange op (map_to_list (pools s)).*1) (s, []) in
  (s, {| to_expired := expired; to_pending := pending; to_started := started |}).

(** ** The provisioning pipeline *)

(** The critical section before CreateMicroVM: the template and the create
    commands, or nothing when the Pool is gone. *)
Definition provision_spec (v : Z) (s : PM) : option (option MicroVMSpec * list string) :=
  match vmObjs s !! v with
  | None => None
  | Some vm => match lookupPool (vm_pool vm) s with
               | Some (_, ps) => Some (sp_Template (po_spec ps), sp_CreateCommands (po_spec ps))
               | None => None
               end
  end.

Definition dropReserved (v : Z) (s : PM) : PM := s <| vms := vms s ∖ {[v]} |>.

(** The critical section after CreateMicroVM answered [uid]. *)
Definition provision_record (v : Z) (uid : string) (s : PM) : PM * bool :=
  match vmObjs s !! v with
  | Some vm =>
      if negb (aliveLocked v s) then (s, false) else
      let s := upd_vm v (fun vm => vm <| vm_uid := uid |> <| vm_updated := now s |>) s in
      let s := s <| vmByUID := <[uid := v]> (vmByUID s) |> in
      (emitLocked (vm_pool vm) uid VM_PROVISIONED [("host", JStr (vm_host vm))] s, true)
  | None => (s, false)
  end.

Definition transition (v : Z) (phase : VMPhase) (s : PM) : PM * bool :=
  if negb (aliveLocked v s) then (s, false) else (setPhaseLocked v phase s, true).

Definition provision_available (v : Z) (uid : string) (s : PM) : PM * bool :=
  match vmObjs s !! v with
  | Some vm =>
      if negb (aliveLocked v s) then (s, false)
      else (emitLocked (vm_pool vm) uid VM_AVAILABLE [("host", JStr (vm_host vm))] (setPhaseLocked v AVAILABLE s), true)
  | None => (s, false)
  end.

(** The critical section of [applyHookFailurePolicy]; true when the MicroVM
    is then deleted. *)
Definition applyHookFailurePolicy (v : Z) (hook : HookKind) (cause : string) (s : PM) : PM * bool :=
  match vmObjs s !! v with
  | None => (s, false)
  | Some vm =>
      match lookupPool (vm_pool vm) s with
      | None => (s, false)
      | Some (_, ps) =>
          if negb (aliveLocked v s) then (s, false) else
          let policy := sp_HookFailurePolicy (po_spec ps) in
          let s := upd_vm v (fun vm => vm <| vm_leaseID := "" |>) s in
          let s := emitLocked (vm_pool vm) (vm_uid vm) VM_HOOK_FAILED
                     [("error", JStr cause); ("hook", JStr (HookKind_String hook)); ("policy", JStr (policy_String policy))] s in
          match policy with
          | HOOK_QUARANTINE => (setPhaseLocked v QUARANTINED s, false)
          | _ => (setPhaseLocked v DELETING s, true)
          end
      end
  end.

(** ** Hooks (hooks.go) *)
Definition zeroRef : PoolRef := {| ref_Name := ""; ref_Namespace := "" |}.
Definition hookFailure_matches (key : PoolRef) (kind : HookKind) (hf : HookFailure) : bool :=
  bool_decide (hf_Hook hf = kind) && (0 <? hf_Remaining hf)
  && (bool_decide (hf_Pool hf = zeroRef) || bool_decide (hf_Pool hf = key)).

Fixpoint consume (key : PoolRef) (kind : HookKind) (l : list HookFailure) : list HookFailure * bool :=
  match l with
  | [] => ([], false)
  | hf :: l =>
      if hookFailure_matches key kind hf then
        (if hf_Remaining hf - 1 =? 0 then l
         else {| hf_Pool := hf_Pool hf; hf_Hook := hf_Hook hf; hf_Remaining := hf_Remaining hf - 1 |} :: l, true)
      else let '(l, b) := consume key kind l in (hf :: l, b)
  end.
Definition consumeHookFailure (key : PoolRef) (kind : HookKind) (s : PM) : PM * bool :=
  let '(l, b) := consume key kind (fl_HookFailures (faults s)) in
  (s <| faults := (faults s) <| fl_HookFailures := l |> |>, b).

(** The responses of one ExecCommand stream and how it ends. *)
Inductive exec_msg := ExecStdout | ExecStderr | ExecError (msg : string) | ExecExit (code : Z).
Inductive exec_end := ExecEOF | ExecFail (e : error).
Fixpoint execHook (msgs : list exec_msg) (fin : exec_end) : result Z :=
  match msgs with
  | [] => match fin with
          | ExecEOF => Err (ENew "exec stream closed before exit code")
          | ExecFail e => Err (EWrap "exec stream" [e])
          end
  | ExecError msg :: _ => Err (ENew ("exec error: " +:+ msg))
  | ExecExit code :: _ => Ok code
  | (ExecStdout | ExecStderr) :: msgs => execHook msgs fin
  end.

(** The loop of [runHooks] over the commands. *)
Fixpoint runCommands (exec : string -> result Z) (kind : HookKind) (cmds : list string) : option error :=
  match cmds with
  | [] => None
  | cmd :: cmds =>
      match exec cmd with
      | Err e => Some (EWrap (HookKind_String kind +:+ " hook " +:+ cmd) [e])
      | Ok code => if negb (code =? 0) then Some (ENew (HookKind_String kind +:+ " hook " +:+ cmd +:+ ": exit code"))
                   else runCommands exec kind cmds
      end
  end.

(** [isCtxErr] on the errors the sources produce. *)
Definition isCtxErr (e : error) : bool := errors_Is e CtxCanceled || errors_Is e CtxDeadlineExceeded.

(** Polling: [probe i] is the answer of round [i], [Some r] ends the loop;
    [clockAt i] is the time it is read at after round [i]; [ctx i] is the
    context's error when it ends the wait of round [i].  [None] is out of fuel. *)
Fixpoint pollLoop (probe : nat -> option (option error)) (clockAt : nat -> time) (ctx : nat -> option error)
    (timeoutErr : error) (deadline : time) (fuel i : nat) : option (option error) :=
  match fuel with
  | O => None
  | S fuel =>
      match probe i with
      | Some r => Some r
      | None =>
          if negb (time_Before (clockAt i) deadline) then Some (Some timeoutErr)
          else match ctx i with
               | Some e => Some (Some e)
               | None => pollLoop probe clockAt ctx timeoutErr deadline fuel (S i)
               end
      end
  end.

Inductive microvm_state := MV_PENDING | MV_CREATED | MV_FAILED | MV_DELETING.
Definition created_probe (uid : string) (r : result microvm_state) : option (option error) :=
  match r with
  | Err e => Some (Some (EWrap ("get microvm " +:+ uid) [e]))
  | Ok MV_CREATED => Some None
  | Ok MV_FAILED => Some (Some (ENew ("microvm " +:+ uid +:+ " failed to create")))
  | Ok (MV_PENDING | MV_DELETING) => None
  end.
Definition waitCreated (get : nat -> result microvm_state) (clockAt : nat -> time) (ctx : nat -> option error)
    (uid : string) (start : time) (fuel : nat) : option (option error) :=
  pollLoop (fun i => created_probe uid (get i)) clockAt ctx (ENew ("microvm " +:+ uid +:+ " not created within the timeout"))
    (time_Add start (fc_ReadyTimeout cfg)) fuel 0.

Definition ready_probe (r : result Z) : option (option error) :=
  match r with
  | Ok _ => Some None
  | Err e => if isCtxErr e then Some (Some e) else None
  end.
Definition waitGuestReady (exec : nat -> result Z) (clockAt : nat -> time) (ctx : nat -> option error)
    (uid : string) (start : time) (fuel : nat) : option (option error) :=
  pollLoop (fun i => ready_probe (exec i)) clockAt ctx (ENew ("guest agent of " +:+ uid +:+ " not ready within the timeout"))
    (time_Add start (fc_ReadyTimeout cfg)) fuel 0.

(** ** Lifecycle and control surface (fake.go) *)
Definition claimServe (s : PM) : PM * bool :=
  if serving s || started s || stopped s then (s, false) else (s <| serving := true |>, true).
Definition Run_begin (s : PM) : PM * bool :=
  if started s then (s, false) else (s <| started := true |> <| run := Some false |>, true).
(** The [cancel] and the critical section of [stop]. *)
Definition stop_cancel (s : PM) : PM := s <| run := Some true |>.
Definition stop_mark (s : PM) : PM := s <| stopped := true |>.
(** The two critical sections of [cleanupAll]. *)
Definition cleanupAll_list (o : list Z) (s : PM) : list Z := arrange o (elements (vms s)).
Definition cleanupAll_finish (o : list string) (s : PM) : PM :=
  fold_left (fun s id => dropLeaseLocked id s) (arrange o (map_to_list (leases s)).*1) s.

Definition SetFaults (f : Faults) (s : PM) : PM :=
  let s' := s <| faults := f <| fl_DropEventsStream := false |> |>
              <| unavailableUntil := if 0 <? fl_UnavailableFor f then time_Add (now s) (fl_UnavailableFor f) else 0 |> in
  if fl_DropEventsStream f then s' <| events := dropAll (events s') |> else s'.

Definition lease_le (a b : LeaseRecord) : Prop :=
  if decide (lr_ClaimedAt a = lr_ClaimedAt b) then string_le (lr_LeaseID a) (lr_LeaseID b)
  else lr_ClaimedAt a <= lr_ClaimedAt b.
#[local] Instance lease_le_dec : RelDecision lease_le.
Proof. intros a b. unfold lease_le. destruct (decide _); apply _. Defined.
Definition Leases (s : PM) : list LeaseRecord := merge_sort lease_le (map_to_list (leases s)).*2.

Record VMRecord := {
  vr_UID : string; vr_Pool : PoolRef; vr_Host : string; vr_Phase : VMPhase; vr_LeaseID : string;
  vr_CreatedAt : time; vr_UpdatedAt : time }.
Definition vmRecordsLocked (s : PM) : list VMRecord :=
  (fun vm => {| vr_UID := vm_uid vm; vr_Pool := vm_pool vm; vr_Host := vm_host vm; vr_Phase := vm_phase vm;
                vr_LeaseID := vm_leaseID vm; vr_CreatedAt := vm_createdAt vm; vr_UpdatedAt := vm_updated vm |})
  <$> merge_sort vm_le (map_to_list (live s)).*2.
End Loop.
