(* ===== verification/FakeSys.v ===== *)
(** * internal/poolmgr/fake: the goroutines of the fake Pool Manager

    A goroutine is its program counter: the critical section it takes next,
    with the local variables it carries there.  [run_thread] takes one step of
    one goroutine and returns the goroutines that replace it, its continuation
    and the ones it started; [step] runs the whole fake on one input from its
    environment: a request, a step of a goroutine with what the Host, the
    random source or the map iteration answered it, the passage of time, a
    change of the Hosts or of the injected faults, and the control loop.
    Host calls happen between critical sections and read nothing of the
    state, so an answer stands for them. *)
From S2P Require Import Prelude GoModel PoolTypes Spec PoolClient FakePool FakeOps FakeLoop.

(** What a sequence of deletions is for. *)
Inductive del_for :=
  | ForNobody
  | ForRelease
  | ForPool (key : PoolRef)
  | ForCleanup.

Inductive pc :=
  (* claimVM *)
  | PcClaim (ref : PoolRef) (requestID : string) (due : time)
  | PcClaimHooks (v a : Z) (requestID : string) (cmds : list string)
  | PcClaimExec (v a : Z) (requestID : string)
  | PcClaimGrant (v a : Z) (requestID : string)
  | PcClaimFailed (v : Z) (cause : string)
  (* deleteVM, over a list; [failed] is that an earlier one failed *)
  | PcDelete (vs : list Z) (ev : option EventType) (why : del_for) (failed : bool)
  | PcDeleteHost (v : Z) (host uid : string) (vs : list Z) (ev : option EventType) (why : del_for) (failed : bool)
  | PcDeleteEnd (v : Z) (err : option error) (vs : list Z) (ev : option EventType) (why : del_for) (failed : bool)
  (* tick, with the time it read *)
  | PcTick (t : time)
  (* provision *)
  | PcProv (v : Z)
  | PcProvSpec (v : Z)
  | PcProvCreate (v : Z) (cmds : list string)
  | PcProvDrop (v : Z)
  | PcProvRecord (v : Z) (uid : string) (cmds : list string)
  | PcProvWait (v : Z) (uid : string) (cmds : list string)
  | PcProvHooks (v : Z) (uid : string) (cmds : list string)
  | PcProvExec (v : Z) (uid : string)
  | PcProvAvail (v : Z) (uid : string)
  | PcProvFailed (v : Z) (cause : string)
  | PcOrphan (uid : string)
  (* cleanupAll *)
  | PcCleanup
  | PcCleanupEnd.

(** [th_tracked]: started with [spawn], so that [stop] waits for it. *)
Record thread := { th_tracked : bool; th_pc : pc }.

Inductive answer :=
  | AOk
  | AFail (e : error)
  | AUid (uid : string)
  | ALease (id : string)
  | AOrder (ol : list string) (op : list PoolRef) (ov : list Z).

Inductive reply :=
  | RepPool (r : rres Pool)
  | RepPools (r : list Pool)
  | RepUnit (r : rres unit)
  | RepTime (r : rres time)
  | RepClaim (r : rres claimResult).

Record Sys := { pm : PM; threads : list thread; replies : list reply }.
#[export] Instance eta_Sys : Eta Sys := fun r => {| pm := pm r; threads := threads r; replies := replies r |}.

Definition spawned (p : pc) : thread := {| th_tracked := true; th_pc := p |}.
Definition provisions (l : list Z) : list thread := (fun v => spawned (PcProv v)) <$> l.

(** What follows the last deletion of a sequence. *)
Definition deletions_done (why : del_for) (failed : bool) : list pc * option reply :=
  match why with
  | ForNobody => ([], None)
  | ForRelease =>
      ([], Some (RepUnit (if failed then RErr (RStatus Unavailable "vm cleanup pending, retry later") else ROk tt)))
  | ForPool key =>
      ([], Some (RepUnit (if failed
         then RErr (RStatus Unavailable ("pool " +:+ PoolRef_String key +:+ " deleted but some microvms remain pending deletion"))
         else ROk tt)))
  | ForCleanup => ([PcCleanupEnd], None)
  end.

Section Sys.
Context (cfg : FakeConfig) (FormatRFC3339Nano : time -> string).

(** One step of a goroutine: the state, the program counters that continue
    it, the goroutines it spawned and its reply.  [None]: the answer does not
    fit, or it is waiting. *)
Definition run_pc (p : pc) (ans : answer) (s : PM) : option (PM * list pc * list thread * option reply) :=
  match p, ans with
  | PcClaim ref rid due, AOrder ol _ _ =>
      if time_Before (now s) due then None else
      match claimVM_begin cfg ol ref rid s with
      | (s, ClaimReply r) => Some (s, [], [], Some (RepClaim r))
      | (s, ClaimHooks v a cmds) => Some (s, [PcClaimHooks v a rid cmds], [], None)
      end
  | PcClaim _ _ _, AFail _ => Some (s, [], [], Some (RepClaim (RErr (RStatus Canceled ""))))
  | PcClaimHooks v a rid cmds, AOk =>
      match vmObjs s !! v with
      | None => None
      | Some vm =>
          let '(s, fault) := consumeHookFailure (vm_pool vm) HookPreLease s in
          if fault then Some (s, [PcClaimFailed v "fault injection: pre_lease hook failed"], [], None)
          else match cmds with
               | [] => Some (s, [PcClaimGrant v a rid], [], None)
               | _ => Some (s, [PcClaimExec v a rid], [], None)
               end
      end
  | PcClaimExec v a rid, AOk => Some (s, [PcClaimGrant v a rid], [], None)
  | PcClaimExec v a rid, AFail _ => Some (s, [PcClaimFailed v "pre_lease hook"], [], None)
  | PcClaimGrant v a rid, ALease id =>
      let '(s, r, l) := claimVM_grant cfg id v a rid s in
      Some (s, [], provisions l, Some (RepClaim r))
  | PcClaimFailed v cause, AOk =>
      let '(s, del) := applyHookFailurePolicy v HookPreLease cause s in
      Some (s, if del then [PcDelete [v] None ForNobody false] else [], [],
            Some (RepClaim (RErr (RStatus Internal ("pre-lease hook: " +:+ cause)))))
  | PcDelete [] ev why failed, AOk =>
      let '(next, r) := deletions_done why failed in Some (s, next, [], r)
  | PcDelete (v :: vs) ev why failed, AOk =>
      match deleteVM_begin v ev s with
      | (s, DelDone) => Some (s, [PcDelete vs ev why failed], [], None)
      | (s, DelInFlight) => Some (s, [PcDelete vs ev why true], [], None)
      | (s, DelHost host uid) => Some (s, [PcDeleteHost v host uid vs ev why failed], [], None)
      end
  | PcDeleteHost v host uid vs ev why failed, AOk =>
      Some (s, [PcDeleteEnd v (deleteOnHost host uid None s) vs ev why failed], [], None)
  | PcDeleteHost v host uid vs ev why failed, AFail e =>
      Some (s, [PcDeleteEnd v (deleteOnHost host uid (Some e) s) vs ev why failed], [], None)
  | PcDeleteEnd v err vs ev why failed, AOk =>
      let '(s, l) := deleteVM_end cfg v err s in
      Some (s, [PcDelete vs ev why (failed || bool_decide (is_Some err))], provisions l, None)
  | PcTick t, AOrder ol op _ =>
      let '(s, out) := tick cfg FormatRFC3339Nano t ol op s in
      Some (s, [], ((fun v => spawned (PcDelete [v] (Some VM_DELETED_DUE_TO_EXPIRY) ForNobody false)) <$> to_expired out)
                   ++ ((fun v => spawned (PcDelete [v] None ForNobody false)) <$> to_pending out)
                   ++ provisions (to_started out), None)
  | PcProv v, AOk =>
      match vmObjs s !! v with
      | None => None
      | Some vm => match hostClient (vm_host vm) s with
                   | Err _ => Some (s, [PcProvDrop v], [], None)
                   | Ok _ => Some (s, [PcProvSpec v], [], None)
                   end
      end
  | PcProvSpec v, AOk =>
      match provision_spec v s with
      | None => Some (s, [PcProvDrop v], [], None)
      | Some (_, cmds) => Some (s, [PcProvCreate v cmds], [], None)
      end
  | PcProvCreate v cmds, AFail _ => Some (s, [PcProvDrop v], [], None)
  | PcProvCreate v cmds, AUid uid =>
      Some (s, [if String.eqb uid "" then PcProvDrop v else PcProvRecord v uid cmds], [], None)
  | PcProvDrop v, AOk => Some (dropReserved v s, [], [], None)
  | PcProvRecord v uid cmds, AOk =>
      let '(s, alive) := provision_record v uid s in
      (* the [ctx.Err] check that follows *)
      Some (s, if negb alive then [PcOrphan uid] else if bool_decide (run s = Some false) then [PcProvWait v uid cmds] else [], [], None)
  | PcProvWait v uid cmds, AOk =>
      let '(s, alive) := transition v CREATE_HOOK_RUNNING s in
      Some (s, [if alive then PcProvHooks v uid cmds else PcOrphan uid], [], None)
  | PcProvWait v uid cmds, AFail _ => Some (s, [PcProvFailed v "microvm not created"], [], None)
  | PcProvHooks v uid cmds, AOk =>
      match vmObjs s !! v with
      | None => None
      | Some vm =>
          let '(s, fault) := consumeHookFailure (vm_pool vm) HookCreate s in
          if fault then Some (s, [PcProvFailed v "fault injection: create hook failed"], [], None)
          else match cmds with
               | [] => Some (s, [PcProvAvail v uid], [], None)
               | _ => Some (s, [PcProvExec v uid], [], None)
               end
      end
  | PcProvExec v uid, AOk => Some (s, [PcProvAvail v uid], [], None)
  | PcProvExec v uid, AFail _ => Some (s, [PcProvFailed v "create hook"], [], None)
  | PcProvAvail v uid, AOk =>
      let '(s, alive) := provision_available v uid s in
      Some (s, if alive then [] else [PcOrphan uid], [], None)
  | PcProvFailed v cause, AOk =>
      let '(s, del) := applyHookFailurePolicy v HookCreate cause s in
      Some (s, if del then [PcDelete [v] None ForNobody false] else [], [], None)
  | PcOrphan _, _ => Some (s, [], [], None)
  | PcCleanup, AOrder _ _ ov => Some (s, [PcDelete (cleanupAll_list ov s) None ForCleanup false], [], None)
  | PcCleanupEnd, AOrder ol _ _ => Some (cleanupAll_finish ol s, [], [], None)
  | _, _ => None
  end.

Definition run_thread (th : thread) (ans : answer) (s : PM) : option (PM * list thread * option reply) :=
  match run_pc (th_pc th) ans s with
  | Some (s, next, new, r) => Some (s, ((fun p => {| th_tracked := th_tracked th; th_pc := p |}) <$> next) ++ new, r)
  | None => None
  end.

(** The requests the handlers serve; a handler's reply, or the goroutine it
    goes on as. *)
Inductive request :=
  | ReqCreate (spec : PoolSpec)
  | ReqUpdate (spec : PoolSpec)
  | ReqDelete (ref : PoolRef)
  | ReqGet (ref : PoolRef)
  | ReqList (namespace : string)
  | ReqClaim (ref : PoolRef) (requestID : string)
  | ReqHeartbeat (leaseID : string)
  | ReqRelease (leaseID : string).

Definition refuse (r : request) (e : rpc_error) : reply :=
  match r with
  | ReqCreate _ | ReqUpdate _ | ReqGet _ => RepPool (RErr e)
  | ReqList _ | ReqDelete _ | ReqRelease _ => RepUnit (RErr e)
  | ReqClaim _ _ => RepClaim (RErr e)
  | ReqHeartbeat _ => RepTime (RErr e)
  end.

Definition handle (r : request) (s : PM) : PM * list pc * option reply :=
  match unavailable s with
  | Some e => (s, [], Some (refuse r e))
  | None =>
      match r with
      | ReqCreate spec => let '(s, r) := createPool cfg spec s in (s, [], Some (RepPool r))
      | ReqUpdate spec => let '(s, r) := updatePool cfg spec s in (s, [], Some (RepPool r))
      | ReqDelete ref =>
          match deletePool_locked cfg ref s with
          | (s, RErr e) => (s, [], Some (RepUnit (RErr e)))
          | (s, ROk vs) => (s, [PcDelete vs None (ForPool ref) false], None)
          end
      | ReqGet ref => (s, [], Some (RepPool (getPool cfg ref s)))
      | ReqList ns => (s, [], Some (RepPools (listPools ns s)))
      | ReqClaim ref rid =>
          if (maxRequestIDLength <? String.length rid)%nat
          then (s, [], Some (RepClaim (RErr (RStatus InvalidArgument "request_id is too long"))))
          else (s, [PcClaim ref rid (time_Add (now s) (Z.max 0 (fl_ClaimLatency (faults s))))], None)
      | ReqHeartbeat id => let '(s, r) := heartbeat id s in (s, [], Some (RepTime r))
      | ReqRelease id =>
          match releaseVM_begin id s with
          | (s, inl r) => (s, [], Some (RepUnit r))
          | (s, inr v) => (s, [PcDelete [v] (Some VM_DELETED_ON_RELEASE) ForRelease false], None)
          end
      end
  end.

Inductive input :=
  | IRequest (r : request)
  | IStep (i : nat) (ans : answer)
  | IAdvance (t : time)
  | IHosts (h : Hosts)
  | IFaults (f : Faults)
  | IServe
  | IRun
  | ITick
  | ICancel
  | IStopped
  | ICleanup.

Definition handler (p : pc) : thread := {| th_tracked := false; th_pc := p |}.
Definition keep_reply (r : option reply) (l : list reply) : list reply := match r with Some r => r :: l | None => l end.

Definition step (i : input) (y : Sys) : option Sys :=
  let s := pm y in
  match i with
  | IRequest r =>
      let '(s, next, rep) := handle r s in
      Some {| pm := s; threads := (handler <$> next) ++ threads y; replies := keep_reply rep (replies y) |}
  | IStep n ans =>
      match threads y !! n with
      | None => None
      | Some th =>
          match run_thread th ans s with
          | None => None
          | Some (s, new, rep) =>
              Some {| pm := s; threads := take n (threads y) ++ new ++ drop (S n) (threads y);
                      replies := keep_reply rep (replies y) |}
          end
      end
  | IAdvance t => if now s <=? t then Some (y <| pm := s <| now := t |> |>) else None
  | IHosts h => Some (y <| pm := s <| hosts := h |> |>)
  | IFaults f => Some (y <| pm := SetFaults f s |>)
  | IServe => Some (y <| pm := (claimServe s).1 |>)
  | IRun => let '(s, ok) := Run_begin s in if ok then Some (y <| pm := s |> <| threads := handler (PcTick (now s)) :: threads y |>) else None
  | ITick => if bool_decide (is_Some (run s)) && negb (stopped s)
             then Some (y <| pm := s <| kick := false |> |> <| threads := handler (PcTick (now s)) :: threads y |>) else None
  | ICancel => if bool_decide (is_Some (run s)) then Some (y <| pm := stop_cancel s |>) else None
  | IStopped => if bool_decide (run s = Some true) then Some (y <| pm := stop_mark s |>) else None
  | ICleanup =>
      if stopped s && negb (existsb th_tracked (threads y))
      then Some (y <| threads := handler PcCleanup :: threads y |>) else None
  end.

Fixpoint steps (ins : list input) (y : Sys) : option Sys :=
  match ins with
  | [] => Some y
  | i :: ins => match step i y with Some y => steps ins y | None => None end
  end.

Definition Sys0 (t : time) (h : Hosts) : Sys := {| pm := New cfg t h; threads := []; replies := [] |}.

(** What the random source and the Hosts promise: a lease id is not empty and
    was never drawn before, and a Host never gives a uid out twice. *)
Definition env_ok (i : input) (y : Sys) : Prop :=
  match i with
  | IStep _ (ALease id) =>
      id <> "" /\ leases (pm y) !! id = None /\ forall v vm, vmObjs (pm y) !! v = Some vm -> vm_leaseID vm <> id
  | IStep _ (AUid uid) =>
      uid = "" \/ (forall v vm, vmObjs (pm y) !! v = Some vm -> vm_uid vm <> uid)
                  /\ (forall th w cmds, th ∈ threads y -> th_pc th <> PcProvRecord w uid cmds)
  | _ => True
  end.

Inductive reachable (t : time) (h : Hosts) : Sys -> Prop :=
  | reach_init : reachable t h (Sys0 t h)
  | reach_step i y y' : reachable t h y -> env_ok i y -> step i y = Some y' -> reachable t h y'.
End Sys.
