(* ===== verification/FakeInv.v ===== *)
(** * The fake Pool Manager: what every interleaving of its goroutines keeps

    The invariant of the state ([SI]) and of the goroutines ([TI]), the
    relation [evo] most critical sections stay within, and their preservation
    by every step.  The heart of it is ownership: at any time a MicroVM is
    held by at most one of a provisioning goroutine, a claim in progress, the
    set of AVAILABLE MicroVMs and a Lease. *)
From S2P Require Import Prelude GoModel PoolTypes Spec PoolClient FakePool FakeOps FakeLoop FakeSys.

(** ** Counting goroutines *)
Definition counted {A} `{EqDecision A} (f : pc -> option A) (x : A) (ths : list thread) : nat :=
  length (filter (fun th => f (th_pc th) = Some x) ths).

Section counted.
Context {A : Type} `{EqDecision A} (f : pc -> option A).

Lemma counted_app x l k : counted f x (l ++ k) = (counted f x l + counted f x k)%nat.
Proof. unfold counted. by rewrite filter_app, length_app. Qed.

Lemma counted_cons x th l : counted f x (th :: l) = ((if bool_decide (f (th_pc th) = Some x) then 1 else 0) + counted f x l)%nat.
Proof. unfold counted. rewrite filter_cons. case_decide; by case_bool_decide. Qed.

Lemma counted_perm x l k : l ≡ₚ k -> counted f x l = counted f x k.
Proof. intros H. unfold counted. by rewrite H. Qed.

Lemma counted_nil x : counted f x [] = 0%nat.
Proof. done. Qed.

Lemma counted_pos x th l : th ∈ l -> f (th_pc th) = Some x -> (1 <= counted f x l)%nat.
Proof.
  intros (l1 & l2 & ->)%list_elem_of_split Hf. rewrite counted_app, counted_cons, bool_decide_true by done. lia.
Qed.

Lemma counted_zero x l : counted f x l = 0%nat -> forall th, th ∈ l -> f (th_pc th) <> Some x.
Proof. intros H th Hin Hf. pose proof (counted_pos x th l Hin Hf). lia. Qed.
End counted.

#[export] Instance counted_Proper {A} `{EqDecision A} (f : pc -> option A) x : Proper ((≡ₚ) ==> (=)) (counted f x).
Proof. intros l k H. by apply counted_perm. Qed.

(** The MicroVM a goroutine owns, the one it is deleting, the uid it is about
    to record. *)
Definition owner (p : pc) : option Z :=
  match p with
  | PcClaimHooks v _ _ _ | PcClaimExec v _ _ | PcClaimGrant v _ _ | PcClaimFailed v _
  | PcProv v | PcProvSpec v | PcProvCreate v _ | PcProvDrop v | PcProvRecord v _ _ | PcProvWait v _ _
  | PcProvHooks v _ _ | PcProvExec v _ | PcProvAvail v _ | PcProvFailed v _ => Some v
  | _ => None
  end.
Definition deleter (p : pc) : option Z :=
  match p with PcDeleteHost v _ _ _ _ _ _ | PcDeleteEnd v _ _ _ _ _ => Some v | _ => None end.
Definition recorder (p : pc) : option string := match p with PcProvRecord _ uid _ => Some uid | _ => None end.

(** ** The invariant *)
Definition isAvail (vm : vmState) : nat := if decide (vm_phase vm = AVAILABLE) then 1%nat else 0%nat.
Definition isLeased (s : PM) (vm : vmState) : nat := match leases s !! vm_leaseID vm with Some _ => 1%nat | None => 0%nat end.

(** What a Lease says of its MicroVM. *)
Definition lease_of (s : PM) (id : string) (rec : LeaseRecord) (v : Z) (vm : vmState) : Prop :=
  vmObjs s !! v = Some vm /\ v ∈ vms s /\ vm_leaseID vm = id /\ vm_uid vm = lr_VMUID rec /\ vm_pool vm = lr_Pool rec.

Record SI (s : PM) : Prop := {
  si_id : forall v vm, vmObjs s !! v = Some vm -> vm_id vm = v /\ v <= nextVM s;
  si_vms : forall v, v ∈ vms s -> is_Some (vmObjs s !! v);
  si_pools : forall k a, pools s !! k = Some a -> exists ps, poolObjs s !! a = Some ps /\ po_key ps = k;
  si_addr : forall a, is_Some (poolObjs s !! a) -> a < nextPool s;
  si_byuid : forall u v, vmByUID s !! u = Some v ->
    u <> "" /\ v ∈ vms s /\ exists vm, vmObjs s !! v = Some vm /\ vm_uid vm = u;
  si_live : forall v vm, vmObjs s !! v = Some vm -> v ∈ vms s -> vm_uid vm <> "" -> vmByUID s !! vm_uid vm = Some v;
  si_uid : forall v vm v' vm', vmObjs s !! v = Some vm -> vmObjs s !! v' = Some vm' ->
    vm_uid vm = vm_uid vm' -> vm_uid vm <> "" -> v = v';
  si_avail : forall v vm, vmObjs s !! v = Some vm -> vm_phase vm = AVAILABLE -> vm_uid vm <> "";
  si_nolease : leases s !! "" = None;
  si_lid : forall v vm v' vm', vmObjs s !! v = Some vm -> vmObjs s !! v' = Some vm' ->
    vm_leaseID vm = vm_leaseID vm' -> vm_leaseID vm <> "" -> v = v';
  si_lease : forall id rec, leases s !! id = Some rec ->
    lr_LeaseID rec = id /\ is_Some (pools s !! lr_Pool rec) /\ lr_VMUID rec <> "" /\ exists v vm, lease_of s id rec v vm
}.

Definition thread_ok (s : PM) (th : thread) : Prop :=
  match th_pc th with
  | PcProv v | PcProvSpec v | PcProvCreate v _ | PcProvDrop v => exists vm, vmObjs s !! v = Some vm /\ vm_uid vm = ""
  | PcProvRecord v uid _ =>
      uid <> "" /\ (exists vm, vmObjs s !! v = Some vm /\ vm_uid vm = "")
      /\ (forall w vm, vmObjs s !! w = Some vm -> vm_uid vm <> uid)
  | PcProvWait v _ _ | PcProvHooks v _ _ | PcProvExec v _ | PcProvAvail v _ | PcProvFailed v _ | PcClaimFailed v _ =>
      exists vm, vmObjs s !! v = Some vm /\ vm_uid vm <> ""
  | PcClaimHooks v a _ _ | PcClaimExec v a _ | PcClaimGrant v a _ =>
      exists vm ps, vmObjs s !! v = Some vm /\ vm_uid vm <> "" /\ poolObjs s !! a = Some ps /\ po_key ps = vm_pool vm
  | PcDeleteHost v _ _ _ _ _ _ | PcDeleteEnd v _ _ _ _ _ => is_Some (vmObjs s !! v)
  | _ => True
  end.

Record TI (s : PM) (ths : list thread) : Prop := {
  ti_ok : Forall (thread_ok s) ths;
  ti_token : forall v vm, vmObjs s !! v = Some vm -> (counted owner v ths + isAvail vm + isLeased s vm <= 1)%nat;
  ti_flight : forall v vm, vmObjs s !! v = Some vm ->
    counted deleter v ths = if vm_deleteInFlight vm then 1%nat else 0%nat;
  ti_record : forall uid, (counted recorder uid ths <= 1)%nat
}.

#[export] Instance TI_Proper s : Proper ((≡ₚ) ==> iff) (TI s).
Proof.
  intros l k H. split; intros [H1 H2 H3 H4]; split; intros.
  - by rewrite <-H.
  - rewrite <-H; auto.
  - rewrite <-H; auto.
  - rewrite <-H; auto.
  - by rewrite H.
  - rewrite H; auto.
  - rewrite H; auto.
  - rewrite H; auto.
Qed.

(** ** Evolution

    What most critical sections do: MicroVMs keep their identity, none becomes
    AVAILABLE, Leases only go or move their expiry, and the MicroVMs of [N]
    are reserved. *)
Definition vm_core (vm : vmState) := (vm_id vm, vm_uid vm, vm_pool vm, vm_host vm, vm_leaseID vm).
Definition lease_core (r : LeaseRecord) := (lr_LeaseID r, lr_VMUID r, lr_Pool r).
Definition fresh_vm (v : Z) (vm : vmState) : Prop :=
  vm_id vm = v /\ vm_uid vm = "" /\ vm_leaseID vm = "" /\ vm_phase vm <> AVAILABLE /\ vm_deleteInFlight vm = false.

Definition vm_evo (vm vm' : vmState) : Prop :=
  vm_core vm' = vm_core vm /\ (vm_phase vm' = AVAILABLE -> vm_phase vm = AVAILABLE)
  /\ vm_deleteInFlight vm' = vm_deleteInFlight vm.

Record evo (N : list Z) (s s' : PM) : Prop := {
  evo_old : forall v vm, vmObjs s !! v = Some vm -> exists vm', vmObjs s' !! v = Some vm' /\ vm_evo vm vm';
  evo_new : forall v vm', vmObjs s' !! v = Some vm' -> vmObjs s !! v = None -> v ∈ N /\ fresh_vm v vm';
  evo_N : forall v, v ∈ N -> nextVM s < v <= nextVM s' /\ is_Some (vmObjs s' !! v);
  evo_nodup : NoDup N;
  evo_vms : forall v, v ∈ vms s' <-> v ∈ vms s \/ v ∈ N;
  evo_next : nextVM s <= nextVM s';
  evo_byuid : vmByUID s' = vmByUID s;
  evo_leases : forall id rec', leases s' !! id = Some rec' ->
    exists rec, leases s !! id = Some rec /\ lease_core rec' = lease_core rec;
  evo_pools : pools s' = pools s;
  evo_keys : forall a, po_key <$> poolObjs s' !! a = po_key <$> poolObjs s !! a;
  evo_addr : nextPool s' = nextPool s
}.

Lemma vm_evo_refl vm : vm_evo vm vm.
Proof. done. Qed.
Lemma vm_evo_trans a b c : vm_evo a b -> vm_evo b c -> vm_evo a c.
Proof. intros (H1 & H2 & H3) (H4 & H5 & H6). unfold vm_evo. rewrite H4, H6. auto. Qed.

Lemma evo_refl s : evo [] s s.
Proof.
  split; [|intros v vm' Hv Hn; by rewrite Hn in Hv|set_solver|constructor|set_solver|done|done|eauto|done|done|done].
  intros v vm Hv. exists vm. split; [done|apply vm_evo_refl].
Qed.

(** The ids in use are at most [nextVM]. *)
Definition bounded (s : PM) : Prop := forall v, is_Some (vmObjs s !! v) -> v <= nextVM s.

Lemma SI_bounded s : SI s -> bounded s.
Proof. intros HS v [vm Hv]. by apply (si_id s HS) in Hv as [_ ?]. Qed.

Lemma evo_bounded N s s' : evo N s s' -> bounded s -> bounded s'.
Proof.
  intros E HB v [vm Hv]. destruct (vmObjs s !! v) as [vm0|] eqn:E0.
  - pose proof (HB v ltac:(by exists vm0)). pose proof (evo_next _ _ _ E). lia.
  - apply (evo_new _ _ _ E) in Hv as [Hin _]; [|done]. apply (evo_N _ _ _ E) in Hin as [? _]. lia.
Qed.

Lemma evo_trans N1 N2 s1 s2 s3 : bounded s1 -> evo N1 s1 s2 -> evo N2 s2 s3 -> evo (N1 ++ N2) s1 s3.
Proof.
  intros HB E1 E2. pose proof (evo_bounded _ _ _ E1 HB) as HB2. split.
  - intros v vm Hv. destruct (evo_old _ _ _ E1 v vm Hv) as (vm2 & H2 & Hc).
    destruct (evo_old _ _ _ E2 v vm2 H2) as (vm3 & H3 & Hc'). exists vm3. split; [done|by eapply vm_evo_trans].
  - intros v vm' Hv Hn. destruct (vmObjs s2 !! v) as [vm2|] eqn:E.
    + destruct (evo_new _ _ _ E1 v vm2 E Hn) as (Hin & H1 & H2 & H3 & H4 & H5). split; [set_solver|].
      destruct (evo_old _ _ _ E2 v vm2 E) as (vm3 & H3' & Hc & Hp & Hf). rewrite Hv in H3'. injection H3' as <-.
      unfold vm_core in Hc. injection Hc as Hc1 Hc2 _ _ Hc5. unfold fresh_vm. split_and!; try congruence. auto.
    + destruct (evo_new _ _ _ E2 v vm' Hv E). set_solver.
  - intros v [Hin|Hin]%elem_of_app.
    + destruct (evo_N _ _ _ E1 v Hin) as [Hlt [vm2 H2]]. destruct (evo_old _ _ _ E2 v vm2 H2) as (vm3 & H3 & _).
      split; [|by exists vm3]. pose proof (evo_next _ _ _ E2). lia.
    + destruct (evo_N _ _ _ E2 v Hin) as [Hlt H2]. split; [|done]. pose proof (evo_next _ _ _ E1). lia.
  - apply NoDup_app. split_and!; [apply E1| |apply E2]. intros v H1 H2.
    destruct (evo_N _ _ _ E1 v H1) as [? _], (evo_N _ _ _ E2 v H2) as [? _]. lia.
  - intros v. rewrite (evo_vms _ _ _ E2), (evo_vms _ _ _ E1). set_solver.
  - pose proof (evo_next _ _ _ E1). pose proof (evo_next _ _ _ E2). lia.
  - by rewrite (evo_byuid _ _ _ E2), (evo_byuid _ _ _ E1).
  - intros id rec H3. destruct (evo_leases _ _ _ E2 id rec H3) as (rec2 & H2 & ->). by apply (evo_leases _ _ _ E1).
  - by rewrite (evo_pools _ _ _ E2), (evo_pools _ _ _ E1).
  - intros a. by rewrite (evo_keys _ _ _ E2), (evo_keys _ _ _ E1).
  - by rewrite (evo_addr _ _ _ E2), (evo_addr _ _ _ E1).
Qed.

(** A step that reserves nothing. *)
Lemma evo_then N s1 s2 s3 : bounded s1 -> evo [] s1 s2 -> evo N s2 s3 -> evo N s1 s3.
Proof. intros HB E1 E2. exact (evo_trans [] N s1 s2 s3 HB E1 E2). Qed.

(** What an evolution keeps: the invariant, with the reserved MicroVMs owned
    by the goroutines that provision them. *)
Lemma evo_vm_back N s s' v vm' :
  evo N s s' -> vmObjs s' !! v = Some vm' ->
  (exists vm, vmObjs s !! v = Some vm /\ vm_evo vm vm') \/ vmObjs s !! v = None /\ v ∈ N /\ fresh_vm v vm'.
Proof.
  intros E Hv. destruct (vmObjs s !! v) as [vm|] eqn:E0.
  - left. exists vm. split; [done|]. destruct (evo_old _ _ _ E v vm E0) as (vm2 & H2 & Hc). congruence.
  - right. split; [done|]. by apply (evo_new _ _ _ E).
Qed.

Lemma evo_N_new N s s' v : bounded s -> evo N s s' -> v ∈ N -> vmObjs s !! v = None.
Proof.
  intros HB E Hin. destruct (vmObjs s !! v) as [vm|] eqn:E0; [|done]. exfalso.
  pose proof (HB v ltac:(by exists vm)). destruct (evo_N _ _ _ E v Hin) as [? _]. lia.
Qed.

Lemma evo_key N s s' a ps' : evo N s s' -> poolObjs s' !! a = Some ps' -> exists ps, poolObjs s !! a = Some ps /\ po_key ps = po_key ps'.
Proof.
  intros E H. pose proof (evo_keys _ _ _ E a) as Hk. rewrite H in Hk. simpl in Hk.
  destruct (poolObjs s !! a) as [ps|]; [|done]. exists ps. split; [done|]. simpl in Hk. congruence.
Qed.
Lemma evo_key_fwd N s s' a ps : evo N s s' -> poolObjs s !! a = Some ps -> exists ps', poolObjs s' !! a = Some ps' /\ po_key ps' = po_key ps.
Proof.
  intros E H. pose proof (evo_keys _ _ _ E a) as Hk. rewrite H in Hk. simpl in Hk.
  destruct (poolObjs s' !! a) as [ps'|]; [|done]. exists ps'. split; [done|]. simpl in Hk. congruence.
Qed.

Ltac core_eq :=
  repeat match goal with
  | H : vm_core _ = vm_core _ |- _ => unfold vm_core in H; injection H as ? ? ? ? ?
  | H : lease_core _ = lease_core _ |- _ => unfold lease_core in H; injection H as ? ? ?
  end.

Lemma evo_SI N s s' : evo N s s' -> SI s -> SI s'.
Proof.
  intros E HS. pose proof (SI_bounded s HS) as HB. split.
  - intros v vm Hv. destruct (evo_vm_back _ _ _ _ _ E Hv) as [(vm0 & H0 & Hc & _ & _)|(_ & Hin & Hf)].
    + destruct (si_id s HS v vm0 H0). core_eq. pose proof (evo_next _ _ _ E). split; [congruence|lia].
    + split; [apply Hf|]. apply (evo_N _ _ _ E) in Hin as [? _]. lia.
  - intros v [Hv|Hv]%(evo_vms _ _ _ E); [|by apply (evo_N _ _ _ E)].
    destruct (si_vms s HS v Hv) as [vm Hvm]. destruct (evo_old _ _ _ E v vm Hvm) as (vm' & ? & _). by exists vm'.
  - intros k a. rewrite (evo_pools _ _ _ E). intros (ps & Hps & Hk)%(si_pools s HS).
    destruct (evo_key_fwd _ _ _ _ _ E Hps) as (ps' & ? & ?). exists ps'. split; [done|congruence].
  - intros a [ps' Hps]. rewrite (evo_addr _ _ _ E). apply (si_addr s HS).
    destruct (evo_key _ _ _ _ _ E Hps) as (ps & ? & _). by exists ps.
  - intros u v. rewrite (evo_byuid _ _ _ E). intros (Hu & Hin & vm & Hvm & Huid)%(si_byuid s HS).
    destruct (evo_old _ _ _ E v vm Hvm) as (vm' & H' & Hc & _). core_eq.
    split_and!; [done|apply (evo_vms _ _ _ E); by left|]. exists vm'. split; [done|congruence].
  - intros v vm Hv Hin Hu. rewrite (evo_byuid _ _ _ E).
    destruct (evo_vm_back _ _ _ _ _ E Hv) as [(vm0 & H0 & Hc & _ & _)|(_ & _ & Hf)]; [|destruct Hf as (_ & Hf & _); done].
    core_eq. apply (evo_vms _ _ _ E) in Hin as [Hin|Hin].
    + replace (vm_uid vm) with (vm_uid vm0) by congruence. apply (si_live s HS); [done|done|congruence].
    + by rewrite (evo_N_new _ _ _ _ HB E Hin) in H0.
  - intros v vm v' vm' Hv Hv' Heq Hne.
    destruct (evo_vm_back _ _ _ _ _ E Hv) as [(vm0 & H0 & Hc & _ & _)|(_ & _ & _ & Hf & _)]; [|congruence].
    destruct (evo_vm_back _ _ _ _ _ E Hv') as [(vm1 & H1 & Hc' & _ & _)|(_ & _ & _ & Hf & _)]; [|congruence].
    core_eq. apply (si_uid s HS v vm0 v' vm1); congruence.
  - intros v vm Hv Ha. destruct (evo_vm_back _ _ _ _ _ E Hv) as [(vm0 & H0 & Hc & Hp & _)|(_ & _ & _ & _ & _ & Hf & _)]; [|congruence].
    pose proof (si_avail s HS v vm0 H0 (Hp Ha)). core_eq. congruence.
  - destruct (leases s' !! "") as [rec|] eqn:El; [|done].
    destruct (evo_leases _ _ _ E _ _ El) as (rec0 & H0 & _). by rewrite (si_nolease s HS) in H0.
  - intros v vm v' vm' Hv Hv' Heq Hne.
    destruct (evo_vm_back _ _ _ _ _ E Hv) as [(vm0 & H0 & Hc & _ & _)|(_ & _ & _ & _ & Hf & _)]; [|congruence].
    destruct (evo_vm_back _ _ _ _ _ E Hv') as [(vm1 & H1 & Hc' & _ & _)|(_ & _ & _ & _ & Hf & _)]; [|congruence].
    core_eq. apply (si_lid s HS v vm0 v' vm1); congruence.
  - intros id rec Hl. destruct (evo_leases _ _ _ E _ _ Hl) as (rec0 & H0 & Hcl).
    destruct (si_lease s HS id rec0 H0) as (Hid & Hp & Hu & v & vm & Hv & Hin & Hlid & Huid & Hpool).
    destruct (evo_old _ _ _ E v vm Hv) as (vm' & Hv' & Hc & _). core_eq. rewrite (evo_pools _ _ _ E).
    split_and!; [congruence|congruence|congruence|]. exists v, vm'.
    split_and!; [done|apply (evo_vms _ _ _ E); by left|congruence..].
Qed.

Lemma thread_ok_evo N s s' th : evo N s s' -> thread_ok s th -> thread_ok s' th.
Proof.
  intros E. unfold thread_ok.
  assert (forall v (P : string -> Prop), (exists vm, vmObjs s !! v = Some vm /\ P (vm_uid vm)) -> exists vm, vmObjs s' !! v = Some vm /\ P (vm_uid vm)) as HP.
  { intros v P (vm & Hv & HPv). destruct (evo_old _ _ _ E v vm Hv) as (vm' & Hv' & Hc & _). core_eq.
    exists vm'. split; [done|]. congruence. }
  assert (forall v a, (exists vm ps, vmObjs s !! v = Some vm /\ vm_uid vm <> "" /\ poolObjs s !! a = Some ps /\ po_key ps = vm_pool vm)
     -> exists vm ps, vmObjs s' !! v = Some vm /\ vm_uid vm <> "" /\ poolObjs s' !! a = Some ps /\ po_key ps = vm_pool vm) as HC.
  { intros v a (vm & ps & Hv & Hu & Hps & Hk). destruct (evo_old _ _ _ E v vm Hv) as (vm' & Hv' & Hc & _). core_eq.
    destruct (evo_key_fwd _ _ _ _ _ E Hps) as (ps' & ? & ?). exists vm', ps'. split_and!; congruence. }
  assert (forall v, is_Some (vmObjs s !! v) -> is_Some (vmObjs s' !! v)) as HI.
  { intros v [vm Hv]. destruct (evo_old _ _ _ E v vm Hv) as (vm' & Hv' & _). by exists vm'. }
  destruct (th_pc th); auto; try (apply (HP _ (fun u => u = ""))); try (apply (HP _ (fun u => u <> ""))).
  intros (Hu & Hex & Hfr). split_and!; [done|by apply (HP _ (fun u => u = ""))|].
  intros w vm Hw. destruct (evo_vm_back _ _ _ _ _ E Hw) as [(vm0 & H0 & Hc & _)|(_ & _ & _ & Hf & _)]; [|congruence].
  core_eq. specialize (Hfr w vm0 H0). congruence.
Qed.

(** Goroutines only name MicroVMs that exist. *)
Lemma owner_exists s th v : thread_ok s th -> owner (th_pc th) = Some v -> is_Some (vmObjs s !! v).
Proof. unfold thread_ok. destruct (th_pc th); simpl; try done; intros Hok [= <-]; naive_solver. Qed.
Lemma deleter_exists s th v : thread_ok s th -> deleter (th_pc th) = Some v -> is_Some (vmObjs s !! v).
Proof. unfold thread_ok. destruct (th_pc th); simpl; try done; intros Hok [= <-]; naive_solver. Qed.

Lemma counted_none {A} `{EqDecision A} (f : pc -> option A) x ths :
  (forall th, th ∈ ths -> f (th_pc th) <> Some x) -> counted f x ths = 0%nat.
Proof.
  intros H. induction ths as [|th ths IH]; [done|]. rewrite counted_cons, bool_decide_false by (apply H; set_solver).
  apply IH. intros th' Hin. apply H. set_solver.
Qed.

Lemma counted_owner_None s ths v : Forall (thread_ok s) ths -> vmObjs s !! v = None -> counted owner v ths = 0%nat.
Proof.
  intros HF Hv. apply counted_none. intros th Hin Ho. rewrite Forall_forall in HF.
  destruct (owner_exists s th v (HF th Hin) Ho). congruence.
Qed.
Lemma counted_deleter_None s ths v : Forall (thread_ok s) ths -> vmObjs s !! v = None -> counted deleter v ths = 0%nat.
Proof.
  intros HF Hv. apply counted_none. intros th Hin Ho. rewrite Forall_forall in HF.
  destruct (deleter_exists s th v (HF th Hin) Ho). congruence.
Qed.

Lemma counted_provisions v N : NoDup N -> counted owner v (provisions N) = if decide (v ∈ N) then 1%nat else 0%nat.
Proof.
  induction 1 as [|w N Hw HN IH]; [done|]. unfold provisions in *. rewrite fmap_cons, counted_cons, IH. simpl.
  case_bool_decide as Hb.
  - injection Hb as ->. rewrite decide_False by done. rewrite decide_True by set_solver. done.
  - destruct (decide (v ∈ N)); [rewrite decide_True by set_solver|rewrite decide_False]; [done|done|set_solver].
Qed.
Lemma counted_provisions_other {A} `{EqDecision A} (f : pc -> option A) x N :
  (forall v, f (PcProv v) = None) -> counted f x (provisions N) = 0%nat.
Proof. intros H. apply counted_none. intros th (v & -> & _)%list_elem_of_fmap. simpl. by rewrite H. Qed.

Lemma isLeased_evo N s s' vm vm' : SI s -> evo N s s' -> vm_leaseID vm' = vm_leaseID vm -> (isLeased s' vm' <= isLeased s vm)%nat.
Proof.
  intros HS E Hl. unfold isLeased. rewrite Hl. destruct (leases s' !! _) as [rec|] eqn:El; [|lia].
  destruct (evo_leases _ _ _ E _ _ El) as (rec0 & -> & _). lia.
Qed.

Lemma isAvail_evo vm vm' : vm_evo vm vm' -> (isAvail vm' <= isAvail vm)%nat.
Proof. intros (_ & Hp & _). unfold isAvail. destruct (decide _) as [Ha|], (decide _) as [|Hn]; try lia. by apply Hp in Ha. Qed.

Lemma evo_TI N s s' ths : evo N s s' -> SI s -> TI s ths -> TI s' (provisions N ++ ths).
Proof.
  intros E HS [T1 T2 T3 T4]. pose proof (SI_bounded s HS) as HB. split.
  - apply Forall_app. split.
    + apply Forall_forall. intros th (v & -> & Hin)%list_elem_of_fmap. unfold thread_ok. simpl.
      destruct (evo_N _ _ _ E v Hin) as [_ [vm Hvm]]. exists vm. split; [done|].
      destruct (evo_vm_back _ _ _ _ _ E Hvm) as [(vm0 & H0 & _)|(_ & _ & Hf)]; [|apply Hf].
      by rewrite (evo_N_new _ _ _ _ HB E Hin) in H0.
    + eapply Forall_impl; [exact T1|]. intros th. by apply (thread_ok_evo N).
  - intros v vm' Hv. rewrite counted_app, counted_provisions by apply E.
    destruct (evo_vm_back _ _ _ _ _ E Hv) as [(vm & H0 & Hev)|(Hn & Hin & Hf)].
    + rewrite decide_False by (intros Hin; by rewrite (evo_N_new _ _ _ _ HB E Hin) in H0).
      pose proof (T2 v vm H0). pose proof (isAvail_evo _ _ Hev). destruct Hev as (Hc & _). core_eq.
      pose proof (isLeased_evo N s s' vm vm' HS E ltac:(done)). lia.
    + rewrite decide_True, (counted_owner_None s) by done. destruct Hf as (_ & _ & Hl & Hp & _).
      unfold isAvail, isLeased. rewrite decide_False, Hl by done.
      destruct (leases s' !! "") as [rec|] eqn:El; [|lia].
      destruct (evo_leases _ _ _ E _ _ El) as (rec0 & H0 & _). by rewrite (si_nolease s HS) in H0.
  - intros v vm' Hv. rewrite counted_app, counted_provisions_other by done.
    destruct (evo_vm_back _ _ _ _ _ E Hv) as [(vm & H0 & Hev)|(Hn & Hin & Hf)].
    + destruct Hev as (_ & _ & ->). by apply T3.
    + rewrite (counted_deleter_None s) by done. destruct Hf as (_ & _ & _ & _ & ->). done.
  - intros uid. rewrite counted_app, counted_provisions_other by done. apply T4.
Qed.
