(* ===== verification/FakeSteps.v ===== *)
(** * The fake Pool Manager: the critical sections keep the invariant *)
From S2P Require Import Prelude GoModel PoolTypes Spec PoolClient FakePool FakeOps FakeLoop FakeSys FakeInv.

(** ** Sections that are evolutions *)
Lemma evo_same s s' :
  vmObjs s' = vmObjs s -> vms s' = vms s -> vmByUID s' = vmByUID s -> leases s' = leases s -> nextVM s' = nextVM s ->
  pools s' = pools s -> poolObjs s' = poolObjs s -> nextPool s' = nextPool s -> evo [] s s'.
Proof.
  intros E1 E2 E3 E4 E5 E6 E7 E8. destruct (evo_refl s) as [H1 H2 H3 H4 H5 H6 H7 H8 H9 H10 H11].
  split; rewrite ?E1, ?E2, ?E3, ?E4, ?E5, ?E6, ?E7, ?E8; auto.
Qed.

Lemma evo_upd_vm s v f : (forall vm, vm_evo vm (f vm)) -> evo [] s (upd_vm v f s).
Proof.
  intros Hf. destruct (evo_refl s) as [H1 H2 H3 H4 H5 H6 H7 H8 H9 H10 H11]. unfold upd_vm. split; rec_simpl; auto.
  - intros w vm Hw. rewrite lookup_alter. case_decide as Hd; [|by apply H1]. subst w. rewrite Hw. simpl. eauto.
  - intros w vm'. rewrite lookup_alter. case_decide; intros Hs Hn; subst; by rewrite Hn in Hs.
  - intros w Hw. by apply elem_of_nil in Hw.
Qed.

Lemma evo_upd_pool s a f : (forall ps, po_key (f ps) = po_key ps) -> evo [] s (upd_pool a f s).
Proof.
  intros Hf. destruct (evo_refl s) as [H1 H2 H3 H4 H5 H6 H7 H8 H9 H10 H11]. unfold upd_pool. split; rec_simpl; auto.
  intros b. rewrite lookup_alter. case_decide; [|done]. subst b. destruct (poolObjs s !! a); simpl; [by rewrite Hf|done].
Qed.

Lemma bounded_evo_nil s s' : bounded s -> evo [] s s' -> bounded s'.
Proof. intros HB E. by apply (evo_bounded [] s). Qed.

Lemma evo_emit key uid typ payload s : bounded s -> evo [] s (emitLocked key uid typ payload s).
Proof.
  intros HB. unfold emitLocked. destruct (lookupPool key s) as [[a ps]|]; [|apply evo_refl].
  eapply (evo_then _ _ _ _ HB); [|by apply evo_upd_pool]. by apply evo_same.
Qed.

Lemma evo_setPhase v ph s : ph <> AVAILABLE -> evo [] s (setPhaseLocked v ph s).
Proof. intros Hp. apply evo_upd_vm. intros vm. rec_simpl. split_and!; done. Qed.

Lemma evo_leases_only s L :
  (forall id rec', L !! id = Some rec' -> exists rec, leases s !! id = Some rec /\ lease_core rec' = lease_core rec) ->
  evo [] s (s <| leases := L |>).
Proof.
  intros HL. destruct (evo_refl s) as [H1 H2 H3 H4 H5 H6 H7 H8 H9 H10 H11]. split; rec_simpl; auto.
Qed.

Lemma evo_dropLease id s : bounded s -> evo [] s (dropLeaseLocked id s).
Proof.
  intros HB. unfold dropLeaseLocked. destruct (leases s !! id) as [rec|]; [|apply evo_refl].
  assert (evo [] s (s <| leases := delete id (leases s) |>)) as E.
  { apply evo_leases_only. intros i r Hr. apply lookup_delete_Some in Hr as [_ Hr]. eauto. }
  destruct (lookupPool _ _) as [[a ps]|]; [|done]. eapply evo_then; [done|exact E|]. by apply evo_upd_pool.
Qed.

Lemma evo_fold_dropLease ids s : bounded s -> evo [] s (fold_left (fun s id => dropLeaseLocked id s) ids s).
Proof.
  revert s. induction ids as [|id ids IH]; intros s HB; cbn [fold_left]; [apply evo_refl|].
  eapply evo_then; [done|by apply evo_dropLease|]. apply IH. eapply bounded_evo_nil; [exact HB|by apply evo_dropLease].
Qed.

(** Reserving one MicroVM. *)
Lemma evo_reserve_one s vm :
  bounded s -> fresh_vm (nextVM s + 1) vm ->
  evo [nextVM s + 1] s (s <| nextVM := nextVM s + 1 |> <| vmObjs := <[nextVM s + 1 := vm]> (vmObjs s) |>
                           <| vms := {[nextVM s + 1]} ∪ vms s |>).
Proof.
  intros HB Hf. assert (vmObjs s !! (nextVM s + 1) = None) as Hn.
  { destruct (vmObjs s !! (nextVM s + 1)) eqn:E; [|done]. pose proof (HB (nextVM s + 1) ltac:(rewrite E; done)). lia. }
  destruct (evo_refl s) as [H1 H2 H3 H4 H5 H6 H7 H8 H9 H10 H11]. split; rec_simpl; auto; try lia.
  - intros v vm0 Hv. rewrite lookup_insert_ne by congruence. by apply H1.
  - intros v vm'. destruct (decide (v = nextVM s + 1)) as [->|Hne].
    + rewrite lookup_insert_eq. intros [= <-] _. split; [set_solver|done].
    + rewrite lookup_insert_ne by done. congruence.
  - intros v ->%list_elem_of_singleton. rewrite lookup_insert_eq. split; [lia|done].
  - apply NoDup_singleton.
  - intros v. set_solver.
Qed.

Section Steps.
Context (cfg : FakeConfig) (FormatRFC3339Nano : time -> string).

Lemma evo_pickHost a ps s : evo [] s (pickHostLocked cfg a ps s).1.
Proof.
  unfold pickHostLocked. destruct (candidates ps s); [apply evo_refl|].
  destruct (fc_Placement cfg) as [[|]|]; simpl; try apply evo_refl. by apply evo_upd_pool.
Qed.

Lemma evo_reserve n a s : bounded s -> evo (reserve cfg n a s).2 s (reserve cfg n a s).1.
Proof.
  revert s. induction n as [|n IH]; intros s HB; [apply evo_refl|]. cbn [reserve].
  destruct (poolObjs s !! a) as [ps|]; [|apply evo_refl].
  pose proof (evo_pickHost a ps s) as E1. destruct (pickHostLocked cfg a ps s) as [s1 [host|e]]; simpl in E1; [|done].
  pose proof (bounded_evo_nil _ _ HB E1) as HB1.
  set (vm := {| vm_id := nextVM s1 + 1; vm_uid := ""; vm_pool := po_key ps; vm_host := host; vm_phase := PROVISIONING;
                vm_leaseID := ""; vm_deleteEvent := None; vm_deleteInFlight := false; vm_released := false;
                vm_createdAt := now s1; vm_updated := now s1 |}).
  assert (fresh_vm (nextVM s1 + 1) vm) as Hf by (by repeat split).
  pose proof (evo_reserve_one s1 vm HB1 Hf) as E2.
  set (s2 := s1 <| nextVM := _ |> <| vmObjs := _ |> <| vms := _ |>) in *.
  pose proof (evo_bounded _ _ _ E2 HB1) as HB2. specialize (IH s2 HB2).
  destruct (reserve cfg n a s2) as [s3 l]. simpl in *.
  eapply evo_then; [done|exact E1|]. exact (evo_trans [_] l s1 s2 s3 HB1 E2 IH).
Qed.

Lemma evo_provisionN a n reason s : bounded s -> evo (provisionNLocked cfg a n reason s).2 s (provisionNLocked cfg a n reason s).1.
Proof.
  intros HB. unfold provisionNLocked. destruct (_ || _); [apply evo_refl|].
  pose proof (evo_reserve (Z.to_nat n) a s HB) as E. destruct (reserve cfg _ a s) as [s1 l]. simpl in E.
  pose proof (evo_bounded _ _ _ E HB) as HB1.
  destruct l as [|v l]; [done|]. destruct (poolObjs s !! a) as [ps|]; [|done].
  rewrite <-(app_nil_r (v :: l)). eapply evo_trans; [done|exact E|]. by apply evo_emit.
Qed.

Lemma evo_consume key kind s : evo [] s (consumeHookFailure key kind s).1.
Proof. unfold consumeHookFailure. destruct (consume _ _ _). by apply evo_same. Qed.

Lemma evo_heartbeat id s : evo [] s (heartbeat id s).1.
Proof.
  unfold heartbeat. destruct (fl_RefuseHeartbeats _); [apply evo_refl|].
  destruct (leases s !! id) as [rec|] eqn:El; [|apply evo_refl]. destruct (lookupPool _ s) as [[a ps]|]; [|apply evo_refl].
  apply evo_leases_only. intros i r. destruct (decide (i = id)) as [->|Hne].
  - rewrite lookup_insert_eq. intros [= <-]. by exists rec.
  - rewrite lookup_insert_ne by done. eauto.
Qed.

Lemma evo_tick_lease t s ex id : bounded s -> evo [] s (tick_lease FormatRFC3339Nano t (s, ex) id).1.
Proof.
  intros HB. unfold tick_lease. destruct (leases s !! id) as [rec|]; [|apply evo_refl].
  destruct (lookupPool _ s) as [[a ps]|]; [|apply evo_refl]. destruct (negb _).
  { simpl. by apply evo_dropLease. }
  destruct (_ && _); [|apply evo_refl]. simpl.
  assert (evo [] s (upd_pool a (fun ps => ps <| po_warned := <[id := UnixNano (lr_ExpiresAt rec)]> (po_warned ps) |>) s)) as E
    by (by apply evo_upd_pool).
  eapply evo_then; [done|exact E|]. apply evo_emit. eapply bounded_evo_nil; eauto.
Qed.

Lemma evo_tick_leases t ids s ex : bounded s -> evo [] s (fold_left (tick_lease FormatRFC3339Nano t) ids (s, ex)).1.
Proof.
  revert s ex. induction ids as [|id ids IH]; intros s ex HB; cbn [fold_left]; [apply evo_refl|].
  pose proof (evo_tick_lease t s ex id HB) as E. destruct (tick_lease _ t (s, ex) id) as [s1 ex1]. simpl in E.
  eapply evo_then; [done|exact E|]. apply IH. eapply bounded_evo_nil; eauto.
Qed.

Lemma evo_tick_pool s st key :
  bounded s -> exists N, (tick_pool cfg (s, st) key).2 = st ++ N /\ evo N s (tick_pool cfg (s, st) key).1.
Proof.
  intros HB. unfold tick_pool. destruct (lookupPool key s) as [[a ps]|]; [|exists []; rewrite app_nil_r; split; [done|apply evo_refl]].
  set (c := countsLocked _ s). set (d := tickDeficit _ c).
  set (s1 := if (0 <? d) && negb (po_fresh ps) then _ else s).
  assert (evo [] s s1) as E1 by (unfold s1; destruct (_ && _); [by apply evo_emit|apply evo_refl]).
  pose proof (bounded_evo_nil _ _ HB E1) as HB1.
  set (s2 := upd_pool a _ s1). assert (evo [] s1 s2) as E2 by (by apply evo_upd_pool).
  pose proof (bounded_evo_nil _ _ HB1 E2) as HB2.
  pose proof (evo_provisionN a d "tick" s2 HB2) as E3.
  destruct (provisionNLocked cfg a d "tick" s2) as [s3 l]. simpl in *. exists l. split; [done|].
  eapply evo_then; [done|exact E1|]. eapply evo_then; [done|exact E2|done].
Qed.

Lemma evo_tick_pools keys s st :
  bounded s -> exists N, (fold_left (tick_pool cfg) keys (s, st)).2 = st ++ N /\ evo N s (fold_left (tick_pool cfg) keys (s, st)).1.
Proof.
  revert s st. induction keys as [|k keys IH]; intros s st HB; cbn [fold_left].
  { exists []. rewrite app_nil_r. split; [done|apply evo_refl]. }
  destruct (evo_tick_pool s st k HB) as (N1 & H1 & E1). destruct (tick_pool cfg (s, st) k) as [s1 st1]. simpl in *. subst st1.
  destruct (IH s1 (st ++ N1) (evo_bounded _ _ _ E1 HB)) as (N2 & H2 & E2). exists (N1 ++ N2).
  rewrite H2, app_assoc. split; [done|]. by eapply evo_trans.
Qed.

Lemma evo_tick t ol op s : bounded s -> evo (to_started (tick cfg FormatRFC3339Nano t ol op s).2) s (tick cfg FormatRFC3339Nano t ol op s).1.
Proof.
  intros HB. unfold tick. pose proof (evo_tick_leases t (arrange ol (map_to_list (leases s)).*1) s [] HB) as E1.
  destruct (fold_left (tick_lease _ t) _ _) as [s1 ex]. simpl in E1.
  destruct (evo_tick_pools (arrange op (map_to_list (pools s1)).*1) s1 [] (bounded_evo_nil _ _ HB E1)) as (N & H2 & E2).
  destruct (fold_left (tick_pool cfg) _ _) as [s2 st]. simpl in *. subst st. by eapply evo_then.
Qed.
End Steps.

(** ** Sections that are not *)

(** Goroutines change while the state does not. *)
Lemma TI_swap s th new rest :
  TI s (th :: rest) -> Forall (thread_ok s) new ->
  (forall v, counted owner v new <= counted owner v [th])%nat ->
  (forall v, counted deleter v new = counted deleter v [th]) ->
  (forall u, counted recorder u new + counted recorder u rest <= 1)%nat ->
  TI s (new ++ rest).
Proof.
  intros [T1 T2 T3 T4] Hok Ho Hd Hr. apply Forall_cons in T1 as [_ T1].
  assert (forall {A} `{EqDecision A} (f : pc -> option A) x, counted f x (th :: rest) = (counted f x [th] + counted f x rest)%nat) as Hc
    by (intros; exact (counted_app f x [th] rest)).
  split.
  - by apply Forall_app.
  - intros v vm Hv. specialize (T2 v vm Hv). rewrite Hc in T2. rewrite counted_app. specialize (Ho v). lia.
  - intros v vm Hv. rewrite <-(T3 v vm Hv), Hc, counted_app, Hd. done.
  - intros u. rewrite counted_app. apply Hr.
Qed.

Lemma TI_recorder_rest s th rest u : TI s (th :: rest) -> (counted recorder u rest <= 1)%nat.
Proof. intros HT. pose proof (ti_record _ _ HT u) as H. rewrite counted_cons in H. lia. Qed.

(** A goroutine that ends, or goes on without a MicroVM of its own. *)
Definition plain (p : pc) : Prop := owner p = None /\ deleter p = None /\ recorder p = None.

Lemma plain_ok s th : plain (th_pc th) -> thread_ok s th.
Proof. unfold plain, thread_ok. destruct (th_pc th); simpl; naive_solver. Qed.

Lemma counted_plain {A} `{EqDecision A} (f : pc -> option A) x ths :
  (forall th, th ∈ ths -> f (th_pc th) = None) -> counted f x ths = 0%nat.
Proof. intros H. apply counted_none. intros th Hin. by rewrite H. Qed.

Lemma TI_add_plain s new rest : TI s rest -> Forall (fun th => plain (th_pc th)) new -> TI s (new ++ rest).
Proof.
  intros [T1 T2 T3 T4] Hp. rewrite Forall_forall in Hp. split.
  - apply Forall_app. split; [|done]. apply Forall_forall. intros th Hin. by apply plain_ok, Hp.
  - intros v vm Hv. rewrite counted_app, counted_plain by (intros th Hin; apply (Hp th Hin)). simpl. by apply T2.
  - intros v vm Hv. rewrite counted_app, counted_plain by (intros th Hin; apply (Hp th Hin)). simpl. by apply T3.
  - intros u. rewrite counted_app, counted_plain by (intros th Hin; apply (Hp th Hin)). simpl. apply T4.
Qed.

Lemma TI_drop s th rest : TI s (th :: rest) -> deleter (th_pc th) = None -> TI s rest.
Proof.
  intros HT Hd. apply (TI_swap s th [] rest HT); [done|intros v; rewrite counted_nil; lia| |].
  - intros v. rewrite counted_nil, counted_cons, Hd. done.
  - intros u. rewrite counted_nil. by apply (TI_recorder_rest s th).
Qed.

(** One MicroVM or one Lease changes: what the others see. *)
Lemma thread_ok_frame s s' th :
  (forall v vm, vmObjs s !! v = Some vm -> exists vm', vmObjs s' !! v = Some vm' /\ vm_uid vm' = vm_uid vm /\ vm_pool vm' = vm_pool vm) ->
  (forall v vm', vmObjs s' !! v = Some vm' -> exists vm, vmObjs s !! v = Some vm /\ vm_uid vm' = vm_uid vm) ->
  (forall a ps, poolObjs s !! a = Some ps -> exists ps', poolObjs s' !! a = Some ps' /\ po_key ps' = po_key ps) ->
  thread_ok s th -> thread_ok s' th.
Proof.
  intros HV HB HP. unfold thread_ok. destruct (th_pc th); try done.
  1-3: intros (vm & ps & Hv & Hu & Hps & Hk); destruct (HV _ _ Hv) as (vm' & ? & ? & ?), (HP _ _ Hps) as (ps' & ? & ?);
    exists vm', ps'; split_and!; congruence.
  all: try (intros (vm & Hv & Hu); destruct (HV _ _ Hv) as (vm' & ? & ? & ?); exists vm'; split; congruence).
  - intros [vm Hv]. destruct (HV _ _ Hv) as (vm' & ? & _). by exists vm'.
  - intros [vm Hv]. destruct (HV _ _ Hv) as (vm' & ? & _). by exists vm'.
  - intros (Hu & (vm & Hv & Hvu) & Hfr). destruct (HV _ _ Hv) as (vm' & ? & ? & ?).
    split_and!; [done|exists vm'; split; congruence|]. intros w vm1 Hw. destruct (HB _ _ Hw) as (vm0 & Hvm0 & ->). by apply (Hfr w).
Qed.

(** Writes through a MicroVM pointer that keep its identity. *)
Lemma SI_upd_vm v f s :
  SI s -> (forall vm, vm_core (f vm) = vm_core vm) ->
  (forall vm, vmObjs s !! v = Some vm -> vm_phase (f vm) = AVAILABLE -> vm_uid vm <> "") -> SI (upd_vm v f s).
Proof.
  intros HS Hf Ha. set (s' := upd_vm v f s).
  assert (forall w vm', vmObjs s' !! w = Some vm' -> exists vm, vmObjs s !! w = Some vm /\ vm_core vm' = vm_core vm) as HB.
  { intros w vm'. unfold s', upd_vm. rec_simpl. rewrite lookup_alter. case_decide; [subst w|eauto].
    destruct (vmObjs s !! v) as [vm|]; [|done]. intros [= <-]. eauto. }
  assert (forall w vm, vmObjs s !! w = Some vm -> exists vm', vmObjs s' !! w = Some vm' /\ vm_core vm' = vm_core vm) as HF.
  { intros w vm Hw. unfold s', upd_vm. rec_simpl. rewrite lookup_alter. case_decide; [subst w; rewrite Hw; simpl|]; eauto. }
  split; try exact (si_pools s HS); try exact (si_addr s HS); try exact (si_nolease s HS).
  - intros w vm' Hw. destruct (HB w vm' Hw) as (vm & Hvm & Hc). destruct (si_id s HS w vm Hvm). core_eq. split; [congruence|done].
  - intros w [vm Hw]%(si_vms s HS). destruct (HF w vm Hw) as (vm' & ? & _). by exists vm'.
  - intros u w (Hu & Hin & vm & Hw & Huid)%(si_byuid s HS). destruct (HF w vm Hw) as (vm' & ? & Hc). core_eq.
    split_and!; [done|done|]. exists vm'. split; congruence.
  - intros w vm' Hw Hin Hu. destruct (HB w vm' Hw) as (vm & Hvm & Hc). core_eq.
    replace (vm_uid vm') with (vm_uid vm) by done. apply (si_live s HS); [done|done|congruence].
  - intros w vm1 w' vm2 H1 H2 Heq Hne. destruct (HB w vm1 H1) as (vm3 & H3 & Hc). destruct (HB w' vm2 H2) as (vm4 & H4 & Hc').
    core_eq. apply (si_uid s HS w vm3 w' vm4); congruence.
  - intros w vm'. unfold s', upd_vm. rec_simpl. rewrite lookup_alter. case_decide; [subst w|by apply (si_avail s HS)].
    destruct (vmObjs s !! v) as [vm|] eqn:E; [|done]. intros [= <-] Hp. pose proof (Hf vm). core_eq. specialize (Ha vm eq_refl Hp). congruence.
  - intros w vm1 w' vm2 H1 H2 Heq Hne. destruct (HB w vm1 H1) as (vm3 & H3 & Hc). destruct (HB w' vm2 H2) as (vm4 & H4 & Hc').
    core_eq. apply (si_lid s HS w vm3 w' vm4); congruence.
  - intros id rec Hl. destruct (si_lease s HS id rec Hl) as (Hid & Hp & Hu & w & vm & Hw & Hin & Hlid & Huid & Hpool).
    destruct (HF w vm Hw) as (vm' & Hw' & Hc). core_eq. split_and!; try done. exists w, vm'. split_and!; [done|done|congruence..].
Qed.

(** The goroutine over MicroVM [v] hands it over. *)
Lemma TI_upd_vm v f s th new rest :
  TI s (th :: rest) ->
  (forall vm, vm_core (f vm) = vm_core vm) ->
  Forall (thread_ok s) new ->
  (forall w, w <> v -> counted owner w new <= counted owner w [th])%nat ->
  (forall w, w <> v -> counted deleter w new = counted deleter w [th]) ->
  (forall vm, vmObjs s !! v = Some vm ->
     counted owner v new + isAvail (f vm) <= counted owner v [th] + isAvail vm
     /\ counted deleter v new + (if vm_deleteInFlight vm then 1 else 0)
        = counted deleter v [th] + (if vm_deleteInFlight (f vm) then 1 else 0))%nat ->
  (forall u, counted recorder u new + counted recorder u rest <= 1)%nat ->
  TI (upd_vm v f s) (new ++ rest).
Proof.
  intros [T1 T2 T3 T4] Hf Hok Ho Hd Hv Hr. apply Forall_cons in T1 as [_ T1].
  assert (forall {A} `{EqDecision A} (g : pc -> option A) x, counted g x (th :: rest) = (counted g x [th] + counted g x rest)%nat) as Hc
    by (intros; exact (counted_app g x [th] rest)).
  assert (Forall (thread_ok s) (new ++ rest)) as Hall by (by apply Forall_app).
  split.
  - eapply Forall_impl; [exact Hall|]. intros t. apply thread_ok_frame; unfold upd_vm; rec_simpl; [| |eauto].
    + intros w vm Hw. rewrite lookup_alter. case_decide; [subst w; rewrite Hw; simpl|eauto]. pose proof (Hf vm). core_eq. eauto.
    + intros w vm'. rewrite lookup_alter. case_decide; [subst w|eauto]. destruct (vmObjs s !! v) as [vm|]; [|done].
      intros [= <-]. pose proof (Hf vm). core_eq. eauto.
  - intros w vm'. unfold upd_vm. rec_simpl. rewrite lookup_alter, counted_app. unfold isLeased. rec_simpl. case_decide as Hd'.
    + subst w. destruct (vmObjs s !! v) as [vm|] eqn:E; [|done]. intros [= <-]. specialize (T2 v vm E). rewrite Hc in T2.
      destruct (Hv vm eq_refl) as [Hv1 _]. pose proof (Hf vm). core_eq. unfold isLeased in T2.
      replace (vm_leaseID (f vm)) with (vm_leaseID vm) by done. lia.
    + intros Hw. specialize (T2 w vm' Hw). rewrite Hc in T2. specialize (Ho w ltac:(done)). unfold isLeased in T2. lia.
  - intros w vm'. unfold upd_vm. rec_simpl. rewrite lookup_alter, counted_app. case_decide as Hd'.
    + subst w. destruct (vmObjs s !! v) as [vm|] eqn:E; [|done]. intros [= <-]. specialize (T3 v vm E). rewrite Hc in T3.
      destruct (Hv vm eq_refl) as [_ Hv2]. destruct (vm_deleteInFlight vm), (vm_deleteInFlight (f vm)); lia.
    + intros Hw. rewrite <-(T3 w vm' Hw), Hc, Hd by done. done.
  - intros u. rewrite counted_app. apply Hr.
Qed.

(** ** Leaving the map *)

(** [v] leaves [p.vms] and [vmByUID], and its Lease goes with it. *)
Record untracks (v : Z) (vm : vmState) (s s' : PM) : Prop := {
  un_objs : vmObjs s' = vmObjs s;
  un_vms : vms s' = vms s ∖ {[v]};
  un_byuid : vmByUID s' = if String.eqb (vm_uid vm) "" then vmByUID s else delete (vm_uid vm) (vmByUID s);
  un_leases : forall id rec, leases s' !! id = Some rec -> leases s !! id = Some rec /\ vm_leaseID vm <> id;
  un_pools : pools s' = pools s;
  un_keys : forall a, po_key <$> poolObjs s' !! a = po_key <$> poolObjs s !! a;
  un_addr : nextPool s' = nextPool s;
  un_next : nextVM s' = nextVM s
}.

Lemma untracks_SI v vm s s' : SI s -> vmObjs s !! v = Some vm -> untracks v vm s s' -> SI s'.
Proof.
  intros HS Hv [U1 U2 U3 U4 U5 U6 U7 U8].
  assert (forall w vm', vmObjs s !! w = Some vm' -> w <> v -> vm_uid vm' <> "" -> vm_uid vm' <> vm_uid vm) as Hne.
  { intros w vm' Hw Hwv Hu Heq. by apply Hwv, (si_uid s HS w vm' v vm). }
  split; rewrite ?U1, ?U2, ?U5, ?U7, ?U8.
  - apply (si_id s HS).
  - intros w Hw. apply (si_vms s HS). set_solver.
  - intros k a (ps & Hps & Hk)%(si_pools s HS). pose proof (U6 a) as H6. rewrite Hps in H6. simpl in H6.
    destruct (poolObjs s' !! a) as [ps'|]; [|done]. exists ps'. simpl in H6. split; [done|congruence].
  - intros a [ps' Hps]. apply (si_addr s HS). pose proof (U6 a) as H6. rewrite Hps in H6. by destruct (poolObjs s !! a).
  - intros u w Hu. assert (vmByUID s !! u = Some w /\ u <> vm_uid vm) as [Hu0 Hne'].
    { rewrite U3 in Hu. destruct (String.eqb_spec (vm_uid vm) "") as [He|He].
      - split; [done|]. intros ->. by destruct (si_byuid s HS _ _ Hu) as (? & _).
      - apply lookup_delete_Some in Hu as [Hn Hu]. auto. }
    destruct (si_byuid s HS u w Hu0) as (Hun & Hin & vm' & Hw & Huid). split_and!; [done| |by exists vm'].
    assert (w <> v) by congruence. set_solver.
  - intros w vm' Hw Hin Hu. assert (w <> v) as Hwv by set_solver.
    pose proof (si_live s HS w vm' Hw ltac:(set_solver) Hu) as HL. rewrite U3.
    destruct (String.eqb (vm_uid vm) ""); [done|]. rewrite lookup_delete_ne; [done|]. by apply not_eq_sym, (Hne w vm').
  - apply (si_uid s HS).
  - apply (si_avail s HS).
  - destruct (leases s' !! "") as [rec|] eqn:E; [|done]. destruct (U4 _ _ E) as [H _]. by rewrite (si_nolease s HS) in H.
  - apply (si_lid s HS).
  - intros id rec Hl. destruct (U4 id rec Hl) as [Hl0 Hlid].
    destruct (si_lease s HS id rec Hl0) as (Hid & Hp & Hu & w & vm' & Hw & Hin & Hl1 & Hu1 & Hp1).
    split_and!; [done|done|done|]. exists w, vm'. unfold lease_of. rewrite U1, U2. split_and!; try done.
    assert (w <> v) by congruence. set_solver.
Qed.

(** The goroutines do not see a MicroVM leave, or a Lease go. *)
Lemma TI_frame s s' ths :
  vmObjs s' = vmObjs s -> (forall id, is_Some (leases s' !! id) -> is_Some (leases s !! id)) ->
  (forall a ps, poolObjs s !! a = Some ps -> exists ps', poolObjs s' !! a = Some ps' /\ po_key ps' = po_key ps) ->
  TI s ths -> TI s' ths.
Proof.
  intros U1 UL UK [T1 T2 T3 T4]. split; rewrite ?U1; [| |done|done].
  - eapply Forall_impl; [exact T1|]. intros th. apply thread_ok_frame; rewrite ?U1; eauto.
  - intros v vm Hv. specialize (T2 v vm Hv). unfold isLeased in *.
    destruct (leases s' !! vm_leaseID vm) eqn:E; [|lia]. destruct (UL (vm_leaseID vm) ltac:(by rewrite E)) as [r Hr].
    rewrite Hr in T2. lia.
Qed.

Lemma keys_fwd s s' : (forall a, po_key <$> poolObjs s' !! a = po_key <$> poolObjs s !! a) ->
  forall a ps, poolObjs s !! a = Some ps -> exists ps', poolObjs s' !! a = Some ps' /\ po_key ps' = po_key ps.
Proof.
  intros HK a ps Hps. specialize (HK a). rewrite Hps in HK. simpl in HK. destruct (poolObjs s' !! a) as [ps'|]; [|done].
  exists ps'. simpl in HK. split; [done|congruence].
Qed.

Lemma untracks_TI v vm s s' ths : untracks v vm s s' -> TI s ths -> TI s' ths.
Proof.
  intros U. apply TI_frame; [apply U| |apply keys_fwd, U]. intros id [rec Hr]. apply (un_leases _ _ _ _ U) in Hr as [Hr _]. by exists rec.
Qed.

(** The MicroVM of a Lease is the one that carries its id. *)
Lemma lease_vm s v vm id rec :
  SI s -> vmObjs s !! v = Some vm -> leases s !! id = Some rec -> vm_leaseID vm = id ->
  vm_uid vm = lr_VMUID rec /\ lr_VMUID rec <> "" /\ v ∈ vms s.
Proof.
  intros HS Hv Hl Hid. destruct (si_lease s HS id rec Hl) as (_ & _ & Hu & w & vm' & Hw & Hin & Hl1 & Hu1 & _).
  assert (id <> "") by (intros ->; by rewrite (si_nolease s HS) in Hl).
  assert (v = w) as -> by (apply (si_lid s HS v vm w vm'); congruence).
  assert (vm = vm') as -> by congruence. done.
Qed.

Lemma dropReserved_untracks v vm s : SI s -> vmObjs s !! v = Some vm -> vm_uid vm = "" -> untracks v vm s (dropReserved v s).
Proof.
  intros HS Hv Hu. split; rec_simpl; try done; [by rewrite Hu|].
  intros id rec Hl. split; [done|]. intros Hid. destruct (lease_vm s v vm id rec HS Hv Hl Hid) as (? & ? & _). congruence.
Qed.

Lemma dropLease_leases id s : leases (dropLeaseLocked id s) = delete id (leases s).
Proof.
  unfold dropLeaseLocked. destruct (leases s !! id) as [rec|] eqn:E; [|by rewrite delete_id].
  destruct (lookupPool _ _) as [[a ps]|]; done.
Qed.
Lemma dropLease_frame id s :
  vmObjs (dropLeaseLocked id s) = vmObjs s /\ vms (dropLeaseLocked id s) = vms s /\ vmByUID (dropLeaseLocked id s) = vmByUID s
  /\ pools (dropLeaseLocked id s) = pools s /\ nextPool (dropLeaseLocked id s) = nextPool s /\ nextVM (dropLeaseLocked id s) = nextVM s
  /\ forall a, po_key <$> poolObjs (dropLeaseLocked id s) !! a = po_key <$> poolObjs s !! a.
Proof.
  unfold dropLeaseLocked. destruct (leases s !! id) as [rec|]; [|done].
  destruct (lookupPool _ _) as [[a ps]|]; [|done]. unfold upd_pool. rec_simpl. split_and!; try done.
  intros b. rewrite lookup_alter. case_decide; [subst b|done]. by destruct (poolObjs s !! a).
Qed.

(** The first half of [finishDeletionLocked]. *)
Definition removeVM (v : Z) (vm : vmState) (s : PM) : PM :=
  let s := s <| vms := vms s ∖ {[v]} |> in
  let s := if String.eqb (vm_uid vm) "" then s else s <| vmByUID := delete (vm_uid vm) (vmByUID s) |> in
  if String.eqb (vm_leaseID vm) "" then s else dropLeaseLocked (vm_leaseID vm) s.

Lemma removeVM_untracks v vm s : SI s -> vmObjs s !! v = Some vm -> untracks v vm s (removeVM v vm s).
Proof.
  intros HS Hv. unfold removeVM.
  set (s1 := if String.eqb (vm_uid vm) "" then _ else _).
  assert (vmObjs s1 = vmObjs s /\ vms s1 = vms s ∖ {[v]} /\ leases s1 = leases s /\ pools s1 = pools s
    /\ poolObjs s1 = poolObjs s /\ nextPool s1 = nextPool s /\ nextVM s1 = nextVM s
    /\ vmByUID s1 = if String.eqb (vm_uid vm) "" then vmByUID s else delete (vm_uid vm) (vmByUID s))
    as (E1 & E2 & E3 & E4 & E5 & E6 & E7 & E8) by (unfold s1; destruct (String.eqb _ _); done).
  destruct (String.eqb_spec (vm_leaseID vm) "") as [He|He].
  - split; rewrite ?E1, ?E2, ?E3, ?E4, ?E5, ?E6, ?E7; try done.
    intros id rec Hl. split; [done|]. intros Hid. rewrite He in Hid. subst id. by rewrite (si_nolease s HS) in Hl.
  - destruct (dropLease_frame (vm_leaseID vm) s1) as (F1 & F2 & F3 & F4 & F5 & F6 & F7).
    split; rewrite ?F1, ?F2, ?F3, ?F4, ?F5, ?F6; try congruence.
    + intros id rec. rewrite dropLease_leases, E3. intros [Hn Hl]%lookup_delete_Some. auto.
Qed.

Lemma finishDeletion_remove cfg v vm s :
  vmObjs s !! v = Some vm -> v ∈ vms s ->
  finishDeletionLocked cfg v s =
    (let s' := removeVM v vm s in
     match lookupPool (vm_pool vm) s' with
     | None => (s', [])
     | Some (a, ps) =>
         provisionNLocked cfg a (onDeleted (strategyOf (po_spec ps))) "vm deleted"
           (match vm_deleteEvent vm with
            | Some e => emitLocked (vm_pool vm) (vm_uid vm) e (("host", JStr (vm_host vm)) ::
                (if String.eqb (vm_leaseID vm) "" then [] else [("lease_id", JStr (vm_leaseID vm))])) s'
            | None => s' end)
     end).
Proof. intros Hv Hin. unfold finishDeletionLocked. rewrite Hv, bool_decide_true by done. reflexivity. Qed.

Lemma finishDeletion_inv cfg v s ths :
  SI s -> TI s ths -> SI (finishDeletionLocked cfg v s).1
  /\ TI (finishDeletionLocked cfg v s).1 (provisions (finishDeletionLocked cfg v s).2 ++ ths).
Proof.
  intros HS HT. destruct (vmObjs s !! v) as [vm|] eqn:Hv; [|unfold finishDeletionLocked; by rewrite Hv].
  destruct (decide (v ∈ vms s)) as [Hin|Hn]; [|unfold finishDeletionLocked; by rewrite Hv, bool_decide_false].
  rewrite (finishDeletion_remove cfg v vm s Hv Hin). cbv zeta.
  pose proof (removeVM_untracks v vm s HS Hv) as U. pose proof (untracks_SI v vm s _ HS Hv U) as HS1.
  pose proof (untracks_TI v vm s _ ths U HT) as HT1. generalize dependent (removeVM v vm s). intros s1 _ HS1 HT1.
  destruct (lookupPool (vm_pool vm) s1) as [[a ps]|]; [|done].
  set (s2 := match vm_deleteEvent vm with Some _ => _ | None => s1 end).
  assert (evo [] s1 s2) as E1 by (unfold s2; destruct (vm_deleteEvent vm); [apply evo_emit, SI_bounded, HS1|apply evo_refl]).
  pose proof (evo_SI _ _ _ E1 HS1) as HS2. pose proof (evo_TI _ _ _ _ E1 HS1 HT1) as HT2.
  pose proof (evo_provisionN cfg a (onDeleted (strategyOf (po_spec ps))) "vm deleted" s2 (SI_bounded _ HS2)) as E2.
  split; [exact (evo_SI _ _ _ E2 HS2)|exact (evo_TI _ _ _ _ E2 HS2 HT2)].
Qed.

(** * The fake Pool Manager: ownership changes hands

    The critical sections that record a uid, make a MicroVM AVAILABLE, take
    it for a claim, grant the Lease or give it up after a failed hook, and
    those that create and delete Pools. *)

Lemma alive_spec v s :
  aliveLocked v s = true -> exists vm, vmObjs s !! v = Some vm /\ v ∈ vms s /\ is_Some (pools s !! vm_pool vm).
Proof. unfold aliveLocked. destruct (vmObjs s !! v) as [vm|]; [|done]. intros H. bool_to_prop. eauto. Qed.

Lemma lookupPool_spec s key a ps : SI s -> lookupPool key s = Some (a, ps) -> pools s !! key = Some a /\ poolObjs s !! a = Some ps /\ po_key ps = key.
Proof.
  intros HS. unfold lookupPool. destruct (pools s !! key) as [b|] eqn:E; [|done].
  destruct (si_pools s HS key b E) as (ps' & Hps & Hk). rewrite Hps. intros [= <- <-]. done.
Qed.

Lemma lookupPool_exists s key : SI s -> is_Some (pools s !! key) -> exists a ps, lookupPool key s = Some (a, ps).
Proof.
  intros HS [a Ha]. destruct (si_pools s HS key a Ha) as (ps & Hps & _). exists a, ps. unfold lookupPool. by rewrite Ha, Hps.
Qed.

(** The goroutine that owns a MicroVM: nobody else does, and it is neither
    AVAILABLE nor leased. *)
Lemma owner_alone s th rest v vm :
  TI s (th :: rest) -> owner (th_pc th) = Some v -> vmObjs s !! v = Some vm ->
  counted owner v rest = 0%nat /\ vm_phase vm <> AVAILABLE /\ leases s !! vm_leaseID vm = None.
Proof.
  intros HT Ho Hv. pose proof (ti_token _ _ HT v vm Hv) as H. rewrite counted_cons, bool_decide_true in H by done.
  unfold isAvail, isLeased in H. split; [lia|]. split.
  - intros Hp. rewrite decide_True in H by done. lia.
  - destruct (leases s !! _); [lia|done].
Qed.

(** ** provision_record *)
Definition setUID (v : Z) (uid : string) (s : PM) : PM :=
  upd_vm v (fun vm => vm <| vm_uid := uid |> <| vm_updated := now s |>) s <| vmByUID := <[uid := v]> (vmByUID s) |>.

Lemma setUID_lookup v uid s w vm' :
  vmObjs (setUID v uid s) !! w = Some vm' ->
  exists vm, vmObjs s !! w = Some vm /\ vm_uid vm' = (if decide (w = v) then uid else vm_uid vm)
  /\ vm_id vm' = vm_id vm /\ vm_pool vm' = vm_pool vm /\ vm_leaseID vm' = vm_leaseID vm /\ vm_phase vm' = vm_phase vm
  /\ vm_deleteInFlight vm' = vm_deleteInFlight vm.
Proof.
  unfold setUID, upd_vm. rec_simpl. rewrite lookup_alter. case_decide as Hd; [subst w|].
  - destruct (vmObjs s !! v) as [vm|]; [|done]. intros [= <-]. exists vm. rewrite decide_True by done. done.
  - intros Hw. exists vm'. rewrite decide_False by done. done.
Qed.

Lemma setUID_fwd v uid s w vm : vmObjs s !! w = Some vm -> exists vm', vmObjs (setUID v uid s) !! w = Some vm'.
Proof. intros Hw. unfold setUID, upd_vm. rec_simpl. rewrite lookup_alter. case_decide; [subst w; rewrite Hw; simpl|]; eauto. Qed.

Section setUID.
Context (v : Z) (uid : string) (s : PM) (vm : vmState) (HS : SI s).
Context (Hv : vmObjs s !! v = Some vm) (Hempty : vm_uid vm = "") (Huid : uid <> "").
Context (Hfresh : forall w vm, vmObjs s !! w = Some vm -> vm_uid vm <> uid).

Lemma setUID_SI : v ∈ vms s -> SI (setUID v uid s).
Proof using All.
  intros Hin. split.
  - intros w vm' Hw. destruct (setUID_lookup _ _ _ _ _ Hw) as (vm0 & H0 & _ & Hid & _). rewrite Hid. by apply (si_id s HS).
  - intros w [vm0 Hw]%(si_vms s HS). destruct (setUID_fwd v uid s w vm0 Hw) as [vm' ?]. by exists vm'.
  - apply (si_pools s HS).
  - apply (si_addr s HS).
  - intros u w. change (vmByUID (setUID v uid s)) with (<[uid := v]> (vmByUID s)). destruct (decide (u = uid)) as [->|Hne].
    + rewrite lookup_insert_eq. intros [= <-]. split_and!; [done|done|].
      destruct (setUID_fwd v uid s v vm Hv) as [vm' Hv']. exists vm'. split; [done|].
      destruct (setUID_lookup _ _ _ _ _ Hv') as (vm0 & _ & Hu & _). by rewrite decide_True in Hu.
    + rewrite lookup_insert_ne by done. intros (Hu & Hw & vm0 & H0 & Hu0)%(si_byuid s HS). split_and!; [done|done|].
      destruct (setUID_fwd v uid s w vm0 H0) as [vm' Hw']. exists vm'. split; [done|].
      destruct (setUID_lookup _ _ _ _ _ Hw') as (vm1 & H1 & Hu1 & _). rewrite decide_False in Hu1; congruence.
  - intros w vm' Hw Hwin Hu. destruct (setUID_lookup _ _ _ _ _ Hw) as (vm0 & H0 & Hu0 & _).
    change (vmByUID (setUID v uid s)) with (<[uid := v]> (vmByUID s)). destruct (decide (w = v)) as [->|Hne].
    + rewrite Hu0. by apply lookup_insert_eq.
    + rewrite Hu0, lookup_insert_ne by (apply not_eq_sym; by apply (Hfresh w)). apply (si_live s HS); [done|done|congruence].
  - intros w vm1 w' vm2 H1 H2 Heq Hne. destruct (setUID_lookup _ _ _ _ _ H1) as (vm3 & H3 & Hu3 & _).
    destruct (setUID_lookup _ _ _ _ _ H2) as (vm4 & H4 & Hu4 & _).
    destruct (decide (w = v)) as [->|Hwv], (decide (w' = v)) as [->|Hwv']; try done.
    + exfalso. apply (Hfresh w' vm4 H4). congruence.
    + exfalso. apply (Hfresh w vm3 H3). congruence.
    + apply (si_uid s HS w vm3 w' vm4); congruence.
  - intros w vm' Hw Hp. destruct (setUID_lookup _ _ _ _ _ Hw) as (vm0 & H0 & Hu0 & _ & _ & _ & Hph & _). rewrite Hu0.
    destruct (decide (w = v)); [done|]. apply (si_avail s HS w); congruence.
  - apply (si_nolease s HS).
  - intros w vm1 w' vm2 H1 H2 Heq Hne. destruct (setUID_lookup _ _ _ _ _ H1) as (vm3 & H3 & _ & _ & _ & Hl3 & _).
    destruct (setUID_lookup _ _ _ _ _ H2) as (vm4 & H4 & _ & _ & _ & Hl4 & _). apply (si_lid s HS w vm3 w' vm4); congruence.
  - intros id rec Hl. destruct (si_lease s HS id rec Hl) as (Hid & Hp & Hu & w & vm0 & Hw & Hwin & Hlid & Hu0 & Hpool).
    split_and!; [done|done|done|]. destruct (setUID_fwd v uid s w vm0 Hw) as [vm' Hw']. exists w, vm'.
    destruct (setUID_lookup _ _ _ _ _ Hw') as (vm1 & H1 & Hu1 & _ & Hp1 & Hl1 & _).
    rewrite decide_False in Hu1 by congruence. split_and!; [done|done|congruence..].
Qed.

Lemma setUID_thread th : owner (th_pc th) <> Some v -> recorder (th_pc th) <> Some uid -> thread_ok s th -> thread_ok (setUID v uid s) th.
Proof using All.
  intros Ho Hr.
  assert (forall w vm0 (P : vmState -> Prop), vmObjs s !! w = Some vm0 ->
     (forall a b, vm_uid a = vm_uid b -> vm_pool a = vm_pool b -> P a -> P b) -> w <> v -> P vm0 -> exists vm', vmObjs (setUID v uid s) !! w = Some vm' /\ P vm') as HP.
  { intros w vm0 P Hw HPP Hwv Hp. destruct (setUID_fwd v uid s w vm0 Hw) as [vm' Hw']. exists vm'. split; [done|].
    destruct (setUID_lookup _ _ _ _ _ Hw') as (vm1 & H1 & Hu & _ & Hpl & _). rewrite decide_False in Hu by done.
    apply (HPP vm0); congruence. }
  unfold thread_ok. destruct (th_pc th) eqn:Epc; simpl in Ho, Hr; try done.
  1-3: intros (vm0 & ps & Hw & Hu & Hps & Hk);
    destruct (HP _ vm0 (fun vm => vm_uid vm <> "" /\ po_key ps = vm_pool vm) Hw) as (vm' & ? & ? & ?);
    [simpl; intuition congruence| |done|exists vm', ps; split_and!; done]; congruence.
  1: intros (vm0 & Hw & Hu); apply (HP _ vm0 (fun vm => vm_uid vm <> "") Hw); [simpl; congruence| |exact Hu]; congruence.
  1-2: intros [vm0 Hw]; destruct (setUID_fwd v uid s _ vm0 Hw) as [vm' ?]; by exists vm'.
  1-4: intros (vm0 & Hw & Hu); apply (HP _ vm0 (fun vm => vm_uid vm = "") Hw); [simpl; congruence| |exact Hu]; congruence.
  2-6: intros (vm0 & Hw & Hu); apply (HP _ vm0 (fun vm => vm_uid vm <> "") Hw); [simpl; congruence| |exact Hu]; congruence.
  intros (Hu & (vm0 & Hw & Hu0) & Hfr). split_and!; [done| |].
  - apply (HP _ vm0 (fun vm => vm_uid vm = "") Hw); [simpl; congruence| |exact Hu0]; congruence.
  - intros w' vm' Hw'. destruct (setUID_lookup _ _ _ _ _ Hw') as (vm1 & H1 & Hu1 & _). rewrite Hu1.
    destruct (decide _); [congruence|by apply (Hfr w')].
Qed.
End setUID.

Lemma provision_record_inv v uid cmds tr s rest :
  SI s -> TI s ({| th_tracked := tr; th_pc := PcProvRecord v uid cmds |} :: rest) ->
  let r := provision_record v uid s in
  SI r.1 /\ TI r.1 rest
  /\ (r.2 = true -> TI r.1 ({| th_tracked := tr; th_pc := PcProvWait v uid cmds |} :: rest)).
Proof.
  intros HS HT. pose proof (ti_ok _ _ HT) as Hok. apply Forall_cons in Hok as [Hth Hok].
  unfold thread_ok in Hth. simpl in Hth. destruct Hth as (Hu & (vm & Hv & He) & Hfr).
  pose proof (TI_drop _ _ _ HT eq_refl) as HT0. unfold provision_record. rewrite Hv.
  destruct (aliveLocked v s) eqn:Ha; [|cbn [negb]; split_and!; done]. cbn [negb].
  destruct (alive_spec v s Ha) as (vm0 & H0 & Hin & _). clear vm0 H0.
  destruct (owner_alone _ _ _ v vm HT eq_refl Hv) as (Hc & Hav & Hl).
  assert (forall th, th ∈ rest -> owner (th_pc th) <> Some v /\ recorder (th_pc th) <> Some uid) as Hoth.
  { intros th Hth. split; [by apply (counted_zero owner v rest Hc)|]. apply (counted_zero recorder uid rest); [|done].
    pose proof (ti_record _ _ HT uid) as Hr. rewrite counted_cons, bool_decide_true in Hr by done. lia. }
  set (s1 := (upd_vm v (fun vm => vm <| vm_uid := uid |> <| vm_updated := now s |>) s) <| vmByUID := <[uid := v]> (vmByUID s) |>).
  assert (SI s1) as HS1 by (exact (setUID_SI v uid s vm HS Hv He Hu Hfr Hin)).
  assert (TI s1 ({| th_tracked := tr; th_pc := PcProvWait v uid cmds |} :: rest)) as HT1.
  { destruct HT as [T1 T2 T3 T4]. split.
    - constructor.
      + unfold thread_ok. simpl. destruct (setUID_fwd v uid s v vm Hv) as [vm' Hv']. exists vm'. split; [done|].
        destruct (setUID_lookup _ _ _ _ _ Hv') as (vm1 & _ & Hu1 & _). rewrite decide_True in Hu1; congruence.
      + rewrite Forall_forall in Hok |- *. intros th Hth. destruct (Hoth th Hth).
        apply (setUID_thread v uid s vm HS Hv He Hu Hfr); auto.
    - intros w vm' Hw. destruct (setUID_lookup _ _ _ _ _ Hw) as (vm1 & H1 & _ & _ & _ & Hl1 & Hp1 & _).
      specialize (T2 w vm1 H1). rewrite counted_cons in T2 |- *. simpl in *. unfold isAvail, isLeased in *.
      change (leases s1) with (leases s). by rewrite Hl1, Hp1.
    - intros w vm' Hw. destruct (setUID_lookup _ _ _ _ _ Hw) as (vm1 & H1 & _ & _ & _ & _ & _ & ->).
      specialize (T3 w vm1 H1). rewrite counted_cons in T3 |- *. exact T3.
    - intros u. rewrite counted_cons. simpl. specialize (T4 u). rewrite counted_cons in T4. simpl. lia. }
  assert (evo [] s1 (emitLocked (vm_pool vm) uid VM_PROVISIONED [("host", JStr (vm_host vm))] s1)) as E by (apply evo_emit, SI_bounded, HS1).
  cbn [fst snd]. split_and!.
  - exact (evo_SI _ _ _ E HS1).
  - exact (evo_TI _ _ _ _ E HS1 (TI_drop _ _ _ HT1 eq_refl)).
  - intros _. exact (evo_TI _ _ _ _ E HS1 HT1).
Qed.

Lemma provision_available_inv v uid tr s rest :
  SI s -> TI s ({| th_tracked := tr; th_pc := PcProvAvail v uid |} :: rest) ->
  let r := provision_available v uid s in SI r.1 /\ TI r.1 rest.
Proof.
  intros HS HT. pose proof (ti_ok _ _ HT) as Hok. apply Forall_cons in Hok as [Hth Hok].
  unfold thread_ok in Hth. simpl in Hth. destruct Hth as (vm & Hv & He).
  unfold provision_available. rewrite Hv. destruct (aliveLocked v s) eqn:Ha; simpl; [|split; [done|by apply (TI_drop _ _ _ HT)]].
  destruct (owner_alone _ _ _ v vm HT eq_refl Hv) as (Hc & Hav & Hl).
  assert (SI (setPhaseLocked v AVAILABLE s)) as HS1.
  { apply SI_upd_vm; [done|done|]. intros vm' Hv' _. congruence. }
  assert (TI (setPhaseLocked v AVAILABLE s) rest) as HT1.
  { apply (TI_upd_vm v _ s _ [] rest HT); try done.
    - intros w Hw. rewrite counted_nil. lia.
    - intros vm' Hv'. rewrite counted_nil, !counted_cons, (bool_decide_true (owner _ = _)) by done. split; [|done].
      unfold isAvail. destruct (decide _), (decide _); simpl; lia.
    - intros u. rewrite counted_nil. by apply (TI_recorder_rest _ _ _ u HT). }
  pose proof (evo_emit (vm_pool vm) uid VM_AVAILABLE [("host", JStr (vm_host vm))] _ (SI_bounded _ HS1)) as E.
  split; [exact (evo_SI _ _ _ E HS1)|exact (evo_TI _ _ _ _ E HS1 HT1)].
Qed.

(** ** Claims *)
Lemma pick_older_spec key best vm :
  match pick_older key best vm with
  | Some b => Some b = best \/ b = vm /\ in_phase key [AVAILABLE] vm = true
  | None => best = None
  end.
Proof. unfold pick_older. destruct (in_phase _ _ vm) eqn:E; simpl; repeat case_match; simplify_eq; auto. Qed.

Lemma oldest_in key l best b :
  fold_left (pick_older key) l best = Some b -> Some b = best \/ b ∈ l /\ in_phase key [AVAILABLE] b = true.
Proof.
  revert best. induction l as [|vm l IH]; intros best; cbn [fold_left]; [auto|]. intros [Hb|[Hin Hp]]%IH.
  - pose proof (pick_older_spec key best vm) as H. rewrite <-Hb in H. destruct H as [?|[-> ?]]; [auto|]. right. split; [set_solver|done].
  - right. split; [set_solver|done].
Qed.

Lemma live_lookup s v vm : live s !! v = Some vm <-> vmObjs s !! v = Some vm /\ v ∈ vms s.
Proof. unfold live. by rewrite map_lookup_filter_Some. Qed.

Lemma live_elem s vm : vm ∈ (map_to_list (live s)).*2 -> exists v, vmObjs s !! v = Some vm /\ v ∈ vms s.
Proof.
  intros ([v vm'] & -> & Hin)%list_elem_of_fmap. apply elem_of_map_to_list, live_lookup in Hin. by exists v.
Qed.

Lemma oldest_spec key s vm :
  SI s -> oldestAvailableLocked key s = Some vm ->
  vmObjs s !! vm_id vm = Some vm /\ vm_id vm ∈ vms s /\ vm_pool vm = key /\ vm_phase vm = AVAILABLE.
Proof.
  intros HS H. destruct (oldest_in _ _ _ _ H) as [?|[Hin Hp]]; [done|]. destruct (live_elem s vm Hin) as (v & Hv & Hvin).
  destruct (si_id s HS v vm Hv) as [-> _]. unfold in_phase in Hp. bool_to_prop. split_and!; try done. set_solver.
Qed.

Lemma claim_begin_inv cfg ol ref rid due tr s rest :
  SI s -> TI s ({| th_tracked := tr; th_pc := PcClaim ref rid due |} :: rest) ->
  let r := claimVM_begin cfg ol ref rid s in
  SI r.1 /\ match r.2 with
            | ClaimReply _ => TI r.1 rest
            | ClaimHooks v a cmds => TI r.1 ({| th_tracked := tr; th_pc := PcClaimHooks v a rid cmds |} :: rest)
            end.
Proof.
  intros HS HT. pose proof (TI_drop _ _ _ HT eq_refl) as HT0. unfold claimVM_begin.
  destruct (replayLocked cfg ol ref rid s); [done|].
  destruct (poolLocked cfg ref s) as [[a ps]|e] eqn:Ep; [|done].
  destruct (oldestAvailableLocked (po_key ps) s) as [vm|] eqn:Eo; [|done]. simpl.
  destruct (oldest_spec _ _ _ HS Eo) as (Hv & Hin & Hpool & Hph).
  assert (poolObjs s !! a = Some ps) as Hps.
  { unfold poolLocked in Ep. destruct (checkNamespace _ _); [done|]. destruct (lookupPool ref s) as [[b ps']|] eqn:El; [|done].
    injection Ep as -> ->. by apply lookupPool_spec in El as (_ & ? & _). }
  pose proof (evo_setPhase (vm_id vm) PRE_LEASE_HOOK_RUNNING s ltac:(done)) as E. split; [exact (evo_SI _ _ _ E HS)|].
  apply (TI_upd_vm (vm_id vm) _ s _ [_] rest HT); try done.
  - constructor; [|done]. unfold thread_ok. simpl. exists vm, ps. split_and!; try done. by apply (si_avail s HS (vm_id vm)).
  - intros w Hw. rewrite !counted_cons, (bool_decide_false (owner _ = _)) by (simpl; congruence). lia.
  - intros vm' Hv'. assert (vm' = vm) as -> by congruence. rewrite !counted_cons, !counted_nil.
    rewrite (bool_decide_true (owner _ = _)), (bool_decide_false (owner _ = _)) by done. split; [|done].
    unfold isAvail. rec_simpl. rewrite Hph. simpl. lia.
  - intros u. rewrite counted_cons. exact (TI_recorder_rest _ _ _ u HT).
Qed.

(** The part of [claimVM_grant] that makes the Lease. *)
Definition makeLease (id : string) (rec : LeaseRecord) (v : Z) (s : PM) : PM :=
  setPhaseLocked v LEASED (upd_vm v (fun vm => vm <| vm_leaseID := id |>) (s <| leases := <[id := rec]> (leases s) |>)).

Lemma makeLease_lookup id rec v s w vm' :
  vmObjs (makeLease id rec v s) !! w = Some vm' ->
  exists vm, vmObjs s !! w = Some vm /\ vm_id vm' = vm_id vm /\ vm_uid vm' = vm_uid vm /\ vm_pool vm' = vm_pool vm
  /\ vm_deleteInFlight vm' = vm_deleteInFlight vm /\ vm_leaseID vm' = (if decide (w = v) then id else vm_leaseID vm)
  /\ vm_phase vm' = (if decide (w = v) then LEASED else vm_phase vm).
Proof.
  unfold makeLease, setPhaseLocked, upd_vm. rec_simpl. destruct (decide (w = v)) as [->|Hd].
  - rewrite !lookup_alter_eq. destruct (vmObjs s !! v) as [vm|]; [|done]. intros [= <-]. by exists vm.
  - rewrite !lookup_alter_ne by done. intros Hw. by exists vm'.
Qed.

Lemma makeLease_fwd id rec v s w vm : vmObjs s !! w = Some vm -> exists vm', vmObjs (makeLease id rec v s) !! w = Some vm'.
Proof.
  intros Hw. unfold makeLease, setPhaseLocked, upd_vm. rec_simpl. destruct (decide (w = v)) as [->|Hd].
  - rewrite !lookup_alter_eq, Hw. simpl. eauto.
  - rewrite !lookup_alter_ne by done. eauto.
Qed.

Section makeLease.
Context (v : Z) (vm : vmState) (id : string) (rec : LeaseRecord) (s : PM) (HS : SI s).
Context (Hv : vmObjs s !! v = Some vm) (Hvin : v ∈ vms s) (Hpool : is_Some (pools s !! vm_pool vm)) (Hu : vm_uid vm <> "").
Context (Hid : id <> "") (Hnew : forall w vm, vmObjs s !! w = Some vm -> vm_leaseID vm <> id).
Context (Hrec : lr_LeaseID rec = id /\ lr_VMUID rec = vm_uid vm /\ lr_Pool rec = vm_pool vm).
Context (Hnone : leases s !! vm_leaseID vm = None).

Lemma makeLease_SI : SI (makeLease id rec v s).
Proof using All.
  split.
  - intros w vm' Hw. destruct (makeLease_lookup _ _ _ _ _ _ Hw) as (vm0 & H0 & Hi & _). rewrite Hi. by apply (si_id s HS).
  - intros w [vm0 Hw]%(si_vms s HS). destruct (makeLease_fwd id rec v s w vm0 Hw) as [vm' ?]. by exists vm'.
  - apply (si_pools s HS).
  - apply (si_addr s HS).
  - intros u w (Hu0 & Hw & vm0 & H0 & Hu1)%(si_byuid s HS). split_and!; [done|done|].
    destruct (makeLease_fwd id rec v s w vm0 H0) as [vm' Hw']. exists vm'. split; [done|].
    destruct (makeLease_lookup _ _ _ _ _ _ Hw') as (vm1 & H1 & _ & Hu2 & _). congruence.
  - intros w vm' Hw Hwin Huw. destruct (makeLease_lookup _ _ _ _ _ _ Hw) as (vm0 & H0 & _ & Hu0 & _).
    rewrite Hu0. apply (si_live s HS); [done|done|congruence].
  - intros w vm1 w' vm2 H1 H2 Heq Hne. destruct (makeLease_lookup _ _ _ _ _ _ H1) as (vm3 & H3 & _ & Hu3 & _).
    destruct (makeLease_lookup _ _ _ _ _ _ H2) as (vm4 & H4 & _ & Hu4 & _). apply (si_uid s HS w vm3 w' vm4); congruence.
  - intros w vm' Hw Hp. destruct (makeLease_lookup _ _ _ _ _ _ Hw) as (vm0 & H0 & _ & Hu0 & _ & _ & _ & Hph). rewrite Hu0.
    destruct (decide (w = v)); [congruence|]. apply (si_avail s HS w); congruence.
  - change (leases (makeLease id rec v s)) with (<[id := rec]> (leases s)). rewrite lookup_insert_ne by done. apply (si_nolease s HS).
  - intros w vm1 w' vm2 H1 H2 Heq Hne. destruct (makeLease_lookup _ _ _ _ _ _ H1) as (vm3 & H3 & _ & _ & _ & _ & Hl3 & _).
    destruct (makeLease_lookup _ _ _ _ _ _ H2) as (vm4 & H4 & _ & _ & _ & _ & Hl4 & _).
    destruct (decide (w = v)) as [->|Hwv], (decide (w' = v)) as [->|Hwv']; try done.
    + exfalso. apply (Hnew w' vm4 H4). congruence.
    + exfalso. apply (Hnew w vm3 H3). congruence.
    + apply (si_lid s HS w vm3 w' vm4); congruence.
  - intros id' rec'. change (leases (makeLease id rec v s)) with (<[id := rec]> (leases s)).
    destruct (decide (id' = id)) as [->|Hne].
    + rewrite lookup_insert_eq. intros [= <-]. destruct Hrec as (Hr1 & Hr2 & Hr3). split_and!; [done|by rewrite Hr3|congruence|].
      destruct (makeLease_fwd id rec v s v vm Hv) as [vm' Hv']. exists v, vm'.
      destruct (makeLease_lookup _ _ _ _ _ _ Hv') as (vm1 & H1 & _ & Hu1 & Hp1 & _ & Hl1 & _). rewrite decide_True in Hl1 by done.
      assert (vm1 = vm) as -> by congruence. split_and!; [done|done|congruence..].
    + rewrite lookup_insert_ne by done. intros Hl.
      destruct (si_lease s HS id' rec' Hl) as (Hi & Hp & Huu & w & vm0 & Hw & Hwin & Hlid & Hu0 & Hpl).
      split_and!; [done|done|done|]. assert (w <> v) as Hwv by (intros ->; congruence).
      destruct (makeLease_fwd id rec v s w vm0 Hw) as [vm' Hw']. exists w, vm'.
      destruct (makeLease_lookup _ _ _ _ _ _ Hw') as (vm1 & H1 & _ & Hu1 & Hp1 & _ & Hl1 & _).
      rewrite decide_False in Hl1 by done. split_and!; [done|done|congruence..].
Qed.

Lemma makeLease_TI th rest : owner (th_pc th) = Some v -> deleter (th_pc th) = None -> TI s (th :: rest) -> TI (makeLease id rec v s) rest.
Proof using All.
  intros Ho Hd HT. destruct (owner_alone _ _ _ v vm HT Ho Hv) as (Hc & _ & _). pose proof (TI_drop _ _ _ HT Hd) as [T1 T2 T3 T4]. split.
  - eapply Forall_impl; [exact T1|]. intros t. apply thread_ok_frame; [| |eauto].
    + intros w vm0 Hw. destruct (makeLease_fwd id rec v s w vm0 Hw) as [vm' Hw']. exists vm'.
      destruct (makeLease_lookup _ _ _ _ _ _ Hw') as (vm1 & H1 & _ & Hu1 & Hp1 & _). split_and!; congruence.
    + intros w vm' Hw. destruct (makeLease_lookup _ _ _ _ _ _ Hw) as (vm1 & H1 & _ & Hu1 & _). eauto.
  - intros w vm' Hw. destruct (makeLease_lookup _ _ _ _ _ _ Hw) as (vm1 & H1 & _ & _ & _ & _ & Hl & Hp).
    unfold isAvail, isLeased. rewrite Hl, Hp. change (leases (makeLease id rec v s)) with (<[id := rec]> (leases s)).
    destruct (decide (w = v)) as [->|Hwv].
    + rewrite Hc, lookup_insert_eq. simpl. lia.
    + rewrite lookup_insert_ne by (apply not_eq_sym; by apply (Hnew w)). exact (T2 w vm1 H1).
  - intros w vm' Hw. destruct (makeLease_lookup _ _ _ _ _ _ Hw) as (vm1 & H1 & _ & _ & _ & -> & _). by apply T3.
  - done.
Qed.
End makeLease.

Lemma claim_grant_inv cfg id v a rid tr s rest :
  SI s -> TI s ({| th_tracked := tr; th_pc := PcClaimGrant v a rid |} :: rest) ->
  id <> "" -> leases s !! id = None -> (forall w vm, vmObjs s !! w = Some vm -> vm_leaseID vm <> id) ->
  let '(s', _, l) := claimVM_grant cfg id v a rid s in SI s' /\ TI s' (provisions l ++ rest).
Proof.
  intros HS HT Hid Hl Hnew. pose proof (ti_ok _ _ HT) as Hok. apply Forall_cons in Hok as [Hth _].
  unfold thread_ok in Hth. simpl in Hth. destruct Hth as (vm & ps & Hv & Hu & Hps & Hk).
  unfold claimVM_grant. rewrite Hv, Hps. destruct (aliveLocked v s) eqn:Ha; cbn [negb]; [|split; [done|by apply (TI_drop _ _ _ HT)]].
  destruct (alive_spec v s Ha) as (vm0 & H0 & Hin & Hpool). assert (vm0 = vm) as -> by congruence. clear H0.
  destruct (owner_alone _ _ _ v vm HT eq_refl Hv) as (_ & _ & Hnone).
  set (rec := {| lr_LeaseID := id; lr_VMUID := vm_uid vm; lr_Pool := po_key ps |}).
  fold (makeLease id rec v s).
  assert (SI (makeLease id rec v s)) as HS1 by (by apply (makeLease_SI v vm)).
  assert (TI (makeLease id rec v s) rest) as HT1 by (by eapply (makeLease_TI v vm id rec s HS Hv Hin Hpool Hu Hid Hnew); [| | | |exact HT]).
  generalize dependent (makeLease id rec v s). intros s1 HS1 HT1.
  pose proof (evo_emit (po_key ps) (vm_uid vm) VM_CLAIMED [("host", JStr (vm_host vm)); ("lease_id", JStr id)] s1 (SI_bounded _ HS1)) as E1.
  set (s2 := emitLocked _ _ _ _ s1) in *. pose proof (evo_SI _ _ _ E1 HS1) as HS2. pose proof (evo_TI _ _ _ _ E1 HS1 HT1) as HT2.
  pose proof (evo_provisionN cfg a (onClaimed (strategyOf (po_spec ps))) "claim" s2 (SI_bounded _ HS2)) as E2.
  destruct (provisionNLocked cfg a _ "claim" s2) as [s3 l]. simpl in E2.
  pose proof (evo_SI _ _ _ E2 HS2) as HS3. pose proof (evo_TI _ _ _ _ E2 HS2 HT2) as HT3.
  destruct (0 <? _); [|done].
  assert (evo [] s3 (s3 <| faults := (faults s3) <| fl_LoseClaimResponses := fl_LoseClaimResponses (faults s3) - 1 |> |>)) as E3
    by (by apply evo_same).
  split; [exact (evo_SI _ _ _ E3 HS3)|exact (evo_TI _ _ _ _ E3 HS3 HT3)].
Qed.

(** ** A failed hook *)
Definition clearLease (v : Z) (s : PM) : PM := upd_vm v (fun vm => vm <| vm_leaseID := "" |>) s.

Lemma clearLease_lookup v s w vm' :
  vmObjs (clearLease v s) !! w = Some vm' ->
  exists vm, vmObjs s !! w = Some vm /\ vm_id vm' = vm_id vm /\ vm_uid vm' = vm_uid vm /\ vm_pool vm' = vm_pool vm
  /\ vm_deleteInFlight vm' = vm_deleteInFlight vm /\ vm_leaseID vm' = (if decide (w = v) then "" else vm_leaseID vm)
  /\ vm_phase vm' = vm_phase vm.
Proof.
  unfold clearLease, upd_vm. rec_simpl. destruct (decide (w = v)) as [->|Hd].
  - rewrite lookup_alter_eq. destruct (vmObjs s !! v) as [vm|]; [|done]. intros [= <-]. by exists vm.
  - rewrite lookup_alter_ne by done. intros Hw. by exists vm'.
Qed.

Lemma clearLease_fwd v s w vm : vmObjs s !! w = Some vm -> exists vm', vmObjs (clearLease v s) !! w = Some vm'.
Proof.
  intros Hw. unfold clearLease, upd_vm. rec_simpl. destruct (decide (w = v)) as [->|Hd].
  - rewrite lookup_alter_eq, Hw. simpl. eauto.
  - rewrite lookup_alter_ne by done. eauto.
Qed.

Lemma clearLease_SI v vm s : SI s -> vmObjs s !! v = Some vm -> leases s !! vm_leaseID vm = None -> SI (clearLease v s).
Proof.
  intros HS Hv Hnone. split.
  - intros w vm' Hw. destruct (clearLease_lookup _ _ _ _ Hw) as (vm0 & H0 & Hi & _). rewrite Hi. by apply (si_id s HS).
  - intros w [vm0 Hw]%(si_vms s HS). destruct (clearLease_fwd v s w vm0 Hw) as [vm' ?]. by exists vm'.
  - apply (si_pools s HS).
  - apply (si_addr s HS).
  - intros u w (Hu0 & Hw & vm0 & H0 & Hu1)%(si_byuid s HS). split_and!; [done|done|].
    destruct (clearLease_fwd v s w vm0 H0) as [vm' Hw']. exists vm'. split; [done|].
    destruct (clearLease_lookup _ _ _ _ Hw') as (vm1 & H1 & _ & Hu2 & _). congruence.
  - intros w vm' Hw Hwin Huw. destruct (clearLease_lookup _ _ _ _ Hw) as (vm0 & H0 & _ & Hu0 & _).
    rewrite Hu0. apply (si_live s HS); [done|done|congruence].
  - intros w vm1 w' vm2 H1 H2 Heq Hne. destruct (clearLease_lookup _ _ _ _ H1) as (vm3 & H3 & _ & Hu3 & _).
    destruct (clearLease_lookup _ _ _ _ H2) as (vm4 & H4 & _ & Hu4 & _). apply (si_uid s HS w vm3 w' vm4); congruence.
  - intros w vm' Hw Hp. destruct (clearLease_lookup _ _ _ _ Hw) as (vm0 & H0 & _ & Hu0 & _ & _ & _ & Hph). rewrite Hu0.
    apply (si_avail s HS w); congruence.
  - apply (si_nolease s HS).
  - intros w vm1 w' vm2 H1 H2 Heq Hne. destruct (clearLease_lookup _ _ _ _ H1) as (vm3 & H3 & _ & _ & _ & _ & Hl3 & _).
    destruct (clearLease_lookup _ _ _ _ H2) as (vm4 & H4 & _ & _ & _ & _ & Hl4 & _).
    destruct (decide (w = v)), (decide (w' = v)); try congruence. apply (si_lid s HS w vm3 w' vm4); congruence.
  - intros id rec Hl. change (leases s !! id = Some rec) in Hl. destruct (si_lease s HS id rec Hl) as (Hi & Hp & Huu & w & vm0 & Hw & Hwin & Hlid & Hu0 & Hpl).
    split_and!; [done|done|done|]. assert (w <> v) as Hwv by (intros ->; congruence).
    destruct (clearLease_fwd v s w vm0 Hw) as [vm' Hw']. exists w, vm'.
    destruct (clearLease_lookup _ _ _ _ Hw') as (vm1 & H1 & _ & Hu1 & Hp1 & _ & Hl1 & _).
    rewrite decide_False in Hl1 by done. split_and!; [done|done|congruence..].
Qed.

Lemma clearLease_TI v vm s ths : SI s -> vmObjs s !! v = Some vm -> TI s ths -> TI (clearLease v s) ths.
Proof.
  intros HS Hv [T1 T2 T3 T4]. split.
  - eapply Forall_impl; [exact T1|]. intros t. apply thread_ok_frame; [| |eauto].
    + intros w vm0 Hw. destruct (clearLease_fwd v s w vm0 Hw) as [vm' Hw']. exists vm'.
      destruct (clearLease_lookup _ _ _ _ Hw') as (vm1 & H1 & _ & Hu1 & Hp1 & _). split_and!; congruence.
    + intros w vm' Hw. destruct (clearLease_lookup _ _ _ _ Hw) as (vm1 & H1 & _ & Hu1 & _). eauto.
  - intros w vm' Hw. destruct (clearLease_lookup _ _ _ _ Hw) as (vm1 & H1 & _ & _ & _ & _ & Hl & Hp).
    specialize (T2 w vm1 H1). unfold isAvail, isLeased in *. rewrite Hl, Hp. change (leases (clearLease v s)) with (leases s).
    destruct (decide (w = v)); [rewrite (si_nolease s HS); lia|done].
  - intros w vm' Hw. destruct (clearLease_lookup _ _ _ _ Hw) as (vm1 & H1 & _ & _ & _ & -> & _). by apply T3.
  - done.
Qed.

Lemma hookFailure_inv v hook cause th s rest :
  SI s -> TI s (th :: rest) -> owner (th_pc th) = Some v -> deleter (th_pc th) = None ->
  let r := applyHookFailurePolicy v hook cause s in SI r.1 /\ TI r.1 rest.
Proof.
  intros HS HT Ho Hd. pose proof (TI_drop _ _ _ HT Hd) as HT0. unfold applyHookFailurePolicy.
  destruct (vmObjs s !! v) as [vm|] eqn:Hv; [|done]. destruct (lookupPool _ s) as [[a ps]|]; [|done].
  destruct (aliveLocked v s); cbn [negb]; [|done].
  destruct (owner_alone _ _ _ v vm HT Ho Hv) as (_ & _ & Hnone). fold (clearLease v s).
  pose proof (clearLease_SI v vm s HS Hv Hnone) as HS1. pose proof (clearLease_TI v vm s rest HS Hv HT0) as HT1.
  generalize dependent (clearLease v s). intros s1 HS1 HT1.
  set (s2 := emitLocked _ _ _ _ s1).
  assert (evo [] s1 s2) as E1 by (apply evo_emit, SI_bounded, HS1).
  pose proof (evo_SI _ _ _ E1 HS1) as HS2. pose proof (evo_TI _ _ _ _ E1 HS1 HT1) as HT2.
  assert (forall ph, ph <> AVAILABLE -> SI (setPhaseLocked v ph s2) /\ TI (setPhaseLocked v ph s2) rest) as HF.
  { intros ph Hph. pose proof (evo_setPhase v ph s2 Hph) as E2. split; [exact (evo_SI _ _ _ E2 HS2)|exact (evo_TI _ _ _ _ E2 HS2 HT2)]. }
  destruct (sp_HookFailurePolicy _); simpl; by apply HF.
Qed.

(** ** Deletions *)
Lemma deleteVM_begin_inv v ev vs why failed tr s rest :
  SI s -> TI s ({| th_tracked := tr; th_pc := PcDelete (v :: vs) ev why failed |} :: rest) ->
  let r := deleteVM_begin v ev s in
  SI r.1 /\ match r.2 with
            | DelHost host uid => TI r.1 ({| th_tracked := tr; th_pc := PcDeleteHost v host uid vs ev why failed |} :: rest)
            | _ => TI r.1 rest
            end.
Proof.
  intros HS HT. pose proof (TI_drop _ _ _ HT eq_refl) as HT0. unfold deleteVM_begin.
  destruct (vmObjs s !! v) as [vm|] eqn:Hv; [|done]. destruct (bool_decide (v ∈ vms s)); [|done]. cbn [negb].
  set (s2 := match ev with Some _ => _ | None => _ end).
  assert (evo [] s s2) as E.
  { pose proof (evo_setPhase v DELETING s ltac:(done)) as E1. unfold s2. destruct ev; [|done].
    eapply evo_then; [by apply SI_bounded|exact E1|]. apply evo_upd_vm. by intros vm0. }
  pose proof (evo_SI _ _ _ E HS) as HS2. pose proof (evo_TI _ _ _ _ E HS HT0) as HT2. pose proof (evo_TI _ _ _ _ E HS HT) as HT3.
  destruct (evo_old _ _ _ E v vm Hv) as (vm2 & Hv2 & _ & _ & Hfl).
  destruct (vm_deleteInFlight vm) eqn:Hf; [done|]. cbn [fst snd]. split.
  - apply SI_upd_vm; [done|done|]. intros vm0 H0 Hp. exact (si_avail _ HS2 v vm0 H0 Hp).
  - apply (TI_upd_vm v _ s2 _ [_] rest HT3); try done.
    + constructor; [|done]. unfold thread_ok. simpl. by exists vm2.
    + intros w Hw. rewrite !counted_cons, !counted_nil. simpl. rewrite bool_decide_false by congruence. done.
    + intros vm0 H0. assert (vm0 = vm2) as -> by congruence. rewrite !counted_cons, !counted_nil. rewrite Hfl.
      rewrite (bool_decide_true (deleter _ = _)) by done. split; [|done]. unfold isAvail. done.
    + intros u. rewrite counted_cons. exact (TI_recorder_rest _ _ _ u HT).
Qed.

Lemma deleteVM_end_inv cfg v err vs ev why failed tr s rest :
  SI s -> TI s ({| th_tracked := tr; th_pc := PcDeleteEnd v err vs ev why failed |} :: rest) ->
  let r := deleteVM_end cfg v err s in SI r.1 /\ TI r.1 (provisions r.2 ++ rest).
Proof.
  intros HS HT. pose proof (ti_ok _ _ HT) as Hok. apply Forall_cons in Hok as [Hth _].
  unfold thread_ok in Hth. simpl in Hth. destruct Hth as [vm Hv].
  unfold deleteVM_end. set (s1 := upd_vm v _ s).
  assert (SI s1) as HS1.
  { apply SI_upd_vm; [done|done|]. intros vm0 H0 Hp. exact (si_avail _ HS v vm0 H0 Hp). }
  assert (TI s1 rest) as HT1.
  { apply (TI_upd_vm v _ s _ [] rest HT); try done.
    - intros w Hw. rewrite counted_cons, counted_nil. simpl. rewrite bool_decide_false by congruence. done.
    - intros vm0 H0. assert (vm0 = vm) as -> by congruence. pose proof (ti_flight _ _ HT v vm Hv) as Hf.
      rewrite counted_cons, (bool_decide_true (deleter _ = _)) in Hf by done.
      rewrite !counted_cons, !counted_nil, (bool_decide_true (deleter _ = _)) by done.
      destruct (vm_deleteInFlight vm); [|done]. split; [|done]. unfold isAvail. done.
    - intros u. rewrite counted_nil. exact (TI_recorder_rest _ _ _ u HT). }
  destruct err; [done|]. by apply finishDeletion_inv.
Qed.

(** ** Pools *)
Lemma SI_pools_frame s s' :
  SI s -> vmObjs s' = vmObjs s -> vms s' = vms s -> vmByUID s' = vmByUID s -> leases s' = leases s -> nextVM s' = nextVM s ->
  (forall k a, pools s' !! k = Some a -> exists ps, poolObjs s' !! a = Some ps /\ po_key ps = k) ->
  (forall a, is_Some (poolObjs s' !! a) -> a < nextPool s') ->
  (forall id rec, leases s !! id = Some rec -> is_Some (pools s' !! lr_Pool rec)) -> SI s'.
Proof.
  intros HS E1 E2 E3 E4 E5 HP HA HL. split; rewrite ?E1, ?E2, ?E3, ?E4, ?E5; try done; try by apply HS.
  intros id rec Hl. destruct (si_lease s HS id rec Hl) as (H1 & _ & H3 & v & vm & Hlo). split_and!; [done|by eapply HL|done|].
  exists v, vm. unfold lease_of in *. by rewrite E1, E2.
Qed.

Lemma createPool_inv cfg spec s ths : SI s -> TI s ths -> SI (createPool cfg spec s).1 /\ TI (createPool cfg spec s).1 ths.
Proof.
  intros HS HT. unfold createPool. destruct (validateSpec spec) as [spec'|]; [|done]. destruct (checkNamespace _ _); [done|].
  destruct (pools s !! sp_Ref spec') eqn:Ek; [done|]. cbn [fst].
  assert (poolObjs s !! nextPool s = None) as Hfree.
  { destruct (poolObjs s !! nextPool s) eqn:E; [|done]. pose proof (si_addr s HS (nextPool s) ltac:(by rewrite E)). lia. }
  split.
  - apply (SI_pools_frame s); try done; unfold kickReconcile; rec_simpl.
    + intros k a. destruct (decide (k = sp_Ref spec')) as [->|Hne].
      * rewrite lookup_insert_eq. intros [= <-]. eexists. by rewrite lookup_insert_eq.
      * rewrite lookup_insert_ne by done. intros Hk. destruct (si_pools s HS k a Hk) as (ps & Hps & Hkey).
        exists ps. rewrite lookup_insert_ne by congruence. done.
    + intros a. destruct (decide (a = nextPool s)) as [->|Hne]; [lia|]. rewrite lookup_insert_ne by done.
      intros Ha. pose proof (si_addr s HS a Ha). lia.
    + intros id rec Hl. destruct (si_lease s HS id rec Hl) as (_ & Hp & _).
      destruct (decide (lr_Pool rec = sp_Ref spec')) as [->|Hne]; [by rewrite lookup_insert_eq|by rewrite lookup_insert_ne].
  - apply (TI_frame s); try done. intros a ps Hps. exists ps. unfold kickReconcile. rec_simpl. rewrite lookup_insert_ne by congruence. done.
Qed.

Lemma updatePool_inv cfg spec s ths : SI s -> TI s ths -> SI (updatePool cfg spec s).1 /\ TI (updatePool cfg spec s).1 ths.
Proof.
  intros HS HT. unfold updatePool. destruct (validateSpec spec) as [spec'|]; [|done].
  destruct (poolLocked cfg _ s) as [[a ps]|]; [|done]. cbn [fst].
  assert (evo [] s (kickReconcile (upd_pool a (fun ps => ps <| po_spec := spec' |> <| po_fresh := true |>) s))) as E.
  { eapply evo_then; [by apply SI_bounded|by apply (evo_upd_pool s a (fun ps => ps <| po_spec := spec' |> <| po_fresh := true |>))|].
    by apply evo_same. }
  split; [exact (evo_SI _ _ _ E HS)|exact (evo_TI _ _ _ _ E HS HT)].
Qed.

Lemma evo_emits key typ (l : list vmState) s :
  bounded s -> evo [] s (fold_left (fun s vm => emitLocked key (vm_uid vm) typ [("host", JStr (vm_host vm))] s) l s).
Proof.
  revert s. induction l as [|vm l IH]; intros s HB; cbn [fold_left]; [apply evo_refl|].
  pose proof (evo_emit key (vm_uid vm) typ [("host", JStr (vm_host vm))] s HB) as E.
  eapply evo_then; [done|exact E|]. apply IH. by eapply bounded_evo_nil.
Qed.

Lemma deletePool_inv cfg ref s ths : SI s -> TI s ths -> SI (deletePool_locked cfg ref s).1 /\ TI (deletePool_locked cfg ref s).1 ths.
Proof.
  intros HS HT. unfold deletePool_locked. destruct (poolLocked cfg ref s) as [[a ps]|]; [|done].
  destruct (existsb _ _) eqn:Ex; [done|]. cbn [fst].
  set (l := filter _ (vms_of _ s)). pose proof (evo_emits (po_key ps) VM_DELETED_ON_POOL_DELETE l s (SI_bounded s HS)) as E.
  set (s1 := fold_left _ l s) in *. pose proof (evo_SI _ _ _ E HS) as HS1. pose proof (evo_TI _ _ _ _ E HS HT) as HT1. split.
  - apply (SI_pools_frame s1); try done; rec_simpl.
    + intros k b [_ Hk]%lookup_delete_Some. exact (si_pools s1 HS1 k b Hk).
    + exact (si_addr s1 HS1).
    + intros id rec Hl. destruct (evo_leases _ _ _ E _ _ Hl) as (rec0 & Hl0 & Hc). core_eq.
      destruct (si_lease s1 HS1 id rec Hl) as (_ & Hp & _). rewrite lookup_delete_ne; [done|]. intros Hk.
      apply not_true_iff_false in Ex. apply Ex, existsb_exists. exists (id, rec0). split.
      * apply list_elem_of_In, elem_of_map_to_list. done.
      * apply bool_decide_eq_true. simpl. congruence.
  - apply (TI_frame s1); try done. intros b ps' Hps. by exists ps'.
Qed.

Lemma releaseVM_begin_inv id s ths : SI s -> TI s ths -> SI (releaseVM_begin id s).1 /\ TI (releaseVM_begin id s).1 ths.
Proof.
  intros HS HT. pose proof (SI_bounded s HS) as HB. unfold releaseVM_begin. destruct (leases s !! id) as [rec|]; [|done].
  destruct (vm_at _ s) as [vm|].
  - cbn [fst]. destruct (vm_released vm); [done|].
    assert (evo [] s (upd_vm (vm_id vm) (fun vm => vm <| vm_released := true |>) s)) as E1 by (apply evo_upd_vm; by intros vm0).
    pose proof (evo_emit (lr_Pool rec) (vm_uid vm) VM_RELEASED [("lease_id", JStr id)] _ (bounded_evo_nil _ _ HB E1)) as E2.
    pose proof (evo_then _ _ _ _ HB E1 E2) as E. split; [exact (evo_SI _ _ _ E HS)|exact (evo_TI _ _ _ _ E HS HT)].
  - pose proof (evo_dropLease id s HB) as E. split; [exact (evo_SI _ _ _ E HS)|exact (evo_TI _ _ _ _ E HS HT)].
Qed.

Lemma handle_inv cfg r s ths :
  SI s -> TI s ths -> let '(s', next, _) := handle cfg r s in SI s' /\ TI s' ((handler <$> next) ++ ths).
Proof.
  intros HS HT. unfold handle. destruct (unavailable s); [done|]. destruct r.
  - pose proof (createPool_inv cfg spec s ths HS HT). by destruct (createPool cfg spec s).
  - pose proof (updatePool_inv cfg spec s ths HS HT). by destruct (updatePool cfg spec s).
  - destruct (deletePool_inv cfg ref s ths HS HT) as [HS1 HT1]. destruct (deletePool_locked cfg ref s) as [s1 [vs|e]]; [|done].
    split; [done|]. apply TI_add_plain; [done|]. by repeat constructor.
  - done.
  - done.
  - destruct (_ <? _)%nat; [done|]. split; [done|]. apply TI_add_plain; [done|]. by repeat constructor.
  - pose proof (evo_heartbeat leaseID s) as E. destruct (heartbeat leaseID s) as [s1 r]. simpl in E.
    split; [exact (evo_SI _ _ _ E HS)|exact (evo_TI _ _ _ _ E HS HT)].
  - destruct (releaseVM_begin_inv leaseID s ths HS HT) as [HS1 HT1]. destruct (releaseVM_begin leaseID s) as [s1 [r|v]]; [done|].
    split; [done|]. apply TI_add_plain; [done|]. by repeat constructor.
Qed.
