(* ===== verification/FakeThms.v ===== *)
(** * The fake Pool Manager: what holds of every run *)
From S2P Require Import Prelude GoModel PoolTypes ConfigTypes Spec PoolClient FakePool FakeOps FakeLoop FakeSys FakeInv FakeSteps.

(** A goroutine goes on with what it held. *)
Lemma TI_next s th p rest :
  TI s (th :: rest) -> thread_ok s {| th_tracked := th_tracked th; th_pc := p |} ->
  owner p = owner (th_pc th) -> deleter p = deleter (th_pc th) -> recorder p = None ->
  TI s ({| th_tracked := th_tracked th; th_pc := p |} :: rest).
Proof.
  intros HT Hok Ho Hd Hr. apply (TI_swap s th [_] rest HT).
  - by constructor.
  - intros v. rewrite !counted_cons. simpl. by rewrite Ho.
  - intros v. rewrite !counted_cons. simpl. by rewrite Hd.
  - intros u. rewrite counted_cons. simpl. rewrite Hr. exact (TI_recorder_rest _ _ _ u HT).
Qed.

Section Reach.
Context (cfg : FakeConfig) (FormatRFC3339Nano : time -> string).

(** What [env_ok] asks of the answer a goroutine gets. *)
Definition answer_ok (ans : answer) (s : PM) (ths : list thread) : Prop :=
  match ans with
  | ALease id => id <> "" /\ leases s !! id = None /\ forall v vm, vmObjs s !! v = Some vm -> vm_leaseID vm <> id
  | AUid uid => uid = "" \/ (forall v vm, vmObjs s !! v = Some vm -> vm_uid vm <> uid)
                           /\ (forall th w cmds, th ∈ ths -> th_pc th <> PcProvRecord w uid cmds)
  | _ => True
  end.

Ltac next_step HT Hth := eapply (TI_next _ _ _ _ HT); [exact Hth|done..].
Ltac done_step HS HT := split; [exact HS|exact (TI_drop _ _ _ HT eq_refl)].
Ltac plain_next HT := apply (TI_add_plain _ [_] _ (TI_drop _ _ _ HT eq_refl)); by repeat constructor.

(** Whatever a goroutine does next keeps the invariant. *)
Definition keeps (p : pc) : Prop := forall tr ans s rest,
  SI s -> TI s ({| th_tracked := tr; th_pc := p |} :: rest) -> answer_ok ans s ({| th_tracked := tr; th_pc := p |} :: rest) ->
  match run_thread cfg FormatRFC3339Nano {| th_tracked := tr; th_pc := p |} ans s with
  | Some (s', new, _) => SI s' /\ TI s' (new ++ rest)
  | None => True
  end.

Ltac start := intros tr ans s rest HS HT Hans; pose proof (ti_ok _ _ HT) as Hok; apply Forall_cons in Hok as [Hth _];
  unfold run_thread; cbn [th_pc th_tracked run_pc].

Definition claim_pc (p : pc) : Prop :=
  match p with
  | PcClaim _ _ _ | PcClaimHooks _ _ _ _ | PcClaimExec _ _ _
  | PcClaimGrant _ _ _ | PcClaimFailed _ _ => True
  | _ => False
  end.

(** A claim. *)
Lemma keeps_claim p : claim_pc p -> keeps p.
Proof.
  destruct p; intros []; start.
  - (* PcClaim *)
    destruct ans; try done; [done_step HS HT|]. destruct (time_Before _ _); [done|].
    destruct (claim_begin_inv cfg ol ref requestID due tr s rest HS HT) as [HS1 HT1].
    destruct (claimVM_begin cfg ol ref requestID s) as [s1 [r|v a cmds]]; done.
  - (* PcClaimHooks *)
    destruct ans; try done. destruct (vmObjs s !! v) as [vm|] eqn:Hv; [|done].
    pose proof (evo_consume (vm_pool vm) HookPreLease s) as E. pose proof (evo_SI _ _ _ E HS) as HS1.
    pose proof (evo_TI _ _ _ _ E HS HT) as HT1. pose proof (thread_ok_evo _ _ _ _ E Hth) as Hth1.
    destruct (consumeHookFailure _ _ s) as [s1 fault]. simpl in *. unfold thread_ok in Hth1. simpl in Hth1.
    destruct fault; [|destruct cmds]; (split; [done|]); [|next_step HT1 Hth1..].
    eapply (TI_next _ _ _ _ HT1); [|done..]. destruct Hth1 as (vm1 & ps & ? & ? & _). exists vm1. done.
  - (* PcClaimExec *)
    destruct ans; try done; (split; [done|]); [next_step HT Hth|].
    eapply (TI_next _ _ _ _ HT); [|done..]. destruct Hth as (vm1 & ps & ? & ? & _). exists vm1. done.
  - (* PcClaimGrant *)
    destruct ans; try done. destruct Hans as (H1 & H2 & H3).
    pose proof (claim_grant_inv cfg id v a requestID tr s rest HS HT H1 H2 H3) as Hg.
    destruct (claimVM_grant cfg id v a requestID s) as [[s1 r] l]. exact Hg.
  - (* PcClaimFailed *)
    destruct ans; try done.
    destruct (hookFailure_inv v HookPreLease cause _ s rest HS HT eq_refl eq_refl) as [HS1 HT1].
    destruct (applyHookFailurePolicy v HookPreLease cause s) as [s1 [|]]; split; try done.
    apply TI_add_plain; [done|by repeat constructor].
Qed.

Definition delete_pc (p : pc) : Prop :=
  match p with
  | PcDelete _ _ _ _ | PcDeleteHost _ _ _ _ _ _ _ | PcDeleteEnd _ _ _ _ _ _
  | PcTick _ | PcOrphan _ | PcCleanup
  | PcCleanupEnd => True
  | _ => False
  end.

(** Deletions, the tick and the shutdown. *)
Lemma keeps_delete p : delete_pc p -> keeps p.
Proof.
  destruct p; intros []; start.
  - (* PcDelete *)
    destruct vs as [|v vs]; destruct ans; try done.
    + destruct why; simpl; try done_step HS HT. split; [done|plain_next HT].
    + destruct (deleteVM_begin_inv v ev vs why failed tr s rest HS HT) as [HS1 HT1].
      destruct (deleteVM_begin v ev s) as [s1 [| |host uid]]; (split; [done|]); [| |done];
        (apply TI_add_plain; [done|by repeat constructor]).
  - (* PcDeleteHost *)
    destruct ans; try done; (split; [done|]); next_step HT Hth.
  - (* PcDeleteEnd *)
    destruct ans; try done. destruct (deleteVM_end_inv cfg v err vs ev why failed tr s rest HS HT) as [HS1 HT1].
    destruct (deleteVM_end cfg v err s) as [s1 l]. split; [done|]. simpl in HT1.
    apply (TI_add_plain s1 [_] (provisions l ++ rest)); [done|by repeat constructor].
  - (* PcTick *)
    destruct ans; try done. pose proof (evo_tick cfg FormatRFC3339Nano t ol op s (SI_bounded s HS)) as E.
    destruct (tick cfg FormatRFC3339Nano t ol op s) as [s1 out]. simpl in E. split; [exact (evo_SI _ _ _ E HS)|].
    pose proof (evo_TI _ _ _ _ E HS (TI_drop _ _ _ HT eq_refl)) as HT1.
    rewrite fmap_nil, app_nil_l, app_assoc, <-app_assoc.
    apply TI_add_plain; [done|]. apply Forall_app. split; apply Forall_fmap, Forall_true; done.
  - (* PcOrphan *) destruct ans; done_step HS HT.
  - (* PcCleanup *) destruct ans; try done. split; [done|plain_next HT].
  - (* PcCleanupEnd *)
    destruct ans; try done. pose proof (evo_fold_dropLease (arrange ol (map_to_list (leases s)).*1) s (SI_bounded s HS)) as E.
    split; [exact (evo_SI _ _ _ E HS)|exact (evo_TI _ _ _ _ E HS (TI_drop _ _ _ HT eq_refl))].
Qed.

Definition create_pc (p : pc) : Prop :=
  match p with
  | PcProv _ | PcProvSpec _ | PcProvCreate _ _
  | PcProvDrop _ | PcProvRecord _ _ _ => True
  | _ => False
  end.

(** Provisioning up to the uid. *)
Lemma keeps_create p : create_pc p -> keeps p.
Proof.
  destruct p; intros []; start.
  - (* PcProv *)
    destruct ans; try done. destruct (vmObjs s !! v) as [vm|] eqn:Hv; [|done].
    destruct (hostClient (vm_host vm) s); (split; [done|]); next_step HT Hth.
  - (* PcProvSpec *)
    destruct ans; try done. destruct (provision_spec v s) as [[t cmds]|]; (split; [done|]); next_step HT Hth.
  - (* PcProvCreate *)
    destruct ans; try done; (split; [done|]); [next_step HT Hth|].
    destruct (String.eqb_spec uid "") as [->|Hu]; [next_step HT Hth|].
    destruct Hans as [?|[Hf1 Hf2]]; [done|]. apply (TI_swap _ _ [_] rest HT).
    + constructor; [|done]. split_and!; [done|exact Hth|done].
    + intros w. rewrite !counted_cons. done.
    + intros w. rewrite !counted_cons. done.
    + intros u. rewrite counted_cons, counted_nil. simpl. destruct (decide (u = uid)) as [->|Hne].
      * rewrite bool_decide_true, (counted_none recorder) by first [done|
          intros th' Hin Hr; destruct th' as [tr' p']; destruct p'; simplify_eq/=; eapply Hf2; [by right|done]]. lia.
      * rewrite bool_decide_false by congruence. exact (TI_recorder_rest _ _ _ u HT).
  - (* PcProvDrop *)
    destruct ans; try done. destruct Hth as (vm & Hv & Hu). pose proof (dropReserved_untracks v vm s HS Hv Hu) as U.
    split; [exact (untracks_SI _ _ _ _ HS Hv U)|exact (untracks_TI _ _ _ _ _ U (TI_drop _ _ _ HT eq_refl))].
  - (* PcProvRecord *)
    destruct ans; try done. destruct (provision_record_inv v uid cmds tr s rest HS HT) as (HS1 & HT1 & HT2).
    destruct (provision_record v uid s) as [s1 [|]]; simpl in *; (split; [done|]).
    + destruct (bool_decide _); [by apply HT2|done].
    + apply (TI_add_plain s1 [_] rest); [done|by repeat constructor].
Qed.

Definition ready_pc (p : pc) : Prop :=
  match p with
  | PcProvWait _ _ _ | PcProvHooks _ _ _ | PcProvExec _ _
  | PcProvAvail _ _ | PcProvFailed _ _ => True
  | _ => False
  end.

(** Provisioning from the uid on. *)
Lemma keeps_ready p : ready_pc p -> keeps p.
Proof.
  destruct p; intros []; start.
  - (* PcProvWait *)
    destruct ans; try done; [|split; [done|next_step HT Hth]].
    unfold transition. destruct (aliveLocked v s); cbn [negb].
    + pose proof (evo_setPhase v CREATE_HOOK_RUNNING s ltac:(done)) as E. split; [exact (evo_SI _ _ _ E HS)|].
      pose proof (thread_ok_evo _ _ _ _ E Hth) as Hth1. eapply (TI_next _ _ _ _ (evo_TI _ _ _ _ E HS HT)); [exact Hth1|done..].
    + split; [done|plain_next HT].
  - (* PcProvHooks *)
    destruct ans; try done. destruct (vmObjs s !! v) as [vm|] eqn:Hv; [|done].
    pose proof (evo_consume (vm_pool vm) HookCreate s) as E. pose proof (evo_SI _ _ _ E HS) as HS1.
    pose proof (evo_TI _ _ _ _ E HS HT) as HT1. pose proof (thread_ok_evo _ _ _ _ E Hth) as Hth1.
    destruct (consumeHookFailure _ _ s) as [s1 fault]. simpl in *.
    destruct fault; [|destruct cmds]; (split; [done|]); next_step HT1 Hth1.
  - (* PcProvExec *)
    destruct ans; try done; (split; [done|]); next_step HT Hth.
  - (* PcProvAvail *)
    destruct ans; try done. destruct (provision_available_inv v uid tr s rest HS HT) as (HS1 & HT1).
    destruct (provision_available v uid s) as [s1 [|]]; split; try done.
    apply (TI_add_plain s1 [_] rest); [done|by repeat constructor].
  - (* PcProvFailed *)
    destruct ans; try done.
    destruct (hookFailure_inv v HookCreate cause _ s rest HS HT eq_refl eq_refl) as [HS1 HT1].
    destruct (applyHookFailurePolicy v HookCreate cause s) as [s1 [|]]; split; try done.
    apply TI_add_plain; [done|by repeat constructor].
Qed.

Lemma run_thread_inv th ans s rest :
  SI s -> TI s (th :: rest) -> answer_ok ans s (th :: rest) ->
  match run_thread cfg FormatRFC3339Nano th ans s with
  | Some (s', new, _) => SI s' /\ TI s' (new ++ rest)
  | None => True
  end.
Proof.
  destruct th as [tr p]. assert (keeps p) as H; [|exact (H tr ans s rest)].
  destruct p; first [by apply keeps_claim|by apply keeps_delete|by apply keeps_create|by apply keeps_ready].
Qed.

Lemma step_inv i y y' :
  SI (pm y) -> TI (pm y) (threads y) -> env_ok i y -> step cfg FormatRFC3339Nano i y = Some y' ->
  SI (pm y') /\ TI (pm y') (threads y').
Proof.
  intros HS HT Henv Hstep. destruct y as [s ths reps].
  assert (forall s' , evo [] s s' -> SI s' /\ TI s' ths) as HE.
  { intros s' E. split; [exact (evo_SI _ _ _ E HS)|exact (evo_TI _ _ _ _ E HS HT)]. }
  destruct i; simpl in *.
  - pose proof (handle_inv cfg r s ths HS HT) as H. destruct (handle cfg r s) as [[s1 next] rep]. by simplify_eq/=.
  - destruct (ths !! i) as [th|] eqn:Hi; [|done].
    assert (ths ≡ₚ th :: (take i ths ++ drop (S i) ths)) as Hp.
    { rewrite <-(take_drop_middle ths i th Hi) at 1. by rewrite Permutation_middle. }
    rewrite Hp in HT. assert (answer_ok ans s (th :: take i ths ++ drop (S i) ths)) as Hans.
    { destruct ans; simpl in *; try done. destruct Henv as [?|[H1 H2]]; [by left|right]. split; [done|].
      intros th' w cmds. rewrite <-Hp. apply H2. }
    pose proof (run_thread_inv th ans s _ HS HT Hans) as H.
    destruct (run_thread cfg FormatRFC3339Nano th ans s) as [[[s1 new] rep]|]; [|done]. simplify_eq/=.
    destruct H as [HS1 HT1]. split; [done|]. by rewrite (Permutation_app_comm (take i ths)), <-app_assoc, (Permutation_app_comm (drop _ _)).
  - destruct (_ <=? _); [|done]. simplify_eq/=. apply HE. by apply evo_same.
  - simplify_eq/=. apply HE. by apply evo_same.
  - simplify_eq/=. apply HE. unfold SetFaults. destruct (fl_DropEventsStream f); by apply evo_same.
  - simplify_eq/=. apply HE. unfold claimServe. destruct (_ || _); by apply evo_same.
  - unfold Run_begin in Hstep. destruct (started s); [done|]. simplify_eq/=.
    destruct (HE (s <| started := true |> <| run := Some false |>)) as [HS1 HT1]; [by apply evo_same|].
    split; [done|]. apply (TI_add_plain _ [_] ths); [done|by repeat constructor].
  - destruct (_ && _); [|done]. simplify_eq/=. destruct (HE (s <| kick := false |>)) as [HS1 HT1]; [by apply evo_same|].
    split; [done|]. apply (TI_add_plain _ [_] ths); [done|by repeat constructor].
  - destruct (bool_decide _); [|done]. simplify_eq/=. apply HE. by apply evo_same.
  - destruct (bool_decide _); [|done]. simplify_eq/=. apply HE. by apply evo_same.
  - destruct (_ && _); [|done]. simplify_eq/=. split; [done|]. apply (TI_add_plain _ [_] ths); [done|by repeat constructor].
Qed.

Lemma init_inv t h : SI (New cfg t h) /\ TI (New cfg t h) [].
Proof. split; [split|split]; simpl; try done; intros *; try (intros; set_solver); try (rewrite ?lookup_empty; naive_solver). Qed.

Lemma reachable_inv t h y : reachable cfg FormatRFC3339Nano t h y -> SI (pm y) /\ TI (pm y) (threads y).
Proof.
  induction 1 as [|i y y' _ [HS HT] Henv Hstep]; [apply init_inv|]. by apply (step_inv i y y').
Qed.
End Reach.

(** ** Running the fake on concrete inputs *)
Definition env_okb (i : input) (y : Sys) : bool :=
  match i with
  | IStep _ (ALease id) =>
      negb (String.eqb id "") && bool_decide (leases (pm y) !! id = None)
      && forallb (fun kv => negb (String.eqb (vm_leaseID kv.2) id)) (map_to_list (vmObjs (pm y)))
  | IStep _ (AUid uid) =>
      String.eqb uid "" || forallb (fun kv => negb (String.eqb (vm_uid kv.2) uid)) (map_to_list (vmObjs (pm y)))
        && forallb (fun th => match th_pc th with PcProvRecord _ u _ => negb (String.eqb u uid) | _ => true end) (threads y)
  | _ => true
  end.

Lemma env_okb_ok i y : env_okb i y = true -> env_ok i y.
Proof.
  assert (forall (P : vmState -> bool), forallb (fun kv : Z * vmState => P kv.2) (map_to_list (vmObjs (pm y))) = true ->
    forall v vm, vmObjs (pm y) !! v = Some vm -> P vm = true) as HF.
  { intros P H v vm Hv. rewrite forallb_forall in H. apply (H (v, vm)). by apply list_elem_of_In, elem_of_map_to_list. }
  destruct i as [|n ans| | | | | | | | |]; try done. destruct ans; try done; simpl.
  - intros [H|[H1 H2]%andb_true_iff]%orb_true_iff; [left; by apply String.eqb_eq|right]. split.
    + intros v vm Hv. pose proof (HF (fun vm => negb (String.eqb (vm_uid vm) uid)) H1 v vm Hv) as H. by apply negb_true_iff, String.eqb_neq in H.
    + intros th w cmds Hin Hpc. rewrite forallb_forall in H2. specialize (H2 th ltac:(by apply list_elem_of_In)).
      rewrite Hpc, String.eqb_refl in H2. done.
  - intros H. apply andb_true_iff in H as [[H1 H2]%andb_true_iff H3].
    apply negb_true_iff, String.eqb_neq in H1. apply bool_decide_eq_true in H2. split_and!; [done|done|].
    intros v vm Hv. pose proof (HF (fun vm => negb (String.eqb (vm_leaseID vm) id)) H3 v vm Hv) as H. by apply negb_true_iff, String.eqb_neq in H.
Qed.

(** [checked_run ins y] runs [ins] from [y] when the environment keeps its promises. *)
Fixpoint checked_run (cfg : FakeConfig) (fmt : time -> string) (ins : list input) (y : Sys) : option Sys :=
  match ins with
  | [] => Some y
  | i :: ins => if env_okb i y then match step cfg fmt i y with Some y => checked_run cfg fmt ins y | None => None end else None
  end.

Lemma checked_run_reachable cfg fmt t h ins y y' :
  reachable cfg fmt t h y -> checked_run cfg fmt ins y = Some y' -> reachable cfg fmt t h y'.
Proof.
  revert y. induction ins as [|i ins IH]; intros y Hy; cbn [checked_run]; [by intros [= <-]|].
  destruct (env_okb i y) eqn:Eo; [|done]. destruct (step cfg fmt i y) as [y1|] eqn:Es; [|done].
  apply IH. eapply reach_step; [exact Hy|by apply env_okb_ok|exact Es].
Qed.

Definition demo_FakeConfig : FakeConfig :=
  {| fc_Listen := ""; fc_Placement := None; fc_ReconcileInterval := 0; fc_ReadyTimeout := 0; fc_EventReplay := 3;
     fc_OmitHostOnClaim := false; fc_Namespace := "" |}.
Definition demo_fmt (t : time) : string := "".
Definition demo_Hosts : Hosts := {["h1" := {| ho_client := 1; ho_address := "10.0.0.1" |}]}.
Definition demo_poolSpec : PoolSpec :=
  {| sp_Ref := sp_Ref demo_spec; sp_Template := sp_Template demo_spec; sp_Size := 1; sp_FlintlockHosts := ["h1"];
     sp_Replenishment := {| rs_Type := REPLACE_ON_DELETE; rs_MinSize := None |}; sp_CreateCommands := []; sp_PreLeaseCommands := [];
     sp_HookFailurePolicy := DELETE_AND_REPLACE; sp_HeartbeatInterval := 10; sp_HeartbeatExpiryThreshold := 30 |}.
Definition demo_ref : PoolRef := sp_Ref demo_poolSpec.
Definition anyOrder : answer := AOrder [] [] [].

(** A Pool of one MicroVM is created and filled; the goroutine that provisions
    is always the first. *)
Definition demo_fill : list input :=
  [IRequest (ReqCreate demo_poolSpec); IRun; IStep 0 anyOrder; IStep 0 AOk; IStep 0 AOk; IStep 0 (AUid "u1");
   IStep 0 AOk; IStep 0 AOk; IStep 0 AOk; IStep 0 AOk].
(** It is claimed. *)
Definition demo_claim : list input :=
  [IRequest (ReqClaim demo_ref "job"); IStep 0 anyOrder; IStep 0 AOk; IStep 0 (ALease "L1")].

Definition demo_Sys0 : Sys := Sys0 demo_FakeConfig 0 demo_Hosts.
Definition demo_run (ins : list input) : Sys := default demo_Sys0 (checked_run demo_FakeConfig demo_fmt ins demo_Sys0).

Lemma demo_run_reachable ins :
  is_Some (checked_run demo_FakeConfig demo_fmt ins demo_Sys0) -> reachable demo_FakeConfig demo_fmt 0 demo_Hosts (demo_run ins).
Proof.
  intros [y Hy]. unfold demo_run. rewrite Hy. apply (checked_run_reachable _ _ _ _ ins demo_Sys0); [apply reach_init|done].
Qed.

(** ** No MicroVM is shared *)
Section Safety.
Context (cfg : FakeConfig) (fmt : time -> string) (t : time) (h : Hosts).

(** C6: no MicroVM is ever leased twice.  In every interleaving of requests,
    provisioning, hooks, deletions and ticks, with any Host failures: two
    Leases never name the same MicroVM; a Lease names a MicroVM the fake still
    tracks, of the Lease's own Pool, and that Pool exists; an AVAILABLE
    MicroVM carries no Lease; and at most one goroutine is provisioning a
    MicroVM or claiming it, never one that is AVAILABLE or leased. *)
Theorem fake_leases_exclusive y :
  reachable cfg fmt t h y ->
  (forall id1 id2 r1 r2, leases (pm y) !! id1 = Some r1 -> leases (pm y) !! id2 = Some r2 -> lr_VMUID r1 = lr_VMUID r2 -> id1 = id2)
  /\ (forall id r, leases (pm y) !! id = Some r -> lr_LeaseID r = id /\ is_Some (pools (pm y) !! lr_Pool r)
        /\ exists v vm, vmByUID (pm y) !! lr_VMUID r = Some v /\ lease_of (pm y) id r v vm /\ vm_phase vm <> AVAILABLE)
  /\ (forall v vm, vmObjs (pm y) !! v = Some vm ->
        (counted owner v (threads y) <= 1)%nat
        /\ (vm_phase vm = AVAILABLE -> leases (pm y) !! vm_leaseID vm = None /\ counted owner v (threads y) = 0%nat)
        /\ (is_Some (leases (pm y) !! vm_leaseID vm) -> counted owner v (threads y) = 0%nat)).
Proof.
  intros HR. destruct (reachable_inv cfg fmt t h y HR) as [HS HT]. split_and!.
  - intros id1 id2 r1 r2 H1 H2 Hu. destruct (si_lease _ HS id1 r1 H1) as (_ & _ & Hn1 & v1 & vm1 & Hv1 & _ & Hl1 & Hu1 & _).
    destruct (si_lease _ HS id2 r2 H2) as (_ & _ & _ & v2 & vm2 & Hv2 & _ & Hl2 & Hu2 & _).
    assert (v1 = v2) as -> by (apply (si_uid _ HS v1 vm1 v2 vm2); congruence). congruence.
  - intros id r Hl. destruct (si_lease _ HS id r Hl) as (Hid & Hp & Hu & v & vm & Hlo). split_and!; [done|done|]. exists v, vm.
    destruct Hlo as (Hv & Hin & Hl1 & Hu1 & Hp1). split_and!; [|done|].
    + rewrite <-Hu1. apply (si_live _ HS); [done|done|congruence].
    + intros Hph. pose proof (ti_token _ _ HT v vm Hv) as Ht. unfold isAvail, isLeased in Ht.
      rewrite decide_True, Hl1, Hl in Ht by done. lia.
  - intros v vm Hv. pose proof (ti_token _ _ HT v vm Hv) as Ht. unfold isAvail, isLeased in Ht. split_and!.
    + lia.
    + intros Hph. rewrite decide_True in Ht by done. destruct (leases (pm y) !! _); [lia|]. split; [done|lia].
    + intros [r Hr]. rewrite Hr in Ht. lia.
Qed.

(** A Host is asked to delete a MicroVM by one goroutine at a time: the
    number of deletions of a MicroVM in flight is one when its flag says so
    and none otherwise, whoever asked for it: a release, an expiry, a failed
    hook, the deletion of the Pool, a retry of the tick or the shutdown. *)
Theorem fake_one_deletion y v vm :
  reachable cfg fmt t h y -> vmObjs (pm y) !! v = Some vm ->
  counted deleter v (threads y) = if vm_deleteInFlight vm then 1%nat else 0%nat.
Proof. intros HR Hv. destruct (reachable_inv cfg fmt t h y HR) as [HS HT]. exact (ti_flight _ _ HT v vm Hv). Qed.
End Safety.

Lemma fake_leases_exclusive_witness :
  let y := demo_run (demo_fill ++ demo_claim) in
  lr_VMUID <$> leases (pm y) !! "L1" = Some "u1" /\ exists v, vmByUID (pm y) !! "u1" = Some v.
Proof.
  assert (lr_VMUID <$> leases (pm (demo_run (demo_fill ++ demo_claim))) !! "L1" = Some "u1") as HU by (vm_compute; reflexivity).
  split; [exact HU|].
  destruct (fake_leases_exclusive demo_FakeConfig demo_fmt 0 demo_Hosts (demo_run (demo_fill ++ demo_claim))) as (_ & H & _).
  { apply demo_run_reachable. vm_compute. by eexists. }
  destruct (leases (pm (demo_run (demo_fill ++ demo_claim))) !! "L1") as [r|] eqn:El; [|done]. injection HU as HU.
  destruct (H "L1" r El) as (_ & _ & v & vm & Hv & _). exists v. by rewrite <-HU.
Defined.

Lemma fake_one_deletion_witness :
  let y := demo_run (demo_fill ++ demo_claim ++ [IRequest (ReqRelease "L1"); IStep 0 AOk]) in
  counted deleter 1 (threads y) = 1%nat.
Proof.
  set (y := demo_run _). assert (vm_deleteInFlight <$> vmObjs (pm y) !! 1 = Some true) as HF by (vm_compute; reflexivity).
  destruct (vmObjs (pm y) !! 1) as [vm|] eqn:Ev; [|done]. injection HF as HF.
  cbv zeta. rewrite (fake_one_deletion demo_FakeConfig demo_fmt 0 demo_Hosts y 1 vm); [by rewrite HF| |done].
  apply demo_run_reachable. vm_compute. by eexists.
Defined.
