(* ===== verification/FakeBehav.v ===== *)
(** * The fake Pool Manager: what its operations answer and do *)
From S2P Require Import Prelude GoModel PoolTypes ConfigTypes Spec PoolClient FakePool FakeOps FakeLoop FakeSys FakeInv FakeSteps FakeThms.

(** ** Claim retries *)
Lemma arrange_elem {A} `{EqDecision A} (o keys : list A) x : x ∈ arrange o keys <-> x ∈ keys.
Proof.
  unfold arrange. rewrite elem_of_app, !list_elem_of_filter, elem_of_remove_dups. destruct (decide (x ∈ o)); tauto.
Qed.

Lemma lease_keys_elem s id : id ∈ (map_to_list (leases s)).*1 <-> is_Some (leases s !! id).
Proof.
  rewrite list_elem_of_fmap. split.
  - intros ([k r] & -> & Hin). apply elem_of_map_to_list in Hin. by exists r.
  - intros [r Hr]. exists (id, r). split; [done|by apply elem_of_map_to_list].
Qed.

Lemma replay_finds o s rid id rec :
  leases s !! id = Some rec -> lr_RequestID rec = rid ->
  (forall id' rec', leases s !! id' = Some rec' -> lr_RequestID rec' = rid -> id' = id) ->
  exists i, list_find (fun rec => lr_RequestID rec = rid) (omap (fun id => leases s !! id) (arrange o (map_to_list (leases s)).*1)) = Some (i, rec).
Proof.
  intros Hl Hr Hu. destruct (list_find _ _) as [[i rec']|] eqn:E.
  - apply list_find_Some in E as (Hi & Hr' & _). apply list_elem_of_lookup_2, list_elem_of_omap in Hi as (id' & Hin & Hl').
    pose proof (Hu id' rec' Hl' Hr'). exists i. congruence.
  - exfalso. apply list_find_None in E. rewrite Forall_forall in E. apply (E rec); [|done].
    apply list_elem_of_omap. exists id. split; [|done]. apply arrange_elem, lease_keys_elem. by exists rec.
Qed.

(** The order the oldest MicroVM is the least of. *)
Definition ole (a b : vmState) : Prop := vm_updated a < vm_updated b \/ vm_updated a = vm_updated b /\ vm_id a <= vm_id b.

Lemma older_ole a b : older a b = false -> ole b a.
Proof. unfold older, ole. rewrite orb_false_iff, andb_false_iff, !Z.ltb_ge, Z.eqb_neq. lia. Qed.
Lemma older_ole' a b : older a b = true -> ole a b.
Proof. unfold older, ole. rewrite orb_true_iff, andb_true_iff, !Z.ltb_lt, Z.eqb_eq. lia. Qed.

Lemma fold_oldest key l best :
  match fold_left (pick_older key) l best with
  | Some b => (forall b0, best = Some b0 -> ole b b0) /\ forall x, x ∈ l -> in_phase key [AVAILABLE] x = true -> ole b x
  | None => best = None /\ forall x, x ∈ l -> in_phase key [AVAILABLE] x = false
  end.
Proof.
  revert best. induction l as [|x l IH]; intros best; cbn [fold_left].
  { destruct best as [b|]; split; try done; try set_solver. intros b0 [= <-]. unfold ole. lia. }
  specialize (IH (pick_older key best x)). destruct (fold_left _ l _) as [b|].
  - destruct IH as [H1 H2]. unfold pick_older in H1.
    assert (forall y z, ole y z -> forall w, ole z w -> ole y w) as Htr by (unfold ole; intros; lia).
    destruct (in_phase key [AVAILABLE] x) eqn:Ex; cbn [negb] in H1.
    + destruct best as [b0|].
      * destruct (older x b0) eqn:Eo; (split; [intros b1 [= <-]|intros z [->|Hz]%elem_of_cons Hp; [|by apply H2]]).
        -- eapply Htr; [by apply H1|by apply older_ole'].
        -- by apply H1.
        -- by apply H1.
        -- eapply Htr; [by apply H1|by apply older_ole].
      * split; [done|]. intros z [->|Hz]%elem_of_cons Hp; [by apply H1|by apply H2].
    + split; [done|]. intros z [->|Hz]%elem_of_cons Hp; [congruence|by apply H2].
  - destruct IH as [H1 H2]. unfold pick_older in H1. destruct (in_phase key [AVAILABLE] x) eqn:Ex; cbn [negb] in H1.
    + destruct best; [by destruct (older x _)|done].
    + split; [done|]. intros z [->|Hz]%elem_of_cons; [done|by apply H2].
Qed.

Lemma live_elem_fwd s v vm : live s !! v = Some vm -> vm ∈ (map_to_list (live s)).*2.
Proof. intros H. apply list_elem_of_fmap. exists (v, vm). split; [done|by apply elem_of_map_to_list]. Qed.

Lemma oldest_min key s :
  SI s ->
  match oldestAvailableLocked key s with
  | Some vm => forall w vm', live s !! w = Some vm' -> vm_pool vm' = key -> vm_phase vm' = AVAILABLE ->
      vm_updated vm < vm_updated vm' \/ vm_updated vm = vm_updated vm' /\ vm_id vm <= w
  | None => forall v vm, live s !! v = Some vm -> vm_pool vm = key -> vm_phase vm <> AVAILABLE
  end.
Proof.
  intros HS. unfold oldestAvailableLocked. pose proof (fold_oldest key (map_to_list (live s)).*2 None) as H.
  assert (forall vm, in_phase key [AVAILABLE] vm = true <-> vm_pool vm = key /\ vm_phase vm = AVAILABLE) as Hip.
  { intros vm. unfold in_phase. rewrite andb_true_iff, !bool_decide_eq_true. set_solver. }
  destruct (fold_left _ _ _) as [b|].
  - intros w vm' Hw Hp Ha. destruct H as [_ H]. specialize (H vm' (live_elem_fwd s w vm' Hw) ltac:(by apply Hip)).
    apply live_lookup in Hw as [Hw _]. destruct (si_id s HS w vm' Hw) as [Hid _]. unfold ole in H. lia.
  - intros v vm Hv Hp Ha. destruct H as [_ H]. specialize (H vm (live_elem_fwd s v vm Hv)).
    pose proof (proj2 (Hip vm) (conj Hp Ha)). congruence.
Qed.

Section Claims.
Context (cfg : FakeConfig) (fmt : time -> string) (t : time) (h : Hosts).

(** A claim is retried, not repeated.  When a Lease carries the request id
    of a claim and no other Lease does, the claim takes no MicroVM and changes
    nothing, whatever order the Leases are looked at in.  It is answered with
    that very Lease, its MicroVM and the Host it runs on; with
    INVALID_ARGUMENT if it asks for another Pool; with ABORTED while the
    MicroVM is being released or deleted. *)
Theorem claim_replay y o ref rid id rec v vm :
  reachable cfg fmt t h y -> rid <> "" ->
  leases (pm y) !! id = Some rec -> lr_RequestID rec = rid ->
  (forall id' rec', leases (pm y) !! id' = Some rec' -> lr_RequestID rec' = rid -> id' = id) ->
  vmByUID (pm y) !! lr_VMUID rec = Some v -> vmObjs (pm y) !! v = Some vm ->
  exists r, claimVM_begin cfg o ref rid (pm y) = (pm y, ClaimReply r)
  /\ match r with
     | ROk res => lr_Pool rec = ref /\ cr_leaseID res = id /\ cr_vmUID res = lr_VMUID rec /\ cr_hostName res = vm_host vm
         /\ vm_released vm = false /\ vm_phase vm <> DELETING
     | RErr (RStatus InvalidArgument _) => lr_Pool rec <> ref
     | RErr (RStatus Aborted _) => lr_Pool rec = ref /\ (vm_released vm = true \/ vm_phase vm = DELETING)
     | RErr _ => False
     end.
Proof.
  intros HR Hrid Hl Hr Hu Hv Hvm. destruct (reachable_inv cfg fmt t h y HR) as [HS HT]. set (s := pm y) in *.
  destruct (si_lease s HS id rec Hl) as (Hid & Hp & Hun & _).
  unfold claimVM_begin, replayLocked. rewrite (proj2 (String.eqb_neq rid "") Hrid).
  destruct (replay_finds o s rid id rec Hl Hr Hu) as [i ->]. destruct (decide (lr_Pool rec = ref)) as [Hpool|Hpool];
    [rewrite bool_decide_true by done|rewrite bool_decide_false by done]; cbn [negb].
  2:{ eexists. split; [reflexivity|]. done. }
  assert (vm_at (lr_VMUID rec) s = Some vm) as -> by (unfold vm_at; by rewrite Hv).
  destruct (si_byuid s HS _ _ Hv) as (_ & _ & vm' & Hvm' & Huid). assert (vm' = vm) as -> by congruence.
  destruct (vm_released vm) eqn:Er; cbn [orb]; [eexists; split; [reflexivity|simpl; auto]|].
  destruct (decide (vm_phase vm = DELETING)); [rewrite bool_decide_true by done|rewrite bool_decide_false by done];
    (eexists; split; [reflexivity|]); simpl; auto 6.
Qed.

(** What a claim answers when no Lease carries its request id:
    INVALID_ARGUMENT for a namespace the fake does not serve, NOT_FOUND for a
    Pool it does not have, RESOURCE_EXHAUSTED when no MicroVM of the Pool is
    AVAILABLE, all without touching the state.  Otherwise it takes a MicroVM of
    the Pool that was AVAILABLE, one that has been so longest, the least id
    deciding between equals. *)
Theorem claim_fresh y o ref rid :
  reachable cfg fmt t h y ->
  (forall id rec, leases (pm y) !! id = Some rec -> lr_RequestID rec <> rid) ->
  let s := pm y in
  match claimVM_begin cfg o ref rid s with
  | (s', ClaimReply (RErr (RStatus InvalidArgument _))) => s' = s /\ fc_Namespace cfg <> "" /\ ref_Namespace ref <> fc_Namespace cfg
  | (s', ClaimReply (RErr (RStatus NotFound _))) => s' = s /\ pools s !! ref = None
  | (s', ClaimReply (RErr (RStatus ResourceExhausted _))) =>
      s' = s /\ is_Some (pools s !! ref) /\ forall v vm, live s !! v = Some vm -> vm_pool vm = ref -> vm_phase vm <> AVAILABLE
  | (_, ClaimReply _) => False
  | (s', ClaimHooks v a cmds) =>
      s' = setPhaseLocked v PRE_LEASE_HOOK_RUNNING s /\ pools s !! ref = Some a
      /\ exists vm, live s !! v = Some vm /\ vm_pool vm = ref /\ vm_phase vm = AVAILABLE
      /\ forall w vm', live s !! w = Some vm' -> vm_pool vm' = ref -> vm_phase vm' = AVAILABLE ->
           vm_updated vm < vm_updated vm' \/ vm_updated vm = vm_updated vm' /\ v <= w
  end.
Proof.
  intros HR Hno s. destruct (reachable_inv cfg fmt t h y HR) as [HS _]. fold s in HS.
  unfold claimVM_begin. assert (replayLocked cfg o ref rid s = None) as ->.
  { unfold replayLocked. destruct (String.eqb rid ""); [done|]. destruct (list_find _ _) as [[i rec]|] eqn:E; [|done].
    apply list_find_Some in E as (Hi & Hr & _). apply list_elem_of_lookup_2, list_elem_of_omap in Hi as (id & _ & Hl).
    exfalso. by apply (Hno id rec). }
  unfold poolLocked, checkNamespace.
  destruct (negb (String.eqb (fc_Namespace cfg) "") && negb (String.eqb (ref_Namespace ref) (fc_Namespace cfg))) eqn:En.
  { bool_to_prop. split_and!; [done|by apply String.eqb_neq|by apply String.eqb_neq]. }
  destruct (lookupPool ref s) as [[a ps]|] eqn:Ep.
  2:{ split; [done|]. destruct (pools s !! ref) eqn:E; [|done].
      destruct (lookupPool_exists s ref HS ltac:(by rewrite E)) as (a & ps & Hx). congruence. }
  destruct (lookupPool_spec s ref a ps HS Ep) as (Ha & Hps & Hk). rewrite Hk.
  pose proof (oldest_min ref s HS) as Hmin. destruct (oldestAvailableLocked ref s) as [vm|] eqn:Eo.
  - destruct (oldest_spec ref s vm HS Eo) as (Hv & Hin & Hpool & Hph). split_and!; [done|done|]. exists vm.
    split_and!; [by apply live_lookup|done|done|exact Hmin].
  - split_and!; [done|by exists a|exact Hmin].
Qed.
End Claims.

Lemma reachable_lease_vm cfg fmt t h y id rec :
  reachable cfg fmt t h y -> leases (pm y) !! id = Some rec ->
  exists v vm, vmByUID (pm y) !! lr_VMUID rec = Some v /\ vmObjs (pm y) !! v = Some vm.
Proof.
  intros HR Hl. destruct (reachable_inv cfg fmt t h y HR) as [HS _].
  destruct (si_lease _ HS id rec Hl) as (_ & _ & Hu & v & vm & Hv & Hin & _ & Hu1 & _). exists v, vm.
  split; [|done]. rewrite <-Hu1. apply (si_live _ HS); [done|done|congruence].
Qed.

Lemma omap_cons {A B} (f : A -> option B) x (l : list A) : omap f (x :: l) = option_list (f x) ++ omap f l.
Proof. cbn. by destruct (f x). Qed.

Lemma omap_ext_in {A B} (f g : A -> option B) (l : list A) : (forall x, x ∈ l -> f x = g x) -> omap f l = omap g l.
Proof.
  induction l as [|x l IH]; intros H; [done|]. rewrite !omap_cons, H, IH; [done| |set_solver]. intros y Hy. apply H. set_solver.
Qed.

Lemma claim_replay_witness :
  let y := demo_run (demo_fill ++ demo_claim) in
  exists r, claimVM_begin demo_FakeConfig [] demo_ref "job" (pm y) = (pm y, ClaimReply r).
Proof.
  set (y := demo_run _). cbv zeta.
  assert (reachable demo_FakeConfig demo_fmt 0 demo_Hosts y) as HR by (apply demo_run_reachable; vm_compute; by eexists).
  destruct (leases (pm y) !! "L1") as [rec|] eqn:El; [|by vm_compute in El].
  assert (forall id' rec', leases (pm y) !! id' = Some rec' -> lr_RequestID rec' = "job" -> id' = "L1") as Huniq.
  { intros id' rec' Hl _. apply elem_of_map_to_list in Hl.
    assert ((map_to_list (leases (pm y))).*1 = ["L1"]) as Hk by (vm_compute; reflexivity).
    apply (list_elem_of_fmap_2 fst) in Hl. rewrite Hk in Hl. by apply list_elem_of_singleton in Hl. }
  assert (lr_RequestID rec = "job") as Hr.
  { assert (lr_RequestID <$> leases (pm y) !! "L1" = Some "job") as H by (vm_compute; reflexivity). rewrite El in H. by injection H. }
  destruct (reachable_lease_vm _ _ _ _ y "L1" rec HR El) as (v & vm & Hv & Hvo).
  destruct (claim_replay demo_FakeConfig demo_fmt 0 demo_Hosts y [] demo_ref "job" "L1" rec v vm HR ltac:(done) El Hr Huniq Hv Hvo) as (r & Hc & _).
  by exists r.
Defined.

Lemma claim_fresh_witness :
  let y := demo_run demo_fill in
  exists v a cmds, claimVM_begin demo_FakeConfig [] demo_ref "other" (pm y) = (setPhaseLocked v PRE_LEASE_HOOK_RUNNING (pm y), ClaimHooks v a cmds).
Proof.
  set (y := demo_run _). cbv zeta.
  assert (reachable demo_FakeConfig demo_fmt 0 demo_Hosts y) as HR by (apply demo_run_reachable; vm_compute; by eexists).
  assert (leases (pm y) = ∅) as He by (vm_compute; reflexivity).
  pose proof (claim_fresh demo_FakeConfig demo_fmt 0 demo_Hosts y [] demo_ref "other" HR) as H. rewrite He in H.
  specialize (H ltac:(intros id rec; rewrite lookup_empty; done)). cbv zeta in H.
  assert (exists v a cmds, (claimVM_begin demo_FakeConfig [] demo_ref "other" (pm y)).2 = ClaimHooks v a cmds) as (v & a & cmds & Hc)
    by (vm_compute; eauto).
  destruct (claimVM_begin demo_FakeConfig [] demo_ref "other" (pm y)) as [s' n]. simpl in Hc. subst n.
  destruct H as (-> & _). eauto.
Defined.

(** ** The tick and Leases *)
Lemma emit_frame key uid typ payload s :
  let s' := emitLocked key uid typ payload s in
  leases s' = leases s /\ vmObjs s' = vmObjs s /\ vmByUID s' = vmByUID s /\ vms s' = vms s /\ pools s' = pools s /\ now s' = now s
  /\ hosts s' = hosts s /\ run s' = run s /\ stopped s' = stopped s /\ nextVM s' = nextVM s.
Proof. unfold emitLocked. destruct (lookupPool key s) as [[a ps]|]; done. Qed.

Lemma dropLease_now id s : now (dropLeaseLocked id s) = now s.
Proof. unfold dropLeaseLocked. destruct (leases s !! id); [|done]. by destruct (lookupPool _ _) as [[a ps]|]. Qed.

(** The Lease [id] is over at time [t]. *)
Definition expired_at (t : time) (s : PM) (id : string) : bool :=
  match leases s !! id with Some rec => lr_ExpiresAt rec <=? t | None => false end.
(** The MicroVM the tick then deletes. *)
Definition expired_vm (t : time) (s : PM) (id : string) : option Z :=
  match leases s !! id with
  | Some rec => if lr_ExpiresAt rec <=? t then
      match vm_at (lr_VMUID rec) s with
      | Some vm => if decide (vm_phase vm = LEASED) then Some (vm_id vm) else None
      | None => None end else None
  | None => None
  end.

Lemma tick_lease_spec fmt t s ex id :
  SI s -> is_Some (leases s !! id) ->
  let '(s', ex') := tick_lease fmt t (s, ex) id in
  vmObjs s' = vmObjs s /\ vmByUID s' = vmByUID s
  /\ leases s' = (if expired_at t s id then delete id (leases s) else leases s)
  /\ ex' = ex ++ option_list (expired_vm t s id).
Proof.
  intros HS [rec Hl]. unfold tick_lease, expired_at, expired_vm. rewrite Hl.
  destruct (si_lease s HS id rec Hl) as (_ & Hp & _). destruct (lookupPool_exists s _ HS Hp) as (a & ps & ->).
  assert (negb (time_After (lr_ExpiresAt rec) t) = (lr_ExpiresAt rec <=? t)) as ->.
  { unfold time_After. destruct (Z.leb_spec (lr_ExpiresAt rec) t), (Z.ltb_spec t (lr_ExpiresAt rec)); lia || done. }
  destruct (Z.leb_spec (lr_ExpiresAt rec) t) as [Hle|Hgt].
  - destruct (dropLease_frame id s) as (F1 & _ & F3 & _). split_and!; [done|done|apply dropLease_leases|].
    assert (vm_at (lr_VMUID rec) (dropLeaseLocked id s) = vm_at (lr_VMUID rec) s) as -> by (unfold vm_at; by rewrite F1, F3).
    destruct (vm_at _ s) as [vm|]; [|by rewrite app_nil_r].
    destruct (decide (vm_phase vm = LEASED)); [rewrite bool_decide_true by done; done|rewrite bool_decide_false by done; by rewrite app_nil_r].
  - destruct (_ && _); rewrite app_nil_r; [|done].
    match goal with |- context [emitLocked ?k ?u ?ty ?p ?s1] => destruct (emit_frame k u ty p s1) as (E1 & E2 & E3 & _) end.
    rewrite E1, E2, E3. done.
Qed.

Lemma tick_leases_spec fmt t ids s ex :
  SI s -> NoDup ids -> (forall id, id ∈ ids -> is_Some (leases s !! id)) ->
  let '(s', ex') := fold_left (tick_lease fmt t) ids (s, ex) in
  vmObjs s' = vmObjs s /\ vmByUID s' = vmByUID s
  /\ (forall id, leases s' !! id = if decide (id ∈ ids /\ expired_at t s id = true) then None else leases s !! id)
  /\ ex' = ex ++ omap (expired_vm t s) ids.
Proof.
  revert s ex. induction ids as [|i ids IH]; intros s ex HS HN Hall; cbn [fold_left].
  { split_and!; [done|done| |by rewrite app_nil_r]. intros id. rewrite decide_False by set_solver. done. }
  apply NoDup_cons in HN as [Hi HN]. pose proof (tick_lease_spec fmt t s ex i HS (Hall i ltac:(set_solver))) as H1.
  pose proof (evo_tick_lease fmt t s ex i (SI_bounded s HS)) as E. destruct (tick_lease fmt t (s, ex) i) as [s1 ex1].
  simpl in E. pose proof (evo_SI _ _ _ E HS) as HS1. destruct H1 as (V1 & B1 & L1 & X1).
  assert (forall id, id <> i -> leases s1 !! id = leases s !! id) as Hsame.
  { intros id Hne. rewrite L1. destruct (expired_at t s i); [by rewrite lookup_delete_ne|done]. }
  specialize (IH s1 ex1 HS1 HN). destruct (fold_left _ ids (s1, ex1)) as [s2 ex2]. destruct IH as (V2 & B2 & L2 & X2).
  { intros id Hin. rewrite Hsame by set_solver. apply Hall. set_solver. }
  split_and!; [congruence|congruence| |].
  - intros id. rewrite L2. destruct (decide (id = i)) as [->|Hne].
    + rewrite decide_False by tauto. rewrite L1. destruct (expired_at t s i) eqn:Ee.
      * rewrite lookup_delete_eq, decide_True; [done|set_solver].
      * rewrite decide_False; [done|]. intros [_ ?]. congruence.
    + unfold expired_at. rewrite Hsame by done.
      destruct (decide (id ∈ ids /\ _)) as [Hd|Hd], (decide (id ∈ i :: ids /\ _)) as [Hd'|Hd']; try done; set_solver.
  - rewrite X2, X1, <-app_assoc. f_equal. rewrite omap_cons.
    assert (omap (expired_vm t s1) ids = omap (expired_vm t s) ids) as ->.
    { apply omap_ext_in. intros id Hin. unfold expired_vm, vm_at. by rewrite Hsame, V1, B1 by set_solver. }
    done.
Qed.

Lemma pickHost_leases cfg a ps s : leases (pickHostLocked cfg a ps s).1 = leases s.
Proof. unfold pickHostLocked. destruct (candidates ps s); [done|]. by destruct (fc_Placement cfg) as [[|]|]. Qed.

Lemma reserve_leases cfg n a s : leases (reserve cfg n a s).1 = leases s.
Proof.
  revert s. induction n as [|n IH]; intros s; [done|]. cbn [reserve]. destruct (poolObjs s !! a) as [ps|]; [|done].
  pose proof (pickHost_leases cfg a ps s) as H. destruct (pickHostLocked cfg a ps s) as [s1 [host|e]]; [|done]. simpl in H.
  match goal with |- context [reserve cfg n a ?s2] => specialize (IH s2); destruct (reserve cfg n a s2) as [s3 l] end.
  simpl in *. by rewrite IH.
Qed.

Lemma provisionN_leases cfg a n reason s : leases (provisionNLocked cfg a n reason s).1 = leases s.
Proof.
  unfold provisionNLocked. destruct (_ || _); [done|]. pose proof (reserve_leases cfg (Z.to_nat n) a s) as H.
  destruct (reserve cfg _ a s) as [s1 [|v l]]; [done|]. destruct (poolObjs s !! a) as [ps|]; [|done]. simpl in *.
  match goal with |- context [emitLocked ?k ?u ?ty ?p ?s1] => destruct (emit_frame k u ty p s1) as (-> & _) end. done.
Qed.

Lemma tick_pools_leases cfg keys s st : leases (fold_left (tick_pool cfg) keys (s, st)).1 = leases s.
Proof.
  revert s st. induction keys as [|k keys IH]; intros s st; cbn [fold_left]; [done|].
  assert (leases (tick_pool cfg (s, st) k).1 = leases s) as H.
  { unfold tick_pool. destruct (lookupPool k s) as [[a ps]|]; [|done].
    match goal with |- context [provisionNLocked cfg a ?d ?r ?s2] => pose proof (provisionN_leases cfg a d r s2) as H; destruct (provisionNLocked cfg a d r s2) as [s3 l] end.
    cbn [fst] in *. rewrite H. unfold upd_pool. rec_simpl. destruct (_ && _); [|done].
    match goal with |- context [emitLocked ?k ?u ?ty ?p ?s1] => destruct (emit_frame k u ty p s1) as (-> & _) end. done. }
  destruct (tick_pool cfg (s, st) k) as [s1 st1]. simpl in H. by rewrite IH, H.
Qed.

Section Leases.
Context (cfg : FakeConfig) (fmt : time -> string) (t0 : time) (h : Hosts).

(** A tick ends exactly the Leases that are over.  After a tick at time
    [t] a Lease is there, unchanged, if and only if it was and its expiry is
    after [t]; the MicroVMs handed over for deletion on expiry are exactly
    those of the ended Leases that were LEASED. *)
Theorem tick_expires y t ol op :
  reachable cfg fmt t0 h y ->
  let '(s', out) := tick cfg fmt t ol op (pm y) in
  (forall id rec, leases s' !! id = Some rec <-> leases (pm y) !! id = Some rec /\ t < lr_ExpiresAt rec)
  /\ (forall v, v ∈ to_expired out <-> exists id rec vm, leases (pm y) !! id = Some rec /\ lr_ExpiresAt rec <= t
        /\ vmByUID (pm y) !! lr_VMUID rec = Some v /\ vmObjs (pm y) !! v = Some vm /\ vm_phase vm = LEASED).
Proof.
  intros HR. destruct (reachable_inv cfg fmt t0 h y HR) as [HS _]. set (s := pm y) in *. unfold tick.
  pose proof (arrange_perm ol (map_to_list (leases s)).*1 (NoDup_fst_map_to_list (leases s))) as Hperm.
  set (ids := arrange ol (map_to_list (leases s)).*1) in *.
  assert (forall id, id ∈ ids <-> is_Some (leases s !! id)) as Hids.
  { intros id. rewrite Hperm. apply lease_keys_elem. }
  assert (NoDup ids) as HN by (rewrite Hperm; apply NoDup_fst_map_to_list).
  pose proof (tick_leases_spec fmt t ids s [] HS HN (fun id => proj1 (Hids id))) as H1.
  destruct (fold_left (tick_lease fmt t) ids (s, [])) as [s1 ex]. destruct H1 as (V1 & B1 & L1 & X1).
  pose proof (tick_pools_leases cfg (arrange op (map_to_list (pools s1)).*1) s1 []) as H2.
  destruct (fold_left (tick_pool cfg) _ (s1, [])) as [s2 st]. simpl in H2. split.
  - intros id rec. rewrite H2, L1. unfold expired_at. destruct (leases s !! id) as [r|] eqn:El.
    + destruct (decide _) as [[_ Hd]|Hd].
      * apply Z.leb_le in Hd. split; [done|]. intros [[= ->] ?]. lia.
      * assert (t < lr_ExpiresAt r) as Hlt.
        { apply Z.leb_gt. apply not_true_iff_false. intros Hx. apply Hd. split; [apply Hids; by rewrite El|done]. }
        split; [intros [= <-]; done|by intros [[= ->] _]].
    + rewrite decide_False by (intros [_ ?]; done). split; [done|by intros [? _]].
  - intros v. cbn [to_expired]. rewrite X1. cbn [app]. rewrite list_elem_of_omap. split.
    + intros (id & Hin & Hx). unfold expired_vm in Hx. destruct (leases s !! id) as [rec|] eqn:El; [|done].
      destruct (Z.leb_spec (lr_ExpiresAt rec) t) as [Hle|]; [|done]. destruct (vm_at _ s) as [vm|] eqn:Ev; [|done].
      destruct (decide (vm_phase vm = LEASED)) as [Hph|]; [|done]. injection Hx as <-.
      unfold vm_at in Ev. destruct (vmByUID s !! lr_VMUID rec) as [w|] eqn:Eb; [|done]. simpl in Ev.
      destruct (si_id s HS w vm Ev) as [-> _]. exists id, rec, vm. done.
    + intros (id & rec & vm & Hl & Hle & Hb & Hv & Hph). exists id. split; [apply Hids; by rewrite Hl|].
      unfold expired_vm. rewrite Hl. rewrite (proj2 (Z.leb_le _ _) Hle).
      assert (vm_at (lr_VMUID rec) s = Some vm) as -> by (unfold vm_at; by rewrite Hb).
      rewrite decide_True by done. f_equal. by apply (si_id s HS).
Qed.

(** A heartbeat keeps a Lease.  Unless heartbeats are refused by fault
    injection, the heartbeat of an outstanding Lease succeeds, answers the
    current time plus the Pool's threshold and makes that the expiry of this
    Lease and no other; a Lease that is gone is NOT_FOUND. *)
Theorem heartbeat_extends y id :
  reachable cfg fmt t0 h y -> fl_RefuseHeartbeats (faults (pm y)) = false ->
  match leases (pm y) !! id with
  | None => exists msg, heartbeat id (pm y) = (pm y, RErr (RStatus NotFound msg))
  | Some rec => exists a ps s', lookupPool (lr_Pool rec) (pm y) = Some (a, ps)
      /\ heartbeat id (pm y) = (s', ROk (now (pm y) + sp_HeartbeatExpiryThreshold (po_spec ps)))
      /\ lr_ExpiresAt <$> leases s' !! id = Some (now (pm y) + sp_HeartbeatExpiryThreshold (po_spec ps))
      /\ lr_VMUID <$> leases s' !! id = Some (lr_VMUID rec)
      /\ forall id', id' <> id -> leases s' !! id' = leases (pm y) !! id'
  end.
Proof.
  intros HR Hf. destruct (reachable_inv cfg fmt t0 h y HR) as [HS _]. unfold heartbeat. rewrite Hf.
  destruct (leases (pm y) !! id) as [rec|] eqn:El; [|eexists; reflexivity].
  destruct (si_lease _ HS id rec El) as (_ & Hp & _). destruct (lookupPool_exists _ _ HS Hp) as (a & ps & Hlp). rewrite Hlp.
  exists a, ps. eexists. split_and!; [done|reflexivity|..]; simpl.
  - by rewrite lookup_insert_eq.
  - by rewrite lookup_insert_eq.
  - intros id' Hne. by rewrite lookup_insert_ne.
Qed.
End Leases.

Lemma tick_expires_witness :
  let y := demo_run (demo_fill ++ demo_claim) in
  to_expired (tick demo_FakeConfig demo_fmt 30 [] [] (pm y)).2 = [1] /\ leases (tick demo_FakeConfig demo_fmt 30 [] [] (pm y)).1 !! "L1" = None.
Proof.
  set (y := demo_run _). cbv zeta. split; [vm_compute; reflexivity|].
  pose proof (tick_expires demo_FakeConfig demo_fmt 0 demo_Hosts y 30 [] []) as H.
  assert (lr_ExpiresAt <$> leases (pm y) !! "L1" = Some 30) as He by (vm_compute; reflexivity).
  destruct (tick demo_FakeConfig demo_fmt 30 [] [] (pm y)) as [s' out]. destruct H as [H _].
  { apply demo_run_reachable. vm_compute. by eexists. }
  simpl. destruct (leases s' !! "L1") as [rec|] eqn:El; [|done]. apply H in El as [El Hlt]. rewrite El in He. injection He as He. lia.
Defined.

Lemma heartbeat_extends_witness :
  let y := demo_run (demo_fill ++ demo_claim ++ [IAdvance 7]) in
  exists s' e, heartbeat "L1" (pm y) = (s', ROk e) /\ lr_ExpiresAt <$> leases s' !! "L1" = Some e.
Proof.
  set (y := demo_run _). cbv zeta.
  assert (reachable demo_FakeConfig demo_fmt 0 demo_Hosts y) as HR by (apply demo_run_reachable; vm_compute; by eexists).
  assert (fl_RefuseHeartbeats (faults (pm y)) = false) as Hf by (vm_compute; reflexivity).
  assert (bool_decide (is_Some (leases (pm y) !! "L1")) = true) as Hl by (vm_compute; reflexivity).
  apply bool_decide_eq_true in Hl as [rec Hl].
  pose proof (heartbeat_extends demo_FakeConfig demo_fmt 0 demo_Hosts y "L1" HR Hf) as H. clearbody y. rewrite Hl in H.
  destruct H as (a & ps & s' & _ & Hh & He & _). exists s'. eexists. split; [exact Hh|exact He].
Defined.

(** * The fake Pool Manager: releases, replenishment, placement, shutdown *)

(** ** Deleting a MicroVM *)
Lemma deleteVM_begin_spec v ev s vm :
  vmObjs s !! v = Some vm -> v ∈ vms s -> vm_deleteInFlight vm = false ->
  exists s', deleteVM_begin v ev s = (s', DelHost (vm_host vm) (vm_uid vm))
  /\ leases s' = leases s /\ vms s' = vms s /\ vmByUID s' = vmByUID s
  /\ exists vm', vmObjs s' !! v = Some vm' /\ vm_core vm' = vm_core vm /\ vm_phase vm' = DELETING.
Proof.
  intros Hv Hin Hf. unfold deleteVM_begin. rewrite Hv, bool_decide_true, Hf by done. cbn [negb].
  eexists. split; [reflexivity|]. destruct ev; (split_and!; [done|done|done|]); unfold setPhaseLocked, upd_vm; rec_simpl;
    rewrite !lookup_alter_eq, Hv; simpl; eexists; (split; [reflexivity|done]).
Qed.

Lemma SI_deleteVM_begin v ev s : SI s -> SI (deleteVM_begin v ev s).1.
Proof.
  intros HS. unfold deleteVM_begin. destruct (vmObjs s !! v) as [vm|]; [|done]. destruct (bool_decide _); [|done]. cbn [negb].
  set (s2 := match ev with Some _ => _ | None => _ end).
  assert (SI s2) as HS2.
  { pose proof (evo_SI _ _ _ (evo_setPhase v DELETING s ltac:(done)) HS) as H1. unfold s2. destruct ev; [|done].
    apply SI_upd_vm; [done|done|]. intros vm0 H0 Hp. exact (si_avail _ H1 v vm0 H0 Hp). }
  destruct (vm_deleteInFlight vm); [done|]. cbn [fst]. apply SI_upd_vm; [done|done|].
  intros vm0 H0 Hp. exact (si_avail _ HS2 v vm0 H0 Hp).
Qed.

(** What a confirmed deletion leaves. *)
Lemma finishDeletion_gone cfg v vm s :
  SI s -> vmObjs s !! v = Some vm -> v ∈ vms s ->
  let s' := (finishDeletionLocked cfg v s).1 in
  v ∉ vms s' /\ (vm_uid vm <> "" -> vmByUID s' !! vm_uid vm = None) /\ leases s' = delete (vm_leaseID vm) (leases s).
Proof.
  intros HS Hv Hin. rewrite (finishDeletion_remove cfg v vm s Hv Hin). cbv zeta.
  pose proof (removeVM_untracks v vm s HS Hv) as U. pose proof (untracks_SI v vm s _ HS Hv U) as HS1.
  assert (leases (removeVM v vm s) = delete (vm_leaseID vm) (leases s)) as HL.
  { unfold removeVM. destruct (String.eqb_spec (vm_leaseID vm) "") as [He|He].
    - rewrite He. rewrite (delete_id (leases s)) by apply (si_nolease s HS). by destruct (String.eqb _ _).
    - rewrite dropLease_leases. by destruct (String.eqb _ _). }
  destruct U as [U1 U2 U3 _ _ _ _ U8]. set (s1 := removeVM v vm s) in *. clearbody s1.
  assert (v ∉ vms s1 /\ (vm_uid vm <> "" -> vmByUID s1 !! vm_uid vm = None)) as [Hv1 Hb1].
  { split; [set_solver|]. intros Hu. rewrite U3, (proj2 (String.eqb_neq (vm_uid vm) "") Hu). apply lookup_delete_eq. }
  destruct (lookupPool (vm_pool vm) s1) as [[a ps]|]; [|done].
  set (s2 := match vm_deleteEvent vm with Some _ => _ | None => s1 end).
  assert (vmObjs s2 = vmObjs s1 /\ vms s2 = vms s1 /\ vmByUID s2 = vmByUID s1 /\ leases s2 = leases s1) as (E0 & E1 & E2 & E3).
  { unfold s2. destruct (vm_deleteEvent vm); [|done].
    match goal with |- context [emitLocked ?k ?u ?ty ?p ?s1] => destruct (emit_frame k u ty p s1) as (? & ? & ? & ? & _) end. done. }
  assert (bounded s2) as HB2.
  { unfold s2. destruct (vm_deleteEvent vm); [|by apply SI_bounded].
    eapply bounded_evo_nil; [by apply SI_bounded|]. by apply evo_emit, SI_bounded. }
  pose proof (evo_provisionN cfg a (onDeleted (strategyOf (po_spec ps))) "vm deleted" s2 HB2) as E.
  pose proof (provisionN_leases cfg a (onDeleted (strategyOf (po_spec ps))) "vm deleted" s2) as HP.
  split_and!.
  - rewrite (evo_vms _ _ _ E), E1. intros [?|HN]; [done|]. pose proof (evo_N_new _ _ _ _ HB2 E HN) as Hnew. rewrite E0 in Hnew.
    rewrite U1 in Hnew. congruence.
  - rewrite (evo_byuid _ _ _ E), E2. done.
  - by rewrite HP, E3.
Qed.

Section Release.
Context (cfg : FakeConfig) (fmt : time -> string) (t0 : time) (h : Hosts).

(** A release ends with the MicroVM gone.  ReleaseVM of an outstanding
    Lease goes on to delete that Lease's MicroVM from its Host.  When the Host
    confirms, the Lease, and no other, is gone, the MicroVM is forgotten and
    its uid is free; when the Host fails, the Lease is still there and the
    MicroVM is among the deletions the next tick retries. *)
Theorem release_deletes y id rec v vm :
  reachable cfg fmt t0 h y -> leases (pm y) !! id = Some rec ->
  vmByUID (pm y) !! lr_VMUID rec = Some v -> vmObjs (pm y) !! v = Some vm -> vm_deleteInFlight vm = false ->
  exists s1 s2, releaseVM_begin id (pm y) = (s1, inr v)
  /\ deleteVM_begin v (Some VM_DELETED_ON_RELEASE) s1 = (s2, DelHost (vm_host vm) (lr_VMUID rec))
  /\ (let s3 := (deleteVM_end cfg v None s2).1 in
      leases s3 = delete id (leases (pm y)) /\ v ∉ vms s3 /\ vmByUID s3 !! lr_VMUID rec = None)
  /\ (forall e, let s3 := (deleteVM_end cfg v (Some e) s2).1 in
      leases s3 = leases (pm y) /\ v ∈ pending_deletions s3).
Proof.
  intros HR Hl Hb Hv Hf. destruct (reachable_inv cfg fmt t0 h y HR) as [HS HT]. set (s := pm y) in *.
  destruct (si_byuid s HS _ _ Hb) as (Hu & Hin & vm' & Hv' & Huid). assert (vm' = vm) as -> by congruence. clear Hv'.
  destruct (si_lease s HS id rec Hl) as (_ & _ & _ & w & vmw & Hw & _ & Hlid & Huw & _).
  assert (w = v) as -> by (apply (si_uid s HS w vmw v vm); congruence). assert (vmw = vm) as -> by congruence.
  destruct (si_id s HS v vm Hv) as [Hid _].
  assert (exists s1 vm1, releaseVM_begin id s = (s1, inr v) /\ SI s1 /\ leases s1 = leases s /\ vms s1 = vms s
    /\ vmObjs s1 !! v = Some vm1 /\ vm_core vm1 = vm_core vm /\ vm_deleteInFlight vm1 = false) as (s1 & vm1 & Hr & HS1 & L1 & V1 & O1 & C1 & F1).
  { destruct (releaseVM_begin_inv id s (threads y) HS HT) as [HI _].
    unfold releaseVM_begin in *. rewrite Hl in *. assert (vm_at (lr_VMUID rec) s = Some vm) as Hat by (unfold vm_at; by rewrite Hb).
    rewrite Hat, Hid in *. destruct (vm_released vm); [by exists s, vm|]. cbn [fst] in HI.
    match goal with |- context [emitLocked ?k ?u ?ty ?p ?s1] => destruct (emit_frame k u ty p s1) as (E1 & E2 & E3 & E4 & _) end.
    eexists _, _. split; [reflexivity|]. split; [exact HI|]. rewrite E1, E4, E2. split_and!; [done|done| |..].
    - unfold upd_vm. rec_simpl. rewrite lookup_alter_eq, Hv. reflexivity.
    - done.
    - done. }
  destruct (deleteVM_begin_spec v (Some VM_DELETED_ON_RELEASE) s1 vm1 O1 ltac:(by rewrite V1) F1)
    as (s2 & Hd & L2 & V2 & _ & vm2 & O2 & C2 & P2).
  pose proof (SI_deleteVM_begin v (Some VM_DELETED_ON_RELEASE) s1 HS1) as HS2. rewrite Hd in HS2. simpl in HS2.
  unfold vm_core in C1, C2. injection C1 as C11 C12 C13 C14 C15. injection C2 as C21 C22 C23 C24 C25.
  assert (vmObjs (upd_vm v (fun vm => vm <| vm_deleteInFlight := false |>) s2) !! v = Some (vm2 <| vm_deleteInFlight := false |>)) as O3.
  { unfold upd_vm. rec_simpl. by rewrite lookup_alter_eq, O2. }
  exists s1, s2. split_and!; [done|by rewrite Hd, C14, C12, Huid| |].
  - cbv zeta. unfold deleteVM_end.
    assert (SI (upd_vm v (fun vm => vm <| vm_deleteInFlight := false |>) s2)) as HS3.
    { apply SI_upd_vm; [done|done|]. intros vm0 H0 Hp. exact (si_avail _ HS2 v vm0 H0 Hp). }
    destruct (finishDeletion_gone cfg v _ _ HS3 O3 ltac:(unfold upd_vm; rec_simpl; rewrite V2, V1; done)) as (G1 & G2 & G3).
    rec_simpl. rewrite C22, C12, Huid in G2. rewrite C25, C15, Hlid in G3. split_and!; [|done|by apply G2].
    rewrite G3. unfold upd_vm. rec_simpl. by rewrite L2, L1.
  - intros e. cbv zeta. unfold deleteVM_end. cbn [fst]. split; [unfold upd_vm; rec_simpl; by rewrite L2, L1|].
    unfold pending_deletions. apply list_elem_of_fmap. exists (vm2 <| vm_deleteInFlight := false |>). split; [simpl; congruence|].
    apply list_elem_of_filter. split; [split_and!; simpl; congruence|]. apply (live_elem_fwd _ v), live_lookup.
    split; [done|]. unfold upd_vm. rec_simpl. by rewrite V2, V1.
Qed.
End Release.

Lemma release_deletes_witness :
  let y := demo_run (demo_fill ++ demo_claim) in
  exists s1 s2, releaseVM_begin "L1" (pm y) = (s1, inr 1)
  /\ deleteVM_begin 1 (Some VM_DELETED_ON_RELEASE) s1 = (s2, DelHost "h1" "u1").
Proof.
  set (y := demo_run _). cbv zeta.
  assert (reachable demo_FakeConfig demo_fmt 0 demo_Hosts y) as HR by (apply demo_run_reachable; vm_compute; by eexists).
  assert (lr_VMUID <$> leases (pm y) !! "L1" = Some "u1") as Hl by (vm_compute; reflexivity).
  assert (vmByUID (pm y) !! "u1" = Some 1) as Hb by (vm_compute; reflexivity).
  assert ((fun vm => (vm_host vm, vm_deleteInFlight vm)) <$> vmObjs (pm y) !! 1 = Some ("h1", false)) as Hv by (vm_compute; reflexivity).
  clearbody y.
  destruct (leases (pm y) !! "L1") as [rec|] eqn:El; [|done]. injection Hl as Hl.
  destruct (vmObjs (pm y) !! 1) as [vm|] eqn:Ev; [|done]. injection Hv as Hh Hf.
  destruct (release_deletes demo_FakeConfig demo_fmt 0 demo_Hosts y "L1" rec 1 vm HR El ltac:(by rewrite Hl) Ev Hf) as (s1 & s2 & H1 & H2 & _).
  exists s1, s2. split; [exact H1|]. rewrite H2, Hh, Hl. reflexivity.
Defined.

(** ** Placement *)
Lemma least_spec load best l :
  let r := least load best l in
  r ∈ best :: l /\ forall h, h ∈ best :: l -> load r <= load h.
Proof.
  unfold least. revert best. induction l as [|x l IH]; intros best; cbn [fold_left].
  { split; [set_solver|]. intros h ->%list_elem_of_singleton. lia. }
  destruct (Z.ltb_spec (load x) (load best)) as [Hlt|Hge].
  - destruct (IH x) as [H1 H2]. split; [set_solver|]. intros h [->|Hh]%elem_of_cons; [|by apply H2].
    specialize (H2 x ltac:(set_solver)). lia.
  - destruct (IH best) as [H1 H2]. split; [set_solver|]. intros h [->|[->|Hh]%elem_of_cons]%elem_of_cons.
    + apply H2. set_solver.
    + specialize (H2 best ltac:(set_solver)). lia.
    + apply H2. set_solver.
Qed.

(** Reserving a MicroVM adds it to the ones a range over [p.vms] sees. *)
Lemma live_reserve s v vm :
  live (s <| nextVM := v |> <| vmObjs := <[v := vm]> (vmObjs s) |> <| vms := {[v]} ∪ vms s |>) = <[v := vm]> (live s).
Proof.
  apply map_eq. intros w. apply option_eq. intros vm'. rewrite live_lookup. rec_simpl. destruct (decide (w = v)) as [->|Hne].
  - rewrite !lookup_insert_eq. split; [by intros [? _]|]. intros ?. split; [done|set_solver].
  - rewrite !lookup_insert_ne by done. rewrite live_lookup. set_solver.
Qed.

Lemma live_upd_pool a f s : live (upd_pool a f s) = live s.
Proof. done. Qed.

Section Placement.
Context (cfg : FakeConfig).

(** What [pickHostLocked] leaves as it is. *)
Lemma pickHost_spec a ps s :
  poolObjs s !! a = Some ps -> candidates ps s <> [] ->
  exists s' host, pickHostLocked cfg a ps s = (s', Ok host) /\ host ∈ candidates ps s
  /\ live s' = live s /\ nextVM s' = nextVM s /\ vmObjs s' = vmObjs s /\ vms s' = vms s /\ hosts s' = hosts s /\ now s' = now s
  /\ (exists ps', poolObjs s' !! a = Some ps' /\ po_key ps' = po_key ps /\ po_spec ps' = po_spec ps)
  /\ (fc_Placement cfg <> Some PlacementRoundRobin ->
      forall h, h ∈ candidates ps s -> perHost (po_key ps) host s <= perHost (po_key ps) h s).
Proof.
  intros Hps Hc. unfold pickHostLocked. destruct (candidates ps s) as [|c cs] eqn:Ec; [done|].
  destruct (least_spec (fun h => perHost (po_key ps) h s) c cs) as [Hl1 Hl2].
  destruct (fc_Placement cfg) as [[|]|].
  - eexists _, _. split; [reflexivity|]. split_and!; try done; eauto.
  - eexists _, _. split; [reflexivity|]. split_and!; try done.
    + set (i := Z.to_nat _). destruct (decide (i < length (c :: cs))%nat).
      * by apply list_elem_of_In, nth_In.
      * rewrite nth_overflow by lia. set_solver.
    + unfold upd_pool. rec_simpl. rewrite lookup_alter_eq, Hps. simpl. eauto.
  - eexists _, _. split; [reflexivity|]. split_and!; try done; eauto.
Qed.

(** The MicroVM [provisionNLocked] reserves. *)
Definition newVM (id : Z) (key : PoolRef) (host : string) (t : time) : vmState :=
  {| vm_id := id; vm_uid := ""; vm_pool := key; vm_host := host; vm_phase := PROVISIONING; vm_leaseID := "";
     vm_deleteEvent := None; vm_deleteInFlight := false; vm_released := false; vm_createdAt := t; vm_updated := t |}.

Lemma reserve_step n a ps s :
  poolObjs s !! a = Some ps -> candidates ps s <> [] -> bounded s ->
  exists s1 host l ps1, reserve cfg (S n) a s = ((reserve cfg n a s1).1, nextVM s + 1 :: l) /\ (reserve cfg n a s1).2 = l
  /\ live s1 = <[nextVM s + 1 := newVM (nextVM s + 1) (po_key ps) host (now s)]> (live s) /\ live s !! (nextVM s + 1) = None
  /\ poolObjs s1 !! a = Some ps1 /\ po_key ps1 = po_key ps /\ candidates ps1 s1 = candidates ps s /\ bounded s1
  /\ host ∈ candidates ps s
  /\ (fc_Placement cfg <> Some PlacementRoundRobin ->
      forall h, h ∈ candidates ps s -> perHost (po_key ps) host s <= perHost (po_key ps) h s).
Proof.
  intros Hps Hc HB. cbn [reserve]. rewrite Hps.
  destruct (pickHost_spec a ps s Hps Hc) as (s0 & host & -> & Hin & HL & HN & HO & HV & HH & HT & (ps' & Hps' & Hk' & Hs') & Hmin).
  rewrite HN, HT. fold (newVM (nextVM s + 1) (po_key ps) host (now s)).
  set (s1 := s0 <| nextVM := _ |> <| vmObjs := _ |> <| vms := _ |>).
  destruct (reserve cfg n a s1) as [s2 l] eqn:Er.
  exists s1, host, l, ps'. rewrite Er. split_and!; try done.
  - unfold s1. rewrite live_reserve, HL. done.
  - destruct (live s !! (nextVM s + 1)) as [vm|] eqn:E; [|done]. apply live_lookup in E as [E _].
    pose proof (HB (nextVM s + 1) ltac:(by rewrite E)). lia.
  - unfold candidates. rewrite Hs'. unfold s1. rec_simpl. by rewrite HH.
  - intros v Hv. unfold s1 in *. rec_simpl. rewrite HO in Hv. destruct (decide (v = nextVM s + 1)) as [->|Hne]; [lia|].
    rewrite lookup_insert_ne in Hv by done. specialize (HB v Hv). lia.
Qed.

Lemma reserve_count (P : vmState -> bool) b n a ps s :
  poolObjs s !! a = Some ps -> candidates ps s <> [] -> bounded s ->
  (forall id host t, P (newVM id (po_key ps) host t) = b) ->
  length (reserve cfg n a s).2 = n
  /\ map_count P (live (reserve cfg n a s).1) = map_count P (live s) + (if b then Z.of_nat n else 0).
Proof.
  revert ps s. induction n as [|n IH]; intros ps s Hps Hc HB HP.
  { simpl. destruct b; split; try done; lia. }
  destruct (reserve_step n a ps s Hps Hc HB) as (s1 & host & l & ps1 & -> & Hl & HL & Hnone & Hps1 & Hk & Hc1 & HB1 & _).
  destruct (IH ps1 s1 Hps1 ltac:(by rewrite Hc1) HB1 ltac:(by rewrite Hk)) as [H1 H2]. cbn [fst snd length]. split; [congruence|].
  rewrite H2, HL, map_count_insert_None, HP by done. destruct b; lia.
Qed.

(** Loads differ by at most one. *)
Definition balanced (key : PoolRef) (cands : list string) (s : PM) : Prop :=
  forall h h', h ∈ cands -> h' ∈ cands -> perHost key h s <= perHost key h' s + 1.

(** Placement.  Unless the round-robin strategy was asked for, reserving
    any number of MicroVMs in a Pool whose Hosts carry loads that differ by at
    most one leaves loads that differ by at most one; every one of them is
    placed on a Host the Pool lists and the fake knows, and none is left out. *)
Theorem placement_balanced n a ps s :
  poolObjs s !! a = Some ps -> candidates ps s <> [] -> bounded s -> fc_Placement cfg <> Some PlacementRoundRobin ->
  balanced (po_key ps) (candidates ps s) s ->
  let '(s', l) := reserve cfg n a s in
  length l = n /\ balanced (po_key ps) (candidates ps s) s'
  /\ forall v vm, live s' !! v = Some vm -> live s !! v = Some vm \/ vm_pool vm = po_key ps /\ vm_host vm ∈ candidates ps s.
Proof.
  intros Hps Hc HB Hpl. revert ps s Hps Hc HB. induction n as [|n IH]; intros ps s Hps Hc HB Hbal.
  { simpl. auto. }
  destruct (reserve_step n a ps s Hps Hc HB) as (s1 & host & l & ps1 & -> & Hl & HL & Hnone & Hps1 & Hk & Hc1 & HB1 & Hin & Hmin).
  specialize (Hmin Hpl).
  assert (forall h, perHost (po_key ps) h s1 = perHost (po_key ps) h s + if decide (host = h) then 1 else 0) as Hload.
  { intros h. unfold perHost. rewrite HL, map_count_insert_None by done. rewrite bool_decide_true by done. simpl.
    destruct (decide (host = h)); [rewrite bool_decide_true by done|rewrite bool_decide_false by done]; lia. }
  specialize (IH ps1 s1 Hps1 ltac:(by rewrite Hc1) HB1). rewrite Hk, Hc1 in IH.
  destruct (reserve cfg n a s1) as [s2 l2]. simpl in Hl. subst l2. destruct IH as (H1 & H2 & H3).
  { intros h h' Hh Hh'. rewrite !Hload. pose proof (Hbal h h' Hh Hh').
    destruct (decide (host = h)) as [<-|], (decide (host = h')) as [<-|]; try lia. specialize (Hmin h' Hh'). lia. }
  split_and!; [simpl; congruence|done|]. intros v vm Hv. destruct (H3 v vm Hv) as [Hv1|?]; [|by right].
  rewrite HL in Hv1. destruct (decide (v = nextVM s + 1)) as [->|Hne].
  - rewrite lookup_insert_eq in Hv1. injection Hv1 as <-. by right.
  - rewrite lookup_insert_ne in Hv1 by done. by left.
Qed.
End Placement.

Lemma placement_balanced_witness :
  let s := pm (demo_run demo_fill) in
  length (reserve demo_FakeConfig 3 0 s).2 = 3%nat.
Proof.
  set (s := pm (demo_run _)). cbv zeta.
  destruct (poolObjs s !! 0) as [ps|] eqn:Ep; [|by vm_compute in Ep].
  pose proof (placement_balanced demo_FakeConfig 3 0 ps s Ep) as H.
  assert (candidates ps s = ["h1"]) as Hc.
  { assert (option_map (fun ps => candidates ps s) (poolObjs s !! 0) = Some ["h1"]) as Hx by (vm_compute; reflexivity).
    rewrite Ep in Hx. by injection Hx. }
  rewrite Hc in H. destruct (reserve demo_FakeConfig 3 0 s) as [s' l]. apply H; [done| |done|].
  - destruct (reachable_inv demo_FakeConfig demo_fmt 0 demo_Hosts (demo_run demo_fill)) as [HS _]; [|exact (SI_bounded _ HS)].
    apply demo_run_reachable. vm_compute. by eexists.
  - intros h h' ->%list_elem_of_singleton ->%list_elem_of_singleton. lia.
Defined.

(** ** Replenishment *)
Section Replenish.
Context (cfg : FakeConfig).

(** The MicroVMs of a Pool in the given phases. *)
Definition population (key : PoolRef) (ph : list VMPhase) (s : PM) : Z := map_count (in_phase key ph) (live s).
Definition warmPhases : list VMPhase := [AVAILABLE; PROVISIONING; CREATE_HOOK_RUNNING].
Definition allPhases : list VMPhase := [AVAILABLE; LEASED; PRE_LEASE_HOOK_RUNNING; PROVISIONING; CREATE_HOOK_RUNNING].

Lemma map_count_or {A} (P Q R : A -> bool) (m : gmap Z A) :
  (forall x, R x = P x || Q x) -> (forall x, P x && Q x = false) -> map_count R m = map_count P m + map_count Q m.
Proof.
  intros HR HD. induction m as [|k x m Hk IH] using map_ind; [done|]. rewrite !map_count_insert_None by done. rewrite IH, HR.
  specialize (HD x). destruct (P x), (Q x); simpl in *; try done; lia.
Qed.

Lemma population_split key ph1 ph2 s :
  (forall p, p ∈ ph1 -> p ∉ ph2) -> population key (ph1 ++ ph2) s = population key ph1 s + population key ph2 s.
Proof.
  intros HD. apply map_count_or; intros vm; unfold in_phase.
  - destruct (bool_decide (vm_pool vm = key)); simpl; [|done].
    rewrite (bool_decide_ext _ (vm_phase vm ∈ ph1 \/ vm_phase vm ∈ ph2)) by (by rewrite elem_of_app). apply bool_decide_or.
  - apply not_true_iff_false. intros H. bool_to_prop. by apply (HD (vm_phase vm)).
Qed.

Lemma population_perm key ph1 ph2 s : ph1 ≡ₚ ph2 -> population key ph1 s = population key ph2 s.
Proof.
  intros Hp. unfold population, map_count. f_equal. apply list_fmap_ext. intros i vm _. unfold in_phase.
  by rewrite (bool_decide_ext (vm_phase vm ∈ ph1) (vm_phase vm ∈ ph2)) by (by rewrite Hp).
Qed.

Lemma population_nonneg key ph s : 0 <= population key ph s.
Proof. apply map_count_nonneg. Qed.

Lemma provisionN_population a ps n reason s ph :
  SI s -> poolObjs s !! a = Some ps -> candidates ps s <> [] -> running s = true -> 0 <= n -> PROVISIONING ∈ ph ->
  population (po_key ps) ph (provisionNLocked cfg a n reason s).1 = population (po_key ps) ph s + n.
Proof.
  intros HS Hps Hc Hr Hn Hph. unfold provisionNLocked. rewrite Hr. cbn [negb]. rewrite orb_false_r.
  destruct (Z.leb_spec n 0) as [Hle|Hgt]; [simpl; lia|].
  destruct (reserve_count cfg (in_phase (po_key ps) ph) true (Z.to_nat n) a ps s Hps Hc (SI_bounded s HS)) as [Hl Hcnt].
  { intros id host t. unfold in_phase, newVM. simpl. by rewrite !bool_decide_true. }
  destruct (reserve cfg (Z.to_nat n) a s) as [s1 l]. simpl in *. destruct l as [|v l]; [simpl in Hl; lia|]. rewrite Hps. simpl.
  unfold population. match goal with |- context [emitLocked ?k ?u ?ty ?p ?s1] => destruct (emit_frame k u ty p s1) as (_ & E1 & _ & E2 & _);
    assert (live (emitLocked k u ty p s1) = live s1) as -> by (unfold live; by rewrite E1, E2) end.
  rewrite Hcnt. lia.
Qed.

(** The populations the counters stand for. *)
Lemma population_all key s :
  population key allPhases s = population key [AVAILABLE] s
    + (population key [LEASED; PRE_LEASE_HOOK_RUNNING] s + population key [PROVISIONING; CREATE_HOOK_RUNNING] s).
Proof.
  rewrite <-population_split by (intros p; rewrite !elem_of_cons; set_solver).
  rewrite <-population_split by (intros p; rewrite !elem_of_cons; set_solver). done.
Qed.
Lemma population_warm key s :
  population key warmPhases s = population key [AVAILABLE] s + population key [PROVISIONING; CREATE_HOOK_RUNNING] s.
Proof. rewrite <-population_split by (intros p; rewrite !elem_of_cons; set_solver). done. Qed.

Lemma tickDeficit_nonneg st c : 0 <= tickDeficit st c.
Proof. unfold tickDeficit. destruct (st_typ _); repeat case_match; bool_to_prop; lia. Qed.

(** A tick provisions the deficit, no more and no less. *)
Lemma tick_pool_population key a ps s st ph :
  SI s -> lookupPool key s = Some (a, ps) -> candidates ps s <> [] -> running s = true -> PROVISIONING ∈ ph ->
  population key ph (tick_pool cfg (s, st) key).1 = population key ph s + tickDeficit (strategyOf (po_spec ps)) (countsLocked key s).
Proof.
  intros HS Hlp Hc Hr Hph. destruct (lookupPool_spec s key a ps HS Hlp) as (_ & Hps & Hk).
  unfold tick_pool. rewrite Hlp, Hk. set (d := tickDeficit _ _).
  set (s1 := if (0 <? d) && negb (po_fresh ps) then _ else s).
  assert (evo [] s s1) as E1 by (unfold s1; destruct (_ && _); [apply evo_emit, SI_bounded, HS|apply evo_refl]).
  assert (live s1 = live s /\ hosts s1 = hosts s /\ running s1 = running s) as (EL & EH & ER).
  { unfold s1. destruct (_ && _); [|done].
    match goal with |- context [emitLocked ?k ?u ?ty ?p ?s1] => destruct (emit_frame k u ty p s1) as (_ & F1 & _ & F2 & _ & _ & F3 & F4 & F5 & _) end.
    unfold live, running. by rewrite F1, F2, F3, F4, F5. }
  destruct (evo_key_fwd _ _ _ _ _ E1 Hps) as (ps1 & Hps1 & Hk1).
  assert (po_spec ps1 = po_spec ps) as Hspec.
  { unfold s1 in Hps1. destruct (_ && _); [|congruence]. unfold emitLocked in Hps1. rewrite Hlp in Hps1.
    unfold upd_pool in Hps1. rec_simpl. rewrite lookup_alter_eq, Hps in Hps1. injection Hps1 as <-. done. }
  set (s2 := upd_pool a _ s1).
  assert (evo [] s1 s2) as E2 by (by apply evo_upd_pool).
  pose proof (evo_SI _ _ _ E2 (evo_SI _ _ _ E1 HS)) as HS2.
  pose proof (provisionN_population a (ps1 <| po_fresh := false |>) d "tick" s2 ph HS2) as HPN.
  destruct (provisionNLocked cfg a d "tick" s2) as [s3 l]. simpl in HPN. rewrite Hk1, Hk in HPN.
  unfold population in *. cbn [fst]. rewrite <-EL, HPN; [done| | |by rewrite <-ER in Hr|apply tickDeficit_nonneg|done].
  - unfold s2, upd_pool. rec_simpl. by rewrite lookup_alter_eq, Hps1.
  - unfold candidates in *. simpl. rewrite Hspec. unfold s2, upd_pool. rec_simpl. by rewrite EH.
Qed.

(** A tick tops a Pool up.  For a Pool with a Host the fake knows, while
    the control loop runs and the populations fit their 32-bit counters, one
    tick leaves exactly the larger of the declared size and what there was:
    counted over the idle MicroVMs, those being provisioned included, for
    IMMEDIATE_ON_LEASE, and over the leased ones too for REPLACE_ON_DELETE and
    for MIN_SIZE_THRESHOLD, which acts only while fewer than the minimum are
    AVAILABLE.  It never provisions more than that. *)
Theorem tick_tops_up key a ps s st :
  SI s -> lookupPool key s = Some (a, ps) -> candidates ps s <> [] -> running s = true ->
  0 <= sp_Size (po_spec ps) <= 2147483647 -> population key allPhases s <= 2147483647 ->
  let s' := (tick_pool cfg (s, st) key).1 in
  match rs_Type (sp_Replenishment (po_spec ps)) with
  | IMMEDIATE_ON_LEASE => population key warmPhases s' = Z.max (sp_Size (po_spec ps)) (population key warmPhases s)
  | REPLACE_ON_DELETE => population key allPhases s' = Z.max (sp_Size (po_spec ps)) (population key allPhases s)
  | MIN_SIZE_THRESHOLD =>
      population key allPhases s' =
        if default 0 (rs_MinSize (sp_Replenishment (po_spec ps))) <=? population key [AVAILABLE] s
        then population key allPhases s else Z.max (sp_Size (po_spec ps)) (population key allPhases s)
  | REPLENISHMENT_UNSPECIFIED => population key allPhases s' = population key allPhases s
  end.
Proof.
  intros HS Hlp Hc Hr Hsize Hmax. cbv zeta. rewrite population_all in Hmax.
  rewrite !(tick_pool_population key a ps s st _ HS Hlp Hc Hr) by (unfold warmPhases, allPhases; rewrite !elem_of_cons; auto 8).
  rewrite population_all, population_warm. unfold tickDeficit, strategyOf, countsLocked.
  cbn [st_typ st_size st_minSize c_available c_leased c_provisioning].
  fold (population key [AVAILABLE] s) (population key [LEASED; PRE_LEASE_HOOK_RUNNING] s) (population key [PROVISIONING; CREATE_HOOK_RUNNING] s).
  pose proof (population_nonneg key [AVAILABLE] s). pose proof (population_nonneg key [LEASED; PRE_LEASE_HOOK_RUNNING] s).
  pose proof (population_nonneg key [PROVISIONING; CREATE_HOOK_RUNNING] s).
  generalize dependent (population key [AVAILABLE] s). generalize dependent (population key [LEASED; PRE_LEASE_HOOK_RUNNING] s).
  generalize dependent (population key [PROVISIONING; CREATE_HOOK_RUNNING] s). intros P HP L HL A Hmax HA.
  rewrite (int32_id A), (int32_id L), (int32_id P), (int32_id (A + P)), (int32_id (A + L)), (int32_id (A + L + P)) by lia.
  rewrite (int32_id (sp_Size (po_spec ps) - (A + P))), (int32_id (sp_Size (po_spec ps) - (A + L + P))) by lia.
  destruct (rs_Type _); repeat case_if; bool_to_prop; lia.
Qed.
End Replenish.

Lemma tick_tops_up_witness :
  let s := pm (demo_run [IRequest (ReqCreate demo_poolSpec); IRun]) in
  population demo_ref allPhases (tick_pool demo_FakeConfig (s, []) demo_ref).1 = 1.
Proof.
  set (s := pm (demo_run _)). cbv zeta.
  assert (SI s) as HS.
  { apply (reachable_inv demo_FakeConfig demo_fmt 0 demo_Hosts (demo_run [IRequest (ReqCreate demo_poolSpec); IRun])).
    apply demo_run_reachable. vm_compute. by eexists. }
  assert (option_map (fun x => (sp_Size (po_spec x.2), rs_Type (sp_Replenishment (po_spec x.2)), candidates x.2 s)) (lookupPool demo_ref s)
          = Some (1, REPLACE_ON_DELETE, ["h1"])) as Hp by (vm_compute; reflexivity).
  assert (running s = true) as Hr by (vm_compute; reflexivity).
  assert (population demo_ref allPhases s = 0) as Hn by (vm_compute; reflexivity).
  clearbody s. destruct (lookupPool demo_ref s) as [[a ps]|] eqn:El; [|done]. injection Hp as H1 H2 H3. simpl in *.
  pose proof (tick_tops_up demo_FakeConfig demo_ref a ps s [] HS El ltac:(by rewrite H3) Hr ltac:(lia) ltac:(lia)) as H.
  cbv zeta in H. rewrite H2, H1, Hn in H. exact H.
Defined.

(** ** Polling *)
Section Poll.
Context (cfg : FakeConfig).

Lemma pollLoop_terminates probe clockAt ctx terr deadline start n i :
  (forall j, start + Z.of_nat j * createPollInterval <= clockAt j) ->
  deadline <= start + Z.of_nat (i + n) * createPollInterval ->
  is_Some (pollLoop probe clockAt ctx terr deadline (S n) i).
Proof.
  intros Hclk. revert i. induction n as [|n IH]; intros i Hd; cbn [pollLoop].
  - destruct (probe i); [done|]. specialize (Hclk i). replace (i + 0)%nat with i in Hd by lia.
    unfold time_Before. destruct (Z.ltb_spec (clockAt i) deadline); [lia|done].
  - destruct (probe i); [done|]. destruct (negb _); [done|]. destruct (ctx i); [done|]. apply IH.
    replace (S i + n)%nat with (i + S n)%nat by lia. exact Hd.
Qed.

Lemma pollLoop_success probe clockAt ctx terr deadline fuel i :
  pollLoop probe clockAt ctx terr deadline fuel i = Some None -> exists j, probe j = Some None.
Proof.
  revert i. induction fuel as [|fuel IH]; intros i; cbn [pollLoop]; [done|].
  destruct (probe i) as [r|] eqn:Ep; [intros [= ->]; by exists i|]. destruct (negb _); [done|]. destruct (ctx i); [done|]. apply IH.
Qed.

(** Waiting for a MicroVM ends.  Whatever the Host answers, as long as
    each wait of the poll timer takes its interval, [waitCreated] and
    [waitGuestReady] return within one round per interval of the ready
    timeout, and two more; and they report success only if the Host reported
    the MicroVM CREATED, or the guest agent answered. *)
Theorem waits_terminate clockAt ctx uid start :
  (forall j, start + Z.of_nat j * createPollInterval <= clockAt j) -> 0 <= fc_ReadyTimeout cfg ->
  let fuel := S (Z.to_nat (fc_ReadyTimeout cfg / createPollInterval + 1)) in
  (forall get, exists r, waitCreated cfg get clockAt ctx uid start fuel = Some r /\ (r = None -> exists j, get j = Ok MV_CREATED))
  /\ (forall exec, exists r, waitGuestReady cfg exec clockAt ctx uid start fuel = Some r /\ (r = None -> exists j code, exec j = Ok code)).
Proof.
  intros Hclk Hto fuel.
  assert (time_Add start (fc_ReadyTimeout cfg) <= start + Z.of_nat (0 + Z.to_nat (fc_ReadyTimeout cfg / createPollInterval + 1)) * createPollInterval) as Hd.
  { unfold time_Add. rewrite Nat.add_0_l, Z2Nat.id by (apply Z.add_nonneg_nonneg; [apply Z.div_pos; [done|vm_compute; reflexivity]|done]).
    pose proof (Z.div_mod (fc_ReadyTimeout cfg) createPollInterval ltac:(done)) as Hdm.
    pose proof (Z.mod_pos_bound (fc_ReadyTimeout cfg) createPollInterval ltac:(vm_compute; reflexivity)) as Hmb. lia. }
  split.
  - intros get. unfold waitCreated.
    destruct (pollLoop_terminates (fun i => created_probe uid (get i)) clockAt ctx (ENew ("microvm " +:+ uid +:+ " not created within the timeout")) _ start _ 0%nat Hclk Hd) as [r Hr].
    exists r. split; [exact Hr|]. intros ->. apply pollLoop_success in Hr as [j Hj]. exists j.
    unfold created_probe in Hj. by destruct (get j) as [[| | |]|].
  - intros exec. unfold waitGuestReady.
    destruct (pollLoop_terminates (fun i => ready_probe (exec i)) clockAt ctx (ENew ("guest agent of " +:+ uid +:+ " not ready within the timeout")) _ start _ 0%nat Hclk Hd) as [r Hr].
    exists r. split; [exact Hr|]. intros ->. apply pollLoop_success in Hr as [j Hj]. exists j.
    unfold ready_probe in Hj. destruct (exec j) as [code|e]; [by exists code|by destruct (isCtxErr e)].
Qed.
End Poll.

Lemma waits_terminate_witness :
  let cfg := fake_withDefaults demo_FakeConfig in
  exists r, waitCreated cfg (fun i => if (i <? 3)%nat then Ok MV_PENDING else Ok MV_CREATED) (fun i => Z.of_nat i * createPollInterval)
    (fun _ => None) "u1" 0 242 = Some r.
Proof.
  destruct (waits_terminate (fake_withDefaults demo_FakeConfig) (fun i => Z.of_nat i * createPollInterval) (fun _ => None) "u1" 0) as [H _];
    [intros j; lia|vm_compute; discriminate|].
  destruct (H (fun i => if (i <? 3)%nat then Ok MV_PENDING else Ok MV_CREATED)) as (r & Hr & _). exists r. exact Hr.
Defined.

(** ** Shutdown *)
Lemma cleanup_leases ids s :
  leases (fold_left (fun s id => dropLeaseLocked id s) ids s) = filter (fun kv => kv.1 ∉ ids) (leases s).
Proof.
  revert s. induction ids as [|id ids IH]; intros s; cbn [fold_left].
  - symmetry. apply map_filter_id. set_solver.
  - rewrite IH, dropLease_leases. apply map_eq. intros k. apply option_eq. intros r.
    rewrite !map_lookup_filter_Some, lookup_delete_Some. set_solver.
Qed.

(** After the shutdown no Lease is held, whatever order the last pass
    took them in and whatever Hosts failed before it. *)
Theorem shutdown_no_leases o s : leases (cleanupAll_finish o s) = ∅.
Proof.
  unfold cleanupAll_finish. rewrite cleanup_leases. apply map_empty. intros id. apply map_lookup_filter_None. right.
  intros r Hr. simpl. intros Hn. apply Hn, arrange_elem, lease_keys_elem. by exists r.
Qed.
