(* ===== verification/FakeEvents.v ===== *)
(** * The fake Pool Manager: its events

    What subscribers see: ids per Pool, the replay buffer, and delivery; and
    two interleavings in which the fake departs from its comments. *)
From S2P Require Import Prelude GoModel PoolTypes ConfigTypes Spec PoolClient FakePool FakeOps FakeLoop FakeSys FakeInv FakeSteps FakeThms FakeBehav.

(** ** Delivery *)
Lemma trim_log_length replay l : 0 < replay -> Z.of_nat (length (trim_log replay l)) <= replay.
Proof. intros Hr. unfold trim_log. destruct (Z.ltb_spec replay (Z.of_nat (length l))); [rewrite length_drop|]; lia. Qed.

Lemma trim_log_suffix replay l : exists old, l = old ++ trim_log replay l.
Proof.
  unfold trim_log. destruct (_ <? _); [|by exists []]. eexists. symmetry. apply take_drop.
Qed.

(** Publishing a sequence of events. *)
Definition publish_all (l : list (PoolRef * Event)) (b : eventBus) : eventBus := fold_left (fun b ke => publish ke.1 ke.2 b) l b.
Definition wants (f : option PoolRef) (k : PoolRef) : Prop := match f with None => True | Some k' => k' = k end.
#[local] Instance wants_dec f k : Decision (wants f k).
Proof. unfold wants. destruct f; apply _. Defined.
Definition events_for (f : option PoolRef) (l : list (PoolRef * Event)) : list Event :=
  snd <$> filter (fun ke => wants f ke.1) l.

Lemma publish_all_sub l b id sub :
  eb_subs b !! id = Some sub -> sub_dropped sub = false ->
  (length (sub_ch sub) + length (events_for (sub_filter sub) l) <= subscriberBuffer)%nat ->
  eb_subs (publish_all l b) !! id =
    Some {| sub_filter := sub_filter sub; sub_ch := sub_ch sub ++ events_for (sub_filter sub) l; sub_dropped := false |}.
Proof.
  revert b sub. induction l as [|[k e] l IH]; intros b sub Hs Hd Hlen; unfold publish_all; cbn [fold_left fst snd].
  { rewrite Hs. destruct sub; simpl in *. subst. by rewrite app_nil_r. }
  fold (publish_all l (publish k e b)). unfold events_for in *. rewrite filter_cons in *.
  assert (eb_subs (publish k e b) !! id = Some (deliver k e sub)) as Hs1.
  { unfold publish. rec_simpl. by rewrite lookup_fmap, Hs. }
  assert (sub_matches k sub = bool_decide (wants (sub_filter sub) k)) as Hm.
  { unfold sub_matches. destruct (sub_filter sub); [by apply bool_decide_ext|]. by rewrite bool_decide_true. }
  unfold deliver in Hs1. rewrite Hm in Hs1. cbn [fst] in *. case_decide as Hc.
  - rewrite bool_decide_true in Hs1 by done. cbn [negb] in Hs1. rewrite fmap_cons in *. cbn [length snd] in *.
    destruct (Nat.ltb_spec (length (sub_ch sub)) subscriberBuffer); [|lia].
    rewrite (IH _ _ Hs1); [|done|simpl; rewrite length_app; simpl; lia]. unfold set_field. simpl. by rewrite <-app_assoc.
  - rewrite bool_decide_false in Hs1 by done. cbn [negb] in Hs1. by rewrite (IH _ _ Hs1).
Qed.

Lemma publish_all_recent l b k :
  0 < eb_replay b -> exists old, default [] (eb_recent b !! k) ++ events_for (Some k) l = old ++ default [] (eb_recent (publish_all l b) !! k).
Proof.
  intros Hr. revert b Hr. induction l as [|[k' e] l IH]; intros b Hr; unfold publish_all; cbn [fold_left fst snd].
  { exists []. by rewrite app_nil_r. }
  fold (publish_all l (publish k' e b)). destruct (IH (publish k' e b)) as [old Hold]; [done|].
  unfold events_for in *. rewrite filter_cons. simpl. unfold publish at 1 in Hold. rec_simpl. case_decide as Hc.
  - unfold wants in Hc. subst k'. rewrite lookup_insert_eq in Hold. simpl in Hold.
    destruct (trim_log_suffix (eb_replay b) (default [] (eb_recent b !! k) ++ [e])) as [old1 H1].
    exists (old1 ++ old). rewrite <-app_assoc, <-Hold, app_assoc, <-H1, fmap_cons, <-app_assoc. done.
  - rewrite lookup_insert_ne in Hold by done. by exists old.
Qed.

(** A subscriber of a Pool misses nothing.  What it is sent is the events
    the bus still has of the Pool when it subscribes and then, in order, every
    event of that Pool published since, and nothing else, as long as it is no
    more than its buffer behind; the bus itself never keeps more than
    [replay] events of a Pool, and always the last ones. *)
Theorem eventBus_gapless k o l b :
  0 < eb_replay b -> (length (events_for (Some k) l) <= subscriberBuffer)%nat ->
  let '(b1, (id, backlog)) := subscribe (Some k) o b in
  backlog = default [] (eb_recent b !! k)
  /\ eb_subs (publish_all l b1) !! id = Some {| sub_filter := Some k; sub_ch := events_for (Some k) l; sub_dropped := false |}
  /\ (exists old, backlog ++ events_for (Some k) l = old ++ default [] (eb_recent (publish_all l b1) !! k))
  /\ (forall e, Z.of_nat (length (default [] (eb_recent (publish k e (publish_all l b1)) !! k))) <= eb_replay (publish_all l b1)).
Proof.
  intros Hr Hlen. unfold subscribe. set (b1 := b <| eb_nextSub := _ |> <| eb_subs := _ |>).
  assert (eb_replay (publish_all l b1) = eb_replay b) as Hrep.
  { unfold publish_all. change (eb_replay b) with (eb_replay b1). generalize b1. clear. induction l as [|[k' e] l IH]; intros b1; cbn [fold_left]; [done|].
    by rewrite IH. }
  split_and!; [done| |apply (publish_all_recent l b1 k Hr)|].
  - assert (eb_subs b1 !! (eb_nextSub b + 1) = Some {| sub_filter := Some k; sub_ch := []; sub_dropped := false |}) as Hs
      by (unfold b1; rec_simpl; apply lookup_insert_eq).
    rewrite (publish_all_sub l b1 _ _ Hs); done.
  - intros e. unfold publish. rec_simpl. rewrite lookup_insert_eq. simpl. rewrite Hrep. by apply trim_log_length.
Qed.

Definition demo_event (n : Z) : Event :=
  {| ev_ID := n; ev_Pool := demo_ref; ev_VMUID := ""; ev_Type := VM_AVAILABLE; ev_At := 0; ev_Payload := RawEmpty |}.

Lemma eventBus_gapless_witness :
  let '(b1, (id, backlog)) := subscribe (Some demo_ref) [] (publish_all [(demo_ref, demo_event 1); (demo_ref, demo_event 2)] (newEventBus 1)) in
  backlog = [demo_event 2] /\ (sub_ch <$> eb_subs (publish_all [(demo_ref, demo_event 3)] b1) !! id) = Some [demo_event 3].
Proof.
  pose proof (eventBus_gapless demo_ref [] [(demo_ref, demo_event 3)]
    (publish_all [(demo_ref, demo_event 1); (demo_ref, demo_event 2)] (newEventBus 1)) ltac:(done) ltac:(vm_compute; lia)) as H.
  destruct (subscribe _ _ _) as [b1 [id backlog]]. destruct H as (-> & -> & _). split; vm_compute; reflexivity.
Defined.

(** ** Ids *)

(** [l] carries consecutive ids that end at [n]. *)
Definition ids_to (n : Z) (l : list Event) : Prop :=
  forall i e, l !! i = Some e -> ev_ID e = n - Z.of_nat (length l) + 1 + Z.of_nat i.

Record EI (s : PM) : Prop := {
  ei_replay : 0 < eb_replay (events s);
  ei_bound : forall k, Z.of_nat (length (default [] (eb_recent (events s) !! k))) <= eb_replay (events s);
  ei_pool : forall k e, e ∈ default [] (eb_recent (events s) !! k) -> ev_Pool e = k;
  ei_pools : forall k a, pools s !! k = Some a -> exists ps, poolObjs s !! a = Some ps /\ po_key ps = k;
  ei_addr : forall a, is_Some (poolObjs s !! a) -> a < nextPool s;
  ei_ids : forall k a ps, pools s !! k = Some a -> poolObjs s !! a = Some ps ->
    exists old new, default [] (eb_recent (events s) !! k) = old ++ new /\ ids_to (po_nextEvent ps) new
      /\ (Z.of_nat (length new) = Z.min (po_nextEvent ps) (eb_replay (events s)))
}.

Lemma ids_to_snoc n l e : ids_to n l -> ev_ID e = n + 1 -> ids_to (n + 1) (l ++ [e]).
Proof.
  intros Hl He i x Hi. rewrite length_app. simpl. apply lookup_app_Some in Hi as [Hi|[Hge Hi]].
  - rewrite (Hl i x Hi). lia.
  - apply list_lookup_singleton_Some in Hi as [Hi ->]. rewrite He. lia.
Qed.

Lemma ids_to_suffix n l k : ids_to n (l ++ k) -> ids_to n k.
Proof.
  intros H i e Hi. specialize (H (length l + i)%nat e). rewrite lookup_app_r in H by lia.
  replace (length l + i - length l)%nat with i in H by lia. rewrite (H Hi), length_app. lia.
Qed.

(** Sections that publish nothing. *)
Definition po_id (ps : poolState) := (po_key ps, po_nextEvent ps).
Record quietly (s s' : PM) : Prop := {
  q_pools : forall k a, pools s' !! k = Some a -> pools s !! k = Some a;
  q_objs : forall a, po_id <$> poolObjs s' !! a = po_id <$> poolObjs s !! a;
  q_addr : nextPool s' = nextPool s;
  q_recent : eb_recent (events s') = eb_recent (events s);
  q_replay : eb_replay (events s') = eb_replay (events s)
}.

Lemma EI_quietly s s' : quietly s s' -> EI s -> EI s'.
Proof.
  intros [Q1 Q2 Q3 Q4 Q5] [E1 E2 E3 E4 E5 E6].
  assert (forall a ps', poolObjs s' !! a = Some ps' -> exists ps, poolObjs s !! a = Some ps /\ po_id ps' = po_id ps) as HB.
  { intros a ps' H. specialize (Q2 a). rewrite H in Q2. destruct (poolObjs s !! a) as [ps|]; [|done]. exists ps. split; [done|]. simpl in Q2. congruence. }
  split; rewrite ?Q3, ?Q4, ?Q5; [done..| | |].
  - intros k a Hk. destruct (E4 k a (Q1 k a Hk)) as (ps & Hps & Hkey). specialize (Q2 a). rewrite Hps in Q2.
    destruct (poolObjs s' !! a) as [ps'|]; [|done]. exists ps'. split; [done|]. assert (po_id ps' = po_id ps) as Hid by (simpl in Q2; congruence).
    unfold po_id in Hid. congruence.
  - intros a [ps' H]. destruct (HB a ps' H) as (ps & Hps & _). apply E5. by exists ps.
  - intros k a ps' Hk H. destruct (HB a ps' H) as (ps & Hps & Hid).
    assert (po_nextEvent ps' = po_nextEvent ps) as -> by (unfold po_id in Hid; congruence). by apply (E6 k a); [apply Q1|].
Qed.

Ltac quiet := split; unfold upd_vm, upd_pool; rec_simpl; try done.

Lemma quietly_upd_pool a f s : (forall ps, po_id (f ps) = po_id ps) -> quietly s (upd_pool a f s).
Proof.
  intros Hf. quiet. intros b. rewrite lookup_alter. case_decide; [subst b|done].
  destruct (poolObjs s !! a); simpl; [by rewrite Hf|done].
Qed.

Lemma EI_emit key uid typ payload s : EI s -> EI (emitLocked key uid typ payload s).
Proof.
  intros HE. unfold emitLocked, lookupPool. destruct (pools s !! key) as [a|] eqn:Ek; [|done].
  destruct HE as [E1 E2 E3 E4 E5 E6]. destruct (E4 key a Ek) as (ps & Hps & Hkey). rewrite Hps.
  set (e := {| ev_ID := _; ev_Pool := _ |}). set (log := default [] (eb_recent (events s) !! key)).
  assert (forall k, default [] (eb_recent (publish key e (events s)) !! k) =
    if decide (k = key) then trim_log (eb_replay (events s)) (log ++ [e]) else default [] (eb_recent (events s) !! k)) as Hlog.
  { intros k. unfold publish. rec_simpl. destruct (decide (k = key)) as [->|Hne]; [by rewrite lookup_insert_eq|by rewrite lookup_insert_ne]. }
  split; unfold upd_pool; rec_simpl; try done.
  - intros k. rewrite Hlog. destruct (decide _); [by apply trim_log_length|apply E2].
  - intros k x. rewrite Hlog. destruct (decide (k = key)) as [->|]; [|apply E3]. intros Hx.
    destruct (trim_log_suffix (eb_replay (events s)) (log ++ [e])) as [old Ho]. 
    assert (x ∈ log ++ [e]) as Hx' by (rewrite Ho; set_solver). apply elem_of_app in Hx' as [Hx'|Hx']; [by apply E3|]. apply list_elem_of_singleton in Hx' as ->. done.
  - intros k b Hk. destruct (E4 k b Hk) as (ps' & Hps' & Hk'). rewrite lookup_alter. case_decide; [subst b|eauto].
    rewrite Hps'. eexists. split; [reflexivity|done].
  - intros b. rewrite lookup_alter. case_decide; [subst b; intros _; apply E5; by rewrite Hps|apply E5].
  - intros k b ps' Hk. rewrite Hlog. destruct (decide (k = key)) as [->|Hne].
    + rewrite Ek in Hk. injection Hk as <-. rewrite lookup_alter_eq, Hps. intros [= <-]. simpl.
      destruct (E6 key a ps Ek Hps) as (old & new & Hon & Hids & Hlen). fold log in Hon.
      pose proof (ids_to_snoc _ new e Hids eq_refl) as Hids'. specialize (E2 key). fold log in E2. rewrite Hon, length_app in E2.
      unfold trim_log. rewrite Hon. rewrite !length_app. simpl.
      destruct (Z.ltb_spec (eb_replay (events s)) (Z.of_nat (length old + length new + 1))) as [Hlt|Hge].
      * assert (Z.to_nat (Z.of_nat (length old + length new + 1) - eb_replay (events s)) = 1)%nat as -> by lia.
        destruct old as [|o old]; simpl in *.
        -- destruct new as [|x new]; simpl in *; [lia|]. exists [], (new ++ [e]). split_and!; [done| |rewrite length_app; simpl; lia].
           by apply (ids_to_suffix _ [x]).
        -- exists old, (new ++ [e]). split_and!; [by rewrite <-app_assoc|done|rewrite length_app; simpl; lia].
      * exists old, (new ++ [e]). split_and!; [by rewrite <-app_assoc|done|rewrite length_app; simpl; lia].
    + assert (b <> a) as Hba. { intros ->. destruct (E4 k a Hk) as (ps2 & Hps2 & Hk2). congruence. }
      rewrite lookup_alter_ne by done. by apply E6.
Qed.

(** The sections of the fake, as changes of what [EI] reads. *)
Ltac quiet_state := eapply EI_quietly; [|eassumption]; quiet.

Lemma quietly_EI_upd_pool a f s : (forall ps, po_id (f ps) = po_id ps) -> EI s -> EI (upd_pool a f s).
Proof. intros Hf. by apply EI_quietly, quietly_upd_pool. Qed.

Lemma EI_upd_vm v f s : EI s -> EI (upd_vm v f s).
Proof. intros H. quiet_state. Qed.

Lemma EI_setPhase v p s : EI s -> EI (setPhaseLocked v p s).
Proof. apply EI_upd_vm. Qed.

Create HintDb events_db.
#[export] Hint Resolve EI_emit EI_upd_vm EI_setPhase : events_db.

Lemma EI_dropLease id s : EI s -> EI (dropLeaseLocked id s).
Proof.
  intros H. unfold dropLeaseLocked. destruct (leases s !! id) as [rec|]; [|done]. cbv zeta.
  assert (EI (s <| leases := delete id (leases s) |>)) as H1 by quiet_state.
  destruct (lookupPool _ _) as [[a ps]|]; [|done]. by apply quietly_EI_upd_pool.
Qed.

Lemma EI_pickHost cfg a ps s : EI s -> EI (pickHostLocked cfg a ps s).1.
Proof.
  intros H. unfold pickHostLocked. destruct (candidates ps s); [done|]. destruct (fc_Placement cfg) as [[]|]; try done.
  by apply quietly_EI_upd_pool.
Qed.

Lemma EI_reserve cfg n a s : EI s -> EI (reserve cfg n a s).1.
Proof.
  revert s. induction n as [|n IH]; intros s H; [done|]. cbn [reserve]. destruct (poolObjs s !! a) as [ps|]; [|done].
  pose proof (EI_pickHost cfg a ps s H) as H1. destruct (pickHostLocked cfg a ps s) as [s1 [host|e]]; [|done]. cbn [fst] in H1. cbv zeta.
  match goal with |- context[reserve cfg n a ?x] => assert (EI x) as H2 by quiet_state; pose proof (IH x H2); destruct (reserve cfg n a x) end.
  done.
Qed.

Lemma EI_provisionN cfg a n r s : EI s -> EI (provisionNLocked cfg a n r s).1.
Proof.
  intros H. unfold provisionNLocked. destruct (_ || _); [done|]. pose proof (EI_reserve cfg (Z.to_nat n) a s H) as H1.
  destruct (reserve _ _ _ _) as [s1 [|v l]]; cbn [fst] in *; [done|]. destruct (poolObjs s !! a); cbn [fst]; auto with events_db.
Qed.
#[export] Hint Resolve EI_dropLease EI_provisionN : events_db.

Lemma EI_create cfg spec s : EI s -> EI (createPool cfg spec s).1.
Proof.
  intros H. unfold createPool. destruct (validateSpec spec) as [sp|]; [|done]. destruct (checkNamespace _ _); [done|].
  destruct (pools s !! sp_Ref sp) as [b|] eqn:Ek; [done|]. destruct H as [E1 E2 E3 E4 E5 E6].
  unfold kickReconcile. cbn [fst]. split; rec_simpl; try done.
  - intros k a. destruct (decide (k = sp_Ref sp)) as [->|Hne].
    + rewrite lookup_insert_eq. intros [= <-]. rewrite lookup_insert_eq. eexists. by split.
    + rewrite lookup_insert_ne by done. intros Hk. destruct (E4 k a Hk) as (ps & Hps & Hkey).
      assert (a < nextPool s) by (apply E5; by exists ps). rewrite lookup_insert_ne by lia. eauto.
  - intros a. destruct (decide (a = nextPool s)) as [->|Hne]; [intros _; lia|]. rewrite lookup_insert_ne by done. intros Ha. apply E5 in Ha. lia.
  - intros k a ps. destruct (decide (k = sp_Ref sp)) as [->|Hne].
    + rewrite lookup_insert_eq. intros [= <-]. rewrite lookup_insert_eq. intros [= <-]. simpl.
      eexists _, []. split_and!; [by rewrite app_nil_r|by intros i e|simpl; lia].
    + rewrite lookup_insert_ne by done. intros Hk Hps. destruct (E4 k a Hk) as (ps0 & Hps0 & _).
      assert (a < nextPool s) by (apply E5; by exists ps0). rewrite lookup_insert_ne in Hps by lia. by apply (E6 k a).
Qed.

Lemma EI_update cfg spec s : EI s -> EI (updatePool cfg spec s).1.
Proof.
  intros H. unfold updatePool. destruct (validateSpec spec) as [sp|]; [|done]. destruct (poolLocked _ _ _) as [[a ps]|]; [|done].
  cbn [fst]. unfold kickReconcile. apply (EI_quietly (upd_pool a (fun ps => ps <| po_spec := sp |> <| po_fresh := true |>) s)); [quiet|].
  by apply quietly_EI_upd_pool.
Qed.

Lemma EI_deletePool cfg ref s : EI s -> EI (deletePool_locked cfg ref s).1.
Proof.
  intros H. unfold deletePool_locked. destruct (poolLocked cfg ref s) as [[a ps]|]; [|done]. destruct (existsb _ _); [done|]. cbv zeta. cbn [fst].
  generalize (filter (fun vm => vm_uid vm <> "") (vms_of (po_key ps) s)) as doomed. intros doomed.
  apply (EI_quietly (fold_left (fun s vm => emitLocked (po_key ps) (vm_uid vm) VM_DELETED_ON_POOL_DELETE [("host", JStr (vm_host vm))] s) doomed s)).
  { quiet. intros k b Hk. by apply lookup_delete_Some in Hk as [_ Hk]. }
  revert s H. induction doomed as [|vm l IH]; intros s H; [done|]. cbn [fold_left]. auto with events_db.
Qed.

Lemma EI_claim_begin cfg o ref rid s : EI s -> EI (claimVM_begin cfg o ref rid s).1.
Proof.
  intros H. unfold claimVM_begin. destruct (replayLocked _ _ _ _ _); [done|]. destruct (poolLocked _ _ _) as [[a ps]|]; [|done].
  destruct (oldestAvailableLocked _ _); cbn [fst]; auto with events_db.
Qed.

Lemma EI_grant cfg id v a rid s : EI s -> EI (claimVM_grant cfg id v a rid s).1.1.
Proof.
  intros H. unfold claimVM_grant. destruct (vmObjs s !! v) as [vm|]; [|done]. destruct (poolObjs s !! a) as [ps|]; [|done].
  destruct (negb _); [done|]. cbv zeta.
  match goal with |- context[provisionNLocked cfg a ?n ?r ?x] =>
    assert (EI x) as H1; [|pose proof (EI_provisionN cfg a n r x H1); destruct (provisionNLocked cfg a n r x) as [s2 l]] end.
  { apply EI_emit, EI_setPhase, EI_upd_vm. quiet_state. }
  cbn [fst] in *. destruct (_ <? _); cbn [fst]; [|done]. eapply EI_quietly; [|eassumption]. quiet.
Qed.

Lemma EI_heartbeat id s : EI s -> EI (heartbeat id s).1.
Proof.
  intros H. unfold heartbeat. destruct (fl_RefuseHeartbeats _); [done|]. destruct (leases s !! id) as [rec|]; [|done].
  destruct (lookupPool _ _) as [[a ps]|]; [|done]. cbn [fst]. quiet_state.
Qed.

Lemma EI_release id s : EI s -> EI (releaseVM_begin id s).1.
Proof.
  intros H. unfold releaseVM_begin. destruct (leases s !! id) as [rec|]; [|done]. destruct (vm_at _ _) as [vm|]; cbn [fst]; [|auto with events_db].
  destruct (vm_released vm); auto with events_db.
Qed.

Lemma EI_delete_begin v ev s : EI s -> EI (deleteVM_begin v ev s).1.
Proof.
  intros H. unfold deleteVM_begin. destruct (vmObjs s !! v) as [vm|]; [|done]. destruct (negb _); [done|]. cbv zeta.
  destruct ev; destruct (vm_deleteInFlight vm); cbn [fst]; auto with events_db.
Qed.

Lemma EI_finish cfg v s : EI s -> EI (finishDeletionLocked cfg v s).1.
Proof.
  intros H. unfold finishDeletionLocked. destruct (vmObjs s !! v) as [vm|]; [|done]. destruct (negb _); [done|]. cbv zeta.
  assert (EI (s <| vms := vms s ∖ {[v]} |>)) as H1 by quiet_state.
  assert (EI (s <| vms := vms s ∖ {[v]} |> <| vmByUID := delete (vm_uid vm) (vmByUID s) |>)) as H2 by quiet_state.
  destruct (String.eqb (vm_uid vm) ""), (String.eqb (vm_leaseID vm) "");
    destruct (lookupPool _ _) as [[a ps]|]; cbn [fst]; try apply EI_provisionN; try destruct (vm_deleteEvent vm); auto with events_db.
Qed.

Lemma EI_delete_end cfg v err s : EI s -> EI (deleteVM_end cfg v err s).1.
Proof. intros H. unfold deleteVM_end. destruct err; cbn [fst]; [auto with events_db|]. apply EI_finish. auto with events_db. Qed.

Lemma EI_tick_lease fmt t st id : EI st.1 -> EI (tick_lease fmt t st id).1.
Proof.
  intros H. unfold tick_lease. destruct st as [s expired]. cbn [fst] in H. destruct (leases s !! id) as [rec|]; [|done].
  destruct (lookupPool _ _) as [[a ps]|]; [|done]. destruct (negb _); cbn [fst]; [auto with events_db|].
  destruct (_ && _); [|done]. cbn [fst]. apply EI_emit. by apply quietly_EI_upd_pool.
Qed.

Lemma EI_tick_pool cfg st k : EI st.1 -> EI (tick_pool cfg st k).1.
Proof.
  intros H. unfold tick_pool. destruct st as [s started]. cbn [fst] in H. destruct (lookupPool _ _) as [[a ps]|]; [|done]. cbv zeta.
  match goal with |- context[provisionNLocked cfg a ?n ?r ?x] =>
    assert (EI x) as H1; [|pose proof (EI_provisionN cfg a n r x H1); destruct (provisionNLocked cfg a n r x) as [s2 l]; done] end.
  apply quietly_EI_upd_pool; [done|]. destruct (_ && _); auto with events_db.
Qed.

Lemma EI_fold {A B} (f : PM * A -> B -> PM * A) l st : (forall st x, EI st.1 -> EI (f st x).1) -> EI st.1 -> EI (fold_left f l st).1.
Proof. intros Hf. revert st. induction l as [|x l IH]; intros st H; [done|]. cbn [fold_left]. auto. Qed.

Lemma EI_tick cfg fmt t ol op s : EI s -> EI (tick cfg fmt t ol op s).1.
Proof.
  intros H. unfold tick.
  pose proof (EI_fold (tick_lease fmt t) (arrange ol (map_to_list (leases s)).*1) (s, []) (EI_tick_lease fmt t) H) as H1.
  destruct (fold_left _ _ _) as [s1 e]. cbn [fst] in H1. cbv zeta.
  pose proof (EI_fold (tick_pool cfg) (arrange op (map_to_list (pools s1)).*1) (s1, []) (EI_tick_pool cfg) H1) as H2.
  by destruct (fold_left _ _ _) as [s2 l].
Qed.

Lemma EI_record v uid s : EI s -> EI (provision_record v uid s).1.
Proof.
  intros H. unfold provision_record. destruct (vmObjs s !! v) as [vm|]; [|done]. destruct (negb _); [done|]. cbv zeta. cbn [fst].
  apply EI_emit. pose proof (EI_upd_vm v (fun vm => vm <| vm_uid := uid |> <| vm_updated := now s |>) s H) as H1. quiet_state.
Qed.

Lemma EI_transition v p s : EI s -> EI (transition v p s).1.
Proof. intros H. unfold transition. destruct (negb _); cbn [fst]; auto with events_db. Qed.

Lemma EI_available v uid s : EI s -> EI (provision_available v uid s).1.
Proof. intros H. unfold provision_available. destruct (vmObjs s !! v); [|done]. destruct (negb _); cbn [fst]; auto with events_db. Qed.

Lemma EI_policy v h c s : EI s -> EI (applyHookFailurePolicy v h c s).1.
Proof.
  intros H. unfold applyHookFailurePolicy. destruct (vmObjs s !! v) as [vm|]; [|done]. destruct (lookupPool _ _) as [[a ps]|]; [|done].
  destruct (negb _); [done|]. cbv zeta. destruct (sp_HookFailurePolicy _); cbn [fst]; auto with events_db.
Qed.

Lemma EI_consume k h s : EI s -> EI (consumeHookFailure k h s).1.
Proof. intros H. unfold consumeHookFailure. destruct (consume _ _ _). cbn [fst]. quiet_state. Qed.

Lemma EI_cleanup o s : EI s -> EI (cleanupAll_finish o s).
Proof.
  unfold cleanupAll_finish. generalize (arrange o (map_to_list (leases s)).*1) as l. intros l. revert s.
  induction l as [|x l IH]; intros s H; [done|]. cbn [fold_left]. auto with events_db.
Qed.

(** One step of a goroutine, by the lemma of its section. *)
Ltac ei_section L := let H := fresh in pose proof L as H; revert H.
Ltac ei_break :=
  repeat (case_match; simplify_eq; try done); cbn [fst snd] in *; simplify_eq; auto.

Lemma EI_run_pc cfg fmt p ans s s' l n r : run_pc cfg fmt p ans s = Some (s', l, n, r) -> EI s -> EI s'.
Proof.
  intros Hr HE.
  destruct p as [ref rid due|v a rid cmds| |v a rid|v cause|vs ev why failed|v host uid vs ev why failed|v err vs ev why failed|t
    |v|v|v cmds|v|v uid cmds|v uid cmds|v uid cmds|v uid|v uid|v cause|uid| |]; destruct ans as [|e|u|id|ol op ov]; cbn [run_pc] in Hr; try done; try (by destruct vs).
  - ei_break.
  - destruct (time_Before _ _); [done|]. ei_section (EI_claim_begin cfg ol ref rid s HE). ei_break.
  - destruct (vmObjs s !! v) as [vm|]; [|done]. ei_section (EI_consume (vm_pool vm) HookPreLease s HE). ei_break.
  - ei_break.
  - ei_break.
  - ei_section (EI_grant cfg id v a rid s HE). ei_break.
  - ei_section (EI_policy v HookPreLease cause s HE). ei_break.
  - destruct vs as [|v vs]; [ei_break|]. ei_section (EI_delete_begin v ev s HE). ei_break.
  - ei_break.
  - ei_break.
  - ei_section (EI_delete_end cfg v err s HE). ei_break.
  - ei_section (EI_tick cfg fmt t ol op s HE). ei_break.
  - ei_break.
  - ei_break.
  - ei_break.
  - ei_break.
  - simplify_eq. unfold dropReserved. quiet_state.
  - ei_section (EI_record v uid s HE). ei_break.
  - ei_section (EI_transition v CREATE_HOOK_RUNNING s HE). ei_break.
  - ei_break.
  - destruct (vmObjs s !! v) as [vm|]; [|done]. ei_section (EI_consume (vm_pool vm) HookCreate s HE). ei_break.
  - ei_break.
  - ei_break.
  - ei_section (EI_available v uid s HE). ei_break.
  - ei_section (EI_policy v HookCreate cause s HE). ei_break.
  - ei_break.
  - ei_break.
  - ei_break.
  - ei_break.
  - ei_break.
  - ei_break.
  - simplify_eq. by apply EI_cleanup.
Qed.

Lemma EI_handle cfg r s : EI s -> EI (handle cfg r s).1.1.
Proof.
  intros HE. unfold handle. destruct (unavailable s); [done|]. destruct r as [spec|spec|ref|ref|ns|ref rid|id|id].
  - ei_section (EI_create cfg spec s HE). by destruct (createPool cfg spec s).
  - ei_section (EI_update cfg spec s HE). by destruct (updatePool cfg spec s).
  - ei_section (EI_deletePool cfg ref s HE). by destruct (deletePool_locked cfg ref s) as [s1 []].
  - done.
  - done.
  - by destruct (_ <? _)%nat.
  - ei_section (EI_heartbeat id s HE). by destruct (heartbeat id s).
  - ei_section (EI_release id s HE). by destruct (releaseVM_begin id s) as [s1 []].
Qed.

Lemma EI_step cfg fmt i y y' : step cfg fmt i y = Some y' -> EI (pm y) -> EI (pm y').
Proof.
  intros Hs HE. destruct i as [r|n ans|t'|h'|f| | | | | |]; cbn [step] in Hs; cbv zeta in Hs.
  - ei_section (EI_handle cfg r (pm y) HE). destruct (handle cfg r (pm y)) as [[s1 next] rep]. by simplify_eq.
  - destruct (threads y !! n) as [th|]; [|done]. unfold run_thread in Hs.
    destruct (run_pc cfg fmt (th_pc th) ans (pm y)) as [[[[s1 l] nw] r]|] eqn:Er; [|done]. simplify_eq. cbn [pm]. by apply (EI_run_pc _ _ _ _ _ _ _ _ _ Er).
  - destruct (_ <=? _); simplify_eq. quiet_state.
  - simplify_eq. quiet_state.
  - simplify_eq. unfold SetFaults. rec_simpl. destruct (fl_DropEventsStream f); quiet_state.
  - simplify_eq. rec_simpl. unfold claimServe. destruct (_ || _); [done|]. quiet_state.
  - unfold Run_begin in Hs. destruct (started (pm y)); [done|]. simplify_eq. quiet_state.
  - destruct (_ && _); simplify_eq. quiet_state.
  - destruct (bool_decide _); simplify_eq. quiet_state.
  - destruct (bool_decide _); simplify_eq. quiet_state.
  - by destruct (_ && _); simplify_eq.
Qed.

Lemma EI_reachable cfg fmt t h y : reachable cfg fmt t h y -> EI (pm y).
Proof.
  induction 1 as [|i y y' _ IH _ Hs]; [|by apply (EI_step _ _ _ _ _ Hs)].
  assert (0 < fc_EventReplay (fake_withDefaults cfg)) by (cbn; destruct (Z.leb_spec (fc_EventReplay cfg) 0); unfold defaultEventReplay; lia).
  split; unfold Sys0, New; rec_simpl; try done.
  - intros k. rewrite lookup_empty. simpl. lia.
  - intros k e. rewrite lookup_empty. simpl. set_solver.
  - intros a []. by rewrite lookup_empty in *.
Qed.

(** The event history of a Pool has no gap.  In every reachable state of
    the fake, the bus keeps at most [replay] events of a Pool, all its own,
    and the last [min(n, replay)] of them, for a Pool that has emitted [n]
    events since it was declared, carry the ids up to [n] in order: a
    subscriber that lost its stream is replayed exactly the latest events. *)
Theorem fake_event_ids cfg fmt t h y k a ps :
  reachable cfg fmt t h y -> pools (pm y) !! k = Some a -> poolObjs (pm y) !! a = Some ps ->
  let log := default [] (eb_recent (events (pm y)) !! k) in
  Z.of_nat (length log) <= eb_replay (events (pm y))
  /\ (forall e, e ∈ log -> ev_Pool e = k)
  /\ exists old new, log = old ++ new /\ Z.of_nat (length new) = Z.min (po_nextEvent ps) (eb_replay (events (pm y)))
       /\ forall i e, new !! i = Some e -> ev_ID e = po_nextEvent ps - Z.of_nat (length new) + 1 + Z.of_nat i.
Proof.
  intros HR Hk Ha. destruct (EI_reachable _ _ _ _ _ HR) as [E1 E2 E3 E4 E5 E6]. split_and!; [apply E2|apply E3|].
  destruct (E6 k a ps Hk Ha) as (old & new & H1 & H2 & H3). by exists old, new.
Qed.

Lemma fake_event_ids_witness :
  let y := demo_run (demo_fill ++ demo_claim) in
  exists a ps, pools (pm y) !! demo_ref = Some a /\ poolObjs (pm y) !! a = Some ps /\ po_nextEvent ps = 4
    /\ exists old new, default [] (eb_recent (events (pm y)) !! demo_ref) = old ++ new /\ Z.of_nat (length new) = 3.
Proof.
  set (y := demo_run _). cbv zeta.
  assert (reachable demo_FakeConfig demo_fmt 0 demo_Hosts y) as HR by (apply demo_run_reachable; vm_compute; by eexists).
  assert ((fun p => po_nextEvent p.2) <$> lookupPool demo_ref (pm y) = Some 4) as HN by (vm_compute; reflexivity).
  assert (eb_replay (events (pm y)) = 3) as HP by (vm_compute; reflexivity).
  clearbody y. unfold lookupPool in HN. destruct (pools (pm y) !! demo_ref) as [a|] eqn:Ek; [|done].
  destruct (poolObjs (pm y) !! a) as [ps|] eqn:Ea; [|done]. injection HN as HN. exists a, ps. split_and!; [done..|].
  destruct (fake_event_ids _ _ _ _ y demo_ref a ps HR Ek Ea) as (_ & _ & old & new & H1 & H2 & _). exists old, new. split; [done|].
  rewrite H2, HN, HP. done.
Defined.

(** ** Where the fake departs from its comments *)
(** A Pool is deleted while a claim of it runs its pre-lease commands and is
    declared again before the deletion on the Host ends: [aliveLocked] looks
    the Pool up by name, so the claim is granted a MicroVM that is being
    deleted, and when the deletion ends the Lease is gone without an expiry. *)
Definition claim_race : list input :=
  demo_fill ++ [IRequest (ReqClaim demo_ref "job"); IStep 0 anyOrder; IStep 0 AOk;
                IRequest (ReqDelete demo_ref); IStep 0 AOk;
                IRequest (ReqCreate demo_poolSpec);
                IStep 1 (ALease "L1")].

Theorem claim_granted_on_doomed :
  let y1 := demo_run claim_race in
  let y2 := demo_run (claim_race ++ [IStep 0 AOk; IStep 0 AOk]) in
  head (replies y1) = Some (RepClaim (ROk {| cr_leaseID := "L1"; cr_vmUID := "u1";
      cr_host := Some {| hr_Name := "h1"; hr_Address := "10.0.0.1" |}; cr_hostName := "h1" |}))
  /\ vm_deleteInFlight <$> vmObjs (pm y1) !! 1 = Some true
  /\ leases (pm y2) !! "L1" = None /\ vmByUID (pm y2) !! "u1" = None /\ now (pm y2) = 0.
Proof. vm_compute. repeat split. Qed.

(** A Pool that is deleted and declared again starts its ids at 1 while the
    bus still replays the old Pool's events before them. *)
Theorem event_ids_restart :
  let y := demo_run (demo_fill ++ [IRequest (ReqDelete demo_ref); IStep 0 AOk; IStep 0 AOk; IStep 0 AOk;
                                   IRequest (ReqCreate demo_poolSpec); ITick; IStep 0 anyOrder]) in
  ev_ID <$> (subscribe (Some demo_ref) [] (events (pm y))).2.2 = [3; 4; 1].
Proof. vm_compute. reflexivity. Qed.
