(* ===== verification/FakeServer.v ===== *)
(** * internal/poolmgr/fake: the gRPC surface of the fake Pool Manager

    server.go, client.go and the credentials of admindial.go: the handlers
    with their fault interceptors, the conversions to and from the wire, and
    the client that talks to them.  gRPC itself carries a request to its
    handler and the handler's answer back.  The client is an implementation
    of the interface [PoolAdmin] the Scheduler declares its Pools through. *)
From S2P Require Import Prelude GoModel PoolTypes ConfigTypes Base64 Spec PoolDecl PoolClient FakePool FakeOps FakeLoop FakeSys FakeInv FakeSteps FakeThms FakeBehav FakeEvents.

(** ** The client's errors (client.go) *)
Definition fake_mapErr (ctxErr : option error) (err : rpc_error) : error :=
  match err with
  | ROther e => EWrap "poolmgr" [e]
  | RStatus c msg =>
      let wrap s := EWrap msg [ESentinel s] in
      match c with
      | ResourceExhausted => wrap ErrExhausted
      | NotFound => wrap ErrNotFound
      | AlreadyExists => wrap ErrAlreadyExists
      | Unavailable => wrap ErrUnavailable
      | InvalidArgument => wrap ErrInvalid
      | Aborted => wrap ErrAborted
      | Canceled | DeadlineExceeded =>
          match ctxErr with Some e => e | None => wrap ErrUnavailable end
      | _ => ENew ("poolmgr: " +:+ Code_String c +:+ ": " +:+ msg)
      end
  end.

(** hostErr of admindial.go. *)
Definition hostErr (err : rpc_error) : error :=
  match err with
  | ROther e => EWrap "flintlock" [e]
  | RStatus c msg =>
      match c with
      | NotFound => EWrap msg [ESentinel HostErrNotFound]
      | Unimplemented => EWrap msg [ESentinel HostErrUnimplemented]
      | Unavailable => EWrap msg [ESentinel HostErrUnavailable]
      | Unauthenticated => EWrap msg [ESentinel HostErrUnauthenticated]
      | _ => ENew ("flintlock: " +:+ Code_String c +:+ ": " +:+ msg)
      end
  end.

(** ** Subscribing

    [answer] is what the stub returned and [callerErr] the error of the
    caller's context.  The two clients derive a context for the stream and
    cancel it when the stub fails; the Runner's maps the failure against the
    caller's context, the fake's against the cancelled one, which shadows it. *)
Definition client_Subscribe (answer : rres unit) (callerErr : option error) : result unit :=
  match answer with
  | ROk tt => Ok tt
  | RErr err => Err (mapErr callerErr err)
  end.

Definition fake_client_Subscribe (c_err : option error) (answer : rres unit) (callerErr : option error) : result unit :=
  match c_err with
  | Some e => Err e
  | None =>
      match answer with
      | ROk tt => Ok tt
      | RErr err => Err (fake_mapErr (Some (default (ESentinel CtxCanceled) callerErr)) err)
      end
  end.

(** ** The handlers (server.go) *)
Section Server.
Context {DurationPB : Type} (durationpb_New : duration -> DurationPB) (AsDuration : DurationPB -> duration).
Context (cfg : FakeConfig).
Abbreviation wireSpec := (@wirePoolSpec DurationPB) (only parsing).

Definition fake_specFromProto (s : option wireSpec) : rres PoolSpec :=
  match s with
  | None => errInvalid "spec is required"
  | Some s =>
      ROk {| sp_Ref := {| ref_Name := w_Name s; ref_Namespace := w_Namespace s |};
             sp_Template := w_MicrovmTemplate s; sp_Size := w_Size s; sp_FlintlockHosts := w_FlintlockHosts s;
             sp_Replenishment :=
               match w_ReplenishmentStrategy s with
               | Some rs => {| rs_Type := ws_Type rs; rs_MinSize := ws_MinSize rs |}
               | None => {| rs_Type := REPLENISHMENT_UNSPECIFIED; rs_MinSize := None |}
               end;
             sp_CreateCommands := w_CreateCommands s; sp_PreLeaseCommands := w_PreLeaseCommands s;
             sp_HookFailurePolicy := w_HookFailurePolicy s;
             sp_HeartbeatInterval := from_option AsDuration 0 (w_HeartbeatInterval s);
             sp_HeartbeatExpiryThreshold := from_option AsDuration 0 (w_HeartbeatExpiryThreshold s) |}
  end.

Definition fake_specToProto (spec : PoolSpec) : wireSpec :=
  {| w_Name := ref_Name (sp_Ref spec); w_Namespace := ref_Namespace (sp_Ref spec); w_Size := sp_Size spec;
     w_FlintlockHosts := sp_FlintlockHosts spec;
     w_ReplenishmentStrategy := Some {| ws_Type := rs_Type (sp_Replenishment spec);
                                        ws_MinSize := rs_MinSize (sp_Replenishment spec) |};
     w_CreateCommands := sp_CreateCommands spec; w_PreLeaseCommands := sp_PreLeaseCommands spec;
     w_HookFailurePolicy := sp_HookFailurePolicy spec; w_MicrovmTemplate := sp_Template spec;
     w_HeartbeatInterval := if 0 <? sp_HeartbeatInterval spec
                            then Some (durationpb_New (sp_HeartbeatInterval spec)) else None;
     w_HeartbeatExpiryThreshold := if 0 <? sp_HeartbeatExpiryThreshold spec
                            then Some (durationpb_New (sp_HeartbeatExpiryThreshold spec)) else None |}.

Definition poolToProto (p : Pool) : wirePool DurationPB :=
  {| wp_Spec := Some (fake_specToProto (pool_Spec p));
     wp_Status := Some {| w_Available := Available (pool_Status p); w_Leased := Leased (pool_Status p);
                          w_Provisioning := Provisioning (pool_Status p); w_Quarantined := Quarantined (pool_Status p) |} |}.

Definition fake_poolFromProto (p : wirePool DurationPB) : rres Pool :=
  match fake_specFromProto (wp_Spec p) with
  | RErr e => RErr e
  | ROk spec => ROk {| pool_Spec := spec; pool_Status :=
       match wp_Status p with
       | Some st => {| Available := w_Available st; Leased := w_Leased st;
                       Provisioning := w_Provisioning st; Quarantined := w_Quarantined st |}
       | None => {| Available := 0; Leased := 0; Provisioning := 0; Quarantined := 0 |}
       end |}
  end.

(** [unaryFaultInterceptor] around a handler. *)
Definition unaryFaultInterceptor {A} (handler : PM -> PM * rres A) (s : PM) : PM * rres A :=
  match unavailable s with Some e => (s, RErr e) | None => handler s end.

(** The handlers of [poolAdminServer] that answer in one critical section. *)
Definition server_pool (call : PoolSpec -> PM -> PM * rres Pool) (req : option wireSpec) (s : PM) : PM * rres (wirePool DurationPB) :=
  match fake_specFromProto req with
  | RErr e => (s, RErr e)
  | ROk spec => match call spec s with
                | (s, RErr e) => (s, RErr e)
                | (s, ROk p) => (s, ROk (poolToProto p))
                end
  end.
Definition server_CreatePool (req : option wireSpec) : PM -> PM * rres (wirePool DurationPB) :=
  unaryFaultInterceptor (server_pool (createPool cfg) req).
Definition server_UpdatePool (req : option wireSpec) : PM -> PM * rres (wirePool DurationPB) :=
  unaryFaultInterceptor (server_pool (updatePool cfg) req).
Definition server_GetPool (ref : PoolRef) : PM -> PM * rres (wirePool DurationPB) :=
  unaryFaultInterceptor (fun s => (s, match getPool cfg ref s with RErr e => RErr e | ROk p => ROk (poolToProto p) end)).
Definition server_ListPools (ns : option string) : PM -> PM * rres (list (wirePool DurationPB)) :=
  unaryFaultInterceptor (fun s => (s, ROk (poolToProto <$> listPools (default "" ns) s))).
Definition server_Heartbeat (leaseID : string) : PM -> PM * rres (option time) :=
  unaryFaultInterceptor (fun s => match heartbeat leaseID s with (s, ROk t) => (s, ROk (Some t)) | (s, RErr e) => (s, RErr e) end).
(** The answer of [leaseServer.ClaimVM] to a claim; [ifaces] are its interfaces. *)
Definition server_claimAnswer (ifaces : list (string * string)) (r : claimResult) : wireClaim :=
  {| wc_LeaseId := cr_leaseID r; wc_VmUid := cr_vmUID r; wc_NetworkInterfaces := ifaces; wc_Host := cr_host r |}.

(** [eventsServer.Subscribe]: the subscription and the events it replays,
    then one round of its [select]. *)
Definition server_Subscribe (pool : option PoolRef) (o : list PoolRef) (s : PM) : PM * rres (Z * list Event) :=
  match unavailable s with
  | Some e => (s, RErr e)
  | None =>
      match pool ≫= (fun ref => checkNamespace cfg (ref_Namespace ref)) with
      | Some e => (s, RErr e)
      | None => let '(b, out) := subscribe pool o (events s) in (s <| events := b |>, ROk out)
      end
  end.

Inductive subscribe_case := OnClientGone | OnDropped | OnEvent.
Inductive subscribe_out := SubEnds (e : option rpc_error) | SubSends (e : Event).
Definition server_Subscribe_next (id : Z) (c : subscribe_case) (b : eventBus) : option (eventBus * subscribe_out) :=
  match eb_subs b !! id with
  | None => None
  | Some sub =>
      match c with
      | OnClientGone => Some (unsubscribe id b, SubEnds None)
      | OnDropped => if sub_dropped sub
                     then Some (unsubscribe id b, SubEnds (Some (RStatus Unavailable "events stream dropped"))) else None
      | OnEvent => match sub_ch sub with
                   | [] => None
                   | e :: rest => Some (b <| eb_subs := <[id := sub <| sub_ch := rest |>]> (eb_subs b) |>, SubSends e)
                   end
      end
  end.

(** ** The client (client.go), with its stubs answered by the handlers

    [c_err] is the field [err], a failure to build the connection. *)
Section Client.
Context (c_err : option error) (ctxErr : option error).

Definition fake_pool_answer (r : PM * rres (wirePool DurationPB)) : PM * result (option Pool) :=
  match r with
  | (s, RErr e) => (s, Err (fake_mapErr ctxErr e))
  | (s, ROk p) => match fake_poolFromProto p with
                  | ROk p => (s, Ok (Some p))
                  | RErr (RStatus _ msg) => (s, Err (ENew msg))
                  | RErr (ROther e) => (s, Err e)
                  end
  end.
Definition fake_client_CreatePool (spec : PoolSpec) (s : PM) : PM * result (option Pool) :=
  match c_err with Some e => (s, Err e) | None => fake_pool_answer (server_CreatePool (Some (fake_specToProto spec)) s) end.
Definition fake_client_UpdatePool (spec : PoolSpec) (s : PM) : PM * result (option Pool) :=
  match c_err with Some e => (s, Err e) | None => fake_pool_answer (server_UpdatePool (Some (fake_specToProto spec)) s) end.
Definition fake_client_GetPool (ref : PoolRef) (s : PM) : PM * result (option Pool) :=
  match c_err with Some e => (s, Err e) | None => fake_pool_answer (server_GetPool ref s) end.
Definition fake_client_Heartbeat (leaseID : string) (s : PM) : PM * result time :=
  match c_err with
  | Some e => (s, Err e)
  | None => match server_Heartbeat leaseID s with
            | (s, ROk t) => (s, Ok (default unixEpoch t))
            | (s, RErr e) => (s, Err (fake_mapErr ctxErr e))
            end
  end.
(** The calls that end in another critical section: [r] is what the handler
    answered. *)
Definition fake_client_ListPools (r : rres (list (wirePool DurationPB))) : result (list Pool) :=
  match c_err with
  | Some e => Err e
  | None =>
      match r with
      | RErr e => Err (fake_mapErr ctxErr e)
      | ROk l => fold_right (fun p acc => match fake_poolFromProto p with
                   | ROk p => match acc with Ok ps => Ok (p :: ps) | e => e end
                   | RErr _ => Err (ENew "spec is required")
                   end) (Ok []) l
      end
  end.
Definition fake_client_ClaimVM (r : rres wireClaim) : result Claim :=
  match c_err with
  | Some e => Err e
  | None =>
      match r with
      | RErr e => Err (fake_mapErr ctxErr e)
      | ROk resp => Ok {| LeaseID := wc_LeaseId resp; VMUID := wc_VmUid resp; NetworkInterfaces := wc_NetworkInterfaces resp;
                          claim_Host := default {| hr_Name := ""; hr_Address := "" |} (wc_Host resp) |}
      end
  end.
Definition fake_client_unit (r : rres unit) : option error :=
  match c_err with
  | Some e => Some e
  | None => match r with ROk _ => None | RErr e => Some (fake_mapErr ctxErr e) end
  end.
End Client.
End Server.

(** The fake's conversions and error translation are the Runner's. *)
Lemma fake_mapErr_same ctxErr e : fake_mapErr ctxErr e = mapErr ctxErr e.
Proof. by destruct e as [[]|]. Qed.

(** ** The fake as a Pool Manager

    Its state is one the fake can be in: [EI] holds of every reachable one. *)
Record FakeAt := { fa_pm : PM; fa_ok : EI fa_pm }.

Definition fake_stored (w : FakeAt) : gmap PoolRef PoolSpec :=
  omap (fun a => po_spec <$> poolObjs (fa_pm w) !! a) (pools (fa_pm w)).

Section Admin.
Context {DurationPB : Type} (durationpb_New : duration -> DurationPB) (AsDuration : DurationPB -> duration).
Context (cfg : FakeConfig) (ctxErr : option error).

Lemma EI_server_pool call req s :
  (forall spec s, EI s -> EI (call spec s).1) -> EI s ->
  EI (fake_pool_answer AsDuration ctxErr (unaryFaultInterceptor (server_pool durationpb_New AsDuration call req) s)).1.
Proof.
  intros Hc HE. unfold fake_pool_answer, unaryFaultInterceptor, server_pool. destruct (unavailable s); [done|].
  destruct (fake_specFromProto _ req) as [spec|]; [|done]. specialize (Hc spec s HE). destruct (call spec s) as [s1 [p|e]]; [|done].
  by destruct (fake_poolFromProto _ _) as [|[]].
Qed.

Definition fake_create (spec : PoolSpec) (w : FakeAt) : FakeAt :=
  {| fa_pm := (fake_client_CreatePool durationpb_New AsDuration cfg None ctxErr spec (fa_pm w)).1;
     fa_ok := EI_server_pool (createPool cfg) _ _ (fun spec s => EI_create cfg spec s) (fa_ok w) |}.
Definition fake_update (spec : PoolSpec) (w : FakeAt) : FakeAt :=
  {| fa_pm := (fake_client_UpdatePool durationpb_New AsDuration cfg None ctxErr spec (fa_pm w)).1;
     fa_ok := EI_server_pool (updatePool cfg) _ _ (fun spec s => EI_update cfg spec s) (fa_ok w) |}.

#[export] Instance fake_PoolAdmin : PoolAdmin FakeAt := {|
  CreatePool spec w := (fake_create spec w, (fake_client_CreatePool durationpb_New AsDuration cfg None ctxErr spec (fa_pm w)).2);
  UpdatePool spec w := (fake_update spec w, (fake_client_UpdatePool durationpb_New AsDuration cfg None ctxErr spec (fa_pm w)).2) |}.

Definition fake_up (w : FakeAt) : Prop := unavailable (fa_pm w) = None.
(** The specs it takes as they are. *)
Definition fake_accepts (spec : PoolSpec) : Prop :=
  validateSpec spec = ROk spec /\ checkNamespace cfg (ref_Namespace (sp_Ref spec)) = None
  /\ 0 <= sp_HeartbeatInterval spec <= maxDuration /\ sp_HeartbeatExpiryThreshold spec <= maxDuration.

(** The Pools of a state. *)
Definition pm_stored (s : PM) (ref : PoolRef) : option PoolSpec := po_spec <$> (snd <$> lookupPool ref s).

Lemma fake_stored_lookup w ref : fake_stored w !! ref = pm_stored (fa_pm w) ref.
Proof.
  unfold fake_stored, pm_stored, lookupPool. rewrite lookup_omap. destruct (pools (fa_pm w) !! ref) as [a|]; [|done]. simpl.
  by destruct (poolObjs _ !! a).
Qed.

Lemma validateSpec_Ref spec sp : validateSpec spec = ROk sp -> sp_Ref sp = sp_Ref spec.
Proof. unfold validateSpec, errInvalid. repeat case_match; intros [=]; by subst. Qed.

Lemma pm_stored_None s ref : EI s -> pm_stored s ref = None -> pools s !! ref = None.
Proof.
  intros HE. unfold pm_stored, lookupPool. destruct (pools s !! ref) as [a|] eqn:E; [|done].
  destruct (ei_pools _ HE ref a E) as (ps & -> & _). done.
Qed.

(** A critical section that stores the validated spec, or changes nothing. *)
Definition stores (call : PoolSpec -> PM -> PM * rres Pool) : Prop :=
  forall spec s, EI s ->
  match call spec s with
  | (s', ROk p) => exists sp, validateSpec spec = ROk sp /\ pool_Spec p = sp /\ unavailable s' = unavailable s
       /\ forall ref, pm_stored s' ref = if decide (ref = sp_Ref spec) then Some sp else pm_stored s ref
  | (s', RErr _) => s' = s
  end.

Lemma createPool_stores : stores (createPool cfg).
Proof.
  intros spec s HE. unfold createPool. destruct (validateSpec spec) as [sp|] eqn:EV; [|done]. pose proof (validateSpec_Ref _ _ EV) as HR.
  destruct (checkNamespace _ _); [done|]. destruct (pools s !! sp_Ref sp) eqn:Ek; [done|]. exists sp. split_and!; [done..|].
  intros ref. unfold pm_stored, lookupPool, kickReconcile. rec_simpl. rewrite <-HR. destruct (decide (ref = sp_Ref sp)) as [->|Hne].
  - by rewrite !lookup_insert_eq.
  - rewrite lookup_insert_ne by done. destruct (pools s !! ref) as [a|] eqn:Er; [|done].
    destruct (ei_pools _ HE ref a Er) as (ps & Hps & _). assert (a < nextPool s) by (apply (ei_addr _ HE); by exists ps).
    by rewrite lookup_insert_ne by lia.
Qed.

Lemma updatePool_stores : stores (updatePool cfg).
Proof.
  intros spec s HE. unfold updatePool, poolLocked. destruct (validateSpec spec) as [sp|] eqn:EV; [|done]. pose proof (validateSpec_Ref _ _ EV) as HR.
  destruct (checkNamespace _ _); [done|]. destruct (lookupPool (sp_Ref sp) s) as [[a ps]|] eqn:Ek; [|done]. exists sp.
  unfold pm_stored. rewrite <-HR. split_and!; [done..|].
  intros ref. unfold lookupPool, kickReconcile, upd_pool in *. rec_simpl. destruct (pools s !! sp_Ref sp) as [b|] eqn:Eb; [|done].
  destruct (poolObjs s !! b) as [ps'|] eqn:Eo; [|done]. injection Ek as -> ->. destruct (decide (ref = sp_Ref sp)) as [->|Hne].
  - by rewrite Eb, lookup_alter_eq, Eo.
  - destruct (pools s !! ref) as [c|] eqn:Er; [|done]. rewrite lookup_alter_ne; [done|]. intros ->.
    destruct (ei_pools _ HE ref c Er) as (ps1 & H1 & K1), (ei_pools _ HE _ c Eb) as (ps2 & H2 & K2). congruence.
Qed.

Lemma fake_specFromProto_Ref spec sp : fake_specFromProto AsDuration (Some (fake_specToProto durationpb_New spec)) = ROk sp -> sp_Ref sp = sp_Ref spec.
Proof. intros [= <-]. by destruct (sp_Ref spec). Qed.

Lemma fake_poolFromProto_ok p : exists q, fake_poolFromProto AsDuration (poolToProto durationpb_New p) = ROk q.
Proof. by eexists. Qed.
(** What one call of the client does to the Pools; [call] is the critical
    section its handler runs. *)
Definition fake_call (call : PoolSpec -> PM -> PM * rres Pool) (spec : PoolSpec) (s : PM) : PM * result (option Pool) :=
  fake_pool_answer AsDuration ctxErr (unaryFaultInterceptor (server_pool durationpb_New AsDuration call (Some (fake_specToProto durationpb_New spec))) s).

Lemma fake_call_cases call spec s :
  (exists e, unavailable s = Some e /\ fake_call call spec s = (s, Err (fake_mapErr ctxErr e)))
  \/ (exists sp s1 e, fake_specFromProto AsDuration (Some (fake_specToProto durationpb_New spec)) = ROk sp /\ unavailable s = None /\ call sp s = (s1, RErr e) /\ fake_call call spec s = (s1, Err (fake_mapErr ctxErr e)))
  \/ (exists sp s1 p q, fake_specFromProto AsDuration (Some (fake_specToProto durationpb_New spec)) = ROk sp /\ unavailable s = None /\ call sp s = (s1, ROk p) /\ fake_call call spec s = (s1, Ok (Some q))).
Proof.
  unfold fake_call, fake_pool_answer, unaryFaultInterceptor, server_pool. destruct (unavailable s) as [e|]; [left; by exists e|right].
  destruct (fake_specFromProto AsDuration (Some (fake_specToProto durationpb_New spec))) as [sp|] eqn:ES; [|done].
  destruct (call sp s) as [s1 [p|e]] eqn:EC; [right|left]; eauto 10.
Qed.
End Admin.

Section AdminLaws.
Context {DurationPB : Type} (durationpb_New : duration -> DurationPB) (AsDuration : DurationPB -> duration).
Context (cfg : FakeConfig) (ctxErr : option error).
(** [durationpb] represents every Go duration. *)
Context (Hdur : forall d, minDuration <= d <= maxDuration -> AsDuration (durationpb_New d) = d).
Abbreviation call := (fake_call durationpb_New AsDuration ctxErr) (only parsing).
#[local] Instance admin : PoolAdmin FakeAt := fake_PoolAdmin durationpb_New AsDuration cfg ctxErr.

Lemma wire_exact spec : fake_accepts cfg spec -> fake_specFromProto AsDuration (Some (fake_specToProto durationpb_New spec)) = ROk spec.
Proof.
  intros (HV & _ & [H0 H1] & H2).
  assert (0 < sp_HeartbeatExpiryThreshold spec) as H3.
  { unfold validateSpec, errInvalid in HV. repeat case_match; simplify_eq; bool_to_prop; lia. }
  unfold fake_specFromProto, fake_specToProto. cbn [w_Name w_Namespace w_Size w_FlintlockHosts w_ReplenishmentStrategy w_CreateCommands
    w_PreLeaseCommands w_HookFailurePolicy w_MicrovmTemplate w_HeartbeatInterval w_HeartbeatExpiryThreshold].
  assert (forall d, 0 <= d <= maxDuration -> from_option AsDuration 0 (if 0 <? d then Some (durationpb_New d) else None) = d) as Hr.
  { intros d Hd. destruct (Z.ltb_spec 0 d); simpl; [rewrite Hdur; unfold minDuration; lia|lia]. }
  rewrite !Hr by lia. by destruct spec as [[] ? ? ? [] ? ? ? ? ?].
Qed.

(** A call with an accepted spec reaches its critical section with that spec. *)
Lemma fake_call_accepted c spec s :
  fake_accepts cfg spec -> unavailable s = None ->
  match c spec s with
  | (s1, RErr e) => call c spec s = (s1, Err (fake_mapErr ctxErr e))
  | (s1, ROk p) => exists q, call c spec s = (s1, Ok (Some q))
  end.
Proof.
  intros HA HU. unfold fake_call, fake_pool_answer, unaryFaultInterceptor, server_pool. rewrite HU, (wire_exact _ HA).
  destruct (c spec s) as [s1 [p|e]]; [|done]. by eexists.
Qed.

Lemma fake_create_call spec (w : FakeAt) :
  call (createPool cfg) spec (fa_pm w) = (fa_pm (CreatePool spec w).1, (CreatePool spec w).2).
Proof. cbn. apply surjective_pairing. Qed.
Lemma fake_update_call spec (w : FakeAt) :
  call (updatePool cfg) spec (fa_pm w) = (fa_pm (UpdatePool spec w).1, (UpdatePool spec w).2).
Proof. cbn. apply surjective_pairing. Qed.
(** What a call does to the Pools the fake holds. *)
Record stored_by (spec : PoolSpec) (w w' : FakeAt) (r : result (option Pool)) : Prop := {
  sb_up : fake_up w -> fake_up w';
  sb_frame : forall ref, ref <> sp_Ref spec -> fake_stored w' !! ref = fake_stored w !! ref;
  sb_ok : forall p, r = Ok p -> is_Some (fake_stored w' !! sp_Ref spec);
  sb_exact : forall p, fake_accepts cfg spec -> r = Ok p -> fake_stored w' = <[sp_Ref spec := spec]> (fake_stored w);
  sb_err : forall e, r = Err e -> fake_stored w' = fake_stored w
}.

Lemma stores_stored_by c spec (w w' : FakeAt) r :
  stores c -> call c spec (fa_pm w) = (fa_pm w', r) -> stored_by spec w w' r.
Proof.
  intros Hc HC.
  destruct (fake_call_cases durationpb_New AsDuration ctxErr c spec (fa_pm w))
    as [(e & _ & H)|[(sp & s1 & e & HR & HU & Hcall & H)|(sp & s1 & p & q & HR & HU & Hcall & H)]]; rewrite H in HC; injection HC as HS <-.
  1,2: assert (fa_pm w' = fa_pm w) as Hsame by (first [done | pose proof (Hc sp _ (fa_ok w)) as Hst; rewrite Hcall in Hst; congruence]);
       assert (fake_stored w' = fake_stored w) as Hst' by (unfold fake_stored; by rewrite Hsame);
       split; [unfold fake_up; by rewrite Hsame|by rewrite Hst'|done|done|done].
  pose proof (Hc sp _ (fa_ok w)) as Hst. rewrite Hcall in Hst. destruct Hst as (sp' & HV & _ & HU' & HF). rewrite HS in *.
  pose proof (fake_specFromProto_Ref durationpb_New AsDuration _ _ HR) as HRef.
  assert (forall ref, fake_stored w' !! ref = if decide (ref = sp_Ref spec) then Some sp' else fake_stored w !! ref) as HL.
  { intros ref. by rewrite !fake_stored_lookup, HF, HRef. }
  split; [unfold fake_up; congruence| | | |done].
  - intros ref Hne. by rewrite HL, decide_False.
  - intros _ _. by rewrite HL, decide_True.
  - intros _ HA _. apply map_eq. intros ref. rewrite HL. pose proof (wire_exact _ HA) as HW.
    destruct (decide (ref = sp_Ref spec)) as [->|Hne]; [rewrite lookup_insert_eq|by rewrite lookup_insert_ne].
    destruct HA as (HVs & _). congruence.
Qed.

Lemma fake_create_by spec w : stored_by spec w (CreatePool spec w).1 (CreatePool spec w).2.
Proof. apply (stores_stored_by (createPool cfg)); [apply createPool_stores|apply fake_create_call]. Qed.
Lemma fake_update_by spec w : stored_by spec w (UpdatePool spec w).1 (UpdatePool spec w).2.
Proof. apply (stores_stored_by (updatePool cfg)); [apply updatePool_stores|apply fake_update_call]. Qed.

Lemma stored_by_keeps spec w w' r : stored_by spec w w' r -> is_Some (fake_stored w !! sp_Ref spec) -> is_Some (fake_stored w' !! sp_Ref spec).
Proof. intros HB Hp. destruct r as [p|e]; [by apply (sb_ok _ _ _ _ HB p)|]. by rewrite (sb_err _ _ _ _ HB e eq_refl). Qed.

(** What each critical section answers to an accepted spec. *)
Lemma createPool_answer spec s :
  fake_accepts cfg spec -> EI s ->
  match pm_stored s (sp_Ref spec) with
  | None => exists s1 p, createPool cfg spec s = (s1, ROk p)
  | Some _ => exists msg, createPool cfg spec s = (s, RErr (RStatus AlreadyExists msg))
  end.
Proof.
  intros (HV & HN & _) HE. unfold createPool. rewrite HV, HN. destruct (pm_stored s (sp_Ref spec)) eqn:Es.
  - unfold pm_stored, lookupPool in Es. destruct (pools s !! sp_Ref spec); [|done]. by eexists.
  - rewrite (pm_stored_None s _ HE Es). by eexists _, _.
Qed.

Lemma updatePool_answer spec s :
  fake_accepts cfg spec ->
  match pm_stored s (sp_Ref spec) with
  | Some _ => exists s1 p, updatePool cfg spec s = (s1, ROk p)
  | None => exists msg, updatePool cfg spec s = (s, RErr (RStatus NotFound msg))
  end.
Proof.
  intros (HV & HN & _). unfold updatePool, poolLocked, pm_stored. rewrite HV, HN.
  destruct (lookupPool (sp_Ref spec) s) as [[a ps]|]; simpl; [by eexists _, _|by eexists].
Qed.

(** The fake keeps the contract the Declarer relies on. *)
#[local] Instance fake_laws : PoolAdminLaws FakeAt fake_stored fake_up (fake_accepts cfg).
Proof.
  split.
  - intros spec w p HA. by apply (sb_exact _ _ _ _ (fake_create_by spec w)).
  - intros spec w p HA. by apply (sb_exact _ _ _ _ (fake_update_by spec w)).
  - intros spec w ref. apply (sb_frame _ _ _ _ (fake_create_by spec w)).
  - intros spec w ref. apply (sb_frame _ _ _ _ (fake_update_by spec w)).
  - intros spec w. apply (stored_by_keeps _ _ _ _ (fake_create_by spec w)).
  - intros spec w. apply (stored_by_keeps _ _ _ _ (fake_update_by spec w)).
  - intros spec w. apply (sb_up _ _ _ _ (fake_create_by spec w)).
  - intros spec w. apply (sb_up _ _ _ _ (fake_update_by spec w)).
  - intros spec w HA HU Hno. rewrite fake_stored_lookup in Hno.
    pose proof (createPool_answer spec _ HA (fa_ok w)) as HX. rewrite Hno in HX. destruct HX as (s1 & p & HX).
    pose proof (fake_call_accepted (createPool cfg) spec _ HA HU) as HC. rewrite HX in HC. destruct HC as [q HC].
    rewrite fake_create_call in HC. exists (Some q). congruence.
  - intros spec w HA HU [old Hold]. pose proof (sb_err _ _ _ _ (fake_create_by spec w)) as HE. rewrite fake_stored_lookup in Hold.
    pose proof (createPool_answer spec _ HA (fa_ok w)) as HX. rewrite Hold in HX. destruct HX as (msg & HX).
    pose proof (fake_call_accepted (createPool cfg) spec _ HA HU) as HC. rewrite HX, fake_create_call in HC. injection HC as _ HC.
    eexists. split_and!; [exact HC|done|exact (HE _ HC)].
  - intros spec w HA HU [old Hold]. rewrite fake_stored_lookup in Hold.
    pose proof (updatePool_answer spec (fa_pm w) HA) as HX. rewrite Hold in HX. destruct HX as (s1 & p & HX).
    pose proof (fake_call_accepted (updatePool cfg) spec _ HA HU) as HC. rewrite HX in HC. destruct HC as [q HC].
    rewrite fake_update_call in HC. exists (Some q). congruence.
  - intros spec w HA HU Hno. pose proof (sb_err _ _ _ _ (fake_update_by spec w)) as HE. pose proof Hno as Hno'. rewrite fake_stored_lookup in Hno.
    pose proof (updatePool_answer spec (fa_pm w) HA) as HX. rewrite Hno in HX. destruct HX as (msg & HX).
    pose proof (fake_call_accepted (updatePool cfg) spec _ HA HU) as HC. rewrite HX, fake_update_call in HC. injection HC as _ HC.
    eexists. split_and!; [exact HC|done|]. by rewrite (HE _ HC).
Qed.

(** C18: the fake Pool Manager, reached through its client and its handlers,
    keeps the contract of [PoolAdmin]: a spec it accepts is stored as it is
    and nothing else changes, an existing Pool is refused with
    ErrAlreadyExists and an unknown one with ErrNotFound, and while it is not
    made unavailable it answers.  So what is proved of the Declarer and of a
    Reload against the interface holds against it. *)
Theorem fake_refines_PoolAdmin : PoolAdminLaws FakeAt fake_stored fake_up (fake_accepts cfg).
Proof. exact fake_laws. Qed.
End AdminLaws.

Lemma demo_durations d : minDuration <= d <= maxDuration -> demo_AsDuration (demo_New d) = d.
Proof. intros _. unfold demo_New, demo_AsDuration. simpl. pose proof (Z.quot_rem' d second). lia. Qed.

Lemma demo_fresh : EI (New demo_FakeConfig 0 demo_Hosts).
Proof. exact (EI_reachable demo_FakeConfig demo_fmt 0 demo_Hosts _ (reach_init _ _ _ _)). Qed.
Definition demo_FakeAt : FakeAt := {| fa_pm := New demo_FakeConfig 0 demo_Hosts; fa_ok := demo_fresh |}.

Lemma demo_accepted : fake_accepts demo_FakeConfig demo_poolSpec.
Proof. split_and!; vm_compute; try reflexivity; discriminate. Qed.

Lemma fake_refines_PoolAdmin_witness :
  let admin := fake_PoolAdmin demo_New demo_AsDuration demo_FakeConfig None in
  fake_stored demo_FakeAt !! sp_Ref demo_poolSpec = None /\ exists p, (@CreatePool _ admin demo_poolSpec demo_FakeAt).2 = Ok p.
Proof.
  intros admin. assert (fake_stored demo_FakeAt !! sp_Ref demo_poolSpec = None) as H by reflexivity. split; [exact H|].
  apply (@create_absent _ _ _ _ _ (fake_refines_PoolAdmin demo_New demo_AsDuration demo_FakeConfig None demo_durations));
    [exact demo_accepted|reflexivity|exact H].
Defined.

(** A stream the Pool Manager refuses with CANCELLED: the Runner's client
    reports it unavailable, the fake's as the caller's cancellation. *)
Theorem fake_subscribe_differs :
  let refused := RErr (RStatus Canceled "closing") in
  match client_Subscribe refused None, fake_client_Subscribe None refused None with
  | Err e, Err e' => errors_Is e ErrUnavailable = true /\ errors_Is e' ErrUnavailable = false /\ errors_Is e' CtxCanceled = true
  | _, _ => False
  end.
Proof. by vm_compute. Qed.
