(* ===== verification/GoStrings.v ===== *)
(** * The string functions of Go's standard library the configuration uses

    strings, strconv and net over strings of bytes, each as the library
    defines it; [url.Parse] is an argument of the definitions that use it. *)
From S2P Require Import Prelude GoModel Base64 Spec PathMatch.
From Stdlib Require Import Ascii.

(** ** strings *)
Definition string_of_bytes (l : list Z) : string := String.string_of_list_ascii (char_of <$> l).

Fixpoint trim_left (l : list Z) : list Z :=
  match l with
  | 194 :: c :: r => if (c =? 133) || (c =? 160) then trim_left r else l
  | 225 :: 154 :: 128 :: r => trim_left r
  | 226 :: 128 :: c :: r => if ((128 <=? c) && (c <=? 138)) || (c =? 168) || (c =? 169) || (c =? 175) then trim_left r else l
  | 226 :: 129 :: 159 :: r => trim_left r
  | 227 :: 128 :: 128 :: r => trim_left r
  | c :: r => if ((9 <=? c) && (c <=? 13)) || (c =? 32) then trim_left r else l
  | [] => []
  end.
(** The same from the end: the bytes reversed. *)
Fixpoint trim_right_rev (l : list Z) : list Z :=
  match l with
  | 133 :: 194 :: r | 160 :: 194 :: r => trim_right_rev r
  | 128 :: 154 :: 225 :: r => trim_right_rev r
  | 159 :: 129 :: 226 :: r => trim_right_rev r
  | 128 :: 128 :: 227 :: r => trim_right_rev r
  | c :: r =>
      if ((9 <=? c) && (c <=? 13)) || (c =? 32) then trim_right_rev r else
      match r with
      | 128 :: 226 :: r' => if ((128 <=? c) && (c <=? 138)) || (c =? 168) || (c =? 169) || (c =? 175) then trim_right_rev r' else l
      | _ => l
      end
  | [] => []
  end.
Definition TrimSpace (s : string) : string := string_of_bytes (rev (trim_right_rev (rev (trim_left (bytes_of s))))).

Fixpoint has_byte (c : Ascii.ascii) (s : string) : bool :=
  match s with EmptyString => false | String d s => Ascii.eqb c d || has_byte c s end.
Definition ContainsAny (s chars : string) : bool := existsb (fun c => has_byte c s) (String.list_ascii_of_string chars).
Fixpoint HasPrefix (s p : string) : bool :=
  match p, s with
  | EmptyString, _ => true
  | String a p, String b s => Ascii.eqb a b && HasPrefix s p
  | String _ _, EmptyString => false
  end.
Fixpoint Contains (s sub : string) : bool :=
  HasPrefix s sub || match s with EmptyString => false | String _ s => Contains s sub end.

(** [strings.Cut(s, sep)] for a one-byte separator. *)
Fixpoint Cut (s : string) (sep : Ascii.ascii) : option (string * string) :=
  match s with
  | EmptyString => None
  | String c s => if Ascii.eqb c sep then Some ("", s)
                  else match Cut s sep with Some (a, b) => Some (String c a, b) | None => None end
  end.
(** The parts before and after the last [sep]. *)
Fixpoint CutLast (s : string) (sep : Ascii.ascii) : option (string * string) :=
  match s with
  | EmptyString => None
  | String c s => match CutLast s sep with
                  | Some (a, b) => Some (String c a, b)
                  | None => if Ascii.eqb c sep then Some ("", s) else None
                  end
  end.

(** [strings.ToLower]: exact where its result is ASCII; the only other runes
    whose lower case is ASCII are U+0130 and the Kelvin sign. *)
Fixpoint lower_bytes (l : list Z) : list Z :=
  match l with
  | 196 :: 176 :: r => 105 :: lower_bytes r
  | 226 :: 132 :: 170 :: r => 107 :: lower_bytes r
  | c :: r => (if (65 <=? c) && (c <=? 90) then c + 32 else c) :: lower_bytes r
  | [] => []
  end.
Definition ToLower (s : string) : string := string_of_bytes (lower_bytes (bytes_of s)).

(** ** strconv *)
Definition digit (c : Ascii.ascii) : option Z :=
  let n := byte_of c in if (48 <=? n) && (n <=? 57) then Some (n - 48) else None.
Fixpoint digits (s : string) (acc : Z) : option Z :=
  match s with
  | EmptyString => Some acc
  | String c s => match digit c with Some d => digits s (acc * 10 + d) | None => None end
  end.
Definition Atoi (s : string) : option Z :=
  let unsigned s := match s with EmptyString => None | _ => digits s 0 end in
  match s with
  | String "-"%char s => match unsigned s with Some n => if n <=? 2 ^ 63 then Some (- n) else None | None => None end
  | String "+"%char s => match unsigned s with Some n => if n <? 2 ^ 63 then Some n else None | None => None end
  | s => match unsigned s with Some n => if n <? 2 ^ 63 then Some n else None | None => None end
  end.
Definition Itoa (n : Z) : string := pretty n.

(** ** net *)
Definition SplitHostPort (hostport : string) : option (string * string) :=
  match CutLast hostport ":"%char with
  | None => None
  | Some (before, port) =>
      match hostport with
      | String "["%char rest =>
          match Cut rest "]"%char with
          | None => None
          | Some (host, after) =>
              (* the first ']' has to be just before the last ':' *)
              if negb (String.eqb after (String ":"%char port)) then None
              else if has_byte "["%char rest || has_byte "]"%char after then None
              else Some (host, port)
          end
      | _ =>
          if has_byte ":"%char before then None
          else if has_byte "["%char hostport || has_byte "]"%char hostport then None
          else Some (before, port)
      end
  end.
Definition JoinHostPort (host port : string) : string :=
  if has_byte ":"%char host then "[" +:+ host +:+ "]:" +:+ port else host +:+ ":" +:+ port.

Example SplitHostPort_examples :
  SplitHostPort "10.0.0.1:9090" = Some ("10.0.0.1", "9090") /\ SplitHostPort "[::1]:80" = Some ("::1", "80")
  /\ SplitHostPort "::1:80" = None /\ SplitHostPort "host" = None /\ SplitHostPort ":80" = Some ("", "80")
  /\ SplitHostPort "[::1]" = None /\ SplitHostPort "[a]b:80" = None /\ SplitHostPort "a[b:80" = None
  /\ SplitHostPort "[a]:b:80" = None.
Proof. by_compute. Qed.

Example string_examples :
  TrimSpace "  a b " = "a b" /\ TrimSpace " " = "" /\ Atoi "09090" = Some 9090 /\ Atoi "9a" = None /\ Atoi "-5" = Some (-5)
  /\ Atoi "" = None /\ CutLast "a:b:c" ":"%char = Some ("a:b", "c") /\ Cut "a:b:c" ":"%char = Some ("a", "b:c") /\ ToLower "WARN" = "warn"
  /\ Contains "tcp://x" "://" = true /\ ContainsAny "a b" " /" = true /\ Itoa 80 = "80".
Proof. by_compute. Qed.

(** ** Laws *)
Lemma string_app_nil (a : string) : a +:+ "" = a.
Proof. induction a as [|d a IH]; [done|exact (f_equal (String d) IH)]. Qed.
Lemma string_app_assoc (a b c : string) : (a +:+ b) +:+ c = a +:+ b +:+ c.
Proof. induction a as [|d a IH]; [done|exact (f_equal (String d) IH)]. Qed.

Lemma has_byte_app c a b : has_byte c (a +:+ b) = has_byte c a || has_byte c b.
Proof. induction a as [|d a IH]; simpl; [done|]. by rewrite IH, orb_assoc. Qed.

Lemma CutLast_None s c : CutLast s c = None <-> has_byte c s = false.
Proof.
  induction s as [|d s IH]; simpl; [done|]. destruct (CutLast s c) as [[a b]|]; [destruct IH as [_ IH]|destruct IH as [IH _]].
  - split; [done|]. intros [_ H]%orb_false_iff. by apply IH in H.
  - rewrite (IH eq_refl), orb_false_r, (Ascii.eqb_sym c d). by destruct (Ascii.eqb d c).
Qed.

Lemma CutLast_Some s c a b : CutLast s c = Some (a, b) <-> s = a +:+ String c b /\ has_byte c b = false.
Proof.
  split.
  - revert a b. induction s as [|d s IH]; intros a b; simpl; [done|]. pose proof (CutLast_None s c) as HN. destruct (CutLast s c) as [[a' b']|].
    + intros [= <- <-]. destruct (IH _ _ eq_refl) as [-> H]. done.
    + destruct (Ascii.eqb d c) eqn:E; [|done]. apply Ascii.eqb_eq in E as ->. intros [= <- <-]. split; [done|by apply HN].
  - intros [-> H]. induction a as [|d a IH]; simpl.
    + destruct (CutLast b c) as [[]|] eqn:E; [|by rewrite Ascii.eqb_refl].
      apply CutLast_None in H. congruence.
    + by rewrite IH.
Qed.

Lemma Cut_None s c : Cut s c = None <-> has_byte c s = false.
Proof.
  induction s as [|d s IH]; simpl; [done|]. rewrite (Ascii.eqb_sym c d). destruct (Ascii.eqb d c); simpl; [done|].
  rewrite <-IH. by destruct (Cut s c) as [[]|].
Qed.

Lemma Cut_Some s c a b : Cut s c = Some (a, b) <-> s = a +:+ String c b /\ has_byte c a = false.
Proof.
  split.
  - revert a b. induction s as [|d s IH]; intros a b; simpl; [done|]. destruct (Ascii.eqb d c) eqn:E.
    + apply Ascii.eqb_eq in E as ->. by intros [= <- <-].
    + destruct (Cut s c) as [[a' b']|]; [|done]. intros [= <- <-]. destruct (IH _ _ eq_refl) as [-> H]. split; [done|].
      simpl. by rewrite Ascii.eqb_sym, E.
  - intros [-> H]. induction a as [|d a IH]; simpl in *; [by rewrite Ascii.eqb_refl|].
    apply orb_false_iff in H as [H1 H2]. rewrite Ascii.eqb_sym, H1. by rewrite IH.
Qed.

(** ** Strings of characters of one kind *)
Fixpoint all_chars (p : Ascii.ascii -> bool) (s : string) : bool :=
  match s with EmptyString => true | String c s => p c && all_chars p s end.

Lemma all_chars_no p c s : all_chars p s = true -> p c = false -> has_byte c s = false.
Proof.
  intros H Hc. induction s as [|d s IH]; [done|]. simpl in *. apply andb_prop in H as [Hd Hs].
  rewrite (IH Hs), orb_false_r. destruct (Ascii.eqb_spec c d); [congruence|done].
Qed.

Lemma all_chars_app p a b : all_chars p (a +:+ b) = all_chars p a && all_chars p b.
Proof. induction a as [|c a IH]; [done|]. simpl. by rewrite IH, andb_assoc. Qed.

Lemma all_chars_impl (p q : Ascii.ascii -> bool) s : (forall c, p c = true -> q c = true) -> all_chars p s = true -> all_chars q s = true.
Proof. intros H. induction s as [|c s IH]; [done|]. simpl. rewrite !andb_true_iff. intros [Hc Hs]. auto. Qed.

(** The decimal digits of an integer. *)
Definition is_digit (c : Ascii.ascii) : bool := match digit c with Some _ => true | None => false end.

Lemma pretty_N_go_digits x s : all_chars is_digit s = true -> all_chars is_digit (pretty_N_go x s) = true.
Proof.
  revert s. induction (N.lt_wf_0 x) as [x _ IH]; intros s Hs.
  destruct (decide (x = 0)%N) as [->|Hx]; [by rewrite pretty_N_go_0|].
  rewrite pretty_N_go_step by lia. apply IH; [apply N.div_lt; lia|].
  simpl. rewrite Hs, andb_true_r. unfold pretty_N_char. by repeat case_match.
Qed.

Lemma Itoa_digits n : 0 <= n -> all_chars is_digit (Itoa n) = true.
Proof.
  intros Hn. unfold Itoa, pretty, pretty_Z. destruct n as [|p|p]; [done| |lia].
  unfold pretty, pretty_N. simpl. by apply pretty_N_go_digits.
Qed.


(** The digits of a number spell it. *)
Lemma digits_app a b acc : digits (a +:+ b) acc = match digits a acc with Some n => digits b n | None => None end.
Proof. revert acc. induction a as [|c a IH]; intros acc; [done|]. simpl. destruct (digit c); [apply IH|done]. Qed.

Lemma digit_pretty_N_char x : (x < 10)%N -> digit (pretty_N_char x) = Some (Z.of_N x).
Proof.
  intros Hx. assert (x = 0 \/ x = 1 \/ x = 2 \/ x = 3 \/ x = 4 \/ x = 5 \/ x = 6 \/ x = 7 \/ x = 8 \/ x = 9)%N as H by lia.
  destruct_or! H; by subst x.
Qed.

Lemma digits_pretty_go x s acc : exists k, 0 < k /\ digits (pretty_N_go x s) acc = digits s (acc * k + Z.of_N x).
Proof.
  revert s acc. induction (N.lt_wf_0 x) as [x _ IH]; intros s acc.
  destruct (decide (x = 0)%N) as [->|Hx]; [rewrite pretty_N_go_0; exists 1; split; [done|f_equal; lia]|].
  rewrite pretty_N_go_step by lia. destruct (IH (x `div` 10)%N) with (s := String (pretty_N_char (x `mod` 10)) s) (acc := acc) as (k & Hk & ->); [apply N.div_lt; lia|].
  exists (k * 10). split; [lia|]. cbn [digits]. rewrite digit_pretty_N_char by (apply N.mod_lt; lia). f_equal.
  pose proof (N.div_mod x 10 ltac:(lia)). nia.
Qed.

Lemma digits_Itoa n : 0 <= n -> digits (Itoa n) 0 = Some n.
Proof.
  intros Hn. unfold Itoa, pretty, pretty_Z. destruct n as [|p|p]; [done| |lia].
  change (digits (pretty_N_go (N.pos p) "") 0 = Some (Z.pos p)). destruct (digits_pretty_go (N.pos p) "" 0) as (k & _ & ->). done.
Qed.

Lemma pretty_go_ne x s : s <> "" -> pretty_N_go x s <> "".
Proof.
  revert s. induction (N.lt_wf_0 x) as [x _ IH]; intros s Hs.
  destruct (decide (x = 0)%N) as [->|Hx]; [by rewrite pretty_N_go_0|].
  rewrite pretty_N_go_step by lia. apply IH; [apply N.div_lt; lia|done].
Qed.

Lemma Itoa_ne n : 0 <= n -> Itoa n <> "".
Proof.
  intros Hn. unfold Itoa, pretty, pretty_Z. destruct n as [|p|p]; [done| |lia].
  change (pretty_N_go (N.pos p) "" <> ""). rewrite pretty_N_go_step by done. by apply pretty_go_ne.
Qed.

(** ** Trimming strings of graphic ASCII characters *)
Definition is_graph (c : Ascii.ascii) : bool := (33 <=? byte_of c) && (byte_of c <=? 126).
Definition graph (c : Z) : Prop := 33 <= c <= 126.

Ltac bytes_128 c := destruct c as [|c|c]; [| |lia]; [|do 7 (try destruct c as [c|c|])]; try reflexivity; try lia.

Lemma trim_left_graph c l : graph c -> trim_left (c :: l) = c :: l.
Proof. unfold graph. intros H. bytes_128 c. Qed.

Lemma trim_right_graph c l : graph c -> trim_right_rev (c :: l) = c :: l.
Proof.
  unfold graph. intros H.
  bytes_128 c; cbn; repeat case_match; first [reflexivity|lia].
Qed.

Lemma byte_char_of c : 0 <= c <= 255 -> byte_of (char_of c) = c.
Proof. intros H. unfold byte_of, char_of. rewrite N_ascii_embedding; lia. Qed.

Lemma bytes_of_string l : Forall (fun c => 0 <= c <= 255) l -> bytes_of (string_of_bytes l) = l.
Proof.
  intros H. unfold bytes_of, string_of_bytes. rewrite String.list_ascii_of_string_of_list_ascii.
  induction H as [|c l Hc _ IH]; [done|]. simpl. f_equal; [by apply byte_char_of|exact IH].
Qed.

Lemma string_of_bytes_of s : string_of_bytes (bytes_of s) = s.
Proof. unfold bytes_of, string_of_bytes. rewrite <-list_fmap_compose. etransitivity; [|apply String.string_of_list_ascii_of_string].
  f_equal. rewrite <-(list_fmap_id (String.list_ascii_of_string s)) at 2. apply list_fmap_ext. intros. apply char_of_byte. Qed.

Lemma bytes_of_graph s : all_chars is_graph s = true -> Forall graph (bytes_of s).
Proof.
  induction s as [|c s IH]; [constructor|]. simpl. rewrite andb_true_iff. unfold is_graph, graph. intros [Hc Hs].
  apply andb_true_iff in Hc as [?%Z.leb_le ?%Z.leb_le]. constructor; [lia|auto].
Qed.

Lemma trim_left_Forall l : Forall graph l -> trim_left l = l.
Proof. destruct 1; [done|by apply trim_left_graph]. Qed.
Lemma trim_right_Forall l : Forall graph l -> trim_right_rev l = l.
Proof. destruct 1; [done|by apply trim_right_graph]. Qed.

Lemma TrimSpace_graph s : all_chars is_graph s = true -> TrimSpace s = s.
Proof.
  intros H%bytes_of_graph. unfold TrimSpace. rewrite trim_left_Forall, trim_right_Forall, rev_involutive; [apply string_of_bytes_of| |done].
  rewrite List.Forall_forall in *. intros x Hx%in_rev. auto.
Qed.

Lemma bytes_of_app a b : bytes_of (a +:+ b) = bytes_of a ++ bytes_of b.
Proof. induction a as [|c a IH]; [done|]. unfold bytes_of in *. simpl. f_equal. exact IH. Qed.

(** The newline that ends a text file goes. *)
Lemma TrimSpace_newline s : all_chars is_graph s = true -> TrimSpace (s +:+ String "010"%char "") = s.
Proof.
  intros Hs. rewrite <-(TrimSpace_graph s Hs) at 2. apply bytes_of_graph in Hs. unfold TrimSpace. rewrite bytes_of_app. f_equal. f_equal.
  assert (trim_left (bytes_of s ++ bytes_of (String "010"%char "")) = bytes_of s ++ [10] \/ (bytes_of s = [] /\ trim_left (bytes_of s ++ bytes_of (String "010"%char "")) = [])) as [->|[E ->]].
  - destruct Hs as [|c l Hc Hl]; [by right|left; by apply trim_left_graph].
  - rewrite trim_left_Forall by done. rewrite rev_app_distr. done.
  - by rewrite E.
Qed.
