(* ===== verification/NetIP.v ===== *)
(** * net.ParseIP

    Whether Go's [net.ParseIP] accepts a string: [netip.ParseAddr] without a
    zone.  The address itself is never used by the sources, which only ask
    for a non-nil result. *)
From Stdlib Require Import Ascii.
From S2P Require Import Prelude GoModel Base64 PathMatch GoStrings.

(** [parseIPv4Fields]: [val] and [digLen] are those of the current octet. *)
Fixpoint parseIPv4Fields (s : string) (val pos digLen : Z) : bool :=
  match s with
  | EmptyString => negb (pos <? 3)
  | String c rest =>
      match digit c with
      | Some d =>
          if (digLen =? 1) && (val =? 0) then false
          else let val := val * 10 + d in if 255 <? val then false else parseIPv4Fields rest val pos (digLen + 1)
      | None =>
          if Ascii.eqb c "."%char
          then if (digLen =? 0) || String.eqb rest "" || (pos =? 3) then false else parseIPv4Fields rest 0 (pos + 1) 0
          else false
      end
  end.

Definition hex_digit (c : ascii) : bool :=
  let n := byte_of c in ((48 <=? n) && (n <=? 57)) || ((97 <=? n) && (n <=? 102)) || ((65 <=? n) && (n <=? 70)).

(** The hex digits [s] starts with, counted, and the rest of it. *)
Fixpoint hex_run (s : string) : Z * string :=
  match s with
  | String c rest => if hex_digit c then let '(n, r) := hex_run rest in (n + 1, r) else (0, s)
  | EmptyString => (0, s)
  end.

Definition ipv6_finish (s : string) (i : Z) (ellipsis : bool) : bool :=
  String.eqb s "" && (if i <? 16 then ellipsis else negb ellipsis).

(** The loop over the fields, of which there are at most eight. *)
Fixpoint ipv6_fields (fuel : nat) (s : string) (i : Z) (ellipsis : bool) : bool :=
  match fuel with
  | O => ipv6_finish s i ellipsis
  | S fuel =>
      let '(off, rest) := hex_run s in
      if (off =? 0) || (4 <? off) then false
      else match rest with
      | EmptyString => ipv6_finish "" (i + 2) ellipsis
      | String c more =>
          if Ascii.eqb c "."%char then
            if negb ellipsis && negb (i =? 12) then false
            else if 16 <? i + 4 then false
            else parseIPv4Fields s 0 0 0 && ipv6_finish "" (i + 4) ellipsis
          else if negb (Ascii.eqb c ":"%char) then false
          else match more with
          | EmptyString => false
          | String d more' =>
              if Ascii.eqb d ":"%char then
                if ellipsis then false
                else match more' with
                     | EmptyString => ipv6_finish "" (i + 2) true
                     | _ => ipv6_fields fuel more' (i + 2) true
                     end
              else ipv6_fields fuel more (i + 2) ellipsis
          end
      end
  end.

Definition parseIPv6 (s : string) : bool :=
  match s with
  | String ":" (String ":" rest) => match rest with EmptyString => true | _ => ipv6_fields 8 rest 0 true end
  | _ => ipv6_fields 8 s 0 false
  end.

(** Which of '.' and ':' comes first decides the kind of address. *)
Fixpoint first_special (s : string) : option ascii :=
  match s with
  | EmptyString => None
  | String c s => if Ascii.eqb c "."%char || Ascii.eqb c ":"%char || Ascii.eqb c "%"%char then Some c else first_special s
  end.

Definition ParseIP (s : string) : bool :=
  if has_byte "%"%char s then false
  else match first_special s with
       | Some "."%char => parseIPv4Fields s 0 0 0
       | Some ":"%char => parseIPv6 s
       | _ => false
       end.

Example ParseIP_examples :
  ParseIP "10.0.0.1" = true /\ ParseIP "192.168.100.255" = true /\ ParseIP "::1" = true /\ ParseIP "::" = true
  /\ ParseIP "fe80::1:2" = true /\ ParseIP "1:2:3:4:5:6:7:8" = true /\ ParseIP "::ffff:10.0.0.1" = true
  /\ ParseIP "1:2:3:4:5:6:7::" = true /\ ParseIP "1:2:3:4:5:6:10.0.0.1" = true
  /\ ParseIP "" = false /\ ParseIP "10.0.0" = false /\ ParseIP "10.0.0.256" = false /\ ParseIP "10.0.0.01" = false
  /\ ParseIP "10.0.0.1." = false /\ ParseIP "fe80::1%eth0" = false /\ ParseIP "1:2:3:4:5:6:7" = false
  /\ ParseIP "1:2:3:4:5:6:7:8:9" = false /\ ParseIP "1::2::3" = false /\ ParseIP "12345::" = false
  /\ ParseIP "1:2:3:4:5:6:7:8::" = false /\ ParseIP "localhost" = false /\ ParseIP "[::1]" = false.
Proof. by_compute. Qed.

(** An address holds only hex digits, dots and colons, so no bracket. *)
Definition ip_char (c : ascii) : bool := hex_digit c || Ascii.eqb c "."%char || Ascii.eqb c ":"%char.

Lemma digit_hex c d : digit c = Some d -> hex_digit c = true.
Proof. unfold digit, hex_digit. destruct (_ && _); [done|discriminate]. Qed.

Lemma parseIPv4Fields_chars s v p l : parseIPv4Fields s v p l = true -> all_chars ip_char s = true.
Proof.
  revert v p l. induction s as [|c s IH]; intros v p l; [done|]. simpl. unfold ip_char at 1.
  destruct (digit c) eqn:Hd.
  - rewrite (digit_hex _ _ Hd). repeat case_match; try done. simpl. apply IH.
  - destruct (Ascii.eqb c "."%char); [|done]. rewrite orb_true_r. repeat case_match; try done. simpl. apply IH.
Qed.

Lemma hex_run_chars s n r : hex_run s = (n, r) -> all_chars ip_char r = true -> all_chars ip_char s = true.
Proof.
  revert n r. induction s as [|c s IH]; simpl; intros n r; [done|].
  destruct (hex_digit c) eqn:Hc; [|intros [= <- <-]; done].
  destruct (hex_run s) as [m q]. intros [= <- <-] Hr. unfold ip_char. rewrite Hc. simpl. by eapply IH.
Qed.

Lemma ipv6_finish_nil s i e : ipv6_finish s i e = true -> s = "".
Proof. unfold ipv6_finish. intros [H _]%andb_prop. by apply String.eqb_eq. Qed.

Lemma ipv6_fields_chars fuel s i e : ipv6_fields fuel s i e = true -> all_chars ip_char s = true.
Proof.
  revert s i e. induction fuel as [|fuel IH]; intros s i e; simpl; [by intros ->%ipv6_finish_nil|].
  destruct (hex_run s) as [off rest] eqn:Hh. destruct (_ || _); [done|].
  destruct rest as [|c more]; [intros _; by eapply hex_run_chars|].
  destruct (Ascii.eqb_spec c "."%char) as [->|_].
  { repeat case_match; try done. intros [H4 _]%andb_prop. by eapply parseIPv4Fields_chars. }
  destruct (Ascii.eqb_spec c ":"%char) as [->|_]; [|done]. simpl.
  destruct more as [|d more']; [done|]. intros H. eapply hex_run_chars; [exact Hh|].
  destruct (Ascii.eqb_spec d ":"%char) as [->|_].
  - destruct e; [done|]. destruct more'; [done|]. simpl. by apply (IH _ _ _ H).
  - simpl. by apply (IH _ _ _ H).
Qed.

Lemma ParseIP_chars s : ParseIP s = true -> all_chars ip_char s = true.
Proof.
  unfold ParseIP. destruct (has_byte _ s); [done|]. destruct (first_special s) as [c|]; [|done].
  assert (H6 : parseIPv6 s = true -> all_chars ip_char s = true).
  { unfold parseIPv6. destruct s as [|a s]; [done|].
    destruct (Ascii.eqb_spec a ":"%char) as [->|Ha].
    - destruct s as [|b s]; [done|]. destruct (Ascii.eqb_spec b ":"%char) as [->|Hb].
      + destruct s; [done|]. intros H6. exact (ipv6_fields_chars _ _ _ _ H6).
      + intros H6. apply (ipv6_fields_chars 8 (String ":" (String b s)) 0 false). revert H6. by repeat case_match.
    - intros H. apply (ipv6_fields_chars 8 (String a s) 0 false). revert H. by repeat case_match. }
  repeat case_match; try done. apply parseIPv4Fields_chars.
Qed.


Lemma not_bracket {A} (c : ascii) (x y : A) : c <> "["%char -> match c with "["%char => x | _ => y end = y.
Proof. intros H. destruct c as [[] [] [] [] [] [] [] []]; try reflexivity. by destruct H. Qed.

(** [net.SplitHostPort] takes apart what [net.JoinHostPort] put together. *)
Lemma SplitHostPort_JoinHostPort host port :
  has_byte "["%char host = false -> has_byte "]"%char host = false ->
  has_byte ":"%char port = false -> has_byte "["%char port = false -> has_byte "]"%char port = false ->
  SplitHostPort (JoinHostPort host port) = Some (host, port).
Proof.
  intros H1 H2 P1 P2 P3. unfold JoinHostPort. destruct (has_byte ":"%char host) eqn:Hc; unfold SplitHostPort.
  - assert (HL : CutLast ("[" +:+ host +:+ "]:" +:+ port) ":"%char = Some ("[" +:+ host +:+ "]", port)).
    { apply CutLast_Some. split; [|done]. by rewrite !string_app_assoc. }
    rewrite HL. change ("[" +:+ host +:+ "]:" +:+ port) with (String "[" (host +:+ String "]" (String ":" port))). cbv iota.
    assert (HC : Cut (host +:+ String "]" (String ":" port)) "]"%char = Some (host, String ":" port)) by (by apply Cut_Some).
    rewrite HC, String.eqb_refl. simpl. rewrite has_byte_app, H1. simpl. by rewrite P2, P3.
  - assert (HL : CutLast (host +:+ ":" +:+ port) ":"%char = Some (host, port)) by (by apply CutLast_Some).
    rewrite HL, Hc. rewrite !has_byte_app. simpl. rewrite H1, H2, P2, P3. simpl.
    destruct host as [|c host]; [done|]. simpl in *. apply orb_false_iff in H1 as [H1 _].
    destruct (Ascii.eqb_spec "["%char c) as [<-|Hn]; [done|]. by rewrite not_bracket by congruence.
Qed.
