(* ===== verification/ConfigImage.v ===== *)
(** * internal/config: image references and Host selection

    image.go and hosts.go.  A reference is cut where the source cuts it: the
    digest after the last [@], the tag after a last [:] that no [/] follows. *)
From S2P Require Import Prelude GoModel ConfigTypes Base64 Spec PathMatch GoStrings.
From Stdlib Require Import Ascii.

(** ** image.go *)
Record ImageRef := { Repository : string; Tag : string; Digest : string }.

Definition Pinned (r : ImageRef) : bool := negb (String.eqb (Digest r) "") || negb (String.eqb (Tag r) "").

Definition cutDigest (ref : string) : result (string * string) :=
  match CutLast ref "@"%char with
  | None => Ok (ref, "")
  | Some (repo, digest) =>
      match Cut digest ":"%char with
      | Some (algo, hex) =>
          if String.eqb algo "" || String.eqb hex "" then Err (ENew ("image reference " +:+ ref +:+ " has a malformed digest"))
          else Ok (repo, digest)
      | None => Err (ENew ("image reference " +:+ ref +:+ " has a malformed digest"))
      end
  end.

Definition cutTag (ref repo : string) : result (string * string) :=
  match CutLast repo ":"%char with
  | Some (before, tag) =>
      if has_byte "/"%char tag then Ok (repo, "")
      else if String.eqb tag "" then Err (ENew ("image reference " +:+ ref +:+ " has an empty tag"))
      else Ok (before, tag)
  | None => Ok (repo, "")
  end.

Definition ParseImageRef (ref : string) : result ImageRef :=
  let ref := TrimSpace ref in
  if String.eqb ref "" then Err (ENew "empty image reference") else
  match cutDigest ref with
  | Err e => Err e
  | Ok (repo, digest) =>
      match cutTag ref repo with
      | Err e => Err e
      | Ok (repo, tag) =>
          if String.eqb repo "" then Err (ENew ("image reference " +:+ ref +:+ " has no repository"))
          else Ok {| Repository := repo; Tag := tag; Digest := digest |}
      end
  end.

Record profileImage := { img_field : string; img_ref : string }.
Definition indexed (f : string) (i : nat) : string := f +:+ "[" +:+ pretty i +:+ "]".
Definition images (p : ProfileConfig) (prefix : string) : list profileImage :=
  [{| img_field := prefix +:+ ".kernel.image"; img_ref := k_Image (p_Kernel p) |};
   {| img_field := prefix +:+ ".rootfs"; img_ref := p_RootFS p |}]
  ++ match p_Initrd p with Some i => [{| img_field := prefix +:+ ".initrd.image"; img_ref := i_Image i |}] | None => [] end
  ++ imap (fun i v => {| img_field := indexed (prefix +:+ ".additional_volumes") i +:+ ".image"; img_ref := v_Image v |}) (p_AdditionalVolumes p).

Record ImageWarning := { iw_Profile : string; iw_Field : string; iw_Image : string }.
Definition Warnings (c : Config) : list ImageWarning :=
  concat (imap (fun i p =>
    omap (fun img =>
      match ParseImageRef (img_ref img) with
      | Err _ => None
      | Ok r => if negb (String.eqb (Digest r) "") || String.eqb (Tag r) "" then None
                else Some {| iw_Profile := p_Name p; iw_Field := img_field img; iw_Image := img_ref img |}
      end) (images p (indexed "profiles" i))) (c_Profiles c)).

(** ** hosts.go *)
Definition MatchesHost (p : ProfileConfig) (h : HostEntry) : bool :=
  String.eqb (p_Arch p) (he_Arch h)
  && forallb (fun kw => bool_decide (he_Labels h !! kw.1 = Some kw.2)) (map_to_list (p_HostSelector p)).
Definition SelectHosts (p : ProfileConfig) (inventory : list HostEntry) : list string :=
  he_Name <$> filter (fun h => MatchesHost p h = true) inventory.
Definition HostByName (inventory : list HostEntry) (name : string) : option HostEntry :=
  snd <$> list_find (fun h => he_Name h = name) inventory.

(** ** What a reference is cut into *)
Definition image_string (r : ImageRef) : string :=
  Repository r +:+ (if String.eqb (Tag r) "" then "" else ":" +:+ Tag r)
  +:+ (if String.eqb (Digest r) "" then "" else "@" +:+ Digest r).

Definition digest_ok (d : string) : Prop := exists algo hex, d = algo +:+ ":" +:+ hex /\ algo <> "" /\ hex <> ""
  /\ has_byte ":"%char algo = false /\ has_byte "@"%char d = false.

(** A reference as the source reads it: a registry port is not a tag. *)
Record ref_ok (r : ImageRef) : Prop := {
  ro_repo : Repository r <> "";
  ro_digest : Digest r = "" \/ digest_ok (Digest r);
  ro_at : Digest r = "" -> has_byte "@"%char (Repository r) = false /\ has_byte "@"%char (Tag r) = false;
  ro_tag : has_byte ":"%char (Tag r) = false /\ has_byte "/"%char (Tag r) = false;
  ro_port : Tag r = "" -> forall a b, CutLast (Repository r) ":"%char = Some (a, b) -> has_byte "/"%char b = true
}.

Lemma cutDigest_ok s r d :
  cutDigest s = Ok (r, d) <->
  s = r +:+ (if String.eqb d "" then "" else "@" +:+ d)
  /\ (d = "" \/ digest_ok d) /\ (d = "" -> has_byte "@"%char r = false).
Proof.
  unfold cutDigest. split.
  - destruct (CutLast s "@") as [[a b]|] eqn:E.
    + apply CutLast_Some in E as [-> Hb]. destruct (Cut b ":") as [[algo hex]|] eqn:EC; [|done].
      apply Cut_Some in EC as [-> Ha]. destruct (String.eqb_spec algo ""), (String.eqb_spec hex ""); try done. intros [= <- <-].
      destruct (String.eqb_spec (algo +:+ String ":" hex) "") as [H|_]; [by destruct algo|]. split_and!; [done| |].
      * right. exists algo, hex. by split_and!.
      * intros H. by destruct algo.
    + intros [= <- <-]. apply CutLast_None in E. simpl. rewrite string_app_nil. split_and!; [done|by left|done].
  - intros (-> & Hd & Hn). destruct (String.eqb_spec d "") as [->|Hne].
    + rewrite string_app_nil. specialize (Hn eq_refl). apply CutLast_None in Hn. by rewrite Hn.
    + destruct Hd as [->|(algo & hex & -> & Ha & Hh & Hc & Hat)]; [done|].
      assert (CutLast (r +:+ "@" +:+ algo +:+ ":" +:+ hex) "@" = Some (r, algo +:+ ":" +:+ hex)) as -> by (by apply CutLast_Some).
      assert (Cut (algo +:+ ":" +:+ hex) ":" = Some (algo, hex)) as -> by (by apply Cut_Some).
      by destruct (String.eqb_spec algo ""), (String.eqb_spec hex "").
Qed.

Lemma cutTag_ok ref s r t :
  cutTag ref s = Ok (r, t) <->
  s = r +:+ (if String.eqb t "" then "" else ":" +:+ t)
  /\ has_byte ":"%char t = false /\ has_byte "/"%char t = false
  /\ (t = "" -> forall a b, CutLast r ":"%char = Some (a, b) -> has_byte "/"%char b = true).
Proof.
  unfold cutTag. split.
  - destruct (CutLast s ":") as [[a b]|] eqn:E.
    + destruct (has_byte "/" b) eqn:Hs.
      { intros [= <- <-]. simpl. rewrite string_app_nil. split_and!; try done. intros _ a' b'. rewrite E. by intros [= <- <-]. }
      destruct (String.eqb_spec b "") as [->|Hb]; [done|]. intros [= <- <-]. apply CutLast_Some in E as [-> Hc].
      destruct (String.eqb_spec b ""); [done|]. by split_and!.
    + intros [= <- <-]. simpl. rewrite string_app_nil. split_and!; try done. intros _ a b. by rewrite E.
  - intros (-> & Hc & Hs & Hp). destruct (String.eqb_spec t "") as [->|Hne].
    + rewrite string_app_nil. destruct (CutLast r ":") as [[a b]|] eqn:E; [|done]. by rewrite (Hp eq_refl a b eq_refl).
    + assert (CutLast (r +:+ ":" +:+ t) ":" = Some (r, t)) as -> by (by apply CutLast_Some). rewrite Hs.
      by destruct (String.eqb_spec t "").
Qed.

(** Image references round trip.  What [ParseImageRef] returns is a
    well-formed reference that spells the trimmed text again, and every
    well-formed reference is read back from its text as it is: the digest
    after the last at sign, the tag only after the last slash, so a registry
    port is never taken for a tag. *)
Theorem ParseImageRef_roundtrip :
  (forall s r, ParseImageRef s = Ok r -> image_string r = TrimSpace s /\ ref_ok r)
  /\ (forall r s, ref_ok r -> TrimSpace s = image_string r -> ParseImageRef s = Ok r).
Proof.
  split.
  - intros s r. unfold ParseImageRef. destruct (String.eqb_spec (TrimSpace s) ""); [done|].
    destruct (cutDigest (TrimSpace s)) as [[r1 d]|] eqn:ED; [|done]. destruct (cutTag (TrimSpace s) r1) as [[r2 t]|] eqn:ET; [|done].
    destruct (String.eqb_spec r2 "") as [|Hr]; [done|]. intros [= <-]. apply cutDigest_ok in ED as (HD & Hd & Ha).
    apply cutTag_ok in ET as (-> & Hc & Hs & Hp). unfold image_string. simpl. split; [by rewrite HD, string_app_assoc|].
    split; simpl; try done. intros Hd0. specialize (Ha Hd0). rewrite has_byte_app in Ha. apply orb_false_iff in Ha as [H1 H2]. split; [done|].
    revert H2. clear. destruct (String.eqb_spec t "") as [->|]; done.
  - intros r s [H1 H2 H3 [H4 H5] H6] HT. unfold ParseImageRef.
    assert (String.eqb (TrimSpace s) "" = false) as ->.
    { apply String.eqb_neq. rewrite HT. unfold image_string. by destruct (Repository r). }
    assert (cutDigest (TrimSpace s) = Ok (Repository r +:+ (if String.eqb (Tag r) "" then "" else ":" +:+ Tag r), Digest r)) as ->.
    { apply cutDigest_ok. split_and!; [by rewrite HT, string_app_assoc|done|]. intros Hd. destruct (H3 Hd) as [Ha Hb].
      rewrite has_byte_app, Ha. destruct (String.eqb_spec (Tag r) ""); [done|]. by simpl. }
    assert (cutTag (TrimSpace s) (Repository r +:+ (if String.eqb (Tag r) "" then "" else ":" +:+ Tag r)) = Ok (Repository r, Tag r)) as ->.
    { by apply cutTag_ok. }
    destruct (String.eqb_spec (Repository r) ""); [done|]. by destruct r.
Qed.

(** The list [Validate] checks is the one [Build] sends, but for its order. *)
Lemma MatchesHost_selected p h : p_Arch p <> "" -> MatchesHost p h = selected p h.
Proof.
  intros Ha. unfold MatchesHost, selected, matchesSelector. destruct (String.eqb_spec (p_Arch p) ""); [done|]. simpl.
  rewrite negb_involutive, (String.eqb_sym (he_Arch h)). done.
Qed.

Lemma SelectHosts_Select p inventory : p_Arch p <> "" -> sort_strings (SelectHosts p inventory) = Select p inventory.
Proof.
  intros Ha. unfold SelectHosts, Select. do 2 f_equal. apply list_filter_iff. intros h. by rewrite MatchesHost_selected.
Qed.
