(* ===== verification/ConfigDefaults.v ===== *)
(** * internal/config/defaults.go: the documented defaults

    [ApplyDefaults] mutates the configuration it is given, section by
    section; here each function maps the section.  The host name and the
    architecture of the process are arguments. *)
From S2P Require Import Prelude GoModel ConfigTypes.

Definition DefaultCheckInterval : duration := 3 * second.
Definition DefaultOutputLimitKB : Z := 4096.
Definition DefaultConcurrencyFactor : Z := 2.
Definition DefaultProfileVCPU : Z := 2.
Definition DefaultProfileMemoryMB : Z := 2048.
Definition DefaultShell : string := "/bin/bash".
Definition DefaultBuildsDir : string := "/builds".
Definition DefaultCacheDir : string := "/cache".
Definition DefaultHelperPath : string := "/usr/local/bin/gitlab-runner-helper".
Definition DefaultUser : string := "root".
Definition DefaultReadyTimeout : duration := 60 * second.
Definition DefaultPoolManagerHealthBackoff : duration := 30 * second.
Definition DefaultPoolManagerHealthInterval : duration := 10 * second.
Definition DefaultPoolManagerHealthThreshold : Z := 3.
Definition DefaultPoolManagerEventsPoll : duration := 5 * second.
Definition DefaultClaimServingCANamespace : string := "battery-operator-system".
Definition DefaultClaimServingCAName : string := "flintlockd-ca".
Definition DefaultClaimServingCAKey : string := "serving-ca.crt".
Definition DefaultPrepareTimeout : duration := 5 * minute.
Definition DefaultGracefulKillTimeout : duration := 30 * second.
Definition DefaultTransportDeadline : duration := 30 * second.
Definition DefaultBuildkitPort : Z := 1234.
Definition DefaultGoProxyPort : Z := 3000.
Definition DefaultRegistryMirrorPort : Z := 5000.
Definition DefaultHTTPCachePort : Z := 3128.
Definition DefaultGoProxyUpstream : string := "https://proxy.golang.org".
Definition DefaultPrivateRevalidateInterval : duration := 24 * 60 * minute.
Definition DefaultRegistryUpstream : string := "https://registry-1.docker.io".
Definition DefaultHTTPCacheTTL : duration := 24 * 60 * minute.
Definition DefaultCacheVolumeDirectory : string := "/var/lib/flintlock-runner/cache".
Definition DefaultCacheVolumeSizeCap : Z := Z.shiftl 200 30.
Definition DefaultS3Region : string := "us-east-1".
Definition DefaultLogFormat : string := LogJSON.
Definition DefaultLogLevel : string := "info".
Definition DefaultListenAddress : string := ":9252".
Definition DefaultStateDir : string := "/var/lib/flintlock-runner".

(** [if x == zero { x = dflt }]. *)
Definition dfltZ (x dflt : Z) : Z := if x =? 0 then dflt else x.
Definition dfltS (x dflt : string) : string := if String.eqb x "" then dflt else x.

Section Defaults.
(** [os.Hostname] and [runtime.GOARCH]. *)
Context (hostname : result string) (GOARCH : string).

(** The sum is of machine integers. *)
Definition defaultConcurrency (profiles : list ProfileConfig) : Z :=
  int64 (DefaultConcurrencyFactor * fold_left (fun sum p => int64 (sum + ps_Size (p_Pool p))) profiles 0).

Definition applyGitLabDefaults (profiles : list ProfileConfig) (g : GitLab) : GitLab :=
  {|
     gl_URL := gl_URL g; gl_Token := gl_Token g;
     gl_Name := if String.eqb (gl_Name g) "" then match hostname with Ok h => h | Err _ => gl_Name g end else gl_Name g;
     gl_Concurrent := dfltZ (gl_Concurrent g) (defaultConcurrency profiles);
     gl_CheckInterval := dfltZ (gl_CheckInterval g) DefaultCheckInterval;
     gl_OutputLimitKB := dfltZ (gl_OutputLimitKB g) DefaultOutputLimitKB;
     gl_ShutdownTimeout := dfltZ (gl_ShutdownTimeout g) DefaultShutdownTimeout; gl_TLS := gl_TLS g;
     gl_AllowInsecure := gl_AllowInsecure g |}.

Definition applySchedulerDefaults (name : string) (s : SchedulerConfig) : SchedulerConfig :=
  {|
     sc_Namespace := dfltS (sc_Namespace s) name;
     sc_AllocationTimeout := dfltZ (sc_AllocationTimeout s) DefaultAllocationTimeout;
     sc_HostHealthInterval := dfltZ (sc_HostHealthInterval s) DefaultHostHealthInterval;
     sc_HostUnhealthyThreshold := dfltZ (sc_HostUnhealthyThreshold s) DefaultHostUnhealthyThreshold;
     sc_HostCallDeadline := dfltZ (sc_HostCallDeadline s) DefaultHostCallDeadline;
     sc_KeepOnFailure := sc_KeepOnFailure s;
     sc_KeepDuration := if sc_KeepOnFailure s && (sc_KeepDuration s =? 0) then DefaultKeepDuration else sc_KeepDuration s;
     sc_AllowDefaultForUnknownImages := sc_AllowDefaultForUnknownImages s |}.

(** The loop of [defaultArch]: the architecture shared so far. *)
Fixpoint sharedArch (shared : string) (hosts : list HostEntry) : string :=
  match hosts with
  | [] => shared
  | h :: hosts =>
      if String.eqb shared "" then sharedArch (he_Arch h) hosts
      else if negb (String.eqb (he_Arch h) shared) then ""
      else sharedArch shared hosts
  end.
Definition defaultArch (hosts : list HostEntry) : string :=
  let shared := sharedArch "" hosts in if negb (String.eqb shared "") then shared else GOARCH.

Definition applyTransportDefaults (user : string) (t : Transport) : Transport :=
  let t := t <| tr_Kind := dfltS (tr_Kind t) TransportExec |> in
  if String.eqb (tr_Kind t) TransportSSH && String.eqb (ssh_User (tr_SSH t)) ""
  then t <| tr_SSH := (tr_SSH t) <| ssh_User := user |> |> else t.

Definition nonempty {A} (l : list A) : bool := match l with [] => false | _ => true end.

Definition applyPoolDefaults (name ns : string) (ps : PoolSettings) : PoolSettings :=
  {|
     ps_Size := ps_Size ps; ps_Name := dfltS (ps_Name ps) name; ps_Namespace := dfltS (ps_Namespace ps) ns;
     ps_Strategy := dfltS (ps_Strategy ps) ReplenishImmediateOnLease; ps_MinSize := ps_MinSize ps;
     ps_CreateHooks := ps_CreateHooks ps; ps_PreLeaseHooks := ps_PreLeaseHooks ps;
     ps_HookFailurePolicy := if String.eqb (ps_HookFailurePolicy ps) "" && (nonempty (ps_CreateHooks ps) || nonempty (ps_PreLeaseHooks ps)) 
       then HookFailureDeleteAndReplace else ps_HookFailurePolicy ps;
     ps_HeartbeatInterval := dfltZ (ps_HeartbeatInterval ps) DefaultHeartbeatInterval;
     ps_HeartbeatExpiry := dfltZ (ps_HeartbeatExpiry ps) DefaultHeartbeatExpiry |}.

(** One round of the loop of [applyProfileDefaults]. *)
Definition applyProfile (arch ns : string) (p : ProfileConfig) : ProfileConfig :=
  let user := dfltS (p_User p) DefaultUser in
  {|
     p_Name := p_Name p; p_Arch := dfltS (p_Arch p) arch; p_VCPU := dfltZ (p_VCPU p) DefaultProfileVCPU;
     p_MemoryMB := dfltZ (p_MemoryMB p) DefaultProfileMemoryMB; p_Kernel := p_Kernel p; p_Initrd := p_Initrd p;
     p_RootFS := p_RootFS p; p_AdditionalVolumes := p_AdditionalVolumes p; p_Provider := p_Provider p;
     p_UserData := p_UserData p; p_Shell := dfltS (p_Shell p) DefaultShell;
     p_BuildsDir := dfltS (p_BuildsDir p) DefaultBuildsDir; p_CacheDir := dfltS (p_CacheDir p) DefaultCacheDir;
     p_HelperPath := dfltS (p_HelperPath p) DefaultHelperPath; p_Images := p_Images p;
     p_ImageGlobs := p_ImageGlobs p; p_Default := p_Default p;
     p_Transport := applyTransportDefaults user (p_Transport p); p_User := user;
     p_ReadyTimeout := dfltZ (p_ReadyTimeout p) DefaultReadyTimeout; p_HostSelector := p_HostSelector p;
     p_MaxConcurrency := p_MaxConcurrency p; p_Pool := applyPoolDefaults (p_Name p) ns (p_Pool p) |}.

Definition applyProfileDefaults (hosts : list HostEntry) (ns : string) (ps : list ProfileConfig) : list ProfileConfig :=
  match applyProfile (defaultArch hosts) ns <$> ps with
  | [p] => [p <| p_Default := true |>]
  | l => l
  end.

Definition applyClaimDefaults (k : option ClaimPools) : ClaimPools :=
  let k := default {| cl_Kubeconfig := ""; cl_Context := ""; cl_Namespace := ""; cl_HolderServiceAccount := "";
                      cl_ServingCA := {| ca_Namespace := ""; ca_Name := ""; ca_Key := "" |} |} k in
  k <| cl_ServingCA := {| ca_Namespace := dfltS (ca_Namespace (cl_ServingCA k)) DefaultClaimServingCANamespace;
                          ca_Name := dfltS (ca_Name (cl_ServingCA k)) DefaultClaimServingCAName;
                          ca_Key := dfltS (ca_Key (cl_ServingCA k)) DefaultClaimServingCAKey |} |>.

Definition applyPoolManagerDefaults (pm : PoolManagerConfig) : PoolManagerConfig :=
  let pm := {|
     pm_Backend := pm_Backend pm; pm_Claim := pm_Claim pm; pm_Endpoint := pm_Endpoint pm; pm_TLS := pm_TLS pm;
     pm_Deadline := dfltZ (pm_Deadline pm) DefaultPoolManagerDeadline;
     pm_HealthBackoff := dfltZ (pm_HealthBackoff pm) DefaultPoolManagerHealthBackoff;
     pm_HealthInterval := dfltZ (pm_HealthInterval pm) DefaultPoolManagerHealthInterval;
     pm_HealthFailureThreshold := dfltZ (pm_HealthFailureThreshold pm) DefaultPoolManagerHealthThreshold;
     pm_EventsPollInterval := dfltZ (pm_EventsPollInterval pm) DefaultPoolManagerEventsPoll;
     pm_DeclareRetryInterval := dfltZ (pm_DeclareRetryInterval pm) DefaultPoolManagerDeclareRetry;
     pm_ReleaseRetryLimit := dfltZ (pm_ReleaseRetryLimit pm) DefaultPoolManagerReleaseRetry |} in
  if IsClaim pm then pm <| pm_Claim := Some (applyClaimDefaults (pm_Claim pm)) |> else pm.

Definition applyExecutorDefaults (e : ExecutorConfig) : ExecutorConfig :=
  {| ex_PrepareTimeout := dfltZ (ex_PrepareTimeout e) DefaultPrepareTimeout;
     ex_GracefulKillTimeout := dfltZ (ex_GracefulKillTimeout e) DefaultGracefulKillTimeout;
     ex_TransportDeadline := dfltZ (ex_TransportDeadline e) DefaultTransportDeadline |}.

Definition applyServiceDefaults (port : Z) (s : Service) : Service :=
  {| svc_Enabled := Some (default true (svc_Enabled s)); svc_Port := dfltZ (svc_Port s) port |}.

Definition applyHostServicesDefaults (hs : HostServices) : HostServices :=
  {| hs_Buildkit := (hs_Buildkit hs) <| bk_Service := applyServiceDefaults DefaultBuildkitPort (bk_Service (hs_Buildkit hs)) |>;
     hs_GoProxy :=
       let g := hs_GoProxy hs in
       {|
     gp_Service := applyServiceDefaults DefaultGoProxyPort (gp_Service g);
     gp_Upstream := dfltS (gp_Upstream g) DefaultGoProxyUpstream; gp_PrivatePatterns := gp_PrivatePatterns g;
     gp_PrivateVCSHost := gp_PrivateVCSHost g; gp_CredentialParameter := gp_CredentialParameter g;
     
     gp_PrivateRevalidateInterval :=
       if nonempty (gp_PrivatePatterns g) && (gp_PrivateRevalidateInterval g =? 0)
       then DefaultPrivateRevalidateInterval else gp_PrivateRevalidateInterval g;
     gp_StorageLimit := gp_StorageLimit g;
     gp_Prewarm := gp_Prewarm g |};
     hs_RegistryMirror :=
       let r := hs_RegistryMirror hs in
       r <| rm_Service := applyServiceDefaults DefaultRegistryMirrorPort (rm_Service r) |>
         <| rm_Upstreams := if nonempty (rm_Upstreams r) then rm_Upstreams r
                            else [{| ru_URL := DefaultRegistryUpstream; ru_CredentialParameter := "" |}] |>;
     hs_HTTPCache :=
       let h := hs_HTTPCache hs in
       h <| hc_Service := applyServiceDefaults DefaultHTTPCachePort (hc_Service h) |>
         <| hc_Upstreams := (fun u => u <| hu_TTL := dfltZ (hu_TTL u) DefaultHTTPCacheTTL |>) <$> hc_Upstreams h |>;
     hs_CacheVolume :=
       let cv := hs_CacheVolume hs in
       cv <| cv_Directory := if String.eqb (cv_Device cv) "" && String.eqb (cv_Directory cv) ""
                             then DefaultCacheVolumeDirectory else cv_Directory cv |>
          <| cv_SizeCap := dfltZ (cv_SizeCap cv) DefaultCacheVolumeSizeCap |> |}.

Definition applyDistributedCacheDefaults (dc : DistributedCache) : DistributedCache :=
  if String.eqb (dc_Region dc) "" && negb (String.eqb (dc_Endpoint dc) "") then dc <| dc_Region := DefaultS3Region |> else dc.

Definition applyObservabilityDefaults (o : Observability) : Observability :=
  {| ob_LogFormat := dfltS (ob_LogFormat o) DefaultLogFormat; ob_LogLevel := dfltS (ob_LogLevel o) DefaultLogLevel;
     ob_ListenAddress := dfltS (ob_ListenAddress o) DefaultListenAddress |}.

Definition ApplyDefaults (c : Config) : Config :=
  let gl := applyGitLabDefaults (c_Profiles c) (c_GitLab c) in
  let sc := applySchedulerDefaults (gl_Name gl) (c_Scheduler c) in
  {| c_GitLab := gl; c_Profiles := applyProfileDefaults (inv_Hosts (c_Inventory c)) (sc_Namespace sc) (c_Profiles c);
     c_Inventory := c_Inventory c; c_PoolManager := applyPoolManagerDefaults (c_PoolManager c); c_Scheduler := sc;
     c_Executor := applyExecutorDefaults (c_Executor c); c_HostServices := applyHostServicesDefaults (c_HostServices c);
     c_DistributedCache := applyDistributedCacheDefaults <$> c_DistributedCache c;
     c_Observability := applyObservabilityDefaults (c_Observability c); c_StateDir := dfltS (c_StateDir c) DefaultStateDir |}.

(** ** Laws *)
Lemma dfltZ_idem x d : dfltZ (dfltZ x d) d = dfltZ x d.
Proof. unfold dfltZ. destruct (Z.eqb_spec x 0) as [->|]; [by destruct (d =? 0)|]. by destruct (Z.eqb_spec x 0). Qed.
Lemma dfltS_idem x d : dfltS (dfltS x d) d = dfltS x d.
Proof. unfold dfltS. destruct (String.eqb x "") eqn:E; [by destruct (String.eqb d "")|]. by rewrite E. Qed.

Create HintDb defaults_db.
Hint Rewrite dfltZ_idem dfltS_idem : defaults_db.

Lemma applyGitLab_idem ps ps' g : (ps_Size ∘ p_Pool) <$> ps' = (ps_Size ∘ p_Pool) <$> ps ->
  applyGitLabDefaults ps' (applyGitLabDefaults ps g) = applyGitLabDefaults ps g.
Proof.
  intros Hs. assert (defaultConcurrency ps' = defaultConcurrency ps) as Hc.
  { unfold defaultConcurrency. do 2 f_equal. generalize 0. revert ps Hs. induction ps' as [|p ps' IH]; intros [|q ps] Hs z; try done.
    rewrite !fmap_cons in Hs. injection Hs as H1 H2. cbn [fold_left]. simpl in H1. rewrite H1. by apply IH. }
  unfold applyGitLabDefaults. rec_simpl. rewrite Hc, !dfltZ_idem. f_equal.
  destruct (String.eqb (gl_Name g) "") eqn:E; [|by rewrite E]. destruct hostname as [h|]; [|by rewrite E]. by destruct (String.eqb h "").
Qed.

Lemma applyScheduler_idem n n' s : (sc_Namespace s = "" -> n' = n) -> applySchedulerDefaults n' (applySchedulerDefaults n s) = applySchedulerDefaults n s.
Proof.
  intros Hn. unfold applySchedulerDefaults. rec_simpl. rewrite !dfltZ_idem. f_equal.
  - unfold dfltS. destruct (String.eqb_spec (sc_Namespace s) "") as [E|E].
    + rewrite (Hn E). by destruct (String.eqb n "").
    + by destruct (String.eqb_spec (sc_Namespace s) "").
  - destruct (sc_KeepOnFailure s); [|done]. simpl. by destruct (sc_KeepDuration s =? 0) eqn:E; simpl; rewrite ?E.
Qed.

Lemma applyTransport_idem u t : applyTransportDefaults u (applyTransportDefaults u t) = applyTransportDefaults u t.
Proof.
  unfold applyTransportDefaults. destruct t as [k [us pk kh]]. rec_simpl. set (k1 := dfltS k TransportExec).
  assert (dfltS k1 TransportExec = k1) as Hk by apply dfltS_idem.
  destruct (String.eqb k1 TransportSSH) eqn:E1, (String.eqb us "") eqn:E2; simpl; rewrite Hk, ?E1, ?E2; simpl; try done.
  by destruct (String.eqb u "").
Qed.

Lemma applyPool_idem n ns ps : applyPoolDefaults n ns (applyPoolDefaults n ns ps) = applyPoolDefaults n ns ps.
Proof.
  unfold applyPoolDefaults. rec_simpl. rewrite !dfltZ_idem, !dfltS_idem. f_equal.
  destruct (String.eqb (ps_HookFailurePolicy ps) "") eqn:E; simpl; [|by rewrite E].
  destruct (_ || _); simpl; [done|by rewrite andb_false_r].
Qed.

Lemma applyProfile_idem a ns p : applyProfile a ns (applyProfile a ns p) = applyProfile a ns p.
Proof.
  unfold applyProfile. rec_simpl. by rewrite !dfltZ_idem, !dfltS_idem, applyTransport_idem, applyPool_idem.
Qed.
Lemma applyProfile_default a ns p b : applyProfile a ns (p <| p_Default := b |>) = (applyProfile a ns p) <| p_Default := b |>.
Proof. done. Qed.

Lemma applyProfiles_idem hosts ns ps : applyProfileDefaults hosts ns (applyProfileDefaults hosts ns ps) = applyProfileDefaults hosts ns ps.
Proof.
  unfold applyProfileDefaults. destruct ps as [|p [|q ps]]; [done| |]; cbn [fmap list_fmap].
  - by rewrite applyProfile_default, applyProfile_idem.
  - rewrite !applyProfile_idem. do 2 f_equal. rewrite <-list_fmap_compose. apply list_fmap_ext. intros _ x _. apply applyProfile_idem.
Qed.

Lemma applyProfiles_sizes hosts ns ps : (ps_Size ∘ p_Pool) <$> applyProfileDefaults hosts ns ps = (ps_Size ∘ p_Pool) <$> ps.
Proof.
  unfold applyProfileDefaults. destruct ps as [|p [|q ps]]; [done..|]. cbn [fmap list_fmap]. do 2 f_equal.
  rewrite <-list_fmap_compose. by apply list_fmap_ext.
Qed.

Lemma applyClaim_idem k : applyClaimDefaults (Some (applyClaimDefaults k)) = applyClaimDefaults k.
Proof. unfold applyClaimDefaults. rec_simpl. by rewrite !dfltS_idem. Qed.

Lemma applyPoolManager_idem pm : applyPoolManagerDefaults (applyPoolManagerDefaults pm) = applyPoolManagerDefaults pm.
Proof.
  unfold applyPoolManagerDefaults, IsClaim. cbv zeta. cbn [pm_Backend]. destruct (String.eqb (pm_Backend pm) PoolBackendClaim) eqn:E;
    rec_simpl; rewrite E; rec_simpl; by rewrite !dfltZ_idem, ?applyClaim_idem.
Qed.

Lemma applyService_idem port s : applyServiceDefaults port (applyServiceDefaults port s) = applyServiceDefaults port s.
Proof. unfold applyServiceDefaults. simpl. by rewrite dfltZ_idem. Qed.

Lemma applyHostServices_idem hs : applyHostServicesDefaults (applyHostServicesDefaults hs) = applyHostServicesDefaults hs.
Proof.
  unfold applyHostServicesDefaults. rec_simpl. rewrite !applyService_idem, !dfltZ_idem, !dfltS_idem. f_equal.
  - f_equal. destruct (nonempty (gp_PrivatePatterns (hs_GoProxy hs))); [|done]. simpl.
    by destruct (gp_PrivateRevalidateInterval (hs_GoProxy hs) =? 0) eqn:E; simpl; rewrite ?E.
  - f_equal. by destruct (rm_Upstreams (hs_RegistryMirror hs)).
  - f_equal. rewrite <-list_fmap_compose. apply list_fmap_ext. intros _ u _. simpl. by rewrite dfltZ_idem.
  - f_equal. destruct (String.eqb (cv_Device (hs_CacheVolume hs)) "") eqn:E; [|done]. simpl.
    by destruct (String.eqb (cv_Directory (hs_CacheVolume hs)) "") eqn:E2; simpl; rewrite ?E2.
Qed.

Lemma applyDistributedCache_idem dc : applyDistributedCacheDefaults (applyDistributedCacheDefaults dc) = applyDistributedCacheDefaults dc.
Proof.
  unfold applyDistributedCacheDefaults. destruct dc as [b r pf e ins]. rec_simpl.
  by destruct (String.eqb r "") eqn:E1, (String.eqb e "") eqn:E2; simpl; rewrite ?E1, ?E2.
Qed.

(** The defaults.  [ApplyDefaults] is idempotent, whatever the host name
    and the architecture of the process are; it touches neither the Inventory
    nor any value the configuration has to supply: the GitLab URL and token,
    the Pool Manager endpoint, the names, images and Pool sizes of the
    Profiles. *)
Theorem ApplyDefaults_idempotent c :
  ApplyDefaults (ApplyDefaults c) = ApplyDefaults c
  /\ c_Inventory (ApplyDefaults c) = c_Inventory c
  /\ gl_URL (c_GitLab (ApplyDefaults c)) = gl_URL (c_GitLab c) /\ gl_Token (c_GitLab (ApplyDefaults c)) = gl_Token (c_GitLab c)
  /\ pm_Endpoint (c_PoolManager (ApplyDefaults c)) = pm_Endpoint (c_PoolManager c)
  /\ (fun p => (p_Name p, k_Image (p_Kernel p), p_RootFS p, ps_Size (p_Pool p))) <$> c_Profiles (ApplyDefaults c)
     = (fun p => (p_Name p, k_Image (p_Kernel p), p_RootFS p, ps_Size (p_Pool p))) <$> c_Profiles c.
Proof.
  split_and!; try done.
  - unfold ApplyDefaults. cbv zeta. cbn [c_GitLab c_Profiles c_Inventory c_PoolManager c_Scheduler c_Executor c_HostServices c_DistributedCache c_Observability c_StateDir].
    rewrite applyGitLab_idem by apply applyProfiles_sizes. rewrite applyScheduler_idem by done.
    rewrite applyProfiles_idem, applyPoolManager_idem, applyHostServices_idem, dfltS_idem. f_equal.
    + unfold applyExecutorDefaults. cbn [ex_PrepareTimeout ex_GracefulKillTimeout ex_TransportDeadline]. by rewrite !dfltZ_idem.
    + destruct (c_DistributedCache c); [|done]. cbn [fmap option_fmap option_map]. f_equal. apply applyDistributedCache_idem.
    + unfold applyObservabilityDefaults. cbn [ob_LogFormat ob_LogLevel ob_ListenAddress]. by rewrite !dfltS_idem.
  - unfold ApplyDefaults, applyPoolManagerDefaults. cbv zeta. cbn [c_PoolManager]. by destruct (IsClaim _).
  - unfold ApplyDefaults, applyProfileDefaults. cbn [c_Profiles]. destruct (c_Profiles c) as [|p [|q ps]]; [done..|].
    cbn [fmap list_fmap]. do 2 f_equal. rewrite <-list_fmap_compose. by apply list_fmap_ext.
Qed.
End Defaults.
