(* ===== verification/ConfigValidate.v ===== *)
(** * internal/config/validate.go: the rules of the configuration

    The validator collects field errors in schema order; here each method
    returns the errors it appends.  The maps that find duplicates are
    threaded through the loops.  The text of a reason is abbreviated.  A range
    over a map only ever appends one error per bad key. *)
From S2P Require Import Prelude GoModel ConfigTypes Base64 Spec PathMatch GoStrings ConfigImage.
From Stdlib Require Import Ascii.

Record FieldError := { fe_Field : string; fe_Reason : string }.
Definition errorf (field reason : string) : list FieldError := [{| fe_Field := field; fe_Reason := reason |}].
Definition when (b : bool) (l : list FieldError) : list FieldError := if b then l else [].

(** ** The checks of one value *)
(** The boolean [required] returns. *)
Definition present (value : string) : bool := negb (TrimSpace_empty value).
Definition required (field value : string) : list FieldError := when (negb (present value)) (errorf field "is required").
Definition positive (field : string) (d : Z) : list FieldError := when (d <=? 0) (errorf field "must be positive").
Definition nonNegative (field : string) (d : Z) : list FieldError := when (d <? 0) (errorf field "must not be negative").
Definition port (field : string) (p : Z) : list FieldError :=
  when ((p <? 1) || (65535 <? p)) (errorf field "must be a port between 1 and 65535").

Definition normaliseHostPort (addr : string) : string :=
  match SplitHostPort addr with
  | None => addr
  | Some (host, p) => match Atoi p with None => addr | Some n => JoinHostPort host (Itoa n) end
  end.

Definition hostPort (field addr : string) : list FieldError :=
  if negb (present addr) then required field addr
  else if Contains addr "://" then errorf field "must be host:port without a scheme"
  else match SplitHostPort addr with
       | Some (host, p) => when (String.eqb host "" || String.eqb p "") (errorf field "must be host:port")
       | None => errorf field "must be host:port"
       end.

(** [url.Parse], as far as the code reads its result. *)
Record URL := { u_Scheme : string; u_Host : string; u_Path : string }.

Definition clientTLS (field : string) (t : ClientTLS) : list FieldError :=
  when (negb (Bool.eqb (String.eqb (tls_CertFile t) "") (String.eqb (tls_KeyFile t) "")))
    (errorf field "cert_file and key_file have to be set together")
  ++ when (tls_Insecure t && (negb (String.eqb (tls_CAFile t) "") || negb (String.eqb (tls_CertFile t) "")))
    (errorf field "insecure cannot be combined with TLS material").

Definition arch_ok (a : string) : bool := String.eqb a ArchAMD64 || String.eqb a ArchARM64.
Definition arch (field a : string) : list FieldError :=
  if arch_ok a then []
  else if String.eqb a "" then errorf field "is required (amd64 or arm64)" else errorf field "must be amd64 or arm64".

Definition absPath (field p : string) : list FieldError :=
  if negb (present p) then required field p else when (negb (HasPrefix p "/")) (errorf field "must be an absolute path").

(** [if j, dup := seen[k]; dup { error } else { seen[k] = i }]. *)
Definition unique (field what k : string) (i : Z) (seen : gmap string Z) : list FieldError * gmap string Z :=
  match seen !! k with
  | Some j => (errorf field ("duplicates " +:+ what +:+ " of " +:+ pretty j), seen)
  | None => ([], <[k := i]> seen)
  end.

(** The regular expressions, as recognisers. *)
Definition lower_alnum (c : Ascii.ascii) : bool :=
  let n := byte_of c in ((97 <=? n) && (n <=? 122)) || ((48 <=? n) && (n <=? 57)).
Definition upper (c : Ascii.ascii) : bool := let n := byte_of c in (65 <=? n) && (n <=? 90).
Definition label_shape (s : list Ascii.ascii) : bool :=
  match s with
  | [] => false
  | c :: _ => lower_alnum c && default false (lower_alnum <$> last s) && forallb (fun c => lower_alnum c || Ascii.eqb c "-"%char) s
  end.
Definition dnsLabel (s : string) : bool :=
  label_shape (String.list_ascii_of_string s) && (String.length s <=? 63)%nat.
(** The dot-separated parts. *)
Fixpoint dot_parts (s : list Ascii.ascii) : list (list Ascii.ascii) :=
  match s with
  | [] => [[]]
  | c :: s => if Ascii.eqb c "."%char then [] :: dot_parts s
              else match dot_parts s with p :: ps => (c :: p) :: ps | [] => [[c]] end
  end.
Definition dnsSubdomain (s : string) : bool := forallb label_shape (dot_parts (String.list_ascii_of_string s)).
Definition configMapKey (s : string) : bool :=
  match s with
  | EmptyString => false
  | _ => forallb (fun c => lower_alnum c || upper c || existsb (Ascii.eqb c) ["-"%char; "."%char; "_"%char]) (String.list_ascii_of_string s)
  end.
Definition envVarName (s : string) : bool :=
  match String.list_ascii_of_string s with
  | [] => false
  | c :: l =>
      let letter c := (lower_alnum c && negb (bool_decide (is_Some (digit c)))) || upper c || Ascii.eqb c "_"%char in
      letter c && forallb (fun c => lower_alnum c || upper c || Ascii.eqb c "_"%char) l
  end.

Definition blank_keys (field reason : string) (m : gmap string string) : list FieldError :=
  concat ((fun kv => when (TrimSpace_empty kv.1) (errorf field reason)) <$> map_to_list m).

(** ** Profiles *)
Definition imageError (img : profileImage) : list FieldError :=
  if negb (present (img_ref img)) then required (img_field img) (img_ref img)
  else match ParseImageRef (img_ref img) with
       | Err _ => errorf (img_field img) "malformed image reference"
       | Ok r => when (negb (Pinned r)) (errorf (img_field img) "is specified by neither a digest nor a tag")
       end.

Definition profileImages (f : string) (p : ProfileConfig) : list FieldError :=
  concat (imageError <$> images p f)
  ++ concat (imap (fun i vol =>
       let vf := indexed (f +:+ ".additional_volumes") i in
       required (vf +:+ ".id") (v_ID vol)
       ++ when (negb (String.eqb (v_MountPoint vol) "")) (absPath (vf +:+ ".mount_point") (v_MountPoint vol))
       ++ nonNegative (vf +:+ ".size_mb") (v_SizeMB vol)) (p_AdditionalVolumes p)).

(** The loop over a Profile's image names; [i] is the Profile's index. *)
Fixpoint imageNames (f : string) (k : nat) (i : Z) (names : list string) (seen : gmap string Z) : list FieldError * gmap string Z :=
  match names with
  | [] => ([], seen)
  | name :: names =>
      let nf := indexed (f +:+ ".images") k in
      let '(e, seen) := if present name then unique nf "image name" name i seen else (required nf name, seen) in
      let '(es, seen) := imageNames f (S k) i names seen in (e ++ es, seen)
  end.

(** [path.Match(glob, "")] reports a bad pattern. *)
Definition bad_glob (g : string) : bool :=
  match parse (S (length (bytes_of g))) (bytes_of g) false [] [] with Some _ => false | None => true end.

Definition profileOptional (f : string) (p : ProfileConfig) (i : Z) (seen : gmap string Z) : list FieldError * gmap string Z :=
  let '(es, seen) := imageNames f 0 i (p_Images p) seen in
  (es
   ++ concat (imap (fun k g =>
        let gf := indexed (f +:+ ".image_globs") k in
        if negb (present g) then required gf g else when (bad_glob g) (errorf gf "bad glob pattern")) (p_ImageGlobs p))
   ++ blank_keys (f +:+ ".kernel.cmdline") "keys must not be empty" (k_Cmdline (p_Kernel p))
   ++ required (f +:+ ".user") (p_User p)
   ++ positive (f +:+ ".ready_timeout") (p_ReadyTimeout p)
   ++ blank_keys (f +:+ ".host_selector") "label keys must not be empty" (p_HostSelector p)
   ++ nonNegative (f +:+ ".max_concurrency") (p_MaxConcurrency p), seen).

Definition profileTransport (f : string) (p : ProfileConfig) (pm : PoolManagerConfig) : list FieldError :=
  let field := f +:+ ".transport.kind" in
  let kind := tr_Kind (p_Transport p) in
  if String.eqb kind TransportExec || String.eqb kind TransportSSH then
    if String.eqb kind TransportSSH && IsClaim pm then errorf field "must be exec with the claim backend"
    else when (String.eqb kind TransportSSH)
           (required (f +:+ ".transport.ssh.private_key_file") (ssh_PrivateKeyFile (tr_SSH (p_Transport p)))
            ++ required (f +:+ ".transport.ssh.user") (ssh_User (tr_SSH (p_Transport p))))
  else if String.eqb kind "" then errorf field "is required (exec or ssh)" else errorf field "must be exec or ssh".

Definition strategyErrors (f : string) (ps : PoolSettings) : list FieldError :=
  if String.eqb (ps_Strategy ps) ReplenishImmediateOnLease || String.eqb (ps_Strategy ps) ReplenishReplaceOnDelete then []
  else if String.eqb (ps_Strategy ps) ReplenishMinSizeThreshold
  then match ps_MinSize ps with None => errorf (f +:+ ".min_size") "is required for the min_size_threshold strategy" | Some _ => [] end
  else if String.eqb (ps_Strategy ps) "" then errorf (f +:+ ".strategy") "is required" else errorf (f +:+ ".strategy") "must be a strategy".

Definition policy_known (p : string) : bool :=
  String.eqb p "" || String.eqb p HookFailureDeleteAndReplace || String.eqb p HookFailureQuarantine.

Definition poolSettings (f : string) (ps : PoolSettings) : list FieldError :=
  positive (f +:+ ".size") (ps_Size ps)
  ++ required (f +:+ ".name") (ps_Name ps)
  ++ required (f +:+ ".namespace") (ps_Namespace ps)
  ++ strategyErrors f ps
  ++ match ps_MinSize ps with
     | None => []
     | Some m => if m <? 0 then errorf (f +:+ ".min_size") "must not be negative"
                 else when (ps_Size ps <? m) (errorf (f +:+ ".min_size") "must not exceed size")
     end
  ++ concat (imap (fun i h => required (indexed (f +:+ ".create_hooks") i) h) (ps_CreateHooks ps))
  ++ concat (imap (fun i h => required (indexed (f +:+ ".pre_lease_hooks") i) h) (ps_PreLeaseHooks ps))
  ++ when (negb (policy_known (ps_HookFailurePolicy ps))) (errorf (f +:+ ".hook_failure_policy") "must be a policy")
  ++ positive (f +:+ ".heartbeat_interval") (ps_HeartbeatInterval ps)
  ++ positive (f +:+ ".heartbeat_expiry") (ps_HeartbeatExpiry ps)
  ++ when ((0 <? ps_HeartbeatInterval ps) && (0 <? ps_HeartbeatExpiry ps) && (ps_HeartbeatExpiry ps <=? ps_HeartbeatInterval ps))
       (errorf (f +:+ ".heartbeat_expiry") "must be longer than heartbeat_interval").

(** The maps and the count the loop over the Profiles keeps. *)
Record profilesSeen := { seen_names : gmap string Z; seen_images : gmap string Z; seen_pools : gmap string Z; seen_defaults : Z }.

(** The key is the pair of namespace and name, joined by a slash. *)
Definition poolKey (p : ProfileConfig) : string := ps_Namespace (p_Pool p) +:+ "/" +:+ ps_Name (p_Pool p).

Definition profileErrors (c : Config) (i : nat) (p : ProfileConfig) (s : profilesSeen) : list FieldError * profilesSeen :=
  let f := indexed "profiles" i in
  let '(e1, names) := if present (p_Name p) then unique (f +:+ ".name") "name" (p_Name p) (Z.of_nat i) (seen_names s)
                      else (required (f +:+ ".name") (p_Name p), seen_names s) in
  let '(e2, imgs) := profileOptional f p (Z.of_nat i) (seen_images s) in
  let '(e3, pools) := unique (f +:+ ".pool") "pool" (poolKey p) (Z.of_nat i) (seen_pools s) in
  (e1
   ++ arch (f +:+ ".arch") (p_Arch p) ++ positive (f +:+ ".vcpu") (p_VCPU p) ++ positive (f +:+ ".memory_mb") (p_MemoryMB p)
   ++ profileImages f p
   ++ absPath (f +:+ ".shell") (p_Shell p) ++ absPath (f +:+ ".builds_dir") (p_BuildsDir p)
   ++ absPath (f +:+ ".cache_dir") (p_CacheDir p) ++ absPath (f +:+ ".helper_path") (p_HelperPath p)
   ++ e2 ++ profileTransport f p (c_PoolManager c)
   ++ poolSettings (f +:+ ".pool") (p_Pool p)
   ++ e3
   ++ when (negb (String.eqb (p_Arch p) "") && (match inv_Hosts (c_Inventory c) with [] => false | _ => true end)
            && (match SelectHosts p (inv_Hosts (c_Inventory c)) with [] => true | _ => false end))
        (errorf (f +:+ ".host_selector") "matches no Inventory Host"),
   {| seen_names := names; seen_images := imgs; seen_pools := pools;
      seen_defaults := if p_Default p then seen_defaults s + 1 else seen_defaults s |}).

Fixpoint profilesLoop (c : Config) (i : nat) (ps : list ProfileConfig) (s : profilesSeen) : list FieldError * profilesSeen :=
  match ps with
  | [] => ([], s)
  | p :: ps =>
      let '(e, s) := profileErrors c i p s in
      let '(es, s) := profilesLoop c (S i) ps s in (e ++ es, s)
  end.

Definition profiles (c : Config) : list FieldError :=
  match c_Profiles c with
  | [] => errorf "profiles" "at least one Profile is required"
  | ps =>
      let '(es, s) := profilesLoop c 0 ps {| seen_names := ∅; seen_images := ∅; seen_pools := ∅; seen_defaults := 0 |} in
      es ++ when (1 <? seen_defaults s) (errorf "profiles" "at most one Profile may be marked default")
  end.

(** ** Inventory *)
(** The characters of [strings.ContainsAny(name, " \t\n/")]. *)
Definition whitespace_or_slash : string := " /" +:+ String "009"%char (String "010"%char "").
Record hostsSeen := { seen_hosts : gmap string Z; seen_endpoints : gmap string Z }.

Definition hostErrors (c : Config) (i : nat) (h : HostEntry) (s : hostsSeen) : list FieldError * hostsSeen :=
  let f := indexed "inventory.hosts" i in
  let '(e1, names) :=
    if present (he_Name h) then
      let '(e, seen) := unique (f +:+ ".name") "name" (he_Name h) (Z.of_nat i) (seen_hosts s) in
      (when (ContainsAny (he_Name h) whitespace_or_slash) (errorf (f +:+ ".name") "must not have whitespace or slashes") ++ e, seen)
    else (required (f +:+ ".name") (he_Name h), seen_hosts s) in
  let '(e2, endpoints) :=
    if String.eqb (he_Endpoint h) "" then ([], seen_endpoints s)
    else unique (f +:+ ".endpoint") "endpoint" (normaliseHostPort (he_Endpoint h)) (Z.of_nat i) (seen_endpoints s) in
  (e1 ++ hostPort (f +:+ ".endpoint") (he_Endpoint h) ++ e2
   ++ arch (f +:+ ".arch") (he_Arch h) ++ positive (f +:+ ".vcpu") (he_VCPU h) ++ positive (f +:+ ".memory_mb") (he_MemoryMB h)
   ++ blank_keys (f +:+ ".labels") "label keys must not be empty" (he_Labels h)
   ++ clientTLS (f +:+ ".tls") (he_TLS h)
   ++ concat ((fun kv => when (negb (existsb (fun u => String.eqb (hu_Name u) kv.1) (hc_Upstreams (hs_HTTPCache (c_HostServices c)))))
        (errorf (f +:+ ".services.http_cache") "names an HTTP cache upstream that is not declared")) <$> map_to_list (sa_HTTPCache (he_Services h))),
   {| seen_hosts := names; seen_endpoints := endpoints |}).

Fixpoint hostsLoop (c : Config) (i : nat) (hs : list HostEntry) (s : hostsSeen) : list FieldError :=
  match hs with
  | [] => []
  | h :: hs => let '(e, s) := hostErrors c i h s in e ++ hostsLoop c (S i) hs s
  end.

Definition inventory (c : Config) : list FieldError :=
  if IsClaim (c_PoolManager c) then
    match inv_Hosts (c_Inventory c) with [] => [] | _ => errorf "inventory" "is not read with the claim backend" end
  else match inv_Hosts (c_Inventory c) with
       | [] => errorf "inventory" "at least one Host is required"
       | hs => hostsLoop c 0 hs {| seen_hosts := ∅; seen_endpoints := ∅ |}
       end.

(** ** Pool Manager *)
Definition claimPools (k : option ClaimPools) : list FieldError :=
  let f := "pool_manager.claim" in
  match k with
  | None => errorf (f +:+ ".holder_service_account") "is required with the claim backend"
  | Some k =>
      let sub field v what := if present v then when ((253 <? String.length v)%nat || negb (dnsSubdomain v)) (errorf field what) else required field v in
      (if negb (String.eqb (cl_Kubeconfig k) "") then absPath (f +:+ ".kubeconfig") (cl_Kubeconfig k)
       else when (negb (String.eqb (cl_Context k) "")) (errorf (f +:+ ".context") "needs a kubeconfig"))
      ++ when (negb (String.eqb (cl_Namespace k) "") && negb (dnsLabel (cl_Namespace k))) (errorf (f +:+ ".namespace") "must be a namespace name")
      ++ sub (f +:+ ".holder_service_account") (cl_HolderServiceAccount k) "must be a ServiceAccount name"
      ++ (let v := ca_Namespace (cl_ServingCA k) in
          if present v then when (negb (dnsLabel v)) (errorf (f +:+ ".serving_ca.namespace") "must be a namespace name")
          else required (f +:+ ".serving_ca.namespace") v)
      ++ sub (f +:+ ".serving_ca.name") (ca_Name (cl_ServingCA k)) "must be a ConfigMap name"
      ++ (let v := ca_Key (cl_ServingCA k) in
          if present v then when ((253 <? String.length v)%nat || negb (configMapKey v)) (errorf (f +:+ ".serving_ca.key") "must be a ConfigMap key")
          else required (f +:+ ".serving_ca.key") v)
  end.

Definition poolManager (pm : PoolManagerConfig) : list FieldError :=
  (if String.eqb (pm_Backend pm) "" || String.eqb (pm_Backend pm) PoolBackendBattery
   then when (bool_decide (is_Some (pm_Claim pm))) (errorf "pool_manager.claim" "is only read with the claim backend")
   else if String.eqb (pm_Backend pm) PoolBackendClaim then claimPools (pm_Claim pm)
   else errorf "pool_manager.backend" "must be battery or claim")
  ++ (if present (pm_Endpoint pm) then hostPort "pool_manager.endpoint" (pm_Endpoint pm)
      else when (negb (IsClaim pm)) (errorf "pool_manager.endpoint" "is required"))
  ++ clientTLS "pool_manager.tls" (pm_TLS pm)
  ++ positive "pool_manager.deadline" (pm_Deadline pm)
  ++ positive "pool_manager.health_backoff" (pm_HealthBackoff pm)
  ++ positive "pool_manager.health_interval" (pm_HealthInterval pm)
  ++ positive "pool_manager.health_failure_threshold" (pm_HealthFailureThreshold pm)
  ++ positive "pool_manager.events_poll_interval" (pm_EventsPollInterval pm)
  ++ positive "pool_manager.declare_retry_interval" (pm_DeclareRetryInterval pm)
  ++ nonNegative "pool_manager.release_retry_limit" (pm_ReleaseRetryLimit pm).

(** ** Scheduler, Executor *)
Definition scheduler (s : SchedulerConfig) : list FieldError :=
  (if present (sc_Namespace s) then when (ContainsAny (sc_Namespace s) whitespace_or_slash) (errorf "scheduler.namespace" "must not contain whitespace or slashes")
   else required "scheduler.namespace" (sc_Namespace s))
  ++ positive "scheduler.allocation_timeout" (sc_AllocationTimeout s)
  ++ positive "scheduler.host_health_interval" (sc_HostHealthInterval s)
  ++ positive "scheduler.host_unhealthy_threshold" (sc_HostUnhealthyThreshold s)
  ++ positive "scheduler.host_call_deadline" (sc_HostCallDeadline s)
  ++ (if sc_KeepOnFailure s then positive "scheduler.keep_duration" (sc_KeepDuration s)
      else nonNegative "scheduler.keep_duration" (sc_KeepDuration s)).

Definition executor (e : ExecutorConfig) : list FieldError :=
  positive "executor.prepare_timeout" (ex_PrepareTimeout e)
  ++ positive "executor.graceful_kill_timeout" (ex_GracefulKillTimeout e)
  ++ positive "executor.transport_deadline" (ex_TransportDeadline e).

(** ** Host services *)
(** The loop over the services' ports; [ports] says who uses a port. *)
Fixpoint servicePorts (svcs : list (string * Service)) (ports : gmap Z string) : list FieldError :=
  match svcs with
  | [] => []
  | (name, s) :: svcs =>
      let f := "host_services." +:+ name +:+ ".port" in
      port f (svc_Port s)
      ++ (if negb (IsEnabled s) then servicePorts svcs ports
          else match ports !! svc_Port s with
               | Some other => errorf f ("is also used by " +:+ other) ++ servicePorts svcs ports
               | None => servicePorts svcs (<[svc_Port s := name]> ports)
               end)
  end.

Definition services (hs : HostServices) : list (string * Service) :=
  [("buildkit", bk_Service (hs_Buildkit hs)); ("go_proxy", gp_Service (hs_GoProxy hs));
   ("registry_mirror", rm_Service (hs_RegistryMirror hs)); ("http_cache", hc_Service (hs_HTTPCache hs))].

Definition buildkit (b : Buildkit) : list FieldError :=
  when (bk_StorageLimit b <? 0) (errorf "host_services.buildkit.storage_limit" "must not be negative")
  ++ when (negb (String.eqb (bk_GCPolicy b) "") && negb (IsEnabled (bk_Service b))) (errorf "host_services.buildkit.gc_policy" "is set but buildkit is disabled").

(** [limits], a sum of machine integers. *)
Definition storageLimits (hs : HostServices) : Z :=
  let add (on : bool) (x acc : Z) := if on then int64 (acc + x) else acc in
  let l := add (IsEnabled (bk_Service (hs_Buildkit hs))) (bk_StorageLimit (hs_Buildkit hs)) 0 in
  let l := add (IsEnabled (gp_Service (hs_GoProxy hs))) (gp_StorageLimit (hs_GoProxy hs)) l in
  let l := add (IsEnabled (rm_Service (hs_RegistryMirror hs))) (rm_StorageLimit (hs_RegistryMirror hs)) l in
  if IsEnabled (hc_Service (hs_HTTPCache hs)) then fold_left (fun acc u => int64 (acc + hu_SizeLimit u)) (hc_Upstreams (hs_HTTPCache hs)) l else l.

Definition cacheVolume (cv : CacheVolume) : list FieldError :=
  let dev := negb (String.eqb (cv_Device cv) "") in
  let dir := negb (String.eqb (cv_Directory cv) "") in
  (if dev && dir then errorf "host_services.cache_volume" "device and directory are mutually exclusive"
   else if dev then absPath "host_services.cache_volume.device" (cv_Device cv)
   else if dir then absPath "host_services.cache_volume.directory" (cv_Directory cv)
   else errorf "host_services.cache_volume" "one of device or directory is required")
  ++ when (cv_SizeCap cv <=? 0) (errorf "host_services.cache_volume.size_cap" "must be a positive size").

Definition observability (o : Observability) : list FieldError :=
  when (negb (String.eqb (ob_LogFormat o) LogJSON || String.eqb (ob_LogFormat o) LogText)) (errorf "observability.log_format" "must be json or text")
  ++ when (negb (existsb (String.eqb (ToLower (ob_LogLevel o))) ["debug"; "info"; "warn"; "error"])) (errorf "observability.log_level" "must be a level")
  ++ (if present (ob_ListenAddress o) then when (negb (bool_decide (is_Some (SplitHostPort (ob_ListenAddress o))))) (errorf "observability.listen_address" "must be host:port or :port")
      else required "observability.listen_address" (ob_ListenAddress o)).

Section Validate.
Context (url_Parse : string -> option URL).

(** The URL [httpURL] returns, and the errors it appends. *)
Definition httpURL_of (raw : string) : option URL :=
  if negb (present raw) then None else
  match url_Parse raw with
  | None => None
  | Some u => if String.eqb (u_Host u) "" || negb (String.eqb (u_Scheme u) "http" || String.eqb (u_Scheme u) "https") then None else Some u
  end.
Definition httpURL (field raw : string) : list FieldError :=
  if negb (present raw) then required field raw
  else match httpURL_of raw with None => errorf field "must be an absolute http or https URL" | Some _ => [] end.

Definition gitlab (g : GitLab) : list FieldError :=
  httpURL "gitlab.url" (gl_URL g)
  ++ match httpURL_of (gl_URL g) with
     | Some u => when (negb (String.eqb (u_Scheme u) "https") && negb (gl_AllowInsecure g)) (errorf "gitlab.url" "must use https")
     | None => []
     end
  ++ required "gitlab.token" (gl_Token g) ++ required "gitlab.name" (gl_Name g)
  ++ positive "gitlab.concurrent" (gl_Concurrent g) ++ positive "gitlab.check_interval" (gl_CheckInterval g)
  ++ positive "gitlab.output_limit_kb" (gl_OutputLimitKB g) ++ positive "gitlab.shutdown_timeout" (gl_ShutdownTimeout g)
  ++ clientTLS "gitlab.tls" (gl_TLS g)
  ++ when (tls_Insecure (gl_TLS g)) (errorf "gitlab.tls.insecure" "does not apply to GitLab").

Definition goProxy (g : GoProxy) : list FieldError :=
  httpURL "host_services.go_proxy.upstream" (gp_Upstream g)
  ++ concat (imap (fun i p => required (indexed "host_services.go_proxy.private_patterns" i) p) (gp_PrivatePatterns g))
  ++ when ((match gp_PrivatePatterns g with [] => false | _ => true end) && negb (present (gp_CredentialParameter g)))
       (errorf "host_services.go_proxy.credential_parameter" "is required when private_patterns are set")
  ++ when ((match gp_PrivatePatterns g with [] => true | _ => false end) && negb (String.eqb (gp_PrivateVCSHost g) ""))
       (errorf "host_services.go_proxy.private_vcs_host" "is set without private_patterns")
  ++ nonNegative "host_services.go_proxy.private_revalidate_interval" (gp_PrivateRevalidateInterval g)
  ++ when (gp_StorageLimit g <? 0) (errorf "host_services.go_proxy.storage_limit" "must not be negative")
  ++ concat (imap (fun i m => let f := indexed "host_services.go_proxy.prewarm" i in
       if present m then when (negb (Contains m "@")) (errorf f "must be module@version") else required f m) (gp_Prewarm g)).

Fixpoint registryUpstreams (i : nat) (us : list RegistryUpstream) (seen : gmap string Z) : list FieldError :=
  match us with
  | [] => []
  | u :: us =>
      let f := indexed "host_services.registry_mirror.upstreams" i +:+ ".url" in
      match httpURL_of (ru_URL u) with
      | None => httpURL f (ru_URL u) ++ registryUpstreams (S i) us seen
      | Some _ => let '(e, seen) := unique f "url" (ru_URL u) (Z.of_nat i) seen in e ++ registryUpstreams (S i) us seen
      end
  end.

Definition registryMirror (r : RegistryMirror) : list FieldError :=
  registryUpstreams 0 (rm_Upstreams r) ∅
  ++ when (rm_StorageLimit r <? 0) (errorf "host_services.registry_mirror.storage_limit" "must not be negative")
  ++ concat (imap (fun i img => let f := indexed "host_services.registry_mirror.prewarm" i in
       if negb (present img) then required f img else when (negb (is_ok (ParseImageRef img))) (errorf f "malformed image reference")) (rm_Prewarm r)).

Definition cacheUpstream (i : nat) (u : HTTPCacheUpstream) (names envs : gmap string Z) : list FieldError * gmap string Z * gmap string Z :=
  let f := indexed "host_services.http_cache.upstreams" i in
  let '(e1, names) := if present (hu_Name u) then unique (f +:+ ".name") "name" (hu_Name u) (Z.of_nat i) names
                      else (required (f +:+ ".name") (hu_Name u), names) in
  let '(e2, envs) := if present (hu_EnvVar u) then
                       if negb (envVarName (hu_EnvVar u)) then (errorf (f +:+ ".env_var") "must be an environment variable name", envs)
                       else unique (f +:+ ".env_var") "env_var" (hu_EnvVar u) (Z.of_nat i) envs
                     else (required (f +:+ ".env_var") (hu_EnvVar u), envs) in
  (e1 ++ httpURL (f +:+ ".url") (hu_URL u) ++ when (hu_SizeLimit u <? 0) (errorf (f +:+ ".size_limit") "must not be negative")
   ++ nonNegative (f +:+ ".ttl") (hu_TTL u) ++ e2, names, envs).

Fixpoint httpCacheLoop (i : nat) (us : list HTTPCacheUpstream) (names envs : gmap string Z) : list FieldError :=
  match us with
  | [] => []
  | u :: us => let '(e, names, envs) := cacheUpstream i u names envs in e ++ httpCacheLoop (S i) us names envs
  end.

Definition hostServices (hs : HostServices) : list FieldError :=
  servicePorts (services hs) ∅
  ++ buildkit (hs_Buildkit hs) ++ goProxy (hs_GoProxy hs) ++ registryMirror (hs_RegistryMirror hs)
  ++ httpCacheLoop 0 (hc_Upstreams (hs_HTTPCache hs)) ∅ ∅
  ++ cacheVolume (hs_CacheVolume hs)
  ++ when ((0 <? cv_SizeCap (hs_CacheVolume hs)) && (cv_SizeCap (hs_CacheVolume hs) <? storageLimits hs))
       (errorf "host_services.cache_volume.size_cap" "is smaller than the storage limits add up to").

Definition distributedCache (dc : option DistributedCache) : list FieldError :=
  match dc with
  | None => []
  | Some dc =>
      required "distributed_cache.bucket" (dc_Bucket dc) ++ required "distributed_cache.region" (dc_Region dc)
      ++ when (HasPrefix (dc_Prefix dc) "/") (errorf "distributed_cache.prefix" "must not start with a slash")
      ++ when (dc_Insecure dc) (errorf "distributed_cache.insecure" "cannot be honoured")
      ++ (if String.eqb (dc_Endpoint dc) "" then [] else
          match httpURL_of (dc_Endpoint dc) with
          | None => httpURL "distributed_cache.endpoint" (dc_Endpoint dc)
          | Some u => when (negb (String.eqb (u_Path u) "") && negb (String.eqb (u_Path u) "/")) (errorf "distributed_cache.endpoint" "must not have a path")
                      ++ when (String.eqb (u_Scheme u) "http") (errorf "distributed_cache.endpoint" "must be https")
          end)
  end.

Definition Validate (c : Config) : list FieldError :=
  gitlab (c_GitLab c) ++ profiles c ++ inventory c ++ poolManager (c_PoolManager c) ++ scheduler (c_Scheduler c)
  ++ executor (c_Executor c) ++ hostServices (c_HostServices c) ++ distributedCache (c_DistributedCache c)
  ++ observability (c_Observability c) ++ absPath "state_dir" (c_StateDir c).
End Validate.
