(* ===== verification/ConfigThms.v ===== *)
(** * What a valid configuration is

    [Validate] accepts a configuration exactly when it satisfies the rules
    stated here as propositions, section by section. *)
From S2P Require Import Prelude GoModel ConfigTypes Base64 Spec PathMatch GoStrings ConfigImage ConfigDefaults ConfigValidate.
From Stdlib Require Import Ascii.

(** ** The checks of one value *)
Lemma when_nil b l : l <> [] -> when b l = [] <-> b = false.
Proof. intros Hl. destruct b; simpl; [|done]. split; [intros; contradiction|done]. Qed.
Lemma when_errorf_nil b f r : when b (errorf f r) = [] <-> b = false.
Proof. by apply when_nil. Qed.
Lemma required_nil f v : required f v = [] <-> present v = true.
Proof. unfold required. rewrite when_errorf_nil. by destruct (present v). Qed.
Lemma positive_nil f d : positive f d = [] <-> 0 < d.
Proof. unfold positive. rewrite when_errorf_nil. split; [intros ?%Z.leb_gt|intros; apply Z.leb_gt]; lia. Qed.
Lemma nonNegative_nil f d : nonNegative f d = [] <-> 0 <= d.
Proof. unfold nonNegative. rewrite when_errorf_nil. split; [intros ?%Z.ltb_ge|intros; apply Z.ltb_ge]; lia. Qed.

Definition abs_path (p : string) : Prop := present p = true /\ HasPrefix p "/" = true.
Lemma absPath_nil f p : absPath f p = [] <-> abs_path p.
Proof.
  unfold absPath, abs_path. destruct (present p) eqn:E; simpl; [|unfold required; rewrite E; split; [done|by intros []]].
  rewrite when_errorf_nil. destruct (HasPrefix p "/"); simpl; naive_solver.
Qed.
Definition known_arch (a : string) : Prop := a = ArchAMD64 \/ a = ArchARM64.
Lemma arch_ok_known a : arch_ok a = true <-> known_arch a.
Proof. unfold arch_ok, known_arch. by rewrite orb_true_iff, !String.eqb_eq. Qed.
Lemma arch_nil f a : arch f a = [] <-> known_arch a.
Proof. rewrite <-arch_ok_known. unfold arch. destruct (arch_ok a); [done|]. by destruct (String.eqb a ""). Qed.

Definition host_port (addr : string) : Prop :=
  present addr = true /\ Contains addr "://" = false
  /\ exists host port, SplitHostPort addr = Some (host, port) /\ host <> "" /\ port <> "".
Lemma hostPort_nil f a : hostPort f a = [] <-> host_port a.
Proof.
  unfold hostPort, host_port. destruct (present a) eqn:E; simpl; [|unfold required; rewrite E; split; [done|by intros []]].
  destruct (Contains a "://"); [split; [done|by intros (_ & [=] & _)]|]. destruct (SplitHostPort a) as [[h p]|]; [|split; [done|naive_solver]].
  rewrite when_errorf_nil, orb_false_iff, !String.eqb_neq. naive_solver.
Qed.

Definition tls_rules (t : ClientTLS) : Prop :=
  (tls_CertFile t = "" <-> tls_KeyFile t = "") /\ (tls_Insecure t = true -> tls_CAFile t = "" /\ tls_CertFile t = "").
Lemma clientTLS_nil f t : clientTLS f t = [] <-> tls_rules t.
Proof.
  unfold clientTLS, tls_rules. rewrite app_nil, !when_errorf_nil. destruct t as [ca ce ke ins]. simpl.
  destruct (String.eqb_spec ca ""), (String.eqb_spec ce ""), (String.eqb_spec ke ""), ins; simpl; naive_solver.
Qed.

Lemma concat_nil {A} (l : list (list A)) : concat l = [] <-> Forall (fun x => x = []) l.
Proof. induction l as [|x l IH]; simpl; [naive_solver|]. by rewrite app_nil, Forall_cons, IH. Qed.
Lemma concat_imap_nil {A} (f : nat -> A -> list FieldError) (P : A -> Prop) l :
  (forall i x, f i x = [] <-> P x) -> concat (imap f l) = [] <-> Forall P l.
Proof.
  intros Hf. revert f Hf. induction l as [|x l IH]; intros f Hf; simpl; [naive_solver|]. rewrite app_nil, Forall_cons, (Hf 0%nat).
  rewrite (IH (f ∘ S)); [done|]. intros i y. apply (Hf (S i)).
Qed.
Lemma concat_fmap_nil {A} (f : A -> list FieldError) (P : A -> Prop) l :
  (forall x, f x = [] <-> P x) -> concat (f <$> l) = [] <-> Forall P l.
Proof. intros Hf. rewrite concat_nil, Forall_fmap. apply Forall_proper; [|done]. intros x. apply Hf. Qed.

Definition keys_present {A} (m : gmap string A) : Prop := forall k, is_Some (m !! k) -> present k = true.
Lemma blank_keys_nil f r m : blank_keys f r m = [] <-> keys_present m.
Proof.
  unfold blank_keys. rewrite (concat_fmap_nil _ (fun kv => present kv.1 = true)).
  2:{ intros kv. rewrite when_errorf_nil. unfold present. by destruct (TrimSpace_empty _). }
  rewrite Forall_forall. split.
  - intros H k [v Hv]. by apply (H (k, v)), elem_of_map_to_list.
  - intros H [k v] Hv%elem_of_map_to_list. by apply (H k); exists v.
Qed.

(** ** Duplicates *)

(** [keys] are distinct and none is in [seen]. *)
Definition fresh (seen : gmap string Z) (keys : list string) : Prop := NoDup keys /\ forall k, k ∈ keys -> seen !! k = None.

Lemma unique_nil f w k i seen : (unique f w k i seen).1 = [] <-> seen !! k = None.
Proof. unfold unique. by destruct (seen !! k). Qed.
Lemma unique_fresh f w k i seen : seen !! k = None -> unique f w k i seen = ([], <[k := i]> seen).
Proof. unfold unique. by intros ->. Qed.

Lemma fresh_nil seen : fresh seen [].
Proof. split; [constructor|set_solver]. Qed.
Lemma fresh_cons seen k i keys : fresh seen (k :: keys) <-> seen !! k = None /\ fresh (<[k := i]> seen) keys.
Proof.
  unfold fresh. rewrite NoDup_cons. split.
  - intros [[Hk HN] HS]. split_and!; [set_solver|done|]. intros x Hx. rewrite lookup_insert_ne; [set_solver|]. by intros ->.
  - intros (Hk & HN & HS). split_and!; [|done|].
    + intros Hin. specialize (HS k Hin). by rewrite lookup_insert_eq in HS.
    + intros x [->|Hx]%elem_of_cons; [done|]. specialize (HS x Hx). destruct (decide (x = k)) as [->|]; [done|]. by rewrite lookup_insert_ne in HS.
Qed.
Lemma fresh_app seen seen' l k : (forall x, is_Some (seen' !! x) <-> is_Some (seen !! x) \/ x ∈ l) ->
  fresh seen (l ++ k) <-> fresh seen l /\ fresh seen' k.
Proof.
  intros Hs. assert (forall x, seen' !! x = None <-> seen !! x = None /\ x ∉ l) as Hn.
  { intros x. rewrite !eq_None_not_Some, Hs. tauto. }
  unfold fresh. rewrite NoDup_app. split.
  - intros [(H1 & H2 & H3) H4]. split_and!; [done|set_solver|done|]. intros x Hx. apply Hn. split; [set_solver|]. intros Hl. by apply (H2 x).
  - intros [[H1 H2] [H3 H4]]. split_and!; [done| |done|].
    + intros x Hx Hk. apply (Hn x); [by apply H4|done].
    + intros x [Hx|Hx]%elem_of_app; [by apply H2|]. by apply (Hn x), H4.
Qed.

Lemma imageNames_nil f k i names seen :
  (imageNames f k i names seen).1 = [] <-> Forall (fun n => present n = true) names /\ fresh seen names.
Proof.
  revert k seen. induction names as [|n names IH]; intros k seen; cbn [imageNames].
  { split; [intros _; split; [constructor|apply fresh_nil]|done]. }
  destruct (present n) eqn:Ep.
  - destruct (seen !! n) as [j|] eqn:Es.
    + unfold unique. rewrite Es. destruct (imageNames f (S k) i names seen). simpl. split; [done|]. intros [_ [_ H]]. specialize (H n). set_solver.
    + rewrite (unique_fresh _ _ _ _ _ Es). specialize (IH (S k) (<[n := i]> seen)). destruct (imageNames f (S k) i names (<[n := i]> seen)) as [es s'].
      simpl in *. rewrite IH, Forall_cons, (fresh_cons seen n i). naive_solver.
  - destruct (imageNames f (S k) i names seen). simpl. unfold required. rewrite Ep. split; [done|]. intros [H _]. apply Forall_cons in H as [H _]. congruence.
Qed.

Lemma imageNames_seen f k i names seen :
  (imageNames f k i names seen).1 = [] -> forall x, is_Some ((imageNames f k i names seen).2 !! x) <-> is_Some (seen !! x) \/ x ∈ names.
Proof.
  revert k seen. induction names as [|n names IH]; intros k seen Hnil x; cbn [imageNames] in *; [set_solver|].
  destruct (present n) eqn:Ep.
  - destruct (seen !! n) as [j|] eqn:Es.
    + unfold unique in *. rewrite Es in *. by destruct (imageNames f (S k) i names seen).
    + rewrite (unique_fresh _ _ _ _ _ Es) in *. specialize (IH (S k) (<[n := i]> seen)). destruct (imageNames f (S k) i names (<[n := i]> seen)) as [es s'].
      simpl in *. rewrite IH by done. rewrite elem_of_cons. destruct (decide (x = n)) as [->|Hne].
      * rewrite lookup_insert_eq. naive_solver.
      * rewrite lookup_insert_ne by done. naive_solver.
  - destruct (imageNames f (S k) i names seen). simpl in *. unfold required in Hnil. by rewrite Ep in Hnil.
Qed.

(** ** The rules of a Profile *)
Definition pinned_image (ref : string) : Prop := present ref = true /\ exists r, ParseImageRef ref = Ok r /\ Pinned r = true.
Lemma imageError_nil img : imageError img = [] <-> pinned_image (img_ref img).
Proof.
  unfold imageError, pinned_image. destruct (present (img_ref img)) eqn:E; simpl; [|unfold required; rewrite E; split; [done|by intros []]].
  destruct (ParseImageRef _) as [r|]; [|split; [done|naive_solver]]. rewrite when_errorf_nil. destruct (Pinned r) eqn:EP; simpl; naive_solver.
Qed.

Record volume_rules (v : Volume) : Prop := {
  vr_id : present (v_ID v) = true; vr_mount : v_MountPoint v <> "" -> abs_path (v_MountPoint v); vr_size : 0 <= v_SizeMB v }.

Lemma profileImages_nil f p :
  profileImages f p = [] <-> Forall (fun img => pinned_image (img_ref img)) (images p f) /\ Forall volume_rules (p_AdditionalVolumes p).
Proof.
  unfold profileImages. rewrite app_nil, (concat_fmap_nil _ _ _ imageError_nil). rewrite (concat_imap_nil _ volume_rules); [done|].
  intros i v. rewrite !app_nil, required_nil, nonNegative_nil. split.
  - intros (H1 & H2 & H3). split; [done| |done]. intros Hne. apply (absPath_nil (indexed (f +:+ ".additional_volumes") i +:+ ".mount_point")).
    by destruct (String.eqb_spec (v_MountPoint v) "").
  - intros [H1 H2 H3]. split_and!; [done| |done]. destruct (String.eqb_spec (v_MountPoint v) ""); [done|]. by apply absPath_nil, H2.
Qed.

Definition transport_rules (claim : bool) (t : Transport) : Prop :=
  tr_Kind t = TransportExec
  \/ tr_Kind t = TransportSSH /\ claim = false /\ present (ssh_PrivateKeyFile (tr_SSH t)) = true /\ present (ssh_User (tr_SSH t)) = true.
Lemma profileTransport_nil f p pm : profileTransport f p pm = [] <-> transport_rules (IsClaim pm) (p_Transport p).
Proof.
  unfold profileTransport, transport_rules. cbv zeta.
  destruct (String.eqb_spec (tr_Kind (p_Transport p)) TransportExec) as [->|H1]; simpl; [naive_solver|].
  destruct (String.eqb_spec (tr_Kind (p_Transport p)) TransportSSH) as [H2|H2]; simpl.
  - destruct (IsClaim pm); simpl; [naive_solver|]. rewrite app_nil, !required_nil. naive_solver.
  - destruct (String.eqb _ ""); naive_solver.
Qed.

Definition known_policy (p : string) : Prop := p = "" \/ p = HookFailureDeleteAndReplace \/ p = HookFailureQuarantine.
Lemma policy_known_true p : policy_known p = true <-> known_policy p.
Proof. unfold policy_known, known_policy. rewrite !orb_true_iff, !String.eqb_eq. tauto. Qed.

Record pool_rules (ps : PoolSettings) : Prop := {
  plr_size : 0 < ps_Size ps;
  plr_name : present (ps_Name ps) = true;
  plr_ns : present (ps_Namespace ps) = true;
  plr_strategy : ps_Strategy ps = ReplenishImmediateOnLease \/ ps_Strategy ps = ReplenishReplaceOnDelete
                 \/ ps_Strategy ps = ReplenishMinSizeThreshold /\ is_Some (ps_MinSize ps);
  plr_min : forall m, ps_MinSize ps = Some m -> 0 <= m <= ps_Size ps;
  plr_hooks : Forall (fun h => present h = true) (ps_CreateHooks ps ++ ps_PreLeaseHooks ps);
  plr_policy : known_policy (ps_HookFailurePolicy ps);
  plr_beat : 0 < ps_HeartbeatInterval ps < ps_HeartbeatExpiry ps
}.

Lemma strategyErrors_nil f ps :
  strategyErrors f ps = [] <->
  ps_Strategy ps = ReplenishImmediateOnLease \/ ps_Strategy ps = ReplenishReplaceOnDelete
  \/ ps_Strategy ps = ReplenishMinSizeThreshold /\ is_Some (ps_MinSize ps).
Proof.
  unfold strategyErrors. destruct (String.eqb_spec (ps_Strategy ps) ReplenishImmediateOnLease); simpl; [naive_solver|].
  destruct (String.eqb_spec (ps_Strategy ps) ReplenishReplaceOnDelete); simpl; [naive_solver|].
  destruct (String.eqb_spec (ps_Strategy ps) ReplenishMinSizeThreshold) as [E|E].
  - destruct (ps_MinSize ps); [naive_solver|]. split; [done|]. intros [?|[?|[_ [? [=]]]]]; contradiction.
  - destruct (String.eqb _ ""); naive_solver.
Qed.

Lemma poolSettings_nil f ps : poolSettings f ps = [] <-> pool_rules ps.
Proof.
  unfold poolSettings. rewrite !app_nil, !positive_nil, !required_nil, strategyErrors_nil, !when_errorf_nil.
  rewrite (concat_imap_nil _ (fun h => present h = true) (ps_CreateHooks ps)), (concat_imap_nil _ (fun h => present h = true) (ps_PreLeaseHooks ps))
    by (intros; apply required_nil).
  assert (forall s f', match ps_MinSize ps with None => [] | Some m => if m <? 0 then errorf f' s else when (ps_Size ps <? m) (errorf f' "must not exceed size") end = []
    <-> (forall m, ps_MinSize ps = Some m -> 0 <= m <= ps_Size ps)) as Hm.
  { intros s f'. destruct (ps_MinSize ps) as [m|]; [|naive_solver]. destruct (Z.ltb_spec m 0).
    - split; [done|]. intros H'. specialize (H' m eq_refl). lia.
    - rewrite when_errorf_nil, Z.ltb_ge. split; [intros ? m' [= <-]; lia|intros H'; specialize (H' m eq_refl); lia]. }
  rewrite Hm, negb_false_iff, policy_known_true. clear Hm. split.
  - intros (H1 & H2 & H3 & H4 & H5 & H6 & H7 & H8 & H9 & H10 & H11). split; try done; [by apply Forall_app|].
    apply andb_false_iff in H11 as [H11|H11%Z.leb_gt]; [|lia]. apply andb_false_iff in H11 as [H11%Z.ltb_ge|H11%Z.ltb_ge]; lia.
  - intros [H1 H2 H3 H4 H5 H6 H7 H8]. apply Forall_app in H6 as [H6a H6b]. split_and!; try done; [lia|lia|].
    apply andb_false_iff. right. apply Z.leb_gt. lia.
Qed.

(** A Host of the Inventory runs the Profile's architecture and carries every
    label its selector names. *)
Definition has_host (p : ProfileConfig) (hosts : list HostEntry) : Prop :=
  exists h, h ∈ hosts /\ he_Arch h = p_Arch p /\ p_HostSelector p ⊆ he_Labels h.
Lemma MatchesHost_true p h : MatchesHost p h = true <-> he_Arch h = p_Arch p /\ p_HostSelector p ⊆ he_Labels h.
Proof.
  unfold MatchesHost. rewrite andb_true_iff, String.eqb_eq, forallb_forall, map_subseteq_spec. split.
  - intros [<- H]. split; [done|]. intros k v Hk. apply (bool_decide_eq_true_1 _), (H (k, v)), list_elem_of_In. by apply elem_of_map_to_list.
  - intros [<- H]. split; [done|]. intros [k v] Hk%list_elem_of_In%elem_of_map_to_list. apply bool_decide_eq_true_2. by apply H.
Qed.
Lemma SelectHosts_has p hosts : SelectHosts p hosts <> [] <-> has_host p hosts.
Proof.
  unfold SelectHosts, has_host. setoid_rewrite <-MatchesHost_true. split.
  - destruct (filter _ hosts) as [|h l] eqn:E; [done|]. intros _. exists h.
    assert (h ∈ filter (fun h => MatchesHost p h = true) hosts) as [? ?]%list_elem_of_filter by (rewrite E; by left). done.
  - intros (h & Hh & Hm) E. assert (h ∈ filter (fun h => MatchesHost p h = true) hosts) as Hf by (by apply list_elem_of_filter).
    destruct (filter _ hosts); [set_solver|done].
Qed.

(** Everything [Validate] asks of a Profile on its own. *)
Record profile_rules (c : Config) (p : ProfileConfig) : Prop := {
  prr_name : present (p_Name p) = true;
  prr_arch : known_arch (p_Arch p);
  prr_size : 0 < p_VCPU p /\ 0 < p_MemoryMB p;
  prr_images : Forall (fun img => pinned_image (img_ref img)) (images p "") /\ Forall volume_rules (p_AdditionalVolumes p);
  prr_paths : abs_path (p_Shell p) /\ abs_path (p_BuildsDir p) /\ abs_path (p_CacheDir p) /\ abs_path (p_HelperPath p);
  prr_names : Forall (fun n => present n = true) (p_Images p);
  prr_globs : Forall (fun g => present g = true /\ bad_glob g = false) (p_ImageGlobs p);
  prr_keys : keys_present (k_Cmdline (p_Kernel p)) /\ keys_present (p_HostSelector p);
  prr_user : present (p_User p) = true;
  prr_ready : 0 < p_ReadyTimeout p;
  prr_max : 0 <= p_MaxConcurrency p;
  prr_transport : transport_rules (IsClaim (c_PoolManager c)) (p_Transport p);
  prr_pool : pool_rules (p_Pool p);
  prr_hosts : inv_Hosts (c_Inventory c) <> [] -> has_host p (inv_Hosts (c_Inventory c))
}.

Lemma images_refs f p : img_ref <$> images p f = img_ref <$> images p "".
Proof.
  unfold images. rewrite !fmap_app. f_equal. f_equal; [by destruct (p_Initrd p)|]. rewrite !fmap_imap. by apply imap_ext.
Qed.
Lemma images_pinned f p : Forall (fun img => pinned_image (img_ref img)) (images p f) <-> Forall (fun img => pinned_image (img_ref img)) (images p "").
Proof.
  assert (forall l, Forall (fun img => pinned_image (img_ref img)) l <-> Forall pinned_image (img_ref <$> l)) as H by (intros; by rewrite Forall_fmap).
  by rewrite !H, images_refs.
Qed.

Lemma known_arch_nonempty a : known_arch a -> String.eqb a "" = false.
Proof. by intros [-> | ->]. Qed.

(** The errors of a Profile that no other Profile has a part in. *)
Lemma profileErrors_nil c i p s :
  (profileErrors c i p s).1 = [] <->
  profile_rules c p /\ seen_names s !! p_Name p = None /\ fresh (seen_images s) (p_Images p) /\ seen_pools s !! poolKey p = None.
Proof.
  unfold profileErrors. set (f := indexed "profiles" i).
  destruct (if present (p_Name p) then _ else _) as [e1 n1] eqn:E1.
  assert (e1 = [] <-> present (p_Name p) = true /\ seen_names s !! p_Name p = None) as H1.
  { destruct (present (p_Name p)) eqn:Ep.
    - pose proof (unique_nil (f +:+ ".name") "name" (p_Name p) (Z.of_nat i) (seen_names s)) as H. rewrite E1 in H. simpl in H. naive_solver.
    - unfold required in E1. rewrite Ep in E1. injection E1 as <- _. naive_solver. }
  unfold profileOptional. destruct (imageNames f 0 (Z.of_nat i) (p_Images p) (seen_images s)) as [e2 n2] eqn:E2.
  pose proof (imageNames_nil f 0 (Z.of_nat i) (p_Images p) (seen_images s)) as H2. rewrite E2 in H2. cbn [fst] in H2.
  destruct (unique (f +:+ ".pool") _ _ _ _) as [e3 n3] eqn:E3.
  pose proof (unique_nil (f +:+ ".pool") "pool" (poolKey p) (Z.of_nat i) (seen_pools s)) as H3. rewrite E3 in H3. cbn [fst] in H3.
  cbn [fst]. rewrite !app_nil, H1, H2, H3, arch_nil, !positive_nil, profileImages_nil, !absPath_nil, !blank_keys_nil, required_nil,
    nonNegative_nil, profileTransport_nil, poolSettings_nil, when_errorf_nil, images_pinned.
  rewrite (concat_imap_nil _ (fun g => present g = true /\ bad_glob g = false)).
  2:{ intros k g. destruct (present g) eqn:Eg; simpl; [rewrite when_errorf_nil; naive_solver|unfold required; rewrite Eg; naive_solver]. }
  assert (forall h, known_arch (p_Arch p) ->
    (negb (String.eqb (p_Arch p) "") && (match h with [] => false | _ => true end) && (match SelectHosts p h with [] => true | _ => false end) = false
     <-> (h <> [] -> has_host p h))) as HS.
  { intros h Ha. rewrite (known_arch_nonempty _ Ha), <-SelectHosts_has. simpl. destruct h as [|x h]; simpl; [naive_solver|]. destruct (SelectHosts p (x :: h)); naive_solver. }
  split.
  - intros ((Hn & Hsn) & Ha & Hv & Hm & [Hi Hvol] & Hs & Hb & Hc & Hh & ((Hin & Hfr) & Hg & Hk & Hu & Hr & Hsel & Hmx) & Ht & Hp & Hpk & Hho).
    split_and!; try done. split; try done. by apply HS.
  - intros ([Hn Ha [Hv Hm] [Hi Hvol] (Hs & Hb & Hc & Hh) Hin Hg [Hk Hsel] Hu Hr Hmx Ht Hp Hho] & Hsn & Hfr & Hpk).
    split_and!; try done. by apply HS.
Qed.

(** What the loop leaves in its maps after a Profile without errors. *)
Lemma profileErrors_seen c i p s :
  (profileErrors c i p s).1 = [] ->
  exists imgs, (profileErrors c i p s).2 =
    {| seen_names := <[p_Name p := Z.of_nat i]> (seen_names s); seen_images := imgs;
       seen_pools := <[poolKey p := Z.of_nat i]> (seen_pools s); seen_defaults := if p_Default p then seen_defaults s + 1 else seen_defaults s |}
  /\ forall x, is_Some (imgs !! x) <-> is_Some (seen_images s !! x) \/ x ∈ p_Images p.
Proof.
  intros Hnil. pose proof (proj1 (profileErrors_nil c i p s) Hnil) as ([Hn _ _ _ _ Hin _ _ _ _ _ _ _ _] & Hs & Hf & Hp).
  unfold profileErrors in *. rewrite Hn in *. rewrite (unique_fresh _ _ _ _ _ Hs) in *. rewrite (unique_fresh _ _ _ _ _ Hp) in *.
  unfold profileOptional in *. set (f := indexed "profiles" i) in *.
  pose proof (proj2 (imageNames_nil f 0 (Z.of_nat i) (p_Images p) (seen_images s)) (conj Hin Hf)) as HI.
  pose proof (imageNames_seen f 0 (Z.of_nat i) (p_Images p) (seen_images s) HI) as HX.
  destruct (imageNames f 0 (Z.of_nat i) (p_Images p) (seen_images s)) as [e2 n2]. cbn [fst snd] in *. by exists n2.
Qed.

Lemma profileErrors_defaults c i p s : seen_defaults (profileErrors c i p s).2 = seen_defaults s + (if p_Default p then 1 else 0).
Proof.
  unfold profileErrors. destruct (if present (p_Name p) then _ else _), (profileOptional _ _ _ _), (unique _ _ _ _ _). simpl.
  destruct (p_Default p); lia.
Qed.

Lemma profilesLoop_defaults c i ps s :
  seen_defaults (profilesLoop c i ps s).2 = seen_defaults s + Z.of_nat (length (filter (fun p => p_Default p = true) ps)).
Proof.
  revert i s. induction ps as [|p ps IH]; intros i s; cbn [profilesLoop]; [simpl; lia|].
  pose proof (profileErrors_defaults c i p s) as HD. destruct (profileErrors c i p s) as [e s1].
  specialize (IH (S i) s1). destruct (profilesLoop c (S i) ps s1) as [es s2]. cbn [snd] in *. rewrite IH, HD, filter_cons.
  destruct (p_Default p); simpl; lia.
Qed.

Lemma profilesLoop_nil c i ps s :
  (profilesLoop c i ps s).1 = [] <->
  Forall (profile_rules c) ps /\ fresh (seen_names s) (p_Name <$> ps) /\ fresh (seen_images s) (concat (p_Images <$> ps))
  /\ fresh (seen_pools s) (poolKey <$> ps).
Proof.
  revert i s. induction ps as [|p ps IH]; intros i s; cbn [profilesLoop].
  { split; [intros _; split_and!; [constructor|apply fresh_nil..]|done]. }
  pose proof (profileErrors_nil c i p s) as HN. pose proof (profileErrors_seen c i p s) as HS.
  destruct (profileErrors c i p s) as [e s1]. cbn [fst snd] in *. specialize (IH (S i) s1).
  destruct (profilesLoop c (S i) ps s1) as [es s2]. cbn [fst] in *. rewrite app_nil, IH, !fmap_cons, Forall_cons. simpl. split.
  - intros [He (H1 & H2 & H3 & H4)]. destruct (HS He) as (imgs & -> & Him). apply HN in He as (Hr & Hn & Hf & Hp). simpl in *.
    split_and!; [done|done|by apply (fresh_cons _ _ (Z.of_nat i))| |by apply (fresh_cons _ _ (Z.of_nat i))].
    by apply (fresh_app _ imgs).
  - intros ([Hr Hrs] & Hn & Hi & Hp). apply (fresh_cons _ _ (Z.of_nat i)) in Hn as [Hn Hns], Hp as [Hp Hps].
    assert (fresh (seen_images s) (p_Images p)) as Hf.
    { destruct Hi as [HD HS']. apply NoDup_app in HD as (HD & _ & _). split; [done|]. intros k Hk. apply HS'. set_solver. }
    assert (e = []) as He by (by apply HN). destruct (HS He) as (imgs & -> & Him). simpl. split_and!; [done..| |done].
    by apply (fresh_app _ imgs) in Hi as [_ Hi].
Qed.

(** ** The rules of the Inventory *)
Record host_rules (c : Config) (h : HostEntry) : Prop := {
  hr_name : present (he_Name h) = true;
  hr_chars : ContainsAny (he_Name h) whitespace_or_slash = false;
  hr_endpoint : host_port (he_Endpoint h);
  hr_arch : known_arch (he_Arch h);
  hr_size : 0 < he_VCPU h /\ 0 < he_MemoryMB h;
  hr_labels : keys_present (he_Labels h);
  hr_tls : tls_rules (he_TLS h);
  hr_cache : forall k, is_Some (sa_HTTPCache (he_Services h) !! k) -> k ∈ hu_Name <$> hc_Upstreams (hs_HTTPCache (c_HostServices c))
}.

Lemma http_cache_nil f c h :
  concat ((fun kv => when (negb (existsb (fun u => String.eqb (hu_Name u) kv.1) (hc_Upstreams (hs_HTTPCache (c_HostServices c)))))
    (errorf f "names an HTTP cache upstream that is not declared")) <$> map_to_list (sa_HTTPCache (he_Services h))) = []
  <-> forall k, is_Some (sa_HTTPCache (he_Services h) !! k) -> k ∈ hu_Name <$> hc_Upstreams (hs_HTTPCache (c_HostServices c)).
Proof.
  rewrite (concat_fmap_nil _ (fun kv => kv.1 ∈ hu_Name <$> hc_Upstreams (hs_HTTPCache (c_HostServices c)))).
  2:{ intros kv. rewrite when_errorf_nil, negb_false_iff, existsb_exists, list_elem_of_fmap. split.
      - intros (u & Hu & <-%String.eqb_eq). exists u. split; [done|by apply list_elem_of_In].
      - intros (u & -> & Hu). exists u. split; [by apply list_elem_of_In|apply String.eqb_refl]. }
  rewrite Forall_forall. split.
  - intros H k [v Hv]. by apply (H (k, v)), elem_of_map_to_list.
  - intros H [k v] Hv%elem_of_map_to_list. by apply H; exists v.
Qed.

Lemma host_port_nonempty a : host_port a -> String.eqb a "" = false.
Proof. intros [H _]. by destruct (String.eqb_spec a "") as [->|]. Qed.

Lemma hostErrors_nil c i h s :
  (hostErrors c i h s).1 = [] <->
  host_rules c h /\ seen_hosts s !! he_Name h = None /\ seen_endpoints s !! normaliseHostPort (he_Endpoint h) = None.
Proof.
  unfold hostErrors. set (f := indexed "inventory.hosts" i).
  destruct (if present (he_Name h) then _ else _) as [e1 n1] eqn:E1.
  assert (e1 = [] <-> present (he_Name h) = true /\ ContainsAny (he_Name h) whitespace_or_slash = false /\ seen_hosts s !! he_Name h = None) as H1.
  { destruct (present (he_Name h)) eqn:Ep.
    - pose proof (unique_nil (f +:+ ".name") "name" (he_Name h) (Z.of_nat i) (seen_hosts s)) as H.
      destruct (unique (f +:+ ".name") _ _ _ _) as [e n]. injection E1 as <- _. rewrite app_nil, when_errorf_nil. simpl in H. naive_solver.
    - unfold required in E1. rewrite Ep in E1. injection E1 as <- _. naive_solver. }
  destruct (if String.eqb (he_Endpoint h) "" then _ else _) as [e2 n2] eqn:E2.
  assert (host_port (he_Endpoint h) -> (e2 = [] <-> seen_endpoints s !! normaliseHostPort (he_Endpoint h) = None)) as H2.
  { intros Hp. rewrite (host_port_nonempty _ Hp) in E2.
    pose proof (unique_nil (f +:+ ".endpoint") "endpoint" (normaliseHostPort (he_Endpoint h)) (Z.of_nat i) (seen_endpoints s)) as H.
    rewrite E2 in H. exact H. }
  cbn [fst]. rewrite !app_nil, H1, hostPort_nil, arch_nil, !positive_nil, blank_keys_nil, clientTLS_nil, http_cache_nil. split.
  - intros ((Hn & Hc & Hs) & Hp & He & Ha & Hv & Hm & Hl & Ht & Hk). split_and!; [by split|done|by apply H2].
  - intros ([Hn Hc Hp Ha [Hv Hm] Hl Ht Hk] & Hs & He). split_and!; try done. by apply H2.
Qed.

Lemma hostErrors_seen c i h s :
  (hostErrors c i h s).1 = [] ->
  (hostErrors c i h s).2 = {| seen_hosts := <[he_Name h := Z.of_nat i]> (seen_hosts s);
                              seen_endpoints := <[normaliseHostPort (he_Endpoint h) := Z.of_nat i]> (seen_endpoints s) |}.
Proof.
  intros Hnil. apply hostErrors_nil in Hnil as ([Hn _ Hp _ _ _ _ _] & Hs & He). unfold hostErrors.
  by rewrite Hn, (host_port_nonempty _ Hp), (unique_fresh _ _ _ _ _ Hs), (unique_fresh _ _ _ _ _ He).
Qed.

Lemma hostsLoop_nil c i hs s :
  hostsLoop c i hs s = [] <->
  Forall (host_rules c) hs /\ fresh (seen_hosts s) (he_Name <$> hs) /\ fresh (seen_endpoints s) ((normaliseHostPort ∘ he_Endpoint) <$> hs).
Proof.
  revert i s. induction hs as [|h hs IH]; intros i s; cbn [hostsLoop].
  { split; [intros _; split_and!; [constructor|apply fresh_nil..]|done]. }
  pose proof (hostErrors_nil c i h s) as HN. pose proof (hostErrors_seen c i h s) as HS.
  destruct (hostErrors c i h s) as [e s1]. cbn [fst snd] in *. rewrite app_nil, IH, !fmap_cons, Forall_cons. cbn [compose]. split.
  - intros [He (H1 & H2 & H3)]. rewrite (HS He) in *. apply HN in He as (Hr & Hn & Hp). simpl in *.
    split_and!; [done..| |]; by apply (fresh_cons _ _ (Z.of_nat i)).
  - intros ([Hr Hrs] & Hn & Hp). apply (fresh_cons _ _ (Z.of_nat i)) in Hn as [Hn Hns], Hp as [Hp Hps].
    assert (e = []) as He by (by apply HN). rewrite (HS He). done.
Qed.

(** ** The other sections *)
Lemma port_nil f p : port f p = [] <-> 1 <= p <= 65535.
Proof. unfold port. rewrite when_errorf_nil, orb_false_iff, !Z.ltb_ge. lia. Qed.

Definition enabled_ports (svcs : list (string * Service)) : list Z :=
  (fun ns => svc_Port ns.2) <$> filter (fun ns => IsEnabled ns.2 = true) svcs.

Lemma servicePorts_nil svcs ports :
  servicePorts svcs ports = [] <->
  Forall (fun ns => 1 <= svc_Port ns.2 <= 65535) svcs /\ NoDup (enabled_ports svcs) /\ (forall p, p ∈ enabled_ports svcs -> ports !! p = None).
Proof.
  unfold enabled_ports. revert ports. induction svcs as [|[name s] svcs IH]; intros ports; cbn [servicePorts].
  { split; [intros _; split_and!; [constructor|constructor|set_solver]|done]. }
  rewrite app_nil, port_nil, Forall_cons, filter_cons. cbn [snd]. destruct (IsEnabled s) eqn:En; cbn [negb].
  - rewrite decide_True by done. rewrite fmap_cons, NoDup_cons. cbn [snd]. destruct (ports !! svc_Port s) as [o|] eqn:Ep.
    + rewrite app_nil. split; [intros [_ [[=] _]]|]. intros (_ & _ & H). specialize (H (svc_Port s)). set_solver.
    + rewrite IH. split.
      * intros (H1 & H2 & H3 & H4). split; [done|]. split; [split; [|done]|].
        -- intros Hin. specialize (H4 _ Hin). by rewrite lookup_insert_eq in H4.
        -- intros p [->|Hp]%elem_of_cons; [done|]. specialize (H4 p Hp). destruct (decide (p = svc_Port s)) as [->|]; [done|]. by rewrite lookup_insert_ne in H4.
      * intros ([H1 H2] & [H3 H4] & H5). split; [done|]. split; [done|]. split; [done|]. intros p Hp. rewrite lookup_insert_ne; [set_solver|]. by intros <-.
  - rewrite decide_False by congruence. rewrite IH. naive_solver.
Qed.

(** ** The names of Kubernetes objects *)

(** An RFC 1123 label: it starts and ends with a lower-case letter or a digit
    and has nothing but those and dashes. *)
Definition rfc_label (l : list Ascii.ascii) : Prop :=
  (exists c, head l = Some c /\ lower_alnum c = true) /\ (exists c, last l = Some c /\ lower_alnum c = true)
  /\ Forall (fun c => lower_alnum c = true \/ c = "-"%char) l.
Fixpoint join_dots (parts : list (list Ascii.ascii)) : list Ascii.ascii :=
  match parts with [] => [] | [p] => p | p :: parts => p ++ "."%char :: join_dots parts end.
Definition namespace_name (s : string) : Prop :=
  present s = true /\ rfc_label (String.list_ascii_of_string s) /\ (String.length s <= 63)%nat.
(** A dot-separated series of labels. *)
Definition subdomain_name (s : string) : Prop :=
  present s = true /\ (String.length s <= 253)%nat
  /\ exists parts, parts <> [] /\ Forall rfc_label parts /\ String.list_ascii_of_string s = join_dots parts.
Definition config_map_key (s : string) : Prop :=
  present s = true /\ (String.length s <= 253)%nat
  /\ Forall (fun c => lower_alnum c = true \/ upper c = true \/ c ∈ ["-"%char; "."%char; "_"%char]) (String.list_ascii_of_string s).

Lemma forallb_Forall {A} (f : A -> bool) (P : A -> Prop) l : (forall x, f x = true <-> P x) -> forallb f l = true <-> Forall P l.
Proof. intros H. induction l as [|x l IH]; simpl; [naive_solver|]. by rewrite andb_true_iff, IH, H, Forall_cons. Qed.
Lemma label_shape_true l : label_shape l = true <-> rfc_label l.
Proof.
  assert (forallb (fun c => lower_alnum c || Ascii.eqb c "-"%char) l = true <-> Forall (fun c => lower_alnum c = true \/ c = "-"%char) l) as HF.
  { apply forallb_Forall. intros c. by rewrite orb_true_iff, Ascii.eqb_eq. }
  unfold rfc_label. rewrite <-HF. clear HF. unfold label_shape. destruct l as [|c l]; [naive_solver|]. rewrite !andb_true_iff. cbn [head].
  destruct (last (c :: l)) as [d|]; simpl; naive_solver.
Qed.
Lemma join_dot_parts s : join_dots (dot_parts s) = s /\ dot_parts s <> [].
Proof.
  induction s as [|c s [IH Hne]]; [done|]. cbn [dot_parts]. destruct (Ascii.eqb_spec c "."%char) as [->|Hc].
  - destruct (dot_parts s) as [|p ps]; [done|]. split; [|done]. simpl in *. by rewrite IH.
  - destruct (dot_parts s) as [|p [|q ps]]; [done|by simpl in *; subst|]. split; [|done]. simpl in *. by rewrite IH.
Qed.
Lemma dot_parts_label p : rfc_label p -> dot_parts p = [p].
Proof.
  intros (_ & _ & HF). induction p as [|c p IH]; [done|]. apply Forall_cons in HF as [Hc HF]. cbn [dot_parts].
  destruct (Ascii.eqb_spec c "."%char) as [->|]; [by destruct Hc|]. by rewrite IH.
Qed.
Lemma dot_parts_app p s : rfc_label p -> dot_parts (p ++ "."%char :: s) = p :: dot_parts s.
Proof.
  intros (_ & _ & HF). induction p as [|c p IH]; [done|]. apply Forall_cons in HF as [Hc HF]. cbn [dot_parts app].
  destruct (Ascii.eqb_spec c "."%char) as [->|]; [by destruct Hc|]. by rewrite IH.
Qed.
Lemma dot_parts_join parts : parts <> [] -> Forall rfc_label parts -> dot_parts (join_dots parts) = parts.
Proof.
  intros Hne HF. induction HF as [|p parts Hp HF IH]; [done|]. destruct parts as [|q parts]; [by apply dot_parts_label|].
  change (dot_parts (p ++ "."%char :: join_dots (q :: parts)) = p :: q :: parts). by rewrite dot_parts_app, IH.
Qed.
Lemma dnsSubdomain_true s :
  dnsSubdomain s = true <-> exists parts, parts <> [] /\ Forall rfc_label parts /\ String.list_ascii_of_string s = join_dots parts.
Proof.
  unfold dnsSubdomain. set (l := String.list_ascii_of_string s).
  assert (forallb label_shape (dot_parts l) = true <-> Forall rfc_label (dot_parts l)) as ->.
  { apply forallb_Forall, label_shape_true. }
  split; [destruct (join_dot_parts l); naive_solver|]. intros (parts & Hne & HF & ->). by rewrite dot_parts_join.
Qed.
Lemma dnsLabel_true s : dnsLabel s = true <-> rfc_label (String.list_ascii_of_string s) /\ (String.length s <= 63)%nat.
Proof. unfold dnsLabel. by rewrite andb_true_iff, label_shape_true, Nat.leb_le. Qed.
Lemma configMapKey_true s : present s = true ->
  configMapKey s = true <-> Forall (fun c => lower_alnum c = true \/ upper c = true \/ c ∈ ["-"%char; "."%char; "_"%char]) (String.list_ascii_of_string s).
Proof.
  intros Hs. unfold configMapKey. destruct s as [|c s]; [done|]. apply forallb_Forall. intros d. rewrite !orb_true_iff, existsb_exists.
  setoid_rewrite <-list_elem_of_In. setoid_rewrite Ascii.eqb_eq. naive_solver.
Qed.

(** What the claim backend's section has to be. *)
Record claim_rules (k : ClaimPools) : Prop := {
  clr_kubeconfig : cl_Kubeconfig k <> "" -> abs_path (cl_Kubeconfig k);
  clr_context : cl_Context k <> "" -> cl_Kubeconfig k <> "";
  clr_namespace : cl_Namespace k <> "" -> rfc_label (String.list_ascii_of_string (cl_Namespace k)) /\ (String.length (cl_Namespace k) <= 63)%nat;
  clr_holder : subdomain_name (cl_HolderServiceAccount k);
  clr_ca : namespace_name (ca_Namespace (cl_ServingCA k)) /\ subdomain_name (ca_Name (cl_ServingCA k)) /\ config_map_key (ca_Key (cl_ServingCA k))
}.

Lemma if_required_nil f v l (P : Prop) : (present v = true -> l = [] <-> P) -> (if present v then l else required f v) = [] <-> present v = true /\ P.
Proof. intros H. destruct (present v) eqn:E; [rewrite H by done; naive_solver|]. unfold required. rewrite E. naive_solver. Qed.

Lemma claimPools_nil k : claimPools k = [] <-> exists cl, k = Some cl /\ claim_rules cl.
Proof.
  destruct k as [k|]; [|split; [done|naive_solver]]. unfold claimPools. cbv zeta.
  assert (forall f v what, (if present v then when ((253 <? String.length v)%nat || negb (dnsSubdomain v)) (errorf f what) else required f v) = []
    <-> subdomain_name v) as HS.
  { intros f v what. apply if_required_nil. intros _. by rewrite when_errorf_nil, orb_false_iff, negb_false_iff, Nat.ltb_ge, dnsSubdomain_true. }
  assert (forall f v what, (if present v then when (negb (dnsLabel v)) (errorf f what) else required f v) = [] <-> namespace_name v) as HN.
  { intros f v what. apply if_required_nil. intros _. by rewrite when_errorf_nil, negb_false_iff, dnsLabel_true. }
  assert (forall f v what, (if present v then when ((253 <? String.length v)%nat || negb (configMapKey v)) (errorf f what) else required f v) = []
    <-> config_map_key v) as HK.
  { intros f v what. apply if_required_nil. intros Hv. by rewrite when_errorf_nil, orb_false_iff, negb_false_iff, Nat.ltb_ge, configMapKey_true. }
  rewrite !app_nil, !HS, HN, HK, when_errorf_nil, andb_false_iff, !negb_false_iff, dnsLabel_true, String.eqb_eq.
  assert ((if negb (String.eqb (cl_Kubeconfig k) "") then absPath "pool_manager.claim.kubeconfig" (cl_Kubeconfig k)
           else when (negb (String.eqb (cl_Context k) "")) (errorf "pool_manager.claim.context" "needs a kubeconfig")) = []
    <-> (cl_Kubeconfig k <> "" -> abs_path (cl_Kubeconfig k)) /\ (cl_Context k <> "" -> cl_Kubeconfig k <> "")) as HX.
  { destruct (String.eqb_spec (cl_Kubeconfig k) "") as [E|E]; simpl.
    - rewrite when_errorf_nil. destruct (String.eqb_spec (cl_Context k) ""); naive_solver.
    - rewrite absPath_nil. naive_solver. }
  change ("pool_manager.claim" +:+ ".kubeconfig") with "pool_manager.claim.kubeconfig".
  change ("pool_manager.claim" +:+ ".context") with "pool_manager.claim.context". rewrite HX.
  assert (cl_Namespace k = "" \/ (rfc_label (String.list_ascii_of_string (cl_Namespace k)) /\ (String.length (cl_Namespace k) <= 63)%nat)
    <-> (cl_Namespace k <> "" -> rfc_label (String.list_ascii_of_string (cl_Namespace k)) /\ (String.length (cl_Namespace k) <= 63)%nat)) as HY.
  { destruct (decide (cl_Namespace k = "")); naive_solver. }
  rewrite HY. split; [intros ([] & ? & ? & ? & ? & ?); exists k; by split|]. by intros (? & [= <-] & []).
Qed.

Section Rules.
Context (url_Parse : string -> option URL).

Definition http_url (raw : string) (u : URL) : Prop :=
  present raw = true /\ url_Parse raw = Some u /\ u_Host u <> "" /\ (u_Scheme u = "http" \/ u_Scheme u = "https").

Lemma httpURL_of_Some raw u : httpURL_of url_Parse raw = Some u <-> http_url raw u.
Proof.
  unfold httpURL_of, http_url. destruct (present raw); simpl; [|naive_solver]. destruct (url_Parse raw) as [v|]; [|naive_solver].
  destruct (String.eqb_spec (u_Host v) ""), (String.eqb_spec (u_Scheme v) "http"), (String.eqb_spec (u_Scheme v) "https"); simpl; naive_solver.
Qed.
Lemma httpURL_nil f raw : httpURL url_Parse f raw = [] <-> exists u, http_url raw u.
Proof.
  unfold httpURL. setoid_rewrite <-httpURL_of_Some. unfold httpURL_of. destruct (present raw) eqn:E; simpl.
  - destruct (match url_Parse raw with Some _ => _ | None => _ end); naive_solver.
  - unfold required. rewrite E. naive_solver.
Qed.

Record gitlab_rules (g : GitLab) : Prop := {
  glr_url : exists u, http_url (gl_URL g) u /\ (u_Scheme u = "https" \/ gl_AllowInsecure g = true);
  glr_secret : present (gl_Token g) = true /\ present (gl_Name g) = true;
  glr_limits : 0 < gl_Concurrent g /\ 0 < gl_CheckInterval g /\ 0 < gl_OutputLimitKB g /\ 0 < gl_ShutdownTimeout g;
  glr_tls : tls_rules (gl_TLS g) /\ tls_Insecure (gl_TLS g) = false
}.

Lemma gitlab_nil g : gitlab url_Parse g = [] <-> gitlab_rules g.
Proof.
  unfold gitlab. rewrite !app_nil, httpURL_nil, !required_nil, !positive_nil, clientTLS_nil, when_errorf_nil.
  assert ((exists u, http_url (gl_URL g) u) /\ match httpURL_of url_Parse (gl_URL g) with
    | Some u => when (negb (String.eqb (u_Scheme u) "https") && negb (gl_AllowInsecure g)) (errorf "gitlab.url" "must use https") | None => [] end = []
    <-> exists u, http_url (gl_URL g) u /\ (u_Scheme u = "https" \/ gl_AllowInsecure g = true)) as HU.
  { setoid_rewrite <-httpURL_of_Some. destruct (httpURL_of url_Parse (gl_URL g)) as [u|]; [|naive_solver]. rewrite when_errorf_nil.
    destruct (String.eqb_spec (u_Scheme u) "https"), (gl_AllowInsecure g); simpl; naive_solver. }
  split.
  - intros (H1 & H2 & H3 & H4 & H5 & H6 & H7 & H8 & H9 & H10). split; [by apply HU|done..].
  - intros [H1%HU [H2 H3] (H4 & H5 & H6 & H7) [H8 H9]]. naive_solver.
Qed.

Record pool_manager_rules (pm : PoolManagerConfig) : Prop := {
  pmr_backend : (pm_Backend pm = "" \/ pm_Backend pm = PoolBackendBattery) /\ pm_Claim pm = None
                \/ pm_Backend pm = PoolBackendClaim /\ exists k, pm_Claim pm = Some k /\ claim_rules k;
  pmr_endpoint : if IsClaim pm then present (pm_Endpoint pm) = true -> host_port (pm_Endpoint pm) else host_port (pm_Endpoint pm);
  pmr_tls : tls_rules (pm_TLS pm);
  pmr_times : 0 < pm_Deadline pm /\ 0 < pm_HealthBackoff pm /\ 0 < pm_HealthInterval pm /\ 0 < pm_HealthFailureThreshold pm
              /\ 0 < pm_EventsPollInterval pm /\ 0 < pm_DeclareRetryInterval pm /\ 0 <= pm_ReleaseRetryLimit pm
}.

Lemma poolManager_nil pm : poolManager pm = [] <-> pool_manager_rules pm.
Proof.
  unfold poolManager. rewrite !app_nil, clientTLS_nil, !positive_nil, nonNegative_nil.
  assert ((if String.eqb (pm_Backend pm) "" || String.eqb (pm_Backend pm) PoolBackendBattery
     then when (bool_decide (is_Some (pm_Claim pm))) (errorf "pool_manager.claim" "is only read with the claim backend")
     else if String.eqb (pm_Backend pm) PoolBackendClaim then claimPools (pm_Claim pm) else errorf "pool_manager.backend" "must be battery or claim") = []
    <-> ((pm_Backend pm = "" \/ pm_Backend pm = PoolBackendBattery) /\ pm_Claim pm = None \/ pm_Backend pm = PoolBackendClaim /\ claimPools (pm_Claim pm) = [])) as HB.
  { destruct (String.eqb_spec (pm_Backend pm) "") as [E|E]; simpl.
    { rewrite when_errorf_nil, bool_decide_eq_false, <-eq_None_not_Some. rewrite E. naive_solver. }
    destruct (String.eqb_spec (pm_Backend pm) PoolBackendBattery) as [E2|E2]; simpl.
    { rewrite when_errorf_nil, bool_decide_eq_false, <-eq_None_not_Some. rewrite E2. naive_solver. }
    destruct (String.eqb_spec (pm_Backend pm) PoolBackendClaim); naive_solver. }
  assert ((if present (pm_Endpoint pm) then hostPort "pool_manager.endpoint" (pm_Endpoint pm) else when (negb (IsClaim pm)) (errorf "pool_manager.endpoint" "is required")) = []
    <-> if IsClaim pm then present (pm_Endpoint pm) = true -> host_port (pm_Endpoint pm) else host_port (pm_Endpoint pm)) as HE.
  { pose proof (hostPort_nil "pool_manager.endpoint" (pm_Endpoint pm)) as HP. destruct (present (pm_Endpoint pm)) eqn:Ep.
    - rewrite HP. destruct (IsClaim pm); naive_solver.
    - rewrite when_errorf_nil. destruct (IsClaim pm); simpl; [naive_solver|]. split; [done|]. intros [H _]. congruence. }
  rewrite HB, HE, claimPools_nil. split.
  - intros (H1 & H2 & H3 & H4). split; naive_solver.
  - intros [H1 H2 H3 H4]. naive_solver.
Qed.

Record scheduler_rules (s : SchedulerConfig) : Prop := {
  scr_ns : present (sc_Namespace s) = true /\ ContainsAny (sc_Namespace s) whitespace_or_slash = false;
  scr_times : 0 < sc_AllocationTimeout s /\ 0 < sc_HostHealthInterval s /\ 0 < sc_HostUnhealthyThreshold s /\ 0 < sc_HostCallDeadline s;
  scr_keep : 0 <= sc_KeepDuration s /\ (sc_KeepOnFailure s = true -> 0 < sc_KeepDuration s)
}.
Lemma scheduler_nil s : scheduler s = [] <-> scheduler_rules s.
Proof.
  unfold scheduler. rewrite !app_nil, !positive_nil. split.
  - intros (H1 & H2 & H3 & H4 & H5 & H6). split; [|done|].
    + destruct (present (sc_Namespace s)) eqn:E; [by apply when_errorf_nil in H1|]. unfold required in H1. by rewrite E in H1.
    + destruct (sc_KeepOnFailure s); [apply positive_nil in H6|apply nonNegative_nil in H6]; split; [lia|done|lia|done].
  - intros [[H1 H2] (H3 & H4 & H5 & H6) [H7 H8]]. rewrite H1. split_and!; try done; [by apply when_errorf_nil|].
    destruct (sc_KeepOnFailure s); [apply positive_nil; auto|by apply nonNegative_nil].
Qed.

Lemma executor_nil e : executor e = [] <-> 0 < ex_PrepareTimeout e /\ 0 < ex_GracefulKillTimeout e /\ 0 < ex_TransportDeadline e.
Proof. unfold executor. by rewrite !app_nil, !positive_nil. Qed.
End Rules.
