(* ===== verification/ConfigValid.v ===== *)
(** * What Validate accepts

    The exact set of configurations [Validate] accepts, the minimal
    configuration, and what an accepted Profile is worth at the Pool Manager. *)
From S2P Require Import Prelude GoModel PoolTypes ConfigTypes Base64 Spec PathMatch GoStrings NetIP ConfigImage ConfigDefaults ConfigValidate ConfigThms.
From Stdlib Require Import Ascii.

(** ** Endpoints *)

(** Two endpoints name the same daemon: they are the same string, or their
    hosts are and their ports are the same number. *)
Definition same_endpoint (a b : string) : Prop :=
  a = b \/ exists host p q n, SplitHostPort a = Some (host, p) /\ SplitHostPort b = Some (host, q) /\ Atoi p = Some n /\ Atoi q = Some n.

Lemma digits_nonneg s acc n : 0 <= acc -> digits s acc = Some n -> 0 <= n.
Proof.
  revert acc. induction s as [|c s IH]; simpl; intros acc Ha; [by intros [= <-]|]. unfold digit.
  destruct (_ && _) eqn:E; [|done]. apply andb_true_iff in E as [E1%Z.leb_le E2%Z.leb_le]. apply IH. lia.
Qed.
Lemma Atoi_unsigned c s : c <> "-"%char -> c <> "+"%char ->
  Atoi (String c s) = match digits (String c s) 0 with Some n => if n <? 2 ^ 63 then Some n else None | None => None end.
Proof. intros H1 H2. destruct c as [[] [] [] [] [] [] [] []]; try reflexivity; by (destruct H1 || destruct H2). Qed.
Lemma Atoi_Itoa_nonneg n : 0 <= n < 2 ^ 63 -> Atoi (Itoa n) = Some n.
Proof.
  intros [Hn Hlt]. pose proof (Itoa_digits n Hn) as Hd. pose proof (digits_Itoa n Hn) as HI. pose proof (Itoa_ne n Hn) as Hne.
  destruct (Itoa n) as [|c s]; [done|]. simpl in Hd. apply andb_true_iff in Hd as [Hc _].
  rewrite Atoi_unsigned, HI by (intros ->; done). by rewrite (proj2 (Z.ltb_lt n (2 ^ 63)) Hlt).
Qed.
Lemma Itoa_neg p : Itoa (Z.neg p) = String "-"%char (Itoa (Z.pos p)).
Proof. reflexivity. Qed.
Lemma Atoi_Itoa n : - 2 ^ 63 <= n < 2 ^ 63 -> Atoi (Itoa n) = Some n.
Proof.
  intros [H1 H2]. destruct n as [|p|p]; [done|by apply Atoi_Itoa_nonneg|]. rewrite Itoa_neg.
  pose proof (digits_Itoa (Z.pos p) ltac:(done)) as HI. pose proof (Itoa_ne (Z.pos p) ltac:(done)) as Hne.
  unfold Atoi. destruct (Itoa (Z.pos p)) as [|c s]; [done|]. rewrite HI. by destruct (Z.leb_spec (Z.pos p) (2 ^ 63)); [|lia].
Qed.
Lemma Atoi_range s n : Atoi s = Some n -> - 2 ^ 63 <= n < 2 ^ 63.
Proof.
  assert (forall s m, match s with EmptyString => None | _ => digits s 0 end = Some m -> 0 <= m) as HD.
  { intros [|c t] m; [done|]. by apply digits_nonneg. }
  destruct s as [|c s]; [done|]. destruct (decide (c = "-"%char)) as [->|H1].
  { unfold Atoi. specialize (HD s). destruct (match s with EmptyString => _ | _ => _ end) as [m|]; [|done].
    specialize (HD m eq_refl). destruct (Z.leb_spec m (2 ^ 63)); [|done]. intros [= <-]. lia. }
  destruct (decide (c = "+"%char)) as [->|H2].
  { unfold Atoi. specialize (HD s). destruct (match s with EmptyString => _ | _ => _ end) as [m|]; [|done].
    specialize (HD m eq_refl). destruct (Z.ltb_spec m (2 ^ 63)); [|done]. intros [= <-]. lia. }
  rewrite Atoi_unsigned by done. specialize (HD (String c s)). cbv iota in HD. destruct (digits (String c s) 0) as [m|]; [|done].
  specialize (HD m eq_refl). destruct (Z.ltb_spec m (2 ^ 63)); [|done]. intros [= <-]. lia.
Qed.
Lemma Itoa_no c n : is_digit c = false -> c <> "-"%char -> has_byte c (Itoa n) = false.
Proof.
  intros Hd Hc. destruct n as [|p|p]; try (eapply all_chars_no; [by apply Itoa_digits|done]). rewrite Itoa_neg. cbn [has_byte].
  apply orb_false_iff. split; [by apply Ascii.eqb_neq|]. eapply all_chars_no; [by apply Itoa_digits|done].
Qed.
Lemma SplitHostPort_host a host port : SplitHostPort a = Some (host, port) -> has_byte "["%char host = false /\ has_byte "]"%char host = false.
Proof.
  unfold SplitHostPort. destruct (CutLast a ":"%char) as [[before p]|] eqn:EC; [|done]. apply CutLast_Some in EC as [Ea _].
  destruct a as [|c a]; [by destruct before|]. destruct (decide (c = "["%char)) as [->|Hc].
  - destruct (Cut a "]"%char) as [[h after]|] eqn:EH; [|done]. apply Cut_Some in EH as [-> Hh]. destruct (negb _); [done|].
    destruct (_ || _) eqn:EB; [done|]. apply orb_false_iff in EB as [EB _]. rewrite has_byte_app in EB. apply orb_false_iff in EB as [EB _].
    by intros [= <- <-].
  - rewrite not_bracket by done. destruct (has_byte ":"%char before); [done|]. destruct (_ || _) eqn:EB; [done|]. intros [= <- <-].
    rewrite Ea, !has_byte_app in EB. apply orb_false_iff in EB as [[EB _]%orb_false_iff [EB' _]%orb_false_iff]. done.
Qed.
Lemma normalised_split a host port n : SplitHostPort a = Some (host, port) ->
  SplitHostPort (JoinHostPort host (Itoa n)) = Some (host, Itoa n).
Proof. intros [H1 H2]%SplitHostPort_host. apply SplitHostPort_JoinHostPort; try done; by apply Itoa_no. Qed.

(** The key of the duplicate check tells apart exactly what names different
    daemons. *)
Lemma normaliseHostPort_same a b : host_port a -> host_port b -> normaliseHostPort a = normaliseHostPort b <-> same_endpoint a b.
Proof.
  intros (_ & _ & h1 & p1 & E1 & _) (_ & _ & h2 & p2 & E2 & _). unfold normaliseHostPort, same_endpoint. rewrite E1, E2.
  destruct (Atoi p1) as [n1|] eqn:A1, (Atoi p2) as [n2|] eqn:A2.
  - split.
    + intros HJ. right. pose proof (normalised_split a h1 p1 n1 E1) as S1. rewrite HJ, (normalised_split b h2 p2 n2 E2) in S1.
      injection S1 as -> HI. apply (f_equal Atoi) in HI. rewrite !Atoi_Itoa in HI by (by eapply Atoi_range). injection HI as ->. eauto 10.
    + intros [->|(h & p & q & n & [= <- <-] & [= <- <-] & ? & ?)]; [|congruence].
      assert (Some (h1, p1) = Some (h2, p2)) as [= -> ->] by congruence. congruence.
  - split; [intros <-|intros [->|(h & p & q & n & [= <- <-] & [= <- <-] & _ & ?)]; congruence].
    rewrite (normalised_split a h1 p1 n1 E1) in E2. injection E2 as <- <-. rewrite Atoi_Itoa in A2 by (by eapply Atoi_range). done.
  - split; [intros ->|intros [->|(h & p & q & n & [= <- <-] & [= <- <-] & ? & _)]; congruence].
    rewrite (normalised_split b h2 p2 n2 E2) in E1. injection E1 as <- <-. rewrite Atoi_Itoa in A1 by (by eapply Atoi_range). done.
  - split; [by left|]. intros [?|(h & p & q & n & [= <- <-] & [= <- <-] & ? & _)]; [done|congruence].
Qed.

(** ** Storage *)
Lemma int64_add_l a b : int64 (int64 a + b) = int64 (a + b).
Proof.
  unfold int64, wrap_signed. f_equal. set (m := 2 ^ 64). set (h := 2 ^ (64 - 1)).
  replace ((a + h) mod m - h + b + h) with ((a + h) mod m + b) by lia. rewrite Zplus_mod_idemp_l. f_equal. lia.
Qed.

(** The storage limits that count: those of the enabled services. *)
Definition enabled_limits (hs : HostServices) : list Z :=
  (if IsEnabled (bk_Service (hs_Buildkit hs)) then [bk_StorageLimit (hs_Buildkit hs)] else [])
  ++ (if IsEnabled (gp_Service (hs_GoProxy hs)) then [gp_StorageLimit (hs_GoProxy hs)] else [])
  ++ (if IsEnabled (rm_Service (hs_RegistryMirror hs)) then [rm_StorageLimit (hs_RegistryMirror hs)] else [])
  ++ (if IsEnabled (hc_Service (hs_HTTPCache hs)) then hu_SizeLimit <$> hc_Upstreams (hs_HTTPCache hs) else []).
Definition total (l : list Z) : Z := foldr Z.add 0 l.

Lemma total_app l k : total (l ++ k) = total l + total k.
Proof. unfold total. induction l; simpl; lia. Qed.
Lemma fold_int64 (us : list HTTPCacheUpstream) acc :
  fold_left (fun acc u => int64 (acc + hu_SizeLimit u)) us (int64 acc) = int64 (acc + total (hu_SizeLimit <$> us)).
Proof.
  unfold total. revert acc. induction us as [|u us IH]; intros acc; cbn [fold_left fmap list_fmap foldr].
  - by rewrite Z.add_0_r.
  - rewrite int64_add_l, IH, Z.add_assoc. done.
Qed.
Lemma storageLimits_total hs : storageLimits hs = int64 (total (enabled_limits hs)).
Proof.
  assert (fold_left (fun acc u => int64 (acc + hu_SizeLimit u)) (hc_Upstreams (hs_HTTPCache hs)) 0
    = int64 (total (hu_SizeLimit <$> hc_Upstreams (hs_HTTPCache hs)))) as H0 by exact (fold_int64 _ 0).
  unfold storageLimits, enabled_limits. rewrite !total_app. cbv zeta.
  destruct (IsEnabled (bk_Service _)), (IsEnabled (gp_Service _)), (IsEnabled (rm_Service _)), (IsEnabled (hc_Service _));
    rewrite ?int64_add_l, ?fold_int64, ?H0; rewrite <-?Z.add_assoc, ?int64_add_l; unfold total; cbn [foldr]; try (apply (f_equal int64); lia); reflexivity.
Qed.

(** ** The Pools of the Profiles *)
Definition pool_pairs (ps : list ProfileConfig) : list (string * string) := (fun p => (ps_Namespace (p_Pool p), ps_Name (p_Pool p))) <$> ps.
Definition joined_pools (ps : list ProfileConfig) : list string := (fun r => r.1 +:+ "/" +:+ r.2) <$> pool_pairs ps.
Definition plain_namespaces (ps : list ProfileConfig) : Prop := Forall (fun p => has_byte "/"%char (ps_Namespace (p_Pool p)) = false) ps.

Lemma join_slash_inj a b a' b' : has_byte "/"%char a = false -> has_byte "/"%char a' = false ->
  a +:+ "/" +:+ b = a' +:+ "/" +:+ b' -> a = a' /\ b = b'.
Proof.
  intros Ha Ha' E. assert (Cut (a +:+ String "/" b) "/"%char = Some (a, b)) as H1 by (by apply Cut_Some).
  assert (Cut (a +:+ String "/" b) "/"%char = Some (a', b')) as H2 by (by apply Cut_Some). rewrite H1 in H2. by injection H2 as -> ->.
Qed.
(** Joined by a slash or kept as pairs, the Pools of namespaces without one
    are told apart alike. *)
Lemma joined_pools_plain ps : plain_namespaces ps -> NoDup (joined_pools ps) <-> NoDup (pool_pairs ps).
Proof.
  intros HP. split; [apply NoDup_fmap_1|]. intros HN. unfold joined_pools. apply NoDup_fmap_2_strong; [|done].
  intros [a b] [a' b'] [p [Ep Hp]]%list_elem_of_fmap [q [Eq Hq]]%list_elem_of_fmap E. unfold plain_namespaces in HP. rewrite Forall_forall in HP.
  injection Ep as -> ->. injection Eq as -> ->. destruct (join_slash_inj _ _ _ _ (HP p Hp) (HP q Hq) E). by f_equal.
Qed.
Lemma joined_pools_keys ps : joined_pools ps = poolKey <$> ps.
Proof. unfold joined_pools, pool_pairs. by rewrite <-list_fmap_compose. Qed.

Section Valid.
Context (url_Parse : string -> option URL).

(** ** The rules of the other sections *)
Definition absolute_url (raw : string) : Prop := exists u, http_url url_Parse raw u.

Definition buildkit_rules (b : Buildkit) : Prop :=
  0 <= bk_StorageLimit b /\ (bk_GCPolicy b <> "" -> IsEnabled (bk_Service b) = true).
Record go_proxy_rules (g : GoProxy) : Prop := {
  gpr_upstream : absolute_url (gp_Upstream g);
  gpr_patterns : Forall (fun p => present p = true) (gp_PrivatePatterns g);
  gpr_credential : gp_PrivatePatterns g <> [] -> present (gp_CredentialParameter g) = true;
  gpr_vcs : gp_PrivateVCSHost g <> "" -> gp_PrivatePatterns g <> [];
  gpr_limits : 0 <= gp_PrivateRevalidateInterval g /\ 0 <= gp_StorageLimit g;
  gpr_prewarm : Forall (fun m => present m = true /\ Contains m "@" = true) (gp_Prewarm g)
}.
Record registry_rules (r : RegistryMirror) : Prop := {
  rgr_upstreams : Forall (fun u => absolute_url (ru_URL u)) (rm_Upstreams r) /\ NoDup (ru_URL <$> rm_Upstreams r);
  rgr_limit : 0 <= rm_StorageLimit r;
  rgr_prewarm : Forall (fun img => present img = true /\ exists ref, ParseImageRef img = Ok ref) (rm_Prewarm r)
}.
(** The name of an environment variable: a letter or an underscore, then
    letters, digits and underscores. *)
Definition env_var_name (s : string) : Prop :=
  exists c l, String.list_ascii_of_string s = c :: l
    /\ (lower_alnum c = true /\ is_digit c = false \/ upper c = true \/ c = "_"%char)
    /\ Forall (fun c => lower_alnum c = true \/ upper c = true \/ c = "_"%char) l.
Record upstream_rules (u : HTTPCacheUpstream) : Prop := {
  upr_name : present (hu_Name u) = true;
  upr_url : absolute_url (hu_URL u);
  upr_limits : 0 <= hu_SizeLimit u /\ 0 <= hu_TTL u;
  upr_env : present (hu_EnvVar u) = true /\ env_var_name (hu_EnvVar u)
}.
Definition http_cache_rules (us : list HTTPCacheUpstream) : Prop :=
  Forall upstream_rules us /\ NoDup (hu_Name <$> us) /\ NoDup (hu_EnvVar <$> us).
(** The cache lives on a device or in a directory, and not on both. *)
Definition volume_place (cv : CacheVolume) : Prop :=
  abs_path (cv_Device cv) /\ cv_Directory cv = "" \/ cv_Device cv = "" /\ abs_path (cv_Directory cv).
Record cache_rules (dc : DistributedCache) : Prop := {
  dcr_bucket : present (dc_Bucket dc) = true /\ present (dc_Region dc) = true;
  dcr_prefix : HasPrefix (dc_Prefix dc) "/" = false;
  dcr_secure : dc_Insecure dc = false;
  dcr_endpoint : dc_Endpoint dc <> "" -> exists u, http_url url_Parse (dc_Endpoint dc) u /\ u_Scheme u = "https" /\ (u_Path u = "" \/ u_Path u = "/")
}.
Record observability_rules (o : Observability) : Prop := {
  obr_format : ob_LogFormat o = LogJSON \/ ob_LogFormat o = LogText;
  obr_level : ToLower (ob_LogLevel o) ∈ ["debug"; "info"; "warn"; "error"];
  obr_address : present (ob_ListenAddress o) = true /\ exists host port, SplitHostPort (ob_ListenAddress o) = Some (host, port)
}.
Definition inventory_rules (c : Config) : Prop :=
  if IsClaim (c_PoolManager c) then inv_Hosts (c_Inventory c) = []
  else inv_Hosts (c_Inventory c) <> [] /\ Forall (host_rules c) (inv_Hosts (c_Inventory c))
       /\ NoDup (he_Name <$> inv_Hosts (c_Inventory c))
       /\ forall i j h h', inv_Hosts (c_Inventory c) !! i = Some h -> inv_Hosts (c_Inventory c) !! j = Some h' ->
            same_endpoint (he_Endpoint h) (he_Endpoint h') -> i = j.

(** The rules of the whole file. *)
Record config_rules (c : Config) : Prop := {
  cr_gitlab : gitlab_rules url_Parse (c_GitLab c);
  cr_profiles : c_Profiles c <> [] /\ Forall (profile_rules c) (c_Profiles c);
  cr_names : NoDup (p_Name <$> c_Profiles c);
  cr_images : NoDup (concat (p_Images <$> c_Profiles c));
  cr_pools : NoDup (joined_pools (c_Profiles c));
  cr_default : (length (filter (fun p => p_Default p = true) (c_Profiles c)) <= 1)%nat;
  cr_inventory : inventory_rules c;
  cr_pm : pool_manager_rules (c_PoolManager c);
  cr_scheduler : scheduler_rules (c_Scheduler c);
  cr_executor : 0 < ex_PrepareTimeout (c_Executor c) /\ 0 < ex_GracefulKillTimeout (c_Executor c) /\ 0 < ex_TransportDeadline (c_Executor c);
  cr_ports : Forall (fun ns => 1 <= svc_Port ns.2 <= 65535) (services (c_HostServices c)) /\ NoDup (enabled_ports (services (c_HostServices c)));
  cr_storage : 0 < cv_SizeCap (hs_CacheVolume (c_HostServices c))
               /\ int64 (total (enabled_limits (c_HostServices c))) <= cv_SizeCap (hs_CacheVolume (c_HostServices c))
               /\ volume_place (hs_CacheVolume (c_HostServices c));
  cr_services : buildkit_rules (hs_Buildkit (c_HostServices c)) /\ go_proxy_rules (hs_GoProxy (c_HostServices c))
                /\ registry_rules (hs_RegistryMirror (c_HostServices c)) /\ http_cache_rules (hc_Upstreams (hs_HTTPCache (c_HostServices c)));
  cr_cache : forall dc, c_DistributedCache c = Some dc -> cache_rules dc;
  cr_observability : observability_rules (c_Observability c);
  cr_state : abs_path (c_StateDir c)
}.

Lemma fresh_empty keys : fresh ∅ keys <-> NoDup keys.
Proof. unfold fresh. split; [by intros []|]. intros H. split; [done|]. intros; apply lookup_empty. Qed.

Lemma profiles_nil c :
  profiles c = [] <->
  (c_Profiles c <> [] /\ Forall (profile_rules c) (c_Profiles c)) /\ NoDup (p_Name <$> c_Profiles c)
  /\ NoDup (concat (p_Images <$> c_Profiles c)) /\ NoDup (poolKey <$> c_Profiles c)
  /\ (length (filter (fun p => p_Default p = true) (c_Profiles c)) <= 1)%nat.
Proof.
  unfold profiles. destruct (c_Profiles c) as [|p ps] eqn:E; [naive_solver|].
  pose proof (profilesLoop_nil c 0 (p :: ps) {| seen_names := ∅; seen_images := ∅; seen_pools := ∅; seen_defaults := 0 |}) as HN.
  pose proof (profilesLoop_defaults c 0 (p :: ps) {| seen_names := ∅; seen_images := ∅; seen_pools := ∅; seen_defaults := 0 |}) as HD.
  destruct (profilesLoop c 0 (p :: ps) _) as [es s]. cbn [fst snd seen_names seen_images seen_pools seen_defaults] in *.
  rewrite app_nil, HN, !fresh_empty, when_errorf_nil, Z.ltb_ge, HD. split.
  - intros [(H1 & H2 & H3 & H4) H5]. split_and!; [done..|lia].
  - intros ([_ H1] & H2 & H3 & H4 & H5). split_and!; [done..|lia].
Qed.

(** Over Hosts with proper endpoints the normalised keys are distinct exactly
    when no two endpoints are the same. *)
Lemma endpoints_distinct c hosts : Forall (host_rules c) hosts ->
  NoDup ((normaliseHostPort ∘ he_Endpoint) <$> hosts) <->
  forall i j h h', hosts !! i = Some h -> hosts !! j = Some h' -> same_endpoint (he_Endpoint h) (he_Endpoint h') -> i = j.
Proof.
  intros HF. assert (forall i h, hosts !! i = Some h -> host_port (he_Endpoint h)) as HP.
  { intros i h Hi. by apply (hr_endpoint c), (Forall_lookup_1 _ _ _ _ HF Hi). }
  rewrite NoDup_alt. split.
  - intros H i j h h' Hi Hj Hs. apply (normaliseHostPort_same _ _ (HP _ _ Hi) (HP _ _ Hj)) in Hs.
    apply (H i j (normaliseHostPort (he_Endpoint h))); rewrite list_lookup_fmap; [by rewrite Hi|rewrite Hj; simpl; by rewrite Hs].
  - intros H i j k. rewrite !list_lookup_fmap, !fmap_Some. intros (h & Hi & ->) (h' & Hj & Hk). apply (H i j h h' Hi Hj).
    by apply (normaliseHostPort_same _ _ (HP _ _ Hi) (HP _ _ Hj)).
Qed.

Lemma inventory_nil c : inventory c = [] <-> inventory_rules c.
Proof.
  unfold inventory, inventory_rules. destruct (IsClaim _), (inv_Hosts (c_Inventory c)) as [|h hs] eqn:E; try naive_solver.
  rewrite hostsLoop_nil. cbn [seen_hosts seen_endpoints]. rewrite !fresh_empty. split.
  - intros (H1 & H2 & H3). split_and!; try done. by apply (endpoints_distinct c).
  - intros (_ & H1 & H2 & H3). split_and!; try done. by apply (endpoints_distinct c).
Qed.

(** ** Each section's checks decide its rules *)
Lemma buildkit_nil b : buildkit b = [] <-> buildkit_rules b.
Proof.
  unfold buildkit, buildkit_rules. rewrite app_nil, !when_errorf_nil, Z.ltb_ge, andb_false_iff, !negb_false_iff, String.eqb_eq.
  destruct (decide (bk_GCPolicy b = "")); naive_solver.
Qed.

Lemma goProxy_nil g : goProxy url_Parse g = [] <-> go_proxy_rules g.
Proof.
  unfold goProxy. rewrite !app_nil, httpURL_nil, nonNegative_nil, !when_errorf_nil, Z.ltb_ge.
  rewrite (concat_imap_nil _ (fun p => present p = true)) by (intros; apply required_nil).
  rewrite (concat_imap_nil _ (fun m => present m = true /\ Contains m "@" = true)).
  2:{ intros i m. apply if_required_nil. intros _. by rewrite when_errorf_nil, negb_false_iff. }
  rewrite !andb_false_iff, !negb_false_iff, String.eqb_eq.
  assert ((match gp_PrivatePatterns g with [] => false | _ => true end) = false <-> gp_PrivatePatterns g = []) as -> by (by destruct (gp_PrivatePatterns g)).
  assert ((match gp_PrivatePatterns g with [] => true | _ => false end) = false <-> gp_PrivatePatterns g <> []) as -> by (by destruct (gp_PrivatePatterns g)).
  split.
  - intros (H1 & H2 & H3 & H4 & H5 & H6 & H7). split; try done; [by destruct H3|by destruct H4].
  - intros [H1 H2 H3 H4 [H5 H6] H7]. split_and!; try done.
    + destruct (gp_PrivatePatterns g); [by left|right; by apply H3].
    + destruct (decide (gp_PrivateVCSHost g = "")); [by right|left; by apply H4].
Qed.

Lemma registryUpstreams_nil i us seen :
  registryUpstreams url_Parse i us seen = [] <-> Forall (fun u => absolute_url (ru_URL u)) us /\ fresh seen (ru_URL <$> us).
Proof.
  revert i seen. induction us as [|u us IH]; intros i seen; cbn [registryUpstreams].
  { split; [intros _; split; [constructor|apply fresh_nil]|done]. }
  rewrite Forall_cons, fmap_cons, (fresh_cons _ _ (Z.of_nat i)).
  pose proof (httpURL_nil url_Parse (indexed "host_services.registry_mirror.upstreams" i +:+ ".url") (ru_URL u)) as HU. fold (absolute_url (ru_URL u)) in HU.
  destruct (httpURL_of url_Parse (ru_URL u)) as [v|] eqn:E.
  - assert (absolute_url (ru_URL u)) as Ha by (exists v; by apply httpURL_of_Some).
    unfold unique. destruct (seen !! ru_URL u) as [j|] eqn:Es; simpl; [naive_solver|]. rewrite IH. naive_solver.
  - assert (~ absolute_url (ru_URL u)) as Ha by (intros [v Hv%httpURL_of_Some]; congruence). rewrite app_nil, HU. naive_solver.
Qed.

Lemma registryMirror_nil r : registryMirror url_Parse r = [] <-> registry_rules r.
Proof.
  unfold registryMirror. rewrite !app_nil, registryUpstreams_nil, fresh_empty, when_errorf_nil, Z.ltb_ge.
  rewrite (concat_imap_nil _ (fun img => present img = true /\ exists ref, ParseImageRef img = Ok ref)).
  2:{ intros i img. destruct (present img) eqn:E; simpl; [|unfold required; rewrite E; naive_solver]. rewrite when_errorf_nil, negb_false_iff.
      destruct (ParseImageRef img); simpl; naive_solver. }
  split; [intros ([] & ? & ?); by split|intros [[] ? ?]; done].
Qed.

Lemma envVarName_true s : envVarName s = true <-> env_var_name s.
Proof.
  unfold envVarName, env_var_name. destruct (String.list_ascii_of_string s) as [|c l]; [naive_solver|].
  rewrite andb_true_iff, !orb_true_iff, andb_true_iff, negb_true_iff, bool_decide_eq_false, Ascii.eqb_eq.
  rewrite (forallb_Forall _ (fun c => lower_alnum c = true \/ upper c = true \/ c = "_"%char)).
  2:{ intros d. rewrite !orb_true_iff, Ascii.eqb_eq. tauto. }
  assert (~ is_Some (digit c) <-> is_digit c = false) as ->.
  { rewrite <-eq_None_not_Some. unfold is_digit. by destruct (digit c). }
  split; [intros [? ?]; exists c, l; naive_solver|]. intros (? & ? & [= <- <-] & ? & ?). naive_solver.
Qed.

(** What one upstream of the HTTP cache adds to the maps. *)
Lemma cacheUpstream_nil i u names envs :
  (cacheUpstream url_Parse i u names envs).1.1 = [] <-> upstream_rules u /\ names !! hu_Name u = None /\ envs !! hu_EnvVar u = None.
Proof.
  unfold cacheUpstream. set (f := indexed _ i).
  destruct (if present (hu_Name u) then _ else _) as [e1 n1] eqn:E1.
  assert (e1 = [] <-> present (hu_Name u) = true /\ names !! hu_Name u = None) as H1.
  { destruct (present (hu_Name u)) eqn:Ep.
    - pose proof (unique_nil (f +:+ ".name") "name" (hu_Name u) (Z.of_nat i) names) as H. rewrite E1 in H. simpl in H. naive_solver.
    - unfold required in E1. rewrite Ep in E1. injection E1 as <- _. naive_solver. }
  destruct (if present (hu_EnvVar u) then _ else _) as [e2 n2] eqn:E2.
  assert (e2 = [] <-> (present (hu_EnvVar u) = true /\ env_var_name (hu_EnvVar u)) /\ envs !! hu_EnvVar u = None) as H2.
  { destruct (present (hu_EnvVar u)) eqn:Ep.
    - rewrite <-envVarName_true. destruct (envVarName (hu_EnvVar u)); simpl in E2; [|injection E2 as <- _; naive_solver].
      pose proof (unique_nil (f +:+ ".env_var") "env_var" (hu_EnvVar u) (Z.of_nat i) envs) as H. rewrite E2 in H. simpl in H. naive_solver.
    - unfold required in E2. rewrite Ep in E2. injection E2 as <- _. naive_solver. }
  cbn [fst]. rewrite !app_nil, H1, H2, httpURL_nil, when_errorf_nil, Z.ltb_ge, nonNegative_nil. split.
  - intros ((? & ?) & ? & ? & ? & ? & ?). by split_and!; [split|..].
  - intros ([? ? [? ?] ?] & ? & ?). done.
Qed.
Lemma cacheUpstream_seen i u names envs : (cacheUpstream url_Parse i u names envs).1.1 = [] ->
  cacheUpstream url_Parse i u names envs = ([], <[hu_Name u := Z.of_nat i]> names, <[hu_EnvVar u := Z.of_nat i]> envs).
Proof.
  intros H. pose proof H as ([Hn _ _ [He He']] & H1 & H2)%cacheUpstream_nil. revert H. unfold cacheUpstream.
  rewrite Hn, He, (proj2 (envVarName_true _) He'), (unique_fresh _ _ _ _ _ H1), (unique_fresh _ _ _ _ _ H2). cbn [fst negb]. by intros ->.
Qed.
Lemma httpCacheLoop_nil i us names envs :
  httpCacheLoop url_Parse i us names envs = [] <-> Forall upstream_rules us /\ fresh names (hu_Name <$> us) /\ fresh envs (hu_EnvVar <$> us).
Proof.
  revert i names envs. induction us as [|u us IH]; intros i names envs; cbn [httpCacheLoop].
  { split; [intros _; split_and!; [constructor|apply fresh_nil..]|done]. }
  rewrite Forall_cons, !fmap_cons, !(fresh_cons _ _ (Z.of_nat i)).
  pose proof (cacheUpstream_nil i u names envs) as HN. pose proof (cacheUpstream_seen i u names envs) as HS.
  destruct (cacheUpstream url_Parse i u names envs) as [[e n'] v']. cbn [fst] in *. rewrite app_nil. split.
  - intros [He H]. injection (HS He) as -> -> ->. apply IH in H. naive_solver.
  - intros ([Hu Hus] & [Hn Hns] & [Hv Hvs]). assert (e = []) as He by (by apply HN). split; [done|]. injection (HS He) as -> -> ->. by apply IH.
Qed.

Lemma cacheVolume_nil cv : cacheVolume cv = [] <-> volume_place cv /\ 0 < cv_SizeCap cv.
Proof.
  unfold cacheVolume, volume_place. cbv zeta. rewrite app_nil, when_errorf_nil, Z.leb_gt.
  assert (~ abs_path "") as Hn by (by intros []).
  destruct (String.eqb_spec (cv_Device cv) "") as [E|E], (String.eqb_spec (cv_Directory cv) "") as [E'|E']; simpl; rewrite ?absPath_nil, ?E, ?E'; naive_solver.
Qed.

Lemma distributedCache_nil dc : distributedCache url_Parse dc = [] <-> forall d, dc = Some d -> cache_rules d.
Proof.
  destruct dc as [dc|]; [|naive_solver]. assert ((forall d, Some dc = Some d -> cache_rules d) <-> cache_rules dc) as -> by naive_solver.
  unfold distributedCache. rewrite !app_nil, !required_nil, !when_errorf_nil.
  assert ((if String.eqb (dc_Endpoint dc) "" then [] else
     match httpURL_of url_Parse (dc_Endpoint dc) with
     | None => httpURL url_Parse "distributed_cache.endpoint" (dc_Endpoint dc)
     | Some u => when (negb (String.eqb (u_Path u) "") && negb (String.eqb (u_Path u) "/")) (errorf "distributed_cache.endpoint" "must not have a path")
                 ++ when (String.eqb (u_Scheme u) "http") (errorf "distributed_cache.endpoint" "must be https")
     end) = [] <-> (dc_Endpoint dc <> "" -> exists u, http_url url_Parse (dc_Endpoint dc) u /\ u_Scheme u = "https" /\ (u_Path u = "" \/ u_Path u = "/"))) as HE.
  { destruct (String.eqb_spec (dc_Endpoint dc) "") as [E|E]; [naive_solver|]. setoid_rewrite <-httpURL_of_Some.
    destruct (httpURL_of url_Parse (dc_Endpoint dc)) as [u|] eqn:EU.
    - apply httpURL_of_Some in EU as (_ & _ & _ & Hs). rewrite app_nil, !when_errorf_nil, andb_false_iff, !negb_false_iff, !String.eqb_eq, String.eqb_neq.
      split; [intros [Hp Hh] _; exists u; split; [done|split; [by destruct Hs|done]]|].
      intros H. destruct (H E) as (? & [= <-] & Hs' & Hp). rewrite Hs'. done.
    - rewrite httpURL_nil. setoid_rewrite <-httpURL_of_Some. rewrite EU. naive_solver. }
  rewrite HE. split; [intros (? & ? & ? & ? & ?); by split|intros [[] ? ? ?]; done].
Qed.

Lemma observability_nil o : observability o = [] <-> observability_rules o.
Proof.
  unfold observability. rewrite !app_nil, !when_errorf_nil, !negb_false_iff, orb_true_iff, !String.eqb_eq, existsb_exists.
  rewrite (if_required_nil _ _ _ (exists host port, SplitHostPort (ob_ListenAddress o) = Some (host, port))).
  2:{ intros _. rewrite when_errorf_nil, negb_false_iff, bool_decide_eq_true. split; [intros [[h p] H]; eauto|intros (h & p & H); by exists (h, p)]. }
  assert ((exists x, In x ["debug"; "info"; "warn"; "error"] /\ String.eqb (ToLower (ob_LogLevel o)) x = true)
    <-> ToLower (ob_LogLevel o) ∈ ["debug"; "info"; "warn"; "error"]) as ->.
  { setoid_rewrite <-list_elem_of_In. split; [by intros (x & Hx & ->%String.eqb_eq)|]. intros H. eexists. split; [done|apply String.eqb_refl]. }
  split; [intros (? & ? & ?); by split|intros [? ? ?]; done].
Qed.

Lemma hostServices_nil hs :
  hostServices url_Parse hs = [] <->
  (Forall (fun ns => 1 <= svc_Port ns.2 <= 65535) (services hs) /\ NoDup (enabled_ports (services hs)))
  /\ (0 < cv_SizeCap (hs_CacheVolume hs) /\ int64 (total (enabled_limits hs)) <= cv_SizeCap (hs_CacheVolume hs) /\ volume_place (hs_CacheVolume hs))
  /\ buildkit_rules (hs_Buildkit hs) /\ go_proxy_rules (hs_GoProxy hs) /\ registry_rules (hs_RegistryMirror hs)
  /\ http_cache_rules (hc_Upstreams (hs_HTTPCache hs)).
Proof.
  unfold hostServices, http_cache_rules. rewrite !app_nil, servicePorts_nil, buildkit_nil, goProxy_nil, registryMirror_nil, httpCacheLoop_nil, !fresh_empty,
    cacheVolume_nil, when_errorf_nil, andb_false_iff, Z.ltb_ge, Z.ltb_ge, storageLimits_total. split.
  - intros ((H1 & H2 & _) & H3 & H4 & H5 & H6 & [H7 H8] & H9). split_and!; try done; lia || apply H6.
  - intros ([H1 H2] & (H3 & H4 & H5) & H6 & H7 & H8 & H9). split_and!; try done; (apply H9 || by right).
Qed.

Lemma Validate_nil c : Validate url_Parse c = [] <-> config_rules c.
Proof.
  unfold Validate. rewrite !app_nil, gitlab_nil, profiles_nil, inventory_nil, poolManager_nil, scheduler_nil, executor_nil, absPath_nil,
    hostServices_nil, distributedCache_nil, observability_nil, <-joined_pools_keys. split.
  - intros (H1 & (H2 & H3 & H4 & H5 & H6) & H7 & H8 & H9 & H10 & (H11 & H12 & H13) & H14 & H15 & H16). by split.
  - intros [H1 H2 H3 H4 H5 H6 H7 H8 H9 H10 H11 H12 H13 H14 H15 H16]. done.
Qed.

(** C17: [Validate] accepts a configuration exactly when it satisfies every
    rule: the Profiles' names and image names are unique, as are the strings
    that join a Pool's namespace and name with a slash (for namespaces without
    a slash: the Pools themselves), and at most one is the default; each
    Profile has pinned images, absolute paths, a known transport and strategy
    and a Host to run on; the Hosts' names are unique and no two
    endpoints name the same host and port number; enabled services have
    different ports and the sum of their storage limits, as a machine integer,
    fits the cache volume; and the sections of GitLab, the Pool Manager with
    its claim backend, the Scheduler, the Executor, each Host service, the
    distributed cache and the observability satisfy the rules written out
    above. *)
Theorem Validate_exact c :
  (Validate url_Parse c = [] <-> config_rules c)
  /\ (plain_namespaces (c_Profiles c) -> NoDup (joined_pools (c_Profiles c)) <-> NoDup (pool_pairs (c_Profiles c))).
Proof. split; [apply Validate_nil|apply joined_pools_plain]. Qed.
End Valid.

(** ** The minimal configuration *)
Definition zeroService : Service := {| svc_Enabled := None; svc_Port := 0 |}.
Definition minimalHost (name endpoint arch : string) (vcpu mem : Z) : HostEntry :=
  {| he_Name := name; he_Endpoint := endpoint; he_Arch := arch; he_VCPU := vcpu; he_MemoryMB := mem; he_Labels := ∅; he_Token := "";
     he_TLS := zeroTLS; he_Services := zeroServices; he_Versions := zeroVersions |}.
Definition minimalPool (size : Z) : PoolSettings :=
  {| ps_Size := size; ps_Name := ""; ps_Namespace := ""; ps_Strategy := ""; ps_MinSize := None; ps_CreateHooks := []; ps_PreLeaseHooks := [];
     ps_HookFailurePolicy := ""; ps_HeartbeatInterval := 0; ps_HeartbeatExpiry := 0 |}.
Definition minimalProfile (name kernel rootfs : string) (size : Z) : ProfileConfig :=
  {| p_Name := name; p_Arch := ""; p_VCPU := 0; p_MemoryMB := 0; p_Kernel := {| k_Image := kernel; k_Filename := ""; k_Cmdline := ∅ |};
     p_Initrd := None; p_RootFS := rootfs; p_AdditionalVolumes := []; p_Provider := ""; p_UserData := ""; p_Shell := ""; p_BuildsDir := "";
     p_CacheDir := ""; p_HelperPath := ""; p_Images := []; p_ImageGlobs := []; p_Default := false; p_Transport := zeroTransport; p_User := "";
     p_ReadyTimeout := 0; p_HostSelector := ∅; p_MaxConcurrency := 0; p_Pool := minimalPool size |}.
(** Only the values the schema requires are set. *)
Definition minimalConfig (url token endpoint : string) (h : HostEntry) (p : ProfileConfig) : Config :=
  {| c_GitLab := {| gl_URL := url; gl_Token := token; gl_Name := ""; gl_Concurrent := 0; gl_CheckInterval := 0; gl_OutputLimitKB := 0;
                    gl_ShutdownTimeout := 0; gl_TLS := zeroTLS; gl_AllowInsecure := false |};
     c_Profiles := [p]; c_Inventory := {| inv_File := ""; inv_Hosts := [h] |}; c_PoolManager := zeroPoolManager <| pm_Endpoint := endpoint |>;
     c_Scheduler := {| sc_Namespace := ""; sc_AllocationTimeout := 0; sc_HostHealthInterval := 0; sc_HostUnhealthyThreshold := 0;
                       sc_HostCallDeadline := 0; sc_KeepOnFailure := false; sc_KeepDuration := 0; sc_AllowDefaultForUnknownImages := false |};
     c_Executor := {| ex_PrepareTimeout := 0; ex_GracefulKillTimeout := 0; ex_TransportDeadline := 0 |};
     c_HostServices := {| hs_Buildkit := {| bk_Service := zeroService; bk_StorageLimit := 0; bk_GCPolicy := "" |};
       hs_GoProxy := {| gp_Service := zeroService; gp_Upstream := ""; gp_PrivatePatterns := []; gp_PrivateVCSHost := ""; gp_CredentialParameter := "";
                        gp_PrivateRevalidateInterval := 0; gp_StorageLimit := 0; gp_Prewarm := [] |};
       hs_RegistryMirror := {| rm_Service := zeroService; rm_Upstreams := []; rm_StorageLimit := 0; rm_Prewarm := [] |};
       hs_HTTPCache := {| hc_Service := zeroService; hc_Upstreams := [] |};
       hs_CacheVolume := {| cv_Device := ""; cv_Directory := ""; cv_SizeCap := 0 |} |};
     c_DistributedCache := None; c_Observability := {| ob_LogFormat := ""; ob_LogLevel := ""; ob_ListenAddress := "" |}; c_StateDir := "" |}.

Section Minimal.
Context (url_Parse : string -> option URL) (host GOARCH : string).
(** [url.Parse] of the two default upstreams. *)
Context (Hgo : exists u, http_url url_Parse DefaultGoProxyUpstream u) (Hreg : exists u, http_url url_Parse DefaultRegistryUpstream u).

Definition plain_name (s : string) : Prop := present s = true /\ ContainsAny s whitespace_or_slash = false.

Lemma plain_nonempty s : present s = true -> String.eqb s "" = false.
Proof. intros H. by destruct (String.eqb_spec s "") as [->|]. Qed.

Lemma minimal_services :
  let hs := applyHostServicesDefaults (c_HostServices (minimalConfig "" "" "" (minimalHost "" "" "" 0 0) (minimalProfile "" "" "" 0))) in
  hostServices url_Parse hs = [].
Proof.
  unfold hostServices. cbv zeta. rewrite !app_nil. split_and!; try (vm_compute; reflexivity).
  - change (httpURL url_Parse "host_services.go_proxy.upstream" DefaultGoProxyUpstream ++ [] = []). rewrite app_nil_r. by apply httpURL_nil.
  - change ((match httpURL_of url_Parse DefaultRegistryUpstream with
       | None => httpURL url_Parse "host_services.registry_mirror.upstreams[0].url" DefaultRegistryUpstream ++ []
       | Some _ => [] end) ++ [] = []).
    destruct Hreg as [u Hu]. apply httpURL_of_Some in Hu. by rewrite Hu.
Qed.

(** The minimal configuration is valid.  A file that holds only the
    GitLab URL and token, the Pool Manager endpoint, one Host with its name,
    endpoint, architecture and capacity, and one Profile with its name, its
    two images and its Pool size, passes [Validate] once the defaults are
    applied, on a machine whose host name is a plain word. *)
Theorem minimal_valid url token endpoint hname hend harch hv hm pname kernel rootfs size u :
  http_url url_Parse url u -> u_Scheme u = "https" -> present token = true -> host_port endpoint ->
  plain_name hname -> host_port hend -> arch_ok harch = true -> 0 < hv -> 0 < hm ->
  present pname = true -> pinned_image kernel -> pinned_image rootfs -> 0 < size < 2 ^ 62 -> plain_name host ->
  Validate url_Parse (ApplyDefaults (Ok host) GOARCH
    (minimalConfig url token endpoint (minimalHost hname hend harch hv hm) (minimalProfile pname kernel rootfs size))) = [].
Proof.
  intros Hu Hs Ht He [Hn1 Hn2] Hhe Ha Hv Hm Hp Hk Hr Hsz [Hh1 Hh2].
  set (h := minimalHost hname hend harch hv hm). set (p := minimalProfile pname kernel rootfs size).
  apply arch_ok_known in Ha. unfold Validate. rewrite !app_nil, gitlab_nil, profiles_nil, inventory_nil, poolManager_nil, scheduler_nil, absPath_nil.
  assert (defaultConcurrency [p] = 2 * size) as Hc.
  { change (2 ^ 62) with 4611686018427387904 in Hsz. unfold defaultConcurrency, DefaultConcurrencyFactor. cbn [fold_left].
    change (ps_Size (p_Pool p)) with size. rewrite (int64_id (0 + size)) by lia. rewrite int64_id; lia. }
  assert (defaultArch GOARCH [h] = harch) as Harch.
  { unfold defaultArch, sharedArch. simpl. by rewrite (known_arch_nonempty _ Ha). }
  assert (profile_rules (ApplyDefaults (Ok host) GOARCH (minimalConfig url token endpoint h p))
            ((applyProfile harch host p) <| p_Default := true |>)) as HP.
  { split.
    - exact Hp.
    - exact Ha.
    - done.
    - split; [|constructor]. apply Forall_cons. split; [exact Hk|]. apply Forall_cons. split; [exact Hr|constructor].
    - done.
    - constructor.
    - constructor.
    - split; intros k [v Hkv]; exfalso; revert Hkv; apply (lookup_empty_Some (M := gmap string)).
    - done.
    - done.
    - done.
    - by left.
    - split; try done.
      + simpl. lia.
      + by left.
      + by left.
    - intros _. exists h. split; [apply list_elem_of_singleton; reflexivity|]. split; [reflexivity|apply map_empty_subseteq]. }
  assert (c_Profiles (ApplyDefaults (Ok host) GOARCH (minimalConfig url token endpoint h p)) = [(applyProfile harch host p) <| p_Default := true |>]) as HPs.
  { unfold ApplyDefaults, applyProfileDefaults. cbn [c_Profiles c_Inventory inv_Hosts minimalConfig fmap list_fmap]. by rewrite Harch. }
  rewrite HPs. split; [|split; [|split; [|split; [|split; [|split; [|split; [|split; [|split]]]]]]]].
  - split; simpl; [by exists u; split; [|left]|done| |done]. change (c_Profiles _) with [p]. rewrite Hc.
    unfold dfltZ. simpl. destruct (Z.eqb_spec (2 * size) 0); split_and!; done || lia.
  - split; [split; [done|by apply Forall_cons]|]. split; [apply NoDup_singleton|]. split; [constructor|]. split; [apply NoDup_singleton|]. simpl. lia.
  - unfold inventory_rules. simpl. split; [done|]. split; [|split; [apply NoDup_singleton|]].
    2:{ intros i j h1 h2 [-> _]%list_lookup_singleton_Some [-> _]%list_lookup_singleton_Some _. done. }
    apply Forall_cons. split; [|constructor]. split; try done.
    + intros k [v Hkv]; exfalso; revert Hkv; apply (lookup_empty_Some (M := gmap string)).
    + intros k [v Hkv]; exfalso; revert Hkv; apply (lookup_empty_Some (M := gmap string)).
  - split; simpl; try done. left. split; [by left|done].
  - split; simpl; [by rewrite (plain_nonempty host) || split|done|done].
  - done.
  - exact minimal_services.
  - done.
  - vm_compute. reflexivity.
  - done.
Qed.
End Minimal.

(** A URL of the form [scheme://host/path], for the witnesses. *)
Definition demo_url_Parse (s : string) : option URL :=
  match Cut s ":"%char with
  | Some (scheme, String "/"%char (String "/"%char rest)) =>
      match Cut rest "/"%char with
      | Some (host, path) => Some {| u_Scheme := scheme; u_Host := host; u_Path := "/" +:+ path |}
      | None => Some {| u_Scheme := scheme; u_Host := rest; u_Path := "" |}
      end
  | _ => None
  end.

Lemma demo_http_url s u : httpURL_of demo_url_Parse s = Some u -> http_url demo_url_Parse s u.
Proof. apply httpURL_of_Some. Qed.

Definition demo_minimal : Config :=
  minimalConfig "https://gitlab.example" "glrt-x" "battery:9090" (minimalHost "host-1" "10.0.1.10:9090" "arm64" 8 16384)
    (minimalProfile "small" "ghcr.io/k:6.1" "localhost:5000/r@sha256:ab" 4).

Lemma minimal_valid_witness : Validate demo_url_Parse (ApplyDefaults (Ok "runner-1") "amd64" demo_minimal) = [].
Proof.
  apply (minimal_valid demo_url_Parse "runner-1" "amd64") with (u := {| u_Scheme := "https"; u_Host := "gitlab.example"; u_Path := "" |});
    try (eexists; apply demo_http_url; vm_compute; reflexivity); try (apply demo_http_url; vm_compute; reflexivity); try (vm_compute; reflexivity);
    try (split; vm_compute; reflexivity).
  - split_and!; try (vm_compute; reflexivity). exists "battery", "9090". split_and!; [vm_compute; reflexivity|done|done].
  - split_and!; try (vm_compute; reflexivity). exists "10.0.1.10", "9090". split_and!; [vm_compute; reflexivity|done|done].
  - split; [vm_compute; reflexivity|]. eexists. split; vm_compute; reflexivity.
  - split; [vm_compute; reflexivity|]. eexists. split; vm_compute; reflexivity.
Defined.

(** Two Profiles of different Pools whose namespace and name join to the same
    key are refused as duplicates. *)
Definition slash_profile (name ns pool : string) : ProfileConfig :=
  let p := minimalProfile name "k:1" "r:1" 1 in p <| p_Pool := (p_Pool p) <| ps_Namespace := ns |> <| ps_Name := pool |> |>.
Theorem poolKey_collides :
  let p1 := slash_profile "a" "team/ci" "small" in let p2 := slash_profile "b" "team" "ci/small" in
  let c := demo_minimal <| c_Profiles := [p1; p2] |> in
  poolRef p1 "" <> poolRef p2 ""
  /\ fe_Field <$> Validate demo_url_Parse (ApplyDefaults (Ok "runner-1") "amd64" c) = ["profiles[1].pool"].
Proof. split; [done|]. vm_compute. reflexivity. Qed.
