(* ===== verification/ConfigLoad.v ===== *)
(** * internal/config: loading, reloading and showing the configuration

    load.go, reload.go and show.go.  The YAML decoder, the file system, the
    environment and [filepath.Join] are arguments. *)
From S2P Require Import Prelude GoModel ConfigTypes Base64 Spec PathMatch GoStrings ConfigImage ConfigDefaults ConfigValidate ConfigThms ConfigValid.
From Stdlib Require Import Ascii.

(** ** Environment overrides *)
Definition EnvGitLabToken : string := "FLINTLOCK_RUNNER_GITLAB_TOKEN".
Definition EnvHostToken : string := "FLINTLOCK_RUNNER_HOST_TOKEN".
Definition EnvHostTokenPrefix : string := "FLINTLOCK_RUNNER_HOST_TOKEN_".

(** One rune of [strings.ToUpper(hostName)] as the name of a variable has it;
    U+0131 and U+017F are the runes whose upper case is ASCII. *)
Definition env_rune (r : Z) : Z :=
  if (97 <=? r) && (r <=? 122) then r - 32
  else if r =? 305 then 73 else if r =? 383 then 83
  else if ((65 <=? r) && (r <=? 90)) || ((48 <=? r) && (r <=? 57)) then r else 95.
Fixpoint env_runes (fuel : nat) (l : list Z) : list Z :=
  match fuel, l with
  | S fuel, _ :: _ => let '(r, n) := decode_rune l in env_rune r :: env_runes fuel (drop n l)
  | _, _ => []
  end.
Definition HostTokenEnv (hostName : string) : string :=
  EnvHostTokenPrefix +:+ string_of_bytes (env_runes (length (bytes_of hostName)) (bytes_of hostName)).

Example HostTokenEnv_example : HostTokenEnv "host-1" = "FLINTLOCK_RUNNER_HOST_TOKEN_HOST_1".
Proof. vm_compute. reflexivity. Qed.

Inductive load_error :=
  | LoadFailed (e : error)
  | LoadInvalid (errs : list FieldError).

Section Load.
Context (url_Parse : string -> option URL) (hostname : result string) (GOARCH : string).
(** [os.LookupEnv], [os.ReadFile], [filepath.Join] and yaml.v3. *)
Context (env : string -> option string) (readFile : string -> result string) (Join : string -> string -> string).
Context (decodeConfig : string -> result Config) (decodeInventory : string -> result (list HostEntry)).

Definition applyEnv (c : Config) : Config :=
  let c := match env EnvGitLabToken with Some v => c <| c_GitLab := (c_GitLab c) <| gl_Token := v |> |> | None => c end in
  c <| c_Inventory := (c_Inventory c) <| inv_Hosts :=
         (fun h => match env (HostTokenEnv (he_Name h)) with
                   | Some v => h <| he_Token := v |>
                   | None => match env EnvHostToken with Some v => h <| he_Token := v |> | None => h end
                   end) <$> inv_Hosts (c_Inventory c) |> |>.

Definition resolveInventory (dir : string) (c : Config) : load_error + Config :=
  let inv := c_Inventory c in
  if String.eqb (inv_File inv) "" then inr c else
  match inv_Hosts inv with
  | _ :: _ => inl (LoadInvalid (errorf "inventory" "file and hosts are mutually exclusive"))
  | [] =>
      let path := if HasPrefix (inv_File inv) "/" then inv_File inv else Join dir (inv_File inv) in
      match readFile path with
      | Err e => inl (LoadFailed (EWrap ("config: read inventory file " +:+ path) [e]))
      | Ok data =>
          match decodeInventory data with
          | Err e => inl (LoadFailed (EWrap ("config: parse inventory file " +:+ path) [e]))
          | Ok hosts => inr (c <| c_Inventory := inv <| inv_Hosts := hosts |> |>)
          end
      end
  end.

Definition loader_parse (name dir data : string) : load_error + Config :=
  match decodeConfig data with
  | Err e => inl (LoadFailed (EWrap ("config: parse " +:+ name) [e]))
  | Ok cfg =>
      match resolveInventory dir cfg with
      | inl e => inl e
      | inr cfg =>
          let cfg := ApplyDefaults hostname GOARCH (applyEnv cfg) in
          match Validate url_Parse cfg with
          | [] => inr cfg
          | errs => inl (LoadInvalid errs)
          end
      end
  end.

(** [dir] is [filepath.Dir(path)]. *)
Definition Load (path dir : string) : load_error + Config :=
  match readFile path with
  | Err e => inl (LoadFailed (EWrap ("config: read " +:+ path) [e]))
  | Ok data => loader_parse path dir data
  end.

Lemma Load_valid path dir c : Load path dir = inr c -> Validate url_Parse c = [].
Proof.
  unfold Load, loader_parse. destruct (readFile path); [|done]. destruct (decodeConfig _); [|done]. destruct (resolveInventory _ _); [done|].
  destruct (Validate _ _) eqn:E; [|done]. by intros [= <-].
Qed.
End Load.

(** ** reload.go *)

(** [swap] under its lock; [loaded] is what [Load] returned. *)
Definition swap (ctxErr : option error) (loaded : load_error + Config) (current : Config) : Config * (error + Config) :=
  match ctxErr with
  | Some e => (current, inl e)
  | None =>
      match loaded with
      | inl (LoadFailed e) => (current, inl (EWrap "config: reload" [e]))
      | inl (LoadInvalid _) => (current, inl (EWrap "config: reload" [ESentinel ConfigErrInvalid]))
      | inr l => let next := current <| c_Profiles := c_Profiles l |> <| c_Inventory := c_Inventory l |> in (next, inr next)
      end
  end.

(** [Reload]: the errors of the subscribers, joined, when the swap took place. *)
Definition Reloader_Reload (subs : list (Config -> option error)) (ctxErr : option error) (loaded : load_error + Config) (current : Config)
    : Config * option error :=
  match swap ctxErr loaded current with
  | (current, inl e) => (current, Some e)
  | (current, inr next) =>
      (current, match omap (fun fn => fn next) subs with [] => None | errs => Some (EWrap "" errs) end)
  end.

(** [onlyReloadableSectionsDiffer], which decides a log line. *)
Definition onlyReloadableSectionsDiffer (old loaded : Config) : Prop :=
  loaded <| c_Profiles := c_Profiles old |> <| c_Inventory := c_Inventory old |>
         <| c_GitLab := (c_GitLab loaded) <| gl_Concurrent := gl_Concurrent (c_GitLab old) |> |> = old.

(** [Serve]: one reload per signal. *)
Definition Reloader_Serve (loads : list (load_error + Config)) (current : Config) : Config :=
  fold_left (fun c l => (swap None l c).1) loads current.

(** ** show.go *)
Definition RedactedMark : string := "[REDACTED]".
Definition redact (s : string) : string := if String.eqb s "" then "" else RedactedMark.
Definition redactedFields (c : Config) : Config :=
  c <| c_GitLab := (c_GitLab c) <| gl_Token := redact (gl_Token (c_GitLab c)) |> |>
    <| c_Inventory := (c_Inventory c) <| inv_Hosts := (fun h => h <| he_Token := redact (he_Token h) |>) <$> inv_Hosts (c_Inventory c) |> |>.

(** ** What a reload keeps *)

(** Rules that only read what the two configurations share. *)
Lemma profile_rules_ext c c' p : c_PoolManager c' = c_PoolManager c -> c_Inventory c' = c_Inventory c -> profile_rules c p -> profile_rules c' p.
Proof. intros Hpm Hi [? ? ? ? ? ? ? ? ? ? ? ? ? ?]. split; try done; [by rewrite Hpm|by rewrite Hi]. Qed.
Lemma host_rules_ext c c' h : c_HostServices c' = c_HostServices c -> host_rules c h -> host_rules c' h.
Proof. intros Hs [? ? ? ? ? ? ? ?]. split; try done. by rewrite Hs. Qed.

Lemma next_valid url_Parse old loaded :
  onlyReloadableSectionsDiffer old loaded -> Validate url_Parse old = [] -> Validate url_Parse loaded = [] ->
  Validate url_Parse (old <| c_Profiles := c_Profiles loaded |> <| c_Inventory := c_Inventory loaded |>) = [].
Proof.
  rewrite !Validate_nil. intros Hs [o1 o2 o3 o4 o5 o6 o7 o8 o9 o10 o11 o12 o13 o14 o15 o16] [l1 [l2 l2'] l3 l4 l5 l6 l7 l8 l9 l10 l11 l12 l13 l14 l15 l16].
  set (next := old <| c_Profiles := _ |> <| c_Inventory := _ |>).
  assert (c_PoolManager next = c_PoolManager loaded) as Hpm by exact (eq_sym (f_equal c_PoolManager Hs)).
  assert (c_HostServices next = c_HostServices loaded) as Hsv by exact (eq_sym (f_equal c_HostServices Hs)).
  assert (Forall (profile_rules next) (c_Profiles loaded)) as HP by (eapply Forall_impl; [exact l2'|intros p; by apply profile_rules_ext]).
  assert (inventory_rules next) as HI.
  { unfold inventory_rules in *. rewrite Hpm. change (c_Inventory next) with (c_Inventory loaded). revert l7. destruct (IsClaim (c_PoolManager loaded)); [exact (fun x => x)|]. intros (H1 & H2 & H3). split; [done|]. split; [|done].
    eapply Forall_impl; [exact H2|]. intros h. by apply host_rules_ext. }
  clear Hs. by split.
Qed.

(** What a reload changes.  A reload that fails to load or to validate
    leaves the configuration as it is; one that succeeds replaces the Profiles
    and the Inventory and nothing else, over any number of reloads.  As long
    as the other sections of the file are the ones the Runner started with, the
    configuration it publishes is a valid one. *)
Theorem Reload_keeps url_Parse current loads :
  let final := Reloader_Serve loads current in
  (final <| c_Profiles := c_Profiles current |> <| c_Inventory := c_Inventory current |> = current)
  /\ (Validate url_Parse current = [] ->
      Forall (fun l => forall c, l = inr c -> Validate url_Parse c = [] /\ onlyReloadableSectionsDiffer current c) loads ->
      Validate url_Parse final = [])
  /\ (forall subs ctxErr l, (ctxErr <> None \/ exists e, l = inl e) -> (Reloader_Reload subs ctxErr l current).1 = current).
Proof.
  intros final. split_and!.
  - unfold final, Reloader_Serve.
    assert (forall c, (fold_left (fun c l => (swap None l c).1) loads c) <| c_Profiles := c_Profiles current |> <| c_Inventory := c_Inventory current |>
      = c <| c_Profiles := c_Profiles current |> <| c_Inventory := c_Inventory current |>) as H.
    { induction loads as [|l loads IH]; intros c; [done|]. cbn [fold_left]. rewrite IH. by destruct l as [[]|]. }
    rewrite H. by destruct current.
  - intros Hv HF. unfold final, Reloader_Serve.
    assert (forall c, Validate url_Parse c = [] -> (c <| c_Profiles := c_Profiles current |> <| c_Inventory := c_Inventory current |> = current) ->
      Validate url_Parse (fold_left (fun c l => (swap None l c).1) loads c) = []) as H; [|apply H; [done|by destruct current]].
    clear Hv. induction HF as [|l loads Hl HF IH]; intros c Hc He; [done|]. cbn [fold_left]. apply IH.
    + destruct l as [[]|c']; [done..|]. destruct (Hl c' eq_refl) as [Hv Ho]. cbn [swap fst]. apply next_valid; [|done|done].
      unfold onlyReloadableSectionsDiffer in *. rewrite <-He in Ho. destruct c, c', current. unfold set_field in *. simpl in *. congruence.
    + by destruct l as [[]|].
  - intros subs ctxErr l [Hc|[e ->]]; unfold Reloader_Reload, swap; destruct ctxErr as [e'|]; [done|done|done|]. by destruct e.
Qed.

(** ** A published configuration that is not valid

    A Runner started with the claim backend re-reads a file that has moved to
    battery: the file is valid, and what is published is its Profiles and
    Inventory beside the claim backend, which [Validate] refuses. *)
Definition claim_minimal : Config :=
  demo_minimal <| c_Inventory := {| inv_File := ""; inv_Hosts := [] |} |>
    <| c_PoolManager := zeroPoolManager <| pm_Backend := PoolBackendClaim |>
         <| pm_Claim := Some {| cl_Kubeconfig := ""; cl_Context := ""; cl_Namespace := ""; cl_HolderServiceAccount := "runner";
                                cl_ServingCA := {| ca_Namespace := ""; ca_Name := ""; ca_Key := "" |} |} |> |>.

Theorem reload_publishes_invalid :
  let old := ApplyDefaults (Ok "runner-1") "amd64" claim_minimal in
  let loaded := ApplyDefaults (Ok "runner-1") "amd64" demo_minimal in
  Validate demo_url_Parse old = [] /\ Validate demo_url_Parse loaded = []
  /\ fe_Field <$> Validate demo_url_Parse (Reloader_Reload [] None (inr loaded) old).1 = ["inventory"].
Proof. vm_compute. done. Qed.

(** ** Secrets *)
Definition secrets (c : Config) : list string := gl_Token (c_GitLab c) :: (he_Token <$> inv_Hosts (c_Inventory c)).
Definition without_secrets (c : Config) : Config :=
  c <| c_GitLab := (c_GitLab c) <| gl_Token := "" |> |>
    <| c_Inventory := (c_Inventory c) <| inv_Hosts := (fun h => h <| he_Token := "" |>) <$> inv_Hosts (c_Inventory c) |> |>.

(** What [config show] prints.  Every secret is printed as the marker, or
    as nothing when it is not set, and every other field as it is; so two
    configurations that differ only in the values of their secrets are shown
    alike. *)
Theorem Redacted_hides c :
  Forall (fun s => s = "" \/ s = RedactedMark) (secrets (redactedFields c)) /\ without_secrets (redactedFields c) = without_secrets c
  /\ redactedFields (redactedFields c) = redactedFields c
  /\ forall c', without_secrets c' = without_secrets c -> (fun s => String.eqb s "") <$> secrets c' = (fun s => String.eqb s "") <$> secrets c ->
     redactedFields c' = redactedFields c.
Proof.
  assert (forall s, redact s = "" \/ redact s = RedactedMark) as Hr by (intros s; unfold redact; destruct (String.eqb s ""); auto).
  assert (forall s, redact (redact s) = redact s) as Hi by (intros s; unfold redact; by destruct (String.eqb s "") eqn:E).
  split_and!.
  - unfold secrets, redactedFields. rec_simpl. constructor; [apply Hr|]. rewrite <-list_fmap_compose. apply Forall_fmap, Forall_true. intros h. apply Hr.
  - unfold without_secrets, redactedFields. rec_simpl. f_equal. f_equal. rewrite <-list_fmap_compose. by apply list_fmap_ext.
  - unfold redactedFields. rec_simpl. rewrite Hi. f_equal. f_equal. rewrite <-list_fmap_compose. apply list_fmap_ext. intros _ h _. simpl. by rewrite Hi.
  - intros c' Hw Hs. unfold without_secrets, secrets, redactedFields in *. destruct c as [[] ? [fi hs] ? ? ? ? ? ? ?], c' as [[] ? [fi' hs'] ? ? ? ? ? ? ?].
    rec_simpl. injection Hw as -> -> -> -> -> -> -> -> -> -> Hh. injection Hs as Ht Hhs. subst.
    f_equal; [f_equal; unfold redact; by rewrite Ht|]. f_equal. clear -Hh Hhs. revert hs' Hh Hhs.
    induction hs as [|h hs IH]; intros [|h' hs'] Hh Hhs; try done. rewrite !fmap_cons in *. injection Hh as Hh1 Hh2. injection Hhs as Hs1 Hs2.
    f_equal; [|by apply IH]. destruct h, h'. simpl in *. unfold redact. rewrite Hs1. congruence.
Qed.
