(* ===== verification/ConfigReload.v ===== *)
(** * internal/config: the loader's options, strict decoding, and the Reloader

    load.go around the pipeline of [ConfigLoad], and reload.go as it runs:
    Reload publishes under the lock and notifies the subscribers outside it,
    and Serve calls it once per signal it receives. *)
From S2P Require Import Prelude GoModel ConfigTypes ConfigImage ConfigValidate ConfigValid ConfigLoad.

(** ** The loader *)
Record loader := { l_env : string -> option string; l_readFile : string -> result string; l_logger : Z }.
#[export] Instance eta_loader : Eta loader := fun r => {| l_env := l_env r; l_readFile := l_readFile r; l_logger := l_logger r |}.

Inductive Option :=
  | WithEnv (lookup : string -> option string)
  | WithLogger (logger : Z)
  | WithReadFile (read : string -> result string).

Definition apply_option (l : loader) (o : Option) : loader :=
  match o with
  | WithEnv lookup => l <| l_env := lookup |>
  | WithLogger logger => l <| l_logger := logger |>
  | WithReadFile read => l <| l_readFile := read |>
  end.

(** [os.LookupEnv], [slog.Default] and [os.ReadFile]. *)
Record process := { os_LookupEnv : string -> option string; slog_Default : Z; os_ReadFile : string -> result string }.

Definition newLoader (os : process) (opts : list Option) : loader :=
  fold_left apply_option opts {| l_env := os_LookupEnv os; l_readFile := os_ReadFile os; l_logger := slog_Default os |}.

(** [first] is what the first call of [Decode] answered into the zero value
    [zero], [second] the second call. *)
Definition decodeStrict {A} (zero : A) (first : result A) (second : option error) : result A :=
  let extra (x : A) := match second with
                       | None => Err (ENew "more than one YAML document")
                       | Some e => if negb (errors_Is e IoEOF) then Err e else Ok x
                       end in
  match first with
  | Ok x => extra x
  | Err e => if negb (errors_Is e IoEOF) then Err e else extra zero
  end.

(** yaml.v3: what the [i]-th call of [Decode] answers on a stream of documents
    that all decode. *)
Definition nth_document {A} (docs : list A) (i : nat) : result A :=
  match docs !! i with Some x => Ok x | None => Err (ESentinel IoEOF) end.
Definition decode_stream {A} (zero : A) (docs : list A) : result A :=
  decodeStrict zero (nth_document docs 0) (match nth_document docs 1 with Ok _ => None | Err e => Some e end).

Section Loading.
Context (url_Parse : string -> option URL) (hostname : result string) (GOARCH : string) (Join : string -> string -> string).
(** yaml.v3 on the bytes of a file: the answers of its two calls. *)
Context (zeroConfig : Config) (yamlConfig : string -> result Config * option error)
        (yamlInventory : string -> result (list HostEntry * time) * option error).

Definition decodeConfig (data : string) : result Config := decodeStrict zeroConfig (yamlConfig data).1 (yamlConfig data).2.

(** [InventoryFile]: the Hosts and when the file was generated. *)
Definition decodeInventoryFile (data : string) : result (list HostEntry * time) :=
  decodeStrict ([], 0) (yamlInventory data).1 (yamlInventory data).2.
Definition decodeInventory (data : string) : result (list HostEntry) :=
  match decodeInventoryFile data with Ok f => Ok f.1 | Err e => Err e end.

Definition parse (l : loader) (name dir data : string) : load_error + Config :=
  loader_parse url_Parse hostname GOARCH (l_env l) (l_readFile l) Join decodeConfig decodeInventory name dir data.

Definition Parse (os : process) (data dir : string) (opts : list Option) : load_error + Config :=
  parse (newLoader os opts) "<memory>" dir data.

Definition LoadInventoryFile (os : process) (path : string) : result (list HostEntry * time) :=
  match os_ReadFile os path with
  | Err e => Err (EWrap ("config: read inventory file " +:+ path) [e])
  | Ok data =>
      match decodeInventoryFile data with
      | Err e => Err (EWrap ("config: parse inventory file " +:+ path) [e])
      | Ok file => Ok file
      end
  end.

(** The lines [logStartup] writes. *)
Inductive startup_line := TagWarning (w : ImageWarning) | NoDistributedCache.
Definition CacheConfigured (c : Config) : bool := match c_DistributedCache c with Some _ => true | None => false end.
Definition logStartup (c : Config) : list startup_line :=
  (TagWarning <$> Warnings c) ++ (if negb (CacheConfigured c) then [NoDistributedCache] else []).

(** [Load] with its log lines; [dir] is [filepath.Dir(path)]. *)
Definition LoadLogged (os : process) (path dir : string) (opts : list Option) : (load_error + Config) * list startup_line :=
  let l := newLoader os opts in
  match l_readFile l path with
  | Err e => (inl (LoadFailed (EWrap ("config: read " +:+ path) [e])), [])
  | Ok data =>
      match parse l path dir data with
      | inl e => (inl e, [])
      | inr cfg => (inr cfg, logStartup cfg)
      end
  end.

Lemma LoadLogged_Load os path dir opts :
  (LoadLogged os path dir opts).1
  = Load url_Parse hostname GOARCH (l_env (newLoader os opts)) (l_readFile (newLoader os opts)) Join decodeConfig decodeInventory path dir.
Proof. unfold LoadLogged, Load, parse. destruct (l_readFile _ path); [|done]. by destruct (loader_parse _ _ _ _ _ _ _ _ _ _ _). Qed.
End Loading.

(** ** reload.go as it runs *)

(** [rl_calls] are the Reload calls past their swap: the configuration each
    hands on and the subscribers it has not called yet; call 0 is Serve's.
    [rl_hup] is the one-place channel of ServeSIGHUP.  [rl_published],
    [rl_told], [rl_unread] (a SIGHUP since the file was last read) and
    [rl_done] (a call found its context ended) record what happened. *)
Record Reloader := {
  rl_current : Config; rl_subs : list nat; rl_calls : gmap nat (Config * list nat); rl_hup : bool;
  rl_published : list Config; rl_told : list (nat * Config); rl_unread : bool; rl_done : bool }.
#[export] Instance eta_Reloader : Eta Reloader :=
  fun r => {| rl_current := rl_current r; rl_subs := rl_subs r; rl_calls := rl_calls r; rl_hup := rl_hup r;
              rl_published := rl_published r; rl_told := rl_told r; rl_unread := rl_unread r; rl_done := rl_done r |}.

Definition NewReloader (initial : Config) : Reloader :=
  {| rl_current := initial; rl_subs := []; rl_calls := ∅; rl_hup := false; rl_published := []; rl_told := []; rl_unread := false; rl_done := false |}.
Definition Subscribe (s : nat) (r : Reloader) : Reloader := r <| rl_subs := rl_subs r ++ [s] |>.

(** The swap of call [k]. *)
Definition reload_begin (k : nat) (ctxErr : option error) (loaded : load_error + Config) (r : Reloader) : Reloader :=
  let r := match ctxErr with Some _ => r <| rl_done := true |> | None => r <| rl_unread := false |> end in
  match swap ctxErr loaded (rl_current r) with
  | (cur, inl _) => r <| rl_current := cur |>
  | (cur, inr next) =>
      r <| rl_current := cur |> <| rl_published := rl_published r ++ [next] |>
        <| rl_calls := match rl_subs r with [] => rl_calls r | subs => <[k := (next, subs)]> (rl_calls r) end |>
  end.

Inductive reload_input :=
  | ISubscribe (s : nat)
  | IHup                                                                  (* a SIGHUP arrives *)
  | ITake (ctxErr : option error) (loaded : load_error + Config)          (* Serve receives it and reloads *)
  | IReload (k : nat) (ctxErr : option error) (loaded : load_error + Config)  (* another call of Reload *)
  | INotify (k : nat).                                                    (* call [k] calls its next subscriber *)

Definition reload_step (i : reload_input) (r : Reloader) : option Reloader :=
  match i with
  | ISubscribe s => Some (Subscribe s r)
  | IHup => Some (r <| rl_hup := true |> <| rl_unread := true |>)
  | ITake ctxErr loaded =>
      match rl_calls r !! 0%nat with
      | Some _ => None
      | None => if rl_hup r then Some (reload_begin 0 ctxErr loaded (r <| rl_hup := false |>)) else None
      end
  | IReload k ctxErr loaded =>
      match k, rl_calls r !! k with
      | S _, None => Some (reload_begin k ctxErr loaded r)
      | _, _ => None
      end
  | INotify k =>
      match rl_calls r !! k with
      | Some (next, s :: todo) =>
          Some (r <| rl_told := rl_told r ++ [(s, next)] |>
                  <| rl_calls := match todo with [] => delete k (rl_calls r) | _ => <[k := (next, todo)]> (rl_calls r) end |>)
      | _ => None
      end
  end.

Fixpoint reload_steps (l : list reload_input) (r : Reloader) : option Reloader :=
  match l with [] => Some r | i :: l => match reload_step i r with Some r => reload_steps l r | None => None end end.

(** ** Strict decoding *)

(** Strict decoding accepts a file with at most one document: an empty one
    is the zero value, one document is its value, and a second one, or an error
    of the decoder, is refused. *)
Theorem decodeStrict_exact {A} (zero : A) :
  (forall docs, decode_stream zero docs = match docs with [] => Ok zero | [x] => Ok x | _ => Err (ENew "more than one YAML document") end)
  /\ (forall first second x, decodeStrict zero first second = Ok x ->
        (exists e, second = Some e /\ errors_Is e IoEOF = true)
        /\ (first = Ok x \/ x = zero /\ exists e, first = Err e /\ errors_Is e IoEOF = true))
  /\ (forall e second, errors_Is e IoEOF = false -> decodeStrict zero (Err e) second = Err e).
Proof.
  split_and!.
  - intros [|x [|y docs]]; done.
  - intros [x'|e] second x; unfold decodeStrict.
    + destruct second as [e|]; [|done]. destruct (errors_Is e IoEOF) eqn:E; simpl; [|done]. intros [= ->]. split; [eauto|by left].
    + destruct (errors_Is e IoEOF) eqn:E; simpl; [|done]. destruct second as [e'|]; [|done]. destruct (errors_Is e' IoEOF) eqn:E'; simpl; [|done].
      intros [= ->]. split; [eauto|]. right. eauto.
  - intros e second He. unfold decodeStrict. by rewrite He.
Qed.

(** ** The order of the notifications *)

(** The states Serve and its subscribers go through, with no other call of
    Reload; all subscribed before. *)
Inductive served (initial : Config) (subs : list nat) : Reloader -> Prop :=
  | Served0 : served initial subs ((NewReloader initial) <| rl_subs := subs |>)
  | ServedStep i r r' : served initial subs r -> match i with IReload _ _ _ | ISubscribe _ => False | _ => True end ->
      reload_step i r = Some r' -> served initial subs r'.

(** The configurations subscriber [s] was called with. *)
Definition told_to (s : nat) (r : Reloader) : list Config := omap (fun p => if decide (p.1 = s) then Some p.2 else None) (rl_told r).

Record SInv (initial : Config) (subs : list nat) (r : Reloader) : Prop := {
  si_subs : rl_subs r = subs;
  si_calls : forall k, k <> 0%nat -> rl_calls r !! k = None;
  si_told : forall s, s ∈ subs ->
    match rl_calls r !! 0%nat with
    | None => told_to s r = rl_published r
    | Some (next, todo) => exists earlier, rl_published r = earlier ++ [next] /\ told_to s r = if decide (s ∈ todo) then earlier else rl_published r
    end;
  si_todo : forall next todo, rl_calls r !! 0%nat = Some (next, todo) -> todo <> [] /\ NoDup todo;
  si_current : rl_current r = default initial (last (rl_published r));
  si_unread : rl_unread r = true -> rl_hup r = true \/ rl_done r = true
}.

Lemma told_to_snoc s r q next : told_to s (r <| rl_told := rl_told r ++ [(q, next)] |>) = told_to s r ++ (if decide (q = s) then [next] else []).
Proof. unfold told_to. simpl. rewrite omap_app. simpl. by destruct (decide (q = s)). Qed.

Lemma swap_refused ctxErr loaded current cur e : swap ctxErr loaded current = (cur, inl e) -> cur = current.
Proof. unfold swap. repeat case_match; intros; by simplify_eq. Qed.
Lemma swap_published ctxErr loaded current cur next : swap ctxErr loaded current = (cur, inr next) -> cur = next /\ ctxErr = None.
Proof. unfold swap. repeat case_match; intros; by simplify_eq. Qed.

Lemma SInv_take initial subs ctxErr loaded r : NoDup subs -> SInv initial subs r -> rl_calls r !! 0%nat = None ->
  SInv initial subs (reload_begin 0 ctxErr loaded (r <| rl_hup := false |>)).
Proof.
  intros HN [H1 H2 H3 H4 H5 H6] EC. rewrite EC in H3.
  unfold reload_begin. replace (rl_current (match ctxErr with Some _ => _ | None => _ end)) with (rl_current r) by (by destruct ctxErr).
  destruct (swap ctxErr loaded (rl_current r)) as [cur [e|next]] eqn:ES.
  - apply swap_refused in ES as ->. destruct ctxErr; split; simpl; try done; try (by rewrite EC); rewrite ?EC; auto.
  - apply swap_published in ES as [-> ->]. simpl. destruct subs as [|s0 subs]; rewrite H1.
    + split; simpl; try done; rewrite ?EC, ?last_snoc; try done. intros s Hs. set_solver.
    + split; simpl; try done.
      * intros k Hk. rewrite lookup_insert_ne by done. by apply H2.
      * intros s Hs. rewrite lookup_insert_eq. exists (rl_published r). split; [done|]. rewrite decide_True by done. by apply H3.
      * intros n t. rewrite lookup_insert_eq. by intros [= <- <-].
      * by rewrite last_snoc.
Qed.

Lemma SInv_notify initial subs k r r' : SInv initial subs r -> reload_step (INotify k) r = Some r' -> SInv initial subs r'.
Proof.
  intros [H1 H2 H3 H4 H5 H6] Hs. simpl in Hs. destruct (rl_calls r !! k) as [[next [|q todo]]|] eqn:EC; try done. injection Hs as <-.
  destruct (decide (k = 0%nat)) as [->|Hk]; [|by rewrite H2 in EC]. rewrite EC in H3. destruct (H4 _ _ EC) as [_ HN]. apply NoDup_cons in HN as [Hq HN].
  assert (forall s, s ∈ subs -> exists earlier, rl_published r = earlier ++ [next]
    /\ told_to s (r <| rl_told := rl_told r ++ [(q, next)] |>) = if decide (s ∈ todo) then earlier else rl_published r) as HT.
  { intros s Hs. destruct (H3 s Hs) as (ea & HP & HT). exists ea. split; [done|]. rewrite told_to_snoc, HT.
    destruct (decide (q = s)) as [->|Hne]; [rewrite decide_True, decide_False by set_solver; by rewrite HP|]. rewrite app_nil_r.
    destruct (decide (s ∈ todo)); [by rewrite decide_True by set_solver|by rewrite decide_False by set_solver]. }
  destruct todo as [|q' todo]; split; simpl; try done.
  - intros k Hk. rewrite lookup_delete_ne by done. by apply H2.
  - intros s Hs. rewrite lookup_delete_eq. destruct (HT s Hs) as (ea & HP & HT'). exact HT'.
  - intros n t. by rewrite lookup_delete_eq.
  - intros k Hk. rewrite lookup_insert_ne by done. by apply H2.
  - intros s Hs. rewrite lookup_insert_eq. exact (HT s Hs).
  - intros n t. rewrite lookup_insert_eq. by intros [= <- <-].
Qed.

Lemma SInv_served initial subs r : NoDup subs -> served initial subs r -> SInv initial subs r.
Proof.
  intros HN. induction 1 as [|i r r' _ IH Hi Hs]; [by split|]. destruct i as [s| |ctxErr loaded|k ctxErr loaded|k]; try done.
  - simpl in Hs. injection Hs as <-. destruct IH. split; simpl; auto.
  - simpl in Hs. destruct (rl_calls r !! 0%nat) eqn:EC; [done|]. destruct (rl_hup r); [|done]. injection Hs as <-. by apply SInv_take.
  - by eapply SInv_notify.
Qed.

(** C31: reloads by signal.  However signals arrive while subscribers run:
    every subscriber is called with every configuration that was published,
    once each and in the order they were published, the one it is being told
    of at the moment excepted, so when Serve is idle the last one it was told
    is the current one; the current one is the last published; and no SIGHUP
    is lost: one that came after the file was last read is waiting in the
    channel, until the context ends, however many were sent. *)
Theorem reloads_in_order initial subs r : NoDup subs -> served initial subs r ->
  (forall s, s ∈ subs -> exists behind, rl_published r = told_to s r ++ behind /\ (length behind <= 1)%nat /\ (rl_calls r !! 0%nat = None -> behind = []))
  /\ rl_current r = default initial (last (rl_published r))
  /\ (rl_unread r = true -> rl_hup r = true \/ rl_done r = true)
  /\ (rl_calls r !! 0%nat = None -> rl_hup r = true -> forall ctxErr loaded, is_Some (reload_step (ITake ctxErr loaded) r)).
Proof.
  intros HN Hr. destruct (SInv_served _ _ _ HN Hr) as [H1 H2 H3 H4 H5 H6]. split_and!; [|done|done|].
  - intros s Hs. specialize (H3 s Hs). destruct (rl_calls r !! 0%nat) as [[next todo]|].
    + destruct H3 as (ea & HP & HT). rewrite HT. destruct (decide (s ∈ todo)).
      * exists [next]. split_and!; [done|simpl; lia|done].
      * exists []. rewrite app_nil_r. split_and!; [done|simpl; lia|done].
    + exists []. rewrite H3, app_nil_r. split_and!; [done|simpl; lia|done].
  - intros HC HH ctxErr loaded. simpl. rewrite HC, HH. eauto.
Qed.

(** Two calls of Reload from different goroutines: the subscribers run outside
    the lock, so one can be told of the older configuration last. *)
Definition demo_reorder (c0 a b : Config) : option Reloader :=
  reload_steps [ISubscribe 7; IReload 1 None (inr a); IReload 2 None (inr b); INotify 2; INotify 1] (NewReloader c0).
Theorem concurrent_reloads_reorder c0 a b :
  let with_sections c := c0 <| c_Profiles := c_Profiles c |> <| c_Inventory := c_Inventory c |> in
  (fun r => (last (told_to 7 r), rl_current r)) <$> demo_reorder c0 a b = Some (Some (with_sections a), with_sections b).
Proof. vm_compute. reflexivity. Qed.

(** While a subscriber runs, Serve takes no signal: the next SIGHUP waits for
    the slowest subscriber. *)
Theorem slow_subscriber_holds_reload r next todo ctxErr loaded :
  rl_calls r !! 0%nat = Some (next, todo) -> reload_step (ITake ctxErr loaded) r = None.
Proof. simpl. by intros ->. Qed.

Definition demo_reload (c : Config) : list reload_input := [IHup; ITake None (inr c); INotify 0; IHup; IHup].
Definition demo_reloader (c : Config) : Reloader :=
  default (NewReloader c) (reload_steps (demo_reload c) ((NewReloader c) <| rl_subs := [1; 2]%nat |>)).

Lemma served_steps initial subs l r r' : served initial subs r ->
  Forall (fun i => match i with IReload _ _ _ | ISubscribe _ => False | _ => True end) l -> reload_steps l r = Some r' -> served initial subs r'.
Proof.
  intros Hr Hl. revert r Hr. induction Hl as [|i l Hi _ IH]; intros r Hr; simpl; [by intros [= <-]|].
  destruct (reload_step i r) as [r1|] eqn:E; [|done]. apply IH. by eapply ServedStep.
Qed.

Lemma reloads_in_order_witness : exists c, (exists behind, rl_published (demo_reloader c) = told_to 1 (demo_reloader c) ++ behind /\ (length behind <= 1)%nat)
  /\ rl_hup (demo_reloader c) = true.
Proof.
  exists demo_minimal.
  assert (HN : NoDup [1; 2]%nat) by (apply (bool_decide_unpack _); vm_compute; exact I).
  assert (Hr : served demo_minimal [1; 2]%nat (demo_reloader demo_minimal)).
  { apply (served_steps demo_minimal [1; 2]%nat (demo_reload demo_minimal) ((NewReloader demo_minimal) <| rl_subs := [1; 2]%nat |>)); [constructor|repeat constructor|vm_compute; reflexivity]. }
  destruct (reloads_in_order demo_minimal [1; 2]%nat _ HN Hr) as (H1 & _).
  split; [|vm_compute; reflexivity]. destruct (H1 1%nat ltac:(constructor)) as (b & Hb & Hl & _). exists b. split; [exact Hb|exact Hl].
Defined.
