(* ===== verification/ConfigAccept.v ===== *)
(** * From a valid configuration to the Pool Manager

    A Profile that [Validate] accepts yields a spec the (fake) Pool Manager
    accepts, and a Reload of a valid configuration installs every Pool; with
    the two bounds [Validate] does not check. *)
From S2P Require Import Prelude GoModel PoolTypes ConfigTypes Base64 Spec PathMatch GoStrings SchedTypes Tracker HostTable PoolDecl PoolDeclThms PoolClient.
From S2P Require FakePool FakeOps.
From S2P Require Import FakeServer ConfigImage ConfigDefaults ConfigValidate ConfigThms ConfigValid.

(** What the wire and the Pool Manager ask beyond the rules of the file: a
    size that fits an int32 and a positive threshold. *)
Record fits (ps : PoolSettings) : Prop := {
  fit_size : ps_Size ps <= 2147483647;
  fit_min : ps_Strategy ps = ReplenishMinSizeThreshold -> forall m, ps_MinSize ps = Some m -> 0 < m;
  fit_beat : ps_HeartbeatExpiry ps <= maxDuration
}.

Section Accept.
Context {Template : Type} (Parse : string -> result Template) (Execute : Template -> string -> result string).
Context (cfg : FakePool.FakeConfig) (Hcfg : FakePool.fc_Namespace cfg = "").

Lemma present_nonempty s : present s = true -> s <> "".
Proof. by intros H ->. Qed.

Lemma replenishment_accepted ps r : pool_rules ps -> fits ps -> replenishment ps = Ok r -> FakeOps.strategyError r = None.
Proof.
  intros [H1 _ _ H4 H5 _ _ _] [F1 F2 _]. unfold replenishment.
  destruct H4 as [E|[E|[E [m Hm]]]]; rewrite E; cbn; [by intros [= <-]..|].
  rewrite Hm. cbn. intros [= <-]. unfold FakeOps.strategyError. cbn [rs_Type rs_MinSize]. pose proof (F2 E m Hm). pose proof (H5 m Hm). rewrite int32_id by lia. by rewrite (proj2 (Z.leb_gt m 0)).
Qed.

Lemma policy_accepted s p : hookFailurePolicy s = Ok p -> p = DELETE_AND_REPLACE \/ p = HOOK_QUARANTINE.
Proof. unfold hookFailurePolicy. repeat case_match; intros [= <-]; auto. Qed.

(** The spec of a valid Profile is taken as it is. *)
Lemma Build_accepted p inp spec ref :
  pool_rules (p_Pool p) -> fits (p_Pool p) -> Build Parse Execute p inp = Ok spec ->
  ref = poolRef p (si_Namespace inp) -> fake_accepts cfg (spec <| sp_Ref := ref |>).
Proof.
  intros HP HF HB ->. pose proof HP as [H1 H2 H3 H4 H5 H6 H7 H8]. pose proof HF as [F1 F2 F3]. unfold Build in HB.
  destruct (buildTemplate Parse Execute p inp) as [t|] eqn:ET; [|done]. destruct (replenishment (p_Pool p)) as [r|] eqn:ER; [|done].
  destruct (hookFailurePolicy _) as [pol|] eqn:EP; [|done]. injection HB as <-.
  assert (ms_AllowGuestAgent t = true) as Hag. { unfold buildTemplate in ET. destruct (buildMetadata _ _ _); [|done]. by injection ET as <-. }
  split_and!; unfold set_field; cbn [eta_PoolSpec sp_Ref sp_Template sp_Size sp_FlintlockHosts sp_Replenishment sp_CreateCommands sp_PreLeaseCommands
    sp_HookFailurePolicy sp_HeartbeatInterval sp_HeartbeatExpiryThreshold]; [| |lia|lia|lia].
  - unfold FakeOps.validateSpec. cbn [sp_Ref sp_Template sp_Size sp_FlintlockHosts sp_Replenishment sp_CreateCommands sp_PreLeaseCommands
      sp_HookFailurePolicy sp_HeartbeatInterval sp_HeartbeatExpiryThreshold poolRef ref_Name ref_Namespace].
    rewrite (plain_nonempty _ H2), (plain_nonempty _ H3), (plain_nonempty _ H2), (plain_nonempty _ H3), (replenishment_accepted _ _ HP HF ER).
    assert (FakeOps.forceGuestAgent t = t) as -> by (destruct t; simpl in Hag; by subst).
    rewrite int32_id by lia. destruct (Z.ltb_spec (ps_Size (p_Pool p)) 0); [lia|]. destruct (Z.leb_spec (ps_HeartbeatExpiry (p_Pool p)) 0); [lia|].
    by destruct (policy_accepted _ _ EP) as [->| ->].
  - unfold FakeOps.checkNamespace. by rewrite Hcfg.
Qed.

(** The refs of the Profiles the Scheduler resolves. *)
Lemma poolRef_key p q ns : present (ps_Name (p_Pool p)) = true -> present (ps_Namespace (p_Pool p)) = true ->
  present (ps_Name (p_Pool q)) = true -> present (ps_Namespace (p_Pool q)) = true -> poolRef p ns = poolRef q ns -> poolKey p = poolKey q.
Proof.
  intros H1 H2 H3 H4. unfold poolRef, poolKey. rewrite !(plain_nonempty _ H1), !(plain_nonempty _ H2), !(plain_nonempty _ H3), !(plain_nonempty _ H4).
  by intros [= -> ->].
Qed.

Lemma NoDup_refs ps ns : Forall (fun p => pool_rules (p_Pool p)) ps -> NoDup (poolKey <$> ps) -> NoDup ((fun p => poolRef p ns) <$> ps).
Proof.
  intros HF. induction HF as [|p ps Hp HF IH]; [constructor|]. rewrite !fmap_cons, !NoDup_cons. intros [Hn HN]. split; [|by apply IH].
  intros (q & Hq & Hin)%list_elem_of_fmap. apply Hn, list_elem_of_fmap. exists q. split; [|done]. rewrite Forall_forall in HF.
  destruct Hp as [_ ? ? _ _ _ _ _], (HF q Hin) as [_ ? ? _ _ _ _ _]. by apply (poolRef_key p q ns).
Qed.

Context {DurationPB : Type} (durationpb_New : duration -> DurationPB) (AsDuration : DurationPB -> duration).
Context (Hdur : forall d, minDuration <= d <= maxDuration -> AsDuration (durationpb_New d) = d) (ctxErr : option error).
Context (url_Parse : string -> option URL) (set : Settings).
#[local] Instance accept_admin : PoolAdmin FakeAt := fake_PoolAdmin durationpb_New AsDuration cfg ctxErr.
#[local] Instance accept_laws : PoolAdminLaws FakeAt fake_stored fake_up (fake_accepts cfg) := fake_laws durationpb_New AsDuration cfg ctxErr Hdur.

Lemma resolved_ref ps ns p : p ∈ resolveProfiles ps ns -> pr_cfg p ∈ ps /\ pr_PoolRef p = poolRef (pr_cfg p) ns.
Proof. unfold resolveProfiles. intros (q & -> & Hq)%list_elem_of_fmap. done. Qed.

Lemma specOf_accepted c p inventory :
  Forall (profile_rules c) (c_Profiles c) -> Forall (fun p => fits (p_Pool p)) (c_Profiles c) ->
  p ∈ resolveProfiles (c_Profiles c) (set_Namespace set) -> acceptable Parse Execute set (fake_accepts cfg) inventory p.
Proof.
  intros HR HF Hp spec Hs. destruct (resolved_ref _ _ _ Hp) as [Hin Href]. rewrite Forall_forall in HR, HF. destruct (HR _ Hin).
  unfold specOf in Hs. destruct (Build Parse Execute (pr_cfg p) _) as [sp|] eqn:EB; [|done]. injection Hs as <-.
  eapply Build_accepted; [done|by apply HF|exact EB|exact Href].
Qed.

End Accept.

Definition demo_valid : Config := ApplyDefaults (Ok "runner-1") "amd64" demo_minimal.
Definition demo_declState : declState FakeAt :=
  {| d_profiles := []; d_inventory := []; d_hosts := newHostTable []; d_tracker := NewTracker; d_pm := demo_FakeAt |}.


(** ** What Validate lets through

    A threshold of zero passes [Validate], and so does a size beyond an int32;
    the Pool Manager refuses the first and the second is sent as another
    number. *)
Definition with_pool (f : PoolSettings -> PoolSettings) : Config :=
  demo_minimal <| c_Profiles := (fun p => p <| p_Pool := f (p_Pool p) |>) <$> c_Profiles demo_minimal |>.
Definition built (c : Config) : list (result PoolSpec) :=
  (fun p => Build demo_Parse demo_Execute p {| si_RunnerName := "r"; si_Namespace := "n"; si_Hosts := ["host-1"] |}) <$> c_Profiles c.

Theorem zero_threshold_refused :
  let c := ApplyDefaults (Ok "runner-1") "amd64" (with_pool (fun ps => ps <| ps_Strategy := ReplenishMinSizeThreshold |> <| ps_MinSize := Some 0 |>)) in
  Validate demo_url_Parse c = []
  /\ (fun r => match r with Ok spec => match FakeOps.validateSpec spec with RErr (RStatus code _) => Some code | _ => None end | Err _ => None end) <$> built c
     = [Some InvalidArgument].
Proof. split; vm_compute; reflexivity. Qed.

Theorem huge_size_wraps :
  let c := ApplyDefaults (Ok "runner-1") "amd64" (with_pool (fun ps => ps <| ps_Size := 2 ^ 32 + 1 |>)) in
  Validate demo_url_Parse c = []
  /\ (fun r => match r with Ok spec => Some (sp_Size spec) | Err _ => None end) <$> built c = [Some 1].
Proof. split; vm_compute; reflexivity. Qed.
