(* ===== verification/RunnerCfg.v ===== *)
(** * The run loop's configuration: internal/config/runnercfg

    Build translates the Runner's configuration into the structures the
    gitlab-runner run loop reads.  Those structures are gitlab-runner's; the
    records below have the fields the translation sets, and what
    common.NewConfig() returns and the time ConfigLoadedAt takes are
    arguments.  [url.Parse] is the argument the validation has. *)
From S2P Require Import Prelude GoModel ConfigTypes GoStrings ConfigImage ConfigDefaults ConfigValidate ConfigThms ConfigValid.

Definition ExecutorName : string := "flintlock".
Definition ShellName : string := "bash".

(** The authentication types of gitlab-runner's S3 cache. *)
Inductive s3AuthType := S3AuthTypeAccessKey | S3AuthTypeIAM.

Record CacheS3Config := {
  s3_ServerAddress : string; s3_AccessKey : string; s3_SecretKey : string; s3_BucketName : string; s3_BucketLocation : string;
  s3_Insecure : bool; s3_AuthenticationType : option s3AuthType; s3_RoleARN : string; s3_UploadRoleARN : string }.
#[export] Instance eta_CacheS3Config : Eta CacheS3Config :=
  fun r => {| s3_ServerAddress := s3_ServerAddress r; s3_AccessKey := s3_AccessKey r; s3_SecretKey := s3_SecretKey r;
              s3_BucketName := s3_BucketName r; s3_BucketLocation := s3_BucketLocation r; s3_Insecure := s3_Insecure r;
              s3_AuthenticationType := s3_AuthenticationType r; s3_RoleARN := s3_RoleARN r; s3_UploadRoleARN := s3_UploadRoleARN r |}.
Definition zeroS3 : CacheS3Config :=
  {| s3_ServerAddress := ""; s3_AccessKey := ""; s3_SecretKey := ""; s3_BucketName := ""; s3_BucketLocation := ""; s3_Insecure := false;
     s3_AuthenticationType := None; s3_RoleARN := ""; s3_UploadRoleARN := "" |}.

Record cacheconfig := { cc_Type : string; cc_Path : string; cc_Shared : bool; cc_S3 : CacheS3Config }.

Record RunnerConfig := {
  rc_Name : string; rc_Limit : Z; rc_OutputLimit : Z; rc_RequestConcurrency : Z; rc_SystemID : string; rc_ConfigLoadedAt : time;
  rc_URL : string; rc_Token : string; rc_TLSCAFile : string; rc_TLSCertFile : string; rc_TLSKeyFile : string;
  rc_Executor : string; rc_Shell : string; rc_BuildsDir : string; rc_CacheDir : string; rc_Cache : option cacheconfig }.

Record commonConfig := {
  cm_ListenAddress : string; cm_Concurrent : Z; cm_CheckInterval : Z; cm_ShutdownTimeout : Z; cm_Runners : list RunnerConfig; cm_Loaded : bool }.
#[export] Instance eta_commonConfig : Eta commonConfig :=
  fun r => {| cm_ListenAddress := cm_ListenAddress r; cm_Concurrent := cm_Concurrent r; cm_CheckInterval := cm_CheckInterval r;
              cm_ShutdownTimeout := cm_ShutdownTimeout r; cm_Runners := cm_Runners r; cm_Loaded := cm_Loaded r |}.

(** [int((d + time.Second - 1) / time.Second)] at the width of a Duration. *)
Definition wholeSeconds (d : duration) : Z :=
  if d <=? 0 then 0
  else let s := Z.quot (int64 (int64 (d + second) - 1)) second in
       if s <? 1 then 1 else s.

Section Build.
Context (url_Parse : string -> option URL).

Definition serverAddress (endpoint : string) : result string :=
  match url_Parse endpoint with
  | Some u => if String.eqb (u_Host u) "" then Err (ENew "distributed_cache.endpoint is not a URL") else Ok (u_Host u)
  | None => Err (ENew "distributed_cache.endpoint is not a URL")
  end.

Definition cacheConfig (dc : option DistributedCache) : result (option cacheconfig) :=
  match dc with
  | None => Ok None
  | Some dc =>
      let s3 := zeroS3 <| s3_BucketName := dc_Bucket dc |> <| s3_BucketLocation := dc_Region dc |> <| s3_AuthenticationType := Some S3AuthTypeIAM |> in
      let out s3 := Ok (Some {| cc_Type := "s3"; cc_Path := dc_Prefix dc; cc_Shared := true; cc_S3 := s3 |}) in
      if negb (String.eqb (dc_Endpoint dc) "") then
        match serverAddress (dc_Endpoint dc) with
        | Err e => Err e
        | Ok addr => out (s3 <| s3_ServerAddress := addr |>)
        end
      else out s3
  end.

(** The Profile whose directories the whole runner takes: the first one
    marked default, else the first one. *)
Definition dirsProfile (first : ProfileConfig) (ps : list ProfileConfig) : ProfileConfig :=
  default first (List.find p_Default ps).

(** [cfg] is none for the nil pointer. *)
Definition Build (newConfig : commonConfig) (now : time) (cfg : option Config) (systemID : string) : result commonConfig :=
  match cfg with
  | None => Err (ENew "runnercfg: nil config")
  | Some cfg =>
      match c_Profiles cfg with
      | [] => Err (ENew "runnercfg: no default profile")
      | p0 :: _ =>
          let dirs := dirsProfile p0 (c_Profiles cfg) in
          let g := c_GitLab cfg in
          match cacheConfig (c_DistributedCache cfg) with
          | Err e => Err e
          | Ok cache =>
              let runner :=
                {| rc_Name := gl_Name g; rc_Limit := gl_Concurrent g; rc_OutputLimit := gl_OutputLimitKB g; rc_RequestConcurrency := 1;
                   rc_SystemID := systemID; rc_ConfigLoadedAt := now; rc_URL := gl_URL g; rc_Token := gl_Token g;
                   rc_TLSCAFile := tls_CAFile (gl_TLS g); rc_TLSCertFile := tls_CertFile (gl_TLS g); rc_TLSKeyFile := tls_KeyFile (gl_TLS g);
                   rc_Executor := ExecutorName; rc_Shell := ShellName; rc_BuildsDir := p_BuildsDir dirs; rc_CacheDir := p_CacheDir dirs;
                   rc_Cache := cache |} in
              Ok (newConfig <| cm_ListenAddress := ob_ListenAddress (c_Observability cfg) |> <| cm_Concurrent := gl_Concurrent g |>
                    <| cm_CheckInterval := wholeSeconds (gl_CheckInterval g) |> <| cm_ShutdownTimeout := wholeSeconds (gl_ShutdownTimeout g) |>
                    <| cm_Runners := [runner] |> <| cm_Loaded := true |>)
          end
      end
  end.
End Build.

(** ** Whole seconds *)
Lemma wholeSeconds_ceil d : 0 < d <= maxDuration - second -> (wholeSeconds d - 1) * second < d <= wholeSeconds d * second.
Proof.
  unfold maxDuration. intros Hd. unfold wholeSeconds. destruct (Z.leb_spec d 0); [lia|].
  assert (forall z, - 2 ^ 63 <= z < 2 ^ 63 -> int64 z = z) as HI.
  { intros z Hz. unfold int64, wrap_signed. rewrite Z.mod_small; lia. }
  unfold second in *. rewrite (HI (d + 1000000000)), HI by lia. rewrite Z.quot_div_nonneg by lia.
  pose proof (Z_div_mod_eq_full (d + 1000000000 - 1) 1000000000). pose proof (Z.mod_pos_bound (d + 1000000000 - 1) 1000000000).
  destruct (Z.ltb_spec ((d + 1000000000 - 1) / 1000000000) 1); lia.
Qed.

Lemma wholeSeconds_pos d : 0 < d -> 1 <= wholeSeconds d.
Proof. intros Hd. unfold wholeSeconds. destruct (Z.leb_spec d 0); [lia|]. destruct (Z.ltb_spec (Z.quot (int64 (int64 (d + second) - 1)) second) 1); lia. Qed.

(** ** The translation of an accepted configuration *)
Lemma dirsProfile_in p0 ps : dirsProfile p0 (p0 :: ps) ∈ p0 :: ps.
Proof.
  unfold dirsProfile. destruct (List.find p_Default (p0 :: ps)) as [p|] eqn:E; [|left].
  apply find_some in E as [E _]. by apply list_elem_of_In.
Qed.

Lemma dirsProfile_default p0 ps : existsb p_Default (p0 :: ps) = true -> p_Default (dirsProfile p0 (p0 :: ps)) = true.
Proof.
  intros (p & Hin & Hp)%existsb_exists. unfold dirsProfile. destruct (List.find p_Default (p0 :: ps)) as [q|] eqn:E.
  - by apply find_some in E as [_ E].
  - by rewrite (find_none _ _ E p Hin) in Hp.
Qed.

Section Accepted.
Context (url_Parse : string -> option URL).

(** No credential of the object store is in the configuration, the store is
    reached over TLS with the Control Node's own identity, and no role whose
    temporary credentials gitlab-runner would hand to the Job is set. *)
Definition no_credentials (c : cacheconfig) : Prop :=
  s3_AuthenticationType (cc_S3 c) = Some S3AuthTypeIAM /\ s3_AccessKey (cc_S3 c) = "" /\ s3_SecretKey (cc_S3 c) = ""
  /\ s3_RoleARN (cc_S3 c) = "" /\ s3_UploadRoleARN (cc_S3 c) = "" /\ s3_Insecure (cc_S3 c) = false.

Lemma cacheConfig_accepted dc : distributedCache url_Parse dc = [] ->
  exists cache, cacheConfig url_Parse dc = Ok cache
    /\ match dc, cache with
       | None, None => True
       | Some dc, Some c => no_credentials c /\ cc_Shared c = true /\ cc_Path c = dc_Prefix dc /\ s3_BucketName (cc_S3 c) = dc_Bucket dc
                            /\ (dc_Endpoint dc <> "" -> exists u, url_Parse (dc_Endpoint dc) = Some u /\ u_Scheme u = "https" /\ s3_ServerAddress (cc_S3 c) = u_Host u)
       | _, _ => False
       end.
Proof.
  destruct dc as [dc|]; [|by exists None]. unfold distributedCache, cacheConfig. rewrite !app_nil. intros (_ & _ & _ & _ & HE).
  destruct (String.eqb_spec (dc_Endpoint dc) "") as [E|E]; simpl.
  - eexists. split; [reflexivity|]. rec_simpl. split_and!; try done.
  - revert HE. unfold httpURL, httpURL_of, serverAddress. destruct (present (dc_Endpoint dc)) eqn:HP; simpl; [|by rewrite required_nil, HP].
    destruct (url_Parse (dc_Endpoint dc)) as [u|] eqn:HU; [|done]. destruct (String.eqb (u_Host u) "") eqn:EH; simpl; [done|].
    destruct (String.eqb_spec (u_Scheme u) "http") as [E1|E1], (String.eqb_spec (u_Scheme u) "https") as [E2|E2]; simpl; try done;
      rewrite ?app_nil; intros HE; try (by destruct HE); eexists; (split; [reflexivity|]); rec_simpl; split_and!; try done.
    all: intros _; exists u; split_and!; try done; exfalso; destruct HE as [_ HE]; rewrite E1 in HE; by vm_compute in HE.
Qed.

Lemma Build_valid newConfig now cfg systemID : Validate url_Parse cfg = [] ->
  exists out r, Build url_Parse newConfig now (Some cfg) systemID = Ok out /\ cm_Runners out = [r]
    /\ 0 < cm_Concurrent out /\ rc_Limit r = cm_Concurrent out /\ cm_Concurrent out = gl_Concurrent (c_GitLab cfg)
    /\ 1 <= cm_CheckInterval out /\ 1 <= cm_ShutdownTimeout out
    /\ rc_Token r = gl_Token (c_GitLab cfg) /\ rc_SystemID r = systemID /\ rc_Executor r = "flintlock" /\ rc_Shell r = "bash"
    /\ (exists p, p ∈ c_Profiles cfg /\ rc_BuildsDir r = p_BuildsDir p /\ rc_CacheDir r = p_CacheDir p
                 /\ (existsb p_Default (c_Profiles cfg) = true -> p_Default p = true))
    /\ match c_DistributedCache cfg, rc_Cache r with
       | None, None => True
       | Some dc, Some c => no_credentials c /\ cc_Path c = dc_Prefix dc
       | _, _ => False
       end.
Proof.
  intros HV. apply Validate_nil in HV as HR. destruct HR as [HG [HP _] _ _ _ _ _ _ _ _ _ _ _ HC _ _].
  destruct HG as [_ _ (Hc & Hi & _ & Hs) _]. destruct (cacheConfig_accepted _ (proj2 (distributedCache_nil _ _) HC)) as (cache & HB & Hcache). unfold Build. rewrite HB.
  destruct (c_Profiles cfg) as [|p0 ps] eqn:EP; [done|]. eexists _, _. split; [reflexivity|]. rec_simpl. split; [reflexivity|]. simpl.
  split_and!; try done; try by apply wholeSeconds_pos.
  - exists (dirsProfile p0 (p0 :: ps)). split_and!; [apply dirsProfile_in|done|done|apply dirsProfile_default].
  - destruct (c_DistributedCache cfg), cache; naive_solver.
Qed.

(** A configuration the validation accepts always translates: the run
    loop gets one flintlock runner whose limit and the process's concurrency
    are the configured one, intervals of at least a whole second (zero would
    mean gitlab-runner's default), the directories of the Profile marked
    default, and no credential of the distributed cache. *)
Theorem Build_accepts newConfig now cfg systemID : Validate url_Parse cfg = [] ->
  exists out r, Build url_Parse newConfig now (Some cfg) systemID = Ok out /\ cm_Runners out = [r]
    /\ 0 < cm_Concurrent out /\ rc_Limit r = cm_Concurrent out /\ cm_Concurrent out = gl_Concurrent (c_GitLab cfg)
    /\ 1 <= cm_CheckInterval out /\ 1 <= cm_ShutdownTimeout out
    /\ rc_Token r = gl_Token (c_GitLab cfg) /\ rc_SystemID r = systemID /\ rc_Executor r = "flintlock" /\ rc_Shell r = "bash"
    /\ (exists p, p ∈ c_Profiles cfg /\ rc_BuildsDir r = p_BuildsDir p /\ rc_CacheDir r = p_CacheDir p
                 /\ (existsb p_Default (c_Profiles cfg) = true -> p_Default p = true))
    /\ match c_DistributedCache cfg, rc_Cache r with
       | None, None => True
       | Some dc, Some c => no_credentials c /\ cc_Path c = dc_Prefix dc
       | _, _ => False
       end.
Proof. apply Build_valid. Qed.
End Accepted.

Definition demo_cached : Config :=
  ApplyDefaults (Ok "runner-1") "amd64" demo_minimal
    <| c_DistributedCache := Some {| dc_Bucket := "ci-cache"; dc_Region := "eu-west-1"; dc_Prefix := "runner"; dc_Endpoint := ""; dc_Insecure := false |} |>.
Definition zeroCommon : commonConfig :=
  {| cm_ListenAddress := ""; cm_Concurrent := 1; cm_CheckInterval := 0; cm_ShutdownTimeout := 0; cm_Runners := []; cm_Loaded := false |}.

Lemma Build_accepts_witness :
  exists out r, Build demo_url_Parse zeroCommon 0 (Some demo_cached) "s_0123456789ab" = Ok out /\ cm_Runners out = [r] /\ rc_Limit r = cm_Concurrent out.
Proof.
  destruct (Build_accepts demo_url_Parse zeroCommon 0 demo_cached "s_0123456789ab") as (out & r & H1 & H2 & _ & H3 & _);
    [vm_compute; reflexivity|by exists out, r].
Defined.

(** The sum inside wholeSeconds wraps: a timeout within a second of the
    longest Duration becomes one second. *)
Lemma wholeSeconds_wraps : wholeSeconds maxDuration = 1 /\ wholeSeconds (maxDuration - second + 1) = 9223372036 /\ wholeSeconds 0 = 0 /\ wholeSeconds 1 = 1.
Proof. by_compute. Qed.
