(* ===== verification/Registry.v ===== *)
(** * internal/flintlock/registry.go: the live Hosts and their connections

    The Registry hands out the client of a Host, counts who holds it, and on a
    reload retires the entries the new Inventory no longer has: a retired
    entry that a Job still holds is closed when its last holder lets go.

    A [hostEntry] is created together with the client the Dialer returned, so
    both are named by the same number, and [conns_closed] lists the clients
    [Close] was called on.  [Lease], [release], [Close] and the critical
    sections of [Apply] are interleaved; the clients that a section decided to
    close are closed in the same step, since nothing reaches them any more. *)
From S2P Require Import Prelude GoModel ConfigTypes PoolDecl.

#[export] Instance TLSOptions_eq_dec : EqDecision TLSOptions.
Proof. solve_decision. Defined.
#[export] Instance Endpoint_eq_dec : EqDecision Endpoint.
Proof. solve_decision. Defined.

Record hostEntry := { hx_ep : Endpoint; hx_leases : Z; hx_retired : bool; hx_closed : bool }.
#[export] Instance eta_hostEntry : Eta hostEntry :=
  fun r => {| hx_ep := hx_ep r; hx_leases := hx_leases r; hx_retired := hx_retired r; hx_closed := hx_closed r |}.

Record registry := {
  hosts : gmap string Z; retired : list Z; closed : bool;
  entries : gmap Z hostEntry; next_client : Z; conns_closed : list Z }.
#[export] Instance eta_registry : Eta registry :=
  fun r => {| hosts := hosts r; retired := retired r; closed := closed r; entries := entries r;
              next_client := next_client r; conns_closed := conns_closed r |}.

Definition registry0 : registry :=
  {| hosts := ∅; retired := []; closed := false; entries := ∅; next_client := 0; conns_closed := [] |}.

Definition upd_entry (e : Z) (f : hostEntry -> hostEntry) (r : registry) : registry :=
  r <| entries := alter f e (entries r) |>.

(** [releasableLocked]: whether the client is to be closed now. *)
Definition releasable (x : hostEntry) : bool := hx_retired x && negb (hx_closed x) && (hx_leases x <=? 0).

Definition close_conns (l : list Z) (r : registry) : registry := r <| conns_closed := conns_closed r ++ l |>.

(** ** Get, Lease, Endpoint, Names *)
Definition Get (name : string) (r : registry) : result Z :=
  match hosts r !! name with None => Err (EWrap name [ESentinel HostErrUnknownHost]) | Some e => Ok e end.

Definition Lease (name : string) (r : registry) : registry * result Z :=
  match hosts r !! name with
  | None => (r, Err (EWrap name [ESentinel HostErrUnknownHost]))
  | Some e => (upd_entry e (fun x => x <| hx_leases := hx_leases x + 1 |>) r, Ok e)
  end.

Definition registry_Endpoint (name : string) (r : registry) : option Endpoint :=
  e ← hosts r !! name; x ← entries r !! e; Some (hx_ep x).

Definition Names (r : registry) : list string := sort_strings ((map_to_list (hosts r)).*1).

Fixpoint forgetRetiredLocked (e : Z) (l : list Z) : list Z :=
  match l with
  | [] => []
  | x :: l => if decide (x = e) then l else x :: forgetRetiredLocked e l
  end.

(** The function [Lease] returns calls this once ([sync.Once]). *)
Definition release (e : Z) (r : registry) : registry :=
  match entries r !! e with
  | None => r
  | Some x =>
      let x := x <| hx_leases := hx_leases x - 1 |> in
      if releasable x
      then close_conns [e] (r <| entries := <[e := x <| hx_closed := true |>]> (entries r) |>
                              <| retired := forgetRetiredLocked e (retired r) |>)
      else r <| entries := <[e := x]> (entries r) |>
  end.

(** ** Apply *)
Record applying := {
  ap_todo : list Endpoint; ap_current : gmap string Z; ap_next : gmap string Z;
  ap_retired : list Z; ap_dialled : list Z }.

Definition errRegistryClosed : error := ENew "flintlock: registry is closed".

(** Its first critical section. *)
Definition Apply_begin (eps : list Endpoint) (r : registry) : result applying :=
  if closed r then Err errRegistryClosed
  else Ok {| ap_todo := eps; ap_current := hosts r; ap_next := ∅; ap_retired := []; ap_dialled := [] |}.

(** One round of the loop over the Endpoints; [dial] is what the Dialer
    answers, if it is asked. *)
Definition Apply_endpoint (ep : Endpoint) (dial : option error) (a : applying) (r : registry) : registry * (error + applying) :=
  let rest := tail (ap_todo a) in
  if String.eqb (e_Name ep) "" then (r, inl (ENew "flintlock: inventory entry has no host name"))
  else match ap_next a !! e_Name ep with
  | Some _ => (r, inl (ENew "flintlock: inventory lists host twice"))
  | None =>
      let existing := e ← ap_current a !! e_Name ep; x ← entries r !! e; Some (e, x) in
      let dialled :=
        match dial with
        | Some err => (close_conns (ap_dialled a) r, inl err)
        | None =>
            let e := next_client r in
            (r <| entries := <[e := {| hx_ep := ep; hx_leases := 0; hx_retired := false; hx_closed := false |}]> (entries r) |>
               <| next_client := e + 1 |>,
             inr {| ap_todo := rest; ap_current := ap_current a; ap_next := <[e_Name ep := e]> (ap_next a);
                    ap_retired := ap_retired a ++ match existing with Some (old, _) => [old] | None => [] end;
                    ap_dialled := ap_dialled a ++ [e] |})
        end in
      match existing with
      | Some (e, x) =>
          if decide (hx_ep x = ep)
          then (r, inr {| ap_todo := rest; ap_current := ap_current a; ap_next := <[e_Name ep := e]> (ap_next a);
                          ap_retired := ap_retired a; ap_dialled := ap_dialled a |})
          else dialled
      | None => dialled
      end
  end.

(** The entries of the old Inventory that the new one does not list. *)
Definition dropped (a : applying) : list Z :=
  (map_to_list (filter (fun kv => ap_next a !! kv.1 = None) (ap_current a))).*2.

Definition retire (r : registry) (e : Z) : registry :=
  match entries r !! e with
  | None => r
  | Some x =>
      let x := x <| hx_retired := true |> in
      if releasable x
      then close_conns [e] (r <| entries := <[e := x <| hx_closed := true |>]> (entries r) |>)
      else r <| entries := <[e := x]> (entries r) |> <| retired := retired r ++ [e] |>
  end.

(** The last critical section. *)
Definition Apply_publish (a : applying) (r : registry) : registry * option error :=
  if closed r then (close_conns (ap_dialled a) r, Some errRegistryClosed)
  else (foldl retire (r <| hosts := ap_next a |>) (ap_retired a ++ dropped a), None).

(** ** Close *)
Definition close_entry (r : registry) (e : Z) : registry :=
  match entries r !! e with
  | None => r
  | Some x => if hx_closed x then r
              else close_conns [e] (r <| entries := <[e := x <| hx_closed := true |>]> (entries r) |>)
  end.

Definition Close (r : registry) : registry :=
  if closed r then r else
  let es := (map_to_list (hosts r)).*2 ++ retired r in
  foldl close_entry (r <| closed := true |> <| hosts := ∅ |> <| retired := [] |>) es.

(** ** Interleaving

    [held] has one element for each lease that has not been released, and
    [reload] is the Apply in progress: there is one caller of Apply.
    [leaked] only observes: the connections dialled by an Apply that then
    refused its Inventory. *)
Record Sys := { reg : registry; held : list Z; reload : option applying; leaked : list Z }.
#[export] Instance eta_Sys : Eta Sys := fun r => {| reg := reg r; held := held r; reload := reload r; leaked := leaked r |}.

Inductive input :=
  | ILease (name : string)
  | IRelease (i : nat)
  | IApply (eps : list Endpoint)
  | IDial (answer : option error)
  | IPublish
  | IClose.

(** The round returns before it dials: the entry has no name, or the name was
    listed before. *)
Definition refuses (ep : Endpoint) (a : applying) : bool := String.eqb (e_Name ep) "" || bool_decide (is_Some (ap_next a !! e_Name ep)).

Definition step (i : input) (y : Sys) : option Sys :=
  let r := reg y in
  match i with
  | ILease name =>
      match Lease name r with
      | (r, Ok e) => Some (y <| reg := r |> <| held := e :: held y |>)
      | (r, Err _) => Some (y <| reg := r |>)
      end
  | IRelease i =>
      match held y !! i with
      | None => None
      | Some e => Some (y <| reg := release e r |> <| held := delete i (held y) |>)
      end
  | IApply eps =>
      match reload y with
      | Some _ => None
      | None => match Apply_begin eps r with
                | Err _ => Some y
                | Ok a => Some (y <| reload := Some a |>)
                end
      end
  | IDial answer =>
      match reload y with
      | Some a =>
          match ap_todo a with
          | [] => None
          | ep :: _ => match Apply_endpoint ep answer a r with
                       | (r, inl _) => Some {| reg := r; held := held y; reload := None;
                                               leaked := leaked y ++ (if refuses ep a then ap_dialled a else []) |}
                       | (r, inr a) => Some (y <| reg := r |> <| reload := Some a |>)
                       end
          end
      | None => None
      end
  | IPublish =>
      match reload y with
      | Some a => match ap_todo a with
                  | [] => Some (y <| reg := (Apply_publish a r).1 |> <| reload := None |>)
                  | _ => None
                  end
      | None => None
      end
  | IClose => Some (y <| reg := Close r |>)
  end.

(** An Inventory [Validate] accepts: every Host has a name of its own. *)
Definition inventory_ok (eps : list Endpoint) : Prop :=
  Forall (fun ep => e_Name ep <> "") eps /\ NoDup (e_Name <$> eps).

Definition input_ok (i : input) : Prop := match i with IApply eps => inventory_ok eps | _ => True end.

Definition Sys0 : Sys := {| reg := registry0; held := []; reload := None; leaked := [] |}.

Inductive reachable : Sys -> Prop :=
  | reach_init : reachable Sys0
  | reach_step i y y' : reachable y -> step i y = Some y' -> reachable y'.

(** ** Where every connection is

    [places y] lists the clients of the live Inventory, the retired ones, the
    ones an Apply has dialled and not published yet, the leaked ones, and the
    closed ones. *)
Definition vals (m : gmap string Z) : list Z := (map_to_list m).*2.
Definition in_reload (y : Sys) : list Z := match reload y with Some a => ap_dialled a | None => [] end.
Definition dialled_of (y : Sys) : list Z := in_reload y ++ leaked y.
Definition places (y : Sys) : list Z := vals (hosts (reg y)) ++ retired (reg y) ++ dialled_of y ++ conns_closed (reg y).
Definition holders (e : Z) (l : list Z) : Z := Z.of_nat (length (filter (fun x => x = e) l)).

Lemma holders_cons e x l : holders e (x :: l) = (if decide (x = e) then 1 else 0) + holders e l.
Proof. unfold holders. rewrite filter_cons. destruct (decide (x = e)); simpl; lia. Qed.

Lemma holders_delete i l e x : l !! i = Some x -> holders e l = (if decide (x = e) then 1 else 0) + holders e (delete i l).
Proof. intros Hi. unfold holders. rewrite (delete_Permutation l i x Hi) at 1. exact (holders_cons e x (delete i l)). Qed.

Lemma holders_pos e l : 0 < holders e l <-> e ∈ l.
Proof.
  unfold holders. split.
  - intros Hl. destruct (filter (fun x => x = e) l) as [|x k] eqn:E; [simpl in Hl; lia|].
    assert (Hx : x ∈ filter (fun x => x = e) l) by (rewrite E; left).
    apply list_elem_of_filter in Hx as [-> Hx]. done.
  - intros He. assert (Hx : e ∈ filter (fun x => x = e) l) by (apply list_elem_of_filter; done).
    destruct (filter (fun x => x = e) l); [by apply elem_of_nil in Hx | simpl; lia].
Qed.

Lemma holders_nonneg e l : 0 <= holders e l.
Proof. unfold holders. lia. Qed.

Lemma vals_insert m n e : m !! n = None -> vals (<[n := e]> m) ≡ₚ e :: vals m.
Proof. intros Hn. unfold vals. by rewrite map_to_list_insert. Qed.

Lemma vals_lookup m n e : m !! n = Some e -> e ∈ vals m.
Proof. intros H. unfold vals. apply list_elem_of_fmap. exists (n, e). by rewrite elem_of_map_to_list. Qed.

Lemma forget_Permutation e l : e ∈ l -> l ≡ₚ e :: forgetRetiredLocked e l.
Proof.
  induction l as [|x l IH]; intros He; [by apply elem_of_nil in He|]. simpl.
  destruct (decide (x = e)) as [->|Hne]; [done|].
  apply elem_of_cons in He as [->|He]; [done|]. rewrite (IH He) at 1. constructor.
Qed.

(** What [Apply] would still drop after its loop. *)
Definition unlisted (cur next : gmap string Z) : list Z := vals (filter (fun kv => next !! kv.1 = None) cur).

Lemma unlisted_insert_None cur next n e :
  cur !! n = None -> unlisted cur (<[n := e]> next) = unlisted cur next.
Proof.
  intros Hn. unfold unlisted. f_equal. apply map_filter_ext. intros k v Hk. simpl.
  by rewrite lookup_insert_ne by congruence.
Qed.

Lemma unlisted_insert_Some cur next n e old :
  cur !! n = Some old -> next !! n = None -> unlisted cur next ≡ₚ old :: unlisted cur (<[n := e]> next).
Proof.
  intros Hc Hn. unfold unlisted.
  rewrite <-(vals_insert (filter _ cur) n old).
  2:{ apply map_lookup_filter_None_2. right. intros v _. simpl. by rewrite lookup_insert_eq. }
  f_equiv. apply map_eq. intros k. destruct (decide (k = n)) as [->|Hk].
  - rewrite lookup_insert_eq. by apply map_lookup_filter_Some_2.
  - rewrite lookup_insert_ne by done. apply option_eq. intros v. rewrite !map_lookup_filter_Some. simpl.
    by rewrite lookup_insert_ne.
Qed.

(** ** The invariant *)
Record entry_ok (y : Sys) (e : Z) (x : hostEntry) : Prop := {
  eo_leases : hx_leases x = holders e (held y);
  eo_live : forall n, hosts (reg y) !! n = Some e -> e_Name (hx_ep x) = n /\ hx_retired x = false /\ hx_closed x = false;
  eo_retired : e ∈ retired (reg y) -> hx_retired x = true /\ hx_closed x = false /\ 0 < holders e (held y);
  eo_dialled : e ∈ dialled_of y -> hx_retired x = false /\ hx_closed x = false /\ holders e (held y) = 0;
  eo_closed : e ∈ conns_closed (reg y) ->
      (hx_closed x = true \/ hx_retired x = false) /\ (holders e (held y) = 0 \/ closed (reg y) = true) }.

Record apply_ok (r : registry) (a : applying) : Prop := {
  ao_current : closed r = false -> ap_current a = hosts r;
  ao_entries : forall n e, ap_current a !! n = Some e -> is_Some (entries r !! e);
  ao_next : forall n e, ap_next a !! n = Some e -> exists x, entries r !! e = Some x /\ e_Name (hx_ep x) = n;
  ao_places : vals (ap_current a) ++ ap_dialled a ≡ₚ vals (ap_next a) ++ ap_retired a ++ unlisted (ap_current a) (ap_next a) }.

Record RI (y : Sys) : Prop := {
  ri_places : seqZ 0 (next_client (reg y)) ≡ₚ places y;
  ri_entries : forall e, 0 <= e < next_client (reg y) <-> is_Some (entries (reg y) !! e);
  ri_next : 0 <= next_client (reg y);
  ri_entry : forall e x, entries (reg y) !! e = Some x -> entry_ok y e x;
  ri_held : forall e, e ∈ held y -> is_Some (entries (reg y) !! e);
  ri_closed : closed (reg y) = true -> hosts (reg y) = ∅ /\ retired (reg y) = [];
  ri_apply : forall a, reload y = Some a -> apply_ok (reg y) a }.

(** A connection is in one place only. *)
Lemma places_NoDup y : RI y -> NoDup (places y).
Proof. intros [HP _ _ _ _ _ _]. rewrite <-HP. apply NoDup_seqZ. Qed.

Lemma place_inv y e x :
  RI y -> entries (reg y) !! e = Some x ->
  (exists n, hosts (reg y) !! n = Some e) \/ e ∈ retired (reg y) \/ e ∈ dialled_of y \/ e ∈ conns_closed (reg y).
Proof.
  intros HR He. assert (Hin : e ∈ places y).
  { rewrite <-(ri_places y HR). apply elem_of_seqZ. pose proof (proj2 (ri_entries y HR e) (mk_is_Some _ _ He)). lia. }
  unfold places in Hin. rewrite !elem_of_app in Hin. destruct Hin as [Hin|[Hin|[Hin|Hin]]]; auto.
  left. unfold vals in Hin. apply list_elem_of_fmap in Hin as ([n e'] & -> & Hin). exists n. by apply elem_of_map_to_list.
Qed.

Lemma live_excl y n e : RI y -> hosts (reg y) !! n = Some e ->
  e ∉ retired (reg y) /\ e ∉ dialled_of y /\ e ∉ conns_closed (reg y).
Proof.
  intros HR Hn. pose proof (places_NoDup y HR) as HN. unfold places in HN. apply NoDup_app in HN as (_ & HN & _).
  specialize (HN e (vals_lookup _ _ _ Hn)). rewrite !elem_of_app in HN. tauto.
Qed.

Lemma retired_excl y e : RI y -> e ∈ retired (reg y) -> e ∉ dialled_of y /\ e ∉ conns_closed (reg y).
Proof.
  intros HR Hn. pose proof (places_NoDup y HR) as HN. unfold places in HN. apply NoDup_app in HN as (_ & _ & HN).
  apply NoDup_app in HN as (_ & HN & _). specialize (HN e Hn). rewrite elem_of_app in HN. tauto.
Qed.

Lemma dialled_excl y e : RI y -> e ∈ dialled_of y -> e ∉ conns_closed (reg y).
Proof.
  intros HR Hn. pose proof (places_NoDup y HR) as HN. unfold places in HN. apply NoDup_app in HN as (_ & _ & HN).
  apply NoDup_app in HN as (_ & _ & HN). apply NoDup_app in HN as (_ & HN & _). by apply HN.
Qed.

Lemma live_entry y n e : RI y -> hosts (reg y) !! n = Some e -> is_Some (entries (reg y) !! e).
Proof.
  intros HR Hn. apply (ri_entries y HR). assert (Hin : e ∈ seqZ 0 (next_client (reg y))).
  { rewrite (ri_places y HR). unfold places. rewrite elem_of_app. left. by eapply vals_lookup. }
  apply elem_of_seqZ in Hin. lia.
Qed.

Lemma RI_init : RI Sys0.
Proof.
  split; simpl; try done.
  - intros e. rewrite lookup_empty. split; [lia | intros [? [=]]].
  - intros e He. by apply elem_of_nil in He.
Qed.

(** The entries an operation keeps; only [Apply] adds one. *)
Record kept (r r' : registry) : Prop := {
  kp_eps : forall k x, entries r !! k = Some x -> exists x', entries r' !! k = Some x' /\ hx_ep x' = hx_ep x;
  kp_dom : forall k, is_Some (entries r' !! k) -> is_Some (entries r !! k);
  kp_next : next_client r' = next_client r }.

Lemma kept_refl r r' : entries r' = entries r -> next_client r' = next_client r -> kept r r'.
Proof. intros HE HN. split; rewrite ?HE; eauto. Qed.

Lemma kept_trans r1 r2 r3 : kept r1 r2 -> kept r2 r3 -> kept r1 r3.
Proof.
  intros [A1 B1 C1] [A2 B2 C2]. split; [|auto|congruence].
  intros k x Hk. destruct (A1 k x Hk) as (x' & Hk' & <-). by apply A2.
Qed.

Lemma kept_insert r r' e x x' :
  entries r !! e = Some x -> hx_ep x' = hx_ep x -> entries r' = <[e := x']> (entries r) -> next_client r' = next_client r ->
  kept r r'.
Proof.
  intros He Hep HE HN. split; [| |done]; rewrite HE; intros k.
  - intros z Hz. destruct (decide (k = e)) as [->|]; [rewrite lookup_insert_eq | rewrite lookup_insert_ne by done]; eauto.
    exists x'. split; [done|]. congruence.
  - destruct (decide (k = e)) as [->|]; [eauto | by rewrite lookup_insert_ne].
Qed.

Ltac keep_entry H := eapply kept_insert; [exact H| |reflexivity|reflexivity]; reflexivity.

Lemma apply_ok_kept r r' a :
  apply_ok r a -> kept r r' -> (closed r' = false -> closed r = false /\ hosts r' = hosts r) -> apply_ok r' a.
Proof.
  intros [H1 H3 H4 H5] HK HC. split; [| | |done].
  - intros Hc. destruct (HC Hc) as [Hc' ->]. auto.
  - intros n e He. destruct (H3 n e He) as [x Hx]. destruct (kp_eps _ _ HK e x Hx) as (x' & Hx' & _). eauto.
  - intros n e He. destruct (H4 n e He) as (x & Hx & Hn). destruct (kp_eps _ _ HK e x Hx) as (x' & Hx' & Hep).
    exists x'. split; [done|]. congruence.
Qed.

(** The parts of the invariant that an operation which keeps the entries
    keeps by that alone. *)
Lemma RI_kept y y' :
  RI y -> kept (reg y) (reg y') ->
  seqZ 0 (next_client (reg y)) ≡ₚ places y' ->
  (forall e x, entries (reg y') !! e = Some x -> entry_ok y' e x) ->
  (forall e, e ∈ held y' -> e ∈ held y \/ is_Some (entries (reg y) !! e)) ->
  (closed (reg y') = true -> hosts (reg y') = ∅ /\ retired (reg y') = []) ->
  (forall a, reload y' = Some a -> apply_ok (reg y') a) -> RI y'.
Proof.
  intros HR HK HP HE HH HC HA. split; try done.
  - by rewrite (kp_next _ _ HK).
  - intros e. rewrite (kp_next _ _ HK), (ri_entries y HR e). split; [|apply (kp_dom _ _ HK)].
    intros [x Hx]. destruct (kp_eps _ _ HK e x Hx) as (x' & Hx' & _). eauto.
  - rewrite (kp_next _ _ HK). exact (ri_next y HR).
  - intros e He. destruct (HH e He) as [Hh|[x Hx]].
    + destruct (ri_held y HR e Hh) as [x Hx]. destruct (kp_eps _ _ HK e x Hx) as (x' & Hx' & _). eauto.
    + destruct (kp_eps _ _ HK e x Hx) as (x' & Hx' & _). eauto.
Qed.

Lemma RI_lease y n e x :
  RI y -> hosts (reg y) !! n = Some e -> entries (reg y) !! e = Some x ->
  RI (y <| reg := (reg y) <| entries := <[e := x <| hx_leases := hx_leases x + 1 |>]> (entries (reg y)) |> |> <| held := e :: held y |>).
Proof.
  intros HR Hn Hx. destruct (live_excl y n e HR Hn) as (Hr & Hd & Hc).
  assert (HK : kept (reg y) ((reg y) <| entries := <[e := x <| hx_leases := hx_leases x + 1 |>]> (entries (reg y)) |>))
    by keep_entry Hx.
  apply (RI_kept y); simpl; [done|exact HK|exact (ri_places y HR)| | |exact (ri_closed y HR)|].
  - intros k x' Hk. destruct (decide (k = e)) as [->|Hne].
    + rewrite lookup_insert_eq in Hk. injection Hk as <-. destruct (ri_entry y HR e x Hx) as [H1 H2 H3 H4 H5].
      split; unfold dialled_of, in_reload in *; simpl in *; rewrite ?holders_cons, ?decide_True by done; [lia | exact H2 | done..].
    + rewrite lookup_insert_ne in Hk by done. destruct (ri_entry y HR k x' Hk) as [H1 H2 H3 H4 H5].
      split; unfold dialled_of, in_reload in *; simpl in *; rewrite ?holders_cons, ?decide_False by done; try done.
  - intros k Hk. apply elem_of_cons in Hk as [->|Hk]; eauto.
  - intros a Ha. apply (apply_ok_kept (reg y)); [by apply (ri_apply y HR)|exact HK|done].
Qed.

Lemma retired_place y e x :
  RI y -> entries (reg y) !! e = Some x -> 0 < holders e (held y) -> hx_retired x = true -> hx_closed x = false ->
  e ∈ retired (reg y).
Proof.
  intros HR Hx Hh Hr Hc. destruct (ri_entry y HR e x Hx) as [_ L2 _ L4 L5].
  destruct (place_inv y e x HR Hx) as [[n Hn]|[?|[Hd|Hd]]]; [|done| |].
  - destruct (L2 n Hn) as (_ & ? & _). congruence.
  - destruct (L4 Hd) as (_ & _ & ?). lia.
  - destruct (L5 Hd) as [[?|?] _]; congruence.
Qed.

Lemma forget_subset e k l : k ∈ forgetRetiredLocked e l -> k ∈ l.
Proof.
  induction l as [|q l IH]; simpl; [done|]. destruct (decide (q = e)); [by right|]. rewrite !elem_of_cons. tauto.
Qed.

Lemma RI_release y i e x :
  RI y -> held y !! i = Some e -> entries (reg y) !! e = Some x ->
  RI (y <| reg := release e (reg y) |> <| held := delete i (held y) |>).
Proof.
  intros HR Hi Hx. pose proof (ri_entry y HR e x Hx) as [L1 L2 L3 L4 L5].
  pose proof (holders_delete i _ e e Hi) as Hh. rewrite decide_True in Hh by done.
  assert (Hin : 0 < holders e (held y)) by (apply holders_pos; by eapply list_elem_of_lookup_2).
  assert (Hsub : forall k, k ∈ delete i (held y) -> k ∈ held y).
  { intros k Hk. rewrite (delete_Permutation _ i e Hi). by right. }
  assert (HK : kept (reg y) (release e (reg y))).
  { unfold release. rewrite Hx. case_match; keep_entry Hx. }
  assert (HA : closed (release e (reg y)) = closed (reg y) /\ hosts (release e (reg y)) = hosts (reg y)).
  { unfold release. rewrite Hx. by case_match. }
  unfold release in *. rewrite Hx in *. set (x' := x <| hx_leases := hx_leases x - 1 |>) in *.
  destruct (releasable x') eqn:Hrel; (apply (RI_kept y); simpl in *; [done|exact HK| | |eauto| |]).
  all: try (intros a Ha; apply (apply_ok_kept (reg y)); [by apply (ri_apply y HR)|exact HK|done]).
  all: unfold releasable, x' in Hrel; simpl in Hrel.
  - assert (He : e ∈ retired (reg y)) by (bool_to_prop; by apply (retired_place y e x)).
    rewrite (ri_places y HR). unfold places, dialled_of, in_reload. simpl. rewrite (forget_Permutation e (retired (reg y)) He) at 1.
    rewrite (Permutation_app_comm (conns_closed _) [e]). simpl. by rewrite !Permutation_middle.
  - bool_to_prop. intros k z Hk. destruct (decide (k = e)) as [->|Hne].
    + rewrite lookup_insert_eq in Hk. injection Hk as <-.
      assert (He : e ∈ retired (reg y)) by (by apply (retired_place y e x)).
      pose proof (places_NoDup y HR) as HN. unfold places in HN. apply NoDup_app in HN as (_ & _ & HN).
      apply NoDup_app in HN as (HN & _ & _). rewrite (forget_Permutation e _ He) in HN. apply NoDup_cons in HN as [HN _].
      destruct (retired_excl y e HR He) as [Hd Hc].
      split; simpl; [lia | intros n Hn; destruct (L2 n Hn) as (_ & ? & _); congruence | done | done | intros _; split; [by left|left; lia]].
    + rewrite lookup_insert_ne in Hk by done. destruct (ri_entry y HR k z Hk) as [E1 E2 E3 E4 E5].
      pose proof (holders_delete i _ k e Hi) as Hhk. rewrite decide_False in Hhk by done. rewrite Z.add_0_l in Hhk.
      split; simpl; rewrite <-?Hhk; try done.
      * intros Hr. apply E3. by eapply forget_subset.
      * intros Hc. apply E5. apply elem_of_app in Hc as [Hc|Hc]; [done|]. by apply list_elem_of_singleton in Hc.
  - intros Hc. destruct (ri_closed y HR Hc) as [? ->]. done.
  - exact (ri_places y HR).
  - intros k z Hk. destruct (decide (k = e)) as [->|Hne].
    + rewrite lookup_insert_eq in Hk. injection Hk as <-. split; simpl; [lia|exact L2| | |].
      * intros Hr. destruct (L3 Hr) as (R1 & R2 & _). split; [done|]. split; [done|]. rewrite R1, R2 in Hrel. simpl in Hrel. bool_to_prop. lia.
      * intros Hd. destruct (L4 Hd) as (_ & _ & ?). lia.
      * intros Hc. destruct (L5 Hc) as [? [?|?]]; [lia|auto].
    + rewrite lookup_insert_ne in Hk by done. destruct (ri_entry y HR k z Hk) as [E1 E2 E3 E4 E5].
      pose proof (holders_delete i _ k e Hi) as Hhk. rewrite decide_False in Hhk by done. rewrite Z.add_0_l in Hhk.
      by split; simpl; rewrite <-?Hhk.
  - exact (ri_closed y HR).
Qed.

(** ** Apply *)
Lemma RI_begin y a eps :
  RI y -> reload y = None -> Apply_begin eps (reg y) = Ok a -> RI (y <| reload := Some a |>).
Proof.
  unfold Apply_begin. intros HR Hn Ha. destruct (closed (reg y)) eqn:Hc; [done|]. injection Ha as <-.
  assert (Hd : forall b, dialled_of (y <| reload := b |>) = match b with Some a => ap_dialled a | None => [] end ++ leaked y) by done.
  apply (RI_kept y); simpl; [done|by apply kept_refl| | |auto|exact (ri_closed y HR)|].
  - rewrite (ri_places y HR). unfold places. rewrite Hd. unfold dialled_of, in_reload. by rewrite Hn.
  - intros e x He. destruct (ri_entry y HR e x He) as [E1 E2 E3 E4 E5]. unfold dialled_of, in_reload in E4. rewrite Hn in E4. by split.
  - intros a [= <-]. split; simpl; try done.
    + intros n e He. by eapply live_entry.
    + unfold unlisted. rewrite map_filter_id by (intros; apply lookup_empty). unfold vals. by rewrite map_to_list_empty, app_nil_r.
Qed.

(** The connections an Apply dialled are closed when it gives up. *)
Lemma RI_close_dialled y a :
  RI y -> reload y = Some a ->
  RI (y <| reg := close_conns (ap_dialled a) (reg y) |> <| reload := None |>).
Proof.
  intros HR Ha. apply (RI_kept y); simpl; [done|by apply kept_refl| | |auto|exact (ri_closed y HR)|done].
  - rewrite (ri_places y HR). unfold places, dialled_of, in_reload. simpl. rewrite Ha.
    rewrite (Permutation_app_comm (ap_dialled a)), <-app_assoc. by rewrite (Permutation_app_comm (ap_dialled a) (conns_closed _)).
  - intros e x He. destruct (ri_entry y HR e x He) as [E1 E2 E3 E4 E5]. unfold dialled_of, in_reload in E4. rewrite Ha in E4.
    split; unfold dialled_of, in_reload; simpl; try done; [intros Hin; apply E4; apply elem_of_app; by right|].
    intros Hin. apply elem_of_app in Hin as [Hin|Hin]; [by apply E5|]. destruct (E4 ltac:(apply elem_of_app; by left)) as (? & ? & ?). auto.
Qed.

(** The connections a refused Apply dialled stay as they are. *)
Lemma RI_refuse y a :
  RI y -> reload y = Some a -> RI (y <| reload := None |> <| leaked := leaked y ++ ap_dialled a |>).
Proof.
  intros HR Ha. apply (RI_kept y); simpl; [done|by apply kept_refl| | |auto|exact (ri_closed y HR)|done].
  - rewrite (ri_places y HR). unfold places, dialled_of, in_reload. simpl. rewrite Ha. by rewrite (Permutation_app_comm (ap_dialled a)).
  - intros e x He. destruct (ri_entry y HR e x He) as [E1 E2 E3 E4 E5]. unfold dialled_of, in_reload in E4. rewrite Ha in E4.
    split; unfold dialled_of, in_reload; simpl; try done. intros Hin. apply E4. apply elem_of_app in Hin. apply elem_of_app. tauto.
Qed.

Lemma RI_keep y a ep rest e x :
  RI y -> reload y = Some a -> ap_next a !! e_Name ep = None -> ap_current a !! e_Name ep = Some e ->
  entries (reg y) !! e = Some x -> hx_ep x = ep ->
  RI (y <| reload := Some {| ap_todo := rest; ap_current := ap_current a; ap_next := <[e_Name ep := e]> (ap_next a);
                             ap_retired := ap_retired a; ap_dialled := ap_dialled a |} |>).
Proof.
  intros HR Ha Hnone Hc Hx Hep. destruct (ri_apply y HR a Ha) as [A1 A5 A6 A7].
  apply (RI_kept y); simpl; [done|by apply kept_refl| | |auto|exact (ri_closed y HR)|].
  - rewrite (ri_places y HR). unfold places, dialled_of, in_reload. simpl. by rewrite Ha.
  - intros k z Hk. destruct (ri_entry y HR k z Hk) as [E1 E2 E3 E4 E5]. unfold dialled_of, in_reload in E4. rewrite Ha in E4. by split.
  - intros b [= <-]. split; simpl; try done.
    + intros n k Hk. apply lookup_insert_Some in Hk as [[<- <-]|[_ Hk]]; [|eauto]. exists x. by subst.
    + rewrite A7, (unlisted_insert_Some _ _ _ e e Hc Hnone), (vals_insert _ _ _ Hnone). simpl.
      by rewrite <-!Permutation_middle.
Qed.

Lemma RI_dial y a ep rest :
  RI y -> reload y = Some a -> ap_next a !! e_Name ep = None ->
  RI (y <| reg := (reg y) <| entries := <[next_client (reg y) := {| hx_ep := ep; hx_leases := 0; hx_retired := false; hx_closed := false |}]> (entries (reg y)) |>
                       <| next_client := next_client (reg y) + 1 |> |>
        <| reload := Some {| ap_todo := rest; ap_current := ap_current a; ap_next := <[e_Name ep := next_client (reg y)]> (ap_next a);
                          ap_retired := ap_retired a ++ match ap_current a !! e_Name ep with Some old => [old] | None => [] end;
                          ap_dialled := ap_dialled a ++ [next_client (reg y)] |} |>).
Proof.
  intros HR Ha Hnone. set (c := next_client (reg y)). destruct (ri_apply y HR a Ha) as [A1 A5 A6 A7].
  assert (Hfresh : entries (reg y) !! c = None).
  { apply eq_None_not_Some. intros Hs. apply (ri_entries y HR) in Hs. unfold c in Hs. lia. }
  assert (Hnp : c ∉ places y).
  { rewrite <-(ri_places y HR), elem_of_seqZ. unfold c. lia. }
  assert (Hnh : holders c (held y) = 0).
  { destruct (decide (0 < holders c (held y))) as [Hp|Hp]; [|pose proof (holders_nonneg c (held y)); lia].
    apply holders_pos, (ri_held y HR) in Hp. rewrite Hfresh in Hp. by destruct Hp. }
  unfold places in Hnp. rewrite !elem_of_app in Hnp.
  split; simpl.
  - pose proof (ri_next y HR) as Hn0. fold c in Hn0. rewrite seqZ_app by lia. unfold c at 1. rewrite (ri_places y HR). unfold places, dialled_of, in_reload. simpl. rewrite Ha.
    rewrite Z.add_0_l. fold c. change (seqZ c 1) with [c].
    rewrite <-!app_assoc. do 3 f_equiv. by rewrite (app_assoc (leaked y)), (Permutation_app_comm _ [c]).
  - intros e. destruct (decide (e = c)) as [->|Hne].
    + rewrite lookup_insert_eq. pose proof (ri_next y HR). unfold c in *. split; [eauto|lia].
    + rewrite lookup_insert_ne by done. rewrite <-(ri_entries y HR e). unfold c in *. lia.
  - pose proof (ri_next y HR). unfold c. lia.
  - intros k z Hk. destruct (decide (k = c)) as [->|Hne].
    + rewrite lookup_insert_eq in Hk. injection Hk as <-. split; simpl; [by rewrite Hnh| | | |].
      * intros n Hn. apply vals_lookup in Hn. tauto.
      * tauto.
      * done.
      * tauto.
    + rewrite lookup_insert_ne in Hk by done. destruct (ri_entry y HR k z Hk) as [E1 E2 E3 E4 E5]. unfold dialled_of, in_reload in E4. rewrite Ha in E4.
      split; unfold dialled_of, in_reload; simpl; try done. intros Hin. apply E4. rewrite !elem_of_app, list_elem_of_singleton in Hin.
      rewrite elem_of_app. tauto.
  - intros k Hk. destruct (decide (k = c)) as [->|Hne]; [rewrite lookup_insert_eq; eauto|]. rewrite lookup_insert_ne by done. by apply (ri_held y HR).
  - exact (ri_closed y HR).
  - intros b [= <-]. split; simpl; try done.
    + intros n k Hk. destruct (decide (k = c)) as [->|Hne]; [rewrite lookup_insert_eq; eauto|]. rewrite lookup_insert_ne by done. eauto.
    + intros n k Hk. apply lookup_insert_Some in Hk as [[<- <-]|[_ Hk]]; [rewrite lookup_insert_eq; eauto|].
      destruct (A6 n k Hk) as (z & Hz & Hn). exists z. rewrite lookup_insert_ne by congruence. done.
    + rewrite app_assoc, A7, (vals_insert _ _ _ Hnone). destruct (ap_current a !! e_Name ep) as [old|] eqn:Hc.
      * rewrite (unlisted_insert_Some _ _ _ c old Hc Hnone). rewrite (Permutation_app_comm _ [c]). simpl.
        rewrite <-!app_assoc. simpl. by rewrite <-!Permutation_middle.
      * rewrite (unlisted_insert_None _ _ _ c Hc), app_nil_r. rewrite (Permutation_app_comm _ [c]). simpl. done.
Qed.

(** What retiring a list of entries leaves: the ones in use wait, the others
    are closed. *)
Definition in_use (r : registry) (e : Z) : bool :=
  match entries r !! e with Some x => 0 <? hx_leases x | None => false end.

Record retires (l : list Z) (r r' : registry) : Prop := {
  rt_kept : kept r r';
  rt_hosts : hosts r' = hosts r; rt_closed : closed r' = closed r;
  rt_places : retired r' ++ conns_closed r' ≡ₚ l ++ retired r ++ conns_closed r;
  rt_retired : forall e, e ∈ retired r' <-> e ∈ retired r \/ e ∈ l /\ in_use r e = true;
  rt_conns : forall e, e ∈ conns_closed r' <-> e ∈ conns_closed r \/ e ∈ l /\ in_use r e = false;
  rt_other : forall e, e ∉ l -> entries r' !! e = entries r !! e;
  rt_entry : forall e x, e ∈ l -> entries r !! e = Some x ->
    entries r' !! e = Some (x <| hx_retired := true |> <| hx_closed := negb (in_use r e) |>) }.

Lemma retires_one r e x :
  entries r !! e = Some x -> hx_closed x = false -> retires [e] r (retire r e).
Proof.
  intros Hx Hc. unfold retire, releasable. rewrite Hx. simpl. rewrite Hc. simpl.
  assert (Hu : in_use r e = negb (hx_leases x <=? 0)) by (unfold in_use; rewrite Hx; by rewrite Z.ltb_antisym).
  destruct (hx_leases x <=? 0); simpl in Hu; (split; simpl; try done; [keep_entry Hx| | | | |]).
  all: try (by rewrite !list_elem_of_singleton || setoid_rewrite list_elem_of_singleton).
  - rewrite (Permutation_app_comm (conns_closed r) [e]). simpl. by rewrite <-Permutation_middle.
  - intros k. rewrite list_elem_of_singleton. split; [auto|]. intros [?|[-> ?]]; [done|congruence].
  - intros k. rewrite elem_of_app, list_elem_of_singleton. split; intros [?|H]; auto; [right; subst; done|right; by destruct H].
  - intros k Hk. rewrite lookup_insert_ne; [done|]. intros <-. apply Hk. by apply list_elem_of_singleton.
  - intros k z Hk Hz. apply list_elem_of_singleton in Hk as ->. rewrite lookup_insert_eq, Hu. by simplify_eq.
  - rewrite <-app_assoc. simpl. by rewrite <-Permutation_middle.
  - intros k. rewrite elem_of_app, list_elem_of_singleton. split; intros [?|H]; auto; [right; subst; done|right; by destruct H].
  - intros k. rewrite list_elem_of_singleton. split; [auto|]. intros [?|[-> ?]]; [done|congruence].
  - intros k Hk. rewrite lookup_insert_ne; [done|]. intros <-. apply Hk. by apply list_elem_of_singleton.
  - intros k z Hk Hz. apply list_elem_of_singleton in Hk as ->. rewrite lookup_insert_eq, Hu. simplify_eq.
    destruct x; simpl in *. by subst.
Qed.

Lemma retires_all l : forall r, NoDup l ->
  (forall e, e ∈ l -> exists x, entries r !! e = Some x /\ hx_closed x = false) -> retires l r (foldl retire r l).
Proof.
  induction l as [|e l IH]; intros r HN HE; simpl.
  - split; try done; [by apply kept_refl|..]; set_solver.
  - apply NoDup_cons in HN as [Hel HN]. destruct (HE e) as (x & Hx & Hc); [left|].
    pose proof (retires_one r e x Hx Hc) as [K1 K2 K3 K4 K5 K6 K7 K8].
    assert (Hsame : forall k, k ∈ l -> entries (retire r e) !! k = entries r !! k).
    { intros k Hk. apply K7. intros Hk'. apply list_elem_of_singleton in Hk' as ->. done. }
    assert (Huse : forall k, k ∈ l -> in_use (retire r e) k = in_use r k) by (intros k Hk; unfold in_use; by rewrite Hsame).
    destruct (IH (retire r e) HN) as [J1 J2 J3 J4 J5 J6 J7 J8].
    { intros k Hk. rewrite Hsame by done. apply HE. by right. }
    split.
    + by eapply kept_trans.
    + congruence.
    + congruence.
    + rewrite J4. simpl in *. rewrite K4. by rewrite <-Permutation_middle.
    + intros k. rewrite J5, K5, list_elem_of_singleton, elem_of_cons. split.
      * intros [[?|[-> ?]]|[Hk Hu]]; auto. right. rewrite <-Huse by done. auto.
      * intros [?|[[->|Hk] Hu]]; auto. right. by rewrite Huse.
    + intros k. rewrite J6, K6, list_elem_of_singleton, elem_of_cons. split.
      * intros [[?|[-> ?]]|[Hk Hu]]; auto. right. rewrite <-Huse by done. auto.
      * intros [?|[[->|Hk] Hu]]; auto. right. by rewrite Huse.
    + intros k Hk. rewrite elem_of_cons in Hk. rewrite J7, K7; [done| |tauto]. rewrite list_elem_of_singleton. tauto.
    + intros k z Hk Hz. apply elem_of_cons in Hk as [->|Hk].
      * rewrite J7 by done. apply K8; [|done]. by apply list_elem_of_singleton.
      * rewrite (J8 k z Hk) by (by rewrite Hsame). by rewrite Huse.
Qed.

Lemma RI_publish y a :
  RI y -> reload y = Some a -> ap_todo a = [] -> RI (y <| reg := (Apply_publish a (reg y)).1 |> <| reload := None |>).
Proof.
  intros HR Ha Ht. unfold Apply_publish. destruct (closed (reg y)) eqn:Hcl; simpl; [by apply RI_close_dialled|].
  destruct (ri_apply y HR a Ha) as [A1 A5 A6 A7]. specialize (A1 Hcl). set (l := ap_retired a ++ dropped a).
  change (dropped a) with (unlisted (ap_current a) (ap_next a)) in l.
  assert (HP : vals (hosts (reg y)) ++ ap_dialled a ≡ₚ vals (ap_next a) ++ l) by (by rewrite <-A1, A7).
  assert (Hpl : places y ≡ₚ (vals (ap_next a) ++ l) ++ leaked y ++ retired (reg y) ++ conns_closed (reg y)).
  { rewrite <-HP. unfold places, dialled_of, in_reload. rewrite Ha. rewrite <-!app_assoc. f_equiv.
    rewrite (app_assoc (retired _)), (Permutation_app_comm (retired _)), <-app_assoc. f_equiv.
    by rewrite (app_assoc (retired _)), (Permutation_app_comm (retired _)), <-app_assoc. }
  pose proof (places_NoDup y HR) as HN. rewrite Hpl in HN.
  apply NoDup_app in HN as (HN & Hex & _). apply NoDup_app in HN as (_ & Hnl & HNl).
  assert (Hwhere : forall e, e ∈ vals (ap_next a) ++ l -> (exists n, hosts (reg y) !! n = Some e) \/ e ∈ dialled_of y).
  { intros e He. rewrite <-HP in He. unfold dialled_of, in_reload. rewrite Ha. apply elem_of_app in He as [He|He]; [left|right; apply elem_of_app; by left].
    unfold vals in He. apply list_elem_of_fmap in He as ([n e'] & -> & He). exists n. by apply elem_of_map_to_list. }
  assert (Hin : forall e, e ∈ vals (ap_next a) ++ l -> exists x, entries (reg y) !! e = Some x /\ hx_retired x = false /\ hx_closed x = false
                 /\ entry_ok y e x).
  { intros e He. assert (Hs : is_Some (entries (reg y) !! e)).
    { apply (ri_entries y HR). assert (Hq : e ∈ seqZ 0 (next_client (reg y))) by (rewrite (ri_places y HR), Hpl; set_solver).
      apply elem_of_seqZ in Hq. lia. }
    destruct Hs as [x Hx]. exists x. pose proof (ri_entry y HR e x Hx) as HE. destruct (Hwhere e He) as [[n Hn]|Hd].
    - destruct (eo_live _ _ _ HE n Hn) as (_ & ? & ?). auto.
    - destruct (eo_dialled _ _ _ HE Hd) as (? & ? & _). auto. }
  destruct (retires_all l ((reg y) <| hosts := ap_next a |>) HNl) as [K1 K2 K3 K4 K5 K6 K7 K8].
  { intros e He. destruct (Hin e) as (x & Hx & _ & Hc & _); [set_solver|]. eauto. }
  set (r' := foldl retire _ l) in *. simpl in *.
  assert (K1' : kept (reg y) r') by (eapply kept_trans; [|exact K1]; by apply kept_refl).
  apply (RI_kept y); simpl; [done|exact K1'| | |auto| |done].
  - rewrite (ri_places y HR), Hpl. unfold places, dialled_of, in_reload. simpl. rewrite K2.
    rewrite (app_assoc (retired r')), (Permutation_app_comm (retired r')), <-(app_assoc (leaked y)), K4, <-!app_assoc. f_equiv.
    rewrite !app_assoc. do 2 f_equiv. apply Permutation_app_comm.
  - intros e x He. destruct (decide (e ∈ l)) as [Hel|Hel].
    + destruct (Hin e) as (z & Hz & Hzr & Hzc & [E1 E2 E3 E4 E5]); [set_solver|]. rewrite (K8 e z Hel Hz) in He. injection He as <-.
      assert (Hu : in_use ((reg y) <| hosts := ap_next a |>) e = (0 <? hx_leases z)) by (unfold in_use; simpl; by rewrite Hz).
      split; simpl; [done| | | |].
      * intros n Hn. exfalso. rewrite K2 in Hn. apply vals_lookup in Hn. by eapply Hnl.
      * rewrite K5, Hu. intros [Hr|[_ Hr]]; [exfalso; eapply (Hex e); set_solver|]. split; [done|]. rewrite Hr. split; [done|]. bool_to_prop. lia.
      * intros Hd. exfalso. eapply (Hex e); [set_solver|]. change (e ∈ leaked y) in Hd. set_solver.
      * rewrite K6, Hu. intros [Hr|[_ Hr]]; [exfalso; eapply (Hex e); set_solver|]. rewrite Hr. split; [by left|]. bool_to_prop.
        pose proof (holders_nonneg e (held y)). left. lia.
    + rewrite K7 in He by done. destruct (ri_entry y HR e x He) as [E1 E2 E3 E4 E5]. split; simpl; [done| | | |].
      * rewrite K2. intros n Hn. destruct (A6 n e Hn) as (z & Hz & Hnm). simplify_eq.
        destruct (Hin e) as (z & Hz' & ? & ? & _); [apply vals_lookup in Hn; set_solver|]. by simplify_eq.
      * rewrite K5. intros [Hr|[Hr _]]; [auto|done].
      * intros Hd. apply E4. apply elem_of_app. by right.
      * rewrite K6, K3, Hcl. intros [Hr|[Hr _]]; [|done]. destruct (E5 Hr) as [? [?|?]]; [auto|congruence].
  - rewrite K3. congruence.
Qed.

(** ** Close *)
Record closes (l : list Z) (r r' : registry) : Prop := {
  cl_kept : kept r r';
  cl_same : hosts r' = hosts r /\ retired r' = retired r /\ closed r' = closed r;
  cl_conns : conns_closed r' = conns_closed r ++ l;
  cl_other : forall e, e ∉ l -> entries r' !! e = entries r !! e;
  cl_entry : forall e x, e ∈ l -> entries r !! e = Some x -> entries r' !! e = Some (x <| hx_closed := true |>) }.

Lemma closes_all l : forall r, NoDup l ->
  (forall e, e ∈ l -> exists x, entries r !! e = Some x /\ hx_closed x = false) -> closes l r (foldl close_entry r l).
Proof.
  induction l as [|e l IH]; intros r HN HE; simpl.
  - split; try done; [by apply kept_refl|by rewrite app_nil_r|]. intros ? ? Hin. by apply elem_of_nil in Hin.
  - apply NoDup_cons in HN as [Hel HN]. destruct (HE e) as (x & Hx & Hc); [left|].
    unfold close_entry at 2. rewrite Hx, Hc. set (r1 := close_conns [e] _).
    assert (Hother : forall k, k <> e -> entries r1 !! k = entries r !! k) by (intros k Hk; simpl; by rewrite lookup_insert_ne).
    assert (K : kept r r1) by keep_entry Hx.
    destruct (IH r1 HN) as [J1 J2 J3 J4 J5].
    { intros k Hk. rewrite Hother by congruence. apply HE. by right. }
    split.
    + by eapply kept_trans.
    + done.
    + rewrite J3. simpl. by rewrite <-app_assoc.
    + intros k Hk. rewrite elem_of_cons in Hk. rewrite J4, Hother; tauto.
    + intros k z Hk Hz. apply elem_of_cons in Hk as [->|Hk].
      * rewrite J4 by done. simpl. rewrite lookup_insert_eq. by simplify_eq.
      * apply J5; [done|]. by rewrite Hother by congruence.
Qed.

Lemma RI_close y : RI y -> RI (y <| reg := Close (reg y) |>).
Proof.
  intros HR. unfold Close. destruct (closed (reg y)) eqn:Hcl; [by destruct y|].
  change ((map_to_list (hosts (reg y))).*2) with (vals (hosts (reg y))). set (l := vals (hosts (reg y)) ++ retired (reg y)).
  assert (Hpl : places y = l ++ dialled_of y ++ conns_closed (reg y)) by (unfold places, l; by rewrite <-app_assoc).
  pose proof (places_NoDup y HR) as HN. rewrite Hpl in HN. apply NoDup_app in HN as (HNl & Hex & _).
  assert (Hin : forall e, e ∈ l -> exists x, entries (reg y) !! e = Some x /\ hx_closed x = false).
  { intros e He. unfold l in He. apply elem_of_app in He as [He|He].
    - unfold vals in He. apply list_elem_of_fmap in He as ([n e'] & -> & He). apply elem_of_map_to_list in He.
      destruct (live_entry y n e' HR He) as [x Hx]. exists x. split; [done|]. by apply (eo_live _ _ _ (ri_entry y HR e' x Hx) n).
    - assert (Hs : is_Some (entries (reg y) !! e)).
      { apply (ri_entries y HR). assert (Hq : e ∈ seqZ 0 (next_client (reg y))) by (rewrite (ri_places y HR); set_solver).
        apply elem_of_seqZ in Hq. lia. }
      destruct Hs as [x Hx]. exists x. split; [done|]. by apply (eo_retired _ _ _ (ri_entry y HR e x Hx)). }
  set (r0 := (reg y) <| closed := true |> <| hosts := ∅ |> <| retired := [] |>).
  destruct (closes_all l r0 HNl) as [K1 (K2 & K2' & K2'') K3 K4 K5].
  { intros e He. exact (Hin e He). }
  set (r' := foldl close_entry r0 l) in *. simpl in K2, K2', K2'', K3.
  assert (K : kept (reg y) r') by (eapply kept_trans; [|exact K1]; by apply kept_refl).
  apply (RI_kept y); simpl; [done|exact K| | |auto|done|].
  - rewrite (ri_places y HR), Hpl. unfold places, dialled_of, in_reload. simpl. rewrite K2, K2', K3. unfold vals. rewrite map_to_list_empty. simpl.
    rewrite (Permutation_app_comm (conns_closed _) l), Permutation_app_comm, <-app_assoc. f_equiv. by rewrite Permutation_app_comm.
  - intros e x He. destruct (decide (e ∈ l)) as [Hel|Hel].
    + destruct (Hin e Hel) as (z & Hz & _). rewrite (K5 e z Hel Hz) in He. injection He as <-.
      destruct (ri_entry y HR e z Hz) as [E1 E2 E3 E4 E5]. split; simpl; rewrite ?K2, ?K2', ?K2''; try done.
      * intros Hr. by apply elem_of_nil in Hr.
      * intros Hd. exfalso. eapply (Hex e Hel). change (dialled_of (y <| reg := r' |>)) with (dialled_of y) in Hd. set_solver.
      * intros _. split; [by left|by right].
    + rewrite K4 in He by done. destruct (ri_entry y HR e x He) as [E1 E2 E3 E4 E5].
      split; simpl; rewrite ?K2, ?K2', ?K2''; try done.
      * intros Hr. by apply elem_of_nil in Hr.
      * rewrite K3. intros Hr. apply elem_of_app in Hr as [Hr|Hr]; [|done]. destruct (E5 Hr) as [? _]. auto.
  - intros a Ha. apply (apply_ok_kept (reg y)); [by apply (ri_apply y HR)|exact K|]. rewrite K2''. done.
Qed.

Lemma RI_step i y y' : RI y -> step i y = Some y' -> RI y'.
Proof.
  intros HR Hs. destruct i as [name|i|eps|ans| |]; simpl in Hs.
  - unfold Lease in Hs. destruct (hosts (reg y) !! name) as [e|] eqn:Hn; simplify_eq.
    + destruct (live_entry y name e HR Hn) as [x Hx].
      assert (Heq : alter (fun x => x <| hx_leases := hx_leases x + 1 |>) e (entries (reg y))
                    = <[e := x <| hx_leases := hx_leases x + 1 |>]> (entries (reg y))).
      { apply map_eq. intros k. destruct (decide (k = e)) as [->|]; [by rewrite lookup_alter_eq, lookup_insert_eq, Hx|].
        by rewrite lookup_alter_ne, lookup_insert_ne. }
      unfold upd_entry. rewrite Heq. by eapply RI_lease.
    + by destruct y.
  - destruct (held y !! i) as [e|] eqn:Hi; simplify_eq.
    destruct (ri_held y HR e) as [x Hx]; [by eapply list_elem_of_lookup_2|]. by eapply RI_release.
  - destruct (reload y) eqn:Hr; [done|]. destruct (Apply_begin eps (reg y)) as [a|] eqn:Hb; simplify_eq; [by eapply RI_begin|done].
  - destruct (reload y) as [a|] eqn:Hr; [|done]. destruct (ap_todo a) as [|ep rest] eqn:Ht; [done|].
    pose proof (ri_apply y HR a Hr) as [_ A5 _ _].
    unfold Apply_endpoint, refuses in Hs. destruct (String.eqb_spec (e_Name ep) ""); [simplify_eq; by apply RI_refuse|]. cbn [orb] in Hs.
    destruct (ap_next a !! e_Name ep) eqn:A4; [simplify_eq; by apply RI_refuse|]. rewrite Ht in Hs. simpl in Hs. rewrite app_nil_r in Hs.
    destruct (ap_current a !! e_Name ep) as [e|] eqn:Hc; simpl in Hs.
    + destruct (A5 _ _ Hc) as [x Hx]. rewrite Hx in Hs. simpl in Hs. destruct (decide (hx_ep x = ep)); simplify_eq.
      * exact (RI_keep y a _ rest e x HR Hr A4 Hc Hx eq_refl).
      * destruct ans; simplify_eq; [by apply RI_close_dialled|]. pose proof (RI_dial y a ep rest HR Hr A4) as HD. by rewrite Hc in HD.
    + destruct ans; simplify_eq; [by apply RI_close_dialled|]. pose proof (RI_dial y a ep rest HR Hr A4) as HD. by rewrite Hc in HD.
  - destruct (reload y) as [a|] eqn:Hr; [|done]. destruct (ap_todo a) eqn:Ht; simplify_eq. by apply RI_publish.
  - simplify_eq. by apply RI_close.
Qed.

Lemma RI_reachable y : reachable y -> RI y.
Proof. induction 1; eauto using RI_init, RI_step. Qed.

Fixpoint steps (is_ : list input) (y : Sys) : option Sys :=
  match is_ with [] => Some y | i :: is_ => y ← step i y; steps is_ y end.

Lemma steps_reachable is_ : forall y y', reachable y -> steps is_ y = Some y' -> reachable y'.
Proof.
  induction is_ as [|i is_ IH]; simpl; intros y y' Hy Hs; [by simplify_eq|].
  destruct (step i y) as [y1|] eqn:E; [|done]. simpl in Hs. eapply IH; [|exact Hs]. by eapply reach_step.
Qed.

(** ** Well-formed Inventories *)

(** What is left of an Inventory that lists every Host under a name of its own
    cannot be refused. *)
Definition todo_ok (a : applying) : Prop :=
  inventory_ok (ap_todo a) /\ forall ep, ep ∈ ap_todo a -> ap_next a !! e_Name ep = None.
Definition unrefused (y : Sys) : Prop := leaked y = [] /\ forall a, reload y = Some a -> todo_ok a.

Lemma todo_ok_next a ep rest cur e rt dl : todo_ok a -> ap_todo a = ep :: rest ->
  todo_ok {| ap_todo := rest; ap_current := cur; ap_next := <[e_Name ep := e]> (ap_next a); ap_retired := rt; ap_dialled := dl |}.
Proof.
  intros [[HF HN] HA] Ht. rewrite Ht in *. apply Forall_cons in HF as [_ HF]. rewrite fmap_cons in HN. apply NoDup_cons in HN as [Hn HN].
  split; [by split|]. intros ep' Hin. simpl in *. rewrite lookup_insert_ne; [apply HA; by right|].
  intros Heq. apply Hn. rewrite Heq. by apply list_elem_of_fmap_2.
Qed.

Lemma unrefused_step i y y' : unrefused y -> input_ok i -> step i y = Some y' -> unrefused y'.
Proof.
  intros [HL HA] Hok Hs. destruct i as [name|i|eps|ans| |]; simpl in Hs.
  - destruct (Lease name (reg y)) as [r [e|e]]; simplify_eq; by split.
  - destruct (held y !! i); simplify_eq; by split.
  - destruct (reload y) eqn:Hr; [done|]. unfold Apply_begin in Hs. destruct (closed (reg y)); simplify_eq; [by split; [|rewrite Hr]|].
    split; [done|]. intros a [= <-]. split; [done|]. intros ep _. apply lookup_empty.
  - destruct (reload y) as [a|] eqn:Hr; [|done]. destruct (ap_todo a) as [|ep rest] eqn:Ht; [done|]. specialize (HA a eq_refl).
    assert (e_Name ep <> "") as Hne by (destruct HA as [[HF _] _]; rewrite Ht in HF; by apply Forall_cons in HF as [HF _]).
    assert (ap_next a !! e_Name ep = None) as Hno by (apply HA; rewrite Ht; left).
    unfold Apply_endpoint, refuses in Hs. destruct (String.eqb_spec (e_Name ep) ""); [done|]. rewrite Hno, Ht in Hs. simpl in Hs.
    assert (forall a', todo_ok a' -> unrefused (y <| reload := Some a' |>)) as HU by (intros a' Ha'; split; [done|]; by intros ? [= <-]).
    repeat case_match; simplify_eq; try (by split; [simpl; rewrite HL|]); split; try done; simpl; intros ? [= <-]; by eapply todo_ok_next.
  - destruct (reload y) as [a|] eqn:Hr; [|done]. destruct (ap_todo a); simplify_eq. by split.
  - simplify_eq. by split.
Qed.
Lemma unrefused_steps is_ : forall y y', Forall input_ok is_ -> unrefused y -> steps is_ y = Some y' -> unrefused y'.
Proof.
  induction is_ as [|i is_ IH]; simpl; intros y y' HF Hy Hs; [by simplify_eq|]. apply Forall_cons in HF as [Hi HF].
  destruct (step i y) as [y1|] eqn:E; [|done]. simpl in Hs. eapply IH; [done| |exact Hs]. by eapply unrefused_step.
Qed.

(** C11: no connection is lost but by a refused reload, and no Job is cut off.
    However leases, releases, reloads of any Inventory and the final Close
    interleave, every connection ever dialled is in exactly one place: in the
    live Inventory, retired, dialled by the reload in progress, closed, or
    leaked by a reload that dialled it and then refused its Inventory for an
    entry without a name or a Host listed twice; none is closed twice.  A
    connection is retired only while someone holds it; one that is held is
    open, unless the Registry was closed; once it is closed and no reload is
    left, all connections but the leaked ones are closed; and none is leaked
    when every Inventory lists each Host under a name of its own, as the
    validation requires. *)
Theorem registry_connections y :
  reachable y ->
  seqZ 0 (next_client (reg y)) ≡ₚ vals (hosts (reg y)) ++ retired (reg y) ++ (in_reload y ++ leaked y) ++ conns_closed (reg y)
  /\ NoDup (conns_closed (reg y))
  /\ (forall e, e ∈ retired (reg y) -> e ∈ held y)
  /\ (forall e, e ∈ held y -> closed (reg y) = false -> e ∉ conns_closed (reg y))
  /\ (closed (reg y) = true -> reload y = None -> leaked y ++ conns_closed (reg y) ≡ₚ seqZ 0 (next_client (reg y)))
  /\ (forall is_, Forall input_ok is_ -> steps is_ Sys0 = Some y -> leaked y = []).
Proof.
  intros Hy. pose proof (RI_reachable y Hy) as HR. pose proof (places_NoDup y HR) as HN.
  assert (Hent : forall e, e ∈ places y -> is_Some (entries (reg y) !! e)).
  { intros e He. apply (ri_entries y HR). rewrite <-(ri_places y HR), elem_of_seqZ in He. lia. }
  split; [exact (ri_places y HR)|]. split; [|split; [|split; [|split]]].
  - unfold places in HN. rewrite !app_assoc in HN. by apply NoDup_app in HN as (_ & _ & HN).
  - intros e He. destruct (Hent e) as [x Hx]; [unfold places; set_solver|].
    apply holders_pos. by apply (eo_retired _ _ _ (ri_entry y HR e x Hx)).
  - intros e He Hc Hcl. destruct (Hent e) as [x Hx]; [unfold places; set_solver|]. apply holders_pos in He.
    destruct (eo_closed _ _ _ (ri_entry y HR e x Hx) Hcl) as [_ [?|?]]; [lia|congruence].
  - intros Hc Hr. destruct (ri_closed y HR Hc) as [H1 H2]. rewrite (ri_places y HR). unfold places, dialled_of, in_reload.
    rewrite H1, H2, Hr. unfold vals. by rewrite map_to_list_empty.
  - intros is_ HF Hs. by apply (unrefused_steps is_ Sys0 y HF).
Qed.

(** Two Hosts, a Job on the first; a reload drops it, the Job ends, a third
    Host comes in, the Runner stops. *)
Definition demo_ep (n : string) : Endpoint :=
  {| e_Name := n; e_Address := n; e_Token := ""; e_TLS := {| o_CAFile := ""; o_CertFile := ""; o_KeyFile := ""; o_Insecure := true |} |}.
Definition demo_inputs : list input :=
  [IApply [demo_ep "a"; demo_ep "b"]; IDial None; IDial None; IPublish; ILease "a";
   IApply [demo_ep "b"; demo_ep "c"]; IDial None; IDial None; IPublish; IRelease 0%nat; IClose].
Definition demo_Sys : Sys := default Sys0 (steps demo_inputs Sys0).

Lemma registry_connections_witness :
  next_client (reg demo_Sys) = 3 /\ conns_closed (reg demo_Sys) ≡ₚ seqZ 0 3.
Proof.
  split; [vm_compute; reflexivity|].
  assert (HF : Forall input_ok demo_inputs) by (repeat constructor; simpl; try discriminate; set_solver).
  assert (Hs : steps demo_inputs Sys0 = Some demo_Sys) by (vm_compute; reflexivity).
  assert (Hr : reachable demo_Sys) by exact (steps_reachable demo_inputs Sys0 demo_Sys reach_init Hs).
  pose proof (registry_connections demo_Sys Hr) as (_ & _ & _ & _ & H & HL).
  assert (Hl : leaked demo_Sys = []) by exact (HL demo_inputs HF Hs).
  assert (Hc : closed (reg demo_Sys) = true) by (vm_compute; reflexivity).
  assert (Hn : reload demo_Sys = None) by (vm_compute; reflexivity).
  specialize (H Hc Hn). rewrite Hl in H. exact H.
Defined.

(** An Inventory that lists a Host twice is refused by [Apply] without
    closing what it has dialled so far: the connection to the first Host is
    lost, and not even Close ends it.  The comment in [Apply] says a refused
    reload leaks no connection; that holds for a failed dial only. *)
Theorem Apply_refused_leaks :
  exists y, steps [IApply [demo_ep "a"; demo_ep "a"]; IDial None; IDial None; IClose] Sys0 = Some y
    /\ next_client (reg y) = 1 /\ conns_closed (reg y) = [] /\ hosts (reg y) = ∅ /\ retired (reg y) = [] /\ reload y = None /\ held y = []
    /\ leaked y = [0].
Proof. eexists. split; [vm_compute; reflexivity|]. by_compute. Qed.

(** ** Apply without interruption *)
Fixpoint Apply_loop (dial : Endpoint -> option error) (eps : list Endpoint) (a : applying) (r : registry) : registry * (error + applying) :=
  match eps with
  | [] => (r, inr a)
  | ep :: eps => match Apply_endpoint ep (dial ep) a r with
                 | (r, inl e) => (r, inl e)
                 | (r, inr a) => Apply_loop dial eps a r
                 end
  end.

Definition Apply (dial : Endpoint -> option error) (eps : list Endpoint) (r : registry) : registry * option error :=
  match Apply_begin eps r with
  | Err e => (r, Some e)
  | Ok a => match Apply_loop dial eps a r with
            | (r, inl e) => (r, Some e)
            | (r, inr a) => Apply_publish a r
            end
  end.

(** The state of the loop after the Endpoints [seen]. *)
Record loop_ok (r0 : registry) (seen : list Endpoint) (a : applying) (r : registry) : Prop := {
  lo_entries : forall k x, entries r0 !! k = Some x -> entries r !! k = Some x;
  lo_fresh : forall k, is_Some (entries r !! k) -> k < next_client r;
  lo_hosts : hosts r = hosts r0 /\ closed r = closed r0 /\ ap_current a = hosts r0;
  lo_names : forall n, is_Some (ap_next a !! n) <-> n ∈ e_Name <$> seen;
  lo_next : forall ep, ep ∈ seen -> exists e x, ap_next a !! e_Name ep = Some e /\ entries r !! e = Some x /\ hx_ep x = ep
              /\ (registry_Endpoint (e_Name ep) r0 = Some ep -> hosts r0 !! e_Name ep = Some e) }.

Lemma Apply_loop_spec r0 dial eps : forall seen a r,
  (forall n e, hosts r0 !! n = Some e -> is_Some (entries r0 !! e)) ->
  loop_ok r0 seen a r -> Forall (fun ep => e_Name ep <> "") eps -> NoDup (e_Name <$> (seen ++ eps)) ->
  match Apply_loop dial eps a r with
  | (r', inl _) => hosts r' = hosts r0 /\ closed r' = closed r0 /\ forall k x, entries r0 !! k = Some x -> entries r' !! k = Some x
  | (r', inr a') => loop_ok r0 (seen ++ eps) a' r'
  end.
Proof.
  induction eps as [|ep eps IH]; intros seen a r Hh HL HF HN; simpl; [by rewrite app_nil_r|].
  apply Forall_cons in HF as [Hne HF]. destruct HL as [L1 L2 (L3 & L3' & L3'') L4 L5].
  assert (Hnone : ap_next a !! e_Name ep = None).
  { apply eq_None_not_Some. rewrite L4. rewrite fmap_app, fmap_cons in HN. apply NoDup_app in HN as (_ & HN & _).
    intros Hin. apply (HN _ Hin). left. }
  assert (HN' : NoDup (e_Name <$> ((seen ++ [ep]) ++ eps))) by (by rewrite <-app_assoc).
  assert (Hnames : forall e n, is_Some (<[e_Name ep := e]> (ap_next a) !! n) <-> n ∈ e_Name <$> (seen ++ [ep])).
  { intros e n. rewrite fmap_app, elem_of_app, <-L4. simpl. rewrite list_elem_of_singleton. destruct (decide (n = e_Name ep)) as [->|Hd].
    - rewrite lookup_insert_eq. split; eauto.
    - rewrite lookup_insert_ne by done. tauto. }
  assert (Hold : forall e r', (forall k x, entries r !! k = Some x -> entries r' !! k = Some x) ->
    (exists x, entries r' !! e = Some x /\ hx_ep x = ep) -> (registry_Endpoint (e_Name ep) r0 = Some ep -> hosts r0 !! e_Name ep = Some e) ->
    forall ep', ep' ∈ seen ++ [ep] -> exists e' x, <[e_Name ep := e]> (ap_next a) !! e_Name ep' = Some e' /\ entries r' !! e' = Some x /\ hx_ep x = ep'
              /\ (registry_Endpoint (e_Name ep') r0 = Some ep' -> hosts r0 !! e_Name ep' = Some e')).
  { intros e r' Hmono (x & Hx & Hep) Hreg ep' Hin. apply elem_of_app in Hin as [Hin|Hin].
    - destruct (L5 ep' Hin) as (e' & x' & Hn' & Hx' & Hep' & Hr'). exists e', x'. rewrite lookup_insert_ne; [eauto 6|]. congruence.
    - apply list_elem_of_singleton in Hin as ->. exists e, x. by rewrite lookup_insert_eq. }
  replace (seen ++ ep :: eps) with ((seen ++ [ep]) ++ eps) by (by rewrite <-app_assoc).
  unfold Apply_endpoint. destruct (String.eqb_spec (e_Name ep) ""); [done|]. rewrite Hnone, L3''.
  assert (Hdial : (hosts r0 !! e_Name ep = None \/ registry_Endpoint (e_Name ep) r0 <> Some ep) -> forall tl,
    match (match dial ep with Some err => (close_conns (ap_dialled a) r, inl err) | None =>
       (r <| entries := <[next_client r := {| hx_ep := ep; hx_leases := 0; hx_retired := false; hx_closed := false |}]> (entries r) |>
          <| next_client := next_client r + 1 |>,
        inr {| ap_todo := tail (ap_todo a); ap_current := hosts r0; ap_next := <[e_Name ep := next_client r]> (ap_next a);
               ap_retired := tl; ap_dialled := ap_dialled a ++ [next_client r] |}) end) with
    | (r', inl _) => hosts r' = hosts r0 /\ closed r' = closed r0 /\ forall k x, entries r0 !! k = Some x -> entries r' !! k = Some x
    | (r', inr a') => loop_ok r0 (seen ++ [ep]) a' r'
    end).
  { intros Hno tl. destruct (dial ep); [done|].
    assert (Hfresh : entries r !! next_client r = None) by (apply eq_None_not_Some; intros Hs; apply L2 in Hs; lia).
    assert (Hmono : forall k x, entries r !! k = Some x -> <[next_client r := {| hx_ep := ep; hx_leases := 0; hx_retired := false; hx_closed := false |}]> (entries r) !! k = Some x)
      by (intros k x Hk; rewrite lookup_insert_ne; [done|congruence]).
    split; simpl; [eauto| |done|apply Hnames|].
    - intros k Hk. destruct (decide (k = next_client r)) as [->|]; [lia|]. rewrite lookup_insert_ne in Hk by done. apply L2 in Hk. lia.
    - set (m := <[next_client r := _]> (entries r)) in *. refine (Hold (next_client r) (r <| entries := m |>) Hmono _ _).
      + simpl. unfold m. rewrite lookup_insert_eq. eauto.
      + intros Hreg. destruct Hno as [Hno|Hno]; [|done]. unfold registry_Endpoint in Hreg. by rewrite Hno in Hreg. }
  destruct (hosts r0 !! e_Name ep) as [e|] eqn:He; simpl.
  - destruct (Hh _ _ He) as [x Hx]. rewrite (L1 _ _ Hx). simpl. destruct (decide (hx_ep x = ep)) as [Hep|Hep].
    + apply IH; [done| |done|done]. split; simpl; [done|done|done|apply Hnames|]. by apply (Hold e r); eauto.
    + assert (Hno : registry_Endpoint (e_Name ep) r0 <> Some ep).
      { unfold registry_Endpoint. rewrite He. simpl. rewrite Hx. simpl. congruence. }
      specialize (Hdial (or_intror Hno) (ap_retired a ++ [e])).
      destruct (dial ep); [done|]. by apply IH.
  - specialize (Hdial (or_introl eq_refl) (ap_retired a ++ [])). destruct (dial ep); [done|]. by apply IH.
Qed.

Lemma retire_kept r e : kept r (retire r e).
Proof. unfold retire. destruct (entries r !! e) eqn:Hx; [case_match; keep_entry Hx|by apply kept_refl]. Qed.

Lemma retire_hosts r e : hosts (retire r e) = hosts r.
Proof. unfold retire. by repeat case_match. Qed.

Lemma retires_kept l : forall r, kept r (foldl retire r l) /\ hosts (foldl retire r l) = hosts r.
Proof.
  induction l as [|e l IH]; intros r; simpl; [split; [by apply kept_refl|done]|].
  destruct (IH (retire r e)) as [HK HH]. rewrite HH, retire_hosts. split; [|done]. eapply kept_trans; [apply retire_kept|done].
Qed.

Lemma Apply_spec y dial eps :
  reachable y -> reload y = None -> inventory_ok eps ->
  let '(r', err) := Apply dial eps (reg y) in
  match err with
  | None => (forall n, is_Some (hosts r' !! n) <-> n ∈ e_Name <$> eps)
      /\ forall ep, ep ∈ eps -> registry_Endpoint (e_Name ep) r' = Some ep
         /\ (registry_Endpoint (e_Name ep) (reg y) = Some ep -> Get (e_Name ep) r' = Get (e_Name ep) (reg y))
  | Some _ => forall n, Get n r' = Get n (reg y) /\ registry_Endpoint n r' = registry_Endpoint n (reg y)
  end.
Proof.
  intros Hy Hr [HF HN]. pose proof (RI_reachable y Hy) as HR. unfold Apply, Apply_begin.
  destruct (closed (reg y)) eqn:Hc; [done|].
  set (a := {| ap_todo := eps; ap_current := hosts (reg y); ap_next := ∅; ap_retired := []; ap_dialled := [] |}).
  assert (Hh : forall n e, hosts (reg y) !! n = Some e -> is_Some (entries (reg y) !! e)) by (intros; by eapply live_entry).
  assert (H0 : loop_ok (reg y) [] a (reg y)).
  { split; simpl; try done.
    - intros k Hk. apply (ri_entries y HR) in Hk. lia.
    - intros n. rewrite lookup_empty. split; [by intros [] | intros Hn; by apply elem_of_nil in Hn].
    - intros ep Hep. by apply elem_of_nil in Hep. }
  pose proof (Apply_loop_spec (reg y) dial eps [] a (reg y) Hh H0) as HL. simpl in HL.
  destruct (Apply_loop dial eps a (reg y)) as [r' [e|a']].
  - destruct HL as (H1 & H2 & H3); [done..|].
    intros n. unfold Get, registry_Endpoint. rewrite H1. split; [done|]. destruct (hosts (reg y) !! n) as [k|] eqn:Hk; [|done]. simpl.
    destruct (Hh _ _ Hk) as [x Hx]. by rewrite (H3 _ _ Hx), Hx.
  - destruct HL as [L1 L2 (L3 & L3' & L3'') L4 L5]; [done..|].
    unfold Apply_publish. rewrite L3', Hc. simpl. set (l := ap_retired a' ++ dropped a').
    destruct (retires_kept l (r' <| hosts := ap_next a' |>)) as [HK HH]. simpl in HH. split.
    + intros n. by rewrite HH.
    + intros ep Hep. destruct (L5 ep Hep) as (e & x & Hn & Hx & Hepx & Hsame). destruct (kp_eps _ _ HK e x) as (x' & Hx' & Hepx'); [done|].
      unfold registry_Endpoint at 1, Get. rewrite HH, Hn. simpl. rewrite Hx'. simpl. split; [congruence|].
      intros Hreg. by rewrite (Hsame Hreg).
Qed.

(** C36: what a reload does to the Hosts.  When it succeeds, the Registry knows
    exactly the Hosts of the new Inventory, each at the Endpoint listed there,
    and a Host whose entry did not change keeps its connection.  When it is
    refused, the Hosts are the ones it had, with the connections they had. *)
Theorem Apply_converges y dial eps :
  reachable y -> reload y = None -> inventory_ok eps ->
  let '(r', err) := Apply dial eps (reg y) in
  match err with
  | None => (forall n, is_Some (hosts r' !! n) <-> n ∈ e_Name <$> eps)
      /\ forall ep, ep ∈ eps -> registry_Endpoint (e_Name ep) r' = Some ep
         /\ (registry_Endpoint (e_Name ep) (reg y) = Some ep -> Get (e_Name ep) r' = Get (e_Name ep) (reg y))
  | Some _ => forall n, Get n r' = Get n (reg y) /\ registry_Endpoint n r' = registry_Endpoint n (reg y)
  end.
Proof. apply Apply_spec. Qed.

Lemma Apply_converges_witness :
  let y := default Sys0 (steps (take 4 demo_inputs) Sys0) in
  let '(r', err) := Apply (fun _ => None) [demo_ep "b"; demo_ep "c"] (reg y) in
  err = None /\ registry_Endpoint "c" r' = Some (demo_ep "c") /\ Get "b" r' = Get "b" (reg y) /\ hosts r' !! "a" = None.
Proof.
  set (y := default Sys0 (steps (take 4 demo_inputs) Sys0)). cbv zeta.
  assert (Hr : reachable y).
  { apply (steps_reachable (take 4 demo_inputs) Sys0 y); [apply reach_init|vm_compute; reflexivity]. }
  assert (Hok : inventory_ok [demo_ep "b"; demo_ep "c"]) by (split; repeat constructor; simpl; try discriminate; set_solver).
  assert (Hn : reload y = None) by (vm_compute; reflexivity).
  assert (Hb : registry_Endpoint "b" (reg y) = Some (demo_ep "b")) by (vm_compute; reflexivity).
  assert (He : (Apply (fun _ => None) [demo_ep "b"; demo_ep "c"] (reg y)).2 = None) by (vm_compute; reflexivity).
  pose proof (Apply_converges y (fun _ => None) [demo_ep "b"; demo_ep "c"] Hr Hn Hok) as H.
  clearbody y. destruct (Apply _ _ (reg y)) as [r' err]. simpl in He. subst err. destruct H as [H1 H2].
  split; [done|]. split; [apply (H2 (demo_ep "c")); set_solver|]. split; [apply (H2 (demo_ep "b")); [set_solver|done]|].
  apply eq_None_not_Some. rewrite H1. simpl. set_solver.
Defined.
