(* ===== verification/Shell.v ===== *)
(** * Quoting for a POSIX shell

    The quoting the sources use for values that end up in a shell command, and
    the part of the shell's own reading of a command line that says what it
    means: words, single quotes, backslash, and commands joined by [&&]. *)
From Stdlib Require Import Ascii.
From S2P Require Import Prelude GoModel Base64 PathMatch GoStrings.

(** [strings.ReplaceAll(s, "'", `'\''`)] *)
Fixpoint escape_quotes (s : string) : string :=
  match s with
  | EmptyString => EmptyString
  | String c s => if Ascii.eqb c "'"%char then "'\''" +:+ escape_quotes s else String c (escape_quotes s)
  end.
Definition shellQuote (s : string) : string := "'" +:+ escape_quotes s +:+ "'".

(** Between single quotes every character stands for itself, a backslash
    outside them keeps the next character, blanks separate words, [&&] joins
    commands and a newline may end the line.  A character with another
    meaning outside quotes is refused.  The result is the commands, each the
    list of its words. *)
Definition sh_meta (c : ascii) : bool := has_byte c "|&;<>()$`*?[#~%!{}^" || Ascii.eqb c "034"%char.
Definition word_add (w : option string) (c : ascii) : option string := Some (default "" w +:+ String c "").
Definition word_end (w : option string) (ws : list string) : list string := match w with Some w => w :: ws | None => ws end.
(** The word in progress, before the rest of its command. *)
Definition first_word (w : option string) (cmds : list (list string)) : list (list string) :=
  match cmds with ws :: cmds => word_end w ws :: cmds | [] => [word_end w []] end.

Fixpoint sh_line (s : string) (quoted : bool) (w : option string) : option (list (list string)) :=
  match s with
  | EmptyString => if quoted then None else Some [word_end w []]
  | String c s =>
      if quoted then if Ascii.eqb c "'"%char then sh_line s false w else sh_line s true (word_add w c)
      else if Ascii.eqb c "'"%char then sh_line s true (Some (default "" w))
      else if Ascii.eqb c "\"%char then
        match s with
        | EmptyString => None
        | String d s => if Ascii.eqb d "010"%char then None else sh_line s false (word_add w d)
        end
      else if Ascii.eqb c " "%char then first_word w <$> sh_line s false None
      else if Ascii.eqb c "010"%char then match s with EmptyString => Some [word_end w []] | _ => None end
      else if Ascii.eqb c "&"%char then
        match s with
        | String d s => if Ascii.eqb d "&"%char then cons (word_end w []) <$> sh_line s false None else None
        | EmptyString => None
        end
      else if sh_meta c then None
      else sh_line s false (word_add w c)
  end.

Lemma sh_line_quoted x rest w :
  sh_line (escape_quotes x +:+ "'" +:+ rest) true (Some w) = sh_line rest false (Some (w +:+ x)).
Proof.
  revert w. induction x as [|c x IH]; intros w.
  - simpl. by rewrite string_app_nil.
  - simpl escape_quotes. destruct (Ascii.eqb_spec c "'"%char) as [->|Hc].
    + change (sh_line (escape_quotes x +:+ "'" +:+ rest) true (Some (w +:+ "'")) = sh_line rest false (Some (w +:+ String "'" x))).
      rewrite IH, string_app_assoc. done.
    + change (sh_line (String c (escape_quotes x +:+ "'" +:+ rest)) true (Some w) = sh_line rest false (Some (w +:+ String c x))).
      simpl sh_line. destruct (Ascii.eqb_spec c "'"%char); [done|]. unfold word_add. simpl default. rewrite IH, string_app_assoc. done.
Qed.

(** A quoted string continues the word it stands in. *)
Lemma sh_line_quote x rest w : sh_line (shellQuote x +:+ rest) false w = sh_line rest false (Some (default "" w +:+ x)).
Proof.
  unfold shellQuote. rewrite !string_app_assoc.
  change (sh_line ("'" +:+ escape_quotes x +:+ "'" +:+ rest) false w) with (sh_line (escape_quotes x +:+ "'" +:+ rest) true (Some (default "" w))).
  by rewrite sh_line_quoted.
Qed.

(** A plain word: nothing in it means anything to the shell. *)
Definition plain_char (c : ascii) : bool :=
  negb (sh_meta c) && negb (Ascii.eqb c "'"%char) && negb (Ascii.eqb c "\"%char) && negb (Ascii.eqb c " "%char) && negb (Ascii.eqb c "010"%char).
Fixpoint plain (s : string) : bool := match s with EmptyString => true | String c s => plain_char c && plain s end.

Lemma sh_line_plain k rest w : plain k = true -> k <> "" -> sh_line (k +:+ rest) false w = sh_line rest false (Some (default "" w +:+ k)).
Proof.
  revert w. induction k as [|c k IH]; intros w Hk Hne; [done|]. simpl in Hk. apply andb_prop in Hk as [Hc Hk].
  change (String c k +:+ rest) with (String c (k +:+ rest)). simpl sh_line. unfold plain_char in Hc.
  apply andb_prop in Hc as [Hc H5]. apply andb_prop in Hc as [Hc H4]. apply andb_prop in Hc as [Hc H3]. apply andb_prop in Hc as [H1 H2].
  apply negb_true_iff in H1, H2, H3, H4, H5. rewrite H2, H3, H4, H5, H1.
  assert (Hamp : Ascii.eqb c "&"%char = false) by (destruct (Ascii.eqb_spec c "&"%char) as [->|]; [discriminate H1|done]). rewrite Hamp.
  destruct k as [|d k]; [done|]. rewrite IH by done. unfold word_add. simpl default. by rewrite string_app_assoc.
Qed.

Lemma sh_line_space rest w : sh_line (" " +:+ rest) false w = first_word w <$> sh_line rest false None.
Proof. done. Qed.
Lemma sh_line_cons n s q w cs : (String.length s <= n)%nat -> sh_line s q w = Some cs -> cs <> [].
Proof.
  revert s q w cs. induction n as [|n IH]; intros [|c s] q w cs Hn; simpl; simpl in Hn; try lia; try (by destruct q; intros [= <-]).
  destruct q; [case_match; apply IH; lia|]. case_match; [apply IH; lia|]. case_match.
  { destruct s as [|d s]; [done|]. simpl in Hn. case_match; [done|]. apply IH; lia. }
  case_match. { destruct (sh_line s false None) as [[|]|]; simpl; by intros [= <-]. }
  case_match. { destruct s; [by intros [= <-]|done]. }
  case_match. { destruct s as [|d s]; [done|]. case_match; [|done]. destruct (sh_line s false None); [by intros [= <-]|done]. }
  case_match; [done|]. apply IH; lia.
Qed.

Lemma sh_line_and rest w : sh_line (" && " +:+ rest) false w = cons (word_end w []) <$> sh_line rest false None.
Proof.
  change (sh_line (" && " +:+ rest) false w) with (first_word w <$> (cons (word_end None []) <$> (first_word None <$> sh_line rest false None))).
  destruct (sh_line rest false None) as [cs|] eqn:E; [|done]. apply (sh_line_cons _ _ _ _ _ (le_n _)) in E. by destruct cs.
Qed.
