(* ===== verification/HostEnv.v ===== *)
(** * The Host Services of a Job: internal/hostservices, internal/kubelabels,
    and hostenv.go, hostnode.go of internal/executor

    A Host Agent publishes where its Host's services listen as annotations of
    the Host's Node; the Executor reads them for the Host a Job was placed on
    and adds the variables that point at them to the Job.  The Kubernetes API
    is behind the class [NodeAPI]; [NodeAPILaws] is what a JSON merge patch
    (RFC 7386) promises. *)
From Stdlib Require Import Ascii.
From S2P Require Import Prelude GoModel Base64 PathMatch GoStrings NetIP ConfigTypes.

(** ** internal/kubelabels *)
Definition Prefix : string := "gitlab-runner.flintlock.dev/".
Definition AnnotationHostServicePrefix : string := "host-service." +:+ Prefix.
Definition HostServiceBuildkit : string := "buildkit".
Definition HostServiceGoProxy : string := "go_proxy".
Definition HostServiceRegistryMirror : string := "registry_mirror".
Definition HostServiceHTTPCache : string := "http_cache".
Definition HostServiceNames : list string :=
  [HostServiceBuildkit; HostServiceGoProxy; HostServiceHTTPCache; HostServiceRegistryMirror].
Definition HostServiceAnnotation (service : string) : string := AnnotationHostServicePrefix +:+ service.

(** ** internal/hostservices: what a Host Agent publishes *)
Definition DefaultResyncInterval : duration := minute.
Definition retryInterval : duration := 5 * second.

Record HostService := { sv_Enabled : bool; sv_Port : Z }.
Record AgentConfig := {
  ag_HostNode : string; ag_Kubeconfig : string; ag_BridgeGateway : string;
  ag_HostServices : gmap string HostService; ag_ResyncInterval : duration }.
#[export] Instance eta_AgentConfig : Eta AgentConfig :=
  fun r => {| ag_HostNode := ag_HostNode r; ag_Kubeconfig := ag_Kubeconfig r; ag_BridgeGateway := ag_BridgeGateway r;
              ag_HostServices := ag_HostServices r; ag_ResyncInterval := ag_ResyncInterval r |}.

Definition EnabledHostServices (c : AgentConfig) : list string :=
  sort_strings ((map_to_list (filter (fun kv => sv_Enabled kv.2 = true) (ag_HostServices c))).*1).

Definition service_port (c : AgentConfig) (name : string) : Z :=
  match ag_HostServices c !! name with Some s => sv_Port s | None => 0 end.

(** The errors it reports, as the texts they are sorted by. *)
Definition agent_Validate (c : AgentConfig) : list string :=
  let fail (field msg : string) := [field +:+ ": " +:+ msg] in
  let enabled := EnabledHostServices c in
  sort_strings (
    (if String.eqb (ag_HostNode c) "" then fail "host_node" "is required" else [])
    ++ flat_map (fun name => if bool_decide (name ∈ HostServiceNames) then []
                             else fail ("host_services." +:+ name) "is not a Host Service")
         (sort_strings ((map_to_list (ag_HostServices c)).*1))
    ++ (match enabled with
        | [] => []
        | _ => if ParseIP (ag_BridgeGateway c) then [] else fail "bridge_gateway" "is not an IP address"
        end)
    ++ flat_map (fun name => let port := service_port c name in
                             if (port <=? 0) || (65535 <? port)
                             then fail ("host_services." +:+ name +:+ ".port") (Itoa port +:+ " is not a port") else [])
         enabled
    ++ (if ag_ResyncInterval c <=? 0 then fail "resync_interval" "has to be positive" else [])).

(** [decoded] is what reading and decoding the file gave. *)
Definition agent_LoadConfig (decoded : result AgentConfig) (override : option (AgentConfig -> AgentConfig)) : result AgentConfig :=
  match decoded with
  | Err e => Err e
  | Ok c =>
      let c := match override with Some f => f c | None => c end in
      let c := if ag_ResyncInterval c =? 0 then c <| ag_ResyncInterval := DefaultResyncInterval |> else c in
      match agent_Validate c with
      | [] => Ok c
      | errs => Err (EWrap "host-services: invalid configuration" (ENew <$> errs))
      end
  end.

(** [None] is a null of the merge patch. *)
Definition Annotations (c : AgentConfig) : gmap string (option string) :=
  let out := foldl (fun m name => <[HostServiceAnnotation name := None]> m) ∅ HostServiceNames in
  foldl (fun m name =>
           <[HostServiceAnnotation name := Some (JoinHostPort (ag_BridgeGateway c) (Itoa (service_port c name)))]> m)
    out (EnabledHostServices c).

(** ** The Kubernetes API, as far as it is used *)
Record Node := { node_Name : string; node_Annotations : gmap string string }.

Definition merge_patch (patch : gmap string (option string)) (old : gmap string string) : gmap string string :=
  omap id patch ∪ filter (fun kv => patch !! kv.1 = None) old.

Class NodeAPI (W : Type) := {
  Nodes_Get : string -> W -> result Node;
  Nodes_Patch : string -> gmap string (option string) -> W -> W * option error }.

(** A merge patch that succeeds has been applied to what the Node had. *)
Class NodeAPILaws (W : Type) `{NodeAPI W} := {
  patch_applied : forall n p w w' node,
    Nodes_Patch n p w = (w', None) -> Nodes_Get n w' = Ok node ->
    node_Name node = n /\ exists old, node_Annotations node = merge_patch p old }.

Section Agent.
Context {W : Type} `{NodeAPI W}.

Definition Publish (node : string) (annotations : gmap string (option string)) (w : W) : W * option error :=
  match Nodes_Patch node annotations w with
  | (w, None) => (w, None)
  | (w, Some e) => (w, Some (EWrap ("host-services: annotating the host's node " +:+ node) [e]))
  end.

(** Run, as long as its rounds are given: what happens to the world between
    two writes, and whether the context ends during the write or the wait.
    The result is the time it waited after each write. *)
Fixpoint agent_Run (c : AgentConfig) (rounds : list ((W -> W) * bool * bool)) (w : W) : W * list duration :=
  match rounds with
  | [] => (w, [])
  | (other, ended, ended_waiting) :: rounds =>
      let '(w, err) := Publish (ag_HostNode c) (Annotations c) w in
      if (ended : bool) then (w, []) else
      let wait := match err with Some _ => Z.min (ag_ResyncInterval c) retryInterval | None => ag_ResyncInterval c end in
      if (ended_waiting : bool) then (other w, [wait])
      else let '(w, waits) := agent_Run c rounds (other w) in (w, wait :: waits)
  end.

(** hostnode.go *)
Definition hostNodes_services (upstreams : list HTTPCacheUpstream) (annotations : gmap string string) : HostServiceAddresses :=
  let addr service :=
    let a := default "" (annotations !! HostServiceAnnotation service) in
    match SplitHostPort a with None => "" | Some _ => a end in
  let prefixed (scheme service : string) :=
    let a := addr service in if String.eqb a "" then "" else scheme +:+ a in
  {| sa_Buildkit := prefixed "tcp://" HostServiceBuildkit;
     sa_GoProxy := prefixed "http://" HostServiceGoProxy;
     sa_RegistryMirror := prefixed "http://" HostServiceRegistryMirror;
     sa_HTTPCache :=
       let a := addr HostServiceHTTPCache in
       if String.eqb a "" then ∅
       else foldl (fun m u => <[hu_Name u := "http://" +:+ a +:+ "/" +:+ hu_Name u]> m) ∅ upstreams |}.

Definition empty_HostEntry (name : string) (services : HostServiceAddresses) : HostEntry :=
  {| he_Name := name; he_Endpoint := ""; he_Arch := ""; he_VCPU := 0; he_MemoryMB := 0; he_Labels := ∅; he_Token := "";
     he_TLS := {| tls_CAFile := ""; tls_CertFile := ""; tls_KeyFile := ""; tls_Insecure := false |}; he_Services := services;
     he_Versions := {| iv_Flintlock := ""; iv_Firecracker := ""; iv_CloudHypervisor := ""; iv_Containerd := "" |} |}.

Definition hostNodes_Host (upstreams : list HTTPCacheUpstream) (name : string) (w : W) : option HostEntry :=
  match Nodes_Get name w with
  | Err _ => None
  | Ok node => Some (empty_HostEntry (node_Name node) (hostNodes_services upstreams (node_Annotations node)))
  end.
End Agent.

(** ** hostenv.go *)
Record HostServiceEnv := { env_Vars : gmap string string; env_Services : list string }.
Definition HostServiceVarNames : list string :=
  ["BUILDKIT_HOST"; "GOPROXY"; "GOFLAGS"; "GONOSUMDB"; "GONOPROXY"; "CI_REGISTRY_MIRROR"].

Definition enabled (s : Service) : bool := match svc_Enabled s with None => true | Some b => b end.

Definition HostServiceEnv0 : HostServiceEnv := {| env_Vars := ∅; env_Services := [] |}.

(** The four services in the order of Resolve. *)
Definition resolve_buildkit (cfg : HostServices) (addrs : HostServiceAddresses) (e : HostServiceEnv) : HostServiceEnv :=
  if enabled (bk_Service (hs_Buildkit cfg)) && negb (String.eqb (sa_Buildkit addrs) "")
  then {| env_Vars := <["BUILDKIT_HOST" := sa_Buildkit addrs]> (env_Vars e); env_Services := env_Services e ++ [HostServiceBuildkit] |}
  else e.
Definition resolve_goProxy (cfg : HostServices) (addrs : HostServiceAddresses) (e : HostServiceEnv) : HostServiceEnv :=
  if enabled (gp_Service (hs_GoProxy cfg)) && negb (String.eqb (sa_GoProxy addrs) "")
  then let vars := <["GOFLAGS" := "-modcacherw"]> (<["GOPROXY" := sa_GoProxy addrs]> (env_Vars e)) in
       {| env_Vars := match gp_PrivatePatterns (hs_GoProxy cfg) with
                      | [] => vars
                      | ps => <["GONOPROXY" := ""]> (<["GONOSUMDB" := String.concat "," ps]> vars)
                      end;
          env_Services := env_Services e ++ [HostServiceGoProxy] |}
  else e.
Definition resolve_registryMirror (cfg : HostServices) (addrs : HostServiceAddresses) (e : HostServiceEnv) : HostServiceEnv :=
  if enabled (rm_Service (hs_RegistryMirror cfg)) && negb (String.eqb (sa_RegistryMirror addrs) "")
  then {| env_Vars := <["CI_REGISTRY_MIRROR" := sa_RegistryMirror addrs]> (env_Vars e); env_Services := env_Services e ++ [HostServiceRegistryMirror] |}
  else e.
(** One round over the upstreams; the flag is whether a variable was set. *)
Definition resolve_upstream (addrs : gmap string string) (acc : gmap string string * bool) (u : HTTPCacheUpstream) : gmap string string * bool :=
  if String.eqb (hu_EnvVar u) "" then acc
  else let url := default "" (addrs !! hu_Name u) in
       if String.eqb url "" then acc else (<[hu_EnvVar u := url]> acc.1, true).
Definition resolve_httpCache (cfg : HostServices) (addrs : HostServiceAddresses) (e : HostServiceEnv) : HostServiceEnv :=
  if enabled (hc_Service (hs_HTTPCache cfg))
  then let r := foldl (resolve_upstream (sa_HTTPCache addrs)) (env_Vars e, false) (hc_Upstreams (hs_HTTPCache cfg)) in
       {| env_Vars := r.1; env_Services := if r.2 then env_Services e ++ [HostServiceHTTPCache] else env_Services e |}
  else e.

Definition Resolve (cfg : HostServices) (host : option HostEntry) : HostServiceEnv :=
  match host with
  | None => HostServiceEnv0
  | Some h =>
      let addrs := he_Services h in
      resolve_httpCache cfg addrs (resolve_registryMirror cfg addrs (resolve_goProxy cfg addrs (resolve_buildkit cfg addrs HostServiceEnv0)))
  end.

(** The option WithHTTPCacheUpstreams of the provider. *)
Definition WithHTTPCacheUpstreams (upstreams : list HTTPCacheUpstream) (vars : gset string) : gset string :=
  foldl (fun vars u => if String.eqb (hu_EnvVar u) "" then vars else {[hu_EnvVar u]} ∪ vars) vars upstreams.

Definition allowedVarNames (httpCacheVars : gset string) : gset string :=
  (list_to_set HostServiceVarNames ∪ httpCacheVars) ∖ {["GOPRIVATE"]}.

Record JobVariable := { v_Key : string; v_Value : string; v_Public : bool }.

(** The variables of the Build after addHostServiceEnv, given the
    environment of the Host. *)
Definition addHostServiceEnv (httpCacheVars : gset string) (env : HostServiceEnv) (vars : list JobVariable) : list JobVariable :=
  let allowed := allowedVarNames httpCacheVars in
  let jobSets : gset string := list_to_set (v_Key <$> vars) in
  foldl (fun vs k => if bool_decide (k ∈ allowed) && negb (bool_decide (k ∈ jobSets))
                     then vs ++ [{| v_Key := k; v_Value := default "" (env_Vars env !! k); v_Public := true |}] else vs)
    vars (sort_strings ((map_to_list (env_Vars env)).*1)).

(** ** Lemmas *)
Lemma elem_of_sort_strings x l : x ∈ sort_strings l <-> x ∈ l.
Proof. unfold sort_strings. by rewrite (merge_sort_Permutation string_le l). Qed.

Lemma sort_strings_nil l : sort_strings l = [] -> l = [].
Proof. intros H. pose proof (merge_sort_Permutation string_le l) as P. unfold sort_strings in H. rewrite H in P. by apply Permutation_nil. Qed.

Lemma elem_of_keys {A} (m : gmap string A) k : k ∈ (map_to_list m).*1 <-> is_Some (m !! k).
Proof.
  rewrite list_elem_of_fmap. split.
  - intros ((k', x) & -> & Hx). apply elem_of_map_to_list in Hx. by exists x.
  - intros [x Hx]. exists (k, x). by rewrite elem_of_map_to_list.
Qed.

Lemma elem_of_EnabledHostServices c n :
  n ∈ EnabledHostServices c <-> exists s, ag_HostServices c !! n = Some s /\ sv_Enabled s = true.
Proof.
  unfold EnabledHostServices. rewrite elem_of_sort_strings, elem_of_keys. split.
  - intros [s [Hs He]%map_lookup_filter_Some]. by exists s.
  - intros (s & Hs & He). exists s. by apply map_lookup_filter_Some_2.
Qed.

Lemma HostServiceAnnotation_inj a b : HostServiceAnnotation a = HostServiceAnnotation b -> a = b.
Proof. unfold HostServiceAnnotation. intros H. by simplify_eq. Qed.

Lemma foldl_insert_lookup {A} (f : string -> A) (l : list string) (m : gmap string A) n :
  foldl (fun m k => <[HostServiceAnnotation k := f k]> m) m l !! HostServiceAnnotation n
  = if decide (n ∈ l) then Some (f n) else m !! HostServiceAnnotation n.
Proof.
  revert m. induction l as [|k l IH]; intros m; simpl.
  - destruct (decide (n ∈ [])) as [H|]; [by apply elem_of_nil in H|done].
  - rewrite IH. destruct (decide (n ∈ l)), (decide (n ∈ k :: l)) as [H|H]; try done.
    + exfalso. apply H. by right.
    + apply elem_of_cons in H as [->|H]; [by rewrite lookup_insert_eq|done].
    + rewrite lookup_insert_ne; [done|]. intros ->%HostServiceAnnotation_inj. apply H. left.
Qed.

Lemma Annotations_lookup c n :
  Annotations c !! HostServiceAnnotation n
  = if decide (n ∈ EnabledHostServices c) then Some (Some (JoinHostPort (ag_BridgeGateway c) (Itoa (service_port c n))))
    else if decide (n ∈ HostServiceNames) then Some None else None.
Proof.
  unfold Annotations. rewrite foldl_insert_lookup. destruct (decide _); [done|].
  rewrite (foldl_insert_lookup (fun _ => None)). destruct (decide _); [done|]. by rewrite lookup_empty.
Qed.

Lemma merge_patch_set p old k v : p !! k = Some (Some v) -> merge_patch p old !! k = Some v.
Proof. intros H. unfold merge_patch. apply lookup_union_Some_l. rewrite lookup_omap, H. done. Qed.

Lemma merge_patch_null p old k : p !! k = Some None -> merge_patch p old !! k = None.
Proof.
  intros H. unfold merge_patch. apply lookup_union_None. rewrite lookup_omap, H. split; [done|].
  apply map_lookup_filter_None_2. right. intros x _. simpl. congruence.
Qed.

Lemma agent_Validate_nil c : agent_Validate c = [] ->
  ag_HostNode c <> ""
  /\ forall n, n ∈ EnabledHostServices c ->
       n ∈ HostServiceNames /\ ParseIP (ag_BridgeGateway c) = true /\ 0 < service_port c n <= 65535.
Proof.
  unfold agent_Validate. intros H.
  apply sort_strings_nil in H as HL. clear H. apply app_nil in HL as [H1 HL]. apply app_nil in HL as [H2 HL]. apply app_nil in HL as [H3 HL]. apply app_nil in HL as [H4 _].
  split; [intros E; rewrite E in H1; done|]. intros n Hn.
  assert (HF : forall (f : string -> list string) (l : list string), flat_map f l = [] -> forall x, x ∈ l -> f x = []).
  { intros f l. induction l as [|y l IH]; intros Hf x Hx; [by apply elem_of_nil in Hx|]. simpl in Hf.
    apply app_nil in Hf as [Hy Hl]. apply elem_of_cons in Hx as [->|Hx]; [done|by apply IH]. }
  split_and!.
  - assert (Hk : n ∈ sort_strings ((map_to_list (ag_HostServices c)).*1)).
    { apply elem_of_EnabledHostServices in Hn as (s & Hs & _). rewrite elem_of_sort_strings, elem_of_keys. by exists s. }
    pose proof (HF _ _ H2 n Hk) as H. simpl in H. case_bool_decide; done.
  - destruct (EnabledHostServices c); [by apply elem_of_nil in Hn|]. by destruct (ParseIP _).
  - pose proof (HF _ _ H4 n Hn) as H. simpl in H. destruct (Z.leb_spec (service_port c n) 0); [done|lia].
  - pose proof (HF _ _ H4 n Hn) as H. simpl in H. destruct (Z.leb_spec (service_port c n) 0); [done|].
    simpl in H. destruct (Z.ltb_spec 65535 (service_port c n)); [done|lia].
Qed.

(** Where service [n] of a Host listens, if it runs. *)
Definition published (c : AgentConfig) (n : string) : string :=
  if decide (n ∈ EnabledHostServices c) then JoinHostPort (ag_BridgeGateway c) (Itoa (service_port c n)) else "".

Definition reached (c : AgentConfig) (scheme n : string) : string :=
  if decide (n ∈ EnabledHostServices c) then scheme +:+ JoinHostPort (ag_BridgeGateway c) (Itoa (service_port c n)) else "".

Lemma published_splits c n : agent_Validate c = [] -> n ∈ EnabledHostServices c ->
  exists host port, SplitHostPort (JoinHostPort (ag_BridgeGateway c) (Itoa (service_port c n))) = Some (host, port).
Proof.
  intros Hv Hn. apply agent_Validate_nil in Hv as [_ Hv]. destruct (Hv n Hn) as (_ & Hip & Hp).
  do 2 eexists. pose proof (ParseIP_chars _ Hip) as HC. pose proof (Itoa_digits (service_port c n) ltac:(lia)) as HD.
  apply SplitHostPort_JoinHostPort; (eapply all_chars_no; [eassumption|reflexivity]).
Qed.

Lemma SplitHostPort_nonempty s x : SplitHostPort s = Some x -> s <> "".
Proof. by intros H ->. Qed.

(** What the Executor reads of a Node that carries the annotations. *)
Lemma annotation_read c old n : agent_Validate c = [] -> n ∈ HostServiceNames ->
  let a := default "" (merge_patch (Annotations c) old !! HostServiceAnnotation n) in
  match SplitHostPort a with None => "" | Some _ => a end = published c n.
Proof.
  intros Hv Hn. unfold published. pose proof (Annotations_lookup c n) as HA. simpl.
  destruct (decide (n ∈ EnabledHostServices c)) as [He|He].
  - rewrite (merge_patch_set _ _ _ _ HA). simpl. destruct (published_splits c n Hv He) as (h & p & ->). done.
  - rewrite decide_True in HA by done. by rewrite (merge_patch_null _ _ _ HA).
Qed.

Lemma published_nonempty c n : agent_Validate c = [] -> n ∈ EnabledHostServices c -> published c n <> "".
Proof.
  intros Hv Hn. unfold published. rewrite decide_True by done. destruct (published_splits c n Hv Hn) as (h & p & Hs).
  by eapply SplitHostPort_nonempty.
Qed.

Lemma published_prefixed c scheme n : agent_Validate c = [] ->
  (if String.eqb (published c n) "" then "" else scheme +:+ published c n) = reached c scheme n.
Proof.
  intros Hv. unfold reached. destruct (decide (n ∈ EnabledHostServices c)) as [He|He].
  - pose proof (published_nonempty c n Hv He) as Hne. destruct (String.eqb_spec (published c n) ""); [done|].
    unfold published. by rewrite decide_True.
  - unfold published. rewrite decide_False by done. done.
Qed.

Lemma upstreams_lookup (f : string -> string) us (m : gmap string string) n :
  (forall u, u ∈ us -> hu_Name u <> n) ->
  foldl (fun m u => <[hu_Name u := f (hu_Name u)]> m) m us !! n = m !! n.
Proof.
  revert m. induction us as [|u us IH]; intros m H; [done|]. simpl. rewrite IH by (intros; apply H; by right).
  apply lookup_insert_ne. apply H. left.
Qed.

Lemma upstreams_lookup_in (f : string -> string) us (m : gmap string string) n :
  (exists u, u ∈ us /\ hu_Name u = n) ->
  foldl (fun m u => <[hu_Name u := f (hu_Name u)]> m) m us !! n = Some (f n).
Proof.
  revert m. induction us as [|u us IH]; intros m (v & Hv & <-); [by apply elem_of_nil in Hv|]. simpl.
  destruct (decide (Exists (fun w => hu_Name w = hu_Name v) us)) as [He|He].
  - apply IH. apply Exists_exists in He as (w & Hw & E). by exists w.
  - rewrite upstreams_lookup.
    + apply elem_of_cons in Hv as [->|Hv]; [by rewrite lookup_insert_eq|]. exfalso. apply He, Exists_exists. by exists v.
    + intros w Hw E. apply He, Exists_exists. by exists w.
Qed.

(** C27: what a Host Agent publishes is what the Executor reads.  For a valid
    configuration of the agent, once its write has succeeded, the Executor
    that can read the Node finds, whatever annotations the Node had before,
    every enabled Host Service at its port on the bridge gateway, and no
    address for a service that is not enabled; the HTTP cache has one address
    per upstream. *)
Theorem published_read_back {W} `{NodeAPILaws W} c upstreams w w' entry :
  agent_Validate c = [] -> Publish (ag_HostNode c) (Annotations c) w = (w', None) ->
  hostNodes_Host upstreams (ag_HostNode c) w' = Some entry ->
  he_Name entry = ag_HostNode c
  /\ sa_Buildkit (he_Services entry) = reached c "tcp://" HostServiceBuildkit
  /\ sa_GoProxy (he_Services entry) = reached c "http://" HostServiceGoProxy
  /\ sa_RegistryMirror (he_Services entry) = reached c "http://" HostServiceRegistryMirror
  /\ forall u, u ∈ upstreams ->
       sa_HTTPCache (he_Services entry) !! hu_Name u
       = if decide (HostServiceHTTPCache ∈ EnabledHostServices c)
         then Some (reached c "http://" HostServiceHTTPCache +:+ "/" +:+ hu_Name u) else None.
Proof.
  intros Hv HP HH. unfold Publish in HP. destruct (Nodes_Patch (ag_HostNode c) (Annotations c) w) as [w1 [e|]] eqn:Hp; [done|].
  injection HP as ->. unfold hostNodes_Host in HH. destruct (Nodes_Get (ag_HostNode c) w') as [node|] eqn:Hg; [|done].
  injection HH as <-. destruct (patch_applied _ _ _ _ _ Hp Hg) as (Hname & old & Hann). simpl. rewrite Hann.
  unfold hostNodes_services. cbn [sa_Buildkit sa_GoProxy sa_RegistryMirror sa_HTTPCache].
  pose proof (fun n => annotation_read c old n Hv) as HR. simpl in HR.
  rewrite !HR by (unfold HostServiceNames; set_solver). rewrite !published_prefixed by done.
  split_and!; try done. intros u Hu.
  destruct (decide (HostServiceHTTPCache ∈ EnabledHostServices c)) as [He|He].
  - pose proof (published_nonempty _ _ Hv He) as Hne. destruct (String.eqb_spec (published c HostServiceHTTPCache) ""); [done|].
    rewrite (upstreams_lookup_in (fun n => "http://" +:+ published c HostServiceHTTPCache +:+ "/" +:+ n)) by (by exists u).
    unfold published, reached. rewrite !decide_True by done. by rewrite !string_app_assoc.
  - unfold published. rewrite decide_False by done. done.
Qed.

(** An API server that keeps Nodes in a map keeps the laws. *)
#[export] Instance map_NodeAPI : NodeAPI (gmap string Node) := {|
  Nodes_Get n w := match w !! n with Some node => Ok node | None => Err (ENew "not found") end;
  Nodes_Patch n p w :=
    match w !! n with
    | Some node => (<[n := {| node_Name := n; node_Annotations := merge_patch p (node_Annotations node) |}]> w, None)
    | None => (w, Some (ENew "not found"))
    end |}.
#[export] Instance map_NodeAPILaws : NodeAPILaws (gmap string Node).
Proof.
  split. intros n p w w' node. simpl. destruct (w !! n) as [x|]; [|done]. intros [= <-]. rewrite lookup_insert_eq.
  intros [= <-]. simpl. eauto.
Qed.

Definition demo_agent : AgentConfig := {|
  ag_HostNode := "n1"; ag_Kubeconfig := ""; ag_BridgeGateway := "fd00::1";
  ag_HostServices := {["buildkit" := {| sv_Enabled := true; sv_Port := 1234 |};
                       "go_proxy" := {| sv_Enabled := false; sv_Port := 3000 |};
                       "http_cache" := {| sv_Enabled := true; sv_Port := 8080 |}]};
  ag_ResyncInterval := minute |}.
Definition demo_upstream : HTTPCacheUpstream := {| hu_Name := "pypi"; hu_URL := "https://pypi.org"; hu_SizeLimit := 0; hu_TTL := 0; hu_EnvVar := "PIP_INDEX_URL" |}.
Definition demo_nodes : gmap string Node :=
  {["n1" := {| node_Name := "n1"; node_Annotations := {[HostServiceAnnotation "go_proxy" := "10.0.0.1:3000"; "other" := "x"]} |}]}.

Lemma published_read_back_witness : exists w' entry,
  Publish (ag_HostNode demo_agent) (Annotations demo_agent) demo_nodes = (w', None)
  /\ hostNodes_Host [demo_upstream] (ag_HostNode demo_agent) w' = Some entry
  /\ sa_Buildkit (he_Services entry) = "tcp://[fd00::1]:1234" /\ sa_GoProxy (he_Services entry) = ""
  /\ sa_HTTPCache (he_Services entry) !! "pypi" = Some "http://[fd00::1]:8080/pypi".
Proof.
  set (w' := (Publish (ag_HostNode demo_agent) (Annotations demo_agent) demo_nodes).1).
  assert (HP : Publish (ag_HostNode demo_agent) (Annotations demo_agent) demo_nodes = (w', None)) by (vm_compute; reflexivity).
  assert (HH : is_Some (hostNodes_Host [demo_upstream] (ag_HostNode demo_agent) w')) by (vm_compute; eauto).
  assert (HV : agent_Validate demo_agent = []) by (vm_compute; reflexivity).
  clearbody w'. destruct HH as [entry HH]. exists w', entry.
  destruct (published_read_back demo_agent [demo_upstream] demo_nodes w' entry HV HP HH) as (_ & HB & HG & _ & HC).
  split; [done|]. split; [done|]. split; [rewrite HB; vm_compute; reflexivity|]. split; [rewrite HG; vm_compute; reflexivity|].
  specialize (HC demo_upstream ltac:(left)). simpl in HC. rewrite HC. vm_compute. reflexivity.
Defined.

(** ** The Job's environment

    [offers cfg h k x]: variable [k] with value [x] points at a Host Service
    of [h] that is enabled and has an address. *)
Inductive offers (cfg : HostServices) (h : HostEntry) : string -> string -> Prop :=
  | offer_buildkit : enabled (bk_Service (hs_Buildkit cfg)) = true -> sa_Buildkit (he_Services h) <> "" ->
      offers cfg h "BUILDKIT_HOST" (sa_Buildkit (he_Services h))
  | offer_goproxy : enabled (gp_Service (hs_GoProxy cfg)) = true -> sa_GoProxy (he_Services h) <> "" ->
      offers cfg h "GOPROXY" (sa_GoProxy (he_Services h))
  | offer_goflags : enabled (gp_Service (hs_GoProxy cfg)) = true -> sa_GoProxy (he_Services h) <> "" ->
      offers cfg h "GOFLAGS" "-modcacherw"
  | offer_gonosumdb : enabled (gp_Service (hs_GoProxy cfg)) = true -> sa_GoProxy (he_Services h) <> "" ->
      gp_PrivatePatterns (hs_GoProxy cfg) <> [] -> offers cfg h "GONOSUMDB" (String.concat "," (gp_PrivatePatterns (hs_GoProxy cfg)))
  | offer_gonoproxy : enabled (gp_Service (hs_GoProxy cfg)) = true -> sa_GoProxy (he_Services h) <> "" ->
      gp_PrivatePatterns (hs_GoProxy cfg) <> [] -> offers cfg h "GONOPROXY" ""
  | offer_mirror : enabled (rm_Service (hs_RegistryMirror cfg)) = true -> sa_RegistryMirror (he_Services h) <> "" ->
      offers cfg h "CI_REGISTRY_MIRROR" (sa_RegistryMirror (he_Services h))
  | offer_cache u url : enabled (hc_Service (hs_HTTPCache cfg)) = true -> u ∈ hc_Upstreams (hs_HTTPCache cfg) ->
      hu_EnvVar u <> "" -> sa_HTTPCache (he_Services h) !! hu_Name u = Some url -> url <> "" ->
      offers cfg h (hu_EnvVar u) url.

(** [f] adds the variables [P] describes and keeps the others. *)
Record adds (P : string -> string -> Prop) (f : HostServiceEnv -> HostServiceEnv) : Prop := {
  ad_sound : forall e k x, env_Vars (f e) !! k = Some x -> env_Vars e !! k = Some x \/ P k x;
  ad_keeps : forall e k, is_Some (env_Vars e !! k) -> is_Some (env_Vars (f e) !! k);
  ad_complete : forall e k x, P k x -> is_Some (env_Vars (f e) !! k) }.

Lemma adds_compose P Q f g : adds P f -> adds Q g -> adds (fun k x => P k x \/ Q k x) (fun e => g (f e)).
Proof.
  intros [F1 F2 F3] [G1 G2 G3]. split.
  - intros e k x H. apply G1 in H as [H|H]; [|auto]. apply F1 in H as [H|H]; auto.
  - auto.
  - intros e k x [H|H]; eauto.
Qed.

(** A step that sets [vars] when [b] holds. *)
Fixpoint set_all (vars : list (string * string)) (m : gmap string string) : gmap string string :=
  match vars with [] => m | (k, x) :: vars => <[k := x]> (set_all vars m) end.

Lemma set_all_lookup vars m k x : set_all vars m !! k = Some x -> m !! k = Some x \/ (k, x) ∈ vars.
Proof.
  induction vars as [|[k' x'] vars IH]; simpl; [auto|]. intros [[<- <-]|[_ H]]%lookup_insert_Some; [right; left|].
  apply IH in H as [H|H]; [auto|]. right. by right.
Qed.
Lemma set_all_keeps vars m k : is_Some (m !! k) \/ k ∈ vars.*1 -> is_Some (set_all vars m !! k).
Proof.
  induction vars as [|[k' x'] vars IH]; simpl; [intros [?|H]; [done|by apply elem_of_nil in H]|]. intros H.
  destruct (decide (k' = k)) as [->|Hne]; [rewrite lookup_insert_eq; eauto|]. rewrite lookup_insert_ne by done. apply IH.
  destruct H as [H|[->|H]%elem_of_cons]; auto; done.
Qed.

Lemma adds_set (b : bool) vars f :
  (forall e, env_Vars (f e) = if b then set_all vars (env_Vars e) else env_Vars e) -> adds (fun k x => b = true /\ (k, x) ∈ vars) f.
Proof.
  intros Hf. split; intros e k; rewrite Hf; destruct b; try done.
  - intros x [H|H]%set_all_lookup; auto.
  - auto.
  - intros H. apply set_all_keeps. auto.
  - intros x [_ H]. apply set_all_keeps. right. apply list_elem_of_fmap. by exists (k, x).
  - by intros x [[=] _].
Qed.

Lemma resolve_upstreams addrs us vars any :
  let r := foldl (resolve_upstream addrs) (vars, any) us in
  let P k x := exists u, u ∈ us /\ hu_EnvVar u = k /\ k <> "" /\ addrs !! hu_Name u = Some x /\ x <> "" in
  (forall k x, r.1 !! k = Some x -> vars !! k = Some x \/ P k x)
  /\ (forall k, is_Some (vars !! k) -> is_Some (r.1 !! k)) /\ (forall k x, P k x -> is_Some (r.1 !! k)).
Proof.
  revert vars any. induction us as [|u us IH]; intros vars any; simpl.
  { split; [auto|]. split; [auto|]. intros k x (u & Hu & _). by apply elem_of_nil in Hu. }
  destruct (resolve_upstream addrs (vars, any) u) as [vars1 any1] eqn:E. destruct (IH vars1 any1) as (I1 & I2 & I3).
  assert (Hacc : (vars1 = vars /\ (hu_EnvVar u = "" \/ default "" (addrs !! hu_Name u) = ""))
                 \/ (exists x, addrs !! hu_Name u = Some x /\ x <> "" /\ hu_EnvVar u <> "" /\ vars1 = <[hu_EnvVar u := x]> vars)).
  { unfold resolve_upstream in E. destruct (String.eqb_spec (hu_EnvVar u) ""); [left; split; [congruence|by left]|].
    destruct (addrs !! hu_Name u) as [x|] eqn:Hx; simpl in E; [|left; split; [congruence|by right]].
    destruct (String.eqb_spec x ""); [left; split; [congruence|by right]|]. right. exists x. split_and!; congruence. }
  clear E. split_and!.
  - intros k x Hk. apply I1 in Hk as [Hk|(v & Hv & Hrest)]; [|right; exists v; split; [by right|done]].
    destruct Hacc as [(-> & _)|(y & Hy & Hne & Hn & ->)]; [by left|].
    apply lookup_insert_Some in Hk as [[<- <-]|[_ Hk]]; [|by left]. right. exists u. split_and!; try done. left.
  - intros k Hk. apply I2. destruct Hacc as [(-> & _)|(y & _ & _ & _ & ->)]; [done|]. by apply lookup_insert_is_Some'; right.
  - intros k x (v & [->|Hv]%elem_of_cons & <- & Hn & Hx & Hne); [|eapply I3; exists v; split_and!; done]. apply I2.
    destruct Hacc as [(_ & [?|Hd])|(y & _ & _ & _ & ->)]; [done| |rewrite lookup_insert_eq; eauto]. by rewrite Hx in Hd.
Qed.

Lemma adds_httpCache cfg h : adds (fun k x => enabled (hc_Service (hs_HTTPCache cfg)) = true
    /\ exists u, u ∈ hc_Upstreams (hs_HTTPCache cfg) /\ hu_EnvVar u = k /\ k <> "" /\ sa_HTTPCache (he_Services h) !! hu_Name u = Some x /\ x <> "")
  (resolve_httpCache cfg (he_Services h)).
Proof.
  unfold resolve_httpCache. destruct (enabled _); [|split; intros; naive_solver].
  split; intros e; destruct (resolve_upstreams (sa_HTTPCache (he_Services h)) (hc_Upstreams (hs_HTTPCache cfg)) (env_Vars e) false) as (I1 & I2 & I3); simpl.
  - intros k x H. apply I1 in H. tauto.
  - exact I2.
  - intros k x [_ H]. by eapply I3.
Qed.

Definition goProxy_vars (cfg : HostServices) (a : HostServiceAddresses) : list (string * string) :=
  match gp_PrivatePatterns (hs_GoProxy cfg) with
  | [] => []
  | ps => [("GONOPROXY", ""); ("GONOSUMDB", String.concat "," ps)]
  end ++ [("GOFLAGS", "-modcacherw"); ("GOPROXY", sa_GoProxy a)].

Lemma adds_buildkit cfg a :
  adds (fun k x => enabled (bk_Service (hs_Buildkit cfg)) && negb (String.eqb (sa_Buildkit a) "") = true /\ (k, x) ∈ [("BUILDKIT_HOST", sa_Buildkit a)])
    (resolve_buildkit cfg a).
Proof. apply adds_set. intros e. unfold resolve_buildkit. by destruct (_ && _). Qed.
Lemma adds_goProxy cfg a :
  adds (fun k x => enabled (gp_Service (hs_GoProxy cfg)) && negb (String.eqb (sa_GoProxy a) "") = true /\ (k, x) ∈ goProxy_vars cfg a)
    (resolve_goProxy cfg a).
Proof. apply adds_set. intros e. unfold resolve_goProxy, goProxy_vars. destruct (_ && _); [|done]. by destruct (gp_PrivatePatterns _). Qed.
Lemma adds_registryMirror cfg a :
  adds (fun k x => enabled (rm_Service (hs_RegistryMirror cfg)) && negb (String.eqb (sa_RegistryMirror a) "") = true
                   /\ (k, x) ∈ [("CI_REGISTRY_MIRROR", sa_RegistryMirror a)])
    (resolve_registryMirror cfg a).
Proof. apply adds_set. intros e. unfold resolve_registryMirror. by destruct (_ && _). Qed.

(** The variables Resolve computes are the ones the Host offers. *)
Lemma Resolve_vars cfg h :
  (forall k x, env_Vars (Resolve cfg (Some h)) !! k = Some x -> offers cfg h k x)
  /\ (forall k x, offers cfg h k x -> is_Some (env_Vars (Resolve cfg (Some h)) !! k)).
Proof.
  assert (Hb : forall (b : bool) s, b && negb (String.eqb s "") = true <-> b = true /\ s <> "").
  { intros b s. rewrite andb_true_iff, negb_true_iff, String.eqb_neq. done. }
  set (a := he_Services h).
  pose proof (adds_buildkit cfg a) as A1. pose proof (adds_goProxy cfg a) as A2. pose proof (adds_registryMirror cfg a) as A3.
  pose proof (adds_compose _ _ _ _ (adds_compose _ _ _ _ (adds_compose _ _ _ _ A1 A2) A3) (adds_httpCache cfg h)) as [S1 _ S3].
  specialize (S1 HostServiceEnv0). specialize (S3 HostServiceEnv0). split.
  - intros k x H. apply S1 in H as [H|[[[H|H]|H]|H]]; [done|..].
    + destruct H as [[E1 E2]%Hb [= -> ->]%list_elem_of_singleton]. by constructor.
    + destruct H as [[E1 E2]%Hb H]. unfold goProxy_vars in H. apply elem_of_app in H as [H|H].
      * destruct (gp_PrivatePatterns (hs_GoProxy cfg)) as [|p ps] eqn:Hp; [by apply elem_of_nil in H|]. rewrite <-Hp in H.
        apply elem_of_cons in H as [[= -> ->]|[= -> ->]%list_elem_of_singleton]; constructor; try done; congruence.
      * apply elem_of_cons in H as [[= -> ->]|[= -> ->]%list_elem_of_singleton]; by constructor.
    + destruct H as [[E1 E2]%Hb [= -> ->]%list_elem_of_singleton]. by constructor.
    + destruct H as (He & u & Hu & <- & Hn & Hl & Hx). by eapply offer_cache.
  - intros k x H. apply (S3 k x). destruct H as [E1 E2|E1 E2|E1 E2|E1 E2 E3|E1 E2 E3|E1 E2|u url E1 E2 E3 E4 E5].
    1: left; left; left. 2-5: left; left; right. 6: left; right. 7: right.
    all: try (split; [by apply Hb|]). 1, 6: left.
    1-4: unfold goProxy_vars. 1-2: apply elem_of_app; right; set_solver.
    1-2: apply elem_of_app; left; destruct (gp_PrivatePatterns _); [done|]; set_solver.
    split; [done|]. exists u. done.
Qed.

Lemma add_loop (allowed jobSets : gset string) (env : gmap string string) names vars :
  foldl (fun vs k => if bool_decide (k ∈ allowed) && negb (bool_decide (k ∈ jobSets))
                     then vs ++ [{| v_Key := k; v_Value := default "" (env !! k); v_Public := true |}] else vs) vars names
  = vars ++ ((fun k => {| v_Key := k; v_Value := default "" (env !! k); v_Public := true |})
             <$> filter (fun k => k ∈ allowed /\ k ∉ jobSets) names).
Proof.
  revert vars. induction names as [|k names IH]; intros vars; simpl; [by rewrite app_nil_r|]. rewrite IH, filter_cons.
  do 2 case_bool_decide; simpl; (destruct (decide _); [|try tauto]); try tauto; [|done..]. by rewrite <-app_assoc.
Qed.

Lemma WithHTTPCacheUpstreams_spec us vars k :
  k ∈ WithHTTPCacheUpstreams us vars <-> k ∈ vars \/ exists u, u ∈ us /\ hu_EnvVar u = k /\ k <> "".
Proof.
  unfold WithHTTPCacheUpstreams. revert vars. induction us as [|u us IH]; intros vars; simpl; [set_solver|]. rewrite IH.
  destruct (String.eqb_spec (hu_EnvVar u) ""); set_solver.
Qed.

Lemma offers_allowed cfg h k x : offers cfg h k x -> k <> "GOPRIVATE" ->
  k ∈ allowedVarNames (WithHTTPCacheUpstreams (hc_Upstreams (hs_HTTPCache cfg)) ∅).
Proof.
  intros H Hp. unfold allowedVarNames. apply elem_of_difference. split; [|set_solver]. apply elem_of_union.
  destruct H; [left; apply elem_of_list_to_set; unfold HostServiceVarNames; set_solver..|].
  right. apply WithHTTPCacheUpstreams_spec. right. by exists u.
Qed.

(** The environment a Job gets.  The Job's own variables are kept as they
    are, and what is added are public variables, each under a name of its own
    that the Job does not set, never GOPRIVATE, and each pointing at an
    enabled Host Service of the Host the Job was placed on; conversely every
    variable that Host offers is there unless the Job sets it.  A Host that
    is not known adds nothing. *)
Theorem job_environment cfg host vars :
  let hc := WithHTTPCacheUpstreams (hc_Upstreams (hs_HTTPCache cfg)) ∅ in
  exists added, addHostServiceEnv hc (Resolve cfg host) vars = vars ++ added
  /\ NoDup (v_Key <$> added)
  /\ (forall v, v ∈ added -> v_Public v = true /\ v_Key v <> "GOPRIVATE" /\ (forall w, w ∈ vars -> v_Key w <> v_Key v)
        /\ exists h, host = Some h /\ offers cfg h (v_Key v) (v_Value v))
  /\ (forall h k x, host = Some h -> offers cfg h k x -> k <> "GOPRIVATE" ->
        (exists v, v ∈ vars /\ v_Key v = k) \/ exists v, v ∈ added /\ v_Key v = k).
Proof.
  intros hc. unfold addHostServiceEnv. rewrite add_loop. eexists. split; [reflexivity|].
  set (allowed := allowedVarNames hc). set (names := sort_strings _).
  assert (HN : forall k, k ∈ names <-> is_Some (env_Vars (Resolve cfg host) !! k)).
  { intros k. unfold names. by rewrite elem_of_sort_strings, elem_of_keys. }
  split_and!.
  - rewrite <-list_fmap_compose. unfold compose. simpl. rewrite list_fmap_id. apply NoDup_filter. unfold names, sort_strings.
    rewrite merge_sort_Permutation. apply NoDup_fst_map_to_list.
  - intros v (k & -> & [[Ha Hj] Hk]%list_elem_of_filter)%list_elem_of_fmap. simpl. apply HN in Hk as [x Hx]. split_and!; [done| | |].
    + unfold allowed, allowedVarNames in Ha. set_solver.
    + intros w Hw E. apply Hj. apply elem_of_list_to_set, list_elem_of_fmap. by exists w.
    + destruct host as [h|]; [|done]. exists h. split; [done|]. rewrite Hx. simpl.
      by apply (proj1 (Resolve_vars cfg h)).
  - intros h k x -> Ho Hp. destruct (decide (k ∈ (list_to_set (v_Key <$> vars) : gset string))) as [Hs|Hs].
    + left. apply elem_of_list_to_set, list_elem_of_fmap in Hs as (v & -> & Hv). by exists v.
    + right. eexists. split; [apply list_elem_of_fmap; exists k; split; [reflexivity|]|done]. apply list_elem_of_filter. split.
      * split; [by eapply offers_allowed|done].
      * apply HN. by apply (proj2 (Resolve_vars cfg h) k x).
Qed.
