(* ===== verification/GoContext.v ===== *)
(** * What the executor uses of [context] and of gitlab-runner's errors

    A context is given by its whole history: its deadline, and when it is
    done, with what [Err] and [context.Cause] say from then on.  The functions
    of the context package that derive a context compute the history of the
    child.  [context.WithTimeoutCause] cancels by a timer, which fires [late]
    after the deadline.

    [xerror] extends the errors of [GoModel] with gitlab-runner's
    [*common.BuildError], a struct of a cause, a failure reason and an exit
    code, which [errors.As] looks for. *)
From S2P Require Import Prelude GoModel.

Inductive JobFailureReason :=
  | RunnerSystemFailure | RunnerUnsupported | ConfigurationError | ScriptFailure | JobExecutionTimeout
  | OtherReason (s : string).
#[export] Instance JobFailureReason_eq_dec : EqDecision JobFailureReason.
Proof. solve_decision. Defined.

Inductive xerror :=
  | XErr (e : error)
  | XWrap (msg : string) (causes : list xerror)
  | XBuild (inner : xerror) (reason : JobFailureReason) (code : Z).

Record BuildError := { be_Inner : xerror; be_FailureReason : JobFailureReason; be_ExitCode : Z }.
Definition XBuildError (b : BuildError) : xerror := XBuild (be_Inner b) (be_FailureReason b) (be_ExitCode b).

(** [errors.As(err, &be)]: the first BuildError of the tree. *)
Fixpoint as_BuildError (e : xerror) : option BuildError :=
  match e with
  | XErr _ => None
  | XBuild i r c => Some {| be_Inner := i; be_FailureReason := r; be_ExitCode := c |}
  | XWrap _ es =>
      (fix go (es : list xerror) : option BuildError :=
         match es with
         | [] => None
         | e :: es => match as_BuildError e with Some b => Some b | None => go es end
         end) es
  end.

(** [errors.Is] against an error value that no other package compares its own
    way: a sentinel. *)
Fixpoint xerrors_Is (e : xerror) (s : sentinel) : bool :=
  match e with
  | XErr e => errors_Is e s
  | XWrap _ es => existsb (fun e => xerrors_Is e s) es
  | XBuild i _ _ => xerrors_Is i s
  end.

(** ** Contexts *)
Record ending := { en_at : time; en_err : sentinel; en_cause : xerror }.
Record context := { cx_deadline : option time; cx_end : option ending }.

Definition Background : context := {| cx_deadline := None; cx_end := None |}.

Definition ended_by (ctx : context) (now : time) : option ending :=
  match cx_end ctx with Some e => if en_at e <=? now then Some e else None | None => None end.
Definition ctx_done (ctx : context) (now : time) : bool := match ended_by ctx now with Some _ => true | None => false end.

(** The ending that comes first; the parent's if they coincide. *)
Definition first_ending (a b : option ending) : option ending :=
  match a, b with
  | Some x, Some y => if en_at x <=? en_at y then Some x else Some y
  | Some x, None => Some x
  | None, y => y
  end.

(** [context.WithCancelCause] with a goroutine that cancels. *)
Definition with_cancel (parent : context) (cancel : option ending) : context :=
  {| cx_deadline := cx_deadline parent; cx_end := first_ending (cx_end parent) cancel |}.

Definition canceled_at (t : time) (cause : xerror) : ending :=
  {| en_at := t; en_err := CtxCanceled; en_cause := cause |}.

(** [context.WithTimeoutCause]; a parent that ends sooner wins. *)
Definition with_timeout_cause (parent : context) (now : time) (d late : duration) (cause : xerror) : context :=
  let deadline := time_Add now d in
  match cx_deadline parent with
  | Some p => if p <=? deadline then parent
              else {| cx_deadline := Some deadline;
                      cx_end := first_ending (cx_end parent)
                        (Some {| en_at := deadline + late; en_err := CtxDeadlineExceeded; en_cause := cause |}) |}
  | None => {| cx_deadline := Some deadline;
               cx_end := first_ending (cx_end parent)
                 (Some {| en_at := deadline + late; en_err := CtxDeadlineExceeded; en_cause := cause |}) |}
  end.

(** A Job's context as gitlab-runner makes it, [context.WithTimeout], when
    nothing cancels it before: the cause is the bare [DeadlineExceeded]. *)
Definition job_context (deadline : time) (late : duration) : context :=
  {| cx_deadline := Some deadline;
     cx_end := Some {| en_at := deadline + late; en_err := CtxDeadlineExceeded;
                       en_cause := XErr (ESentinel CtxDeadlineExceeded) |} |}.

Lemma first_ending_at a b e : first_ending a b = Some e -> a = Some e \/ b = Some e.
Proof. destruct a, b; simpl; [destruct (_ <=? _)|..]; intros [=]; subst; auto. Qed.

Lemma first_ending_le a b x : a = Some x \/ b = Some x -> exists e, first_ending a b = Some e /\ en_at e <= en_at x.
Proof.
  destruct a as [y|], b as [z|]; simpl; intros [H|H]; simplify_eq;
    try (destruct (Z.leb_spec (en_at x) (en_at z))); try (destruct (Z.leb_spec (en_at y) (en_at x))); eexists; (split; [done|lia]).
Qed.

Lemma ended_by_mono ctx t t' e : ended_by ctx t = Some e -> t <= t' -> ended_by ctx t' = Some e.
Proof.
  unfold ended_by. destruct (cx_end ctx) as [x|]; [|done]. destruct (Z.leb_spec (en_at x) t); [|done].
  intros [= ->] Ht. by rewrite (proj2 (Z.leb_le _ _)) by lia.
Qed.

Lemma ctx_done_mono ctx t t' : ctx_done ctx t = true -> t <= t' -> ctx_done ctx t' = true.
Proof.
  unfold ctx_done. destruct (ended_by ctx t) eqn:E; [|done]. intros _ Ht. by rewrite (ended_by_mono _ _ _ _ E Ht).
Qed.
