(* ===== verification/Executor.v ===== *)
(** * internal/executor/executor.go: one Job in one MicroVM

    The executor's methods as programs of a state and error monad over the
    fields of the Go struct.  What the Scheduler, the Host Registry, the Exec
    Agents, the transport and gitlab-runner answer is an argument; what the
    executor does to them is recorded, call by call, in [ex_trace], and what
    it writes to the Job log in [ex_log].

    Handles, leases of Host clients and transports are named by numbers.  The
    Provider's clock and the wall clock are the same clock, as in production,
    and the goroutine that turns a closed channel into a cancelled context is
    part of the time at which that context ends. *)
From Stdlib Require Import Ascii.
From S2P Require Import Prelude GoModel ConfigTypes ConfigDefaults PoolTypes SchedTypes Base64 PathMatch GoStrings Shell HostEnv GoContext.

Definition KindSSH : string := "ssh".
Definition KindAgentExec : string := "agent-exec".
Definition readyPollInterval : duration := 500 * millisecond.
Definition expiryWait : duration := 5 * second.
Definition DefaultShellName : string := "bash".

Definition buildErr (reason : JobFailureReason) (msg : string) (causes : list xerror) : xerror :=
  XBuild (XWrap msg causes) reason 0.

(** ** Data *)
Record Handle := { h_id : Z; h_alloc : Allocation }.
Record Data := { d_Reservation : option Reservation; d_Handle : option Handle }.

Record Timeouts := { to_Prepare : duration; to_GracefulKill : duration; to_Transport : duration }.
(** The provider's settings and the dependencies that are plain data. *)
Record provider := {
  pv_Timeouts : Timeouts; pv_KeepOnFailure : bool; pv_CacheConfigured : bool;
  pv_transport : string; pv_agents : bool; pv_httpCacheVars : gset string;
  pv_Env : option HostServices; pv_Inventory : option (string -> option HostEntry) }.

Record CacheEntry := { ce_Key : string; ce_Paths : list string; ce_Untracked : bool }.
(** What the executor reads of gitlab-runner's Build. *)
Record Build := { b_ID : Z; b_ImageName : string; b_Services : list string; b_Cache : list CacheEntry; b_ExecutorData : option Data }.

(** The part of the RunnerConfig and the shell configuration it overwrites. *)
Record ShellConfig := { sc_BuildsDir : string; sc_CacheDir : string; sc_Shell : string; sc_RunnerCommand : string }.

Record SSHOptions := { so_User : string; so_PrivateKey : string; so_KnownHostKey : string }.
Record Target := { tg_Kind : string; tg_Deadline : duration; tg_Client : Z; tg_VMUID : string; tg_SSH : option SSHOptions }.
Record AgentClaim := { ac_LeaseID : string; ac_VMUID : string; ac_Host : string; ac_Address : string }.
Record Command := { cm_Path : string; cm_Args : list string; cm_Dir : string; cm_User : string; cm_Stdin : string }.

Inductive event :=
  | EvAllocate (h : Z) | EvRelease (h : Z) | EvRetain (h : Z) | EvCheckLease (h : Z)
  | EvLease (d : Z) | EvHostDone (d : Z)
  | EvOpen (t : Z) (target : Target) | EvReady (t : Z) | EvRun (t : Z) (stage : option string) (c : Command) | EvClose (t : Z).

Inductive logline :=
  | LSectionStart | LSectionEnd
  | LProfile (name : string) (pool : PoolRef)
  | LAllocated (uid host : string) (took : duration)
  | LReady (took : duration)
  | LServices (services : list string)
  | LError (e : xerror)
  | LGrace (stage : string) (grace : duration)
  | LKeeping (uid host : string).

(** The fields of the struct, and the Job's variables, the Job log, the calls
    made so far and the clock. *)
Record executor := {
  ex_data : option Data; ex_profile : option Profile; ex_handle : option Handle; ex_tr : option Z; ex_hostDone : option Z;
  ex_prepared : bool; ex_jobFailed : bool; ex_failedStages : gmap string xerror;
  ex_config : option ShellConfig; ex_Variables : list JobVariable;
  ex_log : list logline; ex_trace : list event; ex_now : time }.
#[export] Instance eta_executor : Eta executor :=
  fun r => {| ex_data := ex_data r; ex_profile := ex_profile r; ex_handle := ex_handle r; ex_tr := ex_tr r;
              ex_hostDone := ex_hostDone r; ex_prepared := ex_prepared r; ex_jobFailed := ex_jobFailed r;
              ex_failedStages := ex_failedStages r; ex_config := ex_config r; ex_Variables := ex_Variables r;
              ex_log := ex_log r; ex_trace := ex_trace r; ex_now := ex_now r |}.

(** The executor the provider's Create makes, for a Job with [vars]. *)
Definition Create (now : time) (vars : list JobVariable) : executor :=
  {| ex_data := None; ex_profile := None; ex_handle := None; ex_tr := None; ex_hostDone := None; ex_prepared := false;
     ex_jobFailed := false; ex_failedStages := ∅; ex_config := None; ex_Variables := vars; ex_log := []; ex_trace := []; ex_now := now |}.

(** ** The monad *)
Definition M (A : Type) : Type := executor -> executor * (xerror + A).
Definition ret {A} (a : A) : M A := fun e => (e, inr a).
Definition fail {A} (err : xerror) : M A := fun e => (e, inl err).
Definition bind {A B} (m : M A) (k : A -> M B) : M B :=
  fun e => match m e with (e, inl err) => (e, inl err) | (e, inr a) => k a e end.
Definition modify (f : executor -> executor) : M unit := fun e => (f e, inr tt).
Definition gets {A} (f : executor -> A) : M A := fun e => (e, inr (f e)).
Notation "x <- m ;; k" := (bind m (fun x => k)) (at level 100, m at next level, right associativity).
Notation "m ;;; k" := (bind m (fun _ => k)) (at level 100, right associativity).

Definition emit (v : event) : M unit := modify (fun e => e <| ex_trace := ex_trace e ++ [v] |>).
Definition printf (l : logline) : M unit := modify (fun e => e <| ex_log := ex_log e ++ [l] |>).
Definition sleep (d : duration) : M unit := modify (fun e => e <| ex_now := ex_now e + d |>).
(** [if err := m; err != nil { ... }] *)
Definition on_error {A} (m : M A) (h : xerror -> M A) : M A :=
  fun e => match m e with (e, inl err) => h err e | (e, inr a) => (e, inr a) end.
Definition guard (b : bool) (err : xerror) : M unit := if b then ret tt else fail err.

(** ** The directories of the Profile in the guest *)
Fixpoint TrimLeftSlash (s : string) : string :=
  match s with String "/" s => TrimLeftSlash s | _ => s end.
Definition relToRoot (dir : string) : string := shellQuote ("./" +:+ TrimLeftSlash dir).
Definition mkdir_script (pr : Profile) : string :=
  "mkdir -p -- " +:+ relToRoot (p_BuildsDir (pr_cfg pr)) +:+ " " +:+ relToRoot (p_CacheDir (pr_cfg pr)) +:+ String "010"%char "".

Definition shell (pr : Profile) : string := if String.eqb (p_Shell (pr_cfg pr)) "" then DefaultShell else p_Shell (pr_cfg pr).
Definition user (pr : Profile) : string := if String.eqb (p_User (pr_cfg pr)) "" then DefaultUser else p_User (pr_cfg pr).

(** ** Contexts and outcomes *)

(** [expired]: the answer, and the time at which it returns. *)
Definition expired (ctx : context) (now : time) : bool * time :=
  if ctx_done ctx now then (true, now)
  else match cx_deadline ctx with
       | None => (false, now)
       | Some d =>
           if time_Before now d then (false, now)
           else match cx_end ctx with
                | Some e => if en_at e <=? now + expiryWait then (true, en_at e) else (false, now + expiryWait)
                | None => (false, now + expiryWait)
                end
       end.

(** [context.Cause] of a context that is done. *)
Definition ctx_cause (ctx : context) : xerror :=
  match cx_end ctx with Some e => en_cause e | None => XErr (ESentinel CtxCanceled) end.

Definition jobTimedOut (ctx : context) : bool :=
  match cx_end ctx with
  | Some e => bool_decide (en_err e = CtxDeadlineExceeded) && xerrors_Is (en_cause e) CtxDeadlineExceeded
  | None => false
  end.

Definition stageCancelled (ctx : context) : xerror :=
  let cause := ctx_cause ctx in
  match as_BuildError cause with Some b => XBuildError b | None => cause end.

Record stageResult := { sr_status : Z; sr_err : option error }.
Definition noExitStatus (r : stageResult) : bool :=
  match sr_err r with Some _ => true | None => sr_status r <? 0 end.

Section Executor.
Variable p : provider.
(** [errors.Is] between two error values of any package, and gitlab-runner's
    NormalizeExitCode. *)
Variable Is_error : xerror -> xerror -> bool.
Variable NormalizeExitCode : Z -> Z.

(** [now] is when the step returned; the result is the error and the time
    at which Prepare returns it. *)
Definition prepareErr (ctx : context) (now : time) (err : xerror) : xerror * time :=
  let '(b, now) := expired ctx now in
  if negb b then (err, now)
  else match as_BuildError err with
       | None => (err, now)
       | Some be =>
           let cause := ctx_cause ctx in
           let inner := if Is_error err cause then be_Inner be else XWrap "" [be_Inner be; cause] in
           let reason := if jobTimedOut ctx then JobExecutionTimeout else be_FailureReason be in
           (XBuild inner reason (be_ExitCode be), now)
       end.

Definition usesCache (b : Build) : bool :=
  existsb (fun c => negb (String.eqb (ce_Key c) "") || negb (bool_decide (ce_Paths c = [])) || ce_Untracked c) (b_Cache b).

Definition checkJob (b : Build) : M unit :=
  guard (bool_decide (b_Services b = []))
    (buildErr RunnerUnsupported "services are not supported by the flintlock executor" []) ;;;
  guard (pv_CacheConfigured p || negb (usesCache b))
    (buildErr RunnerUnsupported "the job uses cache: but this runner has no distributed_cache configured" []).

Definition jobInfo (ExpandValue : string -> string) (b : Build) : JobInfo :=
  {| job_ID := b_ID b; job_Image := ExpandValue (b_ImageName b) |}.

Definition resolveProfile (ExpandValue : string -> string) (ResolveProfile : JobInfo -> result Profile) (b : Build) : M Profile :=
  match ResolveProfile (jobInfo ExpandValue b) with
  | Err _ => fail (if String.eqb (ExpandValue (b_ImageName b)) ""
                   then buildErr RunnerUnsupported "no profile for a job without an image" []
                   else buildErr RunnerUnsupported ("no profile for job image " +:+ ExpandValue (b_ImageName b)) [])
  | Ok pr =>
      modify (fun e => e <| ex_profile := Some pr |>) ;;;
      printf (LProfile (pr_Name pr) (pr_PoolRef pr)) ;;;
      ret pr
  end.

(** [PrepareBuildAndShell] is what gitlab-runner answers. *)
Definition configureShell (pr : Profile) (PrepareBuildAndShell : option xerror) : M unit :=
  modify (fun e => e <| ex_config := Some {| sc_BuildsDir := p_BuildsDir (pr_cfg pr); sc_CacheDir := p_CacheDir (pr_cfg pr);
                                             sc_Shell := DefaultShellName; sc_RunnerCommand := p_HelperPath (pr_cfg pr) |} |>) ;;;
  match PrepareBuildAndShell with
  | None => ret tt
  | Some err => match as_BuildError err with
                | Some _ => fail err
                | None => fail (XBuild err ConfigurationError 0)
                end
  end.

Definition roundTo (d m : duration) : duration :=
  let r := d mod m in if r + r <? m then d - r else Z.min (d + (m - r)) maxDuration.
Definition roundDuration (d : duration) : duration :=
  if second <=? d then roundTo d (100 * millisecond) else if millisecond <=? d then roundTo d millisecond else d.

(** [Allocate] is the Scheduler's answer and [took] how long it took. *)
Definition allocate (Allocate : result Handle) (took : duration) : M Handle :=
  sleep took ;;;
  match Allocate with
  | Err err => fail (buildErr RunnerSystemFailure "allocating a microvm" [XErr err])
  | Ok h =>
      emit (EvAllocate (h_id h)) ;;;
      modify (fun e => e <| ex_handle := Some h |>
                         <| ex_data := (fun d => {| d_Reservation := d_Reservation d; d_Handle := Some h |}) <$> ex_data e |>) ;;;
      printf (LAllocated (a_VMUID (h_alloc h)) (pl_Host (a_Placement (h_alloc h))) (roundDuration took)) ;;;
      ret h
  end.

Definition transportKind (pr : Profile) : string :=
  if String.eqb (pv_transport p) "" then tr_Kind (p_Transport (pr_cfg pr)) else pv_transport p.

Definition sshOptions (ReadFile : string -> result string) (pr : Profile) : result SSHOptions :=
  let cfg := tr_SSH (p_Transport (pr_cfg pr)) in
  match ReadFile (ssh_PrivateKeyFile cfg) with
  | Err e => Err (EWrap "reading ssh private key" [e])
  | Ok key => Ok {| so_User := if String.eqb (ssh_User cfg) "" then p_User (pr_cfg pr) else ssh_User cfg;
                    so_PrivateKey := key; so_KnownHostKey := ssh_KnownHostKey cfg |}
  end.

Definition agentTarget (AgentLease : AgentClaim -> result Z) (a : Allocation) : M Target :=
  guard (pv_agents p) (buildErr ConfigurationError "the agent-exec guest transport has no exec agent clients" []) ;;;
  match AgentLease {| ac_LeaseID := l_ID (a_Lease a); ac_VMUID := a_VMUID a; ac_Host := hr_Name (a_Host a); ac_Address := hr_Address (a_Host a) |} with
  | Err e => fail (buildErr RunnerSystemFailure ("exec agent of host " +:+ hr_Name (a_Host a)) [XErr e])
  | Ok d =>
      emit (EvLease d) ;;; modify (fun e => e <| ex_hostDone := Some d |>) ;;;
      ret {| tg_Kind := KindAgentExec; tg_Deadline := to_Transport (pv_Timeouts p); tg_Client := d; tg_VMUID := a_VMUID a; tg_SSH := None |}
  end.

Definition guestTarget (HostLease : string -> result Z) (AgentLease : AgentClaim -> result Z) (ReadFile : string -> result string)
    (pr : Profile) (a : Allocation) : M Target :=
  if String.eqb (transportKind pr) KindAgentExec then agentTarget AgentLease a
  else match HostLease (pl_Host (a_Placement a)) with
  | Err e => fail (buildErr RunnerSystemFailure ("host " +:+ pl_Host (a_Placement a)) [XErr e])
  | Ok d =>
      emit (EvLease d) ;;; modify (fun e => e <| ex_hostDone := Some d |>) ;;;
      let target ssh := {| tg_Kind := transportKind pr; tg_Deadline := to_Transport (pv_Timeouts p); tg_Client := d;
                           tg_VMUID := a_VMUID a; tg_SSH := ssh |} in
      if String.eqb (transportKind pr) KindSSH
      then match sshOptions ReadFile pr with
           | Err e => fail (buildErr ConfigurationError ("profile " +:+ pr_Name pr) [XErr e])
           | Ok ssh => ret (target (Some ssh))
           end
      else ret (target None)
  end.

(** *** waitReady

    [Ready i] is the answer of the [i]th probe and how long it took.  The
    loop returns the error of the last probe, or [None] if the guest is
    ready; out of fuel is [None] outside. *)
Fixpoint waitReady_loop (ctx : context) (Ready : nat -> option error * duration) (t : Z) (fuel i : nat) : M (option (option error)) :=
  match fuel with
  | O => ret None
  | S fuel =>
      emit (EvReady t) ;;;
      sleep (Ready i).2 ;;;
      match (Ready i).1 with
      | None => ret (Some None)
      | Some last =>
          now <- gets ex_now ;;
          if ctx_done ctx now then ret (Some (Some last))
          else
            (* the poll timer, or the end of the context if that comes first *)
            let wake := match cx_end ctx with Some e => Z.min (now + readyPollInterval) (en_at e) | None => now + readyPollInterval end in
            sleep (wake - now) ;;;
            if ctx_done ctx wake then ret (Some (Some last)) else waitReady_loop ctx Ready t fuel (S i)
      end
  end.

Definition ready_timeout (pr : Profile) : duration :=
  if p_ReadyTimeout (pr_cfg pr) <=? 0 then DefaultReadyTimeout else p_ReadyTimeout (pr_cfg pr).
Definition ready_fuel (timeout : duration) : nat := S (Z.to_nat (timeout / readyPollInterval + 1)).

Definition waitReady (ctx : context) (pr : Profile) (h : Handle) (t : Z) (Ready : nat -> option error * duration) : M unit :=
  let timeout := ready_timeout pr in
  now <- gets ex_now ;;
  let ctx := with_cancel ctx (Some (canceled_at (time_Add now timeout) (XErr (ESentinel CtxCanceled)))) in
  last <- waitReady_loop ctx Ready t (ready_fuel timeout) 0 ;;
  let err causes := buildErr RunnerSystemFailure ("microvm " +:+ a_VMUID (h_alloc h) +:+ " was not ready within the ready timeout") causes in
  match last with
  | Some None => ret tt
  | Some (Some last) => fail (err [XErr last])
  | None => fail (err [])
  end.

Definition makeDirs (pr : Profile) (t : Z) (answer : stageResult) (took : duration) : M unit :=
  emit (EvRun t None {| cm_Path := shell pr; cm_Args := []; cm_Dir := "/"; cm_User := user pr; cm_Stdin := mkdir_script pr |}) ;;;
  sleep took ;;;
  match sr_err answer with
  | Some e => fail (buildErr RunnerSystemFailure "creating the builds and cache directories" [XErr e])
  | None => guard (sr_status answer =? 0) (buildErr RunnerSystemFailure "creating the builds and cache directories exited" [])
  end.

(** *** What a Prepare meets *)
Record prepare_env := {
  pe_ctx : context; pe_late : duration; pe_abort : option time;
  pe_ExpandValue : string -> string; pe_ResolveProfile : JobInfo -> result Profile; pe_PrepareBuildAndShell : option xerror;
  pe_Allocate : result Handle; pe_allocateTook : duration;
  pe_HostLease : string -> result Z; pe_AgentLease : AgentClaim -> result Z; pe_ReadFile : string -> result string;
  pe_New : Target -> result Z; pe_Ready : nat -> option error * duration;
  pe_mkdir : stageResult; pe_mkdirTook : duration }.

Definition startGuest (ctx : context) (pe : prepare_env) (pr : Profile) (h : Handle) : M unit :=
  target <- guestTarget (pe_HostLease pe) (pe_AgentLease pe) (pe_ReadFile pe) pr (h_alloc h) ;;
  match pe_New pe target with
  | Err e => fail (buildErr RunnerSystemFailure ("guest transport to microvm " +:+ a_VMUID (h_alloc h)) [XErr e])
  | Ok t =>
      emit (EvOpen t target) ;;;
      modify (fun e => e <| ex_tr := Some t |>) ;;;
      start <- gets ex_now ;;
      waitReady ctx pr h t (pe_Ready pe) ;;;
      now <- gets ex_now ;;
      printf (LReady (roundDuration (time_Sub now start))) ;;;
      makeDirs pr t (pe_mkdir pe) (pe_mkdirTook pe)
  end.

Definition closeGuest : M unit :=
  tr <- gets ex_tr ;;
  match tr with Some t => emit (EvClose t) ;;; modify (fun e => e <| ex_tr := None |>) | None => ret tt end ;;;
  hostDone <- gets ex_hostDone ;;
  match hostDone with Some d => emit (EvHostDone d) ;;; modify (fun e => e <| ex_hostDone := None |>) | None => ret tt end.

Definition releaseAfterFailedPrepare : M unit :=
  closeGuest ;;;
  handle <- gets ex_handle ;;
  match handle with Some h => emit (EvRelease (h_id h)) ;;; modify (fun e => e <| ex_handle := None |>) | None => ret tt end.

Definition addHostServiceEnv_M (h : Handle) : M unit :=
  let env := match pv_Env p, pv_Inventory p with
             | Some cfg, Some inv => Resolve cfg (inv (pl_Host (a_Placement (h_alloc h))))
             | _, _ => HostServiceEnv0
             end in
  modify (fun e => e <| ex_Variables := addHostServiceEnv (pv_httpCacheVars p) env (ex_Variables e) |>) ;;;
  printf (LServices (env_Services env)).

Definition fail_prepare {A} (ctx : context) (err : xerror) : M A :=
  fun e => let '(err, now) := prepareErr ctx (ex_now e) err in (e <| ex_now := now |>, inl err).

Definition prepare_ctx (pe : prepare_env) (now : time) : context :=
  let ctx := pe_ctx pe in
  let d := to_Prepare (pv_Timeouts p) in
  let ctx := if 0 <? d then with_timeout_cause ctx now d (pe_late pe) (XErr (ENew "flintlock: prepare did not complete within the prepare timeout")) else ctx in
  with_cancel ctx ((fun t => canceled_at t (XErr (ESentinel ExecErrAborted))) <$> pe_abort pe).

Definition Prepare_body (b : Build) (pe : prepare_env) : M unit :=
  prepared <- gets ex_prepared ;;
  guard (negb prepared) (XBuild (XErr (ESentinel ErrPrepared)) RunnerSystemFailure 0) ;;;
  modify (fun e => e <| ex_prepared := true |>) ;;;
  match b_ExecutorData b with
  | Some {| d_Reservation := Some r; d_Handle := h |} => modify (fun e => e <| ex_data := Some {| d_Reservation := Some r; d_Handle := h |} |>)
  | _ => fail (buildErr RunnerSystemFailure "flintlock: the run loop gave Prepare no reservation" [])
  end ;;;
  checkJob b ;;;
  now <- gets ex_now ;;
  let ctx := prepare_ctx pe now in
  pr <- resolveProfile (pe_ExpandValue pe) (pe_ResolveProfile pe) b ;;
  configureShell pr (pe_PrepareBuildAndShell pe) ;;;
  h <- on_error (allocate (pe_Allocate pe) (pe_allocateTook pe)) (fail_prepare ctx) ;;
  on_error (startGuest ctx pe pr h) (fun err => releaseAfterFailedPrepare ;;; fail_prepare ctx err) ;;;
  addHostServiceEnv_M h.

Definition log (l : logline) (e : executor) : executor := e <| ex_log := ex_log e ++ [l] |>.

Definition Prepare (b : Build) (pe : prepare_env) (e : executor) : executor * option xerror :=
  match Prepare_body b pe (log LSectionStart e) with
  | (e, inl err) => (log LSectionEnd (log (LError err) e), Some err)
  | (e, inr _) => (log LSectionEnd e, None)
  end.

(** *** Run

    [re_fin] is when the transport returns and with what, if it does;
    [re_handleDone] and [re_abort] are when the watching goroutine sees the
    Handle done or the abort; [re_wake] is how late the select runs, and
    [re_pick] which arm it takes if both are ready.  [re_CheckLease] is what
    CheckLease answers, if it is asked, and [re_checkTook] how long that
    takes: it is called with the Job's context, not the Stage's. *)
Record run_env := {
  re_ctx : context; re_handleDone : option (time * error); re_abort : option time;
  re_fin : option (time * stageResult); re_wake : duration; re_pick : bool; re_CheckLease : option error; re_checkTook : duration }.

Definition stage_ctx (re : run_env) : context :=
  with_cancel (with_cancel (re_ctx re)
      ((fun '(t, err) => canceled_at t (XBuild (XErr err) RunnerSystemFailure 0)) <$> re_handleDone re))
    ((fun t => canceled_at t (XBuild (XErr (ESentinel ExecErrAborted)) RunnerSystemFailure 0)) <$> re_abort re).

Definition recordFailed (stage : string) (err : xerror) : M unit :=
  modify (fun e => e <| ex_failedStages := <[stage := err]> (ex_failedStages e) |>).

(** The error of a Stage whose Lease is lost, recorded; [None] otherwise. *)
Definition leaseLost (h : Handle) (CheckLease : option error) (took : duration) (stage : string) (r : stageResult) : M (option xerror) :=
  if negb (noExitStatus r) then ret None
  else
    emit (EvCheckLease (h_id h)) ;;; modify (fun e => e <| ex_now := ex_now e + took |>) ;;;
    match CheckLease with
    | None => ret None
    | Some lost =>
        let inner := match sr_err r with
                     | Some err => XWrap ("stage " +:+ stage +:+ ": guest transport failed before the exit status was known") [XErr err; XErr lost]
                     | None => XWrap ("stage " +:+ stage +:+ ": the guest agent reported the exit status") [XErr lost]
                     end in
        let err := XBuild inner RunnerSystemFailure 0 in
        recordFailed stage err ;;; ret (Some err)
    end.

Definition stageError (stage : string) (r : stageResult) : M (option xerror) :=
  match sr_err r with
  | Some e =>
      let err := XBuild (XWrap ("stage " +:+ stage +:+ ": guest transport failed before the exit status was known") [XErr e]) RunnerSystemFailure 0 in
      recordFailed stage err ;;; ret (Some err)
  | None =>
      if sr_status r =? 0 then ret None
      else ret (Some (XBuild (XWrap "exit status" []) ScriptFailure (NormalizeExitCode (sr_status r))))
  end.

(** When the select of runStage can run: the transport has returned or the
    context is done; [None] if neither ever happens. *)
Definition select_at (ctx : context) (re : run_env) (start : time) : option time :=
  match re_fin re, cx_end ctx with
  | None, None => None
  | Some (tf, _), None => Some (Z.max start tf + re_wake re)
  | None, Some e => Some (Z.max start (en_at e) + re_wake re)
  | Some (tf, _), Some e => Some (Z.max start (Z.min tf (en_at e)) + re_wake re)
  end.

Definition grace : duration :=
  if to_GracefulKill (pv_Timeouts p) <=? 0 then DefaultGracefulKillTimeout else to_GracefulKill (pv_Timeouts p).

Definition set_now (t : time) : M unit := modify (fun e => e <| ex_now := t |>).

Definition result_arm (ctx : context) (re : run_env) (h : Handle) (stage : string) (r : stageResult) (t : time) : M (option xerror) :=
  let '(b, now) := expired ctx t in
  set_now now ;;;
  if (b : bool) then ret (Some (stageCancelled ctx))
  else
    lost <- leaseLost h (re_CheckLease re) (re_checkTook re) stage r ;;
    match lost with Some err => ret (Some err) | None => stageError stage r end.

Definition cancel_arm (ctx : context) (re : run_env) (stage : string) (t : time) : M (option xerror) :=
  match re_fin re with
  | Some (tf, _) =>
      if tf <=? t + grace then set_now (Z.max t tf) ;;; ret (Some (stageCancelled ctx))
      else set_now (t + grace) ;;; printf (LGrace stage grace) ;;; ret (Some (stageCancelled ctx))
  | None => set_now (t + grace) ;;; printf (LGrace stage grace) ;;; ret (Some (stageCancelled ctx))
  end.

(** [None]: it does not return. *)
Definition runStage (re : run_env) (h : Handle) (t : Z) (stage : string) (c : Command) (e : executor) : option (executor * option xerror) :=
  let ctx := stage_ctx re in
  match select_at ctx re (ex_now e) with
  | None => None
  | Some now =>
      let arm := match re_fin re with
                 | Some (tf, r) => if (tf <=? now) && (negb (ctx_done ctx now) || re_pick re)
                                   then result_arm ctx re h stage r now else cancel_arm ctx re stage now
                 | None => cancel_arm ctx re stage now
                 end in
      match (emit (EvRun t (Some stage) c) ;;; arm) e with
      | (e, inr res) => Some (e, res)
      | (e, inl err) => Some (e, Some err)
      end
  end.

(** [args] are the arguments of the shell gitlab-runner generated. *)
Definition Run (re : run_env) (args : list string) (stage script : string) (e : executor) : option (executor * option xerror) :=
  match ex_tr e, ex_handle e, ex_profile e with
  | Some t, Some h, Some pr =>
      match ex_failedStages e !! stage with
      | Some err => Some (e, Some err)
      | None => runStage re h t stage {| cm_Path := shell pr; cm_Args := args; cm_Dir := p_BuildsDir (pr_cfg pr); cm_User := user pr; cm_Stdin := script |} e
      end
  | _, _, _ => Some (e, Some (buildErr RunnerSystemFailure "flintlock: Run called before a successful Prepare" []))
  end.

(** *** Finish and Cleanup *)
Definition Finish (err : option xerror) (e : executor) : executor :=
  let failed := match err with Some _ => true | None => false end in
  let e := e <| ex_jobFailed := failed |> in
  match ex_handle e with
  | Some h => if failed && pv_KeepOnFailure p then log (LKeeping (a_VMUID (h_alloc h)) (pl_Host (a_Placement (h_alloc h)))) e else e
  | None => e
  end.

Definition Cleanup (e : executor) : executor :=
  ((closeGuest ;;;
    handle <- gets ex_handle ;;
    match handle with
    | Some h =>
        modify (fun e => e <| ex_handle := None |>) ;;;
        failed <- gets ex_jobFailed ;;
        emit (if failed && pv_KeepOnFailure p then EvRetain (h_id h) else EvRelease (h_id h))
    | None => ret tt
    end) e).1.
End Executor.
