(* ===== verification/ExecutorThms.v ===== *)
(** * The executor keeps its protocol

    Hoare triples for the monad of [Executor], the protocol between the
    executor and its collaborators as an automaton over the calls it makes,
    and the theorems about Prepare, Run and Cleanup. *)
From Stdlib Require Import Ascii.
From S2P Require Import Prelude GoModel ConfigTypes ConfigDefaults PoolTypes SchedTypes Base64 PathMatch GoStrings HostEnv ConfigValid GoContext Executor.

(** ** Triples *)
Definition triple {A} (P : executor -> Prop) (m : M A) (Q : A -> executor -> Prop) (E : xerror -> executor -> Prop) : Prop :=
  forall e, P e -> match m e with (e', inr a) => Q a e' | (e', inl err) => E err e' end.

Section Rules.
Context {A B : Type}.
Implicit Types (P : executor -> Prop) (E : xerror -> executor -> Prop).

Lemma t_ret P (a : A) (Q : A -> executor -> Prop) E : (forall e, P e -> Q a e) -> triple P (ret a) Q E.
Proof. intros H e He. by apply H. Qed.
Lemma t_fail P err (Q : A -> executor -> Prop) E : (forall e, P e -> E err e) -> triple P (fail err) Q E.
Proof. intros H e He. by apply H. Qed.
Lemma t_bind P (m : M A) (R : A -> executor -> Prop) (k : A -> M B) (Q : B -> executor -> Prop) E :
  triple P m R E -> (forall a, triple (R a) (k a) Q E) -> triple P (bind m k) Q E.
Proof. intros Hm Hk e He. specialize (Hm e He). unfold bind. destruct (m e) as [e' [err|a]]; [done|]. by apply Hk. Qed.
Lemma t_on_error P (m : M A) h (Q : A -> executor -> Prop) (F E : xerror -> executor -> Prop) :
  triple P m Q F -> (forall err, triple (F err) (h err) Q E) -> triple P (on_error m h) Q E.
Proof. intros Hm Hk e He. specialize (Hm e He). unfold on_error. destruct (m e) as [e' [err|a]]; [by apply Hk|done]. Qed.
Lemma t_conseq P P' (m : M A) (Q Q' : A -> executor -> Prop) E E' :
  triple P' m Q' E' -> (forall e, P e -> P' e) -> (forall a e, Q' a e -> Q a e) -> (forall err e, E' err e -> E err e) -> triple P m Q E.
Proof. intros Hm HP HQ HE e He. specialize (Hm e (HP e He)). destruct (m e) as [e' [err|a]]; auto. Qed.
Lemma t_exists {X} (P : X -> executor -> Prop) (m : M A) Q E :
  (forall x, triple (P x) m Q E) -> triple (fun e => exists x, P x e) m Q E.
Proof. intros H e [x He]. by apply (H x). Qed.
Lemma t_pure (X : Prop) P (m : M A) Q E : (X -> triple P m Q E) -> triple (fun e => X /\ P e) m Q E.
Proof. intros H e [Hx He]. by apply H. Qed.
Lemma t_gets P (f : executor -> A) (Q : A -> executor -> Prop) E : (forall e, P e -> Q (f e) e) -> triple P (gets f) Q E.
Proof. intros H e He. by apply H. Qed.
End Rules.
Lemma t_modify (P : executor -> Prop) f (Q : unit -> executor -> Prop) E : (forall e, P e -> Q tt (f e)) -> triple P (modify f) Q E.
Proof. intros H e He. by apply H. Qed.
Lemma t_guard (P : executor -> Prop) b err (Q : unit -> executor -> Prop) E :
  (b = true -> forall e, P e -> Q tt e) -> (b = false -> forall e, P e -> E err e) -> triple P (guard b err) Q E.
Proof. intros H1 H2. unfold guard. destruct b; [apply t_ret | apply t_fail]; auto. Qed.

(** ** The protocol *)
Inductive phase :=
  | PIdle
  | PAllocated (h : Z)
  | PLeased (h d : Z)
  | POpen (h d t : Z)
  | PClosing (h d : Z)
  | PReturning (h : Z)
  | PGone.

(** What a call means to the collaborators, and when it is allowed: a guest
    is reached only through a client held for it, the transport is closed and
    the client given back before the MicroVM is, and nothing follows. *)
Definition pstep (ph : phase) (v : event) : option phase :=
  match ph, v with
  | PIdle, EvAllocate h => Some (PAllocated h)
  | PAllocated h, EvLease d => Some (PLeased h d)
  | PLeased h d, EvOpen t target => if tg_Client target =? d then Some (POpen h d t) else None
  | POpen h d t, EvReady t' => if t =? t' then Some ph else None
  | POpen h d t, EvRun t' _ _ => if t =? t' then Some ph else None
  | POpen h d t, EvCheckLease h' => if h =? h' then Some ph else None
  | POpen h d t, EvClose t' => if t =? t' then Some (PClosing h d) else None
  | (PLeased h d | PClosing h d), EvHostDone d' => if d =? d' then Some (PReturning h) else None
  | (PAllocated h | PReturning h), (EvRelease h' | EvRetain h') => if h =? h' then Some PGone else None
  | _, _ => None
  end.

Fixpoint prun (ph : phase) (l : list event) : option phase :=
  match l with [] => Some ph | v :: l => match pstep ph v with Some ph => prun ph l | None => None end end.

Lemma prun_snoc ph l v ph' : prun ph l = Some ph' -> prun ph (l ++ [v]) = pstep ph' v.
Proof.
  revert ph. induction l as [|x l IH]; intros ph; simpl; [intros [= ->]; by destruct (pstep ph' v)|].
  destruct (pstep ph x); [apply IH|done].
Qed.

(** The executor's fields, and the phase its calls have led to. *)
Definition Ph (ph : phase) (H : option Handle) (D T : option Z) (e : executor) : Prop :=
  ex_prepared e = true /\ ex_handle e = H /\ ex_hostDone e = D /\ ex_tr e = T /\ prun PIdle (ex_trace e) = Some ph.

Definition view (e : executor) := (ex_prepared e, ex_handle e, ex_hostDone e, ex_tr e, ex_trace e).
Lemma Ph_view ph H D T e e' : view e = view e' -> Ph ph H D T e -> Ph ph H D T e'.
Proof. unfold view, Ph. intros [=]. intuition congruence. Qed.

Lemma t_silent ph H D T f E : (forall e, view e = view (f e)) -> triple (Ph ph H D T) (modify f) (fun _ => Ph ph H D T) E.
Proof. intros Hf. apply t_modify. intros e. by apply Ph_view. Qed.

Lemma t_emit ph ph' H D T v E : pstep ph v = Some ph' -> triple (Ph ph H D T) (emit v) (fun _ => Ph ph' H D T) E.
Proof. intros Hs. apply t_modify. intros e (? & ? & ? & ? & Ht). repeat split; try done. by rewrite <-Hs, <-(prun_snoc _ _ v _ Ht). Qed.

Ltac silent := first [apply t_silent; intros; reflexivity | apply t_gets; intros; eassumption].
Ltac seq := eapply t_bind; [|intros].

(** What Prepare holds when it fails after the allocation. *)
Definition Holding (h : Handle) (e : executor) : Prop :=
  Ph (PAllocated (h_id h)) (Some h) None None e
  \/ (exists d, Ph (PLeased (h_id h) d) (Some h) (Some d) None e)
  \/ (exists d t, Ph (POpen (h_id h) d t) (Some h) (Some d) (Some t) e).

Section Protocol.
Variable p : provider.
Variable Is_error : xerror -> xerror -> bool.
Variable NormalizeExitCode : Z -> Z.

Lemma t_allocate a took :
  triple (Ph PIdle None None None) (allocate a took)
    (fun h => Ph (PAllocated (h_id h)) (Some h) None None) (fun _ => Ph PIdle None None None).
Proof.
  unfold allocate. seq; [silent|]. destruct a as [h|err]; [|by apply t_fail].
  seq; [by apply t_emit|]. seq; [|seq; [silent|by apply t_ret]].
  apply t_modify. intros e (? & ? & ? & ? & ?). by repeat split.
Qed.

Lemma t_lease h d (k : M Target) :
  triple (Ph (PLeased (h_id h) d) (Some h) (Some d) None) k (fun g e => tg_Client g = d /\ Ph (PLeased (h_id h) d) (Some h) (Some d) None e) (fun _ => Holding h) ->
  triple (Ph (PAllocated (h_id h)) (Some h) None None) (bind (emit (EvLease d)) (fun _ => bind (modify (fun e => e <| ex_hostDone := Some d |>)) (fun _ => k)))
    (fun g e => exists d, tg_Client g = d /\ Ph (PLeased (h_id h) d) (Some h) (Some d) None e) (fun _ => Holding h).
Proof.
  intros Hk. seq; [by apply t_emit|]. eapply t_bind with (R := fun _ => Ph (PLeased (h_id h) d) (Some h) (Some d) None).
  - apply t_modify. intros e (? & ? & ? & ? & ?). by repeat split.
  - intros _. eapply t_conseq; [exact Hk|done| |done]. intros g e [H1 H2]. by exists d.
Qed.

Lemma t_guestTarget hl al rf pr h :
  triple (Ph (PAllocated (h_id h)) (Some h) None None) (guestTarget p hl al rf pr (h_alloc h))
    (fun g e => exists d, tg_Client g = d /\ Ph (PLeased (h_id h) d) (Some h) (Some d) None e) (fun _ => Holding h).
Proof.
  unfold guestTarget, agentTarget. destruct (String.eqb _ _).
  - eapply t_bind with (R := fun _ => Ph (PAllocated (h_id h)) (Some h) None None); [apply t_guard; [done|by left]|]. intros _.
    destruct (al _) as [d|]; [|apply t_fail; by left]. apply t_lease. by apply t_ret.
  - destruct (hl _) as [d|]; [|apply t_fail; by left]. apply t_lease.
    destruct (String.eqb _ _); [|by apply t_ret]. destruct (sshOptions _ _); [by apply t_ret|]. apply t_fail. intros x Hx. right. left. by exists d.
Qed.

(** The guest operations of Prepare keep the transport open. *)
Definition Open (h : Handle) (d t : Z) : executor -> Prop := Ph (POpen (h_id h) d t) (Some h) (Some d) (Some t).

Lemma t_waitReady_loop ctx ready h d t fuel i E :
  triple (Open h d t) (waitReady_loop ctx ready t fuel i) (fun _ => Open h d t) E.
Proof.
  revert i. induction fuel as [|fuel IH]; intros i; simpl; [by apply t_ret|].
  seq; [apply t_emit; simpl; by rewrite Z.eqb_refl|]. seq; [silent|]. destruct (ready i).1; [|by apply t_ret].
  eapply t_bind with (R := fun _ => Open h d t); [silent|]. intros now. destruct (ctx_done ctx now); [by apply t_ret|].
  seq; [silent|]. destruct (ctx_done _ _); [by apply t_ret|apply IH].
Qed.

Lemma t_startGuest ctx pe pr h :
  triple (Ph (PAllocated (h_id h)) (Some h) None None) (startGuest p ctx pe pr h)
    (fun _ e => exists d t, Open h d t e) (fun _ => Holding h).
Proof.
  unfold startGuest. seq; [apply t_guestTarget|]. rename a into g.
  apply t_exists. intros d. apply t_pure. intros Hg.
  destruct (pe_New pe g) as [t|]; [|apply t_fail; intros x Hx; right; left; by exists d].
  seq; [apply (t_emit _ (POpen (h_id h) d t)); simpl; by rewrite Hg, Z.eqb_refl|].
  eapply t_bind with (R := fun _ => Open h d t); [apply t_modify; intros e (? & ? & ? & ? & ?); by repeat split|]. intros _.
  eapply t_conseq with (P' := Open h d t) (Q' := fun _ => Open h d t) (E' := fun _ => Open h d t); [|done|by eauto|by (intros; right; right; eauto)].
  eapply t_bind with (R := fun _ => Open h d t); [silent|]. intros start.
  eapply t_bind with (R := fun _ => Open h d t).
  - unfold waitReady. eapply t_bind with (R := fun _ => Open h d t); [silent|]. intros now.
    eapply t_bind; [apply t_waitReady_loop|]. intros [[last|]|]; [by apply t_fail|by apply t_ret|by apply t_fail].
  - intros _. eapply t_bind with (R := fun _ => Open h d t); [silent|]. intros now. seq; [silent|].
    unfold makeDirs. seq; [apply t_emit; simpl; by rewrite Z.eqb_refl|]. seq; [silent|].
    destruct (sr_err _); [by apply t_fail|]. by apply t_guard.
Qed.

Lemma t_closeGuest h E : triple (Holding h) closeGuest
    (fun _ e => Ph (PAllocated (h_id h)) (Some h) None None e \/ Ph (PReturning (h_id h)) (Some h) None None e) E.
Proof.
  intros e He. unfold closeGuest, bind, gets, emit, modify, ret.
  destruct He as [He|[(d & He)|(d & t & He)]]; destruct He as (H1 & H2 & H3 & H4 & H5).
  - rewrite H4, H3. left. by repeat split.
  - rewrite H4, H3. right. repeat split; try done. cbn [ex_trace set_field]. by erewrite prun_snoc by exact H5; simpl; rewrite Z.eqb_refl.
  - rewrite H4. cbn. rewrite H3. right. repeat split; try done. cbn [ex_trace set_field].
    erewrite prun_snoc; [|erewrite prun_snoc by exact H5; simpl; by rewrite Z.eqb_refl]. simpl. by rewrite Z.eqb_refl.
Qed.

(** Between the calls of gitlab-runner the executor holds everything of a
    MicroVM or nothing. *)
Definition Nothing (e : executor) : Prop := Ph PIdle None None None e \/ Ph PGone None None None e.
Definition Fresh (e : executor) : Prop :=
  ex_prepared e = false /\ ex_handle e = None /\ ex_hostDone e = None /\ ex_tr e = None /\ ex_trace e = [].
Definition Settled (e : executor) : Prop := Fresh e \/ Nothing e \/ exists h d t, Open h d t e.

Lemma t_release h E : triple (Holding h) releaseAfterFailedPrepare (fun _ => Ph PGone None None None) E.
Proof.
  unfold releaseAfterFailedPrepare. seq; [apply t_closeGuest|].
  intros e He. unfold bind, gets, emit, modify, ret.
  assert (Hh : ex_handle e = Some h) by (destruct He as [(_ & ? & _)|(_ & ? & _)]; done). rewrite Hh.
  destruct He as [(H1 & H2 & H3 & H4 & H5)|(H1 & H2 & H3 & H4 & H5)]; repeat split; try done; cbn [ex_trace set_field];
    erewrite prun_snoc by exact H5; simpl; by rewrite Z.eqb_refl.
Qed.

Lemma t_fail_prepare {A} ctx err (P : executor -> Prop) (Q : A -> executor -> Prop) (E : xerror -> executor -> Prop) :
  (forall e now err', P e -> E err' (e <| ex_now := now |>)) -> triple P (fail_prepare Is_error ctx err) Q E.
Proof. intros H e He. unfold fail_prepare. destruct (prepareErr _ _ _ _) as [err' now]. by apply H. Qed.

Lemma t_Prepare_body b pe :
  triple Fresh (Prepare_body p Is_error b pe) (fun _ e => exists h d t, Open h d t e) (fun _ e => Nothing e).
Proof.
  set (I := Ph PIdle None None None).
  unfold Prepare_body. eapply t_bind with (R := fun b e => b = false /\ Fresh e); [apply t_gets; intros e He; split; [apply He|done]|].
  intros prepared. apply t_pure. intros Hp. rewrite Hp. eapply t_bind with (R := fun _ => Fresh); [by apply t_guard|]. intros _.
  eapply t_bind with (R := fun _ => I).
  { apply t_modify. intros e (? & ? & ? & ? & Ht). repeat split; try done. cbn [ex_trace set_field]. by rewrite Ht. }
  intros _. eapply t_conseq with (P' := I) (Q' := fun _ e => exists h d t, Open h d t e) (E' := fun _ => Nothing); [|done..].
  assert (HI : forall e, I e -> Nothing e) by (by left).
  eapply t_bind with (R := fun _ => I).
  { destruct (b_ExecutorData b) as [[[r|] hd]|]; [silent|by apply t_fail..]. }
  intros _. eapply t_bind with (R := fun _ => I).
  { unfold checkJob. eapply t_bind with (R := fun _ => I); [by apply t_guard|]. intros _. by apply t_guard. }
  intros _. eapply t_bind with (R := fun _ => I); [silent|]. intros now.
  eapply t_bind with (R := fun _ => I).
  { unfold resolveProfile. destruct (pe_ResolveProfile _ _); [|by apply t_fail]. seq; [silent|]. seq; [silent|]. by apply t_ret. }
  intros pr. eapply t_bind with (R := fun _ => I).
  { unfold configureShell. seq; [silent|]. destruct (pe_PrepareBuildAndShell pe); [|by apply t_ret]. destruct (as_BuildError _); by apply t_fail. }
  intros _. eapply t_bind with (R := fun h => Ph (PAllocated (h_id h)) (Some h) None None).
  { eapply t_on_error; [apply t_allocate|]. intros err. apply t_fail_prepare. intros e n err' He. left. revert He. by apply Ph_view. }
  intros h. eapply t_bind with (R := fun _ e => exists d t, Open h d t e).
  { eapply t_on_error; [apply t_startGuest|]. intros err. simpl. seq; [apply t_release|].
    apply t_fail_prepare. intros e n err' He. right. revert He. by apply Ph_view. }
  intros _. unfold addHostServiceEnv_M. apply t_exists. intros d. apply t_exists. intros t.
  eapply t_conseq with (P' := Open h d t) (Q' := fun _ => Open h d t) (E' := fun _ _ => False); [|done|by eauto|done].
  eapply t_bind with (R := fun _ => Open h d t); [silent|]. intros _. silent.
Qed.

Lemma t_leaseLost h d t lost took stage r E : triple (Open h d t) (leaseLost h lost took stage r) (fun _ => Open h d t) E.
Proof.
  unfold leaseLost. destruct (negb _); [by apply t_ret|]. eapply t_bind with (R := fun _ => Open h d t); [apply t_emit; simpl; by rewrite Z.eqb_refl|].
  intros _. eapply t_bind with (R := fun _ => Open h d t); [silent|]. intros _. destruct lost; [|by apply t_ret]. eapply t_bind with (R := fun _ => Open h d t); [silent|]. intros _. by apply t_ret.
Qed.

Lemma t_stageError h d t stage r E : triple (Open h d t) (stageError NormalizeExitCode stage r) (fun _ => Open h d t) E.
Proof.
  unfold stageError. destruct (sr_err r); [|by destruct (_ =? _); apply t_ret].
  eapply t_bind with (R := fun _ => Open h d t); [silent|]. intros _. by apply t_ret.
Qed.

Lemma t_result_arm ctx re h d t stage r now E :
  triple (Open h d t) (result_arm NormalizeExitCode ctx re h stage r now) (fun _ => Open h d t) E.
Proof.
  unfold result_arm. destruct (expired ctx now) as [[] now']; (eapply t_bind with (R := fun _ => Open h d t); [silent|]); intros _; [by apply t_ret|].
  eapply t_bind; [apply t_leaseLost|]. intros [err|]; [by apply t_ret|apply t_stageError].
Qed.

Lemma t_cancel_arm ctx re h d t stage now E :
  triple (Open h d t) (cancel_arm p ctx re stage now) (fun _ => Open h d t) E.
Proof.
  unfold cancel_arm. destruct (re_fin re) as [[tf r]|]; [destruct (_ <=? _)|];
    repeat (eapply t_bind with (R := fun _ => Open h d t); [silent|]; intros _); by apply t_ret.
Qed.

Lemma Run_keeps re args stage script e e' res :
  Run p NormalizeExitCode re args stage script e = Some (e', res) ->
  e' = e \/ (forall h d t, Open h d t e -> Open h d t e').
Proof.
  unfold Run. destruct (ex_tr e) as [t|] eqn:Ht; [|intros [= <- _]; by left]. destruct (ex_handle e) as [h|] eqn:Hh; [|intros [= <- _]; by left].
  destruct (ex_profile e) as [pr|]; [|intros [= <- _]; by left]. destruct (ex_failedStages e !! stage); [intros [= <- _]; by left|].
  unfold runStage. destruct (select_at _ _ _) as [now|]; [|done]. intros HR. right. intros h' d t' HO.
  assert (h' = h) as -> by (destruct HO as (_ & ? & _); congruence).
  assert (t' = t) as -> by (destruct HO as (_ & _ & _ & ? & _); congruence).
  revert HR. match goal with |- context [bind ?m ?k e] => assert (HT : triple (Open h d t) (bind m k) (fun _ => Open h d t) (fun _ => Open h d t)) end.
  { eapply t_bind with (R := fun _ => Open h d t); [apply t_emit; simpl; by rewrite Z.eqb_refl|]. intros _.
    destruct (re_fin re) as [[tf r]|]; [destruct (_ && _)|]; first [apply t_result_arm | apply t_cancel_arm]. }
  specialize (HT e HO). revert HT. destruct (bind _ _ e) as [e1 [err|res1]]; intros HT [= <- _]; done.
Qed.

Lemma Cleanup_settles e : Settled e -> Fresh (Cleanup p e) \/ Nothing (Cleanup p e).
Proof.
  unfold Cleanup. intros [He|[He|(h & d & t & He)]].
  - left. destruct He as (H1 & H2 & H3 & H4 & H5). unfold closeGuest, bind, gets, ret. rewrite H4, H3, H2. by repeat split.
  - right. unfold Nothing in *. destruct He as [He|He]; destruct He as (H1 & H2 & H3 & H4 & H5);
      unfold closeGuest, bind, gets, ret; rewrite H4, H3, H2; [left|right]; by repeat split.
  - right. right.
    assert (HT : triple (Holding h) (bind closeGuest (fun _ => bind (gets ex_handle) (fun handle =>
        match handle with
        | Some h => bind (modify (fun e => e <| ex_handle := None |>)) (fun _ => bind (gets ex_jobFailed) (fun failed =>
            emit (if failed && pv_KeepOnFailure p then EvRetain (h_id h) else EvRelease (h_id h))))
        | None => ret tt end))) (fun _ => Ph PGone None None None) (fun _ => Ph PGone None None None)).
    { seq; [apply t_closeGuest|]. clear. intros e He. unfold bind, gets, emit, modify, ret.
      assert (Hh : ex_handle e = Some h) by (destruct He as [(_ & ? & _)|(_ & ? & _)]; done). rewrite Hh.
      destruct He as [(H1 & H2 & H3 & H4 & H5)|(H1 & H2 & H3 & H4 & H5)]; repeat split; try done; cbn [ex_trace set_field];
        erewrite prun_snoc by exact H5; destruct (_ && _); simpl; by rewrite Z.eqb_refl. }
    specialize (HT e (or_intror (or_intror (ex_intro _ d (ex_intro _ t He))))). by destruct (bind _ _ e) as [e' [?|?]].
Qed.

Lemma log_view l e : view (log l e) = view e.
Proof. reflexivity. Qed.

Lemma Settled_view e e' : view e = view e' -> Settled e -> Settled e'.
Proof.
  intros Hv [He|[[He|He]|(h & d & t & He)]].
  - left. unfold view, Fresh in *. injection Hv. intuition congruence.
  - right. left. left. by eapply Ph_view.
  - right. left. right. by eapply Ph_view.
  - right. right. exists h, d, t. by eapply Ph_view.
Qed.

Lemma Prepare_settles b pe e : Settled e ->
  let '(e', res) := Prepare p Is_error b pe e in
  Settled e' /\ match res with Some _ => view e' = view e \/ Nothing e' | None => exists h d t, Open h d t e' end.
Proof.
  intros He. unfold Prepare. destruct (ex_prepared e) eqn:Hp.
  - unfold Prepare_body, bind at 1, gets. unfold bind at 1, guard.
    replace (ex_prepared (log LSectionStart e)) with (ex_prepared e) by reflexivity. rewrite Hp. simpl.
    split; [by eapply Settled_view|]. by left.
  - assert (HF : Fresh (log LSectionStart e)).
    { destruct He as [He|[[He|He]|(h & d & t & He)]]; [exact He|..]; destruct He as (? & _); congruence. }
    pose proof (t_Prepare_body b pe _ HF) as HT. destruct (Prepare_body _ _ _ _ _) as [e' [err|u]].
    + assert (HN : Nothing (log LSectionEnd (log (LError err) e'))) by (destruct HT as [HT|HT]; [left|right]; by eapply Ph_view).
      split; [by right; left|by right].
    + destruct HT as (h & d & t & HT). assert (HO : Open h d t (log LSectionEnd e')) by by eapply Ph_view.
      split; [right; right; eauto|eauto].
Qed.
End Protocol.

(** ** Any sequence of calls *)
Inductive call :=
  | CPrepare (b : Build) (pe : prepare_env)
  | CRun (re : run_env) (args : list string) (stage script : string)
  | CFinish (err : option xerror)
  | CCleanup.

Section Calls.
Variable p : provider.
Variable Is_error : xerror -> xerror -> bool.
Variable NormalizeExitCode : Z -> Z.

(** [None]: a Run that does not return. *)
Definition do_call (c : call) (e : executor) : option executor :=
  match c with
  | CPrepare b pe => Some (Prepare p Is_error b pe e).1
  | CRun re args stage script => fst <$> Run p NormalizeExitCode re args stage script e
  | CFinish err => Some (Finish p err e)
  | CCleanup => Some (Cleanup p e)
  end.
Fixpoint do_calls (cs : list call) (e : executor) : option executor :=
  match cs with [] => Some e | c :: cs => e ← do_call c e; do_calls cs e end.

Lemma Finish_view err e : view (Finish p err e) = view e.
Proof. unfold Finish. destruct (ex_handle _); [|done]. by destruct (_ && _). Qed.

Lemma do_call_settles c e e' : Settled e -> do_call c e = Some e' -> Settled e'.
Proof.
  intros He. destruct c as [b pe|re args stage script|err|]; simpl.
  - intros [= <-]. pose proof (Prepare_settles p Is_error b pe e He) as HP. by destruct (Prepare p Is_error b pe e) as [e1 res]; destruct HP.
  - destruct (Run _ _ _ _ _ _ _) as [[e1 res]|] eqn:HR; [|done]. intros [= <-]. apply Run_keeps in HR as Hk. destruct Hk as [->|Hk]; [done|].
    destruct He as [He|[He|(h & d & t & He)]]; [..|right; right; exists h, d, t; by apply Hk].
    + left. unfold Run in HR. destruct He as (? & ? & ? & Ht & ?). rewrite Ht in HR. injection HR as <- _. done.
    + right; left. unfold Run in HR. assert (Ht : ex_tr e = None) by (destruct He as [(_ & _ & _ & ? & _)|(_ & _ & _ & ? & _)]; done).
      rewrite Ht in HR. injection HR as <- _. done.
  - intros [= <-]. eapply Settled_view; [|exact He]. symmetry. apply Finish_view.
  - intros [= <-]. destruct (Cleanup_settles p e He) as [H|H]; [by left|by right; left].
Qed.

Lemma do_calls_settles cs e e' : Settled e -> do_calls cs e = Some e' -> Settled e'.
Proof.
  revert e. induction cs as [|c cs IH]; intros e He; simpl; [by intros [= <-]|].
  destruct (do_call c e) as [e1|] eqn:Hc; [|done]. simpl. apply IH. by eapply do_call_settles.
Qed.

Lemma Nothing_phase e : Fresh e \/ Nothing e -> prun PIdle (ex_trace e) = Some PIdle \/ prun PIdle (ex_trace e) = Some PGone.
Proof. intros [(_ & _ & _ & _ & Ht)|[(_ & _ & _ & _ & Ht)|(_ & _ & _ & _ & Ht)]]; [rewrite Ht|..]; auto. Qed.

(** C4: the executor keeps the protocol with the Scheduler, the Host clients
    and the guest, whatever calls gitlab-runner makes in whatever order and
    whatever they are answered.  At any time it has allocated at most one
    MicroVM and holds all of it (Handle, client lease, transport) or nothing;
    the guest is reached only while all is held; transport, client lease and
    MicroVM are given back once each and in that order, and no MicroVM is
    allocated after one was given back.  After Cleanup, and after a Prepare
    that failed, nothing is held; a second Prepare does nothing. *)
Theorem executor_protocol now vars cs e :
  do_calls cs (Create now vars) = Some e ->
  (exists ph, prun PIdle (ex_trace e) = Some ph /\
     match ph with
     | PIdle | PGone => ex_handle e = None /\ ex_hostDone e = None /\ ex_tr e = None
     | POpen h d t => (exists H, ex_handle e = Some H /\ h_id H = h) /\ ex_hostDone e = Some d /\ ex_tr e = Some t
     | _ => False
     end)
  /\ (let tr := ex_trace (Cleanup p e) in prun PIdle tr = Some PIdle \/ prun PIdle tr = Some PGone)
  /\ (forall b pe e' err, Prepare p Is_error b pe e = (e', Some err) ->
        view e' = view e \/ prun PIdle (ex_trace e') = Some PIdle \/ prun PIdle (ex_trace e') = Some PGone).
Proof.
  intros Hc. assert (HS : Settled e) by (apply (do_calls_settles cs (Create now vars)); [left; by repeat split|done]). split_and!.
  - destruct HS as [(_ & H1 & H2 & H3 & H4)|[[(_ & H1 & H2 & H3 & H4)|(_ & H1 & H2 & H3 & H4)]|(h & d & t & (_ & H1 & H2 & H3 & H4))]].
    + exists PIdle. by rewrite H4.
    + by exists PIdle.
    + by exists PGone.
    + exists (POpen (h_id h) d t). split; [done|]. split; [by exists h|done].
  - apply Nothing_phase. by apply Cleanup_settles.
  - intros b pe e' err HP. pose proof (Prepare_settles p Is_error b pe e HS) as HR. rewrite HP in HR. destruct HR as [_ [HR|HR]]; [by left|right].
    apply Nothing_phase. by right.
Qed.
End Calls.

(** ** A Job from Prepare to Cleanup *)
Definition demo_jobProfile : Profile :=
  {| pr_cfg := applyProfile "amd64" "ci" (minimalProfile "default" "ghcr.io/k:1" "ghcr.io/r:1" 1); pr_PoolRef := {| ref_Name := "default"; ref_Namespace := "ci" |} |}.
Definition demo_allocation : Allocation :=
  {| a_JobID := 7; a_Profile := "default"; a_VMUID := "vm-1";
     a_Lease := {| l_ID := "lease-1"; l_Pool := pr_PoolRef demo_jobProfile; l_ExpiresAt := 30 * second; l_LastHeartbeatAt := 0 |};
     a_Placement := {| pl_Host := "h1"; pl_Source := PlacementFromClaim; pl_ResolvedAt := 0 |};
     a_Host := {| hr_Name := "h1"; hr_Address := "10.0.0.1:9090" |}; a_NetworkInterfaces := []; a_ReservationID := 1; a_ClaimedAt := 0 |}.
Definition demo_provider : provider :=
  {| pv_Timeouts := {| to_Prepare := minute; to_GracefulKill := 10 * second; to_Transport := 30 * second |};
     pv_KeepOnFailure := false; pv_CacheConfigured := false; pv_transport := ""; pv_agents := false; pv_httpCacheVars := ∅;
     pv_Env := None; pv_Inventory := None |}.
Definition demo_build : Build :=
  {| b_ID := 7; b_ImageName := ""; b_Services := []; b_Cache := [];
     b_ExecutorData := Some {| d_Reservation := Some {| res_ID := 1; res_GrantedAt := 0 |}; d_Handle := None |} |}.
(** The guest is ready at the second probe. *)
Definition demo_prepare : prepare_env :=
  {| pe_ctx := job_context (10 * minute) millisecond; pe_late := millisecond; pe_abort := None;
     pe_ExpandValue := fun s => s; pe_ResolveProfile := fun _ => Ok demo_jobProfile; pe_PrepareBuildAndShell := None;
     pe_Allocate := Ok {| h_id := 1; h_alloc := demo_allocation |}; pe_allocateTook := second;
     pe_HostLease := fun _ => Ok 2; pe_AgentLease := fun _ => Err (ENew "no agents"); pe_ReadFile := fun _ => Err (ENew "no file");
     pe_New := fun _ => Ok 3; pe_Ready := fun i => (match i with O => Some (ESentinel ErrNotReady) | _ => None end, millisecond);
     pe_mkdir := {| sr_status := 0; sr_err := None |}; pe_mkdirTook := millisecond |}.
Definition demo_runStage (r : stageResult) : run_env :=
  {| re_ctx := job_context (10 * minute) millisecond; re_handleDone := None; re_abort := None; re_fin := Some (20 * second, r);
     re_wake := 0; re_pick := true; re_CheckLease := None; re_checkTook := 0 |}.
Definition demo_calls : list call :=
  [CPrepare demo_build demo_prepare; CRun (demo_runStage {| sr_status := 0; sr_err := None |}) [] "get_sources" "git fetch"].
Definition demo_Is (a b : xerror) : bool := false.

Lemma executor_protocol_witness : exists e,
  do_calls demo_provider demo_Is (fun z => z) demo_calls (Create 0 []) = Some e
  /\ prun PIdle (ex_trace e) = Some (POpen 1 2 3) /\ ex_tr e = Some 3
  /\ (prun PIdle (ex_trace (Cleanup demo_provider e)) = Some PIdle \/ prun PIdle (ex_trace (Cleanup demo_provider e)) = Some PGone).
Proof.
  set (e := default (Create 0 []) (do_calls demo_provider demo_Is (fun z => z) demo_calls (Create 0 []))).
  assert (HD : do_calls demo_provider demo_Is (fun z => z) demo_calls (Create 0 []) = Some e) by (vm_compute; reflexivity).
  assert (HP : prun PIdle (ex_trace e) = Some (POpen 1 2 3)) by (vm_compute; reflexivity).
  clearbody e. exists e. destruct (executor_protocol demo_provider demo_Is (fun z => z) 0 [] demo_calls e HD) as ((ph & Hph & HM) & HC & _).
  rewrite HP in Hph. injection Hph as <-. destruct HM as (_ & _ & HT). done.
Defined.
