(* ===== verification/ExecutorRun.v ===== *)
(** * What Prepare and Run report

    The failure reasons Prepare returns and when, the outcome of a Stage, the
    bounds on how long both take, and the script that creates the Profile's
    directories. *)
From Stdlib Require Import Ascii.
From S2P Require Import Prelude GoModel ConfigTypes ConfigDefaults PoolTypes SchedTypes Base64 PathMatch GoStrings Shell HostEnv ConfigValid GoContext Executor ExecutorThms.

Ltac seq := eapply t_bind; [|intros].

(** ** Prepare returns only BuildErrors *)
Definition is_build (err : xerror) : Prop := is_Some (as_BuildError err).
Definition reason_of (err : xerror) : option JobFailureReason := be_FailureReason <$> as_BuildError err.

Definition Any (e : executor) : Prop := True.
Definition Builds {A} (m : M A) : Prop := triple Any m (fun _ => Any) (fun err _ => is_build err).

Lemma B_ret {A} (a : A) : Builds (ret a).
Proof. by apply t_ret. Qed.
Lemma B_modify f : Builds (modify f).
Proof. by apply t_modify. Qed.
Lemma B_gets {A} (f : executor -> A) : Builds (gets f).
Proof. by apply t_gets. Qed.
Lemma B_fail {A} err : is_build err -> Builds (@fail A err).
Proof. intros H. by apply t_fail. Qed.
Lemma B_guard b err : is_build err -> Builds (guard b err).
Proof. intros H. by apply t_guard. Qed.
Lemma B_bind {A B} (m : M A) (k : A -> M B) : Builds m -> (forall a, Builds (k a)) -> Builds (bind m k).
Proof. intros H1 H2. eapply t_bind; [exact H1|]. exact H2. Qed.
Lemma B_build r msg cs : is_build (buildErr r msg cs).
Proof. eexists. reflexivity. Qed.
Lemma B_XBuild i r c : is_build (XBuild i r c).
Proof. eexists. reflexivity. Qed.

Create HintDb builds.
#[export] Hint Resolve B_ret B_modify B_gets B_fail B_guard B_bind B_build B_XBuild : builds.

Section Reasons.
Variable p : provider.
Variable Is_error : xerror -> xerror -> bool.

Lemma B_waitReady_loop ctx ready t fuel i : Builds (waitReady_loop ctx ready t fuel i).
Proof.
  revert i. induction fuel as [|fuel IH]; intros i; simpl; [auto with builds|].
  apply B_bind; [apply B_modify|]. intros _. apply B_bind; [apply B_modify|]. intros _. destruct (ready i).1; [|auto with builds].
  apply B_bind; [auto with builds|]. intros now. destruct (ctx_done ctx now); [auto with builds|].
  apply B_bind; [apply B_modify|]. intros _. destruct (ctx_done _ _); auto with builds.
Qed.

Lemma B_allocate a took : Builds (allocate a took).
Proof.
  unfold allocate. apply B_bind; [apply B_modify|]. intros _. destruct a; [|auto with builds].
  repeat (apply B_bind; [apply B_modify|]; intros _). auto with builds.
Qed.

Lemma B_guestTarget hl al rf pr a : Builds (guestTarget p hl al rf pr a).
Proof.
  unfold guestTarget, agentTarget. destruct (String.eqb _ _).
  - apply B_bind; [auto with builds|]. intros _. destruct (al _); [|auto with builds].
    repeat (apply B_bind; [apply B_modify|]; intros _). auto with builds.
  - destruct (hl _); [|auto with builds]. repeat (apply B_bind; [apply B_modify|]; intros _).
    destruct (String.eqb _ _); [|auto with builds]. destruct (sshOptions _ _); auto with builds.
Qed.

Lemma B_startGuest ctx pe pr h : Builds (startGuest p ctx pe pr h).
Proof.
  unfold startGuest. apply B_bind; [apply B_guestTarget|]. intros g. destruct (pe_New pe g); [|auto with builds].
  do 2 (apply B_bind; [apply B_modify|]; intros _). apply B_bind; [auto with builds|]. intros start. apply B_bind.
  - unfold waitReady. apply B_bind; [auto with builds|]. intros now. apply B_bind; [apply B_waitReady_loop|]. intros [[]|]; auto with builds.
  - intros _. apply B_bind; [auto with builds|]. intros now. apply B_bind; [apply B_modify|]. intros _. unfold makeDirs.
    do 2 (apply B_bind; [apply B_modify|]; intros _). destruct (sr_err _); auto with builds.
Qed.

(** [prepareErr] keeps a BuildError a BuildError. *)
Lemma prepareErr_build ctx now err : is_build err -> is_build (prepareErr Is_error ctx now err).1.
Proof.
  intros [be Hbe]. unfold prepareErr. destruct (expired ctx now) as [[] now']; simpl; [|by exists be]. rewrite Hbe. by eexists.
Qed.

Lemma t_fail_prepare_time {A} ctx err (P : executor -> Prop) (E : xerror -> executor -> Prop) (Q : A -> executor -> Prop) :
  (forall e, P e -> let '(err', now) := prepareErr Is_error ctx (ex_now e) err in E err' (e <| ex_now := now |>)) ->
  triple P (fail_prepare Is_error ctx err) Q E.
Proof. intros H e He. unfold fail_prepare. specialize (H e He). by destruct (prepareErr _ _ _ _). Qed.

(** The steps of Prepare after the first ones, which take no time: what is
    known of an error that they return depends on when they return it. *)
Definition early (now : time) (err : xerror) (e : executor) : Prop := is_build err /\ ex_now e = now.
Definition late (ctx : context) (err : xerror) (e : executor) : Prop :=
  exists err0 t, is_build err0 /\ prepareErr Is_error ctx t err0 = (err, ex_now e).

Definition At (now : time) (e : executor) : Prop := ex_now e = now.
Lemma A_modify now f E : (forall e, ex_now (f e) = ex_now e) -> triple (At now) (modify f) (fun _ => At now) E.
Proof. intros H. apply t_modify. intros e He. unfold At. by rewrite H. Qed.
Lemma A_gets {X} now (f : executor -> X) E : triple (At now) (gets f) (fun _ => At now) E.
Proof. by apply t_gets. Qed.
Lemma A_fail {X} now err : is_build err -> triple (At now) (@fail X err) (fun _ => At now) (early now).
Proof. intros H. by apply t_fail. Qed.
Lemma A_guard now b err : is_build err -> triple (At now) (guard b err) (fun _ => At now) (early now).
Proof. intros H. by apply t_guard. Qed.

Ltac at_now now := eapply t_bind with (R := fun _ => At now); [first [apply A_modify; intros; reflexivity | apply A_gets | apply A_guard; auto with builds]|intros].

Lemma Prepare_body_errors b pe now :
  triple (At now) (Prepare_body p Is_error b pe) (fun _ => Any)
    (fun err e => early now err e \/ late (prepare_ctx p pe now) err e).
Proof.
  set (L := late (prepare_ctx p pe now)).
  unfold Prepare_body. at_now now. rename a into prepared.
  eapply t_conseq with (P' := At now) (Q' := fun _ => Any) (E' := fun err e => early now err e \/ L err e); [|done..].
  eapply t_bind with (R := fun _ => At now); [eapply t_conseq; [apply A_guard; auto with builds|done..|by left]|]. intros _.
  at_now now. eapply t_bind with (R := fun _ => At now).
  { destruct (b_ExecutorData b) as [[[r|] hd]|]; [apply A_modify; intros; reflexivity|..];
      (eapply t_conseq; [apply A_fail; auto with builds|done..|by left]). }
  intros _. eapply t_bind with (R := fun _ => At now).
  { unfold checkJob. eapply t_conseq; [|intros ? H; exact H|intros ? ? H; exact H|intros ? ? H; left; exact H].
    at_now now. apply A_guard. auto with builds. }
  intros _. eapply t_bind with (R := fun n e => n = now /\ At now e); [by apply t_gets|]. intros n. apply t_pure. intros Hn. rewrite Hn. fold L.
  eapply t_bind with (R := fun _ => At now).
  { unfold resolveProfile. destruct (pe_ResolveProfile _ _); [do 2 at_now now; by apply t_ret|].
    eapply t_conseq; [apply A_fail; destruct (String.eqb _ _); auto with builds|done..|by left]. }
  intros pr. eapply t_bind with (R := fun _ => At now).
  { unfold configureShell. at_now now. destruct (pe_PrepareBuildAndShell pe) as [err|]; [|by apply t_ret].
    destruct (as_BuildError err) eqn:Hb; (eapply t_conseq; [apply A_fail; first [by eexists|auto with builds]|done..|by left]). }
  intros _. eapply t_bind with (R := fun _ => Any).
  { eapply t_on_error with (F := fun err _ => is_build err); [eapply t_conseq; [apply B_allocate|done..]|]. intros err.
    apply t_fail_prepare_time. intros e He. destruct (prepareErr _ _ _ _) as [err' n'] eqn:HE. right. by exists err, (ex_now e). }
  intros h. eapply t_bind with (R := fun _ => Any).
  { eapply t_on_error with (F := fun err _ => is_build err); [apply B_startGuest|]. intros err. simpl.
    eapply t_bind with (R := fun _ _ => is_build err).
    - intros e He. destruct (releaseAfterFailedPrepare e) as [e' [x|x]] eqn:HR; [|done]. exfalso. revert HR. clear.
      unfold releaseAfterFailedPrepare, closeGuest, bind, gets, emit, modify, ret.
      destruct (ex_tr e); cbn; destruct (ex_hostDone e); cbn; destruct (ex_handle e); cbn; discriminate.
    - intros _. apply t_fail_prepare_time. intros e He. destruct (prepareErr _ _ _ _) as [err' n'] eqn:HE. right. by exists err, (ex_now e). }
  intros _. unfold addHostServiceEnv_M. eapply t_conseq with (P' := Any) (Q' := fun _ => Any) (E' := fun _ _ => False); [|done..].
  eapply t_bind with (R := fun _ => Any); [by apply t_modify|]. intros _. by apply t_modify.
Qed.
End Reasons.


(** The transport ends with the deadline of the Job's context. *)
Definition demo_slow : prepare_env :=
  {| pe_ctx := job_context minute millisecond; pe_late := millisecond; pe_abort := None;
     pe_ExpandValue := fun s => s; pe_ResolveProfile := fun _ => Ok demo_jobProfile; pe_PrepareBuildAndShell := None;
     pe_Allocate := Err (ESentinel ErrUnavailable); pe_allocateTook := minute;
     pe_HostLease := fun _ => Ok 2; pe_AgentLease := fun _ => Err (ENew "no agents"); pe_ReadFile := fun _ => Err (ENew "no file");
     pe_New := fun _ => Ok 3; pe_Ready := fun _ => (None, 0);
     pe_mkdir := {| sr_status := 0; sr_err := None |}; pe_mkdirTook := 0 |}.


(** ** Stages *)
Section Stages.
Variable p : provider.
Variable NormalizeExitCode : Z -> Z.

Definition stage_command (pr : Profile) (args : list string) (script : string) : Command :=
  {| cm_Path := shell pr; cm_Args := args; cm_Dir := p_BuildsDir (pr_cfg pr); cm_User := user pr; cm_Stdin := script |}.

(** A select that finds both arms ready does not matter. *)
Lemma arms_agree ctx re h stage tf r now e :
  re_fin re = Some (tf, r) -> tf <= now -> ctx_done ctx now = true ->
  result_arm NormalizeExitCode ctx re h stage r now e = cancel_arm p ctx re stage now e.
Proof.
  intros Hf Ht Hd. unfold result_arm, cancel_arm, expired. rewrite Hd, Hf.
  assert (0 < grace p) by (unfold grace; destruct (Z.leb_spec (to_GracefulKill (pv_Timeouts p)) 0); [reflexivity|done]).
  rewrite (proj2 (Z.leb_le _ _)) by lia. by rewrite Z.max_l by lia.
Qed.

(** What a Stage that ran to its end reports: the error, and whether it is
    recorded so that the Stage is not run again. *)
Definition stage_report (stage : string) (r : stageResult) (lost : option error) : option (xerror * bool) :=
  match sr_err r, lost with
  | Some err, Some l => Some (XBuild (XWrap ("stage " +:+ stage +:+ ": guest transport failed before the exit status was known") [XErr err; XErr l]) RunnerSystemFailure 0, true)
  | Some err, None => Some (XBuild (XWrap ("stage " +:+ stage +:+ ": guest transport failed before the exit status was known") [XErr err]) RunnerSystemFailure 0, true)
  | None, _ =>
      if sr_status r =? 0 then None
      else match lost with
           | Some l => if sr_status r <? 0
                       then Some (XBuild (XWrap ("stage " +:+ stage +:+ ": the guest agent reported the exit status") [XErr l]) RunnerSystemFailure 0, true)
                       else Some (XBuild (XWrap "exit status" []) ScriptFailure (NormalizeExitCode (sr_status r)), false)
           | None => Some (XBuild (XWrap "exit status" []) ScriptFailure (NormalizeExitCode (sr_status r)), false)
           end
  end.

Definition recorded (stage : string) (rep : option (xerror * bool)) (m : gmap string xerror) : gmap string xerror :=
  match rep with Some (err, true) => <[stage := err]> m | _ => m end.

(** How long Run takes to ask for the Lease of a Stage. *)
Definition check_time (re : run_env) (r : stageResult) : duration := if noExitStatus r then re_checkTook re else 0.

Lemma ended_stage h re stage r e :
  let '(e', res) := (bind (leaseLost h (re_CheckLease re) (re_checkTook re) stage r)
                       (fun lost => match lost with Some err => ret (Some err) | None => stageError NormalizeExitCode stage r end)) e in
  let rep := stage_report stage r (re_CheckLease re) in
  res = inr (fst <$> rep) /\ ex_failedStages e' = recorded stage rep (ex_failedStages e) /\ ex_now e' = ex_now e + check_time re r
  /\ (ex_trace e' = ex_trace e \/ ex_trace e' = ex_trace e ++ [EvCheckLease (h_id h)]).
Proof.
  unfold check_time, leaseLost, noExitStatus, stageError, stage_report, recordFailed, bind, emit, modify, ret.
  destruct (sr_err r) as [err|] eqn:He; simpl.
  - destruct (re_CheckLease re); simpl; split_and!; try done; by right.
  - destruct (Z.ltb_spec (sr_status r) 0); simpl.
    + rewrite (proj2 (Z.eqb_neq _ _)) by lia. destruct (re_CheckLease re); simpl; (split_and!; try done; by right).
    + destruct (sr_status r =? 0); [split_and!; try done; [simpl; lia|by left]|]. destruct (re_CheckLease re); (split_and!; try done; [simpl; lia|by left]).
Qed.

(** The two ways a Stage ends. *)
Definition by_context (ctx : context) (e e' : executor) (res : option xerror) : Prop :=
  exists en, cx_end ctx = Some en /\ en_at en <= ex_now e' /\ res = Some (stageCancelled ctx) /\ ex_failedStages e' = ex_failedStages e.
Definition by_itself (ctx : context) (re : run_env) (stage : string) (e e' : executor) (res : option xerror) : Prop :=
  exists tf r, re_fin re = Some (tf, r) /\ (forall en, cx_end ctx = Some en -> ex_now e' - check_time re r < en_at en)
    /\ let rep := stage_report stage r (re_CheckLease re) in
       res = fst <$> rep /\ ex_failedStages e' = recorded stage rep (ex_failedStages e).

Lemma expired_spec ctx now b now' : expired ctx now = (b, now') ->
  now <= now' /\ (now' <= now + expiryWait)
  /\ (if b then exists en, cx_end ctx = Some en /\ en_at en <= now' /\ now' <= Z.max now (en_at en)
      else forall en, cx_end ctx = Some en -> now' < en_at en).
Proof.
  unfold expired, ctx_done, ended_by. destruct (cx_end ctx) as [en|] eqn:He; simpl.
  - destruct (Z.leb_spec (en_at en) now).
    + intros [= <- <-]. split_and!; [lia|unfold expiryWait, second; lia|]. exists en. split_and!; [done|lia..].
    + destruct (cx_deadline ctx) as [d|]; [destruct (time_Before now d)|].
      * intros [= <- <-]. split_and!; [lia|unfold expiryWait, second; lia|]. by intros ? [= <-].
      * destruct (Z.leb_spec (en_at en) (now + expiryWait)); intros [= <- <-]; (split_and!; [unfold expiryWait, second in *; lia..|]).
        -- exists en. split_and!; [done|lia..].
        -- by intros ? [= <-].
      * intros [= <- <-]. split_and!; [lia|unfold expiryWait, second; lia|]. by intros ? [= <-].
  - destruct (cx_deadline ctx) as [d|]; [destruct (time_Before now d)|]; intros [= <- <-]; (split_and!; [unfold expiryWait, second; lia..|done]).
Qed.

Lemma grace_pos : 0 < grace p.
Proof. unfold grace. by destruct (Z.leb_spec (to_GracefulKill (pv_Timeouts p)) 0). Qed.

Lemma cancel_arm_spec ctx re stage now e :
  let '(e', res) := cancel_arm p ctx re stage now e in
  res = inr (Some (stageCancelled ctx)) /\ ex_failedStages e' = ex_failedStages e /\ ex_trace e' = ex_trace e
  /\ now <= ex_now e' <= now + grace p.
Proof.
  pose proof grace_pos. unfold cancel_arm, set_now, printf, bind, modify, ret.
  destruct (re_fin re) as [[tf r]|]; [destruct (Z.leb_spec tf (now + grace p))|]; cbn [ex_now ex_failedStages ex_trace set_field fst snd];
    (repeat split; cbn; lia).
Qed.

Lemma result_arm_spec ctx re h stage tf r now e : re_fin re = Some (tf, r) ->
  let '(e', res) := result_arm NormalizeExitCode ctx re h stage r now e in
  exists res', res = inr res' /\ (by_context ctx e e' res' \/ by_itself ctx re stage e e' res')
  /\ (ex_trace e' = ex_trace e \/ ex_trace e' = ex_trace e ++ [EvCheckLease (h_id h)])
  /\ (forall en, cx_end ctx = Some en -> ex_now e' <= Z.max now (en_at en) \/ (noExitStatus r = true /\ ex_now e' < en_at en + re_checkTook re)).
Proof.
  intros Hf. unfold result_arm. destruct (expired ctx now) as [b now'] eqn:HX. apply expired_spec in HX as (X1 & X2 & X3).
  unfold bind at 1, set_now, modify. set (e1 := e <| ex_now := now' |>).
  destruct b; simpl.
  - destruct X3 as (en & HE & Hle & Hub). eexists. split; [reflexivity|]. split_and!; [|by left|]. { left. exists en. done. }
    intros en' HE'. rewrite HE in HE'. injection HE' as <-. by left.
  - pose proof (ended_stage h re stage r e1) as HS. destruct (bind _ _ e1) as [e' res].
    destruct HS as (-> & S2 & S3 & S4). eexists. split; [reflexivity|]. rewrite S3.
    split_and!; [|by destruct S4; [left|right]|intros en HE; apply X3 in HE; unfold check_time; destruct (noExitStatus r); [right; split; [done|cbn; lia]|left; cbn; lia]].
    right. exists tf, r. split; [done|]. split; [intros en HE; rewrite S3; apply X3 in HE; cbn; lia|]. split; [done|]. by rewrite S2.
Qed.

Lemma ended_by_end ctx t en : ended_by ctx t = Some en -> cx_end ctx = Some en /\ en_at en <= t.
Proof. unfold ended_by. destruct (cx_end ctx) as [x|]; [|done]. destruct (Z.leb_spec (en_at x) t); [|done]. by intros [= <-]. Qed.

(** Run on a Stage that may run: which arm, at what time. *)
Definition started (t : Z) (stage : string) (c : Command) (e : executor) : executor :=
  e <| ex_trace := ex_trace e ++ [EvRun t (Some stage) c] |>.
Definition chosen (ctx : context) (re : run_env) (h : Handle) (stage : string) (now : time) : M (option xerror) :=
  match re_fin re with
  | Some (tf, r) => if (tf <=? now) && (negb (ctx_done ctx now) || re_pick re) then result_arm NormalizeExitCode ctx re h stage r now else cancel_arm p ctx re stage now
  | None => cancel_arm p ctx re stage now
  end.

(** Run returns within the graceful kill timeout after the context ended; only
    where the Stage had ended before that, without an exit status, and the
    question whether its Lease is lost was out, it returns with the answer. *)
Definition stops_in_time (re : run_env) (en : ending) (start : time) (e' : executor) : Prop :=
  ex_now e' <= Z.max start (en_at en) + re_wake re + grace p
  \/ exists tf r, re_fin re = Some (tf, r) /\ noExitStatus r = true /\ ex_now e' < en_at en + re_checkTook re.

Lemma chosen_spec ctx re h stage now start e : 0 <= re_wake re -> select_at ctx re start = Some now ->
  let '(e', res) := chosen ctx re h stage now e in
  exists res', res = inr res' /\ (by_context ctx e e' res' \/ by_itself ctx re stage e e' res')
  /\ (ex_trace e' = ex_trace e \/ ex_trace e' = ex_trace e ++ [EvCheckLease (h_id h)])
  /\ (forall en, cx_end ctx = Some en -> stops_in_time re en start e').
Proof.
  intros Hw Hsel. pose proof grace_pos as Hg. unfold chosen.
  assert (HC : (exists en, cx_end ctx = Some en /\ en_at en <= now /\ now <= Z.max start (en_at en) + re_wake re) ->
    let '(e', res) := cancel_arm p ctx re stage now e in
    exists res', res = inr res' /\ (by_context ctx e e' res' \/ by_itself ctx re stage e e' res')
    /\ (ex_trace e' = ex_trace e \/ ex_trace e' = ex_trace e ++ [EvCheckLease (h_id h)])
    /\ (forall en, cx_end ctx = Some en -> stops_in_time re en start e')).
  { intros (en & HE & Hle & Hub). pose proof (cancel_arm_spec ctx re stage now e) as HS. destruct (cancel_arm _ _ _ _ _ e) as [e' res].
    destruct HS as (-> & S2 & S3 & S4). eexists. split; [reflexivity|]. split_and!; [|by left|].
    - left. exists en. split_and!; try done. lia.
    - intros en'. rewrite HE. intros [= <-]. left. lia. }
  unfold select_at in Hsel. destruct (re_fin re) as [[tf r]|] eqn:Hf.
  - destruct (Z.leb_spec tf now) as [Htf|Htf]; simpl.
    + destruct (negb (ctx_done ctx now) || re_pick re) eqn:Hpick.
      * pose proof (result_arm_spec ctx re h stage tf r now e Hf) as HS.
        assert (Hend : forall en, cx_end ctx = Some en -> now <= Z.max start (en_at en) + re_wake re).
        { intros en HE. rewrite HE in Hsel. injection Hsel as <-. lia. }
        destruct (result_arm _ _ _ _ _ _ _ e) as [e' res]. destruct HS as (res' & -> & S1 & S2 & S4). exists res'. split_and!; try done.
        intros en HE. specialize (Hend en HE). destruct (S4 en HE) as [S5|S5]; [left; lia|right; eauto].
      * apply HC. apply orb_false_iff in Hpick as [Hd _]. apply negb_false_iff in Hd. unfold ctx_done in Hd.
        destruct (ended_by ctx now) as [en|] eqn:Hen; [|done]. apply ended_by_end in Hen as [HE Hle]. exists en. split_and!; try done.
        rewrite HE in Hsel. injection Hsel as <-. lia.
    + apply HC. destruct (cx_end ctx) as [en|]; injection Hsel as <-; [|lia]. exists en. split_and!; [done|lia..].
  - apply HC. destruct (cx_end ctx) as [en|]; [|done]. injection Hsel as <-. exists en. split_and!; [done|lia..].
Qed.

Lemma Run_chosen re args stage script e t h pr :
  ex_tr e = Some t -> ex_handle e = Some h -> ex_profile e = Some pr -> ex_failedStages e !! stage = None ->
  Run p NormalizeExitCode re args stage script e =
    match select_at (stage_ctx re) re (ex_now e) with
    | None => None
    | Some now => match chosen (stage_ctx re) re h stage now (started t stage (stage_command pr args script) e) with
                  | (e, inr res) => Some (e, res) | (e, inl err) => Some (e, Some err) end
    end.
Proof. intros Ht Hh Hp Hs. unfold Run. rewrite Ht, Hh, Hp, Hs. unfold runStage. by destruct (select_at _ _ _). Qed.

Lemma stage_ctx_cause re : let ctx := stage_ctx re in
  cx_end ctx = cx_end (re_ctx re) \/ reason_of (stageCancelled ctx) = Some RunnerSystemFailure.
Proof.
  cbv zeta. destruct (cx_end (stage_ctx re)) as [en|] eqn:HE.
  - unfold stageCancelled, ctx_cause. rewrite HE. unfold stage_ctx, with_cancel in HE. simpl in HE.
    apply first_ending_at in HE as [[HE|HE]%first_ending_at|HE].
    + left. by rewrite HE.
    + right. destruct (re_handleDone re) as [[th eh]|]; [|done]. by injection HE as <-.
    + right. destruct (re_abort re) as [ta|]; [|done]. by injection HE as <-.
  - left. unfold stage_ctx, with_cancel in HE. simpl in HE. destruct (cx_end (re_ctx re)) as [x|]; [|done]. exfalso. revert HE.
    unfold first_ending. repeat (case_match; simplify_eq; try done).
Qed.

Definition with_pick (pick : bool) (re : run_env) : run_env :=
  {| re_ctx := re_ctx re; re_handleDone := re_handleDone re; re_abort := re_abort re; re_fin := re_fin re;
     re_wake := re_wake re; re_pick := pick; re_CheckLease := re_CheckLease re; re_checkTook := re_checkTook re |}.

Lemma chosen_pick pick ctx re h stage now e : chosen ctx (with_pick pick re) h stage now e = chosen ctx re h stage now e.
Proof.
  unfold chosen. change (re_fin (with_pick pick re)) with (re_fin re).
  change (cancel_arm p ctx (with_pick pick re) stage now) with (cancel_arm p ctx re stage now).
  destruct (re_fin re) as [[tf r]|] eqn:Hf; [|done]. change (re_pick (with_pick pick re)) with pick.
  change (result_arm NormalizeExitCode ctx (with_pick pick re) h stage r now) with (result_arm NormalizeExitCode ctx re h stage r now).
  destruct (Z.leb_spec tf now); [|done]. destruct (ctx_done ctx now) eqn:Hd; [|done].
  pose proof (arms_agree ctx re h stage tf r now e Hf ltac:(done) Hd). by destruct pick, (re_pick re).
Qed.

Lemma Run_ends re args stage script e e' res t h pr :
  ex_tr e = Some t -> ex_handle e = Some h -> ex_profile e = Some pr -> ex_failedStages e !! stage = None -> 0 <= re_wake re ->
  Run p NormalizeExitCode re args stage script e = Some (e', res) ->
  by_context (stage_ctx re) (started t stage (stage_command pr args script) e) e' res
  \/ by_itself (stage_ctx re) re stage (started t stage (stage_command pr args script) e) e' res.
Proof.
  intros Ht Hh Hp Hs Hw HR. rewrite (Run_chosen _ _ _ _ _ t h pr) in HR by done.
  destruct (select_at (stage_ctx re) re (ex_now e)) as [now|] eqn:Hsel; [|done].
  pose proof (chosen_spec (stage_ctx re) re h stage now (ex_now e) (started t stage (stage_command pr args script) e) Hw Hsel) as HC.
  destruct (chosen _ _ _ _ _ _) as [e1 res1]. destruct HC as (res' & -> & H1 & _). by injection HR as -> ->.
Qed.

(** C22: how a Stage ends.  The executor sends the script once, to the
    Profile's shell, in the builds directory, as the Profile's user.  Either
    the context of the Stage has ended, and Run returns its cause (for a
    Handle that is done and for an abort a runner_system_failure), or the
    Stage ended before its context did: exit status 0 is success, another
    exit status is a script_failure with that code, and an end without an
    exit status is a runner_system_failure that is recorded, unless it is a
    killed command whose Lease is still held.  Which arm of the select ran
    when both were ready makes no difference. *)
Theorem Run_outcome re args stage script e e' res t h pr :
  ex_tr e = Some t -> ex_handle e = Some h -> ex_profile e = Some pr -> ex_failedStages e !! stage = None -> 0 <= re_wake re ->
  Run p NormalizeExitCode re args stage script e = Some (e', res) ->
  let ctx := stage_ctx re in
  (by_context ctx e e' res \/ by_itself ctx re stage e e' res)
  /\ (cx_end ctx = cx_end (re_ctx re) \/ reason_of (stageCancelled ctx) = Some RunnerSystemFailure)
  /\ (exists rest, ex_trace e' = ex_trace e ++ EvRun t (Some stage) (stage_command pr args script) :: rest /\ (rest = [] \/ rest = [EvCheckLease (h_id h)]))
  /\ (forall pick, Run p NormalizeExitCode (with_pick pick re) args stage script e = Some (e', res)).
Proof.
  intros Ht Hh Hp Hs Hw HR. rewrite (Run_chosen _ _ _ _ _ t h pr) in HR by done.
  destruct (select_at (stage_ctx re) re (ex_now e)) as [now|] eqn:Hsel; [|done].
  pose proof (chosen_spec (stage_ctx re) re h stage now (ex_now e) (started t stage (stage_command pr args script) e) Hw Hsel) as HC.
  destruct (chosen _ _ _ _ _ _) as [e1 res1] eqn:HCe. destruct HC as (res' & -> & H1 & H2 & _). injection HR as -> ->.
  split_and!.
  - exact H1.
  - apply stage_ctx_cause.
  - destruct H2 as [H2|H2]; rewrite H2; simpl; [exists []|exists [EvCheckLease (h_id h)]]; rewrite <-?app_assoc; auto.
  - intros pick. rewrite (Run_chosen _ _ _ _ _ t h pr) by done. change (stage_ctx (with_pick pick re)) with (stage_ctx re).
    change (select_at (stage_ctx re) (with_pick pick re)) with (select_at (stage_ctx re) re). by rewrite Hsel, chosen_pick, HCe.
Qed.
End Stages.

Lemma Run_outcome_witness : exists e e' res,
  do_calls demo_provider demo_Is (fun z => z) [CPrepare demo_build demo_prepare] (Create 0 []) = Some e
  /\ Run demo_provider (fun z => z) (demo_runStage {| sr_status := 2; sr_err := None |}) [] "build_script" "make" e = Some (e', res)
  /\ reason_of <$> res = Some (Some ScriptFailure)
  /\ exists rest, ex_trace e' = ex_trace e ++ EvRun 3 (Some "build_script") (stage_command demo_jobProfile [] "make") :: rest.
Proof.
  set (e := default (Create 0 []) (do_calls demo_provider demo_Is (fun z => z) [CPrepare demo_build demo_prepare] (Create 0 []))).
  set (re := demo_runStage {| sr_status := 2; sr_err := None |}).
  set (r := Run demo_provider (fun z => z) re [] "build_script" "make" e).
  assert (HD : do_calls demo_provider demo_Is (fun z => z) [CPrepare demo_build demo_prepare] (Create 0 []) = Some e) by (vm_compute; reflexivity).
  assert (Hr : match r with Some (_, res) => reason_of <$> res = Some (Some ScriptFailure) | None => False end) by (vm_compute; reflexivity).
  assert (HR : Run demo_provider (fun z => z) re [] "build_script" "make" e = r) by reflexivity.
  assert (Ht : ex_tr e = Some 3) by (vm_compute; reflexivity).
  assert (Hh : ex_handle e = Some {| h_id := 1; h_alloc := demo_allocation |}) by (vm_compute; reflexivity).
  assert (Hp : ex_profile e = Some demo_jobProfile) by (vm_compute; reflexivity).
  assert (Hs : ex_failedStages e !! "build_script" = None) by (vm_compute; reflexivity).
  clearbody e r. destruct r as [[e' res]|]; [|done]. exists e, e', res.
  destruct (Run_outcome demo_provider (fun z => z) re [] "build_script" "make" e e' res 3 {| h_id := 1; h_alloc := demo_allocation |} demo_jobProfile
    Ht Hh Hp Hs ltac:(vm_compute; discriminate) HR) as (_ & _ & (rest & Hrest & _) & _).
  split; [done|]. split; [done|]. split; [done|]. by exists rest.
Defined.

(** C25: a cancelled Stage stops.  Once the Stage's context ends (the Job is
    cancelled or out of time, the Handle is done, the Runner aborts), Run
    returns within the graceful kill timeout of that, even if the transport
    never does; or, if the Stage had ended by then without an exit status and
    Run was asking the Scheduler whether its Lease is lost, a call made with
    the Job's context and not the Stage's, when that call returns. *)
Theorem Run_stops p NormalizeExitCode re args stage script e t h pr en :
  ex_tr e = Some t -> ex_handle e = Some h -> ex_profile e = Some pr -> ex_failedStages e !! stage = None -> 0 <= re_wake re ->
  cx_end (stage_ctx re) = Some en ->
  exists e' res, Run p NormalizeExitCode re args stage script e = Some (e', res)
    /\ stops_in_time p re en (ex_now e) e'.
Proof.
  intros Ht Hh Hp Hs Hw HE. rewrite (Run_chosen _ _ _ _ _ _ _ t h pr) by done.
  destruct (select_at (stage_ctx re) re (ex_now e)) as [now|] eqn:Hsel.
  - pose proof (chosen_spec p NormalizeExitCode (stage_ctx re) re h stage now (ex_now e) (started t stage (stage_command pr args script) e) Hw Hsel) as HC.
    destruct (chosen _ _ _ _ _ _ _ _) as [e' res]. destruct HC as (res' & -> & _ & _ & HB). exists e', res'. split; [done|]. by apply HB.
  - exfalso. unfold select_at in Hsel. rewrite HE in Hsel. by destruct (re_fin re) as [[]|].
Qed.

Lemma Run_stops_witness : exists e,
  do_calls demo_provider demo_Is (fun z => z) [CPrepare demo_build demo_prepare] (Create 0 []) = Some e /\
  exists e' res, Run demo_provider (fun z => z) {| re_ctx := job_context minute millisecond; re_handleDone := None; re_abort := Some (5 * second);
                    re_fin := None; re_wake := 0; re_pick := false; re_CheckLease := None; re_checkTook := 0 |} [] "build_script" "sleep 1d" e = Some (e', res)
    /\ ex_now e' <= 15 * second.
Proof.
  set (e := default (Create 0 []) (do_calls demo_provider demo_Is (fun z => z) [CPrepare demo_build demo_prepare] (Create 0 []))).
  assert (HD : do_calls demo_provider demo_Is (fun z => z) [CPrepare demo_build demo_prepare] (Create 0 []) = Some e) by (vm_compute; reflexivity).
  assert (Ht : ex_tr e = Some 3) by (vm_compute; reflexivity).
  assert (Hh : ex_handle e = Some {| h_id := 1; h_alloc := demo_allocation |}) by (vm_compute; reflexivity).
  assert (Hp : ex_profile e = Some demo_jobProfile) by (vm_compute; reflexivity).
  assert (Hs : ex_failedStages e !! "build_script" = None) by (vm_compute; reflexivity).
  assert (Hn : ex_now e <= 2 * second) by (vm_compute; discriminate).
  clearbody e. exists e. split; [done|].
  destruct (Run_stops demo_provider (fun z => z) {| re_ctx := job_context minute millisecond; re_handleDone := None; re_abort := Some (5 * second);
    re_fin := None; re_wake := 0; re_pick := false; re_CheckLease := None; re_checkTook := 0 |} [] "build_script" "sleep 1d" e 3 _ demo_jobProfile
    (canceled_at (5 * second) (XBuild (XErr (ESentinel ExecErrAborted)) RunnerSystemFailure 0)) Ht Hh Hp Hs ltac:(simpl; lia) eq_refl) as (e' & res & HR & HB).
  exists e', res. split; [exact HR|]. destruct HB as [HB|(tf & r & Hf & _)]; [|discriminate Hf]. unfold second in *. cbn in HB. change (grace demo_provider) with 10000000000 in HB. lia.
Defined.

(** ** A failed Stage is not run again *)
Section Rerun.
Variable p : provider.
Variable Is_error : xerror -> xerror -> bool.
Variable NormalizeExitCode : Z -> Z.
Variable stage : string.

Definition is_stage_run (v : event) : bool := match v with EvRun _ (Some s) _ => String.eqb s stage | _ => false end.

(** From [e] to [e']: the failure is remembered and the Stage not sent. *)
Definition quiet (e e' : executor) : Prop :=
  ex_prepared e' = ex_prepared e /\ ex_failedStages e' !! stage = ex_failedStages e !! stage
  /\ exists new, ex_trace e' = ex_trace e ++ new /\ Forall (fun v => is_stage_run v = false) new.

Lemma silent_refl e e' : view e' = view e -> ex_failedStages e' = ex_failedStages e -> quiet e e'.
Proof. unfold view, quiet. intros [= Hp _ _ _ Ht] ->. split_and!; try done. exists []. by rewrite app_nil_r. Qed.
Lemma quiet_trans e1 e2 e3 : quiet e1 e2 -> quiet e2 e3 -> quiet e1 e3.
Proof.
  intros (H1 & H2 & n1 & H3 & H4) (H5 & H6 & n2 & H7 & H8). unfold quiet. split_and!; [congruence..|]. exists (n1 ++ n2).
  rewrite H7, H3, app_assoc. split; [done|]. by apply Forall_app.
Qed.

Lemma Cleanup_quiet e : quiet e (Cleanup p e).
Proof.
  unfold Cleanup, closeGuest, bind, gets, emit, modify, ret.
  destruct (ex_tr e) eqn:?, (ex_hostDone e) eqn:?, (ex_handle e) eqn:?; cbn;
    repeat (rewrite ?Heqo, ?Heqo0, ?Heqo1; cbn); split_and!; try done; cbn;
    rewrite <-?app_assoc; eexists; (split; [first [reflexivity | by rewrite app_nil_r]|]); cbn; repeat constructor; by destruct (_ && _).
Qed.

Lemma q_modify e0 f E : (forall e, quiet e (f e)) -> triple (quiet e0) (modify f) (fun _ => quiet e0) E.
Proof. intros H. apply t_modify. intros e He. by eapply quiet_trans. Qed.
Lemma q_silent e0 f E : (forall e, view (f e) = view e /\ ex_failedStages (f e) = ex_failedStages e) -> triple (quiet e0) (modify f) (fun _ => quiet e0) E.
Proof. intros H. apply q_modify. intros e. apply silent_refl; apply H. Qed.
Lemma q_emit e0 v E : is_stage_run v = false -> triple (quiet e0) (emit v) (fun _ => quiet e0) E.
Proof. intros H. apply q_modify. intros e. unfold quiet. split_and!; try done. exists [v]. split; [done|by constructor]. Qed.
Lemma q_record e0 s err E : s <> stage -> triple (quiet e0) (recordFailed s err) (fun _ => quiet e0) E.
Proof.
  intros H. apply q_modify. intros e. unfold quiet. cbn [set_field ex_failedStages ex_prepared ex_trace]. split_and!; try done.
  - by apply lookup_insert_ne.
  - exists []. by rewrite app_nil_r.
Qed.

Lemma q_result_arm e0 ctx re h s r now E : s <> stage ->
  triple (quiet e0) (result_arm NormalizeExitCode ctx re h s r now) (fun _ => quiet e0) E.
Proof.
  intros Hs. unfold result_arm. destruct (expired ctx now) as [b now'].
  eapply t_bind with (R := fun _ => quiet e0); [by apply q_silent|]. intros _. destruct b; [by apply t_ret|].
  eapply t_bind with (R := fun _ => quiet e0).
  - unfold leaseLost. destruct (negb _); [by apply t_ret|]. eapply t_bind with (R := fun _ => quiet e0); [by apply q_emit|]. intros _.
    eapply t_bind with (R := fun _ => quiet e0); [by apply q_silent|]. intros _.
    destruct (re_CheckLease re); [|by apply t_ret]. eapply t_bind with (R := fun _ => quiet e0); [by apply q_record|]. intros _. by apply t_ret.
  - intros [err|]; [by apply t_ret|]. unfold stageError. destruct (sr_err r); [|by destruct (_ =? _); apply t_ret].
    eapply t_bind with (R := fun _ => quiet e0); [by apply q_record|]. intros _. by apply t_ret.
Qed.

Lemma q_cancel_arm e0 ctx re s now E : triple (quiet e0) (cancel_arm p ctx re s now) (fun _ => quiet e0) E.
Proof.
  unfold cancel_arm. destruct (re_fin re) as [[tf r]|]; [destruct (_ <=? _)|];
    repeat (eapply t_bind with (R := fun _ => quiet e0); [by apply q_silent|]; intros _); by apply t_ret.
Qed.

Lemma Run_quiet re args s script e e' res : is_Some (ex_failedStages e !! stage) ->
  Run p NormalizeExitCode re args s script e = Some (e', res) -> quiet e e'.
Proof.
  intros [err Hf] HR. assert (HQ : quiet e e) by (by apply silent_refl).
  revert HR. unfold Run. destruct (ex_tr e) as [t|]; [|by intros [= <- _]]. destruct (ex_handle e) as [h|]; [|by intros [= <- _]].
  destruct (ex_profile e) as [pr|]; [|by intros [= <- _]]. destruct (ex_failedStages e !! s) eqn:Hs; [by intros [= <- _]|].
  assert (Hne : s <> stage) by congruence.
  unfold runStage. destruct (select_at _ _ _) as [now|]; [|done]. match goal with |- context [bind ?m ?k e] =>
    assert (HT : triple (quiet e) (bind m k) (fun _ => quiet e) (fun _ => quiet e)) end.
  { eapply t_bind with (R := fun _ => quiet e); [apply q_emit; simpl; by apply String.eqb_neq|]. intros _.
    destruct (re_fin re) as [[tf r]|]; [destruct (_ && _)|]; first [by apply q_result_arm | apply q_cancel_arm]. }
  specialize (HT e HQ). destruct (bind _ _ e) as [e1 [x|x]]; intros [= <- _]; done.
Qed.

(** Only a prepared executor has failed Stages. *)
Definition remembers (e : executor) : Prop := ex_prepared e = false -> ex_failedStages e = ∅.

Lemma do_call_quiet c e e' : ex_prepared e = true -> is_Some (ex_failedStages e !! stage) ->
  do_call p Is_error NormalizeExitCode c e = Some e' -> quiet e e'.
Proof.
  intros Hp Hf. destruct c as [b pe|re args s script|err|]; simpl.
  - intros [= <-]. unfold Prepare, Prepare_body, bind at 1, gets. unfold bind at 1, guard.
    replace (ex_prepared (log LSectionStart e)) with (ex_prepared e) by reflexivity. rewrite Hp. simpl. by apply silent_refl.
  - destruct (Run _ _ _ _ _ _ _) as [[e1 res]|] eqn:HR; [|done]. intros [= <-]. by eapply Run_quiet.
  - intros [= <-]. apply silent_refl; [apply Finish_view|]. unfold Finish. destruct (ex_handle _); [|done]. by destruct (_ && _).
  - intros [= <-]. apply Cleanup_quiet.
Qed.

Lemma do_calls_quiet cs e e' : ex_prepared e = true -> is_Some (ex_failedStages e !! stage) ->
  do_calls p Is_error NormalizeExitCode cs e = Some e' -> quiet e e'.
Proof.
  revert e. induction cs as [|c cs IH]; intros e Hp Hf; simpl; [intros [= <-]; by apply silent_refl|].
  destruct (do_call p Is_error NormalizeExitCode c e) as [e1|] eqn:Hc; [|done]. simpl. intros HR.
  pose proof (do_call_quiet c e e1 Hp Hf Hc) as HQ. eapply quiet_trans; [exact HQ|]. destruct HQ as (Q1 & Q2 & _).
  apply IH; [congruence|by rewrite Q2|done].
Qed.

Lemma do_call_remembers c e e' : Settled e -> remembers e -> do_call p Is_error NormalizeExitCode c e = Some e' -> remembers e'.
Proof.
  intros HS HR Hc Hp'. destruct c as [b pe|re args s script|err|]; simpl in Hc.
  - injection Hc as <-. exfalso. pose proof (Prepare_settles p Is_error b pe e HS) as HP. unfold Prepare in *.
    destruct (ex_prepared e) eqn:Hp.
    + revert Hp'. unfold Prepare_body, bind at 1, gets. unfold bind at 1, guard.
      replace (ex_prepared (log LSectionStart e)) with (ex_prepared e) by reflexivity. rewrite Hp. simpl. congruence.
    + assert (HF : Fresh (log LSectionStart e)).
      { destruct HS as [He|[[He|He]|(h & d & t & He)]]; [exact He|..]; destruct He as (? & _); congruence. }
      pose proof (t_Prepare_body p Is_error b pe _ HF) as HT. destruct (Prepare_body _ _ _ _ _) as [e1 [x|x]]; simpl in Hp'.
      * destruct HT as [HT|HT]; destruct HT as (H1 & _); cbn in Hp'; congruence.
      * destruct HT as (h & d & t & (H1 & _)). cbn in Hp'; congruence.
  - destruct (Run _ _ _ _ _ _ _) as [[e1 res]|] eqn:Hrun; [|done]. injection Hc as <-. destruct (Run_keeps _ _ _ _ _ _ _ _ _ Hrun) as [->|Hk]; [by apply HR|].
    destruct HS as [He|[He|(h & d & t & He)]].
    + unfold Run in Hrun. destruct He as (? & ? & ? & Ht & ?). rewrite Ht in Hrun. injection Hrun as <- _. by apply HR.
    + unfold Run in Hrun. assert (Ht : ex_tr e = None) by (destruct He as [(_ & _ & _ & ? & _)|(_ & _ & _ & ? & _)]; done).
      rewrite Ht in Hrun. injection Hrun as <- _. by apply HR.
    + apply Hk in He. destruct He as (H1 & _). congruence.
  - injection Hc as <-. pose proof (Finish_view p err e) as HV. injection HV as Hv _ _ _ _. unfold remembers in HR.
    assert (ex_failedStages (Finish p err e) = ex_failedStages e) as ->; [|apply HR; congruence].
    unfold Finish. destruct (ex_handle _); [|done]. by destruct (_ && _).
  - injection Hc as <-. revert Hp'. unfold Cleanup, closeGuest, bind, gets, emit, modify, ret.
    destruct (ex_tr e) eqn:?, (ex_hostDone e) eqn:?, (ex_handle e) eqn:?; cbn; repeat (rewrite ?Heqo, ?Heqo0, ?Heqo1; cbn); exact HR.
Qed.

Lemma do_calls_remembers cs e e' : Settled e -> remembers e -> do_calls p Is_error NormalizeExitCode cs e = Some e' -> remembers e'.
Proof.
  revert e. induction cs as [|c cs IH]; intros e HS HR; simpl; [by intros [= <-]|].
  destruct (do_call p Is_error NormalizeExitCode c e) as [e1|] eqn:Hc; [|done]. simpl. apply IH; [by eapply do_call_settles|by eapply do_call_remembers].
Qed.

(** A Stage that ended with its exit status unknown is never run again.
    In any history of calls, once the failure of a Stage is recorded, no
    later call sends that Stage to the guest, whatever is called, and a Run
    of it does nothing and returns an error. *)
Theorem failed_stage_never_rerun now vars cs e err cs' e' :
  do_calls p Is_error NormalizeExitCode cs (Create now vars) = Some e -> ex_failedStages e !! stage = Some err ->
  do_calls p Is_error NormalizeExitCode cs' e = Some e' ->
  (exists new, ex_trace e' = ex_trace e ++ new /\ forall t c, EvRun t (Some stage) c ∉ new)
  /\ forall re args script, exists err', Run p NormalizeExitCode re args stage script e' = Some (e', Some err').
Proof.
  intros H1 Hf H2.
  assert (Hp : ex_prepared e = true).
  { destruct (ex_prepared e) eqn:Hp; [done|]. assert (Hrem : remembers e).
    { apply (do_calls_remembers cs (Create now vars)); [left; by repeat split|done|done]. }
    rewrite (Hrem Hp) in Hf. done. }
  destruct (do_calls_quiet cs' e e' Hp ltac:(by exists err) H2) as (_ & Q2 & new & Q3 & Q4). split.
  - exists new. split; [done|]. intros t c Hin. rewrite Forall_forall in Q4. apply Q4 in Hin. simpl in Hin. by rewrite String.eqb_refl in Hin.
  - intros re args script. unfold Run. rewrite Q2, Hf. repeat case_match; eauto.
Qed.
End Rerun.

Lemma failed_stage_never_rerun_witness : exists e e',
  let broken := CRun (demo_runStage {| sr_status := 0; sr_err := Some (ESentinel ErrStreamFailed) |}) [] "get_sources" "git fetch" in
  do_calls demo_provider demo_Is (fun z => z) [CPrepare demo_build demo_prepare; broken] (Create 0 []) = Some e
  /\ do_calls demo_provider demo_Is (fun z => z) [broken; CFinish None; CCleanup] e = Some e'
  /\ exists new, ex_trace e' = ex_trace e ++ new /\ forall t c, EvRun t (Some "get_sources") c ∉ new.
Proof.
  set (broken := CRun (demo_runStage {| sr_status := 0; sr_err := Some (ESentinel ErrStreamFailed) |}) [] "get_sources" "git fetch").
  set (e := default (Create 0 []) (do_calls demo_provider demo_Is (fun z => z) [CPrepare demo_build demo_prepare; broken] (Create 0 []))).
  set (e' := default (Create 0 []) (do_calls demo_provider demo_Is (fun z => z) [broken; CFinish None; CCleanup] e)).
  assert (H1 : do_calls demo_provider demo_Is (fun z => z) [CPrepare demo_build demo_prepare; broken] (Create 0 []) = Some e) by (vm_compute; reflexivity).
  assert (H2 : do_calls demo_provider demo_Is (fun z => z) [broken; CFinish None; CCleanup] e = Some e') by (vm_compute; reflexivity).
  assert (Hf : is_Some (ex_failedStages e !! "get_sources")) by (vm_compute; eauto).
  clearbody e e'. destruct Hf as [err Hf]. exists e, e'. split; [done|]. split; [done|].
  apply (failed_stage_never_rerun demo_provider demo_Is (fun z => z) "get_sources" 0 [] _ e err _ e' H1 Hf H2).
Defined.

(** ** The wait for the guest *)
Lemma waitReady_loop_total ctx Ready t (d : duration) en fuel i e :
  cx_end ctx = Some en -> (forall i, 0 <= (Ready i).2 <= d) -> en_at en - ex_now e <= Z.of_nat fuel * readyPollInterval ->
  let '(e', res) := waitReady_loop ctx Ready t (S fuel) i e in
  exists last, res = inr (Some last) /\ ex_now e' <= Z.max (ex_now e) (en_at en) + d /\ (last = None -> exists j, (Ready j).1 = None).
Proof.
  intros HE HR. revert i e. induction fuel as [|fuel IH]; intros i e Hn.
  - simpl. unfold bind, emit, sleep, modify, gets, ret. pose proof (HR i). destruct (Ready i) as [[last|] took] eqn:Hi; cbn in *.
    + unfold ctx_done, ended_by. rewrite HE. rewrite (proj2 (Z.leb_le _ _)) by lia. cbn. eexists. split_and!; [reflexivity|lia|done].
    + eexists. split_and!; [reflexivity|lia|]. intros _. exists i. by rewrite Hi.
  - remember (S fuel) as fuel1 eqn:Hfuel. simpl. unfold bind at 1, emit, sleep, modify, bind at 1. pose proof (HR i).
    destruct (Ready i) as [[last|] took] eqn:Hi; cbn [fst snd].
    2:{ eexists. split_and!; [reflexivity|cbn; cbn in *; lia|]. intros _. exists i. by rewrite Hi. }
    unfold bind at 1, gets. cbn in H. set (e1 := e <| ex_trace := _ |> <| ex_now := _ |>).
    assert (Hn1 : ex_now e1 = ex_now e + took) by reflexivity.
    destruct (ctx_done ctx (ex_now e1)) eqn:Hd.
    { eexists. split_and!; [reflexivity|lia|done]. }
    rewrite HE. assert (Hlt : ex_now e1 < en_at en).
    { unfold ctx_done, ended_by in Hd. rewrite HE in Hd. by destruct (Z.leb_spec (en_at en) (ex_now e1)). }
    set (wake := Z.min (ex_now e1 + readyPollInterval) (en_at en)). unfold bind at 1. cbn [fst snd].
    set (e2 := e1 <| ex_now := _ |>). assert (Hn2 : ex_now e2 = wake) by (unfold e2; cbn; lia).
    destruct (ctx_done ctx wake) eqn:Hd2.
    { eexists. split_and!; [reflexivity|rewrite Hn2; lia|done]. }
    assert (Hw : wake < en_at en).
    { unfold ctx_done, ended_by in Hd2. rewrite HE in Hd2. by destruct (Z.leb_spec (en_at en) wake). }
    subst fuel1. specialize (IH (S i) e2). assert (en_at en - ex_now e2 <= Z.of_nat fuel * readyPollInterval) as Hpre by lia.
    specialize (IH Hpre). destruct (waitReady_loop _ _ _ _ _ e2) as [e' res]. destruct IH as (l & -> & IH2 & IH3). exists l. split_and!; [done|lia|done].
Qed.

(** The wait for the guest ends.  If no probe takes longer than [d], it
    ends no later than [d] after the Profile's ready timeout (after the
    context, if that ends sooner), within the fuel; it succeeds only if a
    probe said the guest is ready, and fails as runner_system_failure. *)
Theorem waitReady_ends ctx pr h t Ready d e :
  (forall i, 0 <= (Ready i).2 <= d) -> 0 <= d ->
  let '(e', res) := waitReady ctx pr h t Ready e in
  ex_now e' <= ex_now e + ready_timeout pr + d
  /\ match res with
     | inr _ => exists i, (Ready i).1 = None
     | inl err => reason_of err = Some RunnerSystemFailure /\ exists msg last, err = buildErr RunnerSystemFailure msg [XErr last]
     end.
Proof.
  intros HR Hd. unfold waitReady. unfold bind at 1, gets. set (to := ready_timeout pr).
  assert (Hto : 0 < to).
  { unfold to, ready_timeout. destruct (Z.leb_spec (p_ReadyTimeout (pr_cfg pr)) 0); [reflexivity|lia]. }
  set (ctx' := with_cancel ctx _).
  destruct (first_ending_le (cx_end ctx) (Some (canceled_at (time_Add (ex_now e) to) (XErr (ESentinel CtxCanceled)))) (canceled_at (time_Add (ex_now e) to) (XErr (ESentinel CtxCanceled)))
    (or_intror eq_refl)) as (en & HE & Hle). cbn in Hle. unfold time_Add in Hle.
  assert (Hfuel : to <= Z.of_nat (Z.to_nat (to / readyPollInterval + 1)) * readyPollInterval).
  { unfold readyPollInterval, millisecond. rewrite Z2Nat.id by (apply Z.add_nonneg_nonneg; [apply Z.div_pos; lia|lia]).
    pose proof (Z_div_mod_eq_full to (500 * 1000000)). pose proof (Z.mod_pos_bound to (500 * 1000000) ltac:(lia)). lia. }
  pose proof (waitReady_loop_total ctx' Ready t d en (Z.to_nat (to / readyPollInterval + 1)) 0 e HE HR ltac:(lia)) as HL.
  unfold bind, ready_fuel. destruct (waitReady_loop ctx' Ready t _ 0 e) as [e' res]. destruct HL as (last & -> & HB & HN).
  destruct last as [last|]; cbn; (split; [lia|]).
  - split; [done|]. by exists ("microvm " +:+ a_VMUID (h_alloc h) +:+ " was not ready within the ready timeout"), last.
  - by apply HN.
Qed.

Lemma waitReady_ends_witness :
  let Ready := fun i => (if (i <? 4)%nat then Some (ESentinel ErrNotReady) else None, second) in
  let '(e', res) := waitReady (job_context (10 * minute) 0) demo_jobProfile {| h_id := 1; h_alloc := demo_allocation |} 3 Ready (Create 0 []) in
  ex_now e' <= ready_timeout demo_jobProfile + second /\ res = inr tt.
Proof.
  set (Ready := fun i => (if (i <? 4)%nat then Some (ESentinel ErrNotReady) else None, second)). cbv zeta.
  assert (HR : forall i, 0 <= (Ready i).2 <= second) by (intros i; simpl; unfold second; lia).
  assert (Hd : 0 <= second) by (unfold second; lia).
  set (w := waitReady (job_context (10 * minute) 0) demo_jobProfile {| h_id := 1; h_alloc := demo_allocation |} 3 Ready (Create 0 [])).
  assert (Hw : w.2 = inr tt) by (vm_compute; reflexivity).
  pose proof (waitReady_ends (job_context (10 * minute) 0) demo_jobProfile {| h_id := 1; h_alloc := demo_allocation |} 3 Ready second (Create 0 []) HR Hd) as H.
  fold w in H. clearbody w. destruct w as [e' res]. simpl in Hw. subst res. destruct H as [H _]. split; [simpl in H; lia|done].
Defined.

(** ** The directories *)
(** Whatever the Profile's directories are called, the shell in the guest
    sees one command, mkdir with three arguments of its own and the two
    directories relative to the root, each one word: no name is split,
    expanded, taken for an option or run. *)
Theorem mkdir_script_words pr :
  sh_line (mkdir_script pr) false None
  = Some [["mkdir"; "-p"; "--"; "./" +:+ TrimLeftSlash (p_BuildsDir (pr_cfg pr)); "./" +:+ TrimLeftSlash (p_CacheDir (pr_cfg pr))]].
Proof.
  unfold mkdir_script, relToRoot. set (b := "./" +:+ TrimLeftSlash (p_BuildsDir (pr_cfg pr))). set (c := "./" +:+ TrimLeftSlash (p_CacheDir (pr_cfg pr))).
  change (sh_line ("mkdir -p -- " +:+ shellQuote b +:+ " " +:+ shellQuote c +:+ String "010" "") false None)
    with (first_word (Some "mkdir") <$> (first_word (Some "-p") <$> (first_word (Some "--") <$> sh_line (shellQuote b +:+ " " +:+ shellQuote c +:+ String "010" "") false None))).
  by rewrite sh_line_quote, sh_line_space, sh_line_quote.
Qed.
