(* ===== verification/Provider.v ===== *)
(** * internal/executor/provider.go and the executor data of interfaces.go

    The ExecutorProvider the run loop drives: how it is built, how it starts
    and stops the Scheduler, the Reservation it hands to a Job, the features
    it advertises.  A goroutine running the Scheduler's [Run] is a number in
    [pr_runs], with whether its context was cancelled. *)
From S2P Require Import Prelude GoModel ConfigTypes ConfigDefaults PoolTypes SchedTypes HostEnv GoContext Executor.

Definition ExecutorName : string := "flintlock".

(** ** Building a provider *)
Record deps := { dp_Scheduler : bool; dp_Transports : bool; dp_Hosts : bool; dp_conf : provider }.

Inductive Option :=
  | WithLifecycle
  | WithUpstreams (us : list HTTPCacheUpstream)
  | WithAgentExec
  | WithInitHook.

Record providerState := {
  pr_conf : provider; pr_lifecycle : bool; pr_initHook : bool;
  pr_runCancel : option nat; pr_runs : list bool; pr_hooks_run : nat; pr_abort : Z; pr_chans : chans; pr_aborted : bool }.
#[export] Instance eta_providerState : Eta providerState :=
  fun r => {| pr_conf := pr_conf r; pr_lifecycle := pr_lifecycle r; pr_initHook := pr_initHook r; pr_runCancel := pr_runCancel r;
              pr_runs := pr_runs r; pr_hooks_run := pr_hooks_run r; pr_abort := pr_abort r; pr_chans := pr_chans r; pr_aborted := pr_aborted r |}.
#[export] Instance eta_provider : Eta provider :=
  fun r => {| pv_Timeouts := pv_Timeouts r; pv_KeepOnFailure := pv_KeepOnFailure r; pv_CacheConfigured := pv_CacheConfigured r;
              pv_transport := pv_transport r; pv_agents := pv_agents r; pv_httpCacheVars := pv_httpCacheVars r; pv_Env := pv_Env r;
              pv_Inventory := pv_Inventory r |}.

Definition apply_option (p : providerState) (o : Option) : providerState :=
  match o with
  | WithLifecycle => p <| pr_lifecycle := true |>
  | WithUpstreams us => p <| pr_conf := (pr_conf p) <| pv_httpCacheVars := WithHTTPCacheUpstreams us (pv_httpCacheVars (pr_conf p)) |> |>
  | WithAgentExec => p <| pr_conf := (pr_conf p) <| pv_transport := KindAgentExec |> <| pv_agents := true |> |>
  | WithInitHook => p <| pr_initHook := true |>
  end.

Definition NewProvider (d : deps) (opts : list Option) : result providerState :=
  if negb (dp_Scheduler d) then Err (ENew "executor: deps: Scheduler is required")
  else if negb (dp_Transports d) then Err (ENew "executor: deps: Transports is required")
  else if negb (dp_Hosts d) then Err (ENew "executor: deps: Hosts is required")
  else
    let '(cs, c) := make_chan chans0 in
    Ok (foldl apply_option
      {| pr_conf := (dp_conf d) <| pv_transport := "" |> <| pv_agents := false |> <| pv_httpCacheVars := ∅ |>;
         pr_lifecycle := false; pr_initHook := false; pr_runCancel := None; pr_runs := []; pr_hooks_run := 0;
         pr_abort := c; pr_chans := cs; pr_aborted := false |} opts).

(** ** Init, BeginShutdown, AbortAll, Shutdown *)
Definition Init (p : providerState) : providerState :=
  let p := if pr_lifecycle p && match pr_runCancel p with None => true | Some _ => false end
           then p <| pr_runCancel := Some (length (pr_runs p)) |> <| pr_runs := pr_runs p ++ [false] |> else p in
  if pr_initHook p then p <| pr_initHook := false |> <| pr_hooks_run := S (pr_hooks_run p) |> else p.

Definition BeginShutdown (p : providerState) : providerState :=
  match pr_runCancel p with Some i => p <| pr_runs := <[i := true]> (pr_runs p) |> | None => p end.

(** [abortOnce.Do] *)
Definition AbortAll (p : providerState) : providerState :=
  if pr_aborted p then p else p <| pr_aborted := true |> <| pr_chans := close_chan (pr_abort p) (pr_chans p) |>.

(** Whether Shutdown waits: only for a Run that was started. *)
Definition Shutdown (p : providerState) : providerState * bool :=
  let p := BeginShutdown p in (p, match pr_runCancel p with Some _ => true | None => false end).

(** ** Reservations *)
Inductive acquired := Acquired (d : Data) | NoFreeExecutor (cause : sched_error).
Definition Acquire (Reserve : Reservation + sched_error) : acquired :=
  match Reserve with
  | inl r => Acquired {| d_Reservation := Some r; d_Handle := None |}
  | inr e => NoFreeExecutor e
  end.
(** The Reservation the Scheduler's ReleaseReservation is called with. *)
Definition provider_Release (data : option Data) : option Reservation := d ← data; d_Reservation d.

(** ** The executor data (interfaces.go) *)
Definition WithContext (d : option Data) (handleDone : option (time * error)) (parent : context) : context :=
  match d with
  | Some {| d_Handle := Some _ |} => with_cancel parent ((fun '(t, err) => canceled_at t (XBuild (XErr err) RunnerSystemFailure 0)) <$> handleDone)
  | _ => parent
  end.
Definition LogFields (d : option Data) : gmap string string :=
  match d with
  | Some {| d_Handle := Some h |} =>
      {["profile" := a_Profile (h_alloc h); "vm_uid" := a_VMUID (h_alloc h); "host" := pl_Host (a_Placement (h_alloc h))]}
  | _ => ∅
  end.

(** ** Features *)
Definition advertised : list string :=
  ["variables"; "image"; "refspecs"; "masking"; "raw_variables"; "artifacts"; "artifacts_exclude"; "upload_multiple_artifacts";
   "upload_raw_artifacts"; "cache"; "fallback_cache_keys"; "multi_build_steps"; "return_exit_code"; "trace_reset"; "trace_checksum";
   "trace_size"; "cancelable"; "cancel_gracefully"].
Definition withheld : list string := ["services"; "session"; "terminal"; "proxy"; "shared"].
Definition set_features (v : bool) (names : list string) (f : gmap string bool) : gmap string bool :=
  foldl (fun f n => <[n := v]> f) f names.
Definition GetFeatures (f : gmap string bool) : gmap string bool := set_features false withheld (set_features true advertised f).
Definition GetDefaultShell : string := DefaultShellName.

Lemma set_features_in v names f n : n ∈ names -> set_features v names f !! n = Some v.
Proof.
  revert f. induction names as [|m names IH]; intros f Hn; [by apply elem_of_nil in Hn|]. simpl.
  destruct (decide (n ∈ names)) as [Hin|Hout]; [by apply IH|]. apply elem_of_cons in Hn as [->|]; [|done].
  clear IH. revert f. assert (forall g, set_features v names g !! m = g !! m) as HK.
  { induction names as [|k names IH]; intros g; [done|]. simpl. rewrite IH by (intros ?; apply Hout; by right).
    apply lookup_insert_ne. intros ->. apply Hout. left. }
  intros f. by rewrite HK, lookup_insert_eq.
Qed.
Lemma set_features_notin v names f n : n ∉ names -> set_features v names f !! n = f !! n.
Proof.
  revert f. induction names as [|m names IH]; intros f Hn; [done|]. simpl. rewrite IH by (intros ?; apply Hn; by right).
  apply lookup_insert_ne. intros ->. apply Hn. left.
Qed.

(** Whatever the run loop passes in, the features of the requirements are
    advertised and the five it forbids are not; others are left alone. *)
Lemma GetFeatures_exact f n :
  GetFeatures f !! n = if decide (n ∈ advertised) then Some true else if decide (n ∈ withheld) then Some false else f !! n.
Proof.
  unfold GetFeatures. destruct (decide (n ∈ withheld)) as [Hw|Hw].
  - rewrite set_features_in by done. destruct (decide (n ∈ advertised)) as [Ha|]; [|done]. exfalso.
    unfold withheld, advertised in *. set_solver.
  - rewrite set_features_notin by done. destruct (decide (n ∈ advertised)) as [Ha|Ha]; [by rewrite set_features_in|by rewrite set_features_notin].
Qed.

(** The Build's context ends only as the Job's own does, or as a
    runner_system_failure. *)
Lemma WithContext_cause d hd parent en :
  cx_end (WithContext d hd parent) = Some en ->
  cx_end parent = Some en \/ exists err, en_cause en = XBuild (XErr err) RunnerSystemFailure 0.
Proof.
  unfold WithContext. destruct d as [[r [h|]]|]; [|by left..]. simpl. intros [H|H]%first_ending_at; [by left|right].
  destruct hd as [[t err]|]; [|done]. injection H as <-. by exists err.
Qed.

(** ** The provider's life *)
Inductive op := OInit | OBeginShutdown | OAbortAll | OShutdown.
Definition do_op (p : providerState) (o : op) : providerState :=
  match o with OInit => Init p | OBeginShutdown => BeginShutdown p | OAbortAll => AbortAll p | OShutdown => (Shutdown p).1 end.

Definition begun (o : op) : bool := match o with OBeginShutdown | OShutdown => true | _ => false end.

Record life (inits : bool) (stops : bool) (aborts : bool) (lc hook : bool) (p : providerState) : Prop := {
  li_lc : pr_lifecycle p = lc;
  li_runs : pr_runs p = if lc && inits then [stops] else [];
  li_cancel : pr_runCancel p = if lc && inits then Some O else None;
  li_hook : pr_initHook p = hook && negb inits;
  li_hooks : pr_hooks_run p = if hook && inits then 1%nat else O;
  li_aborted : pr_aborted p = aborts;
  li_chan : pr_chans p = if aborts then close_chan (pr_abort p) (make_chan chans0).1 else (make_chan chans0).1;
  li_abort : pr_abort p = (make_chan chans0).2 }.

(** Whether a shutdown came after the Run was started. *)
Fixpoint stopped_after (inits : bool) (ops : list op) : bool :=
  match ops with
  | [] => false
  | o :: ops => (inits && begun o) || stopped_after (inits || match o with OInit => true | _ => false end) ops
  end.

Lemma apply_options_life opts p : pr_runs p = [] -> pr_runCancel p = None -> pr_hooks_run p = O -> pr_aborted p = false ->
  pr_chans p = (make_chan chans0).1 -> pr_abort p = (make_chan chans0).2 ->
  exists lc hook, life false false false lc hook (foldl apply_option p opts).
Proof.
  revert p. induction opts as [|o opts IH]; intros p H1 H2 H3 H4 H5 H6; simpl.
  - exists (pr_lifecycle p), (pr_initHook p). split; rewrite ?andb_false_r, ?andb_true_r; done.
  - apply IH; destruct o; done.
Qed.

Lemma do_op_life inits stops aborts lc hook p o : life inits stops aborts lc hook p -> (stops = true -> inits = true) ->
  life (inits || match o with OInit => true | _ => false end) (stops || (inits && begun o))
       (aborts || match o with OAbortAll => true | _ => false end) lc hook (do_op p o).
Proof.
  intros [H1 H2 H3 H4 H5 H6 H7 H8] Hs.
  destruct o; simpl; unfold Init, Shutdown, BeginShutdown, AbortAll; simpl;
    rewrite ?H3, ?H1, ?H4, ?H6; destruct lc, inits, hook, stops, aborts; simpl in *; try (by specialize (Hs eq_refl));
    rewrite ?H4; (split; simpl; rewrite ?H2, ?H5, ?H7, ?H8; try done).
Qed.

(** The provider's life, whatever order the run loop and the signal
    handlers call it in.  The Scheduler's Run is started once, by the first
    Init and only if it was given; it is cancelled exactly if a shutdown came
    after that; the init hook runs once; aborting twice does not close the
    abort channel twice. *)
Theorem provider_life d opts p0 ops :
  NewProvider d opts = Ok p0 ->
  let p := foldl do_op p0 ops in
  let inits := existsb (fun o => match o with OInit => true | _ => false end) ops in
  pr_runs p = (if pr_lifecycle p0 && inits then [stopped_after false ops] else [])
  /\ pr_hooks_run p = (if pr_initHook p0 && inits then 1%nat else O)
  /\ chan_panic (pr_chans p) = false
  /\ (pr_abort p ∈ closed_chans (pr_chans p) <-> existsb (fun o => match o with OAbortAll => true | _ => false end) ops = true).
Proof.
  unfold NewProvider. destruct (dp_Scheduler d), (dp_Transports d), (dp_Hosts d); simpl; try done. intros [= Hp0].
  destruct (apply_options_life opts {| pr_conf := (dp_conf d) <| pv_transport := "" |> <| pv_agents := false |> <| pv_httpCacheVars := ∅ |>;
    pr_lifecycle := false; pr_initHook := false; pr_runCancel := None; pr_runs := []; pr_hooks_run := 0;
    pr_abort := (make_chan chans0).2; pr_chans := (make_chan chans0).1; pr_aborted := false |}) as (lc & hook & HL); [done..|].
  simpl in HL. rewrite Hp0 in HL. clear Hp0. pose proof (li_lc _ _ _ _ _ _ HL) as Hlc. pose proof (li_hook _ _ _ _ _ _ HL) as Hhk.
  rewrite andb_true_r in Hhk. rewrite Hlc, Hhk.
  assert (HG : forall ops p inits stops aborts, life inits stops aborts lc hook p -> (stops = true -> inits = true) ->
    life (inits || existsb (fun o => match o with OInit => true | _ => false end) ops) (stops || stopped_after inits ops)
      (aborts || existsb (fun o => match o with OAbortAll => true | _ => false end) ops) lc hook (foldl do_op p ops)).
  { clear. induction ops as [|o ops IH]; intros p inits stops aborts HL Hs; simpl; [by rewrite !orb_false_r|].
    rewrite !orb_assoc. apply IH; [by apply do_op_life|]. destruct o, inits, stops; simpl; auto. }
  destruct (HG ops p0 false false false HL ltac:(done)) as [G1 G2 G3 G4 G5 G6 G7 G8]. simpl in *. split_and!; try done.
  - rewrite G7, G8. destruct (existsb (fun o => match o with OAbortAll => true | _ => false end) ops); vm_compute; reflexivity.
  - rewrite G7, G8. destruct (existsb (fun o => match o with OAbortAll => true | _ => false end) ops); split; try done.
Qed.

Definition demo_deps : deps :=
  {| dp_Scheduler := true; dp_Transports := true; dp_Hosts := true;
     dp_conf := {| pv_Timeouts := {| to_Prepare := 0; to_GracefulKill := 0; to_Transport := 0 |}; pv_KeepOnFailure := false; pv_CacheConfigured := false;
       pv_transport := ""; pv_agents := false; pv_httpCacheVars := ∅; pv_Env := None; pv_Inventory := None |} |}.

Lemma provider_life_witness : exists p0,
  NewProvider demo_deps [WithLifecycle; WithInitHook] = Ok p0
  /\ pr_runs (foldl do_op p0 [OInit; OAbortAll; OShutdown; OAbortAll; OInit]) = [true].
Proof.
  eexists. split; [reflexivity|].
  exact (proj1 (provider_life demo_deps [WithLifecycle; WithInitHook] _ [OInit; OAbortAll; OShutdown; OAbortAll; OInit] eq_refl)).
Defined.
