(* ===== verification/GoFloat.v ===== *)
(** * float64 seconds of a Duration

    [time.Duration.Seconds] computes with float64; this file models the
    doubles it meets.  They are non-negative, below 2^34, and multiples of
    2^-82, so a double is kept as the integer that is its value times 2^82.
    [fl a b] is the double nearest to [a/b], ties to even. *)
From S2P Require Import Prelude GoModel.

Definition scale : Z := 2 ^ 82.

(** The integer nearest to [a/b], ties to even. *)
Definition rne (a b : Z) : Z :=
  let q := a / b in
  let r := a mod b in
  if 2 * r <? b then q else if b <? 2 * r then q + 1 else if Z.even q then q else q + 1.

(** The exponent of the double nearest to [a/b] from below. *)
Definition exponent (a b : Z) : Z := Z.log2 (a * scale / b) - 82.

Definition fl (a b : Z) : Z :=
  if a =? 0 then 0
  else let ulp := 2 ^ (30 + exponent a b) in rne (a * scale) (b * ulp) * ulp.

(** [Duration.Seconds]: whole seconds plus the nanoseconds over 1e9. *)
Definition Seconds (d : duration) : Z := fl (d / second * scale + fl (d mod second) second) scale.

(** [math.Ceil] *)
Definition Ceil (v : Z) : Z := (v + scale - 1) / scale.

Lemma rne_spec a b : 0 < b -> 2 * (rne a b * b) - b <= 2 * a <= 2 * (rne a b * b) + b.
Proof.
  intros Hb. unfold rne. pose proof (Z_div_mod_eq_full a b). pose proof (Z.mod_pos_bound a b Hb).
  set (q := a / b) in *. set (r := a mod b) in *.
  destruct (Z.ltb_spec (2 * r) b); [nia|]. destruct (Z.ltb_spec b (2 * r)); [nia|]. destruct (Z.even q); nia.
Qed.

Lemma exponent_spec a b : 0 < a -> 0 < b -> b <= a * scale ->
  0 <= 82 + exponent a b /\ b * 2 ^ (82 + exponent a b) <= a * scale < b * 2 ^ (83 + exponent a b).
Proof.
  intros Ha Hb Hr. unfold exponent. pose proof (Z.mul_div_le (a * scale) b Hb). pose proof (Z.mul_succ_div_gt (a * scale) b Hb).
  assert (Hx : 0 < a * scale / b) by (apply Z.div_str_pos; lia). set (x := a * scale / b) in *. clearbody x.
  destruct (Z.log2_spec x Hx) as [L1 L2]. pose proof (Z.log2_nonneg x).
  replace (82 + (Z.log2 x - 82)) with (Z.log2 x) by lia. replace (83 + (Z.log2 x - 82)) with (Z.succ (Z.log2 x)) by lia.
  split; [lia|]. nia.
Qed.

(** Integers are doubles: rounding does not cross them. *)
Section Rounding.
Variables a b : Z.
Hypothesis Ha : 0 < a.
Hypothesis Hb : 0 < b.
Hypothesis Hlo : b * 2 ^ 52 <= a * scale.
Hypothesis Hhi : a < b * 2 ^ 34.

Lemma exponent_range : -30 <= exponent a b < 34.
Proof.
  destruct (exponent_spec a b Ha Hb) as (E0 & E1 & E2); [lia|].
  assert (b * 2 ^ 52 < b * 2 ^ (83 + exponent a b)) as H1 by lia. apply Z.mul_lt_mono_pos_l in H1; [|done].
  apply Z.pow_lt_mono_r_iff in H1; [|lia..].
  assert (b * 2 ^ (82 + exponent a b) < b * 2 ^ (34 + 82)) as H2.
  { eapply Z.le_lt_trans; [exact E1|]. rewrite Z.pow_add_r by lia. unfold scale. nia. }
  apply Z.mul_lt_mono_pos_l in H2; [|done]. apply Z.pow_lt_mono_r_iff in H2; lia.
Qed.

Let ulp : Z := 2 ^ (30 + exponent a b).
Lemma ulp_pos : 0 < ulp.
Proof. pose proof exponent_range. apply Z.pow_pos_nonneg; lia. Qed.
Lemma fl_rne : fl a b = rne (a * scale) (b * ulp) * ulp.
Proof. unfold fl. destruct (Z.eqb_spec a 0); [lia|done]. Qed.
Lemma scale_ulp n : exists m, n * scale = m * ulp.
Proof.
  pose proof exponent_range. exists (n * 2 ^ (52 - exponent a b)). rewrite <-Z.mul_assoc. f_equal.
  unfold ulp, scale. rewrite <-Z.pow_add_r by lia. f_equal. lia.
Qed.

Lemma fl_ge n : n * b <= a -> n * scale <= fl a b.
Proof.
  intros Hn. rewrite fl_rne. destruct (scale_ulp n) as [m Hm]. rewrite Hm. pose proof ulp_pos as Hu.
  apply Z.mul_le_mono_nonneg_r; [lia|]. pose proof (rne_spec (a * scale) (b * ulp) ltac:(nia)) as [_ R].
  assert (m * (b * ulp) <= a * scale) as Hle by (transitivity (n * scale * b); [rewrite Hm; lia|unfold scale; nia]).
  assert (0 < b * ulp) by nia. nia.
Qed.

Lemma fl_le n : a <= n * b -> fl a b <= n * scale.
Proof.
  intros Hn. rewrite fl_rne. destruct (scale_ulp n) as [m Hm]. rewrite Hm. pose proof ulp_pos as Hu.
  apply Z.mul_le_mono_nonneg_r; [lia|]. pose proof (rne_spec (a * scale) (b * ulp) ltac:(nia)) as [R _].
  assert (a * scale <= m * (b * ulp)) as Hle by (transitivity (n * scale * b); [unfold scale; nia|rewrite Hm; lia]).
  assert (0 < b * ulp) by nia. nia.
Qed.

(** A double is no smaller than the power of two below its value. *)
Lemma fl_pow : 2 ^ (82 + exponent a b) <= fl a b.
Proof.
  pose proof exponent_range. rewrite fl_rne. destruct (exponent_spec a b Ha Hb) as (E0 & E1 & _); [lia|].
  assert (HP : 2 ^ (82 + exponent a b) = 2 ^ 52 * ulp) by (unfold ulp; rewrite <-Z.pow_add_r by lia; f_equal; lia).
  rewrite HP in *. pose proof ulp_pos as Hu. apply Z.mul_le_mono_nonneg_r; [lia|].
  pose proof (rne_spec (a * scale) (b * ulp) ltac:(nia)) as [_ R]. assert (0 < b * ulp) by nia. nia.
Qed.

(** Rounding goes up past an integer that is less than half an ulp away. *)
Lemma fl_gt n : b * ulp < 2 * (a - n * b) * scale -> n * scale < fl a b.
Proof.
  intros Hn. rewrite fl_rne. destruct (scale_ulp n) as [m Hm]. rewrite Hm. pose proof ulp_pos as Hu.
  apply Z.mul_lt_mono_pos_r; [lia|]. pose proof (rne_spec (a * scale) (b * ulp) ltac:(nia)) as [_ R].
  assert (m * (b * ulp) = n * b * scale) as Heq by (transitivity (n * scale * b); [rewrite Hm; lia|lia]).
  assert (0 < b * ulp) by nia. nia.
Qed.
End Rounding.

(** ** The ceiling of the seconds of a Duration *)
Lemma fraction_range n : 0 <= n < second -> (n = 0 /\ fl n second = 0) \/ (0 < n /\ 2 ^ 52 <= fl n second <= scale).
Proof.
  intros Hn. destruct (Z.eqb_spec n 0) as [->|Hz]; [left; done|right]. split; [lia|].
  assert (Hb : 0 < second) by (unfold second; lia).
  assert (Hlo : second * 2 ^ 52 <= n * scale) by (unfold second, scale in *; lia).
  assert (Hhi : n < second * 2 ^ 34) by (unfold second in *; lia).
  pose proof (exponent_range n second ltac:(lia) Hb Hlo Hhi) as HE. split.
  - etransitivity; [|apply (fl_pow n second ltac:(lia) Hb Hlo Hhi)]. apply Z.pow_le_mono_r; lia.
  - pose proof (fl_le n second ltac:(lia) Hb Hlo Hhi 1 ltac:(lia)). lia.
Qed.

Lemma Ceil_range V n : n * scale <= V <= (n + 1) * scale -> n <= Ceil V <= n + 1.
Proof.
  intros HV. unfold Ceil. pose proof (Z_div_mod_eq_full (V + scale - 1) scale).
  pose proof (Z.mod_pos_bound (V + scale - 1) scale ltac:(unfold scale; lia)). unfold scale in *. lia.
Qed.
Lemma Ceil_above V n : n * scale < V <= (n + 1) * scale -> Ceil V = n + 1.
Proof.
  intros HV. unfold Ceil. pose proof (Z_div_mod_eq_full (V + scale - 1) scale).
  pose proof (Z.mod_pos_bound (V + scale - 1) scale ltac:(unfold scale; lia)). unfold scale in *. lia.
Qed.
Lemma Ceil_exact n : Ceil (n * scale) = n.
Proof.
  unfold Ceil. pose proof (Z_div_mod_eq_full (n * scale + scale - 1) scale).
  pose proof (Z.mod_pos_bound (n * scale + scale - 1) scale ltac:(unfold scale; lia)). unfold scale in *. lia.
Qed.

Lemma Ceil_Seconds d : 0 < d <= maxDuration ->
  let s := Ceil (Seconds d) in
  1 <= s /\ d / second <= s <= d / second + 1
  /\ (d < 2 ^ 23 * second -> s = (d + second - 1) / second).
Proof.
  intros Hd. cbv zeta. unfold Seconds. set (sec := d / second). set (nsec := d mod second).
  pose proof (Z_div_mod_eq_full d second) as HD. pose proof (Z.mod_pos_bound d second ltac:(unfold second; lia)) as HM. fold sec nsec in HD, HM.
  assert (Hsec : 0 <= sec < 2 ^ 34 - 1) by (unfold second, maxDuration in *; lia).
  destruct (fraction_range nsec HM) as [[Hn HF]|[Hn HF]].
  - rewrite HF, Z.add_0_r. assert (Hs : 0 < sec) by (unfold second in *; lia).
    assert (HS : 0 < sec * scale) by (unfold scale; lia).
    assert (Hlo : scale * 2 ^ 52 <= sec * scale * scale) by (unfold scale; lia).
    assert (Hhi : sec * scale < scale * 2 ^ 34) by (unfold scale; lia).
    pose proof (fl_ge (sec * scale) scale HS ltac:(unfold scale; lia) Hlo Hhi sec ltac:(lia)).
    pose proof (fl_le (sec * scale) scale HS ltac:(unfold scale; lia) Hlo Hhi sec ltac:(lia)).
    replace (fl (sec * scale) scale) with (sec * scale) by lia. rewrite Ceil_exact. split_and!; try lia.
    intros _. rewrite HD, Hn. replace (second * sec + 0 + second - 1) with (sec * second + (second - 1)) by lia.
    rewrite Z.div_add_l by (unfold second; lia). unfold second. rewrite Z.div_small by lia. lia.
  - set (F := fl nsec second) in *. set (S := sec * scale + F).
    assert (HS : 0 < S) by (unfold S, scale in *; lia).
    assert (Hlo : scale * 2 ^ 52 <= S * scale) by (unfold S, scale in *; lia).
    assert (Hhi : S < scale * 2 ^ 34) by (unfold S, scale in *; lia).
    assert (Hsc : 0 < scale) by (unfold scale; lia).
    pose proof (fl_ge S scale HS Hsc Hlo Hhi sec ltac:(unfold S; lia)) as G1.
    pose proof (fl_le S scale HS Hsc Hlo Hhi (sec + 1) ltac:(unfold S; lia)) as G2.
    pose proof (Ceil_range (fl S scale) sec ltac:(lia)) as GR.
    pose proof (exponent_range S scale HS Hsc Hlo Hhi) as HE.
    split_and!; [|lia..|].
    + destruct (Z.eqb_spec sec 0) as [H0|]; [|lia]. rewrite H0 in *.
      assert (0 < fl S scale) as Hp.
      { pose proof (fl_pow S scale HS Hsc Hlo Hhi) as HP. eapply Z.lt_le_trans; [|exact HP]. apply Z.pow_pos_nonneg; lia. }
      rewrite (Ceil_above (fl S scale) 0) by lia. lia.
    + intros Hbig. assert (Hs23 : sec + 1 <= 2 ^ 23) by (unfold second in *; lia).
      destruct (exponent_spec S scale HS Hsc) as (E0 & E1 & _); [unfold scale in *; lia|].
      assert (E2 : 2 ^ (82 + exponent S scale) <= S) by (unfold scale in *; lia).
      assert (Hulp : 2 ^ (30 + exponent S scale) < 2 * F).
      { destruct (Z.leb_spec (exponent S scale) 22) as [He|He].
        - eapply Z.le_lt_trans; [apply (Z.pow_le_mono_r 2 (30 + exponent S scale) 52); lia|]. lia.
        - assert (2 ^ 105 <= S) as H105 by (etransitivity; [|exact E2]; apply Z.pow_le_mono_r; lia).
          assert (F = scale) as HFs by (unfold S, scale in *; lia).
          assert (exponent S scale <= 23) as He2.
          { destruct (Z.leb_spec (exponent S scale) 23); [done|]. assert (2 ^ 106 <= S) by (etransitivity; [|exact E2]; apply Z.pow_le_mono_r; lia).
            unfold S, scale in *. lia. }
          eapply Z.le_lt_trans; [apply (Z.pow_le_mono_r 2 (30 + exponent S scale) 53); lia|]. rewrite HFs. unfold scale. lia. }
      pose proof (fl_gt S scale HS Hsc Hlo Hhi sec) as G3.
      rewrite (Ceil_above (fl S scale) sec).
      * rewrite HD. replace (second * sec + nsec + second - 1) with ((sec + 1) * second + (nsec - 1)) by lia.
        rewrite Z.div_add_l by (unfold second; lia). rewrite (Z.div_small (nsec - 1)) by lia. lia.
      * split; [|lia]. apply G3. rewrite (Z.mul_comm scale). apply Z.mul_lt_mono_pos_r; [done|]. unfold S at 2. lia.
Qed.

(** From 2^23 seconds on a nanosecond can be lost. *)
Example Seconds_examples :
  Ceil (Seconds 1) = 1 /\ Ceil (Seconds second) = 1 /\ Ceil (Seconds (second + 1)) = 2 /\ Ceil (Seconds (3600 * second + 500)) = 3601
  /\ Ceil (Seconds (2 ^ 31 * second + 1)) = 2 ^ 31.
Proof. by_compute. Qed.
