(* ===== verification/ByteSize.v ===== *)
(** * Byte sizes: internal/config/bytesize.go

    A size is written as a decimal number and a unit.  The code parses the
    number as a float64, multiplies it by the unit's size and truncates the
    product to an int64, so this file models the non-negative doubles: one is
    the integer that is its value times 2^1074, and [round64 a b] is the
    double nearest to [a/b], ties to even, or none where that overflows.  Go
    leaves the conversion of a double outside the int64 range to the
    implementation; its result is the argument [conv]. *)
From Stdlib Require Import Ascii.
From S2P Require Import Prelude GoModel Base64 Spec PathMatch GoStrings GoFloat.

(** ** float64 *)
Definition grid : Z := 2 ^ 1074.

Definition round64 (a b : Z) : option Z :=
  let e := Z.max 0 (Z.log2 (a * grid / b) - 52) in
  let r := rne (a * grid) (b * 2 ^ e) * 2 ^ e in
  if r <? 2 ^ 1024 * grid then Some r else None.

(** The decimal a string of digits and dots denotes: its digits as an
    integer, and how many of them are after the dot. *)
Definition decimal (s : string) : option (Z * nat) :=
  match Cut s "."%char with
  | None => if String.eqb s "" then None else n ← digits s 0; Some (n, O)
  | Some (a, b) => if String.eqb (a +:+ b) "" then None else n ← digits (a +:+ b) 0; Some (n, String.length b)
  end.

(** [strconv.ParseFloat(s, 64)] of such a string; none is its error. *)
Definition ParseFloat (s : string) : option Z :=
  match decimal s with Some (n, k) => round64 n (10 ^ Z.of_nat k) | None => None end.

(** [f * float64(mult)], none for +Inf. *)
Definition mul64 (f mult : Z) : option Z := round64 (f * mult) grid.

(** The int64 of a non-negative double. *)
Definition to_int64 (conv : option Z -> Z) (f : option Z) : Z :=
  match f with
  | Some r => if r / grid <? 2 ^ 63 then r / grid else conv f
  | None => conv f
  end.

(** ** bytesize.go *)
Definition byteUnits (unit : string) : option Z :=
  if String.eqb unit "" then Some 1
  else if String.eqb unit "b" then Some 1
  else if String.eqb unit "kb" then Some 1000
  else if String.eqb unit "mb" then Some (1000 * 1000)
  else if String.eqb unit "gb" then Some (1000 * 1000 * 1000)
  else if String.eqb unit "tb" then Some (1000 * 1000 * 1000 * 1000)
  else if String.eqb unit "kib" then Some (Z.shiftl 1 10)
  else if String.eqb unit "mib" then Some (Z.shiftl 1 20)
  else if String.eqb unit "gib" then Some (Z.shiftl 1 30)
  else if String.eqb unit "tib" then Some (Z.shiftl 1 40)
  else None.

(** The loop over the characters of the number. *)
Definition num_char (c : Ascii.ascii) : bool := is_digit c || Ascii.eqb c "."%char.
Fixpoint split_num (s : string) : string * string :=
  match s with
  | String c s' => if num_char c then let (n, u) := split_num s' in (String c n, u) else ("", s)
  | EmptyString => ("", "")
  end.

Definition invalidByteSize (msg : string) : error := EWrap msg [ESentinel ErrInvalidByteSize].

Definition ParseByteSize (conv : option Z -> Z) (s : string) : result Z :=
  let trimmed := TrimSpace s in
  if String.eqb trimmed "" then Err (invalidByteSize "empty")
  else
    let (num, rest) := split_num trimmed in
    let unit := ToLower (TrimSpace rest) in
    match byteUnits unit with
    | None => Err (invalidByteSize ("unknown unit " +:+ unit +:+ " in " +:+ s))
    | Some mult =>
        match ParseFloat num with
        | None => Err (invalidByteSize s)
        | Some f => if f <? 0 then Err (invalidByteSize s) else Ok (to_int64 conv (mul64 f mult))
        end
    end.

(** The receiver after the call, and the error. *)
Definition UnmarshalText (conv : option Z -> Z) (b : Z) (text : string) : Z * option error :=
  match ParseByteSize conv text with
  | Ok v => (v, None)
  | Err e => (b, Some e)
  end.

Definition binaryUnits : list (string * Z) :=
  [("TiB", Z.shiftl 1 40); ("GiB", Z.shiftl 1 30); ("MiB", Z.shiftl 1 20); ("KiB", Z.shiftl 1 10)].

Fixpoint String_units (units : list (string * Z)) (b : Z) : string :=
  match units with
  | [] => Itoa b
  | (name, size) :: units =>
      if negb (b =? 0) && (Z.rem b size =? 0) then Itoa (Z.quot b size) +:+ name else String_units units b
  end.
Definition ByteSize_String (b : Z) : string := String_units binaryUnits b.

Definition MarshalText (b : Z) : string := ByteSize_String b.

(** The conversion of amd64: the "integer indefinite" value. *)
Definition conv_amd64 (_ : option Z) : Z := - 2 ^ 63.

Example parse_examples :
  ParseByteSize conv_amd64 "50GiB" = Ok (50 * 2 ^ 30) /\ ParseByteSize conv_amd64 " 1.5 gib " = Ok (3 * 2 ^ 29)
  /\ ParseByteSize conv_amd64 "512MB" = Ok 512000000 /\ ParseByteSize conv_amd64 "1073741824" = Ok 1073741824
  /\ is_ok (ParseByteSize conv_amd64 "10XB") = false /\ is_ok (ParseByteSize conv_amd64 "-5") = false /\ is_ok (ParseByteSize conv_amd64 "1.2.3") = false
  /\ is_ok (ParseByteSize conv_amd64 ".GiB") = false /\ is_ok (ParseByteSize conv_amd64 "GiB") = false /\ ParseByteSize conv_amd64 ".5KB" = Ok 500
  /\ ByteSize_String 1500 = "1500" /\ ByteSize_String (50 * 2 ^ 30) = "50GiB" /\ ByteSize_String 0 = "0" /\ ByteSize_String (-1024) = "-1KiB".
Proof. split_and!; vm_compute; reflexivity. Qed.

(** ** Rounding of integers *)
Definition nearest53 (n : Z) : Z := let u := 2 ^ Z.max 0 (Z.log2 n - 52) in rne n u * u.

Lemma grid_pos : 0 < grid.
Proof. by apply Z.pow_pos_nonneg. Qed.

Lemma rne_scale a b c : 0 < b -> 0 < c -> rne (a * c) (b * c) = rne a b.
Proof.
  intros Hb Hc. unfold rne. rewrite Z.div_mul_cancel_r, Z.mul_mod_distr_r by lia.
  set (r := a mod b). clearbody r.
  destruct (Z.ltb_spec (2 * (r * c)) (b * c)), (Z.ltb_spec (2 * r) b); try done; try nia.
  destruct (Z.ltb_spec (b * c) (2 * (r * c))), (Z.ltb_spec b (2 * r)); try done; nia.
Qed.

Lemma rne_exact q u : 0 < u -> rne (q * u) u = q.
Proof. intros Hu. unfold rne. rewrite Z.div_mul, Z.mod_mul by lia. destruct (Z.ltb_spec (2 * 0) u); [done|lia]. Qed.

Lemma rne_0 u : 0 < u -> rne 0 u = 0.
Proof. intros Hu. rewrite <-(Z.mul_0_l u) at 1. by apply rne_exact. Qed.

Lemma nearest53_rep m j : 0 <= m <= 2 ^ 53 -> 0 <= j -> nearest53 (m * 2 ^ j) = m * 2 ^ j.
Proof.
  intros Hm Hj.
  assert (exists m' j', m * 2 ^ j = m' * 2 ^ j' /\ 0 <= m' < 2 ^ 53 /\ 0 <= j') as (m' & j' & -> & Hm' & Hj').
  { destruct (Z.eq_dec m (2 ^ 53)) as [->|]; [exists (2 ^ 52), (j + 1)|exists m, j; lia].
    split; [|lia]. rewrite (Z.add_comm j), Z.pow_add_r by lia. lia. }
  clear m j Hm Hj. unfold nearest53. destruct (Z.eq_dec m' 0) as [->|Hz]; [done|].
  set (e := Z.max 0 (Z.log2 (m' * 2 ^ j') - 52)).
  assert (He : 0 <= e <= j').
  { subst e. rewrite Z.log2_mul_pow2 by lia. assert (Z.log2 m' < 53) by (apply Z.log2_lt_pow2; lia). lia. }
  replace (m' * 2 ^ j') with ((m' * 2 ^ (j' - e)) * 2 ^ e) by (rewrite <-Z.mul_assoc, <-Z.pow_add_r by lia; f_equal; f_equal; lia).
  rewrite rne_exact by (apply Z.pow_pos_nonneg; lia). done.
Qed.

(** A rounded integer has 53 significant bits. *)
Lemma nearest53_bits n : 0 <= n -> exists m j, nearest53 n = m * 2 ^ j /\ 0 <= m <= 2 ^ 53 /\ 0 <= j.
Proof.
  intros Hn. unfold nearest53. set (e := Z.max 0 (Z.log2 n - 52)). exists (rne n (2 ^ e)), e. split; [done|]. split; [|lia].
  destruct (Z.eq_dec n 0) as [->|Hz]; [done|].
  assert (Hp : 0 < 2 ^ e) by (apply Z.pow_pos_nonneg; lia). pose proof (rne_spec n (2 ^ e) Hp) as R.
  assert (n < 2 ^ 53 * 2 ^ e).
  { rewrite <-Z.pow_add_r by lia. eapply Z.lt_le_trans; [apply Z.log2_spec; lia|]. apply Z.pow_le_mono_r; lia. }
  set (q := rne n (2 ^ e)) in *. clearbody q. nia.
Qed.

Lemma nearest53_idem n : 0 <= n -> nearest53 (nearest53 n) = nearest53 n.
Proof. intros Hn. destruct (nearest53_bits n Hn) as (m & j & -> & Hm & Hj). by apply nearest53_rep. Qed.

Lemma nearest53_range n w : 53 <= w -> 0 <= n < 2 ^ w -> 0 <= nearest53 n <= 2 ^ w.
Proof.
  intros Hw Hn. unfold nearest53. set (e := Z.max 0 (Z.log2 n - 52)).
  assert (Hp : 0 < 2 ^ e) by (apply Z.pow_pos_nonneg; lia). pose proof (rne_spec n (2 ^ e) Hp) as R.
  assert (He : 0 <= e <= w). { subst e. destruct (Z.eq_dec n 0) as [->|]; [simpl; lia|]. assert (Z.log2 n < w) by (apply Z.log2_lt_pow2; lia). lia. }
  assert (HD : 2 ^ w = 2 ^ (w - e) * 2 ^ e) by (rewrite <-Z.pow_add_r by lia; f_equal; lia).
  set (q := rne n (2 ^ e)) in *. set (p := 2 ^ e) in *. set (v := 2 ^ (w - e)) in *. clearbody q p v. rewrite HD in *.
  assert (0 <= q <= v); nia.
Qed.

Lemma round64_int k b : 0 <= k < 2 ^ 64 -> 0 < b -> round64 (k * b) b = Some (nearest53 k * grid).
Proof.
  intros Hk Hb. pose proof grid_pos as Hg. unfold round64.
  replace (k * b * grid / b) with (k * grid) by (rewrite <-(Z.div_mul (k * grid) b) by lia; f_equal; lia).
  assert (HE : rne (k * b * grid) (b * 2 ^ Z.max 0 (Z.log2 (k * grid) - 52)) * 2 ^ Z.max 0 (Z.log2 (k * grid) - 52) = nearest53 k * grid).
  { destruct (Z.eq_dec k 0) as [->|Hz]; [rewrite !Z.mul_0_l, rne_0; [done|apply Z.mul_pos_pos; [done|by apply Z.pow_pos_nonneg; lia]]|]. assert (Z.log2 (k * grid) = 1074 + Z.log2 k) as -> by (by apply Z.log2_mul_pow2; lia).
    replace (Z.max 0 (1074 + Z.log2 k - 52)) with (Z.log2 k + 1022) by (pose proof (Z.log2_nonneg k); lia).
    pose proof (Z.log2_nonneg k) as HL. unfold nearest53. set (l := Z.log2 k) in *.
    replace (k * b * grid) with (k * grid * b) by lia. rewrite (Z.mul_comm b), rne_scale by (try apply Z.pow_pos_nonneg; lia).
    assert (HG : 0 < 2 ^ (l + 1022)) by (apply Z.pow_pos_nonneg; lia).
    destruct (Z.le_gt_cases 52 l) as [Hl|Hl].
    - replace (Z.max 0 (l - 52)) with (l - 52) by lia.
      replace (2 ^ (l + 1022)) with (2 ^ (l - 52) * grid) by (unfold grid; rewrite <-Z.pow_add_r by lia; f_equal; lia).
      rewrite rne_scale by (try apply Z.pow_pos_nonneg; lia). by rewrite Z.mul_assoc.
    - replace (Z.max 0 (l - 52)) with 0 by lia. rewrite Z.pow_0_r.
      replace (k * grid) with (k * 2 ^ (52 - l) * 2 ^ (l + 1022)) by (unfold grid; rewrite <-Z.mul_assoc, <-Z.pow_add_r by lia; f_equal; f_equal; lia).
      rewrite rne_exact by lia. replace (rne k 1) with k by (symmetry; rewrite <-(Z.mul_1_r k) at 1; by apply rne_exact). unfold grid.
      rewrite <-(Z.mul_assoc k), <-Z.pow_add_r by lia. replace (52 - l + (l + 1022)) with 1074 by lia. lia. }
  rewrite HE. pose proof (nearest53_range k 64 ltac:(lia) Hk). destruct (Z.ltb_spec (nearest53 k * grid) (2 ^ 1024 * grid)) as [|HX]; [done|].
  apply Z.mul_le_mono_pos_r in HX; [|done]. assert (2 ^ 64 < 2 ^ 1024) by done. lia.
Qed.

(** ** Parsing what String writes *)
Lemma split_num_digits d u :
  all_chars is_digit d = true -> match u with String c _ => num_char c | EmptyString => false end = false -> split_num (d +:+ u) = (d, u).
Proof.
  intros Hd Hu. induction d as [|c d IH].
  - destruct u as [|c u]; [done|]. cbn [String.append split_num]. change ("" +:+ String c u) with (String c u). simpl. by rewrite Hu.
  - simpl in Hd. apply andb_true_iff in Hd as [Hc Hd]. change (String c d +:+ u) with (String c (d +:+ u)). cbn [split_num].
    unfold num_char at 1. rewrite Hc, IH by done. done.
Qed.

Lemma digit_graph c : is_digit c = true -> is_graph c = true.
Proof.
  unfold is_digit, digit, is_graph. destruct (Z.leb_spec 48 (byte_of c)), (Z.leb_spec (byte_of c) 57); try done. intros _.
  apply andb_true_iff. split; apply Z.leb_le; lia.
Qed.

Lemma ParseFloat_Itoa n : 0 <= n < 2 ^ 64 -> ParseFloat (Itoa n) = Some (nearest53 n * grid).
Proof.
  intros Hn. unfold ParseFloat, decimal.
  assert (Cut (Itoa n) "."%char = None) as ->. { apply Cut_None. eapply all_chars_no; [apply Itoa_digits; lia|done]. }
  destruct (String.eqb_spec (Itoa n) "") as [HE|_]; [by apply Itoa_ne in HE; [|lia]|].
  rewrite digits_Itoa by lia. simpl. rewrite <-(round64_int n 1) by lia. by rewrite Z.mul_1_r.
Qed.

Lemma to_int64_grid conv n : to_int64 conv (Some (n * grid)) = if n <? 2 ^ 63 then n else conv (Some (n * grid)).
Proof. unfold to_int64. pose proof grid_pos. by rewrite Z.div_mul by lia. Qed.

Definition unit_ok (name : string) (mult : Z) : Prop :=
  all_chars is_graph name = true /\ match name with String c _ => num_char c | EmptyString => false end = false
  /\ byteUnits (ToLower name) = Some mult.

Lemma Parse_written conv n name mult : 0 <= n < 2 ^ 64 -> unit_ok name mult -> 0 <= nearest53 n * mult < 2 ^ 64 ->
  let v := nearest53 (nearest53 n * mult) in
  ParseByteSize conv (Itoa n +:+ name) = Ok (if v <? 2 ^ 63 then v else conv (Some (v * grid))).
Proof.
  intros Hn (Hg & Hh & Hu) Hm v. pose proof (Itoa_digits n ltac:(lia)) as Hd. pose proof (Itoa_ne n ltac:(lia)) as Hne.
  assert (Hgd : all_chars is_graph (Itoa n) = true) by (eapply all_chars_impl; [apply digit_graph|done]).
  unfold ParseByteSize. rewrite TrimSpace_graph by (by rewrite all_chars_app, Hgd, Hg).
  destruct (String.eqb_spec (Itoa n +:+ name) "") as [HE|_]. { destruct (Itoa n); done. }
  rewrite split_num_digits by done. rewrite TrimSpace_graph, Hu, ParseFloat_Itoa by done.
  pose proof grid_pos. pose proof (nearest53_range n 64 ltac:(lia) Hn).
  destruct (Z.ltb_spec (nearest53 n * grid) 0) as [HX|_]; [exfalso; assert (0 <= nearest53 n * grid) by (apply Z.mul_nonneg_nonneg; lia); lia|].
  unfold mul64. replace (nearest53 n * grid * mult) with (nearest53 n * mult * grid) by ring.
  rewrite round64_int by done. by rewrite to_int64_grid.
Qed.

(** What String writes: a whole number of the largest binary unit that
    divides the size. *)
Definition spelled (b : Z) (s : string) : Prop :=
  exists n name j, s = Itoa n +:+ name /\ b = n * 2 ^ j /\ unit_ok name (2 ^ j)
    /\ (10 <= j \/ (j = 0 /\ (b = 0 \/ b mod 1024 <> 0))).

Lemma String_spelled b : 0 <= b -> spelled b (ByteSize_String b).
Proof.
  intros Hb. unfold ByteSize_String, binaryUnits.
  assert (HU : forall name j rest, 0 <= j -> 10 <= j -> unit_ok name (2 ^ j) -> (b <> 0 -> b mod 2 ^ j <> 0 -> spelled b (String_units rest b)) -> (b = 0 -> spelled b (String_units rest b)) ->
      spelled b (String_units ((name, Z.shiftl 1 j) :: rest) b)).
  { intros name j rest Hj0 Hj Hok Hr Hz. cbn [String_units]. rewrite Z.shiftl_1_l. destruct (Z.eqb_spec b 0) as [E|E]; [auto|]. simpl.
    assert (0 < 2 ^ j) by (apply Z.pow_pos_nonneg; lia). rewrite Z.rem_mod_nonneg, Z.quot_div_nonneg by lia.
    destruct (Z.eqb_spec (b mod 2 ^ j) 0) as [E0|]; [|auto]. exists (b / 2 ^ j), name, j. split_and!; auto.
    rewrite Z.mul_comm. by apply Z_div_exact_full_2; [lia|]. }
  assert (Hend : (b = 0 \/ b mod 1024 <> 0) -> spelled b (String_units [] b)).
  { intros Hc. exists b, "", 0. simpl. rewrite string_app_nil, Z.mul_1_r. split_and!; auto. done. }
  repeat (apply HU; [lia|lia|by vm_compute|intros ??|intros ?]); auto.
Qed.

Lemma spelled_nearest b s : 0 <= b < 2 ^ 63 -> spelled b s -> forall conv,
  ParseByteSize conv s = Ok (if nearest53 b <? 2 ^ 63 then nearest53 b else conv (Some (nearest53 b * grid))).
Proof.
  intros Hb (n & name & j & -> & -> & Hok & Hj) conv. set (p := 2 ^ j) in *.
  assert (Hp : 0 < p) by (apply Z.pow_pos_nonneg; lia). assert (Hn : 0 <= n < 2 ^ 63) by nia.
  destruct Hj as [Hj|[-> _]].
  - assert (HP : 2 ^ 10 <= p) by (apply Z.pow_le_mono_r; lia).
    assert (n <= 2 ^ 53) by (change (2 ^ 63) with (2 ^ 53 * 2 ^ 10) in Hb; nia).
    assert (Hn53 : nearest53 n = n). { rewrite <-(Z.mul_1_r n). apply (nearest53_rep n 0); lia. }
    rewrite (Parse_written conv n name p) by (try done; rewrite ?Hn53; lia). by rewrite Hn53.
  - subst p. rewrite Z.pow_0_r in *. pose proof (nearest53_range n 63 ltac:(lia) Hn).
    rewrite (Parse_written conv n name 1) by (try done; lia). rewrite !Z.mul_1_r, nearest53_idem by lia. done.
Qed.

(** What UnmarshalText reads of what MarshalText wrote. *)
Lemma UnmarshalText_MarshalText conv old b : 0 <= b < 2 ^ 63 ->
  UnmarshalText conv old (MarshalText b)
    = (if nearest53 b <? 2 ^ 63 then nearest53 b else conv (Some (nearest53 b * grid)), None)
  /\ (b <= 2 ^ 53 \/ b mod 1024 = 0 -> UnmarshalText conv old (MarshalText b) = (b, None)).
Proof.
  intros Hb. unfold UnmarshalText, MarshalText. rewrite (spelled_nearest b _ Hb (String_spelled b ltac:(lia)) conv). split; [done|].
  intros Hr. assert (nearest53 b = b) as ->.
  { destruct Hr as [Hr|Hr]; [rewrite <-(Z.mul_1_r b); apply (nearest53_rep b 0); lia|].
    rewrite (Z_div_exact_full_2 b 1024 ltac:(lia) Hr). rewrite (Z.mul_comm 1024). apply (nearest53_rep _ 10); [|lia].
    change (2 ^ 63) with (2 ^ 53 * 1024) in Hb. pose proof (Z.div_lt_upper_bound b 1024 (2 ^ 53)). pose proof (Z.div_pos b 1024). lia. }
  destruct (Z.ltb_spec b (2 ^ 63)); [done|lia].
Qed.

(** A negative size is written with a sign that ParseByteSize does not take. *)
Lemma Itoa_neg_graph p : all_chars is_graph (Itoa (Z.neg p)) = true.
Proof.
  change (Itoa (Z.neg p)) with (String "-"%char (Itoa (Z.pos p))). cbn [all_chars]. apply andb_true_iff. split; [done|].
  eapply all_chars_impl; [apply digit_graph|by apply Itoa_digits].
Qed.
Lemma ToLower_minus s : exists r, ToLower (String "-"%char s) = String "-"%char r.
Proof. unfold ToLower. change (bytes_of (String "-" s)) with (45 :: bytes_of s). eexists. reflexivity. Qed.
Lemma Parse_signed conv p name : all_chars is_graph name = true -> exists e, ParseByteSize conv (Itoa (Z.neg p) +:+ name) = Err e.
Proof.
  intros Hg. unfold ParseByteSize. rewrite TrimSpace_graph by (by rewrite all_chars_app, Itoa_neg_graph).
  change (Itoa (Z.neg p) +:+ name) with (String "-"%char (Itoa (Z.pos p) +:+ name)). cbn [String.eqb split_num].
  change (num_char "-"%char) with false. cbv iota.
  rewrite (TrimSpace_graph (String "-" _)).
  2:{ change (String "-" (Itoa (Z.pos p) +:+ name)) with (Itoa (Z.neg p) +:+ name). by rewrite all_chars_app, Itoa_neg_graph. }
  destruct (ToLower_minus (Itoa (Z.pos p) +:+ name)) as [r ->]. eexists. reflexivity.
Qed.
Lemma String_negative b : b < 0 -> exists p name, ByteSize_String b = Itoa (Z.neg p) +:+ name /\ all_chars is_graph name = true.
Proof.
  intros Hb. unfold ByteSize_String. assert (HU : forall units, Forall (fun u => 0 < u.2 /\ all_chars is_graph u.1 = true) units ->
    exists p name, String_units units b = Itoa (Z.neg p) +:+ name /\ all_chars is_graph name = true).
  { induction 1 as [|[name size] units [Hs Hn] _ IH]; cbn [String_units].
    - destruct b as [| |p]; try lia. exists p, "". by rewrite string_app_nil.
    - destruct (_ && _) eqn:E; [|done]. apply andb_true_iff in E as [_ E%Z.eqb_eq]. simpl in *.
      pose proof (Z.quot_rem' b size). assert (Z.quot b size < 0) by nia. destruct (Z.quot b size) as [| |p]; try lia. by exists p, name. }
  apply HU. repeat (apply Forall_cons; split; [done|]). constructor.
Qed.
Lemma UnmarshalText_negative conv old b : b < 0 -> exists e, UnmarshalText conv old (MarshalText b) = (old, Some e).
Proof.
  intros Hb. unfold UnmarshalText, MarshalText. destruct (String_negative b Hb) as (p & name & -> & Hg).
  destruct (Parse_signed conv p name Hg) as [e ->]. by exists e.
Qed.

(** C28: a size written by MarshalText is read back by UnmarshalText without
    error, as the float64 nearest to it; it is read back exactly when it has
    at most 53 bits or is a whole number of KiB, whatever the platform does
    with a float64 outside the int64 range. *)
Theorem ByteSize_roundtrip conv old b : 0 <= b < 2 ^ 63 ->
  UnmarshalText conv old (MarshalText b)
    = (if nearest53 b <? 2 ^ 63 then nearest53 b else conv (Some (nearest53 b * grid)), None)
  /\ (b <= 2 ^ 53 \/ b mod 1024 = 0 -> UnmarshalText conv old (MarshalText b) = (b, None)).
Proof. apply UnmarshalText_MarshalText. Qed.

Lemma ByteSize_roundtrip_witness :
  UnmarshalText conv_amd64 7 (MarshalText (50 * 2 ^ 30)) = (50 * 2 ^ 30, None) /\ MarshalText (50 * 2 ^ 30) = "50GiB".
Proof. split; [apply (ByteSize_roundtrip conv_amd64 7 (50 * 2 ^ 30)); [lia|by right]|by vm_compute]. Defined.

(** An error leaves the receiver as it was and wraps ErrInvalidByteSize. *)
Lemma UnmarshalText_error conv b text v e : UnmarshalText conv b text = (v, Some e) -> v = b /\ errors_Is e ErrInvalidByteSize = true.
Proof.
  unfold UnmarshalText, ParseByteSize. intros H. repeat case_match; simplify_eq; done.
Qed.

(** The product with the unit is truncated, not rounded, so a decimal
    size can come out one byte short: "4.1GB" is 4099999999 bytes; and a
    size outside the int64 range is accepted with whatever value the
    platform's conversion gives. *)
Theorem ParseByteSize_inexact conv :
  ParseByteSize conv "4.1GB" = Ok 4099999999
  /\ ParseByteSize conv "1.001KB" = Ok 1000
  /\ ParseByteSize conv "9007199254740993" = Ok 9007199254740992
  /\ ParseByteSize conv "8388608TiB" = Ok (conv (Some (2 ^ 63 * grid))).
Proof. split_and!; vm_compute; reflexivity. Qed.
