(* ===== verification/ConfigShow.v ===== *)
(** * internal/config/show.go: the redaction by reflection

    [value] is what package reflect shows of a Go value, and [Reflect] gives
    the view of each type of types.go.  [redactValue] is the walk; it is
    proved to do on the schema what [ConfigLoad.redactedFields] says field by
    field.  The copy that is walked goes through YAML: package yaml is a
    parameter, and the law of it is that it brings every value back, a
    [ByteSize] through its own MarshalText and UnmarshalText. *)
From S2P Require Import Prelude GoModel ConfigTypes ConfigImage ConfigDefaults ConfigValid ConfigLoad ByteSize.

(** A Go value by its kind.  A string says whether its type is [Secret], a map
    whether that is the type of its elements. *)
Inductive value :=
  | VBool (b : bool)
  | VInt (n : Z)
  | VString (secret : bool) (s : string)
  | VPointer (p : option value)
  | VInterface (i : option value)
  | VStruct (fields : list (string * value))
  | VSlice (elems : list value)
  | VMap (secretElems : bool) (entries : list (string * value)).

(** The methods that print a Secret. *)
Definition Secret_String (s : string) : string := if String.eqb s "" then "" else RedactedMark.

(** The entry of a map of Secrets. *)
Definition redact_entry (v : value) : value :=
  match v with VString sec s => VString sec (if String.eqb s "" then s else RedactedMark) | v => v end.

(** [canSet] is [v.CanSet()]: what a pointer or a slice holds can be set, what
    an interface holds cannot, and a field is as its struct. *)
Fixpoint redactValue (canSet : bool) (v : value) : value :=
  match v with
  | VPointer (Some v) => VPointer (Some (redactValue true v))
  | VInterface (Some v) => VInterface (Some (redactValue false v))
  | VStruct fields => VStruct (map (fun '(n, v) => (n, redactValue canSet v)) fields)
  | VSlice elems => VSlice (map (redactValue true) elems)
  | VMap true entries => VMap true (map (fun '(k, v) => (k, redact_entry v)) entries)
  | VString true s => VString true (if canSet && negb (String.eqb s "") then RedactedMark else s)
  | v => v
  end.

(** ** The walk on any schema *)

(** The Secrets of a value. *)
Fixpoint secrets_of (v : value) : list string :=
  match v with
  | VString true s => [s]
  | VPointer (Some v) | VInterface (Some v) => secrets_of v
  | VStruct fields => concat (map (fun '(_, v) => secrets_of v) fields)
  | VSlice elems => concat (map secrets_of elems)
  | VMap true entries => concat (map (fun '(_, v) => match v with VString _ s => [s] | _ => [] end) entries)
  | VMap false entries => concat (map (fun '(_, v) => secrets_of v) entries)
  | _ => []
  end.

(** Where the walk reaches every Secret: there is no interface, and a map has
    Secrets as its elements or none inside them. *)
Fixpoint walkable (v : value) : bool :=
  match v with
  | VPointer (Some v) => walkable v
  | VInterface (Some _) => false
  | VStruct fields => forallb (fun '(_, v) => walkable v) fields
  | VSlice elems => forallb walkable elems
  | VMap true entries => forallb (fun '(_, v) => match v with VString _ _ => true | _ => false end) entries
  | VMap false entries => forallb (fun '(_, v) => bool_decide (secrets_of v = [])) entries
  | _ => true
  end.

Definition marked (s : string) : Prop := s = "" \/ s = RedactedMark.

Fixpoint value_nested (P : value -> Prop)
  (Hb : forall b, P (VBool b)) (Hi : forall n, P (VInt n)) (Hs : forall sec s, P (VString sec s))
  (Hp : forall p, (forall v, p = Some v -> P v) -> P (VPointer p)) (Hf : forall p, (forall v, p = Some v -> P v) -> P (VInterface p))
  (Ht : forall fs, Forall (fun f => P f.2) fs -> P (VStruct fs)) (Hl : forall vs, Forall P vs -> P (VSlice vs))
  (Hm : forall sec es, Forall (fun e => P e.2) es -> P (VMap sec es)) (v : value) : P v :=
  let go := value_nested P Hb Hi Hs Hp Hf Ht Hl Hm in
  let fix pairs (l : list (string * value)) : Forall (fun f => P f.2) l :=
    match l with [] => Forall_nil_2 _ | (n, v) :: l => Forall_cons_2 _ (n, v) _ (go v) (pairs l) end in
  let fix elems (l : list value) : Forall P l := match l with [] => Forall_nil_2 _ | v :: l => Forall_cons_2 _ v _ (go v) (elems l) end in
  match v with
  | VBool b => Hb b | VInt n => Hi n | VString sec s => Hs sec s
  | VPointer None => Hp None (fun v H => match H in _ = o return match o with Some v => P v | None => True end with eq_refl => I end)
  | VPointer (Some w) => Hp (Some w) (fun v H => match H in _ = o return match o with Some v => P v | None => True end with eq_refl => go w end)
  | VInterface None => Hf None (fun v H => match H in _ = o return match o with Some v => P v | None => True end with eq_refl => I end)
  | VInterface (Some w) => Hf (Some w) (fun v H => match H in _ = o return match o with Some v => P v | None => True end with eq_refl => go w end)
  | VStruct fs => Ht fs (pairs fs) | VSlice vs => Hl vs (elems vs) | VMap sec es => Hm sec es (pairs es)
  end.

Lemma concat_map_nil {A B} (f : A -> list B) l : concat (map f l) = [] -> Forall (fun x => f x = []) l.
Proof. induction l as [|x l IH]; simpl; [constructor|]. intros [Hx Hl]%app_nil. constructor; auto. Qed.

Lemma concat_map_Forall {A B} (P : B -> Prop) (f : A -> list B) l : Forall (fun x => Forall P (f x)) l -> Forall P (concat (map f l)).
Proof. induction 1 as [|x l Hx _ IH]; simpl; [constructor|by apply Forall_app]. Qed.

(** A value with no Secret is left as it is. *)
Lemma redact_none v : forall canSet, secrets_of v = [] -> redactValue canSet v = v.
Proof.
  induction v as [b|n|sec s|p IH|p IH|fs IH|vs IH|sec es IH] using value_nested; intros canSet H; simpl in *; try done.
  - by destruct sec.
  - destruct p as [v|]; [|done]. by rewrite IH.
  - destruct p as [v|]; [|done]. by rewrite IH.
  - f_equal. apply concat_map_nil in H. revert IH H. induction fs as [|[n v] fs IHf]; intros IH H; [done|].
    inversion IH; inversion H; simpl in *; subst. f_equal; [f_equal; auto|auto].
  - f_equal. apply concat_map_nil in H. revert IH H. induction vs as [|v vs IHf]; intros IH H; [done|].
    inversion IH; inversion H; simpl in *; subst. f_equal; auto.
  - destruct sec; [|done]. f_equal. apply concat_map_nil in H. clear IH. induction es as [|[k v] es IHe]; [done|].
    inversion H; simpl in *; subst. f_equal; [|auto]. f_equal. by destruct v.
Qed.

(** Every Secret the walk reaches is redacted, ... *)
Lemma redact_marked v : walkable v = true -> Forall marked (secrets_of (redactValue true v)).
Proof.
  induction v as [b|n|sec s|p IH|p IH|fs IH|vs IH|sec es IH] using value_nested; intros H; simpl in *; try constructor.
  - destruct sec; simpl; [|constructor]. constructor; [|constructor]. destruct (String.eqb_spec s "") as [->|]; [by left|by right].
  - destruct p as [v|]; [by apply IH|constructor].
  - by destruct p.
  - apply concat_map_Forall, Forall_map. rewrite forallb_forall in H. rewrite Forall_forall in *. intros [n v] Hin. simpl.
    apply (IH (n, v) Hin). by apply (H (n, v)), list_elem_of_In.
  - apply concat_map_Forall, Forall_map. rewrite forallb_forall in H. rewrite Forall_forall in *. intros v Hin.
    apply (IH v Hin). by apply H, list_elem_of_In.
  - destruct sec; simpl in *; rewrite forallb_forall in H; apply concat_map_Forall; [apply Forall_map|]; rewrite Forall_forall; intros [k v] Hin; simpl.
    + destruct v; simpl; try constructor; [|constructor]. destruct (String.eqb_spec s "") as [->|]; [by left|by right].
    + specialize (H (k, v) ltac:(by apply list_elem_of_In)). simpl in H. bool_to_prop. rewrite H. constructor.
Qed.

(** ... and nothing else changes. *)
Fixpoint unsecret (v : value) : value :=
  match v with
  | VString true _ => VString true ""
  | VPointer (Some v) => VPointer (Some (unsecret v))
  | VInterface (Some v) => VInterface (Some (unsecret v))
  | VStruct fields => VStruct (map (fun '(n, v) => (n, unsecret v)) fields)
  | VSlice elems => VSlice (map unsecret elems)
  | VMap true entries => VMap true (map (fun '(k, v) => (k, match v with VString sec _ => VString sec "" | v => v end)) entries)
  | v => v
  end.

Lemma redact_keeps v : forall canSet, unsecret (redactValue canSet v) = unsecret v.
Proof.
  induction v as [b|n|sec s|p IH|p IH|fs IH|vs IH|sec es IH] using value_nested; intros canSet; simpl; try done.
  - by destruct sec.
  - destruct p as [v|]; simpl; [by rewrite IH|done].
  - destruct p as [v|]; simpl; [by rewrite IH|done].
  - f_equal. rewrite map_map. apply map_ext_in. intros [n v] Hin. rewrite Forall_forall in IH. f_equal. apply (IH (n, v)). by apply list_elem_of_In.
  - f_equal. rewrite map_map. apply map_ext_in. intros v Hin. rewrite Forall_forall in IH. apply (IH v). by apply list_elem_of_In.
  - destruct sec; simpl; [|done]. f_equal. rewrite map_map. apply map_ext. intros [k v]. by destruct v.
Qed.

(** ** The schema *)
Class Reflect (A : Type) := value_of : A -> value.
#[export] Instance value_bool : Reflect bool := VBool.
#[export] Instance value_Z : Reflect Z := VInt.
#[export] Instance value_string : Reflect string := VString false.
#[export] Instance value_option {A} `{Reflect A} : Reflect (option A) := fun o => VPointer (value_of <$> o).
#[export] Instance value_list {A} `{Reflect A} : Reflect (list A) := fun l => VSlice (value_of <$> l).
#[export] Instance value_gmap {A} `{Reflect A} : Reflect (gmap string A) :=
  fun m => VMap false (prod_map id value_of <$> map_to_list m).

#[export] Instance value_ClientTLS : Reflect ClientTLS := fun r =>
  VStruct [("CAFile", value_of (tls_CAFile r)); ("CertFile", value_of (tls_CertFile r)); ("KeyFile", value_of (tls_KeyFile r));
    ("Insecure", value_of (tls_Insecure r))].
#[export] Instance value_Kernel : Reflect Kernel := fun r =>
  VStruct [("Image", value_of (k_Image r)); ("Filename", value_of (k_Filename r)); ("Cmdline", value_of (k_Cmdline r))].
#[export] Instance value_Initrd : Reflect Initrd := fun r =>
  VStruct [("Image", value_of (i_Image r)); ("Filename", value_of (i_Filename r))].
#[export] Instance value_Volume : Reflect Volume := fun r =>
  VStruct [("ID", value_of (v_ID r)); ("Image", value_of (v_Image r)); ("MountPoint", value_of (v_MountPoint r));
    ("ReadOnly", value_of (v_ReadOnly r)); ("SizeMB", value_of (v_SizeMB r))].
#[export] Instance value_SSHTransport : Reflect SSHTransport := fun r =>
  VStruct [("User", value_of (ssh_User r)); ("PrivateKeyFile", value_of (ssh_PrivateKeyFile r));
    ("KnownHostKey", value_of (ssh_KnownHostKey r))].
#[export] Instance value_Transport : Reflect Transport := fun r =>
  VStruct [("Kind", value_of (tr_Kind r)); ("SSH", value_of (tr_SSH r))].
#[export] Instance value_PoolSettings : Reflect PoolSettings := fun r =>
  VStruct [("Size", value_of (ps_Size r)); ("Name", value_of (ps_Name r)); ("Namespace", value_of (ps_Namespace r));
    ("Strategy", value_of (ps_Strategy r)); ("MinSize", value_of (ps_MinSize r)); ("CreateHooks", value_of (ps_CreateHooks r));
    ("PreLeaseHooks", value_of (ps_PreLeaseHooks r)); ("HookFailurePolicy", value_of (ps_HookFailurePolicy r));
    ("HeartbeatInterval", value_of (ps_HeartbeatInterval r)); ("HeartbeatExpiry", value_of (ps_HeartbeatExpiry r))].
#[export] Instance value_ProfileConfig : Reflect ProfileConfig := fun r =>
  VStruct [("Name", value_of (p_Name r)); ("Arch", value_of (p_Arch r)); ("VCPU", value_of (p_VCPU r));
    ("MemoryMB", value_of (p_MemoryMB r)); ("Kernel", value_of (p_Kernel r)); ("Initrd", value_of (p_Initrd r));
    ("RootFS", value_of (p_RootFS r)); ("AdditionalVolumes", value_of (p_AdditionalVolumes r));
    ("Provider", value_of (p_Provider r)); ("UserData", value_of (p_UserData r)); ("Shell", value_of (p_Shell r));
    ("BuildsDir", value_of (p_BuildsDir r)); ("CacheDir", value_of (p_CacheDir r)); ("HelperPath", value_of (p_HelperPath r));
    ("Images", value_of (p_Images r)); ("ImageGlobs", value_of (p_ImageGlobs r)); ("Default", value_of (p_Default r));
    ("Transport", value_of (p_Transport r)); ("User", value_of (p_User r)); ("ReadyTimeout", value_of (p_ReadyTimeout r));
    ("HostSelector", value_of (p_HostSelector r)); ("MaxConcurrency", value_of (p_MaxConcurrency r));
    ("Pool", value_of (p_Pool r))].
#[export] Instance value_HostServiceAddresses : Reflect HostServiceAddresses := fun r =>
  VStruct [("Buildkit", value_of (sa_Buildkit r)); ("GoProxy", value_of (sa_GoProxy r));
    ("RegistryMirror", value_of (sa_RegistryMirror r)); ("HTTPCache", value_of (sa_HTTPCache r))].
#[export] Instance value_InstalledVersions : Reflect InstalledVersions := fun r =>
  VStruct [("Flintlock", value_of (iv_Flintlock r)); ("Firecracker", value_of (iv_Firecracker r));
    ("CloudHypervisor", value_of (iv_CloudHypervisor r)); ("Containerd", value_of (iv_Containerd r))].
#[export] Instance value_HostEntry : Reflect HostEntry := fun r =>
  VStruct [("Name", value_of (he_Name r)); ("Endpoint", value_of (he_Endpoint r)); ("Arch", value_of (he_Arch r));
    ("VCPU", value_of (he_VCPU r)); ("MemoryMB", value_of (he_MemoryMB r)); ("Labels", value_of (he_Labels r));
    ("Token", VString true (he_Token r)); ("TLS", value_of (he_TLS r)); ("Services", value_of (he_Services r));
    ("Versions", value_of (he_Versions r))].
#[export] Instance value_Inventory : Reflect Inventory := fun r =>
  VStruct [("File", value_of (inv_File r)); ("Hosts", value_of (inv_Hosts r))].
#[export] Instance value_SchedulerConfig : Reflect SchedulerConfig := fun r =>
  VStruct [("Namespace", value_of (sc_Namespace r)); ("AllocationTimeout", value_of (sc_AllocationTimeout r));
    ("HostHealthInterval", value_of (sc_HostHealthInterval r));
    ("HostUnhealthyThreshold", value_of (sc_HostUnhealthyThreshold r)); ("HostCallDeadline", value_of (sc_HostCallDeadline r));
    ("KeepOnFailure", value_of (sc_KeepOnFailure r)); ("KeepDuration", value_of (sc_KeepDuration r));
    ("AllowDefaultForUnknownImages", value_of (sc_AllowDefaultForUnknownImages r))].
#[export] Instance value_ServingCAConfigMap : Reflect ServingCAConfigMap := fun r =>
  VStruct [("Namespace", value_of (ca_Namespace r)); ("Name", value_of (ca_Name r)); ("Key", value_of (ca_Key r))].
#[export] Instance value_ClaimPools : Reflect ClaimPools := fun r =>
  VStruct [("Kubeconfig", value_of (cl_Kubeconfig r)); ("Context", value_of (cl_Context r));
    ("Namespace", value_of (cl_Namespace r)); ("HolderServiceAccount", value_of (cl_HolderServiceAccount r));
    ("ServingCA", value_of (cl_ServingCA r))].
#[export] Instance value_PoolManagerConfig : Reflect PoolManagerConfig := fun r =>
  VStruct [("Backend", value_of (pm_Backend r)); ("Claim", value_of (pm_Claim r)); ("Endpoint", value_of (pm_Endpoint r));
    ("TLS", value_of (pm_TLS r)); ("Deadline", value_of (pm_Deadline r)); ("HealthBackoff", value_of (pm_HealthBackoff r));
    ("HealthInterval", value_of (pm_HealthInterval r)); ("HealthFailureThreshold", value_of (pm_HealthFailureThreshold r));
    ("EventsPollInterval", value_of (pm_EventsPollInterval r)); ("DeclareRetryInterval", value_of (pm_DeclareRetryInterval r));
    ("ReleaseRetryLimit", value_of (pm_ReleaseRetryLimit r))].
#[export] Instance value_GitLab : Reflect GitLab := fun r =>
  VStruct [("URL", value_of (gl_URL r)); ("Token", VString true (gl_Token r)); ("Name", value_of (gl_Name r));
    ("Concurrent", value_of (gl_Concurrent r)); ("CheckInterval", value_of (gl_CheckInterval r));
    ("OutputLimitKB", value_of (gl_OutputLimitKB r)); ("ShutdownTimeout", value_of (gl_ShutdownTimeout r));
    ("TLS", value_of (gl_TLS r)); ("AllowInsecure", value_of (gl_AllowInsecure r))].
#[export] Instance value_ExecutorConfig : Reflect ExecutorConfig := fun r =>
  VStruct [("PrepareTimeout", value_of (ex_PrepareTimeout r)); ("GracefulKillTimeout", value_of (ex_GracefulKillTimeout r));
    ("TransportDeadline", value_of (ex_TransportDeadline r))].
#[export] Instance value_Service : Reflect Service := fun r =>
  VStruct [("Enabled", value_of (svc_Enabled r)); ("Port", value_of (svc_Port r))].
#[export] Instance value_Buildkit : Reflect Buildkit := fun r =>
  VStruct [("Service", value_of (bk_Service r)); ("StorageLimit", value_of (bk_StorageLimit r));
    ("GCPolicy", value_of (bk_GCPolicy r))].
#[export] Instance value_GoProxy : Reflect GoProxy := fun r =>
  VStruct [("Service", value_of (gp_Service r)); ("Upstream", value_of (gp_Upstream r));
    ("PrivatePatterns", value_of (gp_PrivatePatterns r)); ("PrivateVCSHost", value_of (gp_PrivateVCSHost r));
    ("CredentialParameter", value_of (gp_CredentialParameter r));
    ("PrivateRevalidateInterval", value_of (gp_PrivateRevalidateInterval r)); ("StorageLimit", value_of (gp_StorageLimit r));
    ("Prewarm", value_of (gp_Prewarm r))].
#[export] Instance value_RegistryUpstream : Reflect RegistryUpstream := fun r =>
  VStruct [("URL", value_of (ru_URL r)); ("CredentialParameter", value_of (ru_CredentialParameter r))].
#[export] Instance value_RegistryMirror : Reflect RegistryMirror := fun r =>
  VStruct [("Service", value_of (rm_Service r)); ("Upstreams", value_of (rm_Upstreams r));
    ("StorageLimit", value_of (rm_StorageLimit r)); ("Prewarm", value_of (rm_Prewarm r))].
#[export] Instance value_HTTPCacheUpstream : Reflect HTTPCacheUpstream := fun r =>
  VStruct [("Name", value_of (hu_Name r)); ("URL", value_of (hu_URL r)); ("SizeLimit", value_of (hu_SizeLimit r));
    ("TTL", value_of (hu_TTL r)); ("EnvVar", value_of (hu_EnvVar r))].
#[export] Instance value_HTTPCache : Reflect HTTPCache := fun r =>
  VStruct [("Service", value_of (hc_Service r)); ("Upstreams", value_of (hc_Upstreams r))].
#[export] Instance value_CacheVolume : Reflect CacheVolume := fun r =>
  VStruct [("Device", value_of (cv_Device r)); ("Directory", value_of (cv_Directory r)); ("SizeCap", value_of (cv_SizeCap r))].
#[export] Instance value_HostServices : Reflect HostServices := fun r =>
  VStruct [("Buildkit", value_of (hs_Buildkit r)); ("GoProxy", value_of (hs_GoProxy r));
    ("RegistryMirror", value_of (hs_RegistryMirror r)); ("HTTPCache", value_of (hs_HTTPCache r));
    ("CacheVolume", value_of (hs_CacheVolume r))].
#[export] Instance value_DistributedCache : Reflect DistributedCache := fun r =>
  VStruct [("Bucket", value_of (dc_Bucket r)); ("Region", value_of (dc_Region r)); ("Prefix", value_of (dc_Prefix r));
    ("Endpoint", value_of (dc_Endpoint r)); ("Insecure", value_of (dc_Insecure r))].
#[export] Instance value_Observability : Reflect Observability := fun r =>
  VStruct [("LogFormat", value_of (ob_LogFormat r)); ("LogLevel", value_of (ob_LogLevel r));
    ("ListenAddress", value_of (ob_ListenAddress r))].
#[export] Instance value_Config : Reflect Config := fun r =>
  VStruct [("GitLab", value_of (c_GitLab r)); ("Profiles", value_of (c_Profiles r)); ("Inventory", value_of (c_Inventory r));
    ("PoolManager", value_of (c_PoolManager r)); ("Scheduler", value_of (c_Scheduler r));
    ("Executor", value_of (c_Executor r)); ("HostServices", value_of (c_HostServices r));
    ("DistributedCache", value_of (c_DistributedCache r)); ("Observability", value_of (c_Observability r));
    ("StateDir", value_of (c_StateDir r))].

(** ** The copy *)

(** [Redacted] returns the copy, or panics where it cannot be made. *)
Inductive shown := Shown (v : value) | Panicked (e : error).

Section Clone.
(** [yaml.Marshal] and [yaml.Unmarshal] into a zero Config; the documents
    between them are package yaml's own. *)
Context {document : Type} (Marshal : Config -> result document) (Unmarshal : document -> result Config).

Definition cloneConfig (c : Config) : result Config :=
  match Marshal c with
  | Err e => Err e
  | Ok data => match Unmarshal data with Err e => Err e | Ok out => Ok out end
  end.

(** The walk is on what the pointer to the clone holds. *)
Definition Redacted_value (c : Config) : shown :=
  match cloneConfig c with
  | Err e => Panicked (EWrap "config: clone: " [e])
  | Ok clone => Shown (redactValue true (value_of clone))
  end.

(** [encode] is the encoder with its Close, [write] the writer: the text
    handed to it, if any, and the error, or the panic of [Redacted]. *)
Definition Show (encode : value -> result string) (write : string -> option error) (c : Config) : error + (option string * option error) :=
  match Redacted_value c with
  | Panicked e => inl e
  | Shown v =>
      inr match encode v with
          | Err e => (None, Some (EWrap "config: show" [e]))
          | Ok y =>
              let out := "# flintlock-runner effective configuration; secrets are redacted." +:+ String (Ascii.ascii_of_nat 10) y in
              (Some out, match write out with Some e => Some (EWrap "config: show" [e]) | None => None end)
          end
  end.
End Clone.

(** The byte sizes of a configuration. *)
Definition byte_sizes (c : Config) : list Z :=
  let hs := c_HostServices c in
  [bk_StorageLimit (hs_Buildkit hs); gp_StorageLimit (hs_GoProxy hs); rm_StorageLimit (hs_RegistryMirror hs)]
  ++ (hu_SizeLimit <$> hc_Upstreams (hs_HTTPCache hs)) ++ [cv_SizeCap (hs_CacheVolume hs)].
Definition map_sizes (f : Z -> Z) (c : Config) : Config :=
  let hs := c_HostServices c in
  c <| c_HostServices := hs
    <| hs_Buildkit := (hs_Buildkit hs) <| bk_StorageLimit := f (bk_StorageLimit (hs_Buildkit hs)) |> |>
    <| hs_GoProxy := (hs_GoProxy hs) <| gp_StorageLimit := f (gp_StorageLimit (hs_GoProxy hs)) |> |>
    <| hs_RegistryMirror := (hs_RegistryMirror hs) <| rm_StorageLimit := f (rm_StorageLimit (hs_RegistryMirror hs)) |> |>
    <| hs_HTTPCache := (hs_HTTPCache hs) <| hc_Upstreams := (fun u => u <| hu_SizeLimit := f (hu_SizeLimit u) |>) <$> hc_Upstreams (hs_HTTPCache hs) |> |>
    <| hs_CacheVolume := (hs_CacheVolume hs) <| cv_SizeCap := f (cv_SizeCap (hs_CacheVolume hs)) |> |> |>.
(** A size that is written as text and read into a zero field. *)
Definition through_text (conv : option Z -> Z) (b : Z) : Z * option error := UnmarshalText conv 0 (MarshalText b).

(** What package yaml documents: every value of the schema can be written, and
    is read back as it was, but for the types that marshal themselves as text,
    which are read back by their UnmarshalText; its error is the call's. *)
Class YamlLaws {document : Type} (conv : option Z -> Z) (Marshal : Config -> result document) (Unmarshal : document -> result Config) : Prop := {
  yaml_writes : forall c, exists data, Marshal c = Ok data;
  yaml_reads : forall c data, Marshal c = Ok data -> Forall (fun b => (through_text conv b).2 = None) (byte_sizes c) ->
    Unmarshal data = Ok (map_sizes (fun b => (through_text conv b).1) c);
  yaml_fails : forall c data, Marshal c = Ok data -> Exists (fun b => (through_text conv b).2 <> None) (byte_sizes c) ->
    exists e, Unmarshal data = Err e
}.

Lemma map_sizes_id f c : Forall (fun b => f b = b) (byte_sizes c) -> map_sizes f c = c.
Proof.
  unfold byte_sizes. cbn [app]. intros H. inversion_clear H as [|? ? H1 H']. inversion_clear H' as [|? ? H2 H'']. inversion_clear H'' as [|? ? H3 H4].
  apply Forall_app in H4 as [H4 H5]. inversion_clear H5 as [|? ? H6 _]. unfold map_sizes.
  destruct c as [gl ps iv pm sc ex [[bs bl bg] [gs gu gpp gv gc gr gl' gw] [rs ru rl rw] [hs us] [d di cap]] dc ob sd].
  cbn in *. rewrite H1, H2, H3, H6. assert ((fun u => u <| hu_SizeLimit := f (hu_SizeLimit u) |>) <$> us = us) as HU.
  { clear -H4. induction us as [|[n u l t e] us IH]; [done|]. inversion_clear H4 as [|? ? Hl H4']. rewrite fmap_cons, (IH H4'). cbn in *. by rewrite Hl. }
  cbn in HU. by rewrite HU.
Qed.

(** ** The walk on the schema *)

(** A type with no Secret in it. *)
Class Plain (A : Type) `{Reflect A} := plain : forall x : A, secrets_of (value_of x) = [] /\ walkable (value_of x) = true.
#[export] Instance plain_bool : Plain bool.
Proof. done. Qed.
#[export] Instance plain_Z : Plain Z.
Proof. done. Qed.
#[export] Instance plain_string : Plain string.
Proof. done. Qed.
#[export] Instance plain_option {A} `{Plain A} : Plain (option A).
Proof. intros [x|]; [|done]. apply (plain x). Qed.
#[export] Instance plain_list {A} `{Plain A} : Plain (list A).
Proof.
  intros l. unfold value_of, value_list. simpl. induction l as [|x l [IH1 IH2]]; [done|]. rewrite fmap_cons. simpl.
  destruct (plain x) as [H1 H2]. unfold value_of in *. by rewrite H1, H2.
Qed.
#[export] Instance plain_gmap {A} `{Plain A} : Plain (gmap string A).
Proof.
  intros m. unfold value_of, value_gmap. simpl. induction (map_to_list m) as [|[k x] l [IH1 IH2]]; [done|]. rewrite fmap_cons. simpl.
  destruct (plain x) as [H1 H2]. unfold value_of in *. by rewrite H1.
Qed.

Lemma plain_fields fs : Forall (fun f => secrets_of f.2 = [] /\ walkable f.2 = true) fs -> secrets_of (VStruct fs) = [] /\ walkable (VStruct fs) = true.
Proof.
  simpl. induction 1 as [|[n v] fs [H1 H2] _ [IH1 IH2]]; [done|]. simpl in *. by rewrite H1, H2.
Qed.

Ltac plain_record := intros r; apply plain_fields; repeat (apply Forall_cons; split; [apply plain|]); apply Forall_nil; exact I.
#[export] Instance plain_ClientTLS : Plain ClientTLS.
Proof. plain_record. Qed.
#[export] Instance plain_Kernel : Plain Kernel.
Proof. plain_record. Qed.
#[export] Instance plain_Initrd : Plain Initrd.
Proof. plain_record. Qed.
#[export] Instance plain_Volume : Plain Volume.
Proof. plain_record. Qed.
#[export] Instance plain_SSHTransport : Plain SSHTransport.
Proof. plain_record. Qed.
#[export] Instance plain_Transport : Plain Transport.
Proof. plain_record. Qed.
#[export] Instance plain_PoolSettings : Plain PoolSettings.
Proof. plain_record. Qed.
#[export] Instance plain_ProfileConfig : Plain ProfileConfig.
Proof. plain_record. Qed.
#[export] Instance plain_HostServiceAddresses : Plain HostServiceAddresses.
Proof. plain_record. Qed.
#[export] Instance plain_InstalledVersions : Plain InstalledVersions.
Proof. plain_record. Qed.
#[export] Instance plain_SchedulerConfig : Plain SchedulerConfig.
Proof. plain_record. Qed.
#[export] Instance plain_ServingCAConfigMap : Plain ServingCAConfigMap.
Proof. plain_record. Qed.
#[export] Instance plain_ClaimPools : Plain ClaimPools.
Proof. plain_record. Qed.
#[export] Instance plain_PoolManagerConfig : Plain PoolManagerConfig.
Proof. plain_record. Qed.
#[export] Instance plain_ExecutorConfig : Plain ExecutorConfig.
Proof. plain_record. Qed.
#[export] Instance plain_Service : Plain Service.
Proof. plain_record. Qed.
#[export] Instance plain_Buildkit : Plain Buildkit.
Proof. plain_record. Qed.
#[export] Instance plain_GoProxy : Plain GoProxy.
Proof. plain_record. Qed.
#[export] Instance plain_RegistryUpstream : Plain RegistryUpstream.
Proof. plain_record. Qed.
#[export] Instance plain_RegistryMirror : Plain RegistryMirror.
Proof. plain_record. Qed.
#[export] Instance plain_HTTPCacheUpstream : Plain HTTPCacheUpstream.
Proof. plain_record. Qed.
#[export] Instance plain_HTTPCache : Plain HTTPCache.
Proof. plain_record. Qed.
#[export] Instance plain_CacheVolume : Plain CacheVolume.
Proof. plain_record. Qed.
#[export] Instance plain_HostServices : Plain HostServices.
Proof. plain_record. Qed.
#[export] Instance plain_DistributedCache : Plain DistributedCache.
Proof. plain_record. Qed.
#[export] Instance plain_Observability : Plain Observability.
Proof. plain_record. Qed.


Lemma plain_redact {A} `{Plain A} canSet (x : A) : redactValue canSet (value_of x) = value_of x.
Proof. apply redact_none, plain. Qed.

Lemma redact_eq s : (if negb (String.eqb s "") then RedactedMark else s) = redact s.
Proof. unfold redact. by destruct (String.eqb_spec s ""). Qed.

Lemma redact_struct canSet n v fs w gs :
  redactValue canSet v = w -> redactValue canSet (VStruct fs) = VStruct gs -> redactValue canSet (VStruct ((n, v) :: fs)) = VStruct ((n, w) :: gs).
Proof. intros <- [= <-]. done. Qed.

Ltac walk_record := repeat (apply redact_struct; [first [apply plain_redact | simpl; by rewrite redact_eq | eassumption | eauto]|]); done.

Lemma redact_GitLab g : redactValue true (value_of g) = value_of (g <| gl_Token := redact (gl_Token g) |>).
Proof. walk_record. Qed.

Lemma redact_HostEntry h : redactValue true (value_of h) = value_of (h <| he_Token := redact (he_Token h) |>).
Proof. walk_record. Qed.

Lemma redact_Inventory i :
  redactValue true (value_of i) = value_of (i <| inv_Hosts := (fun h => h <| he_Token := redact (he_Token h) |>) <$> inv_Hosts i |>).
Proof.
  destruct i as [f hs].
  assert (redactValue true (value_of hs) = value_of ((fun h => h <| he_Token := redact (he_Token h) |>) <$> hs)) as Hh.
  { unfold value_of, value_list. simpl. f_equal. induction hs as [|h hs IH]; [done|]. rewrite !fmap_cons. cbn [map]. f_equal; [apply redact_HostEntry|exact IH]. }
  walk_record.
Qed.

Lemma walk_struct n v fs : walkable v = true -> walkable (VStruct fs) = true -> walkable (VStruct ((n, v) :: fs)) = true.
Proof. simpl. by intros -> ->. Qed.

Ltac walk_fields := repeat (apply walk_struct; [first [apply plain | done | eassumption]|]); done.

Lemma walkable_Config c : walkable (value_of c) = true.
Proof.
  assert (forall g : GitLab, walkable (value_of g) = true) as Hg by (intros g; walk_fields).
  assert (forall h : HostEntry, walkable (value_of h) = true) as Hh by (intros h; walk_fields).
  assert (forall l : list HostEntry, walkable (value_of l) = true) as Hl.
  { intros l. unfold value_of, value_list. simpl. induction l as [|h l IH]; [done|]. rewrite fmap_cons. cbn [forallb]. apply andb_true_iff. split; [apply Hh|exact IH]. }
  assert (forall i : Inventory, walkable (value_of i) = true) as Hi by (intros i; repeat (apply walk_struct; [first [apply plain|apply Hl]|]); done).
  repeat (apply walk_struct; [first [apply plain|apply Hg|apply Hi]|]). done.
Qed.

Lemma redactValue_Config c : redactValue true (value_of c) = value_of (redactedFields c).
Proof. repeat (apply redact_struct; [first [apply plain_redact|apply redact_GitLab|apply redact_Inventory]|]). done. Qed.

(** ** What [config show] prints *)

(** A size that text keeps: see [UnmarshalText_MarshalText]. *)
Definition text_keeps (b : Z) : Prop := 0 <= b < 2 ^ 63 /\ (b <= 2 ^ 53 \/ b mod 1024 = 0).

Section Printed.
Context {document : Type} (conv : option Z -> Z) (Marshal : Config -> result document) (Unmarshal : document -> result Config).
Context `{!YamlLaws conv Marshal Unmarshal}.

Lemma cloneConfig_ok c : Forall (fun b => 0 <= b < 2 ^ 63) (byte_sizes c) ->
  cloneConfig Marshal Unmarshal c = Ok (map_sizes (fun b => (through_text conv b).1) c).
Proof.
  intros HF. unfold cloneConfig. destruct (yaml_writes c) as [data Hd]. rewrite Hd, (yaml_reads c data Hd); [done|].
  eapply Forall_impl; [exact HF|]. intros b Hb. unfold through_text. by rewrite (proj1 (UnmarshalText_MarshalText conv 0 b Hb)).
Qed.
Lemma cloneConfig_exact c : Forall text_keeps (byte_sizes c) -> cloneConfig Marshal Unmarshal c = Ok c.
Proof.
  intros HF. rewrite cloneConfig_ok by (eapply Forall_impl; [exact HF|by intros b []]). f_equal. apply map_sizes_id.
  eapply Forall_impl; [exact HF|]. intros b [Hb Hk]. unfold through_text. by rewrite (proj2 (UnmarshalText_MarshalText conv 0 b Hb) Hk).
Qed.
Lemma cloneConfig_negative c : Exists (fun b => b < 0) (byte_sizes c) -> exists e, cloneConfig Marshal Unmarshal c = Err e.
Proof.
  intros HE. unfold cloneConfig. destruct (yaml_writes c) as [data Hd]. rewrite Hd. destruct (yaml_fails c data Hd) as [e ->]; [|by exists e].
  eapply Exists_impl; [exact HE|]. intros b Hb. unfold through_text. by destruct (UnmarshalText_negative conv 0 b Hb) as [e ->].
Qed.

(** C32: [config show].  What [Redacted] returns is the copy of the
    configuration with the secret fields redacted one by one: every Secret
    comes out as the marker, or empty when it was not set.  The copy is made
    through YAML: a configuration whose byte sizes are not negative is copied,
    each size as the float64 nearest to it, so that one whose sizes have at
    most 53 bits or are whole KiB comes out with nothing but its Secrets
    changed; a negative size makes [Redacted] panic.  The walk redacts every
    Secret of any value with none inside an interface or inside the elements
    of a map, changes nothing else, and the schema is such a value. *)
Theorem config_show_redacts :
  (forall c, Forall text_keeps (byte_sizes c) -> Redacted_value Marshal Unmarshal c = Shown (value_of (redactedFields c)))
  /\ (forall c, Forall (fun b => 0 <= b < 2 ^ 63) (byte_sizes c) ->
       Redacted_value Marshal Unmarshal c = Shown (value_of (redactedFields (map_sizes (fun b => (through_text conv b).1) c))))
  /\ (forall c, Exists (fun b => b < 0) (byte_sizes c) -> exists e, Redacted_value Marshal Unmarshal c = Panicked e)
  /\ (forall c v, Redacted_value Marshal Unmarshal c = Shown v -> Forall marked (secrets_of v))
  /\ (forall v, walkable v = true -> Forall marked (secrets_of (redactValue true v)) /\ unsecret (redactValue true v) = unsecret v)
  /\ (forall c : Config, walkable (value_of c) = true).
Proof.
  unfold Redacted_value. split_and!.
  - intros c H. by rewrite (cloneConfig_exact c H), redactValue_Config.
  - intros c H. by rewrite (cloneConfig_ok c H), redactValue_Config.
  - intros c H. destruct (cloneConfig_negative c H) as [e ->]. by eexists.
  - intros c v. destruct (cloneConfig _ _ c) as [clone|]; [|done]. intros H.
    assert (v = redactValue true (value_of clone)) as -> by congruence. apply redact_marked, walkable_Config.
  - intros v Hw. split; [by apply redact_marked|by apply redact_keeps].
  - apply walkable_Config.
Qed.
End Printed.

(** A package that keeps the configuration itself as the document and reads
    the sizes through text. *)
Definition demo_Marshal (c : Config) : result Config := Ok c.
Definition demo_Unmarshal (c : Config) : result Config :=
  if existsb (fun b => bool_decide (is_Some (through_text conv_amd64 b).2)) (byte_sizes c) then Err (ENew "a size")
  else Ok (map_sizes (fun b => (through_text conv_amd64 b).1) c).

Lemma demo_YamlLaws : YamlLaws conv_amd64 demo_Marshal demo_Unmarshal.
Proof.
  assert (forall l, existsb (fun b => bool_decide (is_Some (through_text conv_amd64 b).2)) l = true
    <-> Exists (fun b => (through_text conv_amd64 b).2 <> None) l) as HX.
  { intros l. induction l as [|b l IH]; simpl; [by rewrite Exists_nil|]. rewrite Exists_cons, orb_true_iff, IH, bool_decide_eq_true, <-not_eq_None_Some. done. }
  split.
  - intros c. by exists c.
  - intros c data [= <-] HF. unfold demo_Unmarshal. destruct (existsb _ _) eqn:E2; [|done]. apply HX, Exists_exists in E2 as (b & Hb & Hn). rewrite Forall_forall in HF. by specialize (HF b Hb).
  - intros c data [= <-] HE. unfold demo_Unmarshal. apply HX in HE. rewrite HE. by eexists.
Qed.

(** The minimal configuration with its defaults, and the same with a negative
    storage limit. *)
Definition demo_shown : Config := ApplyDefaults (Ok "runner-1") "amd64" demo_minimal.
Definition demo_negative : Config :=
  let hs := c_HostServices demo_shown in demo_shown <| c_HostServices := hs <| hs_Buildkit := (hs_Buildkit hs) <| bk_StorageLimit := -1024 |> |> |>.

(** A negative size is written and not read back. *)
Example negative_size_panics : match Redacted_value demo_Marshal demo_Unmarshal demo_negative with Panicked _ => True | Shown _ => False end.
Proof. vm_compute. exact I. Qed.

Lemma config_show_redacts_witness :
  (Redacted_value demo_Marshal demo_Unmarshal demo_shown = Shown (value_of (redactedFields demo_shown))
   /\ gl_Token (c_GitLab (redactedFields demo_shown)) = RedactedMark)
  /\ exists e, Redacted_value demo_Marshal demo_Unmarshal demo_negative = Panicked e.
Proof.
  destruct (config_show_redacts conv_amd64 demo_Marshal demo_Unmarshal (YamlLaws0 := demo_YamlLaws)) as (H1 & _ & H3 & _). split; [split|].
  - apply H1. repeat (apply Forall_cons; split; [split; [by vm_compute|left; by vm_compute]|]). constructor.
  - reflexivity.
  - apply H3. left. by vm_compute.
Defined.

(** A Secret in a struct that is the element of a map is not reached. *)
Theorem redact_misses_map_elements : exists v, secrets_of (redactValue true v) = ["token"] /\ walkable v = false.
Proof. exists (VStruct [("Upstreams", VMap false [("a", VStruct [("Token", VString true "token")])])]). done. Qed.
