(* ===== verification/Transport.v ===== *)
(** * internal/transport: the exec Guest Transport (exec.go) and the Factory

    One operation is one exchange on a stream of the Host client: the start
    message, standard input in chunks and its end, and the responses up to
    the exit code.  What the stream, the readers and the writers answer are
    arguments; the requests that are sent and the output that is written are
    results.  [io.EOF] from [Recv] or [Send] is the constructor for it. *)
From S2P Require Import Prelude GoModel SchedTypes GoFloat Executor.

Definition stdinChunk : nat := Z.to_nat (32 * 1024).
Definition readyCommand : string := "true".
Definition KindExec : string := "exec".
Definition maxInt32 : Z := 2147483647.

Record ExecStart := {
  es_Uid : string; es_Cmd : string; es_Args : list string; es_Cwd : string; es_Env : gmap string string; es_User : string;
  es_HasStdin : bool; es_Shell : bool; es_TimeoutSeconds : Z }.

Inductive request := ReqStart (s : ExecStart) | ReqStdin (chunk : string) | ReqStdinEof.
Inductive response := RespStdout (b : string) | RespStderr (b : string) | RespError (msg : string) | RespExitCode (code : Z) | RespNone.

Inductive sent := SentOK | SentEOF | SentErr (e : error).
(** How a stream of responses ends. *)
Inductive stream_end := EndEOF | EndErr (e : error).

(** ** Errors *)
Definition streamFailure (what : string) (cause : option error) : error :=
  match cause with
  | None => EWrap what [ESentinel ErrStreamFailed]
  | Some c => EWrap what [EWrap "" [c; ESentinel ErrStreamFailed]]
  end.
Definition execError (payload : string) : error :=
  EWrap ("exec reported an error before the exit status: " +:+ (if String.eqb payload "" then "no reason given" else payload)) [ESentinel ErrStreamFailed].

(** ** receive

    [wr i] is what the [i]th write answers; [watch] is the failure the watch
    has recorded by the time the stream ends. *)
Inductive chunk := OutChunk (b : string) | ErrChunk (b : string).

Fixpoint receive (wr : nat -> option error) (watch : option error) (msgs : list response) (fin : stream_end)
    (reported : option error) (written : list chunk) : (Z * option error) * list chunk :=
  match msgs with
  | [] =>
      ((-1, Some match watch with
                 | Some unreachable => streamFailure "host stopped answering" (Some unreachable)
                 | None => match reported with
                           | Some r => r
                           | None => match fin with
                                     | EndEOF => streamFailure "exec stream ended before the exit code" (Some (ENew "no exit_code payload"))
                                     | EndErr e => streamFailure "exec stream failed" (Some e)
                                     end
                           end
                 end), written)
  | m :: msgs =>
      let put what c (b : string) :=
        if String.eqb b "" then receive wr watch msgs fin reported written
        else match wr (length written) with
             | Some e => ((-1, Some (streamFailure what (Some e))), written)
             | None => receive wr watch msgs fin reported (written ++ [c])
             end in
      match m with
      | RespStdout b => put "writing stdout" (OutChunk b) b
      | RespStderr b => put "writing stderr" (ErrChunk b) b
      | RespError msg => receive wr watch msgs fin (Some (execError msg)) written
      | RespExitCode code => ((code, None), written)
      | RespNone => receive wr watch msgs fin reported written
      end
  end.

(** ** sendStdin

    [reads] are the non-empty reads of the reader and [rend] how it ends. *)
Fixpoint sendChunks (snd_ : nat -> sent) (reads : list string) (i : nat) : list request * option (option error) :=
  match reads with
  | [] => ([], None)
  | b :: reads =>
      match snd_ i with
      | SentOK => let '(reqs, r) := sendChunks snd_ reads (S i) in (ReqStdin b :: reqs, r)
      | SentEOF => ([], Some None)
      | SentErr e => ([], Some (Some e))
      end
  end.
Definition sendStdin (snd_ : nat -> sent) (reads : list string) (rend : option error) : list request * option error :=
  match sendChunks snd_ reads 0 with
  | (reqs, Some r) => (reqs, r)
  | (reqs, None) =>
      match rend with
      | Some e => (reqs, Some (EWrap "reading stdin" [e]))
      | None => match snd_ (length reads) with
                | SentOK => (reqs ++ [ReqStdinEof], None)
                | SentEOF => (reqs, None)
                | SentErr e => (reqs, Some e)
                end
      end
  end.

(** What [strings.Reader] hands out, up to [stdinChunk] bytes at a time. *)
Fixpoint string_take (n : nat) (s : string) : string :=
  match n, s with S n, String c s => String c (string_take n s) | _, _ => EmptyString end.
Fixpoint string_drop (n : nat) (s : string) : string :=
  match n, s with S n, String _ s => string_drop n s | _, s => s end.
Fixpoint string_reads (size fuel : nat) (s : string) : list string :=
  match fuel with
  | O => []
  | S fuel => if String.eqb s "" then [] else string_take size s :: string_reads size fuel (string_drop size s)
  end.
Definition strings_Reader (s : string) : list string := string_reads stdinChunk (String.length s) s.

(** ** remainingSeconds *)
Definition remainingSeconds (deadline : option time) (now : time) : Z :=
  match deadline with
  | None => 0
  | Some d =>
      let remaining := time_Sub d now in
      if remaining <=? 0 then 1
      else let secs := Ceil (Seconds remaining) in if maxInt32 <? secs then maxInt32 else secs
  end.

(** ** exchange *)
Definition firstError (err : sent) (recv : option stream_end) : error :=
  match err with
  | SentErr e => e
  | _ => match recv with Some (EndErr e) => e | _ => ENew "EOF" end
  end.

Record exchange_env := {
  xe_open : option error;                 (* Exec *)
  xe_start : sent;                        (* Send of the start message *)
  xe_startRecv : option stream_end;       (* Recv after a Send that answered io.EOF; None: a response *)
  xe_send : nat -> sent;                  (* the Sends of the input *)
  xe_stdinDone : bool;                    (* whether the sender had finished when receive failed *)
  xe_msgs : list response; xe_end : stream_end; xe_watch : option error; xe_write : nat -> option error }.

(** The requests sent, the output, the exit status and the error. *)
Definition exchange (xe : exchange_env) (start : ExecStart) (stdin : option (list string * option error))
    : list request * list chunk * Z * option error :=
  match xe_open xe with
  | Some e => ([], [], -1, Some (streamFailure "opening exec stream" (Some e)))
  | None =>
      match xe_start xe with
      | SentOK =>
          let '(reqs, stdinErr) :=
            if es_HasStdin start then match stdin with Some (reads, rend) => sendStdin (xe_send xe) reads rend | None => ([], None) end
            else ([], None) in
          match receive (xe_write xe) (xe_watch xe) (xe_msgs xe) (xe_end xe) None [] with
          | ((status, None), out) => (ReqStart start :: reqs, out, status, None)
          | ((_, Some err), out) =>
              let err := match stdinErr with
                         | Some se => if xe_stdinDone xe then streamFailure "sending stdin" (Some se) else err
                         | None => err
                         end in
              (ReqStart start :: reqs, out, -1, Some err)
          end
      | bad => ([], [], -1, Some (streamFailure "sending exec start" (Some (firstError bad (xe_startRecv xe)))))
      end
  end.

(** ** Ready and Run *)
Definition exec_Ready (xe : exchange_env) (uid : string) (timeout : Z) : option error :=
  let start := {| es_Uid := uid; es_Cmd := readyCommand; es_Args := []; es_Cwd := ""; es_Env := ∅; es_User := "";
                  es_HasStdin := false; es_Shell := true; es_TimeoutSeconds := timeout |} in
  match exchange xe start None with
  | (_, _, _, Some err) => Some (EWrap "microvm is not ready" [EWrap "" [ESentinel ErrNotReady; err]])
  | (_, _, status, None) => if status =? 0 then None else Some (EWrap "readiness command exited" [ESentinel ErrNotReady])
  end.

Definition exec_Run (xe : exchange_env) (uid : string) (timeout : Z) (c : Command) (env : gmap string string)
    (stdin : option (list string * option error)) : list request * list chunk * Z * option error :=
  if String.eqb (cm_Path c) "" then ([], [], -1, Some (ENew "command has no path"))
  else exchange xe {| es_Uid := uid; es_Cmd := cm_Path c; es_Args := cm_Args c; es_Cwd := cm_Dir c; es_Env := env; es_User := cm_User c;
                      es_HasStdin := match stdin with Some _ => true | None => false end; es_Shell := false; es_TimeoutSeconds := timeout |} stdin.

(** ** factory.go *)
Inductive Transport_ := TExec | TSSH.
(** [info] is what ServerInfo answers. *)
Definition checkService (info : result HostInfo) (kind : string) : option error :=
  match info with
  | Err _ => None
  | Ok i => if (if String.eqb kind KindSSH then hi_SSHProxyEnabled i else hi_ExecEnabled i) then None
            else Some (EWrap "transport: host has the service disabled" [ESentinel ErrServiceDisabled])
  end.
(** [host] is the client, if there is one; [newSSH] what newSSHTransport answers. *)
Definition factory_New (host : bool) (info : result HostInfo) (newSSH : option error) (g : Target) : result Transport_ :=
  if negb host then Err (ENew "transport: target has no host client")
  else if String.eqb (tg_VMUID g) "" then Err (ENew "transport: target has no microvm uid")
  else if String.eqb (tg_Kind g) KindExec || String.eqb (tg_Kind g) "" || String.eqb (tg_Kind g) KindAgentExec
  then match checkService info KindExec with Some e => Err e | None => Ok TExec end
  else if String.eqb (tg_Kind g) KindSSH
  then match checkService info KindSSH with
       | Some e => Err e
       | None => match newSSH with Some e => Err e | None => Ok TSSH end
       end
  else Err (ENew "transport: unknown guest transport").

(** ** What the guest is sent *)
Fixpoint join_strings (l : list string) : string := match l with [] => "" | s :: l => s +:+ join_strings l end.
Definition stdin_of (r : request) : string := match r with ReqStdin b => b | _ => "" end.
(** The input the guest has seen after these requests. *)
Definition guest_input (reqs : list request) : string := join_strings (stdin_of <$> reqs).
Definition is_eof (r : request) : bool := match r with ReqStdinEof => true | _ => false end.

Lemma take_drop n s : string_take n s +:+ string_drop n s = s.
Proof. revert s. induction n as [|n IH]; intros [|c s]; try done. exact (f_equal (String c) (IH s)). Qed.
Lemma take_length n s : (String.length (string_take n s) <= n)%nat.
Proof. revert s. induction n as [|n IH]; intros [|c s]; simpl; try lia. specialize (IH s). lia. Qed.
Lemma drop_length n s : s <> "" -> (0 < n)%nat -> (String.length (string_drop n s) < String.length s)%nat.
Proof.
  intros Hs Hn. destruct n as [|n]; [lia|]. destruct s as [|c s]; [done|]. simpl. clear.
  revert s. induction n as [|n IH]; intros [|d s]; simpl; try lia. specialize (IH s). lia.
Qed.
Lemma take_nonempty n s : s <> "" -> (0 < n)%nat -> string_take n s <> "".
Proof. intros Hs Hn. destruct n as [|n]; [lia|]. by destruct s. Qed.

Lemma string_reads_spec size fuel s : (0 < size)%nat -> (String.length s <= fuel)%nat ->
  join_strings (string_reads size fuel s) = s
  /\ Forall (fun b => b <> "" /\ (String.length b <= size)%nat) (string_reads size fuel s).
Proof.
  intros Hz. revert s. induction fuel as [|fuel IH]; intros s Hl; simpl.
  - destruct s; [by split|simpl in Hl; lia].
  - destruct (String.eqb_spec s "") as [->|Hs]; [by split|]. pose proof (drop_length size s Hs Hz).
    destruct (IH (string_drop size s)) as [IH1 IH2]; [lia|]. simpl. split; [by rewrite IH1, take_drop|].
    constructor; [|done]. split; [by apply take_nonempty|apply take_length].
Qed.

Lemma stdinChunk_pos : (0 < stdinChunk)%nat.
Proof. unfold stdinChunk. lia. Qed.

Lemma strings_Reader_spec s :
  join_strings (strings_Reader s) = s /\ Forall (fun b => b <> "" /\ (String.length b <= stdinChunk)%nat) (strings_Reader s).
Proof. apply string_reads_spec; [apply stdinChunk_pos|done]. Qed.

Lemma sendChunks_spec snd_ reads i :
  let '(reqs, r) := sendChunks snd_ reads i in
  exists k, reqs = ReqStdin <$> take k reads /\ (r = None -> reqs = ReqStdin <$> reads)
  /\ ((forall j, snd_ j = SentOK) -> r = None).
Proof.
  revert i. induction reads as [|b reads IH]; intros i; simpl; [by exists O|].
  destruct (snd_ i) eqn:Hi; [|by exists O; split_and!; [done|done|intros H; rewrite H in Hi]..].
  specialize (IH (S i)). destruct (sendChunks snd_ reads (S i)) as [reqs r]. destruct IH as (k & -> & H2 & H3).
  exists (S k). simpl. split_and!; [done|intros Hr; by rewrite H2|done].
Qed.

Lemma guest_input_app a b : guest_input (a ++ b) = guest_input a +:+ guest_input b.
Proof.
  unfold guest_input. rewrite fmap_app. induction (stdin_of <$> a) as [|s l IH]; [done|]. simpl. by rewrite IH, GoStrings.string_app_assoc.
Qed.
Lemma guest_input_chunks l : guest_input (ReqStdin <$> l) = join_strings l.
Proof. unfold guest_input. rewrite <-list_fmap_compose. unfold compose. simpl. by rewrite list_fmap_id. Qed.

Lemma join_take k l : exists rest, join_strings l = join_strings (take k l) +:+ rest.
Proof.
  revert k. induction l as [|s l IH]; intros k; [by exists ""; destruct k|]. destruct k as [|k]; [by exists (join_strings (s :: l))|].
  destruct (IH k) as [rest Hr]. exists rest. simpl. by rewrite Hr, GoStrings.string_app_assoc.
Qed.

(** What [reqs] tells the guest of [script]. *)
Record told (script : string) (reqs : list request) : Prop := {
  td_prefix : exists rest, script = guest_input reqs +:+ rest;
  td_chunks : Forall (fun r => (String.length (stdin_of r) <= stdinChunk)%nat) reqs;
  td_eof : forall r, r ∈ reqs -> is_eof r = true ->
    guest_input reqs = script /\ exists start, reqs = start ++ [r] /\ Forall (fun r => is_eof r = false) start }.

Lemma told_chunks start script k :
  told script (ReqStart start :: (ReqStdin <$> take k (strings_Reader script))).
Proof.
  destruct (strings_Reader_spec script) as [HJ HF]. destruct (join_take k (strings_Reader script)) as [rest Hrest].
  assert (HG : guest_input (ReqStart start :: (ReqStdin <$> take k (strings_Reader script))) = join_strings (take k (strings_Reader script))).
  { change (guest_input ([ReqStart start] ++ (ReqStdin <$> take k (strings_Reader script))) = join_strings (take k (strings_Reader script))).
    rewrite guest_input_app, guest_input_chunks. done. }
  split.
  - exists rest. by rewrite HG, <-Hrest.
  - constructor; [simpl; lia|]. apply Forall_fmap, Forall_take. eapply Forall_impl; [exact HF|]. intros b [_ Hb]. exact Hb.
  - intros r [->|(b & -> & _)%list_elem_of_fmap]%elem_of_cons; done.
Qed.

Lemma told_eof start script : told script ((ReqStart start :: (ReqStdin <$> strings_Reader script)) ++ [ReqStdinEof]).
Proof.
  destruct (strings_Reader_spec script) as [HJ HF].
  pose proof (told_chunks start script (length (strings_Reader script))) as [T1 T2 T3]. rewrite take_ge in * by done.
  set (reqs := ReqStart start :: (ReqStdin <$> strings_Reader script)) in *.
  assert (HG : guest_input (reqs ++ [ReqStdinEof]) = script).
  { rewrite guest_input_app. unfold reqs. change (ReqStart start :: (ReqStdin <$> strings_Reader script)) with ([ReqStart start] ++ (ReqStdin <$> strings_Reader script)).
    rewrite guest_input_app, guest_input_chunks, HJ. apply GoStrings.string_app_nil. }
  split.
  - exists "". by rewrite HG, GoStrings.string_app_nil.
  - apply Forall_app. split; [done|]. constructor; [simpl; lia|constructor].
  - intros r Hr He. split; [done|]. exists reqs.
    assert (HN : Forall (fun r => is_eof r = false) reqs) by (constructor; [done|]; apply Forall_fmap, Forall_true; done).
    split; [|done]. apply elem_of_app in Hr as [Hr|Hr]; [rewrite Forall_forall in HN; by rewrite (HN r Hr) in He|].
    by apply list_elem_of_singleton in Hr as ->.
Qed.

Lemma told_nil script : told script [].
Proof. split; [by exists script|constructor|]. intros r Hr. by apply elem_of_nil in Hr. Qed.

Lemma exchange_requests xe start script : es_HasStdin start = true ->
  let '(reqs, _, _, _) := exchange xe start (Some (strings_Reader script, None)) in
  told script reqs
  /\ (xe_open xe = None -> xe_start xe = SentOK -> (forall i, xe_send xe i = SentOK) -> guest_input reqs = script /\ ReqStdinEof ∈ reqs).
Proof.
  intros Hs. unfold exchange. rewrite Hs. destruct (xe_open xe); [split; [apply told_nil|done]|].
  destruct (xe_start xe); [|split; [apply told_nil|done]..].
  destruct (sendStdin (xe_send xe) (strings_Reader script) None) as [reqs serr] eqn:HS.
  assert (HT : told script (ReqStart start :: reqs) /\ ((forall i, xe_send xe i = SentOK) -> guest_input (ReqStart start :: reqs) = script /\ ReqStdinEof ∈ ReqStart start :: reqs)).
  { unfold sendStdin in HS. pose proof (sendChunks_spec (xe_send xe) (strings_Reader script) 0) as HC.
    destruct (sendChunks _ _ _) as [rq [r|]]; destruct HC as (k & -> & HC2 & HC3).
    - injection HS as <- _. split; [apply told_chunks|]. intros H. by specialize (HC3 H).
    - specialize (HC2 eq_refl). rewrite HC2 in *. destruct (xe_send xe (length (strings_Reader script))) eqn:HE; injection HS as <- _.
      + pose proof (told_eof start script) as HT. split; [exact HT|]. intros _.
        assert (Hin : ReqStdinEof ∈ ReqStart start :: (ReqStdin <$> strings_Reader script) ++ [ReqStdinEof]) by set_solver.
        split; [|done]. by apply (td_eof _ _ HT ReqStdinEof).
      + split; [rewrite <-HC2; apply told_chunks|]. intros H. by rewrite H in HE.
      + split; [rewrite <-HC2; apply told_chunks|]. intros H. by rewrite H in HE. }
  destruct (receive _ _ _ _ _ _) as [[status [err|]] out]; (split; [apply HT|intros _ _; apply HT]).
Qed.

(** C29: the guest gets the Stage script and nothing but it.  Over the
    exchange of a Stage, the guest is sent a prefix of the script in chunks of
    at most 32 KiB, the end of the input is signalled at most once, last, and
    only after the whole script, and if no Send fails it gets all of it. *)
Theorem script_delivered xe uid timeout c env :
  cm_Path c <> "" ->
  let '(reqs, _, _, _) := exec_Run xe uid timeout c env (Some (strings_Reader (cm_Stdin c), None)) in
  told (cm_Stdin c) reqs
  /\ (xe_open xe = None -> xe_start xe = SentOK -> (forall i, xe_send xe i = SentOK) -> guest_input reqs = cm_Stdin c /\ ReqStdinEof ∈ reqs).
Proof.
  intros Hp. unfold exec_Run. destruct (String.eqb_spec (cm_Path c) ""); [done|]. by apply exchange_requests.
Qed.

(** A transport whose third Send of the input fails. *)
Definition demo_xe (msgs : list response) (fin : stream_end) : exchange_env :=
  {| xe_open := None; xe_start := SentOK; xe_startRecv := None; xe_send := fun _ => SentOK; xe_stdinDone := true;
     xe_msgs := msgs; xe_end := fin; xe_watch := None; xe_write := fun _ => None |}.
Definition demo_command : Command := {| cm_Path := "/bin/bash"; cm_Args := []; cm_Dir := "/builds"; cm_User := "root"; cm_Stdin := "echo hello" |}.

Lemma script_delivered_witness :
  cm_Path demo_command <> "" /\
  let '(reqs, _, _, _) := exec_Run (demo_xe [RespExitCode 0] EndEOF) "vm-1" 60 demo_command ∅ (Some (strings_Reader "echo hello", None)) in
  guest_input reqs = "echo hello".
Proof.
  split; [discriminate|].
  pose proof (script_delivered (demo_xe [RespExitCode 0] EndEOF) "vm-1" 60 demo_command ∅ ltac:(discriminate)) as H.
  change (cm_Stdin demo_command) with "echo hello" in H.
  destruct (exec_Run (demo_xe [RespExitCode 0] EndEOF) "vm-1" 60 demo_command ∅ (Some (strings_Reader "echo hello", None))) as [[[reqs out] st] err].
  destruct H as [_ H]. apply H; reflexivity.
Defined.

(** ** The outcome of an exchange *)
Definition is_exit (m : response) : bool := match m with RespExitCode _ => true | _ => false end.
Definition outputs (msgs : list response) : list chunk :=
  omap (fun m => match m with
                 | RespStdout b => if String.eqb b "" then None else Some (OutChunk b)
                 | RespStderr b => if String.eqb b "" then None else Some (ErrChunk b)
                 | _ => None
                 end) msgs.

Lemma streamFailure_Is what cause : errors_Is (streamFailure what cause) ErrStreamFailed = true.
Proof. destruct cause; simpl; [by rewrite orb_true_r|done]. Qed.

Definition failed_stream (msgs : list response) (wr : nat -> option error) (written out : list chunk) (e : error) : Prop :=
  errors_Is e ErrStreamFailed = true
  /\ (exists some, written ++ outputs msgs = out ++ some)
  /\ ((forall i, wr i = None) -> Forall (fun m => is_exit m = false) msgs /\ out = written ++ outputs msgs).
Definition exited (msgs : list response) (written out : list chunk) (status : Z) : Prop :=
  exists pre post, msgs = pre ++ RespExitCode status :: post /\ Forall (fun m => is_exit m = false) pre /\ out = written ++ outputs pre.

Lemma exited_cons m c msgs written out st : is_exit m = false -> outputs [m] = c -> exited msgs (written ++ c) out st -> exited (m :: msgs) written out st.
Proof.
  intros Hm <- (pre & post & -> & HF & ->). exists (m :: pre), post. split_and!; [done|by constructor|].
  change (m :: pre) with ([m] ++ pre). unfold outputs. by rewrite omap_app, app_assoc.
Qed.
Lemma failed_cons m c msgs wr written out e : is_exit m = false -> outputs [m] = c -> failed_stream msgs wr (written ++ c) out e -> failed_stream (m :: msgs) wr written out e.
Proof.
  intros Hm <- (H1 & (some & H2) & H3). change (m :: msgs) with ([m] ++ msgs). unfold failed_stream, outputs in *. rewrite omap_app, app_assoc.
  split_and!; [done|by exists some|]. intros Hw. destruct (H3 Hw) as [H4 H5]. split; [by constructor|done].
Qed.

Lemma receive_spec wr watch msgs fin reported written : (forall r, reported = Some r -> errors_Is r ErrStreamFailed = true) ->
  let '((status, err), out) := receive wr watch msgs fin reported written in
  match err with
  | None => exited msgs written out status
  | Some e => status = -1 /\ failed_stream msgs wr written out e
  end.
Proof.
  revert reported written. induction msgs as [|m msgs IH]; intros reported written HR.
  - cbn [receive]. split; [done|]. split_and!.
    + destruct watch; [apply streamFailure_Is|]. destruct reported; [by apply HR|]. destruct fin; apply streamFailure_Is.
    + exists []. by rewrite !app_nil_r.
    + intros _. split; [constructor|]. by rewrite app_nil_r.
  - assert (Hskip : outputs [m] = [] -> is_exit m = false -> forall rep, (forall r, rep = Some r -> errors_Is r ErrStreamFailed = true) ->
      let '((status, err), out) := receive wr watch msgs fin rep written in
      match err with None => exited (m :: msgs) written out status | Some e => status = -1 /\ failed_stream (m :: msgs) wr written out e end).
    { intros Ho Hm rep Hrep. specialize (IH rep written Hrep). destruct (receive _ _ _ _ _ _) as [[st [e|]] out].
      - destruct IH as [-> IH]. split; [done|]. eapply failed_cons; [done|exact Ho|]. by rewrite app_nil_r.
      - eapply exited_cons; [done|exact Ho|]. by rewrite app_nil_r. }
    assert (Hput : forall what c b, b <> "" -> outputs [m] = [c] -> is_exit m = false ->
      let '((status, err), out) := match wr (length written) with
             | Some e => ((-1, Some (streamFailure what (Some e))), written)
             | None => receive wr watch msgs fin reported (written ++ [c]) end in
      match err with None => exited (m :: msgs) written out status | Some e => status = -1 /\ failed_stream (m :: msgs) wr written out e end).
    { intros what c b Hb Ho Hm. destruct (wr (length written)) as [e|] eqn:Hw.
      - split; [done|]. split_and!; [apply streamFailure_Is|by exists (outputs (m :: msgs))|]. intros H. by rewrite H in Hw.
      - specialize (IH reported (written ++ [c]) HR). destruct (receive _ _ _ _ _ _) as [[st [e|]] out].
        + destruct IH as [-> IH]. split; [done|]. by eapply failed_cons.
        + by eapply exited_cons. }
    destruct m as [b|b|msg|code|]; cbn [receive].
    + destruct (String.eqb_spec b "") as [->|Hb]; [by apply Hskip|]. apply (Hput _ (OutChunk b) b); try done. simpl. by destruct (String.eqb_spec b "").
    + destruct (String.eqb_spec b "") as [->|Hb]; [by apply Hskip|]. apply (Hput _ (ErrChunk b) b); try done. simpl. by destruct (String.eqb_spec b "").
    + apply Hskip; [done..|]. intros r [= <-]. reflexivity.
    + exists [], msgs. split_and!; [done|constructor|]. by rewrite app_nil_r.
    + by apply Hskip.
Qed.

Lemma exchange_spec xe start stdin :
  let '(_, out, status, err) := exchange xe start stdin in
  match err with
  | None => exited (xe_msgs xe) [] out status
  | Some e => status = -1 /\ errors_Is e ErrStreamFailed = true
      /\ (xe_open xe = None -> xe_start xe = SentOK -> (forall i, xe_write xe i = None) -> Forall (fun m => is_exit m = false) (xe_msgs xe))
  end.
Proof.
  unfold exchange. destruct (xe_open xe); [split_and!; [done|apply streamFailure_Is|done]|].
  destruct (xe_start xe); [|split_and!; [done|apply streamFailure_Is|done]..].
  destruct (if es_HasStdin start then _ else _) as [reqs serr].
  pose proof (receive_spec (xe_write xe) (xe_watch xe) (xe_msgs xe) (xe_end xe) None [] ltac:(done)) as HR.
  destruct (receive _ _ _ _ _ _) as [[st [e|]] out]; [|exact HR]. destruct HR as [_ (H1 & _ & H3)]. split_and!; [done| |].
  - destruct serr; [|done]. destruct (xe_stdinDone xe); [apply streamFailure_Is|done].
  - intros _ _ Hw. by apply H3.
Qed.

(** The outcome of an operation in the guest.  Run returns an exit status
    exactly when the stream carried one, that status, with all the output
    sent before it written in order, whatever error payloads came along; any
    other end is an error that is ErrStreamFailed with the status -1 (a
    command without a path is not sent at all), and no exit code is lost if
    the stream was opened and the output could be written.  Ready succeeds
    only on the exit status 0, and any other end is ErrNotReady. *)
Theorem exec_outcome xe uid timeout c env stdin :
  (let '(reqs, out, status, err) := exec_Run xe uid timeout c env stdin in
   match err with
   | None => cm_Path c <> "" /\ exited (xe_msgs xe) [] out status
   | Some e => status = -1
       /\ (cm_Path c = "" /\ reqs = []
           \/ errors_Is e ErrStreamFailed = true
              /\ (xe_open xe = None -> xe_start xe = SentOK -> (forall i, xe_write xe i = None) -> Forall (fun m => is_exit m = false) (xe_msgs xe)))
   end)
  /\ match exec_Ready xe uid timeout with
     | None => exists out, exited (xe_msgs xe) [] out 0
     | Some e => errors_Is e ErrNotReady = true
     end.
Proof.
  split.
  - unfold exec_Run. destruct (String.eqb_spec (cm_Path c) "") as [Hp|Hp]; [by split; [|left]|].
    pose proof (exchange_spec xe {| es_Uid := uid; es_Cmd := cm_Path c; es_Args := cm_Args c; es_Cwd := cm_Dir c; es_Env := env; es_User := cm_User c;
      es_HasStdin := match stdin with Some _ => true | None => false end; es_Shell := false; es_TimeoutSeconds := timeout |} stdin) as H.
    destruct (exchange _ _ _) as [[[reqs out] st] [e|]]; [|done]. destruct H as (H1 & H2 & H3). by split; [|right].
  - unfold exec_Ready. match goal with |- context [exchange xe ?s None] => pose proof (exchange_spec xe s None) as H end.
    destruct (exchange _ _ _) as [[[reqs out] st] [e|]]; [done|]. destruct (Z.eqb_spec st 0) as [->|]; [by exists out|done].
Qed.

(** The time limit sent to the guest.  Without a deadline there is none
    (0); with one it is positive and an int32, so that the bound is never
    dropped; it is the time left in whole seconds rounded up, exactly up to 97
    days and within a second beyond, as far as an int32 reaches. *)
Theorem remainingSeconds_bounds deadline now :
  let r := remainingSeconds deadline now in
  match deadline with
  | None => r = 0
  | Some d =>
      1 <= r <= maxInt32
      /\ (d <= now -> r = 1)
      /\ (now < d < now + 2 ^ 23 * second -> r = (d - now + second - 1) / second)
      /\ (now < d <= now + maxDuration -> r = maxInt32 \/ (d - now) / second <= r <= (d - now) / second + 1)
  end.
Proof.
  cbv zeta. destruct deadline as [d|]; [|done]. unfold remainingSeconds. set (rem := time_Sub d now).
  assert (Hrem : rem = Z.max minDuration (Z.min maxDuration (d - now))) by reflexivity. clearbody rem.
  destruct (Z.leb_spec rem 0) as [Hr|Hr].
  - assert (d <= now) by (unfold minDuration, maxDuration in *; lia). unfold maxInt32. split_and!; [lia..|done|lia|lia].
  - destruct (Ceil_Seconds rem) as (C1 & C2 & C3); [unfold minDuration, maxDuration in *; lia|].
    set (secs := Ceil (Seconds rem)) in *. clearbody secs.
    split_and!.
    + destruct (Z.ltb_spec maxInt32 secs); unfold maxInt32 in *; lia.
    + destruct (Z.ltb_spec maxInt32 secs); unfold maxInt32 in *; lia.
    + intros. unfold minDuration, maxDuration in *. lia.
    + intros Hd. assert (rem = d - now) as -> by (unfold minDuration, maxDuration, second in *; lia).
      specialize (C3 ltac:(lia)). rewrite <-C3. destruct (Z.ltb_spec maxInt32 secs); [|done].
      exfalso. pose proof (Z.div_le_mono (d - now) (2 ^ 23 * second) second ltac:(unfold second; lia) ltac:(lia)) as HL.
      rewrite Z.div_mul in HL by (unfold second; lia). unfold maxInt32 in *. lia.
    + intros Hd. assert (rem = d - now) as -> by (unfold minDuration, maxDuration in *; lia).
      destruct (Z.ltb_spec maxInt32 secs); [by left|right; lia].
Qed.
