(* ===== verification/Watchdog.v ===== *)
(** * internal/transport/watchdog.go: the liveness watch of an operation

    The watch as a timed automaton.  Time passes only in [WTick], and only
    when nothing the goroutine waits for is due: a response it has not
    noticed, a timer that has expired, a probe whose timeout has passed, a
    stop or an ended context.  Everything else happens at the current time.
    [w_heard] is the last time the Host was heard from, by a response on the
    stream or by the answer to a probe. *)
From S2P Require Import Prelude GoModel.

Definition watch_interval (deadline : duration) : duration :=
  let i := Z.quot deadline 2 in if i <=? 0 then deadline else i.
Definition probeTimeout (deadline : duration) : duration :=
  let t := deadline - watch_interval deadline in if t <=? 0 then watch_interval deadline else t.

Inductive watch_phase := Waiting (due : time) | Probing (since : time) | Finished.

Record hostWatch := {
  w_phase : watch_phase; w_activity : bool; w_stopped : bool; w_ctxDone : bool; w_failure : option error; w_cancelled : bool;
  w_now : time; w_heard : time }.
#[export] Instance eta_hostWatch : Eta hostWatch :=
  fun r => {| w_phase := w_phase r; w_activity := w_activity r; w_stopped := w_stopped r; w_ctxDone := w_ctxDone r;
              w_failure := w_failure r; w_cancelled := w_cancelled r; w_now := w_now r; w_heard := w_heard r |}.

(** A deadline of zero, or no Host client, disables the watch. *)
Definition watchHost (deadline : duration) (host : bool) (now : time) : hostWatch :=
  {| w_phase := if (deadline <=? 0) || negb host then Finished else Waiting (time_Add now (watch_interval deadline));
     w_activity := false; w_stopped := false; w_ctxDone := false; w_failure := None; w_cancelled := false; w_now := now; w_heard := now |}.

(** One pending notification is enough. *)
Definition sawResponse (w : hostWatch) : hostWatch := w <| w_activity := true |> <| w_heard := w_now w |>.

Definition probeHost (answer : option error) : option error :=
  match answer with None => None | Some e => Some (EWrap "host did not answer for microvm" [e]) end.

Definition watch_fail (err : error) (w : hostWatch) : hostWatch :=
  w <| w_failure := Some (EWrap "" [ESentinel ErrStreamFailed; err]) |> <| w_cancelled := true |>.

Definition watch_stop (w : hostWatch) : hostWatch := w <| w_stopped := true |>.

Inductive watch_input :=
  | WTick (d : duration)              (* time passes *)
  | WResponse                         (* a response arrives on the stream *)
  | WNotice                           (* the select takes the notification *)
  | WFire                             (* the select takes the timer *)
  | WAnswer (answer : option error)   (* the probe returns *)
  | WStop | WCtxDone                  (* the operation ends *)
  | WReturn.                          (* the select takes the end *)

Definition urgent (deadline : duration) (w : hostWatch) : bool :=
  match w_phase w with
  | Finished => false
  | Waiting due => w_activity w || w_stopped w || w_ctxDone w || (due <=? w_now w)
  | Probing since => w_stopped w || w_ctxDone w || (since + probeTimeout deadline <=? w_now w)
  end.

(** How far time may advance before something is due. *)
Definition until (deadline : duration) (w : hostWatch) (d : duration) : bool :=
  match w_phase w with
  | Finished => true
  | Waiting due => w_now w + d <=? due
  | Probing since => w_now w + d <=? since + probeTimeout deadline
  end.

Definition watch_step (deadline : duration) (i : watch_input) (w : hostWatch) : option hostWatch :=
  match i with
  | WTick d => if (0 <=? d) && negb (urgent deadline w) && until deadline w d then Some (w <| w_now := w_now w + d |>) else None
  | WResponse => Some (sawResponse w)
  | WNotice =>
      match w_phase w with
      | Waiting _ => if w_activity w then Some (w <| w_activity := false |> <| w_phase := Waiting (w_now w + watch_interval deadline) |>) else None
      | _ => None
      end
  | WFire => match w_phase w with Waiting due => if due <=? w_now w then Some (w <| w_phase := Probing (w_now w) |>) else None | _ => None end
  | WAnswer answer =>
      match w_phase w with
      | Probing _ =>
          match probeHost answer with
          | None => Some (w <| w_phase := Waiting (w_now w + watch_interval deadline) |> <| w_heard := w_now w |>)
          | Some err => if w_stopped w || w_ctxDone w then Some (w <| w_phase := Finished |>)
                        else Some ((watch_fail err w) <| w_phase := Finished |>)
          end
      | _ => None
      end
  | WStop => Some (watch_stop w)
  | WCtxDone => Some (w <| w_ctxDone := true |>)
  | WReturn => match w_phase w with Waiting _ => if w_stopped w || w_ctxDone w then Some (w <| w_phase := Finished |>) else None | _ => None end
  end.

Inductive watch_reachable (deadline : duration) (start : time) : hostWatch -> Prop :=
  | watch_init : watch_reachable deadline start (watchHost deadline true start)
  | watch_next i w w' : watch_reachable deadline start w -> watch_step deadline i w = Some w' -> watch_reachable deadline start w'.

Lemma budget deadline : 2 <= deadline -> 0 < watch_interval deadline /\ 0 < probeTimeout deadline /\ watch_interval deadline + probeTimeout deadline = deadline.
Proof.
  intros Hd. assert (Hq : 0 < Z.quot deadline 2 < deadline).
  { rewrite Z.quot_div_nonneg by lia. pose proof (Z_div_mod_eq_full deadline 2). pose proof (Z.mod_pos_bound deadline 2 ltac:(lia)). lia. }
  unfold probeTimeout, watch_interval. rewrite (proj2 (Z.leb_gt (Z.quot deadline 2) 0)) by lia.
  rewrite (proj2 (Z.leb_gt (deadline - Z.quot deadline 2) 0)) by lia. lia.
Qed.

(** The timer and the probe stay within the budget of the last sign of life. *)
Record WInv (deadline : duration) (w : hostWatch) : Prop := {
  wi_heard : w_heard w <= w_now w;
  wi_phase : match w_phase w with
             | Waiting due => w_now w <= due /\ due <= w_heard w + watch_interval deadline /\ (w_activity w = true -> w_now w <= w_heard w)
             | Probing since => since <= w_now w <= since + probeTimeout deadline /\ since <= w_heard w + watch_interval deadline
             | Finished => w_failure w <> None \/ w_stopped w = true \/ w_ctxDone w = true
             end;
  wi_failure : match w_failure w with
               | None => w_cancelled w = false
               | Some e => w_phase w = Finished /\ w_cancelled w = true /\ exists err, e = EWrap "" [ESentinel ErrStreamFailed; EWrap "host did not answer for microvm" [err]]
               end }.

Lemma WInv_init deadline start : 2 <= deadline -> WInv deadline (watchHost deadline true start).
Proof.
  intros Hd. destruct (budget deadline Hd) as (B1 & B2 & B3). unfold watchHost, time_Add. split; simpl; [lia| |done].
  rewrite (proj2 (Z.leb_gt deadline 0)) by lia. simpl. split_and!; [lia..|done].
Qed.

Lemma WInv_step deadline i w w' : 2 <= deadline -> WInv deadline w -> watch_step deadline i w = Some w' -> WInv deadline w'.
Proof.
  intros Hd [I1 I2 I3] Hs. destruct (budget deadline Hd) as (B1 & B2 & B3).
  destruct i as [d| | | |ans| | |]; simpl in Hs.
  - destruct (Z.leb_spec 0 d); simpl in Hs; [|done]. destruct (urgent deadline w) eqn:HU; simpl in Hs; [done|].
    destruct (until deadline w d) eqn:HT; [|done]. injection Hs as <-. unfold until in HT. unfold urgent in HU. split; simpl; [lia| |done].
    destruct (w_phase w); [apply Z.leb_le in HT|apply Z.leb_le in HT; lia|done].
    destruct (w_activity w); [done|]. split_and!; [lia..|done].
  - injection Hs as <-. unfold sawResponse. split; simpl; [lia| |done]. destruct (w_phase w); [split_and!; lia|lia|done].
  - destruct (w_phase w) as [due| |] eqn:HP; try done. destruct (w_activity w); [|done]. injection Hs as <-. split; simpl; [lia|lia|].
    destruct (w_failure w); [by destruct I3|done].
  - destruct (w_phase w) as [due| |] eqn:HP; try done. destruct (Z.leb_spec due (w_now w)); [|done]. injection Hs as <-. split; simpl; [lia|lia|].
    destruct (w_failure w); [by destruct I3|done].
  - destruct (w_phase w) as [|since|] eqn:HP; try done. destruct (w_failure w) eqn:HF; [by destruct I3|]. destruct ans as [err|]; simpl in Hs.
    + destruct (w_stopped w) eqn:HS1, (w_ctxDone w) eqn:HS2; simpl in Hs; injection Hs as <-; split; simpl; rewrite ?HF, ?HS1, ?HS2; eauto.
    + injection Hs as <-. split; simpl; [lia|lia|by rewrite HF].
  - injection Hs as <-. unfold watch_stop. split; simpl; [done| |done]. destruct (w_phase w); [done..|auto].
  - injection Hs as <-. split; simpl; [done| |done]. destruct (w_phase w); [done..|auto].
  - destruct (w_phase w) as [due| |] eqn:HP; try done. destruct (w_stopped w || w_ctxDone w) eqn:HS; [|done]. injection Hs as <-. split; simpl; [done| |].
    + apply orb_true_iff in HS. auto.
    + destruct (w_failure w); [by destruct I3|done].
Qed.

Lemma WInv_reachable deadline start w : 2 <= deadline -> watch_reachable deadline start w -> WInv deadline w.
Proof. intros Hd. induction 1; [by apply WInv_init|by eapply WInv_step]. Qed.

(** C30: an operation does not outlive its Host.  While the watch runs, the
    Host was heard from no longer ago than the transport deadline, so once
    that has passed in silence the operation has been cancelled, with an
    error that is ErrStreamFailed and names the failed probe, unless it had
    ended by itself.  An operation is cancelled only for a probe that failed:
    a quiet Stage on a Host that answers goes on. *)
Theorem watch_deadline deadline start w :
  2 <= deadline -> watch_reachable deadline start w ->
  (w_phase w <> Finished -> w_now w <= w_heard w + deadline)
  /\ (w_phase w = Finished -> w_cancelled w = true \/ w_stopped w = true \/ w_ctxDone w = true)
  /\ (w_cancelled w = true -> exists err, w_failure w = Some (EWrap "" [ESentinel ErrStreamFailed; EWrap "host did not answer for microvm" [err]])).
Proof.
  intros Hd Hr. destruct (budget deadline Hd) as (B1 & B2 & B3). destruct (WInv_reachable _ _ _ Hd Hr) as [I1 I2 I3]. split_and!.
  - intros Hp. destruct (w_phase w); [lia..|done].
  - intros Hp. rewrite Hp in I2. destruct I2 as [I2|I2]; [|by right]. left. destruct (w_failure w); [|done]. by destruct I3 as (_ & ? & _).
  - intros Hc. destruct (w_failure w) as [e|]; [|congruence]. destruct I3 as (_ & _ & err & ->). by exists err.
Qed.

Fixpoint watch_run (deadline : duration) (ins : list watch_input) (w : hostWatch) : option hostWatch :=
  match ins with [] => Some w | i :: ins => w ← watch_step deadline i w; watch_run deadline ins w end.

Lemma watch_run_reachable deadline start ins w w' : watch_reachable deadline start w -> watch_run deadline ins w = Some w' -> watch_reachable deadline start w'.
Proof.
  revert w. induction ins as [|i ins IH]; intros w Hr; simpl; [by intros [= <-]|].
  destruct (watch_step deadline i w) as [w1|] eqn:Hs; [|done]. simpl. apply IH. by eapply watch_next.
Qed.

(** A response after 3 s, then silence; the probe after 5 s more goes
    unanswered. *)
Lemma watch_deadline_witness : exists w,
  watch_run (10 * second) [WTick (3 * second); WResponse; WNotice; WTick (5 * second); WFire; WTick (5 * second); WAnswer (Some (ESentinel CtxDeadlineExceeded))]
    (watchHost (10 * second) true 0) = Some w
  /\ w_cancelled w = true /\ exists err, w_failure w = Some (EWrap "" [ESentinel ErrStreamFailed; EWrap "host did not answer for microvm" [err]]).
Proof.
  eexists. split; [reflexivity|]. split; [reflexivity|].
  match goal with |- exists err, w_failure ?w = _ => set (w1 := w) end.
  assert (Hr : watch_reachable (10 * second) 0 w1).
  { apply (watch_run_reachable (10 * second) 0 [WTick (3 * second); WResponse; WNotice; WTick (5 * second); WFire; WTick (5 * second);
      WAnswer (Some (ESentinel CtxDeadlineExceeded))] (watchHost (10 * second) true 0)); [apply watch_init|reflexivity]. }
  apply (watch_deadline (10 * second) 0 w1 ltac:(unfold second; lia) Hr). reflexivity.
Defined.
