(* ===== verification/AgentHosts.v ===== *)
(** * internal/transport/agentexec.go: the clients of Exec Agents

    Each Lease dials a connection of its own.  The dial happens outside the
    lock, so a Close can come between it and the registration.  Connections
    are numbered; [ah_open] are the ones not closed yet, [ah_dialled] the ones
    a Lease has dialled and not registered, [ah_held] the ones handed out and
    not released. *)
From S2P Require Import Prelude GoModel Executor.

Record agentHosts := { ah_clients : gset Z; ah_closed : bool; ah_next : Z; ah_open : gset Z; ah_dialled : gset Z; ah_held : gset Z }.
#[export] Instance eta_agentHosts : Eta agentHosts :=
  fun r => {| ah_clients := ah_clients r; ah_closed := ah_closed r; ah_next := ah_next r; ah_open := ah_open r;
              ah_dialled := ah_dialled r; ah_held := ah_held r |}.

Definition NewAgentHosts (dial : bool) : result agentHosts :=
  if negb dial then Err (ENew "transport: agent-exec needs the claim backend's dialler of Exec Agents")
  else Ok {| ah_clients := ∅; ah_closed := false; ah_next := 0; ah_open := ∅; ah_dialled := ∅; ah_held := ∅ |}.

Definition close_conn (c : Z) (a : agentHosts) : agentHosts := a <| ah_open := ah_open a ∖ {[c]} |>.

(** Before the dial. *)
Definition Lease_check (claim : AgentClaim) (a : agentHosts) : option error :=
  if String.eqb (ac_LeaseID claim) "" then Some (ENew "transport: the claim has no lease id")
  else if ah_closed a then Some (ENew "transport: the exec agent clients are closed") else None.
Definition Lease_dial (answer : option error) (a : agentHosts) : agentHosts * result Z :=
  match answer with
  | Some e => (a, Err (EWrap "transport: dialling the exec agent" [e]))
  | None => let c := ah_next a in
            (a <| ah_next := c + 1 |> <| ah_open := {[c]} ∪ ah_open a |> <| ah_dialled := {[c]} ∪ ah_dialled a |>, Ok c)
  end.
(** After it. *)
Definition Lease_register (c : Z) (a : agentHosts) : agentHosts * result Z :=
  let a := a <| ah_dialled := ah_dialled a ∖ {[c]} |> in
  if ah_closed a then (close_conn c a, Err (ENew "transport: the exec agent clients are closed"))
  else (a <| ah_clients := {[c]} ∪ ah_clients a |> <| ah_held := {[c]} ∪ ah_held a |>, Ok c).
Definition agent_release (c : Z) (a : agentHosts) : agentHosts :=
  close_conn c (a <| ah_clients := ah_clients a ∖ {[c]} |> <| ah_held := ah_held a ∖ {[c]} |>).
Definition agent_Close (a : agentHosts) : agentHosts :=
  let clients := ah_clients a in
  let a := a <| ah_clients := ∅ |> <| ah_closed := true |> in
  foldr close_conn a (elements clients).

(** The address the client reports. *)
Definition lease_address (claim : AgentClaim) (target : string) : string :=
  if String.eqb (ac_Address claim) "" then target else ac_Address claim.

(** Probe leases, asks and releases. *)
Definition agent_Probe (claim : AgentClaim) (dial : option error) (GetMicroVM : option error) (a : agentHosts) : agentHosts * option error :=
  match Lease_check claim a with
  | Some e => (a, Some e)
  | None =>
      match Lease_dial dial a with
      | (a, Err e) => (a, Some e)
      | (a, Ok c) =>
          match Lease_register c a with
          | (a, Err e) => (a, Some e)
          | (a, Ok c) => (agent_release c a, match GetMicroVM with None => None | Some e => Some (EWrap "transport: the exec agent did not answer" [e]) end)
          end
      end
  end.

Inductive agent_input :=
  | ADial (claim : AgentClaim) (answer : option error)
  | ARegister (c : Z)
  | ARelease (c : Z)
  | AClose.

Definition agent_step (i : agent_input) (a : agentHosts) : option agentHosts :=
  match i with
  | ADial claim answer => match Lease_check claim a with Some _ => Some a | None => Some (Lease_dial answer a).1 end
  | ARegister c => if decide (c ∈ ah_dialled a) then Some (Lease_register c a).1 else None
  | ARelease c => if decide (c ∈ ah_held a) then Some (agent_release c a) else None
  | AClose => Some (agent_Close a)
  end.

Fixpoint agent_run (ins : list agent_input) (a : agentHosts) : option agentHosts :=
  match ins with [] => Some a | i :: ins => a ← agent_step i a; agent_run ins a end.

Lemma close_conns_spec l a :
  let a' := foldr close_conn a l in
  ah_open a' = ah_open a ∖ list_to_set l /\ ah_clients a' = ah_clients a /\ ah_closed a' = ah_closed a
  /\ ah_next a' = ah_next a /\ ah_dialled a' = ah_dialled a /\ ah_held a' = ah_held a.
Proof.
  induction l as [|c l IH]; simpl; [split_and!; [set_solver|done..]|]. cbv zeta in IH.
  set (x := foldr close_conn a l) in *. clearbody x. destruct IH as (I1 & I2 & I3 & I4 & I5 & I6). unfold close_conn. simpl. split_and!; [rewrite I1; set_solver|done..].
Qed.

Record AInv (a : agentHosts) : Prop := {
  ai_open : ah_open a = ah_clients a ∪ ah_dialled a;
  ai_disj : ah_clients a ## ah_dialled a;
  ai_held : if ah_closed a then ah_clients a = ∅ else ah_held a = ah_clients a;
  ai_helddial : ah_held a ## ah_dialled a;
  ai_next : forall c, c ∈ ah_open a ∪ ah_held a -> c < ah_next a }.

Ltac sets := match goal with I5 : forall c : Z, _ -> c < _ |- _ => clear I5 end; set_solver.
Ltac bound I5 := let c := fresh "c" in let Hin := fresh "Hin" in intros c Hin; apply I5; clear I5; set_solver.

Lemma AInv_step i a a' : AInv a -> agent_step i a = Some a' -> AInv a'.
Proof.
  intros [I1 I2 I3 I4 I5] Hs. destruct i as [claim answer|c|c|]; simpl in Hs.
  - destruct (Lease_check claim a); [by injection Hs as <-|]. injection Hs as <-. destruct answer as [e|]; [done|]. simpl.
    assert (Hc : ah_next a ∉ ah_open a ∪ ah_held a) by (intros Hin; apply I5 in Hin; lia).
    split; simpl; [sets|sets|done|sets|].
    intros c Hin. destruct (decide (c = ah_next a)) as [->|]; [lia|]. assert (c < ah_next a) by (apply I5; sets). lia.
  - destruct (decide (c ∈ ah_dialled a)) as [Hin|]; [|done]. injection Hs as <-. unfold Lease_register. simpl.
    destruct (ah_closed a) eqn:HC; simpl.
    + split; simpl; rewrite ?HC; [rewrite I1, I3; sets|sets|done|sets|bound I5].
    + split; simpl; rewrite ?HC; [|sets|by rewrite I3|sets|].
      * rewrite I1. apply set_eq. intros x. destruct (decide (x = c)); sets.
      * intros x Hx. apply I5. rewrite I1 in *. destruct (decide (x = c)); sets.
  - destruct (decide (c ∈ ah_held a)) as [Hin|]; [|done]. injection Hs as <-. unfold agent_release, close_conn.
    split; simpl; [rewrite I1; sets|sets| |sets|bound I5]. destruct (ah_closed a); [rewrite I3; sets|by rewrite I3].
  - injection Hs as <-. unfold agent_Close.
    destruct (close_conns_spec (elements (ah_clients a)) (a <| ah_clients := ∅ |> <| ah_closed := true |>)) as (C1 & C2 & C3 & C4 & C5 & C6).
    set (x := foldr _ _ _) in *. clearbody x. simpl in *. rewrite list_to_set_elements_L in C1.
    split; rewrite ?C1, ?C2, ?C3, ?C4, ?C5, ?C6; [rewrite I1; sets|sets|done|done|bound I5].
Qed.

(** No connection to an Exec Agent is lost, however Leases, releases and
    the Close interleave.  The open connections are the ones registered and
    the ones whose Lease is still dialling; before the Close every Lease that
    was handed out has its connection open, and after it, once the dials in
    flight are done, no connection is open. *)
Theorem agent_connections ins a0 a :
  NewAgentHosts true = Ok a0 -> agent_run ins a0 = Some a ->
  ah_open a = ah_clients a ∪ ah_dialled a
  /\ (ah_closed a = false -> ah_held a ⊆ ah_open a /\ ah_clients a = ah_held a)
  /\ (ah_closed a = true -> ah_dialled a = ∅ -> ah_open a = ∅).
Proof.
  intros [= <-] Hr.
  assert (HI : AInv a).
  { revert Hr. assert (H0 : AInv {| ah_clients := ∅; ah_closed := false; ah_next := 0; ah_open := ∅; ah_dialled := ∅; ah_held := ∅ |}) by (split; simpl; set_solver).
    revert H0. generalize {| ah_clients := ∅; ah_closed := false; ah_next := 0; ah_open := ∅; ah_dialled := ∅; ah_held := ∅ |}.
    induction ins as [|i ins IH]; intros b HI; simpl; [by intros [= <-]|]. destruct (agent_step i b) as [b1|] eqn:Hs; [|done].
    simpl. apply IH. by eapply AInv_step. }
  destruct HI as [I1 I2 I3 I4 I5]. split_and!; [done|..].
  - intros HC. rewrite HC in I3. set_solver.
  - intros HC HD. rewrite HC in I3. set_solver.
Qed.

Definition demo_claim_of (lease : string) : AgentClaim := {| ac_LeaseID := lease; ac_VMUID := "vm-1"; ac_Host := "h1"; ac_Address := "" |}.

(** The second Lease dials while the clients are closed. *)
Lemma agent_connections_witness : exists a0 a,
  NewAgentHosts true = Ok a0
  /\ agent_run [ADial (demo_claim_of "l1") None; ARegister 0; ADial (demo_claim_of "l2") None; AClose; ARegister 1; ARelease 0] a0 = Some a
  /\ ah_open a = ∅.
Proof.
  do 2 eexists. split; [reflexivity|]. split; [vm_compute; reflexivity|].
  match goal with |- ah_open ?x = _ => set (a := x) end.
  refine (proj2 (proj2 (agent_connections [ADial (demo_claim_of "l1") None; ARegister 0; ADial (demo_claim_of "l2") None; AClose; ARegister 1; ARelease 0] _ a eq_refl _)) _ _);
    vm_compute; reflexivity.
Defined.
