(* ===== verification/FilePath.v ===== *)
(** * path/filepath on Unix: Clean, Join, IsAbs

    What the sources use of it.  A path is cleaned one element at a time:
    empty elements and dots are skipped, a double dot removes the element
    before it, if there is one that is no double dot itself, and is dropped
    at the root. *)
From Stdlib Require Import Ascii.
From S2P Require Import Prelude GoStrings.

#[local] Arguments Ascii.eqb : simpl never.

Fixpoint split_slash (s : string) : list string :=
  match s with
  | EmptyString => [""]
  | String c s =>
      if Ascii.eqb "/"%char c then "" :: split_slash s
      else match split_slash s with [] => [String c ""] | e :: es => String c e :: es end
  end.
Fixpoint join_slash (es : list string) : string :=
  match es with [] => "" | [e] => e | e :: es => e +:+ "/" +:+ join_slash es end.

Definition IsAbs (s : string) : bool := match s with String c _ => Ascii.eqb "/"%char c | _ => false end.

(** The elements kept so far, the last one first. *)
Definition clean_step (rooted : bool) (st : list string) (e : string) : list string :=
  if String.eqb e "" || String.eqb e "." then st
  else if String.eqb e ".." then
    match st with
    | [] => if rooted then [] else [".."]
    | top :: rest => if String.eqb top ".." then ".." :: st else rest
    end
  else e :: st.
Definition render (rooted : bool) (es : list string) : string :=
  if rooted then "/" +:+ join_slash es
  else match es with [] => "." | _ => join_slash es end.
Definition Clean (s : string) : string := render (IsAbs s) (reverse (foldl (clean_step (IsAbs s)) [] (split_slash s))).

(** Join of two elements: empty ones are left out. *)
Definition Join (a b : string) : string :=
  if String.eqb a "" then (if String.eqb b "" then "" else Clean b) else Clean (a +:+ "/" +:+ b).

(** ** Elements *)
Definition no_slash (e : string) : Prop := has_byte "/"%char e = false.
(** An element that names something. *)
Definition proper (e : string) : Prop := e <> "" /\ e <> "." /\ e <> ".." /\ no_slash e.

Lemma split_slash_cons s : exists e es, split_slash s = e :: es.
Proof. destruct s as [|c s]; cbn [split_slash]; [eauto|]. destruct (Ascii.eqb _ c); [eauto|]. destruct (split_slash s); eauto. Qed.

Lemma split_slash_no_slash s : Forall no_slash (split_slash s).
Proof.
  induction s as [|c s IH]; cbn [split_slash]; [repeat constructor|]. destruct (Ascii.eqb "/"%char c) eqn:E; [by constructor|].
  destruct (split_slash s) as [|e es]; [constructor; [unfold no_slash; simpl; by rewrite E|constructor]|].
  apply Forall_cons in IH as [He Hes]. constructor; [|done]. unfold no_slash in *. simpl. by rewrite E.
Qed.

Lemma split_slash_app a b : split_slash (a +:+ "/" +:+ b) = split_slash a ++ split_slash b.
Proof.
  induction a as [|c a IH]; [done|]. change (split_slash (String c (a +:+ "/" +:+ b)) = split_slash (String c a) ++ split_slash b).
  cbn [split_slash]. destruct (Ascii.eqb "/"%char c); [by rewrite IH|]. rewrite IH. destruct (split_slash_cons a) as (e & es & ->). done.
Qed.

Lemma split_slash_one e : no_slash e -> split_slash e = [e].
Proof.
  unfold no_slash. induction e as [|c e IH]; simpl; [done|]. intros [-> H]%orb_false_iff. by rewrite (IH H).
Qed.

Lemma split_join es : es <> [] -> Forall no_slash es -> split_slash (join_slash es) = es.
Proof.
  intros Hne HF. induction es as [|e es IH]; [done|]. apply Forall_cons in HF as [He HF]. destruct es as [|e' es].
  - by apply split_slash_one.
  - change (split_slash (e +:+ "/" +:+ join_slash (e' :: es)) = e :: e' :: es). rewrite split_slash_app, split_slash_one, IH by done. done.
Qed.

Lemma split_render es : es <> [] -> Forall no_slash es -> split_slash (render true es) = "" :: es.
Proof. intros Hne HF. unfold render. change ("" :: split_slash (join_slash es) = "" :: es). by rewrite split_join. Qed.

Lemma join_slash_snoc es e : es <> [] -> join_slash (es ++ [e]) = join_slash es +:+ "/" +:+ e.
Proof.
  induction es as [|x es IH]; [done|]. intros _. destruct es as [|y es]; [done|].
  change (x +:+ "/" +:+ join_slash ((y :: es) ++ [e]) = (x +:+ "/" +:+ join_slash (y :: es)) +:+ "/" +:+ e).
  rewrite IH by done. by rewrite !string_app_assoc.
Qed.

(** At the root the elements kept are proper. *)
Lemma clean_rooted st es : Forall proper st -> Forall no_slash es -> Forall proper (foldl (clean_step true) st es).
Proof.
  revert st. induction es as [|e es IH]; intros st HS HE; [done|]. apply Forall_cons in HE as [He HE]. apply IH; [|done].
  unfold clean_step. destruct (String.eqb_spec e ""); [done|]. destruct (String.eqb_spec e "."); [done|]. simpl.
  destruct (String.eqb_spec e ".."); [|by constructor]. destruct st as [|top rest]; [done|].
  apply Forall_cons in HS as [(_ & _ & Ht & _) HR]. by destruct (String.eqb_spec top "..").
Qed.

(** Proper elements are all kept. *)
Lemma clean_proper rooted st es : Forall proper es -> foldl (clean_step rooted) st es = reverse es ++ st.
Proof.
  revert st. induction es as [|e es IH]; intros st HE; [done|]. apply Forall_cons in HE as [(H1 & H2 & H3 & _) HE]. cbn [foldl].
  rewrite IH by done. unfold clean_step. destruct (String.eqb_spec e ""); [done|]. destruct (String.eqb_spec e "."); [done|].
  destruct (String.eqb_spec e ".."); [done|]. simpl. by rewrite reverse_cons, <-app_assoc.
Qed.

(** The elements of a cleaned absolute path. *)
Lemma Clean_abs s : IsAbs s = true -> exists es, Clean s = render true es /\ Forall proper es.
Proof.
  intros HA. unfold Clean. rewrite HA. eexists. split; [reflexivity|]. apply Forall_reverse, clean_rooted; [constructor|apply split_slash_no_slash].
Qed.

(** [dir] is [root] followed by the names [es]. *)
Definition under (root : string) (es : list string) : string := foldl (fun d e => d +:+ "/" +:+ e) root es.

Lemma render_app cs es : cs <> [] -> render true (cs ++ es) = under (render true cs) es.
Proof.
  intros Hne. unfold under. revert cs Hne. induction es as [|e es IH]; intros cs Hne; [by rewrite app_nil_r|]. cbn [foldl].
  replace (cs ++ e :: es) with ((cs ++ [e]) ++ es) by by rewrite <-app_assoc.
  rewrite IH by by destruct cs. f_equal. unfold render. rewrite join_slash_snoc by done. by rewrite string_app_assoc.
Qed.

Lemma HasPrefix_app p r : HasPrefix (p +:+ r) p = true.
Proof. induction p as [|c p IH]; [by destruct r|]. simpl. by rewrite Ascii.eqb_refl. Qed.
Lemma HasPrefix_true s p : HasPrefix s p = true -> exists r, s = p +:+ r.
Proof.
  revert s. induction p as [|c p IH]; intros s Hp; [by exists s|]. destruct s as [|d s]; simpl in Hp; [done|].
  apply andb_true_iff in Hp as [Hc Hp]. apply Ascii.eqb_eq in Hc as ->. destruct (IH s Hp) as [r ->]. by exists r.
Qed.

(** A directory: a clean absolute path other than the root. *)
Definition directory (s : string) : Prop := exists es, s = render true es /\ es <> [] /\ Forall proper es.

Lemma proper_no_slash es : Forall proper es -> Forall no_slash es.
Proof. intros H. eapply Forall_impl; [exact H|]. by intros e (_ & _ & _ & ?). Qed.

Lemma Join_directory cs b : cs <> [] -> Forall proper cs ->
  Join (render true cs) b = render true (reverse (foldl (clean_step true) (reverse cs) (split_slash b))).
Proof.
  intros Hne HC. unfold Join. destruct (String.eqb_spec (render true cs) "") as [E|_]; [done|].
  unfold Clean. change (IsAbs (render true cs +:+ "/" +:+ b)) with true. rewrite split_slash_app, (split_render cs Hne (proper_no_slash cs HC)).
  cbn [app foldl]. rewrite foldl_app. change (clean_step true [] "") with (@nil string). rewrite (clean_proper true [] cs HC), app_nil_r. done.
Qed.

(** ** Names right below a directory *)
Lemma Join_proper root e : directory root -> proper e -> Join root e = root +:+ "/" +:+ e.
Proof.
  intros (cs & -> & Hne & HC) He. rewrite Join_directory by done. destruct He as (H1 & H2 & H3 & H4).
  rewrite split_slash_one, clean_proper by (done || by repeat constructor).
  rewrite reverse_app, !reverse_involutive, render_app by done. done.
Qed.

Lemma HasPrefix_common p a b : HasPrefix (p +:+ a) (p +:+ b) = HasPrefix a b.
Proof. induction p as [|c p IH]; [done|]. change (Ascii.eqb c c && HasPrefix (p +:+ a) (p +:+ b) = HasPrefix a b). by rewrite Ascii.eqb_refl, IH. Qed.

Lemma string_app_inj p a b : p +:+ a = p +:+ b -> a = b.
Proof. induction p as [|c p IH]; [done|]. intros H. apply IH. by injection H. Qed.

(** Siblings are not below each other, and not above their parent. *)
Lemma sibling_prefix root a b : no_slash b -> HasPrefix (root +:+ "/" +:+ b) ((root +:+ "/" +:+ a) +:+ "/") = false.
Proof.
  intros Hb. rewrite (string_app_assoc root ("/" +:+ a) "/"), HasPrefix_common, (string_app_assoc "/" a "/"), HasPrefix_common.
  apply not_true_iff_false. intros [r ->]%HasPrefix_true. unfold no_slash in Hb. rewrite !has_byte_app in Hb.
  change (has_byte "/"%char "/") with true in Hb. destruct (has_byte "/"%char a); done.
Qed.
Lemma string_length_app (a b : string) : String.length (a +:+ b) = (String.length a + String.length b)%nat.
Proof. induction a as [|x a IH]; [done|]. change (S (String.length (a +:+ b)) = S (String.length a + String.length b)). by rewrite IH. Qed.
Lemma parent_prefix root a : HasPrefix root ((root +:+ "/" +:+ a) +:+ "/") = false.
Proof.
  apply not_true_iff_false. intros [r Hr]%HasPrefix_true. apply (f_equal String.length) in Hr. rewrite !string_length_app in Hr. simpl in Hr. lia.
Qed.
Lemma child_ne root a : root +:+ "/" +:+ a <> root.
Proof. intros H. apply (f_equal String.length) in H. rewrite !string_length_app in H. simpl in H. lia. Qed.
