(* ===== verification/HostClient.v ===== *)
(** * internal/flintlock: the client of one Host, its dialling and its probe

    client.go, dial.go and probe.go.  The generated stubs are parameters: a
    call's outcome is the value the stub returns, and a stream is the list of
    the messages the Host sends with the error that ends it.  The file system
    and crypto/x509, crypto/tls are parameters too. *)
From S2P Require Import Prelude GoModel ConfigTypes Spec PoolClient PoolDecl Registry GoStrings FilePath HostEnv Transport.

(** ** mapErr

    [status.FromError] answers false for an error that is no status, which
    covers io.EOF and the errors of a context.  A join of two errors is a
    wrap with both as causes. *)
Definition host_mapErr (host op : string) (err : rpc_error) : error :=
  let pre := "flintlock: host " +:+ host +:+ ": " +:+ op in
  match err with
  | ROther e => EWrap pre [e]
  | RStatus c msg =>
      let with_ s := EWrap (pre +:+ ": " +:+ msg) [s] in
      match c with
      | NotFound => with_ (ESentinel HostErrNotFound)
      | Unimplemented => with_ (ESentinel HostErrUnimplemented)
      | Unauthenticated => with_ (ESentinel HostErrUnauthenticated)
      | Unavailable => with_ (ESentinel HostErrUnavailable)
      | DeadlineExceeded => with_ (EWrap "" [ESentinel HostErrUnavailable; ESentinel CtxDeadlineExceeded])
      | Canceled => with_ (EWrap "" [ESentinel HostErrUnavailable; ESentinel CtxCanceled])
      | _ => EWrap (pre +:+ ": " +:+ Code_String c) [ENew msg]
      end
  end.

Definition is_EOF (err : rpc_error) : bool :=
  match err with RStatus _ _ => false | ROther e => errors_Is e IoEOF end.
Definition io_EOF : rpc_error := ROther (ESentinel IoEOF).

(** ** The unary calls *)
Record GuestService := { gs_Enabled : bool; gs_Address : string }.
Record HostInfo := {
  hi_Name : string; hi_VersionKnown : bool; hi_Version : string; hi_BuildDate : string; hi_Commit : string;
  hi_Uptime : duration; hi_Exec : GuestService; hi_SSHProxy : GuestService }.

(** The response of ServerInfo; the message fields may be missing, and the
    getters of a missing message answer zero values. *)
Record VersionInfo := { vi_Version : string; vi_BuildDate : string; vi_CommitHash : string }.
Record ServerInfoResponse := {
  si_Version : option VersionInfo; si_Uptime : option duration;
  si_Exec : option GuestService; si_SshProxy : option GuestService }.
Definition noVersion : VersionInfo := {| vi_Version := ""; vi_BuildDate := ""; vi_CommitHash := "" |}.
Definition noService : GuestService := {| gs_Enabled := false; gs_Address := "" |}.

Definition client_ServerInfo (name : string) (stub : rres ServerInfoResponse) : result HostInfo :=
  match stub with
  | RErr err => Err (host_mapErr name "ServerInfo" err)
  | ROk resp =>
      let v := default noVersion (si_Version resp) in
      Ok {| hi_Name := name; hi_VersionKnown := true; hi_Version := vi_Version v; hi_BuildDate := vi_BuildDate v;
            hi_Commit := vi_CommitHash v; hi_Uptime := default 0 (si_Uptime resp);
            hi_Exec := default noService (si_Exec resp); hi_SSHProxy := default noService (si_SshProxy resp) |}
  end.

Section Unary.
Context {MicroVM : Type}.

Definition client_GetMicroVM (name : string) (stub : string -> rres (option MicroVM)) (uid : string) : result (option MicroVM) :=
  match stub uid with
  | RErr err => Err (host_mapErr name ("GetMicroVM " +:+ uid) err)
  | ROk vm => Ok vm
  end.

(** The namespaces the stub was asked for, and the answer. *)
Definition client_ListMicroVMs (name : string) (stub : string -> rres (list MicroVM)) (namespace : string)
    : list string * result (list MicroVM) :=
  if String.eqb namespace "" then ([], Err (ENew ("flintlock: host " +:+ name +:+ ": ListMicroVMs needs the Runner's namespace")))
  else ([namespace], match stub namespace with
                     | RErr err => Err (host_mapErr name ("ListMicroVMs " +:+ namespace) err)
                     | ROk l => Ok l
                     end).
End Unary.

(** ** The exec stream *)
Definition client_Exec (name : string) (stub : rres unit) : result string :=
  match stub with RErr err => Err (host_mapErr name "ExecCommand" err) | ROk _ => Ok name end.
Definition rpc_raw (e : rpc_error) : error :=
  match e with ROther e => e | RStatus c msg => ENew (Code_String c +:+ ": " +:+ msg) end.
Definition execStream_Send (host : string) (stub : option rpc_error) : option error :=
  match stub with
  | None => None
  | Some err => Some (if is_EOF err then rpc_raw err else host_mapErr host "ExecCommand send" err)
  end.
Definition execStream_Recv {A} (host : string) (stub : rres A) : result A :=
  match stub with
  | ROk resp => Ok resp
  | RErr err => Err (if is_EOF err then ESentinel IoEOF else host_mapErr host "ExecCommand receive" err)
  end.
Definition execStream_CloseSend (host : string) (stub : option rpc_error) : option error :=
  match stub with None => None | Some err => Some (host_mapErr host "ExecCommand close send" err) end.

(** How the exec Guest Transport reads these answers. *)
Definition as_sent (r : option error) : sent :=
  match r with None => SentOK | Some e => if errors_Is e IoEOF then SentEOF else SentErr e end.
Definition as_end (e : error) : stream_end := if errors_Is e IoEOF then EndEOF else EndErr e.

(** ** The pipe to the guest's sshd

    [sc_msgs] are the messages the Host will have sent, [sc_end] what Recv
    answers after them, [sc_sent] the messages that went out.  [sc_once] is
    [closeOnce] and [sc_events] what Close did to the stream. *)
Inductive ssh_request := SshUid (uid : string) | SshData (data : string).
Inductive ssh_event := SshCloseSend | SshCancel.
Record sshConn := {
  sc_host : string; sc_uid : string; sc_msgs : list string; sc_end : rpc_error;
  sc_pending : string; sc_readErr : option error; sc_sent : list ssh_request; sc_once : bool; sc_events : list ssh_event }.
#[export] Instance eta_sshConn : Eta sshConn :=
  fun r => {| sc_host := sc_host r; sc_uid := sc_uid r; sc_msgs := sc_msgs r; sc_end := sc_end r; sc_pending := sc_pending r;
              sc_readErr := sc_readErr r; sc_sent := sc_sent r; sc_once := sc_once r; sc_events := sc_events r |}.

Definition sshConn_readErr (c : sshConn) : error :=
  if is_EOF (sc_end c) then ESentinel IoEOF
  else host_mapErr (sc_host c) ("SSHProxy " +:+ sc_uid c +:+ " receive") (sc_end c).

(** The loop of Read: it receives until there is something pending. *)
Fixpoint read_loop (msgs : list string) (pending : string) (c : sshConn) : sshConn * option error :=
  if negb (String.eqb pending "") then (c <| sc_msgs := msgs |> <| sc_pending := pending |>, None)
  else match sc_readErr c with
  | Some e => (c <| sc_msgs := msgs |> <| sc_pending := pending |>, Some e)
  | None =>
      match msgs with
      | [] => let e := sshConn_readErr c in (c <| sc_msgs := [] |> <| sc_pending := pending |> <| sc_readErr := Some e |>, Some e)
      | m :: msgs => read_loop msgs m c
      end
  end.
(** Read into a buffer of [n] bytes: the bytes copied and the error. *)
Definition sshConn_Read (n : nat) (c : sshConn) : sshConn * (string * option error) :=
  match read_loop (sc_msgs c) (sc_pending c) c with
  | (c, Some e) => (c, ("", Some e))
  | (c, None) => (c <| sc_pending := string_drop n (sc_pending c) |>, (string_take n (sc_pending c), None))
  end.

Definition sshConn_Write (stub : option rpc_error) (p : string) (c : sshConn) : sshConn * (nat * option error) :=
  if String.eqb p "" then (c, (0%nat, None))
  else match stub with
  | Some err => (c, (0%nat, Some (host_mapErr (sc_host c) ("SSHProxy " +:+ sc_uid c +:+ " send") err)))
  | None => (c <| sc_sent := sc_sent c ++ [SshData p] |>, (String.length p, None))
  end.

Definition sshConn_Close (c : sshConn) : sshConn :=
  if sc_once c then c else c <| sc_once := true |> <| sc_events := sc_events c ++ [SshCloseSend; SshCancel] |>.

(** What the stubs answer while a pipe is opened: the stream, the Send of
    the uid, and the Recv that follows a Send that answered io.EOF. *)
Record proxy_env := {
  pe_open : rres unit; pe_send : option rpc_error; pe_recv : rres string; pe_msgs : list string; pe_end : rpc_error }.
(** The Go pair of a pipe, nil or not, and an error, nil or not. *)
Definition client_SSHProxy (name uid : string) (e : proxy_env) : option sshConn * option error :=
  if String.eqb uid "" then (None, Some (ENew ("flintlock: host " +:+ name +:+ ": SSHProxy needs a microvm uid")))
  else match pe_open e with
  | RErr err => (None, Some (host_mapErr name "SSHProxy" err))
  | ROk _ =>
      match pe_send e with
      | Some err =>
          let err := if is_EOF err then match pe_recv e with ROk _ => None | RErr err => Some err end else Some err in
          (None, host_mapErr name ("SSHProxy " +:+ uid) <$> err)
      | None => (Some {| sc_host := name; sc_uid := uid; sc_msgs := pe_msgs e; sc_end := pe_end e; sc_pending := "";
                         sc_readErr := None; sc_sent := [SshUid uid]; sc_once := false; sc_events := [] |}, None)
      end
  end.

(** ** Close of the client *)
Record clientConn := { cn_once : bool; cn_closeErr : option error; cn_closes : nat }.
Definition newClient : clientConn := {| cn_once := false; cn_closeErr := None; cn_closes := 0 |}.
Definition client_Close (name : string) (conn_Close : option error) (c : clientConn) : clientConn * option error :=
  let c := if cn_once c then c
           else {| cn_once := true; cn_closes := S (cn_closes c);
                   cn_closeErr := (fun e => EWrap ("flintlock: host " +:+ name +:+ ": closing connection") [e]) <$> conn_Close |} in
  (c, cn_closeErr c).

(** ** Dialling *)
Definition DefaultCallDeadline : duration := 10 * second.
Definition host_keepaliveTime : duration := 30 * second.
Definition host_keepaliveTimeout : duration := 10 * second.
Definition reconnectBaseDelay : duration := 500 * millisecond.
Definition reconnectMaxDelay : duration := 30 * second.
Definition host_minConnectTimeout : duration := 20 * second.

Record grpcDialer := {
  gd_deadline : duration; gd_keepaliveTime : duration; gd_keepaliveTimeout : duration;
  gd_backoffBase : duration; gd_backoffMax : duration }.
#[export] Instance eta_grpcDialer : Eta grpcDialer :=
  fun r => {| gd_deadline := gd_deadline r; gd_keepaliveTime := gd_keepaliveTime r; gd_keepaliveTimeout := gd_keepaliveTimeout r;
              gd_backoffBase := gd_backoffBase r; gd_backoffMax := gd_backoffMax r |}.
Inductive DialerOption :=
  | WithCallDeadline (d : duration)
  | WithKeepalive (interval timeout : duration)
  | WithReconnectBackoff (base max : duration).
Definition apply_option (g : grpcDialer) (o : DialerOption) : grpcDialer :=
  match o with
  | WithCallDeadline d => if 0 <? d then g <| gd_deadline := d |> else g
  | WithKeepalive interval timeout =>
      let g := if 0 <? interval then g <| gd_keepaliveTime := interval |> else g in
      if 0 <? timeout then g <| gd_keepaliveTimeout := timeout |> else g
  | WithReconnectBackoff base max =>
      let g := if 0 <? base then g <| gd_backoffBase := base |> else g in
      if 0 <? max then g <| gd_backoffMax := max |> else g
  end.
Definition newGRPCDialer (opts : list DialerOption) : grpcDialer :=
  foldl apply_option
    {| gd_deadline := DefaultCallDeadline; gd_keepaliveTime := host_keepaliveTime; gd_keepaliveTimeout := host_keepaliveTimeout;
       gd_backoffBase := reconnectBaseDelay; gd_backoffMax := reconnectMaxDelay |} opts.

Definition basicAuthHeader (token : string) : string :=
  if String.eqb token "" then "" else "Basic " +:+ base64_encode token.

(** What is given to [grpc.NewClient]: the reconnect multiplier and jitter
    are constants of the source that nothing depends on.  [dl_unary] and
    [dl_stream] are the authorization headers the interceptors add. *)
Record dialled (Pool Pair : Type) := {
  dl_Address : string; dl_Creds : credentials Pool Pair; dl_Keepalive : duration * duration; dl_Backoff : duration * duration;
  dl_MinConnectTimeout : duration; dl_Deadline : duration; dl_unary : list string; dl_stream : list string }.
Arguments dl_Address {Pool Pair}. Arguments dl_Creds {Pool Pair}. Arguments dl_Keepalive {Pool Pair}. Arguments dl_Backoff {Pool Pair}.
Arguments dl_MinConnectTimeout {Pool Pair}. Arguments dl_Deadline {Pool Pair}. Arguments dl_unary {Pool Pair}. Arguments dl_stream {Pool Pair}.

(** The deadline and the metadata of a unary call made with a context. *)
Definition unary_call {Pool Pair} (d : dialled Pool Pair) (now : time) (caller : option time) : option time * list (string * string) :=
  (deadlineInterceptor (dl_Deadline d) now caller, pair "authorization" <$> dl_unary d).
Definition stream_call {Pool Pair} (d : dialled Pool Pair) (caller : option time) : option time * list (string * string) :=
  (caller, pair "authorization" <$> dl_stream d).

Section Dial.
Context {CertPool Pair : Type} (ReadFile : string -> result string)
  (AppendCertsFromPEM : string -> option CertPool) (LoadX509KeyPair : string -> string -> result Pair)
  (grpc_NewClient : dialled CertPool Pair -> option error).

Definition host_rootCAs (ep : Endpoint) : result (option CertPool) :=
  let t := e_TLS ep in
  if String.eqb (o_CAFile t) "" then Ok None else
  match ReadFile (o_CAFile t) with
  | Err e => Err (EWrap ("flintlock: host " +:+ e_Name ep +:+ ": reading certificate authority") [e])
  | Ok pem =>
      match AppendCertsFromPEM pem with
      | None => Err (ENew ("flintlock: host " +:+ e_Name ep +:+ ": no certificates in " +:+ o_CAFile t))
      | Some pool => Ok (Some pool)
      end
  end.

Definition host_transportCredentials (ep : Endpoint) : result (credentials CertPool Pair) :=
  let t := e_TLS ep in
  if o_Insecure t then Ok CredInsecure else
  match host_rootCAs ep with
  | Err e => Err e
  | Ok roots =>
      let cert := negb (String.eqb (o_CertFile t) "") in
      let key := negb (String.eqb (o_KeyFile t) "") in
      if cert && key then
        match LoadX509KeyPair (o_CertFile t) (o_KeyFile t) with
        | Err e => Err (EWrap ("flintlock: host " +:+ e_Name ep +:+ ": loading client certificate") [e])
        | Ok kp => Ok (CredTLS roots (Some kp))
        end
      else if cert || key then Err (ENew ("flintlock: host " +:+ e_Name ep +:+ ": mutual TLS needs both a client certificate and a key"))
      else Ok (CredTLS roots None)
  end.

Definition Dial (g : grpcDialer) (ep : Endpoint) : result (dialled CertPool Pair) :=
  if String.eqb (e_Name ep) "" then Err (ENew ("flintlock: dialling " +:+ e_Address ep +:+ ": host name is required"))
  else if String.eqb (e_Address ep) "" then Err (ENew ("flintlock: dialling host " +:+ e_Name ep +:+ ": address is required"))
  else match host_transportCredentials ep with
  | Err e => Err e
  | Ok creds =>
      let header := basicAuthHeader (e_Token ep) in
      let auth := if String.eqb header "" then [] else [header] in
      let d := {| dl_Address := e_Address ep; dl_Creds := creds; dl_Keepalive := (gd_keepaliveTime g, gd_keepaliveTimeout g);
                  dl_Backoff := (gd_backoffBase g, gd_backoffMax g); dl_MinConnectTimeout := host_minConnectTimeout;
                  dl_Deadline := gd_deadline g; dl_unary := auth; dl_stream := auth |} in
      match grpc_NewClient d with
      | Some e => Err (EWrap ("flintlock: dialling host " +:+ e_Name ep +:+ " at " +:+ e_Address ep) [e])
      | None => Ok d
      end
  end.
End Dial.

(** ** Probe

    A [HostClient] as far as the probe uses it, with the namespaces it was
    asked to list. *)
Record HostClient := { hc_Name : string; hc_ServerInfo : result HostInfo; hc_ListMicroVMs : string -> list string * option error }.

(** The client of client.go, over its stubs. *)
Definition as_HostClient {MicroVM} (name : string) (info : rres ServerInfoResponse) (vms : string -> rres (list MicroVM)) : HostClient :=
  {| hc_Name := name; hc_ServerInfo := client_ServerInfo name info;
     hc_ListMicroVMs := fun ns => let '(asked, r) := client_ListMicroVMs name vms ns in
                                  (asked, match r with Ok _ => None | Err e => Some e end) |}.

Definition probeFallback (c : HostClient) (namespace : string) : list string * option error :=
  if String.eqb namespace "" then ([], Some (ENew ("flintlock: host " +:+ hc_Name c +:+ ": probing needs the Runner's namespace")))
  else hc_ListMicroVMs c namespace.

Definition unknownHost (name : string) : HostInfo :=
  {| hi_Name := name; hi_VersionKnown := false; hi_Version := ""; hi_BuildDate := ""; hi_Commit := ""; hi_Uptime := 0;
     hi_Exec := noService; hi_SSHProxy := noService |}.

Definition Probe (c : HostClient) (namespace : string) : list string * result HostInfo :=
  match hc_ServerInfo c with
  | Ok info => ([], Ok info)
  | Err err =>
      if errors_Is err HostErrUnimplemented then
        match probeFallback c namespace with
        | (asked, Some err) => (asked, Err err)
        | (asked, None) => (asked, Ok (unknownHost (hc_Name c)))
        end
      else ([], Err err)
  end.

(** One round of ProbeAll.  [others] is what the rest of the program does to
    the Registry before the Lease and while the probe runs. *)
Definition probe_round (clients : Z -> HostClient) (namespace : string) (others : registry -> registry)
    (during : registry -> registry) (name : string) (r : registry) : registry * option (result HostInfo) :=
  match Lease name (others r) with
  | (r, Err _) => (r, None)
  | (r, Ok e) => (release e (during r), Some (Probe (clients e) namespace).2)
  end.

Fixpoint ProbeAll_loop (clients : Z -> HostClient) (namespace : string) (others : nat -> registry -> registry) (i : nat)
    (names : list string) (r : registry) (infos : gmap string HostInfo) (errs : list error)
    : registry * (gmap string HostInfo * list error) :=
  match names with
  | [] => (r, (infos, errs))
  | name :: names =>
      let '(r, out) := probe_round clients namespace (others (2 * i)%nat) (others (S (2 * i))) name r in
      let '(infos, errs) := match out with
                            | None => (infos, errs)
                            | Some (Err err) => (infos, errs ++ [err])
                            | Some (Ok info) => (<[name := info]> infos, errs)
                            end in
      ProbeAll_loop clients namespace others (S i) names r infos errs
  end.
Definition errors_Join (errs : list error) : option error := match errs with [] => None | _ => Some (EWrap "" errs) end.
Definition ProbeAll (clients : Z -> HostClient) (namespace : string) (others : nat -> registry -> registry) (r : registry)
    : registry * (gmap string HostInfo * option error) :=
  let '(r, (infos, errs)) := ProbeAll_loop clients namespace others 0 (Names r) r ∅ [] in (r, (infos, errors_Join errs)).

(** ** CheckPoolHosts *)
Fixpoint dedupe_loop (started : bool) (last : string) (sorted : list string) : list string :=
  match sorted with
  | [] => []
  | s :: rest => if started && String.eqb s last then dedupe_loop true last rest else s :: dedupe_loop true s rest
  end.
Definition dedupe (sorted : list string) : list string := dedupe_loop false "" sorted.

(** The Pools in name order; the result is a map, so only the warnings
    depend on the order. *)
Definition CheckPoolHosts (r : registry) (pools : gmap string (list string)) : gmap string (list string) :=
  let known : gset string := list_to_set (Names r) in
  foldl (fun missing pool =>
      let absent := filter (fun host => host ∉ known) (default [] (pools !! pool)) in
      match absent with [] => missing | _ => <[pool := dedupe (sort_strings absent)]> missing end)
    ∅ (sort_strings (map_to_list pools).*1).

(** ** Errors *)
(** The sentinels a status code is reported as. *)
Definition code_sentinels (c : Code) : list sentinel :=
  match c with
  | NotFound => [HostErrNotFound]
  | Unimplemented => [HostErrUnimplemented]
  | Unauthenticated => [HostErrUnauthenticated]
  | Unavailable => [HostErrUnavailable]
  | DeadlineExceeded => [HostErrUnavailable; CtxDeadlineExceeded]
  | Canceled => [HostErrUnavailable; CtxCanceled]
  | _ => []
  end.
Definition rpc_Is (err : rpc_error) (s : sentinel) : bool :=
  match err with RStatus c _ => bool_decide (s ∈ code_sentinels c) | ROther e => errors_Is e s end.

Lemma host_mapErr_Is host op err s : errors_Is (host_mapErr host op err) s = rpc_Is err s.
Proof. destruct err as [c msg|e]; [destruct c, s; reflexivity|]. simpl. by rewrite orb_false_r. Qed.

Lemma rpc_Is_EOF err : rpc_Is err IoEOF = is_EOF err.
Proof. by destruct err as [[] ?|e]. Qed.

(** ** The pipe *)
(** The bytes the Host has sent, or will have, that were not read. *)
Definition unread (c : sshConn) : string := sc_pending c +:+ join_strings (sc_msgs c).
Record conn_ok (c : sshConn) : Prop := {
  ok_err : forall e, sc_readErr c = Some e -> e = sshConn_readErr c /\ sc_msgs c = [] /\ sc_pending c = "" }.

(** Reads until one fails. *)
Fixpoint reads (sizes : list nat) (c : sshConn) : sshConn * (list string * option error) :=
  match sizes with
  | [] => (c, ([], None))
  | n :: sizes =>
      match sshConn_Read n c with
      | (c, (_, Some e)) => (c, ([], Some e))
      | (c, (b, None)) => let '(c, (out, err)) := reads sizes c in (c, (b :: out, err))
      end
  end.

(** What the loop of Read leaves: the same bytes unread, some of them
    pending unless it failed, and it fails only when there are none. *)
Record looped (c c' : sshConn) (all : string) (err : option error) : Prop := {
  lo_same : sc_host c' = sc_host c /\ sc_uid c' = sc_uid c /\ sc_end c' = sc_end c;
  lo_ok : conn_ok c';
  lo_unread : unread c' = all;
  lo_err : match err with None => sc_pending c' <> "" | Some e => all = "" /\ e = sshConn_readErr c end }.

Lemma read_loop_spec msgs : forall pending c,
  (forall e, sc_readErr c = Some e -> e = sshConn_readErr c /\ msgs = [] /\ pending = "") ->
  looped c (read_loop msgs pending c).1 (pending +:+ join_strings msgs) (read_loop msgs pending c).2.
Proof.
  induction msgs as [|m msgs IH]; intros pending c Hok; simpl.
  - destruct (String.eqb_spec pending "") as [->|Hp]; simpl.
    + destruct (sc_readErr c) as [e|] eqn:He; simpl.
      * destruct (Hok e eq_refl) as (-> & _ & _). split; try done. split. simpl. rewrite He. intros e [= <-]. done.
      * split; try done. split. simpl. intros e [= <-]. done.
    + by split; try done; split.
  - destruct (String.eqb_spec pending "") as [->|Hp]; simpl.
    + destruct (sc_readErr c) as [e|] eqn:He; [by destruct (Hok e eq_refl) as (_ & ? & _)|].
      apply IH. rewrite He. done.
    + by split; try done; split.
Qed.

Lemma sshConn_Read_spec n c : conn_ok c -> (0 < n)%nat ->
  let '(c', (b, err)) := sshConn_Read n c in
  conn_ok c' /\ sshConn_readErr c' = sshConn_readErr c /\ b +:+ unread c' = unread c
  /\ match err with None => b <> "" /\ (String.length b <= n)%nat | Some e => b = "" /\ unread c = "" /\ e = sshConn_readErr c end.
Proof.
  intros [Hok] Hn. unfold sshConn_Read.
  destruct (read_loop_spec (sc_msgs c) (sc_pending c) c Hok) as [(H1 & H2 & H3) [Hok'] HU HE].
  destruct (read_loop (sc_msgs c) (sc_pending c) c) as [c' [e|]]; simpl in *.
  - destruct HE as [HE ->]. unfold unread in *. rewrite HE in *. split_and!; try done. unfold sshConn_readErr. by rewrite H1, H2, H3.
  - split_and!.
    + split. simpl. intros e He. by destruct (Hok' e He) as (_ & _ & ?).
    + unfold sshConn_readErr. simpl. by rewrite H1, H2, H3.
    + unfold unread in *. simpl. by rewrite <-string_app_assoc, take_drop.
    + by apply take_nonempty.
    + apply take_length.
Qed.

Lemma reads_spec sizes : forall c, conn_ok c -> Forall (fun n => (0 < n)%nat) sizes ->
  let '(c', (out, err)) := reads sizes c in
  join_strings out +:+ unread c' = unread c
  /\ Forall2 (fun b n => b <> "" /\ (String.length b <= n)%nat) out (take (length out) sizes)
  /\ match err with None => length out = length sizes | Some e => unread c' = "" /\ e = sshConn_readErr c end
  /\ ((String.length (unread c) < length sizes)%nat -> is_Some err).
Proof.
  induction sizes as [|n sizes IH]; intros c Hok HS; cbn [reads].
  - simpl. split_and!; try done. intros Hl. exfalso. simpl in Hl. lia.
  - apply Forall_cons in HS as [Hn HS]. pose proof (sshConn_Read_spec n c Hok Hn) as HR.
    destruct (sshConn_Read n c) as [c1 [b [e|]]].
    + destruct HR as (Hok1 & He1 & HU & -> & H0 & ->). cbn [join_strings length take]. split_and!; try done.
      change (unread c1 = unread c) in HU. by rewrite HU.
    + destruct HR as (Hok1 & He1 & HU & Hb & Hbl). specialize (IH c1 Hok1 HS).
      destruct (reads sizes c1) as [c2 [out err]]. destruct IH as (I1 & I2 & I3 & I4). simpl.
      split_and!.
      * by rewrite string_app_assoc, I1.
      * constructor; [done|exact I2].
      * destruct err as [e|]; [by rewrite <-He1|by rewrite I3].
      * intros Hl. apply I4. rewrite <-HU, string_length_app in Hl.
        assert (0 < String.length b)%nat by (destruct b; [done|simpl; lia]). lia.
Qed.

(** The pipe to the guest's sshd.  A pipe that SSHProxy hands out has
    sent the MicroVM's uid before anything else, and whatever the sizes of the
    reads, they hand out the bytes of the Host's messages in order, at least
    one and at most as many as asked for at a time, skipping empty messages;
    a read fails only when every byte was read, with io.EOF for a stream that
    ended and the Host's mapped error otherwise, and one more read than there
    are bytes always gets there. *)
Theorem ssh_pipe name uid env c sizes :
  client_SSHProxy name uid env = (Some c, None) -> Forall (fun n => (0 < n)%nat) sizes ->
  sc_sent c = [SshUid uid] /\ uid <> ""
  /\ let '(c', (out, err)) := reads sizes c in
     join_strings out +:+ unread c' = join_strings (pe_msgs env)
     /\ Forall2 (fun b n => b <> "" /\ (String.length b <= n)%nat) out (take (length out) sizes)
     /\ match err with
        | None => length out = length sizes
        | Some e => join_strings out = join_strings (pe_msgs env)
                    /\ forall s, errors_Is e s = (if is_EOF (pe_end env) then bool_decide (IoEOF = s) else rpc_Is (pe_end env) s)
        end
     /\ ((String.length (join_strings (pe_msgs env)) < length sizes)%nat -> is_Some err).
Proof.
  unfold client_SSHProxy. intros HC HS. destruct (String.eqb_spec uid "") as [|Hu]; [done|].
  destruct (pe_open env); [|done]. destruct (pe_send env); [done|]. injection HC as <-.
  split; [done|]. split; [done|]. match goal with |- context [reads sizes ?c] => set (c0 := c) end.
  assert (Hok : conn_ok c0) by by split. pose proof (reads_spec sizes c0 Hok HS) as HR.
  destruct (reads sizes c0) as [c' [out err]]. destruct HR as (H1 & H2 & H3 & H4).
  split_and!; try done. destruct err as [e|]; [|done]. destruct H3 as [H3 ->]. rewrite H3, string_app_nil in H1.
  split; [exact H1|]. intros s. unfold sshConn_readErr. simpl. destruct (is_EOF (pe_end env)); [done|apply host_mapErr_Is].
Qed.

Definition demo_proxy : proxy_env :=
  {| pe_open := ROk tt; pe_send := None; pe_recv := RErr io_EOF; pe_msgs := ["SSH-2.0"; ""; "xyz"]; pe_end := RStatus Unavailable "gone" |}.
Definition demo_conn : sshConn := default {| sc_host := ""; sc_uid := ""; sc_msgs := []; sc_end := io_EOF; sc_pending := ""; sc_readErr := None;
  sc_sent := []; sc_once := false; sc_events := [] |} (client_SSHProxy "h1" "vm-1" demo_proxy).1.
Lemma ssh_pipe_witness :
  (reads [4; 4; 4; 4]%nat demo_conn).2.1 = ["SSH-"; "2.0"; "xyz"] /\ sc_sent demo_conn = [SshUid "vm-1"].
Proof.
  split; [vm_compute; reflexivity|].
  apply (ssh_pipe "h1" "vm-1" demo_proxy demo_conn [4; 4; 4; 4]%nat); [vm_compute; reflexivity|].
  repeat constructor.
Defined.

(** SSHProxy answers neither a pipe nor an error when the Send of the uid
    reports io.EOF and the Recv after it has a message left to hand out. *)
Theorem SSHProxy_nil_pipe : exists env,
  is_EOF (default (RStatus Unknown "") (pe_send env)) = true /\ client_SSHProxy "h1" "vm-1" env = (None, None).
Proof.
  exists {| pe_open := ROk tt; pe_send := Some io_EOF; pe_recv := ROk "SSH-2.0"; pe_msgs := []; pe_end := io_EOF |}. by split.
Qed.

Lemma sshConn_Close_once c : sshConn_Close (sshConn_Close c) = sshConn_Close c.
Proof. unfold sshConn_Close. by destruct (sc_once c) eqn:E; [rewrite E|]. Qed.

(** ** Dialling *)
Definition dialer_ok (g : grpcDialer) : Prop :=
  0 < gd_deadline g /\ 0 < gd_keepaliveTime g /\ 0 < gd_keepaliveTimeout g /\ 0 < gd_backoffBase g /\ 0 < gd_backoffMax g.

Lemma apply_option_ok g o : dialer_ok g -> dialer_ok (apply_option g o).
Proof.
  unfold dialer_ok. intros H. destruct o as [d|a b|a b]; simpl.
  - destruct (0 <? d) eqn:E; simpl; lia.
  - destruct (0 <? a) eqn:E, (0 <? b) eqn:E'; simpl; lia.
  - destruct (0 <? a) eqn:E, (0 <? b) eqn:E'; simpl; lia.
Qed.

Lemma newGRPCDialer_ok opts : dialer_ok (newGRPCDialer opts).
Proof.
  unfold newGRPCDialer. match goal with |- dialer_ok (foldl _ ?g _) => assert (H : dialer_ok g) by (vm_compute; done); revert H; generalize g end.
  induction opts as [|o opts IH]; intros g H; [done|]. apply IH, apply_option_ok, H.
Qed.

Section DialThms.
Context {CertPool Pair : Type} (ReadFile : string -> result string)
  (AppendCertsFromPEM : string -> option CertPool) (LoadX509KeyPair : string -> string -> result Pair)
  (grpc_NewClient : dialled CertPool Pair -> option error).

(** What the credentials of an Endpoint are. *)
Record creds_ok (t : TLSOptions) (c : credentials CertPool Pair) : Prop := {
  cr_plain : c = CredInsecure <-> o_Insecure t = true;
  cr_tls : forall roots cert, c = CredTLS roots cert ->
    (roots = None <-> o_CAFile t = "") /\ (o_CertFile t = "" <-> o_KeyFile t = "") /\ (cert = None <-> o_CertFile t = "") }.

Lemma host_rootCAs_ok ep roots : host_rootCAs ReadFile AppendCertsFromPEM ep = Ok roots -> roots = None <-> o_CAFile (e_TLS ep) = "".
Proof.
  unfold host_rootCAs. destruct (String.eqb_spec (o_CAFile (e_TLS ep)) "") as [E|E]; [by intros [= <-]|].
  destruct (ReadFile _) as [pem|]; [|done]. destruct (AppendCertsFromPEM pem); [|done]. by intros [= <-].
Qed.

Lemma host_transportCredentials_ok ep c :
  host_transportCredentials ReadFile AppendCertsFromPEM LoadX509KeyPair ep = Ok c -> creds_ok (e_TLS ep) c.
Proof.
  unfold host_transportCredentials. destruct (o_Insecure (e_TLS ep)) eqn:EI; [intros [= <-]; by split|].
  destruct (host_rootCAs _ _ ep) as [roots|] eqn:ER; [|done]. apply host_rootCAs_ok in ER.
  destruct (String.eqb_spec (o_CertFile (e_TLS ep)) "") as [E1|E1], (String.eqb_spec (o_KeyFile (e_TLS ep)) "") as [E2|E2]; simpl; try done.
  - intros [= <-]. split; [by rewrite EI|]. intros ? ? [= <- <-]. by rewrite E1, E2.
  - destruct (LoadX509KeyPair _ _); [|done]. intros [= <-]. split; [by rewrite EI|]. intros ? ? [= <- <-]. by split_and!.
Qed.

(** How a Host is dialled.  A Host is reached in plaintext only when its
    Endpoint says so, verified against its own authority when it has one, and
    shown a client certificate exactly when certificate and key are both
    configured (one alone is refused); every call, unary or stream, carries
    the same authorization header, from which the Host decodes the token
    itself, and none when there is no token; every unary call has a deadline,
    no later than its caller's nor than the Dialer's, which no option can
    remove, while a stream keeps its caller's. *)
Theorem Dial_policy opts ep d :
  Dial ReadFile AppendCertsFromPEM LoadX509KeyPair grpc_NewClient (newGRPCDialer opts) ep = Ok d ->
  dl_Address d = e_Address ep /\ creds_ok (e_TLS ep) (dl_Creds d)
  /\ (forall now caller, (unary_call d now caller).2 = (stream_call d caller).2 /\ (stream_call d caller).1 = caller
        /\ (e_Token ep = "" -> (stream_call d caller).2 = [])
        /\ (e_Token ep <> "" -> exists b, (stream_call d caller).2 = [("authorization", "Basic " +:+ b)] /\ base64_decode b = Some (e_Token ep)))
  /\ (forall now caller, exists t, (unary_call d now caller).1 = Some t /\ t <= time_Add now (dl_Deadline d)
        /\ (forall u, caller = Some u -> t <= u))
  /\ 0 < dl_Deadline d /\ 0 < (dl_Keepalive d).1 /\ 0 < (dl_Keepalive d).2 /\ 0 < (dl_Backoff d).1 /\ 0 < (dl_Backoff d).2.
Proof.
  unfold Dial. intros HD. destruct (newGRPCDialer_ok opts) as (G1 & G2 & G3 & G4 & G5).
  destruct (String.eqb (e_Name ep) ""); [done|]. destruct (String.eqb (e_Address ep) ""); [done|].
  destruct (host_transportCredentials _ _ _ ep) as [creds|] eqn:EC; [|done]. apply host_transportCredentials_ok in EC.
  destruct (grpc_NewClient _); [done|]. injection HD as <-. unfold unary_call, stream_call, basicAuthHeader; simpl.
  split; [done|]. split; [done|]. split.
  - intros now caller. split; [done|]. split; [done|]. destruct (String.eqb_spec (e_Token ep) "") as [E|E]; simpl; split; intros; try done.
    exists (base64_encode (e_Token ep)). split; [done|]. apply base64_roundtrip.
  - split; [|by split_and!]. intros now caller. unfold deadlineInterceptor. rewrite (proj2 (Z.ltb_lt _ _) G1).
    destruct caller as [u|]; eexists; (split; [reflexivity|]); (split; [lia|]); intros ? [= <-]; lia.
Qed.
End DialThms.

Definition demo_endpoint : Endpoint :=
  {| e_Name := "h1"; e_Address := "h1:9090"; e_Token := "secret";
     e_TLS := {| o_CAFile := ""; o_CertFile := "c.pem"; o_KeyFile := "k.pem"; o_Insecure := false |} |}.
Definition demo_dial : result (dialled string string) :=
  Dial (fun _ => Ok "") Some (fun c k => Ok (c +:+ k)) (fun _ => None) (newGRPCDialer [WithCallDeadline (-1)]) demo_endpoint.
Definition demo_dialled : dialled string string :=
  match demo_dial with Ok d => d | Err _ => {| dl_Address := ""; dl_Creds := CredInsecure; dl_Keepalive := (0, 0); dl_Backoff := (0, 0);
    dl_MinConnectTimeout := 0; dl_Deadline := 0; dl_unary := []; dl_stream := [] |} end.
Lemma Dial_policy_witness : dl_Address demo_dialled = "h1:9090" /\ dl_Deadline demo_dialled = 10 * second.
Proof.
  split; [|vm_compute; reflexivity].
  apply (Dial_policy (fun _ => Ok "") Some (fun c k => Ok (c +:+ k)) (fun _ => None) [WithCallDeadline (-1)] demo_endpoint demo_dialled).
  vm_compute. reflexivity.
Defined.

(** ** Probing *)
Definition answered {A} (r : rres A) : bool := match r with ROk _ => true | RErr _ => false end.
Definition unimplemented {A} (r : rres A) : bool := match r with ROk _ => false | RErr e => rpc_Is e HostErrUnimplemented end.

(** What a probe learns.  The probe of a Host through its client passes
    exactly when ServerInfo answers, or when it is not implemented and the
    Runner's own namespace, which has to be known, can be listed; the Host's
    version counts as known only in the first case.  ListMicroVMs is asked
    only of a Host without ServerInfo, once, and of no other namespace. *)
Theorem Probe_verdict {MicroVM} name info (vms : string -> rres (list MicroVM)) ns :
  let '(asked, r) := Probe (as_HostClient name info vms) ns in
  is_ok r = answered info || unimplemented info && negb (String.eqb ns "") && answered (vms ns)
  /\ asked = (if unimplemented info && negb (String.eqb ns "") then [ns] else [])
  /\ forall i, r = Ok i -> hi_Name i = name /\ hi_VersionKnown i = answered info.
Proof.
  unfold Probe, as_HostClient, probeFallback, client_ListMicroVMs. simpl. destruct info as [resp|err]; simpl.
  - split_and!; try done. by intros i [= <-].
  - rewrite host_mapErr_Is. destruct (rpc_Is err HostErrUnimplemented); simpl; [|done].
    destruct (String.eqb ns "") eqn:E; simpl; [done|]. destruct (vms ns); simpl; [|done].
    split_and!; try done. by intros i [= <-].
Qed.

(** A Lease of a live Host followed by its release changes nothing. *)
Lemma lease_release y name e : RI y -> hosts (reg y) !! name = Some e ->
  release e (upd_entry e (fun x => x <| hx_leases := hx_leases x + 1 |>) (reg y)) = reg y.
Proof.
  intros HR Hn. assert (Hin : e ∈ places y).
  { unfold places. rewrite !elem_of_app. left. by eapply vals_lookup. }
  rewrite <-(ri_places y HR), elem_of_seqZ in Hin. destruct (proj1 (ri_entries y HR e)) as [x Hx]; [lia|].
  destruct (eo_live y e x (ri_entry y HR e x Hx) name Hn) as (_ & Hret & _).
  unfold release, upd_entry. simpl. rewrite lookup_alter_eq, Hx. simpl. unfold releasable. simpl. rewrite Hret. simpl.
  destruct (reg y) as [h rt c es nx cc]. cbn in *. unfold set_field; cbn. f_equal.
  apply map_eq. intros k. destruct (decide (k = e)) as [->|Hk].
  - rewrite lookup_insert_eq, Hx. f_equal. destruct x; simpl; f_equal; lia.
  - by rewrite lookup_insert_ne, lookup_alter_ne by done.
Qed.

(** What the rounds over [names] report when nothing else touches the
    Registry. *)
Definition probed (clients : Z -> HostClient) (ns : string) (r : registry) (name : string) : option (result HostInfo) :=
  (fun e => (Probe (clients e) ns).2) <$> hosts r !! name.
Definition failures (clients : Z -> HostClient) (ns : string) (r : registry) (names : list string) : list error :=
  omap (fun name => match probed clients ns r name with Some (Err e) => Some e | _ => None end) names.

Lemma ProbeAll_loop_quiet clients ns y names : RI y -> forall i infos errs,
  exists infos', ProbeAll_loop clients ns (fun _ r => r) i names (reg y) infos errs = (reg y, (infos', errs ++ failures clients ns (reg y) names))
  /\ forall name, infos' !! name = match probed clients ns (reg y) name with
                                   | Some (Ok info) => if decide (name ∈ names) then Some info else infos !! name
                                   | _ => infos !! name end.
Proof.
  intros HR. induction names as [|n names IH]; intros i infos errs; cbn [ProbeAll_loop].
  - exists infos. cbn. rewrite app_nil_r. split; [done|]. intros name. destruct (probed clients ns (reg y) name) as [[]|]; [|done..].
    by rewrite decide_False by apply not_elem_of_nil.
  - assert (HP : probe_round clients ns (fun r => r) (fun r => r) n (reg y) = (reg y, probed clients ns (reg y) n)).
    { unfold probe_round, Lease, probed. destruct (hosts (reg y) !! n) as [e|] eqn:En; [|done]. cbn. by rewrite (lease_release y n e). }
    rewrite HP. clear HP.
    set (ie := match probed clients ns (reg y) n with None => (infos, errs) | Some (Err err) => (infos, errs ++ [err]) | Some (Ok info) => (<[n := info]> infos, errs) end).
    destruct ie as [infos1 errs1] eqn:Eie. subst ie. destruct (IH (S i) infos1 errs1) as (infos' & HL & HI). exists infos'. split.
    + rewrite HL. f_equal. f_equal. unfold failures. cbn.
      destruct (probed clients ns (reg y) n) as [[info|err]|]; injection Eie as <- <-; [done| by rewrite <-app_assoc | done].
    + intros name. rewrite HI. destruct (decide (name = n)) as [->|Hne].
      * destruct (probed clients ns (reg y) n) as [[info|err]|]; injection Eie as <- <-; try done.
        rewrite (decide_True (P := n ∈ n :: names)) by left. destruct (decide (n ∈ names)); [done|by rewrite lookup_insert_eq].
      * assert (H1 : infos1 !! name = infos !! name).
        { destruct (probed clients ns (reg y) n) as [[info|err]|]; injection Eie as <- <-; [by rewrite lookup_insert_ne|done|done]. }
        rewrite H1. destruct (probed clients ns (reg y) name) as [[info|err]|]; [|done|done].
        assert (H2 : name ∈ n :: names <-> name ∈ names) by (rewrite elem_of_cons; naive_solver).
        destruct (decide (name ∈ names)), (decide (name ∈ n :: names)); naive_solver.
Qed.

Lemma elem_of_Names name r : name ∈ Names r <-> is_Some (hosts r !! name).
Proof.
  unfold Names. rewrite elem_of_sort_strings, list_elem_of_fmap. split.
  - intros ([k v] & -> & Hk). apply elem_of_map_to_list in Hk. by exists v.
  - intros [v Hv]. exists (name, v). by rewrite elem_of_map_to_list.
Qed.

(** Probing the Inventory when nothing else changes it.  Every Host is
    probed; the map has exactly the Hosts whose probe passed, with what they
    answered; the error joins the failures of the others in name order and is
    nil exactly when every probe passed; and the Registry is left as it was,
    with no lease held and no connection closed. *)
Theorem ProbeAll_exact y clients ns :
  reachable y ->
  exists infos, ProbeAll clients ns (fun _ r => r) (reg y) = (reg y, (infos, errors_Join (failures clients ns (reg y) (Names (reg y)))))
  /\ (forall name info, infos !! name = Some info <-> probed clients ns (reg y) name = Some (Ok info))
  /\ (failures clients ns (reg y) (Names (reg y)) = [] <-> dom infos = dom (hosts (reg y))).
Proof.
  intros HR%RI_reachable. unfold ProbeAll. destruct (ProbeAll_loop_quiet clients ns y (Names (reg y)) HR 0 ∅ []) as (infos & HL & HI).
  rewrite HL. exists infos. split; [done|].
  assert (HX : forall name info, infos !! name = Some info <-> probed clients ns (reg y) name = Some (Ok info)).
  { intros name info. rewrite HI, lookup_empty. unfold probed. destruct (hosts (reg y) !! name) as [e|] eqn:En; cbn; [|done].
    destruct (Probe (clients e) ns).2 as [i|]; [|done]. rewrite decide_True; [naive_solver|]. apply elem_of_Names. by exists e. }
  split; [exact HX|]. unfold failures. split.
  - intros HF. apply set_eq. intros name. rewrite !elem_of_dom. split.
    + intros [info Hi%HX]. unfold probed in Hi. destruct (hosts (reg y) !! name); [by eexists|done].
    + intros [e He]. destruct (probed clients ns (reg y) name) as [[info|err]|] eqn:EP.
      * exists info. by apply HX.
      * assert (err ∈ ([] : list error)) as []%not_elem_of_nil. rewrite <-HF. apply list_elem_of_omap. exists name.
        rewrite EP. split; [apply elem_of_Names; by exists e|done].
      * unfold probed in EP. by rewrite He in EP.
  - intros HD. destruct (omap _ _) as [|err l] eqn:EO; [done|]. exfalso.
    assert (Hin : err ∈ err :: l) by left. rewrite <-EO, list_elem_of_omap in Hin. destruct Hin as (name & Hn & Hp).
    apply elem_of_Names in Hn. rewrite <-elem_of_dom, <-HD, elem_of_dom in Hn. destruct Hn as [info Hi%HX]. by rewrite Hi in Hp.
Qed.

(** ** The Pools' Hosts *)
Lemma dedupe_loop_elem h started last l :
  h ∈ dedupe_loop started last l \/ (started = true /\ h = last) <-> h ∈ l \/ (started = true /\ h = last).
Proof.
  revert started last. induction l as [|s l IH]; intros started last; cbn [dedupe_loop]; [done|].
  destruct started; simpl.
  - destruct (String.eqb_spec s last) as [->|Hs].
    + rewrite IH, elem_of_cons. naive_solver.
    + rewrite !elem_of_cons. specialize (IH true s). naive_solver.
  - rewrite !elem_of_cons. specialize (IH true s). naive_solver.
Qed.

Lemma elem_of_dedupe h l : h ∈ dedupe l <-> h ∈ l.
Proof. pose proof (dedupe_loop_elem h false "" l). unfold dedupe. naive_solver. Qed.

(** On a sorted list it leaves the strings in order, each once. *)
Lemma dedupe_loop_sorted started last l :
  StronglySorted string_le l -> (started = true -> Forall (string_le last) l) ->
  StronglySorted string_le (dedupe_loop started last l) /\ NoDup (dedupe_loop started last l)
  /\ (started = true -> last ∉ dedupe_loop started last l /\ Forall (string_le last) (dedupe_loop started last l)).
Proof.
  revert started last. induction l as [|s l IH]; intros started last HS HL; cbn [dedupe_loop].
  - split_and!; [constructor|constructor|]. intros _. split; [apply not_elem_of_nil|constructor].
  - apply StronglySorted_inv in HS as [HS HF].
    destruct (started && String.eqb s last) eqn:E.
    + apply andb_true_iff in E as [-> ->%String.eqb_eq]. apply IH; [done|]. intros _. specialize (HL eq_refl). by inversion HL.
    + destruct (IH true s HS (fun _ => HF)) as (I1 & I2 & I3). destruct (I3 eq_refl) as [I4 I5]. split_and!; [by constructor|by constructor|].
      intros ->. specialize (HL eq_refl). apply Forall_cons in HL as [HL1 HL2]. simpl in E. apply String.eqb_neq in E. split.
      * rewrite elem_of_cons. intros [->|Hin]; [done|]. rewrite Forall_forall in I5. specialize (I5 last Hin).
        apply E. by apply (anti_symm string_le).
      * constructor; [done|]. eapply Forall_impl; [exact I5|]. intros x Hx. by transitivity s.
Qed.

Lemma dedupe_sorted l : Sorted string_le l -> StronglySorted string_le (dedupe l) /\ NoDup (dedupe l).
Proof.
  intros HS. destruct (dedupe_loop_sorted false "" l) as (H1 & H2 & _); [|done|by split].
  apply Sorted_StronglySorted; [apply _|done].
Qed.

Lemma foldl_insert_nonempty (f g : string -> list string) ks : forall (m : gmap string (list string)) k, NoDup ks ->
  foldl (fun m k => match f k with [] => m | _ => <[k := g k]> m end) m ks !! k
  = if decide (k ∈ ks /\ f k <> []) then Some (g k) else m !! k.
Proof.
  induction ks as [|a ks IH]; intros m k HN; cbn [foldl].
  - rewrite decide_False; [done|]. intros [[]%not_elem_of_nil _].
  - apply NoDup_cons in HN as [Ha HN]. rewrite IH by done. destruct (decide (k = a)) as [->|Hk].
    + rewrite decide_False by naive_solver. destruct (f a) eqn:Ef; [rewrite decide_False by naive_solver; done|].
      rewrite lookup_insert_eq, decide_True; [done|]. split; [left|done].
    + assert (HE : match f a with [] => m | _ => <[a := g a]> m end !! k = m !! k) by (destruct (f a); [done|by rewrite lookup_insert_ne]).
      rewrite HE. apply decide_ext. rewrite elem_of_cons. naive_solver.
Qed.

(** The Pool Hosts that cannot be reached.  A Pool is reported exactly
    when it has a Host that is not in the Inventory, with all such Hosts and
    no other, in order and each once. *)
Theorem CheckPoolHosts_exact r pools pool :
  match CheckPoolHosts r pools !! pool with
  | None => forall hs h, pools !! pool = Some hs -> h ∈ hs -> is_Some (hosts r !! h)
  | Some absent => exists hs, pools !! pool = Some hs /\ absent <> [] /\ StronglySorted string_le absent /\ NoDup absent
                              /\ forall h, h ∈ absent <-> h ∈ hs /\ hosts r !! h = None
  end.
Proof.
  unfold CheckPoolHosts.
  set (f := fun pool => filter (fun host => host ∉ (list_to_set (Names r) : gset string)) (default [] (pools !! pool))).
  assert (Hf : forall h, h ∈ f pool <-> h ∈ default [] (pools !! pool) /\ hosts r !! h = None).
  { intros h. unfold f. rewrite list_elem_of_filter, elem_of_list_to_set, elem_of_Names, <-eq_None_not_Some. naive_solver. }
  rewrite (foldl_insert_nonempty f (fun pool => dedupe (sort_strings (f pool)))).
  2:{ rewrite sort_strings_perm. apply NoDup_fst_map_to_list. }
  assert (Hp : pool ∈ sort_strings (map_to_list pools).*1 <-> is_Some (pools !! pool)).
  { rewrite elem_of_sort_strings, list_elem_of_fmap. split.
    - intros ([k v] & -> & Hk). apply elem_of_map_to_list in Hk. by exists v.
    - intros [v Hv]. exists (pool, v). by rewrite elem_of_map_to_list. }
  destruct (decide _) as [[[hs Hhs]%Hp Hne]|Hno].
  - exists hs. rewrite Hhs in Hf. destruct (dedupe_sorted (sort_strings (f pool)) (sort_strings_sorted _)) as [HS HN].
    split_and!; try done.
    + intros HD. apply Hne. destruct (f pool) as [|x l] eqn:E; [done|]. exfalso.
      assert (Hx : x ∈ dedupe (sort_strings (x :: l))) by (rewrite elem_of_dedupe, elem_of_sort_strings; left).
      rewrite HD in Hx. by apply not_elem_of_nil in Hx.
    + intros h. by rewrite elem_of_dedupe, elem_of_sort_strings, Hf.
  - rewrite lookup_empty. intros hs h Hhs Hh. destruct (hosts r !! h) eqn:E; [by eexists|]. exfalso. apply Hno. split; [apply Hp; by exists hs|].
    intros HF. rewrite HF, Hhs in Hf. apply (not_elem_of_nil h), Hf. done.
Qed.
