(* ===== verification/FakeServe.v ===== *)
(** * The goroutines of the gRPC clients and of the fake's Serve

    The reader goroutine of an events stream (internal/poolmgr/client.go and,
    line for line the same, internal/poolmgr/fake/client.go), Serve of the
    fake Pool Manager (fake.go), and the fake's dialler of Hosts
    (admindial.go) next to the Runner's. *)
From S2P Require Import Prelude GoModel PoolTypes ConfigTypes Base64 Spec PoolDecl PoolClient HostClient FakePool FakeServer.

(** ** The reader of an events stream

    [rd_feed] is what the gRPC stream answers to [stream.Recv], in order.  The
    reader is in [stream.Recv], in the select that hands a result over, or has
    returned; the channel is unbuffered, so a result changes hands when
    [Recv] takes it. *)
Inductive reader_pc := RdReceiving | RdOffering (r : rres wireEvent) | RdReturned.
Record reader := { rd_pc : reader_pc; rd_feed : list (rres wireEvent); rd_done : bool; rd_terminal : option error }.
#[export] Instance eta_reader : Eta reader :=
  fun r => {| rd_pc := rd_pc r; rd_feed := rd_feed r; rd_done := rd_done r; rd_terminal := rd_terminal r |}.

Definition newEventStream (feed : list (rres wireEvent)) : reader :=
  {| rd_pc := RdReceiving; rd_feed := feed; rd_done := false; rd_terminal := None |}.

Inductive reader_input :=
  | IReceived                    (* stream.Recv answered *)
  | IReaderDone                  (* the reader's select saw the end of the context *)
  | ICloses                      (* Close, or the end of the caller's context *)
  | IRecv (c : recv_case).       (* a call of Recv, and the case its select takes *)

(** What becomes of the reader once its result was taken. *)
Definition after_handover (r : rres wireEvent) : reader_pc := match r with RErr _ => RdReturned | ROk _ => RdReceiving end.

Definition reader_step (i : reader_input) (s : reader) : option (reader * option (result Event)) :=
  match i with
  | IReceived =>
      match rd_pc s, rd_feed s with
      | RdReceiving, r :: feed => Some (s <| rd_pc := RdOffering r |> <| rd_feed := feed |>, None)
      | _, _ => None
      end
  | IReaderDone =>
      match rd_pc s with RdOffering _ => if rd_done s then Some (s <| rd_pc := RdReturned |>, None) else None | _ => None end
  | ICloses => Some (s <| rd_done := true |>, None)
  | IRecv c =>
      match rd_terminal s with
      | Some e => Some (s, Some (Err e))
      | None =>
          match c with
          | OnCtxDone e => Some (s, Some (Err e))
          | OnStreamDone =>
              if rd_done s then
                let e := EWrap "events stream closed" [ESentinel ErrUnavailable] in
                Some (s <| rd_terminal := Some e |>, Some (Err e))
              else None
          | OnResult =>
              match rd_pc s with
              | RdOffering r =>
                  let s := s <| rd_pc := after_handover r |> in
                  match r with
                  | RErr err =>
                      let e := EWrap ("events stream ended: " +:+ status_Message err) [ESentinel ErrUnavailable] in
                      Some (s <| rd_terminal := Some e |>, Some (Err e))
                  | ROk ev => Some (s, Some (Ok (eventFromProto ev)))
                  end
              | _ => None
              end
          end
      end
  end.

(** The stream the callers see: the results that are still to come. *)
Definition stream_of (s : reader) : eventStream :=
  {| es_terminal := rd_terminal s;
     es_results := match rd_pc s with RdReceiving => rd_feed s | RdOffering r => r :: rd_feed s | RdReturned => [] end;
     es_closed := rd_done s |}.

Fixpoint reader_run (l : list reader_input) (s : reader) : option (reader * list (result Event)) :=
  match l with
  | [] => Some (s, [])
  | i :: l =>
      match reader_step i s with
      | Some (s, o) =>
          match reader_run l s with Some (s, os) => Some (s, match o with Some r => r :: os | None => os end) | None => None end
      | None => None
      end
  end.

(** Once the reader has handed an error over nothing more comes: the feed of a
    gRPC stream ends with its first error. *)
Definition feed_ok (feed : list (rres wireEvent)) : Prop := forall a e b, feed = a ++ RErr e :: b -> b = [].

Lemma feed_ok_tail r feed : feed_ok (r :: feed) -> feed_ok feed.
Proof. intros H a e b ->. by apply (H (r :: a) e b). Qed.

Definition reader_ok (s : reader) : Prop :=
  match rd_pc s with
  | RdReceiving => feed_ok (rd_feed s)
  | RdOffering r => feed_ok (r :: rd_feed s)
  | RdReturned => rd_done s = true \/ is_Some (rd_terminal s)
  end.

(** Until the stream is closed the goroutines do what [eventStream_Recv] says,
    call by call; after that too, while the reader has not gone. *)
Lemma reader_refines i s s' o : reader_ok s -> reader_step i s = Some (s', o) ->
  reader_ok s'
  /\ match i with
     | IRecv c => exists r, o = Some r /\ eventStream_Recv c (stream_of s) = Some (stream_of s', r)
     | ICloses => o = None /\ stream_of s' = eventStream_Close (stream_of s)
     | IReceived => o = None /\ stream_of s' = stream_of s
     | IReaderDone => o = None /\ rd_done s = true
     end.
Proof.
  destruct s as [pc feed done term]. unfold reader_ok, stream_of. intros Hok Hs. destruct i as [| | |c]; simpl in *.
  - destruct pc; [|done|done]. destruct feed as [|r feed]; [done|]. simplify_eq. done.
  - destruct pc as [|r|]; try done. destruct done; [|done]. simplify_eq. split; [by left|done].
  - simplify_eq. split; [|done]. destruct pc; simpl; auto.
  - unfold eventStream_Recv. simpl. destruct term as [e|]; [simplify_eq; split; [done|by eexists]|]. destruct c as [e| |].
    + simplify_eq. split; [done|by eexists].
    + destruct done; [|done]. simplify_eq. split; [|by eexists]. destruct pc; simpl; auto.
    + destruct pc as [|r|]; try done. destruct r as [ev|err]; simplify_eq.
      * split; [by eapply feed_ok_tail|]. eexists. by split.
      * split; [right; by eexists|]. eexists. split; [done|]. simpl. by rewrite (Hok [] err feed eq_refl).
Qed.

Lemma recv_pending c s s' r : eventStream_Recv c s = Some (s', r) ->
  exists rest, stream_pending s = recv_events [r] ++ rest /\ (es_terminal s' = None -> rest = stream_pending s').
Proof.
  unfold eventStream_Recv, stream_pending. destruct s as [term res closed]. simpl. destruct term as [e|]; [intros [= <- <-]; by exists []|].
  destruct c as [e| |].
  - intros [= <- <-]. by exists (undelivered res).
  - destruct closed; [|done]. intros [= <- <-]. by exists (undelivered res).
  - destruct res as [|[ev|err] res]; [done| |]; intros [= <- <-]; simpl; [by exists (undelivered res)|by exists []].
Qed.

(** The reader goroutine.  However it, the Recv calls and Close
    interleave, the events that the calls return are, in order, the first ones
    the server sent: none is lost when a Recv is abandoned, none is repeated;
    once one reported the end of the stream all later ones do; and the reader
    does not outlive the stream: after the end of its context, or once the
    server ended the stream and that was reported, it has returned or its next
    step is to return, when the server's answer is there. *)
Theorem reader_faithful feed l s os : feed_ok feed -> reader_run l (newEventStream feed) = Some (s, os) ->
  (exists rest, undelivered feed = recv_events os ++ rest)
  /\ (forall e, rd_terminal s = Some e -> errors_Is e ErrUnavailable = true /\ forall c, reader_step (IRecv c) s = Some (s, Some (Err e)))
  /\ (rd_done s = true -> match rd_pc s with RdOffering _ => is_Some (reader_step IReaderDone s) | _ => True end)
  /\ (rd_pc s = RdReturned -> rd_done s = true \/ is_Some (rd_terminal s)).
Proof.
  intros Hf. assert (reader_ok (newEventStream feed)) as Hok by done.
  assert (forall e, rd_terminal (newEventStream feed) = Some e -> errors_Is e ErrUnavailable = true) as Ht by done.
  assert (undelivered feed = stream_pending (stream_of (newEventStream feed))) as -> by done.
  revert Hok Ht. generalize (newEventStream feed) as s0. clear Hf feed. revert s os.
  induction l as [|i l IH]; intros s os s0 Hok Ht Hr; simpl in Hr.
  - simplify_eq. split_and!; [by exists (stream_pending (stream_of s))| | |].
    + intros e He. split; [by apply Ht|]. intros c. simpl. by rewrite He.
    + intros Hd. simpl. destruct (rd_pc s); [done| |done]. by rewrite Hd.
    + intros Hp. unfold reader_ok in Hok. by rewrite Hp in Hok.
  - destruct (reader_step i s0) as [[s1 o]|] eqn:Es; [|done]. destruct (reader_run l s1) as [[s2 os2]|] eqn:Er; [|done]. simplify_eq.
    destruct (reader_refines _ _ _ _ Hok Es) as [Hok1 Hi].
    assert (forall e, rd_terminal s1 = Some e -> errors_Is e ErrUnavailable = true) as Ht1.
    { intros e He. destruct i as [| | |c]; simpl in Es; [..|destruct (rd_terminal s0) eqn:E0];
        repeat case_match; simplify_eq; simpl in *; try (by apply Ht); simplify_eq; try done; try (rewrite E0 in He; done). }
    destruct (IH s os2 s1 Hok1 Ht1 Er) as ([rest Hrest] & H2 & H3 & H4). split_and!; [|done|done|done].
    destruct i as [| | |c].
    + destruct Hi as [-> Hi]. rewrite <-Hi. eauto.
    + destruct Hi as [-> Hd]. unfold stream_pending in *. simpl in Es. destruct (rd_pc s0) eqn:Ep; try done. rewrite Hd in Es. simplify_eq.
      simpl in Hrest. exists (match rd_terminal s0 with Some _ => [] | None => undelivered (es_results (stream_of s0)) end).
      assert (recv_events os2 = []) as ->; [|done]. destruct (rd_terminal s0); simpl in Hrest; by destruct (recv_events os2).
    + destruct Hi as [-> Hi]. exists rest. rewrite <-Hrest. rewrite Hi. done.
    + destruct Hi as (r & -> & Hi). destruct (recv_pending _ _ _ _ Hi) as (rest1 & HP & HT).
      assert (recv_events (r :: os2) = recv_events [r] ++ recv_events os2) as -> by apply (omap_app _ [r]).
      destruct (es_terminal (stream_of s1)) as [e|] eqn:E1.
      * exists rest1. assert (recv_events os2 = []) as ->; [|by rewrite app_nil_r].
        unfold stream_pending in Hrest. rewrite E1 in Hrest. by destruct (recv_events os2).
      * exists rest. by rewrite HP, (HT eq_refl), Hrest, app_assoc.
Qed.

Definition demo_feed : list (rres wireEvent) := [ROk (demo_wire 1); ROk (demo_wire 2); RErr (RStatus Unavailable "gone")].
Definition demo_reads : list reader_input :=
  [IReceived; IRecv (OnCtxDone (ESentinel CtxCanceled)); IRecv OnResult; IReceived; IRecv OnResult; IReceived; IRecv OnResult; ICloses].
Definition demo_read : reader * list (result Event) := default (newEventStream [], []) (reader_run demo_reads (newEventStream demo_feed)).

Lemma reader_faithful_witness : recv_events demo_read.2 = undelivered demo_feed /\ rd_pc demo_read.1 = RdReturned
  /\ exists rest, undelivered demo_feed = recv_events demo_read.2 ++ rest.
Proof.
  assert (Hf : feed_ok demo_feed).
  { intros a e b H. unfold demo_feed in H. destruct a as [|x [|y [|z [|w a]]]]; simpl in H; simplify_eq; reflexivity. }
  assert (Hr : reader_run demo_reads (newEventStream demo_feed) = Some (demo_read.1, demo_read.2)) by (vm_compute; reflexivity).
  destruct (reader_faithful demo_feed demo_reads _ _ Hf Hr) as (H1 & _).
  split; [vm_compute; reflexivity|]. split; [vm_compute; reflexivity|exact H1].
Defined.

(** ** Serve (fake.go)

    The gRPC server and the control loop are goroutines; each sends how it
    ended on a channel of one place.  Serve is in its select, or waits for one
    of them after it, or has returned. *)
Inductive serve_pc :=
  | SvSelect
  | SvCtxStop                     (* the context ended: the server was stopped, waiting for it *)
  | SvCtxRun                      (* ... and for the control loop *)
  | SvServeFailed (e : option error)   (* the server ended: waiting for the control loop *)
  | SvRunEnded (r : option error) (ctx : bool)  (* the control loop ended: the server was stopped, waiting for it *)
  | SvReturned (r : option error).

(** A goroutine: at work, what it sent and nobody received, or received. *)
Inductive goroutine := GRunning | GSent (r : option error) | GReceived (r : option error).
Definition g_ended (g : goroutine) : bool := match g with GRunning => false | _ => true end.

Record serve := { sv_pc : serve_pc; sv_srv : goroutine; sv_run : goroutine; sv_ctx : bool; sv_cancel : bool; sv_stop : bool }.
#[export] Instance eta_serve : Eta serve :=
  fun r => {| sv_pc := sv_pc r; sv_srv := sv_srv r; sv_run := sv_run r; sv_ctx := sv_ctx r; sv_cancel := sv_cancel r; sv_stop := sv_stop r |}.

Definition serve0 : serve :=
  {| sv_pc := SvSelect; sv_srv := GRunning; sv_run := GRunning; sv_ctx := false; sv_cancel := false; sv_stop := false |}.

Definition serveErr (e : option error) : option error := Some (EWrap "fake poolmgr: serve" (option_list e)).

Inductive serve_input :=
  | VCtx                          (* the caller's context ends *)
  | VSrv (e : option error)       (* srv.Serve returns *)
  | VRun (r : option error)       (* Run returns *)
  | VTakeCtx | VTakeSrv | VTakeRun.  (* Serve's receives *)

(** srv.Serve returns nil only after Stop; Run returns nil only when its
    context ended. *)
Definition serve_step (i : serve_input) (s : serve) : option serve :=
  match i with
  | VCtx => Some (s <| sv_ctx := true |>)
  | VSrv e =>
      match sv_srv s, e with
      | GRunning, None => if sv_stop s then Some (s <| sv_srv := GSent None |>) else None
      | GRunning, Some _ => Some (s <| sv_srv := GSent e |>)
      | _, _ => None
      end
  | VRun r =>
      match sv_run s, r with
      | GRunning, None => if sv_ctx s || sv_cancel s then Some (s <| sv_run := GSent None |>) else None
      | GRunning, Some _ => Some (s <| sv_run := GSent r |>)
      | _, _ => None
      end
  | VTakeCtx =>
      match sv_pc s with SvSelect => if sv_ctx s then Some (s <| sv_pc := SvCtxStop |> <| sv_stop := true |>) else None | _ => None end
  | VTakeSrv =>
      match sv_srv s with
      | GSent e =>
          let s := s <| sv_srv := GReceived e |> in
          match sv_pc s with
          | SvSelect => Some (s <| sv_pc := SvServeFailed e |> <| sv_cancel := true |>)
          | SvCtxStop => Some (s <| sv_pc := SvCtxRun |>)
          | SvRunEnded r ctx =>
              Some (s <| sv_pc := SvReturned (if ctx then r else match r with Some e => Some e | None => Some (ENew "fake poolmgr: control loop stopped while serving") end) |>
                      <| sv_cancel := true |>)
          | _ => None
          end
      | _ => None
      end
  | VTakeRun =>
      match sv_run s with
      | GSent r =>
          let s := s <| sv_run := GReceived r |> in
          match sv_pc s with
          | SvSelect => Some (s <| sv_pc := SvRunEnded r (sv_ctx s) |> <| sv_stop := true |>)
          | SvCtxRun => Some (s <| sv_pc := SvReturned r |> <| sv_cancel := true |>)
          | SvServeFailed e => Some (s <| sv_pc := SvReturned (serveErr e) |>)
          | _ => None
          end
      | _ => None
      end
  end.

Inductive serve_reach : serve -> Prop :=
  | SVR0 : serve_reach serve0
  | SVRStep i s s' : serve_reach s -> serve_step i s = Some s' -> serve_reach s'.

Definition g_received (g : goroutine) : bool := match g with GReceived _ => true | _ => false end.
Definition VInv (s : serve) : Prop :=
  match sv_pc s with
  | SvSelect => sv_stop s = false /\ sv_cancel s = false /\ g_received (sv_srv s) = false /\ g_received (sv_run s) = false
  | SvCtxStop => sv_stop s = true /\ sv_ctx s = true /\ g_received (sv_srv s) = false /\ g_received (sv_run s) = false
  | SvCtxRun => sv_ctx s = true /\ g_received (sv_srv s) = true /\ g_received (sv_run s) = false
  | SvServeFailed _ => sv_cancel s = true /\ g_received (sv_srv s) = true /\ g_received (sv_run s) = false
  | SvRunEnded r c => sv_stop s = true /\ g_received (sv_srv s) = false /\ sv_run s = GReceived r /\ (c = true -> sv_ctx s = true)
  | SvReturned r => g_received (sv_srv s) = true /\ g_received (sv_run s) = true /\ (r = None -> sv_ctx s = true /\ sv_run s = GReceived None)
  end.

Lemma VInv_step i s s' : VInv s -> serve_step i s = Some s' -> VInv s'.
Proof.
  destruct s as [pc srv run ctx cancel stop]. unfold VInv. intros H Hs. simpl in *.
  destruct i as [|e|r| | |]; simpl in Hs.
  - injection Hs as <-. simpl. destruct pc; naive_solver.
  - destruct srv, e; try done; [|destruct stop; [|done]]; injection Hs as <-; simpl in *; destruct pc; naive_solver.
  - destruct run, r; try done; [|destruct (ctx || cancel); [|done]]; injection Hs as <-; simpl in *; destruct pc; naive_solver.
  - destruct pc; try done. destruct ctx; [|done]. injection Hs as <-. simpl. naive_solver.
  - destruct srv as [|e|e]; try done. destruct pc as [| | |e'|r c|r]; simplify_eq; simpl in *; try naive_solver.
    destruct c, r; naive_solver.
  - destruct run as [|r|r]; try done. destruct pc as [| | |e'|r' c|r']; simplify_eq; simpl in *; naive_solver.
Qed.

(** Serve of the fake Pool Manager.  However its context, the gRPC server
    and the control loop end, in whatever order: when Serve has returned both
    goroutines have, so nothing outlives it; it returns nil only when its
    context ended and the control loop shut down cleanly; and once the context
    has ended nothing can block it: whatever it waits for can be made to
    arrive. *)
Theorem fake_Serve_ends s : serve_reach s ->
  (forall r, sv_pc s = SvReturned r -> g_ended (sv_srv s) = true /\ g_ended (sv_run s) = true)
  /\ (sv_pc s = SvReturned None -> sv_ctx s = true /\ sv_run s = GReceived None)
  /\ (sv_ctx s = true -> (forall r, sv_pc s <> SvReturned r) -> exists i s', serve_step i s = Some s' /\ s' <> s).
Proof.
  intros Hr. assert (VInv s) as HI.
  { induction Hr as [|i s s' _ IH Hs]; [done|by eapply VInv_step]. }
  destruct s as [pc srv run ctx cancel stop]. unfold VInv in HI. simpl in *. split_and!.
  - intros r ->. destruct HI as (H1 & H2 & _). by destruct srv, run.
  - intros ->. naive_solver.
  - intros -> Hp. destruct pc as [| | |e|r c|r]; [..|by destruct (Hp r)].
    + exists VTakeCtx. eexists. by split.
    + destruct HI as (-> & _ & H & _). destruct srv as [|e|e]; [exists (VSrv None)|exists VTakeSrv|done]; eexists; by split.
    + destruct HI as (_ & _ & H). destruct run as [|r|r]; [exists (VRun None)|exists VTakeRun|done]; eexists; by split.
    + destruct HI as (_ & _ & H). destruct run as [|r|r]; [exists (VRun None)|exists VTakeRun|done]; eexists; by split.
    + destruct HI as (-> & H & _). destruct srv as [|x|x]; [exists (VSrv None)|exists VTakeSrv|done]; eexists; by split.
Qed.

Fixpoint serve_steps (l : list serve_input) (s : serve) : option serve :=
  match l with [] => Some s | i :: l => match serve_step i s with Some s => serve_steps l s | None => None end end.
Lemma serve_steps_reach l s s' : serve_reach s -> serve_steps l s = Some s' -> serve_reach s'.
Proof.
  revert s. induction l as [|i l IH]; intros s Hr; simpl; [by intros [= <-]|]. destruct (serve_step i s) as [s1|] eqn:E; [|done].
  apply IH. by eapply SVRStep.
Qed.
Definition demo_serve : serve := default serve0 (serve_steps [VCtx; VRun None; VTakeRun; VSrv None; VTakeSrv] serve0).
Lemma fake_Serve_ends_witness : sv_pc demo_serve = SvReturned None /\ g_ended (sv_srv demo_serve) = true /\ g_ended (sv_run demo_serve) = true.
Proof.
  assert (Hr : serve_reach demo_serve) by (apply (serve_steps_reach [VCtx; VRun None; VTakeRun; VSrv None; VTakeSrv] serve0); [constructor|vm_compute; reflexivity]).
  destruct (fake_Serve_ends demo_serve Hr) as (H1 & _). split; [vm_compute; reflexivity|]. apply (H1 None). vm_compute. reflexivity.
Defined.

(** ** AdminDialer (admindial.go) *)
Record basicToken := { bt_header : string; bt_secure : bool }.
Definition GetRequestMetadata (b : basicToken) : list (string * string) := [("authorization", bt_header b)].
Definition RequireTransportSecurity (b : basicToken) : bool := bt_secure b.

(** What [DialAdmin] gives to [grpc.NewClient]. *)
Record adminDialled (Pool Pair : Type) := {
  ad_Address : string; ad_Creds : credentials Pool Pair; ad_Keepalive : duration * duration; ad_PerRPC : option basicToken }.
Arguments ad_Address {Pool Pair}. Arguments ad_Creds {Pool Pair}. Arguments ad_Keepalive {Pool Pair}. Arguments ad_PerRPC {Pool Pair}.

(** grpc refuses to send credentials that need transport security over a
    connection that has none. *)
Definition sends_token {Pool Pair} (d : adminDialled Pool Pair) : bool :=
  match ad_PerRPC d, ad_Creds d with
  | Some b, CredInsecure => negb (RequireTransportSecurity b)
  | _, _ => true
  end.
Definition metadata_of {Pool Pair} (d : adminDialled Pool Pair) : list (string * string) :=
  match ad_PerRPC d with Some b => GetRequestMetadata b | None => [] end.

Section Admin.
Context {CertPool Pair : Type} (ReadFile : string -> result string)
  (AppendCertsFromPEM : string -> option CertPool) (LoadX509KeyPair : string -> string -> result Pair)
  (grpc_NewClient : adminDialled CertPool Pair -> option error).

Definition fake_rootCAs (o : TLSOptions) : result (option CertPool) :=
  if negb (String.eqb (o_CAFile o) "") then
    match ReadFile (o_CAFile o) with
    | Err e => Err (EWrap "read ca file" [e])
    | Ok pem =>
        match AppendCertsFromPEM pem with
        | None => Err (ENew ("ca file " +:+ o_CAFile o +:+ ": no certificates found"))
        | Some pool => Ok (Some pool)
        end
    end
  else Ok None.

Definition fake_transportCredentials (o : TLSOptions) : result (credentials CertPool Pair) :=
  if o_Insecure o then Ok CredInsecure else
  match fake_rootCAs o with
  | Err e => Err e
  | Ok roots =>
      if negb (String.eqb (o_CertFile o) "") || negb (String.eqb (o_KeyFile o) "") then
        match LoadX509KeyPair (o_CertFile o) (o_KeyFile o) with
        | Err e => Err (EWrap "load client cert/key" [e])
        | Ok cert => Ok (CredTLS roots (Some cert))
        end
      else Ok (CredTLS roots None)
  end.

Definition DialAdmin (ep : Endpoint) : result (adminDialled CertPool Pair) :=
  match fake_transportCredentials (e_TLS ep) with
  | Err e => Err (EWrap ("host " +:+ e_Name ep) [e])
  | Ok creds =>
      let d := {| ad_Address := e_Address ep; ad_Creds := creds; ad_Keepalive := (30 * second, 10 * second);
                  ad_PerRPC := if negb (String.eqb (e_Token ep) "")
                               then Some {| bt_header := "Basic " +:+ base64_encode (e_Token ep); bt_secure := negb (o_Insecure (e_TLS ep)) |}
                               else None |} in
      match grpc_NewClient d with
      | Some e => Err (EWrap ("host " +:+ e_Name ep +:+ ": dial " +:+ e_Address ep) [e])
      | None => Ok d
      end
  end.

(** A client key pair: both diallers load it, and refuse a half of one. *)
Definition pair_agrees (a d : result (credentials CertPool Pair)) (insecure : bool) : Prop :=
  match a, d with
  | Ok a, Ok d => a = d /\ (a = CredInsecure <-> insecure = true)
  | Err _, Err _ => True
  | _, _ => False
  end.

Lemma credentials_agree ep :
  (forall c k, c = "" \/ k = "" -> is_ok (LoadX509KeyPair c k) = false) ->
  pair_agrees (fake_transportCredentials (e_TLS ep)) (host_transportCredentials ReadFile AppendCertsFromPEM LoadX509KeyPair ep) (o_Insecure (e_TLS ep)).
Proof.
  intros Hpair. unfold fake_transportCredentials, host_transportCredentials, fake_rootCAs, host_rootCAs. destruct (o_Insecure (e_TLS ep)); [done|].
  pose proof (Hpair (o_CertFile (e_TLS ep)) (o_KeyFile (e_TLS ep))) as HP.
  destruct (String.eqb_spec (o_CAFile (e_TLS ep)) ""); simpl; [|destruct (ReadFile _); [|done]; destruct (AppendCertsFromPEM _); [|done]].
  all: destruct (String.eqb_spec (o_CertFile (e_TLS ep)) ""), (String.eqb_spec (o_KeyFile (e_TLS ep)) ""); simpl;
    destruct (LoadX509KeyPair _ _); simpl in *; try done; naive_solver.
Qed.

(** The two diallers of a Host.  For a named Host with an address, the
    fake Pool Manager dials it with the credentials and the authorization the
    Runner does, and refuses the files the Runner refuses, as long as a key
    pair with a missing half does not load; the token is sent over a
    connection without TLS only when the Host says so, and is never held
    back by grpc. *)
Theorem diallers_agree g ep (NewClient : dialled CertPool Pair -> option error) :
  (forall c k, c = "" \/ k = "" -> is_ok (LoadX509KeyPair c k) = false) ->
  (forall d, grpc_NewClient d = None) -> (forall d, NewClient d = None) -> e_Name ep <> "" -> e_Address ep <> "" ->
  match DialAdmin ep, Dial ReadFile AppendCertsFromPEM LoadX509KeyPair NewClient g ep with
  | Ok a, Ok d => ad_Address a = dl_Address d /\ ad_Creds a = dl_Creds d
      /\ metadata_of a = (pair "authorization" <$> dl_unary d) /\ sends_token a = true
      /\ (ad_Creds a = CredInsecure <-> o_Insecure (e_TLS ep) = true)
  | Err _, Err _ => True
  | _, _ => False
  end.
Proof.
  intros Hpair Hn Hn' H1 H2. pose proof (credentials_agree ep Hpair) as HC. unfold DialAdmin, Dial, pair_agrees in *.
  destruct (String.eqb_spec (e_Name ep) ""); [done|]. destruct (String.eqb_spec (e_Address ep) ""); [done|].
  destruct (fake_transportCredentials (e_TLS ep)) as [c|], (host_transportCredentials _ _ _ ep) as [c'|]; try done. destruct HC as [<- HC].
  rewrite Hn, Hn'. simpl. unfold metadata_of, basicAuthHeader, sends_token. simpl. split_and!; try done.
  - by destruct (String.eqb_spec (e_Token ep) "").
  - destruct (String.eqb_spec (e_Token ep) ""); simpl; [done|]. destruct c; [|done]. by rewrite (proj1 HC eq_refl).
Qed.
End Admin.

Definition demo_pair (c k : string) : result string := if String.eqb c "" || String.eqb k "" then Err (ENew "no file") else Ok (c +:+ k).
Lemma diallers_agree_witness : match DialAdmin (fun _ => Ok "") Some demo_pair (fun _ => None) demo_endpoint,
    Dial (fun _ => Ok "") Some demo_pair (fun _ => None) (newGRPCDialer []) demo_endpoint with
  | Ok a, Ok d => ad_Creds a = dl_Creds d | _, _ => False end.
Proof.
  pose proof (diallers_agree (fun _ => Ok "") Some demo_pair (fun _ => None) (newGRPCDialer []) demo_endpoint (fun _ => None)) as H.
  refine (proj1 (proj2 (H _ _ _ _ _))).
  - intros c k Hck. unfold demo_pair. destruct Hck as [->| ->]; [reflexivity|]. destruct (String.eqb c ""); reflexivity.
  - reflexivity.
  - reflexivity.
  - discriminate.
  - discriminate.
Defined.

(** ** grpcHost (admindial.go): the Host client of the fake Pool Manager *)
Section GrpcHost.
Context {MicroVM Spec : Type}.
Definition grpcHost_ServerInfo (name : string) (stub : rres ServerInfoResponse) : result HostInfo :=
  match stub with
  | RErr err => Err (hostErr err)
  | ROk resp =>
      let v := default noVersion (si_Version resp) in
      Ok {| hi_Name := name; hi_VersionKnown := true; hi_Version := vi_Version v; hi_BuildDate := vi_BuildDate v;
            hi_Commit := vi_CommitHash v; hi_Uptime := default 0 (si_Uptime resp);
            hi_Exec := default noService (si_Exec resp); hi_SSHProxy := default noService (si_SshProxy resp) |}
  end.
Definition host_answer {A} (r : rres A) : result A := match r with RErr err => Err (hostErr err) | ROk x => Ok x end.
Definition grpcHost_GetMicroVM (stub : string -> rres (option MicroVM)) (uid : string) : result (option MicroVM) := host_answer (stub uid).
Definition grpcHost_ListMicroVMs (stub : string -> rres (list MicroVM)) (namespace : string) : result (list MicroVM) := host_answer (stub namespace).
Definition grpcHost_CreateMicroVM (stub : Spec -> rres (option MicroVM)) (spec : Spec) : result (option MicroVM) := host_answer (stub spec).
Definition grpcHost_DeleteMicroVM (stub : string -> rres unit) (uid : string) : option error :=
  match host_answer (stub uid) with Ok _ => None | Err e => Some e end.
Definition grpcHost_Exec {S} (stub : rres S) : result S := host_answer stub.
Definition grpcHost_SSHProxy (uid : string) : result unit :=
  Err (EWrap "ssh proxy is not offered by the pool manager's host dialer" [ESentinel ErrUnsupported]).

(** The fake reports a Host's failures with the sentinels the Runner does. *)
Theorem grpcHost_sentinels err name op s :
  s ∈ [HostErrNotFound; HostErrUnimplemented; HostErrUnauthenticated] ->
  errors_Is (hostErr err) s = errors_Is (host_mapErr name op err) s.
Proof.
  intros Hs. destruct err as [c msg|e]; [|].
  - destruct c; simpl; repeat (apply elem_of_cons in Hs as [->|Hs]; [done|]); by apply elem_of_nil in Hs.
  - simpl. repeat (apply elem_of_cons in Hs as [->|Hs]; [done|]); by apply elem_of_nil in Hs.
Qed.
End GrpcHost.
