(* ===== verification/FakeCmd.v ===== *)
(** * cmd/fake-poolmgr: the fake Pool Manager as a binary

    main.go and inventory.go: the command line over package flag, the
    inventory file, and the life of the process with the connections it
    dials. *)
From S2P Require Import Prelude GoModel Spec PoolTypes ConfigTypes GoStrings PathMatch PoolDecl PoolClient FakePool ConfigLoad.
From Stdlib Require Import Ascii.

(** ** Package flag

    [parse_flags] is [FlagSet.Parse] for a set of flags: [is_bool] and [set]
    are the formal flags, [set name value] the [Set] of a flag's value, and
    [None] where there is no such flag. *)
Inductive flag_error := ErrHelp | FlagErr (e : error).

(** The text of the error of a [Set], which flag's errors carry with %v. *)
Definition flag_msg (e : error) : string := match e with ENew m => m | _ => "" end.

Section Flag.
Context {S : Type} (is_bool : string -> option bool) (set : string -> string -> S -> error + S).

(** [s[numMinuses:]] cut at the first '=' after its first byte. *)
Definition flag_name (s : string) : string * option string :=
  match s with
  | EmptyString => ("", None)
  | String c rest => match Cut rest "="%char with Some (n, v) => (String c n, Some v) | None => (s, None) end
  end.

(** The word of an argument that names a flag, without its dashes, and the
    flag it names. *)
Definition flag_word (tail : string) : string :=
  match tail with String c t => if Ascii.eqb c "-" then t else tail | EmptyString => tail end.
Definition flag_of (arg : string) : option string :=
  match arg with String c tail => if Ascii.eqb c "-" then Some (flag_name (flag_word tail)).1 else None | EmptyString => None end.
Definition bad_word (w : string) : bool :=
  match w with String c _ => Ascii.eqb c "-" || Ascii.eqb c "=" | EmptyString => true end.

(** [parseOne]: an error, the end of the flags ([false]), or one flag more. *)
Definition parseOne (args : list string) (st : S) : flag_error + (bool * S * list string) :=
  match args with
  | String c tail :: rest =>
      if negb (Ascii.eqb c "-") || String.eqb tail "" then inr (false, st, args)
      else if String.eqb tail "-" then inr (false, st, rest)
      else if bad_word (flag_word tail) then inl (FlagErr (ENew ("bad flag syntax: " +:+ String c tail)))
      else
        let '(name, value) := flag_name (flag_word tail) in
        let setTo v rest :=
          match set name v st with
          | inl e => inl (FlagErr (ENew ("invalid value for flag -" +:+ name +:+ ": " +:+ flag_msg e)))
          | inr st => inr (true, st, rest)
          end in
        match is_bool name, value, rest with
        | None, _, _ =>
            if String.eqb name "help" || String.eqb name "h" then inl ErrHelp
            else inl (FlagErr (ENew ("flag provided but not defined: -" +:+ name)))
        | Some true, _, _ => setTo (default "true" value) rest
        | Some false, Some v, _ => setTo v rest
        | Some false, None, v :: rest => setTo v rest
        | Some false, None, [] => inl (FlagErr (ENew ("flag needs an argument: -" +:+ name)))
        end
  | _ => inr (false, st, args)
  end.

Fixpoint parse_flags (fuel : nat) (args : list string) (st : S) : flag_error + (S * list string) :=
  match fuel with
  | O => inr (st, args)
  | Datatypes.S fuel =>
      match parseOne args st with
      | inl e => inl e
      | inr (false, st, rest) => inr (st, rest)
      | inr (true, st, rest) => parse_flags fuel rest st
      end
  end.

Lemma parseOne_end args st st' rest : parseOne args st = inr (false, st', rest) -> st = st'.
Proof. unfold parseOne. intros H. repeat case_match; by simplify_eq. Qed.

Lemma parseOne_seen args st st' rest : parseOne args st = inr (true, st', rest) ->
  (exists a name v, a ∈ args /\ flag_of a = Some name /\ set name v st = inr st') /\ (forall a, a ∈ rest -> a ∈ args)
  /\ (length rest < length args)%nat.
Proof.
  unfold parseOne. destruct args as [|[|c tail] args]; [done..|]. destruct (Ascii.eqb c "-") eqn:Ec; [|done]. intros H.
  assert (Hf : flag_of (String c tail) = Some (flag_name (flag_word tail)).1) by (unfold flag_of; by rewrite Ec).
  destruct (flag_name (flag_word tail)) as [name value]. cbn [fst] in Hf.
  repeat case_match; simplify_eq; (split_and!; [eexists (String c tail), name, _; split; [by left|by split]|set_solver|simpl; lia]).
Qed.

(** What the [Set]s of the flags among the arguments keep holds of what was
    parsed. *)
Lemma parse_flags_inv (P : S -> Prop) fuel args st st' rest :
  (forall a name v st st', a ∈ args -> flag_of a = Some name -> P st -> set name v st = inr st' -> P st') ->
  P st -> parse_flags fuel args st = inr (st', rest) -> P st'.
Proof.
  revert args st. induction fuel as [|fuel IH]; intros args st HP H0; simpl; [by intros [= <- _]|].
  destruct (parseOne args st) as [|[[[] st1] rest1]] eqn:E1; [done| |intros [= -> ->]; by rewrite <-(parseOne_end _ _ _ _ E1)].
  apply parseOne_seen in E1 as ((a & name & v & Ha & Hn & Hs) & Hr & _). apply IH; [|eauto]. intros a2 name2 v2 st2 st3 Ha2. eauto.
Qed.

(** As many rounds as there are arguments are enough. *)
Lemma parse_flags_fuel fuel args st : (length args <= fuel)%nat -> parse_flags fuel args st = parse_flags (length args) args st.
Proof.
  remember (length args) as n eqn:Hn. revert fuel args st Hn. induction n as [n IH] using lt_wf_ind. intros fuel args st -> Hf.
  destruct args as [|a args]; [by destruct fuel|]. destruct fuel as [|fuel]; [simpl in Hf; lia|]. cbn [parse_flags length].
  destruct (parseOne (a :: args) st) as [|[[[] st1] rest]] eqn:E1; [done| |done].
  apply parseOne_seen in E1 as (_ & _ & Hl). cbn [length] in *.
  rewrite (IH (length rest) ltac:(lia) fuel rest st1 eq_refl ltac:(lia)), (IH (length rest) ltac:(lia) (length args) rest st1 eq_refl ltac:(lia)). done.
Qed.
End Flag.

(** [strconv.ParseBool]. *)
Definition ParseBool (s : string) : option bool :=
  if bool_decide (s ∈ ["1"; "t"; "T"; "TRUE"; "true"; "True"]) then Some true
  else if bool_decide (s ∈ ["0"; "f"; "F"; "FALSE"; "false"; "False"]) then Some false else None.

(** ** main.go *)
Definition defaultListen : string := ":9440".
Definition defaultReconcileInterval : duration := second.
Definition defaultReadyTimeout : duration := 60 * second.
Definition defaultEventReplay : Z := 100.

(** [hostList] and its [Set]. *)
Definition noTLS : TLSOptions := {| o_CAFile := ""; o_CertFile := ""; o_KeyFile := ""; o_Insecure := false |}.
Definition hostList_Set (v : string) (l : list Endpoint) : error + list Endpoint :=
  match Cut v "="%char with
  | Some (name, address) =>
      if String.eqb name "" || String.eqb address "" then inl (ENew ("host " +:+ v +:+ ": want name=address"))
      else inr (l ++ [{| e_Name := name; e_Address := address; e_Token := ""; e_TLS := noTLS |}])
  | None => inl (ENew ("host " +:+ v +:+ ": want name=address"))
  end.
Definition hostList_String (l : list Endpoint) : string := String.concat "," ((fun ep => e_Name ep +:+ "=" +:+ e_Address ep) <$> l).

(** The variables the flags are parsed into. *)
Record flags := {
  f_listen : string; f_inventory : string; f_insecure : bool; f_namespace : string; f_placement : string; f_reconcile : duration;
  f_ready : duration; f_replay : Z; f_omitHost : bool; f_logLevel : string; f_hosts : list Endpoint }.
#[export] Instance eta_flags : Eta flags :=
  fun r => {| f_listen := f_listen r; f_inventory := f_inventory r; f_insecure := f_insecure r; f_namespace := f_namespace r;
              f_placement := f_placement r; f_reconcile := f_reconcile r; f_ready := f_ready r; f_replay := f_replay r;
              f_omitHost := f_omitHost r; f_logLevel := f_logLevel r; f_hosts := f_hosts r |}.

Definition flag_defaults : flags :=
  {| f_listen := defaultListen; f_inventory := ""; f_insecure := false; f_namespace := ""; f_placement := "least_vms";
     f_reconcile := defaultReconcileInterval; f_ready := defaultReadyTimeout; f_replay := defaultEventReplay; f_omitHost := false;
     f_logLevel := "info"; f_hosts := [] |}.

Definition flag_is_bool (name : string) : option bool :=
  if bool_decide (name ∈ ["insecure"; "omit-host-on-claim"]) then Some true
  else if bool_decide (name ∈ ["listen"; "inventory"; "namespace"; "placement"; "reconcile-interval"; "ready-timeout"; "event-replay"; "log-level"; "host"])
  then Some false else None.

(** [parseLevel]: slog's [Level.UnmarshalText], a name in any case with an
    optional offset. *)
Fixpoint cut_sign (s : string) : string * string :=
  match s with
  | EmptyString => ("", "")
  | String c rest => if Ascii.eqb c "+"%char || Ascii.eqb c "-"%char then ("", s) else let '(a, b) := cut_sign rest in (String c a, b)
  end.
(** The upper case of the runes that have one among the letters of a level's
    name, as [strings.ToUpper] has it: a to z, and the dotless i. *)
Definition upper_rune (r : Z) : Z := if (97 <=? r) && (r <=? 122) then r - 32 else if r =? 305 then 73 else r.
Fixpoint upper_runes (fuel : nat) (l : list Z) : list Z :=
  match fuel, l with
  | Datatypes.S fuel, _ :: _ => let '(r, n) := decode_rune l in upper_rune r :: upper_runes fuel (drop n l)
  | _, _ => []
  end.
Definition level_is (name level : string) : bool :=
  bool_decide (upper_runes (length (bytes_of name)) (bytes_of name) = bytes_of level).
Definition parseLevel (s : string) : result Z :=
  let bad := Err (ENew ("-log-level " +:+ s +:+ ": want debug, info, warn or error")) in
  let '(name, off) := cut_sign s in
  match (if String.eqb off "" then Some 0 else Atoi off) with
  | None => bad
  | Some n =>
      if level_is name "DEBUG" then Ok (wrap_signed 64 (n - 4)) else if level_is name "INFO" then Ok n
      else if level_is name "WARN" then Ok (wrap_signed 64 (n + 4)) else if level_is name "ERROR" then Ok (wrap_signed 64 (n + 8)) else bad
  end.

Example parseLevel_examples :
  (parseLevel "info", parseLevel "Debug", parseLevel "ERROR+2", parseLevel "warn-1") = (Ok 0, Ok (-4), Ok 10, Ok 3).
Proof. vm_compute. reflexivity. Qed.

(** The loop of [checkUnique], with the maps it fills. *)
Fixpoint unique_loop (names addresses : gset string) (l : list Endpoint) : option error :=
  match l with
  | [] => None
  | ep :: l =>
      if bool_decide (e_Name ep ∈ names) then Some (ENew ("host " +:+ e_Name ep +:+ " is declared twice"))
      else if bool_decide (e_Address ep ∈ addresses) then Some (ENew ("address " +:+ e_Address ep +:+ " is declared twice"))
      else unique_loop ({[e_Name ep]} ∪ names) ({[e_Address ep]} ∪ addresses) l
  end.
Definition checkUnique (endpoints : list Endpoint) : option error := unique_loop ∅ ∅ endpoints.

Lemma unique_loop_None names addresses l : unique_loop names addresses l = None ->
  NoDup (e_Name <$> l) /\ NoDup (e_Address <$> l)
  /\ (forall ep, ep ∈ l -> e_Name ep ∉ names /\ e_Address ep ∉ addresses).
Proof.
  revert names addresses. induction l as [|ep l IH]; intros names addresses; simpl.
  - intros _. split_and!; [by apply NoDup_nil_2..|]. by intros ep ?%elem_of_nil.
  - case_bool_decide as Hn; [done|]. case_bool_decide as Ha; [done|]. intros (H1 & H2 & H3)%IH. split_and!.
    + apply NoDup_cons_2; [|done]. intros (x & Hx & [??]%H3)%list_elem_of_fmap. set_solver.
    + apply NoDup_cons_2; [|done]. intros (x & Hx & [??]%H3)%list_elem_of_fmap. set_solver.
    + intros x [->|[??]%H3]%elem_of_cons; [done|]. set_solver.
Qed.

(** ** inventory.go *)
Record inventoryHost := {
  ih_Name : string; ih_Endpoint : string; ih_Address : string; ih_Token : string; ih_TokenFile : string; ih_TLS : TLSOptions }.

Section Command.
(** time.ParseDuration, strconv.ParseInt in base 0, os.ReadFile and yaml.v3. *)
Context (ParseDuration : string -> option duration) (ParseInt0 : string -> option Z).
Context (ReadFile : string -> result string) (yamlHosts : string -> result (list inventoryHost)).

Definition endpoint (h : inventoryHost) : result Endpoint :=
  let address := if String.eqb (ih_Endpoint h) "" then ih_Address h else ih_Endpoint h in
  let t := ih_TLS h in
  let set s := negb (String.eqb s "") in
  let host msg := Err (ENew ("host " +:+ ih_Name h +:+ ": " +:+ msg)) in
  if String.eqb (ih_Name h) "" then Err (ENew "name is required")
  else if String.eqb address "" then host "endpoint is required"
  else if set (ih_Token h) && set (ih_TokenFile h) then host "token and token_file are mutually exclusive"
  else if o_Insecure t && (set (o_CAFile t) || set (o_CertFile t) || set (o_KeyFile t)) then host "tls.insecure with tls files is contradictory"
  else if negb (Bool.eqb (String.eqb (o_CertFile t) "") (String.eqb (o_KeyFile t) "")) then host "tls.cert_file and tls.key_file go together"
  else
    let ok token := Ok {| e_Name := ih_Name h; e_Address := address; e_Token := token; e_TLS := t |} in
    if set (ih_TokenFile h) then
      match ReadFile (ih_TokenFile h) with
      | Err e => Err (EWrap ("host " +:+ ih_Name h +:+ ": token_file") [e])
      | Ok body => if String.eqb (TrimSpace body) "" then host ("token_file " +:+ ih_TokenFile h +:+ " is empty") else ok (TrimSpace body)
      end
    else ok (ih_Token h).

Fixpoint endpoints_of (path : string) (i : Z) (hosts : list inventoryHost) : result (list Endpoint) :=
  match hosts with
  | [] => Ok []
  | h :: hosts =>
      match endpoint h with
      | Err e => Err (EWrap ("inventory " +:+ path +:+ ": hosts[" +:+ Itoa i +:+ "]") [e])
      | Ok ep => match endpoints_of path (i + 1) hosts with Ok eps => Ok (ep :: eps) | Err e => Err e end
      end
  end.

Definition loadInventory (path : string) : result (list Endpoint) :=
  match ReadFile path with
  | Err e => Err (EWrap "inventory" [e])
  | Ok body =>
      match yamlHosts body with
      | Err e => Err (EWrap ("inventory " +:+ path) [e])
      | Ok [] => Err (ENew ("inventory " +:+ path +:+ ": no hosts"))
      | Ok hosts => endpoints_of path 0 hosts
      end
  end.

(** The [Set] of each flag. *)
Definition set_flag (name v : string) (f : flags) : error + flags :=
  let parse_error := ENew "parse error" in
  if String.eqb name "listen" then inr (f <| f_listen := v |>)
  else if String.eqb name "inventory" then inr (f <| f_inventory := v |>)
  else if String.eqb name "namespace" then inr (f <| f_namespace := v |>)
  else if String.eqb name "placement" then inr (f <| f_placement := v |>)
  else if String.eqb name "log-level" then inr (f <| f_logLevel := v |>)
  else if String.eqb name "insecure" then match ParseBool v with Some b => inr (f <| f_insecure := b |>) | None => inl parse_error end
  else if String.eqb name "omit-host-on-claim" then match ParseBool v with Some b => inr (f <| f_omitHost := b |>) | None => inl parse_error end
  else if String.eqb name "reconcile-interval" then match ParseDuration v with Some d => inr (f <| f_reconcile := d |>) | None => inl parse_error end
  else if String.eqb name "ready-timeout" then match ParseDuration v with Some d => inr (f <| f_ready := d |>) | None => inl parse_error end
  else if String.eqb name "event-replay" then match ParseInt0 v with Some n => inr (f <| f_replay := n |>) | None => inl parse_error end
  else match hostList_Set v (f_hosts f) with inr l => inr (f <| f_hosts := l |>) | inl e => inl e end.

(** [options]. *)
Record options := { op_cfg : FakeConfig; op_endpoints : list Endpoint; op_logLevel : Z }.

Definition placementOf (s : string) : option PlacementStrategy :=
  if String.eqb s "least_vms" then Some PlacementLeastVMs else if String.eqb s "round_robin" then Some PlacementRoundRobin else None.

Definition insecure_host (insecure : bool) (ep : Endpoint) : Endpoint :=
  {| e_Name := e_Name ep; e_Address := e_Address ep; e_Token := e_Token ep;
     e_TLS := {| o_CAFile := o_CAFile (e_TLS ep); o_CertFile := o_CertFile (e_TLS ep); o_KeyFile := o_KeyFile (e_TLS ep); o_Insecure := insecure |} |}.

Definition parseFlags (args : list string) : flag_error + options :=
  match parse_flags flag_is_bool set_flag (length args) args flag_defaults with
  | inl e => inl e
  | inr (f, rest) =>
      match rest with
      | a :: _ => inl (FlagErr (ENew ("unexpected argument " +:+ a)))
      | [] =>
          match parseLevel (f_logLevel f) with
          | Err e => inl (FlagErr e)
          | Ok level =>
              match placementOf (f_placement f) with
              | None => inl (FlagErr (ENew ("-placement " +:+ f_placement f)))
              | Some strategy =>
                  if f_reconcile f <=? 0 then inl (FlagErr (ENew "-reconcile-interval: want a positive duration"))
                  else if f_ready f <=? 0 then inl (FlagErr (ENew "-ready-timeout: want a positive duration"))
                  else if f_replay f <=? 0 then inl (FlagErr (ENew "-event-replay: want a positive count"))
                  else
                    let cfg := {| fc_Listen := f_listen f; fc_Placement := Some strategy; fc_ReconcileInterval := f_reconcile f;
                                  fc_ReadyTimeout := f_ready f; fc_EventReplay := f_replay f; fc_OmitHostOnClaim := f_omitHost f;
                                  fc_Namespace := f_namespace f |} in
                    match (if String.eqb (f_inventory f) "" then Ok [] else loadInventory (f_inventory f)) with
                    | Err e => inl (FlagErr e)
                    | Ok eps =>
                        let eps := eps ++ (insecure_host (f_insecure f) <$> f_hosts f) in
                        match checkUnique eps with
                        | Some e => inl (FlagErr e)
                        | None => inr {| op_cfg := cfg; op_endpoints := eps; op_logLevel := level |}
                        end
                    end
              end
          end
      end
  end.
(** *** What is accepted *)
Definition endpoint_ok (ep : Endpoint) : Prop :=
  let t := e_TLS ep in
  e_Name ep <> "" /\ e_Address ep <> ""
  /\ (o_Insecure t = true -> o_CAFile t = "" /\ o_CertFile t = "" /\ o_KeyFile t = "") /\ (o_CertFile t = "" <-> o_KeyFile t = "").

(** An endpoint of the inventory: its entry's name, address and TLS material,
    and its token from one of the two places. *)
Definition from_entry (h : inventoryHost) (ep : Endpoint) : Prop :=
  e_Name ep = ih_Name h /\ e_Address ep = (if String.eqb (ih_Endpoint h) "" then ih_Address h else ih_Endpoint h) /\ e_TLS ep = ih_TLS h
  /\ (ih_TokenFile h = "" /\ e_Token ep = ih_Token h
      \/ ih_Token h = "" /\ e_Token ep <> "" /\ exists body, ReadFile (ih_TokenFile h) = Ok body /\ e_Token ep = TrimSpace body).

Lemma endpoint_accepts h ep : endpoint h = Ok ep -> endpoint_ok ep /\ from_entry h ep.
Proof.
  unfold endpoint, endpoint_ok, from_entry. cbv zeta. intros H.
  destruct (String.eqb (ih_Name h) "") eqn:E1; [done|]. apply String.eqb_neq in E1.
  destruct (String.eqb (if String.eqb (ih_Endpoint h) "" then ih_Address h else ih_Endpoint h) "") eqn:E2; [done|]. apply String.eqb_neq in E2.
  destruct (negb (String.eqb (ih_Token h) "") && negb (String.eqb (ih_TokenFile h) "")) eqn:E3; [done|].
  match goal with H : (if ?b then _ else _) = _ |- _ => destruct b eqn:E4; [done|] end.
  match goal with H : (if ?b then _ else _) = _ |- _ => destruct b eqn:E5; [done|] end.
  assert (Hok : forall ep, e_TLS ep = ih_TLS h -> e_Name ep = ih_Name h ->
    e_Address ep = (if String.eqb (ih_Endpoint h) "" then ih_Address h else ih_Endpoint h) -> endpoint_ok ep).
  { intros ep1 Ht Hn Ha. unfold endpoint_ok. cbv zeta. rewrite Ht, Hn, Ha. split_and!; [done|done| |].
    - intros Hi. rewrite Hi in E4. simpl in E4. apply orb_false_iff in E4 as [[E6 E7]%orb_false_iff E8].
      apply negb_false_iff, String.eqb_eq in E6, E7, E8. done.
    - apply negb_false_iff, Bool.eqb_prop in E5. rewrite <-!String.eqb_eq, E5. done. }
  destruct (String.eqb (ih_TokenFile h) "") eqn:E6; simpl in H.
  - apply String.eqb_eq in E6. simplify_eq. split; [by apply Hok|]. simpl. split_and!; try done. left. done.
  - rewrite andb_true_r in E3. apply negb_false_iff, String.eqb_eq in E3.
    destruct (ReadFile (ih_TokenFile h)) as [body|] eqn:Er; [|done]. destruct (String.eqb (TrimSpace body) "") eqn:E7; [done|].
    apply String.eqb_neq in E7. simplify_eq. split; [by apply Hok|]. simpl. split_and!; try done. right. eauto.
Qed.

Lemma endpoints_of_accepts path i hosts eps : endpoints_of path i hosts = Ok eps ->
  Forall2 (fun h ep => endpoint_ok ep /\ from_entry h ep) hosts eps.
Proof.
  revert i eps. induction hosts as [|h hosts IH]; intros i eps; simpl; [intros [= <-]; constructor|].
  destruct (endpoint h) as [ep|] eqn:E1; [|done]. destruct (endpoints_of path (i + 1) hosts) as [l|] eqn:E2; [|done]. intros [= <-].
  constructor; [by apply endpoint_accepts|by eapply IH].
Qed.

(** The Hosts of -host have a name and an address and no TLS material; the
    -insecure of the result was asked for. *)
Definition flags_ok (args : list string) (f : flags) : Prop :=
  Forall (fun ep => e_Name ep <> "" /\ e_Address ep <> "" /\ e_Token ep = "" /\ e_TLS ep = noTLS) (f_hosts f)
  /\ (f_insecure f = true -> exists a, a ∈ args /\ flag_of a = Some "insecure").

Lemma hostList_Set_ok v l l' : hostList_Set v l = inr l' ->
  exists name address, Cut v "="%char = Some (name, address) /\ name <> "" /\ address <> ""
    /\ l' = l ++ [{| e_Name := name; e_Address := address; e_Token := ""; e_TLS := noTLS |}].
Proof.
  unfold hostList_Set. destruct (Cut v "=") as [[name address]|]; [|done]. destruct (String.eqb name "" || String.eqb address "") eqn:E; [done|].
  apply orb_false_iff in E as [E1%String.eqb_neq E2%String.eqb_neq]. intros [= <-]. eauto 8.
Qed.

Lemma Cut_join v sep a b : Cut v sep = Some (a, b) -> v = a +:+ String sep b.
Proof.
  revert a b. induction v as [|c v IH]; intros a b; simpl; [done|]. destruct (Ascii.eqb_spec c sep) as [->|]; [by intros [= <- <-]|].
  destruct (Cut v sep) as [[a' b']|]; [|done]. intros [= <- <-]. simpl. by rewrite (IH a' b' eq_refl).
Qed.

(** A -host value prints as it was given. *)
Lemma hostList_roundtrip v l : hostList_Set v [] = inr l -> hostList_String l = v.
Proof. intros (name & address & Hc & _ & _ & ->)%hostList_Set_ok. by rewrite (Cut_join _ _ _ _ Hc). Qed.

Lemma set_flag_ok args a name v f f' : a ∈ args -> flag_of a = Some name -> flags_ok args f -> set_flag name v f = inr f' -> flags_ok args f'.
Proof.
  intros Ha Hn [H1 H2]. unfold set_flag. destruct (String.eqb name "insecure") eqn:Ei.
  - apply String.eqb_eq in Ei as ->. simpl. destruct (ParseBool v) as [b|]; [|done]. intros [= <-]. split; [done|]. intros _. eauto.
  - intros H. repeat case_match; simplify_eq; (split; [|exact H2]); try exact H1.
    match goal with H : hostList_Set _ _ = inr _ |- _ => apply hostList_Set_ok in H as (nm & ad & _ & Hnm & Had & ->) end.
    apply Forall_app_2; [done|]. by apply Forall_singleton.
Qed.

(** What the command line accepts.  The Hosts have distinct, non-empty names
    and distinct, non-empty addresses, the intervals and the replay are
    positive, certificate and key come together, and plaintext is explicit: a
    Host is dialled without TLS only where -insecure was given or where its
    entry of the inventory says so, and then it has no TLS files; a token
    comes from the entry or, trimmed and not empty, from its file, never from
    both. *)
Theorem parseFlags_accepts args o : parseFlags args = inr o ->
  NoDup (e_Name <$> op_endpoints o) /\ NoDup (e_Address <$> op_endpoints o)
  /\ 0 < fc_ReconcileInterval (op_cfg o) /\ 0 < fc_ReadyTimeout (op_cfg o) /\ 0 < fc_EventReplay (op_cfg o)
  /\ (forall ep, ep ∈ op_endpoints o -> endpoint_ok ep
       /\ ((e_Token ep = "" /\ (o_Insecure (e_TLS ep) = true -> exists a, a ∈ args /\ flag_of a = Some "insecure"))
           \/ exists path body hosts h, ReadFile path = Ok body /\ yamlHosts body = Ok hosts /\ h ∈ hosts /\ from_entry h ep)).
Proof.
  unfold parseFlags. destruct (parse_flags _ _ _ args flag_defaults) as [|[f rest]] eqn:Ep; [done|].
  assert (flags_ok args f) as [Hh Hi].
  { eapply (parse_flags_inv flag_is_bool set_flag (flags_ok args)); [intros; by eapply set_flag_ok| |exact Ep]. split; [by constructor|done]. }
  destruct rest; [|done]. destruct (parseLevel (f_logLevel f)); [|done]. destruct (placementOf (f_placement f)) as [strategy|]; [|done].
  destruct (Z.leb_spec (f_reconcile f) 0); [done|]. destruct (Z.leb_spec (f_ready f) 0); [done|]. destruct (Z.leb_spec (f_replay f) 0); [done|].
  cbv zeta. destruct (if String.eqb (f_inventory f) "" then Ok [] else loadInventory (f_inventory f)) as [inv|] eqn:Ei; [|done].
  destruct (checkUnique _) eqn:Eu; [done|]. apply unique_loop_None in Eu as (Hn & Ha & _). intros [= <-]. simpl. split_and!; [done..|].
  intros ep [He|He]%elem_of_app.
  - destruct (String.eqb (f_inventory f) ""); [simplify_eq; by apply elem_of_nil in He|]. unfold loadInventory in Ei.
    destruct (ReadFile (f_inventory f)) as [body|] eqn:Er; [|done]. destruct (yamlHosts body) as [hosts|] eqn:Ey; [|done].
    assert (Hf : Forall2 (fun h ep => endpoint_ok ep /\ from_entry h ep) hosts inv)
      by (destruct hosts; [done|by eapply endpoints_of_accepts]).
    apply list_elem_of_lookup in He as [i Hl]. destruct (Forall2_lookup_r _ _ _ _ _ Hf Hl) as (h & Hlh & Hok & Hfrom).
    split; [done|]. right. exists (f_inventory f), body, hosts, h. split_and!; try done. by eapply list_elem_of_lookup_2.
  - apply list_elem_of_fmap in He as (ep0 & -> & He). destruct (proj1 (Forall_forall _ _) Hh ep0 He) as (Hp1 & Hp2 & Hp3 & Hp4).
    unfold endpoint_ok, insecure_host. simpl. rewrite Hp3, Hp4. simpl. split; [by split_and!|]. by left.
Qed.
End Command.

(** ** The process

    What happens to the connections to the Hosts, the listener and the exit
    status.  Connections are numbered in the order they are dialled; [dial] is
    what the dialler answers for an endpoint. *)
Inductive cmd_event :=
  | Dialled (ep : Endpoint) (conn : Z)
  | ClosedConn (conn : Z)
  | Listening                      (* the line on the standard output *)
  | ServeReturned (e : option error)
  | Exit (code : Z).

(** [Hosts.Close]. *)
Definition Hosts_Close (h : Hosts) : list cmd_event := ClosedConn <$> (ho_client <$> (map_to_list h).*2).

Fixpoint HostsFromDialer (dial : Endpoint -> option error) (n : Z) (eps : list Endpoint) (h : Hosts) : list cmd_event * (error + Hosts) :=
  match eps with
  | [] => ([], inr h)
  | ep :: eps =>
      match dial ep with
      | Some e => (Hosts_Close h, inl (EWrap ("host " +:+ e_Name ep) [e]))
      | None =>
          let '(ev, r) := HostsFromDialer dial (n + 1) eps (Hosts_Add (e_Name ep) n (e_Address ep) h) in
          (Dialled ep n :: ev, r)
      end
  end.

(** [run]: what it answers, with what it did.  [served] is what Serve returned
    and [listening] whether Ready won the select. *)
Definition run (parsed : flag_error + options) (dial : Endpoint -> option error) (listening : bool) (served : option error)
  : list cmd_event * option error :=
  match parsed with
  | inl ErrHelp => ([], None)
  | inl (FlagErr e) => ([], Some e)
  | inr o =>
      match HostsFromDialer dial 0 (op_endpoints o) ∅ with
      | (ev, inl e) => (ev, Some (EWrap "inventory" [e]))
      | (ev, inr h) =>
          if listening then (ev ++ Listening :: ServeReturned served :: Hosts_Close h, served)
          else (ev ++ ServeReturned served :: Hosts_Close h,
                Some (match served with Some e => e | None => ENew "stopped before it was listening" end))
      end
  end.

Definition command (parsed : flag_error + options) (dial : Endpoint -> option error) (listening : bool) (served : option error) : list cmd_event :=
  let '(ev, err) := run parsed dial listening served in ev ++ [Exit (match err with Some _ => 1 | None => 0 end)].

(** *** The connections *)
Definition dialled (ev : list cmd_event) : list Z := omap (fun e => match e with Dialled _ c => Some c | _ => None end) ev.
Definition closed (ev : list cmd_event) : list Z := omap (fun e => match e with ClosedConn c => Some c | _ => None end) ev.
Definition conns (h : Hosts) : list Z := ho_client <$> (map_to_list h).*2.

Lemma closed_Close h : closed (Hosts_Close h) = conns h /\ dialled (Hosts_Close h) = [].
Proof. unfold Hosts_Close, closed, dialled, conns. induction (ho_client <$> (map_to_list h).*2) as [|c l [IH1 IH2]]; [done|]. split; [by apply (f_equal (cons c))|done]. Qed.

Lemma conns_empty : conns ∅ = [].
Proof. unfold conns. by rewrite map_to_list_empty. Qed.
Lemma conns_Add name c a h : h !! name = None -> conns (Hosts_Add name c a h) ≡ₚ c :: conns h.
Proof. intros H. unfold conns, Hosts_Add. by rewrite (map_to_list_insert _ _ _ H). Qed.

(** Dialling: the connections are numbered one after the other; on a failure
    all are closed, and else all are in the Hosts. *)
Lemma HostsFromDialer_conns dial n eps h ev r : NoDup (e_Name <$> eps) -> (forall ep, ep ∈ eps -> h !! e_Name ep = None) ->
  HostsFromDialer dial n eps h = (ev, r) ->
  dialled ev = seqZ n (Z.of_nat (length (dialled ev)))
  /\ (forall e, ServeReturned e ∉ ev)
  /\ match r with
     | inl _ => closed ev ≡ₚ conns h ++ dialled ev /\ exists ep, ep ∈ eps /\ is_Some (dial ep)
     | inr h' => closed ev = [] /\ conns h' ≡ₚ conns h ++ dialled ev /\ forall ep, ep ∈ eps -> dial ep = None
     end.
Proof.
  revert n h ev r. induction eps as [|ep eps IH]; intros n h ev r Hnd Hh; simpl.
  - intros [= <- <-]. simpl. rewrite app_nil_r. split_and!; try done; [by intros e ?%elem_of_nil|by intros ep ?%elem_of_nil].
  - inversion_clear Hnd. destruct (dial ep) as [e|] eqn:Ed.
    + intros [= <- <-]. destruct (closed_Close h) as [-> ->]. rewrite app_nil_r. split_and!; try done; [|exists ep; split; [by left|by eexists]].
      intros e1 (c & ? & _)%list_elem_of_fmap. done.
    + destruct (HostsFromDialer dial (n + 1) eps _) as [ev1 r1] eqn:E1. intros [= <- <-].
      apply IH in E1 as (H1 & H2 & H3); [|done|].
      2:{ intros ep1 Hep. unfold Hosts_Add. rewrite lookup_insert_ne; [apply Hh; by right|]. intros Heq.
          apply H. rewrite Heq. by apply list_elem_of_fmap_2. }
      assert (Hc : conns (Hosts_Add (e_Name ep) n (e_Address ep) h) ≡ₚ n :: conns h) by (apply conns_Add, Hh; by left).
      split_and!.
      * change (dialled (Dialled ep n :: ev1)) with (n :: dialled ev1). rewrite seqZ_cons by (simpl; lia). f_equal.
        rewrite H1 at 1. f_equal; simpl; lia.
      * intros e [?|He]%elem_of_cons; [done|by eapply H2].
      * change (dialled (Dialled ep n :: ev1)) with (n :: dialled ev1). change (closed (Dialled ep n :: ev1)) with (closed ev1).
        destruct r1 as [e|h'].
        -- destruct H3 as (H3 & ep1 & ? & ?). split; [|exists ep1; split; [by right|done]]. rewrite H3, Hc. solve_Permutation.
        -- destruct H3 as (H3 & H4 & H5). split_and!; [done|rewrite H4, Hc; solve_Permutation|].
           intros ep1 [->|?]%elem_of_cons; [done|by apply H5].
Qed.

Lemma only_serve pre post s a e b : (forall e, ServeReturned e ∉ pre) -> (forall e, ServeReturned e ∉ post) ->
  pre ++ ServeReturned s :: post = a ++ ServeReturned e :: b -> a = pre /\ b = post.
Proof.
  revert a. induction pre as [|x pre IH]; intros a H1 H2 H.
  - destruct a as [|y a]; simplify_eq/=; [done|]. exfalso. apply (H2 e). apply elem_of_app. right. by left.
  - destruct a as [|y a]; simplify_eq/=; [exfalso; apply (H1 e); by left|].
    destruct (IH a) as [-> ->]; [intros e1 He; apply (H1 e1); by right|done|done|done].
Qed.

(** The binary.  Whatever the arguments, the dialler and Serve do, the process
    ends by exiting, with every connection it dialled closed exactly once, and
    none before Serve has returned; its status is 0 exactly for -h and when
    the arguments were good, every Host was dialled, the server was listening
    and Serve returned no error. *)
Theorem command_closes ParseDuration ParseInt0 ReadFile yamlHosts args dial listening served :
  let parsed := parseFlags ParseDuration ParseInt0 ReadFile yamlHosts args in
  let ev := command parsed dial listening served in
  closed ev ≡ₚ dialled ev /\ NoDup (closed ev)
  /\ (forall a e b, ev = a ++ ServeReturned e :: b -> closed a = [] /\ dialled b = [])
  /\ exists pre code, ev = pre ++ [Exit code]
     /\ (code = 0 <-> parsed = inl ErrHelp
                      \/ exists o, parsed = inr o /\ (forall ep, ep ∈ op_endpoints o -> dial ep = None) /\ listening = true /\ served = None).
Proof.
  cbv zeta. destruct (parseFlags ParseDuration ParseInt0 ReadFile yamlHosts args) as [e|o] eqn:Ep.
  - assert (exists code, command (inl e) dial listening served = [Exit code] /\ (code = 0 <-> e = ErrHelp)) as (code & -> & Hc)
      by (destruct e; by eexists).
    split_and!; [done|by apply NoDup_nil_2| |].
    + intros a e1 b H. by destruct a as [|? [|]].
    + exists [], code. split; [done|]. rewrite Hc. split; [intros ->; by left|by intros [[= ->]|(? & ? & _)]].
  - apply parseFlags_accepts in Ep as (Hn & _).
    unfold command, run. destruct (HostsFromDialer dial 0 (op_endpoints o) ∅) as [ev r] eqn:Eh.
    apply HostsFromDialer_conns in Eh as (H1 & H2 & H3); [|done|by intros; apply lookup_empty].
    destruct r as [e|h].
    + destruct H3 as (H3 & ep & Hin & e1 & Hd). unfold dialled, closed in *. rewrite !omap_app. simpl. rewrite !app_nil_r.
      split_and!; [rewrite H3; by rewrite conns_empty|rewrite H3, conns_empty, H1; apply NoDup_seqZ| |].
      * intros a e2 b H. exfalso. assert (ServeReturned e2 ∈ ev ++ [Exit 1]) as [?|?]%elem_of_app by (rewrite H; set_solver); [by eapply H2|set_solver].
      * exists ev, 1. split; [done|]. split; [done|]. intros [?|(o1 & [= <-] & Ho & _)]; [done|]. by rewrite Ho in Hd.
    + destruct H3 as (H3 & H4 & H5). destruct (closed_Close h) as [Hc1 Hc2]. rewrite conns_empty in H4.
      assert (Hs : forall e, ServeReturned e ∉ Hosts_Close h ++ [Exit (match served with Some _ => 1 | None => if listening then 0 else 1 end)]).
      { intros e [(c & ? & _)%list_elem_of_fmap|?]%elem_of_app; [done|set_solver]. }
      assert (exists pre, (pre = ev \/ pre = ev ++ [Listening]) /\
        (let '(ev, err) := if listening then (ev ++ Listening :: ServeReturned served :: Hosts_Close h, served)
          else (ev ++ ServeReturned served :: Hosts_Close h, Some (match served with Some e => e | None => ENew "stopped before it was listening" end))
         in ev ++ [Exit (match err with Some _ => 1 | None => 0 end)])
        = pre ++ ServeReturned served :: Hosts_Close h ++ [Exit (match served with Some _ => 1 | None => if listening then 0 else 1 end)]) as (pre & Hpre & ->).
      { destruct listening; [exists (ev ++ [Listening])|exists ev]; (split; [by auto|]); rewrite <-?app_assoc; simpl; destruct served; done. }
      assert (closed pre = [] /\ dialled pre = dialled ev /\ (forall e, ServeReturned e ∉ pre)) as (Hp1 & Hp2 & Hp3).
      { destruct Hpre as [->| ->]; [done|]. unfold closed, dialled in *. rewrite !omap_app, H3. simpl. rewrite !app_nil_r. split_and!; [done|done|].
        intros e [?|?]%elem_of_app; [by eapply H2|set_solver]. }
      unfold closed, dialled in *. rewrite !omap_app. simpl. rewrite !omap_app, Hp1, Hp2, Hc1, Hc2. simpl. rewrite !app_nil_r.
      split_and!; [done|rewrite H4, H1; apply NoDup_seqZ| |].
      * intros a e b H. apply only_serve in H as [-> ->]; [|done|done]. split; [done|]. rewrite omap_app, Hc2. done.
      * eexists _, _. split; [by rewrite app_comm_cons, app_assoc|]. split.
        -- intros Hcode. right. exists o. destruct served, listening; try done.
        -- intros [?|(o1 & [= <-] & _ & -> & ->)]; done.
Qed.

(** Two Hosts of the command line and one of a file. *)
Definition demo_entry : inventoryHost :=
  {| ih_Name := "c"; ih_Endpoint := ""; ih_Address := "10.0.0.3:9090"; ih_Token := ""; ih_TokenFile := "/token"; ih_TLS := noTLS |}.
Definition demo_read_file (path : string) : result string := if String.eqb path "/token" then Ok " secret " else Ok "hosts".
Definition demo_parse : list string -> flag_error + options :=
  parseFlags (fun _ => Some second) (fun _ => Some 7) demo_read_file (fun _ => Ok [demo_entry]).
Definition demo_cmd_args : list string :=
  ["-host"; "a=10.0.0.1:9090"; "--host=b=10.0.0.2:9090"; "-insecure"; "-inventory"; "inv.yaml"; "-reconcile-interval=1s"].
Definition demo_options : options :=
  match demo_parse demo_cmd_args with inr o => o | inl _ => {| op_cfg := {| fc_Listen := ""; fc_Placement := None; fc_ReconcileInterval := 0; fc_ReadyTimeout := 0; fc_EventReplay := 0;
                                fc_OmitHostOnClaim := false; fc_Namespace := "" |}; op_endpoints := []; op_logLevel := 0 |} end.

Lemma parseFlags_accepts_witness : (e_Name <$> op_endpoints demo_options) = ["c"; "a"; "b"]
  /\ (e_Token <$> op_endpoints demo_options) = ["secret"; ""; ""] /\ (o_Insecure ∘ e_TLS <$> op_endpoints demo_options) = [false; true; true]
  /\ NoDup (e_Name <$> op_endpoints demo_options).
Proof.
  assert (H : demo_parse demo_cmd_args = inr demo_options) by (vm_compute; reflexivity).
  destruct (parseFlags_accepts _ _ _ _ _ _ H) as (H1 & _). split_and!; [vm_compute; reflexivity..|exact H1].
Defined.

(** A name twice, an unknown flag, an argument too many and -h. *)
Example parseFlags_refuses :
  (match demo_parse ["-host"; "a=1"; "-host"; "a=2"] with inl (FlagErr (ENew m)) => m | _ => "" end,
   match demo_parse ["-hots"; "a=1"] with inl (FlagErr (ENew m)) => m | _ => "" end,
   match demo_parse ["--"; "x"] with inl (FlagErr (ENew m)) => m | _ => "" end, demo_parse ["-host"; "a=1"; "-h"])
  = ("host a is declared twice", "flag provided but not defined: -hots", "unexpected argument x", inl ErrHelp).
Proof. vm_compute. reflexivity. Qed.

(** The third Host cannot be dialled: the connections to the others are
    closed and the process fails. *)
Example command_dial_fails :
  let ev := command (demo_parse demo_cmd_args) (fun ep => if String.eqb (e_Name ep) "b" then Some (ENew "refused") else None) true None in
  (dialled ev, length (closed ev), last ev) = ([0; 1], 2%nat, Some (Exit 1)).
Proof. vm_compute. reflexivity. Qed.
