(* ===== verification/SSH.v ===== *)
(** * internal/transport: the ssh Guest Transport (ssh.go)

    The command line a session is given and what the guest's shell makes of
    it; the one connection of a transport, dialled on first use and closed by
    Close, as a state machine whose steps are the critical sections of dial
    and of Close; and the outcome of Run.  golang.org/x/crypto/ssh and the
    SSHProxy stream answer as arguments.  A proxy stream is its number. *)
From S2P Require Import Prelude GoModel GoStrings Shell GoContext Executor ExecutorThms ExecutorRun Transport.

Definition sshHandshakeGrace : duration := 5 * second.

(** ** The command line *)
Definition loginUser (so : SSHOptions) (commandUser : string) : string :=
  if negb (String.eqb (so_User so) "") then so_User so
  else if negb (String.eqb commandUser "") then commandUser
  else "root".

Definition export_key (env : gmap string string) (k : string) : string :=
  "export " +:+ k +:+ "=" +:+ shellQuote (default "" (env !! k)) +:+ " && ".
Fixpoint concat_strings (l : list string) : string := match l with [] => "" | s :: l => s +:+ concat_strings l end.

Definition commandLine (c : Command) (env : gmap string string) : string :=
  (if String.eqb (cm_Dir c) "" then "" else "cd " +:+ shellQuote (cm_Dir c) +:+ " && ")
  +:+ concat_strings (export_key env <$> sort_strings (map_to_list env).*1)
  +:+ "exec " +:+ shellQuote (cm_Path c)
  +:+ concat_strings ((fun arg => " " +:+ shellQuote arg) <$> cm_Args c).

(** What the guest's shell has to run. *)
Definition cd_command (c : Command) : list (list string) := if String.eqb (cm_Dir c) "" then [] else [["cd"; cm_Dir c]].
Definition export_command (env : gmap string string) (k : string) : list string := ["export"; k +:+ "=" +:+ default "" (env !! k)].
Definition session_commands (c : Command) (env : gmap string string) : list (list string) :=
  cd_command c ++ (export_command env <$> sort_strings (map_to_list env).*1) ++ [["exec"; cm_Path c] ++ cm_Args c].

Lemma sh_line_word k rest : plain k = true -> k <> "" -> sh_line (k +:+ " " +:+ rest) false None = first_word (Some k) <$> sh_line rest false None.
Proof. intros. rewrite sh_line_plain by done. apply sh_line_space. Qed.

Lemma sh_line_args args w : sh_line (concat_strings ((fun arg => " " +:+ shellQuote arg) <$> args)) false (Some w) = Some [w :: args].
Proof.
  revert w. induction args as [|a args IH]; intros w; [done|].
  change (concat_strings ((fun arg => " " +:+ shellQuote arg) <$> a :: args)) with ((" " +:+ shellQuote a) +:+ concat_strings ((fun arg => " " +:+ shellQuote arg) <$> args)).
  rewrite string_app_assoc, sh_line_space, sh_line_quote. simpl default. by rewrite IH.
Qed.

Lemma sh_line_exec path args :
  sh_line ("exec " +:+ shellQuote path +:+ concat_strings ((fun arg => " " +:+ shellQuote arg) <$> args)) false None = Some [["exec"; path] ++ args].
Proof.
  change ("exec " +:+ ?r) with ("exec" +:+ " " +:+ r). rewrite sh_line_word, sh_line_quote by done. simpl default. by rewrite sh_line_args.
Qed.

Lemma sh_line_export env k rest : plain k = true ->
  sh_line (export_key env k +:+ rest) false None = cons (export_command env k) <$> sh_line rest false None.
Proof.
  intros Hk. unfold export_key. rewrite !string_app_assoc. change ("export " +:+ ?r) with ("export" +:+ " " +:+ r). rewrite sh_line_word by done.
  assert (H : forall r, sh_line (k +:+ "=" +:+ r) false None = sh_line r false (Some (k +:+ "="))).
  { intros r. destruct k as [|c k]; [by apply (sh_line_plain "=" r None)|]. rewrite sh_line_plain by done. simpl default. by rewrite (sh_line_plain "="). }
  rewrite H, sh_line_quote. simpl default. rewrite sh_line_and, <-option_fmap_compose. unfold compose, export_command. simpl. by rewrite string_app_assoc.
Qed.

Lemma sh_line_exports env ks rest : Forall (fun k => plain k = true) ks ->
  sh_line (concat_strings (export_key env <$> ks) +:+ rest) false None = app (export_command env <$> ks) <$> sh_line rest false None.
Proof.
  induction 1 as [|k ks Hk _ IH].
  - change (concat_strings _ +:+ rest) with rest. by destruct (sh_line rest false None).
  - change (concat_strings (export_key env <$> k :: ks)) with (export_key env k +:+ concat_strings (export_key env <$> ks)). rewrite string_app_assoc, sh_line_export, IH by done. by destruct (sh_line rest false None).
Qed.

(** C34: the command line means the Command.  The guest's shell reads the line
    of a session as: change to the directory, export every variable with its
    value, and replace itself by the program with exactly its arguments,
    whatever characters the directory, the values, the program and the
    arguments hold; only the names of the variables have to be plain. *)
Theorem commandLine_words c env :
  map_Forall (fun k _ => plain k = true) env ->
  sh_line (commandLine c env) false None = Some (session_commands c env).
Proof.
  intros Henv. unfold commandLine, session_commands, cd_command.
  assert (HF : Forall (fun k => plain k = true) (sort_strings (map_to_list env).*1)).
  { rewrite sort_strings_perm. apply Forall_forall. intros k Hk. apply list_elem_of_fmap in Hk as ([k' v] & -> & Hin%elem_of_map_to_list). by apply (Henv _ _ Hin). }
  destruct (String.eqb_spec (cm_Dir c) "") as [_|_].
  - change ("" +:+ ?r) with r. by rewrite sh_line_exports, sh_line_exec.
  - rewrite !string_app_assoc. change ("cd " +:+ ?r) with ("cd" +:+ " " +:+ r). rewrite sh_line_word, sh_line_quote by done.
    simpl default. rewrite sh_line_and, sh_line_exports, sh_line_exec by done. done.
Qed.

Definition demo_sshCommand : Command :=
  {| cm_Path := "/bin/bash"; cm_Args := ["-c"; "echo 'a  b'; rm $HOME"]; cm_Dir := "/home/it's me"; cm_User := "root"; cm_Stdin := "" |}.
Definition demo_sshEnv : gmap string string := {["B" := "$(x)"; "A" := "1 2"]}.

Lemma commandLine_words_witness :
  map_Forall (fun k _ => plain k = true) demo_sshEnv /\
  sh_line (commandLine demo_sshCommand demo_sshEnv) false None =
    Some [["cd"; "/home/it's me"]; ["export"; "A=1 2"]; ["export"; "B=$(x)"]; ["exec"; "/bin/bash"; "-c"; "echo 'a  b'; rm $HOME"]].
Proof.
  assert (H : map_Forall (fun k _ => plain k = true) demo_sshEnv) by (apply map_Forall_to_list; repeat constructor).
  split; [exact H|]. etransitivity; [exact (commandLine_words demo_sshCommand demo_sshEnv H)|vm_compute; reflexivity].
Defined.

(** ** The connection *)
Inductive HostKeyCallback := InsecureIgnoreHostKey | FixedHostKey (key : Z).
Definition hostKeyCallback (ParseAuthorizedKey : string -> result Z) (so : SSHOptions) : result HostKeyCallback :=
  let known := TrimSpace (so_KnownHostKey so) in
  if String.eqb known "" then Ok InsecureIgnoreHostKey
  else match ParseAuthorizedKey known with
       | Err e => Err (EWrap "parsing the profile's known host key" [e])
       | Ok key => Ok (FixedHostKey key)
       end.

Definition newSSHTransport (ParsePrivateKey : string -> option error) (so : SSHOptions) : option error :=
  if String.eqb (so_PrivateKey so) "" then Some (ENew "the ssh transport needs the profile's private key")
  else match ParsePrivateKey (so_PrivateKey so) with
       | Some e => Some (EWrap "parsing the profile's ssh private key" [e])
       | None => None
       end.

(** A call of dial that has passed its checks: the callback of its
    ClientConfig, and its proxy stream once that is open. *)
Record dialling := { dl_cb : HostKeyCallback; dl_stream : option Z }.

(** [st_dials] are the calls of dial in flight, [st_closing] the connection
    Close has taken and not closed yet; [st_cancelled] says that connCtx has
    ended, which ends the streams opened under it.  Two fields only record
    what happened: [st_shown] the host key the guest showed on a stream whose
    handshake succeeded, [st_overlap] whether two calls of dial were ever in
    flight together. *)
Record sshTransport := {
  st_client : option Z; st_closed : bool; st_cancelled : bool; st_closing : option Z; st_dials : gmap Z dialling; st_streams : gset Z;
  st_next : Z; st_shown : gmap Z Z; st_overlap : bool }.
#[export] Instance eta_sshTransport : Eta sshTransport :=
  fun r => {| st_client := st_client r; st_closed := st_closed r; st_cancelled := st_cancelled r; st_closing := st_closing r;
              st_dials := st_dials r; st_streams := st_streams r; st_next := st_next r; st_shown := st_shown r; st_overlap := st_overlap r |}.
Definition sshTransport0 : sshTransport :=
  {| st_client := None; st_closed := false; st_cancelled := false; st_closing := None; st_dials := ∅; st_streams := ∅; st_next := 0;
     st_shown := ∅; st_overlap := false |}.

Definition errClosed : error := ENew "ssh transport is closed".
Definition close_stream (c : Z) (t : sshTransport) : sshTransport := t <| st_streams := st_streams t ∖ {[c]} |>.
Definition dial_done (d : Z) (t : sshTransport) : sshTransport := t <| st_dials := delete d (st_dials t) |>.

(** dial, up to the call of SSHProxy: it has the client, fails, or goes on. *)
Inductive dial_begun := DialErr (e : error) | DialClient (c : Z) | DialOpen (cb : HostKeyCallback).
Definition dial_begin (ParsePrivateKey : string -> option error) (ParseAuthorizedKey : string -> result Z) (so : SSHOptions)
    (t : sshTransport) : dial_begun :=
  if st_closed t then DialErr errClosed
  else match st_client t with
       | Some c => DialClient c
       | None =>
           match ParsePrivateKey (so_PrivateKey so) with
           | Some e => DialErr (EWrap "parsing the profile's ssh private key" [e])
           | None => match hostKeyCallback ParseAuthorizedKey so with Err e => DialErr e | Ok cb => DialOpen cb end
           end
       end.
Definition dial_open (d : Z) (cb : HostKeyCallback) (answer : option error) (t : sshTransport) : sshTransport * option error :=
  match answer with
  | Some e => (dial_done d t, Some (streamFailure "opening the ssh proxy stream" (Some e)))
  | None => let c := st_next t in
            (t <| st_next := c + 1 |> <| st_streams := {[c]} ∪ st_streams t |> <| st_dials := <[d := {| dl_cb := cb; dl_stream := Some c |}]> (st_dials t) |>, None)
  end.
(** What NewClientConn answered, with the key the guest had shown. *)
Definition dial_result (d : Z) (c : Z) (key : Z) (r : option error) (t : sshTransport) : sshTransport * result Z :=
  let t := dial_done d t in
  match r with
  | Some e => (close_stream c t, Err (streamFailure "ssh handshake" (Some e)))
  | None => if st_closed t then (close_stream c t, Err errClosed)
            else (t <| st_client := Some c |> <| st_shown := <[c := key]> (st_shown t) |>, Ok c)
  end.
Definition dial_cancelled (ctxErr : sentinel) (d c : Z) (t : sshTransport) : sshTransport * result Z :=
  (close_stream c (dial_done d t), Err (EWrap "ssh handshake cancelled" [EWrap "" [ESentinel ctxErr; ESentinel ErrStreamFailed]])).

(** Close: under the lock, and after it. *)
Definition ssh_Close_begin (t : sshTransport) : sshTransport :=
  if st_closed t then t else t <| st_closed := true |> <| st_closing := st_client t |> <| st_client := None |>.
Definition ssh_Close_end (t : sshTransport) : sshTransport :=
  let t := match st_closing t with Some c => close_stream c t | None => t end in
  t <| st_closing := None |> <| st_cancelled := true |> <| st_streams := ∅ |>.

(** Calls of dial, each with a number of its own, and Close, in any order.  A
    stream that is opened under a context that has ended is refused. *)
Inductive ssh_input :=
  | SBegin (d : Z)
  | SOpen (d : Z) (answer : option error)
  | SResult (d : Z) (key : Z) (peer : nat)
  | SCtxDone (d : Z) (err : sentinel)
  | SClose | SCloseEnd.

Section Connection.
(** golang.org/x/crypto/ssh: the parsers of keys, and NewClientConn with the
    callback of its ClientConfig, the key the guest shows and whatever else
    the guest does.  It returns no error only if the callback accepted the
    key, and FixedHostKey accepts only its key. *)
Context (ParsePrivateKey : string -> option error) (ParseAuthorizedKey : string -> result Z)
        (NewClientConn : HostKeyCallback -> Z -> nat -> option error) (so : SSHOptions).
Hypothesis NewClientConn_verifies : forall k key peer, NewClientConn (FixedHostKey k) key peer = None -> key = k.

Definition ssh_step (i : ssh_input) (t : sshTransport) : option sshTransport :=
  match i with
  | SBegin d =>
      match st_dials t !! d, dial_begin ParsePrivateKey ParseAuthorizedKey so t with
      | Some _, _ => None
      | None, DialOpen cb => Some (t <| st_dials := <[d := {| dl_cb := cb; dl_stream := None |}]> (st_dials t) |>
                                     <| st_overlap := st_overlap t || negb (bool_decide (st_dials t = ∅)) |>)
      | None, _ => Some t
      end
  | SOpen d answer =>
      match st_dials t !! d with
      | Some {| dl_cb := cb; dl_stream := None |} =>
          if st_cancelled t && match answer with None => true | _ => false end then None else Some (dial_open d cb answer t).1
      | _ => None
      end
  | SResult d key peer =>
      match st_dials t !! d with
      | Some {| dl_cb := cb; dl_stream := Some c |} => Some (dial_result d c key (NewClientConn cb key peer) t).1
      | _ => None
      end
  | SCtxDone d err => match st_dials t !! d with Some {| dl_stream := Some c |} => Some (dial_cancelled err d c t).1 | _ => None end
  | SClose => Some (ssh_Close_begin t)
  | SCloseEnd => if st_closed t && negb (st_cancelled t) then Some (ssh_Close_end t) else None
  end.
Fixpoint ssh_run (ins : list ssh_input) (t : sshTransport) : option sshTransport :=
  match ins with [] => Some t | i :: ins => t ← ssh_step i t; ssh_run ins t end.

(** The key of a connection that is kept is the Profile's, if it names one. *)
Definition key_verified (key : Z) : Prop :=
  TrimSpace (so_KnownHostKey so) <> "" -> ParseAuthorizedKey (TrimSpace (so_KnownHostKey so)) = Ok key.

Definition opt_set (o : option Z) : gset Z := match o with Some c => {[c]} | None => ∅ end.
Record TInv (t : sshTransport) : Prop := {
  ti_client : forall c, st_client t = Some c -> c ∈ st_streams t /\ st_closed t = false /\ exists key, st_shown t !! c = Some key /\ key_verified key;
  ti_cb : forall d x, st_dials t !! d = Some x -> hostKeyCallback ParseAuthorizedKey so = Ok (dl_cb x);
  ti_dials : forall d x c, st_dials t !! d = Some x -> dl_stream x = Some c ->
    (c ∈ st_streams t \/ st_cancelled t = true) /\ c < st_next t /\ st_client t <> Some c /\ st_closing t <> Some c;
  ti_distinct : forall d1 d2 x1 x2 c, st_dials t !! d1 = Some x1 -> st_dials t !! d2 = Some x2 -> dl_stream x1 = Some c -> dl_stream x2 = Some c -> d1 = d2;
  ti_next : forall c, st_client t = Some c \/ st_closing t = Some c -> c < st_next t;
  ti_closing : forall c, st_closing t = Some c -> st_closed t = true;
  ti_cancelled : st_cancelled t = true -> st_closed t = true /\ st_streams t = ∅ /\ st_closing t = None }.

(** While calls of dial do not overlap: the one in flight, if any, and every
    stream. *)
Definition one_dial (t : sshTransport) : Prop :=
  (st_dials t = ∅ /\ st_streams t ⊆ opt_set (st_client t) ∪ opt_set (st_closing t))
  \/ (exists d x, st_dials t = {[d := x]} /\ st_client t = None /\ st_closing t = None /\ st_streams t ⊆ opt_set (dl_stream x)).

Lemma TInv0 : TInv sshTransport0.
Proof. split; simpl; try done. by intros ? [|]. Qed.

Lemma delete_other (m : gmap Z dialling) d e x : delete d m !! e = Some x -> e <> d /\ m !! e = Some x.
Proof. intros [??]%lookup_delete_Some. done. Qed.

(** A call of dial ends without a client. *)
Lemma dial_over t d x c : TInv t -> st_dials t !! d = Some x -> dl_stream x = Some c -> TInv (close_stream c (dial_done d t)).
Proof.
  intros [I1 I2 I3 I4 I5 I6 I7] Hd Hc. destruct (I3 d x c Hd Hc) as (_ & _ & Hcl & _). split; simpl; try done.
  - intros c' E. destruct (I1 c' E) as (? & ? & ?). split_and!; try done. apply elem_of_difference. split; [done|]. intros ->%elem_of_singleton. done.
  - intros e y [_ He]%delete_other. by apply (I2 e).
  - intros e y c' [Hne He]%delete_other Hy. destruct (I3 e y c' He Hy) as ([Hin|Hx] & ?); (split; [|done]); [left|by right].
    apply elem_of_difference. split; [done|]. intros ->%elem_of_singleton. apply Hne. by eapply I4.
  - intros e1 e2 y1 y2 c' [_ H1]%delete_other [_ H2]%delete_other. by apply I4.
  - intros Hx. destruct (I7 Hx) as (? & -> & ?). split_and!; [done| |done]. set_solver.
Qed.
Lemma dial_over_none t d : TInv t -> TInv (dial_done d t).
Proof.
  intros [I1 I2 I3 I4 I5 I6 I7]. split; simpl; try done.
  - intros e y [_ He]%delete_other. by apply (I2 e).
  - intros e y c' [_ He]%delete_other. by apply (I3 e).
  - intros e1 e2 y1 y2 c' [_ H1]%delete_other [_ H2]%delete_other. by apply I4.
Qed.

(** A call of dial gets its stream. *)
Lemma dial_opened t d cb : TInv t -> st_dials t !! d = Some {| dl_cb := cb; dl_stream := None |} -> st_cancelled t = false -> TInv (dial_open d cb None t).1.
Proof.
  intros [I1 I2 I3 I4 I5 I6 I7] Hd Hx. simpl. split; simpl; try done.
  - intros c E. destruct (I1 c E) as (? & ?). split; [set_solver|done].
  - intros e y. rewrite lookup_insert_Some. intros [[<- <-]|[_ He]]; [by apply (I2 d _ Hd)|by apply (I2 e)].
  - intros e y c. rewrite lookup_insert_Some. intros [[<- <-]|[_ He]]; simpl.
    + intros [= <-]. split; [left; set_solver|]. split; [lia|]. split; intros E; assert (st_next t < st_next t) by (apply I5; auto); lia.
    + intros Hy. destruct (I3 e y c He Hy) as (Hs & ? & ?). split; [destruct Hs; [left; set_solver|by right]|]. split; [lia|done].
  - intros e1 e2 y1 y2 c. rewrite !lookup_insert_Some. intros [[<- <-]|[Hn1 H1]] [[<- <-]|[Hn2 H2]]; simpl; try done.
    + intros [= <-] Hy. destruct (I3 e2 y2 _ H2 Hy) as (_ & ? & _). lia.
    + intros Hy [= <-]. destruct (I3 e1 y1 _ H1 Hy) as (_ & ? & _). lia.
    + by apply I4.
  - intros c Hc. specialize (I5 c Hc). lia.
  - intros E. by rewrite Hx in E.
Qed.

(** The handshake is done and its connection kept. *)
Lemma dial_kept t d x c key : TInv t -> st_dials t !! d = Some x -> dl_stream x = Some c -> st_closed t = false -> key_verified key ->
  TInv (dial_done d t <| st_client := Some c |> <| st_shown := <[c := key]> (st_shown t) |>).
Proof.
  intros [I1 I2 I3 I4 I5 I6 I7] Hd Hc Hcl Hk. destruct (I3 d x c Hd Hc) as (Hs & Hlt & Hne & Hng).
  assert (Hnx : st_cancelled t = false) by (destruct (st_cancelled t); [by destruct (I7 eq_refl) as [E _]; rewrite Hcl in E|done]).
  split; simpl; try done.
  - intros c' [= <-]. split; [by destruct Hs as [?|Hx]; [|rewrite Hnx in Hx]|]. split; [done|]. exists key. by rewrite lookup_insert_eq.
  - intros e y [_ He]%delete_other. by apply (I2 e).
  - intros e y c' [Hn He]%delete_other Hy. destruct (I3 e y c' He Hy) as (? & ? & ? & ?). split_and!; try done. intros [= <-]. apply Hn. by eapply I4.
  - intros e1 e2 y1 y2 c' [_ H1]%delete_other [_ H2]%delete_other. by apply I4.
  - intros c' [[= <-]|E]; [done|]. apply I5. by right.
Qed.

Lemma hostKey_verifies cb key peer : hostKeyCallback ParseAuthorizedKey so = Ok cb -> NewClientConn cb key peer = None -> key_verified key.
Proof.
  unfold hostKeyCallback, key_verified. destruct (String.eqb_spec (TrimSpace (so_KnownHostKey so)) ""); [done|].
  destruct (ParseAuthorizedKey _) as [k|]; [|done]. intros [= <-] Hn _. by rewrite (NewClientConn_verifies _ _ _ Hn).
Qed.

Lemma ssh_step_inv i t t' : TInv t -> ssh_step i t = Some t' -> TInv t'.
Proof.
  intros HI. destruct i as [d|d answer|d key peer|d err| |]; simpl; intros H.
  - destruct (st_dials t !! d) eqn:Hd; [done|]. destruct (dial_begin _ _ _ t) as [| |cb] eqn:Hb; [by injection H as <-..|]. injection H as <-.
    assert (Hcb : hostKeyCallback ParseAuthorizedKey so = Ok cb).
    { unfold dial_begin in Hb. destruct (st_closed t); [done|]. destruct (st_client t); [done|]. destruct (ParsePrivateKey _); [done|]. destruct (hostKeyCallback _ _); [by injection Hb as ->|done]. }
    destruct HI as [I1 I2 I3 I4 I5 I6 I7]. split; simpl; try done.
    + intros e y. rewrite lookup_insert_Some. intros [[_ <-]|[_ He]]; [done|by apply (I2 e)].
    + intros e y c. rewrite lookup_insert_Some. intros [[_ <-]|[_ He]]; [done|by apply (I3 e)].
    + intros e1 e2 y1 y2 c. rewrite !lookup_insert_Some. intros [[_ <-]|[_ H1]] [[_ <-]|[_ H2]]; try done. by apply I4.
  - destruct (st_dials t !! d) as [[cb [c|]]|] eqn:Hd; try done. destruct answer as [e|]; simpl in H.
    + rewrite andb_false_r in H. injection H as <-. by apply dial_over_none.
    + rewrite andb_true_r in H. destruct (st_cancelled t) eqn:Hx; [done|]. injection H as <-. by apply dial_opened.
  - destruct (st_dials t !! d) as [[cb [c|]]|] eqn:Hd; try done. injection H as <-. unfold dial_result.
    destruct (NewClientConn cb key peer) eqn:Hn; [by eapply dial_over|]. simpl. destruct (st_closed t) eqn:Hc; [by eapply dial_over|].
    eapply dial_kept; try done. eapply hostKey_verifies; [by apply (ti_cb t HI d _ Hd)|done].
  - destruct (st_dials t !! d) as [[cb [c|]]|] eqn:Hd; try done. injection H as <-. by eapply dial_over.
  - injection H as <-. unfold ssh_Close_begin. destruct (st_closed t) eqn:Hc; [done|]. destruct HI as [I1 I2 I3 I4 I5 I6 I7]. split; simpl; try done.
    + intros d x c Hd Hx. destruct (I3 d x c Hd Hx) as (? & ? & ? & ?). by split_and!.
    + intros c [?|E]; [done|]. apply I5. by left.
    + intros Hx. destruct (I7 Hx) as [E _]. by rewrite Hc in E.
  - destruct (st_closed t) eqn:Hc; [|done]. destruct (st_cancelled t) eqn:Hx; [done|]. injection H as <-. destruct HI as [I1 I2 I3 I4 I5 I6 I7].
    assert (Hcl : st_client t = None) by (destruct (st_client t) as [c|]; [by destruct (I1 c eq_refl) as (_ & E & _); rewrite Hc in E|done]).
    unfold ssh_Close_end. destruct (st_closing t); (split; simpl; rewrite ?Hcl; try done).
    1,3: intros d x c' Hd Hy; destruct (I3 d x c' Hd Hy) as (_ & ? & _); split; [by right|by split_and!].
    1,2: by intros ? [|].
Qed.

Lemma one_dial_step i t t' : TInv t -> (st_overlap t = false -> one_dial t) -> ssh_step i t = Some t' -> st_overlap t' = false -> one_dial t'.
Proof.
  intros HI Hone. destruct i as [d|d answer|d key peer|d err| |]; simpl; intros H Ho.
  - destruct (st_dials t !! d) eqn:Hd; [done|]. destruct (dial_begin _ _ _ t) as [| |cb] eqn:Hb; [by injection H as <-; apply Hone..|]. injection H as <-.
    simpl in Ho. apply orb_false_iff in Ho as [Ho He]. apply negb_false_iff, bool_decide_eq_true in He.
    destruct (Hone Ho) as [[_ Hs]|(d' & x & E & _)]; [|rewrite He in E; by apply (f_equal (lookup d')) in E; rewrite lookup_empty, lookup_singleton_eq in E].
    right. exists d, {| dl_cb := cb; dl_stream := None |}. simpl. rewrite He, insert_empty. unfold dial_begin in Hb.
    destruct (st_closed t) eqn:Hc; [done|]. destruct (st_client t); [done|].
    assert (Hg : st_closing t = None) by (destruct (st_closing t) as [c|] eqn:E; [by rewrite (ti_closing t HI c E) in Hc|done]).
    rewrite Hg in *. simpl in Hs. split_and!; try done.
  - destruct (st_dials t !! d) as [[cb [c|]]|] eqn:Hd; try done.
    assert (Hsing : st_overlap t = false -> st_dials t = {[d := {| dl_cb := cb; dl_stream := None |}]} /\ st_client t = None /\ st_closing t = None /\ st_streams t = ∅).
    { intros Ho'. destruct (Hone Ho') as [[E _]|(d' & x & E & Hr)]; rewrite E in Hd; [done|]. apply lookup_singleton_Some in Hd as [-> ->].
      destruct Hr as (? & ? & Hs). split_and!; try done. apply leibniz_equiv. clear -Hs. simpl in Hs. set_solver. }
    destruct answer as [e|]; simpl in H; [rewrite andb_false_r in H|rewrite andb_true_r in H; destruct (st_cancelled t); [done|]]; injection H as <-;
      destruct (Hsing Ho) as (E & H1 & H2 & H3).
    + left. simpl. rewrite E, H3. split; [by rewrite delete_singleton_eq|set_solver].
    + right. exists d, {| dl_cb := cb; dl_stream := Some (st_next t) |}. simpl. rewrite E, H3, insert_singleton_eq. split_and!; try done. set_solver.
  - destruct (st_dials t !! d) as [[cb [c|]]|] eqn:Hd; try done. injection H as <-.
    assert (Ho' : st_overlap t = false) by (revert Ho; unfold dial_result; by destruct (NewClientConn cb key peer); [|destruct (st_closed _)]).
    destruct (Hone Ho') as [[E _]|(d' & x & E & H1 & H2 & Hs)]; rewrite E in Hd; [done|]. apply lookup_singleton_Some in Hd as [-> ->]. simpl in Hs.
    unfold dial_result. destruct (NewClientConn cb key peer); [|simpl; destruct (st_closed t)]; left; simpl; rewrite E, delete_singleton_eq, ?H1, ?H2; (split; [done|]); clear -Hs; set_solver.
  - destruct (st_dials t !! d) as [[cb [c|]]|] eqn:Hd; try done. injection H as <-.
    destruct (Hone Ho) as [[E _]|(d' & x & E & H1 & H2 & Hs)]; rewrite E in Hd; [done|]. apply lookup_singleton_Some in Hd as [-> ->]. simpl in Hs.
    left. simpl. rewrite E, delete_singleton_eq, H1, H2. split; [done|]. clear -Hs. set_solver.
  - injection H as <-. revert Ho. unfold ssh_Close_begin. destruct (st_closed t) eqn:Hc; [done|]. simpl. intros Ho.
    assert (Hg : st_closing t = None) by (destruct (st_closing t) as [c|] eqn:E; [by rewrite (ti_closing t HI c E) in Hc|done]).
    destruct (Hone Ho) as [[E Hs]|(d' & x & E & H1 & H2 & Hs)]; [left|right; exists d', x]; simpl.
    + split; [done|]. rewrite Hg in Hs. clear -Hs. set_solver.
    + by rewrite H1.
  - destruct (st_closed t); [|done]. destruct (st_cancelled t); [done|]. injection H as <-.
    assert (Ho' : st_overlap t = false) by (revert Ho; unfold ssh_Close_end; by destruct (st_closing t)).
    unfold ssh_Close_end. destruct (Hone Ho') as [[E Hs]|(d' & x & E & H1 & H2 & Hs)].
    + left. destruct (st_closing t); simpl; (split; [done|]); clear; set_solver.
    + right. exists d', x. rewrite H2. simpl. rewrite H1. by split_and!.
Qed.

Lemma ssh_run_inv ins t t' : TInv t -> (st_overlap t = false -> one_dial t) -> ssh_run ins t = Some t' -> TInv t' /\ (st_overlap t' = false -> one_dial t').
Proof.
  revert t. induction ins as [|i ins IH]; intros t HI Ho; simpl; [by intros [= <-]|]. destruct (ssh_step i t) as [t1|] eqn:E; [|done].
  simpl. apply IH; [by apply (ssh_step_inv i t)|]. intros H1. by eapply one_dial_step.
Qed.

(** C33: one connection per transport, and none after Close.  However calls of
    dial, the answers of the Host and the guest, cancellations and Close
    interleave: the client that operations reuse is on an open stream, and
    where the Profile names a known host key the guest showed exactly that
    key on it; once Close has returned no stream is open and every dial is
    refused, also for a handshake that was in flight; and while the calls of
    dial of a transport do not overlap, at most one proxy stream is open. *)
Theorem ssh_connections ins t :
  ssh_run ins sshTransport0 = Some t ->
  (forall c, st_client t = Some c -> c ∈ st_streams t /\ st_closed t = false /\ exists key, st_shown t !! c = Some key
     /\ (TrimSpace (so_KnownHostKey so) <> "" -> ParseAuthorizedKey (TrimSpace (so_KnownHostKey so)) = Ok key))
  /\ (st_cancelled t = true -> st_streams t = ∅ /\ st_client t = None
      /\ dial_begin ParsePrivateKey ParseAuthorizedKey so t = DialErr errClosed)
  /\ (st_overlap t = false -> (size (st_streams t) <= 1)%nat).
Proof.
  intros HR. destruct (ssh_run_inv ins _ _ TInv0 ltac:(intros _; left; split; [done|clear; set_solver]) HR) as [HI Hone]. split_and!.
  - apply (ti_client t HI).
  - intros Hx. destruct (ti_cancelled t HI Hx) as (Hc & Hs & _). split_and!; [done| |].
    + destruct (st_client t) as [c|] eqn:E; [|done]. destruct (ti_client t HI c E) as (_ & E' & _). by rewrite Hc in E'.
    + unfold dial_begin. by rewrite Hc.
  - intros Ho. assert (Hex : exists c : Z, st_streams t ⊆ {[c]}).
    { destruct (Hone Ho) as [[_ Hs]|(d & x & _ & _ & _ & Hs)].
      - destruct (st_client t) as [c|] eqn:Hc.
        + destruct (ti_client t HI c Hc) as (_ & Hcl & _).
          assert (Hg : st_closing t = None) by (destruct (st_closing t) as [c'|] eqn:E; [by rewrite (ti_closing t HI c' E) in Hcl|done]).
          rewrite Hg in Hs. exists c. clear -Hs. set_solver.
        + destruct (st_closing t) as [c|]; [exists c|exists 0]; clear -Hs; set_solver.
      - destruct (dl_stream x) as [c|]; [exists c|exists 0]; clear -Hs; set_solver. }
    destruct Hex as [c Hc]. apply subseteq_size in Hc. by rewrite size_singleton in Hc.
Qed.
End Connection.

Definition demo_sshOptions : SSHOptions := {| so_User := "ci"; so_PrivateKey := "key"; so_KnownHostKey := "ssh-ed25519 AAAA" |}.
(** A library whose handshake compares the keys and then does what the guest
    does. *)
Definition demo_NewClientConn (cb : HostKeyCallback) (key : Z) (peer : nat) : option error :=
  match cb with FixedHostKey k => if negb (k =? key) then Some (ENew "ssh: host key mismatch") else if Nat.eqb peer 0 then None else Some (ENew "ssh: unable to authenticate")
              | InsecureIgnoreHostKey => if Nat.eqb peer 0 then None else Some (ENew "ssh: unable to authenticate") end.
Definition demo_ssh_run : list ssh_input -> sshTransport -> option sshTransport :=
  ssh_run (fun _ => None) (fun _ => Ok 7) demo_NewClientConn demo_sshOptions.
(** A first dial is cancelled, a second one meets another guest, a third one
    connects, and Close ends it. *)
Lemma ssh_connections_witness :
  let ins := [SBegin 0; SOpen 0 None; SCtxDone 0 CtxCanceled; SBegin 1; SOpen 1 None; SResult 1 8 0; SBegin 2; SOpen 2 None; SResult 2 7 0] in
  exists t1 t2, demo_ssh_run ins sshTransport0 = Some t1 /\ st_client t1 = Some 2 /\ st_shown t1 !! 2 = Some 7 /\ (size (st_streams t1) <= 1)%nat
    /\ demo_ssh_run (ins ++ [SClose; SCloseEnd]) sshTransport0 = Some t2 /\ st_streams t2 = ∅.
Proof.
  intros ins.
  assert (HV : forall k key peer, demo_NewClientConn (FixedHostKey k) key peer = None -> key = k).
  { intros k key peer. simpl. destruct (Z.eqb_spec k key); [intros _; symmetry; assumption|discriminate]. }
  set (r := demo_ssh_run ins sshTransport0). assert (HR : demo_ssh_run ins sshTransport0 = r) by reflexivity.
  set (r2 := demo_ssh_run (ins ++ [SClose; SCloseEnd]) sshTransport0). assert (HR2 : demo_ssh_run (ins ++ [SClose; SCloseEnd]) sshTransport0 = r2) by reflexivity.
  assert (H : match r with Some t => st_client t = Some 2 /\ st_shown t !! 2 = Some 7 /\ st_overlap t = false | None => False end) by (vm_compute; repeat split; reflexivity).
  assert (H2 : match r2 with Some t => st_cancelled t = true | None => False end) by (vm_compute; reflexivity).
  clearbody r r2. destruct r as [t1|]; [|done]. destruct r2 as [t2|]; [|done]. destruct H as (Hc & Hk & Ho). exists t1, t2. split_and!; try assumption; try reflexivity.
  - destruct (ssh_connections _ _ _ _ HV ins t1 HR) as (_ & _ & Hs). apply Hs. exact Ho.
  - destruct (ssh_connections _ _ _ _ HV _ t2 HR2) as (_ & Hs & _). apply Hs. exact H2.
Defined.

(** Two calls of dial that overlap both connect: the second client replaces
    the first, whose stream stays open until Close cancels it. *)
Example overlapping_dials_leak :
  match demo_ssh_run [SBegin 0; SBegin 1; SOpen 0 None; SOpen 1 None; SResult 0 7 0; SResult 1 7 0] sshTransport0 with
  | Some t => (st_client t, elements (st_streams t)) = (Some 1, [0; 1]) \/ (st_client t, elements (st_streams t)) = (Some 1, [1; 0])
  | None => False
  end.
Proof. vm_compute. auto. Qed.

(** ** Run and Ready

    The answers of an operation: what dial returned, what the watch had
    recorded and what ctx.Err was when they were asked. *)
Inductive session_end := SessionOK | SessionExit (status : Z) | SessionErr (e : error).
Record ssh_env := {
  se_dial : result Z; se_dialWatch : option error; se_session : option error; se_run : session_end;
  se_watch : option error; se_ctxErr : option sentinel }.

(** [session.Run] waits for the command and returns nil for status 0, an
    [*ssh.ExitError] for another one. *)
Definition ssh_Run (se : ssh_env) (c : Command) : Z * option error :=
  if String.eqb (cm_Path c) "" then (-1, Some (ENew "command has no path"))
  else match se_dial se with
       | Err e => (-1, Some match se_dialWatch se with
                            | Some unreachable => streamFailure "host stopped answering" (Some unreachable)
                            | None => e
                            end)
       | Ok _ =>
           match se_session se with
           | Some e => (-1, Some (streamFailure "opening ssh session" (Some e)))
           | None =>
               match se_run se with
               | SessionOK => (0, None)
               | SessionExit status => (status, None)
               | SessionErr runErr =>
                   match se_watch se with
                   | Some unreachable => (-1, Some (streamFailure "host stopped answering" (Some unreachable)))
                   | None => match se_ctxErr se with
                             | Some err => (-1, Some (EWrap "ssh session cancelled" [EWrap "" [ESentinel err; ESentinel ErrStreamFailed]]))
                             | None => (-1, Some (streamFailure "ssh session failed before the exit status" (Some runErr)))
                             end
                   end
               end
           end
       end.

Definition ssh_Ready (se : ssh_env) : option error :=
  match ssh_Run se {| cm_Path := readyCommand; cm_Args := []; cm_Dir := ""; cm_User := ""; cm_Stdin := "" |} with
  | (_, Some err) => Some (EWrap "microvm is not ready" [EWrap "" [ESentinel ErrNotReady; err]])
  | (status, None) => if status =? 0 then None else Some (EWrap "readiness command exited" [ESentinel ErrNotReady])
  end.

(** ** What every Guest Transport promises (transport.Transport.Run)

    An operation's answers [A], the result it gives, and the exit status the
    guest reported in them, if it did. *)
Class GuestTransport {A : Type} (run : A -> Z * option error) (reported : A -> option Z) : Prop := {
  gt_status : forall a s, run a = (s, None) -> reported a = Some s;
  gt_unknown : forall a s e, run a = (s, Some e) -> s = -1 }.

Definition exec_result (a : exchange_env * ExecStart * option (list string * option error)) : Z * option error :=
  let '(xe, start, stdin) := a in let '(_, _, status, err) := exchange xe start stdin in (status, err).
Definition exec_reported (a : exchange_env * ExecStart * option (list string * option error)) : option Z :=
  head (omap (fun m => match m with RespExitCode code => Some code | _ => None end) (xe_msgs a.1.1)).
Definition ssh_result (a : ssh_env * Command) : Z * option error := ssh_Run a.1 a.2.
Definition ssh_reported (a : ssh_env * Command) : option Z :=
  match se_run a.1 with SessionOK => Some 0 | SessionExit s => Some s | SessionErr _ => None end.

#[export] Instance exec_GuestTransport : GuestTransport exec_result exec_reported.
Proof.
  split; intros [[xe start] stdin] s; unfold exec_result, exec_reported; simpl.
  - pose proof (exchange_spec xe start stdin) as H. destruct (exchange xe start stdin) as [[[reqs out] st] [e|]]; [done|]. intros [= <-].
    destruct H as (pre & post & -> & HF & _). rewrite omap_app. replace (omap _ pre) with (@nil Z); [done|].
    symmetry. clear -HF. induction HF as [|m pre Hm HF IH]; [done|]. by destruct m.
  - intros e. pose proof (exchange_spec xe start stdin) as H. destruct (exchange xe start stdin) as [[[reqs out] st] [e'|]]; [|done]. intros [= <- <-]. by destruct H.
Qed.
#[export] Instance ssh_GuestTransport : GuestTransport ssh_result ssh_reported.
Proof.
  split; intros [se c] s; unfold ssh_result, ssh_reported, ssh_Run; simpl; [|intros e];
    repeat case_match; intros [= <-]; try done.
Qed.

(** C5: the verdict on a Stage is the guest's.  Over any Guest Transport that
    keeps its promise, exec and ssh among them, Run reports success only if
    the guest reported the exit status 0.  Either the Stage's context had
    ended by the time Run returns, and Run returns the context's cause; or a
    script_failure carries the non-zero status the guest reported, and a Stage
    of which the guest reported none is a runner_system_failure. *)
Theorem stage_verdict {A} (run : A -> Z * option error) reported `{!GuestTransport run reported} p NormalizeExitCode re args stage script e e' res t h pr a tf :
  ex_tr e = Some t -> ex_handle e = Some h -> ex_profile e = Some pr -> ex_failedStages e !! stage = None -> 0 <= re_wake re ->
  re_fin re = Some (tf, {| sr_status := (run a).1; sr_err := (run a).2 |}) ->
  Run p NormalizeExitCode re args stage script e = Some (e', res) ->
  (res = None -> reported a = Some 0)
  /\ ((exists en, cx_end (stage_ctx re) = Some en /\ en_at en <= ex_now e' /\ res = Some (stageCancelled (stage_ctx re)))
      \/ ((forall inner code, res = Some (XBuild inner ScriptFailure code) -> exists s, reported a = Some s /\ s <> 0 /\ code = NormalizeExitCode s)
          /\ (reported a = None -> exists err, res = Some err /\ reason_of err = Some RunnerSystemFailure))).
Proof.
  intros Ht Hh Hp Hs Hw Hfin HR.
  destruct (Run_ends p NormalizeExitCode re args stage script e e' res t h pr Ht Hh Hp Hs Hw HR) as [(en & He & Hat & -> & _)|(tf' & r & Hf & _ & -> & _)].
  - split; [done|]. left. by exists en.
  - rewrite Hfin in Hf. injection Hf as _ <-. destruct (run a) as [s [e0|]] eqn:Hrun; cbn [fst snd] in *.
    + apply gt_unknown in Hrun as ->. unfold stage_report. simpl.
      destruct (re_CheckLease re); simpl; (split; [done|]; right; split; [done|]; by eexists).
    + apply gt_status in Hrun. rewrite Hrun. unfold stage_report. simpl. destruct (Z.eqb_spec s 0) as [->|Hne]; [by split; [|right]|].
      split; [by destruct (re_CheckLease re); [case_match|]|].
      right. split; [|done]. intros inner code. destruct (re_CheckLease re); [case_match|]; simpl; intros [= <- <-]; by exists s.
Qed.

Definition demo_sshRun (how : session_end) : ssh_env * Command :=
  ({| se_dial := Ok 0; se_dialWatch := None; se_session := None; se_run := how; se_watch := None; se_ctxErr := None |}, demo_sshCommand).
Definition demo_sshStage (how : session_end) : run_env :=
  demo_runStage {| sr_status := (ssh_result (demo_sshRun how)).1; sr_err := (ssh_result (demo_sshRun how)).2 |}.
(** A script that passes, one that exits 3, and a session that breaks. *)
Lemma stage_verdict_witness : exists e,
  do_calls demo_provider demo_Is (fun z => z) [CPrepare demo_build demo_prepare] (Create 0 []) = Some e
  /\ (forall e', Run demo_provider (fun z => z) (demo_sshStage SessionOK) [] "build_script" "make" e = Some (e', None) -> ssh_reported (demo_sshRun SessionOK) = Some 0)
  /\ (exists e' inner, Run demo_provider (fun z => z) (demo_sshStage (SessionExit 3)) [] "build_script" "make" e = Some (e', Some (XBuild inner ScriptFailure 3))
       /\ exists s, ssh_reported (demo_sshRun (SessionExit 3)) = Some s /\ s <> 0 /\ 3 = s)
  /\ (exists e' err, Run demo_provider (fun z => z) (demo_sshStage (SessionErr (ENew "reset"))) [] "build_script" "make" e = Some (e', Some err)
       /\ reason_of err = Some RunnerSystemFailure).
Proof.
  set (e := default (Create 0 []) (do_calls demo_provider demo_Is (fun z => z) [CPrepare demo_build demo_prepare] (Create 0 []))).
  assert (HD : do_calls demo_provider demo_Is (fun z => z) [CPrepare demo_build demo_prepare] (Create 0 []) = Some e) by (vm_compute; reflexivity).
  set (r3 := Run demo_provider (fun z => z) (demo_sshStage (SessionExit 3)) [] "build_script" "make" e).
  set (rx := Run demo_provider (fun z => z) (demo_sshStage (SessionErr (ENew "reset"))) [] "build_script" "make" e).
  assert (H3 : match r3 with Some (e', Some (XBuild _ ScriptFailure 3)) => ex_now e' < 50 * second | _ => False end) by (vm_compute; reflexivity).
  assert (Hx : match rx with Some (e', Some _) => ex_now e' < 50 * second | _ => False end) by (vm_compute; reflexivity).
  assert (HR3 : Run demo_provider (fun z => z) (demo_sshStage (SessionExit 3)) [] "build_script" "make" e = r3) by reflexivity.
  assert (HRx : Run demo_provider (fun z => z) (demo_sshStage (SessionErr (ENew "reset"))) [] "build_script" "make" e = rx) by reflexivity.
  assert (Ht : ex_tr e = Some 3) by (vm_compute; reflexivity).
  assert (Hh : ex_handle e = Some {| h_id := 1; h_alloc := demo_allocation |}) by (vm_compute; reflexivity).
  assert (Hp : ex_profile e = Some demo_jobProfile) by (vm_compute; reflexivity).
  assert (Hs : ex_failedStages e !! "build_script" = None) by (vm_compute; reflexivity).
  assert (Hctx : forall how en, cx_end (stage_ctx (demo_sshStage how)) = Some en -> 50 * second < en_at en).
  { intros how en H. vm_compute in H. injection H as <-. vm_compute. reflexivity. }
  clearbody e r3 rx. exists e. split; [exact HD|]. split; [|split].
  - intros e' HR. destruct (stage_verdict ssh_result ssh_reported demo_provider (fun z => z) (demo_sshStage SessionOK) [] "build_script" "make" e e' None 3
      {| h_id := 1; h_alloc := demo_allocation |} demo_jobProfile (demo_sshRun SessionOK) _ Ht Hh Hp Hs ltac:(vm_compute; discriminate) eq_refl HR) as [V _].
    apply V. reflexivity.
  - destruct r3 as [[e' [[| |inner [] code]|]]|]; try (exfalso; exact H3). destruct code as [|[[]| |]|]; try (exfalso; exact H3). exists e', inner. split; [exact HR3|].
    destruct (stage_verdict ssh_result ssh_reported demo_provider (fun z => z) (demo_sshStage (SessionExit 3)) [] "build_script" "make" e e' _ 3
      {| h_id := 1; h_alloc := demo_allocation |} demo_jobProfile (demo_sshRun (SessionExit 3)) _ Ht Hh Hp Hs ltac:(vm_compute; discriminate) eq_refl HR3) as [_ [(en & He & Hle & _)|[V _]]].
    + exfalso. apply Hctx in He. lia.
    + exact (V inner 3 eq_refl).
  - destruct rx as [[e' [err|]]|]; [|destruct Hx..]. exists e', err. split; [exact HRx|].
    destruct (stage_verdict ssh_result ssh_reported demo_provider (fun z => z) (demo_sshStage (SessionErr (ENew "reset"))) [] "build_script" "make" e e' _ 3
      {| h_id := 1; h_alloc := demo_allocation |} demo_jobProfile (demo_sshRun (SessionErr (ENew "reset"))) _ Ht Hh Hp Hs ltac:(vm_compute; discriminate) eq_refl HRx) as [_ [(en & He & Hle & _)|[_ V]]].
    + exfalso. apply Hctx in He. lia.
    + destruct (V eq_refl) as (err' & Heq & Hr). injection Heq as ->. exact Hr.
Defined.

