(* ===== verification/ClaimPool.v ===== *)
(** * internal/poolmgr/claim: Pools as Kubernetes resources (convert.go, pools.go)

    The conversion between a PoolSpec and battery-operator's Pool resource,
    and the PoolAdmin calls of the claim backend over the Kubernetes API.
    The resource types are the records of the fields the sources set and
    read; the API server is behind the class [KubePools]. *)
From Stdlib Require Import Ascii.
From S2P Require Import Prelude GoModel PoolTypes ConfigTypes Spec PathMatch GoStrings HostEnv PoolDecl.

(** ** The resource (battery-operator's v1alpha1) *)
Inductive RReplenish := ReplenishUnset | RImmediateOnLease | RMinSizeThreshold | RReplaceOnDelete.
Inductive RHookPolicy := HookUnset | RDeleteAndReplace | RQuarantine.
Inductive RInterface := NetworkInterfaceMacvtap | NetworkInterfaceTap.
Record RVolume := {
  rv_ID : string; rv_ReadOnly : bool; rv_MountPoint : option string; rv_PartitionID : option string;
  rv_SizeInMb : option Z; rv_ContainerSource : option string; rv_VirtiofsSource : option string }.
Definition RVolume0 : RVolume :=
  {| rv_ID := ""; rv_ReadOnly := false; rv_MountPoint := None; rv_PartitionID := None; rv_SizeInMb := None;
     rv_ContainerSource := None; rv_VirtiofsSource := None |}.
Record RNetworkInterface := {
  rn_DeviceID : string; rn_Type : RInterface; rn_GuestMAC : option string; rn_Address : option StaticAddress;
  rn_Overrides : option NetworkOverrides }.
Definition Kernel0 : KernelSpec := {| ks_Image := ""; ks_Cmdline := ∅; ks_Filename := None; ks_AddNetworkConfig := false |}.
Record MicroVMTemplate := {
  mt_Provider : option string; mt_VCPU : Z; mt_MemoryInMb : Z; mt_Metadata : option (gmap string string);
  mt_Labels : gmap string string; mt_Kernel : KernelSpec; mt_Initrd : option InitrdSpec; mt_RootVolume : RVolume;
  mt_AdditionalVolumes : list RVolume; mt_Interfaces : list RNetworkInterface; mt_CPUConfig : option CPUConfig }.
Record RPoolSpec := {
  rp_Template : MicroVMTemplate; rp_Size : Z; rp_NodeSelector : gmap string string;
  rp_Replenish : RReplenish; rp_MinSize : option Z; rp_Create : list string; rp_PreLease : list string;
  rp_FailurePolicy : RHookPolicy; rp_HeartbeatInterval : option duration; rp_ExpiryThreshold : option duration }.
Record PoolResource := {
  po_Name : string; po_Namespace : string; po_Version : Z; po_Labels : gmap string string;
  po_Annotations : gmap string string; po_Spec : RPoolSpec; po_Status : PoolStatus; po_Ready : bool }.
#[export] Instance eta_PoolResource : Eta PoolResource :=
  fun r => {| po_Name := po_Name r; po_Namespace := po_Namespace r; po_Version := po_Version r; po_Labels := po_Labels r;
              po_Annotations := po_Annotations r; po_Spec := po_Spec r; po_Status := po_Status r; po_Ready := po_Ready r |}.

(** ** convert.go *)
Definition LabelArch : string := "kubernetes.io/arch".
Definition annotationPoolNamespace : string := Prefix +:+ "pool-namespace".

(** nil when [d] is not positive. *)
Definition api_duration (d : duration) : option duration := if d <=? 0 then None else Some d.

(** [order] is the order in which the range statement visits the selector. *)
Definition selector_key (key : string) : string := if has_byte "/"%char key then key else Prefix +:+ key.
Definition nodeSelector (order : list (string * string)) (p : ProfileConfig) : gmap string string :=
  let sel := if String.eqb (p_Arch p) "" then ∅ else <[LabelArch := p_Arch p]> ∅ in
  foldl (fun sel kv => <[selector_key kv.1 := kv.2]> sel) sel order.

Definition replenishmentFromBattery (r : ReplenishmentStrategy) : result RReplenish :=
  match rs_Type r with
  | IMMEDIATE_ON_LEASE => Ok RImmediateOnLease
  | MIN_SIZE_THRESHOLD => Ok RMinSizeThreshold
  | REPLACE_ON_DELETE => Ok RReplaceOnDelete
  | REPLENISHMENT_UNSPECIFIED => Err (EWrap "replenishment strategy" [ESentinel ErrInvalid])
  end.
Definition replenishmentToBattery (t : RReplenish) (minSize : option Z) : ReplenishmentStrategy :=
  {| rs_Type := match t with
                | RImmediateOnLease => IMMEDIATE_ON_LEASE
                | RMinSizeThreshold => MIN_SIZE_THRESHOLD
                | RReplaceOnDelete => REPLACE_ON_DELETE
                | ReplenishUnset => REPLENISHMENT_UNSPECIFIED
                end; rs_MinSize := minSize |}.
Definition hookPolicyFromBattery (p : HookFailurePolicy) : result RHookPolicy :=
  match p with
  | DELETE_AND_REPLACE => Ok RDeleteAndReplace
  | HOOK_QUARANTINE => Ok RQuarantine
  | HOOK_FAILURE_POLICY_UNSPECIFIED => Err (EWrap "hook failure policy" [ESentinel ErrInvalid])
  end.
Definition hookPolicyToBattery (p : RHookPolicy) : HookFailurePolicy :=
  match p with
  | RDeleteAndReplace => DELETE_AND_REPLACE
  | RQuarantine => HOOK_QUARANTINE
  | HookUnset => HOOK_FAILURE_POLICY_UNSPECIFIED
  end.

(** [None]: the source of the volume is nil, and its field is read. *)
Definition volumeFromFlintlock (v : VolumeSpec) : option RVolume :=
  src ← vs_Source v;
  Some {| rv_ID := vs_Id v; rv_ReadOnly := vs_IsReadOnly v; rv_MountPoint := vs_MountPoint v; rv_PartitionID := vs_PartitionId v;
          rv_SizeInMb := vs_SizeInMb v; rv_ContainerSource := vo_ContainerSource src; rv_VirtiofsSource := vo_VirtiofsSource src |}.
Definition volumeToFlintlock (v : RVolume) : VolumeSpec :=
  {| vs_Id := rv_ID v; vs_IsReadOnly := rv_ReadOnly v; vs_MountPoint := rv_MountPoint v; vs_PartitionId := rv_PartitionID v;
     vs_SizeInMb := rv_SizeInMb v;
     vs_Source := Some {| vo_ContainerSource := rv_ContainerSource v; vo_VirtiofsSource := rv_VirtiofsSource v |} |}.
Definition interfaceFromFlintlock (n : NetworkInterface) : RNetworkInterface :=
  {| rn_DeviceID := ni_DeviceId n; rn_Type := match ni_Type n with TAP => NetworkInterfaceTap | MACVTAP => NetworkInterfaceMacvtap end;
     rn_GuestMAC := ni_GuestMac n; rn_Address := ni_Address n; rn_Overrides := ni_Overrides n |}.
Definition interfaceToFlintlock (n : RNetworkInterface) : NetworkInterface :=
  {| ni_DeviceId := rn_DeviceID n; ni_Type := match rn_Type n with NetworkInterfaceTap => TAP | NetworkInterfaceMacvtap => MACVTAP end;
     ni_GuestMac := rn_GuestMAC n; ni_Address := rn_Address n; ni_Overrides := rn_Overrides n |}.

Definition templateFromFlintlock (t : MicroVMSpec) : option MicroVMTemplate :=
  root ← match ms_RootVolume t with Some v => volumeFromFlintlock v | None => Some RVolume0 end;
  vols ← mapM volumeFromFlintlock (ms_AdditionalVolumes t);
  Some {| mt_Provider := ms_Provider t; mt_VCPU := ms_Vcpu t; mt_MemoryInMb := ms_MemoryInMb t; mt_Metadata := ms_Metadata t;
          mt_Labels := ms_Labels t; mt_Kernel := default Kernel0 (ms_Kernel t); mt_Initrd := ms_Initrd t; mt_RootVolume := root;
          mt_AdditionalVolumes := vols; mt_Interfaces := interfaceFromFlintlock <$> ms_Interfaces t; mt_CPUConfig := ms_CpuConfig t |}.
Definition templateToFlintlock (t : MicroVMTemplate) : MicroVMSpec :=
  {| ms_Id := ""; ms_Namespace := ""; ms_Labels := mt_Labels t; ms_Vcpu := mt_VCPU t; ms_MemoryInMb := mt_MemoryInMb t;
     ms_Kernel := Some (mt_Kernel t); ms_Initrd := mt_Initrd t; ms_RootVolume := Some (volumeToFlintlock (mt_RootVolume t));
     ms_AdditionalVolumes := volumeToFlintlock <$> mt_AdditionalVolumes t; ms_Interfaces := interfaceToFlintlock <$> mt_Interfaces t;
     ms_Metadata := mt_Metadata t; ms_Provider := mt_Provider t; ms_AllowGuestAgent := true; ms_CpuConfig := mt_CPUConfig t |}.

(** The map lookup of a missing key is the empty string. *)
Definition label (k : string) (m : gmap string string) : string := default "" (m !! k).
Definition template_labels (t : option MicroVMSpec) : gmap string string := match t with Some t => ms_Labels t | None => ∅ end.

(** [None]: a nil dereference. *)
Definition poolFromSpec (spec : PoolSpec) (order : list (string * string)) (p : ProfileConfig) (namespace runner : string)
    : option (result PoolResource) :=
  match sp_Template spec with
  | None => Some (Err (EWrap ("pool " +:+ PoolRef_String (sp_Ref spec) +:+ " has no template") [ESentinel ErrInvalid]))
  | Some t =>
      match replenishmentFromBattery (sp_Replenishment spec) with
      | Err e => Some (Err (EWrap ("pool " +:+ PoolRef_String (sp_Ref spec)) [e]))
      | Ok replenish =>
          match hookPolicyFromBattery (sp_HookFailurePolicy spec) with
          | Err e => Some (Err (EWrap ("pool " +:+ PoolRef_String (sp_Ref spec)) [e]))
          | Ok policy =>
              template ← templateFromFlintlock t;
              Some (Ok {| po_Name := ref_Name (sp_Ref spec); po_Namespace := namespace; po_Version := 0;
                po_Labels := <[LabelRunner := runner]> (<[LabelProfile := label LabelProfile (ms_Labels t)]> ∅);
                po_Annotations := {[annotationPoolNamespace := ref_Namespace (sp_Ref spec)]};
                po_Spec := {| rp_Template := template; rp_Size := sp_Size spec; rp_NodeSelector := nodeSelector order p;
                              rp_Replenish := replenish; rp_MinSize := rs_MinSize (sp_Replenishment spec);
                              rp_Create := sp_CreateCommands spec; rp_PreLease := sp_PreLeaseCommands spec; rp_FailurePolicy := policy;
                              rp_HeartbeatInterval := api_duration (sp_HeartbeatInterval spec);
                              rp_ExpiryThreshold := api_duration (sp_HeartbeatExpiryThreshold spec) |};
                po_Status := {| Available := 0; Leased := 0; Provisioning := 0; Quarantined := 0 |}; po_Ready := false |})
          end
      end
  end.

Definition refOf (r : PoolResource) (runnerNamespace : string) : PoolRef :=
  let ns := label annotationPoolNamespace (po_Annotations r) in
  {| ref_Name := po_Name r; ref_Namespace := if String.eqb ns "" then runnerNamespace else ns |}.
Definition specFromPool (r : PoolResource) (runnerNamespace : string) : PoolSpec :=
  let s := po_Spec r in
  {| sp_Ref := refOf r runnerNamespace; sp_Template := Some (templateToFlintlock (rp_Template s)); sp_Size := rp_Size s;
     sp_FlintlockHosts := []; sp_Replenishment := replenishmentToBattery (rp_Replenish s) (rp_MinSize s);
     sp_CreateCommands := rp_Create s; sp_PreLeaseCommands := rp_PreLease s; sp_HookFailurePolicy := hookPolicyToBattery (rp_FailurePolicy s);
     sp_HeartbeatInterval := default 0 (rp_HeartbeatInterval s); sp_HeartbeatExpiryThreshold := default 0 (rp_ExpiryThreshold s) |}.
Definition statusFromPool (r : PoolResource) : PoolStatus := po_Status r.

(** ** Errors of the API server, and translate *)
Inductive api_error :=
  | AENotFound | AEAlreadyExists | AEInvalid | AEBadRequest | AEForbidden | AEUnauthorized | AEConflict
  | AECanceled | AEDeadlineExceeded | AEOther (msg : string).
Definition api_cause (e : api_error) : error :=
  match e with
  | AECanceled => ESentinel CtxCanceled
  | AEDeadlineExceeded => ESentinel CtxDeadlineExceeded
  | AENotFound => ENew "not found" | AEAlreadyExists => ENew "already exists" | AEInvalid => ENew "invalid" | AEBadRequest => ENew "bad request"
  | AEForbidden => ENew "forbidden" | AEUnauthorized => ENew "unauthorized" | AEConflict => ENew "conflict" | AEOther m => ENew m
  end.
Definition translate (op : string) (e : api_error) : error :=
  match e with
  | AENotFound => EWrap op [ESentinel ErrNotFound; api_cause e]
  | AEAlreadyExists => EWrap op [ESentinel ErrAlreadyExists; api_cause e]
  | AEInvalid | AEBadRequest => EWrap op [ESentinel ErrInvalid; api_cause e]
  | AEForbidden | AEUnauthorized | AECanceled => EWrap op [api_cause e]
  | _ => EWrap op [ESentinel ErrUnavailable; api_cause e]
  end.

(** ** The API server, as far as Pools are concerned *)
Class KubePools (W : Type) := {
  kube_Create : PoolResource -> W -> W * (api_error + PoolResource);
  kube_Get : string -> W -> W * (api_error + PoolResource);
  kube_Update : PoolResource -> W -> W * (api_error + PoolResource);
  kube_Delete : string -> W -> W * option api_error;
  kube_List : string -> W -> W * (api_error + list PoolResource) }.

(** The API server completes what it is sent with the defaults of the CRD,
    which fill fields that are not set. *)
Record filled (s s' : RPoolSpec) : Prop := {
  fl_size : rp_Size s <> 0 -> rp_Size s' = rp_Size s;
  fl_selector : rp_NodeSelector s <> ∅ -> rp_NodeSelector s' = rp_NodeSelector s;
  fl_replenish : rp_Replenish s <> ReplenishUnset -> rp_Replenish s' = rp_Replenish s;
  fl_minSize : rp_MinSize s <> None -> rp_MinSize s' = rp_MinSize s;
  fl_create : rp_Create s <> [] -> rp_Create s' = rp_Create s;
  fl_preLease : rp_PreLease s <> [] -> rp_PreLease s' = rp_PreLease s;
  fl_policy : rp_FailurePolicy s <> HookUnset -> rp_FailurePolicy s' = rp_FailurePolicy s;
  fl_interval : rp_HeartbeatInterval s <> None -> rp_HeartbeatInterval s' = rp_HeartbeatInterval s;
  fl_expiry : rp_ExpiryThreshold s <> None -> rp_ExpiryThreshold s' = rp_ExpiryThreshold s
}.
(** What is stored of a resource that is written: its name, labels and
    annotations, and its completed spec; the status is not the client's. *)
Definition stored (defaults : RPoolSpec -> RPoolSpec) (r r' : PoolResource) : Prop :=
  po_Name r' = po_Name r /\ po_Labels r' = po_Labels r /\ po_Annotations r' = po_Annotations r /\ po_Spec r' = defaults (po_Spec r).

(** The documented behaviour: reads change nothing; a write that the CRD
    [admits], over what is there, is completed with the CRD's [defaults]; a
    create fails for a name that is taken; an update is refused with a
    conflict unless it carries the version that is stored, and leaves the
    status alone; while the API server is [up] it answers for the Pools it
    holds.  What it does with a write that the CRD does not admit is open. *)
Class KubePoolsLaws (W : Type) `{KubePools W} (objects : W -> gmap string PoolResource) (up : W -> Prop)
    (admits : option RPoolSpec -> RPoolSpec -> Prop) (defaults : RPoolSpec -> RPoolSpec) : Prop := {
  kube_defaults s : filled s (defaults s);
  kube_names w name r : objects w !! name = Some r -> po_Name r = name;
  kube_Get_frame name w : objects (kube_Get name w).1 = objects w /\ (up w -> up (kube_Get name w).1);
  kube_Get_up name w : up w ->
    (kube_Get name w).2 = match objects w !! name with Some r => inr r | None => inl AENotFound end;
  kube_Create_frame r w name : name <> po_Name r -> objects (kube_Create r w).1 !! name = objects w !! name;
  kube_Create_stays r w : up w -> up (kube_Create r w).1;
  kube_Create_ok r w r' : (kube_Create r w).2 = inr r' -> objects (kube_Create r w).1 !! po_Name r = Some r' /\ stored defaults r r';
  kube_Create_up r w : up w -> admits None (po_Spec r) ->
    match objects w !! po_Name r with
    | None => exists r', (kube_Create r w).2 = inr r'
    | Some _ => (kube_Create r w).2 = inl AEAlreadyExists /\ objects (kube_Create r w).1 = objects w
    end;
  kube_Update_frame r w name : name <> po_Name r -> objects (kube_Update r w).1 !! name = objects w !! name;
  kube_Update_stays r w : up w -> up (kube_Update r w).1;
  kube_Update_ok r w r' : (kube_Update r w).2 = inr r' ->
    objects (kube_Update r w).1 !! po_Name r = Some r' /\ stored defaults r r'
    /\ exists old, objects w !! po_Name r = Some old /\ po_Status r' = po_Status old;
  kube_Update_up r w : up w -> (forall old, objects w !! po_Name r = Some old -> admits (Some (po_Spec old)) (po_Spec r)) ->
    match objects w !! po_Name r with
    | None => (kube_Update r w).2 = inl AENotFound /\ objects (kube_Update r w).1 = objects w
    | Some old => if decide (po_Version old = po_Version r) then exists r', (kube_Update r w).2 = inr r'
                  else (kube_Update r w).2 = inl AEConflict /\ objects (kube_Update r w).1 = objects w
    end }.

(** ** pools.go *)
Definition updateAttempts : nat := 5.

Record Options := {
  o_Namespace : string; o_RunnerName : string; o_RunnerNamespace : string; o_Holder : string; o_Deadline : duration }.

Section Pools.
Context {W : Type} `{KubePools W}.
Variable o : Options.
(** The Profiles as SetProfiles left them, and the order of each range. *)
Variable profiles : gmap string ProfileConfig.
Variable order : gmap string string -> list (string * string).
(** What others do at the API server between the read and the write of an
    attempt. *)
Variable others : nat -> W -> W.

Definition poolOf (r : PoolResource) : Pool := {| pool_Spec := specFromPool r (o_RunnerNamespace o); pool_Status := statusFromPool r |}.

Definition profileOf (spec : PoolSpec) : result ProfileConfig :=
  let name := label LabelProfile (template_labels (sp_Template spec)) in
  if String.eqb name "" then Err (EWrap "the template carries no profile label" [ESentinel ErrInvalid])
  else match profiles !! name with
       | None => Err (EWrap ("no profile named " +:+ name) [ESentinel ErrInvalid])
       | Some p => Ok p
       end.
Definition poolResource (spec : PoolSpec) : option (result PoolResource) :=
  match profileOf spec with
  | Err e => Some (Err e)
  | Ok p => poolFromSpec spec (order (p_HostSelector p)) p (o_Namespace o) (o_RunnerName o)
  end.

(** A nil dereference ends the Runner; it is an error value here. *)
Definition panicked : error := ENew "invalid memory address or nil pointer dereference".

Definition claim_CreatePool (spec : PoolSpec) (w : W) : W * result (option Pool) :=
  match poolResource spec with
  | None => (w, Err panicked)
  | Some (Err e) => (w, Err e)
  | Some (Ok r) =>
      match kube_Create r w with
      | (w, inl e) => (w, Err (translate ("creating pool " +:+ po_Name r) e))
      | (w, inr r) => (w, Ok (Some (poolOf r)))
      end
  end.

(** [maps.Copy(into, from)] *)
Definition mergeMaps (into from : gmap string string) : gmap string string := from ∪ into.
Definition merged (current want : PoolResource) : PoolResource :=
  current <| po_Labels := mergeMaps (po_Labels current) (po_Labels want) |>
          <| po_Annotations := mergeMaps (po_Annotations current) (po_Annotations want) |> <| po_Spec := po_Spec want |>.

(** [more] is how many more attempts there may be. *)
Fixpoint update_loop (more attempt : nat) (want : PoolResource) (w : W) : W * result (option Pool) :=
  match kube_Get (po_Name want) w with
  | (w, inl e) => (w, Err (translate ("reading pool " +:+ po_Name want) e))
  | (w, inr current) =>
      match kube_Update (merged current want) (others attempt w), more with
      | (w, inl AEConflict), S more => update_loop more (S attempt) want w
      | (w, inl e), _ => (w, Err (translate ("updating pool " +:+ po_Name want) e))
      | (w, inr r), _ => (w, Ok (Some (poolOf r)))
      end
  end.
Definition claim_UpdatePool (spec : PoolSpec) (w : W) : W * result (option Pool) :=
  match poolResource spec with
  | None => (w, Err panicked)
  | Some (Err e) => (w, Err e)
  | Some (Ok want) => update_loop updateAttempts 0 want w
  end.

Definition claim_DeletePool (ref : PoolRef) (w : W) : W * option error :=
  match kube_Delete (ref_Name ref) w with
  | (w, Some e) => (w, Some (translate ("deleting pool " +:+ ref_Name ref) e))
  | (w, None) => (w, None)
  end.
Definition claim_GetPool (ref : PoolRef) (w : W) : W * result Pool :=
  match kube_Get (ref_Name ref) w with
  | (w, inl e) => (w, Err (translate ("reading pool " +:+ ref_Name ref) e))
  | (w, inr r) =>
      let s := specFromPool r (o_RunnerNamespace o) in
      (w, Ok {| pool_Spec := {| sp_Ref := ref; sp_Template := sp_Template s; sp_Size := sp_Size s; sp_FlintlockHosts := sp_FlintlockHosts s;
                  sp_Replenishment := sp_Replenishment s; sp_CreateCommands := sp_CreateCommands s; sp_PreLeaseCommands := sp_PreLeaseCommands s;
                  sp_HookFailurePolicy := sp_HookFailurePolicy s; sp_HeartbeatInterval := sp_HeartbeatInterval s;
                  sp_HeartbeatExpiryThreshold := sp_HeartbeatExpiryThreshold s |};
                pool_Status := statusFromPool r |})
  end.
Definition claim_ListPools (namespace : string) (w : W) : W * result (list Pool) :=
  match kube_List (o_RunnerName o) w with
  | (w, inl e) => (w, Err (translate "listing pools" e))
  | (w, inr items) =>
      (w, Ok (filter (fun p => negb (negb (String.eqb namespace "") && negb (String.eqb (ref_Namespace (sp_Ref (pool_Spec p))) namespace)) = true)
                (poolOf <$> items)))
  end.
End Pools.

Definition claim_PoolAdmin {W} `{KubePools W} (o : Options) (profiles : gmap string ProfileConfig)
    (order : gmap string string -> list (string * string)) (others : nat -> W -> W) : PoolAdmin W :=
  {| CreatePool := claim_CreatePool o profiles order; UpdatePool := claim_UpdatePool o profiles order others |}.

(** ** What is kept of a spec *)

(** What the resource cannot hold: the Hosts, the namespace and the id of the
    template, and a duration that is not positive. *)
Definition kept_template (t : MicroVMSpec) : MicroVMSpec :=
  {| ms_Id := ""; ms_Namespace := ""; ms_Labels := ms_Labels t; ms_Vcpu := ms_Vcpu t; ms_MemoryInMb := ms_MemoryInMb t;
     ms_Kernel := ms_Kernel t; ms_Initrd := ms_Initrd t; ms_RootVolume := ms_RootVolume t; ms_AdditionalVolumes := ms_AdditionalVolumes t;
     ms_Interfaces := ms_Interfaces t; ms_Metadata := ms_Metadata t; ms_Provider := ms_Provider t; ms_AllowGuestAgent := true;
     ms_CpuConfig := ms_CpuConfig t |}.
Definition kept_spec (s : PoolSpec) : PoolSpec :=
  {| sp_Ref := sp_Ref s; sp_Template := kept_template <$> sp_Template s; sp_Size := sp_Size s; sp_FlintlockHosts := [];
     sp_Replenishment := sp_Replenishment s; sp_CreateCommands := sp_CreateCommands s; sp_PreLeaseCommands := sp_PreLeaseCommands s;
     sp_HookFailurePolicy := sp_HookFailurePolicy s; sp_HeartbeatInterval := Z.max 0 (sp_HeartbeatInterval s);
     sp_HeartbeatExpiryThreshold := Z.max 0 (sp_HeartbeatExpiryThreshold s) |}.

(** A template whose parts are all there, as the SpecBuilder builds it. *)
Definition complete (t : MicroVMSpec) : Prop :=
  is_Some (ms_Kernel t) /\ (exists v, ms_RootVolume t = Some v /\ is_Some (vs_Source v))
  /\ Forall (fun v => is_Some (vs_Source v)) (ms_AdditionalVolumes t).

Lemma volume_back v rv : volumeFromFlintlock v = Some rv -> volumeToFlintlock rv = v.
Proof. unfold volumeFromFlintlock. destruct (vs_Source v) as [[]|] eqn:E; [|done]. intros [= <-]. destruct v. simpl in *. by subst. Qed.

Lemma volumes_back vs : Forall (fun v => is_Some (vs_Source v)) vs ->
  exists rvs, mapM volumeFromFlintlock vs = Some rvs /\ volumeToFlintlock <$> rvs = vs.
Proof.
  induction 1 as [|v vs [src Hv] _ (rvs & IH & Hrvs)]; [by exists []|].
  destruct (volumeFromFlintlock v) as [rv|] eqn:E; [|unfold volumeFromFlintlock in E; by rewrite Hv in E].
  exists (rv :: rvs). split; [simpl; by rewrite E, IH|]. by rewrite fmap_cons, (volume_back v rv E), Hrvs.
Qed.

Lemma interfaces_back (ns : list NetworkInterface) : interfaceToFlintlock <$> (interfaceFromFlintlock <$> ns) = ns.
Proof. induction ns as [|[? [] ? ? ?] ns IH]; [done|..]; rewrite !fmap_cons, IH; done. Qed.

Lemma template_back t : complete t -> exists rt, templateFromFlintlock t = Some rt /\ templateToFlintlock rt = kept_template t.
Proof.
  intros ([k Hk] & (v & Hv & [src Hsrc]) & HF). unfold templateFromFlintlock. rewrite Hv, Hk.
  destruct (volumeFromFlintlock v) as [rv|] eqn:E; [|unfold volumeFromFlintlock in E; by rewrite Hsrc in E].
  destruct (volumes_back _ HF) as (rvs & -> & Hrvs). simpl. eexists. split; [done|]. unfold templateToFlintlock, kept_template. simpl.
  by rewrite (volume_back v rv E), Hrvs, interfaces_back, Hk, Hv.
Qed.

(** [b] has everything that is set in [a]; the template apart. *)
Record comes_back (a b : PoolSpec) : Prop := {
  cb_ref : sp_Ref b = sp_Ref a;
  cb_size : sp_Size a <> 0 -> sp_Size b = sp_Size a;
  cb_strategy : rs_Type (sp_Replenishment a) <> REPLENISHMENT_UNSPECIFIED -> rs_Type (sp_Replenishment b) = rs_Type (sp_Replenishment a);
  cb_minSize : rs_MinSize (sp_Replenishment a) <> None -> rs_MinSize (sp_Replenishment b) = rs_MinSize (sp_Replenishment a);
  cb_hooks : (sp_CreateCommands a <> [] -> sp_CreateCommands b = sp_CreateCommands a)
             /\ (sp_PreLeaseCommands a <> [] -> sp_PreLeaseCommands b = sp_PreLeaseCommands a);
  cb_policy : sp_HookFailurePolicy a <> HOOK_FAILURE_POLICY_UNSPECIFIED -> sp_HookFailurePolicy b = sp_HookFailurePolicy a;
  cb_beat : (sp_HeartbeatInterval a <> 0 -> sp_HeartbeatInterval b = sp_HeartbeatInterval a)
            /\ (sp_HeartbeatExpiryThreshold a <> 0 -> sp_HeartbeatExpiryThreshold b = sp_HeartbeatExpiryThreshold a)
}.
Lemma filled_comes_back r s ns : filled (po_Spec r) s -> comes_back (specFromPool r ns) (specFromPool (r <| po_Spec := s |>) ns).
Proof.
  intros [F1 F2 F3 F4 F5 F6 F7 F8 F9]. split; simpl; try done.
  - intros Hs. rewrite F3; [done|]. by intros E; rewrite E in Hs.
  - intros Hs. rewrite F7; [done|]. by intros E; rewrite E in Hs.
  - split; [intros Hs; rewrite F8|intros Hs; rewrite F9]; try done; by intros E; rewrite E in Hs.
Qed.

Lemma api_duration_back d : default 0 (api_duration d) = Z.max 0 d.
Proof. unfold api_duration. destruct (Z.leb_spec d 0); simpl; lia. Qed.

(** Every Profile's Pool is one the backend can declare. *)
Lemma Build_complete {T} (Parse : string -> result T) Execute p inp spec :
  Build Parse Execute p inp = Ok spec ->
  exists t replenish policy, sp_Template spec = Some t /\ complete t /\ label LabelProfile (ms_Labels t) = p_Name p
    /\ replenishmentFromBattery (sp_Replenishment spec) = Ok replenish /\ replenishmentToBattery replenish (rs_MinSize (sp_Replenishment spec)) = sp_Replenishment spec
    /\ hookPolicyFromBattery (sp_HookFailurePolicy spec) = Ok policy /\ hookPolicyToBattery policy = sp_HookFailurePolicy spec.
Proof.
  unfold Build. destruct (buildTemplate _ _ _ _) as [t|] eqn:ET; [|done]. destruct (replenishment _) as [rs|] eqn:ER; [|done].
  destruct (hookFailurePolicy _) as [hp|] eqn:EH; [|done]. intros [= <-]. simpl.
  assert (HR : exists replenish, replenishmentFromBattery rs = Ok replenish /\ replenishmentToBattery replenish (rs_MinSize rs) = rs).
  { unfold replenishment in ER. repeat (case_match; try done); injection ER as <-; by eexists. }
  assert (HH : exists policy, hookPolicyFromBattery hp = Ok policy /\ hookPolicyToBattery policy = hp).
  { unfold hookFailurePolicy in EH. repeat (case_match; try done); injection EH as <-; by eexists. }
  destruct HR as (rr & ? & ?), HH as (pp & ? & ?). exists t, rr, pp. split_and!; try done.
  - unfold buildTemplate in ET. destruct (buildMetadata _ _ _); [|done]. injection ET as <-. split_and!; simpl; [by eexists|eexists; split; [reflexivity|by eexists]|].
    unfold additionalVolumes. apply Forall_fmap, Forall_true. intros. by eexists.
  - unfold buildTemplate in ET. destruct (buildMetadata _ _ _); [|done]. injection ET as <-. simpl. unfold label, labels. by rewrite lookup_insert_eq.
Qed.

Section Declared.
Context {W : Type} `{HK : KubePools W} (objects : W -> gmap string PoolResource) (up : W -> Prop).
Context (admits : option RPoolSpec -> RPoolSpec -> Prop) (defaults : RPoolSpec -> RPoolSpec) `{HL : !KubePoolsLaws W objects up admits defaults}.
Variable o : Options.
Variable profiles : gmap string ProfileConfig.
Variable order : gmap string string -> list (string * string).
Variable others : nat -> W -> W.

(** The others keep the API server up and do not delete the Pool [name]. *)
Definition tame (name : string) (f : W -> W) : Prop :=
  forall w, up w -> up (f w) /\ (is_Some (objects w !! name) -> is_Some (objects (f w) !! name)).

(** A resource that declares [want]: what the backend writes, as the CRD
    completes it, over whatever labels and annotations others have put
    there. *)
Definition declares (want r : PoolResource) : Prop :=
  po_Name r = po_Name want /\ po_Spec r = defaults (po_Spec want) /\ po_Labels want ⊆ po_Labels r /\ po_Annotations want ⊆ po_Annotations r.

Lemma created_declares want r' : stored defaults want r' -> declares want r'.
Proof. intros (? & H2 & H3 & ?). split_and!; [done|done|by rewrite H2|by rewrite H3]. Qed.
Lemma merged_declares want current r' : po_Name current = po_Name want -> stored defaults (merged current want) r' -> declares want r'.
Proof.
  intros Hn (H1 & H2 & H3 & H4). split_and!; [by rewrite H1|done|rewrite H2|rewrite H3]; simpl; apply map_union_subseteq_l.
Qed.

(** While the others leave the API server up, and let one of the attempts
    through, an update of a Pool that is there succeeds. *)
Lemma update_loop_spec more attempt want w w' res :
  update_loop o others more attempt want w = (w', res) ->
  (forall i, tame (po_Name want) (others i)) -> (forall old, admits old (po_Spec want)) -> up w -> is_Some (objects w !! po_Name want) ->
  up w' /\ match res with
           | Ok p => exists r, objects w' !! po_Name want = Some r /\ declares want r /\ p = Some (poolOf o r)
           | Err e => errors_Is e ErrUnavailable = true /\ forall i, (i <= more)%nat -> ~ (forall w, others (attempt + i) w = w)
           end.
Proof.
  revert attempt w. induction more as [|more IH]; intros attempt w HU Ht Hadm Hup [cur Hcur]; simpl in HU.
  all: destruct (kube_Get (po_Name want) w) as [w1 g] eqn:EG;
    pose proof (kube_Get_up (po_Name want) w Hup) as HG; pose proof (kube_Get_frame (po_Name want) w) as [HF HF'];
    rewrite EG in HG, HF, HF'; simpl in HG, HF, HF'; rewrite Hcur in HG; subst g; specialize (HF' Hup);
    pose proof (kube_names _ _ _ Hcur) as Hname;
    destruct (Ht attempt w1 HF') as [Hup2 Hin2]; rewrite HF in Hin2; destruct (Hin2 (ex_intro _ cur Hcur)) as [cur2 Hcur2];
    pose proof (kube_Update_stays (merged cur want) (others attempt w1) Hup2) as Hup3;
    pose proof (kube_Update_up (merged cur want) (others attempt w1) Hup2 (fun old _ => Hadm _)) as HUp;
    change (po_Name (merged cur want)) with (po_Name cur) in HUp; rewrite Hname, Hcur2 in HUp;
    pose proof (kube_Update_ok (merged cur want) (others attempt w1)) as HOk;
    change (po_Name (merged cur want)) with (po_Name cur) in HOk; rewrite Hname in HOk;
    change (po_Version (merged cur want)) with (po_Version cur) in HUp;
    destruct (kube_Update (merged cur want) (others attempt w1)) as [w2 [e|r]] eqn:EU; simpl in *.
  - destruct (decide _) as [|Hne]; [by destruct HUp|]. destruct HUp as [[= ->] _]. injection HU as <- <-. split; [done|].
    split; [done|]. intros i Hi Hid. assert (i = 0)%nat as -> by lia. rewrite Nat.add_0_r in Hid. rewrite Hid, HF in Hcur2. congruence.
  - injection HU as <- <-. split; [done|]. destruct (HOk r eq_refl) as (H1 & H2 & _). exists r. split_and!; [done| |done].
    by eapply merged_declares.
  - destruct (decide _) as [|Hne]; [by destruct HUp|]. destruct HUp as [[= ->] Hsame].
    destruct (IH (S attempt) w2 HU Ht Hadm Hup3) as [Hw Hres]; [by rewrite Hsame, Hcur2|]. split; [done|].
    destruct res as [p|e]; [done|]. destruct Hres as [He Hno]. split; [done|]. intros [|i] Hi Hid.
    + rewrite Nat.add_0_r in Hid. rewrite Hid, HF in Hcur2. congruence.
    + apply (Hno i ltac:(lia)). by replace (S attempt + i)%nat with (attempt + S i)%nat by lia.
  - assert (HU' : (w2, Ok (Some (poolOf o r))) = (w', res)) by (by destruct r). injection HU' as <- <-. split; [done|].
    destruct (HOk r eq_refl) as (H1 & H2 & _). exists r. split_and!; [done| |done].
    by eapply merged_declares.
Qed.

Lemma declares_spec spec want r :
  ref_Name (sp_Ref spec) = po_Name want -> po_Annotations want = {[annotationPoolNamespace := ref_Namespace (sp_Ref spec)]} ->
  ref_Namespace (sp_Ref spec) <> "" -> declares want r ->
  specFromPool r (o_RunnerNamespace o) = specFromPool (want <| po_Spec := defaults (po_Spec want) |>) (o_RunnerNamespace o)
  /\ refOf r (o_RunnerNamespace o) = sp_Ref spec.
Proof.
  intros Hn Ha Hns (H1 & H2 & _ & H4).
  assert (HR : forall r', po_Name r' = po_Name want -> po_Annotations want ⊆ po_Annotations r' -> refOf r' (o_RunnerNamespace o) = sp_Ref spec).
  { intros r' Hn' Hs. unfold refOf, label. rewrite Ha in Hs. apply map_singleton_subseteq_l in Hs as ->. simpl.
    destruct (String.eqb_spec (ref_Namespace (sp_Ref spec)) ""); [done|]. rewrite Hn', <-Hn. by destruct (sp_Ref spec). }
  split; [|by apply HR]. unfold specFromPool. by rewrite H2, !HR.
Qed.

Lemma poolResource_built {T} (Parse : string -> result T) Execute p inp spec :
  Build Parse Execute p inp = Ok spec -> p_Name p <> "" -> profiles !! p_Name p = Some p ->
  exists want, poolResource o profiles order spec = Some (Ok want) /\ po_Name want = ref_Name (sp_Ref spec)
    /\ po_Annotations want = {[annotationPoolNamespace := ref_Namespace (sp_Ref spec)]}
    /\ po_Labels want !! LabelRunner = Some (o_RunnerName o) /\ rp_NodeSelector (po_Spec want) = nodeSelector (order (p_HostSelector p)) p
    /\ (ref_Namespace (sp_Ref spec) <> "" -> specFromPool want (o_RunnerNamespace o) = kept_spec spec).
Proof.
  intros HB Hne Hp. destruct (Build_complete _ _ _ _ _ HB) as (t & rr & pp & Ht & Hc & Hl & R1 & R2 & P1 & P2).
  destruct (template_back t Hc) as (rt & HT & HT'). unfold poolResource, profileOf. rewrite Ht. simpl. rewrite Hl.
  destruct (String.eqb_spec (p_Name p) ""); [done|]. rewrite Hp. unfold poolFromSpec. rewrite Ht, R1, P1, HT. simpl. eexists. split; [done|].
  split_and!; simpl; [done|done|by rewrite lookup_insert_eq|done|]. intros Hns. unfold specFromPool, kept_spec, refOf, label. simpl.
  rewrite lookup_singleton_eq, HT', R2, P2, !api_duration_back, Ht. simpl. destruct (String.eqb_spec (ref_Namespace (sp_Ref spec)) ""); [done|].
  by destruct (sp_Ref spec).
Qed.

End Declared.

(** ** An API server in memory

    Its CRD takes Pools of a positive size and fills in the heartbeats. *)
Abbreviation memKube := (gmap string PoolResource) (only parsing).
Definition mem_admits (old : option RPoolSpec) (s : RPoolSpec) : bool := 0 <? rp_Size s.
Definition mem_defaults (s : RPoolSpec) : RPoolSpec :=
  {| rp_Template := rp_Template s; rp_Size := rp_Size s; rp_NodeSelector := rp_NodeSelector s; rp_Replenish := rp_Replenish s;
     rp_MinSize := rp_MinSize s; rp_Create := rp_Create s; rp_PreLease := rp_PreLease s; rp_FailurePolicy := rp_FailurePolicy s;
     rp_HeartbeatInterval := Some (default (10 * second) (rp_HeartbeatInterval s));
     rp_ExpiryThreshold := Some (default (30 * second) (rp_ExpiryThreshold s)) |}.
#[export] Instance memKube_pools : KubePools memKube := {|
  kube_Create r w := if negb (mem_admits None (po_Spec r)) then (w, inl AEInvalid)
                     else match w !! po_Name r with
                     | Some _ => (w, inl AEAlreadyExists)
                     | None => let r := r <| po_Version := 1 |> <| po_Spec := mem_defaults (po_Spec r) |> in (<[po_Name r := r]> w, inr r)
                     end;
  kube_Get name w := (w, match w !! name with Some r => inr (r <| po_Name := name |>) | None => inl AENotFound end);
  kube_Update r w := match w !! po_Name r with
                     | None => (w, inl AENotFound)
                     | Some old => if decide (po_Version old = po_Version r)
                                   then if mem_admits (Some (po_Spec old)) (po_Spec r)
                                        then let r := r <| po_Version := po_Version old + 1 |> <| po_Status := po_Status old |> <| po_Ready := po_Ready old |>
                                                        <| po_Spec := mem_defaults (po_Spec r) |> in
                                             (<[po_Name r := r]> w, inr r)
                                        else (w, inl AEInvalid)
                                   else (w, inl AEConflict)
                     end;
  kube_Delete name w := match w !! name with Some _ => (delete name w, None) | None => (w, Some AENotFound) end;
  kube_List runner w := (w, inr (filter (fun r => po_Labels r !! LabelRunner = Some runner) (map_to_list w).*2)) |}.
Definition mem_objects (w : memKube) : gmap string PoolResource := map_imap (fun name r => Some (r <| po_Name := name |>)) w.

Lemma mem_objects_lookup w name : mem_objects w !! name = (fun r => r <| po_Name := name |>) <$> w !! name.
Proof. unfold mem_objects. rewrite map_lookup_imap. by destruct (w !! name). Qed.

#[export] Instance memKube_laws : KubePoolsLaws memKube mem_objects (fun _ => True) (fun old s => mem_admits old s = true) mem_defaults.
Proof.
  split.
  - intros s. split; simpl; try done; [by destruct (rp_HeartbeatInterval s)|by destruct (rp_ExpiryThreshold s)].
  - intros w name r. rewrite mem_objects_lookup. destruct (w !! name); [|done]. by intros [= <-].
  - done.
  - intros name w _. rewrite mem_objects_lookup. unfold kube_Get, memKube_pools. cbn [snd]. by destruct (w !! name).
  - intros r w name Hne. rewrite !mem_objects_lookup. simpl. destruct (mem_admits _ _); [|done]. simpl. destruct (w !! po_Name r); [done|]. simpl. by rewrite lookup_insert_ne.
  - done.
  - intros r w r'. simpl. destruct (mem_admits _ _); [|done]. simpl. destruct (w !! po_Name r); [done|]. intros [= <-]. rewrite mem_objects_lookup. simpl. by rewrite lookup_insert_eq.
  - intros r w _ Ha. rewrite mem_objects_lookup. simpl. rewrite Ha. simpl. destruct (w !! po_Name r); simpl; [done|by eexists].
  - intros r w name Hne. rewrite !mem_objects_lookup. simpl. destruct (w !! po_Name r); [|done]. destruct (decide _); [|done].
    destruct (mem_admits _ _); [|done]. simpl. by rewrite lookup_insert_ne.
  - done.
  - intros r w r'. simpl. destruct (w !! po_Name r) as [old|] eqn:E; [|done]. destruct (decide _); [|done]. destruct (mem_admits _ _); [|done].
    intros [= <-]. rewrite !mem_objects_lookup, E. simpl. rewrite lookup_insert_eq. split_and!; [done..|]. by eexists.
  - intros r w _ Ha. specialize (Ha). rewrite mem_objects_lookup in *. simpl in *. destruct (w !! po_Name r) as [old|]; simpl in *; [|done].
    destruct (decide _); [|done]. pose proof (Ha _ eq_refl) as H. unfold mem_admits in *. rewrite H. by eexists.
Qed.

Definition demo_options : Options :=
  {| o_Namespace := "runners"; o_RunnerName := "r1"; o_RunnerNamespace := "ns"; o_Holder := "holder"; o_Deadline := 10 * second |}.
Definition demo_Parse (s : string) : result string := Ok s.
Definition demo_Execute (t n : string) : result string := Ok (t +:+ " " +:+ n).
(** Another Runner takes the first attempt of the update away. *)
Definition demo_other (i : nat) (w : gmap string PoolResource) : gmap string PoolResource :=
  if Nat.eqb i 0 then alter (fun r => r <| po_Version := po_Version r + 7 |>) "small" w else w.


(** Two Pools of one name in different Runner namespaces are one resource:
    declaring the second takes the first one's place, and GetPool of the
    first answers with the second's size.  Validation accepts them. *)
Definition named_spec (ns : string) (size : Z) : PoolSpec :=
  {| sp_Ref := {| ref_Name := "small"; ref_Namespace := ns |}; sp_Template := sp_Template demo_spec; sp_Size := size; sp_FlintlockHosts := [];
     sp_Replenishment := sp_Replenishment demo_spec; sp_CreateCommands := []; sp_PreLeaseCommands := [];
     sp_HookFailurePolicy := sp_HookFailurePolicy demo_spec; sp_HeartbeatInterval := 10 * second; sp_HeartbeatExpiryThreshold := 30 * second |}.
Theorem claim_pools_collide :
  let declare s w := @Declarer_Declare _ (claim_PoolAdmin demo_options {["small" := demo_profile]} map_to_list (fun _ w => w)) id id s w in
  let w1 := (declare (named_spec "team-a" 4) ∅).1 in
  let w2 := (declare (named_spec "team-b" 9) w1).1 in
  is_ok (declare (named_spec "team-b" 9) w1).2 = true
  /\ match (claim_GetPool demo_options {| ref_Name := "small"; ref_Namespace := "team-a" |} w2).2 with
     | Ok p => sp_Size (pool_Spec p) = 9 | Err _ => False end
  /\ match (claim_ListPools demo_options "team-a" w2).2 with Ok l => l = [] | Err _ => False end.
Proof. vm_compute. done. Qed.
