(* ===== verification/ClaimEvents.v ===== *)
(** * internal/poolmgr/claim/events.go: events from the counts of a Pool

    The hub turns the counts in the status of the Pool resources into events
    with stand-in uids, which the Tracker folds like the events of battery.
    A step is one critical section of the hub's mutex.  A stream is in the
    hub's set exactly while it is not dropped.  The loops of [moveLocked]
    count in an int32; the model is of counts below its maximum, at which the
    loop of the source would not end. *)
From S2P Require Import Prelude GoModel PoolTypes Tracker GoStrings ClaimPool.

Definition hub_subscriberBuffer : nat := Z.to_nat 1024.
Definition minRewatch : duration := 100 * millisecond.
Definition maxRewatch : duration := 10 * second.

Record reported := { rep_ref : PoolRef; rep_count : Z; rep_ready : bool }.
Definition reported0 : reported := {| rep_ref := {| ref_Name := ""; ref_Namespace := "" |}; rep_count := 0; rep_ready := false |}.

(** [sm_sent] is everything the channel was ever sent, [sm_taken] how much of
    it was received; [sm_short] says that the replay did not fit. *)
Record stream := { sm_filter : option PoolRef; sm_sent : list Event; sm_taken : nat; sm_dropped : bool; sm_short : bool }.
#[export] Instance eta_stream : Eta stream :=
  fun r => {| sm_filter := sm_filter r; sm_sent := sm_sent r; sm_taken := sm_taken r; sm_dropped := sm_dropped r; sm_short := sm_short r |}.
Record hub := { hb_nextID : Z; hb_available : gmap string reported; hb_streams : gmap Z stream; hb_next : Z; hb_closed : bool }.
#[export] Instance eta_hub : Eta hub :=
  fun r => {| hb_nextID := hb_nextID r; hb_available := hb_available r; hb_streams := hb_streams r; hb_next := hb_next r; hb_closed := hb_closed r |}.
Definition newHub : hub := {| hb_nextID := 0; hb_available := ∅; hb_streams := ∅; hb_next := 0; hb_closed := false |}.

Definition standIn (ref : PoolRef) (i : Z) : string := ref_Name ref +:+ "/available-" +:+ Itoa i.

Definition buffered (s : stream) : nat := length (sm_sent s) - sm_taken s.
Definition wants (s : stream) (pool : PoolRef) : bool :=
  match sm_filter s with None => true | Some f => bool_decide (f = pool) end.
(** The non-blocking send of publishLocked. *)
Definition offer (e : Event) (s : stream) : stream :=
  if sm_dropped s || negb (wants s (ev_Pool e)) then s
  else if Nat.ltb (buffered s) hub_subscriberBuffer then s <| sm_sent := sm_sent s ++ [e] |>
  else s <| sm_dropped := true |>.
Definition hub_event (id : Z) (pool : PoolRef) (uid : string) (typ : EventType) (now : time) : Event :=
  {| ev_ID := id; ev_Pool := pool; ev_VMUID := uid; ev_Type := typ; ev_At := now; ev_Payload := RawEmpty |}.
Definition publishLocked (pool : PoolRef) (typ : EventType) (now : time) (h : hub) (uid : string) : hub :=
  let id := hb_nextID h + 1 in
  h <| hb_nextID := id |> <| hb_streams := offer (hub_event id pool uid typ now) <$> hb_streams h |>.

(** The counters of the loops: up from [a + 1] to [b], down from [a] to
    [b + 1]. *)
Definition upto (a b : Z) : list Z := seqZ (a + 1) (b - a).
Definition downto (a b : Z) : list Z := reverse (seqZ (b + 1) (a - b)).

Definition moveLocked (now : time) (name : string) (ref : PoolRef) (count : Z) (h : hub) : hub :=
  let last := default reported0 (hb_available h !! name) in
  let '(h, last) :=
    if bool_decide (rep_ref last = ref) then (h, last)
    else (foldl (fun h i => publishLocked (rep_ref last) VM_DELETED_ON_RELEASE now h (standIn (rep_ref last) i)) h (downto (rep_count last) 0),
          {| rep_ref := ref; rep_count := 0; rep_ready := false |}) in
  let h := foldl (fun h i => publishLocked ref VM_AVAILABLE now h (standIn ref i)) h (upto (rep_count last) count) in
  let h := foldl (fun h i => publishLocked ref VM_DELETED_ON_RELEASE now h (standIn ref i)) h (downto (rep_count last) count) in
  h <| hb_available := <[name := {| rep_ref := ref; rep_count := Z.max count 0; rep_ready := false |}]> (hb_available h) |>.

Definition observe (runnerNamespace : string) (now : time) (pool : PoolResource) (h : hub) : hub :=
  if hb_closed h then h else
  let h := moveLocked now (po_Name pool) (refOf pool runnerNamespace) (Available (po_Status pool)) h in
  let last := default reported0 (hb_available h !! po_Name pool) in
  h <| hb_available := <[po_Name pool := {| rep_ref := rep_ref last; rep_count := rep_count last; rep_ready := po_Ready pool |}]> (hb_available h) |>.

Definition gone (now : time) (name : string) (h : hub) : hub :=
  match hb_available h !! name with
  | Some last => if hb_closed h then h
                 else let h := moveLocked now name (rep_ref last) 0 h in h <| hb_available := delete name (hb_available h) |>
  | None => h
  end.

(** resync: every Pool of the list, then the end of each that is missing. *)
Definition missing (pools : list PoolResource) (h : hub) : list string :=
  filter (fun name => name ∉ (po_Name <$> pools)) (map_to_list (hb_available h)).*1.
Definition resync (runnerNamespace : string) (now : time) (pools : list PoolResource) (h : hub) : hub :=
  let h := foldl (fun h p => observe runnerNamespace now p h) h pools in
  foldl (fun h name => gone now name h) h (missing pools h).

(** What the watch delivers. *)
Inductive watch_event := WatchAdded (p : PoolResource) | WatchModified (p : PoolResource) | WatchDeleted (p : PoolResource) | WatchBookmark | WatchError.
Fixpoint follow_watch (runnerNamespace : string) (now : time) (evs : list watch_event) (h : hub) : hub :=
  match evs with
  | [] | WatchError :: _ => h
  | WatchDeleted p :: evs => follow_watch runnerNamespace now evs (gone now (po_Name p) h)
  | (WatchAdded p | WatchModified p) :: evs => follow_watch runnerNamespace now evs (observe runnerNamespace now p h)
  | WatchBookmark :: evs => follow_watch runnerNamespace now evs h
  end.
(** [items]: the list, if it succeeded; [evs]: what the watch delivers until
    it ends, or nothing if it cannot be made.  Whether the list succeeded. *)
Definition watchOnce (runnerNamespace : string) (now : time) (items : option (list PoolResource)) (evs : list watch_event) (h : hub) : hub * bool :=
  match items with
  | None => (h, false)
  | Some items => (follow_watch runnerNamespace now evs (resync runnerNamespace now items h), true)
  end.
(** The wait after a round, and the one of the next round. *)
Definition rewatch (wait : duration) (ok : bool) : duration * duration :=
  let wait := if ok then minRewatch else wait in (wait, Z.min (2 * wait) maxRewatch).

(** ** Streams *)
Definition replay_one (now : time) (hs : hub * stream) (ri : PoolRef * Z) : hub * stream :=
  let '(h, s) := hs in
  let id := hb_nextID h + 1 in
  let h := h <| hb_nextID := id |> in
  (h, if Nat.ltb (buffered s) hub_subscriberBuffer
      then s <| sm_sent := sm_sent s ++ [hub_event id ri.1 (standIn ri.1 ri.2) VM_AVAILABLE now] |>
      else s <| sm_short := true |>).
(** [order] is the order in which the range statement visits the Pools. *)
Definition hub_Subscribe (ctxErr : option sentinel) (now : time) (order : list (string * reported)) (filter : option PoolRef) (h : hub) : hub * result Z :=
  match ctxErr with
  | Some e => (h, Err (EWrap "claim: subscribe" [ESentinel e]))
  | None =>
      if hb_closed h then (h, Err (EWrap "claim: subscribe: the backend is closed" [ESentinel ErrUnavailable])) else
      let s := {| sm_filter := filter; sm_sent := []; sm_taken := 0; sm_dropped := false; sm_short := false |} in
      let refs := order ≫= fun kr => if wants s (rep_ref kr.2) then (fun i => (rep_ref kr.2, i)) <$> upto 0 (rep_count kr.2) else [] in
      let '(h, s) := foldl (replay_one now) (h, s) refs in
      (h <| hb_streams := <[hb_next h := s]> (hb_streams h) |> <| hb_next := hb_next h + 1 |>, Ok (hb_next h))
  end.

Definition hub_close (h : hub) : hub :=
  h <| hb_closed := true |> <| hb_streams := (fun s => s <| sm_dropped := true |>) <$> hb_streams h |>.
Definition stream_Close (id : Z) (h : hub) : hub :=
  h <| hb_streams := alter (fun s => s <| sm_dropped := true |>) id (hb_streams h) |>.

(** Recv: the first select takes a buffered event if there is one; the second
    one waits, and [pick] decides when it finds both an event and an end.
    [None]: it waits.  [now_] is the stream when the second select runs. *)
Definition Recv_take (s : stream) : option (stream * (error + Event)) :=
  (fun e => (s <| sm_taken := S (sm_taken s) |>, inr e)) <$> sm_sent s !! sm_taken s.
Definition Recv_end (ctxErr : option sentinel) (s : stream) : option (stream * (error + Event)) :=
  if sm_dropped s then Some (s, inl (EWrap "claim: event stream ended" [ESentinel ErrUnavailable]))
  else (fun e => (s, inl (EWrap "claim: event stream" [ESentinel e]))) <$> ctxErr.
Definition stream_Recv (pick : bool) (ctxErr : option sentinel) (s now_ : stream) : option (stream * (error + Event)) :=
  match Recv_take s with
  | Some r => Some r
  | None => match Recv_take now_, Recv_end ctxErr now_ with
            | Some r, Some e => Some (if pick then r else e)
            | Some r, None => Some r
            | None, e => e
            end
  end.

(** PoolsReady, sorted by the rendering of the Pool. *)
Record PoolReadiness := { rd_Pool : PoolRef; rd_Ready : bool }.
Definition rd_le (a b : PoolReadiness) : Prop := ref_le (rd_Pool a) (rd_Pool b).
#[export] Instance rd_le_dec : RelDecision rd_le := fun a b => ref_le_dec _ _.
Definition PoolsReady (h : hub) : list PoolReadiness :=
  merge_sort rd_le ((fun kr => {| rd_Pool := rep_ref kr.2; rd_Ready := rep_ready kr.2 |}) <$> map_to_list (hb_available h)).

(** ** The hub as a transition system *)
Inductive hub_step (runnerNamespace : string) : hub -> hub -> Prop :=
  | HSObserve now pool h : -2147483648 <= Available (po_Status pool) < 2147483647 -> hub_step runnerNamespace h (observe runnerNamespace now pool h)
  | HSGone now name h : hub_step runnerNamespace h (gone now name h)
  | HSSubscribe e now order filter h : order ≡ₚ map_to_list (hb_available h) -> hub_step runnerNamespace h (hub_Subscribe e now order filter h).1
  | HSTake id h : hub_step runnerNamespace h (h <| hb_streams := alter (fun s => match Recv_take s with Some (s, _) => s | None => s end) id (hb_streams h) |>)
  | HSStreamClose id h : hub_step runnerNamespace h (stream_Close id h)
  | HSClose h : hub_step runnerNamespace h (hub_close h).
Inductive hub_reachable (runnerNamespace : string) : hub -> Prop :=
  | HR0 : hub_reachable runnerNamespace newHub
  | HRStep h h' : hub_reachable runnerNamespace h -> hub_step runnerNamespace h h' -> hub_reachable runnerNamespace h'.

(** What was last reported of a Pool. *)
Definition hub_count (h : hub) (ref : PoolRef) : Z :=
  match hb_available h !! ref_Name ref with Some r => if decide (rep_ref r = ref) then rep_count r else 0 | None => 0 end.
Definition standIns (ref : PoolRef) (n : Z) : gset string := list_to_set (standIn ref <$> seqZ 1 n).

(** The uids a list of events leaves available. *)
Definition move_uid (ref : PoolRef) (S : gset string) (m : PoolRef * EventType * string) : gset string :=
  let '(pool, typ, uid) := m in
  if decide (pool = ref) then match typ with VM_AVAILABLE => {[uid]} ∪ S | _ => S ∖ {[uid]} end else S.
Definition move_of (e : Event) : PoolRef * EventType * string := (ev_Pool e, ev_Type e, ev_VMUID e).
Definition uids (ref : PoolRef) (l : list Event) : gset string := foldl (move_uid ref) ∅ (move_of <$> l).

Lemma standIn_inj ref i j : standIn ref i = standIn ref j -> i = j.
Proof. unfold standIn. intros H. apply (inj (String.app _)) in H. apply (inj (String.app _)) in H. by apply (inj (pretty (A:=Z))) in H. Qed.

Lemma elem_of_standIns ref n u : u ∈ standIns ref n <-> exists i, 1 <= i <= n /\ u = standIn ref i.
Proof.
  unfold standIns. rewrite elem_of_list_to_set, list_elem_of_fmap. split.
  - intros (i & -> & Hi%elem_of_seqZ). exists i. split; [lia|done].
  - intros (i & Hi & ->). exists i. split; [done|]. apply elem_of_seqZ. lia.
Qed.

Lemma foldl_up ref js S : foldl (move_uid ref) S ((fun i => (ref, VM_AVAILABLE, standIn ref i)) <$> js) = list_to_set (standIn ref <$> js) ∪ S.
Proof.
  revert S. induction js as [|i js IH]; intros S; [apply leibniz_equiv; simpl; set_solver|]. rewrite !fmap_cons. simpl. rewrite IH.
  destruct (decide (ref = ref)); [|done]. apply leibniz_equiv. set_solver.
Qed.
Lemma foldl_down ref js S : foldl (move_uid ref) S ((fun i => (ref, VM_DELETED_ON_RELEASE, standIn ref i)) <$> js) = S ∖ list_to_set (standIn ref <$> js).
Proof.
  revert S. induction js as [|i js IH]; intros S; [rewrite fmap_nil; simpl; apply leibniz_equiv; set_solver|]. rewrite !fmap_cons. simpl. rewrite IH.
  destruct (decide (ref = ref)); [|done]. apply leibniz_equiv. set_solver.
Qed.
Lemma foldl_other ref (ms : list (PoolRef * EventType * string)) S : Forall (fun m => m.1.1 <> ref) ms -> foldl (move_uid ref) S ms = S.
Proof. revert S. induction ms as [|[[pool typ] u] ms IH]; intros S HF; [done|]. inversion HF as [|? ? Hm HF']; subst. simpl in *. destruct (decide (pool = ref)); [done|]. by apply IH. Qed.

(** Moving the count of a Pool moves its stand-ins. *)
Definition moves (last : reported) (ref : PoolRef) (count : Z) : list (PoolRef * EventType * string) :=
  let old := rep_ref last in
  let n := if decide (old = ref) then rep_count last else 0 in
  (if decide (old = ref) then [] else (fun i => (old, VM_DELETED_ON_RELEASE, standIn old i)) <$> downto (rep_count last) 0)
  ++ ((fun i => (ref, VM_AVAILABLE, standIn ref i)) <$> upto n count) ++ ((fun i => (ref, VM_DELETED_ON_RELEASE, standIn ref i)) <$> downto n count).

Lemma moves_same last ref count S : 0 <= rep_count last ->
  S = standIns ref (if decide (rep_ref last = ref) then rep_count last else 0) ->
  foldl (move_uid ref) S (moves last ref count) = standIns ref (Z.max count 0).
Proof.
  intros Hn HS. unfold moves. set (n := if decide (rep_ref last = ref) then rep_count last else 0) in *.
  assert (H0 : 0 <= n) by (unfold n; destruct (decide _); lia). rewrite foldl_app.
  replace (foldl (move_uid ref) S _) with S; [|symmetry; destruct (decide (rep_ref last = ref)) as [|Hne]; [done|apply foldl_other, Forall_fmap, Forall_true; done]].
  rewrite foldl_app, foldl_up, foldl_down. subst S. clearbody n. apply leibniz_equiv. intros u.
  rewrite elem_of_difference, elem_of_union, !elem_of_list_to_set, !list_elem_of_fmap, !elem_of_standIns. unfold upto, downto. split.
  - intros [[(i & -> & Hi%elem_of_seqZ)|(i & Hi & ->)] Hno].
    + exists i. split; [lia|done].
    + exists i. split; [|done]. destruct (decide (count < i)); [|lia]. destruct Hno. exists i. split; [done|].
      apply elem_of_reverse, elem_of_seqZ. lia.
  - intros (i & Hi & ->). split.
    + destruct (decide (i <= n)); [right; exists i; split; [lia|done]|]. left. exists i. split; [done|]. apply elem_of_seqZ. lia.
    + intros (j & Hj & Hin). apply standIn_inj in Hj as <-. apply elem_of_reverse, elem_of_seqZ in Hin. lia.
Qed.

Definition publish_all (now : time) (h : hub) (ms : list (PoolRef * EventType * string)) : hub :=
  foldl (fun h m => publishLocked m.1.1 m.1.2 now h m.2) h ms.

Lemma publish_fmap {A} now (f : A -> PoolRef * EventType * string) (l : list A) h :
  publish_all now h (f <$> l) = foldl (fun h i => publishLocked (f i).1.1 (f i).1.2 now h (f i).2) h l.
Proof. revert h. induction l as [|x l IH]; intros h; [done|]. apply IH. Qed.

Lemma publish_app now h ms1 ms2 : publish_all now h (ms1 ++ ms2) = publish_all now (publish_all now h ms1) ms2.
Proof. apply foldl_app. Qed.

Lemma publish_available now ms h : hb_available (publish_all now h ms) = hb_available h /\ hb_closed (publish_all now h ms) = hb_closed h.
Proof. revert h. induction ms as [|m ms IH]; intros h; [done|]. simpl. destruct (IH (publishLocked m.1.1 m.1.2 now h m.2)) as [-> ->]. done. Qed.

Lemma moveLocked_moves now name ref count h :
  let last := default reported0 (hb_available h !! name) in
  moveLocked now name ref count h =
    (publish_all now h (moves last ref count)) <| hb_available := <[name := {| rep_ref := ref; rep_count := Z.max count 0; rep_ready := false |}]> (hb_available h) |>.
Proof.
  cbv zeta. unfold moveLocked. set (last := default reported0 (hb_available h !! name)). clearbody last.
  rewrite <-(proj1 (publish_available now (moves last ref count) h)). unfold moves. rewrite !publish_app, !publish_fmap.
  destruct (decide (rep_ref last = ref)) as [He|Hne].
  - rewrite bool_decide_true by done. done.
  - rewrite bool_decide_false by done. rewrite publish_fmap. done.
Qed.

Definition move_ok (m : PoolRef * EventType * string) : Prop := (m.1.2 = VM_AVAILABLE \/ m.1.2 = VM_DELETED_ON_RELEASE) /\ m.2 <> "".
Record published (ms : list (PoolRef * EventType * string)) (s s' : stream) : Prop := {
  pb_filter : sm_filter s' = sm_filter s;
  pb_short : sm_short s' = sm_short s;
  pb_live : sm_dropped s' = false -> sm_dropped s = false;
  pb_uids : sm_dropped s' = false -> forall ref, wants s ref = true -> uids ref (sm_sent s') = foldl (move_uid ref) (uids ref (sm_sent s)) ms;
  pb_ok : Forall move_ok ms -> Forall move_ok (move_of <$> sm_sent s) -> Forall move_ok (move_of <$> sm_sent s') }.

Lemma published_offer e s : published [move_of e] s (offer e s).
Proof.
  unfold offer. destruct (sm_dropped s) eqn:Hd; simpl.
  { split; try done. by rewrite Hd. }
  destruct (wants s (ev_Pool e)) eqn:Hw; simpl.
  - destruct (Nat.ltb _ _); [|split; done]. split; simpl; try done.
    + intros _ ref _. unfold uids. by rewrite fmap_app, foldl_app.
    + intros HF Hs. rewrite fmap_app. by apply Forall_app.
  - split; try done. intros _ ref Hr. simpl. destruct (decide (ev_Pool e = ref)) as [<-|]; [congruence|done].
Qed.

Lemma published_trans ms1 ms2 s1 s2 s3 : published ms1 s1 s2 -> published ms2 s2 s3 -> published (ms1 ++ ms2) s1 s3.
Proof.
  intros [A1 A2 A3 A4 A5] [B1 B2 B3 B4 B5]. split; [congruence|congruence|auto| |].
  - intros Hd ref Hw. rewrite foldl_app. rewrite <-A4 by auto. apply B4; [done|]. unfold wants in *. by rewrite A1.
  - intros HF Hs. apply Forall_app in HF as [HF1 HF2]. auto.
Qed.

Lemma publish_streams now ms h id : 
  match hb_streams h !! id, hb_streams (publish_all now h ms) !! id with
  | Some s, Some s' => published ms s s'
  | None, None => True
  | _, _ => False
  end.
Proof.
  revert h. induction ms as [|m ms IH]; intros h; simpl.
  - destruct (hb_streams h !! id) as [s|]; [|done]. by split.
  - specialize (IH (publishLocked m.1.1 m.1.2 now h m.2)). unfold publishLocked at 1 in IH. simpl in IH. rewrite lookup_fmap in IH.
    destruct (hb_streams h !! id) as [s|]; simpl in *; [|done]. destruct (hb_streams _ !! id) as [s'|]; [|done].
    eapply (published_trans [m] ms); [|exact IH]. destruct m as [[pool typ] uid]. exact (published_offer (hub_event (hb_nextID h + 1) pool uid typ now) s).
Qed.

(** ** The invariant *)
Definition follows (h : hub) (s : stream) : Prop :=
  sm_dropped s = false -> sm_short s = false -> forall ref, wants s ref = true -> uids ref (sm_sent s) = standIns ref (hub_count h ref).
Record HInv (h : hub) : Prop := {
  hi_names : forall name r, hb_available h !! name = Some r -> ref_Name (rep_ref r) = name /\ 0 <= rep_count r;
  hi_streams : forall id s, hb_streams h !! id = Some s -> follows h s /\ Forall move_ok (move_of <$> sm_sent s);
  hi_fresh : forall id, id ∈ dom (hb_streams h) -> id < hb_next h }.

Lemma standIn_nonempty ref i : standIn ref i <> "".
Proof. unfold standIn. set (x := Itoa i). clearbody x. by destruct (ref_Name ref). Qed.
Lemma moves_ok last ref count : Forall move_ok (moves last ref count).
Proof.
  unfold moves. rewrite !Forall_app. split_and!.
  - destruct (decide _); [constructor|]. apply Forall_fmap, Forall_true. intros i. split; [by right|apply standIn_nonempty].
  - apply Forall_fmap, Forall_true. intros i. split; [by left|apply standIn_nonempty].
  - apply Forall_fmap, Forall_true. intros i. split; [by right|apply standIn_nonempty].
Qed.

Lemma hub_count_set h name ref count ref' : ref_Name ref = name ->
  hub_count (h <| hb_available := <[name := {| rep_ref := ref; rep_count := count; rep_ready := false |}]> (hb_available h) |>) ref'
  = if decide (ref' = ref) then count else if decide (ref_Name ref' = name) then 0 else hub_count h ref'.
Proof.
  intros Hn. unfold hub_count. simpl. destruct (decide (ref' = ref)) as [->|Hr].
  - rewrite Hn, lookup_insert_eq. simpl. by destruct (decide (ref = ref)).
  - destruct (decide (ref_Name ref' = name)) as [He|Hne]; [rewrite He, lookup_insert_eq; simpl; by destruct (decide (ref = ref'))|by rewrite lookup_insert_ne].
Qed.

(** One move, for the Pool it is about and for every other one. *)
Lemma moves_count h name ref count ref' S : HInv h -> ref_Name ref = name -> S = standIns ref' (hub_count h ref') ->
  foldl (move_uid ref') S (moves (default reported0 (hb_available h !! name)) ref count)
  = standIns ref' (if decide (ref' = ref) then Z.max count 0 else if decide (ref_Name ref' = name) then 0 else hub_count h ref').
Proof.
  intros HI Hn HS. set (last := default reported0 (hb_available h !! name)).
  assert (Hlast : 0 <= rep_count last /\ (rep_count last <> 0 -> ref_Name (rep_ref last) = name)).
  { unfold last. destruct (hb_available h !! name) as [r|] eqn:E; simpl; [|lia]. by destruct (hi_names h HI _ _ E). }
  destruct Hlast as [Hl0 Hl1].
  assert (Hcount : ref_Name ref' = name -> hub_count h ref' = if decide (rep_ref last = ref') then rep_count last else 0).
  { intros He. unfold hub_count, last. rewrite He. destruct (hb_available h !! name) as [r|]; simpl; [done|]. by destruct (decide _). }
  destruct (decide (ref' = ref)) as [->|Hr].
  - apply moves_same; [done|]. by rewrite HS, Hcount.
  - unfold moves. rewrite foldl_app, (foldl_other ref' (_ ++ _)).
    2: { apply Forall_app; split; apply Forall_fmap, Forall_true; intros i; simpl; congruence. }
    destruct (decide (ref_Name ref' = name)) as [He|Hne].
    + specialize (Hcount He). rewrite HS, Hcount. destruct (decide (rep_ref last = ref')) as [Hlr|Hlr].
      * destruct (decide (rep_ref last = ref)); [congruence|]. rewrite <-Hlr, foldl_down. apply leibniz_equiv. intros u.
        rewrite elem_of_difference, elem_of_list_to_set, list_elem_of_fmap, !elem_of_standIns. unfold downto. split.
        -- intros [(i & Hi & ->) Hno]. destruct Hno. exists i. split; [done|]. apply elem_of_reverse, elem_of_seqZ. lia.
        -- intros (i & Hi & _). lia.
      * destruct (decide (rep_ref last = ref)); [done|]. apply foldl_other, Forall_fmap, Forall_true. done.
    + rewrite HS. destruct (decide (rep_ref last = ref)); [done|]. destruct (decide (rep_count last = 0)) as [->|Hnz]; [done|].
      apply foldl_other, Forall_fmap, Forall_true. intros i. simpl. intros <-. specialize (Hl1 Hnz). done.
Qed.

Lemma HInv_move now name ref count h : HInv h -> ref_Name ref = name -> HInv (moveLocked now name ref count h).
Proof.
  intros HI Hn. rewrite moveLocked_moves. set (last := default reported0 (hb_available h !! name)).
  pose proof (publish_available now (moves last ref count) h) as [Hav _].
  split; simpl.
  - intros nm r [[<- <-]|[Hne Hr]]%lookup_insert_Some; simpl; [split; [done|lia]|]. by apply (hi_names h HI).
  - intros id s' Hs'. pose proof (publish_streams now (moves last ref count) h id) as HP. rewrite Hs' in HP.
    destruct (hb_streams h !! id) as [s|] eqn:Hs; [|done]. destruct (hi_streams h HI id s Hs) as [HF HO]. destruct HP as [P1 P2 P3 P4 P5].
    split; [|apply P5; [apply moves_ok|done]]. intros Hd Hsh ref' Hw. unfold wants in Hw. rewrite P1 in Hw.
    pose proof (moves_count h name ref count ref' _ HI Hn (HF (P3 Hd) ltac:(congruence) ref' Hw)) as HM. fold last in HM. rewrite P4 by done. rewrite HM. f_equal.
    assert (HE : forall av, hub_count ((publish_all now h (moves last ref count)) <| hb_available := av |>) ref' = hub_count (h <| hb_available := av |>) ref') by done.
    rewrite HE. symmetry. by apply hub_count_set.
  - intros id Hid. assert (Hx : hb_next (publish_all now h (moves last ref count)) = hb_next h).
    { generalize (moves last ref count). intros ms. clear. revert h. induction ms as [|m ms IH]; intros h; [done|]. simpl. by rewrite IH. }
    rewrite Hx. apply (hi_fresh h HI). apply elem_of_dom in Hid as [s' Hs']. apply elem_of_dom.
    pose proof (publish_streams now (moves last ref count) h id) as HP. rewrite Hs' in HP. by destruct (hb_streams h !! id).
Qed.

(** Only the counts matter to the invariant. *)
Lemma HInv_available h av : HInv h ->
  (forall name r, av !! name = Some r -> ref_Name (rep_ref r) = name /\ 0 <= rep_count r) ->
  (forall ref, hub_count (h <| hb_available := av |>) ref = hub_count h ref) -> HInv (h <| hb_available := av |>).
Proof.
  intros HI Hn Hc. split; simpl; [done| |apply (hi_fresh h HI)]. intros id s Hs. destruct (hi_streams h HI id s Hs) as [HF HO]. split; [|done].
  intros Hd Hsh ref Hw. rewrite Hc. by apply HF.
Qed.

Lemma HInv_observe rns now pool h : HInv h -> HInv (observe rns now pool h).
Proof.
  intros HI. unfold observe. destruct (hb_closed h); [done|]. set (h1 := moveLocked _ _ _ _ h).
  assert (H1 : HInv h1) by (by apply HInv_move). assert (Hl : is_Some (hb_available h1 !! po_Name pool)).
  { unfold h1. rewrite moveLocked_moves. simpl. by rewrite lookup_insert_eq. }
  clearbody h1. destruct Hl as [last Hl]. rewrite Hl. simpl. destruct (hi_names h1 H1 _ _ Hl) as [Hn Hc]. apply HInv_available; [done| |].
  - intros name r [[<- <-]|[Hne Hr]]%lookup_insert_Some; simpl; [done|]. by apply (hi_names h1 H1).
  - intros ref. unfold hub_count. simpl. destruct (decide (ref_Name ref = po_Name pool)) as [->|]; [|by rewrite lookup_insert_ne].
    rewrite lookup_insert_eq, Hl. done.
Qed.

Lemma HInv_gone now name h : HInv h -> HInv (gone now name h).
Proof.
  intros HI. unfold gone. destruct (hb_available h !! name) as [last|] eqn:E; [|done]. destruct (hb_closed h); [done|].
  destruct (hi_names h HI _ _ E) as [Hn _]. assert (H1 : HInv (moveLocked now name (rep_ref last) 0 h)) by (by apply HInv_move).
  set (h1 := moveLocked now name (rep_ref last) 0 h) in *.
  assert (Hl : hb_available h1 !! name = Some {| rep_ref := rep_ref last; rep_count := 0; rep_ready := false |}).
  { unfold h1. rewrite moveLocked_moves. simpl. by rewrite lookup_insert_eq. }
  clearbody h1. apply HInv_available; [done| |].
  - intros nm r [Hne Hr]%lookup_delete_Some. by apply (hi_names h1 H1).
  - intros ref. unfold hub_count. simpl. destruct (decide (ref_Name ref = name)) as [->|]; [|by rewrite lookup_delete_ne].
    rewrite lookup_delete_eq, Hl. simpl. by destruct (decide _).
Qed.

(** The replay names what is available. *)
Record replayed (refs : list (PoolRef * Z)) (h h' : hub) (s s' : stream) : Prop := {
  rp_hub : h' = h <| hb_nextID := hb_nextID h' |>;
  rp_filter : sm_filter s' = sm_filter s;
  rp_live : sm_dropped s' = sm_dropped s;
  rp_ok : Forall move_ok (move_of <$> sm_sent s) -> Forall move_ok (move_of <$> sm_sent s');
  rp_all : sm_short s' = false -> sm_short s = false
    /\ (move_of <$> sm_sent s') = (move_of <$> sm_sent s) ++ ((fun ri => (ri.1, VM_AVAILABLE, standIn ri.1 ri.2)) <$> refs) }.

Lemma replay_spec now refs h s : let '(h', s') := foldl (replay_one now) (h, s) refs in replayed refs h h' s s'.
Proof.
  revert h s. induction refs as [|[ref i] refs IH]; intros h s.
  - simpl. split; try done; [by destruct h|]. intros Hsh. by rewrite app_nil_r.
  - cbn [foldl replay_one]. destruct (Nat.ltb (buffered s) hub_subscriberBuffer).
    + specialize (IH (h <| hb_nextID := hb_nextID h + 1 |>) (s <| sm_sent := sm_sent s ++ [hub_event (hb_nextID h + 1) ref (standIn ref i) VM_AVAILABLE now] |>)).
      destruct (foldl _ _ refs) as [h' s']. destruct IH as [I1 I2 I3 I4 I5]. split; [exact I1|exact I2|exact I3| |].
      * intros HF. apply I4. simpl. rewrite fmap_app. apply Forall_app. split; [done|]. constructor; [|constructor]. split; [by left|apply standIn_nonempty].
      * intros Hsh. destruct (I5 Hsh) as [Hsh' ->]. split; [done|]. simpl. by rewrite fmap_app, <-app_assoc.
    + specialize (IH (h <| hb_nextID := hb_nextID h + 1 |>) (s <| sm_short := true |>)).
      destruct (foldl _ _ refs) as [h' s']. destruct IH as [I1 I2 I3 I4 I5]. split; [exact I1|exact I2|exact I3|exact I4|].
      intros Hsh. by destruct (I5 Hsh) as [Hsh' _].
Qed.

Definition replay_refs (filter : option PoolRef) (order : list (string * reported)) : list (PoolRef * Z) :=
  order ≫= fun kr => if match filter with None => true | Some f => bool_decide (f = rep_ref kr.2) end then (fun i => (rep_ref kr.2, i)) <$> upto 0 (rep_count kr.2) else [].

Lemma replay_uids h filter order ref : HInv h -> order ≡ₚ map_to_list (hb_available h) ->
  match filter with None => true | Some f => bool_decide (f = ref) end = true ->
  foldl (move_uid ref) ∅ ((fun ri => (ri.1, VM_AVAILABLE, standIn ri.1 ri.2)) <$> replay_refs filter order) = standIns ref (hub_count h ref).
Proof.
  intros HI Hord Hf.
  assert (HU : forall (l : list (PoolRef * Z)) S u, u ∈ foldl (move_uid ref) S ((fun ri => (ri.1, VM_AVAILABLE, standIn ri.1 ri.2)) <$> l)
    <-> u ∈ S \/ exists i, (ref, i) ∈ l /\ u = standIn ref i).
  { induction l as [|[r i] l IH]; intros S u.
    - simpl. split; [by left|]. intros [?|(i & Hi & _)]; [done|by apply not_elem_of_nil in Hi].
    - rewrite fmap_cons. simpl. rewrite IH. setoid_rewrite elem_of_cons. destruct (decide (r = ref)) as [->|Hne].
      + rewrite elem_of_union, elem_of_singleton. split; [intros [[->|?]|(j & ? & ?)]; [right; exists i|left|right; exists j]; auto|].
        intros [?|(j & [[= ->]|?] & ->)]; [by left; right|by left; left|right; by exists j].
      + split; [intros [?|(j & ? & ?)]; [left|right; exists j]; auto|]. intros [?|(j & [[= -> ->]|?] & ->)]; [by left|done|right; by exists j]. }
  apply leibniz_equiv. intros u. rewrite HU, elem_of_standIns. unfold replay_refs, hub_count. split.
  - intros [Hu|(i & Hin & ->)]; [set_solver|]. apply list_elem_of_bind in Hin as ([name r] & Hin & Hor). rewrite Hord in Hor. apply elem_of_map_to_list in Hor. simpl in Hin.
    destruct (match filter with None => true | Some f => bool_decide (f = rep_ref r) end); [|set_solver].
    apply list_elem_of_fmap in Hin as (j & [= -> <-] & Hj%elem_of_seqZ). destruct (hi_names h HI _ _ Hor) as [<- _]. rewrite Hor.
    destruct (decide _); [|done]. exists i. split; [lia|done].
  - intros (i & Hi & ->). right. exists i. split; [|done]. destruct (hb_available h !! ref_Name ref) as [r|] eqn:Hr; [|lia]. destruct (decide (rep_ref r = ref)) as [Hrr|]; [|lia].
    apply list_elem_of_bind. exists (ref_Name ref, r). simpl. split; [|rewrite Hord; by apply elem_of_map_to_list].
    rewrite Hrr, Hf. apply list_elem_of_fmap. exists i. split; [done|]. apply elem_of_seqZ. lia.
Qed.

Lemma HInv_subscribe e now order flt h : HInv h -> order ≡ₚ map_to_list (hb_available h) -> HInv (hub_Subscribe e now order flt h).1.
Proof.
  intros HI Hord. unfold hub_Subscribe. destruct e; [done|]. destruct (hb_closed h); [done|]. cbv zeta.
  change (order ≫= _) with (replay_refs flt order). set (s0 := {| sm_filter := flt; sm_sent := []; sm_taken := 0; sm_dropped := false; sm_short := false |}).
  pose proof (replay_spec now (replay_refs flt order) h s0) as HR. destruct (foldl _ _ _) as [h1 s1]. destruct HR as [R1 R2 R3 R4 R5]. simpl.
  assert (Hav : hb_available h1 = hb_available h) by (by rewrite R1). assert (Hst : hb_streams h1 = hb_streams h) by (by rewrite R1).
  assert (Hnx : hb_next h1 = hb_next h) by (by rewrite R1).
  split; simpl.
  - rewrite Hav. apply (hi_names h HI).
  - intros id s. rewrite Hst. intros [[<- <-]|[Hne Hs]]%lookup_insert_Some.
    + split; [|by apply R4]. intros Hd Hsh ref Hw. destruct (R5 Hsh) as [_ HS]. unfold uids. rewrite HS. simpl.
      unfold hub_count. simpl. rewrite Hav. apply (replay_uids h flt order ref HI Hord). unfold wants in Hw. by rewrite R2 in Hw.
    + destruct (hi_streams h HI id s Hs) as [HF HO]. split; [|done]. intros Hd Hsh ref Hw. unfold hub_count. simpl. rewrite Hav. by apply HF.
  - intros id. rewrite Hst, Hnx, dom_insert_L. intros [->%elem_of_singleton|Hid]%elem_of_union; [lia|]. pose proof (hi_fresh h HI id Hid). lia.
Qed.

Lemma HInv_streams h (f : Z -> stream -> stream) :
  HInv h -> (forall id s, hb_streams h !! id = Some s -> sm_filter (f id s) = sm_filter s /\ sm_sent (f id s) = sm_sent s /\ sm_short (f id s) = sm_short s /\ (sm_dropped s = true -> sm_dropped (f id s) = true)) ->
  HInv (h <| hb_streams := map_imap (fun id s => Some (f id s)) (hb_streams h) |>).
Proof.
  intros HI Hf. split; simpl; [apply (hi_names h HI)| |].
  - intros id s'. rewrite map_lookup_imap. destruct (hb_streams h !! id) as [s|] eqn:Hs; [|done]. simpl. intros [= <-].
    destruct (Hf id s Hs) as (F1 & F2 & F3 & F4). destruct (hi_streams h HI id s Hs) as [HF HO]. rewrite F2. split; [|done].
    intros Hd Hsh ref Hw. unfold wants in Hw. rewrite F1 in Hw. rewrite F2. apply HF; [|congruence|done]. destruct (sm_dropped s); [|done]. by rewrite F4 in Hd.
  - intros id [s' Hs']%elem_of_dom. apply (hi_fresh h HI), elem_of_dom. rewrite map_lookup_imap in Hs'. by destruct (hb_streams h !! id).
Qed.

Lemma alter_imap (f : stream -> stream) id (m : gmap Z stream) : alter f id m = map_imap (fun i s => Some (if decide (i = id) then f s else s)) m.
Proof.
  apply map_eq. intros i. rewrite map_lookup_imap. destruct (decide (id = i)) as [->|Hne].
  - rewrite lookup_alter_eq. destruct (m !! i); simpl; [|done]. by destruct (decide (i = i)).
  - rewrite lookup_alter_ne by done. destruct (m !! i); simpl; [|done]. by destruct (decide (i = id)).
Qed.
Lemma fmap_imap (f : stream -> stream) (m : gmap Z stream) : f <$> m = map_imap (fun _ s => Some (f s)) m.
Proof. apply map_eq. intros i. rewrite map_lookup_imap, lookup_fmap. by destruct (m !! i). Qed.

Lemma HInv_step rns h h' : HInv h -> hub_step rns h h' -> HInv h'.
Proof.
  intros HI. destruct 1.
  - by apply HInv_observe.
  - by apply HInv_gone.
  - by apply HInv_subscribe.
  - rewrite alter_imap. apply HInv_streams; [done|]. intros i s _. destruct (decide _); [|done]. unfold Recv_take. by destruct (sm_sent s !! sm_taken s).
  - unfold stream_Close. rewrite alter_imap. apply HInv_streams; [done|]. intros i s _. by destruct (decide _).
  - assert (HI' : HInv (h <| hb_closed := true |>)) by (destruct HI as [H1 H2 H3]; by split).
    pose proof (HInv_streams _ (fun _ s => s <| sm_dropped := true |>) HI' (fun _ _ _ => conj eq_refl (conj eq_refl (conj eq_refl (fun _ => eq_refl))))) as HX.
    unfold hub_close. rewrite fmap_imap. destruct h. exact HX.
Qed.
Lemma HInv_reachable rns h : hub_reachable rns h -> HInv h.
Proof. induction 1 as [|h h' _ IH Hs]; [by split|by eapply HInv_step]. Qed.

(** ** The Tracker behind the hub

    What a Pool of the Tracker goes through: events of the stream, and
    accepted answers of GetPool. *)
Inductive tracker_input := TIEvent (e : Event) | TIPoll (sz : Z) (st : PoolStatus).
Definition track_one (ref : PoolRef) (p : trackedPool) (i : tracker_input) : trackedPool :=
  match i with
  | TIEvent e => if decide (ev_Pool e = ref) then (apply_pool e p).1 else p
  | TIPoll sz st => resynchronise sz st p
  end.
Definition input_event (i : tracker_input) : option Event := match i with TIEvent e => Some e | TIPoll _ _ => None end.

Lemma apply_named ref e p : move_ok (move_of e) ->
  named (available (track_one ref p (TIEvent e))) = move_uid ref (named (available p)) (move_of e).
Proof.
  intros [Ht Hu]. simpl in *. destruct (decide (ev_Pool e = ref)); [|done].
  unfold apply_pool. set (q := p <| generation := _ |>). change (available p) with (available q). clearbody q.
  destruct (apply_type e q) as [q' woken] eqn:E.
  assert (HQ : named (available q') = match ev_Type e with VM_AVAILABLE => {[ev_VMUID e]} ∪ named (available q) | _ => named (available q) ∖ {[ev_VMUID e]} end).
  { unfold apply_type in E. destruct Ht as [Ht|Ht]; rewrite Ht in E |- *.
    - unfold add in E. rewrite bool_decide_false in E by done. cbn [available set_field eta_record eta_trackedPool] in E. destruct (bool_decide _) eqn:Hb.
      + injection E as <- _. simpl. apply bool_decide_eq_true in Hb. apply leibniz_equiv. set_solver.
      + destruct (take _ _) as [c took] eqn:Etk. assert (Hn : named c = {[ev_VMUID e]} ∪ named (available q)).
        { unfold take in Etk. repeat (case_match; simplify_eq; try done). }
        destruct took; injection E as <- _; exact Hn.
    - injection E as <- _. simpl. unfold remove. rewrite bool_decide_false by done. destruct (bool_decide _) eqn:Hb; simpl; [done|].
      apply bool_decide_eq_false in Hb. apply leibniz_equiv. set_solver. }
  simpl. rewrite <-HQ. repeat case_match; done.
Qed.

Lemma track_named ref l p : Forall move_ok (move_of <$> omap input_event l) ->
  named (available (foldl (track_one ref) p l)) = foldl (move_uid ref) (named (available p)) (move_of <$> omap input_event l).
Proof.
  revert p. induction l as [|[e|sz st] l IH]; intros p HF; [done| |].
  - simpl in HF. inversion HF as [|? ? H1 H2]; subst.
    change (named (available (foldl (track_one ref) (track_one ref p (TIEvent e)) l))
      = foldl (move_uid ref) (move_uid ref (named (available p)) (move_of e)) (move_of <$> omap input_event l)).
    rewrite IH by done. by rewrite apply_named.
  - change (named (available (foldl (track_one ref) (resynchronise sz st p) l)) = foldl (move_uid ref) (named (available p)) (move_of <$> omap input_event l)).
    rewrite IH by done. f_equal. cbn. unfold rebaseline_count. destruct (available p) as [n u a]. cbn. by destruct (_ <? 0), (_ =? 0).
Qed.

Lemma apply_wakes eid ref uid at_ p : uid <> "" -> uid ∉ named (available p) -> (apply_pool (hub_event eid ref uid VM_AVAILABLE at_) p).2 = true.
Proof.
  intros Hu Hn. unfold apply_pool, apply_type. cbn [ev_Type ev_VMUID hub_event].
  set (q := p <| generation := _ |> <| exhausted := false |> <| provisioning := _ |>). assert (Hq : uid ∉ named (available q)) by exact Hn. clearbody q.
  unfold add. rewrite bool_decide_false by done. rewrite bool_decide_false by done. by destruct (take _ _).
Qed.
Lemma standIns_size ref n : 0 <= n -> Z.of_nat (size (standIns ref n)) = n.
Proof.
  intros Hn. unfold standIns. rewrite size_list_to_set.
  - rewrite length_fmap, length_seqZ. lia.
  - apply NoDup_fmap_2_strong; [|apply NoDup_seqZ]. intros i j _ _. apply standIn_inj.
Qed.

(** C10: the Tracker's count follows the status of the Pool.  Whatever Pools
    come, go, change and move between namespaces, the events a subscriber was
    sent that has not been dropped, and whose replay fitted, name exactly as
    many MicroVMs available as the hub last saw in the status of the Pool.
    So a Tracker that has folded them, with accepted answers of GetPool in
    between, knows exactly these; its count is that of the status whenever it
    knows of no others, and after an answer that agrees with the hub; and
    when the count rises its waiters are woken. *)
Theorem hub_followed rns h id s ref p0 l :
  hub_reachable rns h -> hb_streams h !! id = Some s -> sm_dropped s = false -> sm_short s = false -> wants s ref = true ->
  named (available p0) = ∅ -> omap input_event l = sm_sent s -> hub_count h ref < 2147483647 ->
  let p := foldl (track_one ref) p0 l in
  let count := hub_count h ref in
  named (available p) = standIns ref count
  /\ (unnamed (available p) = 0 -> total (available p) = count)
  /\ (forall sz st, Available st = count -> declared p = true -> availableCount (resynchronise sz st p) = count)
  /\ (forall i at_ eid, count < i -> (apply_pool (hub_event eid ref (standIn ref i) VM_AVAILABLE at_) p).2 = true).
Proof.
  intros HR Hs Hd Hsh Hw Hp0 Hl Hlt p count. pose proof (HInv_reachable rns h HR) as HI. destruct (hi_streams h HI id s Hs) as [HF HO].
  assert (Hc : 0 <= count).
  { unfold count, hub_count. destruct (hb_available h !! ref_Name ref) as [r|] eqn:E; [|lia]. destruct (decide _); [|lia]. by destruct (hi_names h HI _ _ E). }
  assert (Hn : named (available p) = standIns ref count).
  { unfold p. rewrite track_named by (by rewrite Hl). rewrite Hp0, Hl. by apply HF. }
  assert (Hsz : Z.of_nat (size (named (available p))) = count) by (rewrite Hn; by apply standIns_size).
  change (hub_count h ref) with count in Hlt. clearbody p count. split_and!.
  - done.
  - intros Hu. unfold total. rewrite Hsz, Hu, (int32_id count), Z.add_0_r, int32_id; lia.
  - intros sz st Hst Hdec.
    assert (Hr : rebaseline_count count (available p) = {| named := named (available p); unnamed := 0; accounted := ∅ |}).
    { unfold rebaseline_count. rewrite Hsz, (int32_id count) by lia. rewrite Z.sub_diag. by destruct (available p). }
    unfold availableCount, resynchronise. cbn. rewrite Hdec, Hst, Hr. unfold total. cbn. rewrite Hsz, (int32_id count), Z.add_0_r, int32_id; lia.
  - intros i at_ eid Hi. apply apply_wakes; [apply standIn_nonempty|]. rewrite Hn, elem_of_standIns. intros (j & Hj & E). apply standIn_inj in E. lia.
Qed.

(** A round of the watch is a sequence of steps. *)
Definition counts_ok (pools : list PoolResource) : Prop := Forall (fun p => -2147483648 <= Available (po_Status p) < 2147483647) pools.
Definition watched (evs : list watch_event) : list PoolResource :=
  omap (fun e => match e with WatchAdded p | WatchModified p => Some p | _ => None end) evs.

Lemma watchOnce_reachable rns now items evs h :
  hub_reachable rns h -> counts_ok (default [] items) -> counts_ok (watched evs) -> hub_reachable rns (watchOnce rns now items evs h).1.
Proof.
  intros HR Hi He. destruct items as [items|]; [|done]. simpl in *.
  assert (H1 : hub_reachable rns (resync rns now items h)).
  { unfold resync. assert (H0 : hub_reachable rns (foldl (fun h p => observe rns now p h) h items)).
    { clear He. revert h HR Hi. induction items as [|p items IH]; intros h HR Hi; [done|]. inversion Hi; subst. simpl. apply IH; [|done].
      eapply HRStep; [exact HR|by constructor]. }
    revert H0. generalize (foldl (fun h p => observe rns now p h) h items). intros h1 H0. generalize (missing items h1) as names. intros names.
    revert h1 H0. induction names as [|n names IH]; intros h1 H0; [done|]. simpl. apply IH. eapply HRStep; [exact H0|constructor]. }
  revert H1. generalize (resync rns now items h). intros h1. revert h1 He. induction evs as [|e evs IH]; intros h1 He H1; [done|].
  destruct e; simpl in *; try done; try (by apply IH).
  - inversion He; subst. apply IH; [done|]. eapply HRStep; [exact H1|by constructor].
  - inversion He; subst. apply IH; [done|]. eapply HRStep; [exact H1|by constructor].
  - apply IH; [done|]. eapply HRStep; [exact H1|constructor].
Qed.

(** The wait between two rounds is never shorter than 100 ms nor longer than 10 s. *)
Lemma rewatch_bounds wait ok : minRewatch <= wait <= maxRewatch ->
  let '(now_, next) := rewatch wait ok in minRewatch <= now_ <= maxRewatch /\ minRewatch <= next <= maxRewatch.
Proof. unfold rewatch, minRewatch, maxRewatch, millisecond, second. destruct ok; lia. Qed.

Definition demo_poolResource (name : string) (n : Z) : PoolResource :=
  {| po_Name := name; po_Namespace := "runners"; po_Version := 1; po_Labels := ∅; po_Annotations := {[annotationPoolNamespace := "ns"]};
     po_Spec := {| rp_Template := {| mt_Provider := None; mt_VCPU := 1; mt_MemoryInMb := 1; mt_Metadata := None; mt_Labels := ∅; mt_Kernel := Kernel0;
                     mt_Initrd := None; mt_RootVolume := RVolume0; mt_AdditionalVolumes := []; mt_Interfaces := []; mt_CPUConfig := None |};
                   rp_Size := 4; rp_NodeSelector := ∅; rp_Replenish := RImmediateOnLease; rp_MinSize := None; rp_Create := []; rp_PreLease := [];
                   rp_FailurePolicy := RQuarantine; rp_HeartbeatInterval := None; rp_ExpiryThreshold := None |};
     po_Status := {| Available := n; Leased := 0; Provisioning := 0; Quarantined := 0 |}; po_Ready := true |}.
Definition demo_ref : PoolRef := {| ref_Name := "small"; ref_Namespace := "ns" |}.

(** Three are there when the Tracker subscribes; then two, then five. *)
Lemma hub_followed_witness : exists h s,
  hub_reachable "ns" h /\ hb_streams h !! 0 = Some s /\ hub_count h demo_ref = 5
  /\ total (available (foldl (track_one demo_ref) (newPool 0) (TIEvent <$> sm_sent s))) = 5.
Proof.
  set (h1 := (watchOnce "ns" 0 (Some [demo_poolResource "small" 3; demo_poolResource "large" 1]) [] newHub).1).
  set (h2 := (hub_Subscribe None 1 (map_to_list (hb_available h1)) (Some demo_ref) h1).1).
  set (h3 := (watchOnce "ns" 2 (Some [demo_poolResource "small" 2]) [WatchModified (demo_poolResource "small" 5)] h2).1).
  assert (R1 : hub_reachable "ns" h1) by (apply watchOnce_reachable; [constructor|repeat constructor; done|constructor]).
  assert (R2 : hub_reachable "ns" h2) by (eapply HRStep; [exact R1|by constructor]).
  assert (R3 : hub_reachable "ns" h3) by (apply watchOnce_reachable; [exact R2|repeat constructor; done|repeat constructor; done]).
  set (s := default {| sm_filter := None; sm_sent := []; sm_taken := 0; sm_dropped := true; sm_short := true |} (hb_streams h3 !! 0)).
  assert (Hs : hb_streams h3 !! 0 = Some s) by (vm_compute; reflexivity).
  assert (Hc : hub_count h3 demo_ref = 5) by (vm_compute; reflexivity).
  assert (Hd : sm_dropped s = false) by (vm_compute; reflexivity).
  assert (Hsh : sm_short s = false) by (vm_compute; reflexivity).
  assert (Hw : wants s demo_ref = true) by (vm_compute; reflexivity).
  assert (Hl : omap input_event (TIEvent <$> sm_sent s) = sm_sent s) by (vm_compute; reflexivity).
  assert (Hu : unnamed (available (foldl (track_one demo_ref) (newPool 0) (TIEvent <$> sm_sent s))) = 0) by (vm_compute; reflexivity).
  clearbody s h3. exists h3, s. split; [exact R3|]. split; [exact Hs|]. split; [exact Hc|]. rewrite <-Hc.
  apply (hub_followed "ns" h3 0 s demo_ref (newPool 0) (TIEvent <$> sm_sent s) R3 Hs Hd Hsh Hw eq_refl Hl ltac:(rewrite Hc; reflexivity)). exact Hu.
Defined.
