(* ===== verification/ClaimLease.v ===== *)
(** * internal/poolmgr/claim: the backend and its claims (backend.go, lease.go)

    A claim of the Client Library is an object: its number, with the name,
    MicroVM, Node and agent address it bound with.  What the library and the
    API server answer are arguments.  The claims the backend lets go of in
    the background are recorded in [bk_letGo] in the order it began. *)
From S2P Require Import Prelude GoModel PoolTypes ConfigTypes ClaimPool.

Record boundClaim := { bc_Name : string; bc_MicroVMUID : string; bc_NodeName : string; bc_AgentAddress : string }.
Record Backend := {
  bk_profiles : gmap string ProfileConfig; bk_claims : option Z; bk_held : gmap string Z; bk_objects : gmap Z boundClaim;
  bk_next : Z; bk_letGo : list Z; bk_released : list Z; bk_closed : bool }.
#[export] Instance eta_Backend : Eta Backend :=
  fun r => {| bk_profiles := bk_profiles r; bk_claims := bk_claims r; bk_held := bk_held r; bk_objects := bk_objects r;
              bk_next := bk_next r; bk_letGo := bk_letGo r; bk_released := bk_released r; bk_closed := bk_closed r |}.

(** ** backend.go *)
Definition claim_defaultCallDeadline : duration := DefaultPoolManagerDeadline.
Definition claim_withDefaults (o : Options) : Options :=
  if o_Deadline o <=? 0
  then {| o_Namespace := o_Namespace o; o_RunnerName := o_RunnerName o; o_RunnerNamespace := o_RunnerNamespace o; o_Holder := o_Holder o;
          o_Deadline := claim_defaultCallDeadline |}
  else o.
Definition profilesByName (l : list ProfileConfig) : gmap string ProfileConfig := foldl (fun m p => <[p_Name p := p]> m) ∅ l.

(** [config] is whether a client configuration was given; [scheme] and
    [client] what building those answered. *)
Definition claim_New (config : bool) (scheme client : option error) (profiles : list ProfileConfig) (o : Options) : result (Options * Backend) :=
  let o := claim_withDefaults o in
  if negb config then Err (ENew "claim: a Kubernetes client configuration is required")
  else if String.eqb (o_Namespace o) "" then Err (ENew "claim: a namespace is required")
  else if String.eqb (o_RunnerName o) "" then Err (ENew "claim: a runner name is required")
  else if String.eqb (o_Holder o) "" then Err (ENew "claim: a holder service account is required")
  else match scheme, client with
       | Some e, _ | None, Some e => Err (EWrap "claim" [e])
       | None, None => Ok (o, {| bk_profiles := profilesByName profiles; bk_claims := None; bk_held := ∅; bk_objects := ∅; bk_next := 0;
                                 bk_letGo := []; bk_released := []; bk_closed := false |})
       end.
Definition SetProfiles (profiles : list ProfileConfig) (b : Backend) : Backend := b <| bk_profiles := profilesByName profiles |>.
Definition Held (leaseID : string) (b : Backend) : option Z := bk_held b !! leaseID.
Definition claim_Close (b : Backend) : Backend := b <| bk_closed := true |>.

(** The calls of a held claim go through the gate. *)
Definition errClaimClosed : error := ENew "claim: the backend is closed".
Definition gated {A} (answer : error + A) (b : Backend) : error + A := if bk_closed b then inl errClaimClosed else answer.

Definition servingCA (answer : api_error + gmap string string) (AppendCertsFromPEM : string -> bool) (key : string) : result unit :=
  match answer with
  | inl AENotFound => Err (EWrap "claim: reading the serving CA" [api_cause AENotFound])
  | inl e => Err (translate "reading the serving CA" e)
  | inr data => if String.eqb (label key data) "" || negb (AppendCertsFromPEM (label key data))
                then Err (ENew "claim: ConfigMap holds no PEM certificate") else Ok tt
  end.
(** The client is built once: the first one that is stored stays. *)
Definition claimClient_store (c : Z) (b : Backend) : Backend * Z :=
  match bk_claims b with Some c' => (b, c') | None => (b <| bk_claims := Some c |>, c) end.

(** ** lease.go *)
Definition releaseTimeout : duration := 30 * second.

Definition letGo (cl : Z) (b : Backend) : Backend := b <| bk_letGo := bk_letGo b ++ [cl] |>.
Definition forget (leaseID : string) (cl : Z) (b : Backend) : Backend :=
  if decide (bk_held b !! leaseID = Some cl) then letGo cl (b <| bk_held := delete leaseID (bk_held b) |>) else b.

Inductive pending_reason := ReasonPoolExhausted | ReasonNoEligibleHost | ReasonPoolNotFound | ReasonBatteryUnavailable | ReasonOther.
Definition pendingError (ref : PoolRef) (p : pending_reason) : option error :=
  let op := "claim: claiming from " +:+ PoolRef_String ref in
  match p with
  | ReasonPoolExhausted | ReasonNoEligibleHost => Some (EWrap op [ESentinel ErrExhausted])
  | ReasonPoolNotFound => Some (EWrap op [ESentinel ErrNotFound])
  | ReasonBatteryUnavailable => Some (EWrap op [ESentinel ErrUnavailable])
  | ReasonOther => None
  end.

Inductive claim_error := CELeaseLost | CEApi (e : api_error).
Definition claimError (ref : PoolRef) (e : claim_error) : error :=
  let op := "claiming from " +:+ PoolRef_String ref in
  match e with
  | CELeaseLost => EWrap op [ESentinel ErrUnavailable; ENew "lease lost"]
  | CEApi AENotFound => EWrap op [api_cause AENotFound]
  | CEApi AEAlreadyExists => EWrap op [api_cause AEAlreadyExists]
  | CEApi e => translate op e
  end.

Definition claimOf (cl : boundClaim) : result Claim :=
  if String.eqb (bc_MicroVMUID cl) "" then Err (ENew ("claim " +:+ bc_Name cl +:+ " is Bound but names no MicroVM uid"))
  else if String.eqb (bc_NodeName cl) "" then Err (ENew ("claim " +:+ bc_Name cl +:+ " is Bound but names no node"))
  else Ok {| LeaseID := bc_Name cl; VMUID := bc_MicroVMUID cl; NetworkInterfaces := [];
             claim_Host := {| hr_Name := bc_NodeName cl; hr_Address := bc_AgentAddress cl |} |}.

(** A claim the library returned: a new object, ... *)
Definition bound (cl : boundClaim) (b : Backend) : Backend * Z :=
  (b <| bk_objects := <[bk_next b := cl]> (bk_objects b) |> <| bk_next := bk_next b + 1 |>, bk_next b).
(** ... which is held, or let go if its status is not complete. *)
Definition settle (ref : PoolRef) (id : Z) (cl : boundClaim) (b : Backend) : Backend * result Claim :=
  match claimOf cl with
  | Err e => (letGo id b, Err (EWrap ("claim: claiming from " +:+ PoolRef_String ref) [e]))
  | Ok c => (b <| bk_held := <[LeaseID c := id]> (bk_held b) |>, Ok c)
  end.

(** What an attempt meets: the client, the reasons OnPending was given in
    order, the answer of Claim, and ctx.Err after it. *)
Record claim_env := {
  ce_client : option error; ce_pending : list pending_reason; ce_claim : claim_error + boundClaim; ce_ctxErr : option sentinel }.
(** [stopped] is what the last call of OnPending left. *)
Definition stopped (ref : PoolRef) (ps : list pending_reason) : option error :=
  match last ps with Some p => pendingError ref p | None => None end.
Definition is_deadline (e : claim_error) : bool := match e with CEApi AEDeadlineExceeded => true | _ => false end.

Definition ClaimVM (ref : PoolRef) (ce : claim_env) (b : Backend) : Backend * result Claim :=
  match ce_client ce with
  | Some e => (b, Err e)
  | None =>
      match ce_claim ce with
      | inr cl => let '(b, id) := bound cl b in settle ref id cl b
      | inl err =>
          (b, Err match stopped ref (ce_pending ce), ce_ctxErr ce with
                  | Some e, None => e
                  | _, Some c => EWrap ("claim: claiming from " +:+ PoolRef_String ref) [ESentinel c]
                  | None, None =>
                      if is_deadline err
                      then EWrap ("claim: claiming from " +:+ PoolRef_String ref) [ESentinel ErrUnavailable; ESentinel CtxDeadlineExceeded]
                      else claimError ref err
                  end)
      end
  end.

(** ** Heartbeat *)
Inductive host_ready := HostReadyTrue | HostReadyFalse | HostReadyUnknown.
Record claimObject := {
  cl_Expired : bool; cl_Deleting : bool; cl_MicroVM : option string; cl_HostReady : option host_ready; cl_LeaseExpiresAt : option time }.
Definition lost (obj : claimObject) (cl : boundClaim) : option string :=
  if cl_Expired obj then Some "is Expired"
  else if cl_Deleting obj then Some "is being deleted"
  else if match cl_MicroVM obj with None => true | Some uid => negb (String.eqb uid (bc_MicroVMUID cl)) end then Some "no longer holds the claimed MicroVM"
  else None.
Definition hostErr (obj : claimObject) : option error :=
  match cl_HostReady obj with Some HostReadyFalse => Some (ENew "the host of the claim is not ready") | _ => None end.

Definition hostNotReady (leaseID : string) (cl : Z) (err : error) (b : Backend) : Backend * result time :=
  (forget leaseID cl b, Err (EWrap "claim: heartbeat" [ESentinel ErrNotFound; err])).
Definition lose (leaseID : string) (cl : Z) (b : Backend) : Backend := forget leaseID cl b.

Record beat_env := { be_err : option error; be_hostErr : option error; be_get : api_error + claimObject }.
Definition claim_Heartbeat (leaseID : string) (be : beat_env) (b : Backend) : Backend * result time :=
  match Held leaseID b with
  | None => (b, Err (EWrap "claim: heartbeat: no claim is held" [ESentinel ErrNotFound]))
  | Some id =>
      match be_err be with
      | Some err => (lose leaseID id b, Err (EWrap "claim: heartbeat" [ESentinel ErrNotFound; err]))
      | None =>
          match be_hostErr be with
          | Some err => hostNotReady leaseID id err b
          | None =>
              match be_get be with
              | inl e => (match e with AENotFound => lose leaseID id b | _ => b end, Err (translate ("reading claim " +:+ leaseID) e))
              | inr obj =>
                  match bk_objects b !! id with
                  | None => (b, Err panicked)
                  | Some cl =>
                      match lost obj cl with
                      | Some why => (lose leaseID id b, Err (EWrap ("claim: heartbeat: claim " +:+ leaseID +:+ " " +:+ why) [ESentinel ErrNotFound]))
                      | None =>
                          match hostErr obj with
                          | Some err => hostNotReady leaseID id err b
                          | None =>
                              match cl_LeaseExpiresAt obj with
                              | None => (b, Err (EWrap "claim: heartbeat: no lease expiry yet" [ESentinel ErrUnavailable]))
                              | Some t => (b, Ok t)
                              end
                          end
                      end
                  end
              end
          end
      end
  end.

(** ** ReleaseVM, around the call of Release *)
Definition released (leaseID : string) (cl : Z) (b : Backend) : Backend :=
  let b := b <| bk_released := bk_released b ++ [cl] |> in
  if decide (bk_held b !! leaseID = Some cl) then b <| bk_held := delete leaseID (bk_held b) |> else b.
(** [release] is what the Release of the claim answers, [del] what the API
    server answers to a delete. *)
Definition claim_ReleaseVM (leaseID : string) (release del : option api_error) (b : Backend) : Backend * option error :=
  match Held leaseID b with
  | Some id => match release with
               | Some e => (b, Some (translate ("deleting claim " +:+ leaseID) e))
               | None => (released leaseID id b, None)
               end
  | None => (b, match del with
                | None | Some AENotFound => None
                | Some e => Some (translate ("deleting claim " +:+ leaseID) e)
                end)
  end.

(** ** Claims, Heartbeats and Releases interleaved

    A step is one critical section.  [cs_pending] are the claims that have
    bound and that their ClaimVM has not settled yet.  A Heartbeat and a
    Release work with the claim they found held earlier, which may be gone
    by the time they act.  The API server gives a new claim a name no claim
    that is held, or about to be, has. *)
Record claims := { cs_backend : Backend; cs_pending : gset Z }.
Inductive claims_step : claims -> claims -> Prop :=
  | CSBound cl b p : bk_held b !! bc_Name cl = None -> (forall id cl', id ∈ p -> bk_objects b !! id = Some cl' -> bc_Name cl' <> bc_Name cl) ->
      claims_step {| cs_backend := b; cs_pending := p |} {| cs_backend := (bound cl b).1; cs_pending := {[bk_next b]} ∪ p |}
  | CSSettle ref id cl b p : id ∈ p -> bk_objects b !! id = Some cl ->
      claims_step {| cs_backend := b; cs_pending := p |} {| cs_backend := (settle ref id cl b).1; cs_pending := p ∖ {[id]} |}
  | CSForget leaseID id cl b p : bk_objects b !! id = Some cl -> bc_Name cl = leaseID ->
      claims_step {| cs_backend := b; cs_pending := p |} {| cs_backend := forget leaseID id b; cs_pending := p |}
  | CSReleased leaseID id cl b p : bk_objects b !! id = Some cl -> bc_Name cl = leaseID -> id ∉ p ->
      claims_step {| cs_backend := b; cs_pending := p |} {| cs_backend := released leaseID id b; cs_pending := p |}
  | CSClose b p : claims_step {| cs_backend := b; cs_pending := p |} {| cs_backend := claim_Close b; cs_pending := p |}
  | CSProfiles l b p : claims_step {| cs_backend := b; cs_pending := p |} {| cs_backend := SetProfiles l b; cs_pending := p |}.
Inductive claims_reachable (b0 : Backend) : claims -> Prop :=
  | CR0 : claims_reachable b0 {| cs_backend := b0; cs_pending := ∅ |}
  | CRStep y y' : claims_reachable b0 y -> claims_step y y' -> claims_reachable b0 y'.

(** Where a claim is. *)
Definition is_held (b : Backend) (id : Z) : Prop := exists n, bk_held b !! n = Some id.
Definition let_go (b : Backend) (id : Z) : Prop := id ∈ bk_letGo b \/ id ∈ bk_released b.
Record CInv (y : claims) : Prop := {
  ci_next : 0 <= bk_next (cs_backend y);
  ci_objects : forall id, is_Some (bk_objects (cs_backend y) !! id) <-> 0 <= id < bk_next (cs_backend y);
  ci_held : forall n id, bk_held (cs_backend y) !! n = Some id ->
    exists cl, bk_objects (cs_backend y) !! id = Some cl /\ bc_Name cl = n /\ id ∉ cs_pending y /\ ~ let_go (cs_backend y) id;
  ci_pending : forall id, id ∈ cs_pending y ->
    exists cl, bk_objects (cs_backend y) !! id = Some cl /\ bk_held (cs_backend y) !! bc_Name cl = None /\ ~ let_go (cs_backend y) id
      /\ forall id' cl', id' ∈ cs_pending y -> bk_objects (cs_backend y) !! id' = Some cl' -> bc_Name cl' = bc_Name cl -> id' = id;
  ci_somewhere : forall id, 0 <= id < bk_next (cs_backend y) -> id ∈ cs_pending y \/ is_held (cs_backend y) id \/ let_go (cs_backend y) id;
  ci_gone : forall id, let_go (cs_backend y) id -> is_Some (bk_objects (cs_backend y) !! id);
  ci_once : NoDup (bk_letGo (cs_backend y)) }.

Lemma CInv_bound cl b p : CInv {| cs_backend := b; cs_pending := p |} -> bk_held b !! bc_Name cl = None ->
  (forall id cl', id ∈ p -> bk_objects b !! id = Some cl' -> bc_Name cl' <> bc_Name cl) ->
  CInv {| cs_backend := (bound cl b).1; cs_pending := {[bk_next b]} ∪ p |}.
Proof.
  intros [I0 I1 I2 I3 I4 I5 I6] Hh Hp. simpl in *.
  assert (Hold : forall id c, bk_objects b !! id = Some c -> id <> bk_next b).
  { intros id c Hc ->. assert (0 <= bk_next b < bk_next b) by (apply I1; by rewrite Hc). lia. }
  assert (Hnew : ~ let_go b (bk_next b)) by (intros [c Hc]%I5; by apply Hold in Hc).
  split; simpl.
  - lia.
  - intros id. destruct (decide (id = bk_next b)) as [->|Hne]; [rewrite lookup_insert_eq; split; [lia|by eexists]|].
    rewrite lookup_insert_ne, I1 by done. lia.
  - intros n id Hn. destruct (I2 n id Hn) as (c & Hc & Hcn & Hnp & Hng). exists c. rewrite lookup_insert_ne by (apply not_eq_sym; by eapply Hold).
    split_and!; try done. intros [->%elem_of_singleton|Hin]%elem_of_union; [by eapply Hold|done].
  - intros id [->%elem_of_singleton|Hin]%elem_of_union.
    + exists cl. rewrite lookup_insert_eq. split_and!; try done. intros id' c' [->%elem_of_singleton|Hin']%elem_of_union Hc' Hcn; [done|].
      destruct (I3 id' Hin') as (c & Hc & _). rewrite lookup_insert_ne in Hc' by (apply not_eq_sym; by eapply Hold). by destruct (Hp id' c' Hin' Hc').
    + destruct (I3 id Hin) as (c & Hc & Hch & Hcg & Hu). exists c. rewrite lookup_insert_ne by (apply not_eq_sym; by eapply Hold). split_and!; try done.
      intros id' c' [->%elem_of_singleton|Hin']%elem_of_union Hc' Hcn.
      * rewrite lookup_insert_eq in Hc'. injection Hc' as <-. by destruct (Hp id c Hin Hc).
      * destruct (I3 id' Hin') as (c2 & Hc2 & _). rewrite lookup_insert_ne in Hc' by (apply not_eq_sym; by eapply Hold). by apply (Hu id' c').
  - intros id Hid. destruct (decide (id = bk_next b)) as [->|Hne]; [left; set_solver|]. destruct (I4 id ltac:(lia)) as [Hin|H]; [left; set_solver|by right].
  - intros id [c Hc]%I5. rewrite lookup_insert_ne by (apply not_eq_sym; by eapply Hold). by rewrite Hc.
  - done.
Qed.

Lemma elem_of_snoc (x y : Z) l : x ∈ l ++ [y] <-> x ∈ l \/ x = y.
Proof. rewrite elem_of_app, list_elem_of_singleton. done. Qed.

(** A claim that is held nowhere any more is let go once. *)
Lemma CInv_letGo id b p : CInv {| cs_backend := b; cs_pending := p |} -> id ∈ p ->
  CInv {| cs_backend := letGo id b; cs_pending := p ∖ {[id]} |}.
Proof.
  intros [I0 I1 I2 I3 I4 I5 I6] Hid. simpl in *. destruct (I3 id Hid) as (c & Hc & Hch & Hcg & Hu). split; simpl; try done.
  - intros n i Hn. destruct (I2 n i Hn) as (c' & Hc' & Hcn & Hnp & Hng). exists c'. split_and!; try done; [set_solver|].
    intros [[Hin| ->]%elem_of_snoc|Hin]; [by destruct Hng; left|done|by destruct Hng; right].
  - intros i [Hin Hne]%elem_of_difference. destruct (I3 i Hin) as (c' & Hc' & Hch' & Hcg' & Hu'). exists c'. split_and!; try done.
    + intros [[Hx| ->]%elem_of_snoc|Hx]; [by destruct Hcg'; left|set_solver|by destruct Hcg'; right].
    + intros i' c2 [Hi' _]%elem_of_difference. by apply Hu'.
  - intros i Hi. unfold let_go. simpl. setoid_rewrite elem_of_snoc. destruct (decide (i = id)) as [->|Hne]; [by right; right; left; right|].
    destruct (I4 i Hi) as [Hin|[Hh|[Hg|Hg]]]; [left; set_solver|by right; left|by right; right; left; left|by right; right; right].
  - intros i [[Hin| ->]%elem_of_snoc|Hin]; [by apply I5; left|by rewrite Hc|by apply I5; right].
  - apply NoDup_app. split_and!; [done| |apply NoDup_singleton]. intros x Hx ->%list_elem_of_singleton. destruct Hcg. by left.
Qed.

Lemma CInv_hold id cl b p : CInv {| cs_backend := b; cs_pending := p |} -> id ∈ p -> bk_objects b !! id = Some cl ->
  CInv {| cs_backend := b <| bk_held := <[bc_Name cl := id]> (bk_held b) |>; cs_pending := p ∖ {[id]} |}.
Proof.
  intros [I0 I1 I2 I3 I4 I5 I6] Hid Hcl. simpl in *. destruct (I3 id Hid) as (c & Hc & Hch & Hcg & Hu). rewrite Hcl in Hc. injection Hc as <-.
  split; simpl; try done.
  - intros n i [[<- <-]|[Hne Hn]]%lookup_insert_Some.
    + exists cl. split_and!; try done. set_solver.
    + destruct (I2 n i Hn) as (c' & Hc' & Hcn & Hnp & Hng). exists c'. split_and!; try done. set_solver.
  - intros i [Hin Hne]%elem_of_difference. destruct (I3 i Hin) as (c' & Hc' & Hch' & Hcg' & Hu'). exists c'. split_and!; try done.
    + destruct (decide (bc_Name cl = bc_Name c')) as [He|Hn]; [|by rewrite lookup_insert_ne]. destruct Hne. apply elem_of_singleton. by eapply Hu.
    + intros i' c2 [Hi' _]%elem_of_difference. by apply Hu'.
  - intros i Hi. destruct (decide (i = id)) as [->|Hne]; [right; left; exists (bc_Name cl); simpl; by rewrite lookup_insert_eq|].
    destruct (I4 i Hi) as [Hin|[[n Hn]|Hg]]; [left; set_solver| |by right; right]. right; left. exists n. simpl. rewrite lookup_insert_ne; [done|].
    intros <-. by rewrite Hch in Hn.
Qed.

(** The claim [id] stops being held, and is let go of in one of two ways. *)
Lemma CInv_drop n id b p (b' : Backend) : CInv {| cs_backend := b; cs_pending := p |} -> bk_held b !! n = Some id ->
  bk_next b' = bk_next b -> bk_objects b' = bk_objects b -> bk_held b' = delete n (bk_held b) ->
  (bk_letGo b' = bk_letGo b ++ [id] /\ bk_released b' = bk_released b \/ bk_letGo b' = bk_letGo b /\ bk_released b' = bk_released b ++ [id]) ->
  CInv {| cs_backend := b'; cs_pending := p |}.
Proof.
  intros [I0 I1 I2 I3 I4 I5 I6] Hn E1 E2 E3 E4. simpl in *. destruct (I2 n id Hn) as (cl & Hcl & Hcn & Hnp & Hng).
  assert (HG : forall i, let_go b' i <-> let_go b i \/ i = id).
  { intros i. unfold let_go. destruct E4 as [[-> ->]|[-> ->]]; rewrite elem_of_snoc; tauto. }
  split; simpl; rewrite ?E1, ?E2, ?E3; try done.
  - intros m i [Hne Hm]%lookup_delete_Some. destruct (I2 m i Hm) as (c & Hc & Hcm & Hp' & Hg'). exists c. split_and!; try done.
    rewrite HG. intros [?| ->]; [done|]. rewrite Hcl in Hc. congruence.
  - intros i Hin. destruct (I3 i Hin) as (c & Hc & Hch & Hcg & Hu). exists c. split_and!; try done.
    + apply lookup_delete_None. by right.
    + rewrite HG. intros [?| ->]; [done|by apply Hnp].
  - intros i Hi. rewrite HG. destruct (decide (i = id)) as [->|Hne]; [by right; right; right|]. destruct (I4 i Hi) as [?|[[m Hm]|?]]; [by left| |by right; right; left].
    right; left. exists m. rewrite E3. apply lookup_delete_Some. split; [|done]. congruence.
  - intros i. rewrite HG. intros [?| ->]; [by apply I5|by rewrite Hcl].
  - destruct E4 as [[-> _]|[-> _]]; [|done]. apply NoDup_app. split_and!; [done| |apply NoDup_singleton]. intros x Hx ->%list_elem_of_singleton. destruct Hng. by left.
Qed.

Lemma CInv_step y y' : CInv y -> claims_step y y' -> CInv y'.
Proof.
  intros HI. destruct 1 as [cl b p Hh Hp|ref id cl b p Hid Hcl|leaseID id cl b p Hcl Hn|leaseID id cl b p Hcl Hn Hnp|b p|l b p].
  - by apply CInv_bound.
  - unfold settle, claimOf. destruct (String.eqb _ _); [by apply CInv_letGo|]. destruct (String.eqb _ _); [by apply CInv_letGo|]. by apply CInv_hold.
  - unfold forget. destruct (decide _) as [He|]; [|done]. eapply (CInv_drop leaseID id b p); [exact HI|exact He|reflexivity|reflexivity|reflexivity|by left].
  - unfold released. simpl. destruct (decide _) as [He|Hne].
    + eapply (CInv_drop leaseID id b p); [exact HI|exact He|reflexivity|reflexivity|reflexivity|by right].
    + destruct HI as [I0 I1 I2 I3 I4 I5 I6]. simpl in *.
      assert (HG : forall i, let_go (b <| bk_released := bk_released b ++ [id] |>) i <-> let_go b i \/ i = id) by (intros i; unfold let_go; simpl; rewrite elem_of_snoc; tauto).
      split; simpl; try done.
      * intros n i Hi. destruct (I2 n i Hi) as (c & Hc & Hcn & Hp' & Hg'). exists c. split_and!; try done. rewrite HG. intros [?| ->]; [done|].
        rewrite Hcl in Hc. injection Hc as <-. congruence.
      * intros i Hin. destruct (I3 i Hin) as (c & Hc & Hch & Hcg & Hu). exists c. split_and!; try done. rewrite HG. intros [?| ->]; done.
      * intros i Hi. rewrite HG. destruct (I4 i Hi) as [?|[?|?]]; tauto.
      * intros i. rewrite HG. intros [?| ->]; [by apply I5|by rewrite Hcl].
  - destruct HI as [I0 I1 I2 I3 I4 I5 I6]. by split.
  - destruct HI as [I0 I1 I2 I3 I4 I5 I6]. by split.
Qed.

Lemma CInv_New config scheme client l o o' b0 : claim_New config scheme client l o = Ok (o', b0) -> CInv {| cs_backend := b0; cs_pending := ∅ |}.
Proof.
  unfold claim_New. repeat (case_match; try done). intros [= _ <-]. split; simpl; try done; try lia; try constructor.
  - by intros [x Hx].
  - lia.
  - intros id [Hx|Hx]; by apply not_elem_of_nil in Hx.
Qed.
Lemma CInv_reachable b0 y : CInv {| cs_backend := b0; cs_pending := ∅ |} -> claims_reachable b0 y -> CInv y.
Proof. intros H0. induction 1 as [|y y' _ IH Hs]; [done|]. by eapply CInv_step. Qed.

(** C12: no claim is lost.  However ClaimVM, Heartbeat, ReleaseVM, a reload and
    Close interleave, every claim that ever bound is in exactly one place:
    with the ClaimVM that is about to settle it, held under its own name, or
    let go of, that is, its deletion has been asked for; and no claim is let
    go of twice in the background. *)
Theorem claims_accounted config scheme client l o o' b0 y id :
  claim_New config scheme client l o = Ok (o', b0) -> claims_reachable b0 y -> 0 <= id < bk_next (cs_backend y) ->
  (id ∈ cs_pending y /\ ~ is_held (cs_backend y) id /\ ~ let_go (cs_backend y) id
   \/ id ∉ cs_pending y /\ is_held (cs_backend y) id /\ ~ let_go (cs_backend y) id
   \/ id ∉ cs_pending y /\ ~ is_held (cs_backend y) id /\ let_go (cs_backend y) id)
  /\ (forall n, bk_held (cs_backend y) !! n = Some id -> exists cl, bk_objects (cs_backend y) !! id = Some cl /\ bc_Name cl = n)
  /\ NoDup (bk_letGo (cs_backend y)).
Proof.
  intros HN HR Hid. pose proof (CInv_reachable b0 y (CInv_New _ _ _ _ _ _ _ HN) HR) as [I0 I1 I2 I3 I4 I5 I6].
  assert (HP : id ∈ cs_pending y -> ~ is_held (cs_backend y) id /\ ~ let_go (cs_backend y) id).
  { intros Hin. destruct (I3 id Hin) as (c & Hc & _ & Hg & _). split; [|done]. intros [n Hn]. by destruct (I2 n id Hn) as (_ & _ & _ & ? & _). }
  assert (HH : is_held (cs_backend y) id -> id ∉ cs_pending y /\ ~ let_go (cs_backend y) id).
  { intros [n Hn]. by destruct (I2 n id Hn) as (_ & _ & _ & ? & ?). }
  split_and!; [|by intros n Hn; destruct (I2 n id Hn) as (c & ? & ? & _); exists c|done].
  destruct (I4 id Hid) as [Hin|[Hh|Hg]]; [left|right; left|right; right]; tauto.
Qed.

(** A Lease reported lost is given up.  Heartbeat answers NotFound exactly
    when the claim is no longer held afterwards, and then its deletion has
    been asked for, as the Scheduler makes no release call for it; on any
    other error the claim stays held.  It answers with an expiry only from a
    claim that is bound to the same MicroVM, not expired, not being deleted,
    on a Host that is not reported unready. *)
Theorem claim_heartbeat_verdict config scheme client l o o' b0 y leaseID be :
  claim_New config scheme client l o = Ok (o', b0) -> claims_reachable b0 y ->
  let b := cs_backend y in
  let '(b', res) := claim_Heartbeat leaseID be b in
  match res with
  | Ok t => b' = b /\ exists id cl obj, bk_held b !! leaseID = Some id /\ bk_objects b !! id = Some cl /\ be_get be = inr obj
      /\ cl_Expired obj = false /\ cl_Deleting obj = false /\ cl_MicroVM obj = Some (bc_MicroVMUID cl)
      /\ cl_HostReady obj <> Some HostReadyFalse /\ cl_LeaseExpiresAt obj = Some t
  | Err e => if errors_Is e ErrNotFound
             then bk_held b' !! leaseID = None /\ forall id, bk_held b !! leaseID = Some id -> let_go b' id
             else b' = b /\ is_Some (bk_held b !! leaseID)
  end.
Proof.
  intros HN HR. pose proof (CInv_reachable b0 y (CInv_New _ _ _ _ _ _ _ HN) HR) as HI. intros b. unfold claim_Heartbeat, Held.
  destruct (bk_held b !! leaseID) as [id|] eqn:Hh; [|by split].
  assert (HF : bk_held (forget leaseID id b) !! leaseID = None /\ forall id', Some id = Some id' -> let_go (forget leaseID id b) id').
  { unfold forget. rewrite decide_True by done. split; [by apply lookup_delete_eq|]. intros id' [= <-]. left. simpl. apply elem_of_snoc. by right. }
  destruct (ci_held y HI _ _ Hh) as (cl & Hcl & _).
  destruct (be_err be); [exact HF|]. destruct (be_hostErr be); [exact HF|]. destruct (be_get be) as [e|obj] eqn:HG.
  - destruct e; simpl; try (by split); exact HF.
  - fold b in Hcl. rewrite Hcl. unfold lost. destruct (cl_Expired obj) eqn:He; [exact HF|]. destruct (cl_Deleting obj) eqn:Hd; [exact HF|].
    destruct (cl_MicroVM obj) as [uid|] eqn:Hu; [|exact HF]. destruct (String.eqb_spec uid (bc_MicroVMUID cl)) as [->|]; simpl; [|exact HF].
    unfold hostErr. destruct (cl_HostReady obj) as [[]|] eqn:Hr; try exact HF.
    all: destruct (cl_LeaseExpiresAt obj) eqn:Hx; simpl; (split; [done|]); first [by eexists|exists id, cl, obj; rewrite Hr; split_and!; done].
Qed.

(** What a claim attempt answers.  A claim that bound with its MicroVM and
    Node is held under its name from then on; one that bound without them is
    let go.  Otherwise nothing is held, and the error tells the Scheduler
    what to do: ErrExhausted if the Pool has nothing to give, ErrNotFound if
    the Pool is unknown, ErrUnavailable if battery or the API server did not
    answer in time, and the caller's own context error if that ended. *)
Theorem ClaimVM_verdict ref ce b :
  (forall c, ce_ctxErr ce = Some c -> c = CtxCanceled \/ c = CtxDeadlineExceeded) -> ce_client ce = None ->
  let '(b', res) := ClaimVM ref ce b in
  match ce_claim ce with
  | inr cl => match res with
              | Ok c => claimOf cl = Ok c /\ LeaseID c = bc_Name cl /\ VMUID c = bc_MicroVMUID cl /\ hr_Name (claim_Host c) = bc_NodeName cl
                  /\ bk_held b' = <[bc_Name cl := bk_next b]> (bk_held b) /\ bk_letGo b' = bk_letGo b
              | Err _ => (bc_MicroVMUID cl = "" \/ bc_NodeName cl = "") /\ bk_held b' = bk_held b /\ bk_letGo b' = bk_letGo b ++ [bk_next b]
              end
  | inl err => b' = b /\ exists e, res = Err e
      /\ (errors_Is e ErrExhausted = true <-> ce_ctxErr ce = None /\ (last (ce_pending ce) = Some ReasonPoolExhausted \/ last (ce_pending ce) = Some ReasonNoEligibleHost))
      /\ (errors_Is e ErrNotFound = true <-> ce_ctxErr ce = None /\ last (ce_pending ce) = Some ReasonPoolNotFound)
      /\ (errors_Is e CtxCanceled = true /\ ce_ctxErr ce = Some CtxCanceled \/ errors_Is e CtxDeadlineExceeded = true /\ ce_ctxErr ce = Some CtxDeadlineExceeded
          \/ ce_ctxErr ce = None)
      /\ (ce_ctxErr ce = None -> stopped ref (ce_pending ce) = None -> is_deadline err = true \/ err = CELeaseLost -> errors_Is e ErrUnavailable = true)
  end.
Proof.
  intros Hctx Hcl. unfold ClaimVM. rewrite Hcl. destruct (ce_claim ce) as [err|cl] eqn:HC.
  - split; [done|]. eexists. split; [done|]. unfold stopped. destruct (ce_ctxErr ce) as [c|] eqn:Hx.
    + destruct (last (ce_pending ce)) as [[]|]; destruct (Hctx c eq_refl) as [-> | ->]; simpl; naive_solver.
    + destruct (last (ce_pending ce)) as [[]|]; simpl; try (split_and!; naive_solver).
      all: destruct err as [|[]]; simpl; naive_solver.
  - unfold settle. simpl. unfold claimOf. destruct (String.eqb_spec (bc_MicroVMUID cl) ""); [split; [by left|done]|].
    destruct (String.eqb_spec (bc_NodeName cl) ""); [split; [by right|done]|]. done.
Qed.

Definition demo_bound : boundClaim := {| bc_Name := "small-x7"; bc_MicroVMUID := "vm-1"; bc_NodeName := "node-a"; bc_AgentAddress := "10.0.0.1:9091" |}.
Definition demo_backend : Backend :=
  match claim_New true None None [] demo_options with Ok (_, b) => b
  | Err _ => {| bk_profiles := ∅; bk_claims := None; bk_held := ∅; bk_objects := ∅; bk_next := 0; bk_letGo := []; bk_released := []; bk_closed := false |} end.
Definition demo_claimRef : PoolRef := {| ref_Name := "small"; ref_Namespace := "ns" |}.
Definition demo_held : Backend := (settle demo_claimRef 0 demo_bound (bound demo_bound demo_backend).1).1.

Lemma demo_held_reachable : claims_reachable demo_backend {| cs_backend := demo_held; cs_pending := ∅ |}.
Proof.
  assert (R1 : claims_reachable demo_backend {| cs_backend := (bound demo_bound demo_backend).1; cs_pending := {[0]} ∪ ∅ |}).
  { eapply CRStep; [constructor|]. apply (CSBound demo_bound demo_backend ∅); [reflexivity|set_solver]. }
  replace (∅ : gset Z) with (({[0]} ∪ ∅) ∖ {[0]} : gset Z) by set_solver.
  eapply CRStep; [exact R1|]. apply (CSSettle demo_claimRef 0 demo_bound); [set_solver|reflexivity].
Qed.

Lemma claims_accounted_witness : exists y, claims_reachable demo_backend y /\ 0 <= 0 < bk_next (cs_backend y) /\ NoDup (bk_letGo (cs_backend y)) /\ is_held (cs_backend y) 0.
Proof.
  exists {| cs_backend := demo_held; cs_pending := ∅ |}. split; [exact demo_held_reachable|]. split; [vm_compute; split; [discriminate|reflexivity]|].
  split; [|exists "small-x7"; vm_compute; reflexivity].
  apply (claims_accounted true None None [] demo_options demo_options demo_backend _ 0 eq_refl demo_held_reachable). vm_compute. split; [discriminate|reflexivity].
Defined.

Lemma claim_heartbeat_verdict_witness :
  let '(b', res) := claim_Heartbeat "small-x7" {| be_err := None; be_hostErr := None; be_get := inl AENotFound |} demo_held in
  bk_held b' !! "small-x7" = None /\ forall id, bk_held demo_held !! "small-x7" = Some id -> let_go b' id.
Proof.
  exact (claim_heartbeat_verdict true None None [] demo_options demo_options demo_backend {| cs_backend := demo_held; cs_pending := ∅ |} "small-x7"
    {| be_err := None; be_hostErr := None; be_get := inl AENotFound |} eq_refl demo_held_reachable).
Defined.

Lemma ClaimVM_verdict_witness :
  exists e, (ClaimVM demo_claimRef {| ce_client := None; ce_pending := [ReasonOther; ReasonPoolExhausted]; ce_claim := inl (CEApi AECanceled); ce_ctxErr := None |} demo_backend).2 = Err e
    /\ errors_Is e ErrExhausted = true.
Proof.
  destruct (ClaimVM_verdict demo_claimRef {| ce_client := None; ce_pending := [ReasonOther; ReasonPoolExhausted]; ce_claim := inl (CEApi AECanceled); ce_ctxErr := None |} demo_backend
    ltac:(discriminate) eq_refl) as (_ & e & He & Hx & _).
  exists e. split; [exact He|]. apply Hx. split; [reflexivity|by left].
Defined.
