(* ===== verification/Declaration.v ===== *)
(** * internal/poolmgr/declare.go: the Declaration of the Runner's Pools

    A Declaration remembers the spec of every Pool and whether the Pool
    Manager has it, declares them on Sync, retries on Run's timer, and again
    on the Redeclare of a claim that found its Pool gone.  The map is guarded
    by a mutex, which is not held while the Pool Manager is called: a declare
    is a critical section that copies the spec, a call, a critical section
    that records the outcome, and the call of the Tracker. *)
From S2P Require Import Prelude GoModel PoolTypes ConfigTypes Spec SchedTypes Tracker HostTable Resolve PoolDecl PoolDeclThms.

Definition defaultDeclareRetryInterval : duration := 30 * second.

(** Which of the interfaces are set, and the interval. *)
Record DeclarationConfig := { df_Builder : bool; df_Selector : bool; df_Declarer : bool; df_RetryInterval : duration }.
(** The interval a Declaration retries at. *)
Definition NewDeclaration (cfg : DeclarationConfig) : result duration :=
  if negb (df_Builder cfg) then Err (ENew "poolmgr: declaration needs a SpecBuilder")
  else if negb (df_Selector cfg) then Err (ENew "poolmgr: declaration needs a HostSelector")
  else if negb (df_Declarer cfg) then Err (ENew "poolmgr: declaration needs a Declarer")
  else Ok (if df_RetryInterval cfg <=? 0 then defaultDeclareRetryInterval else df_RetryInterval cfg).

Record declaredPool := { dp_profile : string; dp_spec : PoolSpec; dp_ok : bool; dp_err : option error }.
#[export] Instance eta_declaredPool : Eta declaredPool :=
  fun r => {| dp_profile := dp_profile r; dp_spec := dp_spec r; dp_ok := dp_ok r; dp_err := dp_err r |}.

Record Declaration (W : Type) := { dn_pools : gmap PoolRef declaredPool; dn_tracker : option PoolTracker; dn_pm : W }.
Arguments dn_pools {W}. Arguments dn_tracker {W}. Arguments dn_pm {W}. Arguments Build_Declaration {W}.
#[export] Instance eta_Declaration W : Eta (Declaration W) :=
  fun r => {| dn_pools := dn_pools r; dn_tracker := dn_tracker r; dn_pm := dn_pm r |}.

(** ** The critical sections *)
Section Sections.
Context {W : Type}.
Implicit Types d : Declaration W.

Definition decl_refs (d : Declaration W) : list PoolRef := merge_sort ref_le (map_to_list (dn_pools d)).*1.
Definition declaration_Spec (ref : PoolRef) (d : Declaration W) : option PoolSpec := dp_spec <$> dn_pools d !! ref.
Definition Declared (ref : PoolRef) (d : Declaration W) : bool :=
  match dn_pools d !! ref with Some st => dp_ok st | None => false end.

(** Sync's: the Pools no Profile refers to are dropped and untracked, the
    others get the new spec and keep what is known of them. *)
Definition untracked (specs : gmap PoolRef declaredPool) (d : Declaration W) : list PoolRef :=
  filter (fun ref => specs !! ref = None) (map_to_list (dn_pools d)).*1.
Definition respecified (old new : option declaredPool) : option declaredPool :=
  match new with
  | None => None
  | Some st => Some match old with
                    | Some existing => existing <| dp_profile := dp_profile st |> <| dp_spec := dp_spec st |>
                    | None => st
                    end
  end.
Definition sync_swap (specs : gmap PoolRef declaredPool) (d : Declaration W) : Declaration W :=
  {| dn_pools := merge respecified (dn_pools d) specs;
     dn_tracker := (fun t => foldl (fun t ref => Untrack ref t) t (untracked specs d)) <$> dn_tracker d;
     dn_pm := dn_pm d |}.

Definition declare_record (ref : PoolRef) (err : option error) (d : Declaration W) : Declaration W :=
  match dn_pools d !! ref with
  | Some current => d <| dn_pools := <[ref := current <| dp_ok := match err with None => true | Some _ => false end |> <| dp_err := err |>]> (dn_pools d) |>
  | None => d
  end.
Definition declare_track (ref : PoolRef) (ok : bool) (d : Declaration W) : Declaration W :=
  d <| dn_tracker := Track ref ok <$> dn_tracker d |>.
End Sections.

Section Operations.
Context {Template : Type} (Parse : string -> result Template) (Execute : Template -> string -> result string).
Context {W : Type} `{PoolAdmin W} (env1 env2 : W -> W) (runnerName namespace : string).

Definition build_spec (p : ProfileConfig) (inventory : list HostEntry) : result PoolSpec :=
  Build Parse Execute p {| si_RunnerName := runnerName; si_Namespace := namespace; si_Hosts := Select p inventory |}.

(** The loop of Sync that builds the specs. *)
Definition sync_spec (inventory : list HostEntry) (acc : gmap PoolRef declaredPool * list error) (p : ProfileConfig)
    : gmap PoolRef declaredPool * list error :=
  let '(specs, errs) := acc in
  match build_spec p inventory with
  | Err err => (specs, errs ++ [EWrap ("profile " +:+ p_Name p) [err]])
  | Ok spec =>
      match specs !! sp_Ref spec with
      | Some existing => (specs, errs ++ [ENew ("profiles " +:+ dp_profile existing +:+ " and " +:+ p_Name p +:+ " both declare pool " +:+ PoolRef_String (sp_Ref spec))])
      | None => (<[sp_Ref spec := {| dp_profile := p_Name p; dp_spec := spec; dp_ok := false; dp_err := None |}]> specs, errs)
      end
  end.
Definition sync_specs (profiles : list ProfileConfig) (inventory : list HostEntry) : gmap PoolRef declaredPool * list error :=
  foldl (sync_spec inventory) (∅, []) profiles.

(** [declare], when nothing else runs between its sections. *)
Definition declaration_declare (ref : PoolRef) (d : Declaration W) : Declaration W * option error :=
  match dn_pools d !! ref with
  | None => (d, None)
  | Some state =>
      let '(w, r) := Declarer_Declare env1 env2 (dp_spec state) (dn_pm d) in
      let err := match r with Ok _ => None | Err e => Some e end in
      let d := declare_record ref err (d <| dn_pm := w |>) in
      match err with
      | Some e => (declare_track ref false d, Some e)
      | None => (declare_track ref true d, None)
      end
  end.

Fixpoint declare_refs (rs : list PoolRef) (d : Declaration W) : Declaration W * list error :=
  match rs with
  | [] => (d, [])
  | ref :: rs =>
      let '(d, err) := declaration_declare ref d in
      let '(d, errs) := declare_refs rs d in
      (d, match err with Some e => e :: errs | None => errs end)
  end.

Definition Sync (profiles : list ProfileConfig) (inventory : list HostEntry) (d : Declaration W) : Declaration W * list error :=
  let '(specs, errs) := sync_specs profiles inventory in
  let d := sync_swap specs d in
  let '(d, errs') := declare_refs (decl_refs d) d in
  (d, errs ++ errs').

(** [done ref] is whether the context has ended when the declaration of
    [ref] has failed. *)
Fixpoint retry_refs (done : PoolRef -> bool) (rs : list PoolRef) (d : Declaration W) : Declaration W :=
  match rs with
  | [] => d
  | ref :: rs =>
      if match dn_pools d !! ref with Some state => negb (dp_ok state) | None => false end
      then match declaration_declare ref d with
           | (d, Some _) => if done ref then d else retry_refs done rs d
           | (d, None) => retry_refs done rs d
           end
      else retry_refs done rs d
  end.
Definition retryFailed (done : PoolRef -> bool) (d : Declaration W) : Declaration W := retry_refs done (decl_refs d) d.

Definition Redeclare (ref : PoolRef) (d : Declaration W) : Declaration W * option error :=
  match dn_pools d !! ref with
  | None => (d, Some (ENew ("poolmgr: pool " +:+ PoolRef_String ref +:+ " is not declared by any profile")))
  | Some _ => declaration_declare ref d
  end.

(** ** Interleaving

    The declares in flight, by number: each has copied its spec, has its
    answer, or has recorded it.  The sections of Sync, Run and Redeclare are
    interleaved with them, and with other clients of the Pool Manager. *)
Inductive in_flight := Copied (ref : PoolRef) (spec : PoolSpec) | Answered (ref : PoolRef) (err : option error) | Recorded (ref : PoolRef) (ok : bool).
Record DSys := { dy_decl : Declaration W; dy_calls : gmap Z in_flight; dy_next : Z }.
Inductive dinput :=
  | DSync (profiles : list ProfileConfig) (inventory : list HostEntry)
  | DBegin (ref : PoolRef)
  | DStep (i : Z)
  | DWorld (f : W -> W).

Definition dstep (i : dinput) (y : DSys) : option DSys :=
  let d := dy_decl y in
  match i with
  | DSync profiles inventory => Some {| dy_decl := sync_swap (sync_specs profiles inventory).1 d; dy_calls := dy_calls y; dy_next := dy_next y |}
  | DBegin ref =>
      match dn_pools d !! ref with
      | None => Some y
      | Some state => Some {| dy_decl := d; dy_calls := <[dy_next y := Copied ref (dp_spec state)]> (dy_calls y); dy_next := dy_next y + 1 |}
      end
  | DStep i =>
      match dy_calls y !! i with
      | None => None
      | Some (Copied ref spec) =>
          let '(w, r) := Declarer_Declare env1 env2 spec (dn_pm d) in
          let err := match r with Ok _ => None | Err e => Some e end in
          Some {| dy_decl := d <| dn_pm := w |>; dy_calls := <[i := Answered ref err]> (dy_calls y); dy_next := dy_next y |}
      | Some (Answered ref err) =>
          Some {| dy_decl := declare_record ref err d;
                  dy_calls := <[i := Recorded ref (match err with None => true | Some _ => false end)]> (dy_calls y); dy_next := dy_next y |}
      | Some (Recorded ref ok) =>
          Some {| dy_decl := declare_track ref ok d; dy_calls := delete i (dy_calls y); dy_next := dy_next y |}
      end
  | DWorld f => Some {| dy_decl := d <| dn_pm := f (dn_pm d) |>; dy_calls := dy_calls y; dy_next := dy_next y |}
  end.
Fixpoint dsteps (l : list dinput) (y : DSys) : option DSys :=
  match l with [] => Some y | i :: l => match dstep i y with Some y => dsteps l y | None => None end end.
End Operations.
Arguments Build_DSys {W}. Arguments dy_decl {W}. Arguments dy_calls {W}. Arguments dy_next {W}.
Arguments DSync {W}. Arguments DBegin {W}. Arguments DStep {W}. Arguments DWorld {W}.

Definition Declaration0 {W} (t : PoolTracker) (w : W) : Declaration W := {| dn_pools := ∅; dn_tracker := Some t; dn_pm := w |}.

Lemma elem_of_decl_refs {W} ref (d : Declaration W) : ref ∈ decl_refs d <-> is_Some (dn_pools d !! ref).
Proof.
  unfold decl_refs. rewrite (merge_sort_Permutation ref_le _), list_elem_of_fmap. split.
  - intros ([k v] & -> & Hk). apply elem_of_map_to_list in Hk. by exists v.
  - intros [v Hv]. exists (ref, v). by rewrite elem_of_map_to_list.
Qed.
Lemma decl_refs_NoDup {W} (d : Declaration W) : NoDup (decl_refs d).
Proof. unfold decl_refs. rewrite (merge_sort_Permutation ref_le _). apply NoDup_fst_map_to_list. Qed.

Lemma foldl_Untrack l : forall t ref, pools (foldl (fun t r => Untrack r t) t l) !! ref = if decide (ref ∈ l) then None else pools t !! ref.
Proof.
  induction l as [|r l IH]; intros t ref; cbn [foldl]; [by rewrite decide_False by apply not_elem_of_nil|].
  rewrite IH, Untrack_lookup. rewrite (if_iff_decide (ref ∈ r :: l) (ref ∈ l \/ r = ref)) by (rewrite elem_of_cons; naive_solver).
  destruct (decide (ref ∈ l)), (decide (r = ref)), (decide (_ \/ _)); tauto.
Qed.

Lemma sync_swap_lookup {W} specs (d : Declaration W) ref : dn_pools (sync_swap specs d) !! ref = respecified (dn_pools d !! ref) (specs !! ref).
Proof. unfold sync_swap. simpl. rewrite lookup_merge. by destruct (dn_pools d !! ref), (specs !! ref). Qed.

(** ** What Sync achieves *)
Section Sequential.
Context {Template : Type} (Parse : string -> result Template) (Execute : Template -> string -> result string).
Context {W : Type} `{PoolAdmin W} (env1 env2 : W -> W) (runnerName namespace : string).
Context (stored : W -> gmap PoolRef PoolSpec) (up : W -> Prop) (accepts : PoolSpec -> Prop)
  `{!PoolAdminLaws W stored up accepts}.
Context (Hq1 : quiet stored up env1) (Hq2 : quiet stored up env2).
Implicit Types d : Declaration W.

Notation build := (build_spec Parse Execute runnerName namespace).
Notation specs_of := (sync_specs Parse Execute runnerName namespace).

(** The specs of a Sync come from its Profiles, each under its own Pool. *)
Record specs_ok (profiles : list ProfileConfig) (inventory : list HostEntry) (acc : gmap PoolRef declaredPool * list error) : Prop := {
  so_from : forall ref st, acc.1 !! ref = Some st ->
    sp_Ref (dp_spec st) = ref /\ exists p, p ∈ profiles /\ p_Name p = dp_profile st /\ build p inventory = Ok (dp_spec st);
  so_all : forall p spec, p ∈ profiles -> build p inventory = Ok spec -> is_Some (acc.1 !! sp_Ref spec);
  so_errs : acc.2 = [] <-> Forall (fun p => is_ok (build p inventory) = true) profiles
                         /\ NoDup (omap (fun p => match build p inventory with Ok spec => Some (sp_Ref spec) | Err _ => None end) profiles) }.

Lemma sync_specs_ok profiles inventory : specs_ok profiles inventory (specs_of profiles inventory).
Proof.
  unfold sync_specs. induction profiles as [|p profiles IH] using rev_ind.
  { split; simpl; [intros ? ? [=]|by intros ? ? ?%elem_of_nil|]. split; [repeat constructor|done]. }
  rewrite foldl_snoc. destruct (foldl _ _ profiles) as [specs errs]. destruct IH as [I1 I2 I3]. simpl in *.
  unfold sync_spec. destruct (build p inventory) as [spec|err] eqn:EB; [destruct (specs !! sp_Ref spec) as [ex|] eqn:EX|].
  - split; simpl.
    + intros ref st Hs. destruct (I1 ref st Hs) as (? & q & Hq & ?). split; [done|]. exists q. rewrite elem_of_app. auto.
    + intros q sp [Hq| ->%list_elem_of_singleton]%elem_of_app Hb; [by eapply I2|]. rewrite EB in Hb. injection Hb as <-. by exists ex.
    + split; [by intros []%app_nil|]. rewrite omap_app. simpl. rewrite EB. intros [_ HN]. apply NoDup_app in HN as (_ & HN & _).
      destruct (I1 _ _ EX) as (HR & q & Hq & _ & Hb). exfalso. apply (HN (sp_Ref spec)); [|left].
      apply list_elem_of_omap. exists q. rewrite Hb. by rewrite HR.
  - split; simpl.
    + intros ref st. destruct (decide (ref = sp_Ref spec)) as [->|Hne].
      * rewrite lookup_insert_eq. intros [= <-]. split; [done|]. exists p. rewrite elem_of_app, list_elem_of_singleton. auto.
      * rewrite lookup_insert_ne by done. intros Hs. destruct (I1 ref st Hs) as (? & q & Hq & ?). split; [done|]. exists q. rewrite elem_of_app. auto.
    + intros q sp [Hq| ->%list_elem_of_singleton]%elem_of_app Hb.
      * apply lookup_insert_is_Some. destruct (decide (sp_Ref spec = sp_Ref sp)); [auto|]. right. split; [done|]. by eapply I2.
      * rewrite EB in Hb. injection Hb as <-. rewrite lookup_insert_eq. done.
    + rewrite I3, Forall_app, Forall_singleton, EB, omap_app, NoDup_app. simpl. rewrite EB. split.
      * intros [HF HN]. split_and!; try done; [|apply NoDup_singleton]. intros ref Hr Hs%list_elem_of_singleton.
        apply list_elem_of_omap in Hr as (q & Hq & Hb). destruct (build q inventory) as [sq|] eqn:Eq; [|done]. injection Hb as <-.
        destruct (I2 q sq Hq Eq) as [x Hx]. by rewrite Hs, EX in Hx.
      * intros ([HF _] & HN & _). done.
  - split; simpl.
    + intros ref st Hs. destruct (I1 ref st Hs) as (? & q & Hq & ?). split; [done|]. exists q. rewrite elem_of_app. auto.
    + intros q sp [Hq| ->%list_elem_of_singleton]%elem_of_app Hb; [by eapply I2|]. by rewrite EB in Hb.
    + split; [by intros []%app_nil|]. rewrite Forall_app, Forall_singleton, EB. by intros [[_ [=]] _].
Qed.

(** A Pool the Pool Manager has as the Declaration wants it. *)
Record settled (d : Declaration W) (ref : PoolRef) (profile : string) (spec : PoolSpec) : Prop := {
  se_known : dn_pools d !! ref = Some {| dp_profile := profile; dp_spec := spec; dp_ok := true; dp_err := None |};
  se_stored : stored (dn_pm d) !! ref = Some spec;
  se_tracked : forall t, dn_tracker d = Some t -> declared <$> pools t !! ref = Some true }.

(** The Pools a step does not concern are left alone. *)
Record untouched (d d' : Declaration W) (ref : PoolRef) : Prop := {
  un_known : dn_pools d' !! ref = dn_pools d !! ref;
  un_stored : stored (dn_pm d') !! ref = stored (dn_pm d) !! ref;
  un_tracked : (fun t => pools t !! ref) <$> dn_tracker d' = (fun t => pools t !! ref) <$> dn_tracker d }.

Lemma untouched_refl d ref : untouched d d ref.
Proof. by split. Qed.
Lemma untouched_trans d1 d2 d3 ref : untouched d1 d2 ref -> untouched d2 d3 ref -> untouched d1 d3 ref.
Proof. intros [A1 A2 A3] [B1 B2 B3]. split; etransitivity; eauto. Qed.

Lemma settled_untouched d d' ref profile spec : untouched d d' ref -> settled d ref profile spec -> settled d' ref profile spec.
Proof.
  intros [A1 A2 A3] [B1 B2 B3]. split; [by rewrite A1|by rewrite A2|]. intros t' Ht'. rewrite Ht' in A3.
  destruct (dn_tracker d) as [t|]; [|done]. simpl in A3. injection A3 as A3. rewrite A3. by apply B3.
Qed.

(** Every spec is accepted and is of the Pool it is remembered under. *)
Definition wanted (d : Declaration W) (rs : list PoolRef) : Prop :=
  forall ref st, ref ∈ rs -> dn_pools d !! ref = Some st -> sp_Ref (dp_spec st) = ref /\ accepts (dp_spec st).

Lemma declare_one ref st d :
  up (dn_pm d) -> dn_pools d !! ref = Some st -> sp_Ref (dp_spec st) = ref -> accepts (dp_spec st) ->
  let '(d', err) := declaration_declare env1 env2 ref d in
  err = None /\ up (dn_pm d') /\ settled d' ref (dp_profile st) (dp_spec st) /\ forall ref', ref' <> ref -> untouched d d' ref'.
Proof.
  intros Hup Hst HR Ha. unfold declaration_declare. rewrite Hst.
  destruct (Declarer_quiet stored up accepts env1 env2 (dp_spec st) (dn_pm d) Ha Hup Hq1 Hq2) as (p & Hok & Hs & Hup').
  destruct (Declarer_Declare env1 env2 (dp_spec st) (dn_pm d)) as [w r]. simpl in *. subst r.
  unfold declare_track, declare_record. rec_simpl. rewrite Hst. rec_simpl. split; [done|]. split; [done|]. split.
  - split; rec_simpl; [by rewrite lookup_insert_eq|by rewrite Hs, HR, lookup_insert_eq|].
    intros t Ht. destruct (dn_tracker d) as [t0|]; [|done]. injection Ht as <-. apply Track_lookup_eq.
  - intros ref' Hne. split; rec_simpl; [by rewrite lookup_insert_ne by done|by rewrite Hs, HR, lookup_insert_ne by done|].
    destruct (dn_tracker d) as [t0|]; [|done]. simpl. by rewrite Track_lookup_ne by done.
Qed.

Lemma declare_refs_spec rs : forall d, NoDup rs -> up (dn_pm d) -> wanted d rs ->
  let '(d', errs) := declare_refs env1 env2 rs d in
  errs = [] /\ up (dn_pm d')
  /\ (forall ref st, ref ∈ rs -> dn_pools d !! ref = Some st -> settled d' ref (dp_profile st) (dp_spec st))
  /\ forall ref, ref ∉ rs -> untouched d d' ref.
Proof.
  induction rs as [|r rs IH]; intros d HN Hup HW; cbn [declare_refs].
  { split_and!; try done. by intros ? ? ?%elem_of_nil. }
  apply NoDup_cons in HN as [Hr HN]. destruct (dn_pools d !! r) as [st|] eqn:Est.
  - destruct (HW r st ltac:(left) Est) as [HR Ha]. pose proof (declare_one r st d Hup Est HR Ha) as H1.
    destruct (declaration_declare env1 env2 r d) as [d1 err]. destruct H1 as (-> & Hup1 & Hset & Hun).
    assert (HW1 : wanted d1 rs).
    { intros ref x Hin Hx. rewrite (un_known _ _ _ (Hun ref ltac:(intros ->; done))) in Hx. apply (HW ref x); [by right|done]. }
    specialize (IH d1 HN Hup1 HW1). destruct (declare_refs env1 env2 rs d1) as [d2 errs]. destruct IH as (-> & Hup2 & Hall & Hun2).
    split_and!; try done.
    + intros ref x [->|Hin]%elem_of_cons Hx; [rewrite Est in Hx; injection Hx as <-; by eapply settled_untouched; [apply Hun2|]|].
      apply Hall; [done|]. by rewrite (un_known _ _ _ (Hun ref ltac:(intros ->; done))).
    + intros ref [Hne Hni]%not_elem_of_cons. eapply untouched_trans; [by apply Hun|by apply Hun2].
  - unfold declaration_declare. rewrite Est. assert (HW1 : wanted d rs) by (intros ? ? ?; apply HW; by right).
    specialize (IH d HN Hup HW1). destruct (declare_refs env1 env2 rs d) as [d2 errs]. destruct IH as (-> & Hup2 & Hall & Hun2).
    split_and!; try done.
    + intros ref x [->|Hin]%elem_of_cons Hx; [congruence|by apply Hall].
    + intros ref [Hne Hni]%not_elem_of_cons. by apply Hun2.
Qed.

(** What a Sync achieves while the Pool Manager is up, accepts the specs
    and nobody else changes its Pools.  It reports exactly the Profiles
    without a spec and the Pools two Profiles share; every other Pool of the
    configuration is declared: the Pool Manager holds the spec built last,
    the Tracker counts it as declared.  A Pool no Profile refers to any more
    is forgotten and untracked, and left as it is at the Pool Manager. *)
Theorem Sync_converges profiles inventory d :
  up (dn_pm d) -> (forall p spec, p ∈ profiles -> build p inventory = Ok spec -> accepts spec) ->
  let '(d', errs) := Sync Parse Execute env1 env2 runnerName namespace profiles inventory d in
  (errs = [] <-> Forall (fun p => is_ok (build p inventory) = true) profiles
                 /\ NoDup (omap (fun p => match build p inventory with Ok spec => Some (sp_Ref spec) | Err _ => None end) profiles))
  /\ (forall p spec, p ∈ profiles -> build p inventory = Ok spec ->
        exists q spec', q ∈ profiles /\ build q inventory = Ok spec' /\ sp_Ref spec' = sp_Ref spec /\ settled d' (sp_Ref spec) (p_Name q) spec')
  /\ (forall ref, (forall p spec, p ∈ profiles -> build p inventory = Ok spec -> sp_Ref spec <> ref) ->
        dn_pools d' !! ref = None /\ stored (dn_pm d') !! ref = stored (dn_pm d) !! ref
        /\ forall t t', dn_tracker d = Some t -> dn_tracker d' = Some t' ->
             pools t' !! ref = if decide (is_Some (dn_pools d !! ref)) then None else pools t !! ref).
Proof.
  intros Hup Ha. unfold Sync. destruct (sync_specs_ok profiles inventory) as [S1 S2 S3].
  destruct (specs_of profiles inventory) as [specs errs0]. simpl in *. set (d1 := sync_swap specs d).
  assert (HK : forall ref st, dn_pools d1 !! ref = Some st -> exists st0, specs !! ref = Some st0 /\ dp_profile st0 = dp_profile st /\ dp_spec st0 = dp_spec st).
  { intros ref st. unfold d1. rewrite sync_swap_lookup. unfold respecified. destruct (specs !! ref) as [st0|]; [|done].
    destruct (dn_pools d !! ref); intros [= <-]; by exists st0. }
  assert (HW : wanted d1 (decl_refs d1)).
  { intros ref st _ Hst. destruct (HK ref st Hst) as (st0 & H0 & _ & <-). destruct (S1 _ _ H0) as (HR & p & Hp & _ & Hb). split; [done|by eapply Ha]. }
  pose proof (declare_refs_spec (decl_refs d1) d1 (decl_refs_NoDup d1) Hup HW) as HD.
  destruct (declare_refs env1 env2 (decl_refs d1) d1) as [d' errs]. destruct HD as (-> & Hup' & Hall & Hun). rewrite app_nil_r.
  split; [exact S3|]. split.
  - intros p spec Hp Hb. destruct (S2 p spec Hp Hb) as [st0 H0]. destruct (S1 _ _ H0) as (HR & q & Hq & Hn & Hbq).
    assert (exists st, dn_pools d1 !! sp_Ref spec = Some st) as [st Hst].
    { unfold d1. rewrite sync_swap_lookup, H0. simpl. by eexists. }
    destruct (HK _ _ Hst) as (st0' & H0' & Hp' & Hs'). rewrite H0 in H0'. injection H0' as <-.
    exists q, (dp_spec st0). split_and!; try done. rewrite Hn, Hp', Hs'. apply Hall; [apply elem_of_decl_refs; by exists st|done].
  - intros ref Hno. assert (Hs : specs !! ref = None).
    { destruct (specs !! ref) as [st|] eqn:E; [|done]. destruct (S1 _ _ E) as (HR & p & Hp & _ & Hb). exfalso. by eapply Hno. }
    assert (H1 : dn_pools d1 !! ref = None) by (unfold d1; rewrite sync_swap_lookup, Hs; by destruct (dn_pools d !! ref)).
    destruct (Hun ref) as [U1 U2 U3]. { rewrite elem_of_decl_refs, H1. by intros []. }
    split; [by rewrite U1|]. split; [exact U2|]. intros t t' Ht Ht'. rewrite Ht' in U3. unfold d1, sync_swap in U3. simpl in U3. rewrite Ht in U3. simpl in U3.
    injection U3 as ->. rewrite foldl_Untrack. unfold untracked.
    assert (HE : ref ∈ filter (fun r => specs !! r = None) (map_to_list (dn_pools d)).*1 <-> is_Some (dn_pools d !! ref)).
    { rewrite list_elem_of_filter, list_elem_of_fmap. split.
      - intros [_ ([k v] & -> & Hk)]. apply elem_of_map_to_list in Hk. by exists v.
      - intros [v Hv]. split; [done|]. exists (ref, v). by rewrite elem_of_map_to_list. }
    by destruct (decide (ref ∈ _)), (decide (is_Some _)); tauto.
Qed.

Lemma retry_refs_spec done rs : forall d, NoDup rs -> up (dn_pm d) -> wanted d rs ->
  let d' := retry_refs env1 env2 done rs d in
  (forall ref st, ref ∈ rs -> dn_pools d !! ref = Some st -> dp_ok st = false -> settled d' ref (dp_profile st) (dp_spec st))
  /\ forall ref, ref ∉ rs \/ Declared ref d = true -> untouched d d' ref.
Proof.
  induction rs as [|r rs IH]; intros d HN Hup HW; cbn [retry_refs]; cbv zeta.
  { split; [by intros ? ? ?%elem_of_nil|]. intros. apply untouched_refl. }
  apply NoDup_cons in HN as [Hr HN].
  assert (HW' : wanted d rs) by (intros ? ? ?; apply HW; by right).
  destruct (dn_pools d !! r) as [st|] eqn:Est; [destruct (dp_ok st) eqn:Eok; simpl|].
  - destruct (IH d HN Hup HW') as [IH1 IH2]. split.
    + intros ref x [->|Hin]%elem_of_cons Hx Hok; [congruence|by apply IH1].
    + intros ref [[Hne Hni]%not_elem_of_cons|Hd]; apply IH2; auto.
  - destruct (HW r st ltac:(left) Est) as [HR Ha]. pose proof (declare_one r st d Hup Est HR Ha) as H1.
    destruct (declaration_declare env1 env2 r d) as [d1 err]. destruct H1 as (-> & Hup1 & Hset & Hun).
    assert (HW1 : wanted d1 rs).
    { intros ref x Hin Hx. rewrite (un_known _ _ _ (Hun ref ltac:(intros ->; done))) in Hx. by apply (HW' ref x). }
    destruct (IH d1 HN Hup1 HW1) as [IH1 IH2]. split.
    + intros ref x [->|Hin]%elem_of_cons Hx Hok.
      * rewrite Est in Hx. injection Hx as <-. eapply settled_untouched; [apply IH2; by left|done].
      * apply IH1; [done| |done]. by rewrite (un_known _ _ _ (Hun ref ltac:(intros ->; done))).
    + intros ref Hc. assert (Hne : ref <> r).
      { intros ->. destruct Hc as [Hc|Hc]; [apply Hc; left|]. unfold Declared in Hc. rewrite Est in Hc. congruence. }
      eapply untouched_trans; [by apply Hun|]. apply IH2. destruct Hc as [[_ ?]%not_elem_of_cons|Hc]; [by left|right].
      unfold Declared in *. by rewrite (un_known _ _ _ (Hun ref Hne)).
  - destruct (IH d HN Hup HW') as [IH1 IH2]. split.
    + intros ref x [->|Hin]%elem_of_cons Hx Hok; [congruence|by apply IH1].
    + intros ref [[Hne Hni]%not_elem_of_cons|Hd]; apply IH2; auto.
Qed.

(** A retry of the failed declarations declares every one of them while the
    Pool Manager is up, and leaves the others alone. *)
Theorem retryFailed_converges done d :
  up (dn_pm d) -> wanted d (decl_refs d) ->
  forall ref st, dn_pools d !! ref = Some st ->
    if dp_ok st then untouched d (retryFailed env1 env2 done d) ref
    else settled (retryFailed env1 env2 done d) ref (dp_profile st) (dp_spec st).
Proof.
  intros Hup HW ref st Hst. destruct (retry_refs_spec done (decl_refs d) d (decl_refs_NoDup d) Hup HW) as [H1 H2].
  destruct (dp_ok st) eqn:E.
  - apply H2. right. unfold Declared. by rewrite Hst.
  - apply H1; [apply elem_of_decl_refs; by exists st|done|done].
Qed.
End Sequential.

(** ** Under interleaving *)
Section Concurrent.
Context {Template : Type} (Parse : string -> result Template) (Execute : Template -> string -> result string).
Context {W : Type} `{PoolAdmin W} (env1 env2 : W -> W) (runnerName namespace : string).
Context (stored : W -> gmap PoolRef PoolSpec) (up : W -> Prop) (accepts : PoolSpec -> Prop)
  `{!PoolAdminLaws W stored up accepts}.

(** Nobody deletes Pools: what the rest of the world does to the Pool
    Manager keeps them, with whatever spec. *)
Definition keeps (f : W -> W) : Prop := forall w ref, is_Some (stored w !! ref) -> is_Some (stored (f w) !! ref).
Context (Hk1 : keeps env1) (Hk2 : keeps env2).

Lemma create_keeps_all spec : keeps (fun w => (CreatePool spec w).1).
Proof.
  intros w ref Hs. destruct (decide (ref = sp_Ref spec)) as [->|Hne]; [by apply create_keeps|]. by rewrite create_frame.
Qed.
Lemma update_keeps_all spec : keeps (fun w => (UpdatePool spec w).1).
Proof.
  intros w ref Hs. destruct (decide (ref = sp_Ref spec)) as [->|Hne]; [by apply update_keeps|]. by rewrite update_frame.
Qed.
Lemma Declarer_keeps spec : keeps (fun w => (Declarer_Declare env1 env2 spec w).1).
Proof.
  intros w ref Hs. unfold Declarer_Declare. pose proof (create_keeps_all spec w ref Hs) as H1. cbv beta in H1.
  destruct (CreatePool spec w) as [w1 [p1|e1]]; [done|]. destruct (negb _); [done|].
  pose proof (update_keeps_all spec _ ref (Hk1 _ _ H1)) as H2. cbv beta in H2. cbn [fst] in H2.
  destruct (UpdatePool spec (env1 w1)) as [w2 [p2|e2]]; [done|]. destruct (errors_Is e2 _); [|done].
  pose proof (create_keeps_all spec _ ref (Hk2 _ _ H2)) as H3. cbv beta in H3. cbn [fst] in H3.
  by destruct (CreatePool spec (env2 w2)) as [w3 [p3|e3]].
Qed.

Definition dinput_ok (i : dinput) : Prop :=
  match i with
  | DSync profiles inventory => forall p spec, p ∈ profiles -> build_spec Parse Execute runnerName namespace p inventory = Ok spec -> accepts spec
  | DWorld f => keeps f
  | _ => True
  end.

Inductive dreachable (t : PoolTracker) (w : W) : DSys -> Prop :=
  | dreach_init : dreachable t w {| dy_decl := Declaration0 t w; dy_calls := ∅; dy_next := 0 |}
  | dreach_step i y y' : dreachable t w y -> dinput_ok i ->
      dstep Parse Execute env1 env2 runnerName namespace i y = Some y' -> dreachable t w y'.

Definition flight_ok (w : W) (c : in_flight) : Prop :=
  match c with
  | Copied ref spec => sp_Ref spec = ref /\ accepts spec
  | Answered ref err => err = None -> is_Some (stored w !! ref)
  | Recorded ref ok => ok = true -> is_Some (stored w !! ref)
  end.
Record DI (y : DSys (W := W)) : Prop := {
  di_pools : forall ref st, dn_pools (dy_decl y) !! ref = Some st ->
    sp_Ref (dp_spec st) = ref /\ accepts (dp_spec st) /\ (dp_ok st = true -> is_Some (stored (dn_pm (dy_decl y)) !! ref));
  di_calls : forall i c, dy_calls y !! i = Some c -> flight_ok (dn_pm (dy_decl y)) c;
  di_tracker : forall t ref, dn_tracker (dy_decl y) = Some t -> declared <$> pools t !! ref = Some true -> is_Some (stored (dn_pm (dy_decl y)) !! ref) }.

Lemma flight_keeps f w c : keeps f -> flight_ok w c -> flight_ok (f w) c.
Proof. intros Hf. destruct c; simpl; auto. Qed.

Lemma DI_world f y : keeps f -> DI y -> DI {| dy_decl := (dy_decl y) <| dn_pm := f (dn_pm (dy_decl y)) |>; dy_calls := dy_calls y; dy_next := dy_next y |}.
Proof.
  intros Hf [D1 D2 D3]. split; rec_simpl.
  - intros ref st Hst. destruct (D1 ref st Hst) as (? & ? & ?). auto.
  - intros i c Hc. apply flight_keeps; eauto.
  - intros t ref Ht Hd. apply Hf. eauto.
Qed.

Lemma DI_call y c i n : DI y -> flight_ok (dn_pm (dy_decl y)) c -> DI {| dy_decl := dy_decl y; dy_calls := <[i := c]> (dy_calls y); dy_next := n |}.
Proof.
  intros [D1 D2 D3] Hc. split; simpl; [done| |done]. intros j c' [[<- <-]|[_ Hj]]%lookup_insert_Some; eauto.
Qed.

Lemma DI_swap profiles inventory y : dinput_ok (DSync profiles inventory) -> DI y ->
  DI {| dy_decl := sync_swap (sync_specs Parse Execute runnerName namespace profiles inventory).1 (dy_decl y); dy_calls := dy_calls y; dy_next := dy_next y |}.
Proof.
  intros Ha [D1 D2 D3]. destruct (sync_specs_ok Parse Execute runnerName namespace profiles inventory) as [S1 _ _].
  split; cbn [dy_decl dy_calls]; [|done|].
  - intros ref st. rewrite sync_swap_lookup. unfold respecified. destruct (_.1 !! ref) as [st0|] eqn:E; [|done].
    destruct (S1 ref st0 E) as (HR & p & Hp & _ & Hb). pose proof (Ha p _ Hp Hb) as Hacc.
    destruct (dn_pools (dy_decl y) !! ref) as [old|] eqn:Eo; intros [= <-]; rec_simpl; (split; [done|]); (split; [done|]).
    + apply (D1 ref old Eo).
    + intros Hok. exfalso. clear -Hok E. revert st0 E Hok. unfold sync_specs.
      induction profiles as [|q profiles IH] using rev_ind; intros st0; [done|]. rewrite foldl_snoc.
      destruct (foldl _ _ profiles) as [specs errs]. simpl in *. unfold sync_spec. destruct (build_spec _ _ _ _ q inventory) as [spec|]; [|apply IH].
      destruct (specs !! sp_Ref spec); [apply IH|]. simpl. intros [[_ <-]|[_ Hx]]%lookup_insert_Some; [done|by apply IH].
  - intros t ref. unfold sync_swap. simpl. destruct (dn_tracker (dy_decl y)) as [t0|] eqn:Et; [|done]. intros [= <-].
    rewrite foldl_Untrack. case_decide; [done|]. by apply D3.
Qed.

Lemma DI_step i y y' : dinput_ok i -> dstep Parse Execute env1 env2 runnerName namespace i y = Some y' -> DI y -> DI y'.
Proof.
  intros Hi Hs HD. destruct i as [profiles inventory|ref|i|f]; cbn [dstep] in Hs.
  - injection Hs as <-. by apply DI_swap.
  - destruct (dn_pools (dy_decl y) !! ref) as [st|] eqn:E; injection Hs as <-; [|done].
    apply DI_call; [done|]. destruct (di_pools y HD ref st E) as (? & ? & _). by split.
  - destruct (dy_calls y !! i) as [c|] eqn:Ec; [|done]. pose proof (di_calls y HD i c Ec) as Hc. destruct c as [ref spec|ref err|ref ok].
    + destruct Hc as [HR Ha]. pose proof (DI_world _ y (Declarer_keeps spec) HD) as HD1. cbv beta in HD1.
      pose proof (fun p => Declarer_ok stored up accepts env1 env2 spec (dn_pm (dy_decl y)) p Ha) as Hok.
      destruct (Declarer_Declare env1 env2 spec (dn_pm (dy_decl y))) as [w r]. injection Hs as <-. cbn [fst snd] in *.
      eapply (DI_call _ _ i _ HD1). simpl. destruct r as [p|]; [|done]. intros _. rewrite <-HR, (Hok p eq_refl). done.
    + injection Hs as <-. apply (DI_call {| dy_decl := _; dy_calls := dy_calls y; dy_next := dy_next y |}); simpl.
      2:{ unfold declare_record. destruct (dn_pools (dy_decl y) !! ref); rec_simpl; destruct err; try done; intros _; by apply Hc. }
      destruct HD as [D1 D2 D3]. unfold declare_record. destruct (dn_pools (dy_decl y) !! ref) as [cur|] eqn:E; [|by split].
      split; rec_simpl; [|done|done]. intros ref' st [[<- <-]|[_ Hx]]%lookup_insert_Some; [|by apply D1].
      rec_simpl. destruct (D1 ref cur E) as (? & ? & _). split_and!; try done. destruct err; [done|]. intros _. by apply Hc.
    + injection Hs as <-. destruct HD as [D1 D2 D3]. split; rec_simpl; [done| |].
      * intros j c [_ Hj]%lookup_delete_Some. by apply (D2 j).
      * intros t ref' Ht Hd. destruct (dn_tracker (dy_decl y)) as [t0|] eqn:Et; [|done]. injection Ht as <-.
        destruct (decide (ref' = ref)) as [->|Hne]; [rewrite Track_lookup_eq in Hd; injection Hd as ->; by apply Hc|].
        rewrite Track_lookup_ne in Hd by done. by apply (D3 t0).
  - injection Hs as <-. by apply DI_world.
Qed.

(** No Pool counts as declared that does not exist.  However reloads,
    retries and redeclarations interleave, with each other and with other
    clients of the Pool Manager, none of which deletes Pools, a Pool that the
    Declaration reports as declared, or that the Tracker counts as declared,
    exists at the Pool Manager. *)
Theorem declared_exists t w y ref :
  (forall ref, declared <$> pools t !! ref <> Some true) -> dreachable t w y ->
  Declared ref (dy_decl y) = true \/ (exists t', dn_tracker (dy_decl y) = Some t' /\ declared <$> pools t' !! ref = Some true) ->
  is_Some (stored (dn_pm (dy_decl y)) !! ref).
Proof.
  intros Ht HR. assert (HD : DI y).
  { induction HR as [|i y y' HR IH Hi Hs]; [|by eapply DI_step]. split; simpl; [by intros ? ? [=]|by intros ? ? [=]|].
    intros t' r [= <-] Hd. by destruct (Ht r). }
  intros [Hd|(t' & Ht' & Hd)].
  - unfold Declared in Hd. destruct (dn_pools (dy_decl y) !! ref) as [st|] eqn:E; [|done]. by apply (di_pools y HD ref st E).
  - by apply (di_tracker y HD t' ref).
Qed.
End Concurrent.

(** ** Witnesses and races *)
Local Notation demo_world := (gmap PoolRef PoolSpec).
Definition demo_ref : PoolRef := {| ref_Name := "small"; ref_Namespace := "ns" |}.
Definition demo_larger : ProfileConfig := demo_profile <| p_Pool := (p_Pool demo_profile) <| ps_Size := 7 |> |>.
Definition demo_decl : Declaration demo_world := Declaration0 NewTracker ∅.
Definition demo_dsys : DSys := {| dy_decl := demo_decl; dy_calls := ∅; dy_next := 0 |}.
Definition demo_dsteps (l : list dinput) : option DSys := dsteps demo_Parse demo_Execute demo_env demo_env "r1" "ns" l demo_dsys.

Lemma Sync_converges_witness :
  let d := (Sync demo_Parse demo_Execute demo_env demo_env "r1" "ns" [demo_profile] [] demo_decl).1 in
  Declared demo_ref d = true /\ dn_pools d !! {| ref_Name := "other"; ref_Namespace := "ns" |} = None.
Proof.
  cbv zeta. split; [vm_compute; reflexivity|].
  pose proof (Sync_converges demo_Parse demo_Execute demo_env demo_env "r1" "ns" (fun w => w) (fun _ => True) (fun _ => True)
    (fun w H => conj H eq_refl) (fun w H => conj H eq_refl) [demo_profile] [] demo_decl I (fun _ _ _ _ => I)) as HS.
  destruct (Sync _ _ _ _ _ _ _ _ _) as [d errs]. destruct HS as (_ & _ & H3). apply H3.
  intros p spec ->%list_elem_of_singleton Hb. vm_compute in Hb. injection Hb as <-. by intros [=].
Defined.

Lemma retryFailed_converges_witness :
  let d := demo_decl <| dn_pools := {[demo_ref := {| dp_profile := "small"; dp_spec := demo_spec <| sp_Ref := demo_ref |>; dp_ok := false; dp_err := None |}]} |> in
  settled (fun w => w) (retryFailed demo_env demo_env (fun _ => true) d) demo_ref "small" (demo_spec <| sp_Ref := demo_ref |>).
Proof.
  intros d. set (st := {| dp_profile := "small"; dp_spec := demo_spec <| sp_Ref := demo_ref |>; dp_ok := false; dp_err := None |}).
  apply (retryFailed_converges demo_env demo_env (fun w => w) (fun _ => True) (fun _ => True)
    (fun w H => conj H eq_refl) (fun w H => conj H eq_refl) (fun _ => true) d I) with (ref := demo_ref) (st := st); [|apply lookup_singleton_eq].
  intros ref x _ Hx. unfold d in Hx. rec_simpl. apply lookup_singleton_Some in Hx as [<- <-]. done.
Defined.

Definition demo_declared : DSys := default demo_dsys (demo_dsteps [DSync [demo_profile] []; DBegin demo_ref; DStep 0; DStep 0; DStep 0]).
Lemma dsteps_dreachable l : forall y y', dreachable demo_Parse demo_Execute demo_env demo_env "r1" "ns" (fun w => w) (fun _ => True) NewTracker ∅ y ->
  Forall (fun i => match i with DWorld _ => False | _ => True end) l ->
  dsteps demo_Parse demo_Execute demo_env demo_env "r1" "ns" l y = Some y' ->
  dreachable demo_Parse demo_Execute demo_env demo_env "r1" "ns" (fun w => w) (fun _ => True) NewTracker ∅ y'.
Proof.
  induction l as [|i l IH]; intros y y' HR HF Hs; cbn [dsteps] in Hs; [by injection Hs as <-|].
  apply Forall_cons in HF as [Hi HF]. destruct (dstep _ _ _ _ _ _ i y) as [y1|] eqn:E; [|done].
  eapply (IH y1 y'); [|done|done]. eapply dreach_step; [exact HR| |exact E]. by destruct i.
Qed.
Lemma declared_exists_witness : is_Some (dn_pm (dy_decl demo_declared) !! demo_ref).
Proof.
  apply (declared_exists demo_Parse demo_Execute demo_env demo_env "r1" "ns" (fun w => w) (fun _ => True) (fun _ => True)
    (fun w r H => H) (fun w r H => H) NewTracker ∅ demo_declared demo_ref).
  - intros ref. vm_compute. by intros [=].
  - eapply (dsteps_dreachable [DSync [demo_profile] []; DBegin demo_ref; DStep 0; DStep 0; DStep 0] demo_dsys); [constructor|by repeat constructor|].
    vm_compute. reflexivity.
  - left. vm_compute. reflexivity.
Defined.

Definition race (l : list dinput) : DSys := default demo_dsys (demo_dsteps l).
Lemma race_runs l : match demo_dsteps l with Some _ => true | None => false end = true -> demo_dsteps l = Some (race l).
Proof. unfold race. by destruct (demo_dsteps l). Qed.
Lemma retryFailed_idle (d : Declaration demo_world) ref : decl_refs d = [ref] -> Declared ref d = true -> retryFailed demo_env demo_env (fun _ => false) d = d.
Proof. intros HR HD. unfold retryFailed. rewrite HR. cbn [retry_refs]. unfold Declared in HD. destruct (dn_pools d !! ref) as [st|]; [|done]. by rewrite HD. Qed.

Definition stale_race : list (dinput (W := demo_world)) :=
  [DSync [demo_profile] []; DBegin demo_ref; DSync [demo_larger] []; DBegin demo_ref; DStep 1; DStep 1; DStep 1; DStep 0; DStep 0; DStep 0].
Definition removal_race : list (dinput (W := demo_world)) := [DSync [demo_profile] []; DBegin demo_ref; DSync [] []; DStep 0; DStep 0; DStep 0].

(** A redeclaration that copied the spec before a reload and is answered
    after the declaration of the reload leaves the old spec at the Pool
    Manager: nothing is in flight, the Pool counts as declared, the spec the
    Declaration remembers is not the one in force, and no retry will send
    it. *)
Theorem stale_spec_declared : exists l y, demo_dsteps l = Some y /\ dy_calls y = ∅ /\ Declared demo_ref (dy_decl y) = true
  /\ dn_pm (dy_decl y) !! demo_ref <> declaration_Spec demo_ref (dy_decl y)
  /\ retryFailed demo_env demo_env (fun _ => false) (dy_decl y) = dy_decl y.
Proof.
  exists stale_race, (race stale_race).
  assert (HD : Declared demo_ref (dy_decl (race stale_race)) = true) by (vm_compute; reflexivity).
  split; [apply race_runs; vm_compute; reflexivity|]. split; [vm_compute; reflexivity|]. split; [exact HD|]. split.
  - intros E. apply (f_equal (fmap sp_Size)) in E. revert E.
    assert (H1 : sp_Size <$> dn_pm (dy_decl (race stale_race)) !! demo_ref = Some (ps_Size (p_Pool demo_profile))) by (vm_compute; reflexivity).
    assert (H2 : sp_Size <$> declaration_Spec demo_ref (dy_decl (race stale_race)) = Some 7) by (vm_compute; reflexivity).
    rewrite H1, H2. vm_compute. by intros [=].
  - apply (retryFailed_idle _ demo_ref); [vm_compute; reflexivity|exact HD].
Qed.

(** A declaration that is answered after a reload removed its Profile makes
    the Tracker track the Pool again, which the reload had untracked and
    nothing untracks any more. *)
Theorem untracked_resurrected : exists l y, demo_dsteps l = Some y /\ dy_calls y = ∅ /\ dn_pools (dy_decl y) = ∅
  /\ (t ← dn_tracker (dy_decl y); declared <$> pools t !! demo_ref) = Some true.
Proof.
  exists removal_race, (race removal_race). split; [apply race_runs; vm_compute; reflexivity|].
  split; [vm_compute; reflexivity|]. split; vm_compute; reflexivity.
Qed.
