(* ===== verification/FakeHost.v ===== *)
(** * internal/flintlock/fake: the fake Host

    fake.go, vm.go, server.go and the unary calls of client.go.  A MicroVM
    record is shared by pointer, between the map, its boot goroutine and the
    execs that run in it, so records are numbers in a store.  The file system
    is the set of directories that exist; what else os.Mkdir and os.RemoveAll
    answer, the random uid and the clock are arguments.  The ids of execs are
    unbounded integers, since a MicroVM has fewer than 2^64 of them. *)
From Stdlib Require Import Ascii.
From S2P Require Import Prelude GoModel ConfigTypes Spec PoolClient PoolDecl Registry GoStrings FilePath HostEnv Transport HostClient.

Inductive mvm_state := VmPending | VmCreated | VmFailed | VmDeleting.
#[export] Instance mvm_state_eq_dec : EqDecision mvm_state.
Proof. solve_decision. Defined.
Definition vsockSocketName : string := "vsock.sock".

Record microVM := {
  mv_uid : string; mv_id : string; mv_namespace : string; mv_createdAt : time; mv_updatedAt : time; mv_version : Z;
  mv_state : mvm_state; mv_vsock : string; mv_sandbox : string; mv_booted : bool; mv_execs : gset Z; mv_nextID : Z }.
#[export] Instance eta_microVM : Eta microVM :=
  fun r => {| mv_uid := mv_uid r; mv_id := mv_id r; mv_namespace := mv_namespace r; mv_createdAt := mv_createdAt r; mv_updatedAt := mv_updatedAt r;
              mv_version := mv_version r; mv_state := mv_state r; mv_vsock := mv_vsock r; mv_sandbox := mv_sandbox r;
              mv_booted := mv_booted r; mv_execs := mv_execs r; mv_nextID := mv_nextID r |}.

Record FakeHostConfig := {
  fh_Name : string; fh_Listen : string; fh_SandboxRoot : string; fh_BootDelay : duration; fh_Version : string;
  fh_ExecEnabled : bool; fh_SSHProxyEnabled : bool; fh_ServerInfoUnimplemented : bool; fh_Token : string }.
Record HostFaults := { hf_CreateFails : bool; hf_DropExecBeforeExit : bool; hf_Unresponsive : bool }.
Definition noFaults : HostFaults := {| hf_CreateFails := false; hf_DropExecBeforeExit := false; hf_Unresponsive := false |}.

(** [fo_boots] has the boot goroutines that wait, by record, with the moment
    their timer fires; [fo_panic] is that a closed channel was closed again;
    [fo_cancelled] the execs whose cancel function a delete has called. *)
Record Host := {
  fo_cfg : FakeHostConfig; fo_started : time; fo_vms : gmap string Z; fo_recs : gmap Z microVM; fo_next : Z;
  fo_root : string; fo_temp : string; fo_dirs : gset string; fo_boots : gmap Z time; fo_closed : bool;
  fo_faults : HostFaults; fo_addr : string; fo_served : bool; fo_panic : bool; fo_cancelled : gset (Z * Z) }.
#[export] Instance eta_Host : Eta Host :=
  fun r => {| fo_cfg := fo_cfg r; fo_started := fo_started r; fo_vms := fo_vms r; fo_recs := fo_recs r; fo_next := fo_next r;
              fo_root := fo_root r; fo_temp := fo_temp r; fo_dirs := fo_dirs r; fo_boots := fo_boots r; fo_closed := fo_closed r;
              fo_faults := fo_faults r; fo_addr := fo_addr r; fo_served := fo_served r; fo_panic := fo_panic r; fo_cancelled := fo_cancelled r |}.

Definition Host_New (cfg : FakeHostConfig) (now : time) (dirs : gset string) : Host :=
  {| fo_cfg := cfg; fo_started := now; fo_vms := ∅; fo_recs := ∅; fo_next := 0; fo_root := fh_SandboxRoot cfg; fo_temp := "";
     fo_dirs := dirs; fo_boots := ∅; fo_closed := false; fo_faults := noFaults; fo_addr := ""; fo_served := false;
     fo_panic := false; fo_cancelled := ∅ |}.

Definition st_error {A} (c : Code) (msg : string) : rres A := RErr (RStatus c msg).
Definition errClosedStatus {A} : rres A := st_error Unavailable "fake host closed".
Definition errNotFound {A} (uid : string) : rres A := st_error NotFound ("microvm spec " +:+ uid +:+ " not found").

Definition upd_rec (i : Z) (f : microVM -> microVM) (h : Host) : Host := h <| fo_recs := alter f i (fo_recs h) |>.
Definition rec_of (uid : string) (h : Host) : option (Z * microVM) :=
  i ← fo_vms h !! uid; r ← fo_recs h !! i; Some (i, r).

(** ** Sandboxes *)
(** [mkTemp] is what os.MkdirTemp answers and [mkAll] what os.MkdirAll
    does. *)
Definition ensureSandboxRootLocked (mkTemp : result string) (mkAll : option error) (h : Host) : Host * result string :=
  if String.eqb (fo_root h) "" then
    match mkTemp with
    | Err e => (h, Err (EWrap "creating sandbox root" [e]))
    | Ok dir => (h <| fo_root := dir |> <| fo_temp := dir |> <| fo_dirs := {[dir]} ∪ fo_dirs h |>, Ok dir)
    end
  else match mkAll with
  | Some e => (h, Err (EWrap ("creating sandbox root " +:+ fo_root h) [e]))
  | None => (h <| fo_dirs := {[fo_root h]} ∪ fo_dirs h |>, Ok (fo_root h))
  end.

(** os.RemoveAll removes a directory with everything below it. *)
Definition inside (root dir : string) : bool := String.eqb dir root || HasPrefix dir (root +:+ "/").
Definition RemoveAll (dir : string) (dirs : gset string) : gset string := filter (fun d => inside dir d = false) dirs.

Definition SandboxPath (uid : string) (h : Host) : option string := (fun x => mv_sandbox x.2) <$> rec_of uid h.
(** The names of the directories right below the root, sorted. *)
Definition child_of (root dir : string) : option string :=
  if HasPrefix dir (root +:+ "/")
  then let name := string_drop (S (String.length root)) dir in if has_byte "/"%char name || String.eqb name "" then None else Some name
  else None.
Definition Sandboxes (h : Host) : list string :=
  if String.eqb (fo_root h) "" then [] else sort_strings (omap (child_of (fo_root h)) (elements (fo_dirs h))).
Definition sanitizeName (base : string -> string) (name : string) : string := if String.eqb name "" then "host" else base name.

(** ** Boot *)
Definition finishBootLocked (now : time) (i : Z) (h : Host) : Host :=
  match fo_recs h !! i with
  | None => h
  | Some r =>
      let r' := if hf_CreateFails (fo_faults h) then r <| mv_state := VmFailed |>
                else r <| mv_state := VmCreated |> <| mv_vsock := Join (mv_sandbox r) vsockSocketName |> in
      let r' := r' <| mv_updatedAt := now |> <| mv_version := mv_version r + 1 |> <| mv_booted := true |> in
      h <| fo_recs := <[i := r']> (fo_recs h) |> <| fo_panic := fo_panic h || mv_booted r |>
  end.
(** The boot goroutine after its timer fired. *)
Definition bootMicroVM (now : time) (i : Z) (h : Host) : Host :=
  let h := h <| fo_boots := delete i (fo_boots h) |> in
  match fo_recs h !! i with
  | None => h
  | Some r => if bool_decide (fo_vms h !! mv_uid r = Some i) && bool_decide (mv_state r = VmPending) then finishBootLocked now i h else h
  end.

(** ** Create, get, list, delete *)
Record MicroVMSpec := { ms_Uid : string; ms_Id : string; ms_Namespace : string }.
(** What the world answers a create: the random uid, the root and the
    directory. *)
Record create_env := { ce_now : time; ce_uid : result string; ce_temp : result string; ce_all : option error; ce_mkdir : option error }.
#[export] Instance eta_create_env : Eta create_env :=
  fun r => {| ce_now := ce_now r; ce_uid := ce_uid r; ce_temp := ce_temp r; ce_all := ce_all r; ce_mkdir := ce_mkdir r |}.

Definition newRecord (uid : string) (spec : MicroVMSpec) (now : time) (sandbox : string) : microVM :=
  {| mv_uid := uid; mv_id := if String.eqb (ms_Id spec) "" then uid else ms_Id spec;
     mv_namespace := if String.eqb (ms_Namespace spec) "" then "default" else ms_Namespace spec;
     mv_createdAt := now; mv_updatedAt := now; mv_version := 1; mv_state := VmPending; mv_vsock := ""; mv_sandbox := sandbox;
     mv_booted := false; mv_execs := ∅; mv_nextID := 0 |}.

Definition createMicroVM (ce : create_env) (spec : option MicroVMSpec) (h : Host) : Host * rres microVM :=
  match spec with
  | None => (h, st_error InvalidArgument "invalid create microvm request: MicroVMSpec required")
  | Some spec =>
      if fo_closed h then (h, errClosedStatus) else
      match (if String.eqb (ms_Uid spec) "" then ce_uid ce else Ok (ms_Uid spec)) with
      | Err e => (h, st_error Internal "generating uid")
      | Ok uid =>
          match fo_vms h !! uid with
          | Some _ => (h, st_error AlreadyExists ("microvm " +:+ uid +:+ " already exists"))
          | None =>
              match ensureSandboxRootLocked (ce_temp ce) (ce_all ce) h with
              | (h, Err _) => (h, st_error Internal "creating sandbox root")
              | (h, Ok root) =>
                  let sandbox := Join root uid in
                  if bool_decide (sandbox ∈ fo_dirs h) || match ce_mkdir ce with Some _ => true | None => false end
                  then (h, st_error Internal ("creating sandbox " +:+ sandbox))
                  else
                    let i := fo_next h in
                    let h := h <| fo_dirs := {[sandbox]} ∪ fo_dirs h |> <| fo_next := i + 1 |>
                               <| fo_recs := <[i := newRecord uid spec (ce_now ce) sandbox]> (fo_recs h) |>
                               <| fo_vms := <[uid := i]> (fo_vms h) |> in
                    let h := if fh_BootDelay (fo_cfg h) <=? 0 then finishBootLocked (ce_now ce) i h
                             else h <| fo_boots := <[i := time_Add (ce_now ce) (fh_BootDelay (fo_cfg h))]> (fo_boots h) |> in
                    (h, match fo_recs h !! i with Some r => ROk r | None => st_error Internal "" end)
              end
          end
      end
  end.

Definition getMicroVM (uid : string) (h : Host) : rres microVM :=
  if String.eqb uid "" then st_error InvalidArgument "invalid request"
  else if fo_closed h then errClosedStatus
  else match rec_of uid h with Some (_, r) => ROk r | None => errNotFound uid end.

Definition vm_le (a b : microVM) : Prop := string_le (mv_uid a) (mv_uid b).
#[export] Instance vm_le_dec : RelDecision vm_le := fun a b => decide (string_le (mv_uid a) (mv_uid b)).
Definition listMicroVMs (namespace : string) (name : option string) (h : Host) : rres (list microVM) :=
  if fo_closed h then errClosedStatus
  else ROk (merge_sort vm_le (filter (fun r => (namespace = "" \/ mv_namespace r = namespace) /\ (name = None \/ name = Some (mv_id r)))
                                (omap (fun kv => fo_recs h !! kv.2) (map_to_list (fo_vms h))))).

(** The critical section of a delete: the record, and the execs it cancels
    next. *)
Definition deleteMicroVM_begin (uid : string) (h : Host) : Host * rres (Z * gset Z) :=
  if String.eqb uid "" then (h, st_error InvalidArgument "invalid request")
  else if fo_closed h then (h, errClosedStatus)
  else match rec_of uid h with
  | None => (h, errNotFound uid)
  | Some (i, r) => (upd_rec i (fun r => r <| mv_state := VmDeleting |>) h <| fo_vms := delete uid (fo_vms h) |>, ROk (i, mv_execs r))
  end.
(** The rest of it; [failed] is that os.RemoveAll answers an error, having
    removed nothing. *)
Definition deleteMicroVM_end (i : Z) (execs : gset Z) (failed : bool) (h : Host) : Host * rres unit :=
  let h := h <| fo_cancelled := set_map (pair i) execs ∪ fo_cancelled h |> in
  match fo_recs h !! i with
  | None => (h, st_error Internal "")
  | Some r => if failed then (h, st_error Internal ("removing sandbox " +:+ mv_sandbox r))
              else (h <| fo_dirs := RemoveAll (mv_sandbox r) (fo_dirs h) |>, ROk tt)
  end.

(** ** Execs *)
Definition attachExec (uid : string) (h : Host) : Host * rres (string * (Z * Z)) :=
  if fo_closed h then (h, errClosedStatus)
  else match rec_of uid h with
  | None => (h, errNotFound uid)
  | Some (i, r) =>
      if bool_decide (mv_state r = VmCreated)
      then (upd_rec i (fun r => r <| mv_nextID := mv_nextID r + 1 |> <| mv_execs := {[mv_nextID r]} ∪ mv_execs r |>) h,
            ROk (mv_sandbox r, (i, mv_nextID r)))
      else (h, st_error FailedPrecondition "microvm is not ready")
  end.
Definition detach (x : Z * Z) (h : Host) : Host := upd_rec x.1 (fun r => r <| mv_execs := mv_execs r ∖ {[x.2]} |>) h.

(** ** ServerInfo *)
Definition serverInfo (now : time) (h : Host) : rres ServerInfoResponse :=
  let cfg := fo_cfg h in
  if fh_ServerInfoUnimplemented cfg then st_error Unimplemented "method ServerInfo not implemented"
  else if fo_closed h then errClosedStatus
  else
    let addr := if String.eqb (fo_addr h) "" then fh_Listen cfg else fo_addr h in
    let service on := {| gs_Enabled := on; gs_Address := if on then addr else "" |} in
    ROk {| si_Version := Some {| vi_Version := fh_Version cfg; vi_BuildDate := "fake"; vi_CommitHash := "fake" |};
           si_Uptime := Some (Z.max (time_Sub now (fo_started h)) 0);
           si_Exec := Some (service (fh_ExecEnabled cfg)); si_SshProxy := Some (service (fh_SSHProxyEnabled cfg)) |}.

(** ** Life *)
Definition SetFaults (f : HostFaults) (h : Host) : Host := h <| fo_faults := f |>.
Definition listenAddress (h : Host) : string := if String.eqb (fh_Listen (fo_cfg h)) "" then "127.0.0.1:0" else fh_Listen (fo_cfg h).
Definition host_listen (bound : result string) (h : Host) : Host * result string :=
  if fo_closed h then (h, Err (ENew "fake host closed"))
  else if fo_served h then (h, Err (ENew "fake host: Serve called twice"))
  else match bound with
  | Err e => (h, Err (EWrap ("fake host " +:+ fh_Name (fo_cfg h) +:+ ": listen") [e]))
  | Ok addr => (h <| fo_served := true |> <| fo_addr := addr |>, Ok addr)
  end.
Definition Host_Close_begin (h : Host) : Host := h <| fo_closed := true |>.
(** After the wait for the goroutines: os.Remove fails on a directory that
    holds another. *)
Definition Host_Close_end (temp : string) (h : Host) : Host :=
  if String.eqb temp "" || existsb (fun d => HasPrefix d (temp +:+ "/")) (elements (fo_dirs h)) then h
  else h <| fo_dirs := fo_dirs h ∖ {[temp]} |>.

(** ** Who is let in *)
(** One round of awaitResponsive: whether the fault is set, and what ended
    the wait, if it is. *)
Inductive wake := FaultsChanged | CallerGone (e : error) | HostGone.
Definition fake_errClosed : error := ENew "fake host closed".
(** The rounds seen so far; [None] is that the caller still waits. *)
Fixpoint awaitResponsive (rounds : list (bool * wake)) : option (option (error + unit)) :=
  match rounds with
  | [] => None
  | (false, _) :: _ => Some None
  | (true, FaultsChanged) :: rounds => awaitResponsive rounds
  | (true, CallerGone e) :: _ => Some (Some (inl e))
  | (true, HostGone) :: _ => Some (Some (inr tt))
  end.

Definition lower (c : ascii) : ascii :=
  let n := N_of_ascii c in if (65 <=? n)%N && (n <=? 90)%N then ascii_of_N (n + 32) else c.
Fixpoint EqualFold_ascii (a b : string) : bool :=
  match a, b with
  | EmptyString, EmptyString => true
  | String c a, String d b => Ascii.eqb (lower c) (lower d) && EqualFold_ascii a b
  | _, _ => false
  end.

(** [values] are the authorization headers of the call.  The other side of
    EqualFold is the constant "basic", and the only letter outside ASCII that
    folds to one of its letters is the long s. *)
Definition long_s_basic (scheme : string) : bool :=
  match scheme with
  | String b (String a (String x (String y (String i (String c EmptyString))))) =>
      EqualFold_ascii (String b (String a "")) "ba" && Ascii.eqb x "197" && Ascii.eqb y "191" && EqualFold_ascii (String i (String c "")) "ic"
  | _ => false
  end.
Definition authenticate (token : string) (values : list string) : option rpc_error :=
  if String.eqb token "" then None else
  match values with
  | [] => Some (RStatus Unauthenticated "Request unauthenticated with basic")
  | v :: _ =>
      match Cut v " " with
      | None => Some (RStatus Unauthenticated "Bad authorization string")
      | Some (scheme, credential) =>
          if negb (EqualFold_ascii scheme "basic" || long_s_basic scheme) then Some (RStatus Unauthenticated "Request unauthenticated with basic")
          else if String.eqb credential (base64_encode token) then None
          else Some (RStatus Unauthenticated "invalid auth token: failed basic authentication. Check the token supplied")
      end
  end.

(** [status.FromContextError]: the two errors of a context have codes of
    their own. *)
Definition FromContextError (e : error) : rpc_error :=
  if errors_Is e CtxDeadlineExceeded then RStatus DeadlineExceeded "context deadline exceeded"
  else if errors_Is e CtxCanceled then RStatus Canceled "context canceled"
  else RStatus Unknown "".
Definition Host_admit (rounds : list (bool * wake)) (token : string) (values : list string) : option (option rpc_error) :=
  match awaitResponsive rounds with
  | None => None
  | Some (Some (inr _)) => Some (Some (RStatus Unavailable "fake host closed"))
  | Some (Some (inl e)) => Some (Some (FromContextError e))
  | Some None => Some (authenticate token values)
  end.

Definition statusToSentinel (host : string) (err : rpc_error) : error :=
  let pre := "fake host " +:+ host in
  match err with
  | ROther e => EWrap pre [e]
  | RStatus c msg =>
      let with_ s := EWrap (pre +:+ ": " +:+ msg) [s] in
      match c with
      | NotFound => with_ (ESentinel HostErrNotFound)
      | Unimplemented => with_ (ESentinel HostErrUnimplemented)
      | Unauthenticated => with_ (ESentinel HostErrUnauthenticated)
      | Unavailable => with_ (ESentinel HostErrUnavailable)
      | DeadlineExceeded => with_ (EWrap "" [ESentinel HostErrUnavailable; ESentinel CtxDeadlineExceeded])
      | Canceled => with_ (EWrap "" [ESentinel HostErrUnavailable; ESentinel CtxCanceled])
      | _ => EWrap (pre +:+ ": " +:+ Code_String c) [ENew msg]
      end
  end.

(** The admission of the in-memory client. *)
Definition Client_admit (host : string) (clientClosed : bool) (rounds : list (bool * wake)) (hostToken token : string) : option (option error) :=
  if clientClosed then Some (Some (EWrap ("fake host " +:+ host +:+ ": client closed") [ESentinel HostErrUnavailable])) else
  match awaitResponsive rounds with
  | None => None
  | Some (Some (inr _)) => Some (Some (EWrap ("fake host " +:+ host) [ESentinel HostErrUnavailable]))
  | Some (Some (inl e)) => Some (Some (EWrap ("fake host " +:+ host +:+ ": unresponsive") [EWrap "" [ESentinel HostErrUnavailable; e]]))
  | Some None =>
      Some (if negb (String.eqb hostToken "") && negb (String.eqb token hostToken)
            then Some (EWrap ("fake host " +:+ host +:+ ": invalid auth token") [ESentinel HostErrUnauthenticated]) else None)
  end.

(** A unary call of the in-memory client, and the same call made over gRPC
    by the Runner's client with a token: through the interceptor, and mapped
    on the way back. *)
Definition mem_call {A} (host : string) (rounds : list (bool * wake)) (hostToken token : string) (answer : rres A) : option (result A) :=
  match Client_admit host false rounds hostToken token with
  | None => None
  | Some (Some e) => Some (Err e)
  | Some None => Some match answer with ROk a => Ok a | RErr e => Err (statusToSentinel host e) end
  end.
Definition auth_headers (token : string) : list string :=
  if String.eqb (basicAuthHeader token) "" then [] else [basicAuthHeader token].
Definition grpc_call {A} (host op : string) (rounds : list (bool * wake)) (hostToken token : string) (answer : rres A) : option (result A) :=
  match Host_admit rounds hostToken (auth_headers token) with
  | None => None
  | Some (Some e) => Some (Err (host_mapErr host op e))
  | Some None => Some match answer with ROk a => Ok a | RErr e => Err (host_mapErr host op e) end
  end.

(** ** The in-memory client answers as the Runner's client does *)
Lemma statusToSentinel_Is host err s : errors_Is (statusToSentinel host err) s = rpc_Is err s.
Proof. destruct err as [c msg|e]; [destruct c, s; reflexivity|]. simpl. by rewrite orb_false_r. Qed.

Lemma base64_inj a b : base64_encode a = base64_encode b -> a = b.
Proof. intros H. pose proof (base64_roundtrip a) as Ha. rewrite H, base64_roundtrip in Ha. by injection Ha. Qed.

(** The header the Runner sends is let in exactly when the tokens agree. *)
Lemma authenticate_basic hostToken token :
  authenticate hostToken (auth_headers token) = None <-> hostToken = "" \/ token = hostToken.
Proof.
  unfold authenticate. destruct (String.eqb_spec hostToken "") as [->|Hh]; [tauto|].
  unfold auth_headers, basicAuthHeader. destruct (String.eqb_spec token "") as [->|Ht].
  { simpl. split; [done|]. intros [->| <-]; done. }
  destruct (String.eqb_spec ("Basic " +:+ base64_encode token) "") as [|_]; [done|].
  assert (HC : Cut ("Basic " +:+ base64_encode token) " " = Some ("Basic", base64_encode token)) by done. rewrite HC.
  assert (HF : EqualFold_ascii "Basic" "basic" = true) by (vm_compute; reflexivity). rewrite HF. cbn [negb orb].
  destruct (String.eqb_spec (base64_encode token) (base64_encode hostToken)) as [E|E]; split; try done.
  - intros _. right. by apply base64_inj.
  - intros [Hx|Hx]; [by destruct Hh|]. exfalso. apply E. by rewrite Hx.
Qed.
Lemma authenticate_error hostToken values e : authenticate hostToken values = Some e -> exists msg, e = RStatus Unauthenticated msg.
Proof.
  unfold authenticate. destruct (String.eqb hostToken ""); [done|]. destruct values as [|v ?]; [intros [= <-]; eauto|].
  destruct (Cut v " ") as [[scheme cred]|]; [|intros [= <-]; eauto]. destruct (negb _); [intros [= <-]; eauto|].
  destruct (String.eqb _ _); [done|]. intros [= <-]. eauto.
Qed.

Lemma token_checked hostToken token : negb (String.eqb hostToken "") && negb (String.eqb token hostToken)
  = match authenticate hostToken (auth_headers token) with Some _ => true | None => false end.
Proof.
  pose proof (authenticate_basic hostToken token) as HA. destruct (authenticate hostToken (auth_headers token)) as [e|].
  - destruct (String.eqb_spec hostToken "") as [E|E]; [by assert (Some e = None) by (apply HA; by left)|].
    destruct (String.eqb_spec token hostToken) as [F|F]; [by assert (Some e = None) by (apply HA; by right)|done].
  - destruct (proj1 HA eq_refl) as [-> | ->]; [done|]. by rewrite String.eqb_refl, andb_false_r.
Qed.

Definition context_errors (rounds : list (bool * wake)) : Prop :=
  Forall (fun r => match r.2 with CallerGone e => e = ESentinel CtxCanceled \/ e = ESentinel CtxDeadlineExceeded | _ => True end) rounds.

Lemma awaitResponsive_error rounds e : context_errors rounds -> awaitResponsive rounds = Some (Some (inl e)) ->
  e = ESentinel CtxCanceled \/ e = ESentinel CtxDeadlineExceeded.
Proof.
  induction rounds as [|[[] w] rounds IH]; intros HC HA; [done| |done]. apply Forall_cons in HC as [Hw HC].
  destruct w; [by apply IH|by injection HA as <-|done].
Qed.

(** What a caller can tell of two answers. *)
Definition same_answer {A} (a b : option (result A)) : Prop :=
  match a, b with
  | None, None => True
  | Some (Ok x), Some (Ok y) => x = y
  | Some (Err e), Some (Err f) => forall s, errors_Is e s = errors_Is f s
  | _, _ => False
  end.

(** The in-memory client of the fake Host answers every call as the
    Runner's client would over gRPC: it waits while the Host does not answer,
    lets in exactly the callers whose token the Host decodes from the header
    they would send, hands back the same values, and reports a refusal, the
    end of the caller's context, a closed Host and every status of the Host
    as the same sentinel errors. *)
Theorem mem_as_grpc {A} host op rounds hostToken token (answer : rres A) :
  context_errors rounds ->
  same_answer (mem_call host rounds hostToken token answer) (grpc_call host op rounds hostToken token answer).
Proof.
  intros HC. unfold mem_call, grpc_call, Client_admit, Host_admit. pose proof (awaitResponsive_error rounds) as HE.
  destruct (awaitResponsive rounds) as [[[e|[]]|]|]; [| |..].
  - destruct (HE e HC eq_refl) as [-> | ->]; intros s; destruct s; reflexivity.
  - intros s. destruct s; reflexivity.
  - rewrite token_checked. destruct (authenticate hostToken (auth_headers token)) as [e|] eqn:EA; simpl.
    + destruct (authenticate_error _ _ _ EA) as [msg ->]. intros s. rewrite host_mapErr_Is. destruct s; reflexivity.
    + destruct answer as [a|err]; [done|]. intros s. by rewrite statusToSentinel_Is, host_mapErr_Is.
  - done.
Qed.

Lemma mem_as_grpc_witness :
  same_answer (mem_call "h1" [(true, FaultsChanged); (false, HostGone)] "t" "wrong" (ROk tt))
    (grpc_call "h1" "GetMicroVM" [(true, FaultsChanged); (false, HostGone)] "t" "wrong" (ROk tt))
  /\ mem_call "h1" [(true, FaultsChanged); (false, HostGone)] "t" "t" (ROk tt) = Some (Ok tt).
Proof. split; [apply mem_as_grpc; by repeat constructor|vm_compute; reflexivity]. Defined.

(** ** The calls of the in-memory client *)
Section MemClient.
Context (rounds : list (bool * wake)) (token : string).
Definition mem {A} (h : Host) (answer : rres A) : option (result A) := mem_call (fh_Name (fo_cfg h)) rounds (fh_Token (fo_cfg h)) token answer.
Definition Client_ServerInfo (now : time) (h : Host) : option (result HostInfo) :=
  match mem h (serverInfo now h) with
  | Some (Ok resp) => Some (client_ServerInfo (fh_Name (fo_cfg h)) (ROk resp))
  | Some (Err e) => Some (Err e)
  | None => None
  end.
Definition Client_GetMicroVM (uid : string) (h : Host) : option (result microVM) := mem h (getMicroVM uid h).
Definition Client_ListMicroVMs (namespace : string) (h : Host) : option (result (list microVM)) := mem h (listMicroVMs namespace None h).
(** A call that is not let in does not reach the store. *)
Definition Client_CreateMicroVM (ce : create_env) (spec : option MicroVMSpec) (h : Host) : Host * option (result microVM) :=
  match mem h (ROk tt) with
  | Some (Ok _) => let '(h', r) := createMicroVM ce spec h in (h', mem h r)
  | Some (Err e) => (h, Some (Err e))
  | None => (h, None)
  end.
Definition Client_SSHProxy (h : Host) : option (result unit) :=
  match mem h (ROk tt) with
  | Some (Ok _) => Some (Err (EWrap ("fake host " +:+ fh_Name (fo_cfg h) +:+ ": ssh proxy") [ESentinel HostErrUnimplemented]))
  | r => r
  end.
End MemClient.

(** The Dialer over a set of fake Hosts, by name. *)
Definition DialAdmin {H : Type} (hosts : gmap string H) (ep : Endpoint) : result (H * string) :=
  match hosts !! e_Name ep with
  | None => Err (EWrap ("fake dialer: " +:+ e_Name ep) [ESentinel HostErrUnknownHost])
  | Some h => Ok (h, e_Token ep)
  end.

(** ** Interleaving

    The calls of any number of clients, the boot goroutines, the deletes
    between their critical section and their end, and the execs that have
    been attached and not detached. *)
Record HSys := { hy_host : Host; hy_now : time; hy_deletes : gmap Z (Z * gset Z); hy_execs : gset (Z * Z); hy_nextd : Z }.
#[export] Instance eta_HSys : Eta HSys :=
  fun r => {| hy_host := hy_host r; hy_now := hy_now r; hy_deletes := hy_deletes r; hy_execs := hy_execs r; hy_nextd := hy_nextd r |}.
Inductive hinput :=
  | HCreate (ce : create_env) (spec : option MicroVMSpec)
  | HDelete (uid : string)
  | HDeleteEnd (j : Z)
  | HAttach (uid : string)
  | HDetach (x : Z * Z)
  | HBoot (i : Z)
  | HBootGone (i : Z)
  | HFaults (f : HostFaults)
  | HListen (bound : result string)
  | HClose
  | HCloseEnd
  | HTick (now : time).

Definition hstep (i : hinput) (y : HSys) : option HSys :=
  let h := hy_host y in
  match i with
  | HCreate ce spec => Some (y <| hy_host := (createMicroVM (ce <| ce_now := hy_now y |>) spec h).1 |>)
  | HDelete uid =>
      match deleteMicroVM_begin uid h with
      | (h, ROk d) => Some (y <| hy_host := h |> <| hy_deletes := <[hy_nextd y := d]> (hy_deletes y) |> <| hy_nextd := hy_nextd y + 1 |>)
      | (h, RErr _) => Some (y <| hy_host := h |>)
      end
  | HDeleteEnd j =>
      match hy_deletes y !! j with
      | None => None
      | Some (i, execs) => Some (y <| hy_host := (deleteMicroVM_end i execs false h).1 |> <| hy_deletes := delete j (hy_deletes y) |>)
      end
  | HAttach uid =>
      match attachExec uid h with
      | (h, ROk (_, x)) => Some (y <| hy_host := h |> <| hy_execs := {[x]} ∪ hy_execs y |>)
      | (h, RErr _) => Some (y <| hy_host := h |>)
      end
  | HDetach x => if decide (x ∈ hy_execs y) then Some (y <| hy_host := detach x h |> <| hy_execs := hy_execs y ∖ {[x]} |>) else None
  | HBoot i =>
      match fo_boots h !! i with
      | Some t => if t <=? hy_now y then Some (y <| hy_host := bootMicroVM (hy_now y) i h |>) else None
      | None => None
      end
  | HBootGone i =>
      match fo_boots h !! i with
      | Some _ => if fo_closed h then Some (y <| hy_host := h <| fo_boots := delete i (fo_boots h) |> |>) else None
      | None => None
      end
  | HFaults f => Some (y <| hy_host := SetFaults f h |>)
  | HListen bound => Some (y <| hy_host := (host_listen bound h).1 |>)
  | HClose => Some (y <| hy_host := Host_Close_begin h |>)
  | HCloseEnd => if fo_closed h && bool_decide (fo_boots h = ∅) then Some (y <| hy_host := Host_Close_end (fo_temp h) h |>) else None
  | HTick now => if hy_now y <=? now then Some (y <| hy_now := now |>) else None
  end.

(** * The fake Host under interleaving

    The invariant of the MicroVM store, the sandboxes, the boots and the
    execs, and what it means for a user of the fake. *)

Lemma directory_child root e : directory root -> proper e -> directory (root +:+ "/" +:+ e).
Proof.
  intros (cs & -> & Hne & HC) He. exists (cs ++ [e]). split; [by rewrite render_app|]. split; [by destruct cs|].
  apply Forall_app. split; [done|]. by apply Forall_singleton.
Qed.
Lemma proper_vsock : proper vsockSocketName.
Proof. repeat split; done. Qed.

(** What holds of every record, whoever still refers to it. *)
Record rec_ok (root : string) (r : microVM) : Prop := {
  ro_uid : proper (mv_uid r);
  ro_sandbox : mv_sandbox r = root +:+ "/" +:+ mv_uid r;
  ro_booted : match mv_state r with VmPending => mv_booted r = false | VmCreated | VmFailed => mv_booted r = true | VmDeleting => True end;
  ro_vsock : match mv_state r with
             | VmPending | VmFailed => mv_vsock r = ""
             | VmCreated => mv_vsock r = mv_sandbox r +:+ "/" +:+ vsockSocketName
             | VmDeleting => True
             end }.

(** An exec in flight runs in a MicroVM that is up, or a delete is about to
    cancel it, or it has been cancelled. *)
Definition exec_ok (y : HSys) (i k : Z) (r : microVM) : Prop :=
  k ∈ mv_execs r /\ (fo_vms (hy_host y) !! mv_uid r = Some i /\ mv_state r = VmCreated
                     \/ (exists j E, hy_deletes y !! j = Some (i, E) /\ k ∈ E) \/ (i, k) ∈ fo_cancelled (hy_host y)).

(** The invariant; the record [skip], if any, may be pending without a boot
    goroutine. *)
Record HIx (skip : option Z) (y : HSys) : Prop := {
  hx_root : (fo_root (hy_host y) = "" /\ fo_dirs (hy_host y) = ∅ /\ fo_recs (hy_host y) = ∅) \/ directory (fo_root (hy_host y));
  hx_temp : fo_temp (hy_host y) = "" \/ fo_temp (hy_host y) = fo_root (hy_host y);
  hx_next : 0 <= fo_next (hy_host y);
  hx_rec : forall i r, fo_recs (hy_host y) !! i = Some r -> 0 <= i < fo_next (hy_host y) /\ rec_ok (fo_root (hy_host y)) r;
  hx_vms : forall uid i, fo_vms (hy_host y) !! uid = Some i ->
    exists r, fo_recs (hy_host y) !! i = Some r /\ mv_uid r = uid /\ mv_state r <> VmDeleting /\ mv_sandbox r ∈ fo_dirs (hy_host y);
  hx_boots : forall i t, fo_boots (hy_host y) !! i = Some t ->
    exists r, fo_recs (hy_host y) !! i = Some r /\ mv_booted r = false /\ t = time_Add (mv_createdAt r) (fh_BootDelay (fo_cfg (hy_host y)));
  hx_pending : forall uid i r, fo_vms (hy_host y) !! uid = Some i -> fo_recs (hy_host y) !! i = Some r -> mv_state r = VmPending ->
    skip <> Some i -> is_Some (fo_boots (hy_host y) !! i) \/ fo_closed (hy_host y) = true;
  hx_panic : fo_panic (hy_host y) = false;
  hx_deletes : forall j i E, hy_deletes y !! j = Some (i, E) -> j < hy_nextd y /\
    exists r, fo_recs (hy_host y) !! i = Some r /\ mv_state r = VmDeleting /\ mv_sandbox r ∈ fo_dirs (hy_host y) /\ fo_vms (hy_host y) !! mv_uid r = None;
  hx_once : forall j j' i i' E E' r r', hy_deletes y !! j = Some (i, E) -> hy_deletes y !! j' = Some (i', E') ->
    fo_recs (hy_host y) !! i = Some r -> fo_recs (hy_host y) !! i' = Some r' -> mv_uid r = mv_uid r' -> j = j';
  hx_dirs : forall d, d ∈ fo_dirs (hy_host y) -> d = fo_root (hy_host y)
    \/ (exists uid i r, fo_vms (hy_host y) !! uid = Some i /\ fo_recs (hy_host y) !! i = Some r /\ mv_sandbox r = d)
    \/ (exists j i E r, hy_deletes y !! j = Some (i, E) /\ fo_recs (hy_host y) !! i = Some r /\ mv_sandbox r = d);
  hx_execs : forall i k, (i, k) ∈ hy_execs y -> exists r, fo_recs (hy_host y) !! i = Some r /\ exec_ok y i k r }.
Notation HI := (HIx None).

Lemma HI_weaken s y : HI y -> HIx s y.
Proof. intros []; split; auto. intros. by eapply hx_pending0. Qed.

(** ** Adding a MicroVM *)
Lemma HI_ensure temp all y h' r : HI y -> (forall dir, temp = Ok dir -> directory dir) ->
  ensureSandboxRootLocked temp all (hy_host y) = (h', r) -> HI (y <| hy_host := h' |>) /\
  forall root, r = Ok root -> directory root /\ root = fo_root h' /\ root ∈ fo_dirs h' /\ fo_vms h' = fo_vms (hy_host y) /\ fo_closed h' = fo_closed (hy_host y).
Proof.
  intros HH HT. unfold ensureSandboxRootLocked. destruct y as [h now dels execs nextd]. simpl. pose proof HH as [Hroot _ _ Hrec Hvms Hboots Hpend Hpan Hdel Honce Hdirs Hex]. simpl in *.
  destruct (String.eqb_spec (fo_root h) "") as [E|E].
  - destruct Hroot as [(_ & Hd & Hr)|(cs & Hcs & _)]; [|by rewrite E in Hcs]. destruct temp as [dir|e]; intros [= <- <-].
    + split.
      * split; rec_simpl.
        -- right. by apply HT.
        -- by right.
        -- by destruct HH.
        -- intros i r Hi. by rewrite Hr in Hi.
        -- intros uid i Hi. destruct (Hvms uid i Hi) as (r & Hi' & _). by rewrite Hr in Hi'.
        -- intros i t Hi. destruct (Hboots i t Hi) as (r & Hi' & _). by rewrite Hr in Hi'.
        -- intros uid i r _ Hi. by rewrite Hr in Hi.
        -- done.
        -- intros j i E' Hj. destruct (Hdel j i E' Hj) as (_ & r & Hi & _). by rewrite Hr in Hi.
        -- intros j j' i i' E1 E2 r r' _ _ Hi. by rewrite Hr in Hi.
        -- intros d. rewrite Hd. set_solver.
        -- intros i k Hk. destruct (Hex i k Hk) as (r & Hi & _). by rewrite Hr in Hi.
      * intros root [= <-]. rec_simpl. split_and!; [by apply HT|done|set_solver|done|done].
    + split; [done|]. by intros root [=].
  - destruct Hroot as [(? & _)|Hroot]; [done|]. destruct all as [e|]; intros [= <- <-].
    + split; [done|]. by intros root [=].
    + split; [|intros root [= <-]; rec_simpl; split_and!; [done|done|set_solver|done|done]].
      split; rec_simpl; try done; try (by destruct HH).
      * by right.
      * intros uid i Hi. destruct (Hvms uid i Hi) as (r & ? & ? & ? & ?). exists r. split_and!; try done. set_solver.
      * intros j i E' Hj. destruct (Hdel j i E' Hj) as (? & r & ? & ? & ? & ?). split; [done|]. exists r. split_and!; try done. set_solver.
      * intros d [->%elem_of_singleton|Hd]%elem_of_union; [by left|by apply Hdirs].
Qed.

Definition add_record (uid : string) (spec : MicroVMSpec) (now : time) (h : Host) : Host :=
  let sandbox := Join (fo_root h) uid in
  h <| fo_dirs := {[sandbox]} ∪ fo_dirs h |> <| fo_next := fo_next h + 1 |>
    <| fo_recs := <[fo_next h := newRecord uid spec now sandbox]> (fo_recs h) |> <| fo_vms := <[uid := fo_next h]> (fo_vms h) |>.

Lemma fresh_rec s y i r : HIx s y -> fo_recs (hy_host y) !! i = Some r -> i <> fo_next (hy_host y).
Proof. intros HH Hi ->. destruct (hx_rec s y HH _ _ Hi). lia. Qed.

Lemma HI_add uid spec now y :
  HI y -> directory (fo_root (hy_host y)) -> proper uid -> fo_vms (hy_host y) !! uid = None ->
  Join (fo_root (hy_host y)) uid ∉ fo_dirs (hy_host y) ->
  HIx (Some (fo_next (hy_host y))) (y <| hy_host := add_record uid spec now (hy_host y) |>)
  /\ fo_boots (hy_host y) !! fo_next (hy_host y) = None.
Proof.
  intros HH Hdir Hp Hno Hnd. pose proof (fresh_rec None y) as Hfr. destruct y as [h now0 dels execs nextd]. simpl in *.
  rewrite (Join_proper _ _ Hdir Hp) in Hnd.
  assert (Hb : fo_boots h !! fo_next h = None).
  { destruct (fo_boots h !! fo_next h) as [t|] eqn:E; [|done]. destruct (hx_boots None _ HH _ _ E) as (r & Hr & _). by apply (Hfr _ _ HH) in Hr. }
  split; [|done]. pose proof HH as [_ Htemp Hnext Hrec Hvms Hboots Hpend Hpan Hdel Honce Hdirs Hex].
  unfold add_record. rewrite (Join_proper _ _ Hdir Hp). simpl in *.
  assert (Hlk : forall i r, fo_recs h !! i = Some r -> <[fo_next h := newRecord uid spec now (fo_root h +:+ "/" +:+ uid)]> (fo_recs h) !! i = Some r).
  { intros i r Hi. rewrite lookup_insert_ne; [done|]. intros <-. by apply (Hfr _ _ HH) in Hi. }
  assert (Hout : forall i r, fo_recs h !! i = Some r -> mv_sandbox r ∈ fo_dirs h -> mv_uid r <> uid).
  { intros i r Hi Hd Hu. apply Hnd. destruct (Hrec i r Hi) as [_ [_ Hs _ _]]. by rewrite <-Hu, <-Hs. }
  split; rec_simpl; try done.
  - by right.
  - lia.
  - intros i r [[<- <-]|[_ Hi]]%lookup_insert_Some; [|destruct (Hrec i r Hi); split; [lia|done]]. split; [lia|]. by split.
  - intros u i [[<- <-]|[Hne Hi]]%lookup_insert_Some.
    + rewrite lookup_insert_eq. eexists. split; [done|]. simpl. split_and!; try done. set_solver.
    + destruct (Hvms u i Hi) as (r & Hr & ? & ? & ?). exists r. split_and!; auto. set_solver.
  - intros i t Hi. destruct (Hboots i t Hi) as (r & Hr & ? & ?). exists r. split_and!; auto.
  - intros u i r [[<- <-]|[Hne Hi]]%lookup_insert_Some Hr Hst Hsk; [done|].
    rewrite lookup_insert_ne in Hr by congruence. by eapply Hpend.
  - intros j i E Hj. destruct (Hdel j i E Hj) as (? & r & Hr & ? & Hd & Hv). split; [done|]. exists r. split_and!; auto; [set_solver|].
    rewrite lookup_insert_ne; [done|]. intros Hu. by apply (Hout i r Hr Hd).
  - intros j j' i i' E E' r r' Hj Hj' Hi Hi' Hu. destruct (Hdel j i E Hj) as (_ & x & Hx & _). destruct (Hdel j' i' E' Hj') as (_ & x' & Hx' & _).
    rewrite (Hlk _ _ Hx) in Hi. rewrite (Hlk _ _ Hx') in Hi'. simplify_eq. by eapply Honce.
  - intros d [->%elem_of_singleton|Hd]%elem_of_union.
    + right. left. eexists uid, _, _. rewrite !lookup_insert_eq. by split_and!.
    + destruct (Hdirs d Hd) as [->|[(u & i & r & Hu & Hi & Hs)|(j & i & E & r & Hj & Hi & Hs)]]; [by left| |].
      * right. left. exists u, i, r. split_and!; auto. rewrite lookup_insert_ne; [done|]. intros <-. by rewrite Hno in Hu.
      * right. right. exists j, i, E, r. auto.
  - intros i k Hk. destruct (Hex i k Hk) as (r & Hr & Hm & Ho). exists r. split; [auto|]. split; [done|]. simpl in *.
    destruct Ho as [[Hv Hst]|Ho]; [|by right]. left. split; [|done]. rewrite lookup_insert_ne; [done|]. intros Hu. by rewrite <-Hu, Hno in Hv.
Qed.

(** A boot goroutine starts for the record. *)
Lemma HI_boots y i r : HIx (Some i) y -> fo_recs (hy_host y) !! i = Some r -> mv_booted r = false ->
  HI (y <| hy_host := (hy_host y) <| fo_boots := <[i := time_Add (mv_createdAt r) (fh_BootDelay (fo_cfg (hy_host y)))]> (fo_boots (hy_host y)) |> |>).
Proof.
  intros HH Hi Hb. destruct y as [h now dels execs nextd]. simpl in *. destruct HH; simpl in *. split; rec_simpl; try done.
  - intros k t [[<- <-]|[_ Hk]]%lookup_insert_Some; [by exists r|by apply hx_boots0].
  - intros uid k r' Hu Hk Hst _. destruct (decide (k = i)) as [->|Hne]; [left; rewrite lookup_insert_eq; by eexists|].
    rewrite lookup_insert_ne by done. eapply hx_pending0; eauto. congruence.
Qed.

(** ** Booting *)
Lemma HI_finish now y i r uid : HIx (Some i) y -> fo_vms (hy_host y) !! uid = Some i -> fo_recs (hy_host y) !! i = Some r ->
  mv_state r = VmPending -> fo_boots (hy_host y) !! i = None -> HI (y <| hy_host := finishBootLocked now i (hy_host y) |>).
Proof.
  intros HH Hu Hi Hst Hb. destruct y as [h now0 dels execs nextd]. simpl in *. unfold finishBootLocked. rewrite Hi.
  pose proof HH as [Hroot Htemp Hnext Hrec Hvms Hboots Hpend Hpan Hdel Honce Hdirs Hex]. simpl in *.
  destruct (Hrec i r Hi) as [Hri [Ru Rs Rb Rv]]. rewrite Hst in Rb, Rv.
  assert (Hdir : directory (fo_root h)) by (destruct Hroot as [(_ & _ & H0)|?]; [by rewrite H0 in Hi|done]).
  set (r1 := (if hf_CreateFails (fo_faults h) then _ else _) <| mv_updatedAt := now |> <| mv_version := mv_version r + 1 |> <| mv_booted := true |>).
  assert (Hsame : mv_uid r1 = mv_uid r /\ mv_sandbox r1 = mv_sandbox r /\ mv_execs r1 = mv_execs r /\ mv_createdAt r1 = mv_createdAt r
                  /\ mv_state r1 <> VmDeleting /\ mv_state r1 <> VmPending) by (unfold r1; destruct (hf_CreateFails _); done).
  destruct Hsame as (S1 & S2 & S3 & S4 & S5 & S6).
  assert (Hok1 : rec_ok (fo_root h) r1).
  { unfold r1. destruct (hf_CreateFails (fo_faults h)); split; rec_simpl; try done.
    apply Join_proper; [rewrite Rs; by apply directory_child|apply proper_vsock]. }
  clearbody r1.
  assert (Hlk : forall k x, fo_recs h !! k = Some x -> exists x', <[i := r1]> (fo_recs h) !! k = Some x' /\ mv_uid x' = mv_uid x /\ mv_sandbox x' = mv_sandbox x
                 /\ mv_execs x' = mv_execs x /\ mv_createdAt x' = mv_createdAt x /\ (k <> i -> x' = x)).
  { intros k x Hk. destruct (decide (k = i)) as [->|Hne]; [rewrite lookup_insert_eq|rewrite lookup_insert_ne by done].
    - rewrite Hi in Hk. injection Hk as <-. exists r1. split_and!; try done.
    - exists x. by split_and!. }
  assert (Hnd : forall j E, dels !! j <> Some (i, E)).
  { intros j E Hj. destruct (Hdel j i E Hj) as (_ & x & Hx & Hs & _). rewrite Hi in Hx. injection Hx as <-. congruence. }
  split; rec_simpl; try done.
  - destruct Hroot as [(? & ? & H0)|?]; [by rewrite H0 in Hi|by right].
  - intros k x [[<- <-]|[_ Hk]]%lookup_insert_Some; [by split|by apply Hrec].
  - intros u k Hk. destruct (Hvms u k Hk) as (x & Hx & Hux & Hsx & Hdx). destruct (decide (k = i)) as [->|Hne].
    + rewrite Hi in Hx. injection Hx as <-. exists r1. rewrite lookup_insert_eq, S1, S2. by split_and!.
    + exists x. rewrite lookup_insert_ne by done. by split_and!.
  - intros k t Hk. assert (k <> i) by congruence. rewrite lookup_insert_ne by done. by apply Hboots.
  - intros u k x Hk Hx Hsx _. destruct (decide (k = i)) as [->|Hne]; [rewrite lookup_insert_eq in Hx; by simplify_eq|].
    rewrite lookup_insert_ne in Hx by done. eapply Hpend; eauto. congruence.
  - by rewrite Hpan, Rb.
  - intros j k E Hj. destruct (Hdel j k E Hj) as (? & x & Hx & ?). split; [done|]. exists x. rewrite lookup_insert_ne; [done|]. intros <-. by apply (Hnd j E).
  - intros j j' k k' E E' x x' Hj Hj' Hx Hx'. assert (k <> i) by (intros ->; by apply (Hnd j E)). assert (k' <> i) by (intros ->; by apply (Hnd j' E')).
    rewrite lookup_insert_ne in Hx, Hx' by done. by eapply Honce.
  - intros d Hd. destruct (Hdirs d Hd) as [->|[(u & k & x & Hk & Hx & Hs)|(j & k & E & x & Hj & Hx & Hs)]]; [by left| |].
    + destruct (Hlk k x Hx) as (x' & Hx' & _ & Hs' & _). right. left. exists u, k, x'. split_and!; try done. congruence.
    + destruct (Hlk k x Hx) as (x' & Hx' & _ & Hs' & _). right. right. exists j, k, E, x'. split_and!; try done. congruence.
  - intros k e He. destruct (Hex k e He) as (x & Hx & Hm & Ho). destruct (decide (k = i)) as [->|Hne].
    + rewrite Hi in Hx. injection Hx as <-. exists r1. rewrite lookup_insert_eq. split; [done|]. split; [by rewrite S3|]. simpl in *.
      destruct Ho as [[_ Hc]|Ho]; [congruence|by right].
    + exists x. rewrite lookup_insert_ne by done. by split.
Qed.

Definition create_ok (ce : create_env) (spec : option MicroVMSpec) : Prop :=
  (forall dir, ce_temp ce = Ok dir -> directory dir)
  /\ match spec with
     | None => True
     | Some s => if String.eqb (ms_Uid s) "" then forall uid, ce_uid ce = Ok uid -> proper uid else proper (ms_Uid s)
     end.

Lemma HI_create ce spec y : HI y -> create_ok ce spec -> HI (y <| hy_host := (createMicroVM ce spec (hy_host y)).1 |>).
Proof.
  intros HH [HT HS]. destruct y as [h now dels execs nextd]. cbn [hy_host] in *.
  set (at_ := fun h => {| hy_host := h; hy_now := now; hy_deletes := dels; hy_execs := execs; hy_nextd := nextd |}).
  change (HI (at_ (createMicroVM ce spec h).1)). change (HI (at_ h)) in HH.
  unfold createMicroVM. destruct spec as [spec|]; [|done]. destruct (fo_closed h) eqn:Ec; [done|].
  destruct (if String.eqb (ms_Uid spec) "" then ce_uid ce else Ok (ms_Uid spec)) as [uid|e] eqn:Eu; [|done].
  assert (Hp : proper uid) by (destruct (String.eqb (ms_Uid spec) ""); [by apply HS|by injection Eu as <-]).
  destruct (fo_vms h !! uid) as [?|] eqn:Ev; [done|].
  destruct (ensureSandboxRootLocked (ce_temp ce) (ce_all ce) h) as [h1 r] eqn:EE.
  destruct (HI_ensure _ _ (at_ h) h1 r HH HT EE) as [HH1 HR]. change (HI (at_ h1)) in HH1. destruct r as [root|e]; [|exact HH1].
  destruct (HR root eq_refl) as (Hdir & -> & _ & Hv & Hc). destruct (bool_decide _ || _) eqn:Eb; [exact HH1|].
  apply orb_false_iff in Eb as [Eb _]. apply bool_decide_eq_false in Eb.
  assert (Hno : fo_vms (hy_host (at_ h1)) !! uid = None) by (cbn; by rewrite Hv).
  destruct (HI_add uid spec (ce_now ce) (at_ h1) HH1 Hdir Hp Hno Eb) as [HA Hb]. cbn [fst].
  change (HIx (Some (fo_next h1)) (at_ (add_record uid spec (ce_now ce) h1))) in HA. change (fo_boots h1 !! fo_next h1 = None) in Hb.
  change (h1 <| fo_dirs := {[Join (fo_root h1) uid]} ∪ fo_dirs h1 |> <| fo_next := fo_next h1 + 1 |>
    <| fo_recs := <[fo_next h1 := newRecord uid spec (ce_now ce) (Join (fo_root h1) uid)]> (fo_recs h1) |>
    <| fo_vms := <[uid := fo_next h1]> (fo_vms h1) |>) with (add_record uid spec (ce_now ce) h1).
  set (h2 := add_record uid spec (ce_now ce) h1) in *.
  assert (H1 : fo_recs h2 !! fo_next h1 = Some (newRecord uid spec (ce_now ce) (Join (fo_root h1) uid))) by apply lookup_insert_eq.
  assert (H2 : fo_vms h2 !! uid = Some (fo_next h1)) by apply lookup_insert_eq.
  destruct (_ <=? 0).
  - exact (HI_finish (ce_now ce) (at_ h2) _ _ uid HA H2 H1 eq_refl Hb).
  - exact (HI_boots (at_ h2) _ _ HA H1 eq_refl).
Qed.

Lemma rec_of_Some uid h i r : rec_of uid h = Some (i, r) -> fo_vms h !! uid = Some i /\ fo_recs h !! i = Some r.
Proof. unfold rec_of. destruct (fo_vms h !! uid) as [k|]; [|done]. simpl. destruct (fo_recs h !! k) eqn:E; [|done]. simpl. by intros [= <- <-]. Qed.

(** A boot goroutine ends without booting. *)
Lemma HI_unboot i y : HI y -> (forall uid r, fo_vms (hy_host y) !! uid = Some i -> fo_recs (hy_host y) !! i = Some r -> mv_state r = VmPending -> fo_closed (hy_host y) = true) ->
  HI (y <| hy_host := (hy_host y) <| fo_boots := delete i (fo_boots (hy_host y)) |> |>).
Proof.
  intros HH Hn. destruct y as [h now dels execs nextd]. simpl in *. destruct HH; simpl in *. split; rec_simpl; try done.
  - intros k t [_ Hk]%lookup_delete_Some. by apply hx_boots0.
  - intros uid k r Hu Hk Hst Hsk. destruct (decide (k = i)) as [->|Hne]; [right; by eapply Hn|]. rewrite lookup_delete_ne by done. by eapply hx_pending0.
Qed.
Lemma HI_unboot_skip i y : HI y -> HIx (Some i) (y <| hy_host := (hy_host y) <| fo_boots := delete i (fo_boots (hy_host y)) |> |>).
Proof.
  intros HH. destruct y as [h now dels execs nextd]. simpl in *. destruct HH; simpl in *. split; rec_simpl; try done.
  - intros k t [_ Hk]%lookup_delete_Some. by apply hx_boots0.
  - intros uid k r Hu Hk Hst Hsk. rewrite lookup_delete_ne by congruence. by eapply hx_pending0.
Qed.

Lemma HI_boot now i y : HI y -> HI (y <| hy_host := bootMicroVM now i (hy_host y) |>).
Proof.
  intros HH. unfold bootMicroVM. rec_simpl. destruct (fo_recs (hy_host y) !! i) as [r|] eqn:Ei.
  2:{ apply HI_unboot; [done|]. intros uid r Hu Hr. congruence. }
  destruct (bool_decide_reflect (fo_vms (hy_host y) !! mv_uid r = Some i)) as [Hv|Hv]; simpl.
  2:{ apply HI_unboot; [done|]. intros uid x Hu Hx _. destruct (hx_vms _ _ HH uid i Hu) as (x' & Hx' & Hux & _). simplify_eq. }
  destruct (bool_decide_reflect (mv_state r = VmPending)) as [Hs|Hs].
  2:{ apply HI_unboot; [done|]. intros uid x Hu Hx Hp. simplify_eq. }
  pose proof (HI_finish now _ i r (mv_uid r) (HI_unboot_skip i y HH) Hv Ei Hs (lookup_delete_eq _ _)) as HF. destruct y. exact HF.
Qed.

(** ** Deleting *)
Lemma HI_delete uid i r y : HI y -> fo_vms (hy_host y) !! uid = Some i -> fo_recs (hy_host y) !! i = Some r ->
  HI (y <| hy_host := upd_rec i (fun r => r <| mv_state := VmDeleting |>) (hy_host y) <| fo_vms := delete uid (fo_vms (hy_host y)) |> |>
        <| hy_deletes := <[hy_nextd y := (i, mv_execs r)]> (hy_deletes y) |> <| hy_nextd := hy_nextd y + 1 |>).
Proof.
  intros HH Hu Hi. destruct y as [h now dels execs nextd]. cbn [hy_host hy_deletes hy_nextd hy_execs hy_now] in *.
  pose proof HH as [Hroot Htemp Hnext Hrec Hvms Hboots Hpend Hpan Hdel Honce Hdirs Hex]. simpl in *.
  destruct (Hvms uid i Hu) as (r0 & Hr0 & Huid & Hst & Hsd). rewrite Hi in Hr0. injection Hr0 as <-.
  set (f := fun r : microVM => r <| mv_state := VmDeleting |>).
  assert (Hlk : forall k x, fo_recs h !! k = Some x -> alter f i (fo_recs h) !! k = Some (if decide (k = i) then f x else x)).
  { intros k x Hk. destruct (decide (k = i)) as [->|Hne]; [by rewrite lookup_alter_eq, Hk|by rewrite lookup_alter_ne]. }
  assert (Hback : forall k x, alter f i (fo_recs h) !! k = Some x -> exists x0, fo_recs h !! k = Some x0 /\ x = if decide (k = i) then f x0 else x0).
  { intros k x. destruct (decide (k = i)) as [->|Hne]; [rewrite lookup_alter_eq|rewrite lookup_alter_ne by done; eauto]. rewrite Hi. intros [= <-]. eauto. }
  assert (Hfresh : dels !! nextd = None).
  { destruct (dels !! nextd) as [[k E]|] eqn:E1; [|done]. destruct (Hdel _ _ _ E1). lia. }
  assert (Hof : forall j k E x, dels !! j = Some (k, E) -> fo_recs h !! k = Some x -> k <> i /\ mv_uid x <> uid).
  { intros j k E x Hj Hx. destruct (Hdel j k E Hj) as (_ & x' & Hx' & Hd & _ & Hv). rewrite Hx in Hx'. injection Hx' as <-. split; congruence. }
  split; unfold upd_rec; rec_simpl; fold f; try done.
  - destruct Hroot as [(? & ? & H0)|?]; [by rewrite H0 in Hi|by right].
  - intros k x (x0 & Hk & ->)%Hback. destruct (Hrec k x0 Hk) as [? []]. split; [done|]. by destruct (decide (k = i)); split.
  - intros u k [Hne Hk]%lookup_delete_Some. destruct (Hvms u k Hk) as (x & Hx & Hux & Hsx & Hdx). exists x.
    assert (k <> i) by (intros ->; congruence). rewrite lookup_alter_ne by done. by split_and!.
  - intros k t Hk. destruct (Hboots k t Hk) as (x & Hx & Hbx & ->). rewrite (Hlk k x Hx). eexists. split; [done|]. by destruct (decide (k = i)).
  - intros u k x [Hne Hk]%lookup_delete_Some (x0 & Hx & ->)%Hback Hsx _. destruct (decide (k = i)); [done|]. by eapply Hpend.
  - intros j k E [[<- [= <- <-]]|[Hne Hj]]%lookup_insert_Some.
    + split; [lia|]. rewrite (Hlk i r Hi), decide_True by done. exists (f r). split_and!; try done. simpl. rewrite Huid. apply lookup_delete_eq.
    + destruct (Hdel j k E Hj) as (? & x & Hx & Hd & Hs & Hv). split; [lia|]. destruct (Hof j k E x Hj Hx). exists x.
      rewrite (Hlk k x Hx), decide_False by done. split_and!; try done. by rewrite lookup_delete_ne.
  - intros j j' k k' E E' x x' Hj Hj' (x0 & Hx & ->)%Hback (x0' & Hx' & ->)%Hback Hux.
    apply lookup_insert_Some in Hj as [[<- [= <- <-]]|[Hne Hj]], Hj' as [[<- [= <- <-]]|[Hne' Hj']]; [done| | |].
    + destruct (Hof j' k' E' x0' Hj' Hx') as [Hk' Hu']. rewrite decide_True in Hux by done. rewrite decide_False in Hux by done. simpl in Hux. congruence.
    + destruct (Hof j k E x0 Hj Hx) as [Hk' Hu']. rewrite decide_False in Hux by done. rewrite decide_True in Hux by done. simpl in Hux. congruence.
    + destruct (Hof j k E x0 Hj Hx) as [Hk _], (Hof j' k' E' x0' Hj' Hx') as [Hk' _]. rewrite !decide_False in Hux by done. by eapply Honce.
  - intros d Hd. destruct (Hdirs d Hd) as [->|[(u & k & x & Hk & Hx & Hs)|(j & k & E & x & Hj & Hx & Hs)]]; [by left| |].
    + destruct (decide (u = uid)) as [->|Hne].
      * right. right. exists nextd, i, (mv_execs r), (f r). rewrite lookup_insert_eq, (Hlk i r Hi), decide_True by done. split_and!; try done. simpl. congruence.
      * right. left. exists u, k, x. destruct (Hvms u k Hk) as (x1 & Hx1 & Hux & _). simplify_eq.
        rewrite (Hlk k x Hx), decide_False by (intros ->; simplify_eq). split_and!; try done. by rewrite lookup_delete_ne.
    + destruct (Hof j k E x Hj Hx) as [Hk Hux]. right. right. exists j, k, E, x. rewrite (Hlk k x Hx), decide_False by done. split_and!; try done.
      rewrite lookup_insert_ne; [done|]. intros <-. congruence.
  - intros k e He. destruct (Hex k e He) as (x & Hx & Hm & Ho). rewrite (Hlk k x Hx). eexists. split; [done|]. split; [by destruct (decide (k = i))|]. rec_simpl.
    destruct (decide (k = i)) as [->|Hne].
    + rewrite Hi in Hx. injection Hx as <-. right. left. exists nextd, (mv_execs r). by rewrite lookup_insert_eq.
    + destruct Ho as [[Hv Hc]|[(j & E & Hj & Hk)|Ho]]; [left| |by right; right].
      * split; [|done]. rewrite lookup_delete_ne; [done|]. intros Hq. rewrite <-Hq in Hv. congruence.
      * right. left. exists j, E. rewrite lookup_insert_ne; [done|]. intros <-. congruence.
Qed.

Lemma RemoveAll_spec dir dirs d : d ∈ RemoveAll dir dirs <-> d ∈ dirs /\ inside dir d = false.
Proof. unfold RemoveAll. rewrite elem_of_filter. tauto. Qed.

(** The sandboxes of different MicroVMs do not contain each other. *)
Lemma inside_sibling root r r' : rec_ok root r -> rec_ok root r' -> mv_uid r <> mv_uid r' -> inside (mv_sandbox r) (mv_sandbox r') = false.
Proof.
  intros [_ Hs _ _] [(_ & _ & _ & Hn) Hs' _ _] Hne. unfold inside. rewrite Hs, Hs', sibling_prefix by done. rewrite orb_false_r.
  apply String.eqb_neq. intros H. do 2 apply string_app_inj in H. done.
Qed.
Lemma inside_self d : inside d d = true.
Proof. unfold inside. by rewrite String.eqb_refl. Qed.

Lemma HI_delete_end j i E y : HI y -> hy_deletes y !! j = Some (i, E) ->
  HI (y <| hy_host := (deleteMicroVM_end i E false (hy_host y)).1 |> <| hy_deletes := delete j (hy_deletes y) |>).
Proof.
  intros HH Hj. destruct y as [h now dels execs nextd]. cbn [hy_host hy_deletes hy_nextd hy_execs hy_now] in *.
  pose proof HH as [Hroot Htemp Hnext Hrec Hvms Hboots Hpend Hpan Hdel Honce Hdirs Hex]. simpl in *.
  destruct (Hdel j i E Hj) as (_ & r & Hi & Hst & Hsd & Hv). unfold deleteMicroVM_end. rec_simpl. rewrite Hi. cbn [fst]. destruct (Hrec i r Hi) as [_ Hok].
  split; rec_simpl; try done.
  - destruct Hroot as [(? & ? & H0)|?]; [by rewrite H0 in Hi|by right].
  - intros u k Hk. destruct (Hvms u k Hk) as (x & Hx & Hux & ? & ?). exists x. split_and!; try done. apply RemoveAll_spec. split; [done|].
    apply (inside_sibling (fo_root h)); [done|apply (Hrec k x Hx)|congruence].
  - intros j' k E' [Hne Hj']%lookup_delete_Some. destruct (Hdel j' k E' Hj') as (? & x & Hx & ? & ? & ?). split; [done|]. exists x. split_and!; try done.
    apply RemoveAll_spec. split; [done|]. apply (inside_sibling (fo_root h)); [done|apply (Hrec k x Hx)|]. intros Hu. apply Hne. by eapply Honce.
  - intros j1 j2 k k' E1 E2 x x' [_ H1]%lookup_delete_Some [_ H2]%lookup_delete_Some. by eapply Honce.
  - intros d [Hd Hin]%RemoveAll_spec. destruct (Hdirs d Hd) as [->|[?|(j' & k & E' & x & Hj' & Hx & Hs)]]; [by left|by right; left|].
    right. right. exists j', k, E', x. split_and!; try done. rewrite lookup_delete_ne; [done|]. intros <-. simplify_eq. by rewrite inside_self in Hin.
  - intros k e He. destruct (Hex k e He) as (x & Hx & Hm & Ho). exists x. split; [done|]. split; [done|]. rec_simpl.
    destruct Ho as [Ho|[(j' & E' & Hj' & Hk)|Ho]]; [by left| |by right; right; set_solver].
    destruct (decide (j' = j)) as [->|Hne]; [|right; left; exists j', E'; by rewrite lookup_delete_ne].
    rewrite Hj in Hj'. injection Hj' as <- <-. right. right. apply elem_of_union_l. apply elem_of_map. by exists e.
Qed.

(** ** Execs, and the rest *)
(** A change of the execs of one record. *)
Lemma HI_execs i f X y : HI y ->
  (forall r, mv_uid (f r) = mv_uid r /\ mv_sandbox (f r) = mv_sandbox r /\ mv_state (f r) = mv_state r /\ mv_booted (f r) = mv_booted r
             /\ mv_vsock (f r) = mv_vsock r /\ mv_createdAt (f r) = mv_createdAt r) ->
  (forall k e, (k, e) ∈ X -> exists r, fo_recs (hy_host y) !! k = Some r /\ exec_ok y k e (if decide (k = i) then f r else r)) ->
  HI (y <| hy_host := upd_rec i f (hy_host y) |> <| hy_execs := X |>).
Proof.
  intros HH Hf HX. destruct y as [h now dels execs nextd]. cbn [hy_host hy_deletes hy_nextd hy_execs hy_now] in *.
  pose proof HH as [Hroot Htemp Hnext Hrec Hvms Hboots Hpend Hpan Hdel Honce Hdirs Hex]. simpl in *.
  assert (Hlk : forall k x, fo_recs h !! k = Some x -> alter f i (fo_recs h) !! k = Some (if decide (k = i) then f x else x)).
  { intros k x Hk. destruct (decide (k = i)) as [->|Hne]; [by rewrite lookup_alter_eq, Hk|by rewrite lookup_alter_ne]. }
  assert (Hback : forall k x, alter f i (fo_recs h) !! k = Some x -> exists x0, fo_recs h !! k = Some x0 /\ x = if decide (k = i) then f x0 else x0).
  { intros k x. destruct (decide (k = i)) as [->|Hne]; [rewrite lookup_alter_eq|rewrite lookup_alter_ne by done; eauto].
    destruct (fo_recs h !! i) as [x0|]; [|done]. intros [= <-]. eauto. }
  assert (Hg : forall k r, let r' := if decide (k = i) then f r else r in mv_uid r' = mv_uid r /\ mv_sandbox r' = mv_sandbox r /\ mv_state r' = mv_state r
     /\ mv_booted r' = mv_booted r /\ mv_vsock r' = mv_vsock r /\ mv_createdAt r' = mv_createdAt r) by (intros k r; simpl; destruct (decide (k = i)); [apply Hf|done]).
  split; unfold upd_rec; rec_simpl; try done.
  - destruct Hroot as [(? & ? & H0)|?]; [left; by rewrite H0, alter_empty|by right].
  - intros k x (x0 & Hk & ->)%Hback. destruct (Hrec k x0 Hk) as [? [Q1 Q2 Q3 Q4]]. destruct (Hg k x0) as (G1 & G2 & G3 & G4 & G5 & G6).
    split; [done|]. split; [by rewrite G1|by rewrite G1, G2|by rewrite G3, G4|by rewrite G3, G2, G5].
  - intros u k Hk. destruct (Hvms u k Hk) as (x & Hx & ?). destruct (Hg k x) as (G1 & G2 & G3 & G4 & G5 & G6). eexists. split; [by apply Hlk|]. by rewrite G1, G2, G3.
  - intros k t Hk. destruct (Hboots k t Hk) as (x & Hx & ?). destruct (Hg k x) as (G1 & G2 & G3 & G4 & G5 & G6). eexists. split; [by apply Hlk|]. by rewrite G4, G6.
  - intros u k x Hk (x0 & Hx & ->)%Hback. destruct (Hg k x0) as (_ & _ & -> & _). by eapply Hpend.
  - intros j k E Hj. destruct (Hdel j k E Hj) as (? & x & Hx & ?). destruct (Hg k x) as (G1 & G2 & G3 & _). split; [done|]. eexists. split; [by apply Hlk|]. by rewrite G1, G2, G3.
  - intros j j' k k' E E' x x' Hj Hj' (x0 & Hx & ->)%Hback (x0' & Hx' & ->)%Hback Hu. destruct (Hg k x0) as (G1 & _), (Hg k' x0') as (G1' & _).
    rewrite G1, G1' in Hu. by eapply Honce.
  - intros d Hd. destruct (Hdirs d Hd) as [->|[(u & k & x & Hk & Hx & Hs)|(j & k & E & x & Hj & Hx & Hs)]]; [by left| |]; destruct (Hg k x) as (_ & G2 & _).
    + right. left. eexists u, k, _. split_and!; [done|by apply Hlk|]. by rewrite G2.
    + right. right. eexists j, k, E, _. split_and!; [done|by apply Hlk|]. by rewrite G2.
  - intros k e He. destruct (HX k e He) as (x & Hx & Hok). eexists. split; [by apply Hlk|]. exact Hok.
Qed.

Lemma HI_attach uid i r y : HI y -> fo_vms (hy_host y) !! uid = Some i -> fo_recs (hy_host y) !! i = Some r -> mv_state r = VmCreated ->
  HI (y <| hy_host := upd_rec i (fun r => r <| mv_nextID := mv_nextID r + 1 |> <| mv_execs := {[mv_nextID r]} ∪ mv_execs r |>) (hy_host y) |>
        <| hy_execs := {[(i, mv_nextID r)]} ∪ hy_execs y |>).
Proof.
  intros HH Hu Hi Hst. apply HI_execs; [done|done|]. destruct (hx_vms _ _ HH uid i Hu) as (r0 & Hr0 & Huid & _). rewrite Hi in Hr0. injection Hr0 as <-.
  intros k e [[= -> ->]%elem_of_singleton|He]%elem_of_union.
  - exists r. split; [done|]. rewrite decide_True by done. split; [simpl; set_solver|]. left. simpl. by rewrite Huid.
  - destruct (hx_execs _ _ HH k e He) as (x & Hx & Hm & Ho). exists x. split; [done|]. destruct (decide (k = i)); split; simpl; try done. set_solver.
Qed.

Lemma HI_detach x y : HI y -> HI (y <| hy_host := detach x (hy_host y) |> <| hy_execs := hy_execs y ∖ {[x]} |>).
Proof.
  intros HH. unfold detach. apply HI_execs; [done|done|]. intros k e [He Hne]%elem_of_difference.
  destruct (hx_execs _ _ HH k e He) as (r & Hr & Hm & Ho). exists r. split; [done|]. destruct (decide (k = x.1)) as [->|]; split; try done.
  simpl. apply elem_of_difference. split; [done|]. intros ->%elem_of_singleton. apply Hne. destruct x. set_solver.
Qed.

(** Fields the invariant does not read. *)
Lemma HI_ext y y' : HI y -> fo_root (hy_host y') = fo_root (hy_host y) -> fo_temp (hy_host y') = fo_temp (hy_host y) -> fo_next (hy_host y') = fo_next (hy_host y) ->
  fo_recs (hy_host y') = fo_recs (hy_host y) -> fo_vms (hy_host y') = fo_vms (hy_host y) -> fo_dirs (hy_host y') = fo_dirs (hy_host y) ->
  fo_boots (hy_host y') = fo_boots (hy_host y) -> fo_cfg (hy_host y') = fo_cfg (hy_host y) -> fo_panic (hy_host y') = fo_panic (hy_host y) ->
  fo_cancelled (hy_host y') = fo_cancelled (hy_host y) -> (fo_closed (hy_host y) = true -> fo_closed (hy_host y') = true) ->
  hy_deletes y' = hy_deletes y -> hy_execs y' = hy_execs y -> hy_nextd y' = hy_nextd y -> HI y'.
Proof.
  intros HH E1 E2 E3 E4 E5 E6 E7 E8 E9 E10 E11 E12 E13 E14. destruct HH as [Hroot Htemp Hnext Hrec Hvms Hboots Hpend Hpan Hdel Honce Hdirs Hex].
  split; unfold exec_ok in *; rewrite ?E1, ?E2, ?E3, ?E4, ?E5, ?E6, ?E7, ?E8, ?E9, ?E10, ?E12, ?E13, ?E14; try done.
  intros uid i r H1 H2 H3 H4. destruct (Hpend uid i r H1 H2 H3 H4); auto.
Qed.

Lemma HI_close_end y : HI y -> HI (y <| hy_host := Host_Close_end (fo_temp (hy_host y)) (hy_host y) |>).
Proof.
  intros HH. unfold Host_Close_end. destruct (String.eqb _ _ || existsb _ _) eqn:Eb; [by destruct y|].
  apply orb_false_iff in Eb as [Et Eb]. apply String.eqb_neq in Et.
  destruct (hx_temp _ _ HH) as [?|Htr]; [done|]. rewrite Htr in *.
  assert (Hno : forall i r, fo_recs (hy_host y) !! i = Some r -> mv_sandbox r ∉ fo_dirs (hy_host y)).
  { intros i r Hi Hd. apply not_true_iff_false in Eb. apply Eb, existsb_exists. exists (mv_sandbox r). split; [by apply list_elem_of_In, elem_of_elements|].
    destruct (hx_rec _ _ HH i r Hi) as [_ [_ -> _ _]]. rewrite <-string_app_assoc. apply HasPrefix_app. }
  destruct y as [h now dels execs nextd]. cbn [hy_host hy_deletes hy_nextd hy_execs hy_now] in *.
  destruct HH as [Hroot Htemp Hnext Hrec Hvms Hboots Hpend Hpan Hdel Honce Hdirs Hex]. simpl in *. split; rec_simpl; try done.
  - destruct Hroot as [(? & -> & ?)|?]; [left; set_solver|by right].
  - intros uid i Hi. destruct (Hvms uid i Hi) as (r & Hr & _ & _ & Hd). by destruct (Hno i r Hr).
  - intros j i E Hj. destruct (Hdel j i E Hj) as (_ & r & Hr & _ & Hd & _). by destruct (Hno i r Hr).
  - intros d [Hd _]%elem_of_difference. by apply Hdirs.
Qed.

Definition hinput_ok (i : hinput) : Prop := match i with HCreate ce spec => create_ok ce spec | _ => True end.

Lemma HI_step i y y' : hinput_ok i -> hstep i y = Some y' -> HI y -> HI y'.
Proof.
  intros Hi Hs HH. destruct i; cbn [hstep] in Hs.
  - injection Hs as <-. by apply HI_create.
  - unfold deleteMicroVM_begin in Hs. destruct (String.eqb uid ""); [injection Hs as <-; by destruct y|].
    destruct (fo_closed (hy_host y)); [injection Hs as <-; by destruct y|]. destruct (rec_of uid (hy_host y)) as [[i r]|] eqn:E; [|injection Hs as <-; by destruct y].
    apply rec_of_Some in E as [Hu Hr]. injection Hs as <-. pose proof (HI_delete uid i r y HH Hu Hr) as HD. destruct y. exact HD.
  - destruct (hy_deletes y !! j) as [[i E]|] eqn:Ej; [|done]. injection Hs as <-. pose proof (HI_delete_end j i E y HH Ej) as HD. destruct y. exact HD.
  - unfold attachExec in Hs. destruct (fo_closed (hy_host y)); [injection Hs as <-; by destruct y|].
    destruct (rec_of uid (hy_host y)) as [[i r]|] eqn:E; [|injection Hs as <-; by destruct y]. apply rec_of_Some in E as [Hu Hr].
    destruct (bool_decide_reflect (mv_state r = VmCreated)) as [Hc|Hc]; injection Hs as <-; [|by destruct y].
    pose proof (HI_attach uid i r y HH Hu Hr Hc) as HD. destruct y. exact HD.
  - destruct (decide (x ∈ hy_execs y)); [|done]. injection Hs as <-. pose proof (HI_detach x y HH) as HD. destruct y. exact HD.
  - destruct (fo_boots (hy_host y) !! i) as [t|]; [|done]. destruct (t <=? hy_now y); [|done]. injection Hs as <-. by apply HI_boot.
  - destruct (fo_boots (hy_host y) !! i) as [t|]; [|done]. destruct (fo_closed (hy_host y)) eqn:Ec; [|done]. injection Hs as <-. apply HI_unboot; auto.
  - injection Hs as <-. by apply (HI_ext y).
  - injection Hs as <-. unfold host_listen. destruct (fo_closed (hy_host y)) eqn:Ec; [by destruct y|]. destruct (fo_served (hy_host y)); [by destruct y|].
    destruct bound; [|by destruct y]. by apply (HI_ext y).
  - injection Hs as <-. by apply (HI_ext y).
  - destruct (fo_closed (hy_host y) && _); [|done]. injection Hs as <-. by apply HI_close_end.
  - destruct (hy_now y <=? now); [|done]. injection Hs as <-. by apply (HI_ext y).
Qed.

Definition HSys0 (cfg : FakeHostConfig) (now : time) : HSys :=
  {| hy_host := Host_New cfg now ∅; hy_now := now; hy_deletes := ∅; hy_execs := ∅; hy_nextd := 0 |}.
Inductive hreachable (cfg : FakeHostConfig) (now : time) : HSys -> Prop :=
  | hreach_init : hreachable cfg now (HSys0 cfg now)
  | hreach_step i y y' : hreachable cfg now y -> hinput_ok i -> hstep i y = Some y' -> hreachable cfg now y'.

Lemma HI_reachable cfg now y : (fh_SandboxRoot cfg = "" \/ directory (fh_SandboxRoot cfg)) -> hreachable cfg now y -> HI y.
Proof.
  intros HR Hy. induction Hy as [|i y y' Hy IH Hi Hs]; [|by eapply HI_step]. split; simpl; try done; try (by intros * [=]).
  - destruct HR as [->|HR]; [by left|by right].
  - by left.
Qed.

(** What a user of the fake Host can rely on, however creates, boots,
    deletes, execs, faults and Close interleave.  A MicroVM that GetMicroVM
    answers has its own sandbox below the root, is CREATED exactly when its
    vsock path is set, and while it is PENDING in an open Host its boot timer
    is running, at the boot delay after its creation; no directory is left
    below the root but the sandboxes of MicroVMs that exist or are being
    deleted; and an exec in flight runs in a MicroVM that exists and is
    CREATED, unless a delete has cancelled it or is about to.  No channel is
    closed twice. *)
Theorem fake_host_sound cfg now y :
  (fh_SandboxRoot cfg = "" \/ directory (fh_SandboxRoot cfg)) -> hreachable cfg now y ->
  let h := hy_host y in
  fo_panic h = false
  /\ (forall uid r, getMicroVM uid h = ROk r ->
        mv_uid r = uid /\ mv_sandbox r = fo_root h +:+ "/" +:+ uid /\ mv_sandbox r ∈ fo_dirs h /\ mv_state r <> VmDeleting
        /\ (mv_state r = VmCreated <-> mv_vsock r <> "")
        /\ (mv_state r = VmPending -> exists i, fo_boots h !! i = Some (time_Add (mv_createdAt r) (fh_BootDelay (fo_cfg h))) /\ fo_vms h !! uid = Some i))
  /\ (forall d, d ∈ fo_dirs h -> d = fo_root h
        \/ (exists uid, SandboxPath uid h = Some d)
        \/ exists j i E r, hy_deletes y !! j = Some (i, E) /\ fo_recs h !! i = Some r /\ mv_state r = VmDeleting /\ mv_sandbox r = d)
  /\ (forall i k, (i, k) ∈ hy_execs y ->
        (exists uid r, rec_of uid h = Some (i, r) /\ mv_state r = VmCreated /\ k ∈ mv_execs r)
        \/ (exists j E, hy_deletes y !! j = Some (i, E) /\ k ∈ E) \/ (i, k) ∈ fo_cancelled h).
Proof.
  intros HR Hy%HI_reachable; [|done]. cbv zeta. pose proof Hy as [Hroot Htemp Hnext Hrec Hvms Hboots Hpend Hpan Hdel Honce Hdirs Hex].
  split; [done|]. split; [|split].
  - intros uid r. unfold getMicroVM. destruct (String.eqb uid ""); [done|]. destruct (fo_closed (hy_host y)) eqn:Ec; [done|].
    destruct (rec_of uid (hy_host y)) as [[i x]|] eqn:E; [|done]. intros [= <-]. apply rec_of_Some in E as [Hu Hx].
    destruct (Hvms uid i Hu) as (x' & Hx' & Huid & Hst & Hsd). rewrite Hx in Hx'. injection Hx' as <-. destruct (Hrec i x Hx) as [_ [Q1 Q2 Q3 Q4]].
    split; [done|]. split; [by rewrite Q2, Huid|]. split; [done|]. split; [done|]. split.
    + destruct (mv_state x); try done; rewrite Q4; split; try done. intros _. rewrite Q2. destruct (fo_root (hy_host y)); done.
    + intros Hp. destruct (Hpend uid i x Hu Hx Hp) as [[t Ht]|?]; [done| |congruence]. destruct (Hboots i t Ht) as (x' & Hx' & _ & ->).
      rewrite Hx in Hx'. injection Hx' as <-. by exists i.
  - intros d Hd. destruct (Hdirs d Hd) as [->|[(u & i & r & Hu & Hi & <-)|(j & i & E & r & Hj & Hi & <-)]]; [by left| |].
    + right. left. exists u. unfold SandboxPath, rec_of. rewrite Hu. simpl. by rewrite Hi.
    + right. right. destruct (Hdel j i E Hj) as (_ & r' & Hr' & Hs & _). rewrite Hi in Hr'. injection Hr' as <-. by exists j, i, E, r.
  - intros i k Hk. destruct (Hex i k Hk) as (r & Hr & Hm & Ho). destruct Ho as [[Hv Hc]|Ho]; [left|by right].
    exists (mv_uid r), r. unfold rec_of. rewrite Hv. simpl. rewrite Hr. by split_and!.
Qed.

Definition demo_host_cfg : FakeHostConfig :=
  {| fh_Name := "h1"; fh_Listen := ""; fh_SandboxRoot := "/sb"; fh_BootDelay := 10; fh_Version := "v1"; fh_ExecEnabled := true;
     fh_SSHProxyEnabled := false; fh_ServerInfoUnimplemented := false; fh_Token := "" |}.
Definition demo_create (uid : string) : hinput :=
  HCreate {| ce_now := 0; ce_uid := Ok "x"; ce_temp := Err (ENew ""); ce_all := None; ce_mkdir := None |}
    (Some {| ms_Uid := uid; ms_Id := ""; ms_Namespace := "" |}).
Fixpoint hsteps (l : list hinput) (y : HSys) : option HSys :=
  match l with [] => Some y | i :: l => match hstep i y with Some y => hsteps l y | None => None end end.
Lemma hsteps_reachable cfg now l : forall y y', Forall hinput_ok l -> hreachable cfg now y -> hsteps l y = Some y' -> hreachable cfg now y'.
Proof.
  induction l as [|i l IH]; intros y y' HF HR Hs; cbn [hsteps] in Hs; [by injection Hs as <-|]. apply Forall_cons in HF as [Hi HF].
  destruct (hstep i y) as [y1|] eqn:E; [|done]. eapply (IH y1); [done| |done]. by eapply hreach_step.
Qed.
Lemma directory_sb : directory "/sb".
Proof. exists ["sb"]. split; [done|]. split; [done|]. apply Forall_singleton. by repeat split. Qed.
Definition demo_host_trace : list hinput := [demo_create "vm1"; HTick 10; HBoot 0; HAttach "vm1"; HDelete "vm1"; demo_create "vm2"].
Definition demo_host_sys : HSys := default (HSys0 demo_host_cfg 0) (hsteps demo_host_trace (HSys0 demo_host_cfg 0)).
Lemma demo_host_reachable : hreachable demo_host_cfg 0 demo_host_sys.
Proof.
  eapply (hsteps_reachable _ _ demo_host_trace); [|constructor|vm_compute; reflexivity].
  repeat (apply Forall_cons; split); [..|constructor]; try done; (split; [by intros dir [=]|by repeat split]).
Qed.
Lemma fake_host_sound_witness :
  fo_panic (hy_host demo_host_sys) = false
  /\ (0, 0) ∈ hy_execs demo_host_sys
  /\ match getMicroVM "vm2" (hy_host demo_host_sys) with ROk r => mv_sandbox r | RErr _ => "" end = "/sb/vm2".
Proof.
  destruct (fake_host_sound demo_host_cfg 0 demo_host_sys (or_intror directory_sb) demo_host_reachable) as (H1 & _).
  split; [exact H1|]. split; [|vm_compute; reflexivity]. apply (bool_decide_unpack _). vm_compute. exact I.
Defined.

(** A uid that is no plain name puts the sandbox outside the root, where
    Sandboxes does not see it. *)
Theorem uid_escapes_root : exists y uid d, hsteps [demo_create uid] (HSys0 demo_host_cfg 0) = Some y
  /\ SandboxPath uid (hy_host y) = Some d /\ d ∈ fo_dirs (hy_host y) /\ inside "/sb" d = false /\ Sandboxes (hy_host y) = [].
Proof.
  eexists _, "../etc", "/etc". split; [vm_compute; reflexivity|]. split; [vm_compute; reflexivity|].
  split; [apply (bool_decide_unpack _); vm_compute; exact I|]. split; vm_compute; reflexivity.
Qed.
