(* ===== verification/FakeExec.v ===== *)
(** * internal/flintlock/fake/exec.go: commands in the fake Host

    The handler of ExecCommand and the in-memory stream of client.go.  The
    process itself is a parameter: what it writes and how it ends, given the
    command and its standard input.  The handler is a function of the messages
    the client has sent; what happens meanwhile, a timeout, a delete, the end
    of the client or of the Host, a Send that fails, is an argument. *)
From Stdlib Require Import Ascii.
From S2P Require Import Prelude GoModel ConfigTypes Spec PoolClient PoolDecl Registry GoStrings FilePath Executor HostEnv Transport HostClient FakeHost.

Definition exitNotFound : Z := 127.
Definition exitStartError : Z := 1.

(** ** The command *)
Definition sandboxDir (sandbox cwd : string) : result string :=
  if String.eqb cwd "" then Ok sandbox else
  let cwd := if IsAbs cwd then Clean cwd else cwd in
  let dir := Join sandbox cwd in
  if negb (String.eqb dir sandbox) && negb (HasPrefix dir (sandbox +:+ "/")) then Err (ENew ("cwd " +:+ cwd +:+ " escapes the microvm sandbox"))
  else Ok dir.

Definition env_key (kv : string) : string := match Cut kv "="%char with Some (k, _) => k | None => kv end.
Definition mergeEnv (base : list string) (extra : gmap string string) : list string :=
  if bool_decide (extra = ∅) then base
  else filter (fun kv => extra !! env_key kv = None) base
       ++ ((fun k => k +:+ "=" +:+ default "" (extra !! k)) <$> sort_strings (map_to_list extra).*1).

Fixpoint join_space (l : list string) : string :=
  match l with [] => "" | [s] => s | s :: l => s +:+ " " +:+ join_space l end.
Record execCmd := { xc_Path : string; xc_Args : list string; xc_Dir : string; xc_Env : list string }.

(** [stat] is os.Stat: whether the path is a directory.  The user of the
    request is ignored. *)
Definition buildCommand (stat : string -> result bool) (environ : list string) (sandbox : string) (start : ExecStart) : result execCmd :=
  match sandboxDir sandbox (es_Cwd start) with
  | Err e => Err e
  | Ok dir =>
      match stat dir with
      | Err e => Err (EWrap ("cwd " +:+ es_Cwd start) [e])
      | Ok false => Err (ENew ("cwd " +:+ es_Cwd start +:+ " is not a directory"))
      | Ok true =>
          let env := mergeEnv environ (es_Env start) in
          Ok (if es_Shell start
              then {| xc_Path := "sh"; xc_Args := ["-c"; join_space (es_Cmd start :: es_Args start)]; xc_Dir := dir; xc_Env := env |}
              else {| xc_Path := es_Cmd start; xc_Args := es_Args start; xc_Dir := dir; xc_Env := env |})
      end
  end.

(** ** Standard input

    [wr i] is whether the [i]th write to the process fails; [ended] that the
    client's stream is over after these messages.  The bytes written and
    whether the pipe was closed. *)
Fixpoint pumpStdin (piped : bool) (wr : nat -> bool) (ended : bool) (i : nat) (reqs : list request) : string * bool :=
  match reqs with
  | [] => ("", ended)
  | ReqStdin b :: reqs =>
      if negb piped then pumpStdin piped wr ended i reqs
      else if wr i then ("", true)
      else let '(s, closed) := pumpStdin piped wr ended (S i) reqs in (b +:+ s, closed)
  | ReqStdinEof :: reqs => if piped then ("", true) else pumpStdin piped wr ended i reqs
  | ReqStart _ :: reqs => pumpStdin piped wr ended i reqs
  end.

(** ** Responses

    [fails i] is what ends the [i]th Send, or the wait for the Host to answer
    again before it; the first failure stays. *)
Record sending := { sn_sent : list response; sn_err : option rpc_error }.
Definition send (fails : nat -> option rpc_error) (resp : response) (s : sending) : sending :=
  match sn_err s with
  | Some _ => s
  | None => match fails (length (sn_sent s)) with
            | Some e => {| sn_sent := sn_sent s; sn_err := Some e |}
            | None => {| sn_sent := sn_sent s ++ [resp]; sn_err := None |}
            end
  end.
(** One write of the process. *)
Definition chunkWriter_Write (fails : nat -> option rpc_error) (s : sending) (c : chunk) : sending :=
  match c with
  | OutChunk b => if String.eqb b "" then s else send fails (RespStdout b) s
  | ErrChunk b => if String.eqb b "" then s else send fails (RespStderr b) s
  end.
(** The end of the stream: what the handler returns. *)
Definition exit_ (drop : bool) (fails : nat -> option rpc_error) (code : Z) (s : sending) : sending * option rpc_error :=
  if drop then (s, Some (RStatus Unavailable "fake host: exec stream dropped before exit code"))
  else let s := send fails (RespExitCode (int32 code)) s in (s, sn_err s).
Definition finish_ (drop : bool) (fails : nat -> option rpc_error) (msg : string) (code : Z) (s : sending) : sending * option rpc_error :=
  let s := send fails (RespError msg) s in
  match sn_err s with Some e => (s, Some e) | None => exit_ drop fails code s end.

(** ** Running *)
(** How a process that started ends: its writes, its exit code (-1 when it
    was killed) and an error of the wait that is no exit status. *)
Record outcome := { oc_chunks : list chunk; oc_code : Z; oc_waitErr : option string }.
Record exec_env := {
  xv_stat : string -> result bool; xv_environ : list string; xv_pipeErr : option string;
  xv_startErr : option (bool * string);              (* not found, and the text *)
  xv_proc : execCmd -> option string -> outcome;     (* None: no standard input *)
  xv_write : nat -> bool; xv_ended : bool; xv_fails : nat -> option rpc_error;
  xv_clientGone : option error; xv_hostGone : bool; xv_timedOut : bool; xv_deleted : bool; xv_drop : bool }.

Definition exec_do (v : exec_env) (sandbox : string) (start : ExecStart) (reqs : list request) : list response * option rpc_error :=
  let finish := finish_ (xv_drop v) (xv_fails v) in
  let s0 := {| sn_sent := []; sn_err := None |} in
  let out '(s, e) := (sn_sent s, e) in
  match buildCommand (xv_stat v) (xv_environ v) sandbox start with
  | Err _ => out (finish "cwd" exitStartError s0)
  | Ok cmd =>
      match (if es_HasStdin start then xv_pipeErr v else None) with
      | Some msg => out (finish msg exitStartError s0)
      | None =>
          match xv_startErr v with
          | Some (notFound, msg) => out (finish msg (if notFound then exitNotFound else exitStartError) s0)
          | None =>
              let stdin := if es_HasStdin start then Some (pumpStdin true (xv_write v) (xv_ended v) 0 reqs).1 else None in
              let o := xv_proc v cmd stdin in
              let s := foldl (chunkWriter_Write (xv_fails v)) s0 (oc_chunks o) in
              let waitErr := if oc_code o =? 0 then (match oc_waitErr o, sn_err s with Some m, _ => Some m | None, Some _ => Some "copying output" | None, None => None end) else None in
              match xv_clientGone v with
              | Some e => (sn_sent s, Some (FromContextError e))
              | None =>
                  if xv_hostGone v then (sn_sent s, Some (RStatus Unavailable "fake host shutting down"))
                  else if xv_timedOut v then out (finish "command timed out" (oc_code o) s)
                  else if xv_deleted v then out (finish "microvm deleted while command was running" (oc_code o) s)
                  else match waitErr with
                       | Some msg => out (finish msg (oc_code o) s)
                       | None => out (exit_ (xv_drop v) (xv_fails v) (oc_code o) s)
                       end
              end
          end
      end
  end.

(** ** ExecCommand *)
Inductive first_message := FirstRequest (r : request) | FirstError (e : rpc_error) | FirstGone (e : error).
Definition execCommand (v : exec_env) (first : first_message) (reqs : list request) (h : Host) : Host * (list response * option rpc_error) :=
  match first with
  | FirstError e => (h, ([], Some e))
  | FirstGone e => (h, ([], Some (FromContextError e)))
  | FirstRequest r =>
      match r with
      | ReqStart start =>
          if String.eqb (es_Uid start) "" || (String.eqb (es_Cmd start) "" && negb (es_Shell start))
          then (h, ([], Some (RStatus InvalidArgument "first message must be a start message with uid and cmd set")))
          else match attachExec (es_Uid start) h with
               | (h, RErr e) => (h, ([], Some e))
               | (h, ROk (sandbox, x)) => (detach x h, exec_do v sandbox start reqs)
               end
      | _ => (h, ([], Some (RStatus InvalidArgument "first message must be a start message with uid and cmd set")))
      end
  end.

(** What [finish] of the in-memory stream keeps of the handler's error, and
    how the exchange ends for the client. *)
Definition mem_finish (host : string) (err : option rpc_error) : option error :=
  match err with
  | None => None
  | Some e => let e := statusToSentinel host e in Some (if errors_Is e IoEOF then ENew "EOF" else e)
  end.
Definition client_end (err : option error) : stream_end := match err with None => EndEOF | Some e => EndErr e end.

(** ** The working directory stays in the sandbox *)
Lemma under_tail root es : exists t, under root es = root +:+ t.
Proof.
  unfold under. revert root. induction es as [|e es IH]; intros root; [exists ""; by rewrite string_app_nil|]. cbn [foldl].
  destruct (IH (root +:+ "/" +:+ e)) as [t ->]. exists ("/" +:+ e +:+ t). by rewrite !string_app_assoc.
Qed.
Lemma under_prefix root e es : HasPrefix (under root (e :: es)) (root +:+ "/") = true.
Proof.
  change (under root (e :: es)) with (under (root +:+ "/" +:+ e) es). destruct (under_tail (root +:+ "/" +:+ e) es) as [t ->].
  rewrite <-(string_app_assoc root "/" e), !(string_app_assoc (root +:+ "/")). apply HasPrefix_app.
Qed.

Lemma Join_clean_abs cs ks : cs <> [] -> Forall proper cs -> Forall proper ks -> Join (render true cs) (render true ks) = under (render true cs) ks.
Proof.
  intros Hne HC HK. rewrite Join_directory by done. destruct ks as [|k ks].
  - change (split_slash (render true [])) with [""; ""]. cbn [foldl]. change (clean_step true (clean_step true (reverse cs) "") "") with (reverse cs).
    by rewrite reverse_involutive.
  - rewrite split_render by (done || by apply proper_no_slash). cbn [foldl]. change (clean_step true (reverse cs) "") with (reverse cs).
    change (foldl (clean_step true) (clean_step true (reverse cs) k) ks) with (foldl (clean_step true) (reverse cs) (k :: ks)).
    rewrite clean_proper by done. by rewrite reverse_app, !reverse_involutive, render_app.
Qed.

(** A command never starts outside its sandbox.  Whatever working
    directory a request names, the command is refused or runs in the sandbox
    directory or in one reached from it through plain names, with no dot,
    double dot or empty element on the way; and a request with an absolute
    directory, which counts from the sandbox, is never refused for it. *)
Theorem sandboxDir_contained sandbox cwd :
  directory sandbox ->
  match sandboxDir sandbox cwd with
  | Ok dir => exists es, Forall proper es /\ dir = under sandbox es
  | Err _ => IsAbs cwd = false
  end.
Proof.
  intros (cs & -> & Hne & HC). unfold sandboxDir. destruct (String.eqb cwd ""); [by exists []|].
  destruct (IsAbs cwd) eqn:EA.
  - destruct (Clean_abs cwd EA) as (ks & -> & HK). rewrite (Join_clean_abs cs ks Hne HC HK).
    destruct ks as [|k ks]; [|rewrite under_prefix, andb_false_r; by exists (k :: ks)].
    change (under (render true cs) []) with (render true cs). rewrite String.eqb_refl. simpl. by exists [].
  - rewrite (Join_directory cs cwd Hne HC). set (st := foldl _ _ _).
    assert (HP : Forall proper (reverse st)).
    { apply Forall_reverse. unfold st. apply clean_rooted; [by apply Forall_reverse|apply split_slash_no_slash]. }
    destruct (String.eqb_spec (render true (reverse st)) (render true cs)) as [E|E]; cbn [negb andb]; [rewrite E; by exists []|].
    destruct (HasPrefix _ _) eqn:EP; cbn [negb]; [|done]. apply HasPrefix_true in EP as [r Hr].
    assert (Hds : reverse st <> []).
    { intros H0. rewrite H0 in Hr. apply (f_equal String.length) in Hr. rewrite !string_length_app in Hr. simpl in Hr.
      destruct cs as [|c cs]; [done|]. apply Forall_cons in HC as [[Hc _] _]. destruct c as [|a c]; [done|]. destruct cs; simpl in Hr; lia. }
    assert (HS : "" :: reverse st = ("" :: cs) ++ split_slash r).
    { rewrite <-(split_render (reverse st)), <-(split_render cs) by (done || by apply proper_no_slash).
      rewrite Hr, string_app_assoc, split_slash_app. done. }
    injection HS as HS. exists (split_slash r). rewrite HS in *. apply Forall_app in HP as [_ HP]. split; [done|]. by rewrite render_app.
Qed.
Lemma sandboxDir_contained_witness : exists es, Forall proper es /\ "/sb/vm1/src" = under "/sb/vm1" es.
Proof.
  apply (sandboxDir_contained "/sb/vm1" "/../src/.").
  exists ["sb"; "vm1"]. split; [done|]. split; [done|]. repeat (apply Forall_cons; split); [by repeat split..|constructor].
Defined.

(** ** The environment *)
(** What a process sees of a variable: the last entry wins. *)
Definition env_entry (k kv : string) : option string :=
  match Cut kv "="%char with Some (k', v) => if String.eqb k' k then Some v else None | None => None end.
Definition getenv (env : list string) (k : string) : option string := last (omap (env_entry k) env).

Lemma Cut_key k v : has_byte "="%char k = false -> Cut (k +:+ "=" +:+ v) "="%char = Some (k, v).
Proof.
  induction k as [|c k IH]; intros H; [done|]. cbn [has_byte] in H. apply orb_false_iff in H as [Hc H]. specialize (IH H).
  change (Cut (String c (k +:+ "=" +:+ v)) "="%char = Some (String c k, v)). cbn [Cut]. rewrite Ascii.eqb_sym, Hc.
  rewrite IH. done.
Qed.

Lemma filter_key (extra : gmap string string) k (base : list string) : extra !! k = None -> omap (env_entry k) (filter (fun kv => extra !! env_key kv = None) base) = omap (env_entry k) base.
Proof.
  intros Hk. induction base as [|kv base IH]; [done|]. rewrite filter_cons. cbn [omap list_omap]. destruct (decide (extra !! env_key kv = None)) as [E|E].
  - cbn. by rewrite IH.
  - rewrite IH. unfold env_entry, env_key in *. destruct (Cut kv "="%char) as [[k' v]|]; [|done].
    destruct (String.eqb_spec k' k) as [->|]; [done|done].
Qed.
Lemma filter_key_None (extra : gmap string string) k v (base : list string) : extra !! k = Some v -> omap (env_entry k) (filter (fun kv => extra !! env_key kv = None) base) = [].
Proof.
  intros Hk. induction base as [|kv base IH]; [done|]. rewrite filter_cons. destruct (decide (extra !! env_key kv = None)) as [E|E]; [|done].
  cbn. rewrite IH. unfold env_entry, env_key in *. destruct (Cut kv "="%char) as [[k' v']|]; [|done].
  destruct (String.eqb_spec k' k) as [->|]; [congruence|done].
Qed.

(** The environment of a command: a variable the request names has the
    value it gives, every other one the value it has in the fake's own
    environment. *)
Theorem mergeEnv_overrides base (extra : gmap string string) k :
  (forall k v, extra !! k = Some v -> has_byte "="%char k = false) ->
  getenv (mergeEnv base extra) k = match extra !! k with Some v => Some v | None => getenv base k end.
Proof.
  intros HK. unfold mergeEnv. destruct (bool_decide_reflect (extra = ∅)) as [->|Hne]; [by rewrite lookup_empty|].
  unfold getenv. rewrite omap_app.
  assert (HL : forall ks, (forall k, k ∈ ks -> is_Some (extra !! k)) -> NoDup ks ->
      omap (env_entry k) ((fun k => k +:+ "=" +:+ default "" (extra !! k)) <$> ks) = if decide (k ∈ ks) then [default "" (extra !! k)] else []).
  { induction ks as [|k0 ks IH]; intros HS HN; [by rewrite decide_False by apply not_elem_of_nil|]. apply NoDup_cons in HN as [Hn HN].
    destruct (HS k0 ltac:(left)) as [v0 Hv0]. rewrite fmap_cons. cbn [omap list_omap]. unfold env_entry at 1. rewrite Cut_key by by eapply HK.
    rewrite IH; [|intros; apply HS; by right|done]. destruct (String.eqb_spec k0 k) as [->|Hk].
    - rewrite decide_False, decide_True by (done || left). done.
    - destruct (decide (k ∈ ks)), (decide (k ∈ k0 :: ks)); set_solver. }
  assert (HE : forall x, x ∈ sort_strings (map_to_list extra).*1 <-> is_Some (extra !! x)).
  { intros x. rewrite elem_of_sort_strings, list_elem_of_fmap. split.
    - intros ([a b] & -> & Hab). apply elem_of_map_to_list in Hab. by exists b.
    - intros [b Hb]. exists (x, b). by rewrite elem_of_map_to_list. }
  rewrite (HL (sort_strings (map_to_list extra).*1)); [|intros; by apply HE|rewrite sort_strings_perm; apply NoDup_fst_map_to_list].
  destruct (extra !! k) as [v|] eqn:Ek.
  - rewrite (filter_key_None extra k v) by done. rewrite decide_True by (apply HE; by rewrite Ek). done.
  - rewrite filter_key by done. rewrite decide_False by (rewrite HE, Ek; by intros [? [=]]). by rewrite app_nil_r.
Qed.
Lemma mergeEnv_overrides_witness : getenv (mergeEnv ["HOME=/root"; "CI=no"] {["CI" := "yes"]}) "CI" = Some "yes".
Proof.
  rewrite (mergeEnv_overrides ["HOME=/root"; "CI=no"] {["CI" := "yes"]} "CI"); [by rewrite lookup_singleton_eq|].
  intros k v [<- _]%lookup_singleton_Some. vm_compute. reflexivity.
Defined.

(** ** A Stage over the fake Host *)
Definition resp_of (c : chunk) : response := match c with OutChunk b => RespStdout b | ErrChunk b => RespStderr b end.
Definition bytes_in (c : chunk) : string := match c with OutChunk b => b | ErrChunk b => b end.
Definition visible (cs : list chunk) : list chunk := filter (fun c => bytes_in c <> "") cs.

Lemma sendStdin_all snd_ reads : (forall i, snd_ i = SentOK) -> sendStdin snd_ reads None = ((ReqStdin <$> reads) ++ [ReqStdinEof], None).
Proof.
  intros HS. unfold sendStdin. pose proof (sendChunks_spec snd_ reads 0) as HC. destruct (sendChunks snd_ reads 0) as [reqs r].
  destruct HC as (k & _ & H2 & H3). specialize (H3 HS). subst r. by rewrite (H2 eq_refl), HS.
Qed.
Lemma pumpStdin_all wr ended l : (forall i, wr i = false) -> forall i, pumpStdin true wr ended i ((ReqStdin <$> l) ++ [ReqStdinEof]) = (join_strings l, true).
Proof.
  intros HW. induction l as [|b l IH]; intros i; [done|]. rewrite fmap_cons. cbn [app pumpStdin negb]. by rewrite HW, IH.
Qed.
Lemma chunks_sent fails cs : (forall i, fails i = None) -> forall pre,
  foldl (chunkWriter_Write fails) {| sn_sent := pre; sn_err := None |} cs = {| sn_sent := pre ++ (resp_of <$> visible cs); sn_err := None |}.
Proof.
  intros HF. unfold visible. induction cs as [|c cs IH]; intros pre; [by rewrite app_nil_r|]. cbn [foldl]. rewrite filter_cons.
  destruct (decide (bytes_in c <> "")) as [Hc|Hc].
  - assert (chunkWriter_Write fails {| sn_sent := pre; sn_err := None |} c = {| sn_sent := pre ++ [resp_of c]; sn_err := None |}) as ->.
    { destruct c as [b|b]; simpl in Hc; simpl; (destruct (String.eqb_spec b ""); [done|]); unfold send; simpl; by rewrite HF. }
    by rewrite IH, fmap_cons, <-app_assoc.
  - assert (chunkWriter_Write fails {| sn_sent := pre; sn_err := None |} c = {| sn_sent := pre; sn_err := None |}) as ->; [|by rewrite IH].
    destruct c as [b|b]; simpl in Hc; simpl; (destruct (String.eqb_spec b ""); [done|]); by destruct Hc.
Qed.
Lemma receive_chunks wr fin cs tl : (forall i, wr i = None) -> Forall (fun c => bytes_in c <> "") cs -> forall written,
  receive wr None ((resp_of <$> cs) ++ tl) fin None written = receive wr None tl fin None (written ++ cs).
Proof.
  intros HW HF. induction HF as [|c cs Hc HF IH]; intros written; [by rewrite app_nil_r|]. rewrite fmap_cons. cbn [app].
  destruct c as [b|b]; cbn [resp_of receive]; (destruct (String.eqb_spec b ""); [done|]); rewrite HW, IH; by rewrite <-app_assoc.
Qed.

(** A run that nothing interferes with. *)
Record undisturbed (v : exec_env) : Prop := {
  ud_pipe : xv_pipeErr v = None; ud_start : xv_startErr v = None; ud_write : forall i, xv_write v i = false; ud_fails : forall i, xv_fails v i = None;
  ud_client : xv_clientGone v = None; ud_host : xv_hostGone v = false; ud_time : xv_timedOut v = false; ud_vm : xv_deleted v = false }.
(** A stream that answers everything the exec transport sends. *)
Record open_stream (xe : exchange_env) : Prop := {
  os_open : xe_open xe = None; os_start : xe_start xe = SentOK; os_send : forall i, xe_send xe i = SentOK;
  os_watch : xe_watch xe = None; os_write : forall i, xe_write xe i = None }.

Definition stage_start (uid : string) (timeout : Z) (c : Command) (env : gmap string string) : ExecStart :=
  {| es_Uid := uid; es_Cmd := cm_Path c; es_Args := cm_Args c; es_Cwd := cm_Dir c; es_Env := env; es_User := cm_User c;
     es_HasStdin := true; es_Shell := false; es_TimeoutSeconds := timeout |}.
Definition stage_input (c : Command) : list request := (ReqStdin <$> strings_Reader (cm_Stdin c)) ++ [ReqStdinEof].

Lemma exec_do_runs v sandbox start c cmd : undisturbed v -> buildCommand (xv_stat v) (xv_environ v) sandbox start = Ok cmd -> es_HasStdin start = true ->
  let o := xv_proc v cmd (Some (cm_Stdin c)) in
  oc_waitErr o = None ->
  exec_do v sandbox start (stage_input c) =
    if xv_drop v then (resp_of <$> visible (oc_chunks o), Some (RStatus Unavailable "fake host: exec stream dropped before exit code"))
    else ((resp_of <$> visible (oc_chunks o)) ++ [RespExitCode (int32 (oc_code o))], None).
Proof.
  intros [U1 U2 U3 U4 U5 U6 U7 U8] HB HI o Ho. unfold exec_do. rewrite HB, HI, U1, U2, U5, U6, U7, U8. unfold stage_input.
  rewrite pumpStdin_all by done. cbn [fst]. rewrite (proj1 (strings_Reader_spec (cm_Stdin c))). fold o. rewrite chunks_sent by done. cbn [app sn_err].
  rewrite Ho. destruct (oc_code o =? 0); unfold exit_; destruct (xv_drop v); try done; unfold send; cbn [sn_err sn_sent]; by rewrite U4.
Qed.

(** A Stage over the exec transport and the fake Host.  When nothing
    interferes, the process in the MicroVM's sandbox reads exactly the Stage
    script on its standard input, everything it writes comes out in the order
    it was written, and its exit code is the status of the Stage; when the
    Host drops the stream before the exit code, the output still comes out
    and the Stage fails as a stream failure of an unavailable Host, whatever
    the exit code was. *)
Theorem fake_exec_stage v xe h host uid timeout c env i r cmd :
  cm_Path c <> "" -> uid <> "" -> fo_closed h = false -> rec_of uid h = Some (i, r) -> mv_state r = VmCreated ->
  undisturbed v -> open_stream xe -> buildCommand (xv_stat v) (xv_environ v) (mv_sandbox r) (stage_start uid timeout c env) = Ok cmd ->
  oc_waitErr (xv_proc v cmd (Some (cm_Stdin c))) = None ->
  (let '(resps, err) := (execCommand v (FirstRequest (ReqStart (stage_start uid timeout c env))) (stage_input c) h).2 in
   xe_msgs xe = resps /\ xe_end xe = client_end (mem_finish host err)) ->
  let o := xv_proc v cmd (Some (cm_Stdin c)) in
  let '(reqs, out, status, err) := exec_Run xe uid timeout c env (Some (strings_Reader (cm_Stdin c), None)) in
  reqs = ReqStart (stage_start uid timeout c env) :: stage_input c
  /\ out = visible (oc_chunks o)
  /\ if xv_drop v then status = -1 /\ exists e, err = Some e /\ errors_Is e ErrStreamFailed = true /\ errors_Is e HostErrUnavailable = true
     else status = int32 (oc_code o) /\ err = None.
Proof.
  intros Hp Hu Hc Hrec Hst HU [O1 O2 O3 O4 O5] HB Ho HX. cbv zeta.
  assert (HE : (execCommand v (FirstRequest (ReqStart (stage_start uid timeout c env))) (stage_input c) h).2
               = exec_do v (mv_sandbox r) (stage_start uid timeout c env) (stage_input c)).
  { unfold execCommand. cbn [es_Uid es_Cmd es_Shell stage_start]. destruct (String.eqb_spec uid "") as [|_]; [done|].
    destruct (String.eqb_spec (cm_Path c) "") as [|_]; [done|]. cbn [orb andb]. unfold attachExec. rewrite Hc, Hrec, bool_decide_true by done. done. }
  rewrite HE, (exec_do_runs v (mv_sandbox r) _ c cmd HU HB eq_refl Ho) in HX. clear HE.
  assert (HV : Forall (fun c => bytes_in c <> "") (visible (oc_chunks (xv_proc v cmd (Some (cm_Stdin c)))))) by (apply Forall_forall; intros x Hx; by apply list_elem_of_filter in Hx as [? _]).
  unfold exec_Run. destruct (String.eqb_spec (cm_Path c) "") as [|_]; [done|]. fold (stage_start uid timeout c env).
  unfold exchange. rewrite O1, O2, O4. cbn [es_HasStdin stage_start]. rewrite sendStdin_all by done.
  destruct (xv_drop v); destruct HX as [-> ->].
  - rewrite <-(app_nil_r (resp_of <$> _)), receive_chunks by done. cbn [receive app]. split; [done|]. split; [done|]. split; [done|]. eexists. split; [done|]. done.
  - rewrite receive_chunks by done. cbn [receive app]. done.
Qed.

Definition demo_fake_host : Host :=
  (createMicroVM {| ce_now := 0; ce_uid := Ok "x"; ce_temp := Ok "/tmp/x"; ce_all := None; ce_mkdir := None |}
     (Some {| ms_Uid := "vm1"; ms_Id := ""; ms_Namespace := "" |})
     (Host_New {| fh_Name := "h1"; fh_Listen := ""; fh_SandboxRoot := "/sb"; fh_BootDelay := 0; fh_Version := ""; fh_ExecEnabled := true;
                  fh_SSHProxyEnabled := false; fh_ServerInfoUnimplemented := false; fh_Token := "" |} 0 ∅)).1.
Definition demo_cat (drop : bool) : exec_env :=
  {| xv_stat := fun _ => Ok true; xv_environ := []; xv_pipeErr := None; xv_startErr := None;
     xv_proc := fun _ stdin => {| oc_chunks := [OutChunk (default "" stdin); ErrChunk ""]; oc_code := 3; oc_waitErr := None |};
     xv_write := fun _ => false; xv_ended := false; xv_fails := fun _ => None; xv_clientGone := None; xv_hostGone := false;
     xv_timedOut := false; xv_deleted := false; xv_drop := drop |}.
Definition demo_stage_cmd : Command := {| cm_Path := "cat"; cm_Args := []; cm_Dir := "/work"; cm_User := ""; cm_Stdin := "echo hi" |}.
Definition demo_stage_xe : exchange_env :=
  let '(resps, err) := (execCommand (demo_cat false) (FirstRequest (ReqStart (stage_start "vm1" 0 demo_stage_cmd ∅))) (stage_input demo_stage_cmd) demo_fake_host).2 in
  {| xe_open := None; xe_start := SentOK; xe_startRecv := None; xe_send := fun _ => SentOK; xe_stdinDone := true;
     xe_msgs := resps; xe_end := client_end (mem_finish "h1" err); xe_watch := None; xe_write := fun _ => None |}.
Lemma fake_exec_stage_witness :
  let '(reqs, out, status, err) := exec_Run demo_stage_xe "vm1" 0 demo_stage_cmd ∅ (Some (strings_Reader "echo hi", None)) in
  out = [OutChunk "echo hi"] /\ status = 3 /\ err = None.
Proof.
  pose proof (fake_exec_stage (demo_cat false) demo_stage_xe demo_fake_host "h1" "vm1" 0 demo_stage_cmd ∅ 0
    (match rec_of "vm1" demo_fake_host with Some (_, r) => r | None => newRecord "" {| ms_Uid := ""; ms_Id := ""; ms_Namespace := "" |} 0 "" end)
    {| xc_Path := "cat"; xc_Args := []; xc_Dir := "/sb/vm1/work"; xc_Env := [] |}) as H.
  cbn [cm_Stdin demo_stage_cmd] in H.
  destruct (exec_Run demo_stage_xe "vm1" 0 demo_stage_cmd ∅ (Some (strings_Reader "echo hi", None))) as [[[reqs out] status] err].
  destruct H as (_ & -> & H3); [done|done|vm_compute; reflexivity|vm_compute; reflexivity|vm_compute; reflexivity|by split|by split|vm_compute; reflexivity|vm_compute; reflexivity|vm_compute; split; reflexivity|].
  split; [vm_compute; reflexivity|]. destruct H3 as [-> ->]. split; [vm_compute; reflexivity|reflexivity].
Defined.

(** ** The in-memory stream

    The responses the handler has sent and how many the client has taken from
    the buffer, the handler's result once it has finished, and whether the
    stream's context has ended.  The client's Recv is at one of the points
    between which the others may act: the poll of the buffer, the poll of
    [done], the blocking select, the check of [done] after the context's
    branch was chosen, and [result]. *)
Definition memStreamBuffer : nat := 64.
Inductive recv_at := AtIdle | AtBuffer | AtDone | AtSelect | AtRecheck | AtResult.
Inductive received := Got (r : response) | Ended (err : option error) | CtxEnded.
Record memStream := {
  mm_sent : list response; mm_taken : nat; mm_result : option (option error); mm_ctx : bool; mm_at : recv_at; mm_log : list received }.
#[export] Instance eta_memStream : Eta memStream :=
  fun r => {| mm_sent := mm_sent r; mm_taken := mm_taken r; mm_result := mm_result r; mm_ctx := mm_ctx r; mm_at := mm_at r; mm_log := mm_log r |}.
Definition memStream0 : memStream := {| mm_sent := []; mm_taken := 0; mm_result := None; mm_ctx := false; mm_at := AtIdle; mm_log := [] |}.

Inductive minput :=
  | MServerSend (r : response) | MFinish (err : option error) | MCancel
  | MRecv | MPoll | MTake | MSeeDone | MSeeCtx.
Definition take_one (s : memStream) : option memStream :=
  r ← mm_sent s !! mm_taken s; Some (s <| mm_taken := S (mm_taken s) |> <| mm_at := AtIdle |> <| mm_log := mm_log s ++ [Got r] |>).
Definition is_done (s : memStream) : bool := match mm_result s with Some _ => true | None => false end.
(** [MPoll] is a select with a default branch; the other three are the
    branches of the blocking one, each enabled when it is ready. *)
Definition mstep (i : minput) (s : memStream) : option memStream :=
  match i with
  | MServerSend r => if is_done s || negb (Nat.ltb (length (mm_sent s) - mm_taken s) memStreamBuffer) then None else Some (s <| mm_sent := mm_sent s ++ [r] |>)
  | MFinish err => if is_done s then None else Some (s <| mm_result := Some err |>)
  | MCancel => Some (s <| mm_ctx := true |>)
  | MRecv => match mm_at s with AtIdle => Some (s <| mm_at := AtBuffer |>) | _ => None end
  | MPoll =>
      match mm_at s with
      | AtBuffer => match take_one s with Some s => Some s | None => Some (s <| mm_at := AtDone |>) end
      | AtDone => Some (s <| mm_at := if is_done s then AtResult else AtSelect |>)
      | AtRecheck => Some (if is_done s then s <| mm_at := AtBuffer |> else s <| mm_at := AtIdle |> <| mm_log := mm_log s ++ [CtxEnded] |>)
      | AtResult => match take_one s with
                    | Some s => Some s
                    | None => match mm_result s with
                              | Some err => Some (s <| mm_at := AtIdle |> <| mm_log := mm_log s ++ [Ended err] |>)
                              | None => None
                              end
                    end
      | _ => None
      end
  | MTake => match mm_at s with AtSelect => take_one s | _ => None end
  | MSeeDone => match mm_at s with AtSelect => if is_done s then Some (s <| mm_at := AtBuffer |>) else None | _ => None end
  | MSeeCtx => match mm_at s with AtSelect => if mm_ctx s then Some (s <| mm_at := AtRecheck |>) else None | _ => None end
  end.

Inductive mreachable : memStream -> Prop :=
  | mreach_init : mreachable memStream0
  | mreach_step i s s' : mreachable s -> mstep i s = Some s' -> mreachable s'.

Definition messages (log : list received) : list response := omap (fun x => match x with Got r => Some r | _ => None end) log.
Record MI (s : memStream) : Prop := {
  mi_log : messages (mm_log s) = take (mm_taken s) (mm_sent s);
  mi_le : (mm_taken s <= length (mm_sent s))%nat;
  mi_at : mm_at s = AtResult -> is_done s = true;
  mi_end : forall err, Ended err ∈ mm_log s -> mm_result s = Some err /\ mm_taken s = length (mm_sent s);
  mi_ctx : CtxEnded ∈ mm_log s \/ mm_at s = AtRecheck -> mm_ctx s = true }.

Lemma messages_snoc l x : messages (l ++ [x]) = messages l ++ match x with Got r => [r] | _ => [] end.
Proof. unfold messages. rewrite omap_app. by destruct x. Qed.

Lemma MI_take s s' : MI s -> take_one s = Some s' -> MI s'.
Proof.
  intros [M1 M2 M3 M4 M5]. unfold take_one. destruct (mm_sent s !! mm_taken s) as [r|] eqn:E; [|done]. simpl. intros [= <-].
  pose proof (lookup_lt_Some _ _ _ E) as Hlt. split; rec_simpl; try done.
  - rewrite messages_snoc, M1. by erewrite take_S_r.
  - intros err [He|He%list_elem_of_singleton]%elem_of_app; [|done]. destruct (M4 err He) as [_ ?]. lia.
  - intros [[?|?%list_elem_of_singleton]%elem_of_app|?]; [auto|done|done].
Qed.

Lemma MI_step i s s' : MI s -> mstep i s = Some s' -> MI s'.
Proof.
  intros HM Hs. pose proof HM as [M1 M2 M3 M4 M5]. destruct i; cbn [mstep] in Hs.
  - destruct (is_done s) eqn:Ed; [done|]. destruct (negb _); [done|]. injection Hs as <-. split; rec_simpl.
    + rewrite M1, take_app_le by done. done.
    + rewrite length_app. lia.
    + intros H. by rewrite (M3 H) in Ed.
    + intros err He. destruct (M4 err He) as [Hr _]. unfold is_done in Ed. by rewrite Hr in Ed.
    + done.
  - destruct (is_done s) eqn:Ed; [done|]. injection Hs as <-. split; rec_simpl; try done.
    intros e He. destruct (M4 e He) as [Hr _]. unfold is_done in Ed. by rewrite Hr in Ed.
  - injection Hs as <-. by split.
  - destruct (mm_at s) eqn:Ea; try done. injection Hs as <-. split; rec_simpl; try done. intros [?|?]; [auto|done].
  - destruct (mm_at s) eqn:Ea; try done.
    + destruct (take_one s) as [s1|] eqn:Et; injection Hs as <-; [by eapply MI_take|]. split; rec_simpl; try done. intros [?|?]; [auto|done].
    + injection Hs as <-. destruct (is_done s) eqn:Ed; split; rec_simpl; try done; try (by intros _; exact Ed); intros [?|?]; [auto|done|auto|done].
    + injection Hs as <-. destruct (is_done s) eqn:Ed; split; rec_simpl; try done.
      * intros _. apply M5. by right.
      * by rewrite messages_snoc, M1, app_nil_r.
      * intros err [He|He%list_elem_of_singleton]%elem_of_app; [by apply M4|done].
      * intros _. apply M5. by right.
    + destruct (take_one s) as [s1|] eqn:Et; [injection Hs as <-; by eapply MI_take|]. destruct (mm_result s) as [err|] eqn:Er; [|done]. injection Hs as <-.
      split; rec_simpl; try done.
      * by rewrite messages_snoc, M1, app_nil_r.
      * intros e [He|[= <-]%list_elem_of_singleton]%elem_of_app; [rewrite Er; by apply M4|]. split; [done|]. unfold take_one in Et.
        destruct (mm_sent s !! mm_taken s) eqn:El; [done|]. apply lookup_ge_None in El. lia.
      * intros [[?|?%list_elem_of_singleton]%elem_of_app|?]; [auto|done|done].
  - destruct (mm_at s) eqn:Ea; try done. by eapply MI_take.
  - destruct (mm_at s) eqn:Ea; try done. destruct (is_done s); [|done]. injection Hs as <-. split; rec_simpl; try done. intros [?|?]; [auto|done].
  - destruct (mm_at s) eqn:Ea; try done. destruct (mm_ctx s) eqn:Ec; [|done]. injection Hs as <-. by split.
Qed.

(** The in-memory exec stream loses nothing.  However the handler's
    sends, its end, cancellations and the steps of Recv interleave, the
    responses received are those sent, in order; Recv reports the end of the
    stream only with the handler's own result and after every response was
    received, and the context's error only when the context has ended. *)
Theorem mem_stream_faithful s :
  mreachable s ->
  messages (mm_log s) = take (mm_taken s) (mm_sent s)
  /\ (forall err, Ended err ∈ mm_log s -> mm_result s = Some err /\ messages (mm_log s) = mm_sent s)
  /\ (CtxEnded ∈ mm_log s -> mm_ctx s = true).
Proof.
  intros HR. assert (HM : MI s).
  { induction HR as [|i s s' HR IH Hs]; [|by eapply MI_step]. split; simpl; try done; [by intros err ?%elem_of_nil|by intros [?%elem_of_nil|?]]. }
  destruct HM as [M1 M2 M3 M4 M5]. split; [done|]. split; [|auto].
  intros err He. destruct (M4 err He) as [Hr Ht]. split; [done|]. rewrite M1, Ht. by rewrite take_ge.
Qed.
Definition demo_mem : memStream :=
  {| mm_sent := [RespStdout "a"; RespExitCode 0]; mm_taken := 2; mm_result := Some None; mm_ctx := true; mm_at := AtIdle;
     mm_log := [Got (RespStdout "a"); Got (RespExitCode 0); Ended None] |}.
Fixpoint msteps (l : list minput) (s : memStream) : option memStream :=
  match l with [] => Some s | i :: l => match mstep i s with Some s => msteps l s | None => None end end.
Lemma msteps_reachable l : forall s s', mreachable s -> msteps l s = Some s' -> mreachable s'.
Proof.
  induction l as [|i l IH]; intros s s' HR Hs; cbn [msteps] in Hs; [by injection Hs as <-|].
  destruct (mstep i s) as [s1|] eqn:E; [|done]. eapply (IH s1); [|done]. by eapply mreach_step.
Qed.
Lemma mem_stream_faithful_witness : mm_result demo_mem = Some None /\ messages (mm_log demo_mem) = mm_sent demo_mem.
Proof.
  apply (mem_stream_faithful demo_mem); [|right; right; left].
  apply (msteps_reachable [MRecv; MPoll; MPoll; MServerSend (RespStdout "a"); MTake; MRecv; MPoll; MPoll; MServerSend (RespExitCode 0); MFinish None;
    MCancel; MSeeCtx; MPoll; MPoll; MRecv; MPoll; MPoll; MPoll] memStream0); [constructor|vm_compute; reflexivity].
Defined.
