(* ===== verification/FlrHealth.v ===== *)
(** * cmd/flr: health.go and runloopmetrics.go

    The health server of the process.  Its state is the four atomic fields
    of [healthServer]; the Scheduler and the claim backend it reads at every
    probe are arguments, as they are at that moment.  The process's file
    descriptors, which followRunLoop looks at, are what the system calls
    answer about each of them. *)
From S2P Require Import Prelude GoModel PoolTypes ConfigTypes SchedTypes Capacity Tracker Health HostTable Lifecycle GoStrings ClaimPool ClaimEvents.
From Stdlib Require Import Ascii.

(** ** The report *)
(** [pr_Ready] is the pointer: none is nil, which JSON leaves out. *)
Record poolReport := { pr_Pool : string; pr_Available : Z; pr_Ready : option bool }.
#[export] Instance eta_poolReport : Eta poolReport :=
  fun r => {| pr_Pool := pr_Pool r; pr_Available := pr_Available r; pr_Ready := pr_Ready r |}.

Record readinessReport := {
  rr_Ready : bool; rr_TokenVerified : bool; rr_PoolManagerContacted : bool; rr_PoolManagerReachable : bool;
  rr_HealthyHosts : Z; rr_Pools : list poolReport }.
#[export] Instance eta_readinessReport : Eta readinessReport :=
  fun r => {| rr_Ready := rr_Ready r; rr_TokenVerified := rr_TokenVerified r; rr_PoolManagerContacted := rr_PoolManagerContacted r;
              rr_PoolManagerReachable := rr_PoolManagerReachable r; rr_HealthyHosts := rr_HealthyHosts r; rr_Pools := rr_Pools r |}.

(** The loop of setPoolReady over the Pools. *)
Fixpoint set_ready (pool : string) (ready : bool) (l : list poolReport) : list poolReport :=
  match l with
  | [] => [{| pr_Pool := pool; pr_Available := 0; pr_Ready := Some ready |}]
  | p :: l => if String.eqb (pr_Pool p) pool then p <| pr_Ready := Some ready |> :: l else p :: set_ready pool ready l
  end.
Definition setPoolReady (pool : string) (ready : bool) (r : readinessReport) : readinessReport :=
  r <| rr_Pools := set_ready pool ready (rr_Pools r) |>.

(** ** The server *)
(** [hv_status] and [hv_pools] are whether the Scheduler and the claim
    backend were given; [hv_runLoop] is the port of the metrics server. *)
Record healthServer := { hv_verified : bool; hv_status : bool; hv_pools : bool; hv_runLoop : option Z }.
#[export] Instance eta_healthServer : Eta healthServer :=
  fun r => {| hv_verified := hv_verified r; hv_status := hv_status r; hv_pools := hv_pools r; hv_runLoop := hv_runLoop r |}.

(** [listen] is the answer of net.Listen. *)
Definition newHealthServer (listen : option error) : result healthServer :=
  match listen with
  | Some e => Err (EWrap "observability listen address" [e])
  | None => Ok {| hv_verified := false; hv_status := false; hv_pools := false; hv_runLoop := None |}
  end.
Definition tokenVerified (h : healthServer) : healthServer := h <| hv_verified := true |>.
Definition setStatus (h : healthServer) : healthServer := h <| hv_status := true |>.
Definition setPools (h : healthServer) : healthServer := h <| hv_pools := true |>.
Definition setRunLoop (port : Z) (h : healthServer) : healthServer := h <| hv_runLoop := Some port |>.

(** What a probe finds: the Scheduler, what its Snapshot reads of the Tracker
    and of the health monitor, and the claim backend's hub. *)
Record probed := { vw_sched : impl; vw_pools : list PoolAvailability; vw_healthy : bool; vw_contacted : bool; vw_hub : hub }.

(** The loop over PoolsReady: the capacity so far and the report. *)
Definition ready_one (acc : bool * readinessReport) (p : PoolReadiness) : bool * readinessReport :=
  (acc.1 || rd_Ready p, setPoolReady (PoolRef_String (rd_Pool p)) (rd_Ready p) acc.2).

Definition readiness (h : healthServer) (v : probed) : readinessReport :=
  let report := {| rr_Ready := false; rr_TokenVerified := hv_verified h; rr_PoolManagerContacted := false; rr_PoolManagerReachable := false;
                   rr_HealthyHosts := 0; rr_Pools := [] |} in
  if negb (hv_status h) then report
  else
    let snap := (takeSnapshot (vw_pools v) (vw_healthy v) (vw_contacted v) (vw_sched v)).2 in
    let report := report <| rr_PoolManagerContacted := sn_PoolManagerContacted snap |> <| rr_PoolManagerReachable := sn_PoolManagerHealthy snap |>
                         <| rr_HealthyHosts := fold_left (fun n host => if hh_Healthy host then n + 1 else n) (sn_Hosts snap) 0 |>
                         <| rr_Pools := (fun p => {| pr_Pool := PoolRef_String (pa_Pool p); pr_Available := Available (pa_Status p); pr_Ready := None |}) <$> sn_Pools snap |> in
    let capacity := 0 <? rr_HealthyHosts report in
    let '(capacity, report) := if hv_pools h then foldl ready_one (false, report) (PoolsReady (vw_hub v)) else (capacity, report) in
    report <| rr_Ready := rr_TokenVerified report && rr_PoolManagerContacted report && capacity |>.

(** ** The handlers *)
(** What is written to the client: the status, the content type and the body;
    a proxied request gets what the metrics server answers. *)
Inductive response :=
  | RText (code : Z) (body : string)
  | RReport (code : Z) (report : readinessReport)
  | RProxied (port : Z).

(** [fmt.Fprintln] of one string; [http.Error] writes its text with it. *)
Definition Fprintln (s : string) : string := s +:+ String "010"%char "".
Definition serveHealthz : response := RText 200 (Fprintln "ok").
Definition serveReadyz (h : healthServer) (v : probed) : response :=
  let report := readiness h v in RReport (if rr_Ready report then 200 else 503) report.
Definition serveRunLoop (h : healthServer) : response :=
  match hv_runLoop h with
  | None => RText 503 (Fprintln "the run loop's metrics server has not started")
  | Some port => RProxied port
  end.
(** The routes of the mux, for a cleaned path. *)
Definition serve (path : string) (h : healthServer) (v : probed) : response :=
  if String.eqb path "/healthz" then serveHealthz
  else if String.eqb path "/readyz" then serveReadyz h v
  else serveRunLoop h.

(** ** What the report says *)
Lemma healthy_count l n : fold_left (fun n host => if hh_Healthy host then n + 1 else n) l n = n + Z.of_nat (length (filter (fun x => hh_Healthy x = true) l)).
Proof.
  revert n. induction l as [|x l IH]; intros n; [simpl; lia|]. cbn [fold_left]. rewrite IH, filter_cons.
  destruct (hh_Healthy x); [rewrite decide_True by done; simpl; lia|by rewrite decide_False].
Qed.

Lemma foldl_ready l c r :
  foldl ready_one (c, r) l
  = (c || existsb rd_Ready l, r <| rr_Pools := foldl (fun ps p => set_ready (PoolRef_String (rd_Pool p)) (rd_Ready p) ps) (rr_Pools r) l |>).
Proof.
  revert c r. induction l as [|p l IH]; intros c r; simpl; [rewrite orb_false_r; by destruct r|].
  unfold ready_one at 2. simpl. rewrite IH, orb_assoc. done.
Qed.

Lemma set_ready_names pool b l :
  pr_Pool <$> set_ready pool b l = (pr_Pool <$> l) ++ if bool_decide (pool ∈ pr_Pool <$> l) then [] else [pool].
Proof.
  induction l as [|p l IH]; [done|]. cbn [set_ready]. destruct (String.eqb_spec (pr_Pool p) pool) as [E|E]; cbn [fmap list_fmap app].
  - rewrite bool_decide_true by (rewrite <-E; left). by rewrite app_nil_r.
  - f_equal. change (list_fmap _ _ pr_Pool (set_ready pool b l)) with (pr_Pool <$> set_ready pool b l). rewrite IH. f_equal.
    destruct (bool_decide_reflect (pool ∈ pr_Pool <$> l)) as [H|H]; case_bool_decide as H2; try done.
    + exfalso. apply H2. by right.
    + apply elem_of_cons in H2 as [H2|H2]; done.
Qed.

Lemma set_ready_other pool b l q : q ∈ l -> pr_Pool q <> pool -> q ∈ set_ready pool b l.
Proof.
  induction l as [|p l IH]; [by intros ?%elem_of_nil|]. intros [->|Hq]%elem_of_cons Hne; cbn [set_ready].
  - destruct (String.eqb_spec (pr_Pool p) pool); [done|left].
  - destruct (String.eqb_spec (pr_Pool p) pool); right; auto.
Qed.

Lemma set_ready_self pool b l : exists n, {| pr_Pool := pool; pr_Available := n; pr_Ready := Some b |} ∈ set_ready pool b l.
Proof.
  induction l as [|p l IH]; [exists 0; left|]. cbn [set_ready]. destruct (String.eqb_spec (pr_Pool p) pool) as [<-|]; [exists (pr_Available p); left|].
  destruct IH as [k Hk]. exists k. by right.
Qed.

(** Every Pool of the claim backend ends up in the report with its readiness,
    when no two of them render alike. *)
Lemma ready_reported l ps p : NoDup ((fun p => PoolRef_String (rd_Pool p)) <$> l) -> p ∈ l ->
  exists n, {| pr_Pool := PoolRef_String (rd_Pool p); pr_Available := n; pr_Ready := Some (rd_Ready p) |}
    ∈ foldl (fun ps p => set_ready (PoolRef_String (rd_Pool p)) (rd_Ready p) ps) ps l.
Proof.
  assert (HK : forall l ps q, pr_Pool q ∉ ((fun p => PoolRef_String (rd_Pool p)) <$> l) -> q ∈ ps ->
    q ∈ foldl (fun ps p => set_ready (PoolRef_String (rd_Pool p)) (rd_Ready p) ps) ps l).
  { clear. induction l as [|x l IH]; intros ps q Hn Hq; [done|]. simpl. rewrite fmap_cons, not_elem_of_cons in Hn. destruct Hn as [H1 H2].
    apply IH; [done|]. by apply set_ready_other. }
  revert ps. induction l as [|x l IH]; intros ps HN Hp; [by apply elem_of_nil in Hp|]. rewrite fmap_cons, NoDup_cons in HN. destruct HN as [Hx HN].
  apply elem_of_cons in Hp as [->|Hp]; simpl; [|by apply IH].
  destruct (set_ready_self (PoolRef_String (rd_Pool x)) (rd_Ready x) ps) as [n Hn]. exists n. by apply HK.
Qed.

Lemma takeSnapshot_contacted pas b hc s :
  sn_PoolManagerContacted (takeSnapshot pas b hc s).2 = im_ready s || hc.
Proof. unfold takeSnapshot, sched_contacted. destruct (im_ready s), hc; done. Qed.

Lemma takeSnapshot_healthy pas b hc s :
  existsb hh_Healthy (sn_Hosts (takeSnapshot pas b hc s).2) = true <-> exists name st, hosts (im_table s) !! name = Some st /\ hs_healthy st = true.
Proof.
  assert (sn_Hosts (takeSnapshot pas b hc s).2 = merge_sort hh_le ((fun kv => hostHealth (im_core s) kv.1 kv.2) <$> map_to_list (hosts (im_table s)))) as ->.
  { unfold takeSnapshot, sched_contacted. destruct (im_ready s), hc; done. }
  rewrite existsb_exists. setoid_rewrite <-list_elem_of_In. setoid_rewrite merge_sort_Permutation. setoid_rewrite list_elem_of_fmap. split.
  - intros (hh & ([name st] & -> & Hin%elem_of_map_to_list) & Hh). by exists name, st.
  - intros (name & st & Hst & Hh). exists (hostHealth (im_core s) name st). split; [|done]. exists (name, st). split; [done|by apply elem_of_map_to_list].
Qed.

Lemma PoolsReady_exists h : existsb rd_Ready (PoolsReady h) = true <-> exists name r, hb_available h !! name = Some r /\ rep_ready r = true.
Proof.
  rewrite existsb_exists. unfold PoolsReady. setoid_rewrite <-list_elem_of_In. setoid_rewrite merge_sort_Permutation. setoid_rewrite list_elem_of_fmap. split.
  - intros (p & ([name r] & -> & Hin%elem_of_map_to_list) & Hp). by exists name, r.
  - intros (name & r & Hr & Hp). eexists. split; [exists (name, r); split; [reflexivity|by apply elem_of_map_to_list]|done].
Qed.

Lemma filter_existsb {A} (f : A -> bool) l : (0 < Z.of_nat (length (filter (fun x => f x = true) l))) <-> existsb f l = true.
Proof.
  induction l as [|x l IH]; [simpl; split; [lia|done]|]. rewrite filter_cons. cbn [existsb]. destruct (f x) eqn:E.
  - rewrite decide_True by done. simpl. split; [done|lia].
  - by rewrite decide_False by done.
Qed.

(** What makes the Runner ready (OB-031). *)
Definition ready_condition (h : healthServer) (v : probed) : Prop :=
  hv_verified h = true /\ hv_status h = true /\ (im_ready (vw_sched v) = true \/ vw_contacted v = true)
  /\ if hv_pools h then exists name r, hb_available (vw_hub v) !! name = Some r /\ rep_ready r = true
     else exists name st, hosts (im_table (vw_sched v)) !! name = Some st /\ hs_healthy st = true.

Lemma readiness_claim h v : hv_status h = true -> hv_pools h = true ->
  rr_Ready (readiness h v) = hv_verified h && (im_ready (vw_sched v) || vw_contacted v) && existsb rd_Ready (PoolsReady (vw_hub v)).
Proof.
  intros Hs Hp. unfold readiness. rewrite Hs, Hp. simpl. rewrite foldl_ready. rec_simpl. by rewrite takeSnapshot_contacted.
Qed.
Lemma readiness_hosts h v : hv_status h = true -> hv_pools h = false ->
  rr_Ready (readiness h v) = hv_verified h && (im_ready (vw_sched v) || vw_contacted v) && (0 <? rr_HealthyHosts (readiness h v)).
Proof.
  intros Hs Hp. unfold readiness. rewrite Hs, Hp. simpl. rec_simpl. by rewrite takeSnapshot_contacted.
Qed.
Lemma readiness_count h v : hv_status h = true ->
  rr_HealthyHosts (readiness h v)
  = Z.of_nat (length (filter (fun x => hh_Healthy x = true) (sn_Hosts (takeSnapshot (vw_pools v) (vw_healthy v) (vw_contacted v) (vw_sched v)).2))).
Proof.
  intros Hs. unfold readiness. rewrite Hs. simpl. destruct (hv_pools h); rewrite ?foldl_ready; rec_simpl; by rewrite healthy_count.
Qed.

Lemma readiness_iff h v : rr_Ready (readiness h v) = true <-> ready_condition h v.
Proof.
  unfold ready_condition. destruct (hv_status h) eqn:Hs; [|unfold readiness; rewrite Hs; naive_solver].
  destruct (hv_pools h) eqn:Hp.
  - rewrite readiness_claim, <-PoolsReady_exists, !andb_true_iff, orb_true_iff by done. naive_solver.
  - rewrite readiness_hosts, readiness_count, !andb_true_iff, orb_true_iff, Z.ltb_lt, filter_existsb, takeSnapshot_healthy by done. naive_solver.
Qed.

Definition lists (pool : string) (n : Z) (l : list poolReport) : Prop := exists r, r ∈ l /\ pr_Pool r = pool /\ pr_Available r = n.

Lemma set_ready_lists pool b l q n : lists q n l -> lists q n (set_ready pool b l).
Proof.
  intros (r & Hr & Hq & Hn). induction l as [|p l IH]; [by apply elem_of_nil in Hr|]. cbn [set_ready].
  apply elem_of_cons in Hr as [->|Hr].
  - destruct (String.eqb_spec (pr_Pool p) pool); eexists; (split; [left|done]).
  - destruct (String.eqb_spec (pr_Pool p) pool); [exists r; split; [by right|done]|].
    destruct (IH Hr) as (r' & Hr' & ?). exists r'. split; [by right|done].
Qed.

Lemma foldl_ready_lists l q n ps : lists q n ps -> lists q n (foldl (fun ps p => set_ready (PoolRef_String (rd_Pool p)) (rd_Ready p) ps) ps l).
Proof. revert ps. induction l as [|p l IH]; intros ps H; [done|]. simpl. apply IH. by apply set_ready_lists. Qed.

Lemma readiness_pools h v pa : hv_status h = true -> pa ∈ vw_pools v ->
  lists (PoolRef_String (pa_Pool pa)) (Available (pa_Status pa)) (rr_Pools (readiness h v)).
Proof.
  intros Hs Hpa.
  set (ps := (fun p => {| pr_Pool := PoolRef_String (pa_Pool p); pr_Available := Available (pa_Status p); pr_Ready := None |})
               <$> sn_Pools (takeSnapshot (vw_pools v) (vw_healthy v) (vw_contacted v) (vw_sched v)).2).
  assert (lists (PoolRef_String (pa_Pool pa)) (Available (pa_Status pa)) ps) as HL.
  { unfold ps, takeSnapshot. destruct (sched_contacted _ _) as [s c]. simpl. rewrite <-list_fmap_compose.
    eexists. split; [apply list_elem_of_fmap; exists pa; split; [reflexivity|done]|done]. }
  unfold readiness. rewrite Hs. simpl. destruct (hv_pools h); [|exact HL]. rewrite foldl_ready. rec_simpl. by apply foldl_ready_lists.
Qed.

(** C24: /readyz answers 200 exactly when GitLab has accepted the token, the
    Scheduler exists, the Pool Manager has answered at least once, and some
    Host is healthy -- under the claim backend, some Pool of the watch is
    Ready instead -- and 503 otherwise; either way the body has the number of
    healthy Hosts, whether the Pool Manager is reachable, and every Pool the
    Scheduler tracks with its available count.  /healthz always answers 200. *)
Theorem readyz_exact h v :
  serve "/healthz" h v = RText 200 (Fprintln "ok")
  /\ exists code report, serve "/readyz" h v = RReport code report
     /\ (ready_condition h v <-> code = 200) /\ (code = 200 \/ code = 503)
     /\ (hv_status h = true ->
           rr_PoolManagerReachable report = vw_healthy v
           /\ rr_HealthyHosts report = Z.of_nat (length (filter (fun kv => hs_healthy kv.2 = true) (map_to_list (hosts (im_table (vw_sched v))))))
           /\ forall pa, pa ∈ vw_pools v -> lists (PoolRef_String (pa_Pool pa)) (Available (pa_Status pa)) (rr_Pools report)).
Proof.
  split; [done|]. exists (if rr_Ready (readiness h v) then 200 else 503), (readiness h v). split; [done|].
  rewrite <-readiness_iff. split; [by destruct (rr_Ready (readiness h v))|]. split; [destruct (rr_Ready (readiness h v)); auto|].
  intros Hs. split_and!.
  - unfold readiness. rewrite Hs. simpl. unfold takeSnapshot. destruct (sched_contacted _ _). destruct (hv_pools h); rewrite ?foldl_ready; done.
  - rewrite readiness_count by done. unfold takeSnapshot. destruct (sched_contacted _ _) as [s' c] eqn:E. simpl.
    assert (im_table s' = im_table (vw_sched v)) as -> by (unfold sched_contacted in E; repeat case_match; by simplify_eq).
    rewrite merge_sort_Permutation. f_equal. induction (map_to_list (hosts (im_table (vw_sched v)))) as [|kv l IH]; [done|].
    rewrite fmap_cons, !filter_cons. change (hh_Healthy (hostHealth (im_core s') kv.1 kv.2)) with (hs_healthy kv.2).
    destruct (decide (hs_healthy kv.2 = true)); simpl; [by f_equal|done].
  - intros pa Hpa. by apply readiness_pools.
Qed.

(** ** runloopmetrics.go *)
(** What the system says about a file descriptor: [getsockopt] SO_TYPE and
    SO_ACCEPTCONN (macOS answers ENOPROTOOPT), [getsockname], and whether
    [getpeername] fails with ENOTCONN. *)
Inductive optAnswer := OptValue (n : Z) | OptNoProto | OptErr.
Inductive sockaddr := Inet4 (a b c d port : Z) | OtherAddr.
Record fdInfo := { fd_type : option Z; fd_accept : optAnswer; fd_name : option sockaddr; fd_notconn : bool }.

Definition SOCK_STREAM : Z := 1.
Definition runLoopMetricsAddr : string := "127.0.0.1:0".
Definition followRunLoopMaxInterval : duration := 2 * second.

Definition isTCPListener (i : fdInfo) : bool :=
  match fd_type i with
  | None => false
  | Some typ =>
      if negb (typ =? SOCK_STREAM) then false
      else match fd_accept i with
           | OptValue accepting => negb (accepting =? 0)
           | OptErr => false
           | OptNoProto =>
               match fd_name i with
               | Some (Inet4 _ _ _ _ port) => if port =? 0 then false else fd_notconn i
               | _ => false
               end
           end
  end.

(** The ports of the process's listeners on 127.0.0.1. *)
Definition loopback_one (info : Z -> fdInfo) (out : gset Z) (name : string) : gset Z :=
  match Atoi name with
  | None => out
  | Some fd =>
      if negb (isTCPListener (info fd)) then out
      else match fd_name (info fd) with
           | Some (Inet4 127 0 0 1 port) => {[port mod 65536]} ∪ out
           | _ => out
           end
  end.
(** [names] is the listing of /dev/fd, or the error of opening or reading it. *)
Definition loopbackListeners (names : result (list string)) (info : Z -> fdInfo) : result (gset Z) :=
  match names with
  | Err e => Err (EWrap "listing the process's file descriptors" [e])
  | Ok names => Ok (foldl (loopback_one info) ∅ names)
  end.

Definition newListeners (before now : gset Z) : list Z := merge_sort Z.le (elements (now ∖ before)).

(** One poll: the listener to follow, and whether a warning has been logged. *)
Definition follow_poll (before : gset Z) (now : result (gset Z)) (warned : bool) : option Z * bool :=
  let added := match now with Ok now => newListeners before now | Err _ => [] end in
  match added with
  | [port] => (Some port, warned)
  | _ => (None, warned || match now with Err _ => true | Ok _ => (1 <? length added)%nat end)
  end.

(** The loop over the answers of loopbackListeners until ctx ends, with the
    intervals it waited. *)
Fixpoint followRunLoop (before : gset Z) (polls : list (result (gset Z))) (every : duration) (warned : bool) (h : healthServer) : healthServer * list duration :=
  match polls with
  | [] => (h, [])
  | now :: polls =>
      match follow_poll before now warned with
      | (Some port, _) => (setRunLoop port h, [])
      | (None, warned) =>
          let '(h, waits) := followRunLoop before polls (Z.min (int64 (2 * every)) followRunLoopMaxInterval) warned h in
          (h, every :: waits)
      end
  end.

(** The one listener a poll finds that was not there before. *)
Definition sole (before : gset Z) (now : result (gset Z)) (port : Z) : Prop :=
  exists s, now = Ok s /\ s ∖ before = {[port]}.

Lemma follow_poll_sole before now warned port : (follow_poll before now warned).1 = Some port <-> sole before now port.
Proof.
  unfold follow_poll, sole. destruct now as [s|e]; simpl.
  2:{ split; [done|]. intros (? & [=] & _). }
  unfold newListeners. split.
  - pose proof (merge_sort_Permutation Z.le (elements (s ∖ before))) as HP. destruct (merge_sort Z.le (elements (s ∖ before))) as [|p [|q l]]; [done| |done].
    intros [= ->]. exists s. split; [done|]. apply set_eq. intros x. rewrite <-elem_of_elements, <-HP. set_solver.
  - intros (? & [= <-] & ->). rewrite elements_singleton. done.
Qed.

Lemma follow_waits before polls every warned h :
  0 < every <= followRunLoopMaxInterval ->
  Forall (fun w => 0 < w <= followRunLoopMaxInterval) (followRunLoop before polls every warned h).2.
Proof.
  revert every warned. induction polls as [|now polls IH]; intros every warned He; simpl; [constructor|].
  destruct (follow_poll before now warned) as [[port|] w] eqn:E; [constructor|].
  pose proof (IH (Z.min (int64 (2 * every)) followRunLoopMaxInterval) w) as IH'.
  destruct (followRunLoop before polls _ w h) as [h' waits]. simpl in *. constructor; [done|]. apply IH'.
  assert (int64 (2 * every) = 2 * every) as ->. { unfold int64, wrap_signed, followRunLoopMaxInterval, second in *. rewrite Z.mod_small; lia. } lia.
Qed.

Lemma follow_cases before polls every warned h :
  let r := followRunLoop before polls every warned h in
  (exists k now port, polls !! k = Some now /\ sole before now port /\ length r.2 = k
     /\ (forall j now' p, (j < k)%nat -> polls !! j = Some now' -> ~ sole before now' p) /\ r.1 = setRunLoop port h)
  \/ ((forall now p, now ∈ polls -> ~ sole before now p) /\ r.1 = h /\ length r.2 = length polls).
Proof.
  revert every warned. induction polls as [|now polls IH]; intros every warned; simpl.
  { right. split; [|done]. intros now p H. by apply elem_of_nil in H. }
  destruct (follow_poll before now warned) as [[port|] w] eqn:E.
  - left. exists 0%nat, now, port. split_and!; try done; [|lia]. by apply (follow_poll_sole before now warned); rewrite E.
  - assert (Hno : forall p, ~ sole before now p) by (intros p Hp%(follow_poll_sole _ _ warned); by rewrite E in Hp).
    specialize (IH (Z.min (int64 (2 * every)) followRunLoopMaxInterval) w).
    destruct (followRunLoop before polls _ w h) as [h' waits]. simpl in *.
    destruct IH as [(k & now' & port & H1 & H2 & H3 & H4 & H5)|(H1 & H2 & H3)].
    + left. exists (S k), now', port. split_and!; try done; [lia|]. intros [|j] now'' p Hj Hl; simpl in Hl; [simplify_eq; apply Hno|].
      apply (H4 j); [lia|done].
    + right. split_and!; [|done|lia]. intros now' p [->|Hn]%elem_of_cons; [apply Hno|by apply H1].
Qed.

(** FollowRunLoop gives the health server the address of the first poll
    that shows exactly one listener that was not there before the run loop
    started, and never one that was; while no poll does -- the listing fails,
    or none or several are new -- it leaves the server as it is and waits, at
    most two seconds at a time. *)
Theorem followRunLoop_exact before polls every h : 0 < every <= followRunLoopMaxInterval ->
  let r := followRunLoop before polls every false h in
  ((exists k now port, polls !! k = Some now /\ sole before now port /\ port ∉ before /\ length r.2 = k
      /\ (forall j now' p, (j < k)%nat -> polls !! j = Some now' -> ~ sole before now' p) /\ serveRunLoop r.1 = RProxied port)
   \/ ((forall now p, now ∈ polls -> ~ sole before now p) /\ r.1 = h /\ length r.2 = length polls))
  /\ Forall (fun w => 0 < w <= followRunLoopMaxInterval) r.2.
Proof.
  intros He r. split; [|by apply follow_waits].
  destruct (follow_cases before polls every false h) as [(k & now & port & H1 & H2 & H3 & H4 & H5)|H]; [left|by right]. 
  exists k, now, port. split_and!; try done; [|by unfold r; rewrite H5]. destruct H2 as (s & _ & E). set_solver.
Qed.

Lemma followRunLoop_exact_witness :
  0 < 20 * millisecond <= followRunLoopMaxInterval
  /\ hv_runLoop (followRunLoop {[9252]} [Ok {[9252]}; Err (ENew "x"); Ok {[9252; 40000; 40001]}; Ok {[9252; 40001]}] (20 * millisecond) false
       {| hv_verified := false; hv_status := false; hv_pools := false; hv_runLoop := None |}).1 = Some 40001
  /\ Forall (fun w => 0 < w <= followRunLoopMaxInterval)
       (followRunLoop {[9252]} [Ok {[9252]}; Err (ENew "x"); Ok {[9252; 40000; 40001]}; Ok {[9252; 40001]}] (20 * millisecond) false
          {| hv_verified := false; hv_status := false; hv_pools := false; hv_runLoop := None |}).2.
Proof.
  assert (0 < 20 * millisecond <= followRunLoopMaxInterval) as H by (vm_compute; split; [reflexivity|discriminate]).
  split; [exact H|]. split; [vm_compute; reflexivity|]. apply (followRunLoop_exact _ _ _ _ H).
Defined.

(** Only sockets that listen on 127.0.0.1 count. *)
Lemma loopback_fold info names acc p : p ∈ foldl (loopback_one info) acc names ->
  p ∈ acc \/ exists name fd port, name ∈ names /\ Atoi name = Some fd /\ isTCPListener (info fd) = true
    /\ fd_name (info fd) = Some (Inet4 127 0 0 1 port) /\ p = port mod 65536.
Proof.
  revert acc. induction names as [|name names IH]; intros acc Hp; [by left|]. simpl in Hp.
  destruct (IH _ Hp) as [H|(n & fd & port & H1 & H)]; [|right; exists n, fd, port; split; [by right|done]].
  unfold loopback_one in H. destruct (Atoi name) as [fd|] eqn:E; [|by left]. destruct (isTCPListener (info fd)) eqn:EL; simpl in H; [|by left].
  destruct (fd_name (info fd)) as [[a b c d port|]|] eqn:EN; [|by left..].
  assert (HH : p ∈ acc \/ (a = 127 /\ b = 0 /\ c = 0 /\ d = 1 /\ p ∈ ({[port mod 65536]} : gset Z))).
  { repeat case_match; subst; auto. apply elem_of_union in H as [H|H]; auto 10. }
  destruct HH as [HH|(-> & -> & -> & -> & HH%elem_of_singleton)]; [by left|]. right. exists name, fd, port. split_and!; try done. left.
Qed.
