(* ===== verification/FlrStart.v ===== *)
(** * cmd/flr/run.go: the identity, the verification and the stop signals

    The pieces of `run` that decide how it starts and stops: the system
    identifier in the state directory, the verification of the token with
    its retries, the level of the logger, and the goroutine that takes over
    the stop signals.  The file system, the random source, GitLab's answers
    and the moments the context ends are arguments. *)
From Stdlib Require Import Ascii.
From S2P Require Import Prelude GoModel ConfigTypes Base64 GoStrings ConfigImage Provider.

(** ** The system identifier *)
Definition systemIDFile : string := ".runner_system_id".

Definition alnum (c : ascii) : bool :=
  let n := byte_of c in
  ((48 <=? n) && (n <=? 57)) || ((97 <=? n) && (n <=? 122)) || ((65 <=? n) && (n <=? 90)).

(** [^[sr]_[0-9a-zA-Z]{12}$] *)
Definition systemIDPattern (id : string) : bool :=
  match id with
  | String c (String u rest) =>
      (Ascii.eqb c "s"%char || Ascii.eqb c "r"%char) && Ascii.eqb u "_"%char && (String.length rest =? 12)%nat && all_chars alnum rest
  | _ => false
  end.

Definition alphabet : string := "0123456789abcdefghijklmnopqrstuvwxyzABCDEFGHIJKLMNOPQRSTUVWXYZ".

(** The bytes from index [i] on; [rnd i] is what rand.Int answers the i-th
    time.  None: an index out of range panics. *)
Fixpoint id_bytes (rnd : nat -> result Z) (i k : nat) : option (result string) :=
  match k with
  | O => Some (Ok "")
  | S k =>
      match rnd i with
      | Err e => Some (Err (EWrap "generating system id" [e]))
      | Ok n =>
          if n <? 0 then None else
          match String.get (Z.to_nat n) alphabet with
          | None => None
          | Some c => match id_bytes rnd (S i) k with
                      | Some (Ok s) => Some (Ok (String c s))
                      | r => r
                      end
          end
      end
  end.
Definition newSystemID (rnd : nat -> result Z) : option (result string) :=
  match id_bytes rnd 0 12 with
  | Some (Ok b) => Some (Ok ("s_" +:+ b))
  | r => r
  end.

(** The identifier file. *)
Inductive file := FMissing | FUnreadable (e : error) | FContent (data : string).

(** [write] is what os.WriteFile does when it fails: its error, and what is
    left of the file.  The file after the call, and the result. *)
Definition loadSystemID (rnd : nat -> result Z) (write : option (error * file)) (f : file) : option (file * result string) :=
  let generate :=
    match newSystemID rnd with
    | None => None
    | Some (Err e) => Some (f, Err e)
    | Some (Ok id) =>
        match write with
        | Some (e, f) => Some (f, Err (EWrap "storing system id" [e]))
        | None => Some (FContent (id +:+ String "010" ""), Ok id)
        end
    end in
  match f with
  | FContent data => if systemIDPattern (TrimSpace data) then Some (f, Ok (TrimSpace data)) else generate
  | FMissing => generate
  | FUnreadable e => Some (f, Err (EWrap "reading system id" [e]))
  end.

Lemma alnum_graph c : alnum c = true -> is_graph c = true.
Proof.
  unfold alnum, is_graph. rewrite !orb_true_iff, !andb_true_iff, !Z.leb_le. lia.
Qed.

Lemma systemIDPattern_graph id : systemIDPattern id = true -> all_chars is_graph id = true.
Proof.
  destruct id as [|c [|u rest]]; [done..|]. unfold systemIDPattern. rewrite !andb_true_iff. intros [[[Hc Hu] _] Hr]. cbn [all_chars].
  rewrite !andb_true_iff. split_and!; [apply orb_true_iff in Hc as [Hc|Hc]; by apply Ascii.eqb_eq in Hc as ->|by apply Ascii.eqb_eq in Hu as ->|].
  by eapply all_chars_impl; [apply alnum_graph|].
Qed.

Lemma alphabet_alnum n c : String.get n alphabet = Some c -> alnum c = true.
Proof. do 62 (destruct n as [|n]; [by intros [= <-]|]). by destruct n. Qed.

Lemma alphabet_get n : 0 <= n < 62 -> is_Some (String.get (Z.to_nat n) alphabet).
Proof.
  intros Hn. assert (Z.to_nat n < 62)%nat as H by lia. revert H. generalize (Z.to_nat n). intros m Hm.
  do 62 (destruct m as [|m]; [by eexists|]). lia.
Qed.

(** rand.Int(_, 62) is in [0, 62). *)
Definition rand_range (rnd : nat -> result Z) : Prop := forall i n, rnd i = Ok n -> 0 <= n < 62.

Lemma id_bytes_spec rnd i k : rand_range rnd ->
  match id_bytes rnd i k with
  | None => False
  | Some (Ok s) => String.length s = k /\ all_chars alnum s = true
  | Some (Err _) => exists j e, rnd j = Err e
  end.
Proof.
  intros HR. revert i. induction k as [|k IH]; intros i; [done|]. cbn [id_bytes]. destruct (rnd i) as [n|e] eqn:E; [|by exists i, e].
  pose proof (HR i n E) as Hn. destruct (Z.ltb_spec n 0); [lia|]. destruct (alphabet_get n Hn) as [c Hc]. rewrite Hc.
  specialize (IH (S i)). destruct (id_bytes rnd (S i) k) as [[s|e]|]; [|done..]. destruct IH as [H1 H2].
  cbn [String.length all_chars]. rewrite H1, H2, (alphabet_alnum _ _ Hc). done.
Qed.

Lemma newSystemID_spec rnd : rand_range rnd ->
  match newSystemID rnd with
  | None => False
  | Some (Ok id) => systemIDPattern id = true
  | Some (Err _) => exists j e, rnd j = Err e
  end.
Proof.
  intros HR. unfold newSystemID. pose proof (id_bytes_spec rnd 0 12 HR) as H. destruct (id_bytes rnd 0 12) as [[s|e]|]; [|done..].
  destruct H as [H1 H2]. change ("s_" +:+ s) with (String "s" (String "_" s)). unfold systemIDPattern. rewrite H1, H2. done.
Qed.

Lemma loadSystemID_again rnd write id : systemIDPattern id = true ->
  loadSystemID rnd write (FContent (id +:+ String "010" "")) = Some (FContent (id +:+ String "010" ""), Ok id).
Proof. intros H. unfold loadSystemID. rewrite TrimSpace_newline by (by apply systemIDPattern_graph). by rewrite H. Qed.

Lemma loadSystemID_spec rnd write f : rand_range rnd ->
  exists f' r, loadSystemID rnd write f = Some (f', r)
    /\ match r with
       | Ok id => systemIDPattern id = true /\ forall rnd' write', loadSystemID rnd' write' f' = Some (f', Ok id)
       | Err _ => (exists e, f = FUnreadable e) \/ (exists j e, rnd j = Err e) \/ is_Some write
       end.
Proof.
  intros HR. pose proof (newSystemID_spec rnd HR) as HN.
  assert (HG : forall f, exists f' r,
    match newSystemID rnd with None => None | Some (Err e) => Some (f, Err e)
    | Some (Ok id) => match write with Some (e, f) => Some (f, Err (EWrap "storing system id" [e])) | None => Some (FContent (id +:+ String "010" ""), Ok id) end end = Some (f', r)
    /\ match r with
       | Ok id => systemIDPattern id = true /\ forall rnd' write', loadSystemID rnd' write' f' = Some (f', Ok id)
       | Err _ => (exists j e, rnd j = Err e) \/ is_Some write
       end).
  { intros f0. destruct (newSystemID rnd) as [[id|e]|]; [|by eexists _, _; split; [reflexivity|left]|done].
    destruct write as [[e f1]|]; (eexists _, _; split; [reflexivity|]); simpl; [right; by eexists|]. split; [done|].
    intros. by apply loadSystemID_again. }
  destruct f as [|e|data]; unfold loadSystemID.
  - destruct (HG FMissing) as (f' & r & -> & H). exists f', r. split; [done|]. destruct r; [done|by right].
  - eexists _, _. split; [reflexivity|]. left. by exists e.
  - destruct (systemIDPattern (TrimSpace data)) eqn:EP.
    + eexists _, _. split; [reflexivity|]. split; [done|]. intros. simpl. by rewrite EP.
    + destruct (HG (FContent data)) as (f' & r & -> & H). exists f', r. split; [done|]. destruct r; [done|by right].
Qed.

(** C26: loadSystemID never panics; every identifier it returns has the type
    of gitlab-runner's system identifiers, [sr]_ and twelve letters or
    digits, and is in the file afterwards, so that every later start returns
    the same one and leaves the file alone; it fails only when the file
    cannot be read, the random source fails or the write does. *)
Theorem systemID_typed rnd write f : rand_range rnd ->
  exists f' r, loadSystemID rnd write f = Some (f', r)
    /\ match r with
       | Ok id => systemIDPattern id = true /\ forall rnd' write', loadSystemID rnd' write' f' = Some (f', Ok id)
       | Err _ => (exists e, f = FUnreadable e) \/ (exists j e, rnd j = Err e) \/ is_Some write
       end.
Proof. apply loadSystemID_spec. Qed.

Lemma systemID_typed_witness :
  rand_range (fun i => Ok (Z.of_nat (i mod 62))) /\
  exists f' r, loadSystemID (fun i => Ok (Z.of_nat (i mod 62))) None (FContent "garbage") = Some (f', r) /\ r = Ok "s_0123456789ab".
Proof.
  assert (HR : rand_range (fun i => Ok (Z.of_nat (i mod 62)))).
  { intros i n [= <-]. pose proof (Nat.mod_upper_bound i 62 ltac:(discriminate)). lia. }
  split; [exact HR|]. destruct (systemID_typed (fun i => Ok (Z.of_nat (i mod 62))) None (FContent "garbage") HR) as (f' & r & H & _).
  exists f', r. split; [exact H|]. vm_compute in H. injection H as _ <-. reflexivity.
Defined.

(** ** Verifying the token *)
(** [verified]: a response; [rejected]: no response and no error. *)
Inductive verifyAnswer := Verified | Rejected | VerifyErr (e : error).

(** How the process ends: cli.NewExitError's message, with the error it
    formats, and status; or an error that main exits 1 with. *)
Inductive exit_error := ExitCode (msg : string) (cause : option error) (code : Z) | PlainError (e : error).
Definition exitVerifyFailed : Z := 4.
Definition exitInvalidConfig : Z := 2.
(** main: the exit status of what the application returned. *)
Definition exit_status (r : option exit_error) : Z :=
  match r with None => 0 | Some (ExitCode _ _ code) => code | Some (PlainError _) => 1 end.

Definition attempts : nat := 10.

(** Attempt [i] of those left; [ctx i] is ctx.Err() if the context ends in
    the wait after it.  The calls made, the waits, and the error. *)
Fixpoint verify_loop (answers : nat -> verifyAnswer) (ctx : nat -> option error) (fuel i : nat) (lastErr : option error) : nat * list duration * option exit_error :=
  match fuel with
  | O => (0%nat, [], Some (ExitCode "flr: verifying the runner with GitLab" lastErr exitVerifyFailed))
  | S fuel =>
      match answers i with
      | Verified => (1%nat, [], None)
      | Rejected => (1%nat, [], Some (ExitCode "flr: GitLab rejected the runner authentication token (403 Forbidden)" None exitVerifyFailed))
      | VerifyErr e =>
          match ctx i with
          | Some cerr => (1%nat, [], Some (PlainError cerr))
          | None => let '(calls, waits, r) := verify_loop answers ctx fuel (S i) (Some e) in
                    (S calls, (Z.of_nat i + 1) * second :: waits, r)
          end
      end
  end.
Definition verifyRunner (answers : nat -> verifyAnswer) (ctx : nat -> option error) : nat * list duration * option exit_error :=
  verify_loop answers ctx attempts 0 None.

Lemma verify_loop_spec answers ctx fuel i last :
  let '(calls, waits, r) := verify_loop answers ctx fuel i last in
  (calls <= fuel)%nat
  /\ (forall j, (i <= j < i + calls - 1)%nat -> exists e, answers j = VerifyErr e /\ ctx j = None)
  /\ match r with
     | None => (0 < calls)%nat /\ answers (i + calls - 1)%nat = Verified
     | Some (PlainError e) => (0 < calls)%nat /\ (exists e', answers (i + calls - 1)%nat = VerifyErr e') /\ ctx (i + calls - 1)%nat = Some e
     | Some (ExitCode _ _ code) => code = exitVerifyFailed
         /\ ((0 < calls)%nat /\ answers (i + calls - 1)%nat = Rejected
             \/ calls = fuel /\ forall j, (i <= j < i + fuel)%nat -> exists e, answers j = VerifyErr e /\ ctx j = None)
     end.
Proof.
  revert i last. induction fuel as [|fuel IH]; intros i last; cbn [verify_loop].
  { split_and!; [lia| |done|]; [intros j Hj; lia|]. right. split; [done|]. intros j Hj. lia. }
  assert (HS : (i + 1 - 1 = i)%nat) by lia.
  destruct (answers i) as [| |e] eqn:E.
  - split_and!; [lia|intros j Hj; lia|lia|]. by rewrite HS.
  - split_and!; [lia|intros j Hj; lia|done|]. left. split; [lia|]. by rewrite HS.
  - destruct (ctx i) as [cerr|] eqn:EC.
    { split_and!; [lia|intros j Hj; lia|lia|rewrite HS; by exists e|by rewrite HS]. }
    specialize (IH (S i) (Some e)). destruct (verify_loop answers ctx fuel (S i) (Some e)) as [[calls waits] r].
    destruct IH as (H1 & H2 & H3). replace (i + S calls - 1)%nat with (i + calls)%nat by lia. split; [lia|]. split.
    { intros j Hj. destruct (Nat.eq_dec j i) as [->|]; [by exists e|]. apply H2. lia. }
    destruct r as [[msg ce code|e']|].
    + destruct H3 as [-> [[Hc Hr]|[Hc Hr]]]; (split; [done|]); [left|right].
      * split; [lia|]. by replace (i + calls)%nat with (S i + calls - 1)%nat by lia.
      * split; [lia|]. intros j Hj. destruct (Nat.eq_dec j i) as [->|]; [by exists e|]. apply Hr. lia.
    + replace (i + calls)%nat with (S i + calls - 1)%nat by lia. naive_solver lia.
    + replace (i + calls)%nat with (S i + calls - 1)%nat by lia. naive_solver lia.
Qed.

(** Who decided the verification: GitLab at attempt [k], the context in the
    wait after attempt [k], or nobody in [attempts] attempts. *)
Definition undecided (answers : nat -> verifyAnswer) (k : nat) : Prop := forall j, (j < k)%nat -> exists e, answers j = VerifyErr e.

Lemma verifyRunner_spec answers ctx :
  let '(calls, waits, r) := verifyRunner answers ctx in
  (calls <= 10)%nat
  /\ match r with
     | None => exists k, calls = S k /\ answers k = Verified /\ undecided answers k
     | Some (ExitCode _ _ code) => code = 4 /\ ((exists k, calls = S k /\ answers k = Rejected /\ undecided answers k) \/ calls = 10%nat /\ undecided answers 10)
     | Some (PlainError e) => exists k, calls = S k /\ ctx k = Some e /\ undecided answers (S k)
     end.
Proof.
  unfold verifyRunner. pose proof (verify_loop_spec answers ctx attempts 0 None) as H.
  destruct (verify_loop answers ctx attempts 0 None) as [[calls waits] r]. destruct H as (H1 & H2 & H3). split; [done|].
  assert (HU : forall k, calls = S k -> undecided answers k).
  { intros k -> j Hj. destruct (H2 j) as (e & He & _); [lia|by exists e]. }
  destruct r as [[msg ce code|e]|]; simpl in H3.
  - destruct H3 as [-> [[Hc Hr]|[-> Hr]]]; (split; [done|]); [left|right].
    + destruct calls as [|k]; [lia|]. exists k. replace (S k - 1)%nat with k in Hr by lia. auto.
    + split; [done|]. intros j Hj. destruct (Hr j) as (e & He & _); [unfold attempts; lia|]. by exists e.
  - destruct H3 as (Hc & (e' & He') & Hx). destruct calls as [|k]; [lia|]. exists k. replace (S k - 1)%nat with k in * by lia.
    split_and!; [done|done|]. intros j Hj. destruct (Nat.eq_dec j k) as [->|]; [by exists e'|]. apply (HU k); [done|lia].
  - destruct H3 as [Hc Hv]. destruct calls as [|k]; [lia|]. exists k. replace (S k - 1)%nat with k in Hv by lia. auto.
Qed.

(** GitLab refused the token, or could not be asked in ten attempts, before the
    context ended; or it accepted it. *)
Definition token_refused (answers : nat -> verifyAnswer) (ctx : nat -> option error) : Prop :=
  (exists k, (k < 10)%nat /\ answers k = Rejected /\ undecided answers k /\ forall j, (j < k)%nat -> ctx j = None)
  \/ (undecided answers 10 /\ forall j, (j < 10)%nat -> ctx j = None).
Definition token_accepted (answers : nat -> verifyAnswer) (ctx : nat -> option error) : Prop :=
  exists k, (k < 10)%nat /\ answers k = Verified /\ undecided answers k /\ forall j, (j < k)%nat -> ctx j = None.

Lemma decided_once answers ctx : token_refused answers ctx -> token_accepted answers ctx -> False.
Proof.
  intros Hr (k & Hk & Hv & Hu & _). destruct Hr as [(k' & Hk' & Hr & Hu' & _)|[Hu' _]].
  - destruct (lt_eq_lt_dec k k') as [[Hl| ->]|Hl]; [destruct (Hu' k Hl)|..|destruct (Hu k' Hl)]; congruence.
  - destruct (Hu' k Hk). congruence.
Qed.

(** What verifyRunner answers says which it was. *)
Lemma verifyRunner_exact answers ctx :
  match (verifyRunner answers ctx).2 with
  | None => token_accepted answers ctx
  | Some (ExitCode _ _ code) => code = 4 /\ token_refused answers ctx
  | Some (PlainError _) => ~ token_refused answers ctx /\ ~ token_accepted answers ctx
  end.
Proof.
  unfold verifyRunner. pose proof (verify_loop_spec answers ctx attempts 0 None) as H.
  destruct (verify_loop answers ctx attempts 0 None) as [[calls waits] r]. destruct H as (H1 & H2 & H3). simpl.
  assert (HU : forall k, calls = S k -> undecided answers k /\ forall j, (j < k)%nat -> ctx j = None).
  { intros k ->. split; intros j Hj; destruct (H2 j) as (e & He & Hc); [lia|by exists e|lia|done]. }
  unfold attempts in *. destruct r as [[msg ce code|e]|]; simpl in H3.
  - destruct H3 as [-> [[Hc Hr]|[-> Hr]]]; (split; [done|]); [left|right].
    + destruct calls as [|k]; [lia|]. exists k. replace (S k - 1)%nat with k in Hr by lia. destruct (HU k eq_refl). by split_and!.
    + split; intros j Hj; destruct (Hr j) as (e & He & Hcx); [lia|by exists e|lia|done].
  - destruct H3 as (Hc & (e' & He') & Hx). destruct calls as [|k]; [lia|]. replace (S k - 1)%nat with k in * by lia. destruct (HU k eq_refl) as [Hu _].
    assert (HA : forall k', (answers k' = Rejected \/ answers k' = Verified) -> (forall j, (j < k')%nat -> ctx j = None) -> False).
    { intros k' Ha Hn. destruct (lt_eq_lt_dec k k') as [[Hl| ->]|Hl]; [rewrite Hn in Hx by done; done|destruct Ha; congruence|].
      destruct (Hu k' Hl). destruct Ha; congruence. }
    split; [intros [(k' & _ & Hr & _ & Hn)|[_ Hn]]|intros (k' & _ & Hv & _ & Hn)]; [eapply HA; eauto|rewrite Hn in Hx by lia; done|eapply HA; eauto].
  - destruct H3 as [Hc Hv]. destruct calls as [|k]; [lia|]. exists k. replace (S k - 1)%nat with k in Hv by lia. destruct (HU k eq_refl). by split_and!.
Qed.

(** C37: VerifyRunner makes at most ten calls; it succeeds exactly as the
    first answer that is not an error says, exits with status 4 when that
    answer rejects the token or when every attempt failed, and returns the
    context's error when the context ends in between.  Nothing follows a
    decision. *)
Theorem verifyRunner_decides answers ctx :
  let '(calls, waits, r) := verifyRunner answers ctx in
  (calls <= 10)%nat
  /\ match r with
     | None => exists k, calls = S k /\ answers k = Verified /\ undecided answers k
     | Some (ExitCode _ _ code) => code = 4 /\ ((exists k, calls = S k /\ answers k = Rejected /\ undecided answers k) \/ calls = 10%nat /\ undecided answers 10)
     | Some (PlainError e) => exists k, calls = S k /\ ctx k = Some e /\ undecided answers (S k)
     end.
Proof. apply verifyRunner_spec. Qed.

(** ** The logger *)
Inductive logLevel := LevelDebug | LevelInfo | LevelWarn | LevelError.
Inductive logHandler := TextHandler | JSONHandler.
Definition newLogger (o : Observability) : logHandler * logLevel :=
  let l := ToLower (ob_LogLevel o) in
  let level := if String.eqb l "debug" then LevelDebug else if String.eqb l "warn" || String.eqb l "warning" then LevelWarn
               else if String.eqb l "error" then LevelError else LevelInfo in
  (if String.eqb (ob_LogFormat o) LogText then TextHandler else JSONHandler, level).

(** ** The Executor's view of the Inventory *)
Definition inventoryView : Type := list HostEntry.
Definition newInventoryView (hosts : list HostEntry) : inventoryView := hosts.
Definition inventory_set (hosts : list HostEntry) (_ : inventoryView) : inventoryView := hosts.
Definition inventory_Host (name : string) (v : inventoryView) : option HostEntry := HostByName v name.

(** ** takeOverStopSignals

    [sg_bits] is the signals that are pending for the process, with whether
    they came from outside: a signal that is pending already is not queued
    again.  [sg_ch] is the buffered channel; a signal that finds it full is
    dropped, as the signal package does.  SIGTERM and SIGINT reach only this
    channel; SIGQUIT also reaches the run loop, which [sg_loop] counts.
    [sg_pending] is the SIGQUITs the goroutine has sent to the process that
    have not arrived yet; [sg_users] counts the stop signals from outside
    that reached the channel, [sg_unsent] the SIGQUITs that could not be
    sent, and [sg_lost] those and the ones that were merged with a pending
    SIGQUIT or dropped. *)
Inductive stopSignal := SIGTERM | SIGINT | SIGQUIT.
#[export] Instance stopSignal_eq_dec : EqDecision stopSignal.
Proof. solve_decision. Defined.

Record signals := {
  sg_bits : list (stopSignal * bool); sg_ch : list stopSignal; sg_relayed : Z; sg_received : Z; sg_pending : Z; sg_provider : providerState;
  sg_loop : Z; sg_users : Z; sg_lost : Z; sg_unsent : Z; sg_done : bool }.
#[export] Instance eta_signals : Eta signals :=
  fun r => {| sg_bits := sg_bits r; sg_ch := sg_ch r; sg_relayed := sg_relayed r; sg_received := sg_received r; sg_pending := sg_pending r;
              sg_provider := sg_provider r; sg_loop := sg_loop r; sg_users := sg_users r; sg_lost := sg_lost r; sg_unsent := sg_unsent r;
              sg_done := sg_done r |}.
Definition signalBuffer : nat := 4.
Definition signals0 (p : providerState) : signals :=
  {| sg_bits := []; sg_ch := []; sg_relayed := 0; sg_received := 0; sg_pending := 0; sg_provider := p; sg_loop := 0; sg_users := 0;
     sg_lost := 0; sg_unsent := 0; sg_done := false |}.

(** A signal is sent to the process: [user] is whether it came from outside. *)
Definition arrive (user : bool) (sig : stopSignal) (st : signals) : signals :=
  if bool_decide (sig ∈ (sg_bits st).*1) then (if user then st else st <| sg_lost := sg_lost st + 1 |>)
  else st <| sg_bits := sg_bits st ++ [(sig, user)] |>.
(** A pending signal is handed to the subscribers. *)
Definition deliver (user : bool) (sig : stopSignal) (st : signals) : signals :=
  let st := if decide (sig = SIGQUIT) then st <| sg_loop := sg_loop st + 1 |> else st in
  if (length (sg_ch st) <? signalBuffer)%nat
  then let st := st <| sg_ch := sg_ch st ++ [sig] |> in if user then st <| sg_users := sg_users st + 1 |> else st
  else if user then st else st <| sg_lost := sg_lost st + 1 |>.

(** The body of the loop for a received signal; [kill] is the error of the
    call that sends SIGQUIT. *)
Definition handle_signal (kill : option error) (sig : stopSignal) (st : signals) : signals :=
  if bool_decide (sig = SIGQUIT) && (0 <? sg_relayed st) then st <| sg_relayed := sg_relayed st - 1 |>
  else
    let st := st <| sg_received := sg_received st + 1 |> in
    if 1 <? sg_received st then st <| sg_provider := AbortAll (sg_provider st) |>
    else
      let st := st <| sg_provider := BeginShutdown (sg_provider st) |> in
      if bool_decide (sig = SIGQUIT) then st
      else let st := st <| sg_relayed := sg_relayed st + 1 |> in
           match kill with
           | Some _ => st <| sg_lost := sg_lost st + 1 |> <| sg_unsent := sg_unsent st + 1 |>
           | None => st <| sg_pending := sg_pending st + 1 |>
           end.

Inductive sigInput := IUser (sig : stopSignal) | IRelay | IDeliver (n : nat) | ITake (kill : option error) | ICtxDone.
Definition sig_step (i : sigInput) (st : signals) : option signals :=
  if sg_done st then None else
  match i with
  | IUser sig => Some (arrive true sig st)
  | IRelay => if 0 <? sg_pending st then Some (arrive false SIGQUIT (st <| sg_pending := sg_pending st - 1 |>)) else None
  | IDeliver n => match sg_bits st !! n with
                  | Some (sig, user) => Some (deliver user sig (st <| sg_bits := delete n (sg_bits st) |>))
                  | None => None
                  end
  | ITake kill => match sg_ch st with [] => None | sig :: ch => Some (handle_signal kill sig (st <| sg_ch := ch |>)) end
  | ICtxDone => Some (st <| sg_done := true |>)
  end.
Inductive sig_reachable (p : providerState) : signals -> Prop :=
  | SR0 : sig_reachable p (signals0 p)
  | SRStep i st st' : sig_reachable p st -> sig_step i st = Some st' -> sig_reachable p st'.

Definition quits (l : list stopSignal) : Z := Z.of_nat (length (filter (fun s => s = SIGQUIT) l)).
(** The pending SIGQUITs that the goroutine sent. *)
Definition relays (l : list (stopSignal * bool)) : Z := Z.of_nat (length (filter (fun b => b.2 = false) l)).

(** What has been done to the provider after [n] stop signals. *)
Definition stopped (n : Z) (p : providerState) : providerState :=
  if n =? 0 then p else if n =? 1 then BeginShutdown p else AbortAll (BeginShutdown p).

Record SigInv (p : providerState) (st : signals) : Prop := {
  si_range : 0 <= sg_received st /\ 0 <= sg_relayed st <= 1 /\ 0 <= sg_pending st /\ 0 <= sg_lost st /\ 0 <= sg_loop st /\ 0 <= sg_unsent st;
  si_first : sg_received st = 0 -> sg_relayed st = 0 /\ sg_pending st = 0 /\ relays (sg_bits st) = 0;
  si_provider : sg_provider st = stopped (sg_received st) p;
  si_loop : sg_unsent st = 0 -> 0 < sg_received st -> 0 < sg_loop st \/ 0 < sg_pending st \/ SIGQUIT ∈ (sg_bits st).*1;
  si_quits : quits (sg_ch st) <= sg_loop st;
  si_bits : forall sig, (sig, false) ∈ sg_bits st -> sig = SIGQUIT;
  si_count : sg_users st + sg_relayed st = sg_received st + Z.of_nat (length (sg_ch st)) + sg_pending st + relays (sg_bits st) + sg_lost st;
  si_relay : sg_relayed st <= sg_pending st + relays (sg_bits st) + quits (sg_ch st) + sg_lost st
}.

Lemma AbortAll_idem p : AbortAll (AbortAll p) = AbortAll p.
Proof. unfold AbortAll. destruct (pr_aborted p) eqn:E; simpl; [by rewrite E|done]. Qed.

Lemma stopped_next n p : 0 <= n ->
  stopped (n + 1) p = if 1 <? n + 1 then AbortAll (stopped n p) else BeginShutdown (stopped n p).
Proof.
  intros Hn. unfold stopped. destruct (Z.eqb_spec n 0) as [->|]; [done|]. destruct (Z.eqb_spec (n + 1) 0); [lia|].
  destruct (Z.eqb_spec (n + 1) 1); [lia|]. destruct (Z.ltb_spec 1 (n + 1)); [|lia].
  destruct (Z.eqb_spec n 1); [done|]. by rewrite AbortAll_idem.
Qed.

Lemma quits_app a b : quits (a ++ b) = quits a + quits b.
Proof. unfold quits. rewrite filter_app, length_app. lia. Qed.
Lemma quits_cons s l : quits (s :: l) = (if decide (s = SIGQUIT) then 1 else 0) + quits l.
Proof. unfold quits. rewrite filter_cons. destruct (decide (s = SIGQUIT)); simpl; lia. Qed.
Lemma quits_nonneg l : 0 <= quits l.
Proof. unfold quits. lia. Qed.

Lemma quits_quit : quits [SIGQUIT] = 1.
Proof. done. Qed.
Lemma quits_other s : s <> SIGQUIT -> quits [s] = 0.
Proof. intros H. rewrite quits_cons. by destruct (decide (s = SIGQUIT)). Qed.

Lemma relays_app a b : relays (a ++ b) = relays a + relays b.
Proof. unfold relays. rewrite filter_app, length_app. lia. Qed.
Lemma relays_nonneg l : 0 <= relays l.
Proof. unfold relays. lia. Qed.
Lemma relays_delete (l : list (stopSignal * bool)) (n : nat) sig (user : bool) : l !! n = Some (sig, user) -> relays l = (if user then 0 else 1) + relays (delete n l).
Proof.
  intros Hn. assert (Hp : relays l = relays ((sig, user) :: delete n l)).
  { unfold relays. f_equal. apply Permutation_length. by rewrite <-(delete_Permutation _ _ _ Hn). }
  rewrite Hp. unfold relays. rewrite filter_cons. destruct user; case_decide; simpl in *; done || lia.
Qed.
Lemma quits_length l : quits l <= Z.of_nat (length l).
Proof. unfold quits. pose proof (length_filter (fun s : stopSignal => s = SIGQUIT) l). lia. Qed.

Lemma SigInv_arrive p st sig : SigInv p st -> SigInv p (arrive true sig st).
Proof.
  intros [HN HF HP HL HQ HB HC HR]. unfold arrive. case_bool_decide; [done|]. split; simpl; rewrite ?relays_app; simpl; try done.
  - intros E. destruct (HF E) as (? & ? & ->). done.
  - intros E1 E2. destruct (HL E1 E2) as [?|[?|?]]; [by left|by right; left|right; right]. rewrite fmap_app. set_solver.
  - intros x [?|E]%elem_of_app; [by apply HB|]. apply list_elem_of_singleton in E. done.
  - change (relays [(sig, true)]) with 0. lia.
  - change (relays [(sig, true)]) with 0. lia.
Qed.

Lemma SigInv_relay p st : SigInv p st -> 0 < sg_pending st -> SigInv p (arrive false SIGQUIT (st <| sg_pending := sg_pending st - 1 |>)).
Proof.
  intros [HN HF HP HL HQ HB HC HR] Hp. unfold arrive. simpl. case_bool_decide as Hin.
  - split; simpl; try done; try lia. intros E1 E2. by right; right.
  - split; simpl; rewrite ?relays_app; change (relays [(SIGQUIT, false)]) with 1; try done; try lia.
    + intros E1 E2. right. right. rewrite fmap_app. set_solver.
    + intros x [?|E]%elem_of_app; [by apply HB|]. apply list_elem_of_singleton in E. by injection E.
Qed.

Lemma SigInv_deliver p st n sig user : SigInv p st -> sg_bits st !! n = Some (sig, user) ->
  SigInv p (deliver user sig (st <| sg_bits := delete n (sg_bits st) |>)).
Proof.
  intros [(H1 & H2 & H3 & H4 & H5 & H6) HF HP HL HQ HB HC HR] Hn. pose proof (relays_delete _ _ _ _ Hn) as HD. rewrite HD in *.
  pose proof (relays_nonneg (delete n (sg_bits st))). pose proof (quits_nonneg (sg_ch st)).
  assert (Hu : user = false -> sig = SIGQUIT) by (intros ->; apply HB; by eapply list_elem_of_lookup_2).
  assert (HB' : forall x, (x, false) ∈ delete n (sg_bits st) -> x = SIGQUIT).
  { intros x Hx. apply HB. rewrite (delete_Permutation _ _ _ Hn). by right. }
  assert (HL' : sig <> SIGQUIT -> sg_unsent st = 0 -> 0 < sg_received st -> 0 < sg_loop st \/ 0 < sg_pending st \/ SIGQUIT ∈ (delete n (sg_bits st)).*1).
  { intros Hs E1 E2. destruct (HL E1 E2) as [?|[?|Hin]]; [by left|by right; left|right; right].
    rewrite (fmap_Permutation fst _ _ (delete_Permutation _ _ _ Hn)) in Hin. simpl in Hin. by apply elem_of_cons in Hin as [?|?]. }
  assert (Hq : quits [sig] = if decide (sig = SIGQUIT) then 1 else 0) by (rewrite quits_cons; change (quits []) with 0; lia).
  unfold deliver. destruct (decide (sig = SIGQUIT)) as [Hs|Hs]; cbn [sg_ch sg_loop set_field]; simpl;
    destruct (Nat.ltb_spec (length (sg_ch st)) signalBuffer); destruct user; try (by specialize (Hu eq_refl));
    (split; simpl; rewrite ?quits_app, ?length_app, ?Hq; simpl; try done; try lia; try (by intros _ _; left; lia); try (by apply HL')).
Qed.

Lemma SigInv_take p st sig ch kill : SigInv p st -> sg_ch st = sig :: ch -> SigInv p (handle_signal kill sig (st <| sg_ch := ch |>)).
Proof.
  intros [(H1 & H2 & H3 & H4 & H5 & H6) HF HP HL HQ HB HC HR] Hch. rewrite Hch, quits_cons in HQ, HR. rewrite Hch in HC. simpl in HC.
  pose proof (quits_nonneg ch) as Hq0. pose proof (relays_nonneg (sg_bits st)). unfold handle_signal. rec_simpl.
  pose proof (stopped_next (sg_received st) p H1) as HS.
  destruct (bool_decide_reflect (sig = SIGQUIT)) as [->|Hq]; [rewrite decide_True in HQ, HR by done|rewrite decide_False in HQ, HR by done]; simpl.
  - destruct (Z.ltb_spec 0 (sg_relayed st)).
    + split; simpl; try done; lia.
    + destruct (Z.ltb_spec 1 (sg_received st + 1)); simpl; (split; simpl; rewrite ?HP, ?HS; try done; try lia; intros; left; lia).
  - destruct (Z.ltb_spec 1 (sg_received st + 1)); simpl.
    + split; simpl; rewrite ?HP, ?HS; try done; try lia. intros E1 E2. apply HL; lia.
    + destruct (HF ltac:(lia)) as (F1 & F2 & F3). destruct kill; simpl; (split; simpl; rewrite ?HP, ?HS; try done; lia).
Qed.

Lemma SigInv_reachable p st : sig_reachable p st -> SigInv p st.
Proof.
  induction 1 as [|i st st' _ IH Hs].
  - split; simpl; try done; try lia. by intros sig ?%elem_of_nil.
  - unfold sig_step in Hs. destruct (sg_done st); [done|]. destruct i as [sig| |n|kill|].
    + injection Hs as <-. by apply SigInv_arrive.
    + destruct (Z.ltb_spec 0 (sg_pending st)); [|done]. injection Hs as <-. by apply SigInv_relay.
    + destruct (sg_bits st !! n) as [[sig user]|] eqn:E; [|done]. injection Hs as <-. by apply SigInv_deliver.
    + destruct (sg_ch st) as [|sig ch] eqn:E; [done|]. injection Hs as <-. by apply SigInv_take.
    + injection Hs as <-. destruct IH. by split.
Qed.

(** C16: the stop signals.  In every interleaving of arriving signals, of which
    equal pending ones are merged, the relayed SIGQUIT and the goroutine: the
    provider is untouched before the first stop signal is handled, begins its
    shutdown at the first one and cancels every Job from the second one on;
    after the first one, unless the call that sends SIGQUIT failed, the run
    loop has been told to stop or a SIGQUIT that tells it is on its way; no
    stop is counted that did not come from outside, so the relayed SIGQUIT is
    never taken for a second request; and, when the relayed SIGQUIT was not
    merged with one from outside, dropped or unsent, then once nothing is on
    its way every signal from outside that reached the channel has been
    counted. *)
Theorem stop_signals p st : sig_reachable p st ->
  sg_provider st = stopped (sg_received st) p
  /\ (sg_unsent st = 0 -> 0 < sg_received st -> 0 < sg_loop st \/ 0 < sg_pending st \/ SIGQUIT ∈ (sg_bits st).*1)
  /\ sg_received st <= sg_users st
  /\ (sg_lost st = 0 -> sg_bits st = [] -> sg_ch st = [] -> sg_pending st = 0 -> sg_received st = sg_users st).
Proof.
  intros [HN HF HP HL HQ HB HC HR]%SigInv_reachable. pose proof (quits_length (sg_ch st)). split_and!; [done|done|lia|].
  intros Hl Hb Hc Hp. rewrite Hl, Hb, Hc, Hp in HC, HR. change (relays []) with 0 in *. change (quits []) with 0 in *. simpl in *. lia.
Qed.

Fixpoint sig_steps (is_ : list sigInput) (st : signals) : option signals :=
  match is_ with [] => Some st | i :: r => match sig_step i st with Some st => sig_steps r st | None => None end end.
Lemma sig_steps_reachable p is_ st st' : sig_reachable p st -> sig_steps is_ st = Some st' -> sig_reachable p st'.
Proof.
  revert st. induction is_ as [|i r IH]; intros st Hr; simpl; [by intros [= <-]|].
  destruct (sig_step i st) as [st1|] eqn:E; [|done]. apply IH. by eapply SRStep.
Qed.

(** A user sends SIGTERM and then SIGQUIT, which overtakes the relayed one. *)
Definition demo_started : providerState :=
  match NewProvider demo_deps [WithLifecycle] with Ok p => Init p | Err _ =>
    {| pr_conf := dp_conf demo_deps; pr_lifecycle := false; pr_initHook := false; pr_runCancel := None; pr_runs := []; pr_hooks_run := 0;
       pr_abort := 0; pr_chans := chans0; pr_aborted := false |} end.
Definition demo_signals : list sigInput := [IUser SIGTERM; IDeliver 0; ITake None; IUser SIGQUIT; IDeliver 0; IRelay; IDeliver 0; ITake None; ITake None].
Definition demo_stopped : signals := default (signals0 demo_started) (sig_steps demo_signals (signals0 demo_started)).

(** A second request by SIGQUIT that is merged with the relayed one is taken
    for it: the user has to ask again. *)
Example merged_second_stop :
  let st := default (signals0 demo_started) (sig_steps [IUser SIGTERM; IDeliver 0; ITake None; IUser SIGQUIT; IRelay; IDeliver 0; ITake None] (signals0 demo_started)) in
  (sg_users st, sg_received st, sg_lost st) = (2, 1, 1).
Proof. vm_compute. reflexivity. Qed.

Lemma stop_signals_witness : sig_reachable demo_started demo_stopped /\ sg_received demo_stopped = sg_users demo_stopped /\ sg_users demo_stopped = 2
  /\ pr_aborted (sg_provider demo_stopped) = true.
Proof.
  assert (H : sig_reachable demo_started demo_stopped).
  { apply (sig_steps_reachable demo_started demo_signals (signals0 demo_started)); [constructor|vm_compute; reflexivity]. }
  split; [exact H|]. split; [apply (stop_signals demo_started demo_stopped H); vm_compute; reflexivity|split; vm_compute; reflexivity].
Defined.
