(* ===== verification/FlrRun.v ===== *)
(** * cmd/flr: building the Runner and running it
    (run.go, poolbackend.go, guestaccess.go, main.go, hostservices.go)

    The constructors of the components are the ones of their own files; what
    the file system, Kubernetes, GitLab and the run loop answer are
    arguments.  Every call that opens something that has to be closed, and
    every close, is an event, so that what is left open is what the trace
    opens and does not close. *)
From S2P Require Import Prelude GoModel PoolTypes ConfigTypes GoStrings ConfigImage ConfigDefaults ConfigValidate ConfigThms ConfigValid ConfigLoad SchedTypes Capacity SchedSys ClaimLoop Tracker Health PoolDecl PoolClient Registry Lifecycle HostEnv HostClient Executor Provider AgentHosts ClaimPool ClaimLease RunnerCfg ConfigShow FlrHealth FlrStart.

(** ** poolbackend.go *)
Definition inClusterNamespaceFile : string := "/var/run/secrets/kubernetes.io/serviceaccount/namespace".

Definition kubeNamespace (configured runnerNamespace : string) (readFile : string -> result string) : string :=
  if negb (String.eqb configured "") then configured
  else match readFile inClusterNamespaceFile with
       | Ok data => let ns := TrimSpace data in if negb (String.eqb ns "") then ns else runnerNamespace
       | Err _ => runnerNamespace
       end.

(** What has to be closed, and what is observed. *)
Inductive res := RHealthServer | RClient | RAgents | RHosts.
#[export] Instance res_eq_dec : EqDecision res.
Proof. solve_decision. Defined.
Inductive runEvent := Opened (r : res) | Closed (r : res) | StatusSet | PoolsSet
  | ConfigSaved | TokenAccepted | ReloadsServed | RunLoopFollowed | RunLoop.

(** What is open after a trace, last opened first; none when the trace closes
    something that is not the last one opened. *)
Fixpoint still_open (l : list runEvent) (st : list res) : option (list res) :=
  match l with
  | [] => Some st
  | Opened r :: l => still_open l (r :: st)
  | Closed r :: l => match st with r' :: st => if decide (r = r') then still_open l st else None | [] => None end
  | _ :: l => still_open l st
  end.

Lemma still_open_app l k st : still_open (l ++ k) st = match still_open l st with Some st => still_open k st | None => None end.
Proof. revert st. induction l as [|[r|r| | | | | | |] l IH]; intros st; simpl; try done. destruct st as [|r' st]; [done|]. by case_decide. Qed.

(** ** Filling a fresh registry *)
Lemma Apply_loop_ok dial eps a r :
  Forall (fun ep => e_Name ep <> "" /\ dial ep = None) eps -> NoDup (e_Name <$> eps) -> (forall ep, ep ∈ eps -> ap_next a !! e_Name ep = None) ->
  exists r' a', Apply_loop dial eps a r = (r', inr a') /\ closed r' = closed r.
Proof.
  revert a r. induction eps as [|ep eps IH]; intros a r HF HN Hfree; [by eexists _, _|]. cbn [Apply_loop].
  apply Forall_cons in HF as [[Hne Hd] HF]. rewrite fmap_cons, NoDup_cons in HN. destruct HN as [Hni HN].
  assert (HE : exists r1 a1 e, Apply_endpoint ep (dial ep) a r = (r1, inr a1) /\ ap_next a1 = <[e_Name ep := e]> (ap_next a) /\ closed r1 = closed r).
  { unfold Apply_endpoint. destruct (String.eqb_spec (e_Name ep) ""); [done|]. rewrite (Hfree ep), Hd by left.
    destruct (e ← ap_current a !! e_Name ep; x ← entries r !! e; Some (e, x)) as [[e x]|]; [destruct (decide (hx_ep x = ep))|]; by eexists _, _, _. }
  destruct HE as (r1 & a1 & e & -> & Ha1 & <-). apply IH; [done|done|]. intros ep' Hin. rewrite Ha1, lookup_insert_ne; [apply Hfree; by right|].
  intros E. apply Hni. rewrite E. apply list_elem_of_fmap. by exists ep'.
Qed.

Lemma Apply_fresh dial eps : inventory_ok eps -> (forall ep, ep ∈ eps -> dial ep = None) ->
  exists r, Apply dial eps registry0 = (r, None) /\ forall n, is_Some (Registry.hosts r !! n) <-> n ∈ e_Name <$> eps.
Proof.
  intros Hok Hd. pose proof (Apply_spec Sys0 dial eps (reach_init) eq_refl Hok) as HA. change (reg Sys0) with registry0 in HA.
  destruct (Apply dial eps registry0) as [r [e|]] eqn:E; [|by exists r; split; [|apply HA]]. exfalso. clear HA. destruct Hok as [HF HN].
  revert E. unfold Apply, Apply_begin. cbn [closed registry0].
  destruct (Apply_loop_ok dial eps {| ap_todo := eps; ap_current := Registry.hosts registry0; ap_next := ∅; ap_retired := []; ap_dialled := [] |} registry0)
    as (r' & a' & -> & Hc); [|exact HN|intros ep _; apply lookup_empty|unfold Apply_publish; by rewrite Hc].
  rewrite Forall_forall in *. intros ep Hin. split; auto.
Qed.

Section Build.
Context {CertPool Pair RestConfig : Type}.
(** The file system, crypto/x509, crypto/tls and grpc.NewClient. *)
Context (ReadFile : string -> result string) (AppendCertsFromPEM : string -> option CertPool)
  (LoadX509KeyPair : string -> string -> result Pair) (grpc_NewClient : HostClient.dialled CertPool Pair -> option error).
(** client-go: the configuration inside a pod and of a kubeconfig, the
    clientset, and the scheme and client of the claim backend. *)
Context (InClusterConfig : result RestConfig) (loadKubeconfig : string -> string -> result RestConfig)
  (clientset : RestConfig -> option error) (claim_scheme : option error) (claim_client : RestConfig -> option error).
(** The Node of a Host, as the API server has it. *)
Context (nodeLookup : list HTTPCacheUpstream -> string -> option HostEntry).

Definition kubeRESTConfig (kubeconfig kubeContext : string) : result RestConfig :=
  if String.eqb kubeconfig "" then InClusterConfig else loadKubeconfig kubeconfig kubeContext.

Inductive poolBackend :=
  | BatteryBackend (d : PoolClient.dialOptions (CertPool := CertPool) (Pair := Pair))
  | ClaimBackend (o : Options) (b : Backend).
(** [pc_setProfiles] and [pc_claim]: whether the fields are set. *)
Record poolClient := { pc_Client : poolBackend; pc_setProfiles : bool; pc_claim : bool }.

Definition zeroClaim : ClaimPools :=
  {| cl_Kubeconfig := ""; cl_Context := ""; cl_Namespace := ""; cl_HolderServiceAccount := "";
     cl_ServingCA := {| ca_Namespace := ""; ca_Name := ""; ca_Key := "" |} |}.

Definition newClaimClient (cfg : Config) : result poolClient :=
  let pm := c_PoolManager cfg in
  let c := default zeroClaim (pm_Claim pm) in
  match kubeRESTConfig (cl_Kubeconfig c) (cl_Context c) with
  | Err e => Err (EWrap "claim pool backend" [e])
  | Ok restConfig =>
      match clientset restConfig with
      | Some e => Err (EWrap "claim pool backend" [e])
      | None =>
          match claim_New true claim_scheme (claim_client restConfig) (c_Profiles cfg)
                  {| o_Namespace := kubeNamespace (cl_Namespace c) (sc_Namespace (c_Scheduler cfg)) ReadFile;
                     o_RunnerName := gl_Name (c_GitLab cfg); o_RunnerNamespace := sc_Namespace (c_Scheduler cfg);
                     o_Holder := cl_HolderServiceAccount c; o_Deadline := pm_Deadline pm |} with
          | Err e => Err (EWrap "claim pool backend" [e])
          | Ok (o, b) => Ok {| pc_Client := ClaimBackend o b; pc_setProfiles := true; pc_claim := true |}
          end
      end
  end.

Definition newPoolClient (cfg : Config) : result poolClient :=
  let pm := c_PoolManager cfg in
  if IsClaim pm then newClaimClient cfg
  else match NewClient ReadFile AppendCertsFromPEM LoadX509KeyPair
               {| cc_Endpoint := pm_Endpoint pm; cc_TLS := pm_TLS pm; cc_Deadline := pm_Deadline pm; cc_KeepaliveTime := 0;
                  cc_KeepaliveTimeout := 0; cc_ReconnectBase := 0; cc_ReconnectMax := 0 |} with
       | Err e => Err (EWrap "pool manager client" [e])
       | Ok d => Ok {| pc_Client := BatteryBackend d; pc_setProfiles := false; pc_claim := false |}
       end.

(** [dialAgent]: [dial] is the answer of the held claim's Dial. *)
Definition dialAgent (leaseID : string) (dial : Z -> option error) (b : Backend) : result Z :=
  match Held leaseID b with
  | None => Err (ENew ("claim pool backend: no claim is held under lease " +:+ leaseID))
  | Some held => match dial held with Some e => Err e | None => Ok held end
  end.

(** ** guestaccess.go *)
Inductive hostDialer := GrpcDialer (g : grpcDialer) | NoHostDialer.
Definition dialHost (d : hostDialer) (ep : Endpoint) : option error :=
  match d with
  | GrpcDialer g => match HostClient.Dial ReadFile AppendCertsFromPEM LoadX509KeyPair grpc_NewClient g ep with Ok _ => None | Err e => Some e end
  | NoHostDialer => Some (ENew ("host " +:+ e_Name ep +:+ ": the runner of a cluster fleet connects to no host"))
  end.

Inductive inventorySource := FromInventory (v : inventoryView) | FromNodes (upstreams : list HTTPCacheUpstream).
Record guestAccess := {
  ga_dialer : hostDialer; ga_endpoints : list Endpoint; ga_inventory : inventorySource; ga_options : list Provider.Option;
  ga_agents : option agentHosts; ga_probe : bool }.

Definition newClaimGuestAccess (cfg : Config) : result guestAccess :=
  match NewAgentHosts true with
  | Err e => Err e
  | Ok agents => Ok {| ga_dialer := NoHostDialer; ga_endpoints := []; ga_inventory := FromNodes (hc_Upstreams (hs_HTTPCache (c_HostServices cfg)));
                       ga_options := [WithAgentExec]; ga_agents := Some agents; ga_probe := true |}
  end.
Definition newGuestAccess (cfg : Config) (client : poolClient) (inv : inventoryView) : result guestAccess :=
  if pc_claim client then newClaimGuestAccess cfg
  else Ok {| ga_dialer := GrpcDialer (newGRPCDialer [WithCallDeadline (sc_HostCallDeadline (c_Scheduler cfg))]);
             ga_endpoints := endpoints (inv_Hosts (c_Inventory cfg)); ga_inventory := FromInventory inv; ga_options := [];
             ga_agents := None; ga_probe := false |}.

(** [ProbeAgent]: the claim the Exec Agent is asked for. *)
Definition probeClaim (a : Allocation) : AgentClaim :=
  {| ac_LeaseID := l_ID (a_Lease a); ac_VMUID := a_VMUID a; ac_Host := hr_Name (a_Host a); ac_Address := hr_Address (a_Host a) |}.

(** ** run.go: newRunner and close *)

Definition access_opened (g : guestAccess) : list runEvent := match ga_agents g with Some _ => [Opened RAgents] | None => [] end.
Definition access_close (g : guestAccess) : list runEvent := match ga_agents g with Some _ => [Closed RAgents] | None => [] end.

(** [flintlock.NewRegistry]: a registry that cannot be filled is closed. *)
Definition NewRegistry (dial : Endpoint -> option error) (eps : list Endpoint) : result registry :=
  match Apply dial eps registry0 with
  | (r, None) => Ok r
  | (_, Some e) => Err e
  end.

(** [poolmgr.NewTracker]'s checks of the clients it is given. *)
Definition newTracker (events admin : bool) : result PoolTracker :=
  if negb events then Err (ENew "poolmgr: tracker needs an Events client")
  else if negb admin then Err (ENew "poolmgr: tracker needs a PoolAdmin client")
  else Ok NewTracker.

Record runner := {
  rn_client : poolClient; rn_hosts : registry; rn_sched : impl; rn_provider : providerState; rn_inventory : inventoryView; rn_access : guestAccess }.

Definition runner_settings (cfg : Config) : Settings :=
  {| set_RunnerName := gl_Name (c_GitLab cfg); set_Namespace := sc_Namespace (c_Scheduler cfg); set_Slots := gl_Concurrent (c_GitLab cfg);
     set_ShutdownTimeout := gl_ShutdownTimeout (c_GitLab cfg); set_Scheduler := c_Scheduler cfg; set_PoolManager := c_PoolManager cfg |}.

Definition provider_deps (cfg : Config) (access : guestAccess) : deps :=
  {| dp_Scheduler := true; dp_Transports := true; dp_Hosts := true;
     dp_conf := {| pv_Timeouts := {| to_Prepare := ex_PrepareTimeout (c_Executor cfg); to_GracefulKill := ex_GracefulKillTimeout (c_Executor cfg);
                                     to_Transport := ex_TransportDeadline (c_Executor cfg) |};
                   pv_KeepOnFailure := sc_KeepOnFailure (c_Scheduler cfg); pv_CacheConfigured := bool_decide (is_Some (c_DistributedCache cfg));
                   pv_transport := ""; pv_agents := false; pv_httpCacheVars := ∅; pv_Env := Some (c_HostServices cfg);
                   pv_Inventory := Some (match ga_inventory access with
                                         | FromInventory v => fun name => inventory_Host name v
                                         | FromNodes us => nodeLookup us
                                         end) |} |}.

(** The events up to the return, and what is returned. *)
Definition newRunner (cfg : Config) : list runEvent * result runner :=
  let pm := c_PoolManager cfg in
  match newPoolClient cfg with
  | Err e => ([], Err e)
  | Ok client =>
      let opened := [Opened RClient] in
      match NewHealth {| hc_Admin := true; hc_Backoff := None; hc_Interval := pm_HealthInterval pm;
                         hc_FailureThreshold := pm_HealthFailureThreshold pm; hc_UnhealthyFor := pm_HealthBackoff pm |} with
      | Err e => (opened ++ [Closed RClient], Err e)
      | Ok _ =>
      match newTracker true true with
      | Err e => (opened ++ [Closed RClient], Err e)
      | Ok _ =>
          let inv := newInventoryView (inv_Hosts (c_Inventory cfg)) in
          match newGuestAccess cfg client inv with
          | Err e => (opened ++ [Closed RClient], Err e)
          | Ok access =>
              let opened := opened ++ access_opened access in
              match NewRegistry (dialHost (ga_dialer access)) (ga_endpoints access) with
              | Err e => (opened ++ access_close access ++ [Closed RClient], Err (EWrap "host registry" [e]))
              | Ok hosts =>
                  let opened := opened ++ [Opened RHosts] in
                  let close := [Closed RHosts] ++ access_close access ++ [Closed RClient] in
                  match Lifecycle.New {| dep_PoolManager := true; dep_Specs := true; dep_HostSelector := true; dep_Declarer := true;
                                         dep_Tracker := true; dep_Health := true; dep_Hosts := true |}
                          (runner_settings cfg) (c_Profiles cfg) (inv_Hosts (c_Inventory cfg)) with
                  | Err e => (opened ++ close, Err e)
                  | Ok sched =>
                      match NewProvider (provider_deps cfg access)
                              ([WithLifecycle; WithUpstreams (hc_Upstreams (hs_HTTPCache (c_HostServices cfg))); WithInitHook] ++ ga_options access) with
                      | Err e => (opened ++ close, Err e)
                      | Ok provider => (opened, Ok {| rn_client := client; rn_hosts := hosts; rn_sched := sched; rn_provider := provider;
                                                      rn_inventory := inv; rn_access := access |})
                      end
                  end
              end
          end
      end
      end
  end.

Definition runner_close (r : runner) : list runEvent := [Closed RHosts] ++ access_close (rn_access r) ++ [Closed RClient].

(** ** run.go: runRunner, and main.go *)
(** loadConfig: a configuration that does not load exits 2. *)
Definition loadConfig (loaded : load_error + Config) : exit_error + Config :=
  match loaded with
  | inl (LoadFailed e) => inl (ExitCode "config" (Some e) exitInvalidConfig)
  | inl (LoadInvalid _) => inl (ExitCode "config" (Some (ESentinel ConfigErrInvalid)) exitInvalidConfig)
  | inr cfg => inr cfg
  end.

(** What happens around the calls of `run`: the answers of MkdirAll, the
    identifier file, the listener, SaveConfig, GitLab, and the run loop with
    what app.Run returned. *)
Record runInputs := {
  in_mkdir : option error; in_rnd : nat -> result Z; in_write : option (error * file); in_idFile : file;
  in_listen : option error; in_newConfig : commonConfig; in_now : time; in_save : option error;
  in_verify : nat -> verifyAnswer; in_ctx : nat -> option error; in_listeners : result (gset Z); in_app : option exit_error }.

Context (url_Parse : string -> option URL).

(** After newRunner; [None] in the identifier is the panic that
    [systemID_typed] excludes. *)
Definition run_loop (i : runInputs) (cfg : Config) (systemID : string) : list runEvent * option exit_error :=
  match RunnerCfg.Build url_Parse (in_newConfig i) (in_now i) (Some cfg) systemID with
  | Err e => ([], Some (ExitCode "" (Some e) exitInvalidConfig))
  | Ok rcfg =>
      let rcfg := rcfg <| cm_ListenAddress := runLoopMetricsAddr |> in
      match in_save i with
      | Some e => ([], Some (ExitCode "writing" (Some e) 1))
      | None =>
          match verifyRunner (in_verify i) (in_ctx i) with
          | (_, _, Some e) => ([ConfigSaved], Some e)
          | (_, _, None) =>
              ([ConfigSaved; TokenAccepted; ReloadsServed] ++ (match in_listeners i with Ok _ => [RunLoopFollowed] | Err _ => [] end) ++ [RunLoop], in_app i)
          end
      end
  end.

Definition runRunner (loaded : load_error + Config) (i : runInputs) : option (list runEvent * option exit_error) :=
  match loadConfig loaded with
  | inl e => Some ([], Some e)
  | inr cfg =>
      match in_mkdir i with
      | Some e => Some ([], Some (ExitCode "creating state directory" (Some e) 1))
      | None =>
          match loadSystemID (in_rnd i) (in_write i) (in_idFile i) with
          | None => None
          | Some (_, Err e) => Some ([], Some (ExitCode "" (Some e) 1))
          | Some (_, Ok systemID) =>
              match newHealthServer (in_listen i) with
              | Err e => Some ([], Some (ExitCode "" (Some e) 1))
              | Ok _ =>
                  Some (let '(ev, r) :=
                          match newRunner cfg with
                          | (ev, Err e) => (ev, Some (ExitCode "" (Some e) 1))
                          | (ev, Ok r) =>
                              let ready := [StatusSet] ++ (if pc_claim (rn_client r) then [PoolsSet] else []) in
                              let '(ev', x) := run_loop i cfg systemID in (ev ++ ready ++ ev' ++ runner_close r, x)
                          end in
                        ([Opened RHealthServer] ++ ev ++ [Closed RHealthServer], r))
              end
          end
      end
  end.

(** ** hostservices.go: the Host Agent's command *)
(** [name] is the --host-node flag; [run] is what hostservices.Run returned. *)
Definition runHostServices (decoded : result AgentConfig) (name : string) (inCluster : result RestConfig) (fromFile : string -> result RestConfig)
    (kube : RestConfig -> option error) (run : AgentConfig -> option error) : option exit_error :=
  match agent_LoadConfig decoded (Some (fun cfg => if negb (String.eqb name "") then cfg <| ag_HostNode := name |> else cfg)) with
  | Err e => Some (ExitCode "" (Some e) exitInvalidConfig)
  | Ok cfg =>
      match (if String.eqb (ag_Kubeconfig cfg) "" then inCluster else fromFile (ag_Kubeconfig cfg)) with
      | Err e => Some (ExitCode "host-services" (Some e) 1)
      | Ok restConfig =>
          match kube restConfig with
          | Some e => Some (ExitCode "host-services: building the Kubernetes client" (Some e) 1)
          | None => PlainError <$> run cfg
          end
      end
  end.

(** ** What newRunner opens and closes *)
Definition opened_by (access : guestAccess) : list res := [RHosts] ++ (match ga_agents access with Some _ => [RAgents] | None => [] end) ++ [RClient].

Lemma newRunner_trace cfg st :
  match newRunner cfg with
  | (ev, Err _) => still_open ev st = Some st /\ RunLoop ∉ ev /\ TokenAccepted ∉ ev /\ ConfigSaved ∉ ev
  | (ev, Ok r) => still_open ev st = Some (opened_by (rn_access r) ++ st) /\ RunLoop ∉ ev /\ TokenAccepted ∉ ev /\ ConfigSaved ∉ ev
                  /\ forall st, still_open (runner_close r) (opened_by (rn_access r) ++ st) = Some st
  end.
Proof.
  unfold newRunner, newTracker, NewHealth. cbn [hc_Admin negb]. destruct (newPoolClient cfg) as [client|e]; [|by split; [|set_solver]].
  destruct (newGuestAccess cfg client _) as [access|e]; [|split; [done|set_solver]].
  destruct (NewRegistry _ _) as [hosts|e].
  2:{ unfold access_opened, access_close. destruct (ga_agents access); (split; [done|set_solver]). }
  destruct (Lifecycle.New _ _ _ _) as [sched|e].
  2:{ unfold access_opened, access_close. destruct (ga_agents access); (split; [done|set_solver]). }
  destruct (NewProvider _ _) as [provider|e].
  2:{ unfold access_opened, access_close. destruct (ga_agents access); (split; [done|set_solver]). }
  unfold access_opened, runner_close, opened_by, access_close. simpl.
  destruct (ga_agents access); (split; [done|]); (split; [set_solver|]); (split; [set_solver|]); (split; [set_solver|]); done.
Qed.

(** The status of a run whose run loop does not start. *)
Definition refusal (i : runInputs) (ev : list runEvent) (x : option exit_error) : Prop :=
  (exit_status x = 1 \/ exit_status x = 4)
  /\ (exit_status x = 4 <-> ConfigSaved ∈ ev /\ token_refused (in_verify i) (in_ctx i))
  /\ (ConfigSaved ∈ ev -> ~ token_accepted (in_verify i) (in_ctx i)).

Lemma run_loop_spec i cfg systemID st : Validate url_Parse cfg = [] ->
  let '(ev, x) := run_loop i cfg systemID in
  still_open ev st = Some st
  /\ ((ev = [ConfigSaved; TokenAccepted; ReloadsServed] ++ (match in_listeners i with Ok _ => [RunLoopFollowed] | Err _ => [] end) ++ [RunLoop] /\ x = in_app i /\ token_accepted (in_verify i) (in_ctx i))
      \/ (RunLoop ∉ ev /\ TokenAccepted ∉ ev /\ refusal i ev x)).
Proof.
  intros HV. unfold run_loop. destruct (Build_valid url_Parse (in_newConfig i) (in_now i) cfg systemID HV) as (out & r & -> & _).
  destruct (in_save i) as [e|]; [split; [done|]; right; split_and!; [set_solver..|]; split_and!; [by left|split; [done|intros [?%elem_of_nil _]; done]|by intros ?%elem_of_nil]|].
  pose proof (verifyRunner_exact (in_verify i) (in_ctx i)) as H. destruct (verifyRunner (in_verify i) (in_ctx i)) as [[calls waits] [x|]]; (split; [by destruct (in_listeners i)|]).
  - right. split_and!; [set_solver..|]. destruct x as [msg ce code|e]; simpl in H.
    + destruct H as [-> H]. split_and!; [by right|split; [intros _; split; [by left|done]|done]|]. intros _ Ha. by eapply decided_once.
    + destruct H as [H1 H2]. split_and!; [by left|split; [done|by intros [_ ?]]|done].
  - by left.
Qed.

(** The run loop does not start: the status is 2 exactly for a configuration
    that does not load, 4 exactly when the configuration was written and then
    the token refused or not verified in ten attempts, and else 1. *)
Definition not_run (loaded : load_error + Config) (i : runInputs) (ev : list runEvent) (x : option exit_error) : Prop :=
  RunLoop ∉ ev /\ TokenAccepted ∉ ev
  /\ (exit_status x = 2 <-> exists e, loaded = inl e) /\ (exit_status x = 2 -> ev = [])
  /\ (exit_status x = 4 <-> ConfigSaved ∈ ev /\ token_refused (in_verify i) (in_ctx i))
  /\ (exit_status x = 1 \/ exit_status x = 2 \/ exit_status x = 4)
  /\ (ConfigSaved ∈ ev -> ~ token_accepted (in_verify i) (in_ctx i)).

Lemma early_failure cfg i ev x : RunLoop ∉ ev -> TokenAccepted ∉ ev -> ConfigSaved ∉ ev -> exit_status x = 1 -> not_run (inr cfg) i ev x.
Proof.
  intros H1 H2 H3 Hx. unfold not_run. rewrite Hx. split_and!; try done; [split; [done|by intros [??]]| |by left].
  split; [done|by intros [??]].
Qed.

(** C7: one run of the process, whatever the file system, the Pool Manager
    backend, GitLab and the run loop answer.  Everything that was opened --
    the health server, the backend client, the Exec Agent clients, the Host
    connections -- is closed by the time `run` returns, each once and in
    reverse order; the run loop starts, and only then can a Job be requested,
    if and only if GitLab accepted the token after the configuration was
    written, and its status is then the process's; a configuration that does
    not load exits 2 with nothing opened, a rejected or unverifiable token
    exits 4, and every other failure exits 1. *)
Theorem run_lifecycle hostname GOARCH env readFile Join decodeConfig decodeInventory path dir i :
  rand_range (in_rnd i) ->
  let loaded := Load url_Parse hostname GOARCH env readFile Join decodeConfig decodeInventory path dir in
  exists ev x, runRunner loaded i = Some (ev, x)
    /\ still_open ev [] = Some []
    /\ ((exists pre mid post, ev = pre ++ [ConfigSaved; TokenAccepted] ++ mid ++ [RunLoop] ++ post /\ x = in_app i
           /\ RunLoop ∉ pre ++ mid ++ post /\ token_accepted (in_verify i) (in_ctx i))
        \/ not_run loaded i ev x).
Proof.
  intros HR loaded. unfold runRunner. destruct loaded as [le|cfg] eqn:EL.
  { assert (HE : exists e, loadConfig (inl le) = inl e /\ exit_status (Some e) = 2) by (destruct le; by eexists).
    destruct HE as (e & -> & HE). eexists _, _. split; [reflexivity|]. split; [done|]. right. unfold not_run. rewrite HE. split_and!; set_solver. }
  cbn [loadConfig]. assert (HV : Validate url_Parse cfg = []) by (by eapply Load_valid).
  destruct (in_mkdir i) as [e|]; [eexists _, _; split; [reflexivity|]; split; [done|]; right; apply early_failure; set_solver|].
  destruct (loadSystemID_spec (in_rnd i) (in_write i) (in_idFile i) HR) as (f' & r & -> & _).
  destruct r as [systemID|e]; [|eexists _, _; split; [reflexivity|]; split; [done|]; right; apply early_failure; set_solver].
  destruct (newHealthServer (in_listen i)) as [h|e]; [|eexists _, _; split; [reflexivity|]; split; [done|]; right; apply early_failure; set_solver].
  pose proof (newRunner_trace cfg [RHealthServer]) as HT. destruct (newRunner cfg) as [ev [r|e]].
  - destruct HT as (H1 & H2 & H3 & HT5 & H4). pose proof (run_loop_spec i cfg systemID (opened_by (rn_access r) ++ [RHealthServer]) HV) as HL.
    destruct (run_loop i cfg systemID) as [ev' x]. destruct HL as [HL HC].
    assert (HN : RunLoop ∉ runner_close r /\ TokenAccepted ∉ runner_close r).
    { unfold runner_close, access_close. destruct (ga_agents (rn_access r)); set_solver. }
    set (ready := [StatusSet] ++ (if pc_claim (rn_client r) then [PoolsSet] else [])).
    assert (HO : forall st, still_open ready st = Some st) by (intros; unfold ready; by destruct (pc_claim (rn_client r))).
    assert (HN5 : ConfigSaved ∉ runner_close r) by (unfold runner_close, access_close; destruct (ga_agents (rn_access r)); set_solver).
    assert (Hr5 : ConfigSaved ∉ ready) by (unfold ready; destruct (pc_claim (rn_client r)); set_solver).
    assert (Hr : RunLoop ∉ ready /\ TokenAccepted ∉ ready) by (unfold ready; destruct (pc_claim (rn_client r)); set_solver).
    eexists _, _. split; [reflexivity|]. split.
    { cbn [app still_open]. rewrite still_open_app, still_open_app, H1. cbn iota. rewrite still_open_app, HO. cbn iota. by rewrite still_open_app, HL, H4. }
    destruct HC as [(-> & -> & HK)|(Hn1 & Hn2 & HS)].
    + left. exists ([Opened RHealthServer] ++ ev ++ ready), ([ReloadsServed] ++ match in_listeners i with Ok _ => [RunLoopFollowed] | Err _ => [] end), (runner_close r ++ [Closed RHealthServer]).
      split; [clearbody ready; destruct (in_listeners i); rewrite <-!app_assoc; simpl; by rewrite <-?app_assoc|]. split_and!; [done| |done]. destruct (in_listeners i); set_solver.
    + right. set (evs := [Opened RHealthServer] ++ _ ++ _).
      assert (Hin : ConfigSaved ∈ evs <-> ConfigSaved ∈ ev').
      { unfold evs. clear -HN5 Hr5 HT5. set_solver. }
      destruct HS as (Hs & H4x & Hna). unfold not_run. rewrite Hin.
      split_and!; [unfold evs; clear -HN Hr H2 Hn1; set_solver|unfold evs; clear -HN Hr H3 Hn2; set_solver|split; [|by intros [??]]; destruct Hs as [-> | ->]; done
                  |destruct Hs as [-> | ->]; done|done|tauto|done].
  - destruct HT as (H1 & H2 & H3 & H4). eexists _, _. split; [reflexivity|]. split.
    { cbn [app still_open]. by rewrite still_open_app, H1. }
    right. apply early_failure; [clear -H2; set_solver|clear -H3; set_solver|clear -H4; set_solver|done].
Qed.

(** ** The Runner of an accepted configuration *)
Lemma present_ne s : present s = true -> s <> "".
Proof. intros H ->. done. Qed.

Lemma endpoints_ok cfg : Validate url_Parse cfg = [] -> IsClaim (c_PoolManager cfg) = false -> inventory_ok (endpoints (inv_Hosts (c_Inventory cfg))).
Proof.
  intros [_ _ _ _ _ _ HI _ _ _ _ _ _ _ _ _]%Validate_nil Hb. unfold inventory_rules in HI. rewrite Hb in HI. destruct HI as (_ & HF & HN & _). unfold endpoints. split.
  - rewrite Forall_fmap. eapply Forall_impl; [exact HF|]. intros h Hh. simpl. by apply present_ne, (ConfigThms.hr_name cfg).
  - by rewrite <-list_fmap_compose.
Qed.

Lemma newPoolClient_claim cfg client : newPoolClient cfg = Ok client -> pc_claim client = IsClaim (c_PoolManager cfg).
Proof.
  unfold newPoolClient. destruct (IsClaim (c_PoolManager cfg)).
  - unfold newClaimClient. repeat (case_match; try done). by intros [= <-].
  - case_match; [|done]. by intros [= <-].
Qed.

(** What the Hosts of the Inventory are dialled with. *)
Definition batteryDialer (cfg : Config) : hostDialer := GrpcDialer (newGRPCDialer [WithCallDeadline (sc_HostCallDeadline (c_Scheduler cfg))]).

Record runner_ok (cfg : Config) (client : poolClient) (r : runner) : Prop := {
  ro_client : rn_client r = client;
  ro_slots : set_Slots (im_set (rn_sched r)) = gl_Concurrent (c_GitLab cfg) /\ 0 < gl_Concurrent (c_GitLab cfg);
  ro_state : im_state (rn_sched r) = stateNew;
  ro_life : pr_lifecycle (rn_provider r) = true /\ pr_initHook (rn_provider r) = true;
  ro_access :
    if IsClaim (c_PoolManager cfg)
    then Registry.hosts (rn_hosts r) = ∅ /\ next_client (rn_hosts r) = 0 /\ ga_probe (rn_access r) = true
         /\ (forall ep, dialHost (ga_dialer (rn_access r)) ep <> None) /\ pv_transport (pr_conf (rn_provider r)) = KindAgentExec
    else (forall h, h ∈ inv_Hosts (c_Inventory cfg) -> is_Some (Registry.hosts (rn_hosts r) !! he_Name h))
         /\ ga_agents (rn_access r) = None /\ pv_transport (pr_conf (rn_provider r)) = ""
         /\ pv_Inventory (pr_conf (rn_provider r)) = Some (fun name => HostByName (inv_Hosts (c_Inventory cfg)) name)
}.

Lemma New_accepts cfg d : Validate url_Parse cfg = [] -> checkDeps d = None ->
  exists s, Lifecycle.New d (runner_settings cfg) (c_Profiles cfg) (inv_Hosts (c_Inventory cfg)) = Ok s
    /\ im_set s = runner_settings cfg /\ im_state s = stateNew /\ 0 < gl_Concurrent (c_GitLab cfg).
Proof.
  intros [[_ _ (Hc & _) _] _ _ _ _ _ _ _ _ _ _ _ _ _ _ _]%Validate_nil Hd. unfold Lifecycle.New. rewrite Hd. cbn [set_Slots runner_settings].
  destruct (Z.leb_spec (gl_Concurrent (c_GitLab cfg)) 0); [lia|]. eexists. split; [reflexivity|]. done.
Qed.

(** C13: newRunner builds a Runner from every configuration that the
    validation accepts, as soon as the client of its Pool backend can be made
    and, under battery, the Hosts of the Inventory can be dialled: no check
    of a component refuses what the validation let through.  The Scheduler's
    Slots are the configured concurrency, the same as the run loop's limit.
    Under battery every Host of the Inventory is in the Registry; under the
    claim backend no connection to a Host is made, every attempt to make one
    is refused, and every Job runs over agent-exec. *)
Theorem newRunner_accepts cfg client :
  Validate url_Parse cfg = [] -> newPoolClient cfg = Ok client ->
  (IsClaim (c_PoolManager cfg) = false -> forall ep, ep ∈ endpoints (inv_Hosts (c_Inventory cfg)) -> dialHost (batteryDialer cfg) ep = None) ->
  exists ev r, newRunner cfg = (ev, Ok r) /\ runner_ok cfg client r.
Proof.
  intros HV HC HD. pose proof (newPoolClient_claim cfg client HC) as Hcl.
  unfold newRunner, newTracker, NewHealth. rewrite HC. cbn [hc_Admin negb]. unfold newGuestAccess. rewrite Hcl.
  destruct (New_accepts cfg {| dep_PoolManager := true; dep_Specs := true; dep_HostSelector := true; dep_Declarer := true;
                               dep_Tracker := true; dep_Health := true; dep_Hosts := true |} HV eq_refl) as (s & HN & Hset & Hst & Hpos).
  destruct (IsClaim (c_PoolManager cfg)) eqn:HB.
  - unfold newClaimGuestAccess, NewAgentHosts, NewRegistry. cbn [negb ga_dialer ga_endpoints].
    change (Apply (dialHost NoHostDialer) [] registry0) with (registry0, @None error). cbn iota beta. rewrite HN. eexists _, _. split; [reflexivity|]. split; cbn; rewrite ?Hset, ?HB; try done.
  - destruct (Apply_fresh (dialHost (batteryDialer cfg)) (endpoints (inv_Hosts (c_Inventory cfg))) (endpoints_ok cfg HV HB) (HD eq_refl)) as (reg & HA & Hreg).
    unfold NewRegistry. cbn [ga_dialer ga_endpoints]. fold (batteryDialer cfg). rewrite HA, HN.
    eexists _, _. split; [reflexivity|]. split; cbn; rewrite ?Hset, ?HB; try done.
    split_and!; try done. intros h Hh. apply Hreg. unfold endpoints. rewrite <-list_fmap_compose. apply list_elem_of_fmap. by exists h.
Qed.
End Build.

(** ** The health server over a run *)
Definition health_event (h : healthServer) (e : runEvent) : healthServer :=
  match e with StatusSet => setStatus h | PoolsSet => setPools h | TokenAccepted => tokenVerified h | _ => h end.
Definition health_after (ev : list runEvent) : healthServer :=
  foldl health_event {| hv_verified := false; hv_status := false; hv_pools := false; hv_runLoop := None |} ev.

Lemma health_after_verified ev : hv_verified (health_after ev) = true <-> TokenAccepted ∈ ev.
Proof.
  unfold health_after. set (h0 := {| hv_verified := false |}).
  assert (H : forall ev h, hv_verified (foldl health_event h ev) = true <-> hv_verified h = true \/ TokenAccepted ∈ ev).
  { clear. induction ev as [|e ev IH]; intros h; simpl; [set_solver|]. rewrite IH, elem_of_cons. destruct e; simpl; naive_solver. }
  rewrite H. unfold h0. simpl. naive_solver.
Qed.

(** Whatever the Scheduler and the Pools report, /readyz answers 503 at every
    moment of a run before GitLab accepts the token. *)
Lemma not_ready_before_verified ev v : TokenAccepted ∉ ev -> exists report, serve "/readyz" (health_after ev) v = RReport 503 report.
Proof.
  intros H. exists (readiness (health_after ev) v). change (serve "/readyz" (health_after ev) v) with (serveReadyz (health_after ev) v).
  unfold serveReadyz. destruct (rr_Ready (readiness (health_after ev) v)) eqn:E; [|done].
  apply readiness_iff in E as [E _]. by apply health_after_verified in E.
Qed.

(** ** SIGHUP: the subscriber of the Reloader *)
Section Reload.
Context {Template : Type} (Parse : string -> result Template) (Execute : Template -> string -> result string).
Context {W : Type} `{PoolAdmin W} (env1 env2 : W -> W) (set : Settings).

(** The Inventory view, the claim backend's Profiles where it is the backend,
    and the Scheduler, in that order. *)
Definition onReload (applyErr : option error) (next : Config) (v : inventoryView) (backend : option Backend) (st : declState W)
    : inventoryView * option Backend * declState W * option error :=
  let v := inventory_set (inv_Hosts (c_Inventory next)) v in
  let backend := SetProfiles (c_Profiles next) <$> backend in
  let '(st, err) := PoolDecl.Reload Parse Execute env1 env2 set applyErr (c_Profiles next) (inv_Hosts (c_Inventory next)) st in
  (v, backend, st, err).

Lemma profilesByName_fold ps (m : gmap string ProfileConfig) p : NoDup (p_Name <$> ps) -> p ∈ ps -> foldl (fun m p => <[p_Name p := p]> m) m ps !! p_Name p = Some p.
Proof.
  assert (HK : forall ps (m : gmap string ProfileConfig) k, k ∉ p_Name <$> ps -> foldl (fun m p => <[p_Name p := p]> m) m ps !! k = m !! k).
  { clear. induction ps as [|q ps IH]; intros m k Hk; [done|]. simpl. rewrite fmap_cons, not_elem_of_cons in Hk. destruct Hk as [H1 H2].
    rewrite IH by done. by rewrite lookup_insert_ne by done. }
  revert m. induction ps as [|q ps IH]; intros m HN Hp; [by apply elem_of_nil in Hp|]. rewrite fmap_cons, NoDup_cons in HN. destruct HN as [Hq HN].
  simpl. apply elem_of_cons in Hp as [->|Hp]; [rewrite HK by done; apply lookup_insert_eq|by apply IH].
Qed.

(** After a reload the parts agree on the new configuration, even when the
    Host Registry refuses it: the Executor finds exactly the new Inventory's
    Hosts, the Scheduler has the new Profiles and Inventory, and the claim
    backend knows each of those Profiles by the name the Pools carry. *)
Lemma onReload_agree applyErr next v backend st : NoDup (p_Name <$> c_Profiles next) ->
  let '(v', backend', st', err) := onReload applyErr next v backend st in
  (forall name, inventory_Host name v' = HostByName (inv_Hosts (c_Inventory next)) name)
  /\ d_inventory st' = inv_Hosts (c_Inventory next)
  /\ pr_cfg <$> d_profiles st' = c_Profiles next
  /\ (forall b', backend' = Some b' -> forall p, p ∈ d_profiles st' -> bk_profiles b' !! pr_Name p = Some (pr_cfg p)).
Proof.
  intros HN. unfold onReload. destruct (PoolDecl.Reload _ _ _ _ _ _ _ _ st) as [st' err] eqn:E.
  assert (HS : d_inventory st' = inv_Hosts (c_Inventory next) /\ d_profiles st' = resolveProfiles (c_Profiles next) (set_Namespace set)).
  { revert E. unfold PoolDecl.Reload, declareAll. destruct applyErr; [by intros [= <- _]|]. destruct (fold_left _ _ _) as [t w]. by intros [= <- _]. }
  destruct HS as [H1 H2].
  assert (HP : pr_cfg <$> d_profiles st' = c_Profiles next).
  { rewrite H2. unfold resolveProfiles. rewrite <-list_fmap_compose. apply list_fmap_id. }
  split_and!; [done|done|done|]. intros b' Hb p Hp. destruct backend as [b|]; [|done]. injection Hb as <-. simpl. unfold profilesByName, pr_Name.
  apply profilesByName_fold; [done|]. rewrite <-HP. apply list_elem_of_fmap. by exists p.
Qed.
End Reload.

(** ** main.go: config show, and the notes of hostdocs.go *)
Definition configShow {document} (Marshal : Config -> result document) (Unmarshal : document -> result Config) (encode : value -> result string)
    (write : string -> option error) (loaded : load_error + Config) : exit_error + (error + (option string * option error)) :=
  match loadConfig loaded with inl e => inl e | inr cfg => inr (Show Marshal Unmarshal encode write cfg) end.

Definition hostServicesDoc : string := "docs/host-services.md".
Definition noteSharedLayerCache : string :=
  "The buildkitd layer cache is shared between Jobs on the same Host: a Job can read the layers another Job on that Host produced.".
Definition noteSharedPrivateModules : string :=
  "Private modules cached by a Host's Go module proxy are readable by every Job that runs on that Host.".
Definition printHostServiceNotes (hs : HostServices) : list string :=
  (if IsEnabled (bk_Service (hs_Buildkit hs)) then ["note: " +:+ noteSharedLayerCache +:+ " (" +:+ hostServicesDoc +:+ ")"] else [])
  ++ (if IsEnabled (gp_Service (hs_GoProxy hs)) && (0 <? length (gp_PrivatePatterns (hs_GoProxy hs)))%nat
      then ["note: " +:+ noteSharedPrivateModules +:+ " (" +:+ hostServicesDoc +:+ ")"] else []).

(** ** A concrete run *)
Definition demo_cfg : Config := ApplyDefaults (Ok "runner-1") "amd64" demo_minimal.
Definition no_file (path : string) : result string := Err (ENew ("no file " +:+ path)).
Definition demo_inputs_run (answer : verifyAnswer) : runInputs :=
  {| in_mkdir := None; in_rnd := fun i => Ok (Z.of_nat (i mod 62)); in_write := None; in_idFile := FMissing; in_listen := None;
     in_newConfig := zeroCommon; in_now := 0; in_save := None; in_verify := fun i => match i with O => VerifyErr (ENew "refused") | _ => answer end;
     in_ctx := fun _ => None; in_listeners := Ok {[9252]}; in_app := None |}.
Definition demo_load : load_error + Config :=
  Load demo_url_Parse (Ok "runner-1") "amd64" (fun _ => None) (fun _ => Ok "file") (fun a b => a +:+ "/" +:+ b) (fun _ => Ok demo_minimal) (fun _ => Ok []) "/etc/c.yaml" "/etc".
Definition demo_run (answer : verifyAnswer) : option (list runEvent * option exit_error) :=
  runRunner (CertPool := unit) (Pair := unit) (RestConfig := unit) no_file (fun _ => None) (fun _ _ => Err (ENew "none")) (fun _ => None)
    (Err (ENew "not in a cluster")) (fun _ _ => Err (ENew "none")) (fun _ => None) None (fun _ => None) (fun _ _ => None)
    demo_url_Parse demo_load (demo_inputs_run answer).

Example demo_run_accepted :
  demo_run Verified = Some ([Opened RHealthServer; Opened RClient; Opened RHosts; StatusSet; ConfigSaved; TokenAccepted; ReloadsServed; RunLoopFollowed; RunLoop;
                             Closed RHosts; Closed RClient; Closed RHealthServer], None)
  /\ (exit_status ∘ snd <$> demo_run Rejected) = Some 4.
Proof. split; vm_compute; reflexivity. Qed.

Lemma run_lifecycle_witness :
  rand_range (in_rnd (demo_inputs_run Verified)) /\ exists ev x, demo_run Verified = Some (ev, x) /\ still_open ev [] = Some [].
Proof.
  assert (HR : rand_range (in_rnd (demo_inputs_run Verified))).
  { intros i n [= <-]. pose proof (Nat.mod_upper_bound i 62 ltac:(discriminate)). lia. }
  split; [exact HR|].
  destruct (run_lifecycle (CertPool := unit) (Pair := unit) (RestConfig := unit) no_file (fun _ => None) (fun _ _ => Err (ENew "none")) (fun _ => None)
    (Err (ENew "not in a cluster")) (fun _ _ => Err (ENew "none")) (fun _ => None) None (fun _ => None) (fun _ _ => None)
    demo_url_Parse (Ok "runner-1") "amd64" (fun _ => None) (fun _ => Ok "file") (fun a b => a +:+ "/" +:+ b) (fun _ => Ok demo_minimal) (fun _ => Ok []) "/etc/c.yaml" "/etc"
    (demo_inputs_run Verified) HR) as (ev & x & H1 & H2 & _).
  exists ev, x. split; [exact H1|exact H2].
Defined.

Lemma all_dialled (dial : Endpoint -> option error) eps :
  forallb (fun ep => match dial ep with None => true | Some _ => false end) eps = true -> forall ep, ep ∈ eps -> dial ep = None.
Proof. rewrite forallb_forall. intros H ep Hin%list_elem_of_In%H. by destruct (dial ep). Qed.

Definition demo_client : poolClient (CertPool := unit) (Pair := unit) :=
  match newPoolClient (CertPool := unit) (Pair := unit) (RestConfig := unit) no_file (fun _ => None) (fun _ _ => Err (ENew "none"))
          (Err (ENew "not in a cluster")) (fun _ _ => Err (ENew "none")) (fun _ => None) None (fun _ => None) demo_cfg with
  | Ok c => c
  | Err _ => {| pc_Client := BatteryBackend {| do_Endpoint := ""; do_Creds := CredInsecure; do_KeepaliveTime := 0; do_KeepaliveTimeout := 0; do_BaseDelay := 0;
                                               do_MaxDelay := 0; do_MinConnectTimeout := 0; do_Deadline := 0 |};
               pc_setProfiles := false; pc_claim := false |}
  end.

Lemma newRunner_accepts_witness :
  exists ev r, newRunner (CertPool := unit) (Pair := unit) (RestConfig := unit) no_file (fun _ => None) (fun _ _ => Err (ENew "none")) (fun _ => None)
    (Err (ENew "not in a cluster")) (fun _ _ => Err (ENew "none")) (fun _ => None) None (fun _ => None) (fun _ _ => None) demo_cfg = (ev, Ok r)
    /\ set_Slots (im_set (rn_sched r)) = gl_Concurrent (c_GitLab demo_cfg).
Proof.
  destruct (newRunner_accepts (CertPool := unit) (Pair := unit) (RestConfig := unit) no_file (fun _ => None) (fun _ _ => Err (ENew "none")) (fun _ => None)
    (Err (ENew "not in a cluster")) (fun _ _ => Err (ENew "none")) (fun _ => None) None (fun _ => None) (fun _ _ => None) demo_url_Parse demo_cfg demo_client) as (ev & r & H & Hok).
  - vm_compute. reflexivity.
  - vm_compute. reflexivity.
  - intros _. apply all_dialled. vm_compute. reflexivity.
  - exists ev, r. split; [exact H|apply Hok].
Defined.
