(* ===== verification/Battery.v ===== *)
(** * claimtest: the fake battery behind the claim backend (battery.go)

    The Pool and Claim Controllers of a test, over the Kubernetes API: it
    keeps every Pool at its size, binds Pending claims to warm MicroVMs,
    extends and expires their Leases and reports their Hosts.

    The API server and the Hosts' flintlockds are behind [apis]: the claims
    that are stored, the MicroVMs that exist, and what each call is answered:
    it was done, it was refused, or it was done and the caller still got an
    error.  A write of somebody else between the List of a reconcile and an
    Update of it makes that Update fail, so that a reconcile is one step with
    arbitrary answers.  Two more sets only observe: the MicroVMs that were
    left on a Host by a call that failed, and the claims of which a write was
    done and reported as failed.  Counts of MicroVMs are integers, well below
    2^31. *)
From S2P Require Import Prelude GoModel PoolTypes ConfigTypes GoStrings ClaimPool ClaimLease.

(** ** The resource: battery-operator's MicroVMClaim *)
Inductive claim_phase := PhaseNone | MicroVMClaimPending | MicroVMClaimBound | MicroVMClaimExpired | PhaseOther.
#[export] Instance claim_phase_eq_dec : EqDecision claim_phase.
Proof. solve_decision. Defined.
Record condition := { c_Type : string; c_Status : host_ready; c_Reason : string; c_Message : string }.
#[export] Instance host_ready_eq_dec : EqDecision host_ready.
Proof. solve_decision. Defined.
#[export] Instance condition_eq_dec : EqDecision condition.
Proof. solve_decision. Defined.

Record MicroVMClaim := {
  m_UID : Z; m_Name : string; m_Deleting : bool; m_Pool : string; m_RenewTime : option time;
  m_Phase : claim_phase; m_LeaseID : string; m_MicroVM : option string; m_Host : option (string * string); m_BoundTime : option time;
  m_Observed : option time; m_LeaseExpiresAt : option time; m_Conditions : list condition }.
#[export] Instance eta_MicroVMClaim : Eta MicroVMClaim :=
  fun r => {| m_UID := m_UID r; m_Name := m_Name r; m_Deleting := m_Deleting r; m_Pool := m_Pool r; m_RenewTime := m_RenewTime r;
              m_Phase := m_Phase r; m_LeaseID := m_LeaseID r; m_MicroVM := m_MicroVM r; m_Host := m_Host r; m_BoundTime := m_BoundTime r;
              m_Observed := m_Observed r; m_LeaseExpiresAt := m_LeaseExpiresAt r; m_Conditions := m_Conditions r |}.

(** apimachinery's meta package, as it documents itself: a condition is found
    by its type, and setting one puts it there, touches no other, and says
    whether anything changed. *)
Class StatusConditions := {
  FindStatusCondition : list condition -> string -> option condition;
  SetStatusCondition : list condition -> condition -> list condition * bool }.
Class StatusConditionsLaws `{StatusConditions} : Prop := {
  find_set l c : FindStatusCondition (SetStatusCondition l c).1 (c_Type c) = Some c;
  find_set_ne l c t : c_Type c <> t -> FindStatusCondition (SetStatusCondition l c).1 t = FindStatusCondition l t;
  set_unchanged l c : (SetStatusCondition l c).2 = false -> (SetStatusCondition l c).1 = l }.

Definition ConditionBound : string := "Bound".
Definition ConditionHostReady : string := "HostReady".

(** ** The state *)
Record BHost := { bh_NodeName : string; bh_AgentAddress : string; bh_MicroVMs : bool }.
Record fakePool := { fp_size : Z; fp_warm : Z; fp_leased : Z }.
Record heldVM := { hv_pool : string; hv_host : nat; hv_uid : string }.
Record BPool := { bp_Name : string; bp_Size : Z; bp_Generation : Z; bp_Observed : Z; bp_Available : Z; bp_Leased : Z }.

Record Battery := {
  f_hosts : list BHost; f_pools : gmap string fakePool; f_held : gmap Z heldVM; f_expire : gset string; f_keep : gset string;
  f_notReady : gmap string condition; f_nextID : Z; f_onHost : gmap nat Z; f_pending : gmap string string }.
#[export] Instance eta_Battery : Eta Battery :=
  fun r => {| f_hosts := f_hosts r; f_pools := f_pools r; f_held := f_held r; f_expire := f_expire r; f_keep := f_keep r;
              f_notReady := f_notReady r; f_nextID := f_nextID r; f_onHost := f_onHost r; f_pending := f_pending r |}.

Definition NewBattery (hosts : list BHost) : Battery :=
  {| f_hosts := match hosts with [] => [{| bh_NodeName := "host-1"; bh_AgentAddress := "10.0.0.1:9443"; bh_MicroVMs := false |}] | _ => hosts end;
     f_pools := ∅; f_held := ∅; f_expire := ∅; f_keep := ∅; f_notReady := ∅; f_nextID := 0; f_onHost := ∅; f_pending := ∅ |}.

Definition Battery_Expire (name : string) (f : Battery) : Battery := f <| f_expire := {[name]} ∪ f_expire f |>.
Definition ExpireKeepingMicroVM (name : string) (f : Battery) : Battery :=
  f <| f_expire := {[name]} ∪ f_expire f |> <| f_keep := {[name]} ∪ f_keep f |>.
Definition SetHostNotReady (node reason message : string) (f : Battery) : Battery :=
  f <| f_notReady := <[node := {| c_Type := ConditionHostReady; c_Status := HostReadyFalse; c_Reason := reason; c_Message := message |}]> (f_notReady f) |>.
Definition SetHostReady (node : string) (f : Battery) : Battery := f <| f_notReady := delete node (f_notReady f) |>.

(** ** The API and the Hosts *)
Inductive reply := Done | Refused | Lost.
Record apis := {
  a_claims : gmap Z MicroVMClaim; a_vms : gset (nat * string); a_answers : list reply; a_pools : list BPool;
  a_leaked : gset (nat * string); a_lost : gset Z }.
#[export] Instance eta_apis : Eta apis :=
  fun r => {| a_claims := a_claims r; a_vms := a_vms r; a_answers := a_answers r; a_pools := a_pools r; a_leaked := a_leaked r; a_lost := a_lost r |}.

(** The answer to a call; all that were not given are good ones. *)
Definition answer (w : apis) : apis * reply :=
  match a_answers w with [] => (w, Done) | b :: l => (w <| a_answers := l |>, b) end.
(** [Status().Update] of a claim, which fails also where there is none; whether
    it returned nil. *)
Definition Status_Update (cl : MicroVMClaim) (w : apis) : apis * bool :=
  let '(w, a) := answer w in
  match a, a_claims w !! m_UID cl with
  | Done, Some _ => (w <| a_claims := <[m_UID cl := cl]> (a_claims w) |>, true)
  | Lost, Some _ => (w <| a_claims := <[m_UID cl := cl]> (a_claims w) |> <| a_lost := {[m_UID cl]} ∪ a_lost w |>, false)
  | _, _ => (w, false)
  end.
Definition CreateMicroVM (host : nat) (uid : string) (w : apis) : apis * bool :=
  let '(w, a) := answer w in
  match a with
  | Done => (w <| a_vms := {[(host, uid)]} ∪ a_vms w |>, true)
  | Lost => (w <| a_vms := {[(host, uid)]} ∪ a_vms w |> <| a_leaked := {[(host, uid)]} ∪ a_leaked w |>, false)
  | Refused => (w, false)
  end.
(** The callers drop its error. *)
Definition DeleteMicroVM (host : nat) (uid : string) (w : apis) : apis :=
  let '(w, a) := answer w in
  match a with
  | Done | Lost => w <| a_vms := a_vms w ∖ {[(host, uid)]} |> <| a_leaked := a_leaked w ∖ {[(host, uid)]} |>
  | Refused => w <| a_leaked := {[(host, uid)]} ∪ a_leaked w |>
  end.

(** ** reconcile *)
Definition sizePool (old : option fakePool) (p : BPool) : fakePool :=
  let leased := match old with Some fp => fp_leased fp | None => 0 end in
  {| fp_size := bp_Size p; fp_warm := Z.max (bp_Size p - leased) 0; fp_leased := leased |}.
Definition sized (pools : list BPool) (m : gmap string fakePool) : gmap string fakePool :=
  fold_left (fun m p => <[bp_Name p := sizePool (m !! bp_Name p) p]> m) pools m.
Definition sizePools (pools : list BPool) (f : Battery) : Battery :=
  f <| f_pools := filter (fun kv => kv.1 ∈ (bp_Name <$> pools)) (sized pools (f_pools f)) |>.

Definition release_slot (fp : fakePool) : fakePool :=
  {| fp_size := fp_size fp; fp_leased := fp_leased fp - 1; fp_warm := Z.max (fp_size fp - (fp_leased fp - 1)) 0 |}.
Definition take_slot (fp : fakePool) : fakePool :=
  {| fp_size := fp_size fp; fp_warm := fp_warm fp - 1; fp_leased := fp_leased fp + 1 |}.
Definition on (f : Battery) (h : nat) : Z := default 0 (f_onHost f !! h).

Definition replace (uid : Z) (vm : heldVM) (f : Battery) (w : apis) : Battery * apis :=
  let f := f <| f_held := delete uid (f_held f) |> in
  let w := match f_hosts f !! hv_host vm with
           | Some h => if bh_MicroVMs h then DeleteMicroVM (hv_host vm) (hv_uid vm) w else w
           | None => w
           end in
  let f := f <| f_onHost := <[hv_host vm := on f (hv_host vm) - 1]> (f_onHost f) |> in
  (f <| f_pools := alter release_slot (hv_pool vm) (f_pools f) |>, w).

#[global] Arguments replace : simpl never.

(** [expiry]: what the Get of the Pool answered, and its threshold. *)
Definition expiry (got : option (option duration)) : duration :=
  match got with Some (Some d) => if 0 <? d then d else 30 * second | _ => 30 * second end.

(** The Host with the fewest, the first one of them. *)
Definition fewer (f : Battery) (host i : nat) : nat := if on f i <? on f host then i else host.
Definition leastHost (f : Battery) : nat :=
  fold_left (fewer f) (seq 0 (length (f_hosts f))) 0%nat.

(** What a claim's reconciliation meets: the time, and the Get of its Pool. *)
Record benv := { be_now : time; be_pool : option (option duration) }.

Section Conditions.
Context `{StatusConditions}.

Definition set_condition (c : condition) (cl : MicroVMClaim) : MicroVMClaim := cl <| m_Conditions := (SetStatusCondition (m_Conditions cl) c).1 |>.
Definition bound_condition (st : host_ready) (reason message : string) : condition :=
  {| c_Type := ConditionBound; c_Status := st; c_Reason := reason; c_Message := message |}.

Definition setPending (reason message : string) (cl : MicroVMClaim) (f : Battery) (w : apis) : Battery * apis :=
  let same := match FindStatusCondition (m_Conditions cl) ConditionBound with Some c => String.eqb (c_Reason c) reason | None => false end in
  if bool_decide (m_Phase cl = MicroVMClaimPending) && same then (f, w)
  else
    let cl := set_condition (bound_condition HostReadyFalse reason message) (cl <| m_Phase := MicroVMClaimPending |>) in
    let '(w, ok) := Status_Update cl w in
    (if ok then f <| f_pending := <[m_Name cl := reason]> (f_pending f) |> else f, w).

Definition bound_claim (e : benv) (h : BHost) (n : Z) (cl : MicroVMClaim) : MicroVMClaim :=
  set_condition (bound_condition HostReadyTrue "Bound" "the claim holds a lease")
    (cl <| m_Phase := MicroVMClaimBound |> <| m_LeaseID := "lease-" +:+ Itoa n |> <| m_MicroVM := Some ("microvm-" +:+ Itoa n) |>
        <| m_Host := Some (bh_NodeName h, bh_AgentAddress h) |> <| m_BoundTime := Some (be_now e) |>
        <| m_Observed := m_RenewTime cl |> <| m_LeaseExpiresAt := Some (be_now e + expiry (be_pool e)) |>).

Definition bind (e : benv) (cl : MicroVMClaim) (f : Battery) (w : apis) : Battery * apis :=
  let host := leastHost f in
  match f_hosts f !! host with
  | None => (f, w)   (* there is a Host: NewBattery *)
  | Some h =>
      let n := f_nextID f + 1 in
      let uid := "microvm-" +:+ Itoa n in
      let f := f <| f_nextID := n |> in
      let '(w, created) := if bh_MicroVMs h then CreateMicroVM host uid w else (w, true) in
      if negb created then (f, w)
      else
        let '(w, ok) := Status_Update (bound_claim e h n cl) w in
        if ok then
          (f <| f_pools := alter take_slot (m_Pool cl) (f_pools f) |> <| f_onHost := <[host := on f host + 1]> (f_onHost f) |>
             <| f_held := <[m_UID cl := {| hv_pool := m_Pool cl; hv_host := host; hv_uid := uid |}]> (f_held f) |>, w)
        else (f, if bh_MicroVMs h then DeleteMicroVM host uid w else w)
  end.

Definition expired_claim (cl : MicroVMClaim) : MicroVMClaim :=
  set_condition (bound_condition HostReadyFalse "LeaseExpired" "the lease lapsed") (cl <| m_Phase := MicroVMClaimExpired |>).
Definition renewed_claim (e : benv) (t : time) (cl : MicroVMClaim) : MicroVMClaim :=
  cl <| m_Observed := Some t |> <| m_LeaseExpiresAt := Some (t + expiry (be_pool e)) |>.
Definition lapsed (e : benv) (cl : MicroVMClaim) : bool :=
  match m_LeaseExpiresAt cl with Some t => t <? be_now e | None => false end.

(** The claim as it is left, which markHost goes on with. *)
Definition renew (e : benv) (cl : MicroVMClaim) (f : Battery) (w : apis) : MicroVMClaim * Battery * apis :=
  if bool_decide (m_Name cl ∈ f_expire f) || lapsed e cl then
    let cl := expired_claim cl in
    let '(w, ok) := Status_Update cl w in
    if negb ok then (cl, f, w)
    else
      let f := f <| f_expire := f_expire f ∖ {[m_Name cl]} |> in
      if bool_decide (m_Name cl ∈ f_keep f) then (cl, f <| f_keep := f_keep f ∖ {[m_Name cl]} |>, w)
      else match f_held f !! m_UID cl with
           | Some vm => let '(f, w) := replace (m_UID cl) vm f w in (cl, f, w)
           | None => (cl, f, w)
           end
  else
    match m_RenewTime cl with
    | None => (cl, f, w)
    | Some t => if bool_decide (m_Observed cl = Some t) then (cl, f, w)
                else let cl := renewed_claim e t cl in let '(w, _) := Status_Update cl w in (cl, f, w)
    end.

Definition host_condition (node : string) (f : Battery) : condition :=
  match f_notReady f !! node with
  | Some c => c
  | None => {| c_Type := ConditionHostReady; c_Status := HostReadyTrue; c_Reason := "Ready"; c_Message := "the host is ready" |}
  end.
Definition markHost (cl : MicroVMClaim) (f : Battery) (w : apis) : apis :=
  match m_Host cl with
  | None => w
  | Some (node, _) =>
      let c := host_condition node f in
      if (SetStatusCondition (m_Conditions cl) c).2 then (Status_Update (set_condition c cl) w).1 else w
  end.

Definition reconcileClaim (e : benv) (cl : MicroVMClaim) (f : Battery) (w : apis) : Battery * apis :=
  if m_Deleting cl then (f, w)
  else match m_Phase cl with
       | PhaseNone | MicroVMClaimPending =>
           match f_pools f !! m_Pool cl with
           | None => setPending "PoolNotFound" "the pool does not exist" cl f w
           | Some fp => if fp_warm fp <=? 0 then setPending "PoolExhausted" "the pool has no available microvm" cl f w else bind e cl f w
           end
       | MicroVMClaimBound =>
           let '(cl, f, w) := renew e cl f w in
           (f, if bool_decide (m_Phase cl = MicroVMClaimBound) then markHost cl f w else w)
       | MicroVMClaimExpired | PhaseOther => (f, w)
       end.

Fixpoint reconcileClaims (l : list (benv * MicroVMClaim)) (f : Battery) (w : apis) : Battery * apis :=
  match l with [] => (f, w) | (e, cl) :: l => let '(f, w) := reconcileClaim e cl f w in reconcileClaims l f w end.
Fixpoint sweep (live : gset Z) (l : list (Z * heldVM)) (f : Battery) (w : apis) : Battery * apis :=
  match l with
  | [] => (f, w)
  | (uid, vm) :: l => let '(f, w) := if bool_decide (uid ∈ live) then (f, w) else replace uid vm f w in sweep live l f w
  end.

(** The Pools' statuses that are written. *)
Definition pool_status (f : Battery) (p : BPool) : option BPool :=
  match f_pools f !! bp_Name p with
  | None => None
  | Some fp =>
      if (bp_Observed p =? bp_Generation p) && (bp_Available p =? fp_warm fp) && (bp_Leased p =? fp_leased fp) then None
      else Some {| bp_Name := bp_Name p; bp_Size := bp_Size p; bp_Generation := bp_Generation p; bp_Observed := bp_Generation p;
                   bp_Available := fp_warm fp; bp_Leased := fp_leased fp |}
  end.
Fixpoint writePools (pools : list BPool) (f : Battery) (w : apis) : apis :=
  match pools with
  | [] => w
  | p :: pools =>
      match pool_status f p with
      | None => writePools pools f w
      | Some p' => let '(w, a) := answer w in writePools pools f (match a with Refused => w | _ => w <| a_pools := a_pools w ++ [p'] |> end)
      end
  end.

(** [lists] is what the two Lists answered, if both did. *)
Definition reconcile (lists : option (list BPool * list (benv * MicroVMClaim))) (f : Battery) (w : apis) : Battery * apis :=
  match lists with
  | None => (f, w)
  | Some (pools, claims) =>
      let f := sizePools pools f in
      let live := list_to_set (m_UID <$> claims.*2) : gset Z in
      let '(f, w) := reconcileClaims claims f w in
      let '(f, w) := sweep live (map_to_list (f_held f)) f w in
      (f, writePools pools f w)
  end.
End Conditions.

(** ** The invariant

    [used] are the UIDs the API server has given out, which it never gives
    again.  [steady] is that no Pool was deleted while claims of it were
    held. *)
Definition in_pool (p : string) (vm : heldVM) : bool := String.eqb (hv_pool vm) p.
Definition at_host (h : nat) (vm : heldVM) : bool := Nat.eqb (hv_host vm) h.
Definition heldIn (p : string) (f : Battery) : Z := map_count (in_pool p) (f_held f).
Definition leasedOf (p : string) (f : Battery) : Z := match f_pools f !! p with Some fp => fp_leased fp | None => 0 end.

(** A MicroVM that is held, on a Host with a flintlockd. *)
Definition flint_held (f : Battery) (h : nat) (u : string) : Prop :=
  exists k vm host, f_held f !! k = Some vm /\ hv_host vm = h /\ hv_uid vm = u /\ f_hosts f !! h = Some host /\ bh_MicroVMs host = true.
(** A name that was given to a MicroVM. *)
Definition given (f : Battery) (u : string) : Prop := exists n, n <= f_nextID f /\ u = "microvm-" +:+ Itoa n.

(** A Bound claim holds its MicroVM, or the answer to one of its writes was
    lost. *)
Definition claim_ok (lost : gset Z) (f : Battery) (cl : MicroVMClaim) : Prop :=
  match m_Phase cl with
  | PhaseNone | MicroVMClaimPending => f_held f !! m_UID cl = None
  | MicroVMClaimBound =>
      exists u i h, m_MicroVM cl = Some u /\ given f u /\ f_hosts f !! i = Some h
        /\ m_Host cl = Some (bh_NodeName h, bh_AgentAddress h) /\ is_Some (m_LeaseExpiresAt cl)
        /\ match f_held f !! m_UID cl with
           | Some vm => hv_uid vm = u /\ hv_host vm = i /\ hv_pool vm = m_Pool cl
           | None => m_UID cl ∈ lost
           end
  | MicroVMClaimExpired | PhaseOther => True
  end.

Record BInv (steady : bool) (used : gset Z) (f : Battery) (claims : gmap Z MicroVMClaim) (vms : gset (nat * string))
    (lost : gset Z) (leaked : gset (nat * string)) : Prop := {
  bi_hosts : f_hosts f <> [];
  bi_named : forall k vm, f_held f !! k = Some vm -> k ∈ used /\ (hv_host vm < length (f_hosts f))%nat /\ given f (hv_uid vm);
  bi_distinct : forall k1 k2 v1 v2, f_held f !! k1 = Some v1 -> f_held f !! k2 = Some v2 -> hv_uid v1 = hv_uid v2 -> k1 = k2;
  bi_claims : forall k cl, claims !! k = Some cl -> m_UID cl = k /\ k ∈ used /\ claim_ok lost f cl;
  bi_bound : forall k1 k2 c1 c2, claims !! k1 = Some c1 -> claims !! k2 = Some c2 -> m_Phase c1 = MicroVMClaimBound ->
    m_Phase c2 = MicroVMClaimBound -> m_MicroVM c1 = m_MicroVM c2 -> k1 = k2;
  bi_on : forall h, on f h = map_count (at_host h) (f_held f);
  bi_vms : forall h u, (h, u) ∈ vms <-> flint_held f h u \/ (h, u) ∈ leaked;
  bi_leaked : forall h u, (h, u) ∈ leaked -> given f u /\ forall k vm, f_held f !! k = Some vm -> hv_uid vm <> u;
  bi_pools : forall p fp, f_pools f !! p = Some fp -> fp_warm fp = Z.max (fp_size fp - fp_leased fp) 0 /\ fp_leased fp <= heldIn p f;
  bi_steady : steady = true -> forall p, leasedOf p f = heldIn p f }.

Lemma uid_inj a b : "microvm-" +:+ Itoa a = "microvm-" +:+ Itoa b -> a = b.
Proof. unfold Itoa. intros ?%(inj (String.append "microvm-")). by apply (inj pretty). Qed.

Lemma given_new f u : given f u -> u <> "microvm-" +:+ Itoa (f_nextID f + 1).
Proof. intros (n & Hle & ->) H%uid_inj. lia. Qed.
Lemma given_mono f f' u : f_nextID f <= f_nextID f' -> given f u -> given f' u.
Proof. intros H (n & Hle & ->). exists n. split; [lia|done]. Qed.

Definition same_claims (w w' : apis) : Prop := a_claims w' = a_claims w /\ a_lost w' = a_lost w.
Definition wrote (cl : MicroVMClaim) (w w' : apis) : Prop := is_Some (a_claims w !! m_UID cl) /\ a_claims w' = <[m_UID cl := cl]> (a_claims w).

Lemma Status_Update_spec cl w w' ok : Status_Update cl w = (w', ok) ->
  a_vms w' = a_vms w /\ a_leaked w' = a_leaked w
  /\ (if ok then wrote cl w w' /\ a_lost w' = a_lost w
      else same_claims w w' \/ (wrote cl w w' /\ a_lost w' = {[m_UID cl]} ∪ a_lost w)).
Proof.
  unfold Status_Update, answer, same_claims, wrote. destruct (a_answers w) as [|b l] eqn:Ea; simpl.
  - destruct (a_claims w !! m_UID cl) as [c|] eqn:Ec; intros [= <- <-]; simpl; split_and!; try done. by left.
  - destruct b, (a_claims w !! m_UID cl) eqn:Ec; intros [= <- <-]; simpl; split_and!; try done; (by left) || (by right).
Qed.
(** Whatever the answer was, the claim is as it was or as it was to be. *)
Lemma Status_Update_either cl w w' ok : Status_Update cl w = (w', ok) ->
  a_vms w' = a_vms w /\ a_leaked w' = a_leaked w /\ a_lost w ⊆ a_lost w' /\ (a_claims w' = a_claims w \/ wrote cl w w').
Proof.
  intros (? & ? & H)%Status_Update_spec. split_and!; [done..| |]; destruct ok; unfold same_claims in H; [set_solver|set_solver|naive_solver|naive_solver].
Qed.

Lemma claim_ok_mono lost lost' f cl : lost ⊆ lost' -> claim_ok lost f cl -> claim_ok lost' f cl.
Proof.
  unfold claim_ok. destruct (m_Phase cl); try done. intros Hs (u & i & h & H1 & H2 & H3 & H4 & H5 & H6). exists u, i, h. split_and!; try done.
  destruct (f_held f !! m_UID cl); [done|set_solver].
Qed.
Lemma lost_mono steady used f claims vms lost lost' leaked : lost ⊆ lost' -> BInv steady used f claims vms lost leaked -> BInv steady used f claims vms lost' leaked.
Proof. intros Hs []. split; try done. intros k cl Hk. destruct (bi_claims0 k cl Hk) as (? & ? & ?). split_and!; try done. by eapply claim_ok_mono. Qed.

(** A claim's object changes and what is held does not. *)
Lemma update_inv steady used f claims vms lost leaked cl old : BInv steady used f claims vms lost leaked -> claims !! m_UID cl = Some old -> claim_ok lost f cl ->
  (m_Phase cl = MicroVMClaimBound -> m_Phase old = MicroVMClaimBound /\ m_MicroVM cl = m_MicroVM old) ->
  BInv steady used f (<[m_UID cl := cl]> claims) vms lost leaked.
Proof.
  intros [] Hold Hok Hsame. split; try done.
  - intros k c. destruct (decide (k = m_UID cl)) as [->|Hne].
    + rewrite lookup_insert_eq. intros [= <-]. destruct (bi_claims0 _ _ Hold) as (_ & ? & _). done.
    + rewrite lookup_insert_ne by done. apply bi_claims0.
  - assert (Hb : forall k c, <[m_UID cl := cl]> claims !! k = Some c -> m_Phase c = MicroVMClaimBound ->
      exists c', claims !! k = Some c' /\ m_Phase c' = MicroVMClaimBound /\ m_MicroVM c' = m_MicroVM c).
    { intros k c [[<- <-]|[_ Hk]]%lookup_insert_Some Hp; [|by exists c]. destruct (Hsame Hp). by exists old. }
    intros k1 k2 c1 c2 H1 H2 P1 P2 Heq. destruct (Hb _ _ H1 P1) as (d1 & ? & ? & ?), (Hb _ _ H2 P2) as (d2 & ? & ? & ?). eapply bi_bound0; [done..|congruence].
Qed.
(** The same, with what an Update may have answered. *)
Lemma written_inv steady used f w w' cl old ok : Status_Update cl w = (w', ok) ->
  BInv steady used f (a_claims w) (a_vms w) (a_lost w) (a_leaked w) -> a_claims w !! m_UID cl = Some old -> claim_ok (a_lost w) f cl ->
  (m_Phase cl = MicroVMClaimBound -> m_Phase old = MicroVMClaimBound /\ m_MicroVM cl = m_MicroVM old) ->
  BInv steady used f (a_claims w') (a_vms w') (a_lost w') (a_leaked w').
Proof.
  intros (-> & -> & Hl & Hc)%Status_Update_either HI Hold Hok Hsame. apply (lost_mono _ _ _ _ _ (a_lost w)); [done|].
  destruct Hc as [->|[_ ->]]; [done|]. by eapply update_inv.
Qed.
Lemma written_others cl w w' ok : Status_Update cl w = (w', ok) -> forall k, k <> m_UID cl -> a_claims w' !! k = a_claims w !! k.
Proof. intros (_ & _ & _ & [->|[_ ->]])%Status_Update_either k Hk; [done|by rewrite lookup_insert_ne]. Qed.
Lemma written_some cl w w' ok : Status_Update cl w = (w', ok) -> is_Some (a_claims w !! m_UID cl) -> is_Some (a_claims w' !! m_UID cl).
Proof. intros (_ & _ & _ & [->|[_ ->]])%Status_Update_either Hk; [done|rewrite lookup_insert_eq; by eexists]. Qed.

(** The fields no invariant reads. *)
Lemma inv_frame steady used f f' claims vms lost leaked :
  f_hosts f' = f_hosts f -> f_pools f' = f_pools f -> f_held f' = f_held f -> f_onHost f' = f_onHost f -> f_nextID f <= f_nextID f' ->
  BInv steady used f claims vms lost leaked -> BInv steady used f' claims vms lost leaked.
Proof.
  intros E1 E2 E3 E4 E5 []. assert (Hg : forall u, given f u -> given f' u) by (intros u; by apply given_mono).
  unfold heldIn, leasedOf, on, flint_held in *. split; unfold heldIn, leasedOf, on, flint_held in *; rewrite ?E1, ?E2, ?E3, ?E4; try done.
  - intros k vm Hk. destruct (bi_named0 k vm Hk) as (? & ? & ?). split_and!; auto.
  - intros k cl Hk. destruct (bi_claims0 k cl Hk) as (? & ? & Hok). split_and!; try done. unfold claim_ok in *. rewrite E1, E3.
    destruct (m_Phase cl); try done. destruct Hok as (u & i & h & ? & ? & ?). exists u, i, h. auto.
  - intros h u Hl. destruct (bi_leaked0 h u Hl). auto.
Qed.

(** A MicroVM that nobody holds is left on its Host. *)
Lemma leak_inv steady used f claims vms lost leaked h u : BInv steady used f claims vms lost leaked -> given f u ->
  (forall k vm, f_held f !! k = Some vm -> hv_uid vm <> u) -> BInv steady used f claims ({[(h, u)]} ∪ vms) lost ({[(h, u)]} ∪ leaked).
Proof.
  intros [] Hg Hno. split; try done.
  - intros i v. rewrite !elem_of_union, bi_vms0. tauto.
  - intros i v [[= -> ->]%elem_of_singleton|Hl]%elem_of_union; [by split|by apply (bi_leaked0 i)].
Qed.

Lemma on_insert f h z h' m : on (f <| f_onHost := <[h := z]> (f_onHost f) |> <| f_held := m |>) h' = if decide (h = h') then z else on f h'.
Proof. unfold on. simpl. destruct (decide (h = h')) as [->|]; [by rewrite lookup_insert_eq|by rewrite lookup_insert_ne]. Qed.

Lemma leased_alter p q g f : leasedOf q (f <| f_pools := alter g p (f_pools f) |>)
  = if decide (p = q) then match f_pools f !! p with Some fp => fp_leased (g fp) | None => 0 end else leasedOf q f.
Proof.
  unfold leasedOf. simpl. destruct (decide (p = q)) as [->|]; [|by rewrite lookup_alter_ne].
  rewrite lookup_alter_eq. by destruct (f_pools f !! q).
Qed.

Lemma Delete_spec h u w : let w' := DeleteMicroVM h u w in
  a_claims w' = a_claims w /\ a_lost w' = a_lost w
  /\ (a_vms w' = a_vms w ∖ {[(h, u)]} /\ a_leaked w' = a_leaked w ∖ {[(h, u)]} \/ a_vms w' = a_vms w /\ a_leaked w' = {[(h, u)]} ∪ a_leaked w).
Proof.
  cbv zeta. unfold DeleteMicroVM, answer. destruct (a_answers w) as [|[] l]; simpl; split_and!; try done; (by left) || (by right).
Qed.

(** Who is still held once [k] is not. *)
Lemma flint_held_delete f k vm h u : f_held f !! k = Some vm ->
  (forall k1 k2 v1 v2, f_held f !! k1 = Some v1 -> f_held f !! k2 = Some v2 -> hv_uid v1 = hv_uid v2 -> k1 = k2) ->
  (exists k' x host, delete k (f_held f) !! k' = Some x /\ hv_host x = h /\ hv_uid x = u /\ f_hosts f !! h = Some host /\ bh_MicroVMs host = true)
  <-> flint_held f h u /\ u <> hv_uid vm.
Proof.
  intros Hk Hd. unfold flint_held. setoid_rewrite lookup_delete_Some. split.
  - intros (j & x & ho & [Hne Hj] & Hh & Hu & Hr). split; [by exists j, x, ho|]. intros ->. by apply Hne, (Hd k j vm x).
  - intros [(j & x & ho & Hj & Hr) Hne]. exists j, x, ho. split; [|done]. split; [|done]. intros <-. simplify_eq. destruct Hr as (_ & Hu & _). by subst.
Qed.

(** [replace] of a MicroVM whose claim is gone or no longer Bound. *)
Lemma replace_inv steady used f claims w k vm f' w' : BInv steady used f claims (a_vms w) (a_lost w) (a_leaked w) -> f_held f !! k = Some vm ->
  (forall cl, claims !! k = Some cl -> m_Phase cl <> MicroVMClaimBound) -> replace k vm f w = (f', w') ->
  BInv steady used f' claims (a_vms w') (a_lost w') (a_leaked w') /\ a_claims w' = a_claims w /\ f_held f' = delete k (f_held f) /\ f_hosts f' = f_hosts f.
Proof.
  intros [] Hk Hc. unfold replace. intros [= <- <-]. simpl.
  match goal with |- context [a_vms ?x] => set (w1 := x) end.
  destruct (bi_named0 k vm Hk) as (_ & Hlt & Hgiven). destruct (lookup_lt_is_Some_2 _ _ Hlt) as [host Hhost].
  assert (Hw : a_claims w1 = a_claims w /\ a_lost w1 = a_lost w
    /\ forall h u, ((h, u) ∈ a_vms w1 <-> (flint_held f h u /\ u <> hv_uid vm) \/ (h, u) ∈ a_leaked w1)
       /\ ((h, u) ∈ a_leaked w1 -> (h, u) ∈ a_leaked w \/ u = hv_uid vm)).
  { assert (Hmine : forall h, flint_held f h (hv_uid vm) -> h = hv_host vm /\ bh_MicroVMs host = true).
    { intros h (j & x & ho & Hj & <- & Hu & Hho & Hm). destruct (bi_distinct0 j k x vm Hj Hk Hu). simplify_eq. done. }
    assert (Hme : bh_MicroVMs host = true -> flint_held f (hv_host vm) (hv_uid vm)) by (intros Hm; by exists k, vm, host).
    assert (Hnl : forall h, (h, hv_uid vm) ∉ a_leaked w) by (intros h Hl; by destruct (proj2 (bi_leaked0 _ _ Hl) k vm Hk)).
    unfold w1. clear w1. rewrite Hhost. destruct (bh_MicroVMs host) eqn:Em.
    - destruct (Delete_spec (hv_host vm) (hv_uid vm) w) as (-> & -> & HD). split_and!; [done..|]. intros h u. specialize (bi_vms0 h u).
      destruct HD as [[-> ->]|[-> ->]].
      + rewrite !elem_of_difference, !elem_of_singleton, bi_vms0. split; [|tauto]. split.
        * intros [[Hf|Hl] Hne]; [left; split; [done|]; intros ->; apply Hne; by destruct (Hmine h Hf) as [-> _]|by right].
        * intros [[Hf Hne]|[Hl Hne]]; (split; [tauto|]); [congruence|done].
      + rewrite elem_of_union, elem_of_singleton, bi_vms0. split; [split|].
        * intros [Hf|Hl]; [|tauto]. destruct (decide (u = hv_uid vm)) as [->|]; [right; left; by destruct (Hmine h Hf) as [-> _]|tauto].
        * intros [[? _]|[[= -> ->]|?]]; [tauto|left; by apply Hme|tauto].
        * intros [[= -> ->]|?]; [by right|by left].
    - split_and!; [done..|]. intros h u. rewrite bi_vms0. split; [|tauto]. split; [|tauto]. intros [?|?]; [left; split; [done|]|tauto]. intros ->. by destruct (Hmine h). }
  destruct Hw as (Hw1 & Hw2 & Hw3). clearbody w1. split_and!; [|done..].
  assert (Hdel : forall j x, delete k (f_held f) !! j = Some x <-> j <> k /\ f_held f !! j = Some x).
  { intros j x. rewrite lookup_delete_Some. split; intros []; done. }
  split; simpl; try done.
  - intros j x [_ Hx]%Hdel. by apply bi_named0.
  - intros j1 j2 x1 x2 [_ H1]%Hdel [_ H2]%Hdel. by eapply bi_distinct0.
  - intros j cl Hj. destruct (bi_claims0 j cl Hj) as (Hu & Hin & Hok). split_and!; [done..|]. rewrite Hw2. unfold claim_ok in *. simpl.
    destruct (decide (m_UID cl = k)) as [Heq|Hne]; [|by rewrite lookup_delete_ne].
    rewrite Heq, lookup_delete_eq. subst k. destruct (m_Phase cl) eqn:Ep; try done.
    exfalso. apply (Hc cl); [by rewrite Hu|done].
  - intros h. unfold on. simpl. rewrite (map_count_delete _ _ _ _ Hk), <-bi_on0. unfold on, at_host.
    destruct (Nat.eqb_spec (hv_host vm) h) as [->|]; [by rewrite lookup_insert_eq|rewrite lookup_insert_ne by done; lia].
  - intros h u. rewrite (proj1 (Hw3 h u)), <-(flint_held_delete f k vm h u Hk bi_distinct0). done.
  - intros h u Hl. destruct (proj2 (Hw3 h u) Hl) as [Hold| ->].
    + destruct (bi_leaked0 h u Hold) as [Hg Hno]. split; [done|]. intros j x [_ Hj]%Hdel. by apply (Hno j).
    + split; [done|]. intros j x [Hne Hj]%Hdel Hu. by apply Hne, (bi_distinct0 j k x vm).
  - intros p fp. unfold heldIn in *. simpl. rewrite (map_count_delete _ _ _ _ Hk). unfold in_pool at 2. destruct (decide (hv_pool vm = p)) as [<-|Hne].
    + rewrite lookup_alter_eq. destruct (f_pools f !! hv_pool vm) as [fp0|] eqn:Ef; [|done]. intros [= <-]. simpl.
      rewrite String.eqb_refl. destruct (bi_pools0 _ _ Ef). split; lia.
    + rewrite lookup_alter_ne by done. intros Hp. apply String.eqb_neq in Hne. rewrite Hne, Z.sub_0_r. by apply bi_pools0.
  - intros Hs p. specialize (bi_steady0 Hs p). unfold leasedOf, heldIn in *. simpl. rewrite (map_count_delete _ _ _ _ Hk). unfold in_pool at 2.
    destruct (String.eqb_spec (hv_pool vm) p) as [<-|Hne]; [|rewrite lookup_alter_ne by done; lia].
    rewrite lookup_alter_eq. destruct (f_pools f !! hv_pool vm) as [fp0|] eqn:Ef; simpl; [lia|].
    pose proof (map_count_pos (in_pool (hv_pool vm)) _ _ _ Hk (String.eqb_refl _)). lia.
Qed.

Lemma leastHost_in f : f_hosts f <> [] -> exists h, f_hosts f !! leastHost f = Some h.
Proof.
  intros Hne. apply lookup_lt_is_Some_2. unfold leastHost.
  assert (forall l host, (host < length (f_hosts f))%nat -> (forall i, i ∈ l -> (i < length (f_hosts f))%nat) ->
    (fold_left (fewer f) l host < length (f_hosts f))%nat) as Hgen.
  { induction l as [|i l IH]; intros host Hh Hl; simpl; [done|]. apply IH; [|intros; apply Hl; by right]. unfold fewer. case_match; [apply Hl; by left|done]. }
  apply Hgen; [destruct (f_hosts f); [done|simpl; lia]|]. intros i Hi%elem_of_seq. lia.
Qed.

(** No Host has fewer than the one that is chosen. *)
Lemma leastHost_least f i : (i < length (f_hosts f))%nat -> on f (leastHost f) <= on f i.
Proof.
  unfold leastHost. intros Hi.
  assert (forall l host, on f (fold_left (fewer f) l host) <= on f host
    /\ forall j, j ∈ l -> on f (fold_left (fewer f) l host) <= on f j) as Hgen.
  { induction l as [|x l IH]; intros host; simpl; [split; [lia|by intros j ?%elem_of_nil]|].
    destruct (IH (fewer f host x)) as [H1 H2].
    assert (on f (fewer f host x) <= on f host /\ on f (fewer f host x) <= on f x)
      by (unfold fewer; destruct (Z.ltb_spec (on f x) (on f host)); lia).
    split; [lia|]. intros j [->|Hj]%elem_of_cons; [lia|by apply H2]. }
  apply Hgen. apply elem_of_seq. lia.
Qed.

Section ConditionsInv.
Context `{StatusConditions}.

Lemma setPending_inv steady used reason message cl f w f' w' : BInv steady used f (a_claims w) (a_vms w) (a_lost w) (a_leaked w) -> a_claims w !! m_UID cl = Some cl ->
  m_Phase cl ∈ [PhaseNone; MicroVMClaimPending] -> setPending reason message cl f w = (f', w') ->
  BInv steady used f' (a_claims w') (a_vms w') (a_lost w') (a_leaked w') /\ (forall k, k <> m_UID cl -> a_claims w' !! k = a_claims w !! k) /\ f_hosts f' = f_hosts f.
Proof.
  intros HI Hcl Hph. unfold setPending. cbv zeta. match goal with |- (if ?b then _ else _) = _ -> _ => destruct b; [by intros [= <- <-]|] end.
  set (cl' := set_condition _ _). destruct (Status_Update cl' w) as [w1 ok] eqn:Es. intros [= <- <-]. split_and!.
  - apply (inv_frame _ _ f); [by destruct ok..|by destruct ok|]. eapply written_inv; [exact Es|done|exact Hcl| |done].
    destruct (bi_claims _ _ _ _ _ _ _ HI _ _ Hcl) as (_ & _ & Hok). unfold claim_ok in *. simpl.
    apply elem_of_cons in Hph as [Hp|[Hp|[]%elem_of_nil]%elem_of_cons]; by rewrite Hp in Hok.
  - exact (written_others cl' w w1 ok Es).
  - by destruct ok.
Qed.

(** A claim that was bound is complete, and names a MicroVM no other does. *)
Lemma bound_claims steady used f f' claims vms lost lost' leaked e h cl :
  BInv steady used f claims vms lost leaked -> claims !! m_UID cl = Some cl -> f_hosts f !! leastHost f = Some h -> f_hosts f' = f_hosts f ->
  f_nextID f' = f_nextID f + 1 -> lost ⊆ lost' -> (forall k, k <> m_UID cl -> f_held f' !! k = f_held f !! k) ->
  match f_held f' !! m_UID cl with
  | Some vm => hv_uid vm = "microvm-" +:+ Itoa (f_nextID f + 1) /\ hv_host vm = leastHost f /\ hv_pool vm = m_Pool cl
  | None => m_UID cl ∈ lost'
  end ->
  let claims' := <[m_UID cl := bound_claim e h (f_nextID f + 1) cl]> claims in
  (forall k c, claims' !! k = Some c -> m_UID c = k /\ k ∈ used /\ claim_ok lost' f' c)
  /\ (forall k1 k2 c1 c2, claims' !! k1 = Some c1 -> claims' !! k2 = Some c2 -> m_Phase c1 = MicroVMClaimBound ->
       m_Phase c2 = MicroVMClaimBound -> m_MicroVM c1 = m_MicroVM c2 -> k1 = k2).
Proof.
  intros [] Hcl Hh Ehosts Enext Hlost Hother Hmine claims'.
  assert (Hg : forall u, given f u -> given f' u) by (intros u; apply given_mono; lia).
  assert (Hold : forall k c, claims !! k = Some c -> m_Phase c = MicroVMClaimBound -> m_MicroVM c <> Some ("microvm-" +:+ Itoa (f_nextID f + 1))).
  { intros k c Hk Hp. destruct (bi_claims0 k c Hk) as (_ & _ & Hok). unfold claim_ok in Hok. rewrite Hp in Hok.
    destruct Hok as (u & i & ho & Hm & Hgu & _). rewrite Hm. intros [= ->]. by apply given_new in Hgu. }
  split.
  - intros k c. unfold claims'. destruct (decide (k = m_UID cl)) as [->|Hne].
    + rewrite lookup_insert_eq. intros [= <-]. split_and!; [done|by apply (bi_claims0 _ _ Hcl)|]. unfold claim_ok. simpl.
      exists ("microvm-" +:+ Itoa (f_nextID f + 1)), (leastHost f), h. rewrite Ehosts. split_and!; try done. exists (f_nextID f + 1). split; [lia|done].
    + rewrite lookup_insert_ne by done. intros Hc. destruct (bi_claims0 _ _ Hc) as (Hu & ? & Hok). split_and!; [done..|].
      apply (claim_ok_mono lost lost' _ _ Hlost) in Hok. unfold claim_ok in *. rewrite Hother, Ehosts by congruence.
      destruct (m_Phase c); try done. destruct Hok as (u & i & ho & ? & ? & ?). exists u, i, ho. auto.
  - intros k1 k2 c1 c2 H1 H2 P1 P2 Heq. unfold claims' in *. apply lookup_insert_Some in H1 as [[<- <-]|[N1 H1]], H2 as [[<- <-]|[N2 H2]]; [done| | |by eapply bi_bound0].
    + by destruct (Hold _ _ H2 P2).
    + by destruct (Hold _ _ H1 P1).
Qed.

(** The held MicroVM of a claim that was bound. *)
Lemma bound_inv steady used f claims vms lost leaked e h cl : let n := f_nextID f + 1 in let host := leastHost f in
  let vm := {| hv_pool := m_Pool cl; hv_host := host; hv_uid := "microvm-" +:+ Itoa n |} in
  BInv steady used f claims vms lost leaked -> claims !! m_UID cl = Some cl -> f_held f !! m_UID cl = None -> f_hosts f !! host = Some h ->
  (exists fp, f_pools f !! m_Pool cl = Some fp /\ 0 < fp_warm fp) ->
  BInv steady used (f <| f_nextID := n |> <| f_pools := alter take_slot (m_Pool cl) (f_pools f) |> <| f_onHost := <[host := on f host + 1]> (f_onHost f) |>
                     <| f_held := <[m_UID cl := vm]> (f_held f) |>)
    (<[m_UID cl := bound_claim e h n cl]> claims) (if bh_MicroVMs h then {[(host, "microvm-" +:+ Itoa n)]} ∪ vms else vms) lost leaked.
Proof.
  cbv zeta. intros HI Hcl Hheld Hhost (fp & Hfp & Hwarm). set (vm := {| hv_pool := m_Pool cl |}). set (n := f_nextID f + 1).
  match goal with |- BInv _ _ ?x _ _ _ _ => set (f' := x) end.
  destruct (bound_claims steady used f f' claims vms lost lost leaked e h cl HI Hcl Hhost eq_refl eq_refl) as [HC1 HC2];
    [done|intros k Hk; simpl; by rewrite lookup_insert_ne|simpl; by rewrite lookup_insert_eq|]. destruct HI.
  assert (Hins : forall j x, <[m_UID cl := vm]> (f_held f) !! j = Some x <-> (j = m_UID cl /\ x = vm) \/ (j <> m_UID cl /\ f_held f !! j = Some x)).
  { intros j x. rewrite lookup_insert_Some. split; intros [[]|[]]; subst; auto. }
  assert (Hg : forall u, given f u -> given f' u) by (intros u; apply given_mono; simpl; lia).
  assert (Hnew : forall j x, f_held f !! j = Some x -> hv_uid x <> hv_uid vm).
  { intros j x Hx. destruct (bi_named0 j x Hx) as (_ & _ & Hgx). by apply given_new. }
  split; try done.
  - intros j x [[-> ->]|[_ Hx]]%Hins.
    + split_and!; [by apply (bi_claims0 _ _ Hcl)|by apply lookup_lt_Some in Hhost|]. exists n. done.
    + destruct (bi_named0 j x Hx) as (? & ? & ?). split_and!; auto.
  - intros j1 j2 x1 x2 [[-> ->]|[_ H1]]%Hins [[-> ->]|[_ H2]]%Hins Heq; [done| | |by eapply bi_distinct0].
    + by destruct (Hnew _ _ H2).
    + by destruct (Hnew _ _ H1).
  - intros i. unfold on in *. simpl. rewrite (map_count_insert_None _ _ _ _ Hheld), <-bi_on0. unfold at_host. simpl.
    destruct (Nat.eqb_spec (leastHost f) i) as [->|]; [rewrite lookup_insert_eq; simpl; lia|by rewrite lookup_insert_ne].
  - intros i u. transitivity ((i, u) ∈ vms \/ (i = leastHost f /\ u = hv_uid vm /\ bh_MicroVMs h = true)).
    { destruct (bh_MicroVMs h); [rewrite elem_of_union, elem_of_singleton|]; naive_solver. }
    rewrite bi_vms0. assert (flint_held f' i u <-> flint_held f i u \/ (i = leastHost f /\ u = hv_uid vm /\ bh_MicroVMs h = true)) as ->; [|tauto].
    split.
    + intros (j & x & ho & [[-> ->]|[_ Hx]]%Hins & Hh & Hu & Hho & Hm).
      * right. simpl in *. subst. split_and!; [done..|]. congruence.
      * left. by exists j, x, ho.
    + intros [(j & x & ho & Hj & Hr)|(-> & -> & Hm)].
      * exists j, x, ho. split; [|done]. apply Hins. right. split; [|done]. intros ->. congruence.
      * exists (m_UID cl), vm, h. split; [apply Hins; by left|done].
  - intros i u Hl. destruct (bi_leaked0 i u Hl) as [Hgu Hno]. split; [auto|]. intros j x [[-> ->]|[_ Hx]]%Hins; [|by eapply Hno].
    simpl. apply not_eq_sym. by apply given_new.
  - intros p q. unfold heldIn in *. simpl. rewrite (map_count_insert_None _ _ _ _ Hheld). unfold in_pool at 1. simpl.
    destruct (String.eqb_spec (m_Pool cl) p) as [<-|Hne].
    + rewrite lookup_alter_eq, Hfp. intros [= <-]. simpl. destruct (bi_pools0 _ _ Hfp) as [Hw Hl]. split; lia.
    + rewrite lookup_alter_ne by done. intros Hq. by apply bi_pools0.
  - intros Hs p. specialize (bi_steady0 Hs p). unfold leasedOf, heldIn in *. simpl. rewrite (map_count_insert_None _ _ _ _ Hheld). unfold in_pool at 1. simpl.
    destruct (String.eqb_spec (m_Pool cl) p) as [<-|Hne]; [rewrite lookup_alter_eq, Hfp in *; simpl; lia|by rewrite lookup_alter_ne].
Qed.

(** The claim was bound and the answer lost: nothing is held for it. *)
Lemma stray_inv steady used f claims vms lost leaked e h cl :
  BInv steady used f claims vms lost leaked -> claims !! m_UID cl = Some cl -> f_held f !! m_UID cl = None -> f_hosts f !! leastHost f = Some h ->
  BInv steady used (f <| f_nextID := f_nextID f + 1 |>) (<[m_UID cl := bound_claim e h (f_nextID f + 1) cl]> claims) vms ({[m_UID cl]} ∪ lost) leaked.
Proof.
  intros HI Hcl Hheld Hh. pose proof HI as HI'. apply (inv_frame _ _ _ (f <| f_nextID := f_nextID f + 1 |>)) in HI'; [|done..|simpl; lia].
  destruct (bound_claims steady used f (f <| f_nextID := f_nextID f + 1 |>) claims vms lost ({[m_UID cl]} ∪ lost) leaked e h cl HI Hcl Hh) as [HC1 HC2];
    [done|done|set_solver|done|simpl; rewrite Hheld; set_solver|]. destruct HI'. by split.
Qed.

Lemma Create_spec h u w w' ok : CreateMicroVM h u w = (w', ok) -> a_claims w' = a_claims w /\ a_lost w' = a_lost w
  /\ (if ok then a_vms w' = {[(h, u)]} ∪ a_vms w /\ a_leaked w' = a_leaked w
      else a_vms w' = a_vms w /\ a_leaked w' = a_leaked w \/ a_vms w' = {[(h, u)]} ∪ a_vms w /\ a_leaked w' = {[(h, u)]} ∪ a_leaked w).
Proof.
  unfold CreateMicroVM, answer. destruct (a_answers w) as [|[] l]; intros [= <- <-]; simpl; split_and!; try done; (by left) || (by right).
Qed.

(** What is left on the Host when the claim could not be written. *)
Lemma undo_inv steady used f claims vms lost leaked h u (created : bool) w : BInv steady used f claims vms lost leaked -> given f u ->
  (forall k vm, f_held f !! k = Some vm -> hv_uid vm <> u) -> (forall i, (i, u) ∉ vms) -> (forall i, (i, u) ∉ leaked) ->
  a_vms w = (if created then {[(h, u)]} ∪ vms else vms) -> a_leaked w = leaked ->
  let w' := if created then DeleteMicroVM h u w else w in BInv steady used f claims (a_vms w') lost (a_leaked w').
Proof.
  intros HI Hg Hno Hv Hl -> ->  || intros HI Hg Hno Hv Hl Ev El. cbv zeta. destruct created; [|by rewrite Ev, El].
  destruct (Delete_spec h u w) as (_ & _ & [[-> ->]|[-> ->]]); rewrite Ev, El.
  - assert (({[(h, u)]} ∪ vms) ∖ {[(h, u)]} = vms) as -> by (specialize (Hv h); set_solver).
    assert (leaked ∖ {[(h, u)]} = leaked) as -> by (specialize (Hl h); set_solver). done.
  - by apply leak_inv.
Qed.

Lemma bind_inv steady used e cl f w f' w' : BInv steady used f (a_claims w) (a_vms w) (a_lost w) (a_leaked w) -> a_claims w !! m_UID cl = Some cl ->
  m_Phase cl ∈ [PhaseNone; MicroVMClaimPending] -> (exists fp, f_pools f !! m_Pool cl = Some fp /\ 0 < fp_warm fp) -> bind e cl f w = (f', w') ->
  BInv steady used f' (a_claims w') (a_vms w') (a_lost w') (a_leaked w') /\ (forall k, k <> m_UID cl -> a_claims w' !! k = a_claims w !! k) /\ f_hosts f' = f_hosts f.
Proof.
  intros HI Hcl Hph Hfp. destruct (leastHost_in f (bi_hosts _ _ _ _ _ _ _ HI)) as [h Hh].
  assert (Hheld : f_held f !! m_UID cl = None).
  { destruct (bi_claims _ _ _ _ _ _ _ HI _ _ Hcl) as (_ & _ & Hok). unfold claim_ok in Hok.
    apply elem_of_cons in Hph as [Hp|[Hp|[]%elem_of_nil]%elem_of_cons]; by rewrite Hp in Hok. }
  set (u := "microvm-" +:+ Itoa (f_nextID f + 1)). set (f1 := f <| f_nextID := f_nextID f + 1 |>).
  assert (Hgiven : given f1 u) by (exists (f_nextID f + 1); by split).
  assert (Hno : forall k vm, f_held f1 !! k = Some vm -> hv_uid vm <> u).
  { intros k vm Hk. destruct (bi_named _ _ _ _ _ _ _ HI k vm Hk) as (_ & _ & Hg). by apply given_new. }
  assert (Hnl : forall i, (i, u) ∉ a_leaked w).
  { intros i Hl. destruct (bi_leaked _ _ _ _ _ _ _ HI i u Hl) as [Hg _]. by apply given_new in Hg. }
  assert (Hnv : forall i, (i, u) ∉ a_vms w).
  { intros i [(k & vm & ho & Hk & _ & Hu & _)|Hl]%(bi_vms _ _ _ _ _ _ _ HI); [by apply (Hno k vm)|by apply (Hnl i)]. }
  assert (HI1 : BInv steady used f1 (a_claims w) (a_vms w) (a_lost w) (a_leaked w)) by (apply (inv_frame _ _ f); [done..|simpl; lia|done]).
  pose proof (bound_inv steady used f (a_claims w) (a_vms w) (a_lost w) (a_leaked w) e h cl HI Hcl Hheld Hh Hfp) as Hbound.
  pose proof (stray_inv steady used f (a_claims w) (a_vms w) (a_lost w) (a_leaked w) e h cl HI Hcl Hheld Hh) as Hstray.
  unfold bind. rewrite Hh. cbv zeta. fold u f1 in Hbound, Hstray |- *.
  destruct (if bh_MicroVMs h then _ else (w, true)) as [w1 created] eqn:Ecr.
  assert (Hcr : a_claims w1 = a_claims w /\ a_lost w1 = a_lost w
    /\ if created then a_vms w1 = (if bh_MicroVMs h then {[(leastHost f, u)]} ∪ a_vms w else a_vms w) /\ a_leaked w1 = a_leaked w
       else BInv steady used f1 (a_claims w) (a_vms w1) (a_lost w) (a_leaked w1)).
  { destruct (bh_MicroVMs h); [|by injection Ecr as <- <-]. apply Create_spec in Ecr as (-> & -> & Hv). split_and!; [done..|].
    destruct created; [done|]. destruct Hv as [[-> ->]|[-> ->]]; [done|by apply leak_inv]. }
  destruct Hcr as (Hc1 & Hl1 & Hv1). destruct created; cbn [negb]; [|intros [= <- <-]; rewrite Hc1, Hl1; done]. destruct Hv1 as [Hv1 Hk1].
  destruct (Status_Update (bound_claim e h (f_nextID f + 1) cl) w1) as [w2 ok] eqn:Es. apply Status_Update_spec in Es as (Ev & Ek & Ec).
  unfold wrote in Ec. rewrite Hc1, Hl1 in Ec. change (m_UID (bound_claim _ _ _ cl)) with (m_UID cl) in Ec. destruct ok; intros [= <- <-].
  - destruct Ec as [[_ ->] ->]. rewrite Ev, Hv1, Ek, Hk1. split_and!; [exact Hbound| |done]. intros k Hk. by rewrite lookup_insert_ne by done.
  - assert (Hd : forall x : bool, a_claims (if x then DeleteMicroVM (leastHost f) u w2 else w2) = a_claims w2 /\ a_lost (if x then DeleteMicroVM (leastHost f) u w2 else w2) = a_lost w2).
    { intros []; [|done]. by destruct (Delete_spec (leastHost f) u w2) as (? & ? & _). }
    destruct (Hd (bh_MicroVMs h)) as [-> ->].
    assert (Hcl2 : exists claims2 lost2, a_claims w2 = claims2 /\ a_lost w2 = lost2 /\ BInv steady used f1 claims2 (a_vms w) lost2 (a_leaked w)
      /\ forall k, k <> m_UID cl -> claims2 !! k = a_claims w !! k).
    { destruct Ec as [[E1 E2]|[[_ E1] E2]]; rewrite ?Hc1, ?Hl1 in *; eexists _, _; (split_and!; [exact E1|exact E2| |]); try done.
      intros k Hk. by rewrite lookup_insert_ne. }
    destruct Hcl2 as (claims2 & lost2 & -> & -> & HI2 & Hk2). split_and!; [|done..].
    apply (undo_inv _ _ _ _ (a_vms w) _ (a_leaked w)); try done; [by rewrite Ev, Hv1|by rewrite Ek, Hk1].
Qed.

Lemma renew_inv steady used e cl f w cl' f' w' : BInv steady used f (a_claims w) (a_vms w) (a_lost w) (a_leaked w) -> a_claims w !! m_UID cl = Some cl ->
  m_Phase cl = MicroVMClaimBound -> renew e cl f w = (cl', f', w') ->
  BInv steady used f' (a_claims w') (a_vms w') (a_lost w') (a_leaked w') /\ (forall k, k <> m_UID cl -> a_claims w' !! k = a_claims w !! k) /\ f_hosts f' = f_hosts f
  /\ m_UID cl' = m_UID cl /\ (m_Phase cl' = MicroVMClaimBound -> claim_ok (a_lost w') f' cl'
        /\ exists old, a_claims w' !! m_UID cl = Some old /\ m_Phase old = MicroVMClaimBound /\ m_MicroVM cl' = m_MicroVM old).
Proof.
  intros HI Hcl Hph. unfold renew. destruct (bi_claims _ _ _ _ _ _ _ HI _ _ Hcl) as (_ & _ & Hok).
  destruct (bool_decide (m_Name cl ∈ f_expire f) || lapsed e cl).
  - set (cx := expired_claim cl). destruct (Status_Update cx w) as [w1 ok] eqn:Es.
    assert (HI1 : BInv steady used f (a_claims w1) (a_vms w1) (a_lost w1) (a_leaked w1)) by (eapply written_inv; [exact Es|done|exact Hcl|done|done]).
    pose proof (written_others _ _ _ _ Es) as Hk. change (m_UID cx) with (m_UID cl) in Hk. destruct ok; cbn [negb]; [|intros [= <- <- <-]; by split_and!].
    apply Status_Update_spec in Es as (_ & _ & [_ Ec] & _).
    set (f1 := f <| f_expire := _ |>). assert (HI2 : BInv steady used f1 (a_claims w1) (a_vms w1) (a_lost w1) (a_leaked w1)) by (by apply (inv_frame _ _ f)).
    change (m_Name cx) with (m_Name cl). case_bool_decide; [intros [= <- <- <-]; split_and!; try done; by apply (inv_frame _ _ f1)|].
    change (f_held f1 !! m_UID cx) with (f_held f !! m_UID cl). change (m_UID cx) with (m_UID cl).
    destruct (f_held f !! m_UID cl) as [vm|] eqn:Eh; [|intros [= <- <- <-]; by split_and!]. destruct (replace (m_UID cl) vm f1 w1) as [f2 w2] eqn:Er. intros [= <- <- <-].
    eapply replace_inv in Er as (HI3 & Hc3 & _ & Hh3); [|exact HI2|exact Eh|].
    2:{ intros c. rewrite Ec. change (m_UID cx) with (m_UID cl). rewrite lookup_insert_eq. by intros [= <-]. }
    rewrite Hc3. by split_and!.
  - assert (Hsame : BInv steady used f (a_claims w) (a_vms w) (a_lost w) (a_leaked w) /\ (forall k, k <> m_UID cl -> a_claims w !! k = a_claims w !! k) /\ f_hosts f = f_hosts f
      /\ m_UID cl = m_UID cl /\ (m_Phase cl = MicroVMClaimBound -> claim_ok (a_lost w) f cl
        /\ exists old, a_claims w !! m_UID cl = Some old /\ m_Phase old = MicroVMClaimBound /\ m_MicroVM cl = m_MicroVM old)).
    { split_and!; try done. intros _. split; [done|]. by exists cl. }
    destruct (m_RenewTime cl) as [t|] eqn:Et; [|by intros [= <- <- <-]]. case_bool_decide; [by intros [= <- <- <-]|].
    set (cr := renewed_claim e t cl). assert (Hokr : claim_ok (a_lost w) f cr).
    { unfold claim_ok in *. change (m_Phase cr) with (m_Phase cl). change (m_UID cr) with (m_UID cl). rewrite Hph in *.
      destruct Hok as (u & i & h & H1 & H2 & H3 & H4 & _ & H6). exists u, i, h. by split_and!. }
    destruct (Status_Update cr w) as [w1 ok] eqn:Es. intros [= <- <- <-]. split_and!; try done.
    + eapply written_inv; [exact Es|done|exact Hcl|done|done].
    + exact (written_others _ _ _ _ Es).
    + intros _. apply Status_Update_either in Es as (_ & _ & Hl & Hc). split; [by eapply claim_ok_mono|].
      destruct Hc as [->|[_ ->]]; [by exists cl|]. exists cr. change (m_UID cr) with (m_UID cl). by rewrite lookup_insert_eq.
Qed.

Lemma markHost_inv steady used cl f w old : BInv steady used f (a_claims w) (a_vms w) (a_lost w) (a_leaked w) -> a_claims w !! m_UID cl = Some old ->
  m_Phase old = MicroVMClaimBound -> m_MicroVM cl = m_MicroVM old -> claim_ok (a_lost w) f cl ->
  let w' := markHost cl f w in BInv steady used f (a_claims w') (a_vms w') (a_lost w') (a_leaked w')
  /\ (forall k, k <> m_UID cl -> a_claims w' !! k = a_claims w !! k).
Proof.
  intros HI Hs Hp Hm Hok. cbv zeta. unfold markHost. destruct (m_Host cl) as [[node agent]|]; [|done]. destruct (SetStatusCondition _ _) as [l []]; [|done].
  simpl. set (c := set_condition _ cl). destruct (Status_Update c w) as [w1 ok] eqn:Es. simpl. split; [|exact (written_others _ _ _ _ Es)].
  eapply written_inv; [exact Es|done|exact Hs|exact Hok|done].
Qed.

Lemma reconcileClaim_inv steady used e cl f w f' w' : BInv steady used f (a_claims w) (a_vms w) (a_lost w) (a_leaked w) -> a_claims w !! m_UID cl = Some cl ->
  reconcileClaim e cl f w = (f', w') ->
  BInv steady used f' (a_claims w') (a_vms w') (a_lost w') (a_leaked w') /\ (forall k, k <> m_UID cl -> a_claims w' !! k = a_claims w !! k) /\ f_hosts f' = f_hosts f.
Proof.
  intros HI Hcl. unfold reconcileClaim. destruct (m_Deleting cl); [by intros [= <- <-]|].
  assert (Hp : forall f' w', m_Phase cl ∈ [PhaseNone; MicroVMClaimPending] ->
    match f_pools f !! m_Pool cl with
    | None => setPending "PoolNotFound" "the pool does not exist" cl f w
    | Some fp => if fp_warm fp <=? 0 then setPending "PoolExhausted" "the pool has no available microvm" cl f w else bind e cl f w
    end = (f', w') ->
    BInv steady used f' (a_claims w') (a_vms w') (a_lost w') (a_leaked w') /\ (forall k, k <> m_UID cl -> a_claims w' !! k = a_claims w !! k) /\ f_hosts f' = f_hosts f).
  { intros f1 w1 Hph. destruct (f_pools f !! m_Pool cl) as [fp|] eqn:Ef; [|by apply setPending_inv].
    destruct (Z.leb_spec (fp_warm fp) 0); [by apply setPending_inv|]. apply bind_inv; try done. by exists fp. }
  destruct (m_Phase cl) eqn:Eph; [apply Hp; set_solver|apply Hp; set_solver| |by intros [= <- <-]..].
  destruct (renew e cl f w) as [[cl1 f1] w1] eqn:Er. eapply renew_inv in Er as (HI1 & Hk1 & Hh1 & Hu1 & Hok1); [|done..].
  intros [= <- <-]. case_bool_decide as Hb; [|done]. destruct (Hok1 Hb) as (Hok & old & Hold & Hpo & Hmo).
  destruct (markHost_inv steady used cl1 f1 w1 old) as [? Hk2]; [done|by rewrite Hu1|done..|].
  split_and!; try done. intros k Hk. rewrite Hk2 by congruence. by apply Hk1.
Qed.

Lemma reconcileClaims_inv steady used l f w f' w' : BInv steady used f (a_claims w) (a_vms w) (a_lost w) (a_leaked w) -> NoDup (m_UID <$> l.*2) ->
  (forall e cl, (e, cl) ∈ l -> a_claims w !! m_UID cl = Some cl) -> reconcileClaims l f w = (f', w') ->
  BInv steady used f' (a_claims w') (a_vms w') (a_lost w') (a_leaked w') /\ (forall k, k ∉ (m_UID <$> l.*2) -> a_claims w' !! k = a_claims w !! k) /\ f_hosts f' = f_hosts f.
Proof.
  revert f w. induction l as [|[e cl] l IH]; intros f w HI Hnd Hl; simpl; [by intros [= <- <-]|].
  apply NoDup_cons in Hnd as [Hni Hnd]. destruct (reconcileClaim e cl f w) as [f1 w1] eqn:E1.
  eapply reconcileClaim_inv in E1 as (HI1 & Hk1 & Hh1); [|done|apply (Hl e); by left].
  intros Hr. apply IH in Hr as (HI2 & Hk2 & Hh2); [|done|done|].
  - split_and!; [done| |congruence]. intros k [Hne Hk]%not_elem_of_cons. rewrite Hk2 by done. by apply Hk1.
  - intros e1 c1 Hin. rewrite Hk1; [apply (Hl e1); by right|]. intros Heq. apply Hni. simpl. rewrite <-Heq. apply list_elem_of_fmap_2.
    by apply (list_elem_of_fmap_2 snd _ (e1, c1)).
Qed.

Lemma sweep_inv steady used live l f w f' w' : BInv steady used f (a_claims w) (a_vms w) (a_lost w) (a_leaked w) -> NoDup l.*1 ->
  (forall k vm, (k, vm) ∈ l -> f_held f !! k = Some vm) -> (forall k, is_Some (a_claims w !! k) -> k ∈ live) -> sweep live l f w = (f', w') ->
  BInv steady used f' (a_claims w') (a_vms w') (a_lost w') (a_leaked w') /\ a_claims w' = a_claims w /\ f_hosts f' = f_hosts f
  /\ (forall k vm, f_held f' !! k = Some vm <-> f_held f !! k = Some vm /\ (k ∈ live \/ k ∉ l.*1)).
Proof.
  revert f w. induction l as [|[k vm] l IH]; intros f w HI Hnd Hl Hlive; simpl.
  { intros [= <- <-]. split_and!; try done. intros k vm. split; [intros ?; split; [done|]; right; apply not_elem_of_nil|by intros []]. }
  apply NoDup_cons in Hnd as [Hni Hnd]. assert (Hk : f_held f !! k = Some vm) by (apply Hl; by left). case_bool_decide as Hin.
  - intros (HI2 & Hc2 & Hh2 & Hd2)%IH; [|done|done| |done]; [|intros; apply Hl; by right]. split_and!; try done.
    intros j x. rewrite Hd2. simpl. rewrite not_elem_of_cons. destruct (decide (j = k)) as [->|]; naive_solver.
  - destruct (replace k vm f w) as [f1 w1] eqn:Er.
    eapply replace_inv in Er as (HI1 & Hc1 & Hd1 & Hh1); [|exact HI|exact Hk|].
    2:{ intros cl Hc. exfalso. apply Hin, Hlive. by eexists. }
    intros Hs. apply IH in Hs as (HI2 & Hc2 & Hh2 & Hd2); [|by rewrite Hc1|done| |by rewrite Hc1].
    + split_and!; [done|congruence|congruence|]. intros j x. rewrite Hd2, Hd1, lookup_delete_Some. simpl. rewrite not_elem_of_cons.
      destruct (decide (j = k)) as [->|]; naive_solver.
    + intros j x Hj. rewrite Hd1, lookup_delete_ne; [apply Hl; by right|]. intros ->. apply Hni. by apply (list_elem_of_fmap_2 fst _ (j, x)).
Qed.
End ConditionsInv.

(** ** A whole reconcile *)
Lemma sized_lookup pools m q fp : sized pools m !! q = Some fp ->
  (q ∈ bp_Name <$> pools -> fp_warm fp = Z.max (fp_size fp - fp_leased fp) 0 /\ fp_leased fp = match m !! q with Some o => fp_leased o | None => 0 end)
  /\ (q ∉ bp_Name <$> pools -> m !! q = Some fp).
Proof.
  revert m. induction pools as [|p pools IH]; intros m; simpl; [split; [by intros ?%elem_of_nil|done]|].
  intros [H1 H2]%IH. destruct (decide (q ∈ bp_Name <$> pools)) as [Hin|Hni].
  - destruct (H1 Hin) as [Hw Hl]. split; [intros _|set_solver]. split; [done|]. rewrite Hl. destruct (decide (bp_Name p = q)) as [<-|Hne].
    + rewrite lookup_insert_eq. by destruct (m !! bp_Name p).
    + by rewrite lookup_insert_ne.
  - specialize (H2 Hni). destruct (decide (bp_Name p = q)) as [<-|Hne].
    + rewrite lookup_insert_eq in H2. injection H2 as <-. split; [done|]. intros []. by left.
    + rewrite lookup_insert_ne in H2 by done. split; [|done]. intros [?|?]%elem_of_cons; [by subst|done].
Qed.

Lemma sized_some pools m q : q ∈ bp_Name <$> pools \/ is_Some (m !! q) ->
  is_Some (sized pools m !! q).
Proof.
  revert m. induction pools as [|p pools IH]; intros m; simpl; [intros [?%elem_of_nil|?]; done|]. intros Hq. apply IH.
  destruct (decide (bp_Name p = q)) as [<-|Hne]; [right; rewrite lookup_insert_eq; by eexists|].
  rewrite lookup_insert_ne by done. destruct Hq as [[?|?]%elem_of_cons|?]; [congruence|by left|by right].
Qed.

Lemma map_count_zero {K A} `{Countable K} (P : A -> bool) (m : gmap K A) : (forall k x, m !! k = Some x -> P x = false) -> map_count P m = 0.
Proof.
  induction m as [|k x m Hk IH] using map_ind; intros Hm; [apply map_count_empty|]. rewrite map_count_insert_None by done.
  rewrite (Hm k x) by apply lookup_insert_eq. rewrite IH; [done|]. intros j y Hj. apply (Hm j). rewrite lookup_insert_ne; [done|congruence].
Qed.

Lemma heldIn_sized pools q f : heldIn q (sizePools pools f) = heldIn q f.
Proof. done. Qed.

Lemma sizePools_inv steady used pools f claims vms lost leaked : BInv steady used f claims vms lost leaked ->
  (steady = true -> forall k vm, f_held f !! k = Some vm -> hv_pool vm ∈ bp_Name <$> pools) -> BInv steady used (sizePools pools f) claims vms lost leaked.
Proof.
  intros [] Hst. split; try done.
  - intros q fp. unfold sizePools, heldIn in *. simpl. rewrite map_lookup_filter_Some. intros [[Hs _]%sized_lookup Hq].
    destruct (Hs Hq) as [Hw Hl]. split; [done|]. rewrite Hl. destruct (f_pools f !! q) as [o|] eqn:Eo; [by apply bi_pools0|apply map_count_nonneg].
  - intros Hs q. rewrite (heldIn_sized pools q f). specialize (bi_steady0 Hs q). unfold leasedOf, sizePools in *. simpl.
    destruct (decide (q ∈ bp_Name <$> pools)) as [Hq|Hq].
    + destruct (sized_some pools (f_pools f) q) as [fp Hfp]; [by left|].
      rewrite (proj2 (map_lookup_filter_Some _ _ _ _) (conj Hfp Hq)), <-bi_steady0. destruct (sized_lookup _ _ _ _ Hfp) as [Hs1 _]. by destruct (Hs1 Hq).
    + destruct (filter _ _ !! q) eqn:E; [by apply map_lookup_filter_Some in E as []|]. symmetry. apply map_count_zero.
      intros k vm Hk. apply String.eqb_neq. intros <-. by eapply Hq, Hst.
Qed.

Section ReconcileInv.
Context `{StatusConditions}.

Lemma writePools_frame pools f w : let w' := writePools pools f w in
  a_claims w' = a_claims w /\ a_vms w' = a_vms w /\ a_lost w' = a_lost w /\ a_leaked w' = a_leaked w.
Proof.
  cbv zeta. revert w. induction pools as [|p pools IH]; intros w; simpl; [done|]. destruct (pool_status f p); [|done].
  unfold answer. destruct (a_answers w) as [|[] l]; match goal with |- context [writePools pools f ?x] => destruct (IH x) as (-> & -> & -> & ->) end; done.
Qed.

(** The claims of the API server stay. *)
Lemma Status_Update_dom cl w : dom (a_claims (Status_Update cl w).1) = dom (a_claims w).
Proof.
  destruct (Status_Update cl w) as [w' ok] eqn:E. apply Status_Update_either in E as (_ & _ & _ & [Ec|[Hs Ec]]); simpl; rewrite Ec; [done|].
  by apply dom_insert_lookup_L.
Qed.
Lemma replace_claims k vm f w : a_claims (replace k vm f w).2 = a_claims w.
Proof. unfold replace. simpl. repeat (case_match; simpl); try done. by destruct (Delete_spec (hv_host vm) (hv_uid vm) w). Qed.

Lemma reconcileClaim_dom e cl f w : dom (a_claims (reconcileClaim e cl f w).2) = dom (a_claims w).
Proof.
  assert (Hp : forall r m, dom (a_claims (setPending r m cl f w).2) = dom (a_claims w)).
  { intros r m. unfold setPending. cbv zeta. case_match; [done|]. pose proof (Status_Update_dom (set_condition (bound_condition HostReadyFalse r m) (cl <| m_Phase := MicroVMClaimPending |>)) w) as Hd.
    destruct (Status_Update _ _). done. }
  assert (Hb : dom (a_claims (bind e cl f w).2) = dom (a_claims w)).
  { unfold bind. destruct (f_hosts f !! leastHost f) as [h|]; [|done]. cbv zeta.
    destruct (if bh_MicroVMs h then _ else (w, true)) as [w1 created] eqn:Ec.
    assert (Hw1 : a_claims w1 = a_claims w).
    { destruct (bh_MicroVMs h); [|by injection Ec as <- _]. by apply Create_spec in Ec as (-> & _). }
    rewrite <-Hw1. destruct created; [|done]. simpl. pose proof (Status_Update_dom (bound_claim e h (f_nextID f + 1) cl) w1) as Hd.
    destruct (Status_Update _ _) as [w2 ok]. simpl in Hd. destruct ok; [done|]. cbn [snd]. destruct (bh_MicroVMs h); [|done].
    destruct (Delete_spec (leastHost f) ("microvm-" +:+ Itoa (f_nextID f + 1)) w2) as [-> _]. done. }
  assert (Hr : dom (a_claims (renew e cl f w).2) = dom (a_claims w)).
  { unfold renew. destruct (_ || _).
    - pose proof (Status_Update_dom (expired_claim cl) w) as Hd. destruct (Status_Update _ _) as [w2 ok]. simpl in Hd. destruct ok; [|done]. cbn [negb].
      case_bool_decide; [done|]. destruct (f_held _ !! _) as [vm|]; [|done]. set (f1 := f <| f_expire := _ |>).
      pose proof (replace_claims (m_UID (expired_claim cl)) vm f1 w2) as Hrc. destruct (replace _ _ _ _). simpl in *. by rewrite Hrc.
    - destruct (m_RenewTime cl) as [t|]; [|done]. case_bool_decide; [done|].
      pose proof (Status_Update_dom (renewed_claim e t cl) w) as Hd. by destruct (Status_Update _ _). }
  unfold reconcileClaim. destruct (m_Deleting cl); [done|]. destruct (m_Phase cl); try done.
  1,2: destruct (f_pools f !! m_Pool cl); [case_match|]; auto.
  destruct (renew e cl f w) as [[cl1 f1] w1]. simpl in *. case_bool_decide; [|done]. unfold markHost. destruct (m_Host cl1) as [[node ?]|]; [|done].
  case_match; [|done]. by rewrite Status_Update_dom.
Qed.

Lemma reconcileClaims_dom l f w k : is_Some (a_claims (reconcileClaims l f w).2 !! k) <-> is_Some (a_claims w !! k).
Proof.
  rewrite <-!elem_of_dom. revert f w. induction l as [|[e cl] l IH]; intros f w; simpl; [done|].
  pose proof (reconcileClaim_dom e cl f w) as Hd. destruct (reconcileClaim e cl f w) as [f1 w1]. simpl in Hd. by rewrite IH, Hd.
Qed.

(** What the List of the claims may answer: each claim once, in any order. *)
Definition listing (claims : gmap Z MicroVMClaim) (l : list (benv * MicroVMClaim)) : Prop :=
  l.*2 ≡ₚ (map_to_list claims).*2.

Lemma listing_spec steady used f claims vms lost leaked l : BInv steady used f claims vms lost leaked -> listing claims l ->
  NoDup (m_UID <$> l.*2) /\ (forall e cl, (e, cl) ∈ l -> claims !! m_UID cl = Some cl) /\ (forall k, is_Some (claims !! k) <-> k ∈ m_UID <$> l.*2).
Proof.
  intros HI Hl. unfold listing in Hl.
  assert (Hid : m_UID <$> (map_to_list claims).*2 = (map_to_list claims).*1).
  { rewrite <-list_fmap_compose. apply list_fmap_ext. intros i [k cl] Hx%list_elem_of_lookup_2%elem_of_map_to_list. simpl.
    by apply (bi_claims _ _ _ _ _ _ _ HI). }
  split_and!.
  - rewrite Hl, Hid. apply NoDup_fst_map_to_list.
  - intros e cl Hin. apply (list_elem_of_fmap_2 snd) in Hin. simpl in Hin. rewrite Hl in Hin.
    apply list_elem_of_fmap in Hin as ([k c] & -> & Hin%elem_of_map_to_list). simpl. destruct (bi_claims _ _ _ _ _ _ _ HI _ _ Hin) as [-> _]. done.
  - intros k. rewrite Hl, Hid. rewrite list_elem_of_fmap. split.
    + intros [cl Hk]. exists (k, cl). split; [done|]. by apply elem_of_map_to_list.
    + intros ([k1 cl] & -> & Hk%elem_of_map_to_list). by eexists.
Qed.

(** A reconcile keeps the invariant, and leaves no MicroVM of a claim that is
    gone. *)
Lemma reconcile_inv steady used pools l f w f' w' : BInv steady used f (a_claims w) (a_vms w) (a_lost w) (a_leaked w) -> listing (a_claims w) l ->
  (steady = true -> forall k vm, f_held f !! k = Some vm -> hv_pool vm ∈ bp_Name <$> pools) ->
  reconcile (Some (pools, l)) f w = (f', w') ->
  BInv steady used f' (a_claims w') (a_vms w') (a_lost w') (a_leaked w') /\ f_hosts f' = f_hosts f /\ (forall k, is_Some (f_held f' !! k) -> is_Some (a_claims w' !! k)).
Proof.
  intros HI Hl Hst. unfold reconcile. destruct (listing_spec _ _ _ _ _ _ _ _ HI Hl) as (Hnd & Hin & Hdom).
  pose proof (sizePools_inv _ _ pools _ _ _ _ _ HI Hst) as HI0.
  destruct (reconcileClaims l (sizePools pools f) w) as [f1 w1] eqn:E1.
  pose proof (reconcileClaims_dom l (sizePools pools f) w) as Hd. rewrite E1 in Hd. simpl in Hd.
  apply (reconcileClaims_inv steady used) in E1 as (HI1 & Hk1 & Hh1); [|done..].
  destruct (sweep _ (map_to_list (f_held f1)) f1 w1) as [f2 w2] eqn:E2.
  apply (sweep_inv steady used) in E2 as (HI2 & Hc2 & Hh2 & Hs2); [|done|apply NoDup_fst_map_to_list| |].
  - intros [= <- <-]. destruct (writePools_frame pools f2 w2) as (-> & -> & -> & ->). split_and!; [done|by rewrite Hh2, Hh1|].
    intros k [vm [Hv [Hlive|Hno]]%Hs2].
    + rewrite Hc2, Hd. apply Hdom. by apply elem_of_list_to_set in Hlive.
    + destruct Hno. apply list_elem_of_fmap. exists (k, vm). split; [done|]. by apply elem_of_map_to_list.
  - intros k vm. by apply elem_of_map_to_list.
  - intros k Hk. apply elem_of_list_to_set, Hdom. by rewrite <-Hd.
Qed.
End ReconcileInv.

(** ** The cluster

    The battery, the claims of the API server, the MicroVMs of the Hosts with
    those of them that were left behind, the claims of which an answer was
    lost, and the UIDs given out.  The clients create, renew and delete claims and a
    test asks for expiries and unready Hosts, in any order with the
    reconciles, whose Lists of Pools may answer any Pools. *)
Record cluster := {
  y_f : Battery; y_claims : gmap Z MicroVMClaim; y_vms : gset (nat * string); y_leaked : gset (nat * string); y_lost : gset Z; y_used : gset Z }.
#[export] Instance eta_cluster : Eta cluster :=
  fun r => {| y_f := y_f r; y_claims := y_claims r; y_vms := y_vms r; y_leaked := y_leaked r; y_lost := y_lost r; y_used := y_used r |}.

Section Cluster.
Context `{StatusConditions} (steady : bool) (hosts : list BHost).

Definition cluster0 : cluster := {| y_f := NewBattery hosts; y_claims := ∅; y_vms := ∅; y_leaked := ∅; y_lost := ∅; y_used := ∅ |}.
Definition api_of (y : cluster) (answers : list reply) : apis :=
  {| a_claims := y_claims y; a_vms := y_vms y; a_answers := answers; a_pools := []; a_leaked := y_leaked y; a_lost := y_lost y |}.
Definition new_claim (uid : Z) (name pool : string) (t : option time) : MicroVMClaim :=
  {| m_UID := uid; m_Name := name; m_Deleting := false; m_Pool := pool; m_RenewTime := t; m_Phase := PhaseNone; m_LeaseID := "";
     m_MicroVM := None; m_Host := None; m_BoundTime := None; m_Observed := None; m_LeaseExpiresAt := None; m_Conditions := [] |}.
Definition with_claims (claims : gmap Z MicroVMClaim) (y : cluster) : cluster := y <| y_claims := claims |>.
Definition with_battery (f : Battery) (y : cluster) : cluster := y <| y_f := f |>.
Definition after_reconcile (pools : list BPool) (l : list (benv * MicroVMClaim)) (answers : list reply) (y : cluster) : cluster :=
  let '(f, w) := reconcile (Some (pools, l)) (y_f y) (api_of y answers) in
  {| y_f := f; y_claims := a_claims w; y_vms := a_vms w; y_leaked := a_leaked w; y_lost := a_lost w; y_used := y_used y |}.

Inductive cluster_step : cluster -> cluster -> Prop :=
  | CCreate y uid name pool t : uid ∉ y_used y ->
      cluster_step y (y <| y_claims := <[uid := new_claim uid name pool t]> (y_claims y) |> <| y_used := {[uid]} ∪ y_used y |>)
  | CRenew y uid cl t : y_claims y !! uid = Some cl -> cluster_step y (with_claims (<[uid := cl <| m_RenewTime := Some t |>]> (y_claims y)) y)
  | CMark y uid cl : y_claims y !! uid = Some cl -> cluster_step y (with_claims (<[uid := cl <| m_Deleting := true |>]> (y_claims y)) y)
  | CDelete y uid : cluster_step y (with_claims (delete uid (y_claims y)) y)
  | CExpire y name : cluster_step y (with_battery (Battery_Expire name (y_f y)) y)
  | CExpireKeep y name : cluster_step y (with_battery (ExpireKeepingMicroVM name (y_f y)) y)
  | CNotReady y node reason message : cluster_step y (with_battery (SetHostNotReady node reason message (y_f y)) y)
  | CReady y node : cluster_step y (with_battery (SetHostReady node (y_f y)) y)
  | CReconcile y pools l answers : listing (y_claims y) l ->
      (steady = true -> forall k vm, f_held (y_f y) !! k = Some vm -> hv_pool vm ∈ bp_Name <$> pools) ->
      cluster_step y (after_reconcile pools l answers y).
Inductive cluster_reach : cluster -> Prop :=
  | CRInit : cluster_reach cluster0
  | CRStep y y' : cluster_reach y -> cluster_step y y' -> cluster_reach y'.

Definition CInvOK (y : cluster) : Prop :=
  BInv steady (y_used y) (y_f y) (y_claims y) (y_vms y) (y_lost y) (y_leaked y) /\ f_hosts (y_f y) = f_hosts (NewBattery hosts).

Lemma cluster_step_inv y y' : CInvOK y -> cluster_step y y' -> CInvOK y'.
Proof.
  intros [HI Hh] Hs. destruct Hs as [y uid name pool t Hu|y uid cl t Hc|y uid cl Hc|y uid|y name|y name|y node r m|y node|y pools l ans Hl Hst];
    (split; [|try done]); simpl.
  - destruct HI. split; try done.
    + intros k vm Hk. destruct (bi_named0 k vm Hk) as (? & ?). split; [set_solver|done].
    + intros k cl. destruct (decide (k = uid)) as [->|Hne]; [|rewrite lookup_insert_ne by done; intros Hc; destruct (bi_claims0 _ _ Hc) as (? & ? & ?); set_solver].
      rewrite lookup_insert_eq. intros [= <-]. split_and!; [done|set_solver|]. unfold claim_ok. simpl.
      destruct (f_held (y_f y) !! uid) as [vm|] eqn:Ev; [|done]. by destruct (bi_named0 _ _ Ev).
    + assert (Hb : forall k c, <[uid := new_claim uid name pool t]> (y_claims y) !! k = Some c -> m_Phase c = MicroVMClaimBound -> y_claims y !! k = Some c).
      { intros k c [[_ <-]|[_ Hk]]%lookup_insert_Some Hp; done. }
      intros k1 k2 c1 c2 H1 H2 P1 P2. by apply (bi_bound0 _ _ _ _ (Hb _ _ H1 P1) (Hb _ _ H2 P2)).
  - destruct (bi_claims _ _ _ _ _ _ _ HI _ _ Hc) as (Hid & _ & Hok). apply (update_inv _ _ _ _ _ _ _ (cl <| m_RenewTime := Some t |>) cl) in HI; simpl in *; [by rewrite Hid in HI|by rewrite Hid|done|done].
  - destruct (bi_claims _ _ _ _ _ _ _ HI _ _ Hc) as (Hid & _ & Hok). apply (update_inv _ _ _ _ _ _ _ (cl <| m_Deleting := true |>) cl) in HI; simpl in *; [by rewrite Hid in HI|by rewrite Hid|done|done].
  - destruct HI. split; try done; [intros k cl [_ Hc]%lookup_delete_Some; by apply bi_claims0|].
    intros k1 k2 c1 c2 [_ H1]%lookup_delete_Some [_ H2]%lookup_delete_Some. by eapply bi_bound0.
  - by apply (inv_frame _ _ (y_f y)).
  - by apply (inv_frame _ _ (y_f y)).
  - by apply (inv_frame _ _ (y_f y)).
  - by apply (inv_frame _ _ (y_f y)).
  - unfold after_reconcile. destruct (reconcile _ _ _) as [f w] eqn:Er. apply (reconcile_inv steady (y_used y)) in Er as (HI' & _); done.
  - unfold after_reconcile. destruct (reconcile _ _ _) as [f w] eqn:Er. apply (reconcile_inv steady (y_used y)) in Er as (_ & Hh' & _); [exact (eq_trans Hh' Hh)|done..].
Qed.

Lemma cluster_reach_inv y : cluster_reach y -> CInvOK y.
Proof.
  induction 1 as [|y y' _ IH Hs]; [|by eapply cluster_step_inv]. split; [|done]. split; try done.
  - unfold cluster0. simpl. by case_match.
  - intros h u. split; [by intros ?%not_elem_of_empty|]. by intros [(k & vm & ho & Hk & _)|?%not_elem_of_empty].
Qed.
End Cluster.

(** ** What the claim backend sees *)
Section Seen.
Context `{StatusConditions}.

(** The object a Heartbeat reads, and the claim the Client Library returns. *)
Definition claimObject_of (cl : MicroVMClaim) : claimObject :=
  {| cl_Expired := bool_decide (m_Phase cl = MicroVMClaimExpired); cl_Deleting := m_Deleting cl; cl_MicroVM := m_MicroVM cl;
     cl_HostReady := c_Status <$> FindStatusCondition (m_Conditions cl) ConditionHostReady; cl_LeaseExpiresAt := m_LeaseExpiresAt cl |}.
Definition boundClaim_of (cl : MicroVMClaim) : boundClaim :=
  {| bc_Name := m_Name cl; bc_MicroVMUID := default "" (m_MicroVM cl);
     bc_NodeName := match m_Host cl with Some (n, _) => n | None => "" end;
     bc_AgentAddress := match m_Host cl with Some (_, a) => a | None => "" end |}.

(** C40: The fake battery.  In every state, whatever the clients and the tests do
    between the reconciles, whatever the Lists find, and whether each call is
    done, refused, or done and still answered with an error: no two Bound
    claims name the same MicroVM; a Bound claim names one and a Host, so that
    the claim backend accepts it as complete; unless the answer to one of its
    writes was lost, the MicroVM is held for it, on that Host; a Host's count
    is the number of MicroVMs held on it; and the MicroVMs that exist are those
    that are held and those left behind by a create whose answer was lost or a
    delete that failed, which nobody holds. *)
Theorem battery_sound steady hosts y : (forall h, h ∈ hosts -> bh_NodeName h <> "") -> cluster_reach steady hosts y ->
  (forall k1 k2 c1 c2, y_claims y !! k1 = Some c1 -> y_claims y !! k2 = Some c2 -> m_Phase c1 = MicroVMClaimBound ->
     m_Phase c2 = MicroVMClaimBound -> m_MicroVM c1 = m_MicroVM c2 -> k1 = k2)
  /\ (forall k cl, y_claims y !! k = Some cl -> m_Phase cl = MicroVMClaimBound ->
       exists u i h, f_hosts (y_f y) !! i = Some h
         /\ claimOf (boundClaim_of cl) = Ok {| LeaseID := m_Name cl; VMUID := u; NetworkInterfaces := [];
                                             claim_Host := {| hr_Name := bh_NodeName h; hr_Address := bh_AgentAddress h |} |}
         /\ (k ∉ y_lost y -> exists vm, f_held (y_f y) !! k = Some vm)
         /\ forall vm, f_held (y_f y) !! k = Some vm -> hv_uid vm = u /\ hv_host vm = i /\ hv_pool vm = m_Pool cl)
  /\ (forall h, on (y_f y) h = map_count (at_host h) (f_held (y_f y)))
  /\ (forall h u, (h, u) ∈ y_vms y <-> flint_held (y_f y) h u \/ (h, u) ∈ y_leaked y)
  /\ (forall h u k vm, (h, u) ∈ y_leaked y -> f_held (y_f y) !! k = Some vm -> hv_uid vm <> u).
Proof.
  intros Hn [HI Hh]%cluster_reach_inv. split_and!; [apply HI| |apply HI|apply HI|].
  - intros k cl Hk Hp. destruct (bi_claims _ _ _ _ _ _ _ HI _ _ Hk) as (Hu & _ & Hok). unfold claim_ok in Hok. rewrite Hp, Hu in Hok.
    destruct Hok as (u & i & h & Hm & (n & _ & Hun) & Hho & Hmh & _ & Hheld). exists u, i, h. split; [done|]. split; [|split].
    + unfold claimOf, boundClaim_of. simpl. rewrite Hm, Hmh, Hun. simpl.
      assert (bh_NodeName h <> "") as Hne%String.eqb_neq; [|by rewrite Hne].
      rewrite Hh in Hho. apply list_elem_of_lookup_2 in Hho. unfold NewBattery in Hho. simpl in Hho.
      destruct hosts; [by apply list_elem_of_singleton in Hho as ->|by apply Hn].
    + intros Hl. destruct (f_held (y_f y) !! k) as [vm|]; [by exists vm|done].
    + intros vm Hv. by rewrite Hv in Hheld.
  - intros h u k vm Hl. by apply (bi_leaked _ _ _ _ _ _ _ HI h u Hl).
Qed.

(** While no Pool is deleted with claims held, the counts are right: a Pool's
    leased count is the number of its MicroVMs that are held, and its warm
    ones are what is missing to its size. *)
Theorem battery_counts hosts y p fp : cluster_reach true hosts y -> f_pools (y_f y) !! p = Some fp ->
  fp_leased fp = heldIn p (y_f y) /\ fp_warm fp = Z.max (fp_size fp - heldIn p (y_f y)) 0.
Proof.
  intros [HI _]%cluster_reach_inv Hp. pose proof (bi_steady _ _ _ _ _ _ _ HI eq_refl p) as Hs. unfold leasedOf in Hs. rewrite Hp in Hs.
  destruct (bi_pools _ _ _ _ _ _ _ HI _ _ Hp) as [Hw _]. by rewrite Hw, Hs.
Qed.

(** After a reconcile no MicroVM exists whose claim is gone, but for those
    left behind. *)
Theorem reconcile_frees steady hosts y pools l answers h u : cluster_reach steady hosts y -> listing (y_claims y) l ->
  (steady = true -> forall k vm, f_held (y_f y) !! k = Some vm -> hv_pool vm ∈ bp_Name <$> pools) ->
  let y' := after_reconcile pools l answers y in
  (h, u) ∈ y_vms y' -> (h, u) ∉ y_leaked y' -> exists k vm cl, f_held (y_f y') !! k = Some vm /\ hv_uid vm = u /\ y_claims y' !! k = Some cl.
Proof.
  intros [HI _]%cluster_reach_inv Hl Hst. cbv zeta. unfold after_reconcile. destruct (reconcile _ _ _) as [f w] eqn:Er.
  apply (reconcile_inv steady (y_used y)) in Er as (HI' & _ & Hlive); [|done..]. simpl.
  intros [(k & vm & ho & Hk & _ & Hu & _)|Hin]%(bi_vms _ _ _ _ _ _ _ HI') Hnl; [|done]. destruct (Hlive k) as [cl Hcl]; [by eexists|]. by exists k, vm, cl.
Qed.

(** A Heartbeat of the claim backend that reads a Bound claim of the fake
    battery's, while it is not being deleted, answers the Lease's expiry, or
    that its Host is not ready; and one that reads it Expired gives it up. *)
Theorem Heartbeat_of_battery steady hosts y k cl leaseID id b : cluster_reach steady hosts y -> y_claims y !! k = Some cl ->
  Held leaseID b = Some id -> bk_objects b !! id = Some (boundClaim_of cl) -> m_Deleting cl = false ->
  let be := {| be_err := None; be_hostErr := None; be_get := inr (claimObject_of cl) |} in
  (m_Phase cl = MicroVMClaimBound ->
     (exists t, m_LeaseExpiresAt cl = Some t /\ claim_Heartbeat leaseID be b = (b, Ok t))
     \/ (exists e, cl_HostReady (claimObject_of cl) = Some HostReadyFalse /\ claim_Heartbeat leaseID be b = (forget leaseID id b, Err e) /\ errors_Is e ErrNotFound = true))
  /\ (m_Phase cl = MicroVMClaimExpired -> exists e, claim_Heartbeat leaseID be b = (forget leaseID id b, Err e) /\ errors_Is e ErrNotFound = true).
Proof.
  intros [HI _]%cluster_reach_inv Hk Hheld Hobj Hdel. cbv zeta. destruct (bi_claims _ _ _ _ _ _ _ HI _ _ Hk) as (_ & _ & Hok). unfold claim_ok in Hok.
  unfold claim_Heartbeat. rewrite Hheld. simpl. rewrite Hobj. unfold lost, hostErr. simpl. rewrite Hdel. split; intros Hp; rewrite Hp in Hok |- *; simpl.
  - destruct Hok as (u & i & h & Hm & _ & _ & _ & [t Ht] & _). rewrite Hm. simpl. rewrite String.eqb_refl. simpl.
    destruct (FindStatusCondition _ _) as [c|]; simpl; [destruct (c_Status c); simpl|]; try (left; exists t; rewrite Ht; done).
    right. eexists. done.
  - eexists. done.
Qed.
End Seen.

(** ** One claim, when every call succeeds *)
Section Progress.
Context `{StatusConditionsLaws}.

Lemma Status_Update_good cl w : a_answers w = [] -> is_Some (a_claims w !! m_UID cl) ->
  Status_Update cl w = (w <| a_claims := <[m_UID cl := cl]> (a_claims w) |>, true).
Proof. intros Ha [c Hc]. unfold Status_Update, answer. by rewrite Ha, Hc. Qed.

(** A claim that waits is bound when its Pool has a warm MicroVM: it names a
    new MicroVM, on a Host none has fewer than, a Lease that runs from now, and
    the Pool has one warm MicroVM less and one leased more. *)
Theorem waiting_claim_binds e cl f w fp f' w' : a_answers w = [] -> a_claims w !! m_UID cl = Some cl -> f_hosts f <> [] ->
  m_Phase cl ∈ [PhaseNone; MicroVMClaimPending] -> m_Deleting cl = false -> f_pools f !! m_Pool cl = Some fp -> 0 < fp_warm fp ->
  reconcileClaim e cl f w = (f', w') ->
  exists cl' vm h, a_claims w' !! m_UID cl = Some cl' /\ m_Phase cl' = MicroVMClaimBound /\ f_held f' !! m_UID cl = Some vm
    /\ m_MicroVM cl' = Some (hv_uid vm) /\ hv_uid vm = "microvm-" +:+ Itoa (f_nextID f + 1) /\ m_LeaseExpiresAt cl' = Some (be_now e + expiry (be_pool e))
    /\ f_hosts f !! hv_host vm = Some h /\ m_Host cl' = Some (bh_NodeName h, bh_AgentAddress h) /\ (bh_MicroVMs h = true -> (hv_host vm, hv_uid vm) ∈ a_vms w')
    /\ (forall i, (i < length (f_hosts f))%nat -> on f (hv_host vm) <= on f i) /\ f_pools f' !! m_Pool cl = Some (take_slot fp).
Proof.
  intros Ha Hcl Hne Hph Hdel Hfp Hw. destruct (leastHost_in f Hne) as [h Hh]. unfold reconcileClaim. rewrite Hdel.
  assert (Hb : bind e cl f w = (f', w') ->
    (match m_Phase cl with PhaseNone | MicroVMClaimPending => True | _ => False end) -> exists w1,
      a_claims w1 = <[m_UID cl := bound_claim e h (f_nextID f + 1) cl]> (a_claims w)
      /\ (bh_MicroVMs h = true -> (leastHost f, "microvm-" +:+ Itoa (f_nextID f + 1)) ∈ a_vms w1) /\ w' = w1
      /\ f' = f <| f_nextID := f_nextID f + 1 |> <| f_pools := alter take_slot (m_Pool cl) (f_pools f) |>
                <| f_onHost := <[leastHost f := on f (leastHost f) + 1]> (f_onHost f) |>
                <| f_held := <[m_UID cl := {| hv_pool := m_Pool cl; hv_host := leastHost f; hv_uid := "microvm-" +:+ Itoa (f_nextID f + 1) |}]> (f_held f) |>).
  { unfold bind. rewrite Hh. cbv zeta. intros Hb _. destruct (bh_MicroVMs h).
    - unfold CreateMicroVM, answer in Hb. rewrite Ha in Hb. cbn [negb] in Hb. rewrite Status_Update_good in Hb by (simpl; done || by eexists).
      injection Hb as <- <-. eexists. split_and!; [| |done|done]; simpl; [done|]. set_solver.
    - cbn [negb] in Hb. rewrite Status_Update_good in Hb by (simpl; done || by eexists).
      injection Hb as <- <-. eexists. split_and!; [| |done|done]; simpl; done. }
  rewrite Hfp. destruct (Z.leb_spec (fp_warm fp) 0); [lia|]. intros Hrc.
  destruct Hb as (w1 & Hc1 & Hv1 & -> & ->).
  { apply elem_of_cons in Hph as [Hp|[Hp|[]%elem_of_nil]%elem_of_cons]; by rewrite Hp in Hrc. }
  { apply elem_of_cons in Hph as [Hp|[Hp|[]%elem_of_nil]%elem_of_cons]; by rewrite Hp. }
  clear Hrc. eexists _, {| hv_pool := m_Pool cl; hv_host := leastHost f; hv_uid := "microvm-" +:+ Itoa (f_nextID f + 1) |}, h.
  rewrite Hc1, lookup_insert_eq. split; [done|]. simpl. rewrite lookup_insert_eq, lookup_alter_eq, Hfp. split_and!; try done.
  intros i Hi. by apply leastHost_least.
Qed.

(** A Bound claim: with its Lease lapsed, or expired by a test, it becomes
    Expired and its MicroVM goes, unless that is kept until the claim goes;
    else it stays Bound to its MicroVM, a renewal extends its Lease, and its
    HostReady condition is what the Host's readiness is. *)
Theorem bound_claim_kept e cl f w f' w' : a_answers w = [] -> a_claims w !! m_UID cl = Some cl -> m_Phase cl = MicroVMClaimBound -> m_Deleting cl = false ->
  (forall node c, f_notReady f !! node = Some c -> c_Type c = ConditionHostReady) -> reconcileClaim e cl f w = (f', w') ->
  exists cl', a_claims w' !! m_UID cl = Some cl' /\
  if bool_decide (m_Name cl ∈ f_expire f) || lapsed e cl then
    m_Phase cl' = MicroVMClaimExpired /\ m_Name cl ∉ f_expire f'
    /\ f_held f' = if bool_decide (m_Name cl ∈ f_keep f) then f_held f else delete (m_UID cl) (f_held f)
  else
    m_Phase cl' = MicroVMClaimBound /\ m_MicroVM cl' = m_MicroVM cl /\ f' = f
    /\ m_LeaseExpiresAt cl' = (match m_RenewTime cl with
                              | Some t => if bool_decide (m_Observed cl = Some t) then m_LeaseExpiresAt cl else Some (t + expiry (be_pool e))
                              | None => m_LeaseExpiresAt cl end)
    /\ forall node agent, m_Host cl = Some (node, agent) -> FindStatusCondition (m_Conditions cl') ConditionHostReady = Some (host_condition node f).
Proof.
  intros Ha Hcl Hph Hdel Hty. unfold reconcileClaim. rewrite Hdel, Hph. unfold renew. destruct (bool_decide (m_Name cl ∈ f_expire f) || lapsed e cl).
  - rewrite Status_Update_good by (done || by eexists). cbn [negb]. intros Hr.
    assert (Hex : exists cl1 f1 w1, f' = f1 /\ w' = w1 /\ m_Phase cl1 = MicroVMClaimExpired /\ a_claims w1 = <[m_UID cl := expired_claim cl]> (a_claims w)
      /\ f_expire f1 = f_expire f ∖ {[m_Name cl]} /\ f_held f1 = if bool_decide (m_Name cl ∈ f_keep f) then f_held f else delete (m_UID cl) (f_held f)).
    { change (m_Name (expired_claim cl)) with (m_Name cl) in Hr. simpl in Hr. destruct (bool_decide (m_Name cl ∈ f_keep f)).
      - simpl in Hr. injection Hr as <- <-. by eexists (expired_claim cl), _, _.
      - destruct (f_held f !! m_UID cl) as [vm|] eqn:Ev.
        + simpl in Hr. injection Hr as <- <-.
          eexists (expired_claim cl), _, _. split_and!; try done.
          repeat (case_match; simpl); try done. destruct (Delete_spec (hv_host vm) (hv_uid vm) (w <| a_claims := <[m_UID cl := expired_claim cl]> (a_claims w) |>)) as [Hd _]. exact Hd.
        + simpl in Hr. injection Hr as <- <-. eexists (expired_claim cl), _, _. split_and!; try done. simpl. by rewrite delete_id. }
    destruct Hex as (cl1 & f1 & w1 & -> & -> & _ & -> & He & Hd). exists (expired_claim cl). rewrite lookup_insert_eq. split_and!; try done. set_solver.
  - set (cl1 := match m_RenewTime cl with Some t => if bool_decide (m_Observed cl = Some t) then cl else renewed_claim e t cl | None => cl end).
    intros Hr. assert (Hex : exists w1, a_answers w1 = [] /\ a_claims w1 !! m_UID cl = Some cl1 /\ f' = f /\ w' = markHost cl1 f w1).
    { unfold cl1. destruct (m_RenewTime cl) as [t|]; [destruct (bool_decide (m_Observed cl = Some t))|].
      - rewrite Hph in Hr. injection Hr as <- <-. by exists w.
      - rewrite Status_Update_good in Hr by (done || by eexists). simpl in Hr. rewrite Hph in Hr. injection Hr as <- <-. eexists. split_and!; [| |done|done]; simpl; [done|]. by rewrite lookup_insert_eq.
      - rewrite Hph in Hr. injection Hr as <- <-. by exists w. }
    clear Hr. destruct Hex as (w1 & Ha1 & Hc1 & -> & ->).
    assert (H1 : m_UID cl1 = m_UID cl /\ m_Phase cl1 = m_Phase cl /\ m_MicroVM cl1 = m_MicroVM cl /\ m_Host cl1 = m_Host cl
      /\ m_LeaseExpiresAt cl1 = match m_RenewTime cl with
           | Some t => if bool_decide (m_Observed cl = Some t) then m_LeaseExpiresAt cl else Some (t + expiry (be_pool e)) | None => m_LeaseExpiresAt cl end)
      by (unfold cl1; repeat case_match; done).
    destruct H1 as (Hu & Hp & Hm & Hho & Hle). rewrite <-Hho, <-Hle, <-Hm, <-Hu. rewrite <-Hu in Hc1. rewrite Hph in Hp. clearbody cl1.
    unfold markHost. destruct (m_Host cl1) as [[node agent]|]; [|exists cl1; by split_and!].
    set (c := host_condition node f). assert (Hc : c_Type c = ConditionHostReady) by (unfold c, host_condition; destruct (f_notReady f !! node) eqn:En; [by eapply Hty|done]).
    destruct (SetStatusCondition (m_Conditions cl1) c).2 eqn:E2.
    + rewrite Status_Update_good by (done || by eexists). simpl. exists (set_condition c cl1). rewrite lookup_insert_eq. split_and!; try done.
      intros node1 agent1 [= <- <-]. unfold set_condition. simpl. rewrite <-Hc. apply find_set.
    + exists cl1. split_and!; try done. intros node1 agent1 [= <- <-]. rewrite <-(set_unchanged _ _ E2), <-Hc. apply find_set.
Qed.
End Progress.

(** ** A cluster of two Hosts *)
Fixpoint demo_set (l : list condition) (c : condition) : list condition * bool :=
  match l with
  | [] => ([c], true)
  | d :: l => if String.eqb (c_Type d) (c_Type c) then (c :: l, negb (bool_decide (c = d)))
              else let '(l, b) := demo_set l c in (d :: l, b)
  end.
Fixpoint demo_find (l : list condition) (t : string) : option condition :=
  match l with [] => None | c :: l => if String.eqb (c_Type c) t then Some c else demo_find l t end.
#[export] Instance demo_conditions : StatusConditions := {| FindStatusCondition := demo_find; SetStatusCondition := demo_set |}.
#[export] Instance demo_conditions_laws : StatusConditionsLaws.
Proof.
  split; simpl.
  - intros l c. induction l as [|d l IH]; simpl; [by rewrite String.eqb_refl|]. destruct (String.eqb (c_Type d) (c_Type c)) eqn:E; simpl; [by rewrite String.eqb_refl|].
    destruct (demo_set l c) as [l' b]. simpl in *. by rewrite E.
  - intros l c t Hne%String.eqb_neq. induction l as [|d l IH]; simpl; [by rewrite Hne|]. destruct (String.eqb_spec (c_Type d) (c_Type c)) as [Heq|]; simpl; [by rewrite Heq, Hne|].
    destruct (demo_set l c) as [l' b]. simpl in *. by rewrite IH.
  - intros l c. induction l as [|d l IH]; simpl; [done|]. destruct (String.eqb (c_Type d) (c_Type c)); simpl; [by case_bool_decide as Hd; [rewrite Hd|]|].
    destruct (demo_set l c) as [l' b]. simpl in *. intros ->. by rewrite IH.
Qed.

Definition demo_hosts : list BHost :=
  [{| bh_NodeName := "node-1"; bh_AgentAddress := "10.0.0.1:9443"; bh_MicroVMs := true |};
   {| bh_NodeName := "node-2"; bh_AgentAddress := "10.0.0.2:9443"; bh_MicroVMs := false |}].
Definition demo_pool (size : Z) : BPool := {| bp_Name := "small"; bp_Size := size; bp_Generation := 1; bp_Observed := 0; bp_Available := 0; bp_Leased := 0 |}.
Definition demo_benv (t : time) : benv := {| be_now := t; be_pool := Some (Some (10 * second)) |}.
Definition demo_claim : MicroVMClaim := new_claim 1 "claim-1" "small" None.
Definition demo_y1 : cluster :=
  {| y_f := NewBattery demo_hosts; y_claims := <[1 := demo_claim]> ∅; y_vms := ∅; y_used := {[1]} ∪ ∅; y_leaked := ∅; y_lost := ∅ |}.
Definition demo_y2 : cluster := after_reconcile [demo_pool 1] [(demo_benv 0, demo_claim)] [] demo_y1.
Definition demo_bound : MicroVMClaim := default demo_claim (y_claims demo_y2 !! 1).

Lemma demo_y1_listing : listing (y_claims demo_y1) [(demo_benv 0, demo_claim)].
Proof. unfold listing, demo_y1. simpl. rewrite insert_empty, map_to_list_singleton. done. Qed.
Lemma demo_y1_reach steady : cluster_reach steady demo_hosts demo_y1.
Proof. eapply CRStep; [apply CRInit|]. apply CCreate. apply not_elem_of_empty. Qed.
Lemma demo_y2_reach steady : cluster_reach steady demo_hosts demo_y2.
Proof. eapply CRStep; [apply demo_y1_reach|]. apply CReconcile; [apply demo_y1_listing|]. intros _ k vm. unfold demo_y1. simpl. by rewrite lookup_empty. Qed.

Lemma battery_sound_witness : m_Phase demo_bound = MicroVMClaimBound /\ m_MicroVM demo_bound = Some "microvm-1"
  /\ on (y_f demo_y2) 0 = 1 /\ y_vms demo_y2 = {[(0%nat, "microvm-1")]}
  /\ exists vm, f_held (y_f demo_y2) !! 1 = Some vm /\ m_MicroVM demo_bound = Some (hv_uid vm).
Proof.
  assert (Hn : forall h, h ∈ demo_hosts -> bh_NodeName h <> "") by (intros h Hh; unfold demo_hosts in Hh; set_solver).
  destruct (battery_sound false demo_hosts demo_y2 Hn (demo_y2_reach false)) as (_ & H2 & _).
  destruct (H2 1 demo_bound) as (u & i & h & _ & Hc & Hl & Hu); [vm_compute; reflexivity..|].
  assert (y_lost demo_y2 = ∅) as Hno by (vm_compute; reflexivity). destruct Hl as [vm Hv]; [rewrite Hno; apply not_elem_of_empty|].
  split_and!; [vm_compute; reflexivity..|]. exists vm. split; [exact Hv|]. destruct (Hu vm Hv) as (-> & _).
  unfold claimOf in Hc. vm_compute in Hc. injection Hc as <-. reflexivity.
Defined.

Lemma battery_counts_witness : exists fp, f_pools (y_f demo_y2) !! "small" = Some fp /\ fp_leased fp = 1 /\ fp_leased fp = heldIn "small" (y_f demo_y2).
Proof.
  exists {| fp_size := 1; fp_warm := 0; fp_leased := 1 |}. split; [vm_compute; reflexivity|]. split; [reflexivity|].
  apply (battery_counts demo_hosts demo_y2 "small" _ (demo_y2_reach true)). vm_compute. reflexivity.
Defined.

(** The claim is deleted: the reconcile deletes its MicroVM. *)
Definition demo_y3 : cluster := with_claims (delete 1 (y_claims demo_y2)) demo_y2.
Lemma demo_y3_reach steady : cluster_reach steady demo_hosts demo_y3.
Proof. eapply CRStep; [apply demo_y2_reach|]. apply CDelete. Qed.

Lemma reconcile_frees_witness : y_vms demo_y3 = {[(0%nat, "microvm-1")]} /\ y_vms (after_reconcile [demo_pool 1] [] [] demo_y3) = ∅
  /\ exists k vm cl, f_held (y_f (after_reconcile [demo_pool 1] [(demo_benv 1, demo_bound)] [] demo_y2)) !! k = Some vm /\ hv_uid vm = "microvm-1"
     /\ y_claims (after_reconcile [demo_pool 1] [(demo_benv 1, demo_bound)] [] demo_y2) !! k = Some cl.
Proof.
  split; [vm_compute; reflexivity|]. split; [vm_compute; reflexivity|].
  apply (reconcile_frees false demo_hosts demo_y2 [demo_pool 1] [(demo_benv 1, demo_bound)] [] 0%nat "microvm-1" (demo_y2_reach false)).
  - assert (y_claims demo_y2 = {[1 := demo_bound]}) as -> by (vm_compute; reflexivity). unfold listing. rewrite map_to_list_singleton. reflexivity.
  - intros Hf. discriminate Hf.
  - assert (y_vms (after_reconcile [demo_pool 1] [(demo_benv 1, demo_bound)] [] demo_y2) = {[(0%nat, "microvm-1")]}) as -> by (vm_compute; reflexivity).
    apply elem_of_singleton. reflexivity.
  - assert (y_leaked (after_reconcile [demo_pool 1] [(demo_benv 1, demo_bound)] [] demo_y2) = ∅) as -> by (vm_compute; reflexivity).
    apply not_elem_of_empty.
Defined.

(** The delete of the released MicroVM fails, which nobody hears of: the
    MicroVM stays, and no claim holds it. *)
Example failed_delete_leaks : let y := after_reconcile [demo_pool 1] [] [Refused] demo_y3 in
  y_vms y = {[(0%nat, "microvm-1")]} /\ y_leaked y = {[(0%nat, "microvm-1")]} /\ f_held (y_f y) = ∅.
Proof. split_and!; vm_compute; reflexivity. Qed.

(** The binding is written and its answer is lost: the MicroVM is deleted
    again, and the claim stays Bound to it. *)
Example lost_bind_names_no_microvm : let y := after_reconcile [demo_pool 1] [(demo_benv 0, demo_claim)] [Done; Lost] demo_y1 in
  m_Phase <$> y_claims y !! 1 = Some MicroVMClaimBound /\ y_vms y = ∅ /\ f_held (y_f y) = ∅ /\ y_lost y = {[1]}.
Proof. split_and!; vm_compute; reflexivity. Qed.

Definition demo_backend : Backend :=
  {| bk_profiles := ∅; bk_claims := Some 0; bk_held := {["claim-1" := 0]}; bk_objects := {[0 := boundClaim_of demo_bound]}; bk_next := 1;
     bk_letGo := []; bk_released := []; bk_closed := false |}.
Lemma Heartbeat_of_battery_witness : exists t, m_LeaseExpiresAt demo_bound = Some t
  /\ claim_Heartbeat "claim-1" {| be_err := None; be_hostErr := None; be_get := inr (claimObject_of demo_bound) |} demo_backend = (demo_backend, Ok t).
Proof.
  destruct (Heartbeat_of_battery false demo_hosts demo_y2 1 demo_bound "claim-1" 0 demo_backend (demo_y2_reach false)) as (H1 & _);
    [vm_compute; reflexivity..|].
  destruct H1 as [H1|(e & H1 & _)]; [vm_compute; reflexivity|exact H1|]. exfalso. vm_compute in H1. discriminate.
Defined.

Definition demo_sized : Battery := sizePools [demo_pool 1] (NewBattery demo_hosts).
Lemma waiting_claim_binds_witness : exists cl', a_claims (reconcileClaim (demo_benv 0) demo_claim demo_sized (api_of demo_y1 [])).2 !! 1 = Some cl'
  /\ m_Phase cl' = MicroVMClaimBound /\ m_LeaseExpiresAt cl' = Some (10 * second).
Proof.
  destruct (waiting_claim_binds (demo_benv 0) demo_claim demo_sized (api_of demo_y1 []) {| fp_size := 1; fp_warm := 1; fp_leased := 0 |}
    (reconcileClaim (demo_benv 0) demo_claim demo_sized (api_of demo_y1 [])).1 (reconcileClaim (demo_benv 0) demo_claim demo_sized (api_of demo_y1 [])).2)
    as (cl' & vm & h & H1 & H2 & _ & _ & _ & H3 & _); [vm_compute; try reflexivity; discriminate..| | | | | |].
  - left.
  - reflexivity.
  - vm_compute. reflexivity.
  - reflexivity.
  - apply surjective_pairing.
  - exists cl'. split; [exact H1|]. split; [exact H2|exact H3].
Defined.

(** Its Host is reported not ready: the next reconcile says so on the claim. *)
Definition demo_unready : Battery := SetHostNotReady "node-1" "KVMMissing" "no /dev/kvm" (y_f demo_y2).
Lemma bound_claim_kept_witness : exists cl', a_claims (reconcileClaim (demo_benv 1) demo_bound demo_unready (api_of demo_y2 [])).2 !! 1 = Some cl'
  /\ m_Phase cl' = MicroVMClaimBound
  /\ FindStatusCondition (m_Conditions cl') ConditionHostReady
     = Some {| c_Type := ConditionHostReady; c_Status := HostReadyFalse; c_Reason := "KVMMissing"; c_Message := "no /dev/kvm" |}.
Proof.
  destruct (bound_claim_kept (demo_benv 1) demo_bound demo_unready (api_of demo_y2 [])
    (reconcileClaim (demo_benv 1) demo_bound demo_unready (api_of demo_y2 [])).1 (reconcileClaim (demo_benv 1) demo_bound demo_unready (api_of demo_y2 [])).2)
    as (cl' & H1 & H2).
  - reflexivity.
  - vm_compute. reflexivity.
  - vm_compute. reflexivity.
  - vm_compute. reflexivity.
  - intros node c Hc. assert (f_notReady demo_unready = {["node-1" := {| c_Type := ConditionHostReady; c_Status := HostReadyFalse; c_Reason := "KVMMissing";
      c_Message := "no /dev/kvm" |}]}) as Heq by (vm_compute; reflexivity). rewrite Heq in Hc. apply lookup_singleton_Some in Hc as [_ <-]. reflexivity.
  - apply surjective_pairing.
  - exists cl'. split; [exact H1|].
    match type of H2 with if ?b then _ else _ => assert (b = false) as Hno by (vm_compute; reflexivity); rewrite Hno in H2; clear Hno end.
    destruct H2 as (H2 & _ & _ & _ & H3). split; [exact H2|]. rewrite (H3 "node-1" "10.0.0.1:9443") by (vm_compute; reflexivity).
    vm_compute. reflexivity.
Defined.

(** A Pool that is deleted while a claim of it is held, and created again,
    begins with no leased MicroVM; the release of that claim counts one down,
    so that it has -1 leased and one warm MicroVM more than its size. *)
Definition demo_recreated : cluster :=
  let y := after_reconcile [] [(demo_benv 1, demo_bound)] [] demo_y2 in
  let cl := default demo_claim (y_claims y !! 1) in
  let y := after_reconcile [demo_pool 1] [(demo_benv 2, cl)] [] y in
  after_reconcile [demo_pool 1] [] [] (with_claims (delete 1 (y_claims y)) y).
Example recreated_pool_miscounts : f_pools (y_f demo_recreated) !! "small" = Some {| fp_size := 1; fp_warm := 2; fp_leased := -1 |}
  /\ f_held (y_f demo_recreated) = ∅.
Proof. split; vm_compute; reflexivity. Qed.
