(* ===== verification/DevStack.v ===== *)
(** * cmd/flintlock-devstack: the stack on a laptop

    main.go and trace.go: the command line, the rendering of Job logs, the
    jobs and the exit status.  The end-to-end harness that it drives is behind
    the arguments; the progress lines it prints are not modelled. *)
From S2P Require Import Prelude GoModel Base64 GoStrings FakePool FakeCmd.
From Stdlib Require Import Ascii.

Definition newline : ascii := "010"%char.
Definition carriage : ascii := "013"%char.
Definition escape : ascii := "027"%char.

(** ** strings and regexp *)
Fixpoint Split (s : string) (sep : ascii) : list string :=
  match s with
  | EmptyString => [""]
  | String c s => if Ascii.eqb c sep then "" :: Split s sep
                  else match Split s sep with w :: l => String c w :: l | [] => [String c ""] end
  end.
Fixpoint TrimSuffix_byte (s : string) (c : ascii) : string :=
  match s with
  | EmptyString => ""
  | String d EmptyString => if Ascii.eqb d c then "" else s
  | String d s => String d (TrimSuffix_byte s c)
  end.
(** [TrimRight] of one byte. *)
Fixpoint TrimRight_byte (s : string) (c : ascii) : string :=
  match s with
  | EmptyString => ""
  | String d s => match TrimRight_byte s c with
                  | EmptyString => if Ascii.eqb d c then "" else String d ""
                  | t => String d t
                  end
  end.

Definition between (lo hi : Z) (c : ascii) : bool := (lo <=? byte_of c) && (byte_of c <=? hi).
Definition is_dec (c : ascii) : bool := between 48 57 c.
Definition is_hex (c : ascii) : bool := is_dec c || between 65 70 c || between 97 102 c.
Definition is_letter (c : ascii) : bool := between 65 90 c || between 97 122 c.
Fixpoint skip_while (p : ascii -> bool) (s : string) : string :=
  match s with String c t => if p c then skip_while p t else s | EmptyString => s end.
(** One byte of a class, a literal, one or more of a class: the rest. *)
Definition one (p : ascii -> bool) (s : string) : option string :=
  match s with String c t => if p c then Some t else None | EmptyString => None end.
Definition lit (c : ascii) : string -> option string := one (Ascii.eqb c).
Fixpoint word (w s : string) : option string :=
  match w with EmptyString => Some s | String c w => s ← lit c s; word w s end.
Definition some (p : ascii -> bool) (s : string) : option string := skip_while p <$> one p s.
Fixpoint times (n : nat) (p : ascii -> bool) (s : string) : option string :=
  match n with O => Some s | S n => s ← one p s; times n p s end.
Definition opt (m : string -> option string) (s : string) : string := default s (m s).

(** [timestampTag]: what follows it, and its group. *)
Definition timestampTag (s : string) : option (string * string) :=
  s ← times 4 is_dec s; s ← lit "-" s; s ← times 2 is_dec s; s ← lit "-" s; s ← times 2 is_dec s; s ← lit "T" s;
  s ← times 2 is_dec s; s ← lit ":" s; s ← times 2 is_dec s; s ← lit ":" s; s ← times 2 is_dec s;
  s ← lit "Z" (opt (fun s => s ← lit "." s; some is_dec s) s); s ← lit " " s; s ← times 2 is_hex s;
  s ← one (fun c => Ascii.eqb c "O" || Ascii.eqb c "E") s;
  match s with
  | String c t => if Ascii.eqb c "+" || Ascii.eqb c " " then Some (t, String c "") else Some (s, "")
  | EmptyString => Some (s, "")
  end.
Definition sectionMarker (s : string) : option string :=
  s ← word "section_" s; s ← (match word "start" s with Some s => Some s | None => word "end" s end);
  s ← lit ":" s; s ← some is_dec s; s ← lit ":" s;
  Some (opt (lit carriage) (skip_while (fun c => negb (Ascii.eqb c carriage || Ascii.eqb c newline)) s)).
Definition eraseLine (s : string) : option string := s ← lit escape s; s ← lit "[" s; lit "K" (opt (lit "0") s).
Definition ansi (s : string) : option string :=
  s ← lit escape s; s ← lit "[" s; one is_letter (skip_while (fun c => is_dec c || Ascii.eqb c ";" || Ascii.eqb c "?") s).
(** [ReplaceAllString(s, EmptyString)] of a pattern that matches no empty text. *)
Fixpoint remove_all (fuel : nat) (m : string -> option string) (s : string) : string :=
  match fuel, s with
  | S fuel, String c t => match m s with Some rest => remove_all fuel m rest | None => String c (remove_all fuel m t) end
  | _, _ => s
  end.
Definition remove (m : string -> option string) (s : string) : string := remove_all (String.length s) m s.

(** ** trace.go *)
Record trace_line := { tl_text : string; tl_marker : bool }.
Record traceWriter := { t_prefix : string; t_raw : bool; t_plain : bool; t_pending : string; t_out : list string }.
#[export] Instance eta_traceWriter : Eta traceWriter :=
  fun r => {| t_prefix := t_prefix r; t_raw := t_raw r; t_plain := t_plain r; t_pending := t_pending r; t_out := t_out r |}.
Definition newTraceWriter (prefix : string) (raw plain : bool) : traceWriter :=
  {| t_prefix := prefix; t_raw := raw; t_plain := plain; t_pending := ""; t_out := [] |}.

Definition continues (rec : string) : bool := match timestampTag rec with Some (_, g) => String.eqb g "+" | None => false end.
Definition untagged (rec : string) : string := match timestampTag rec with Some (r, _) => r | None => rec end.
Definition cleaned (plain : bool) (rec : string) : string :=
  let c := remove eraseLine (remove sectionMarker rec) in TrimRight_byte (if plain then remove ansi c else c) carriage.
(** The line of a record that does not continue one. *)
Definition new_line (raw plain : bool) (rec : string) : trace_line :=
  if raw then {| tl_text := TrimSuffix_byte rec carriage; tl_marker := false |}
  else let rec := untagged rec in
       {| tl_text := cleaned plain rec; tl_marker := String.eqb (cleaned plain rec) "" && negb (String.eqb rec "") |}.
Definition join_line (plain : bool) (rec : string) (l : trace_line) : trace_line :=
  let c := cleaned plain (untagged rec) in {| tl_text := tl_text l +:+ c; tl_marker := tl_marker l && String.eqb c "" |}.
Definition add_record (raw plain : bool) (lines : list trace_line) (rec : string) : list trace_line :=
  if negb raw && continues rec then
    match lines with [] => [new_line raw plain rec] | _ => alter (join_line plain rec) (length lines - 1)%nat lines end
  else lines ++ [new_line raw plain rec].
Definition shown (prefix : string) (lines : list trace_line) : list string :=
  omap (fun l => if tl_marker l then None else Some (prefix +:+ tl_text l)) lines.
Definition render (records : list string) (t : traceWriter) : traceWriter :=
  t <| t_out := t_out t ++ shown (t_prefix t) (fold_left (add_record (t_raw t) (t_plain t)) records []) |>.
Definition trace_write (chunk : string) (t : traceWriter) : traceWriter :=
  let pending := t_pending t +:+ chunk in
  match CutLast pending newline with
  | None => t <| t_pending := pending |>
  | Some (complete, rest) => render (Split complete newline) (t <| t_pending := rest |>)
  end.
Definition flush (t : traceWriter) : traceWriter :=
  if String.eqb (t_pending t) "" then t else (render [t_pending t] t) <| t_pending := "" |>.

(** The lines of a text that have ended, and the rest of it. *)
Fixpoint scan (s : string) : list string * string :=
  match s with
  | EmptyString => ([], "")
  | String c s => let '(l, p) := scan s in
                  if Ascii.eqb c newline then ("" :: l, p) else match l with w :: l => (String c w :: l, p) | [] => ([], String c p) end
  end.
Definition records_of (s : string) : list string := let '(l, p) := scan s in l ++ (if String.eqb p "" then [] else [p]).

Lemma scan_rest s p : scan s = ([], p) -> p = s.
Proof.
  revert p. induction s as [|c s IH]; intros p; simpl; [by intros [= <-]|]. destruct (scan s) as [l q]. destruct (Ascii.eqb c newline); [done|].
  destruct l; [|done]. intros [= <-]. by rewrite (IH q).
Qed.
Lemma scan_app a b : scan (a +:+ b) = ((scan a).1 ++ (scan ((scan a).2 +:+ b)).1, (scan ((scan a).2 +:+ b)).2).
Proof.
  induction a as [|c a IH]; simpl; [apply surjective_pairing|]. rewrite IH. destruct (scan a) as [la pa] eqn:Ea. simpl.
  destruct (scan (pa +:+ b)) as [lb pb] eqn:Eb. simpl. destruct (Ascii.eqb c newline) eqn:Ec; [simpl; by rewrite Eb|].
  destruct la as [|w la]; simpl; [|by rewrite Eb]. rewrite Eb, Ec. by destruct lb.
Qed.
Lemma scan_CutLast s : match CutLast s newline with Some (a, b) => scan s = (Split a newline, b) | None => scan s = ([], s) end.
Proof.
  induction s as [|c s IH]; simpl; [done|]. destruct (CutLast s newline) as [[a b]|]; rewrite IH.
  - simpl. destruct (Ascii.eqb c newline); [done|]. destruct (Split a newline) eqn:E; [|done]. destruct a; simpl in E; repeat case_match; done.
  - by destruct (Ascii.eqb c newline) eqn:Ec.
Qed.

(** Records none of which continues another, or any in raw mode, are rendered
    one by one. *)
Definition separate (raw : bool) (recs : list string) : Prop := raw = true \/ Forall (fun r => continues r = false) recs.
Lemma add_records raw plain recs lines : separate raw recs -> fold_left (add_record raw plain) recs lines = lines ++ (new_line raw plain <$> recs).
Proof.
  revert lines. induction recs as [|r recs IH]; intros lines H; simpl; [by rewrite app_nil_r|].
  assert (Hr : negb raw && continues r = false /\ separate raw recs).
  { destruct H as [->|H]; [split; [done|by left]|]. apply Forall_cons in H as [-> H]. rewrite andb_false_r. split; [done|by right]. }
  destruct Hr as [Hr H']. unfold add_record at 2. by rewrite Hr, IH, <-app_assoc.
Qed.

Lemma shown_app p a b : shown p (a ++ b) = shown p a ++ shown p b.
Proof. apply omap_app. Qed.

Lemma write_scan chunk t : separate (t_raw t) (scan (t_pending t +:+ chunk)).1 ->
  trace_write chunk t = t <| t_pending := (scan (t_pending t +:+ chunk)).2 |>
    <| t_out := t_out t ++ shown (t_prefix t) (new_line (t_raw t) (t_plain t) <$> (scan (t_pending t +:+ chunk)).1) |>.
Proof.
  intros H. unfold trace_write. pose proof (scan_CutLast (t_pending t +:+ chunk)) as Hs.
  destruct (CutLast _ newline) as [[complete rest]|]; rewrite Hs in *; simpl in *.
  - unfold render. simpl. by rewrite add_records.
  - unfold shown. simpl. rewrite app_nil_r. by destruct t.
Qed.

Lemma scan_again s : scan (scan s).2 = ([], (scan s).2).
Proof.
  induction s as [|c s IH]; simpl; [done|]. destruct (scan s) as [l p]. simpl in IH. destruct (Ascii.eqb c newline) eqn:Ec; [done|].
  destruct l; simpl; [|done]. by rewrite IH, Ec.
Qed.
Lemma append_nil s : s +:+ "" = s.
Proof. induction s as [|c s IH]; [done|]. change (String c (s +:+ "") = String c s). by rewrite IH. Qed.
Lemma append_assoc' a b c : a +:+ (b +:+ c) = (a +:+ b) +:+ c.
Proof. induction a as [|x a IH]; [done|]. change (String x (a +:+ (b +:+ c)) = String x ((a +:+ b) +:+ c)). by rewrite IH. Qed.

Definition traced (prefix : string) (raw plain : bool) (chunks : list string) : list string :=
  t_out (flush (fold_left (fun t c => trace_write c t) chunks (newTraceWriter prefix raw plain))).

(** The log of a Job.  However the log arrives in pieces, what is shown is the
    rendering of its lines, each once and in order, the last one also when it
    is not ended: in raw mode always, and else unless a record continues the
    one before, which is joined to it only when they come together. *)
Theorem trace_chunks prefix raw plain chunks : let log := fold_right (fun a b => a +:+ b) "" chunks in
  separate raw (records_of log) -> traced prefix raw plain chunks = shown prefix (new_line raw plain <$> records_of log).
Proof.
  cbv zeta. unfold traced.
  assert (Hgen : forall t, scan (t_pending t) = ([], t_pending t) -> separate (t_raw t) (records_of (t_pending t +:+ fold_right (fun a b => a +:+ b) "" chunks)) ->
    t_out (flush (fold_left (fun t c => trace_write c t) chunks t))
    = t_out t ++ shown (t_prefix t) (new_line (t_raw t) (t_plain t) <$> (records_of (t_pending t +:+ fold_right (fun a b => a +:+ b) "" chunks)))).
  2:{ intros H. by apply (Hgen (newTraceWriter prefix raw plain)). }
  induction chunks as [|c chunks IH]; intros t E0 H; simpl.
  - unfold records_of in *. simpl in H. rewrite append_nil in *. rewrite E0 in *. unfold flush.
    destruct (String.eqb (t_pending t) ""); [simpl; by rewrite app_nil_r|]. pose proof (add_records (t_raw t) (t_plain t) [t_pending t] [] H) as Ha. unfold render. simpl in *. by rewrite Ha.
  - assert (Hrec : forall x, records_of (t_pending t +:+ (c +:+ x)) = (scan (t_pending t +:+ c)).1 ++ records_of ((scan (t_pending t +:+ c)).2 +:+ x)).
    { intros x. unfold records_of. rewrite append_assoc', scan_app. destruct (scan (t_pending t +:+ c)) as [l p]. simpl.
      destruct (scan (p +:+ x)) as [l2 p2]. simpl. by rewrite app_assoc. }
    simpl in H. rewrite Hrec in H.
    assert (Hsep : separate (t_raw t) (scan (t_pending t +:+ c)).1 /\ separate (t_raw t) (records_of ((scan (t_pending t +:+ c)).2 +:+ fold_right (fun a b => a +:+ b) "" chunks))).
    { destruct H as [H|[H1 H2]%Forall_app]; [split; by left|split; by right]. }
    rewrite (write_scan c t (proj1 Hsep)), IH; [|apply scan_again|exact (proj2 Hsep)].
    simpl. rewrite Hrec, fmap_app, shown_app. by rewrite app_assoc.
Qed.

Definition demo_chunks : list string := ["2026-01-01T00:00:00.5Z 00O hel"; "lo" +:+ String newline "2026-01-01T00:00:00Z 01E bye"].
Lemma trace_chunks_witness : traced "1| " false true demo_chunks = ["1| hello"; "1| bye"]
  /\ traced "1| " false true demo_chunks = shown "1| " (new_line false true <$> records_of (fold_right (fun a b => a +:+ b) "" demo_chunks)).
Proof.
  split; [vm_compute; reflexivity|]. apply trace_chunks. right. vm_compute. repeat constructor.
Defined.

(** Raw lines are not printed exactly as they arrive: a carriage return at
    their end is dropped. *)
Example raw_drops_carriage : traced "" true false [String "a" (String carriage (String newline ""))] = ["a"].
Proof. vm_compute. reflexivity. Qed.
(** A section marker alone is not shown, a blank line of the Job is, and a
    continuation that comes with the marker's line fills it. *)
Example trace_sections :
  traced "" false true [String.concat (String newline "") ["section_start:1:prep" +:+ String carriage (String escape "[0K"); ""; "2026-01-01T00:00:00Z 00O section_end:2:prep" +:+ String carriage "";
                         "2026-01-01T00:00:00Z 00O+more"; ""]] = [""; "more"].
Proof. vm_compute. reflexivity. Qed.

(** ** main.go: the command line *)
Definition quoted (s : string) : string := String "034"%char (s +:+ String "034"%char "").
Definition defaultScript : list string :=
  ["echo " +:+ quoted "Hello from job $CI_JOB_ID, running in a flintlock MicroVM (a fake one: this is a local process)";
   "echo " +:+ quoted "kernel: $(uname -sr), user: $(id -un), cwd: $(pwd)";
   "for i in 1 2 3; do echo " +:+ quoted "working... step $i of 3" +:+ "; sleep 1; done"; "echo " +:+ quoted "done"].
Record dev_options := {
  d_jobs : Z; d_script : list string; d_hosts : Z; d_poolSize : Z; d_runnerBin : string; d_keep : bool; d_timeout : duration;
  d_runnerLogs : bool; d_raw : bool }.
#[export] Instance eta_dev_options : Eta dev_options :=
  fun r => {| d_jobs := d_jobs r; d_script := d_script r; d_hosts := d_hosts r; d_poolSize := d_poolSize r; d_runnerBin := d_runnerBin r;
              d_keep := d_keep r; d_timeout := d_timeout r; d_runnerLogs := d_runnerLogs r; d_raw := d_raw r |}.
Definition blank (s : string) : bool := String.eqb (TrimSpace s) "".
Definition scriptLines (s : string) : list string := filter (fun l => blank l = false) (Split s newline).

Section DevFlags.
(** The harness's defaults, strconv.ParseInt in base 0, time.ParseDuration and
    os.ReadFile. *)
Context (DefaultHosts DefaultPoolSize : Z) (ParseDuration : string -> option duration) (ParseInt0 : string -> option Z)
        (ReadFile : string -> result string).

Definition dev_defaults : dev_options * string * string :=
  ({| d_jobs := 1; d_script := []; d_hosts := DefaultHosts; d_poolSize := DefaultPoolSize; d_runnerBin := ""; d_keep := false;
      d_timeout := 5 * 60 * second; d_runnerLogs := false; d_raw := false |}, "", "").
Definition dev_is_bool (name : string) : option bool :=
  if bool_decide (name ∈ ["keep"; "runner-logs"; "raw"]) then Some true
  else if bool_decide (name ∈ ["jobs"; "script"; "script-file"; "hosts"; "pool-size"; "runner-bin"; "timeout"]) then Some false else None.
Definition dev_set (name v : string) (st : dev_options * string * string) : error + (dev_options * string * string) :=
  let '(o, script, scriptFile) := st in
  let int (k : Z -> dev_options) := match ParseInt0 v with Some n => inr (k n, script, scriptFile) | None => inl (ENew "parse error") end in
  let bool (k : bool -> dev_options) := match ParseBool v with Some b => inr (k b, script, scriptFile) | None => inl (ENew "parse error") end in
  if String.eqb name "jobs" then int (fun n => o <| d_jobs := n |>)
  else if String.eqb name "hosts" then int (fun n => o <| d_hosts := n |>)
  else if String.eqb name "pool-size" then int (fun n => o <| d_poolSize := n |>)
  else if String.eqb name "keep" then bool (fun b => o <| d_keep := b |>)
  else if String.eqb name "runner-logs" then bool (fun b => o <| d_runnerLogs := b |>)
  else if String.eqb name "raw" then bool (fun b => o <| d_raw := b |>)
  else if String.eqb name "script" then inr (o, v, scriptFile)
  else if String.eqb name "script-file" then inr (o, script, v)
  else if String.eqb name "runner-bin" then inr (o <| d_runnerBin := v |>, script, scriptFile)
  else match ParseDuration v with Some d => inr (o <| d_timeout := d |>, script, scriptFile) | None => inl (ENew "parse error") end.

Definition with_script (script : string) (o : dev_options) : dev_options :=
  let lines := if String.eqb script "" then d_script o else scriptLines script in
  o <| d_script := match lines with [] => defaultScript | _ => lines end |>.
Definition dev_parseFlags (args : list string) : flag_error + dev_options :=
  match parse_flags dev_is_bool dev_set (length args) args dev_defaults with
  | inl e => inl e
  | inr (_, a :: _) => inl (FlagErr (ENew ("unexpected argument " +:+ a)))
  | inr ((o, script, scriptFile), []) =>
      if (d_jobs o <? 0) || (d_hosts o <? 1) || (d_poolSize o <? 1) then inl (FlagErr (ENew "-jobs must be >= 0, -hosts and -pool-size >= 1"))
      else if negb (String.eqb script "") && negb (String.eqb scriptFile "") then inl (FlagErr (ENew "-script and -script-file are mutually exclusive"))
      else if negb (String.eqb scriptFile "") then match ReadFile scriptFile with Err e => inl (FlagErr e) | Ok data => inr (with_script data o) end
      else inr (with_script script o)
  end.
End DevFlags.

(** ** The jobs *)
Definition StatusSuccess : string := "success".
Record job_record := { j_Status : string; j_FailureReason : string; j_ExitCode : Z }.
Record job_result := { r_id : Z; r_status : string; r_reason : string; r_exit : Z; r_err : option error }.

(** What the harness answers. *)
Record harness_env := {
  he_MkdirTemp : option error; he_Create : option error; he_Start : option error; he_StartRunner : option error; he_WaitReady : option error;
  he_Enqueue : nat -> error + Z; he_Follow : Z -> option job_record * option error; he_interrupted : bool; he_Shutdown : option error }.

Definition follow (env : harness_env) (id : Z) : job_result :=
  let '(rec, err) := he_Follow env id in
  {| r_id := id; r_err := err;
     r_status := match rec with Some j => j_Status j | None => "" end; r_reason := match rec with Some j => j_FailureReason j | None => "" end;
     r_exit := match rec with Some j => j_ExitCode j | None => 0 end |}.
Definition run_job (env : harness_env) (i : nat) : job_result :=
  match he_Enqueue env i with inl e => {| r_id := 0; r_status := ""; r_reason := ""; r_exit := 0; r_err := Some e |} | inr id => follow env id end.
Definition runJobs (env : harness_env) (n : Z) : list job_result := run_job env <$> seq 0 (Z.to_nat n).
Definition succeeded (r : job_result) : bool := match r_err r with None => String.eqb (r_status r) StatusSuccess | Some _ => false end.
Definition summarise (results : list job_result) : bool := Nat.eqb (length (filter (fun r => succeeded r = true) results)) (length results).

(** [keep]: the commands that are typed, in whatever pieces they are read, and
    the jobs they become. *)
Definition read_lines (st : list string * string) (chunk : string) : list string * string :=
  let '(l, p) := scan (st.2 +:+ chunk) in (st.1 ++ l, p).
Definition keep (chunks : list string) : list string := filter (fun l => blank l = false) (fold_left read_lines chunks ([], "")).1.

Inductive dev_event := StackStarted | JobsDone (ok : bool) | StackShutdown.
(** [session] and [run], with the exit status. *)
Definition session (env : harness_env) (o : dev_options) : list dev_event * bool :=
  match he_StartRunner env, he_WaitReady env with
  | Some _, _ | None, Some _ => ([], false)
  | None, None =>
      let ok := summarise (runJobs env (d_jobs o)) in ([JobsDone ok], if he_interrupted env then false else ok)
  end.
Definition dev_run (parsed : flag_error + dev_options) (env : harness_env) : list dev_event * Z :=
  match parsed with
  | inl ErrHelp => ([], 0)
  | inl (FlagErr _) => ([], 2)
  | inr o =>
      match he_MkdirTemp env, he_Create env, he_Start env with
      | None, None, None =>
          let '(ev, ok) := session env o in
          let ok := match he_Shutdown env with Some _ => false | None => ok end in
          (StackStarted :: ev ++ [StackShutdown], if ok then 0 else 1)
      | _, _, _ => ([], 1)
      end
  end.

Lemma summarise_all results : summarise results = true <-> Forall (fun r => succeeded r = true) results.
Proof.
  unfold summarise. rewrite Nat.eqb_eq. induction results as [|r results IH]; simpl; [by split|]. rewrite Forall_cons, filter_cons.
  case_decide as Hs; simpl; [rewrite <-IH; split; [intros H; split; [done|lia]|intros [_ H]; lia]|].
  pose proof (length_filter (fun r => succeeded r = true) results). split; [intros H1; exfalso; lia|by intros []].
Qed.

(** The exit status.  It is 2 exactly for a bad command line, and 0 exactly
    for -h or when everything started, every Job was queued, followed to its
    end and succeeded, nothing interrupted them and the shutdown found
    nothing wrong; and once the stack has started it is always shut down. *)
Theorem devstack_exit parsed env : let '(ev, code) := dev_run parsed env in
  (code = 2 <-> exists e, parsed = inl (FlagErr e))
  /\ (code = 0 <-> parsed = inl ErrHelp \/ exists o, parsed = inr o
        /\ he_MkdirTemp env = None /\ he_Create env = None /\ he_Start env = None /\ he_StartRunner env = None /\ he_WaitReady env = None
        /\ (forall i, (i < Z.to_nat (d_jobs o))%nat -> exists id rec, he_Enqueue env i = inr id /\ he_Follow env id = (Some rec, None) /\ j_Status rec = StatusSuccess)
        /\ he_interrupted env = false /\ he_Shutdown env = None)
  /\ (StackStarted ∈ ev -> last ev = Some StackShutdown).
Proof.
  destruct parsed as [[|e]|o]; simpl.
  - split_and!; [split; [done|by intros [??]]|split; [by left|done]|by intros ?%elem_of_nil].
  - split_and!; [split; [eauto|done]|split; [done|by intros [|(? & ? & _)]]|by intros ?%elem_of_nil].
  - assert (Hjobs : summarise (runJobs env (d_jobs o)) = true <-> forall i, (i < Z.to_nat (d_jobs o))%nat ->
      exists id rec, he_Enqueue env i = inr id /\ he_Follow env id = (Some rec, None) /\ j_Status rec = StatusSuccess).
    { rewrite summarise_all. unfold runJobs. rewrite Forall_fmap, Forall_forall. split.
      - intros H i Hi. assert (i ∈ seq 0 (Z.to_nat (d_jobs o))) as Hin by (apply elem_of_seq; lia). specialize (H i Hin). simpl in H. unfold run_job in H.
        destruct (he_Enqueue env i) as [|id]; [done|]. unfold follow, succeeded in H. destruct (he_Follow env id) as [[rec|] [err|]] eqn:Ef; simpl in H; try done.
        apply String.eqb_eq in H. by exists id, rec.
      - intros H i Hi%elem_of_seq. simpl. unfold run_job. destruct (H i) as (id & rec & -> & Hf & Hs); [lia|].
        unfold follow, succeeded. rewrite Hf. simpl. by rewrite Hs. }
    destruct (he_MkdirTemp env) eqn:E1, (he_Create env) eqn:E2, (he_Start env) eqn:E3; simpl;
      try (split_and!; [split; [done|by intros [??]]|split; [done|intros [|(? & ? & ? & ? & ? & _)]; congruence]|by intros ?%elem_of_nil]).
    destruct (session env o) as [ev ok] eqn:Es. split_and!.
    + split; [|by intros [??]]. by destruct (he_Shutdown env), ok.
    + unfold session in Es. split.
      * intros Hc. right. exists o. destruct (he_Shutdown env); [done|]. destruct ok; [|done].
        destruct (he_StartRunner env), (he_WaitReady env); try done. destruct (he_interrupted env); [done|]. injection Es as _ Es. split_and!; try done. by apply Hjobs.
      * intros [|(o1 & [= <-] & _ & _ & _ & H1 & H2 & H3 & H4 & ->)]; [done|]. rewrite H1, H2, H4 in Es. injection Es as _ <-. by rewrite (proj2 Hjobs H3).
    + intros _. by rewrite app_comm_cons, last_snoc.
Qed.

(** The commands of keep do not depend on how they are read. *)
Lemma read_lines_chunks chunks st : scan st.2 = ([], st.2) ->
  (fold_left read_lines chunks st).1 = st.1 ++ (scan (st.2 +:+ fold_right (fun a b => a +:+ b) "" chunks)).1.
Proof.
  revert st. induction chunks as [|c chunks IH]; intros st Hs; simpl; [rewrite append_nil, Hs; simpl; by rewrite app_nil_r|].
  unfold read_lines at 2. destruct (scan (st.2 +:+ c)) as [l p] eqn:E. rewrite IH; simpl.
  - rewrite (append_assoc' st.2 c), (scan_app (st.2 +:+ c)), E. simpl. by rewrite app_assoc.
  - pose proof (scan_again (st.2 +:+ c)) as Ha. by rewrite E in Ha.
Qed.

Theorem keep_commands chunks : keep chunks = filter (fun l => blank l = false) (scan (fold_right (fun a b => a +:+ b) "" chunks)).1.
Proof. unfold keep. by rewrite read_lines_chunks. Qed.

(** What the command line accepts. *)
Theorem dev_parseFlags_accepts DH DP PD PI RF args o : dev_parseFlags DH DP PD PI RF args = inr o ->
  0 <= d_jobs o /\ 1 <= d_hosts o /\ 1 <= d_poolSize o /\ d_script o <> [] /\ Forall (fun l => blank l = false) (d_script o).
Proof.
  unfold dev_parseFlags. destruct (parse_flags _ _ _ args _) as [|[[[o1 script] scriptFile] rest]] eqn:Ep; [done|].
  assert (Hs : d_script o1 = []).
  { apply (parse_flags_inv dev_is_bool (dev_set PD PI) (fun st => d_script st.1.1 = [])) in Ep; [done| |done].
    intros a name v [[x s1] s2] [[y s3] s4] _ _ Hx. unfold dev_set. intros H. repeat case_match; simplify_eq/=; done. }
  destruct rest; [|done]. destruct (_ || _) eqn:E1; [done|]. apply orb_false_iff in E1 as [[E1 E2]%orb_false_iff E3].
  apply Z.ltb_ge in E1, E2, E3. destruct (_ && _); [done|].
  assert (Hw : forall s, 0 <= d_jobs (with_script s o1) /\ 1 <= d_hosts (with_script s o1) /\ 1 <= d_poolSize (with_script s o1)
    /\ d_script (with_script s o1) <> [] /\ Forall (fun l => blank l = false) (d_script (with_script s o1))).
  { intros s. unfold with_script. rewrite Hs. set (lines := if String.eqb s "" then [] else scriptLines s).
    assert (Forall (fun l => blank l = false) lines) as Hf.
    { unfold lines. destruct (String.eqb s ""); [constructor|]. apply Forall_forall. intros l Hl%list_elem_of_filter. by destruct Hl. }
    simpl. split_and!; try done; [by destruct lines|]. destruct lines; [|done]. repeat constructor. }
  destruct (negb _); [destruct (RF scriptFile); [|done]|]; intros [= <-]; apply Hw.
Qed.

Definition demo_dev : list string -> flag_error + dev_options :=
  dev_parseFlags 2 1 (fun _ => None) (fun s => Atoi s) (fun _ => Err (ENew "no file")).
Lemma dev_parseFlags_accepts_witness : exists o, demo_dev ["-jobs"; "3"; "-script=exit 3"] = inr o /\ d_jobs o = 3 /\ d_script o = ["exit 3"] /\ 1 <= d_hosts o.
Proof.
  assert (H : exists o, demo_dev ["-jobs"; "3"; "-script=exit 3"] = inr o /\ d_jobs o = 3 /\ d_script o = ["exit 3"]) by (eexists; split_and!; vm_compute; reflexivity).
  destruct H as (o & H & H1 & H2). destruct (dev_parseFlags_accepts _ _ _ _ _ _ _ H) as (_ & H3 & _). exists o. split_and!; assumption.
Defined.
